(* ===== verification/_CoqProject ===== *)
-Q . S2P
Prelude.v
LogUtils.v
Memory.v
Floats.v
Hash.v
ArgSerialization.v
BufferDefs.v
HashMap.v
HashMapList.v
HashMapTheorems.v
HashMapSpec.v
HashCache.v
HashCacheTheorems.v
LogEntry.v
RecordWriter.v
Siso.v
Miso.v
MisoProofs.v
MisoTheorems.v
LogBuffer.v
BlockList.v
BlockGroup.v
LogBufferReader.v
LogBufferSystem.v
LogBufferGhost.v
LogBufferFrame.v
LogBufferWriter.v
LogBufferCalls.v
LogBufferReads.v
LogBufferTraverse.v
LogBufferGroups.v
LogBufferTheorems.v
Utf.v
Layout.v
LayoutProofs.v
LayoutTheorems.v
StringUtils.v
TimeZone.v
LayoutLine.v
LayoutLimits.v
Random.v
Vernam.v
Aes.v
BigNum.v
RsaTheory.v
Rsa.v
FileCache.v
FileFlush.v
FileCacheTheorems.v
Binary.v
BinaryFlush.v
BinaryReader.v
BinarySegments.v
BinaryAppend.v
BinaryOpen.v
Compressed.v
CompressedSpec.v
CompressedWriter.v
CompressedTheorems.v
CompressedFile.v
