(* ===== verification/Prelude.v ===== *)
(** * QLog: a verification development of the C++ logging library QLog

    QLog is a logger for programs with many threads. A call of the log functions writes one
    binary record into a buffer shared with a worker; the worker takes the records out and
    hands each to the appenders, which lay it out as text or pack it into compressed and
    possibly encrypted files. This library models the code between the two ends as executable
    definitions and proves that what went in comes out.

    ** The parts and how they meet

    - _Records._ A log call measures its arguments ([ArgSerialization]:
      [record/argument_serialization.hpp]), writes header, format string, arguments and thread
      name into space of the buffer ([RecordWriter]: [runtime/record_writer.cpp], [log.hpp]),
      and commits it; [LogEntry] ([record/log_entry_handle.cpp]) validates and takes apart
      what a reader gets. [LogUtils] ([utility/log_utils.hpp]) holds the zigzag and
      variable-length codes, [Hash] ([utility/hash*.cpp]) the content hashes.
    - _Buffers._ [Siso] ([buffer/siso_ring_buffer.cpp]) is the ring of one producer and one
      consumer, [Miso]/[MisoProofs]/[MisoTheorems] ([buffer/miso_ring_buffer.cpp]) the ring of
      many producers; both with the recovery from a memory map. [BufferDefs] has what they
      share. [LogBuffer] and [LogBufferReader] ([buffer/log_buffer.cpp],
      [buffer/group_list.cpp]) are the buffer of a logger made of these rings: the shared
      ring, the blocks of the busy threads, the oversize buffers, and the reader that walks
      them. [LogBufferSystem] puts writers and reader together as a system of steps with the
      calling protocol and its invariant; [LogBufferGhost], [LogBufferFrame],
      [LogBufferWriter], [LogBufferCalls], [LogBufferReads], [LogBufferTraverse] and
      [LogBufferGroups] show that the steps keep it, [LogBufferTheorems] has the results.
      The lists of blocks in it are lists of indices there; [BlockList]
      ([buffer/block_list.hpp]) has the list of many threads as its atomic accesses, and
      [BlockGroup] the links under the used list and how the lists of a group are found in a
      memory map.
    - _Layout._ [Layout], [LayoutProofs], [LayoutTheorems], [LayoutLine], [LayoutLimits]
      ([layout/layout.cpp]) turn a record into a line of text; [TimeZone]
      ([layout/time_zone.cpp]) keeps the text of the current time, [StringUtils]
      ([utility/string_utils.cpp]), [Utf] ([utility/utf_conversion.cpp], [utf_mixed.cpp]) and
      [Floats] (the parts of [double] and [float] the layout looks at) serve it.
    - _Files._ [FileCache], [FileFlush], [FileCacheTheorems]
      ([runtime/appender/appender_file_base.cpp]) are the write cache, the read cache and the
      rolling of files; [Binary] with [BinaryFlush], [BinaryReader], [BinarySegments],
      [BinaryAppend], [BinaryOpen] ([appender_file_binary.cpp]) the container of segments
      with its encrypting flush; [Compressed] with [CompressedSpec], [CompressedWriter],
      [CompressedTheorems], [CompressedFile] ([appender_file_compressed.cpp]) the packed
      format with its template caches.
    - _Encryption._ [Vernam] ([encryption/vernam.cpp]), [Aes] ([encryption/aes.cpp]),
      [BigNum], [RsaTheory], [Rsa] ([encryption/rsa.cpp]), [Random] ([utility/random.cpp]).
    - _Containers._ [HashMap], [HashMapList], [HashMapTheorems], [HashMapSpec]
      ([utility/hash_map_impl.hpp]), [HashCache], [HashCacheTheorems]
      ([utility/bounded_hash_cache.hpp]).

    ** How the code is represented

    A machine integer of width [w] is a [Z] between 0 and [2^w]; where the code wraps, [u8],
    [u16], [u32], [u64] are written out. Memory is a list of bytes with checked loads and
    stores ([Memory]): a definition is [None] exactly when an assertion fails, an access is
    out of bounds, or - where there is fuel - the fuel ends; theorems that say that a
    definition returns [Some] exclude all three. State is passed explicitly; the two ring
    buffers are step relations whose steps are the atomic accesses of the code, and producers
    and consumer interleave freely. The log buffer stands on what is proved of its rings: a
    ring is there the sequence of its chunks, and a step is a call of a writer or a turn of
    the reader. What the operating system answers - how much of a write is taken, whether
    memory is given - and what is drawn at random are arguments.

    Interfaces: [Hash.CrcOps] is the choice between the hardware and the software checksum,
    and the theorems hold for both; [FileCache.Flush] is the virtual flush of an appender and
    [FileFlush.FlushLaws] what every flush promises. The write cache and the compressed
    appender are proved against [FlushLaws]; the flush of the base class and the encrypting
    flush are its instances ([FileFlush.base_flush_laws], [BinaryFlush.binary_flush_laws]),
    so their theorems hold for plain and for encrypted files.

    ** What the theorems show

    - Buffers: every permitted call succeeds, chunks come out in order and unchanged,
      producers' areas do not overlap, producers do not wait for ever, and a recovery reads
      back what was committed - with many producers, up to the first unfinished reservation,
      when no chunk before it is one that the check refuses. The log buffer is a queue for every thread: whatever
      the order of the steps of its writers and its reader, nothing fails and what a thread
      committed is what was returned of it followed by what is still there. The lists of blocks
      are stacks in every interleaving, and after a recovery the lists of a group share out
      its blocks whatever the memory held.
    - Records: a granted call commits a valid record that reads back as the arguments given;
      validation accepts exactly the well-formed records.
    - Layout: the line is the specification's rendering of format and arguments; the cached
      time is the time.
    - Files: the cache is an append-only log over any flush; appending a segment refines
      appending to a list of segments (a link that is written in part is the one failure that
      leaves a trace); an opened file holds the payload, plain or under its key stream, and a
      plain one is recognised later and read on; the walks over a file end whatever it holds;
      a compressed file decodes to the records logged.
    - Encryption: decrypting undoes encrypting, the four vector routines of the stream cipher
      are one function, the limb arithmetic is modular exponentiation.
    - Containers: the hash map refines the finite map, the bounded cache a map that gives
      entries up for stated reasons only.

    ** Fuel and bounds

    Loops that are not structural have fuel, always a bound on the number of turns that is
    proved to be enough: the length of a file for the walks over its segments (every head is
    at least twelve bytes behind the last), the number of nodes for those of the hash map,
    the length of a buffer for the loops over it. The list of many threads assumes that no
    thread is overtaken by [2^16] changes in one exchange; the theorems on the rings assume
    fewer than [2^32] blocks between the stale cursor of a producer and the current one; those
    on the log buffer fewer than [2^32] numbers of a thread, beyond which the assertion in
    [verify_context] fails; those on the layout lines shorter than [2^31]; those on the hash
    map fewer than [2^31] nodes, on the bounded cache [2^28]; those on a compressed file fewer
    than [2^21] templates; those on files read back a size below [2^31], beyond which the seek
    of the code fails ([FileCacheTheorems.seek_32_bits]).

    ** Not modelled

    The atomics, locks, threads, files and memory maps of [platform/], the command line and
    device output of [utility/diagnostics.cpp] and the global objects are the ground the
    models stand on. The files of an appender are found, named, expired and recovered through
    the file system, which is not modelled; [log_imp.cpp], [log_manager.cpp] and
    [log_worker.cpp] connect the parts by threads and configuration. *)
From stdpp Require Import base list numbers.
From Stdlib Require Import ZArith Lia Bool.

#[export] Set Default Goal Selector "!".

Declare Scope qlog_scope.
Delimit Scope qlog_scope with qlog.
#[global] Open Scope Z_scope.

(** ** Machine integers

    A C++ unsigned integer of width [w] is a [Z] in [0 .. 2^w - 1]; arithmetic on it
    is the arithmetic of [Z] followed by [wrap w]. *)

Definition wrap (w : Z) (z : Z) : Z := z mod 2 ^ w.

Abbreviation u8 := (wrap 8).
Abbreviation u16 := (wrap 16).
Abbreviation u32 := (wrap 32).
Abbreviation u64 := (wrap 64).

(** A two's complement integer of width [w] read from its bits. *)
Definition to_signed (w : Z) (z : Z) : Z :=
  let r := z mod 2 ^ w in if r <? 2 ^ (w - 1) then r else r - 2 ^ w.

Abbreviation i32 := (to_signed 32).
Abbreviation i64 := (to_signed 64).

Definition in_range (w : Z) (z : Z) : Prop := 0 <= z < 2 ^ w.

Lemma to_signed_range (w z : Z) : 0 < w -> - 2 ^ (w - 1) <= to_signed w z < 2 ^ (w - 1).
Proof.
  intros Hw. unfold to_signed. assert (2 ^ w = 2 * 2 ^ (w - 1)) as E.
  { replace w with (1 + (w - 1)) at 1 by lia. rewrite Z.pow_add_r; lia. }
  assert (0 < 2 ^ (w - 1)) by (apply Z.pow_pos_nonneg; lia).
  pose proof (Z.mod_pos_bound z (2 ^ w) ltac:(lia)). destruct (Z.ltb_spec (z mod 2 ^ w) (2 ^ (w - 1))); lia.
Qed.

Abbreviation is_byte := (in_range 8).
Abbreviation bytes_ok := (Forall (in_range 8)).

(** [n & (2^k - 1)], with the mask written as the code writes it. *)
Lemma land_mask (n k : Z) : 0 <= k -> Z.land n (2 ^ k - 1) = n mod 2 ^ k.
Proof.
  intros Hk. replace (2 ^ k - 1) with (Z.ones k) by (rewrite Z.ones_equiv; lia).
  by apply Z.land_ones.
Qed.

Lemma land_1 (n : Z) : Z.land n 1 = n mod 2.
Proof. by apply (Z.land_ones n 1). Qed.

Lemma wrap_range (w z : Z) : 0 <= w -> in_range w (wrap w z).
Proof. intros Hw. apply Z.mod_pos_bound. apply Z.pow_pos_nonneg; lia. Qed.

Lemma wrap_small (w z : Z) : in_range w z -> wrap w z = z.
Proof. intros H. by apply Z.mod_small. Qed.

Lemma wrap_wrap (w z : Z) : wrap w (wrap w z) = wrap w z.
Proof. apply Zmod_mod. Qed.

Lemma wrap_add_l (w a b : Z) : wrap w (wrap w a + b) = wrap w (a + b).
Proof. unfold wrap. apply Zplus_mod_idemp_l. Qed.

Lemma wrap_add_r (w a b : Z) : wrap w (a + wrap w b) = wrap w (a + b).
Proof. unfold wrap. apply Zplus_mod_idemp_r. Qed.

Lemma wrap_sub_l (w a b : Z) : wrap w (wrap w a - b) = wrap w (a - b).
Proof. unfold wrap. apply Zminus_mod_idemp_l. Qed.

Lemma wrap_sub_r (w a b : Z) : wrap w (a - wrap w b) = wrap w (a - b).
Proof. unfold wrap. apply Zminus_mod_idemp_r. Qed.

Lemma to_signed_id (w z : Z) :
  0 < w -> - 2 ^ (w - 1) <= z < 2 ^ (w - 1) -> to_signed w z = z.
Proof.
  intros Hw Hz. unfold to_signed.
  assert (2 ^ w = 2 * 2 ^ (w - 1)) as E.
  { replace w with (1 + (w - 1)) at 1 by lia. rewrite Z.pow_add_r; lia. }
  destruct (Z_lt_le_dec z 0).
  - assert (z mod 2 ^ w = z + 2 ^ w) as ->.
    { symmetry. apply (Zmod_unique z (2 ^ w) (-1)); lia. }
    destruct (_ <? _) eqn:El; [apply Z.ltb_lt in El | ]; lia.
  - rewrite Z.mod_small by lia.
    destruct (_ <? _) eqn:El; [ | apply Z.ltb_ge in El]; lia.
Qed.

(** *** Cursors modulo [2^32] *)

Lemma u32_sub (a b : Z) : u32 (u32 a - u32 b) = u32 (a - b).
Proof. by rewrite wrap_sub_l, wrap_sub_r. Qed.

Lemma u32_diff (a b : Z) : 0 <= a - b < 2 ^ 32 -> u32 (u32 a - u32 b) = a - b.
Proof. intros. rewrite u32_sub. by apply wrap_small. Qed.

Lemma u32_eq_close (a b : Z) : 0 <= b - a < 2 ^ 32 -> u32 a = u32 b -> a = b.
Proof.
  intros Hd E. assert (u32 (b - a) = 0) as Hz by (rewrite <- u32_sub, E, Z.sub_diag; done).
  rewrite wrap_small in Hz by done. lia.
Qed.

(** The index of a cursor in a ring of [2^k] places. *)
Lemma land_cursor (k c : Z) : 0 <= k <= 31 -> Z.land (u32 c) (u32 (2 ^ k - 1)) = c mod 2 ^ k.
Proof.
  intros Hk. assert (0 < 2 ^ k <= 2 ^ 31) as Hb.
  { split; [apply Z.pow_pos_nonneg; lia|]. apply Z.pow_le_mono_r; lia. }
  rewrite (wrap_small 32 (2 ^ k - 1)) by (unfold in_range; lia).
  rewrite land_mask by lia. unfold wrap.
  replace 32 with (k + (32 - k)) by lia. rewrite Z.pow_add_r by lia.
  rewrite Z.rem_mul_r by (apply Z.pow_nonzero || apply Z.pow_pos_nonneg; lia).
  rewrite Z.mul_comm, Z_mod_plus_full. by rewrite Z.mod_mod by lia.
Qed.

(** ** Bit reasoning

    [zbits] proves an equation between bit expressions by comparing the two sides bit
    by bit; [bits_hyp] holds the rewriting rules. *)

Create HintDb bits.
Create Rewrite HintDb bits.
#[export] Hint Rewrite Z.land_spec Z.lor_spec Z.lxor_spec Z.bits_0 : bits.
#[export] Hint Rewrite Z.shiftr_spec Z.shiftl_spec Z.testbit_neg_r using lia : bits.
#[export] Hint Rewrite andb_false_r andb_true_r orb_false_r orb_true_r xorb_false_r
  andb_false_l andb_true_l orb_false_l orb_true_l xorb_false_l : bits.

Lemma testbit_high (w z i : Z) : in_range w z -> 0 <= w -> w <= i -> Z.testbit z i = false.
Proof.
  intros Hz Hw Hi. rewrite <- (Z.mod_small z (2 ^ w)) by done.
  by apply Z.mod_pow2_bits_high.
Qed.

Lemma testbit_mod_low (z n i : Z) : i < n -> Z.testbit (z mod 2 ^ n) i = Z.testbit z i.
Proof. intros. by apply Z.mod_pow2_bits_low. Qed.

Lemma testbit_ext (a b : Z) :
  (forall i, 0 <= i -> Z.testbit a i = Z.testbit b i) -> a = b.
Proof. intros H. apply Z.bits_inj'. exact H. Qed.

Lemma in_range_testbit (w z : Z) :
  0 <= w -> 0 <= z -> (forall i, w <= i -> Z.testbit z i = false) -> in_range w z.
Proof.
  intros Hw Hz H. split; [done|].
  destruct (decide (z = 0)) as [->|Hnz]; [apply Z.pow_pos_nonneg; lia|].
  apply Z.log2_lt_pow2; [lia|].
  destruct (Z_lt_le_dec (Z.log2 z) w) as [|Hge]; [done|].
  specialize (H (Z.log2 z) Hge). rewrite Z.bit_log2 in H by lia. done.
Qed.

Lemma lxor_range (w a b : Z) : 0 <= w -> in_range w a -> in_range w b -> in_range w (Z.lxor a b).
Proof.
  intros Hw Ha Hb. apply in_range_testbit; [done| |].
  - apply Z.lxor_nonneg. destruct Ha, Hb. tauto.
  - intros i Hi. rewrite Z.lxor_spec, !(testbit_high w) by done. done.
Qed.

Lemma lor_range (w a b : Z) : 0 <= w -> in_range w a -> in_range w b -> in_range w (Z.lor a b).
Proof.
  intros Hw Ha Hb. apply in_range_testbit; [done| |].
  - apply Z.lor_nonneg. destruct Ha, Hb. tauto.
  - intros i Hi. rewrite Z.lor_spec, !(testbit_high w) by done. done.
Qed.

Lemma land_range (w a b : Z) : 0 <= w -> in_range w a -> 0 <= b -> in_range w (Z.land a b).
Proof.
  intros Hw Ha Hb. apply in_range_testbit; [done| |].
  - apply Z.land_nonneg. destruct Ha. tauto.
  - intros i Hi. rewrite Z.land_spec, (testbit_high w) by done. done.
Qed.

Lemma xorb_medial (a b c d : bool) : xorb (xorb a b) (xorb c d) = xorb (xorb a c) (xorb b d).
Proof. by destruct a, b, c, d. Qed.

Lemma wrap_lxor (w a b : Z) : 0 <= w -> wrap w (Z.lxor a b) = Z.lxor (wrap w a) (wrap w b).
Proof.
  intros Hw. unfold wrap. apply testbit_ext. intros i Hi. rewrite Z.lxor_spec.
  destruct (Z_lt_le_dec i w).
  - by rewrite !testbit_mod_low, Z.lxor_spec by lia.
  - by rewrite !Z.mod_pow2_bits_high by lia.
Qed.

Lemma lxor_medial (a b c d : Z) :
  Z.lxor (Z.lxor a b) (Z.lxor c d) = Z.lxor (Z.lxor a c) (Z.lxor b d).
Proof. apply testbit_ext. intros i Hi. rewrite !Z.lxor_spec. apply xorb_medial. Qed.

(** Testing one bit with a mask. *)
Lemma land_pow2_eqb (x k : Z) : 0 <= k -> (Z.land x (2 ^ k) =? 0) = negb (Z.testbit x k).
Proof.
  intros Hk. destruct (Z.testbit x k) eqn:E; simpl.
  - apply Z.eqb_neq. intros H. apply (f_equal (fun z => Z.testbit z k)) in H.
    rewrite Z.land_spec, E, Z.pow2_bits_true, Z.bits_0 in H by done. done.
  - apply Z.eqb_eq. apply testbit_ext. intros i Hi.
    rewrite Z.land_spec, Z.pow2_bits_eqb, Z.bits_0 by lia.
    destruct (Z.eqb_spec k i) as [<-|]; [by rewrite E|]. apply andb_false_r.
Qed.

(** Adding two numbers with no common bit is [lor]. *)
Lemma lor_add_disjoint (a b : Z) : Z.land a b = 0 -> Z.lor a b = a + b.
Proof. intros H. rewrite Z.add_nocarry_lxor by done. symmetry. by apply Z.lxor_lor. Qed.

Lemma lor_shiftl_add (a b k : Z) : 0 <= k -> in_range k b -> Z.lor (Z.shiftl a k) b = a * 2 ^ k + b.
Proof.
  intros Hk Hb. rewrite lor_add_disjoint.
  - by rewrite Z.shiftl_mul_pow2.
  - apply testbit_ext. intros i Hi. rewrite Z.land_spec, Z.bits_0.
    destruct (Z_lt_le_dec i k).
    + by rewrite Z.shiftl_spec_low.
    + rewrite (testbit_high k b) by done. apply andb_false_r.
Qed.

(** [n & ~(2^k - 1)] on [w]-bit words rounds down. *)
Lemma land_not_mask_w (w n k : Z) :
  0 <= k <= w -> in_range w n -> Z.land n (2 ^ w - 1 - (2 ^ k - 1)) = n / 2 ^ k * 2 ^ k.
Proof.
  intros Hk Hn. rewrite <- Z.shiftr_div_pow2, <- Z.shiftl_mul_pow2 by lia.
  assert (2 ^ w - 1 - (2 ^ k - 1) = Z.ldiff (Z.ones w) (Z.ones k)) as ->.
  { rewrite <- Z.sub_nocarry_ldiff; [by rewrite !Z.ones_equiv; lia|].
    apply testbit_ext. intros i Hi. rewrite Z.ldiff_spec, Z.bits_0.
    destruct (Z_lt_le_dec i k).
    - rewrite (Z.ones_spec_low w) by lia. apply andb_false_r.
    - by rewrite (Z.ones_spec_high k) by lia. }
  apply testbit_ext. intros i Hi. rewrite Z.land_spec, Z.ldiff_spec.
  destruct (Z_lt_le_dec i k).
  - rewrite Z.shiftl_spec_low, (Z.ones_spec_low k) by lia. by rewrite !andb_false_r.
  - rewrite Z.shiftl_spec, Z.shiftr_spec, (Z.ones_spec_high k) by lia.
    replace (i - k + k) with i by lia. rewrite andb_true_r.
    destruct (Z_lt_le_dec i w).
    + rewrite Z.ones_spec_low by lia. apply andb_true_r.
    + by rewrite (testbit_high w n) by (done || lia).
Qed.

Lemma land_not_mask (n k : Z) :
  0 <= k <= 64 -> in_range 64 n -> Z.land n (2 ^ 64 - 1 - (2 ^ k - 1)) = n / 2 ^ k * 2 ^ k.
Proof. apply land_not_mask_w. Qed.

(** ** Little-endian byte sequences *)

Fixpoint le_bytes (n : nat) (z : Z) : list Z :=
  match n with
  | O => []
  | S n => z mod 256 :: le_bytes n (z / 256)
  end.

Fixpoint le_val (l : list Z) : Z :=
  match l with
  | [] => 0
  | b :: l => b + 256 * le_val l
  end.

Lemma length_le_bytes (n : nat) (z : Z) : length (le_bytes n z) = n.
Proof. revert z. induction n; intros; simpl; congruence. Qed.

Lemma le_bytes_ok (n : nat) (z : Z) : bytes_ok (le_bytes n z).
Proof.
  revert z. induction n; intros; simpl; constructor; [|done].
  apply (Z.mod_pos_bound z 256). lia.
Qed.

Lemma pow256_succ (n : nat) : 256 ^ Z.of_nat (S n) = 256 * 256 ^ Z.of_nat n.
Proof. rewrite Nat2Z.inj_succ, Z.pow_succ_r; lia. Qed.

Lemma pow256_pos (n : nat) : 0 < 256 ^ Z.of_nat n.
Proof. apply Z.pow_pos_nonneg; lia. Qed.

Lemma le_val_le_bytes (n : nat) (z : Z) : le_val (le_bytes n z) = z mod 256 ^ Z.of_nat n.
Proof.
  revert z. induction n; intros; simpl le_bytes; simpl le_val.
  - by rewrite Z.mod_1_r.
  - rewrite IHn, pow256_succ. pose proof (pow256_pos n).
    rewrite (Z.rem_mul_r z 256) by lia. lia.
Qed.

Lemma le_val_range (l : list Z) :
  bytes_ok l -> 0 <= le_val l < 256 ^ Z.of_nat (length l).
Proof.
  induction 1 as [|b l Hb Hl IH]; simpl le_val; simpl length.
  - simpl. lia.
  - rewrite pow256_succ. unfold in_range in Hb. lia.
Qed.

Lemma le_bytes_le_val (l : list Z) : bytes_ok l -> le_bytes (length l) (le_val l) = l.
Proof.
  induction 1 as [|b l Hb Hl IH]; [done|]. simpl length. simpl le_bytes. simpl le_val.
  unfold in_range in Hb. change (2 ^ 8) with 256 in Hb.
  rewrite (Z.mul_comm 256), Z_mod_plus_full, Z.mod_small, Z_div_plus_full by lia.
  rewrite Z.div_small, Z.add_0_l by lia. by rewrite IH.
Qed.

Lemma le_val_app (l1 l2 : list Z) :
  le_val (l1 ++ l2) = le_val l1 + 256 ^ Z.of_nat (length l1) * le_val l2.
Proof.
  induction l1 as [|b l1 IH]; simpl app; simpl le_val; simpl length; [simpl; lia|].
  rewrite IH, pow256_succ. lia.
Qed.

Lemma le_bytes_app (n m : nat) (z : Z) :
  le_bytes (n + m) z = le_bytes n z ++ le_bytes m (z / 256 ^ Z.of_nat n).
Proof.
  revert z. induction n; intros; simpl Nat.add; simpl le_bytes; simpl app.
  - by rewrite Z.div_1_r.
  - rewrite IHn, pow256_succ. pose proof (pow256_pos n). by rewrite Z.div_div by lia.
Qed.

Lemma take_le_bytes (n m : nat) (z : Z) : (n <= m)%nat -> take n (le_bytes m z) = le_bytes n z.
Proof.
  intros H. replace m with (n + (m - n))%nat by lia. rewrite le_bytes_app.
  apply take_app_length'. by rewrite length_le_bytes.
Qed.

Lemma lookup_le_bytes (n i : nat) (z : Z) :
  (i < n)%nat -> le_bytes n z !! i = Some (z / 256 ^ Z.of_nat i mod 256).
Proof.
  revert n z. induction i; intros [|n] z H; try lia; simpl le_bytes.
  - simpl. by rewrite Z.div_1_r.
  - simpl lookup. rewrite IHi by lia. rewrite pow256_succ.
    pose proof (pow256_pos i). by rewrite Z.div_div by lia.
Qed.

Lemma le_bytes_mod (n : nat) (z : Z) : le_bytes n (z mod 256 ^ Z.of_nat n) = le_bytes n z.
Proof.
  rewrite <- (le_val_le_bytes n z). rewrite <- (length_le_bytes n z) at 1.
  apply le_bytes_le_val. apply le_bytes_ok.
Qed.

(** A property of all bytes, by computation. *)
Definition all_bytes : list Z := map Z.of_nat (seq 0 256).

Lemma forallb_bytes (f : Z -> bool) :
  forallb f all_bytes = true -> forall b, is_byte b -> f b = true.
Proof.
  intros H b Hb. rewrite forallb_forall in H. apply H. unfold all_bytes.
  rewrite in_map_iff. unfold in_range in Hb. exists (Z.to_nat b). split; [lia|].
  apply in_seq. lia.
Qed.

#[global] Arguments le_bytes : simpl never.
#[global] Arguments le_val : simpl never.

Lemma le_val_nil : le_val [] = 0.
Proof. done. Qed.

Lemma le_val_cons (b : Z) (l : list Z) : le_val (b :: l) = b + 256 * le_val l.
Proof. done. Qed.

(** Range facts about literals. *)
Lemma in_range_dec (w z : Z) : (0 <=? z) && (z <? 2 ^ w) = true -> in_range w z.
Proof. unfold in_range. lia. Qed.

Lemma bytes_ok_dec (l : list Z) : forallb (fun z => (0 <=? z) && (z <? 256)) l = true -> bytes_ok l.
Proof.
  intros H. apply Forall_forall. intros x Hx. rewrite forallb_forall in H.
  apply H in Hx. unfold in_range. lia.
Qed.

Ltac solve_literal :=
  first [ apply in_range_dec; reflexivity | apply bytes_ok_dec; reflexivity
        | reflexivity | discriminate | by vm_compute ].
