(* ===== verification/LogUtils.v ===== *)
(** * Zigzag and variable-length integers ([include/qlog/utility/log_utils.hpp])

  [Module Zigzag] models [log_utils::zigzag] and [Module Vlq] models
  [log_utils::vlq], the two integer codecs of the compressed file format. *)
From stdpp Require Import base list numbers.
From Stdlib Require Import ZArith Lia Bool.
From S2P Require Import Prelude.

Module Zigzag.

(** [zigzag::encode<T>] with [sizeof(T) * 8 = w]: the shift of the cast value is an
    unsigned shift, [value >> (w - 1)] is the arithmetic shift of the signed value. *)
Definition encode (w value : Z) : Z :=
  wrap w (Z.lxor (wrap w (Z.shiftl (wrap w value) 1)) (wrap w (Z.shiftr value (w - 1)))).

(** [zigzag::decode<T>]: the result is read back as a signed integer. *)
Definition decode (w value : Z) : Z :=
  to_signed w (Z.lxor (Z.shiftr value 1) (wrap w (0 - Z.land value 1))).

Definition in_signed (w v : Z) : Prop := - 2 ^ (w - 1) <= v < 2 ^ (w - 1).

Lemma pow2_pred (w : Z) : 0 < w -> 2 ^ w = 2 * 2 ^ (w - 1).
Proof. intros. replace w with (1 + (w - 1)) at 1 by lia. rewrite Z.pow_add_r; lia. Qed.

Lemma lxor_ones (w a : Z) : 0 <= w -> in_range w a -> Z.lxor a (2 ^ w - 1) = 2 ^ w - 1 - a.
Proof.
  intros Hw Ha. replace (2 ^ w - 1) with (Z.ones w) by (rewrite Z.ones_equiv; lia).
  assert (Z.lxor a (Z.ones w) = Z.ldiff (Z.ones w) a) as ->.
  { apply testbit_ext. intros i Hi. rewrite Z.lxor_spec, Z.ldiff_spec.
    destruct (Z_lt_le_dec i w).
    - rewrite Z.ones_spec_low by lia. by destruct (Z.testbit a i).
    - rewrite Z.ones_spec_high, (testbit_high w a) by lia || done. done. }
  symmetry. apply Z.sub_nocarry_ldiff. apply testbit_ext. intros i Hi.
  rewrite Z.ldiff_spec, Z.bits_0. destruct (Z_lt_le_dec i w).
  - rewrite Z.ones_spec_low by lia. apply andb_false_r.
  - by rewrite (testbit_high w a).
Qed.

Lemma encode_nonneg (w v : Z) : 1 < w -> 0 <= v -> in_signed w v -> encode w v = 2 * v.
Proof.
  intros Hw Hv Hr. unfold encode, in_signed in *. pose proof (pow2_pred w).
  rewrite Z.shiftr_div_pow2, (Z.div_small v) by lia.
  rewrite (wrap_small w v), (wrap_small w 0) by (unfold in_range; lia).
  rewrite Z.lxor_0_r, wrap_wrap, Z.shiftl_mul_pow2 by lia.
  rewrite wrap_small; [lia | unfold in_range; lia].
Qed.

Lemma encode_neg (w v : Z) : 1 < w -> v < 0 -> in_signed w v -> encode w v = - 2 * v - 1.
Proof.
  intros Hw Hv Hr. unfold encode, in_signed in *. pose proof (pow2_pred w).
  rewrite Z.shiftr_div_pow2 by lia.
  assert (v / 2 ^ (w - 1) = -1) as ->.
  { symmetry. apply (Z.div_unique_pos v (2 ^ (w - 1)) (-1) (v + 2 ^ (w - 1))); lia. }
  assert (wrap w (-1) = 2 ^ w - 1) as ->.
  { symmetry. apply (Zmod_unique (-1) (2 ^ w) (-1)); lia. }
  assert (wrap w (Z.shiftl (wrap w v) 1) = 2 * v + 2 ^ w) as ->.
  { rewrite Z.shiftl_mul_pow2 by lia. unfold wrap. rewrite Zmult_mod_idemp_l.
    symmetry. apply (Zmod_unique (v * 2 ^ 1) (2 ^ w) (-1)); lia. }
  rewrite lxor_ones by (unfold in_range; lia).
  rewrite wrap_small; [lia | unfold in_range; lia].
Qed.

Lemma encode_cases (w v : Z) :
  1 < w -> in_signed w v ->
  (0 <= v /\ encode w v = 2 * v) \/ (v < 0 /\ encode w v = - 2 * v - 1).
Proof.
  intros Hw Hr. destruct (Z_lt_le_dec v 0).
  - right. split; [done|]. by apply encode_neg.
  - left. split; [done|]. by apply encode_nonneg.
Qed.

Lemma encode_range (w v : Z) : 1 < w -> in_signed w v -> in_range w (encode w v).
Proof. intros Hw _. apply wrap_range. lia. Qed.

Lemma decode_even (w u : Z) : 1 < w -> 0 <= u < 2 ^ (w - 1) -> decode w (2 * u) = u.
Proof.
  intros Hw Hu. unfold decode.
  rewrite land_1, Z.shiftr_div_pow2 by lia. change (2 ^ 1) with 2.
  rewrite (Z.mul_comm 2), Z.mod_mul, Z.div_mul by lia.
  unfold wrap. rewrite Z.mod_0_l, Z.lxor_0_r by (apply Z.pow_nonzero; lia).
  apply to_signed_id; lia.
Qed.

Lemma decode_odd (w u : Z) : 1 < w -> 0 <= u < 2 ^ (w - 1) -> decode w (2 * u + 1) = - u - 1.
Proof.
  intros Hw Hu. unfold decode. pose proof (pow2_pred w).
  rewrite land_1, Z.shiftr_div_pow2 by lia. change (2 ^ 1) with 2.
  rewrite (Z.mul_comm 2), Z.add_comm, Z_mod_plus_full, Z.div_add by lia.
  change (1 mod 2) with 1. change (1 / 2) with 0. rewrite Z.add_0_l.
  assert (wrap w (0 - 1) = 2 ^ w - 1) as ->.
  { symmetry. apply (Zmod_unique (0 - 1) (2 ^ w) (-1)); lia. }
  rewrite lxor_ones by (unfold in_range; lia).
  unfold to_signed. rewrite Z.mod_small by lia.
  destruct (_ <? _) eqn:E; [apply Z.ltb_lt in E | apply Z.ltb_ge in E]; lia.
Qed.

(** Zigzag is a bijection between the [w]-bit signed integers and the [w]-bit
    unsigned ones: decoding an encoded value gives it back, and every unsigned value
    is the encoding of the value it decodes to. *)
Theorem zigzag_roundtrip (w : Z) :
  1 < w ->
  (forall v, in_signed w v -> in_range w (encode w v) /\ decode w (encode w v) = v) /\
  (forall u, in_range w u -> in_signed w (decode w u) /\ encode w (decode w u) = u).
Proof.
  intros Hw. pose proof (pow2_pred w). split.
  - intros v Hr. split; [by apply encode_range|]. unfold in_signed in *.
    destruct (encode_cases w v) as [[Hv ->]|[Hv ->]]; [done|done| |].
    + apply decode_even; lia.
    + replace (-2 * v - 1) with (2 * (- v - 1) + 1) by lia. rewrite decode_odd; lia.
  - intros u Hu. unfold in_range, in_signed in *.
    pose proof (Z.div_mod u 2). pose proof (Z.mod_pos_bound u 2).
    destruct (Z.eq_dec (u mod 2) 0) as [E|E].
    + replace u with (2 * (u / 2)) by lia. rewrite decode_even by lia.
      split; [lia|]. rewrite encode_nonneg; unfold in_signed; lia.
    + replace u with (2 * (u / 2) + 1) by lia. rewrite decode_odd by lia.
      split; [lia|]. rewrite encode_neg; unfold in_signed; lia.
Qed.

Lemma zigzag_roundtrip_witness :
  1 < 16 /\ in_signed 16 (-3) /\ encode 16 (-3) = 5 /\ decode 16 (encode 16 (-3)) = -3.
Proof.
  split; [lia|]. split; [split; vm_compute; congruence|]. split; [reflexivity|].
  apply (proj1 (zigzag_roundtrip 16 ltac:(lia))). split; vm_compute; congruence.
Defined.

End Zigzag.

Module Vlq.

(** [prefix<LENGTH>::value], with the specialisation for 9. *)
Definition prefix (length : Z) : Z :=
  if length =? 9 then 0 else u8 (Z.shiftl 1 (8 - length)).

(** [min_value_of_length<LENGTH>::value]: the recursive template, on [LENGTH - 1]. *)
Fixpoint min_value_rec (pred_length : nat) : Z :=
  match pred_length with
  | O => 0
  | S n => u64 (min_value_rec n + u64 (Z.shiftl 1 (Z.of_nat (S n) * 7)))
  end.

Definition min_value_of_length (length : Z) : Z := min_value_rec (Z.to_nat (length - 1)).

Definition get_vlq_encode_length (value : Z) : Z :=
  if value <? min_value_of_length 2 then 1
  else if value <? min_value_of_length 3 then 2
  else if value <? min_value_of_length 4 then 3
  else if value <? min_value_of_length 5 then 4
  else if value <? min_value_of_length 6 then 5
  else if value <? min_value_of_length 7 then 6
  else if value <? min_value_of_length 8 then 7
  else if value <? min_value_of_length 9 then 8
  else 9.

(** The two range tables; an index outside the nine entries is [None]. *)
Definition get_vlq_data_min_size_by_encode_length (encode_length : Z) : option Z :=
  if (1 <=? encode_length) && (encode_length <=? 9)
  then Some (min_value_of_length encode_length) else None.

Definition get_vlq_data_max_size_by_encode_length (encode_length : Z) : option Z :=
  if (1 <=? encode_length) && (encode_length <=? 9)
  then Some (if encode_length =? 9 then 2 ^ 64 - 1
             else min_value_of_length (encode_length + 1) - 1)
  else None.

(** [vlq_max_bytes_count<T>] for [sizeof(T) = size]. *)
Definition vlq_max_bytes_count (size : Z) : Z := size + 1.

Definition vlq_length_lut : list Z :=
  [9; 8; 7; 7; 6; 6; 6; 6; 5; 5; 5; 5; 5; 5; 5; 5; 4; 4; 4; 4; 4; 4; 4; 4; 4; 4; 4; 4; 4;
   4; 4; 4; 3; 3; 3; 3; 3; 3; 3; 3; 3; 3; 3; 3; 3; 3; 3; 3; 3; 3; 3; 3; 3; 3; 3; 3; 3; 3;
   3; 3; 3; 3; 3; 3; 2; 2; 2; 2; 2; 2; 2; 2; 2; 2; 2; 2; 2; 2; 2; 2; 2; 2; 2; 2; 2; 2; 2;
   2; 2; 2; 2; 2; 2; 2; 2; 2; 2; 2; 2; 2; 2; 2; 2; 2; 2; 2; 2; 2; 2; 2; 2; 2; 2; 2; 2; 2;
   2; 2; 2; 2; 2; 2; 2; 2; 2; 2; 2; 2; 1; 1; 1; 1; 1; 1; 1; 1; 1; 1; 1; 1; 1; 1; 1; 1; 1;
   1; 1; 1; 1; 1; 1; 1; 1; 1; 1; 1; 1; 1; 1; 1; 1; 1; 1; 1; 1; 1; 1; 1; 1; 1; 1; 1; 1; 1;
   1; 1; 1; 1; 1; 1; 1; 1; 1; 1; 1; 1; 1; 1; 1; 1; 1; 1; 1; 1; 1; 1; 1; 1; 1; 1; 1; 1; 1;
   1; 1; 1; 1; 1; 1; 1; 1; 1; 1; 1; 1; 1; 1; 1; 1; 1; 1; 1; 1; 1; 1; 1; 1; 1; 1; 1; 1; 1;
   1; 1; 1; 1; 1; 1; 1; 1; 1; 1; 1; 1; 1; 1; 1; 1; 1; 1; 1; 1; 1; 1; 1; 1].

Definition get_vlq_decode_length (prefix_byte : Z) : Z :=
  default 0 (vlq_length_lut !! Z.to_nat prefix_byte).

(** One case of the switch of [vlq_encode]: the bytes stored at [target_data]. The
    cases differ in [length] only: the most significant byte of [encoded_value] is
    added to the prefix and goes first, the other bytes follow from the least
    significant; the ninth case stores the bare prefix and then all eight bytes. *)
Definition encode_case (length value : Z) : list Z :=
  let encoded_value := u64 (value - min_value_of_length length) in
  let encoded_value_ptr := le_bytes 8 encoded_value in
  if length =? 9 then prefix 9 :: encoded_value_ptr
  else let top := Z.to_nat (length - 1) in
       u8 (prefix length + default 0 (encoded_value_ptr !! top)) :: take top encoded_value_ptr.

Definition vlq_encode (value : Z) : list Z := encode_case (get_vlq_encode_length value) value.

(** [vlq_decode<T>]: reading past the end of the available bytes is undefined
    behaviour in the code and [decode_out_of_bounds] here; [decode_invalid] is the
    returned [invalid_decode_length]. *)
Inductive decode_result :=
| decode_out_of_bounds
| decode_invalid
| decode_ok (value length : Z).

(** One case of the switch of [vlq_decode], [first] being [src_data_uint8[0]] and
    [rest] the bytes after it. *)
Definition decode_case (size length first : Z) (rest : list Z) : decode_result :=
  let low_count := if length =? 9 then 8%nat else Z.to_nat (length - 1) in
  if decide (low_count <= List.length rest)%nat then
    let low := take low_count rest in
    let target_ptr := if length =? 9 then low else low ++ [u8 (first - prefix length)] in
    let target_value := u64 (le_val target_ptr + min_value_of_length length) in
    decode_ok (wrap (8 * size) target_value) length
  else decode_out_of_bounds.

Definition vlq_decode (size : Z) (src : list Z) : decode_result :=
  match src with
  | [] => decode_out_of_bounds
  | first :: rest =>
      let length := get_vlq_decode_length first in
      if vlq_max_bytes_count size <? length then decode_invalid
      else decode_case size length first rest
  end.

(** ** Lengths and ranges *)

(** [1 <= length <= 9], as the nine values the switches dispatch on. *)
Definition lengths : list Z := [1; 2; 3; 4; 5; 6; 7; 8; 9].

(** The values of encoded length [n]: [max_value 9] is the last 64-bit value. *)
Definition max_value (n : Z) : Z :=
  if n =? 9 then 2 ^ 64 - 1 else min_value_of_length (n + 1) - 1.

Lemma min_value_1 : min_value_of_length 1 = 0. Proof. reflexivity. Qed.
Lemma min_value_2 : min_value_of_length 2 = 128. Proof. reflexivity. Qed.
Lemma min_value_3 : min_value_of_length 3 = 16512. Proof. reflexivity. Qed.
Lemma min_value_4 : min_value_of_length 4 = 2113664. Proof. reflexivity. Qed.
Lemma min_value_5 : min_value_of_length 5 = 270549120. Proof. reflexivity. Qed.
Lemma min_value_6 : min_value_of_length 6 = 34630287488. Proof. reflexivity. Qed.
Lemma min_value_7 : min_value_of_length 7 = 4432676798592. Proof. reflexivity. Qed.
Lemma min_value_8 : min_value_of_length 8 = 567382630219904. Proof. reflexivity. Qed.
Lemma min_value_9 : min_value_of_length 9 = 72624976668147840. Proof. reflexivity. Qed.
Lemma prefix_1 : prefix 1 = 128. Proof. reflexivity. Qed.
Lemma prefix_2 : prefix 2 = 64. Proof. reflexivity. Qed.
Lemma prefix_3 : prefix 3 = 32. Proof. reflexivity. Qed.
Lemma prefix_4 : prefix 4 = 16. Proof. reflexivity. Qed.
Lemma prefix_5 : prefix 5 = 8. Proof. reflexivity. Qed.
Lemma prefix_6 : prefix 6 = 4. Proof. reflexivity. Qed.
Lemma prefix_7 : prefix 7 = 2. Proof. reflexivity. Qed.
Lemma prefix_8 : prefix 8 = 1. Proof. reflexivity. Qed.
Lemma prefix_9 : prefix 9 = 0. Proof. reflexivity. Qed.
Lemma max_value_1 : max_value 1 = 127. Proof. reflexivity. Qed.
Lemma max_value_2 : max_value 2 = 16511. Proof. reflexivity. Qed.
Lemma max_value_3 : max_value 3 = 2113663. Proof. reflexivity. Qed.
Lemma max_value_4 : max_value 4 = 270549119. Proof. reflexivity. Qed.
Lemma max_value_5 : max_value 5 = 34630287487. Proof. reflexivity. Qed.
Lemma max_value_6 : max_value 6 = 4432676798591. Proof. reflexivity. Qed.
Lemma max_value_7 : max_value 7 = 567382630219903. Proof. reflexivity. Qed.
Lemma max_value_8 : max_value 8 = 72624976668147839. Proof. reflexivity. Qed.
Lemma max_value_9 : max_value 9 = 18446744073709551615. Proof. reflexivity. Qed.

Create Rewrite HintDb vlq.
#[export] Hint Rewrite min_value_1 min_value_2 min_value_3 min_value_4 min_value_5 min_value_6 min_value_7 min_value_8 min_value_9 : vlq.
#[export] Hint Rewrite prefix_1 prefix_2 prefix_3 prefix_4 prefix_5 prefix_6 prefix_7 prefix_8 prefix_9 : vlq.

#[export] Hint Rewrite max_value_1 max_value_2 max_value_3 max_value_4 max_value_5 max_value_6 max_value_7 max_value_8 max_value_9 : vlq.

#[local] Opaque min_value_of_length max_value prefix.

Lemma encode_length_spec (v : Z) :
  0 <= v < 2 ^ 64 ->
  let n := get_vlq_encode_length v in In n lengths /\ min_value_of_length n <= v <= max_value n.
Proof.
  intros Hv. unfold get_vlq_encode_length, lengths.
  repeat match goal with
  | |- context [v <? min_value_of_length ?k] =>
      destruct (v <? min_value_of_length k) eqn:?
  end; rewrite ?Z.ltb_lt, ?Z.ltb_ge in *; autorewrite with vlq in *;
  (split; [simpl; tauto | lia]).
Qed.

(** Every entry of the look-up table is the length whose prefix the byte carries. *)
Lemma decode_length_spec (b : Z) :
  is_byte b ->
  let n := get_vlq_decode_length b in
  (b = 0 /\ n = 9) \/ (1 <= n <= 8 /\ 2 ^ (8 - n) <= b < 2 ^ (9 - n)).
Proof.
  intros Hb n. pose proof (forallb_bytes
    (fun b => let n := get_vlq_decode_length b in
       (b =? 0) && (n =? 9) ||
       (1 <=? n) && (n <=? 8) && (2 ^ (8 - n) <=? b) && (b <? 2 ^ (9 - n)))
    ltac:(vm_compute; reflexivity) b Hb) as H.
  fold n in H. cbv beta zeta in H. fold n in H. lia.
Qed.

Lemma decode_length_unique (b n : Z) :
  1 <= n <= 8 -> 2 ^ (8 - n) <= b < 2 ^ (9 - n) -> get_vlq_decode_length b = n.
Proof.
  intros Hn Hb.
  assert (2 ^ (9 - n) <= 2 ^ 8) by (apply Z.pow_le_mono_r; lia).
  assert (0 < 2 ^ (8 - n)) by (apply Z.pow_pos_nonneg; lia).
  destruct (decode_length_spec b) as [[? ?]|[Hm Hb']]; [unfold in_range; lia|lia|].
  set (m := get_vlq_decode_length b) in *.
  destruct (Z.lt_trichotomy m n) as [Hlt|[|Hlt]]; [|done|].
  - assert (2 ^ (9 - n) <= 2 ^ (8 - m)) by (apply Z.pow_le_mono_r; lia). lia.
  - assert (2 ^ (9 - m) <= 2 ^ (8 - n)) by (apply Z.pow_le_mono_r; lia). lia.
Qed.

Ltac split_length H :=
  unfold lengths in H; simpl In in H;
  repeat match type of H with _ \/ _ => destruct H as [H|H] end; [subst..|done].

Lemma value_span (n : Z) :
  In n lengths -> n <> 9 -> max_value n = min_value_of_length n + 2 ^ (7 * n) - 1 /\
                           0 <= min_value_of_length n /\ max_value n < 2 ^ 64.
Proof. intros H Hn. split_length H; autorewrite with vlq; lia || (repeat split; lia). Qed.

(** The bytes of an encoded value of length [n < 9]. *)
Lemma encode_case_short (n v : Z) :
  In n lengths -> n <> 9 -> min_value_of_length n <= v <= max_value n ->
  let ev := v - min_value_of_length n in
  encode_case n v = 2 ^ (8 - n) + ev / 256 ^ (n - 1) :: le_bytes (Z.to_nat (n - 1)) ev /\
  0 <= ev / 256 ^ (n - 1) < 2 ^ (8 - n).
Proof.
  intros Hn H9 Hv ev. pose proof (value_span n Hn H9) as (Hmax & Hmin & H64).
  assert (1 <= n <= 8) as Hn' by (split_length Hn; lia).
  assert (2 ^ (7 * n) = 256 ^ (n - 1) * 2 ^ (8 - n)) as Hpow.
  { change 256 with (2 ^ 8). rewrite <- Z.pow_mul_r, <- Z.pow_add_r by lia. f_equal. lia. }
  assert (0 < 256 ^ (n - 1)) by (apply Z.pow_pos_nonneg; lia).
  assert (0 < 2 ^ (8 - n) <= 2 ^ 7) as Hp.
  { split; [apply Z.pow_pos_nonneg; lia | apply Z.pow_le_mono_r; lia]. }
  assert (0 <= ev / 256 ^ (n - 1) < 2 ^ (8 - n)) as Hq.
  { split; [apply Z.div_pos; unfold ev; lia|]. apply Z.div_lt_upper_bound; unfold ev; lia. }
  split; [|done]. unfold encode_case. fold ev.
  rewrite (wrap_small 64 ev) by (unfold in_range, ev; lia).
  destruct (n =? 9) eqn:E; [lia|]. rewrite lookup_le_bytes, Z2Nat.id by lia. simpl default.
  assert (prefix n = 2 ^ (8 - n)) as -> by (split_length Hn; autorewrite with vlq; done).
  rewrite (Z.mod_small (ev / _)) by lia.
  rewrite wrap_small by (unfold in_range; lia). by rewrite take_le_bytes by lia.
Qed.

Lemma encode_case_9 (v : Z) :
  min_value_of_length 9 <= v <= max_value 9 ->
  encode_case 9 v = 0 :: le_bytes 8 (v - min_value_of_length 9).
Proof.
  intros Hv. unfold encode_case. rewrite Z.eqb_refl.
  autorewrite with vlq in *. rewrite wrap_small by (unfold in_range; lia). done.
Qed.

Lemma length_encode_case (n v : Z) :
  In n lengths -> List.length (encode_case n v) = Z.to_nat n.
Proof.
  intros Hn. unfold encode_case.
  split_length Hn; simpl Z.eqb; cbn iota; cbn [List.length];
    rewrite ?length_take, length_le_bytes; reflexivity.
Qed.

(** The value of a stored sequence of target bytes. *)
Lemma le_val_split (k : nat) (ev : Z) :
  0 <= ev < 256 ^ Z.of_nat (S k) ->
  le_val (le_bytes k ev ++ [u8 (ev / 256 ^ Z.of_nat k)]) = ev.
Proof.
  intros Hev. pose proof (pow256_pos k). rewrite pow256_succ in Hev.
  rewrite wrap_small by (unfold in_range; split;
    [apply Z.div_pos | apply Z.div_lt_upper_bound]; lia).
  rewrite le_val_app, length_le_bytes, le_val_le_bytes, le_val_cons, le_val_nil.
  pose proof (Z.div_mod ev (256 ^ Z.of_nat k)). lia.
Qed.

Lemma decode_encode_case (size n v : Z) (rest : list Z) :
  In n lengths -> min_value_of_length n <= v <= max_value n ->
  0 <= v < 2 ^ (8 * size) -> vlq_max_bytes_count size >= n ->
  vlq_decode size (encode_case n v ++ rest) = decode_ok v n.
Proof.
  intros Hn Hv Hs Hc. destruct (decide (n = 9)) as [->|H9].
  - rewrite encode_case_9 by done. rewrite <- app_comm_cons. unfold vlq_decode, decode_case.
    change (get_vlq_decode_length 0) with 9. simpl Z.eqb. cbn iota.
    destruct (_ <? 9) eqn:E; [lia|].
    rewrite decide_True by (rewrite length_app, length_le_bytes; lia).
    rewrite take_app_length' by (by rewrite length_le_bytes).
    autorewrite with vlq in *. rewrite le_val_le_bytes.
    rewrite Z.mod_small, (wrap_small 64) by (unfold in_range; lia).
    rewrite wrap_small by (unfold in_range; lia). f_equal. lia.
  - destruct (encode_case_short n v Hn H9 Hv) as [-> Hq].
    destruct (value_span n Hn H9) as (Hmax & Hmin & H64).
    assert (1 <= n <= 8) as Hn' by (split_length Hn; lia).
    rewrite <- app_comm_cons. unfold vlq_decode.
    assert (2 ^ (9 - n) = 2 * 2 ^ (8 - n)) as Hp.
    { replace (9 - n) with (Z.succ (8 - n)) by lia. rewrite Z.pow_succ_r; lia. }
    rewrite (decode_length_unique _ n) by lia.
    destruct (_ <? n) eqn:E; [lia|]. unfold decode_case.
    destruct (n =? 9) eqn:E9; [lia|].
    rewrite decide_True by (rewrite length_app, length_le_bytes; lia).
    rewrite take_app_length' by (by rewrite length_le_bytes).
    assert (prefix n = 2 ^ (8 - n)) as -> by (split_length Hn; autorewrite with vlq; done).
    rewrite Z.add_simpl_l. replace (n - 1) with (Z.of_nat (Z.to_nat (n - 1))) at 2 by lia.
    rewrite le_val_split.
    + rewrite Z.sub_add. rewrite (wrap_small 64) by (unfold in_range; lia).
      by rewrite wrap_small by (unfold in_range; lia).
    + replace (Z.of_nat (S (Z.to_nat (n - 1)))) with n by lia.
      assert (2 ^ (7 * n) <= 256 ^ n); [|lia].
      change 256 with (2 ^ 8). rewrite <- Z.pow_mul_r by lia. apply Z.pow_le_mono_r; lia.
Qed.

(** The encoded length of a value of a [size]-byte type fits the decoder's limit. *)
Lemma encode_length_fits (size v : Z) :
  In size [1; 2; 4; 8] -> 0 <= v < 2 ^ (8 * size) ->
  get_vlq_encode_length v <= vlq_max_bytes_count size.
Proof.
  intros Hsz Hv. unfold vlq_max_bytes_count.
  destruct (encode_length_spec v) as [Hn Hr].
  { destruct Hsz as [<-|[<-|[<-|[<-|[]]]]]; lia. }
  destruct (Z_le_gt_dec (get_vlq_encode_length v) (size + 1)) as [|Hgt]; [done|].
  exfalso. split_length Hn; rewrite <- Hn in Hr, Hgt; autorewrite with vlq in Hr;
    destruct Hsz as [<-|[<-|[<-|[<-|[]]]]]; lia.
Qed.

(** Decoding what [vlq_encode] stored for a value of an unsigned type of 1, 2, 4
    or 8 bytes gives the value and its length back, whatever bytes follow; the number
    of bytes stored is the encode length and never exceeds [vlq_max_bytes_count]. *)
Theorem vlq_roundtrip (size v : Z) (rest : list Z) :
  In size [1; 2; 4; 8] -> 0 <= v < 2 ^ (8 * size) ->
  vlq_decode size (vlq_encode v ++ rest) = decode_ok v (get_vlq_encode_length v) /\
  Z.of_nat (List.length (vlq_encode v)) = get_vlq_encode_length v /\
  get_vlq_encode_length v <= vlq_max_bytes_count size.
Proof.
  intros Hsz Hv. pose proof (encode_length_fits size v Hsz Hv) as Hfit.
  destruct (encode_length_spec v) as [Hn Hr].
  { destruct Hsz as [<-|[<-|[<-|[<-|[]]]]]; lia. }
  split; [|split; [|done]].
  - apply decode_encode_case; done || lia.
  - unfold vlq_encode. rewrite length_encode_case by done. split_length Hn; lia.
Qed.

Lemma vlq_roundtrip_witness :
  vlq_encode 300 = [64; 172] /\
  vlq_decode 4 (vlq_encode 300 ++ [7]) = decode_ok 300 (get_vlq_encode_length 300).
Proof. split; [reflexivity|]. apply (vlq_roundtrip 4 300 [7]); [simpl; tauto | lia]. Defined.

Lemma encode_length_unique (n v : Z) :
  In n lengths -> min_value_of_length n <= v <= max_value n -> get_vlq_encode_length v = n.
Proof.
  intros Hn Hv. destruct (encode_length_spec v) as [Hm Hr].
  { split_length Hn; autorewrite with vlq in Hv; lia. }
  revert Hm Hr. generalize (get_vlq_encode_length v) as m. intros m Hm Hr.
  split_length Hn; split_length Hm; autorewrite with vlq in *; lia.
Qed.

(** The two range tables describe the encode length exactly: a 64-bit value is
    encoded in [n] bytes if and only if it lies between the table entries for [n]. *)
Theorem vlq_length_tables (v n lo hi : Z) :
  0 <= v < 2 ^ 64 ->
  get_vlq_data_min_size_by_encode_length n = Some lo ->
  get_vlq_data_max_size_by_encode_length n = Some hi ->
  get_vlq_encode_length v = n <-> lo <= v <= hi.
Proof.
  intros Hv Hlo Hhi. unfold get_vlq_data_min_size_by_encode_length in Hlo.
  unfold get_vlq_data_max_size_by_encode_length in Hhi.
  destruct (_ && _) eqn:E; [|done]. injection Hlo as <-. injection Hhi as <-.
  change (if n =? 9 then _ else _) with (max_value n). assert (In n lengths) as Hn by (unfold lengths; simpl; lia).
  split; [intros <-; by apply encode_length_spec|]. by apply encode_length_unique.
Qed.

Lemma vlq_length_tables_witness :
  get_vlq_data_min_size_by_encode_length 2 = Some 128 /\
  get_vlq_data_max_size_by_encode_length 2 = Some 16511 /\
  (get_vlq_encode_length 300 = 2 <-> 128 <= 300 <= 16511).
Proof.
  split; [reflexivity|]. split; [reflexivity|].
  apply (vlq_length_tables 300 2 128 16511); [lia|reflexivity..].
Defined.

Lemma le_val_snoc_div (low : list Z) (q : Z) :
  bytes_ok low ->
  le_val (low ++ [q]) / 256 ^ Z.of_nat (List.length low) = q /\
  le_bytes (List.length low) (le_val (low ++ [q])) = low.
Proof.
  intros Hlow. pose proof (le_val_range low Hlow) as Hr.
  rewrite le_val_app, le_val_cons, le_val_nil.
  set (p := 256 ^ Z.of_nat (List.length low)) in *.
  replace (le_val low + p * (q + 256 * 0)) with (le_val low + q * p) by lia.
  rewrite Z.div_add, Z.div_small by lia. split; [lia|].
  transitivity (le_bytes (List.length low) (le_val low)); [|by apply le_bytes_le_val].
  rewrite <- (le_bytes_mod _ (le_val low + _)). fold p.
  by rewrite Z_mod_plus_full, Z.mod_small by lia.
Qed.

Lemma decode_case_inv (n first v m : Z) (rest : list Z) :
  In n lengths -> n <> 9 -> bytes_ok rest -> 2 ^ (8 - n) <= first < 2 ^ (9 - n) ->
  decode_case 8 n first rest = decode_ok v m ->
  m = n /\ min_value_of_length n <= v <= max_value n /\
  first :: rest = encode_case n v ++ drop (Z.to_nat (n - 1)) rest.
Proof.
  intros Hn H9 Hok Hf Hd. unfold decode_case in Hd.
  destruct (value_span n Hn H9) as (Hmax & Hmin & H64).
  assert (1 <= n <= 8) as Hn' by (split_length Hn; lia).
  destruct (n =? 9) eqn:E9; [lia|]. case_decide as Hlen; [|done].
  set (k := Z.to_nat (n - 1)) in *. set (low := take k rest) in *.
  assert (List.length low = k) as Hk by (unfold low; rewrite length_take; lia).
  assert (bytes_ok low) as Hlow by (by apply Forall_take).
  assert (prefix n = 2 ^ (8 - n)) as Hp by (split_length Hn; autorewrite with vlq; done).
  rewrite Hp in Hd. set (q := first - 2 ^ (8 - n)) in *.
  assert (2 ^ (9 - n) = 2 * 2 ^ (8 - n)) as Hdouble.
  { replace (9 - n) with (Z.succ (8 - n)) by lia. rewrite Z.pow_succ_r; lia. }
  assert (2 ^ (8 - n) <= 2 ^ 7) by (apply Z.pow_le_mono_r; lia).
  rewrite (wrap_small 8 q) in Hd by (unfold in_range, q; lia).
  destruct (le_val_snoc_div low q Hlow) as [Hq Hb]. rewrite Hk in Hq, Hb.
  pose proof (le_val_range low Hlow) as Hlr. rewrite Hk in Hlr.
  assert (0 <= le_val (low ++ [q]) < 2 ^ (7 * n)) as Hev.
  { rewrite le_val_app, le_val_cons, le_val_nil, Hk.
    assert (2 ^ (7 * n) = 256 ^ Z.of_nat k * 2 ^ (8 - n)) as ->.
    { change 256 with (2 ^ 8). rewrite <- Z.pow_mul_r, <- Z.pow_add_r by lia. f_equal. lia. }
    unfold q. nia. }
  rewrite (wrap_small 64 (le_val (low ++ [q]) + min_value_of_length n)) in Hd by (unfold in_range; lia).
  rewrite (wrap_small (8 * 8)) in Hd by (unfold in_range; lia).
  injection Hd as <- <-. split; [done|]. split; [lia|].
  destruct (encode_case_short n (le_val (low ++ [q]) + min_value_of_length n) Hn H9
              ltac:(lia)) as [-> _].
  rewrite Z.add_simpl_r. replace (n - 1) with (Z.of_nat k) by lia.
  rewrite Hq, Nat2Z.id, Hb. replace (2 ^ (8 - n) + q) with first by (unfold q; lia).
  rewrite <- app_comm_cons. f_equal. unfold low. by rewrite take_drop.
Qed.

(** Encodings of at most eight bytes are canonical: a byte sequence whose first
    byte is not zero and which decodes as a 64-bit value is the encoding of that value
    followed by the rest, and the length reported is the encode length. *)
Theorem vlq_canonical (src : list Z) (first v n : Z) (rest : list Z) :
  src = first :: rest -> bytes_ok src -> first <> 0 ->
  vlq_decode 8 src = decode_ok v n ->
  n = get_vlq_encode_length v /\ src = vlq_encode v ++ drop (Z.to_nat n) src.
Proof.
  intros -> Hok Hf Hd. destruct (proj1 (Forall_cons_iff _ _ _) Hok) as [Hb Hok'].
  unfold vlq_decode in Hd. destruct (_ <? _); [done|].
  destruct (decode_length_spec first Hb) as [[? ?]|[Hm Hfr]]; [done|].
  set (m := get_vlq_decode_length first) in *.
  assert (In m lengths) as Hin by (unfold lengths; simpl; lia).
  destruct (decode_case_inv m first v n rest Hin ltac:(lia) Hok' Hfr Hd) as (-> & Hv & Heq).
  pose proof (encode_length_unique m v Hin Hv) as Hl. split; [done|].
  unfold vlq_encode. rewrite Hl, Heq at 1. f_equal.
  replace (Z.to_nat m) with (S (Z.to_nat (m - 1))) by lia. done.
Qed.

Lemma vlq_canonical_witness :
  2 = get_vlq_encode_length 300 /\ [64; 172; 9] = vlq_encode 300 ++ drop (Z.to_nat 2) [64; 172; 9].
Proof.
  apply (vlq_canonical [64; 172; 9] 64 300 2 [172; 9]); [reflexivity| |lia|reflexivity].
  repeat constructor; vm_compute; congruence.
Defined.

End Vlq.
