(* ===== verification/Memory.v ===== *)
(** * Byte memory

    The byte buffers that the components read and write through pointers, as lists of
    bytes addressed by an offset. [load] and [store] are [memcpy] from and to a buffer:
    an access that leaves the buffer is [None]. *)
From stdpp Require Import base list option numbers.
From Stdlib Require Import ZArith Lia Bool.
From S2P Require Import Prelude.

Definition zlen {A} (l : list A) : Z := Z.of_nat (length l).

Definition load (mem : list Z) (off n : Z) : option (list Z) :=
  if (0 <=? off) && (0 <=? n) && (off + n <=? zlen mem)
  then Some (take (Z.to_nat n) (drop (Z.to_nat off) mem)) else None.

Definition store (mem : list Z) (off : Z) (bs : list Z) : option (list Z) :=
  if (0 <=? off) && (off + zlen bs <=? zlen mem)
  then Some (take (Z.to_nat off) mem ++ bs ++ drop (Z.to_nat off + length bs) mem) else None.

(** A little-endian integer of [n] bytes read from memory. *)
Definition load_le (mem : list Z) (off n : Z) : option Z := le_val <$> load mem off n.

Definition store_le (mem : list Z) (off n v : Z) : option (list Z) :=
  store mem off (le_bytes (Z.to_nat n) v).

(** [memset(mem + off, b, n)] *)
Definition fill (mem : list Z) (off n b : Z) : option (list Z) :=
  store mem off (replicate (Z.to_nat n) b).

Lemma zlen_nil {A} : zlen (@nil A) = 0.
Proof. done. Qed.

Lemma zlen_cons {A} (x : A) (l : list A) : zlen (x :: l) = 1 + zlen l.
Proof. unfold zlen. simpl length. lia. Qed.

Lemma zlen_app {A} (l1 l2 : list A) : zlen (l1 ++ l2) = zlen l1 + zlen l2.
Proof. unfold zlen. rewrite length_app. lia. Qed.

Lemma zlen_nonneg {A} (l : list A) : 0 <= zlen l.
Proof. unfold zlen. lia. Qed.

Lemma zlen_le_bytes (n v : Z) : 0 <= n -> zlen (le_bytes (Z.to_nat n) v) = n.
Proof. intros. unfold zlen. rewrite length_le_bytes. lia. Qed.

Lemma zlen_take {A} (n : Z) (l : list A) : 0 <= n <= zlen l -> zlen (take (Z.to_nat n) l) = n.
Proof. unfold zlen. intros. rewrite length_take. lia. Qed.

Lemma zlen_drop {A} (n : Z) (l : list A) :
  0 <= n <= zlen l -> zlen (drop (Z.to_nat n) l) = zlen l - n.
Proof. unfold zlen. intros. rewrite length_drop. lia. Qed.

Lemma zlen_replicate {A} (n : Z) (x : A) : 0 <= n -> zlen (replicate (Z.to_nat n) x) = n.
Proof. unfold zlen. intros. rewrite length_replicate. lia. Qed.

Lemma load_Some (mem : list Z) (off n : Z) :
  0 <= off -> 0 <= n -> off + n <= zlen mem ->
  load mem off n = Some (take (Z.to_nat n) (drop (Z.to_nat off) mem)).
Proof.
  intros. unfold load.
  rewrite !(proj2 (Z.leb_le _ _)) by lia. done.
Qed.

Lemma load_inv (mem : list Z) (off n : Z) (bs : list Z) :
  load mem off n = Some bs ->
  0 <= off /\ 0 <= n /\ off + n <= zlen mem /\
  bs = take (Z.to_nat n) (drop (Z.to_nat off) mem) /\ zlen bs = n.
Proof.
  unfold load. destruct (_ && _) eqn:E; [|done]. intros [= <-].
  apply andb_true_iff in E as [E E3]. apply andb_true_iff in E as [E1 E2].
  rewrite Z.leb_le in *. repeat split; try done.
  unfold zlen in *. rewrite length_take, length_drop. lia.
Qed.

Lemma load_None (mem : list Z) (off n : Z) :
  load mem off n = None <-> ~ (0 <= off /\ 0 <= n /\ off + n <= zlen mem).
Proof.
  split.
  - intros H (? & ? & ?). by rewrite load_Some in H.
  - intros H. destruct (load mem off n) eqn:E; [|done].
    apply load_inv in E. exfalso. apply H. tauto.
Qed.

(** A block in the middle of a buffer. *)
Lemma load_app (pre mid post : list Z) :
  load (pre ++ mid ++ post) (zlen pre) (zlen mid) = Some mid.
Proof.
  rewrite load_Some.
  - f_equal. unfold zlen. rewrite !Nat2Z.id, drop_app_length. by apply take_app_length.
  - apply zlen_nonneg.
  - apply zlen_nonneg.
  - rewrite !zlen_app. pose proof (zlen_nonneg post). lia.
Qed.

Lemma load_app_at (mem pre mid post : list Z) (off n : Z) :
  mem = pre ++ mid ++ post -> off = zlen pre -> n = zlen mid -> load mem off n = Some mid.
Proof. intros -> -> ->. apply load_app. Qed.

Lemma store_app (pre old new post : list Z) :
  length old = length new ->
  store (pre ++ old ++ post) (zlen pre) new = Some (pre ++ new ++ post).
Proof.
  intros H. unfold store. rewrite !zlen_app.
  pose proof (zlen_nonneg pre). pose proof (zlen_nonneg post).
  assert (zlen old = zlen new) by (unfold zlen; lia).
  rewrite !(proj2 (Z.leb_le _ _)) by lia. simpl andb. f_equal. unfold zlen.
  rewrite !Nat2Z.id, take_app_length. f_equal. f_equal.
  rewrite <- H, <- drop_drop, drop_app_length. by apply drop_app_length.
Qed.

Lemma store_app_at (mem pre old new post : list Z) (off : Z) :
  mem = pre ++ old ++ post -> off = zlen pre -> zlen old = zlen new ->
  store mem off new = Some (pre ++ new ++ post).
Proof. intros -> -> H. apply store_app. unfold zlen in H. lia. Qed.

Lemma store_Some (mem : list Z) (off : Z) (bs : list Z) :
  0 <= off -> off + zlen bs <= zlen mem ->
  store mem off bs =
    Some (take (Z.to_nat off) mem ++ bs ++ drop (Z.to_nat off + length bs) mem).
Proof. intros. unfold store. rewrite !(proj2 (Z.leb_le _ _)) by lia. done. Qed.

Lemma store_inv (mem : list Z) (off : Z) (bs mem' : list Z) :
  store mem off bs = Some mem' ->
  0 <= off /\ off + zlen bs <= zlen mem /\
  mem' = take (Z.to_nat off) mem ++ bs ++ drop (Z.to_nat off + length bs) mem.
Proof.
  unfold store. destruct (_ && _) eqn:E; [|done]. intros [= <-].
  apply andb_true_iff in E as [E1 E2]. rewrite Z.leb_le in *. done.
Qed.

Lemma store_length (mem : list Z) (off : Z) (bs mem' : list Z) :
  store mem off bs = Some mem' -> length mem' = length mem.
Proof.
  intros H. apply store_inv in H as (? & H & ->). unfold zlen in H.
  rewrite !length_app, length_take, length_drop. lia.
Qed.

Lemma store_lookup (mem : list Z) (off : Z) (bs mem' : list Z) (i : nat) :
  store mem off bs = Some mem' ->
  mem' !! i = if decide (off <= Z.of_nat i < off + zlen bs)
              then bs !! (i - Z.to_nat off)%nat else mem !! i.
Proof.
  intros H. apply store_inv in H as (H0 & H & ->). unfold zlen in *.
  case_decide as Hd.
  - rewrite lookup_app_r by (rewrite length_take; lia).
    rewrite length_take, lookup_app_l by lia. f_equal. lia.
  - destruct (decide (Z.of_nat i < off)).
    + rewrite lookup_app_l by (rewrite length_take; lia). apply lookup_take_lt. lia.
    + rewrite lookup_app_r by (rewrite length_take; lia). rewrite length_take.
      rewrite lookup_app_r by lia. rewrite lookup_drop. f_equal. lia.
Qed.

Lemma load_lookup (mem : list Z) (off n : Z) (bs : list Z) (i : nat) :
  load mem off n = Some bs -> Z.of_nat i < n -> bs !! i = mem !! (Z.to_nat off + i)%nat.
Proof.
  intros H Hi. apply load_inv in H as (? & ? & ? & -> & _).
  rewrite lookup_take_lt by lia. apply lookup_drop.
Qed.

Lemma load_ext (mem mem' : list Z) (off n : Z) :
  length mem = length mem' ->
  (forall i, off <= Z.of_nat i < off + n -> mem !! i = mem' !! i) ->
  load mem off n = load mem' off n.
Proof.
  intros Hl Hi. destruct (load mem off n) as [bs|] eqn:E.
  - apply load_inv in E as (? & ? & ? & -> & ?). unfold zlen in *.
    rewrite load_Some by (unfold zlen; lia). f_equal. apply list_eq. intros i.
    destruct (decide (Z.of_nat i < n)).
    + rewrite !lookup_take_lt, !lookup_drop by lia. apply Hi. lia.
    + rewrite !lookup_take_ge by lia. done.
  - apply load_None in E. symmetry. apply load_None. unfold zlen in *. lia.
Qed.

(** Reading back what was stored, and reading elsewhere. *)
Lemma load_store_same (mem : list Z) (off : Z) (bs mem' : list Z) :
  store mem off bs = Some mem' -> load mem' off (zlen bs) = Some bs.
Proof.
  intros H. apply store_inv in H as (H0 & H & ->). eapply load_app_at; [done| |done].
  unfold zlen in *. rewrite length_take. lia.
Qed.

Lemma load_store_other (mem : list Z) (off : Z) (bs mem' : list Z) (a n : Z) :
  store mem off bs = Some mem' -> a + n <= off \/ off + zlen bs <= a ->
  load mem' a n = load mem a n.
Proof.
  intros H Hd. apply load_ext; [by eapply store_length|].
  intros i Hi. rewrite (store_lookup _ _ _ _ _ H), decide_False by lia. done.
Qed.

Lemma store_bytes_ok (mem : list Z) (off : Z) (bs mem' : list Z) :
  store mem off bs = Some mem' -> bytes_ok mem -> bytes_ok bs -> bytes_ok mem'.
Proof.
  intros H Hm Hb. apply store_inv in H as (_ & _ & ->).
  apply Forall_app. split; [by apply Forall_take|]. apply Forall_app.
  split; [done|]. by apply Forall_drop.
Qed.

Lemma load_bytes_ok (mem : list Z) (off n : Z) (bs : list Z) :
  load mem off n = Some bs -> bytes_ok mem -> bytes_ok bs.
Proof.
  intros H Hm. apply load_inv in H as (_ & _ & _ & -> & _).
  apply Forall_take. by apply Forall_drop.
Qed.

(** The copy invariant of a forward copy with overlapping windows: the first [a] bytes
    of [dst] are those of [src], the others are the old ones. *)
Definition copied (src old : list Z) (a : Z) : list Z :=
  take (Z.to_nat a) src ++ drop (Z.to_nat a) old.

Lemma copied_lookup (src old : list Z) (a : Z) (i : nat) :
  0 <= a <= zlen src -> a <= zlen old ->
  copied src old a !! i = if decide (Z.of_nat i < a) then src !! i else old !! i.
Proof.
  intros Ha Ho. unfold copied, zlen in *. case_decide.
  - rewrite lookup_app_l by (rewrite length_take; lia). apply lookup_take_lt. lia.
  - rewrite lookup_app_r by (rewrite length_take; lia). rewrite length_take, lookup_drop.
    f_equal. lia.
Qed.

Lemma zlen_copied (src old : list Z) (a : Z) :
  0 <= a <= zlen src -> a <= zlen old -> zlen (copied src old a) = zlen old.
Proof. unfold zlen, copied. intros. rewrite length_app, length_take, length_drop. lia. Qed.

Lemma copied_window (src old bs : list Z) (a off n : Z) :
  0 <= off <= a -> a <= zlen src -> a <= zlen old -> off + n <= zlen old ->
  load src off n = Some bs ->
  store (copied src old a) off bs = Some (copied src old (Z.max a (off + n))).
Proof.
  intros Ho Has Hao Hno Hbs.
  pose proof (load_inv _ _ _ _ Hbs) as (_ & Hn & Hns & _ & Hlen).
  destruct (store (copied src old a) off bs) as [mem|] eqn:E.
  - f_equal. apply list_eq. intros i.
    rewrite (store_lookup _ _ _ _ i E), !copied_lookup by lia.
    repeat case_decide; try done; try lia.
    rewrite (load_lookup _ _ _ _ _ Hbs) by lia. f_equal. lia.
  - exfalso. rewrite store_Some in E by (rewrite ?zlen_copied; lia). done.
Qed.

(** ** Consecutive and nested stores *)

Lemma store_nil (mem : list Z) (off : Z) :
  0 <= off <= zlen mem -> store mem off [] = Some mem.
Proof.
  intros H. rewrite store_Some by (rewrite ?zlen_nil; lia). f_equal. simpl app.
  rewrite Nat.add_0_r. apply take_drop.
Qed.

Lemma store_is_Some (mem : list Z) (off : Z) (bs : list Z) :
  0 <= off -> off + zlen bs <= zlen mem -> exists mem', store mem off bs = Some mem'.
Proof. intros. rewrite store_Some by done. eauto. Qed.

Lemma store_zlen (mem : list Z) (off : Z) (bs mem' : list Z) :
  store mem off bs = Some mem' -> zlen mem' = zlen mem.
Proof. intros H. unfold zlen. by rewrite (store_length _ _ _ _ H). Qed.

Lemma store_store_next (mem m1 : list Z) (off : Z) (a b : list Z) :
  store mem off a = Some m1 -> off + zlen a + zlen b <= zlen mem ->
  store m1 (off + zlen a) b = store mem off (a ++ b).
Proof.
  intros H Hb. pose proof (store_inv _ _ _ _ H) as (H0 & _ & _).
  pose proof (zlen_nonneg a). pose proof (zlen_nonneg b).
  destruct (store_is_Some m1 (off + zlen a) b) as [m2 Hm2];
    [lia|rewrite (store_zlen _ _ _ _ H); lia|].
  destruct (store_is_Some mem off (a ++ b)) as [m3 Hm3]; [lia|rewrite zlen_app; lia|].
  rewrite Hm2, Hm3. f_equal. apply list_eq. intros i.
  rewrite (store_lookup _ _ _ _ i Hm2), (store_lookup _ _ _ _ i H), (store_lookup _ _ _ _ i Hm3).
  rewrite zlen_app. unfold zlen in *. repeat case_decide; try lia; try done.
  - rewrite lookup_app_r by lia. f_equal. lia.
  - by rewrite lookup_app_l by lia.
Qed.

(** A store into the middle block of a buffer. *)
Lemma store_mid (pre cell cell' post : list Z) (off : Z) (bs : list Z) :
  store cell off bs = Some cell' ->
  store (pre ++ cell ++ post) (zlen pre + off) bs = Some (pre ++ cell' ++ post).
Proof.
  intros H. pose proof (store_inv _ _ _ _ H) as (H0 & Hb & ->).
  rewrite <- (take_drop (Z.to_nat off) cell) at 1.
  rewrite <- (take_drop (length bs) (drop (Z.to_nat off) cell)) at 1.
  rewrite drop_drop. unfold zlen in *.
  eapply eq_trans; [eapply (store_app_at _ (pre ++ take (Z.to_nat off) cell)
    (take (length bs) (drop (Z.to_nat off) cell)) bs
    (drop (Z.to_nat off + length bs) cell ++ post))|].
  - by rewrite !app_assoc.
  - unfold zlen. rewrite length_app, length_take. lia.
  - unfold zlen. rewrite length_take, length_drop. lia.
  - by rewrite !app_assoc.
Qed.

Lemma load_mid (pre cell post : list Z) (off n : Z) (bs : list Z) :
  load cell off n = Some bs ->
  load (pre ++ cell ++ post) (zlen pre + off) n = Some bs.
Proof.
  intros H. apply load_inv in H as (H0 & Hn & Hb & -> & _).
  unfold zlen in *. rewrite load_Some.
  - f_equal. replace (Z.to_nat (_ + off)) with (length pre + Z.to_nat off)%nat by lia.
    rewrite <- drop_drop, drop_app_length, drop_app_le by lia.
    rewrite take_app_le by (rewrite length_drop; lia). done.
  - lia.
  - lia.
  - unfold zlen. rewrite !length_app. lia.
Qed.

(** ** Frames: two buffers that differ at most between two offsets *)

Definition same_outside (mem mem' : list Z) (a b : Z) : Prop :=
  length mem' = length mem /\
  forall i, ~ (a <= Z.of_nat i < b) -> mem' !! i = mem !! i.

Lemma store_same_outside (mem : list Z) (off : Z) (bs mem' : list Z) :
  store mem off bs = Some mem' -> same_outside mem mem' off (off + zlen bs).
Proof.
  intros H. split; [by eapply store_length|]. intros i Hi.
  rewrite (store_lookup _ _ _ _ i H). by rewrite decide_False.
Qed.

Lemma same_outside_weaken (mem mem' : list Z) (a b a' b' : Z) :
  same_outside mem mem' a b -> a' <= a -> b <= b' -> same_outside mem mem' a' b'.
Proof. intros [Hl H] Ha Hb. split; [done|]. intros i Hi. apply H. lia. Qed.

Lemma load_same_outside (mem mem' : list Z) (a b off n : Z) :
  same_outside mem mem' a b -> off + n <= a \/ b <= off -> load mem' off n = load mem off n.
Proof. intros [Hl H] Hd. apply load_ext; [done|]. intros i Hi. apply H. lia. Qed.

Lemma load_le_same_outside (mem mem' : list Z) (a b off n : Z) :
  same_outside mem mem' a b -> off + n <= a \/ b <= off ->
  load_le mem' off n = load_le mem off n.
Proof. intros H Hd. unfold load_le. by rewrite (load_same_outside _ _ _ _ _ _ H Hd). Qed.

Lemma same_outside_middle (pre mid mid' post : list Z) :
  length mid' = length mid ->
  same_outside (pre ++ mid ++ post) (pre ++ mid' ++ post) (zlen pre) (zlen pre + zlen mid).
Proof.
  intros Hl. split; [rewrite !length_app; lia|]. intros i Hi. unfold zlen in *.
  destruct (decide (i < length pre)%nat).
  - by rewrite !lookup_app_l by lia.
  - rewrite !(lookup_app_r pre) by lia. rewrite !lookup_app_r by lia. by rewrite Hl.
Qed.

Lemma load_le_store_same (mem : list Z) (off n v : Z) (mem' : list Z) :
  0 <= n -> 0 <= v < 256 ^ n -> store_le mem off n v = Some mem' -> load_le mem' off n = Some v.
Proof.
  intros Hn Hv H. unfold load_le. apply load_store_same in H.
  rewrite zlen_le_bytes in H by done. rewrite H. simpl. f_equal.
  rewrite le_val_le_bytes, Z2Nat.id by done. by apply Z.mod_small.
Qed.

Lemma split_block (mem : list Z) (a n : Z) :
  0 <= a -> 0 <= n -> a + n <= zlen mem ->
  exists pre mid post, mem = pre ++ mid ++ post /\ zlen pre = a /\ zlen mid = n.
Proof.
  intros Ha Hn H. exists (take (Z.to_nat a) mem), (take (Z.to_nat n) (drop (Z.to_nat a) mem)),
    (drop (Z.to_nat n) (drop (Z.to_nat a) mem)).
  split; [by rewrite !take_drop|].
  split; apply zlen_take; [|rewrite zlen_drop]; lia.
Qed.
