(* ===== verification/Floats.v ===== *)
(** * Conversions from floating point

    Floating point values are [SpecFloat]s. *)
From stdpp Require Import base option.
From Stdlib Require Import ZArith SpecFloat.

(** The conversion to an integer type truncates; it is undefined for what does not fit. *)
Definition trunc (x : spec_float) : option Z :=
  match x with
  | S754_zero _ => Some 0%Z
  | S754_finite s m e =>
      let n := (if 0 <=? e then Zpos m * 2 ^ e else Zpos m / 2 ^ (- e))%Z in
      Some (if s then - n else n)%Z
  | _ => None
  end.

Definition to_integer (lo hi : Z) (x : spec_float) : option Z :=
  n ← trunc x; if ((lo <=? n) && (n <? hi))%Z then Some n else None.
