(* ===== verification/Hash.v ===== *)
(** * The 64-bit content hash and the copying hash
    ([src/utility/hash_core.hpp], [hash_software.cpp], [hash_x86_crc32c.cpp], [hash.cpp])

    [hash_core] runs four CRC lanes over the source, optionally copying it to the
    destination as it goes. The word operations are an interface, [CrcOps], with the
    software implementation and the hardware one (the CPU's CRC instruction, a
    parameter) as instances. *)
From stdpp Require Import base list option numbers.
From Stdlib Require Import ZArith Lia Bool.
From S2P Require Import Prelude Memory.

(** The class [Ops] of the source: one operation per word width. *)
Class CrcOps := {
  crc_u8 : Z -> Z -> Z;
  crc_u16 : Z -> Z -> Z;
  crc_u32 : Z -> Z -> Z;
  crc_u64 : Z -> Z -> Z }.

(** ** The core *)

Section Core.
Context {Ops : CrcOps}.

(** The destination is [None] in the non-copying variant (a null pointer there). *)
Definition consume_word (width : Z) (crc : Z) (src : list Z) (dst : option (list Z))
    (offset : Z) : option (Z * option (list Z)) :=
  v ← load src offset width;
  dst' ← match dst with
         | Some d => d' ← store d offset v; Some (Some d')
         | None => Some None
         end;
  let value := le_val v in
  Some (if width =? 1 then crc_u8 crc value
        else if width =? 2 then crc_u16 crc value
        else if width =? 4 then crc_u32 crc value
        else crc_u64 crc value, dst').

Record lanes := mk_lanes { h1 : Z; h2 : Z; h3 : Z; h4 : Z }.

(** One 32-byte window: a word of eight bytes into each lane. *)
Definition consume_window (h : lanes) (src : list Z) (dst : option (list Z)) (offset : Z) :
    option (lanes * option (list Z)) :=
  '(a1, d1) ← consume_word 8 (h1 h) src dst offset;
  '(a2, d2) ← consume_word 8 (h2 h) src d1 (offset + 8);
  '(a3, d3) ← consume_word 8 (h3 h) src d2 (offset + 16);
  '(a4, d4) ← consume_word 8 (h4 h) src d3 (offset + 24);
  Some (mk_lanes a1 a2 a3 a4, d4).

(** [while (offset <= len - 32U)]; [None] when the fuel does not suffice. *)
Fixpoint window_loop (fuel : nat) (h : lanes) (src : list Z) (dst : option (list Z))
    (len offset : Z) : option (lanes * option (list Z) * Z) :=
  match fuel with
  | O => None
  | S fuel =>
      if offset <=? len - 32 then
        '(h', dst') ← consume_window h src dst offset;
        window_loop fuel h' src dst' len (offset + 32)
      else Some (h, dst, offset)
  end.

Definition rotl32 (x k : Z) : Z := Z.lor (u32 (Z.shiftl x k)) (Z.shiftr x (32 - k)).

(** [low] and [high] put together. *)
Definition finish (h : lanes) : Z :=
  let low := Z.lxor (h1 h) (rotl32 (h3 h) 17) in
  let high := Z.lxor (h2 h) (rotl32 (h4 h) 19) in
  Z.lor (Z.shiftl high 32) low.

Definition init_lanes : lanes := mk_lanes 0xFFFFFFFF 0xFFFFFFFF 0xFFFFFFFF 0xFFFFFFFF.

Definition hash_core (src : list Z) (dst : option (list Z)) (len : Z) :
    option (Z * option (list Z)) :=
  let '(mk_lanes h1 h2 h3 h4) := init_lanes in
  let len_mix := u32 len in
  if len =? 0 then Some (0, dst)
  else if len <? 4 then
    '(h1, dst, offset) ←
      (if negb (Z.land len 2 =? 0)
       then '(h, d) ← consume_word 2 (Z.lxor h1 len_mix) src dst 0; Some (h, d, 2)
       else Some (h1, dst, 0));
    '(h2, dst) ←
      (if negb (Z.land len 1 =? 0)
       then consume_word 1 (Z.lxor h2 len_mix) src dst offset
       else Some (h2, dst));
    Some (finish (mk_lanes h1 h2 h3 h4), dst)
  else if len <? 8 then
    '(h1, dst) ← consume_word 4 h1 src dst 0;
    '(h2, dst) ← consume_word 4 (Z.lxor h2 len_mix) src dst (len - 4);
    Some (finish (mk_lanes h1 h2 h3 h4), dst)
  else if len <? 16 then
    '(h1, dst) ← consume_word 8 h1 src dst 0;
    '(h2, dst) ← consume_word 8 (Z.lxor h2 len_mix) src dst (len - 8);
    Some (finish (mk_lanes h1 h2 h3 h4), dst)
  else if len <? 32 then
    '(h1, dst) ← consume_word 8 h1 src dst 0;
    '(h2, dst) ← consume_word 8 h2 src dst 8;
    '(h3, dst) ← consume_word 8 (Z.lxor h3 len_mix) src dst (len - 16);
    '(h4, dst) ← consume_word 8 (Z.lxor h4 len_mix) src dst (len - 8);
    Some (finish (mk_lanes h1 h2 h3 h4), dst)
  else
    '(h, dst, offset) ← window_loop (S (Z.to_nat len)) (mk_lanes h1 h2 h3 h4) src dst len 0;
    '(h, dst) ← (if negb (offset =? len) then consume_window h src dst (len - 32)
                 else Some (h, dst));
    Some (finish h, dst).

(** [get_hash_64] and [qlog_memcpy_with_hash], over the chosen operations. *)
Definition get_hash_64 (data : list Z) (size : Z) : option Z :=
  fst <$> hash_core data None size.

Definition qlog_memcpy_with_hash (dst src : list Z) (len : Z) : option (Z * list Z) :=
  '(h, d) ← hash_core src (Some dst) len;
  d ← d; Some (h, d).

End Core.

(** ** The software operations *)

Definition kCrcTable : list Z :=
  [0x00000000; 0xF26B8303; 0xE13B70F7; 0x1350F3F4; 0xC79A971F; 0x35F1141C; 0x26A1E7E8; 0xD4CA64EB;
   0x8AD958CF; 0x78B2DBCC; 0x6BE22838; 0x9989AB3B; 0x4D43CFD0; 0xBF284CD3; 0xAC78BF27; 0x5E133C24;
   0x105EC76F; 0xE235446C; 0xF165B798; 0x030E349B; 0xD7C45070; 0x25AFD373; 0x36FF2087; 0xC494A384;
   0x9A879FA0; 0x68EC1CA3; 0x7BBCEF57; 0x89D76C54; 0x5D1D08BF; 0xAF768BBC; 0xBC267848; 0x4E4DFB4B;
   0x20BD8EDE; 0xD2D60DDD; 0xC186FE29; 0x33ED7D2A; 0xE72719C1; 0x154C9AC2; 0x061C6936; 0xF477EA35;
   0xAA64D611; 0x580F5512; 0x4B5FA6E6; 0xB93425E5; 0x6DFE410E; 0x9F95C20D; 0x8CC531F9; 0x7EAEB2FA;
   0x30E349B1; 0xC288CAB2; 0xD1D83946; 0x23B3BA45; 0xF779DEAE; 0x05125DAD; 0x1642AE59; 0xE4292D5A;
   0xBA3A117E; 0x4851927D; 0x5B016189; 0xA96AE28A; 0x7DA08661; 0x8FCB0562; 0x9C9BF696; 0x6EF07595;
   0x417B1DBC; 0xB3109EBF; 0xA0406D4B; 0x522BEE48; 0x86E18AA3; 0x748A09A0; 0x67DAFA54; 0x95B17957;
   0xCBA24573; 0x39C9C670; 0x2A993584; 0xD8F2B687; 0x0C38D26C; 0xFE53516F; 0xED03A29B; 0x1F682198;
   0x5125DAD3; 0xA34E59D0; 0xB01EAA24; 0x42752927; 0x96BF4DCC; 0x64D4CECF; 0x77843D3B; 0x85EFBE38;
   0xDBFC821C; 0x2997011F; 0x3AC7F2EB; 0xC8AC71E8; 0x1C661503; 0xEE0D9600; 0xFD5D65F4; 0x0F36E6F7;
   0x61C69362; 0x93AD1061; 0x80FDE395; 0x72966096; 0xA65C047D; 0x5437877E; 0x4767748A; 0xB50CF789;
   0xEB1FCBAD; 0x197448AE; 0x0A24BB5A; 0xF84F3859; 0x2C855CB2; 0xDEEEDFB1; 0xCDBE2C45; 0x3FD5AF46;
   0x7198540D; 0x83F3D70E; 0x90A324FA; 0x62C8A7F9; 0xB602C312; 0x44694011; 0x5739B3E5; 0xA55230E6;
   0xFB410CC2; 0x092A8FC1; 0x1A7A7C35; 0xE811FF36; 0x3CDB9BDD; 0xCEB018DE; 0xDDE0EB2A; 0x2F8B6829;
   0x82F63B78; 0x709DB87B; 0x63CD4B8F; 0x91A6C88C; 0x456CAC67; 0xB7072F64; 0xA457DC90; 0x563C5F93;
   0x082F63B7; 0xFA44E0B4; 0xE9141340; 0x1B7F9043; 0xCFB5F4A8; 0x3DDE77AB; 0x2E8E845F; 0xDCE5075C;
   0x92A8FC17; 0x60C37F14; 0x73938CE0; 0x81F80FE3; 0x55326B08; 0xA759E80B; 0xB4091BFF; 0x466298FC;
   0x1871A4D8; 0xEA1A27DB; 0xF94AD42F; 0x0B21572C; 0xDFEB33C7; 0x2D80B0C4; 0x3ED04330; 0xCCBBC033;
   0xA24BB5A6; 0x502036A5; 0x4370C551; 0xB11B4652; 0x65D122B9; 0x97BAA1BA; 0x84EA524E; 0x7681D14D;
   0x2892ED69; 0xDAF96E6A; 0xC9A99D9E; 0x3BC21E9D; 0xEF087A76; 0x1D63F975; 0x0E330A81; 0xFC588982;
   0xB21572C9; 0x407EF1CA; 0x532E023E; 0xA145813D; 0x758FE5D6; 0x87E466D5; 0x94B49521; 0x66DF1622;
   0x38CC2A06; 0xCAA7A905; 0xD9F75AF1; 0x2B9CD9F2; 0xFF56BD19; 0x0D3D3E1A; 0x1E6DCDEE; 0xEC064EED;
   0xC38D26C4; 0x31E6A5C7; 0x22B65633; 0xD0DDD530; 0x0417B1DB; 0xF67C32D8; 0xE52CC12C; 0x1747422F;
   0x49547E0B; 0xBB3FFD08; 0xA86F0EFC; 0x5A048DFF; 0x8ECEE914; 0x7CA56A17; 0x6FD599E3; 0x9DBE1AE0;
   0xD3D3E1AB; 0x21B862A8; 0x32E8915C; 0xC083125F; 0x144976B4; 0xE622F5B7; 0xF5720643; 0x07198540;
   0x590AB964; 0xAB613A67; 0xB831C993; 0x4A5A4A90; 0x9E902E7B; 0x6CFBAD78; 0x7FAB5E8C; 0x8DC0DD8F;
   0xE330A81A; 0x115B2B19; 0x020BD8ED; 0xF0605BEE; 0x24AA3F05; 0xD6C1BC06; 0xC5914FF2; 0x37FACCF1;
   0x69E9F0D5; 0x9B8273D6; 0x88D28022; 0x7AB90321; 0xAE7367CA; 0x5C18E4C9; 0x4F48173D; 0xBD23943E;
   0xF36E6F75; 0x0105EC76; 0x12551F82; 0xE03E9C81; 0x34F4F86A; 0xC69F7B69; 0xD5CF889D; 0x27A40B9E;
   0x79B737BA; 0x8BDCB4B9; 0x988C474D; 0x6AE7C44E; 0xBE2DA0A5; 0x4C4623A6; 0x5F16D052; 0xAD7D5351].

Definition software_u8 (crc v : Z) : Z :=
  Z.lxor (Z.shiftr crc 8) (default 0 (kCrcTable !! Z.to_nat (Z.land (Z.lxor crc v) 255))).

(** The byte loop of [SoftwareOps::u16], [u32] and [u64]: [sizeof(v)] bytes, the lowest
    first. *)
Fixpoint software_bytes (n : nat) (i : Z) (crc v : Z) : Z :=
  match n with
  | O => crc
  | S n => software_bytes n (i + 1) (software_u8 crc (u8 (Z.shiftr v (8 * i)))) v
  end.

#[export] Instance SoftwareOps : CrcOps := {
  crc_u8 := software_u8;
  crc_u16 := software_bytes 2 0;
  crc_u32 := software_bytes 4 0;
  crc_u64 := software_bytes 8 0 }.

(** ** The hardware operations: the compiler intrinsics are parameters *)

Section Hardware.
Context (x86_64 : bool) (mm_crc32_u8 mm_crc32_u16 mm_crc32_u32 mm_crc32_u64 : Z -> Z -> Z).

Definition hardware_u64 (crc v : Z) : Z :=
  if x86_64 then u32 (mm_crc32_u64 crc v)
  else mm_crc32_u32 (mm_crc32_u32 crc (u32 v)) (u32 (Z.shiftr v 32)).

Definition HardwareOps : CrcOps := {|
  crc_u8 := mm_crc32_u8;
  crc_u16 := mm_crc32_u16;
  crc_u32 := mm_crc32_u32;
  crc_u64 := hardware_u64 |}.

End Hardware.

(** ** The copy is a copy, and does not change the hash *)

Section Copy.
Context {Ops : CrcOps}.
Variables (src old : list Z) (len : Z).
Hypothesis len_src : len <= zlen src.
Hypothesis len_dst : len <= zlen old.

(** The two variants of a step agree, and the copying one extends the copied prefix. *)
Definition step_ok {A} (a b : Z)
    (f : option (list Z) -> option (A * option (list Z))) : Prop :=
  exists x, f None = Some (x, None) /\
            f (Some (copied src old a)) = Some (x, Some (copied src old b)).

Lemma consume_word_ok (width crc a off : Z) :
  0 <= off <= a -> a <= len -> 0 < width -> off + width <= len ->
  step_ok a (Z.max a (off + width)) (fun d => consume_word width crc src d off).
Proof.
  intros Ho Ha Hw Hl. destruct (load src off width) as [bs|] eqn:E.
  - unfold step_ok, consume_word. rewrite E. simpl.
    rewrite (copied_window src old bs a off width) by (done || lia). simpl. eauto.
  - apply load_None in E. lia.
Qed.

(** Sequencing two steps. *)
Lemma step_ok_bind {A B} (a b c : Z) f (g : A -> option (list Z) -> option (B * option (list Z))) :
  step_ok a b f -> (forall x, step_ok b c (g x)) ->
  step_ok a c (fun d => '(x, d') ← f d; g x d').
Proof.
  intros (x & Hf1 & Hf2) Hg. destruct (Hg x) as (y & Hg1 & Hg2). exists y.
  rewrite Hf1, Hf2. simpl. done.
Qed.

Lemma step_ok_ret {A} (a : Z) (x : A) : step_ok a a (fun d => Some (x, d)).
Proof. by exists x. Qed.

Lemma step_ok_eq {A} (a b b' : Z) (f : option (list Z) -> option (A * option (list Z))) :
  step_ok a b f -> b = b' -> step_ok a b' f.
Proof. by intros ? <-. Qed.

Ltac word_steps :=
  repeat (eapply step_ok_bind; [apply consume_word_ok; lia | intros ?]);
  eapply step_ok_eq; [apply step_ok_ret | lia].

Lemma consume_window_ok (h : lanes) (a off : Z) :
  0 <= off <= a -> a <= off + 32 -> off + 32 <= len ->
  step_ok a (off + 32) (fun d => consume_window h src d off).
Proof. intros Ho Ha Hl. unfold consume_window. word_steps. Qed.

(** The loop runs to the last offset from which no full window is left. *)
Lemma window_loop_ok (fuel : nat) (h : lanes) (off : Z) :
  0 <= off <= len -> len - off < Z.of_nat fuel ->
  exists h' off', off <= off' <= len /\ len - 32 < off' /\
    window_loop fuel h src None len off = Some (h', None, off') /\
    window_loop fuel h src (Some (copied src old off)) len off =
      Some (h', Some (copied src old off'), off').
Proof.
  revert h off. induction fuel as [|fuel IH]; intros h off Hoff Hfuel; [lia|].
  simpl window_loop. destruct (off <=? len - 32) eqn:E.
  - apply Z.leb_le in E. destruct (consume_window_ok h off off) as (h1' & -> & ->); [lia..|].
    simpl. destruct (IH h1' (off + 32)) as (h' & off' & ? & ? & -> & ->); [lia..|].
    exists h', off'. repeat split; done || lia.
  - apply Z.leb_gt in E. exists h, off. repeat split; done || lia.
Qed.

Lemma short_case (crc1 crc2 mix : Z) (h3 h4 : Z) :
  0 < len < 4 ->
  step_ok 0 len (fun d =>
    '(h1, d, offset) ←
      (if negb (Z.land len 2 =? 0)
       then '(h, d) ← consume_word 2 (Z.lxor crc1 mix) src d 0; Some (h, d, 2)
       else Some (crc1, d, 0));
    '(h2, d) ←
      (if negb (Z.land len 1 =? 0)
       then consume_word 1 (Z.lxor crc2 mix) src d offset
       else Some (crc2, d));
    Some (finish (mk_lanes h1 h2 h3 h4), d)).
Proof.
  intros Hl. assert (len = 1 \/ len = 2 \/ len = 3) as [E|[E|E]] by lia;
    destruct (Z.land len 2 =? 0) eqn:E2; rewrite E in E2; try discriminate E2;
    destruct (Z.land len 1 =? 0) eqn:E1; rewrite E in E1; try discriminate E1; simpl negb;
    cbn iota beta.
  - eapply step_ok_eq; [eapply step_ok_bind; [apply consume_word_ok; lia|intros ?; apply step_ok_ret]|lia].
  - destruct (consume_word_ok 2 (Z.lxor crc1 mix) 0 0) as (x & Hx1 & Hx2); [lia..|].
    eexists. cbn beta. rewrite Hx1, Hx2. simpl. rewrite E. split; reflexivity.
  - destruct (consume_word_ok 2 (Z.lxor crc1 mix) 0 0) as (x & Hx1 & Hx2); [lia..|].
    destruct (consume_word_ok 1 (Z.lxor crc2 mix) (Z.max 0 (0 + 2)) 2) as (y & Hy1 & Hy2); [lia..|].
    eexists. cbn beta. rewrite Hx1, Hx2. simpl. simpl in Hy1, Hy2. rewrite Hy1, Hy2. simpl.
    rewrite E. split; reflexivity.
Qed.

Lemma hash_core_ok : 0 <= len -> step_ok 0 len (fun d => hash_core src d len).
Proof.
  intros Hlen. unfold hash_core, init_lanes.
  destruct (len =? 0) eqn:E0; [apply Z.eqb_eq in E0; rewrite E0; apply step_ok_ret|].
  apply Z.eqb_neq in E0.
  destruct (len <? 4) eqn:E4; [apply Z.ltb_lt in E4; apply short_case; lia|].
  apply Z.ltb_ge in E4.
  destruct (len <? 8) eqn:E8; [apply Z.ltb_lt in E8; word_steps|]. apply Z.ltb_ge in E8.
  destruct (len <? 16) eqn:E16; [apply Z.ltb_lt in E16; word_steps|]. apply Z.ltb_ge in E16.
  destruct (len <? 32) eqn:E32; [apply Z.ltb_lt in E32; word_steps|]. apply Z.ltb_ge in E32.
  destruct (window_loop_ok (S (Z.to_nat len))
    (mk_lanes 0xFFFFFFFF 0xFFFFFFFF 0xFFFFFFFF 0xFFFFFFFF) 0) as (h & off & ? & ? & Hn & Hs); [lia..|].
  unfold step_ok. rewrite Hn, Hs. clear Hn Hs. simpl mbind.
  destruct (negb (off =? len)) eqn:E.
  - destruct (consume_window_ok h off (len - 32)) as (h' & -> & ->); [lia..|].
    simpl. rewrite Z.sub_add. eauto.
  - apply negb_false_iff, Z.eqb_eq in E as ->. simpl. eauto.
Qed.

End Copy.

Lemma memcpy_with_hash_ok {Ops : CrcOps} (dst src : list Z) (len : Z) :
  0 <= len <= zlen src -> len <= zlen dst ->
  exists h, get_hash_64 src len = Some h /\
    qlog_memcpy_with_hash dst src len =
      Some (h, take (Z.to_nat len) src ++ drop (Z.to_nat len) dst).
Proof.
  intros Hs Hd. destruct (hash_core_ok src dst len) as (h & H1 & H2); [lia..|].
  exists h. unfold get_hash_64, qlog_memcpy_with_hash. rewrite H1.
  change (copied src dst 0) with dst in H2. rewrite H2. done.
Qed.

(** For every choice of the word operations, [qlog_memcpy_with_hash] is a [memcpy]
    of the [len] bytes (the rest of the destination untouched) and returns the hash that
    [get_hash_64] computes on the source, although the windows overlap; both always
    return when the two buffers hold [len] bytes. *)
Theorem memcpy_with_hash_copies {Ops : CrcOps} (dst src : list Z) (len : Z) :
  0 <= len <= zlen src -> len <= zlen dst ->
  exists h, get_hash_64 src len = Some h /\
    qlog_memcpy_with_hash dst src len =
      Some (h, take (Z.to_nat len) src ++ drop (Z.to_nat len) dst).
Proof. apply memcpy_with_hash_ok. Qed.

Lemma memcpy_with_hash_copies_witness :
  exists h, get_hash_64 [1; 2; 3] 3 = Some h /\
    qlog_memcpy_with_hash [9; 9; 9; 9] [1; 2; 3] 3 = Some (h, [1; 2; 3; 9]).
Proof. apply (memcpy_with_hash_copies [9; 9; 9; 9] [1; 2; 3] 3); unfold zlen; simpl; lia. Defined.

(** ** The software table against CRC-32C *)

(** One step of the reflected CRC-32C register (polynomial [0x82F63B78]), the operation
    that the CPU's instruction performs on a byte; it is the reference for the table. *)
Definition crc32c_bit (c : Z) : Z :=
  if Z.odd c then Z.lxor (Z.shiftr c 1) 0x82F63B78 else Z.shiftr c 1.

Fixpoint crc32c_bits (n : nat) (c : Z) : Z :=
  match n with O => c | S n => crc32c_bits n (crc32c_bit c) end.

Definition crc32c_byte (crc v : Z) : Z := crc32c_bits 8 (Z.lxor crc v).

Lemma lxor_swap (a b p : Z) :
  Z.lxor (Z.lxor a b) p = Z.lxor (Z.lxor a p) b.
Proof. rewrite !Z.lxor_assoc. f_equal. apply Z.lxor_comm. Qed.

Lemma crc32c_bit_lxor (a b : Z) : crc32c_bit (Z.lxor a b) = Z.lxor (crc32c_bit a) (crc32c_bit b).
Proof.
  unfold crc32c_bit. rewrite <- !Z.bit0_odd, Z.lxor_spec, Z.shiftr_lxor.
  destruct (Z.testbit a 0), (Z.testbit b 0); simpl xorb; cbn iota.
  - rewrite (Z.lxor_comm (Z.shiftr b 1)), <- Z.lxor_assoc, (Z.lxor_assoc (Z.shiftr a 1)).
    by rewrite Z.lxor_nilpotent, Z.lxor_0_r.
  - apply lxor_swap.
  - by rewrite Z.lxor_assoc.
  - done.
Qed.

Lemma crc32c_bits_lxor (n : nat) (a b : Z) :
  crc32c_bits n (Z.lxor a b) = Z.lxor (crc32c_bits n a) (crc32c_bits n b).
Proof.
  revert a b. induction n as [|n IH]; intros; simpl; [done|]. by rewrite crc32c_bit_lxor, IH.
Qed.

Lemma crc32c_bits_high (n : nat) (a : Z) :
  0 <= a -> crc32c_bits n (Z.shiftl a (Z.of_nat n)) = a.
Proof.
  intros Ha. induction n as [|n IH]; simpl crc32c_bits; [apply Z.shiftl_0_r|].
  unfold crc32c_bit. rewrite <- Z.bit0_odd, Z.shiftl_spec_low by lia. rewrite Z.shiftr_shiftl_r by lia.
  rewrite <- IH at 2. f_equal. rewrite Nat2Z.inj_succ.
  replace (1 - Z.succ (Z.of_nat n)) with (- Z.of_nat n) by lia. by rewrite Z.shiftr_opp_r.
Qed.

Lemma split_low8 (x : Z) : x = Z.lxor (Z.shiftl (Z.shiftr x 8) 8) (Z.land x 255).
Proof.
  apply testbit_ext. intros i Hi. rewrite Z.lxor_spec, Z.land_spec.
  change 255 with (Z.ones 8). destruct (Z_lt_le_dec i 8).
  - rewrite Z.shiftl_spec_low, Z.ones_spec_low by lia. by rewrite xorb_false_l, andb_true_r.
  - rewrite Z.shiftl_spec, Z.shiftr_spec, Z.ones_spec_high by lia.
    rewrite andb_false_r, xorb_false_r. f_equal. lia.
Qed.

Lemma shiftr8_lxor_byte (crc v : Z) :
  is_byte v -> Z.shiftr (Z.lxor crc v) 8 = Z.shiftr crc 8.
Proof.
  intros Hv. rewrite Z.shiftr_lxor, (Z.shiftr_div_pow2 v) by lia.
  rewrite (Z.div_small v) by done. apply Z.lxor_0_r.
Qed.

(** The table entry for [i] against eight bit steps of [i]. *)
Definition table_entry_ok (i : Z) : bool :=
  default 0 (kCrcTable !! Z.to_nat i) =? crc32c_bits 8 i.

Lemma table_entries (i : Z) : is_byte i -> table_entry_ok i = negb ((i =? 206) || (i =? 207)).
Proof.
  intros Hi. apply eqb_true_iff.
  apply (forallb_bytes (fun i => eqb (table_entry_ok i) (negb ((i =? 206) || (i =? 207)))));
    [vm_compute; reflexivity|done].
Qed.

(** C35. The software byte step is the CRC-32C byte step, for every 32-bit register and
    every byte, exactly when the table index [(crc ^ v) & 0xFF] is neither 206 nor 207:
    the table holds the CRC-32C entries except those two, as its comment announces. *)
Theorem software_u8_crc32c (crc v : Z) :
  in_range 32 crc -> is_byte v ->
  software_u8 crc v = crc32c_byte crc v <->
  Z.land (Z.lxor crc v) 255 <> 206 /\ Z.land (Z.lxor crc v) 255 <> 207.
Proof.
  intros Hc Hv. unfold software_u8, crc32c_byte. set (x := Z.lxor crc v).
  assert (0 <= x) by (apply (lxor_range 32); [lia|done|]; destruct Hv; split; lia).
  assert (is_byte (Z.land x 255)) as Hb.
  { change 255 with (2 ^ 8 - 1). rewrite land_mask by lia. by apply Z.mod_pos_bound. }
  pose proof (table_entries _ Hb) as Ht. unfold table_entry_ok in Ht.
  rewrite (split_low8 x) at 2. rewrite crc32c_bits_lxor.
  change 8 with (Z.of_nat 8) at 3. rewrite crc32c_bits_high by (apply Z.shiftr_nonneg; done).
  unfold x at 2. rewrite shiftr8_lxor_byte by done. fold x.
  set (e := default 0 _) in *. set (r := crc32c_bits 8 (Z.land x 255)) in *.
  assert (Z.lxor (Z.shiftr crc 8) e = Z.lxor (Z.shiftr crc 8) r <-> e = r) as ->.
  { split; [|by intros ->]. intros E. apply (f_equal (Z.lxor (Z.shiftr crc 8))) in E.
    by rewrite <- !Z.lxor_assoc, Z.lxor_nilpotent, !Z.lxor_0_l in E. }
  rewrite <- Z.eqb_eq, Ht. lia.
Qed.

Lemma software_u8_crc32c_witness :
  software_u8 0xFFFFFFFF 0x31 <> crc32c_byte 0xFFFFFFFF 0x31 /\
  (software_u8 0xFFFFFFFF 0x32 = crc32c_byte 0xFFFFFFFF 0x32).
Proof.
  split.
  - intros E. apply software_u8_crc32c in E; [vm_compute in E; tauto|vm_compute; intuition congruence..].
  - apply software_u8_crc32c; vm_compute; intuition congruence.
Defined.
