(* ===== verification/ArgSerialization.v ===== *)
(** * Argument tags and argument serialization
    ([include/qlog/record/argument_tag.hpp], [argument_serialization.hpp],
    [include/qlog/utility/checked_size.hpp], [alignment.hpp])

    The C++ argument types are the constructors of [arg]; the templates selected by
    [if constexpr] on the type become functions by case analysis on it. An assertion
    that fails and an access outside a buffer are [None]. The bytes of a cell that the
    code does not write keep what the buffer held. *)
From stdpp Require Import base list option numbers.
From Stdlib Require Import ZArith Lia Bool.
From S2P Require Import Prelude Memory.

(** ** Checked sizes *)

Definition size_max : Z := 2 ^ 64 - 1.

Definition checked_add (lhs rhs : Z) : option Z :=
  if size_max - lhs <? rhs then None else Some (rhs + lhs).

Definition checked_mul (lhs rhs : Z) : option Z :=
  if negb (lhs =? 0) && (size_max / lhs <? rhs) then None else Some (lhs * rhs).

(** [detail::size_add] and [detail::size_mul] assert that the check passed. *)
Definition size_add (a b : Z) : option Z := checked_add a b.
Definition size_mul (a b : Z) : option Z := checked_mul a b.

Definition align4 (n : Z) : option Z :=
  z ← size_add n 3; Some (Z.land z (2 ^ 64 - 1 - 3)).

(** [utility::align_4], whose addition wraps. *)
Definition align_4 (n : Z) : Z := Z.land (u64 (n + 3)) (2 ^ 64 - 1 - 3).
Definition align_8 (n : Z) : Z := Z.land (u64 (n + 7)) (2 ^ 64 - 1 - 7).

(** ** Tags *)

Inductive ArgumentTag :=
  | unsupported_type | null_type | pointer_type | bool_type | char_type | char16_type
  | char32_type | int8_type | uint8_type | int16_type | uint16_type | int32_type
  | uint32_type | int64_type | uint64_type | float_type | double_type
  | string_utf8_type | string_utf16_type | string_utf32_type | string_utf_mixed_type.

#[export] Instance ArgumentTag_eq_dec : EqDecision ArgumentTag.
Proof. solve_decision. Defined.

Definition all_tags : list ArgumentTag :=
  [unsupported_type; null_type; pointer_type; bool_type; char_type; char16_type;
   char32_type; int8_type; uint8_type; int16_type; uint16_type; int32_type;
   uint32_type; int64_type; uint64_type; float_type; double_type;
   string_utf8_type; string_utf16_type; string_utf32_type; string_utf_mixed_type].

Definition tag_code (t : ArgumentTag) : Z :=
  match t with
  | unsupported_type => 0 | null_type => 1 | pointer_type => 2 | bool_type => 3
  | char_type => 4 | char16_type => 5 | char32_type => 6 | int8_type => 7
  | uint8_type => 8 | int16_type => 9 | uint16_type => 10 | int32_type => 11
  | uint32_type => 12 | int64_type => 13 | uint64_type => 14 | float_type => 15
  | double_type => 16 | string_utf8_type => 17 | string_utf16_type => 18
  | string_utf32_type => 19 | string_utf_mixed_type => 20
  end.

(** [static_cast<ArgumentTag>(byte)]: [None] for a byte that is no enumerator. *)
Definition tag_of_code (b : Z) : option ArgumentTag := all_tags !! Z.to_nat b.

Lemma tag_of_tag_code (t : ArgumentTag) : tag_of_code (tag_code t) = Some t.
Proof. by destruct t. Qed.

Lemma tag_code_byte (t : ArgumentTag) : is_byte (tag_code t).
Proof. destruct t; vm_compute; intuition congruence. Qed.

(** ** The argument types *)

(** The platform constant [sizeof(wchar_t)]. *)
Class Platform := { wchar_size : Z; wchar_size_cases : wchar_size = 2 \/ wchar_size = 4 }.

#[export] Instance linux_platform : Platform | 10.
Proof. refine {| wchar_size := 4 |}. by right. Defined.

Inductive char_kind := C_char | C_char16 | C_char32 | C_wchar.

Inductive pod_type :=
  | P_bool | P_char | P_char16 | P_char32 | P_wchar | P_float | P_double
  | P_other (size : Z) (is_unsigned : bool).

(** Strings: an array of characters, a character pointer ([None] for a null pointer,
    otherwise the memory readable from it), an object with [c_str]/[data] and [size]. *)
Inductive string_value :=
  | SV_array (C : char_kind) (units : list Z)
  | SV_pointer (C : char_kind) (mem : option (list Z))
  | SV_class (width : Z) (units : list Z).

(** The custom format protocols: a callback, of which the model holds the bytes it writes
    for a given size, or a pointer to characters (the memory readable from it). *)
Inductive custom_content :=
  | CC_format (write : Z -> list Z)
  | CC_chars (mem : option (list Z)).

Inductive arg :=
  | A_nullptr
  | A_pointer (address : Z)
  | A_pod (P : pod_type) (repr : list Z)
  | A_string (s : string_value)
  | A_custom (C : char_kind) (count : Z) (content : custom_content)
  | A_other.

Inductive SerializeKind :=
  | K_custom | K_utf8_string | K_utf16_string | K_utf32_string
  | K_null_pointer | K_pointer | K_pod | K_unsupported.

Section Platform.
Context {plat : Platform}.

Definition char_width (C : char_kind) : Z :=
  match C with C_char => 1 | C_char16 => 2 | C_char32 => 4 | C_wchar => wchar_size end.

Definition pod_size (P : pod_type) : Z :=
  match P with
  | P_bool | P_char => 1
  | P_char16 => 2
  | P_char32 | P_float => 4
  | P_wchar => wchar_size
  | P_double => 8
  | P_other size _ => size
  end.

Definition string_width (s : string_value) : Z :=
  match s with SV_array C _ | SV_pointer C _ => char_width C | SV_class width _ => width end.

Definition get_serialize_kind (a : arg) : SerializeKind :=
  match a with
  | A_custom _ _ _ => K_custom
  | A_string s =>
      if string_width s =? 1 then K_utf8_string
      else if string_width s =? 2 then K_utf16_string
      else if string_width s =? 4 then K_utf32_string
      else K_unsupported
  | A_nullptr => K_null_pointer
  | A_pointer _ => K_pointer
  | A_pod _ _ => K_pod
  | A_other => K_unsupported
  end.

Definition pod_tag (P : pod_type) : ArgumentTag :=
  match P with
  | P_bool => bool_type
  | P_char => char_type
  | P_char16 => char16_type
  | P_char32 => char32_type
  | P_wchar => if wchar_size =? 2 then char16_type else char32_type
  | P_float => float_type
  | P_double => double_type
  | P_other size is_unsigned =>
      if size =? 1 then if is_unsigned then uint8_type else int8_type
      else if size =? 2 then if is_unsigned then uint16_type else int16_type
      else if size =? 4 then if is_unsigned then uint32_type else int32_type
      else if size =? 8 then if is_unsigned then uint64_type else int64_type
      else unsupported_type
  end.

Definition get_log_param_type_enum (a : arg) : ArgumentTag :=
  match get_serialize_kind a with
  | K_custom =>
      match a with A_custom C_char _ _ => string_utf8_type | _ => string_utf16_type end
  | K_utf8_string => string_utf8_type
  | K_utf16_string => string_utf16_type
  | K_utf32_string => string_utf16_type
  | K_null_pointer => null_type
  | K_pointer => pointer_type
  | K_pod => match a with A_pod P _ => pod_tag P | _ => unsupported_type end
  | K_unsupported => unsupported_type
  end.

(** ** String sources *)

Record StringSource := { src_width : Z; src_data : list Z; src_limit : Z }.

Definition unbounded_string : Z := size_max.

Definition get_string_source (s : string_value) : StringSource :=
  match s with
  | SV_array C units =>
      let count := zlen units in
      let limit := if negb (char_width C =? 4) &&
                      bool_decide (units !! Z.to_nat (count - 1) = Some 0)
                   then count - 1 else count in
      {| src_width := char_width C; src_data := units; src_limit := limit |}
  | SV_pointer C mem =>
      match mem with
      | Some units =>
          {| src_width := char_width C; src_data := units; src_limit := unbounded_string |}
      | None =>
          {| src_width := char_width C; src_data := [110; 117; 108; 108; 0]; src_limit := 4 |}
      end
  | SV_class width units =>
      {| src_width := width; src_data := units; src_limit := zlen units |}
  end.

(** The UTF-32 loop: stops at the limit or at a zero. *)
Fixpoint measure_utf32 (data : list Z) (i limit bytes : Z) : option Z :=
  match data with
  | [] => if i <? limit then None else Some bytes
  | c :: data =>
      if i <? limit then
        if c =? 0 then Some bytes
        else bytes' ← size_add bytes (if c <=? 0xFFFF then 2 else 4);
             measure_utf32 data (i + 1) limit bytes'
      else Some bytes
  end.

(** [while (s.data[count] != C{}) ++count;] *)
Fixpoint count_units (data : list Z) (count : Z) : option Z :=
  match data with
  | [] => None
  | c :: data => if c =? 0 then Some count else count_units data (count + 1)
  end.

Definition measure_string_content (s : StringSource) : option Z :=
  if src_width s =? 4 then measure_utf32 (src_data s) 0 (src_limit s) 0
  else
    count ← (if src_limit s =? unbounded_string then count_units (src_data s) 0
             else Some (src_limit s));
    size_mul count (src_width s).

(** The object representation of an array of characters. *)
Definition units_bytes (width : Z) (units : list Z) : list Z :=
  units ≫= le_bytes (Z.to_nat width).

Fixpoint copy_utf32 (data : list Z) (in_ limit : Z) (mem : list Z) (dst out bytes : Z) :
    option (list Z) :=
  match data with
  | [] => if out <? bytes then None else if out =? bytes then Some mem else None
  | c :: data =>
      if out <? bytes then
        if negb (in_ <? limit) || (c =? 0) then None
        else if c <=? 0xFFFF then
          if bytes - out <? 2 then None
          else mem' ← store mem (dst + out) (le_bytes 2 c);
               copy_utf32 data (in_ + 1) limit mem' dst (out + 2) bytes
        else
          if bytes - out <? 4 then None
          else
            let c' := c - 0x10000 in
            mem' ← store mem (dst + out)
                     (le_bytes 2 (u16 (Z.shiftr c' 10 + 0xD800)) ++
                      le_bytes 2 (u16 (Z.land c' 0x3FF + 0xDC00)));
            copy_utf32 data (in_ + 1) limit mem' dst (out + 4) bytes
      else if out =? bytes then Some mem else None
  end.

Definition copy_string_content (s : StringSource) (mem : list Z) (dst bytes : Z) :
    option (list Z) :=
  if bytes =? 0 then Some mem
  else if negb (src_width s =? 4) then
    if negb (src_limit s =? unbounded_string) &&
       negb (bool_decide (size_mul (src_limit s) (src_width s) = Some bytes))
    then None
    else
      content ← load (units_bytes (src_width s) (src_data s)) 0 bytes;
      store mem dst content
  else
    if negb (bytes mod 2 =? 0) then None
    else copy_utf32 (src_data s) 0 (src_limit s) mem dst 0 bytes.

(** [CustomFormatTraits::copy_content] *)
Definition copy_content (C : char_kind) (content : custom_content) (mem : list Z)
    (dst bytes : Z) : option (list Z) :=
  if bytes =? 0 then Some mem
  else
    match content with
    | CC_format write => store mem dst (write bytes)
    | CC_chars (Some units) =>
        bs ← load (units_bytes (char_width C) units) 0 bytes; store mem dst bs
    | CC_chars None => None
    end.

(** ** [StringStorage] *)

Definition string_storage_size (a : arg) : option Z :=
  match a with
  | A_custom C count _ =>
      if char_width C <=? 2 then size_mul count (char_width C) else None
  | A_string s => measure_string_content (get_string_source s)
  | _ => None
  end.

Definition string_type_copy (a : arg) (mem : list Z) (dst raw : Z) : option (list Z) :=
  if raw <? 4 then None
  else
    let bytes := raw - 4 in
    if 2 ^ 32 - 1 <? bytes then None
    else
      mem ← store_le mem dst 4 bytes;
      match a with
      | A_custom C _ content => copy_content C content mem (dst + 4) bytes
      | A_string s => copy_string_content (get_string_source s) mem (dst + 4) bytes
      | _ => None
      end.

(** ** Sizes and copies of one argument *)

Definition is_type_constexpr_size (a : arg) : bool :=
  match get_serialize_kind a with
  | K_null_pointer | K_pointer | K_pod => true
  | _ => false
  end.

(** Where the payload starts: the tag takes two bytes before a small object, four
    otherwise. *)
Definition pod_prefix (with_tag : bool) (P : pod_type) : Z :=
  if with_tag then (if pod_size P <=? 2 then 2 else 4) else 0.

Definition get_storage_data_size_constexpr (with_tag : bool) (a : arg) : option Z :=
  if bool_decide (get_log_param_type_enum a = unsupported_type) then None
  else
    match a with
    | A_nullptr => Some (if with_tag then 4 else 0)
    | A_pointer _ => Some (8 + (if with_tag then 4 else 0))
    | A_pod P _ => Some (pod_size P + pod_prefix with_tag P)
    | _ => None
    end.

Definition get_storage_data_size (with_tag : bool) (a : arg) : option Z :=
  if bool_decide (get_log_param_type_enum a = unsupported_type) then None
  else if is_type_constexpr_size a then get_storage_data_size_constexpr with_tag a
  else
    content ← string_storage_size a;
    if 2 ^ 32 - 1 <? content then None
    else size_add content (if with_tag then 8 else 4).

Definition type_copy (with_tag : bool) (a : arg) (mem : list Z) (dst raw : Z) :
    option (list Z) :=
  if bool_decide (get_log_param_type_enum a = unsupported_type) then None
  else
    mem ← (if with_tag then store mem dst [tag_code (get_log_param_type_enum a)]
           else Some mem);
    if is_type_constexpr_size a &&
       negb (bool_decide (get_storage_data_size_constexpr with_tag a = Some raw))
    then None
    else
      match a with
      | A_nullptr => Some mem
      | A_pointer address => store_le mem (dst + (if with_tag then 4 else 0)) 8 address
      | A_pod P repr => store mem (dst + pod_prefix with_tag P) repr
      | _ =>
          let prefix := if with_tag then 4 else 0 in
          if raw <? prefix + 4 then None
          else string_type_copy a mem (dst + prefix) (raw - prefix)
      end.

(** ** The size sequence of an argument pack *)

(** [make_size_seq]: each element holds the unaligned size of its argument. *)
Definition make_size_seq (with_tag : bool) (args : list arg) : option (list Z) :=
  mapM (get_storage_data_size with_tag) args.

Fixpoint get_total (seq : list Z) : option Z :=
  match seq with
  | [] => Some 0
  | v :: seq => a ← align4 v; t ← get_total seq; size_add a t
  end.

Fixpoint fill_arguments (with_tag : bool) (mem : list Z) (dst : Z) (seq : list Z)
    (args : list arg) : option (list Z) :=
  match seq, args with
  | [], [] => Some mem
  | v :: seq, first :: rest =>
      mem ← type_copy with_tag first mem dst v;
      match rest with
      | [] => Some mem
      | _ => a ← align4 v; fill_arguments with_tag mem (dst + a) seq rest
      end
  | _, _ => None
  end.

End Platform.

(** ** Sizes *)

(** Rounding up to a multiple of four, and its arithmetic description. *)
Definition up4 (n : Z) : Z := (n + 3) / 4 * 4.

Lemma up4_bounds (n : Z) : n <= up4 n < n + 4 /\ up4 n mod 4 = 0.
Proof.
  unfold up4. pose proof (Z.div_mod (n + 3) 4). pose proof (Z.mod_pos_bound (n + 3) 4).
  rewrite Z.mod_mul by lia. lia.
Qed.

Lemma align4_Some (n : Z) : 0 <= n -> n + 3 <= size_max -> align4 n = Some (up4 n).
Proof.
  intros Hn Hm. unfold align4, size_add, checked_add.
  destruct (_ <? 3) eqn:E; [apply Z.ltb_lt in E; lia|]. simpl. f_equal.
  rewrite Z.add_comm. apply (land_not_mask (n + 3) 2); [lia|].
  unfold size_max in Hm. unfold in_range. lia.
Qed.

Lemma align4_inv (n m : Z) : 0 <= n -> align4 n = Some m -> m = up4 n /\ n + 3 <= size_max.
Proof.
  intros Hn H. assert (n + 3 <= size_max) as Hle.
  { unfold align4, size_add, checked_add in H.
    destruct (_ <? 3) eqn:E; [done|]. apply Z.ltb_ge in E. lia. }
  rewrite align4_Some in H by done. split; congruence.
Qed.

Lemma align_4_up4 (n : Z) : 0 <= n -> n + 3 <= size_max -> align_4 n = up4 n.
Proof.
  intros Hn Hm. unfold align_4, size_max in *. rewrite wrap_small by (unfold in_range; lia).
  apply (land_not_mask (n + 3) 2); unfold in_range; lia.
Qed.

Lemma size_add_inv (a b c : Z) : size_add a b = Some c -> c = a + b /\ a + b <= size_max.
Proof.
  unfold size_add, checked_add. destruct (_ <? b) eqn:E; [done|]. intros [= <-].
  apply Z.ltb_ge in E. lia.
Qed.

Lemma size_mul_inv (a b c : Z) : size_mul a b = Some c -> c = a * b.
Proof. unfold size_mul, checked_mul. destruct (_ && _); [done|]. by intros [= <-]. Qed.

(** ** What a string argument stores *)

Fixpoint until_zero (units : list Z) : list Z :=
  match units with
  | [] => []
  | c :: units => if c =? 0 then [] else c :: until_zero units
  end.

Definition utf16_units (c : Z) : list Z :=
  if c <=? 0xFFFF then le_bytes 2 c
  else le_bytes 2 (u16 (Z.shiftr (c - 0x10000) 10 + 0xD800)) ++
       le_bytes 2 (u16 (Z.land (c - 0x10000) 0x3FF + 0xDC00)).

(** The stored bytes of a source: UTF-32 input becomes UTF-16 up to its limit or first
    zero, a zero-terminated string is stored without its terminator, any other source
    whole. *)
Definition string_content (s : StringSource) : list Z :=
  if src_width s =? 4
  then until_zero (take (Z.to_nat (src_limit s)) (src_data s)) ≫= utf16_units
  else units_bytes (src_width s)
         (if src_limit s =? unbounded_string then until_zero (src_data s)
          else take (Z.to_nat (src_limit s)) (src_data s)).

Lemma zlen_utf16_units (c : Z) : zlen (utf16_units c) = if c <=? 0xFFFF then 2 else 4.
Proof. unfold utf16_units. unfold zlen. destruct (c <=? 0xFFFF); rewrite ?length_app, !length_le_bytes; done. Qed.

Lemma length_units_bytes (w : Z) (units : list Z) :
  0 <= w -> zlen (units_bytes w units) = zlen units * w.
Proof.
  intros Hw. unfold units_bytes. induction units as [|c units IH]; [done|].
  simpl mbind in *. unfold mbind, list_bind in *. fold (@list_bind Z Z) in *.
  rewrite zlen_app, zlen_cons, zlen_le_bytes, IH by lia. lia.
Qed.

Lemma units_bytes_take (w : Z) (n : nat) (units : list Z) :
  0 <= w -> take (n * Z.to_nat w) (units_bytes w units) = units_bytes w (take n units).
Proof.
  intros Hw. revert units. induction n as [|n IH]; intros units; [done|].
  destruct units as [|c units].
  { rewrite (take_nil (S n)). change (units_bytes w []) with (@nil Z). by rewrite take_nil. }
  simpl take. unfold units_bytes in *. rewrite !bind_cons.
  change (S n * Z.to_nat w)%nat with (Z.to_nat w + n * Z.to_nat w)%nat.
  rewrite <- (length_le_bytes (Z.to_nat w) c) at 1.
  rewrite take_app_add. by rewrite IH.
Qed.

(** Measuring and copying UTF-32 agree, and the copy is one store of the content. *)
Lemma measure_copy_utf32 (data : list Z) (i limit b0 n : Z) :
  0 <= b0 -> measure_utf32 data i limit b0 = Some n ->
  let content := until_zero (take (Z.to_nat (limit - i)) data) ≫= utf16_units in
  n = b0 + zlen content /\
  forall mem dst, 0 <= dst -> dst + n <= zlen mem ->
    copy_utf32 data i limit mem dst b0 n = store mem (dst + b0) content.
Proof.
  revert i b0. induction data as [|c data IH]; intros i b0 Hb H; simpl in H; cbv zeta in *.
  - rewrite take_nil. destruct (i <? limit); [done|]. injection H as <-.
    split; [unfold zlen; simpl; lia|]. intros mem dst Hd Hm. simpl.
    rewrite Z.ltb_irrefl, Z.eqb_refl, store_nil by lia. done.
  - destruct (i <? limit) eqn:Ei.
    + apply Z.ltb_lt in Ei.
      replace (Z.to_nat (limit - i)) with (S (Z.to_nat (limit - (i + 1)))) by lia.
      simpl take. simpl until_zero. destruct (c =? 0) eqn:Ec.
      * injection H as <-. split; [unfold zlen; simpl; lia|]. intros mem dst Hd Hm. simpl.
        rewrite Z.ltb_irrefl, Z.eqb_refl, store_nil by lia. done.
      * apply bind_Some in H as (b1 & H1 & H). apply size_add_inv in H1 as [-> _].
        pose proof (zlen_utf16_units c) as Hu.
        assert (0 <= zlen (utf16_units c) <= 4) as Hu' by (rewrite Hu; destruct (_ <=? _); lia).
        rewrite <- Hu in H.
        destruct (IH (i + 1) (b0 + zlen (utf16_units c)) ltac:(lia) H) as [-> Hcopy].
        rewrite bind_cons. set (content := _ ≫= utf16_units) in *.
        pose proof (zlen_nonneg content) as Hcn.
        rewrite zlen_app. split; [lia|]. intros mem dst Hd Hm. cbn [copy_utf32].
        assert (0 < zlen (utf16_units c)) by (rewrite Hu; destruct (_ <=? _); lia).
        destruct (_ <? _) eqn:E1 at 1; [clear E1 | apply Z.ltb_ge in E1; lia].
        destruct (i <? limit) eqn:E2; [clear E2 | apply Z.ltb_ge in E2; lia].
        rewrite Ec. simpl orb. cbn iota.
        destruct (store_is_Some mem (dst + b0) (utf16_units c)) as [mem' Hs]; [lia..|].
        pose proof (store_zlen _ _ _ _ Hs) as Hz.
        assert (copy_utf32 data (i + 1) limit mem' dst (b0 + zlen (utf16_units c))
                  (b0 + zlen (utf16_units c) + zlen content) =
                store mem (dst + b0) (utf16_units c ++ content)) as Hfin.
        { rewrite Hcopy by lia. rewrite Z.add_assoc. apply store_store_next; [done|lia]. }
        rewrite <- Hfin. revert Hs. unfold utf16_units at 1. rewrite Hu.
        destruct (c <=? 0xFFFF); intros Hs;
          (destruct (_ <? _) eqn:E3; [apply Z.ltb_lt in E3; lia|]); cbv zeta; rewrite Hs; done.
    + injection H as <-. apply Z.ltb_ge in Ei. replace (Z.to_nat (limit - i)) with O by lia.
      simpl. split; [unfold zlen; simpl; lia|]. intros mem dst Hd Hm.
      rewrite Z.ltb_irrefl, Z.eqb_refl, store_nil by lia. done.
Qed.

Lemma count_units_spec (data : list Z) (k n : Z) :
  count_units data k = Some n ->
  n = k + zlen (until_zero data) /\ until_zero data = take (Z.to_nat (n - k)) data.
Proof.
  revert k. induction data as [|c data IH]; intros k H; simpl in *; [done|].
  destruct (c =? 0).
  - injection H as <-. unfold zlen. simpl. split; [lia|]. by rewrite Z.sub_diag.
  - destruct (IH _ H) as [-> Ht]. rewrite zlen_cons. pose proof (zlen_nonneg (until_zero data)).
    split; [lia|].
    replace (Z.to_nat (k + 1 + _ - k)) with (S (Z.to_nat (k + 1 + zlen (until_zero data) - (k + 1)))) by lia.
    simpl take. by f_equal.
Qed.

(** A string source whose memory holds what its limit announces. *)
Definition source_ok (s : StringSource) : Prop :=
  In (src_width s) [1; 2; 4] /\
  (src_limit s = unbounded_string \/ src_width s = 4 \/ 0 <= src_limit s <= zlen (src_data s)).

(** A source of one- or two-byte characters holds the bytes that are measured. *)
Lemma measure_bytes (s : StringSource) (n : Z) :
  source_ok s -> src_width s <> 4 -> measure_string_content s = Some n ->
  (src_limit s <> unbounded_string -> size_mul (src_limit s) (src_width s) = Some n) /\
  load (units_bytes (src_width s) (src_data s)) 0 n = Some (string_content s) /\
  n = zlen (string_content s).
Proof.
  intros [Hw Hl] E4 H. unfold measure_string_content, string_content in *.
  rewrite (proj2 (Z.eqb_neq _ _) E4) in *. apply bind_Some in H as (count & Hc & Hn).
  pose proof Hn as Hmul. apply size_mul_inv in Hn as ->.
  set (units := if src_limit s =? unbounded_string then _ else _).
  assert (units = take (Z.to_nat count) (src_data s) /\ zlen units = count) as [Hu Hz].
  { unfold units. destruct (src_limit s =? unbounded_string) eqn:Eu.
    - apply count_units_spec in Hc as [Hc Ht]. rewrite Z.sub_0_r in Ht. split; [done|lia].
    - injection Hc as <-. apply Z.eqb_neq in Eu. split; [done|]. apply zlen_take. tauto. }
  assert (0 <= src_width s) as Hw0 by (simpl in Hw; lia).
  split.
  { intros Hu'. rewrite (proj2 (Z.eqb_neq _ _) Hu') in Hc. by injection Hc as <-. }
  rewrite length_units_bytes, Hz by done. split; [|done].
  pose proof (zlen_nonneg units). rewrite load_Some; [|lia|nia|].
  - rewrite drop_0, Z2Nat.inj_mul by lia. by rewrite units_bytes_take, Hu by done.
  - rewrite length_units_bytes by done. unfold zlen in Hz. rewrite Hu, length_take in Hz.
    unfold zlen. nia.
Qed.

Lemma measure_copy_string (s : StringSource) (n : Z) :
  source_ok s -> measure_string_content s = Some n ->
  n = zlen (string_content s) /\
  forall mem dst, 0 <= dst -> dst + n <= zlen mem ->
    copy_string_content s mem dst n = store mem dst (string_content s).
Proof.
  intros [Hw Hl] H. pose proof (fun E => measure_bytes s n (conj Hw Hl) E H) as Hmb.
  unfold measure_string_content, string_content, copy_string_content in *.
  destruct (src_width s =? 4) eqn:E4.
  - destruct (measure_copy_utf32 _ _ _ _ _ (Z.le_refl 0) H) as [Hn Hcopy].
    rewrite Z.sub_0_r in *. set (content := _ ≫= utf16_units) in *. split; [lia|].
    intros mem dst Hd Hm. rewrite Z.add_0_l in Hn. destruct (n =? 0) eqn:E0.
    + apply Z.eqb_eq in E0. destruct content; [|unfold zlen in Hn; simpl in Hn; lia].
      by rewrite store_nil by lia.
    + assert (n mod 2 = 0) as ->; [|by rewrite Hcopy, Z.add_0_r by done].
      rewrite Hn. clear. induction (until_zero _) as [|c l IH]; [done|].
      unfold content. rewrite bind_cons, zlen_app, zlen_utf16_units.
      destruct (_ <=? _); rewrite Z.add_mod, IH by lia; done.
  - apply Z.eqb_neq in E4.
    destruct (Hmb E4) as (Hmul & Hload & Hz).
    split; [done|]. intros mem dst Hd Hm. rewrite Hload. destruct (_ =? 0) eqn:E0.
    + apply Z.eqb_eq in E0. rewrite <- (store_nil mem dst) by lia. f_equal. symmetry.
      apply length_zero_iff_nil. unfold zlen in Hz. lia.
    + destruct (_ && _) eqn:Eb; [|done].
      exfalso. apply andb_true_iff in Eb as [Eu Eb]. apply negb_true_iff, Z.eqb_neq in Eu.
      apply negb_true_iff, bool_decide_eq_false in Eb. auto.
Qed.

(** ** Cells: what one argument leaves in the buffer *)

Section Cells.
Context {plat : Platform}.

(** The facts about an argument that its C++ type guarantees, and the contract of the
    custom format callbacks: they stay within the size they announced. *)
Definition arg_ok (a : arg) : Prop :=
  match a with
  | A_pod P repr => zlen repr = pod_size P /\ bytes_ok repr
  | A_pointer address => in_range 64 address
  | A_custom C count content =>
      0 <= count /\
      match content with
      | CC_format write => forall n, zlen (write n) <= n /\ bytes_ok (write n)
      | CC_chars (Some units) => count <= zlen units
      | CC_chars None => count = 0
      end
  | _ => True
  end.

Definition custom_bytes (C : char_kind) (count : Z) (content : custom_content) : list Z :=
  let n := count * char_width C in
  if n =? 0 then []
  else
    match content with
    | CC_format write => write n
    | CC_chars (Some units) => take (Z.to_nat n) (units_bytes (char_width C) units)
    | CC_chars None => []
    end.

(** The offset in the cell and the bytes written there, after the tag. *)
Definition payload (a : arg) : Z * list Z :=
  match a with
  | A_nullptr | A_other => (4, [])
  | A_pointer address => (4, le_bytes 8 address)
  | A_pod P repr => (pod_prefix true P, repr)
  | A_string s =>
      let content := string_content (get_string_source s) in
      (4, le_bytes 4 (zlen content) ++ content)
  | A_custom C count content =>
      (4, le_bytes 4 (count * char_width C) ++ custom_bytes C count content)
  end.

Definition arg_tag (a : arg) : Z := tag_code (get_log_param_type_enum a).

(** A cell of the argument area that holds the argument [a]. *)
Definition cell_ok (a : arg) (cell : list Z) : Prop :=
  load cell 0 1 = Some [arg_tag a] /\
  load cell (fst (payload a)) (zlen (snd (payload a))) = Some (snd (payload a)).

Lemma char_width_cases (C : char_kind) : In (char_width C) [1; 2; 4].
Proof. destruct C; simpl; try tauto. destruct wchar_size_cases as [->| ->]; tauto. Qed.

Lemma source_ok_string (s : string_value) :
  In (string_width s) [1; 2; 4] -> source_ok (get_string_source s).
Proof.
  intros Hw. split.
  - by destruct s as [C units|C [units|]|w units].
  - destruct s as [C units|C [units|]|w units]; simpl; auto.
    + right. right. pose proof (zlen_nonneg units).
      destruct (_ && _) eqn:E; [|lia]. apply andb_true_iff in E as [_ E].
      apply bool_decide_eq_true in E. apply lookup_lt_Some in E. unfold zlen in *. lia.
    + right. right. vm_compute. intuition congruence.
    + right. right. pose proof (zlen_nonneg units). lia.
Qed.

Lemma string_kind_width (s : string_value) :
  get_log_param_type_enum (A_string s) <> unsupported_type -> In (string_width s) [1; 2; 4].
Proof.
  unfold get_log_param_type_enum, get_serialize_kind.
  destruct (string_width s =? 1) eqn:E1; [simpl; lia|].
  destruct (string_width s =? 2) eqn:E2; [simpl; lia|].
  destruct (string_width s =? 4) eqn:E4; [simpl; lia|done].
Qed.

Lemma string_not_constexpr (s : string_value) : is_type_constexpr_size (A_string s) = false.
Proof.
  unfold is_type_constexpr_size, get_serialize_kind.
  destruct (_ =? 1); [done|]. destruct (_ =? 2); [done|]. by destruct (_ =? 4).
Qed.

Lemma pod_size_cases (P : pod_type) : pod_tag P <> unsupported_type -> In (pod_size P) [1; 2; 4; 8].
Proof.
  destruct P; simpl; try tauto.
  - destruct wchar_size_cases as [->| ->]; tauto.
  - destruct (size =? 1) eqn:E1; [lia|]. destruct (size =? 2) eqn:E2; [lia|].
    destruct (size =? 4) eqn:E4; [lia|]. destruct (size =? 8) eqn:E8; [lia|done].
Qed.

(** The storage size is the payload's, rounded only by the gap of a callback that
    writes less than it announced. *)
Lemma storage_size_spec (a : arg) (sz : Z) :
  arg_ok a -> get_storage_data_size true a = Some sz ->
  get_log_param_type_enum a <> unsupported_type /\
  2 <= fst (payload a) /\ fst (payload a) + zlen (snd (payload a)) <= sz /\
  3 <= sz < 2 ^ 32 + 8.
Proof.
  intros Hok H. unfold get_storage_data_size in H. case_bool_decide as Hu; [done|].
  split; [done|]. destruct a as [|address|P repr|s|C count content|]; try done.
  - injection H as <-. vm_compute. intuition congruence.
  - injection H as <-. cbn [payload fst snd]. unfold zlen.
    rewrite length_le_bytes. lia.
  - simpl in H. unfold get_storage_data_size_constexpr in H.
    rewrite bool_decide_eq_false_2 in H by done. injection H as <-.
    destruct Hok as [Hr _]. cbn [payload fst snd]. unfold pod_prefix.
    rewrite Hr. pose proof (pod_size_cases P Hu) as Hp.
    destruct (_ <=? 2) eqn:E; simpl in Hp; lia.
  - rewrite string_not_constexpr in H. apply bind_Some in H as (content & Hc & H).
    destruct (_ <? _) eqn:E; [done|]. apply Z.ltb_ge in E. apply size_add_inv in H as [-> _].
    apply measure_copy_string in Hc as [-> _]; [|by apply source_ok_string, string_kind_width].
    cbn [payload fst snd]. rewrite zlen_app, (zlen_le_bytes 4) by lia.
    pose proof (zlen_nonneg (string_content (get_string_source s))). lia.
  - simpl in H. apply bind_Some in H as (n & Hc & H).
    destruct (_ <=? 2); [|done]. apply size_mul_inv in Hc as ->.
    destruct (_ <? _) eqn:E in H; [done|]. apply Z.ltb_ge in E. apply size_add_inv in H as [-> _].
    cbn [payload fst snd]. rewrite zlen_app, (zlen_le_bytes 4) by lia.
    destruct Hok as [H0 Hok]. pose proof (char_width_cases C) as Hw. simpl in Hw.
    assert (zlen (custom_bytes C count content) <= count * char_width C); [|nia].
    unfold custom_bytes. destruct (_ =? 0); [unfold zlen; simpl; nia|].
    destruct content as [write|[units|]]; [apply Hok| |unfold zlen; simpl; nia].
    unfold zlen. rewrite length_take. nia.
Qed.

Lemma units_bytes_ok (w : Z) (units : list Z) : bytes_ok (units_bytes w units).
Proof.
  induction units as [|c units IH]; [constructor|].
  change (units_bytes w (c :: units)) with (le_bytes (Z.to_nat w) c ++ units_bytes w units).
  apply Forall_app. split; [apply le_bytes_ok|done].
Qed.

Lemma string_content_ok (s : StringSource) : bytes_ok (string_content s).
Proof.
  unfold string_content. destruct (_ =? 4); [|apply units_bytes_ok].
  induction (until_zero _) as [|c l IH]; [constructor|]. rewrite bind_cons.
  apply Forall_app. split; [|done]. unfold utf16_units.
  destruct (_ <=? _); rewrite ?Forall_app; auto using le_bytes_ok.
Qed.

Lemma payload_bytes_ok (a : arg) : arg_ok a -> bytes_ok (snd (payload a)).
Proof.
  destruct a as [|address|P repr|s|C count content|]; cbn [payload snd]; intros Hok;
    rewrite ?Forall_app; auto using le_bytes_ok, string_content_ok.
  - apply Hok.
  - split; [apply le_bytes_ok|]. unfold custom_bytes. destruct Hok as [_ Hok].
    destruct (_ =? 0); [constructor|]. destruct content as [write|[units|]]; [apply Hok| |constructor].
    apply Forall_take, units_bytes_ok.
Qed.

(** The content bytes of a string argument, behind its length. *)
Definition string_bytes (a : arg) : list Z :=
  match a with
  | A_string s => string_content (get_string_source s)
  | A_custom C count content => custom_bytes C count content
  | _ => []
  end.

Lemma string_storage_size_spec (a : arg) (n : Z) :
  arg_ok a -> get_log_param_type_enum a <> unsupported_type -> string_storage_size a = Some n ->
  snd (payload a) = le_bytes 4 n ++ string_bytes a /\ fst (payload a) = 4 /\
  0 <= n /\ zlen (string_bytes a) <= n.
Proof.
  intros Hok Hu Hn. destruct a as [|address|P repr|s|C count content|]; simpl in Hn; try done.
  - apply measure_copy_string in Hn as [-> _]; [|by apply source_ok_string, string_kind_width].
    split_and!; try done. apply zlen_nonneg.
  - destruct (_ <=? 2); [|done]. apply size_mul_inv in Hn as ->.
    destruct Hok as [H0 Hok]. pose proof (char_width_cases C) as Hw. simpl in Hw.
    split_and!; try done; [nia|]. simpl. unfold custom_bytes.
    destruct (_ =? 0); [unfold zlen; simpl; nia|].
    destruct content as [write|[units|]]; [apply Hok| |unfold zlen; simpl; nia].
    unfold zlen. rewrite length_take. nia.
Qed.

(** [StringStorage::type_copy] stores the length and the content. *)
Lemma string_type_copy_stores (a : arg) (n : Z) (m : list Z) (dst : Z) :
  arg_ok a -> get_log_param_type_enum a <> unsupported_type -> string_storage_size a = Some n ->
  n < 2 ^ 32 -> 0 <= dst -> dst + 4 + n <= zlen m ->
  string_type_copy a m dst (n + 4) = store m dst (le_bytes 4 n ++ string_bytes a).
Proof.
  intros Hok Hu Hn Hn32 Hd Hm.
  destruct (string_storage_size_spec a n Hok Hu Hn) as (_ & _ & Hn0 & Hsb).
  unfold string_type_copy. destruct (_ <? 4) eqn:E1; [apply Z.ltb_lt in E1; lia|].
  replace (n + 4 - 4) with n by lia.
  destruct (_ <? n) eqn:E2; [apply Z.ltb_lt in E2; lia|]. unfold store_le.
  destruct (store_is_Some m dst (le_bytes (Z.to_nat 4) n)) as [m' Hm'];
    [lia|rewrite zlen_le_bytes; lia|].
  rewrite Hm'. simpl mbind. pose proof (store_zlen _ _ _ _ Hm') as Hz'.
  assert (zlen (le_bytes (Z.to_nat 4) n) = 4) as H4 by (apply zlen_le_bytes; lia).
  change (Z.to_nat 4) with 4%nat in *.
  rewrite <- (store_store_next m m' dst _ _ Hm') by lia. rewrite H4.
  destruct a as [|address|P repr|s|C count content|]; try done.
  - simpl in Hn. apply measure_copy_string in Hn as [-> Hcopy];
      [|by apply source_ok_string, string_kind_width].
    by rewrite Hcopy by lia.
  - simpl in Hn. destruct (_ <=? 2); [|done]. apply size_mul_inv in Hn as ->.
    cbn [string_bytes]. unfold copy_content, custom_bytes in *. cbn [string_bytes] in Hsb.
    set (n := count * char_width C) in *. destruct (n =? 0) eqn:E0.
    + symmetry. apply store_nil. lia.
    + destruct content as [write|[units|]]; [done| |].
      * destruct Hok as [_ Hok]. pose proof (char_width_cases C) as Hw. simpl in Hw.
        rewrite load_Some; [by rewrite drop_0|lia..|].
        rewrite length_units_bytes by lia. unfold n. nia.
      * destruct Hok as [_ ->]. unfold n in E0. simpl in E0. done.
Qed.

(** [type_copy] stores the tag, then the payload. *)
Lemma type_copy_stores (a : arg) (sz : Z) (mem : list Z) (dst : Z) :
  arg_ok a -> get_storage_data_size true a = Some sz -> 0 <= dst -> dst + sz <= zlen mem ->
  type_copy true a mem dst sz =
    (m ← store mem dst [arg_tag a]; store m (dst + fst (payload a)) (snd (payload a))).
Proof.
  intros Hok Hsz Hd Hm. destruct (storage_size_spec a sz Hok Hsz) as (Hu & Hoff & Hend & Hs).
  unfold type_copy, arg_tag. rewrite bool_decide_eq_false_2 by done.
  destruct (store_is_Some mem dst [tag_code (get_log_param_type_enum a)]) as [m Hm1];
    [lia|rewrite zlen_cons, zlen_nil; lia|].
  rewrite Hm1. simpl mbind. pose proof (store_zlen _ _ _ _ Hm1) as Hz.
  unfold get_storage_data_size in Hsz. rewrite bool_decide_eq_false_2 in Hsz by done.
  destruct (is_type_constexpr_size a) eqn:Ec.
  { rewrite Hsz, bool_decide_eq_true_2 by done. simpl andb. cbn iota.
    destruct a as [|address|P repr|s|C count content|]; try done.
    - simpl. symmetry. apply store_nil. simpl in *. unfold zlen at 1 in Hend. simpl in Hend. lia.
    - by rewrite string_not_constexpr in Ec. }
  simpl andb. cbn iota. apply bind_Some in Hsz as (n & Hn & Hsz).
  destruct (_ <? _) eqn:E32 in Hsz; [done|]. apply Z.ltb_ge in E32.
  apply size_add_inv in Hsz as [-> _].
  destruct (string_storage_size_spec a n Hok Hu Hn) as (Hp1 & Hp0 & Hn0 & _).
  assert (string_type_copy a m (dst + 4) (n + 8 - 4) =
          store m (dst + fst (payload a)) (snd (payload a))) as <-;
    [|destruct a; try done; (destruct (_ <? _) eqn:E; [apply Z.ltb_lt in E; lia|done])].
  rewrite Hp1, Hp0. replace (n + 8 - 4) with (n + 4) by lia.
  apply string_type_copy_stores; done || lia.
Qed.

(** Serializing one argument into a cell of the aligned size. *)
Lemma type_copy_cell (a : arg) (sz : Z) (pre cell post : list Z) :
  arg_ok a -> get_storage_data_size true a = Some sz -> zlen cell = up4 sz ->
  exists cell', zlen cell' = up4 sz /\ cell_ok a cell' /\ (bytes_ok cell -> bytes_ok cell') /\
    type_copy true a (pre ++ cell ++ post) (zlen pre) sz = Some (pre ++ cell' ++ post).
Proof.
  intros Hok Hsz Hc. destruct (storage_size_spec a sz Hok Hsz) as (Hu & Hoff & Hend & Hs).
  pose proof (up4_bounds sz) as [Hup _]. pose proof (zlen_nonneg (snd (payload a))).
  destruct (store_is_Some cell 0 [arg_tag a]) as [c1 H1]; [lia|change (zlen [arg_tag a]) with 1; lia|].
  pose proof (store_zlen _ _ _ _ H1) as Hz1.
  destruct (store_is_Some c1 (fst (payload a)) (snd (payload a))) as [c2 H2]; [lia..|].
  exists c2. split; [pose proof (store_zlen _ _ _ _ H2); lia|]. split.
  - split.
    + rewrite (load_store_other _ _ _ _ 0 1 H2) by lia. exact (load_store_same _ _ _ _ H1).
    + by eapply load_store_same.
  - split.
    { intros Hb. eapply store_bytes_ok; [done| |by apply payload_bytes_ok].
      eapply store_bytes_ok; [done|done|]. repeat constructor; apply tag_code_byte. }
    rewrite type_copy_stores; [|done|done|apply zlen_nonneg|].
    + rewrite <- (Z.add_0_r (zlen pre)) at 1. rewrite (store_mid pre cell c1 post 0 _ H1).
      simpl mbind. by apply store_mid.
    + rewrite !zlen_app. pose proof (zlen_nonneg post). lia.
Qed.

(** The argument area after [fill_arguments]: one cell per argument, in order. *)
Definition area_ok (args : list arg) (area : list Z) : Prop :=
  exists cells, area = concat cells /\ Forall2 cell_ok args cells /\
    Forall2 (fun a cell => exists sz, get_storage_data_size true a = Some sz /\
                                     zlen cell = up4 sz) args cells.

Lemma get_total_nonneg (seq : list Z) (total : Z) :
  Forall (Z.le 0) seq -> get_total seq = Some total -> 0 <= total.
Proof.
  intros Hs. revert total. induction Hs as [|v seq Hv Hs IH]; intros total H; simpl in H.
  - by injection H as <-.
  - apply bind_Some in H as (c & Hc & H). apply bind_Some in H as (t & Ht & H).
    apply size_add_inv in H as [-> _]. apply align4_inv in Hc as [-> _]; [|done].
    pose proof (up4_bounds v). specialize (IH t Ht). lia.
Qed.

Lemma make_size_seq_nonneg (args : list arg) (seq : list Z) :
  Forall arg_ok args -> make_size_seq true args = Some seq -> Forall (Z.le 0) seq.
Proof.
  intros Ha H. apply mapM_Some in H. induction H as [|a sz args seq H1 H IH]; [done|].
  apply Forall_cons_iff in Ha as [Ha Has].
  constructor; [|by apply IH]. pose proof (storage_size_spec a sz Ha H1). lia.
Qed.

Lemma fill_arguments_area (args : list arg) (seq : list Z) (total : Z)
    (pre area post : list Z) :
  Forall arg_ok args ->
  make_size_seq true args = Some seq -> get_total seq = Some total -> zlen area = total ->
  exists area', zlen area' = total /\ area_ok args area' /\ (bytes_ok area -> bytes_ok area') /\
    fill_arguments true (pre ++ area ++ post) (zlen pre) seq args =
      Some (pre ++ area' ++ post).
Proof.
  intros Hok Hseq Htot Harea. apply mapM_Some in Hseq.
  revert total pre area Hok Htot Harea.
  induction Hseq as [|a sz args seq Hsz Hseq IH]; intros total pre area Hok Htot Harea.
  - injection Htot as <-. destruct area; [|unfold zlen in Harea; simpl in Harea; lia].
    exists []. split; [done|]. split; [|done]. exists []. split_and!; constructor.
  - apply Forall_cons_iff in Hok as [Ha Has]. simpl in Htot.
    pose proof (storage_size_spec a sz Ha Hsz) as (_ & _ & _ & Hs).
    apply bind_Some in Htot as (al & Hal & Htot). apply bind_Some in Htot as (t & Ht & Htot).
    pose proof Hal as Hal'. apply align4_inv in Hal' as [-> _]; [|lia].
    apply size_add_inv in Htot as [-> _]. pose proof (up4_bounds sz) as [Hup _].
    assert (0 <= t) as Ht0.
    { apply (get_total_nonneg seq); [|done]. apply (make_size_seq_nonneg args); [done|].
      by apply mapM_Some. }
    rewrite <- (take_drop (Z.to_nat (up4 sz)) area).
    assert (zlen (take (Z.to_nat (up4 sz)) area) = up4 sz) as Hc by (apply zlen_take; lia).
    assert (zlen (drop (Z.to_nat (up4 sz)) area) = t) as Hrest by (rewrite zlen_drop; lia).
    revert Hc Hrest. generalize (take (Z.to_nat (up4 sz)) area) as cell.
    generalize (drop (Z.to_nat (up4 sz)) area) as rest. intros rest cell Hc Hrest.
    destruct (type_copy_cell a sz pre cell (rest ++ post) Ha Hsz Hc) as (cell' & Hc' & Hcell & Hcok & Hcopy).
    destruct (IH t (pre ++ cell') rest Has Ht Hrest) as (rest' & Hr' & (cells & -> & Hcells & Hsizes) & Hrok & Hfill).
    exists (cell' ++ concat cells). split; [rewrite zlen_app; lia|]. split.
    + exists (cell' :: cells). split_and!; [done|by constructor|]. constructor; eauto.
    + split; [rewrite !Forall_app; tauto|].
      cbn [fill_arguments]. rewrite <- app_assoc, Hcopy. simpl mbind.
      rewrite <- !app_assoc in Hfill. rewrite zlen_app, Hc' in Hfill.
      destruct args as [|a' args'].
      * apply Forall2_nil_inv_l in Hseq as ->. apply Forall2_nil_inv_l in Hcells as ->.
        injection Ht as <-.
        destruct rest; [|unfold zlen in Hrest; simpl in Hrest; lia]. by rewrite !app_nil_r.
      * rewrite Hal. simpl mbind. rewrite Hfill. by rewrite <- !app_assoc.
Qed.

(** C23. For every pack of supported arguments, [fill_arguments] with the sizes computed by
    [make_size_seq] fills exactly the [get_total()] bytes reserved for it, wherever that
    area lies in the buffer: nothing outside the area changes, and the area is the
    sequence of the arguments' cells, each holding the tag and the payload (the numeric
    object representation, the string bytes behind their length) at the offsets the
    format prescribes. *)
Theorem fill_arguments_cells (args : list arg) (seq : list Z) (total : Z)
    (pre area post : list Z) :
  Forall arg_ok args ->
  make_size_seq true args = Some seq -> get_total seq = Some total -> zlen area = total ->
  exists area', zlen area' = total /\ area_ok args area' /\
    fill_arguments true (pre ++ area ++ post) (zlen pre) seq args =
      Some (pre ++ area' ++ post).
Proof.
  intros Hok Hseq Htot Harea.
  destruct (fill_arguments_area args seq total pre area post Hok Hseq Htot Harea)
    as (area' & Hz & Ha & _ & Hf). eauto.
Qed.

End Cells.

Lemma fill_arguments_cells_witness :
  exists area', zlen area' = 16 /\
    area_ok [A_pod P_bool [1]; A_string (SV_class 1 [104; 105])] area' /\
    fill_arguments true ([7] ++ replicate 16 0 ++ [8]) 1 [3; 10]
      [A_pod P_bool [1]; A_string (SV_class 1 [104; 105])] = Some ([7] ++ area' ++ [8]).
Proof.
  apply (fill_arguments_cells [A_pod P_bool [1]; A_string (SV_class 1 [104; 105])] [3; 10] 16
    [7] (replicate 16 0) [8]); [|reflexivity..].
  repeat constructor; vm_compute; intuition congruence.
Defined.
