(* ===== verification/BufferDefs.v ===== *)
(** * Definitions shared by the buffers and their clients
    ([include/qlog/buffer/log_buffer_defs.hpp], [include/qlog/utility/utility.hpp],
    [include/qlog/utility/utility_types.hpp]): result codes, handles, where the content of
    a buffer comes from, and the rounding of sizes. *)
From stdpp Require Import base decidable tactics numbers.
From Stdlib Require Import ZArith Lia Bool.
From S2P Require Import Prelude.

Inductive enum_buffer_result_code :=
  | success | err_empty_log_buffer | err_not_enough_space | err_wait_and_retry
  | err_data_not_contiguous | err_alloc_size_invalid | err_buffer_not_inited
  | err_io_failure_drop.

#[export] Instance enum_buffer_result_code_eq_dec : EqDecision enum_buffer_result_code.
Proof. solve_decision. Defined.

Inductive memory_map_buffer_state :=
  | init_with_memory | recover_from_memory_map | init_with_memmap.

Record write_handle := mk_write_handle {
  wh_data_addr : Z;
  wh_result : enum_buffer_result_code;
  wh_low_space_flag : bool }.

Record read_handle := mk_read_handle {
  rh_data_addr : Z;
  rh_data_size : Z;
  rh_result : enum_buffer_result_code }.

(** The initialiser of a handle: a null address and an empty buffer. *)
Definition no_write (r : enum_buffer_result_code) : write_handle := mk_write_handle 0 r false.
Definition no_read : read_handle := mk_read_handle 0 0 err_empty_log_buffer.

(** ** Sizes *)

Definition CACHE_LINE_SIZE : Z := 128.

(** [utility::round_pow_of_two] *)
Definition round_pow_of_two (value : Z) : Z :=
  let value := u32 (value - 1) in
  let value := Z.lor value (Z.shiftr value 1) in
  let value := Z.lor value (Z.shiftr value 2) in
  let value := Z.lor value (Z.shiftr value 4) in
  let value := Z.lor value (Z.shiftr value 8) in
  let value := Z.lor value (Z.shiftr value 16) in
  u32 (value + 1).

(** The [m] bits below [k] are set and none from [k] on. *)
Definition ones_top (x k m : Z) : Prop :=
  (forall i, 0 <= i -> k - m <= i < k -> Z.testbit x i = true) /\
  (forall i, k <= i -> Z.testbit x i = false).

Lemma ones_top_step (x k m : Z) :
  0 <= m -> ones_top x k m -> ones_top (Z.lor x (Z.shiftr x m)) k (2 * m).
Proof.
  intros Hm [H1 H2]. split.
  - intros i Hi Hk. rewrite Z.lor_spec, Z.shiftr_spec by lia.
    destruct (decide (k - m <= i)); [by rewrite H1 by lia|]. rewrite (H1 (i + m)) by lia.
    apply orb_true_r.
  - intros i Hi. destruct (decide (0 <= i)) as [|Hn]; [|by rewrite Z.testbit_neg_r by lia].
    rewrite Z.lor_spec, Z.shiftr_spec, !H2 by lia. done.
Qed.

(** Above [2^31] the power does not fit in 32 bits. *)
Lemma round_pow_of_two_wrap (value k : Z) :
  0 <= k <= 32 -> 2 ^ (k - 1) < value <= 2 ^ k -> 1 <= value -> round_pow_of_two value = u32 (2 ^ k).
Proof.
  intros Hk Hv H1. unfold round_pow_of_two.
  assert (2 ^ k <= 2 ^ 32) by (apply Z.pow_le_mono_r; lia).
  rewrite (wrap_small 32 (value - 1)) by (unfold in_range; lia).
  assert (ones_top (value - 1) k 1) as Ht.
  { destruct (decide (k = 0)) as [->|Hk0].
    - assert (value - 1 = 0) as -> by (simpl in Hv; lia).
      split; [intros; lia|]. intros i _. apply Z.bits_0.
    - assert (0 < 2 ^ (k - 1)) by (apply Z.pow_pos_nonneg; lia).
      assert (Z.log2 (value - 1) = k - 1) as Hlog.
      { apply Z.log2_unique; [lia|]. replace (Z.succ (k - 1)) with k by lia. lia. }
      split.
      + intros i Hi Hik. assert (i = Z.log2 (value - 1)) as -> by lia. apply Z.bit_log2. lia.
      + intros i Hi. apply Z.bits_above_log2; lia. }
  apply (ones_top_step _ _ 1) in Ht; [|lia]. apply (ones_top_step _ _ 2) in Ht; [|lia].
  apply (ones_top_step _ _ 4) in Ht; [|lia]. apply (ones_top_step _ _ 8) in Ht; [|lia].
  apply (ones_top_step _ _ 16) in Ht; [|lia]. cbv zeta.
  set (x := Z.lor _ (Z.shiftr _ 16)) in *. destruct Ht as [Ht1 Ht2].
  assert (x = Z.ones k) as ->.
  { apply testbit_ext. intros i Hi. destruct (decide (i < k)).
    - rewrite Z.ones_spec_low by lia. apply Ht1; lia.
    - rewrite Z.ones_spec_high by lia. apply Ht2. lia. }
  rewrite Z.ones_equiv. by replace (Z.pred (2 ^ k) + 1) with (2 ^ k) by lia.
Qed.

Lemma round_pow_of_two_exact (value k : Z) :
  0 <= k <= 31 -> 2 ^ (k - 1) < value <= 2 ^ k -> 1 <= value -> round_pow_of_two value = 2 ^ k.
Proof.
  intros Hk Hv H1. rewrite (round_pow_of_two_wrap value k) by lia.
  apply wrap_small. split; [apply Z.pow_nonneg; lia|]. apply Z.pow_lt_mono_r; lia.
Qed.

Lemma round_pow_of_two_up (value : Z) :
  1 <= value <= 2 ^ 31 -> value <= round_pow_of_two value <= 2 ^ 31.
Proof.
  intros H. destruct (decide (value = 1)) as [->|Hne]; [by split; vm_compute|].
  pose proof (Z.log2_up_spec value ltac:(lia)) as [Hlo Hhi].
  assert (0 <= Z.log2_up value <= 31) as Hk.
  { split; [apply Z.log2_up_nonneg|].
    rewrite <- (Z.log2_up_pow2 31) by lia. apply Z.log2_up_le_mono. lia. }
  rewrite (round_pow_of_two_exact value (Z.log2_up value)); [|lia| |lia].
  - split; [done|]. apply (Z.pow_le_mono_r 2 _ 31); lia.
  - by rewrite <- Z.sub_1_r in Hlo.
Qed.
