(* ===== verification/HashMap.v ===== *)
(** * The hash map
    ([include/qlog/utility/hash_map_def.hpp], [include/qlog/utility/hash_map_impl.hpp])

    All entries are nodes of one array. The nodes in use form a doubly linked list in which
    the nodes of a bucket are next to each other; a bucket holds the index of its first
    node; the other nodes form the free list. [INVALID] stands for "no node". An index out
    of its array, a failed assertion and reading an entry that is not there are [None].
    The capacity of the arrays is their length; constructors and destructors of keys and
    values are those of the values of the model. *)
From stdpp Require Import base list option numbers.
From Stdlib Require Import ZArith Lia SpecFloat.
From S2P Require Import Prelude Memory Floats BufferDefs.

Section HashMap.
Context {K V : Type} `{EqDecision K}.

(** [hash_calculate_type::hash_code] *)
Variable hash_code : K -> Z.

Definition INVALID : Z := 2 ^ 32 - 1.

(** ** State *)

Record value_node := mk_node {
  n_prev : Z;
  n_next : Z;
  n_bucket : Z;
  n_entry : option (K * V) }.

Record hash_map := mk_map {
  buckets_ : list Z;
  nodes_ : list value_node;
  size_ : Z;
  head_ : Z;
  tail_ : Z;
  free_ : Z;
  expand_rate_ : spec_float }.

Definition set_next (v : Z) (n : value_node) : value_node := mk_node (n_prev n) v (n_bucket n) (n_entry n).
Definition set_prev (v : Z) (n : value_node) : value_node := mk_node v (n_next n) (n_bucket n) (n_entry n).
Definition set_bucket (v : Z) (n : value_node) : value_node := mk_node (n_prev n) (n_next n) v (n_entry n).
Definition set_entry (e : option (K * V)) (n : value_node) : value_node :=
  mk_node (n_prev n) (n_next n) (n_bucket n) e.

Definition set_buckets (b : list Z) (m : hash_map) : hash_map :=
  mk_map b (nodes_ m) (size_ m) (head_ m) (tail_ m) (free_ m) (expand_rate_ m).
Definition set_nodes (n : list value_node) (m : hash_map) : hash_map :=
  mk_map (buckets_ m) n (size_ m) (head_ m) (tail_ m) (free_ m) (expand_rate_ m).
Definition set_size (v : Z) (m : hash_map) : hash_map :=
  mk_map (buckets_ m) (nodes_ m) v (head_ m) (tail_ m) (free_ m) (expand_rate_ m).
Definition set_head (v : Z) (m : hash_map) : hash_map :=
  mk_map (buckets_ m) (nodes_ m) (size_ m) v (tail_ m) (free_ m) (expand_rate_ m).
Definition set_tail (v : Z) (m : hash_map) : hash_map :=
  mk_map (buckets_ m) (nodes_ m) (size_ m) (head_ m) v (free_ m) (expand_rate_ m).
Definition set_free (v : Z) (m : hash_map) : hash_map :=
  mk_map (buckets_ m) (nodes_ m) (size_ m) (head_ m) (tail_ m) v (expand_rate_ m).
Definition set_expand_rate (rate : spec_float) (m : hash_map) : hash_map :=
  mk_map (buckets_ m) (nodes_ m) (size_ m) (head_ m) (tail_ m) (free_ m) rate.

Definition buckets_size (m : hash_map) : Z := zlen (buckets_ m).
Definition nodes_size (m : hash_map) : Z := zlen (nodes_ m).

(** [operator[]] of the two arrays, and a store through it. *)
Definition at_index {A} (l : list A) (i : Z) : option A :=
  if (0 <=? i) && (i <? zlen l) then l !! Z.to_nat i else None.
Definition node_at (m : hash_map) (i : Z) : option value_node := at_index (nodes_ m) i.
Definition upd_node (i : Z) (f : value_node -> value_node) (m : hash_map) : option hash_map :=
  n ← node_at m i; Some (set_nodes (<[Z.to_nat i := f n]> (nodes_ m)) m).
Definition set_bucket_value (b v : Z) (m : hash_map) : option hash_map :=
  _ ← at_index (buckets_ m) b; Some (set_buckets (<[Z.to_nat b := v]> (buckets_ m)) m).

(** [nodes_[i].next = v], or the head of the list when there is no node [i]. *)
Definition link_next (i v : Z) (m : hash_map) : option hash_map :=
  if i =? INVALID then Some (set_head v m) else upd_node i (set_next v) m.
(** [nodes_[i].prev = v], or the tail. *)
Definition link_prev (i v : Z) (m : hash_map) : option hash_map :=
  if i =? INVALID then Some (set_tail v m) else upd_node i (set_prev v) m.

(** ** Buckets and nodes *)

Definition get_bucket_index_by_hash (count hash : Z) : Z := Z.land (u32 hash) (u32 (count - 1)).
Definition get_bucket_index_by_key (m : hash_map) (key : K) : Z :=
  get_bucket_index_by_hash (buckets_size m) (hash_code key).

(** The rehash moves a node behind the first node of its bucket. *)
Definition rehash_move (index first : Z) (m : hash_map) : option hash_map :=
  cur ← node_at m index;
  let old_prev := n_prev cur in let old_next := n_next cur in
  head ← node_at m first;
  let new_prev := first in let new_next := n_next head in
  m ← (if negb (old_prev =? INVALID) then upd_node old_prev (set_next old_next) m else Some m);
  m ← (if negb (old_next =? INVALID) then upd_node old_next (set_prev old_prev) m else Some m);
  m ← upd_node index (fun n => set_next new_next (set_prev new_prev n)) m;
  m ← upd_node new_prev (set_next index) m;
  m ← (if negb (new_next =? INVALID) then upd_node new_next (set_prev index) m else Some m);
  let m := if tail_ m =? index then set_tail old_prev m else m in
  Some (if new_prev =? new_next then set_tail INVALID m else m).

(** One turn of the rehash: the node goes to the place of its bucket. *)
Definition rehash_node (index : Z) (m : hash_map) : option hash_map :=
  cur ← node_at m index;
  '(key, _) ← n_entry cur;
  let bucket := get_bucket_index_by_key m key in
  m ← upd_node index (set_bucket bucket) m;
  first ← at_index (buckets_ m) bucket;
  if first =? INVALID then set_bucket_value bucket index m
  else if negb (n_prev cur =? first) then rehash_move index first m
  else Some m.

(** [while (index != QLOG_HASH_MAP_INVALID_INDEX)], with the number of turns. *)
Fixpoint rehash_loop (fuel : nat) (index cnt : Z) (m : hash_map) : option (hash_map * Z) :=
  if index =? INVALID then Some (m, cnt)
  else
    match fuel with
    | O => None
    | S fuel => cur ← node_at m index; m ← rehash_node index m; rehash_loop fuel (n_next cur) (cnt + 1) m
    end.

(** The assertions behind the rehash. *)
Definition rehash_check (cnt : Z) (m : hash_map) : bool :=
  (cnt =? size_ m) &&
  ((head_ m =? INVALID) || bool_decide (n_prev <$> node_at m (head_ m) = Some INVALID)) &&
  ((tail_ m =? INVALID) || bool_decide (n_next <$> node_at m (tail_ m) = Some INVALID)).

Definition expand_buckets (size : Z) (m : hash_map) : option hash_map :=
  if size <=? buckets_size m then Some m
  else
    let capacity := round_pow_of_two size in
    if capacity =? 0 then None
    else
      '(m, cnt) ← rehash_loop (length (nodes_ m)) (head_ m) 0
                    (set_buckets (replicate (Z.to_nat capacity) INVALID) m);
      if rehash_check cnt m then Some m else None.

(** The new nodes [old_space .. old_space + n - 1], chained in front of the free list; their
    bucket index, which the code leaves uninitialised and writes before it reads it, is 0. *)
Definition free_nodes (n : nat) (old_space free : Z) : list value_node :=
  map (fun i => mk_node INVALID (if (S i <? n)%nat then old_space + Z.of_nat i + 1 else free) 0 None) (seq 0 n).

Definition expand_nodes (size : Z) (m : hash_map) : option hash_map :=
  let old_space := nodes_size m in
  if size <=? old_space then Some m
  else
    let new_space := round_pow_of_two size in
    if new_space <? old_space then None
    else
      let n := Z.to_nat (new_space - old_space) in
      Some (set_free (if (0 <? n)%nat then old_space else free_ m)
              (set_nodes (nodes_ m ++ free_nodes n old_space (free_ m)) m)).

(** The default expansion rate 1.5 *)
Definition default_rate : spec_float := S754_finite false 12582912 (-23).

Definition empty_map : hash_map := mk_map [] [] 0 INVALID INVALID INVALID default_rate.

(** The constructor. *)
Definition new_map (init_bucket_size : Z) : option hash_map :=
  m ← expand_buckets init_bucket_size empty_map; expand_nodes (buckets_size m) m.

(** ** Search *)

Fixpoint find_loop (fuel : nat) (m : hash_map) (key : K) (bucket_idx valid_index : Z) : option Z :=
  if valid_index =? INVALID then Some INVALID
  else
    match fuel with
    | O => None
    | S fuel =>
        node ← node_at m valid_index;
        if negb (n_bucket node =? bucket_idx) then Some INVALID
        else
          '(k, _) ← n_entry node;
          if decide (k = key) then Some valid_index else find_loop fuel m key bucket_idx (n_next node)
    end.

(** Node index and bucket index. *)
Definition find_index_and_bucket_idx_by_key (m : hash_map) (key : K) : option (Z * Z) :=
  if 0 <? buckets_size m then
    let bucket_idx := get_bucket_index_by_key m key in
    first ← at_index (buckets_ m) bucket_idx;
    index ← find_loop (length (nodes_ m)) m key bucket_idx first;
    Some (index, bucket_idx)
  else Some (INVALID, INVALID).

(** An iterator of this map is a node index with its bucket index. *)
Definition iterator : Type := Z * Z.
Definition end_ : iterator := (INVALID, INVALID).

Definition iterator_legal_check (m : hash_map) (it : iterator) : bool :=
  let '(index, bucket_idx) := it in
  negb (index =? INVALID) && (index <? nodes_size m) &&
  bool_decide (n_bucket <$> node_at m index = Some bucket_idx).

Definition find (m : hash_map) (key : K) : option iterator := find_index_and_bucket_idx_by_key m key.

(** [iter->value()] *)
Definition value_at (m : hash_map) (it : iterator) : option V := n ← node_at m it.1; '(_, v) ← n_entry n; Some v.

(** ** Insertion *)

(** [static_cast<std::uint32_t>(static_cast<float>(n) * expand_rate_)] *)
Definition scaled_size (n : Z) (rate : spec_float) : option Z :=
  to_integer 0 (2 ^ 32) (SFmul 24 128 (binary_normalize 24 128 n 0 false) rate).

Definition alloc_node_by_key (m : hash_map) (key : K) : option (hash_map * iterator) :=
  scaled ← scaled_size (u32 (size_ m + 1)) (expand_rate_ m);
  let expected_bucket_size := u32 (scaled + 1) in
  m ← (if buckets_size m <? expected_bucket_size then expand_buckets expected_bucket_size m else Some m);
  '(found, bucket_idx) ← find_index_and_bucket_idx_by_key m key;
  if negb (found =? INVALID) then None
  else
    m ← (if free_ m =? INVALID then expand_nodes (u32 (nodes_size m + 1)) m else Some m);
    next_node_index ← at_index (buckets_ m) bucket_idx;
    prev_node_index ← (if next_node_index =? INVALID then Some (tail_ m)
                       else n_prev <$> node_at m next_node_index);
    let new_index := free_ m in
    new_node ← node_at m new_index;
    let m := set_free (n_next new_node) m in
    m ← set_bucket_value bucket_idx new_index m;
    m ← upd_node new_index (fun n => set_bucket bucket_idx (set_prev prev_node_index (set_next next_node_index n))) m;
    m ← link_next prev_node_index new_index m;
    m ← link_prev next_node_index new_index m;
    Some (m, (new_index, bucket_idx)).

(** [add]: the key must not be there. *)
Definition add (m : hash_map) (key : K) (value : V) : option (hash_map * iterator) :=
  '(m, it) ← alloc_node_by_key m key;
  m ← upd_node it.1 (set_entry (Some (key, value))) m;
  Some (set_size (u32 (size_ m + 1)) m, it).

(** The value that [operator[]] refers to; [dflt] is that of the default constructor. *)
Definition index_key (dflt : V) (m : hash_map) (key : K) : option (hash_map * iterator) :=
  it ← find m key;
  if iterator_legal_check m it then Some (m, it) else add m key dflt.

(** [map[key] = value] *)
Definition assign (dflt : V) (m : hash_map) (key : K) (value : V) : option hash_map :=
  '(m, it) ← index_key dflt m key;
  n ← node_at m it.1;
  '(k, _) ← n_entry n;
  upd_node it.1 (set_entry (Some (k, value))) m.

(** ** Removal *)

(** The bucket of a node that is taken out. *)
Definition unbucket (index bucket_index next_index : Z) (m : hash_map) : option hash_map :=
  first ← at_index (buckets_ m) bucket_index;
  if index =? first then
    same ← (if negb (next_index =? INVALID) then
              n ← node_at m next_index; Some (n_bucket n =? bucket_index)
            else Some false);
    set_bucket_value bucket_index (if (same : bool) then next_index else INVALID) m
  else Some m.

Definition erase (m : hash_map) (where_it : iterator) : option (bool * hash_map) :=
  if negb (iterator_legal_check m where_it) then Some (false, m)
  else
    let '(index, bucket_index) := where_it in
    cur_node ← node_at m index;
    let prev_index := n_prev cur_node in let next_index := n_next cur_node in
    m ← link_next prev_index next_index m;
    m ← link_prev next_index prev_index m;
    m ← unbucket index bucket_index next_index m;
    m ← upd_node index (set_next (free_ m)) m;
    let m := set_size (u32 (size_ m - 1)) (set_free index m) in
    m ← upd_node index (set_entry None) m;
    Some (true, m).

Definition erase_key (m : hash_map) (key : K) : option (bool * hash_map) :=
  it ← find m key;
  if iterator_legal_check m it then erase m it else Some (false, m).

(** ** Iteration, copies *)

(** [for (iter = begin(); iter != end(); ++iter)] *)
Fixpoint entries_loop (fuel : nat) (m : hash_map) (index : Z) : option (list (K * V)) :=
  if index =? INVALID then Some []
  else
    match fuel with
    | O => None
    | S fuel =>
        n ← node_at m index; e ← n_entry n; rest ← entries_loop fuel m (n_next n); Some (e :: rest)
    end.

Definition entries (m : hash_map) : option (list (K * V)) := entries_loop (length (nodes_ m)) m (head_ m).

Definition clear (m : hash_map) : option hash_map :=
  _ ← entries m;
  let n := length (nodes_ m) in
  Some (mk_map (replicate (length (buckets_ m)) INVALID)
          (map (fun p : nat * value_node => mk_node INVALID
                  (if (S p.1 <? n)%nat then Z.of_nat p.1 + 1 else INVALID) (n_bucket p.2) None)
               (imap (fun i nd => (i, nd)) (nodes_ m)))
          0 INVALID INVALID (if (0 <? n)%nat then 0 else INVALID) (expand_rate_ m)).

Definition reset (m : hash_map) : option hash_map :=
  _ ← entries m; Some (mk_map [] [] 0 INVALID INVALID INVALID (expand_rate_ m)).

Fixpoint add_all (m : hash_map) (es : list (K * V)) : option hash_map :=
  match es with
  | [] => Some m
  | (k, v) :: es => '(m, _) ← add m k v; add_all m es
  end.

(** The copy constructor and the copy assignment. *)
Definition copy_map (rhs : hash_map) : option hash_map :=
  m ← expand_buckets (buckets_size rhs) empty_map;
  m ← expand_nodes (nodes_size rhs) m;
  es ← entries rhs;
  add_all m es.

Definition assign_copy (m rhs : hash_map) : option hash_map :=
  m ← clear m;
  m ← expand_buckets (buckets_size rhs) m;
  m ← expand_nodes (nodes_size rhs) m;
  es ← entries rhs;
  add_all m es.

(** The move constructor and the move assignment: the new map, and what is left. *)
Definition move_map (rhs : hash_map) : hash_map * hash_map :=
  (set_expand_rate default_rate rhs, mk_map [] [] 0 INVALID INVALID INVALID (expand_rate_ rhs)).

Definition assign_move (m rhs : hash_map) : option (hash_map * hash_map) :=
  m ← reset m;
  Some (set_expand_rate (expand_rate_ m) rhs, mk_map [] [] 0 INVALID INVALID INVALID (expand_rate_ rhs)).

End HashMap.
