(* ===== verification/HashMapList.v ===== *)
(** * The node list of the hash map ([include/qlog/utility/hash_map_impl.hpp])

    Linked segments of nodes, the list with a gap that the insertion, the removal and the
    rehash work on, and the groups of the buckets in the list. *)
From stdpp Require Import base list option numbers sets.
From Stdlib Require Import ZArith Lia SpecFloat.
From S2P Require Import Prelude Memory Floats BufferDefs HashMap.

(** ** Segments of a doubly linked list

    [lk i] is the pair of links of node [i]; a segment is entered from [p] and left to [q]. *)

Fixpoint seg (lk : Z -> option (Z * Z)) (p : Z) (l : list Z) (q : Z) : Prop :=
  match l with
  | [] => True
  | i :: r => lk i = Some (p, List.hd q r) /\ seg lk i r q
  end.

Lemma last_cons (x d : Z) (l : list Z) : List.last (x :: l) d = List.last l x.
Proof.
  revert x d. induction l as [|y l IH]; intros x d; [done|].
  change (List.last (x :: y :: l) d) with (List.last (y :: l) d). by rewrite !IH.
Qed.

Lemma last_app_cons (l1 l2 : list Z) (x d : Z) : List.last (l1 ++ x :: l2) d = List.last l2 x.
Proof. revert d. induction l1 as [|y l1 IH]; intros d; cbn [app]; rewrite last_cons; [done|]. apply IH. Qed.

Lemma last_app (l1 l2 : list Z) (d : Z) : List.last (l1 ++ l2) d = List.last l2 (List.last l1 d).
Proof.
  revert d. induction l1 as [|y l1 IH]; intros d; [done|]. cbn [app]. rewrite !last_cons. apply IH.
Qed.

Lemma hd_app (l1 l2 : list Z) (q : Z) : List.hd q (l1 ++ l2) = List.hd (List.hd q l2) l1.
Proof. by destruct l1. Qed.

Lemma seg_app (lk : Z -> option (Z * Z)) (p q : Z) (l1 l2 : list Z) :
  seg lk p (l1 ++ l2) q <-> seg lk p l1 (List.hd q l2) /\ seg lk (List.last l1 p) l2 q.
Proof.
  revert p. induction l1 as [|i l1 IH]; intros p; [cbn; tauto|].
  cbn [app seg]. rewrite last_cons, IH, hd_app. tauto.
Qed.

Lemma seg_ext (lk lk' : Z -> option (Z * Z)) (p q : Z) (l : list Z) :
  (forall i, i ∈ l -> lk' i = lk i) -> seg lk p l q -> seg lk' p l q.
Proof.
  revert p. induction l as [|i l IH]; intros p E; [done|]. intros [L S]. split.
  - rewrite E by set_solver. done.
  - apply IH; [set_solver|done].
Qed.

Lemma seg_valid (lk : Z -> option (Z * Z)) (p q i : Z) (l : list Z) :
  seg lk p l q -> i ∈ l -> is_Some (lk i).
Proof.
  revert p. induction l as [|j l IH]; intros p S Hi; [by apply elem_of_nil in Hi|].
  destruct S as [L S]. apply elem_of_cons in Hi as [->|Hi]; [rewrite L; eauto|]. by apply (IH j).
Qed.

(** A new exit of the last node, a new entry of the first one. *)
Lemma seg_set_exit (lk lk' : Z -> option (Z * Z)) (p q q' i : Z) (l : list Z) :
  seg lk p (l ++ [i]) q -> NoDup (l ++ [i]) ->
  lk' i = Some (List.last l p, q') -> (forall j, j <> i -> lk' j = lk j) ->
  seg lk' p (l ++ [i]) q'.
Proof.
  intros S D Li E. apply seg_app in S as [S1 S2]. apply seg_app. split; [|done].
  apply NoDup_app in D as (_ & D & _).
  apply (seg_ext lk); [|done]. intros j Hj. apply E. set_solver.
Qed.

Lemma seg_set_entry (lk lk' : Z -> option (Z * Z)) (p p' q i : Z) (l : list Z) :
  seg lk p (i :: l) q -> NoDup (i :: l) ->
  lk' i = Some (p', List.hd q l) -> (forall j, j <> i -> lk' j = lk j) ->
  seg lk' p' (i :: l) q.
Proof.
  intros [_ S] D Li E. split; [done|]. apply (seg_ext lk); [|done].
  intros j Hj. apply E. intros ->. by apply NoDup_cons in D as [].
Qed.

(** ** The groups of the buckets

    [bk i] is the bucket of node [i]; the nodes of a bucket are next to each other, and the
    bucket holds the first of them. *)

Definition group_of (bk : Z -> Z) (b : Z) (first : Z) (l : list Z) : Prop :=
  exists A G B, l = A ++ G ++ B /\ (forall i, i ∈ G -> bk i = b) /\
    (forall i, i ∈ A ++ B -> bk i <> b) /\ first = List.hd INVALID G.

Definition grouped (bk : Z -> Z) (buckets : list Z) (l : list Z) : Prop :=
  forall b first, at_index buckets b = Some first -> group_of bk b first l.

Lemma group_of_ext (bk bk' : Z -> Z) (b first : Z) (l : list Z) :
  (forall i, i ∈ l -> bk' i = bk i) -> group_of bk b first l -> group_of bk' b first l.
Proof.
  intros E (A & G & B & -> & HG & HAB & ->). exists A, G, B. split_and!; [done| | |done].
  - intros i Hi. rewrite E by set_solver. by apply HG.
  - intros i Hi. rewrite E by set_solver. by apply HAB.
Qed.

(** A node of another bucket [b] goes between [L] and [R], at a place where [b] is met. *)
Lemma group_insert_other (bk : Z -> Z) (b' x first : Z) (L R : list Z) :
  group_of bk b' first (L ++ R) -> bk x <> b' ->
  (R = [] \/ bk (List.hd INVALID R) <> b' \/ (L <> [] /\ bk (List.last L INVALID) <> b')) ->
  group_of bk b' first (L ++ x :: R).
Proof.
  intros (A & G & B & E & HG & HAB & ->) Hx Hp.
  apply app_eq_app in E as (k & [[-> E]|[-> E]]).
  - apply app_eq_app in E as (k2 & [[-> ->]|[-> ->]]).
    + destruct (decide (k2 = [])) as [->|H2].
      * exists A, (k ++ []), (x :: B). rewrite !app_nil_r in *. cbn [app].
        split_and!; [by rewrite <- app_assoc|done| |done]. set_solver.
      * destruct (decide (k = [])) as [->|H1].
        -- exists (A ++ [x]), k2, B. rewrite !app_nil_r in *. cbn [app].
           split_and!; [by rewrite <- app_assoc|set_solver|set_solver|done].
        -- exfalso. destruct Hp as [Hp|[Hp|[_ Hp]]].
           ++ destruct k2; done.
           ++ apply Hp. destruct k2 as [|y k2]; [done|]. apply HG. cbn. apply elem_of_app; right. by left.
           ++ apply Hp. apply HG. rewrite last_app. destruct k as [|y k] using rev_ind; [done|].
              rewrite last_app. cbn.
              apply elem_of_app; left. apply elem_of_app; right. by left.
    + exists A, G, (k2 ++ x :: R). split_and!; [by rewrite <- !app_assoc|done|set_solver|done].
  - subst R. exists (L ++ x :: k), G, B. split_and!; [by rewrite <- app_assoc|done|set_solver|done].
Qed.

Lemma group_remove_other (bk : Z -> Z) (b' x first : Z) (L R : list Z) :
  group_of bk b' first (L ++ x :: R) -> bk x <> b' -> group_of bk b' first (L ++ R).
Proof.
  intros (A & G & B & E & HG & HAB & ->) Hx.
  apply app_eq_app in E as (k & [[-> E]|[-> E]]).
  - apply app_eq_app in E as (k2 & [[-> E]|[-> ->]]).
    + destruct k2 as [|y k2].
      * rewrite app_nil_r in *. cbn in E. subst B. exists A, k, R. rewrite <- app_assoc.
        split_and!; [done|done|set_solver|done].
      * injection E as <- ->. exfalso. apply Hx, HG. set_solver.
    + exists A, G, (k2 ++ R). rewrite <- !app_assoc. split_and!; [done|done|set_solver|done].
  - destruct k as [|y k].
    + destruct G as [|g G].
      * cbn in E. subst B. rewrite app_nil_r in *. exists L, [], R. split_and!; [done|set_solver| |done].
        set_solver.
      * injection E as <- ->. exfalso. apply Hx, HG. set_solver.
    + injection E as <- ->. exists (L ++ k), G, B. rewrite <- app_assoc. split_and!; [done|done|set_solver|done].
Qed.

(** ** The list of a map *)

Section List.
Context {K V : Type}.
Implicit Types m : hash_map (K := K) (V := V).
Implicit Types n : value_node (K := K) (V := V).

Definition links m (i : Z) : option (Z * Z) := (fun n => (n_prev n, n_next n)) <$> node_at m i.
Definition bucket_of m (i : Z) : Z := default 0 (n_bucket <$> node_at m i).
Definition entry_of m (i : Z) : option (K * V) := node_at m i ≫= n_entry.

(** What the operations on the links leave: all but links, head and tail. *)
Record kept m m' : Prop := {
  kept_buckets : buckets_ m' = buckets_ m;
  kept_size : size_ m' = size_ m;
  kept_free : free_ m' = free_ m;
  kept_rate : expand_rate_ m' = expand_rate_ m;
  kept_nodes : length (nodes_ m') = length (nodes_ m);
  kept_bucket : forall i, bucket_of m' i = bucket_of m i;
  kept_entry : forall i, entry_of m' i = entry_of m i }.

#[export] Instance kept_preorder : PreOrder kept.
Proof.
  split.
  - intros m. by split.
  - intros m1 m2 m3 [] []. split; intros; etransitivity; eauto.
Qed.

(** The list up to a gap and from it: [A] is left to [a], [B] is entered from [b]. *)
Record split_at m (A : list Z) (a b : Z) (B : list Z) : Prop := {
  split_front : seg (links m) INVALID A a;
  split_back : seg (links m) b B INVALID;
  split_head : head_ m = List.hd a A;
  split_tail : tail_ m = List.last B b }.

Definition whole m (l : list Z) : Prop := split_at m l INVALID (List.last l INVALID) [].

Lemma whole_split m (A B : list Z) :
  whole m (A ++ B) <-> split_at m A (List.hd INVALID B) (List.last A INVALID) B.
Proof.
  split.
  - intros [S _ H T]. apply seg_app in S as [S1 S2]. cbn in T. split; [done|done| |].
    + by rewrite H, hd_app.
    + by rewrite T, last_app.
  - intros [S1 S2 H T]. split; [by apply seg_app|done| |].
    + by rewrite H, hd_app.
    + cbn. by rewrite T, last_app.
Qed.

Lemma at_index_range {A} (l : list A) (i : Z) (x : A) : at_index l i = Some x -> 0 <= i < zlen l.
Proof. unfold at_index. destruct (_ && _) eqn:E; [|done]. intros _. lia. Qed.

Lemma at_index_is_Some {A} (l : list A) (i : Z) : 0 <= i < zlen l -> is_Some (at_index l i).
Proof.
  intros Hi. unfold at_index. destruct (_ && _) eqn:E; [|lia].
  apply lookup_lt_is_Some. unfold zlen in Hi. lia.
Qed.

Lemma at_index_insert {A} (l : list A) (i j : Z) (x y : A) :
  at_index l i = Some y -> at_index (<[Z.to_nat i := x]> l) j = if decide (j = i) then Some x else at_index l j.
Proof.
  intros Hi. apply at_index_range in Hi. unfold at_index, zlen in *. rewrite length_insert.
  destruct (decide (j = i)) as [->|Hj].
  - destruct (_ && _) eqn:E; [|lia]. rewrite list_lookup_insert_eq by lia. done.
  - destruct (_ && _) eqn:E; [|done]. apply list_lookup_insert_ne. lia.
Qed.

Lemma upd_node_ok (i : Z) (f : value_node -> value_node) m n :
  node_at m i = Some n ->
  exists m', upd_node i f m = Some m' /\
    (forall j, node_at m' j = if decide (j = i) then Some (f n) else node_at m j) /\
    m' = set_nodes (nodes_ m') m /\ length (nodes_ m') = length (nodes_ m).
Proof.
  intros E. unfold upd_node. rewrite E. cbn. eexists. split; [done|]. split_and!.
  - intros j. unfold node_at. cbn. by eapply at_index_insert.
  - done.
  - cbn. apply length_insert.
Qed.

(** Setting a link of a node of the list. *)
Lemma upd_link_ok (i : Z) (f : value_node -> value_node) m n :
  node_at m i = Some n -> (forall n, n_bucket (f n) = n_bucket n /\ n_entry (f n) = n_entry n) ->
  exists m', upd_node i f m = Some m' /\
    (forall j, links m' j = if decide (j = i) then Some (n_prev (f n), n_next (f n)) else links m j) /\
    head_ m' = head_ m /\ tail_ m' = tail_ m /\ kept m m'.
Proof.
  intros E Hf. destruct (upd_node_ok i f m n E) as (m' & U & N & Em & L). exists m'. split; [done|].
  split_and!.
  - intros j. unfold links. rewrite N. by destruct (decide _).
  - by rewrite Em.
  - by rewrite Em.
  - split; [by rewrite Em|by rewrite Em|by rewrite Em|by rewrite Em|exact L| |].
    + intros j. unfold bucket_of. rewrite N. destruct (decide _) as [->|]; [|done].
      rewrite E. cbn. apply Hf.
    + intros j. unfold entry_of. rewrite N. destruct (decide _) as [->|]; [|done].
      rewrite E. cbn. apply Hf.
Qed.

Lemma links_node m (i p q : Z) : links m i = Some (p, q) -> exists n, node_at m i = Some n /\ n_prev n = p /\ n_next n = q.
Proof.
  unfold links. destruct (node_at m i) as [n|]; [|done]. cbn. intros [= <- <-]. eauto.
Qed.

Lemma link_next_ok m (A B : list Z) (a b v : Z) :
  split_at m A a b B -> NoDup (A ++ B) -> INVALID ∉ A ++ B ->
  exists m', link_next (List.last A INVALID) v m = Some m' /\ split_at m' A v b B /\ kept m m' /\
    (forall i, i ∉ A -> links m' i = links m i).
Proof.
  intros [S1 S2 H T] D I. unfold link_next. destruct A as [|x A _] using rev_ind.
  - rewrite Z.eqb_refl. eexists. split_and!; [done| |by split|done]. by split.
  - rewrite last_app. cbn [List.last].
    assert (x <> INVALID) as Hx by (intros ->; apply I; set_solver).
    destruct (Z.eqb_spec x INVALID); [done|].
    apply NoDup_app in D as (DA & DB & _).
    assert (links m x = Some (List.last A INVALID, a)) as L by (apply seg_app in S1 as [_ S1]; apply S1).
    apply links_node in L as (n0 & N & P & Q).
    destruct (upd_link_ok x (set_next v) m n0 N) as (m' & U & L' & H' & T' & K'); [done|].
    exists m'. split; [done|]. assert (forall j, j <> x -> links m' j = links m j) as LE.
    { intros j Hj. rewrite L'. by rewrite decide_False. }
    split_and!; [|done|].
    + split.
      * eapply seg_set_exit; [done|done| |done]. rewrite L', decide_True by done. cbn. by rewrite P.
      * eapply seg_ext; [|done]. intros j Hj. apply LE. intros ->. apply (DB x); set_solver.
      * rewrite H', H. by destruct A.
      * by rewrite T'.
    + intros i Hi. apply LE. set_solver.
Qed.

Lemma link_prev_ok m (A B : list Z) (a b v : Z) :
  split_at m A a b B -> NoDup (A ++ B) -> INVALID ∉ A ++ B ->
  exists m', link_prev (List.hd INVALID B) v m = Some m' /\ split_at m' A a v B /\ kept m m' /\
    (forall i, i ∉ B -> links m' i = links m i).
Proof.
  intros [S1 S2 H T] D I. unfold link_prev. destruct B as [|x B].
  - cbn [List.hd]. rewrite Z.eqb_refl. eexists. split_and!; [done| |by split|done]. by split.
  - cbn [List.hd].
    assert (x <> INVALID) as Hx by (intros ->; apply I; set_solver).
    destruct (Z.eqb_spec x INVALID); [done|].
    apply NoDup_app in D as (DA & DB & DC).
    pose proof S2 as [L _]. apply links_node in L as (n0 & N & P & Q).
    destruct (upd_link_ok x (set_prev v) m n0 N) as (m' & U & L' & H' & T' & K'); [done|].
    exists m'. split; [done|]. assert (forall j, j <> x -> links m' j = links m j) as LE.
    { intros j Hj. rewrite L'. by rewrite decide_False. }
    split_and!; [|done|].
    + split.
      * eapply seg_ext; [|done]. intros j Hj. apply LE. intros ->. apply (DB x); set_solver.
      * eapply seg_set_entry; [done|done| |done]. rewrite L', decide_True by done. cbn. by rewrite Q.
      * by rewrite H', H.
      * rewrite T', T. by rewrite !last_cons.
    + intros i Hi. apply LE. set_solver.
Qed.

(** A node of the list is taken out; its own links stay. *)
Lemma unlink_ok m (A B : list Z) (x : Z) :
  whole m (A ++ x :: B) -> NoDup (A ++ x :: B) -> INVALID ∉ A ++ x :: B ->
  links m x = Some (List.last A INVALID, List.hd INVALID B) /\
  exists m1 m2, link_next (List.last A INVALID) (List.hd INVALID B) m = Some m1 /\
    link_prev (List.hd INVALID B) (List.last A INVALID) m1 = Some m2 /\
    whole m2 (A ++ B) /\ kept m m2 /\ (forall i, i ∉ A ++ B -> links m2 i = links m i).
Proof.
  intros W D I. apply whole_split in W as [S1 [Lx S2] H T]. split; [done|].
  assert (split_at m A x x B) as S by (split; [done|done|done|by rewrite T, last_cons]).
  assert (NoDup (A ++ B)) as D' by (apply (sublist_NoDup _ (A ++ x :: B)); [done|apply sublist_app; [done|by constructor]]).
  assert (INVALID ∉ A ++ B) as I' by set_solver.
  destruct (link_next_ok m A B x x (List.hd INVALID B) S D' I') as (m1 & E1 & Q1 & K1 & L1).
  destruct (link_prev_ok m1 A B _ x (List.last A INVALID) Q1 D' I') as (m2 & E2 & Q2 & K2 & L2).
  exists m1, m2. split_and!; [done|done|by apply whole_split|by etransitivity|].
  intros i Hi. rewrite L2, L1 by set_solver. done.
Qed.

(** A node whose links point at the gap goes into it. *)
Lemma link_ok m (A B : list Z) (x : Z) :
  whole m (A ++ B) -> NoDup (A ++ x :: B) -> INVALID ∉ A ++ B ->
  links m x = Some (List.last A INVALID, List.hd INVALID B) ->
  exists m1 m2, link_next (List.last A INVALID) x m = Some m1 /\
    link_prev (List.hd INVALID B) x m1 = Some m2 /\
    whole m2 (A ++ x :: B) /\ kept m m2 /\ (forall i, i ∉ A ++ B -> links m2 i = links m i).
Proof.
  intros W D I Lx. apply whole_split in W.
  assert (NoDup (A ++ B)) as D' by (apply (sublist_NoDup _ (A ++ x :: B)); [done|apply sublist_app; [done|by constructor]]).
  assert (x ∉ A ++ B) as Hx.
  { apply NoDup_app in D as (_ & D1 & D2). apply NoDup_cons in D2 as [D2 _]. set_solver. }
  destruct (link_next_ok m A B _ _ x W D' I) as (m1 & E1 & Q1 & K1 & L1).
  destruct (link_prev_ok m1 A B _ _ x Q1 D' I) as (m2 & E2 & Q2 & K2 & L2).
  exists m1, m2. assert (forall i, i ∉ A ++ B -> links m2 i = links m i) as L.
  { intros i Hi. rewrite L2, L1 by set_solver. done. }
  split_and!; [done|done| |by etransitivity|done]. apply whole_split. destruct Q2 as [S1 S2 H T]. split.
  - done.
  - split; [by rewrite L|done].
  - done.
  - by rewrite T, last_cons.
Qed.

(** ** The move of the rehash *)

Lemma upd_set_tail (i v : Z) (f : value_node -> value_node) m m' :
  upd_node i f (set_tail v m) = Some m' ->
  exists m0, upd_node i f m = Some m0 /\ m' = set_tail v m0.
Proof.
  unfold upd_node. change (node_at (set_tail v m) i) with (node_at m i).
  destruct (node_at m i) as [n|]; [|done]. cbn. intros [= <-]. by eexists.
Qed.

Lemma upd_tail (i : Z) (f : value_node -> value_node) m m' : upd_node i f m = Some m' -> tail_ m' = tail_ m.
Proof. unfold upd_node. destruct (node_at m i) as [n|]; [|done]. cbn. by intros [= <-]. Qed.

Lemma link_next_node (i v : Z) m : i <> INVALID -> link_next i v m = upd_node i (set_next v) m.
Proof. intros. unfold link_next. by destruct (Z.eqb_spec i INVALID). Qed.

Lemma link_prev_node (i v : Z) m : i <> INVALID -> link_prev i v m = upd_node i (set_prev v) m.
Proof. intros. unfold link_prev. by destruct (Z.eqb_spec i INVALID). Qed.

Lemma last_valid (l : list Z) (d : Z) : d <> INVALID -> INVALID ∉ l -> List.last l d <> INVALID.
Proof.
  revert d. induction l as [|x l IH]; intros d Hd Hl; [done|]. rewrite last_cons.
  apply IH; set_solver.
Qed.

Lemma last_elem (l : list Z) (d : Z) : l <> [] -> List.last l d ∈ l.
Proof. induction l as [|x l _] using rev_ind; [done|]. rewrite last_app. cbn. set_solver. Qed.

(** The list without the node, its links set, and the list with it at its new place. *)
Lemma move_links m (A B C : list Z) (x first : Z) :
  whole m (A ++ first :: B ++ x :: C) -> NoDup (A ++ first :: B ++ x :: C) ->
  INVALID ∉ A ++ first :: B ++ x :: C -> B <> [] ->
  links m x = Some (List.last B first, List.hd INVALID C) /\
  (exists p, links m first = Some (p, List.hd INVALID B)) /\
  exists m1 m2 m3 m4 m5,
    upd_node (List.last B first) (set_next (List.hd INVALID C)) m = Some m1 /\
    link_prev (List.hd INVALID C) (List.last B first) m1 = Some m2 /\
    upd_node x (fun n => set_next (List.hd INVALID B) (set_prev first n)) m2 = Some m3 /\
    upd_node first (set_next x) m3 = Some m4 /\
    upd_node (List.hd INVALID B) (set_prev x) m4 = Some m5 /\
    whole m5 (A ++ first :: x :: B ++ C) /\ kept m m5 /\
    (forall i, i ∉ A ++ first :: B ++ x :: C -> links m5 i = links m i).
Proof.
  intros W D I HB.
  assert (List.last (A ++ first :: B) INVALID = List.last B first) as EL by apply last_app_cons.
  assert (A ++ first :: B ++ x :: C = (A ++ first :: B) ++ x :: C) as E by by rewrite <- app_assoc.
  destruct (unlink_ok m (A ++ first :: B) C x) as (Lx & m1 & m2 & E1 & E2 & W2 & K2 & L2);
    [by rewrite <- E..|]. rewrite EL in Lx, E1, E2.
  rewrite link_next_node in E1 by (apply last_valid; set_solver).
  split; [done|]. split.
  { apply whole_split in W as [_ [Lf _] _ _]. destruct B; [done|]. eauto. }
  assert (x ∉ A ++ first :: B ++ C) as Hx.
  { rewrite E in D. apply NoDup_app in D as (_ & D1 & D2). apply NoDup_cons in D2 as [D2 _]. set_solver. }
  assert (links m2 x = links m x) as Lx2 by (apply L2; set_solver).
  rewrite Lx in Lx2. apply links_node in Lx2 as (n2 & N2 & _).
  destruct (upd_link_ok x (fun n => set_next (List.hd INVALID B) (set_prev first n)) m2 n2 N2)
    as (m3 & E3 & L3 & H3 & T3 & K3); [done|].
  assert (whole m3 ((A ++ [first]) ++ (B ++ C))) as W3.
  { rewrite <- app_assoc. cbn. rewrite <- app_assoc in W2. cbn in W2. destruct W2 as [S1 _ Hh Ht].
    split; [|done|by rewrite H3|by rewrite T3].
    eapply seg_ext; [|done]. intros j Hj. rewrite L3, decide_False; [done|]. intros ->. set_solver. }
  destruct (link_ok m3 (A ++ [first]) (B ++ C) x W3) as (m4 & m5 & E4 & E5 & W5 & K5 & L5).
  - apply NoDup_Permutation_proper with (A ++ first :: B ++ x :: C); [|done]. solve_Permutation.
  - set_solver.
  - rewrite L3, decide_True, last_app, hd_app by done. cbn. by destruct B.
  - rewrite last_app in E4. cbn [List.last] in E4. rewrite hd_app in E5.
    assert (List.hd (List.hd INVALID C) B = List.hd INVALID B) as EB by by destruct B.
    rewrite EB in E5.
    rewrite link_next_node in E4 by set_solver.
    rewrite link_prev_node in E5 by (destruct B; [done|]; cbn; set_solver).
    exists m1, m2, m3, m4, m5. split_and!; [done..| | |].
    + by rewrite <- app_assoc in W5.
    + by repeat (etransitivity; [done|]).
    + intros i Hi. rewrite L5 by set_solver. rewrite L3, decide_False by set_solver. apply L2. set_solver.
Qed.

Lemma rehash_move_ok m (A B C : list Z) (x first : Z) :
  whole m (A ++ first :: B ++ x :: C) -> NoDup (A ++ first :: B ++ x :: C) ->
  INVALID ∉ A ++ first :: B ++ x :: C -> B <> [] ->
  exists m', rehash_move x first m = Some m' /\ whole m' (A ++ first :: x :: B ++ C) /\ kept m m' /\
    (forall i, i ∉ A ++ first :: B ++ x :: C -> links m' i = links m i).
Proof.
  intros W D I HB.
  destruct (move_links m A B C x first W D I HB)
    as (Lx & (p & Lf) & m1 & m2 & m3 & m4 & m5 & E1 & E2 & E3 & E4 & E5 & W5 & K5 & L5).
  assert (tail_ m = List.last C x) as HT.
  { destruct W as [_ _ _ T]. cbn in T. by rewrite T, last_app_cons, last_app_cons. }
  assert (List.hd INVALID B <> INVALID /\ List.hd INVALID B <> first) as [Hb1 Hb2].
  { apply NoDup_app in D as (_ & _ & D). apply NoDup_cons in D as [D _]. destruct B; [done|]. cbn. set_solver. }
  assert (List.last B first <> INVALID) as Hl by (apply last_valid; set_solver).
  apply links_node in Lx as (nx & Nx & Px & Qx). apply links_node in Lf as (nf & Nf & Pf & Qf).
  unfold rehash_move. rewrite Nx. cbn [mbind option_bind]. rewrite Nf. cbn [mbind option_bind].
  rewrite Px, Qx, Qf.
  destruct (Z.eqb_spec (List.last B first) INVALID); [done|]. cbn [negb]. rewrite E1. cbn [mbind option_bind].
  destruct (Z.eqb_spec first (List.hd INVALID B)); [done|].
  destruct C as [|c C].
  - cbn [List.hd] in *. rewrite Z.eqb_refl. cbn [negb mbind option_bind].
    unfold link_prev in E2. rewrite Z.eqb_refl in E2. injection E2 as <-.
    apply upd_set_tail in E3 as (m3' & E3 & ->). rewrite E3. cbn [mbind option_bind].
    apply upd_set_tail in E4 as (m4' & E4 & ->). rewrite E4. cbn [mbind option_bind].
    apply upd_set_tail in E5 as (m5' & E5 & ->).
    destruct (Z.eqb_spec (List.hd INVALID B) INVALID); [done|]. cbn [negb]. rewrite E5. cbn [mbind option_bind].
    apply upd_tail in E1, E3, E4, E5. cbn in HT. destruct (Z.eqb_spec (tail_ m5') x); [eauto|congruence].
  - cbn [List.hd] in *. rewrite link_prev_node in E2 by set_solver.
    destruct (Z.eqb_spec c INVALID); [set_solver|]. cbn [negb]. rewrite E2. cbn [mbind option_bind].
    rewrite E3. cbn [mbind option_bind]. rewrite E4. cbn [mbind option_bind].
    destruct (Z.eqb_spec (List.hd INVALID B) INVALID); [done|]. cbn [negb]. rewrite E5. cbn [mbind option_bind].
    apply upd_tail in E1, E2, E3, E4, E5.
    destruct (Z.eqb_spec (tail_ m5) x) as [Ht|]; [|eauto]. exfalso.
    apply NoDup_app in D as (_ & _ & D). apply NoDup_cons in D as [_ D].
    apply NoDup_app in D as (_ & _ & D). apply NoDup_cons in D as [D _]. apply D.
    replace x with (List.last C c) by (rewrite last_cons in HT; congruence).
    rewrite <- (last_cons c x). by apply last_elem.
Qed.

End List.
