(* ===== verification/HashMapTheorems.v ===== *)
(** * The hash map: its invariant and what its operations do

    [wf m l f es]: the nodes [l] are the list of the map, the nodes [f] its free list, and
    [es] the entries in the order of the list. Every operation is described on [es]; the
    order matters to the code that iterates over a map. *)
From stdpp Require Import base list option numbers sets.
From Stdlib Require Import ZArith Lia SpecFloat.
From S2P Require Import Prelude Memory Floats BufferDefs HashMap HashMapList.

Section HashMapTheorems.
Context {K V : Type} `{EqDecision K}.
Variable hash_code : K -> Z.
Implicit Types m : hash_map (K := K) (V := V).

(** ** The invariant *)

Fixpoint chain (next : Z -> option Z) (first : Z) (l : list Z) : Prop :=
  match l with
  | [] => first = INVALID
  | i :: r => first = i /\ exists j, next i = Some j /\ chain next j r
  end.

Definition next_of m (i : Z) : option Z := snd <$> links m i.

Definition max_nodes : Z := 2 ^ 31.

(** Node [i] holds entry [e], in the bucket of its key. *)
Definition holds m (i : Z) (e : K * V) : Prop :=
  entry_of m i = Some e /\ bucket_of m i = get_bucket_index_by_key hash_code m e.1.

Record core m (l f : list Z) : Prop := {
  core_list : whole m l;
  core_free : chain (next_of m) (free_ m) f;
  core_cover : l ++ f ≡ₚ seqZ 0 (nodes_size m);
  core_size : size_ m = zlen l;
  core_nodes : nodes_size m <= max_nodes }.

Record wf m (l f : list Z) (es : list (K * V)) : Prop := {
  wf_core :> core m l f;
  wf_buckets : buckets_size m <= max_nodes;
  wf_entries : Forall2 (holds m) l es;
  wf_keys : NoDup es.*1;
  wf_groups : grouped (bucket_of m) (buckets_ m) l;
  wf_hashed : l = [] \/ 0 < buckets_size m }.

Lemma chain_ext (next next' : Z -> option Z) (first : Z) (l : list Z) :
  (forall i, i ∈ l -> next' i = next i) -> chain next first l -> chain next' first l.
Proof.
  revert first. induction l as [|i l IH]; intros first E; [done|]. intros [-> (j & N & C)].
  split; [done|]. exists j. split; [by rewrite E by set_solver|]. apply IH; [set_solver|done].
Qed.

Lemma Forall2_holds_impl {A B} (P Q : A -> B -> Prop) (l : list A) (es : list B) :
  (forall i e, i ∈ l -> P i e -> Q i e) -> Forall2 P l es -> Forall2 Q l es.
Proof.
  intros E H. induction H; constructor.
  - apply E; [set_solver|done].
  - apply IHForall2. intros. apply E; [set_solver|done].
Qed.

Section Invariant.
Context (m : hash_map (K := K) (V := V)) (l f : list Z).
Hypothesis W : core m l f.

Lemma core_NoDup : NoDup (l ++ f).
Proof. rewrite (core_cover _ _ _ W). apply NoDup_seqZ. Qed.

Lemma core_NoDup_list : NoDup l.
Proof. pose proof core_NoDup as D. by apply NoDup_app in D as []. Qed.

Lemma core_index (i : Z) : i ∈ l ++ f <-> 0 <= i < nodes_size m.
Proof. rewrite (core_cover _ _ _ W), elem_of_seqZ. lia. Qed.

Lemma core_valid : INVALID ∉ l ++ f.
Proof. intros H. apply core_index in H. pose proof (core_nodes _ _ _ W). unfold INVALID, max_nodes in *. lia. Qed.

Lemma core_valid_list : INVALID ∉ l.
Proof. pose proof core_valid. set_solver. Qed.

Lemma core_disjoint (i : Z) : i ∈ l -> i ∉ f.
Proof. pose proof core_NoDup as D. apply NoDup_app in D as (_ & D & _). apply D. Qed.

Lemma core_length : (length l + length f = length (nodes_ m))%nat.
Proof.
  rewrite <- length_app, (core_cover _ _ _ W), length_seqZ. unfold nodes_size, zlen. lia.
Qed.

(** Moving nodes in the list leaves the rest. *)
Lemma core_kept m' (l' : list Z) :
  kept m m' -> whole m' l' -> l' ≡ₚ l -> (forall i, i ∉ l -> links m' i = links m i) -> core m' l' f.
Proof.
  intros [] Hw Hl HL. destruct W as [_ HF HC HS HN]. split; [done| | | |].
  - rewrite kept_free. eapply chain_ext; [|done]. intros i Hi. unfold next_of. rewrite HL; [done|].
    intros Hil. by apply (core_disjoint i).
  - unfold nodes_size, zlen. by rewrite Hl, kept_nodes.
  - unfold zlen. by rewrite kept_size, Hl.
  - unfold nodes_size, zlen. by rewrite kept_nodes.
Qed.

End Invariant.

Lemma land_le_r (a b : Z) : 0 <= a -> 0 <= b -> Z.land a b <= b.
Proof.
  intros Ha Hb. assert (b = Z.land a b + Z.ldiff b a) as E.
  { rewrite <- lor_add_disjoint.
    - apply testbit_ext. intros i Hi. rewrite Z.lor_spec, Z.land_spec, Z.ldiff_spec.
      by destruct (Z.testbit a i), (Z.testbit b i).
    - apply testbit_ext. intros i Hi. rewrite !Z.land_spec, Z.ldiff_spec, Z.bits_0.
      by destruct (Z.testbit a i), (Z.testbit b i). }
  assert (0 <= Z.ldiff b a) by (apply Z.ldiff_nonneg; by left). lia.
Qed.

Lemma bucket_index_range (count hash : Z) :
  0 < count <= max_nodes -> 0 <= get_bucket_index_by_hash count hash < count.
Proof.
  unfold get_bucket_index_by_hash, max_nodes. intros H. rewrite (wrap_small 32 (count - 1)).
  - pose proof (wrap_range 32 hash ltac:(lia)) as [Hu _].
    split; [apply Z.land_nonneg; by left|].
    pose proof (land_le_r (u32 hash) (count - 1)). lia.
  - unfold in_range. lia.
Qed.

(** ** Search *)

Lemma node_entry m (i : Z) (e : K * V) :
  entry_of m i = Some e -> exists n, node_at m i = Some n /\ n_entry n = Some e.
Proof. unfold entry_of. destruct (node_at m i) as [n|]; [|done]. cbn. eauto. Qed.

Lemma node_bucket m (i : Z) (n : value_node) : node_at m i = Some n -> bucket_of m i = n_bucket n.
Proof. unfold bucket_of. by intros ->. Qed.

Lemma node_next m (i p q : Z) (n : value_node) : node_at m i = Some n -> links m i = Some (p, q) -> n_next n = q /\ n_prev n = p.
Proof. unfold links. intros ->. cbn. by intros [= <- <-]. Qed.

Lemma find_loop_ok m (p : Z) (G B : list Z) (gs bs : list (K * V)) (b : Z) (key : K) (fuel : nat) :
  seg (links m) p (G ++ B) INVALID -> INVALID ∉ G ++ B ->
  Forall2 (fun i e => entry_of m i = Some e) G gs -> Forall2 (fun i e => entry_of m i = Some e) B bs ->
  (forall i, i ∈ G -> bucket_of m i = b) -> (forall i, i ∈ B -> bucket_of m i <> b) ->
  (length (G ++ B) <= fuel)%nat ->
  ((key ∉ gs.*1) /\ find_loop fuel m key b (List.hd INVALID (G ++ B)) = Some INVALID) \/
  (exists j i v, gs !! j = Some (key, v) /\ G !! j = Some i /\
     find_loop fuel m key b (List.hd INVALID (G ++ B)) = Some i).
Proof.
  intros S I HG HB BG BB Hf. revert p fuel S I BG Hf. induction HG as [|i e G gs Hi HG IH]; intros p fuel S I BG Hf.
  - left. split; [by apply not_elem_of_nil|]. cbn [app]. destruct HB as [|i e B bs Hi HB].
    + by destruct fuel.
    + destruct fuel as [|fuel]; [cbn in Hf; lia|]. cbn [List.hd find_loop].
      destruct (Z.eqb_spec i INVALID) as [|Hi0]; [set_solver|].
      apply node_entry in Hi as (n & N & E). rewrite N. cbn [mbind option_bind].
      pose proof (BB i ltac:(set_solver)) as Hb. rewrite (node_bucket _ _ _ N) in Hb.
      by destruct (Z.eqb_spec (n_bucket n) b).
  - destruct fuel as [|fuel]; [cbn in Hf; lia|]. cbn [app List.hd find_loop].
    destruct (Z.eqb_spec i INVALID) as [|Hi0]; [set_solver|].
    apply node_entry in Hi as (n & N & E). rewrite N. cbn [mbind option_bind].
    pose proof (BG i ltac:(set_solver)) as Hb. rewrite (node_bucket _ _ _ N) in Hb.
    destruct (Z.eqb_spec (n_bucket n) b); [|done]. cbn [negb]. rewrite E. destruct e as [k v]. cbn [mbind option_bind].
    destruct (decide (k = key)) as [->|Hk].
    + right. by exists 0%nat, i, v.
    + destruct S as [L S]. destruct (node_next _ _ _ _ _ N L) as [-> _].
      destruct (IH i fuel S) as [[Hn R]|(j & i' & v' & H1 & H2 & R)]; [set_solver|set_solver|cbn in Hf; lia| |].
      * left. split; [|exact R]. cbn. set_solver.
      * right. by exists (Datatypes.S j), i', v'.
Qed.

(** The entries outside of the group of a bucket have other keys. *)
Lemma other_bucket_keys m (l : list Z) (es : list (K * V)) (key : K) :
  Forall2 (holds m) l es -> (forall i, i ∈ l -> bucket_of m i <> get_bucket_index_by_key hash_code m key) ->
  key ∉ es.*1.
Proof.
  intros HE Hl Hk. apply list_elem_of_fmap in Hk as ([k v] & -> & Hk). cbn in *.
  apply list_elem_of_lookup in Hk as [j Hk]. destruct (Forall2_lookup_r _ _ _ _ _ HE Hk) as (i & Hi & _ & Hb).
  apply (Hl i); [|done]. by apply list_elem_of_lookup_2 in Hi.
Qed.

(** The search in the group of the bucket. *)
Lemma find_group_ok m (l f A G B : list Z) (es : list (K * V)) (key : K) :
  wf m l f es -> l = A ++ G ++ B -> 
  let b := get_bucket_index_by_key hash_code m key in
  (forall i, i ∈ G -> bucket_of m i = b) -> (forall i, i ∈ A ++ B -> bucket_of m i <> b) ->
  ((key ∉ es.*1) /\ find_loop (length (nodes_ m)) m key b (List.hd INVALID G) = Some INVALID) \/
  (exists j i v, es !! j = Some (key, v) /\ l !! j = Some i /\
     find_loop (length (nodes_ m)) m key b (List.hd INVALID G) = Some i).
Proof.
  intros W -> b HG HAB. pose proof (wf_entries _ _ _ _ W) as HE.
  apply Forall2_app_inv_l in HE as (ea & rs & HA & HE & ->).
  apply Forall2_app_inv_l in HE as (eg & eb & HGs & HB & ->).
  assert (key ∉ ea.*1) as Ka by (eapply other_bucket_keys; [done|]; intros i Hi; apply HAB; set_solver).
  assert (key ∉ eb.*1) as Kb by (eapply other_bucket_keys; [done|]; intros i Hi; apply HAB; set_solver).
  pose proof (core_valid_list _ _ _ W) as Hv. pose proof (core_length _ _ _ W) as Hl.
  pose proof (core_list _ _ _ W) as Hw. apply whole_split in Hw as [_ S _ _]. rewrite !length_app in Hl.
  destruct G as [|g G].
  { apply Forall2_nil_inv_l in HGs as ->. left. split; [rewrite !fmap_app; set_solver|].
    cbn [List.hd]. by destruct (length (nodes_ m)); cbn [find_loop]; rewrite Z.eqb_refl. }
  destruct (find_loop_ok m _ (g :: G) B eg eb b key (length (nodes_ m)) S)
    as [[Hn R]|(j & i & v & H1 & H2 & R)].
  - set_solver.
  - by eapply Forall2_impl; [apply HGs|intros ?? []].
  - by eapply Forall2_impl; [apply HB|intros ?? []].
  - done.
  - intros i Hi. apply HAB. set_solver.
  - rewrite length_app. lia.
  - left. split; [rewrite !fmap_app; set_solver|exact R].
  - right. exists (length ea + j)%nat, i, v. split_and!; [| |exact R].
    + rewrite lookup_app_r by lia. replace (_ - _)%nat with j by lia. by apply lookup_app_l_Some.
    + pose proof (Forall2_length _ _ _ HA). rewrite lookup_app_r by lia.
      replace (_ - _)%nat with j by lia. by apply lookup_app_l_Some.
Qed.

(** The result of a search: the node that holds the key, or no node. *)
Lemma find_ok m (l f : list Z) (es : list (K * V)) (key : K) :
  wf m l f es ->
  let b := if 0 <? buckets_size m then get_bucket_index_by_key hash_code m key else INVALID in
  ((key ∉ es.*1) /\ find_index_and_bucket_idx_by_key hash_code m key = Some (INVALID, b)) \/
  (exists j i v, es !! j = Some (key, v) /\ l !! j = Some i /\ 0 < buckets_size m /\
     find_index_and_bucket_idx_by_key hash_code m key = Some (i, b)).
Proof.
  intros W b. unfold find_index_and_bucket_idx_by_key. subst b.
  destruct (Z.ltb_spec 0 (buckets_size m)) as [Hpos|Hpos].
  - pose proof (bucket_index_range (buckets_size m) (hash_code key)
                  (conj Hpos (wf_buckets _ _ _ _ W))) as Hb.
    fold (get_bucket_index_by_key hash_code m key) in Hb.
    destruct (at_index_is_Some (buckets_ m) _ Hb) as [first Hfirst]. rewrite Hfirst. cbn [mbind option_bind].
    destruct (wf_groups _ _ _ _ W _ first Hfirst) as (A & G & B & El & HG & HAB & ->).
    destruct (find_group_ok m l f A G B es key W El HG HAB) as [[Hn R]|(j & i & v & H1 & H2 & R)]; rewrite R.
    + by left.
    + right. by exists j, i, v.
  - left. destruct (wf_hashed _ _ _ _ W) as [->|]; [|lia].
    pose proof (wf_entries _ _ _ _ W) as HE. apply Forall2_nil_inv_l in HE. subst es.
    split; [apply not_elem_of_nil|done].
Qed.

(** ** More nodes *)

(** The invariant only reads the nodes it speaks of. *)
Lemma wf_frame m m' (l f f' : list Z) (es : list (K * V)) :
  wf m l f es -> (forall i, i ∈ l -> node_at m' i = node_at m i) ->
  buckets_ m' = buckets_ m -> size_ m' = size_ m -> head_ m' = head_ m -> tail_ m' = tail_ m ->
  chain (next_of m') (free_ m') f' -> l ++ f' ≡ₚ seqZ 0 (nodes_size m') -> nodes_size m' <= max_nodes ->
  wf m' l f' es.
Proof.
  intros [[[S _ H T] _ _ Hs _] Hb He Hk Hg Hh] N Eb Es Eh Et HF HC HN.
  split; [split; [split; [|done|by rewrite Eh|by rewrite Et]|done|done|by rewrite Es|done]| | |done| |].
  - eapply seg_ext; [|done]. intros i Hi. unfold links. by rewrite N.
  - unfold buckets_size. by rewrite Eb.
  - eapply Forall2_holds_impl; [|done]. intros i e Hi [H1 H2].
    unfold holds, entry_of, bucket_of, get_bucket_index_by_key, buckets_size in *. by rewrite N, Eb.
  - intros b first. rewrite Eb. intros Hf. eapply group_of_ext; [|by apply Hg].
    intros i Hi. unfold bucket_of. by rewrite N.
  - unfold buckets_size. by rewrite Eb.
Qed.

Lemma at_index_app_l {A} (l1 l2 : list A) (i : Z) : 0 <= i < zlen l1 -> at_index (l1 ++ l2) i = at_index l1 i.
Proof.
  intros Hi. unfold at_index. rewrite zlen_app. pose proof (zlen_nonneg l2).
  rewrite (proj2 (andb_true_iff _ _)) by lia. rewrite (proj2 (andb_true_iff _ _)) by lia.
  apply lookup_app_l. unfold zlen in Hi. lia.
Qed.

Lemma at_index_app_r {A} (l1 l2 : list A) (k : nat) (x : A) :
  l2 !! k = Some x -> at_index (l1 ++ l2) (zlen l1 + Z.of_nat k) = Some x.
Proof.
  intros Hx. pose proof (lookup_lt_Some _ _ _ Hx). unfold at_index. rewrite zlen_app.
  assert (0 <= zlen l1 + Z.of_nat k < zlen l1 + zlen l2) as Hk by (unfold zlen; lia).
  rewrite (proj2 (andb_true_iff _ _)) by lia. unfold zlen. rewrite lookup_app_r by lia. by replace (_ - _)%nat with k by lia.
Qed.

Lemma free_node_lookup (n : nat) (old free : Z) (k : nat) :
  (k < n)%nat ->
  free_nodes n old free !! k
  = Some (mk_node (K := K) (V := V) INVALID (if (Datatypes.S k <? n)%nat then old + Z.of_nat k + 1 else free) 0 None).
Proof. intros Hk. unfold free_nodes. by rewrite list_lookup_fmap, lookup_seq_lt by lia. Qed.

Lemma free_nodes_chain m (ns : list value_node) (n : nat) (free : Z) (f : list Z) :
  nodes_ m = ns ++ free_nodes n (zlen ns) free -> chain (next_of m) free f ->
  chain (next_of m) (if (0 <? n)%nat then zlen ns else free)
    (map (fun k => zlen ns + Z.of_nat k) (seq 0 n) ++ f).
Proof.
  intros E C.
  assert (forall d k, (k + d = n)%nat ->
    chain (next_of m) (if (k <? n)%nat then zlen ns + Z.of_nat k else free)
      (map (fun k => zlen ns + Z.of_nat k) (seq k d) ++ f)) as G.
  { induction d as [|d IH]; intros k Hk.
    - destruct (Nat.ltb_spec k n); [lia|]. done.
    - destruct (Nat.ltb_spec k n); [|lia]. cbn. split; [done|]. eexists. split; [|apply (IH (Datatypes.S k)); lia].
      unfold next_of, links, node_at. rewrite E.
      rewrite (at_index_app_r ns _ k _ (free_node_lookup n (zlen ns) free k H)).
      cbn [fmap option_fmap option_map snd n_next]. by rewrite Nat2Z.inj_succ, <- Z.add_1_r, Z.add_assoc. }
  specialize (G n 0%nat eq_refl). by replace (zlen ns + Z.of_nat 0) with (zlen ns) in G by lia.
Qed.

Lemma seqZ_map (a : Z) (n : nat) : map (fun k => a + Z.of_nat k) (seq 0 n) = seqZ a (Z.of_nat n).
Proof. unfold seqZ. rewrite Nat2Z.id. apply map_ext. intros. lia. Qed.

Lemma expand_nodes_ok m (l f : list Z) (es : list (K * V)) (size : Z) :
  wf m l f es -> size <= max_nodes ->
  exists m' f', expand_nodes size m = Some m' /\ wf m' l f' es /\ size <= nodes_size m' /\
    buckets_ m' = buckets_ m /\ size_ m' = size_ m /\ expand_rate_ m' = expand_rate_ m /\
    nodes_size m <= nodes_size m' /\ (nodes_size m < size -> f' <> []).
Proof.
  intros W Hs. unfold expand_nodes.
  destruct (Z.leb_spec size (nodes_size m)) as [Hle|Hlt].
  { exists m, f. split_and!; try done. lia. }
  pose proof (zlen_nonneg (nodes_ m)) as Hnn. fold (nodes_size m) in Hnn.
  destruct (round_pow_of_two_up size) as [R1 R2]; [unfold max_nodes in Hs; lia|].
  destruct (Z.ltb_spec (round_pow_of_two size) (nodes_size m)) as [|Hge]; [lia|].
  set (n := Z.to_nat (round_pow_of_two size - nodes_size m)).
  assert (nodes_size m + Z.of_nat n = round_pow_of_two size /\ (0 < n)%nat) as [En Hn] by lia.
  clearbody n. pose proof (core_index _ _ _ W) as HI.
  remember (set_free _ _) as m' eqn:Em. exists m', (map (fun k => nodes_size m + Z.of_nat k) (seq 0 n) ++ f).
  split; [done|].
  assert (nodes_ m' = nodes_ m ++ free_nodes n (nodes_size m) (free_ m)) as Enodes by by rewrite Em.
  assert (free_ m' = if (0 <? n)%nat then nodes_size m else free_ m) as Ef by by rewrite Em.
  assert (buckets_ m' = buckets_ m /\ size_ m' = size_ m /\ expand_rate_ m' = expand_rate_ m /\
    head_ m' = head_ m /\ tail_ m' = tail_ m) as (E1 & E2 & E3 & E4 & E5) by by rewrite Em.
  clear Em.
  assert (nodes_size m' = nodes_size m + Z.of_nat n) as Hsz.
  { unfold nodes_size. rewrite Enodes, zlen_app. unfold free_nodes, zlen at 2. by rewrite length_map, length_seq. }
  assert (forall i, 0 <= i < nodes_size m -> node_at m' i = node_at m i) as HN.
  { intros i Hi. unfold node_at. rewrite Enodes. by apply at_index_app_l. }
  split_and!; try done; [|lia|lia|].
  - eapply wf_frame; [apply W| |done..| | |].
    + intros i Hi. apply HN, HI. set_solver.
    + rewrite Ef. apply (free_nodes_chain m' (nodes_ m) n (free_ m)); [done|].
      eapply chain_ext; [|apply W]. intros i Hi. unfold next_of, links. rewrite HN; [done|]. apply HI. set_solver.
    + rewrite Hsz, seqZ_map, seqZ_app by (unfold nodes_size, zlen; lia). rewrite <- (core_cover _ _ _ W).
      rewrite Z.add_0_l, <- app_assoc. apply Permutation_app_head, Permutation_app_comm.
    + unfold max_nodes. lia.
  - intros _. by destruct n; [lia|].
Qed.

(** ** The rehash

    The nodes [P] are in their buckets, the nodes [Q] are still to be looked at. *)
Record rehashing m (P Q f : list Z) (ps qs : list (K * V)) : Prop := {
  re_core :> core m (P ++ Q) f;
  re_buckets : 0 < buckets_size m <= max_nodes;
  re_placed : Forall2 (holds m) P ps;
  re_waiting : Forall2 (fun i e => entry_of m i = Some e) Q qs;
  re_groups : grouped (bucket_of m) (buckets_ m) P }.

(** Only the bucket index of node [i] is written. *)
Record rebucketed m m' (i b : Z) : Prop := {
  rb_links : forall j, links m' j = links m j;
  rb_entry : forall j, entry_of m' j = entry_of m j;
  rb_bucket : forall j, bucket_of m' j = if decide (j = i) then b else bucket_of m j;
  rb_rest : m' = set_nodes (nodes_ m') m;
  rb_length : length (nodes_ m') = length (nodes_ m) }.

Lemma upd_bucket_ok m (i b : Z) (n : value_node) :
  node_at m i = Some n -> exists m', upd_node i (set_bucket b) m = Some m' /\ rebucketed m m' i b.
Proof.
  intros N. destruct (upd_node_ok i (set_bucket b) m n N) as (m' & U & N' & E & L).
  exists m'. split; [done|].
  split; [| | |done|done]; intros j; unfold links, entry_of, bucket_of; rewrite N';
    destruct (decide (j = i)) as [->|]; rewrite ?N; done.
Qed.

Lemma rebucketed_core m m' (i b : Z) (l f : list Z) : rebucketed m m' i b -> core m l f -> core m' l f.
Proof.
  intros [L _ _ E Len] [[S _ H T] HF HC HS HN]. split; [split| | | |].
  - eapply seg_ext; [|done]. intros; apply L.
  - done.
  - by rewrite E.
  - by rewrite E.
  - rewrite E. eapply chain_ext; [|done]. intros j _. unfold next_of. by rewrite <- E, L.
  - unfold nodes_size, zlen. by rewrite Len.
  - by rewrite E.
  - unfold nodes_size, zlen. by rewrite Len.
Qed.

Lemma core_set_buckets m (l f bs : list Z) : core m l f -> core (set_buckets bs m) l f.
Proof. intros [[] ? ? ? ?]. split; [split|..]; done. Qed.

(** A new node of the bucket behind the first one, or alone. *)
Lemma group_insert_first (bk : Z -> Z) (x : Z) (l : list Z) :
  (forall i, i ∈ l -> bk i <> bk x) -> group_of bk (bk x) x (l ++ [x]).
Proof.
  intros Hl. exists l, [x], []. split_and!; [by rewrite app_nil_r|set_solver| |done].
  rewrite app_nil_r. exact Hl.
Qed.

Lemma grouped_insert_behind (bk : Z -> Z) (buckets : list Z) (A G B : list Z) (x first : Z) :
  grouped bk buckets (A ++ first :: G ++ B) -> bk first = bk x ->
  (forall i, i ∈ G -> bk i = bk x) -> (forall i, i ∈ A ++ B -> bk i <> bk x) ->
  at_index buckets (bk x) = Some first ->
  grouped bk buckets (A ++ first :: x :: G ++ B).
Proof.
  intros H Hf HG HAB Hb b fst' Hb'. destruct (decide (bk x = b)) as [<-|Hne].
  - rewrite Hb in Hb'. injection Hb' as <-. exists A, (first :: x :: G), B.
    split_and!; [done| |done|done]. set_solver.
  - specialize (H b fst' Hb').
    replace (A ++ first :: x :: G ++ B) with ((A ++ [first]) ++ x :: G ++ B) by by rewrite <- app_assoc.
    apply group_insert_other; [by rewrite <- app_assoc|done|]. right. right.
    split; [by destruct A|]. rewrite last_app. cbn. congruence.
Qed.

Lemma grouped_insert_last (bk : Z -> Z) (buckets : list Z) (l : list Z) (x b fst' : Z) :
  grouped bk buckets l -> bk x <> b -> at_index buckets b = Some fst' -> group_of bk b fst' (l ++ [x]).
Proof.
  intros H Hne Hb. apply group_insert_other; [rewrite app_nil_r; by apply H|done|by left].
Qed.

Lemma rehashing_placed m m' (P1 P2 Q f : list Z) (ps qs : list (K * V)) (x : Z) (k : K) (v : V) :
  rehashing m (P1 ++ P2) (x :: Q) f ps ((k, v) :: qs) ->
  core m' ((P1 ++ x :: P2) ++ Q) f -> buckets_size m' = buckets_size m ->
  (forall j, entry_of m' j = entry_of m j) ->
  (forall j, bucket_of m' j = if decide (j = x) then get_bucket_index_by_key hash_code m k else bucket_of m j) ->
  grouped (bucket_of m') (buckets_ m') (P1 ++ x :: P2) ->
  exists ps', ps' ≡ₚ (k, v) :: ps /\ rehashing m' (P1 ++ x :: P2) Q f ps' qs.
Proof.
  intros R C Eb Ee Ebk Hg. destruct R as [CR HB HP HQ _].
  apply Forall2_app_inv_l in HP as (ps1 & ps2 & H1 & H2 & ->).
  apply Forall2_cons in HQ as [Hx HQ]. exists (ps1 ++ (k, v) :: ps2). split; [solve_Permutation|].
  assert (forall i e, i ∈ P1 ++ P2 -> holds m i e -> holds m' i e) as HH.
  { intros i e Hi [Hi1 Hi2]. split; [by rewrite Ee|]. rewrite Ebk, decide_False.
    - unfold get_bucket_index_by_key in *. by rewrite Eb.
    - intros ->. pose proof (core_NoDup_list _ _ _ CR) as D. apply NoDup_app in D as (_ & D & _). apply (D x); set_solver. }
  split; [done|by rewrite Eb| | |done].
  - apply Forall2_app; [|constructor].
    + eapply Forall2_holds_impl; [|done]. intros i e Hi. apply HH. set_solver.
    + split; [by rewrite Ee|]. rewrite Ebk, decide_True by done. unfold get_bucket_index_by_key. by rewrite Eb.
    + eapply Forall2_holds_impl; [|done]. intros i e Hi. apply HH. set_solver.
  - eapply Forall2_impl; [done|]. intros i e Hi. cbn in *. by rewrite Ee.
Qed.

(** The node that is looked at goes behind the first node of its bucket. *)
Lemma place_behind m (A B Q f : list Z) (x first : Z) (cur : value_node (K := K) (V := V)) :
  core m ((A ++ first :: B) ++ x :: Q) f -> links m x = Some (n_prev cur, n_next cur) ->
  exists m', (if negb (n_prev cur =? first) then rehash_move x first m else Some m) = Some m' /\
    core m' ((A ++ first :: x :: B) ++ Q) f /\ kept m m'.
Proof.
  intros C L. pose proof (core_list _ _ _ C) as W. pose proof (core_NoDup_list _ _ _ C) as D.
  pose proof (core_valid_list _ _ _ C) as I.
  assert (n_prev cur = List.last B first) as Hp.
  { pose proof W as W1. apply whole_split in W1 as [_ [L1 _] _ _]. rewrite last_app_cons in L1. congruence. }
  assert ((A ++ first :: B) ++ x :: Q = A ++ first :: B ++ x :: Q) as EL by by rewrite <- app_assoc.
  rewrite Hp. destruct (decide (B = [])) as [->|HB].
  - cbn [List.last]. rewrite Z.eqb_refl. exists m. split; [done|]. split; [|done].
    by rewrite <- app_assoc in C |- *.
  - destruct (Z.eqb_spec (List.last B first) first) as [E|_].
    + exfalso. rewrite EL in D. apply NoDup_app in D as (_ & _ & D). apply NoDup_cons in D as [D _].
      apply D. pose proof (last_elem B first HB). rewrite E in H. set_solver.
    + cbn [negb]. rewrite EL in *. destruct (rehash_move_ok m A B Q x first W D I HB) as (m' & E & W' & K' & L').
      exists m'. split; [done|]. split; [|done]. eapply core_kept; [done|done| | |done].
      * by rewrite <- app_assoc.
      * rewrite <- app_assoc. cbn. by rewrite Permutation_middle.
Qed.

(** What the rehash leaves of the map. *)
Record same_sizes m m' : Prop := {
  ss_buckets : buckets_size m' = buckets_size m;
  ss_nodes : nodes_size m' = nodes_size m;
  ss_size : size_ m' = size_ m;
  ss_rate : expand_rate_ m' = expand_rate_ m }.

#[local] Instance same_sizes_preorder : PreOrder same_sizes.
Proof.
  split; [by split|]. intros m1 m2 m3 [] []. split; etransitivity; eauto.
Qed.

Lemma rebucketed_same_sizes m m' (i b : Z) : rebucketed m m' i b -> same_sizes m m'.
Proof.
  intros [_ _ _ E L]. split; [by rewrite E| |by rewrite E|by rewrite E].
  unfold nodes_size, zlen. by rewrite L.
Qed.

Lemma kept_same_sizes m m' : kept m m' -> same_sizes m m'.
Proof.
  intros []. split; [unfold buckets_size; congruence| |done|done]. unfold nodes_size, zlen. by rewrite kept_nodes.
Qed.

(** The bucket of the node is empty: the node is its first. *)
Lemma place_first m m1 (P Q f : list Z) (ps qs : list (K * V)) (x : Z) (k : K) (v : V) (b : Z) :
  b = get_bucket_index_by_key hash_code m k ->
  rehashing m P (x :: Q) f ps ((k, v) :: qs) -> rebucketed m m1 x b ->
  grouped (bucket_of m1) (buckets_ m) P -> (forall i, i ∈ P -> bucket_of m1 i <> b) ->
  is_Some (at_index (buckets_ m) b) ->
  exists m' ps', set_bucket_value b x m1 = Some m' /\ rehashing m' (P ++ [x]) Q f ps' qs /\
    ps' ≡ₚ (k, v) :: ps /\ same_sizes m m'.
Proof.
  intros Eb R RB G1 HP [first Hf].
  assert (buckets_ m1 = buckets_ m) as Q1 by by rewrite (rb_rest _ _ _ _ RB).
  assert (bucket_of m1 x = b) as Bx by (by rewrite (rb_bucket _ _ _ _ RB), decide_True).
  unfold set_bucket_value. rewrite Q1, Hf. cbn [mbind option_bind].
  assert (same_sizes m (set_buckets (<[Z.to_nat b := x]> (buckets_ m)) m1)) as SS.
  { etransitivity; [by eapply rebucketed_same_sizes|]. split; [|done..].
    unfold buckets_size, zlen. cbn. by rewrite length_insert, Q1. }
  eexists. destruct (rehashing_placed m (set_buckets (<[Z.to_nat b := x]> (buckets_ m)) m1) P [] Q f ps qs x k v)
    as (ps' & Hps & R').
  - by rewrite app_nil_r.
  - apply core_set_buckets. rewrite <- app_assoc. eapply rebucketed_core; [done|apply R].
  - apply SS.
  - apply RB.
  - subst b. apply RB.
  - intros b' f' Hb'. cbn in Hb'. change (bucket_of (set_buckets _ m1)) with (bucket_of m1).
    rewrite (at_index_insert _ _ _ _ _ Hf) in Hb'. destruct (decide (b' = b)) as [->|Hne].
    + injection Hb' as <-. rewrite <- Bx. apply group_insert_first. by rewrite Bx.
    + eapply grouped_insert_last; [done| |done]. congruence.
  - by exists ps'.
Qed.

(** The bucket has a first node: the node goes behind it. *)
Lemma place_second m m1 (A G B Q f : list Z) (ps qs : list (K * V)) (x g : Z) (k : K) (v : V) (b : Z) (cur : value_node) :
  b = get_bucket_index_by_key hash_code m k -> node_at m x = Some cur ->
  rehashing m (A ++ g :: G ++ B) (x :: Q) f ps ((k, v) :: qs) -> rebucketed m m1 x b ->
  grouped (bucket_of m1) (buckets_ m) (A ++ g :: G ++ B) ->
  (forall i, i ∈ g :: G -> bucket_of m1 i = b) -> (forall i, i ∈ A ++ B -> bucket_of m1 i <> b) ->
  at_index (buckets_ m) b = Some g ->
  exists m' P' ps', (if negb (n_prev cur =? g) then rehash_move x g m1 else Some m1) = Some m' /\
    rehashing m' P' Q f ps' qs /\ ps' ≡ₚ (k, v) :: ps /\ same_sizes m m'.
Proof.
  intros Eb N R RB G1 HG HAB Hf.
  pose proof (rebucketed_core _ _ _ _ _ _ RB (re_core _ _ _ _ _ _ R)) as C1.
  destruct (place_behind m1 A (G ++ B) Q f x g cur C1) as (m2 & E2 & C2 & K2).
  { rewrite (rb_links _ _ _ _ RB). unfold links. by rewrite N. }
  assert (buckets_ m2 = buckets_ m) as Q2 by by rewrite (kept_buckets _ _ K2), (rb_rest _ _ _ _ RB).
  assert (bucket_of m1 x = b) as Bx by (by rewrite (rb_bucket _ _ _ _ RB), decide_True).
  assert (same_sizes m m2) as SS.
  { etransitivity; [by eapply rebucketed_same_sizes|by apply kept_same_sizes]. }
  exists m2, ((A ++ [g]) ++ x :: G ++ B).
  destruct (rehashing_placed m m2 (A ++ [g]) (G ++ B) Q f ps qs x k v) as (ps' & Hps & R').
  - by rewrite <- app_assoc.
  - by replace ((A ++ [g]) ++ x :: G ++ B) with (A ++ g :: x :: G ++ B) by (by rewrite <- app_assoc).
  - apply SS.
  - intros j. by rewrite (kept_entry _ _ K2), (rb_entry _ _ _ _ RB).
  - intros j. by rewrite (kept_bucket _ _ K2), (rb_bucket _ _ _ _ RB), Eb.
  - rewrite <- app_assoc, Q2. cbn [app]. intros b' f' Hb'.
    eapply group_of_ext; [intros i _; apply (kept_bucket _ _ K2)|]. revert b' f' Hb'.
    apply grouped_insert_behind; rewrite ?Bx; [done|apply HG; set_solver| |done|done]. intros i Hi. apply HG. set_solver.
  - by exists ps'.
Qed.

Lemma rehash_node_ok m (P Q f : list Z) (ps qs : list (K * V)) (x : Z) (k : K) (v : V) :
  rehashing m P (x :: Q) f ps ((k, v) :: qs) ->
  exists m' P' ps', rehash_node hash_code x m = Some m' /\ rehashing m' P' Q f ps' qs /\
    ps' ≡ₚ (k, v) :: ps /\ same_sizes m m'.
Proof.
  intros R. pose proof (re_waiting _ _ _ _ _ _ R) as HQ. apply Forall2_cons in HQ as [Hx _].
  apply node_entry in Hx as (cur & N & E). unfold rehash_node. rewrite N. cbn [mbind option_bind]. rewrite E. cbn [mbind option_bind].
  pose proof (bucket_index_range (buckets_size m) (hash_code k) (re_buckets _ _ _ _ _ _ R)) as Hb.
  fold (get_bucket_index_by_key hash_code m k) in Hb.
  remember (get_bucket_index_by_key hash_code m k) as b eqn:Eb.
  destruct (upd_bucket_ok m x b cur N) as (m1 & U & RB). rewrite U. cbn [mbind option_bind].
  pose proof (rebucketed_core _ _ _ _ _ _ RB (re_core _ _ _ _ _ _ R)) as C1.
  assert (grouped (bucket_of m1) (buckets_ m) P) as G1.
  { intros b' first Hf. eapply group_of_ext; [|by apply (re_groups _ _ _ _ _ _ R)].
    intros i Hi. rewrite (rb_bucket _ _ _ _ RB), decide_False; [done|]. intros ->.
    pose proof (core_NoDup_list _ _ _ C1) as D. apply NoDup_app in D as (_ & D & _). apply (D x Hi). set_solver. }
  destruct (at_index_is_Some (buckets_ m) b Hb) as [first Hf].
  replace (buckets_ m1) with (buckets_ m) by (by rewrite (rb_rest _ _ _ _ RB)). rewrite Hf. cbn [mbind option_bind].
  destruct (G1 b first Hf) as (A & G & B & -> & HG & HAB & ->). destruct G as [|g G]; cbn [List.hd app] in *.
  - rewrite Z.eqb_refl. destruct (place_first m m1 (A ++ B) Q f ps qs x k v b Eb R RB G1 HAB) as (m' & ps' & H); [eauto|].
    by exists m', ((A ++ B) ++ [x]), ps'.
  - destruct (Z.eqb_spec g INVALID) as [->|_]; [pose proof (core_valid_list _ _ _ C1); set_solver|].
    by eapply place_second.
Qed.

Lemma rehash_loop_ok (fuel : nat) m (P Q f : list Z) (ps qs : list (K * V)) (cnt : Z) :
  rehashing m P Q f ps qs -> (length Q <= fuel)%nat ->
  exists m' l es, rehash_loop hash_code fuel (List.hd INVALID Q) cnt m = Some (m', cnt + zlen Q) /\
    rehashing m' l [] f es [] /\ es ≡ₚ ps ++ qs /\ same_sizes m m'.
Proof.
  revert fuel m P ps qs cnt. induction Q as [|x Q IH]; intros fuel m P ps qs cnt R Hf.
  - pose proof (re_waiting _ _ _ _ _ _ R) as HQ. apply Forall2_nil_inv_l in HQ. subst qs.
    exists m, P, ps. split_and!; [|done|by rewrite app_nil_r|done].
    rewrite Z.add_0_r. by destruct fuel.
  - destruct fuel as [|fuel]; [cbn in Hf; lia|]. cbn [List.hd rehash_loop].
    pose proof (core_valid_list _ _ _ (re_core _ _ _ _ _ _ R)) as I.
    destruct (Z.eqb_spec x INVALID); [set_solver|].
    pose proof (re_waiting _ _ _ _ _ _ R) as HQ. destruct qs as [|[k v] qs]; [by apply Forall2_cons_nil_inv in HQ|].
    apply Forall2_cons in HQ as [Hx _]. apply node_entry in Hx as (cur & N & _). rewrite N. cbn [mbind option_bind].
    pose proof (core_list _ _ _ (re_core _ _ _ _ _ _ R)) as W. apply whole_split in W as [_ [L _] _ _].
    destruct (node_next _ _ _ _ _ N L) as [-> _].
    destruct (rehash_node_ok _ _ _ _ _ _ _ _ _ R) as (m1 & P1 & ps1 & -> & R1 & Hp & S1). cbn [mbind option_bind].
    destruct (IH fuel m1 P1 ps1 qs (cnt + 1) R1) as (m2 & l & es & -> & R2 & He & S2); [cbn in Hf; lia|].
    exists m2, l, es. split_and!; [|done| |by etransitivity].
    + f_equal. f_equal. rewrite zlen_cons. lia.
    + rewrite He, Hp. solve_Permutation.
Qed.

Lemma whole_ends m (l : list Z) : whole m l -> INVALID ∉ l ->
  (head_ m = INVALID \/ n_prev <$> node_at m (head_ m) = Some INVALID) /\
  (tail_ m = INVALID \/ n_next <$> node_at m (tail_ m) = Some INVALID).
Proof.
  intros [S _ H T] _. rewrite H, T. cbn [List.last]. split.
  - destruct l as [|x l]; [by left|]. right. destruct S as [L _]. apply links_node in L as (n & N & P & _).
    cbn. rewrite N. cbn. by rewrite P.
  - destruct l as [|x l _] using rev_ind; [by left|]. right. apply seg_app in S as [_ [L _]].
    apply links_node in L as (n & N & _ & Q). rewrite last_app. cbn. rewrite N. cbn. by rewrite Q.
Qed.

Lemma at_index_replicate {A} (n : nat) (x y : A) (i : Z) : at_index (replicate n x) i = Some y -> y = x.
Proof.
  unfold at_index. destruct (_ && _); [|done]. intros H. by apply lookup_replicate in H as [].
Qed.

Lemma expand_buckets_ok m (l f : list Z) (es : list (K * V)) (size : Z) :
  wf m l f es -> size <= max_nodes ->
  exists m' l' es', expand_buckets hash_code size m = Some m' /\ wf m' l' f es' /\ es' ≡ₚ es /\
    size <= buckets_size m' /\ nodes_size m' = nodes_size m /\ size_ m' = size_ m /\
    expand_rate_ m' = expand_rate_ m.
Proof.
  intros W Hs. unfold expand_buckets. destruct (Z.leb_spec size (buckets_size m)) as [Hle|Hlt].
  { exists m, l, es. by split_and!. }
  pose proof (zlen_nonneg (buckets_ m)) as Hnn. fold (buckets_size m) in Hnn.
  destruct (round_pow_of_two_up size) as [R1 R2]; [unfold max_nodes in Hs; lia|].
  destruct (Z.eqb_spec (round_pow_of_two size) 0) as [|_]; [lia|].
  remember (set_buckets _ m) as m0 eqn:E0.
  assert (buckets_size m0 = round_pow_of_two size) as Hb0.
  { rewrite E0. unfold buckets_size. cbn. rewrite zlen_replicate by lia. lia. }
  assert (rehashing m0 [] l f [] es) as R0.
  { split.
    - rewrite E0. apply core_set_buckets, W.
    - rewrite Hb0. unfold max_nodes. lia.
    - constructor.
    - rewrite E0. by eapply Forall2_impl; [apply W|intros ?? []].
    - intros b first Hb. exists [], [], []. split_and!; [done|set_solver|set_solver|].
      rewrite E0 in Hb. by apply at_index_replicate in Hb. }
  destruct (rehash_loop_ok (length (nodes_ m)) m0 [] l f [] es 0 R0) as (m1 & l1 & es1 & E1 & R' & He & S1).
  { pose proof (core_length _ _ _ W). lia. }
  assert (List.hd INVALID l = head_ m) as <- by (symmetry; apply (core_list _ _ _ W)).
  rewrite E1. cbn [mbind option_bind].
  pose proof (core_list _ _ _ (re_core _ _ _ _ _ _ R')) as W1. rewrite app_nil_r in W1.
  pose proof (core_valid_list _ _ _ (re_core _ _ _ _ _ _ R')) as I1. rewrite app_nil_r in I1.
  destruct (whole_ends _ _ W1 I1) as [Hh Ht]. destruct S1 as [SB SN SS SR].
  assert (rehash_check (0 + zlen l) m1 = true) as ->.
  { unfold rehash_check. rewrite SS, E0. cbn. rewrite (core_size _ _ _ W), Z.eqb_refl. cbn [andb].
    apply andb_true_iff. split; apply orb_true_iff.
    - destruct Hh; [left; by apply Z.eqb_eq|right; by apply bool_decide_eq_true].
    - destruct Ht; [left; by apply Z.eqb_eq|right; by apply bool_decide_eq_true]. }
  exists m1, l1, es1. split; [done|]. destruct R' as [C' B' P' _ G']. rewrite app_nil_r in C'. split_and!.
  - split; [done|lia|done| |done|right; lia]. rewrite He. apply W.
  - by rewrite He.
  - lia.
  - by rewrite SN, E0.
  - by rewrite SS, E0.
  - by rewrite SR, E0.
Qed.

(** ** Insertion *)

(** The place of a new node of bucket [b]: before the first node of the bucket, or at the end. *)
Lemma insertion_point m (l f : list Z) (es : list (K * V)) (b first : Z) :
  wf m l f es -> at_index (buckets_ m) b = Some first ->
  exists L R, l = L ++ R /\ first = List.hd INVALID R /\
    (if first =? INVALID then Some (tail_ m) else n_prev <$> node_at m first) = Some (List.last L INVALID) /\
    (forall bk x, (forall i, i ∈ l -> bk i = bucket_of m i) -> bk x = b ->
      grouped bk (<[Z.to_nat b := x]> (buckets_ m)) (L ++ x :: R)).
Proof.
  intros W Hf. destruct (wf_groups _ _ _ _ W b first Hf) as (A & G & B & -> & HG & HAB & ->).
  pose proof (core_list _ _ _ W) as Wl. pose proof (core_valid_list _ _ _ W) as I. destruct G as [|g G].
  - cbn [List.hd app] in *. exists (A ++ B), []. rewrite Z.eqb_refl. split_and!; [by rewrite app_nil_r|done| |].
    + f_equal. apply Wl.
    + intros bk x E Hx b' f' Hb'. rewrite (at_index_insert _ _ _ _ _ Hf) in Hb'. destruct (decide (b' = b)) as [->|Hne].
      * injection Hb' as <-. rewrite <- Hx. apply group_insert_first. intros i Hi. rewrite E, Hx by done. by apply HAB.
      * eapply grouped_insert_last; [|by rewrite Hx|done]. intros b2 f2 Hb2.
        eapply group_of_ext; [intros; by apply E|]. by apply (wf_groups _ _ _ _ W).
  - exists A, ((g :: G) ++ B). cbn [List.hd app]. destruct (Z.eqb_spec g INVALID) as [->|_]; [set_solver|].
    split_and!; [done|done| |].
    + apply whole_split in Wl as [_ [L _] _ _]. apply links_node in L as (n & N & P & _). rewrite N. cbn. by rewrite P.
    + intros bk x E Hx b' f' Hb'. rewrite (at_index_insert _ _ _ _ _ Hf) in Hb'. destruct (decide (b' = b)) as [->|Hne].
      * injection Hb' as <-. exists A, (x :: g :: G), B. split_and!; [done| | |done].
        -- intros i [->|Hi]%elem_of_cons; [done|]. rewrite E by set_solver. by apply HG.
        -- intros i Hi. rewrite E by set_solver. by apply HAB.
      * apply group_insert_other; [|by rewrite Hx|].
        -- eapply group_of_ext; [intros; by apply E|]. by apply (wf_groups _ _ _ _ W).
        -- right. left. cbn. rewrite E, HG by set_solver. done.
Qed.

(** The map with a node [x] between [L] and [R] that has no entry yet. *)
Record allocated m (L R f : list Z) (ls rs : list (K * V)) (x : Z) (key : K) : Prop := {
  al_list : whole m (L ++ x :: R);
  al_free : chain (next_of m) (free_ m) f;
  al_cover : (L ++ x :: R) ++ f ≡ₚ seqZ 0 (nodes_size m);
  al_size : size_ m = zlen (L ++ R);
  al_nodes : nodes_size m <= max_nodes;
  al_buckets : 0 < buckets_size m <= max_nodes;
  al_front : Forall2 (holds m) L ls;
  al_back : Forall2 (holds m) R rs;
  al_bucket : bucket_of m x = get_bucket_index_by_key hash_code m key;
  al_keys : NoDup (key :: (ls ++ rs).*1);
  al_groups : grouped (bucket_of m) (buckets_ m) (L ++ x :: R) }.

Definition new_links (b p q : Z) : value_node (K := K) (V := V) -> value_node :=
  fun n => set_bucket b (set_prev p (set_next q n)).

Lemma allocated_intro m m3 m5 (L R f : list Z) (ls rs : list (K * V)) (x b : Z) (key : K) (nn : value_node) :
  wf m (L ++ R) (x :: f) (ls ++ rs) -> key ∉ (ls ++ rs).*1 -> 0 < buckets_size m ->
  b = get_bucket_index_by_key hash_code m key -> node_at m x = Some nn ->
  Forall2 (holds m) L ls -> Forall2 (holds m) R rs ->
  (forall bk y, (forall i, i ∈ L ++ R -> bk i = bucket_of m i) -> bk y = b ->
      grouped bk (<[Z.to_nat b := y]> (buckets_ m)) (L ++ y :: R)) ->
  (forall j, j <> x -> node_at m3 j = node_at m j) -> bucket_of m3 x = b ->
  buckets_ m3 = <[Z.to_nat b := x]> (buckets_ m) -> free_ m3 = n_next nn -> size_ m3 = size_ m ->
  nodes_size m3 = nodes_size m ->
  whole m5 (L ++ x :: R) -> kept m3 m5 -> (forall i, i ∉ L ++ R -> links m5 i = links m3 i) ->
  allocated m5 L R f ls rs x key.
Proof.
  intros W Hk Hpos Eb Nx H1 H2 HG N Bx EB EF ES EN W5 K5 L5.
  pose proof (core_NoDup _ _ _ W) as D. apply NoDup_app in D as (_ & D1 & D2). apply NoDup_cons in D2 as [D2 _].
  assert (buckets_size m5 = buckets_size m) as Ebs.
  { unfold buckets_size, zlen. by rewrite (kept_buckets _ _ K5), EB, length_insert. }
  assert (nodes_size m5 = nodes_size m) as Ens by (rewrite <- EN; apply (kept_same_sizes _ _ K5)).
  assert (forall i, i ∈ L ++ R -> i <> x) as Hne by (intros i Hi ->; apply (D1 x Hi); set_solver).
  assert (forall i, i ∈ L ++ R -> bucket_of m5 i = bucket_of m i) as Bk.
  { intros i Hi. rewrite (kept_bucket _ _ K5). unfold bucket_of. by rewrite N by auto. }
  assert (forall i e, i ∈ L ++ R -> holds m i e -> holds m5 i e) as HH.
  { intros i e Hi [E1 E2]. split.
    - rewrite (kept_entry _ _ K5). unfold entry_of in *. by rewrite N by auto.
    - rewrite Bk by done. unfold get_bucket_index_by_key in *. by rewrite Ebs. }
  split.
  - done.
  - destruct (core_free _ _ _ W) as [_ (j & Ej & C)]. unfold next_of, links in Ej. rewrite Nx in Ej. injection Ej as <-.
    rewrite (kept_free _ _ K5), EF. eapply chain_ext; [|done]. intros i Hi.
    assert (i ∉ L ++ R) as Hi' by (intros Hi'; apply (D1 i Hi'); set_solver).
    unfold next_of. rewrite L5 by done. unfold links. rewrite N; [done|]. by intros ->.
  - rewrite Ens, <- (core_cover _ _ _ W). solve_Permutation.
  - by rewrite (kept_size _ _ K5), ES, (core_size _ _ _ W).
  - rewrite Ens. apply W.
  - rewrite Ebs. split; [done|apply W].
  - eapply Forall2_holds_impl; [|exact H1]. intros i e Hi. apply HH. set_solver.
  - eapply Forall2_holds_impl; [|exact H2]. intros i e Hi. apply HH. set_solver.
  - rewrite (kept_bucket _ _ K5), Bx, Eb. unfold get_bucket_index_by_key. by rewrite Ebs.
  - apply NoDup_cons. split; [done|apply W].
  - rewrite (kept_buckets _ _ K5), EB. apply HG; [done|]. by rewrite (kept_bucket _ _ K5).
Qed.

(** The node is taken from the free list, written and linked. *)
Lemma place_new m (L R f : list Z) (es : list (K * V)) (x b first : Z) (key : K) (nn : value_node) :
  wf m (L ++ R) (x :: f) es -> key ∉ es.*1 -> 0 < buckets_size m ->
  b = get_bucket_index_by_key hash_code m key -> at_index (buckets_ m) b = Some first -> node_at m x = Some nn ->
  (forall bk y, (forall i, i ∈ L ++ R -> bk i = bucket_of m i) -> bk y = b ->
      grouped bk (<[Z.to_nat b := y]> (buckets_ m)) (L ++ y :: R)) ->
  exists m2 m3 m4 m5 ls rs,
    set_bucket_value b x (set_free (n_next nn) m) = Some m2 /\
    upd_node x (new_links b (List.last L INVALID) (List.hd INVALID R)) m2 = Some m3 /\
    link_next (List.last L INVALID) x m3 = Some m4 /\ link_prev (List.hd INVALID R) x m4 = Some m5 /\
    es = ls ++ rs /\ allocated m5 L R f ls rs x key /\ size_ m5 = size_ m /\ expand_rate_ m5 = expand_rate_ m.
Proof.
  intros W Hk Hpos Eb Hf N HG. pose proof (core_NoDup _ _ _ W) as D.
  assert ((x ∉ L ++ R) /\ (x ∉ f)) as [Hx Hxf].
  { apply NoDup_app in D as (_ & D1 & D2). apply NoDup_cons in D2 as [D2 _]. set_solver. }
  unfold set_bucket_value. cbn [buckets_ set_free]. rewrite Hf. cbn [mbind option_bind].
  remember (set_buckets _ _) as m2 eqn:E2.
  assert (forall j, node_at m2 j = node_at m j) as N2 by by rewrite E2.
  destruct (upd_node_ok x (new_links b (List.last L INVALID) (List.hd INVALID R)) m2 nn) as (m3 & U3 & N3 & E3 & Len3).
  { by rewrite N2. }
  assert (forall j, j <> x -> node_at m3 j = node_at m j) as N3'.
  { intros j Hj. by rewrite N3, decide_False, N2. }
  assert (whole m3 (L ++ R)) as W3.
  { destruct (core_list _ _ _ W) as [S _ Hh Ht]. split; [|done| |]; [|by rewrite E3, E2..].
    eapply seg_ext; [|done]. intros i Hi. unfold links. rewrite N3'; [done|]. by intros ->. }
  destruct (link_ok m3 L R x W3) as (m4 & m5 & E4 & E5 & W5 & K5 & L5).
  { apply NoDup_app in D as (D & _). rewrite <- Permutation_middle. by apply NoDup_cons. }
  { apply (core_valid_list _ _ _ W). }
  { unfold links. by rewrite N3, decide_True. }
  pose proof (wf_entries _ _ _ _ W) as HE. apply Forall2_app_inv_l in HE as (ls & rs & H1 & H2 & ->).
  exists m2, m3, m4, m5, ls, rs. split_and!; [done..| | |].
  - apply (allocated_intro m m3 m5 L R f ls rs x b key nn); try done.
    + unfold bucket_of. by rewrite N3, decide_True.
    + by rewrite E3, E2.
    + by rewrite E3, E2.
    + by rewrite E3, E2.
    + unfold nodes_size, zlen. by rewrite Len3, E2.
  - rewrite (kept_size _ _ K5), E3, E2. done.
  - rewrite (kept_rate _ _ K5), E3, E2. done.
Qed.

(** The next size of the arrays fits into their index type. *)
Definition room m : Prop :=
  size_ m < max_nodes /\
  exists scaled, scaled_size (size_ m + 1) (expand_rate_ m) = Some scaled /\ 0 <= scaled < max_nodes.

(** The expansions before the insertion, and the search between them. *)
Lemma alloc_prepare m (l f : list Z) (es : list (K * V)) (key : K) (scaled : Z) :
  wf m l f es -> 0 <= scaled < max_nodes -> size_ m < max_nodes ->
  exists m1 m2 l' x f' es' b,
    (if buckets_size m <? u32 (scaled + 1) then expand_buckets hash_code (u32 (scaled + 1)) m else Some m) = Some m1 /\
    (if free_ m1 =? INVALID then expand_nodes (u32 (nodes_size m1 + 1)) m1 else Some m1) = Some m2 /\
    wf m2 l' (x :: f') es' /\ es' ≡ₚ es /\ 0 < buckets_size m2 /\ b = get_bucket_index_by_key hash_code m2 key /\
    expand_rate_ m2 = expand_rate_ m /\ size_ m2 = size_ m /\
    (((key ∉ es.*1) /\ find_index_and_bucket_idx_by_key hash_code m1 key = Some (INVALID, b)) \/
     ((key ∈ es.*1) /\ exists i, i <> INVALID /\ find_index_and_bucket_idx_by_key hash_code m1 key = Some (i, b))).
Proof.
  intros W Hs Hroom. assert (u32 (scaled + 1) = scaled + 1) as ->.
  { apply wrap_small. unfold in_range, max_nodes in *. lia. }
  destruct (expand_buckets_ok m l f es (scaled + 1) W) as (m1 & l1 & es1 & E1 & W1 & P1 & B1 & N1 & S1 & R1); [lia|].
  assert ((if buckets_size m <? scaled + 1 then expand_buckets hash_code (scaled + 1) m else Some m) = Some m1) as ->.
  { destruct (Z.ltb_spec (buckets_size m) (scaled + 1)); [done|]. unfold expand_buckets in E1.
    by destruct (Z.leb_spec (scaled + 1) (buckets_size m)); [|lia]. }
  assert (exists m2 x f', (if free_ m1 =? INVALID then expand_nodes (u32 (nodes_size m1 + 1)) m1 else Some m1) = Some m2 /\
    wf m2 l1 (x :: f') es1 /\ buckets_ m2 = buckets_ m1 /\ size_ m2 = size_ m1 /\ expand_rate_ m2 = expand_rate_ m1)
    as (m2 & x & f' & E2 & W2 & Eb & Es & Er).
  { pose proof (core_free _ _ _ W1) as C. destruct f as [|x f].
    - cbn in C. rewrite C, Z.eqb_refl.
      assert (nodes_size m1 = size_ m1) as Hns.
      { rewrite (core_size _ _ _ W1). pose proof (core_length _ _ _ W1) as HL. cbn in HL. unfold nodes_size, zlen. lia. }
      assert (u32 (nodes_size m1 + 1) = nodes_size m1 + 1) as ->.
      { apply wrap_small. unfold in_range, max_nodes in *. pose proof (zlen_nonneg (nodes_ m1)). unfold nodes_size in *. lia. }
      destruct (expand_nodes_ok m1 l1 [] es1 (nodes_size m1 + 1) W1) as (m2 & f' & E2 & W2 & _ & Eb & Es & Er & _ & Hf).
      { pose proof (zlen_nonneg (nodes_ m1)). unfold nodes_size in *. lia. }
      destruct f' as [|x f']; [by destruct Hf; [lia|]|]. by exists m2, x, f'.
    - destruct C as [-> _]. destruct (Z.eqb_spec x INVALID) as [->|_].
      + exfalso. apply (core_valid _ _ _ W1). set_solver.
      + by exists m1, x, f. }
  exists m1, m2, l1, x, f', es1, (get_bucket_index_by_key hash_code m1 key).
  assert (buckets_size m2 = buckets_size m1) as Ebs by (unfold buckets_size; by rewrite Eb).
  assert (key ∈ es1.*1 <-> key ∈ es.*1) as Hin by by rewrite P1.
  split_and!; try done; [lia| | | |]; [|by rewrite Er|by rewrite Es|].
  - unfold get_bucket_index_by_key. by rewrite Ebs.
  - destruct (find_ok m1 l1 f es1 key W1) as [[Hn F]|(j & i & v & H1 & H2 & _ & F)].
    + left. rewrite <- Hin. split; [done|]. by destruct (Z.ltb_spec 0 (buckets_size m1)); [|lia].
    + right. rewrite <- Hin. split; [apply list_elem_of_fmap; exists (key, v); split; [done|by eapply list_elem_of_lookup_2]|].
      exists i. split; [|by destruct (Z.ltb_spec 0 (buckets_size m1)); [|lia]].
      intros ->. apply (core_valid_list _ _ _ W1). by eapply list_elem_of_lookup_2.
Qed.

Lemma alloc_ok m (l f : list Z) (es : list (K * V)) (key : K) :
  wf m l f es -> room m ->
  ((key ∈ es.*1) /\ alloc_node_by_key hash_code m key = None) \/
  ((key ∉ es.*1) /\ exists m' x b L R f' ls rs, alloc_node_by_key hash_code m key = Some (m', (x, b)) /\
     allocated m' L R f' ls rs x key /\ ls ++ rs ≡ₚ es /\ size_ m' = size_ m /\ expand_rate_ m' = expand_rate_ m).
Proof.
  intros W (Hsize & scaled & Hsc & Hs). unfold alloc_node_by_key.
  assert (u32 (size_ m + 1) = size_ m + 1) as ->.
  { apply wrap_small. rewrite (core_size _ _ _ W) in *. pose proof (zlen_nonneg l). unfold in_range, max_nodes in *. lia. }
  rewrite Hsc. cbn [mbind option_bind].
  destruct (alloc_prepare m l f es key scaled W Hs Hsize)
    as (m1 & m2 & l' & x & f' & es' & b & -> & E2 & W2 & P2 & B2 & Eb & R2 & S2 & [[Hk F]|(Hk & i & Hi & F)]);
    cbn [mbind option_bind]; rewrite F; cbn [mbind option_bind].
  - right. split; [done|]. rewrite Z.eqb_refl. cbn [negb]. rewrite E2. cbn [mbind option_bind].
    pose proof (bucket_index_range (buckets_size m2) (hash_code key) (conj B2 (wf_buckets _ _ _ _ W2))) as Hb.
    fold (get_bucket_index_by_key hash_code m2 key) in Hb. rewrite <- Eb in Hb.
    destruct (at_index_is_Some (buckets_ m2) b Hb) as [first Hf]. rewrite Hf. cbn [mbind option_bind].
    destruct (insertion_point m2 l' (x :: f') es' b first W2 Hf) as (L & R & -> & Ef & Hp & HG).
    rewrite Hp. cbn [mbind option_bind].
    destruct (core_free _ _ _ W2) as [-> _].
    assert (exists nn, node_at m2 x = Some nn) as [nn N].
    { apply at_index_is_Some, (core_index _ _ _ W2). set_solver. }
    rewrite N. cbn [mbind option_bind].
    destruct (place_new m2 L R f' es' x b first key nn W2) as (m3 & m4 & m5 & m6 & ls & rs & E3 & E4 & E5 & E6 & -> & A & S6 & R6);
      [by rewrite P2|done..|].
    rewrite E3. cbn [mbind option_bind]. unfold new_links in E4. subst first. rewrite E4. cbn [mbind option_bind].
    rewrite E5. cbn [mbind option_bind]. rewrite E6. cbn [mbind option_bind].
    exists m6, x, b, L, R, f', ls, rs. split_and!; [done|done|done|congruence|congruence].
  - left. split; [done|]. by destruct (Z.eqb_spec i INVALID).
Qed.

(** Only the entry of node [i] is written. *)
Lemma upd_entry_ok m (i : Z) (e : option (K * V)) :
  0 <= i < nodes_size m ->
  exists m', upd_node i (set_entry e) m = Some m' /\ (forall j, links m' j = links m j) /\
    (forall j, bucket_of m' j = bucket_of m j) /\
    (forall j, entry_of m' j = if decide (j = i) then e else entry_of m j) /\
    m' = set_nodes (nodes_ m') m /\ length (nodes_ m') = length (nodes_ m).
Proof.
  intros Hi. destruct (at_index_is_Some _ _ Hi) as [n N]. fold (node_at m i) in N.
  destruct (upd_node_ok i (set_entry e) m n N) as (m' & U & N' & E & L).
  exists m'. split; [done|].
  split_and!; [| | |done|done]; intros j; unfold links, entry_of, bucket_of; rewrite N';
    destruct (decide (j = i)) as [->|]; rewrite ?N; done.
Qed.

Lemma core_rest m m' (l f : list Z) :
  core m l f -> (forall j, links m' j = links m j) -> head_ m' = head_ m -> tail_ m' = tail_ m ->
  free_ m' = free_ m -> size_ m' = size_ m -> length (nodes_ m') = length (nodes_ m) -> core m' l f.
Proof.
  intros [[S _ H T] HF HC HS HN] L Eh Et Ef Es Len. split; [split| | | |].
  - eapply seg_ext; [|done]. intros; apply L.
  - done.
  - by rewrite Eh.
  - by rewrite Et.
  - rewrite Ef. eapply chain_ext; [|done]. intros j _. unfold next_of. by rewrite L.
  - unfold nodes_size, zlen. by rewrite Len.
  - by rewrite Es.
  - unfold nodes_size, zlen. by rewrite Len.
Qed.

Lemma fill_ok m (L R f : list Z) (ls rs : list (K * V)) (x : Z) (key : K) (v : V) :
  allocated m L R f ls rs x key ->
  exists m', upd_node x (set_entry (Some (key, v))) m = Some m' /\
    wf (set_size (u32 (size_ m' + 1)) m') (L ++ x :: R) f (ls ++ (key, v) :: rs) /\
    entry_of m' x = Some (key, v) /\ size_ m' = size_ m /\ u32 (size_ m' + 1) = size_ m + 1 /\
    expand_rate_ m' = expand_rate_ m.
Proof.
  intros [Hl HF HC HS HN HB H1 H2 Hbk HK HG].
  assert (NoDup ((L ++ x :: R) ++ f)) as D by (rewrite HC; apply NoDup_seqZ).
  assert (0 <= x < nodes_size m) as Hx.
  { cut (x ∈ seqZ 0 (nodes_size m)); [rewrite elem_of_seqZ; lia|]. rewrite <- HC. set_solver. }
  apply NoDup_app in D as (D & _). rewrite <- Permutation_middle in D. apply NoDup_cons in D as [D _].
  destruct (upd_entry_ok m x (Some (key, v)) Hx) as (m' & U & L' & B' & E' & Er & Len). exists m'. split; [done|].
  assert (size_ m' = size_ m) as Es by by rewrite Er.
  assert (buckets_ m' = buckets_ m) as Ebs by by rewrite Er.
  assert (zlen (L ++ x :: R) = size_ m + 1 /\ u32 (size_ m + 1) = size_ m + 1) as [Hz Hu].
  { assert (zlen (L ++ x :: R) + zlen f = nodes_size m) as Hn.
    { unfold zlen. rewrite <- Nat2Z.inj_add, <- length_app, HC, length_seqZ. unfold nodes_size, zlen. lia. }
    rewrite HS, !zlen_app, !zlen_cons in *. pose proof (zlen_nonneg L). pose proof (zlen_nonneg R). pose proof (zlen_nonneg f).
    split; [lia|]. apply wrap_small. unfold in_range, max_nodes in *. lia. }
  assert (forall i e, i ∈ L ++ R -> holds m i e -> holds (set_size (u32 (size_ m' + 1)) m') i e) as HH.
  { intros i e Hi [A1 A2]. unfold holds.
    change (entry_of (set_size _ m') i) with (entry_of m' i). change (bucket_of (set_size _ m') i) with (bucket_of m' i).
    rewrite E', decide_False by (intros ->; done). rewrite B'. split; [done|].
    unfold get_bucket_index_by_key, buckets_size in *. cbn. by rewrite Ebs. }
  split_and!; [|by rewrite E', decide_True|done|by rewrite Es|by rewrite Er].
  split; [| | | | |right].
  - assert (core (set_size (zlen (L ++ x :: R)) m) (L ++ x :: R) f) as C by (destruct Hl; split; [split|..]; done).
    eapply core_rest; [exact C|exact L'|by rewrite Er..| |exact Len]. cbn. by rewrite Es, Hu.
  - unfold buckets_size. cbn. rewrite Ebs. apply HB.
  - apply Forall2_app; [|constructor].
    + eapply Forall2_holds_impl; [|exact H1]. intros i e Hi. apply HH. set_solver.
    + split; [change (entry_of m' x = Some (key, v)); by rewrite E', decide_True|].
      change (bucket_of m' x = get_bucket_index_by_key hash_code m' key). rewrite B', Hbk.
      unfold get_bucket_index_by_key, buckets_size. by rewrite Ebs.
    + eapply Forall2_holds_impl; [|exact H2]. intros i e Hi. apply HH. set_solver.
  - rewrite fmap_app, fmap_cons, <- Permutation_middle. by rewrite fmap_app in HK.
  - cbn. rewrite Ebs. intros b first Hf. eapply group_of_ext; [|by apply HG]. intros i _. apply B'.
  - unfold buckets_size. cbn. rewrite Ebs. apply HB.
Qed.

Lemma add_ok m (l f : list Z) (es : list (K * V)) (key : K) (v : V) :
  wf m l f es -> room m ->
  ((key ∈ es.*1) /\ add hash_code m key v = None) \/
  ((key ∉ es.*1) /\ exists m' it L R f' ls rs, add hash_code m key v = Some (m', it) /\
     wf m' (L ++ it.1 :: R) f' (ls ++ (key, v) :: rs) /\ length L = length ls /\ ls ++ rs ≡ₚ es /\
     size_ m' = size_ m + 1 /\ expand_rate_ m' = expand_rate_ m).
Proof.
  intros W HR. unfold add. destruct (alloc_ok m l f es key W HR)
    as [[Hk E]|(Hk & m1 & x & b & L & R & f' & ls & rs & E & A & P & S1 & R1)]; rewrite E; cbn [mbind option_bind].
  - by left.
  - right. split; [done|]. destruct (fill_ok m1 L R f' ls rs x key v A) as (m2 & U & W2 & E2 & S2 & U2 & R2).
    cbn [fst]. rewrite U. cbn [mbind option_bind].
    eexists _, (x, b), L, R, f', ls, rs. split_and!; [done|exact W2| |done| |].
    + exact (Forall2_length _ _ _ (al_front _ _ _ _ _ _ _ _ A)).
    + cbn. by rewrite U2, S1.
    + cbn. by rewrite R2.
Qed.

(** The value of an entry is overwritten. *)
Lemma overwrite_ok m (A B f : list Z) (ls rs : list (K * V)) (x : Z) (key : K) (v v' : V) :
  wf m (A ++ x :: B) f (ls ++ (key, v) :: rs) -> length A = length ls ->
  exists m', upd_node x (set_entry (Some (key, v'))) m = Some m' /\
    wf m' (A ++ x :: B) f (ls ++ (key, v') :: rs) /\ size_ m' = size_ m /\ expand_rate_ m' = expand_rate_ m.
Proof.
  intros W Hlen. pose proof (core_NoDup_list _ _ _ W) as D. rewrite <- Permutation_middle in D.
  apply NoDup_cons in D as [Hx _].
  destruct (upd_entry_ok m x (Some (key, v'))) as (m' & U & L' & B' & E' & Er & Len).
  { apply (core_index _ _ _ W). set_solver. }
  pose proof (wf_entries _ _ _ _ W) as HF. apply Forall2_app_inv in HF as [HF1 HF2]; [|done].
  apply Forall2_cons in HF2 as [[_ Hbk] HF2].
  assert (buckets_ m' = buckets_ m) as Eb by by rewrite Er.
  assert (forall i e, i ∈ A ++ B -> holds m i e -> holds m' i e) as HH.
  { intros i e Hi [A1 A2]. split.
    - by rewrite E', decide_False by (by intros ->).
    - rewrite B', A2. unfold get_bucket_index_by_key, buckets_size. by rewrite Eb. }
  exists m'. split_and!; [done| |by rewrite Er|by rewrite Er].
  split.
  - eapply core_rest; [apply W|exact L'|by rewrite Er..|exact Len].
  - unfold buckets_size. rewrite Eb. apply W.
  - apply Forall2_app; [|constructor].
    + eapply Forall2_holds_impl; [|exact HF1]. intros i e Hi. apply HH. set_solver.
    + split; [by rewrite E', decide_True|]. rewrite B'. unfold get_bucket_index_by_key, buckets_size in *. by rewrite Eb.
    + eapply Forall2_holds_impl; [|exact HF2]. intros i e Hi. apply HH. set_solver.
  - pose proof (wf_keys _ _ _ _ W) as HK. by rewrite fmap_app in HK |- *.
  - rewrite Eb. intros b first Hf. eapply group_of_ext; [|by apply (wf_groups _ _ _ _ W)]. intros i _. apply B'.
  - unfold buckets_size. rewrite Eb. apply W.
Qed.

(** ** Iteration *)

Lemma entries_loop_ok m (p : Z) (l : list Z) (es : list (K * V)) (fuel : nat) :
  seg (links m) p l INVALID -> INVALID ∉ l -> Forall2 (fun i e => entry_of m i = Some e) l es ->
  (length l <= fuel)%nat -> entries_loop fuel m (List.hd INVALID l) = Some es.
Proof.
  intros S I H. revert p fuel S I. induction H as [|i e l es Hi H IH]; intros p fuel S I Hf.
  - by destruct fuel.
  - destruct fuel as [|fuel]; [cbn in Hf; lia|]. cbn [List.hd entries_loop].
    destruct (Z.eqb_spec i INVALID); [set_solver|]. apply node_entry in Hi as (nd & N & E).
    rewrite N. cbn [mbind option_bind]. rewrite E. cbn [mbind option_bind]. destruct S as [L S].
    destruct (node_next _ _ _ _ _ N L) as [-> _]. rewrite (IH i fuel); [done|done|set_solver|cbn in Hf; lia].
Qed.

Lemma entries_ok m (l f : list Z) (es : list (K * V)) : wf m l f es -> entries m = Some es.
Proof.
  intros W. unfold entries. pose proof (core_list _ _ _ W) as [S _ H _]. rewrite H.
  eapply entries_loop_ok; [done|apply (core_valid_list _ _ _ W)| |].
  - eapply Forall2_impl; [apply W|]. by intros ?? [].
  - pose proof (core_length _ _ _ W). lia.
Qed.

(** ** Removal *)

Lemma NoDup_split_unique (A B C D : list Z) (x : Z) :
  NoDup (A ++ x :: B) -> A ++ x :: B = C ++ x :: D -> A = C /\ B = D.
Proof.
  revert C. induction A as [|a A IH]; intros C HD E; destruct C as [|c C]; cbn in *.
  - by injection E.
  - injection E as <- ->. apply NoDup_cons in HD as [HD _]. set_solver.
  - injection E as -> <-. apply NoDup_cons in HD as [HD _]. set_solver.
  - injection E as <- E. apply NoDup_cons in HD as [_ HD]. by destruct (IH C HD E) as [-> ->].
Qed.

(** The next node is of the bucket when the bucket has one. *)
Lemma next_same_bucket m (G B : list Z) (b : Z) :
  INVALID ∉ G ++ B -> (forall i, i ∈ G ++ B -> is_Some (node_at m i)) ->
  (forall i, i ∈ G -> bucket_of m i = b) -> (forall i, i ∈ B -> bucket_of m i <> b) ->
  exists same : bool,
    (if negb (List.hd INVALID (G ++ B) =? INVALID) then
       n ← node_at m (List.hd INVALID (G ++ B)); Some (n_bucket n =? b) else Some false) = Some same /\
    (if same then List.hd INVALID (G ++ B) else INVALID) = List.hd INVALID G.
Proof.
  intros I HN HG HB. destruct (G ++ B) as [|y r] eqn:Er; cbn [List.hd].
  { exists false. by apply app_nil in Er as [-> ->]. }
  destruct (Z.eqb_spec y INVALID) as [|_]; [set_solver|]. cbn [negb].
  destruct (HN y ltac:(set_solver)) as [n N]. rewrite N. cbn [mbind option_bind]. eexists. split; [done|].
  rewrite <- (node_bucket _ _ _ N). destruct G as [|y2 G]; cbn in Er.
  - subst B. destruct (Z.eqb_spec (bucket_of m y) b) as [Ey|]; [|done]. exfalso. apply (HB y); [set_solver|done].
  - injection Er as -> _. by rewrite HG, Z.eqb_refl by set_solver.
Qed.

Lemma unbucket_ok m (A B : list Z) (x : Z) :
  grouped (bucket_of m) (buckets_ m) (A ++ x :: B) -> NoDup (A ++ x :: B) -> INVALID ∉ A ++ x :: B ->
  (forall i, i ∈ B -> is_Some (node_at m i)) -> 0 <= bucket_of m x < buckets_size m ->
  exists m', unbucket x (bucket_of m x) (List.hd INVALID B) m = Some m' /\
    m' = set_buckets (buckets_ m') m /\ length (buckets_ m') = length (buckets_ m) /\
    grouped (bucket_of m) (buckets_ m') (A ++ B).
Proof.
  intros HG D I HN Hb. unfold unbucket.
  destruct (at_index_is_Some (buckets_ m) (bucket_of m x) Hb) as [first Hf]. rewrite Hf. cbn [mbind option_bind].
  destruct (HG _ _ Hf) as (A' & G & B' & E & HG1 & HAB & ->).
  assert (x ∈ G) as Hx.
  { cut (x ∈ A' ++ G ++ B'); [|rewrite <- E; set_solver]. intros Hi.
    destruct (decide (x ∈ A' ++ B')) as [Hi'|]; [by destruct (HAB x Hi')|set_solver]. }
  apply list_elem_of_split in Hx as (G1 & G2 & ->).
  assert (A' ++ (G1 ++ x :: G2) ++ B' = (A' ++ G1) ++ x :: (G2 ++ B')) as E' by (by rewrite <- !app_assoc).
  rewrite E' in E. destruct (NoDup_split_unique _ _ _ _ _ D E) as [-> ->]. clear E E'.
  destruct G1 as [|g G1]; cbn [app List.hd] in *.
  - rewrite Z.eqb_refl. rewrite app_nil_r in *.
    destruct (next_same_bucket m G2 B' (bucket_of m x)) as (same & -> & Es);
      [set_solver|done|set_solver|set_solver|].
    cbn [mbind option_bind]. rewrite Es. unfold set_bucket_value. rewrite Hf. cbn [mbind option_bind].
    eexists. split_and!; [done|done|cbn; by rewrite length_insert|]. cbn.
    intros b' f' Hb'. rewrite (at_index_insert _ _ _ _ _ Hf) in Hb'. destruct (decide (b' = bucket_of m x)) as [->|Hne].
    + injection Hb' as <-. exists A', G2, B'. split_and!; [done|set_solver|done|done].
    + eapply group_remove_other; [by apply HG|done].
  - destruct (Z.eqb_spec x g) as [->|_].
    { exfalso. apply NoDup_app in D as (_ & D & _). apply (D g); set_solver. }
    exists m. split_and!; [done|by destruct m|done|]. intros b' f' Hb'.
    destruct (decide (b' = bucket_of m x)) as [->|Hne].
    + rewrite Hf in Hb'. injection Hb' as <-. exists A', (g :: G1 ++ G2), B'.
      split_and!; [cbn; by rewrite <- !app_assoc| |done|done]. intros i Hi. apply HG1. set_solver.
    + eapply group_remove_other; [by apply HG|done].
Qed.

(** The node goes to the front of the free list, without its entry. *)
Record released m m' (x : Z) : Prop := {
  rl_links : forall j, j <> x -> links m' j = links m j;
  rl_next : next_of m' x = Some (free_ m);
  rl_bucket : forall j, bucket_of m' j = bucket_of m j;
  rl_entry : forall j, j <> x -> entry_of m' j = entry_of m j;
  rl_buckets : buckets_ m' = buckets_ m;
  rl_head : head_ m' = head_ m;
  rl_tail : tail_ m' = tail_ m;
  rl_free : free_ m' = x;
  rl_size : size_ m' = u32 (size_ m - 1);
  rl_rate : expand_rate_ m' = expand_rate_ m;
  rl_nodes : length (nodes_ m') = length (nodes_ m) }.

Lemma release_steps m (x : Z) :
  0 <= x < nodes_size m ->
  exists m1 m2, upd_node x (set_next (free_ m)) m = Some m1 /\
    upd_node x (set_entry None) (set_size (u32 (size_ m1 - 1)) (set_free x m1)) = Some m2 /\ released m m2 x.
Proof.
  intros Hx. destruct (at_index_is_Some (nodes_ m) x Hx) as [n N]. fold (node_at m x) in N.
  destruct (upd_link_ok x (set_next (free_ m)) m n N) as (m1 & U1 & L1 & H1 & T1 & K1); [done|].
  destruct (upd_entry_ok (set_size (u32 (size_ m1 - 1)) (set_free x m1)) x None) as (m2 & U2 & L2 & B2 & E2 & R2 & Len2).
  { unfold nodes_size, zlen. cbn. rewrite (kept_nodes _ _ K1). apply Hx. }
  exists m1, m2. split_and!; [done|done|]. split; try (rewrite R2; cbn; apply K1).
  - intros j Hj. rewrite L2. change (links m1 j = links m j). by rewrite L1, decide_False.
  - unfold next_of. rewrite L2. change (snd <$> links m1 x = Some (free_ m)). by rewrite L1, decide_True.
  - intros j. rewrite B2. apply (kept_bucket _ _ K1).
  - intros j Hj. rewrite E2, decide_False by done. apply (kept_entry _ _ K1).
  - by rewrite R2.
  - by rewrite R2.
  - by rewrite R2.
  - rewrite R2. cbn. by rewrite (kept_size _ _ K1).
  - rewrite Len2. apply (kept_nodes _ _ K1).
Qed.

(** The map before and after the removal of the node [x] with the entry of [k]. *)
Record unlinked m m' (A B : list Z) : Prop := {
  un_list : whole m' (A ++ B);
  un_free : free_ m' = free_ m;
  un_size : size_ m' = size_ m;
  un_rate : expand_rate_ m' = expand_rate_ m;
  un_nodes : length (nodes_ m') = length (nodes_ m);
  un_buckets : length (buckets_ m') = length (buckets_ m);
  un_links : forall i, i ∉ A ++ B -> links m' i = links m i;
  un_bucket : forall i, bucket_of m' i = bucket_of m i;
  un_entry : forall i, entry_of m' i = entry_of m i;
  un_groups : grouped (bucket_of m') (buckets_ m') (A ++ B) }.

Lemma release_core m m3 m5 (A B f : list Z) (x : Z) :
  core m (A ++ x :: B) f -> unlinked m m3 A B -> released m3 m5 x ->
  core m5 (A ++ B) (x :: f) /\ size_ m5 = size_ m - 1.
Proof.
  intros C U R. pose proof (core_NoDup_list _ _ _ C) as D. rewrite <- Permutation_middle in D.
  apply NoDup_cons in D as [Hx D]. pose proof (core_disjoint _ _ _ C x ltac:(set_solver)) as Hxf.
  assert (size_ m5 = size_ m - 1 /\ size_ m - 1 = zlen (A ++ B)) as [Hs Hz].
  { rewrite (rl_size _ _ _ R), (un_size _ _ _ _ U), (core_size _ _ _ C).
    assert (zlen (A ++ x :: B) = zlen (A ++ B) + 1) as -> by (rewrite !zlen_app, zlen_cons; lia).
    pose proof (core_length _ _ _ C). pose proof (core_nodes _ _ _ C). split; [|lia]. rewrite Z.add_simpl_r.
    apply wrap_small. rewrite !length_app in *. cbn [length] in *. unfold in_range, nodes_size, max_nodes, zlen in *.
    rewrite length_app. lia. }
  split; [|done]. split.
  - destruct (un_list _ _ _ _ U) as [S _ Hh Ht].
    split; [|done|by rewrite (rl_head _ _ _ R)|by rewrite (rl_tail _ _ _ R)].
    eapply seg_ext; [|done]. intros i Hi. apply (rl_links _ _ _ R). by intros ->.
  - rewrite (rl_free _ _ _ R). split; [done|]. exists (free_ m3). split; [apply R|]. rewrite (un_free _ _ _ _ U).
    eapply chain_ext; [|apply C]. intros i Hi. unfold next_of. rewrite (rl_links _ _ _ R) by (by intros ->).
    rewrite (un_links _ _ _ _ U); [done|]. intros Hi'. apply (core_disjoint _ _ _ C i); [set_solver|done].
  - unfold nodes_size, zlen. rewrite (rl_nodes _ _ _ R), (un_nodes _ _ _ _ U).
    fold (zlen (nodes_ m)). fold (nodes_size m). rewrite <- (core_cover _ _ _ C). solve_Permutation.
  - by rewrite Hs.
  - unfold nodes_size, zlen. rewrite (rl_nodes _ _ _ R), (un_nodes _ _ _ _ U). apply C.
Qed.

Lemma release_ok m m3 m5 (A B f : list Z) (ls rs : list (K * V)) (x : Z) (k : K) (v : V) :
  wf m (A ++ x :: B) f (ls ++ (k, v) :: rs) -> length A = length ls -> unlinked m m3 A B -> released m3 m5 x ->
  wf m5 (A ++ B) (x :: f) (ls ++ rs) /\ size_ m5 = size_ m - 1.
Proof.
  intros W Hlen U R. destruct (release_core _ _ _ _ _ _ _ (wf_core _ _ _ _ W) U R) as [C Hs]. split; [|done].
  pose proof (core_NoDup_list _ _ _ W) as D. rewrite <- Permutation_middle in D. apply NoDup_cons in D as [Hx D].
  pose proof (wf_entries _ _ _ _ W) as HF. apply Forall2_app_inv in HF as [HF1 HF2]; [|done].
  apply Forall2_cons in HF2 as [_ HF2].
  assert (buckets_size m5 = buckets_size m) as Eb.
  { unfold buckets_size, zlen. by rewrite (rl_buckets _ _ _ R), (un_buckets _ _ _ _ U). }
  assert (forall i, bucket_of m5 i = bucket_of m i) as Ebk.
  { intros i. by rewrite (rl_bucket _ _ _ R), (un_bucket _ _ _ _ U). }
  assert (forall i e, i ∈ A ++ B -> holds m i e -> holds m5 i e) as HH.
  { intros i e Hi [A1 A2]. split.
    - rewrite (rl_entry _ _ _ R) by (by intros ->). by rewrite (un_entry _ _ _ _ U).
    - rewrite Ebk, A2. unfold get_bucket_index_by_key. by rewrite Eb. }
  split; [done|rewrite Eb; apply W| | | |rewrite Eb].
  - apply Forall2_app.
    + eapply Forall2_holds_impl; [|exact HF1]. intros i e Hi. apply HH. set_solver.
    + eapply Forall2_holds_impl; [|exact HF2]. intros i e Hi. apply HH. set_solver.
  - pose proof (wf_keys _ _ _ _ W) as HK. rewrite fmap_app, fmap_cons, <- Permutation_middle in HK.
    apply NoDup_cons in HK as [_ HK]. by rewrite fmap_app.
  - rewrite (rl_buckets _ _ _ R). intros b first Hf. eapply group_of_ext; [|by apply (un_groups _ _ _ _ U)].
    intros i _. apply (rl_bucket _ _ _ R).
  - right. by destruct (wf_hashed _ _ _ _ W) as [E|]; [apply app_nil in E as [_ ?]|].
Qed.

Lemma unbucketed_same m m' :
  m' = set_buckets (buckets_ m') m ->
  size_ m' = size_ m /\ head_ m' = head_ m /\ tail_ m' = tail_ m /\ free_ m' = free_ m /\
  expand_rate_ m' = expand_rate_ m /\ nodes_ m' = nodes_ m /\ (forall i, links m' i = links m i) /\
  (forall i, bucket_of m' i = bucket_of m i) /\ (forall i, entry_of m' i = entry_of m i).
Proof. intros E. by rewrite E. Qed.

(** An entry that a legal iterator points to is removed; the order of the others stays. *)
Lemma erase_ok m (A B f : list Z) (ls rs : list (K * V)) (x : Z) (k : K) (v : V) :
  wf m (A ++ x :: B) f (ls ++ (k, v) :: rs) -> length A = length ls ->
  exists m', erase m (x, bucket_of m x) = Some (true, m') /\
    wf m' (A ++ B) (x :: f) (ls ++ rs) /\ size_ m' = size_ m - 1 /\ expand_rate_ m' = expand_rate_ m.
Proof.
  intros W Hlen. pose proof (core_list _ _ _ W) as Wl. pose proof (core_NoDup_list _ _ _ W) as D.
  pose proof (core_valid_list _ _ _ W) as I. destruct (unlink_ok m A B x Wl D I) as (Lx & m1 & m2 & E1 & E2 & W2 & K2 & L2).
  apply links_node in Lx as (n & N & Hp & Hq).
  assert (0 <= x < nodes_size m) as Hx by (apply (core_index _ _ _ W); set_solver).
  unfold erase, iterator_legal_check. rewrite N. cbn [fmap option_fmap option_map]. rewrite (node_bucket _ _ _ N).
  rewrite bool_decide_eq_true_2 by done. destruct (Z.eqb_spec x INVALID) as [->|_]; [set_solver|].
  destruct (Z.ltb_spec x (nodes_size m)); [|lia]. cbn [negb andb mbind option_bind].
  rewrite Hp, Hq, E1. cbn [mbind option_bind]. rewrite E2. cbn [mbind option_bind].
  pose proof (wf_entries _ _ _ _ W) as HF. apply Forall2_app_inv in HF as [_ HF]; [|done].
  apply Forall2_cons in HF as [[_ Hbk] _].
  destruct (unbucket_ok m2 A B x) as (m3 & E3 & Er & Lb & HG).
  - intros b first. rewrite (kept_buckets _ _ K2). intros Hf. eapply group_of_ext; [|by apply (wf_groups _ _ _ _ W)].
    intros i _. apply (kept_bucket _ _ K2).
  - done.
  - done.
  - intros i Hi. apply at_index_is_Some. 
    assert (0 <= i < nodes_size m) as Hi' by (apply (core_index _ _ _ W); set_solver).
    unfold nodes_size, zlen in *. by rewrite (kept_nodes _ _ K2).
  - rewrite (kept_bucket _ _ K2), Hbk. unfold buckets_size. rewrite (kept_buckets _ _ K2).
    apply bucket_index_range. split; [|apply W]. by destruct (wf_hashed _ _ _ _ W) as [E|]; [apply app_nil in E as [_ ?]|].
  - rewrite (kept_bucket _ _ K2), (node_bucket _ _ _ N) in E3. rewrite E3. cbn [mbind option_bind].
    destruct (release_steps m3 x) as (m4 & m5 & E4 & E5 & R).
    { rewrite Er. unfold nodes_size, zlen in *. cbn. by rewrite (kept_nodes _ _ K2). }
    rewrite E4. cbn [mbind option_bind]. rewrite E5. cbn [mbind option_bind]. exists m5. split; [done|].
    assert (unlinked m m3 A B) as U.
    { destruct (unbucketed_same m2 m3 Er) as (U1 & U2 & U3 & U4 & U5 & U6 & U7 & U8 & U9). destruct K2. split.
      - destruct W2 as [S S' Hh Ht]. split; [|done|congruence|congruence].
        eapply seg_ext; [|done]. intros; apply U7.
      - congruence.
      - congruence.
      - congruence.
      - congruence.
      - congruence.
      - intros i Hi. rewrite U7. by apply L2.
      - intros i. by rewrite U8.
      - intros i. by rewrite U9.
      - intros b first Hf. eapply group_of_ext; [|by apply HG]. intros i _. apply U8. }
    destruct (release_ok _ _ _ _ _ _ _ _ _ _ _ W Hlen U R) as [W5 S5]. split_and!; [done|done|].
    by rewrite (rl_rate _ _ _ R), (un_rate _ _ _ _ U).
Qed.

(** ** Emptying a map *)

Lemma empty_wf m :
  head_ m = INVALID -> tail_ m = INVALID -> size_ m = 0 -> nodes_size m <= max_nodes -> buckets_size m <= max_nodes ->
  (forall b first, at_index (buckets_ m) b = Some first -> first = INVALID) ->
  chain (next_of m) (free_ m) (seqZ 0 (nodes_size m)) -> wf m [] (seqZ 0 (nodes_size m)) [].
Proof.
  intros Hh Ht Hs Hn Hb HB HC. split; [split; [by split|done..]|done|constructor|constructor| |by left].
  intros b first Hf. exists [], [], []. split_and!; [done|set_solver|set_solver|by eapply HB].
Qed.

Lemma bare_wf m :
  buckets_ m = [] -> nodes_ m = [] -> size_ m = 0 -> head_ m = INVALID -> tail_ m = INVALID -> free_ m = INVALID ->
  wf m [] [] [].
Proof.
  intros Eb En Es Eh Et Ef. assert (nodes_size m = 0 /\ buckets_size m = 0) as [E1 E2].
  { unfold nodes_size, buckets_size. by rewrite En, Eb. }
  replace (wf m [] [] []) with (wf m [] (seqZ 0 (nodes_size m)) []) by by rewrite E1.
  apply empty_wf; [done|done|done|unfold max_nodes; lia|unfold max_nodes; lia| |by rewrite E1, Ef].
  rewrite Eb. intros b first H. apply at_index_range in H. change (zlen []) with 0 in H. cbn in H. lia.
Qed.

Lemma clear_nodes_chain m (ns : list (value_node (K := K) (V := V))) :
  nodes_ m = map (fun p : nat * value_node (K := K) (V := V) => mk_node INVALID
                  (if (Datatypes.S p.1 <? length ns)%nat then Z.of_nat p.1 + 1 else INVALID) (n_bucket p.2) None)
               (imap (fun i nd => (i, nd)) ns) ->
  chain (next_of m) (if (0 <? length ns)%nat then 0 else INVALID) (seqZ 0 (zlen ns)).
Proof.
  intros E. unfold zlen. rewrite <- seqZ_map.
  assert (forall d k, (k + d = length ns)%nat ->
    chain (next_of m) (if (k <? length ns)%nat then Z.of_nat k else INVALID) (map (fun k => 0 + Z.of_nat k) (seq k d))) as G.
  { induction d as [|d IH]; intros k Hk.
    - destruct (Nat.ltb_spec k (length ns)); [lia|]. done.
    - destruct (Nat.ltb_spec k (length ns)) as [Hlt|]; [|lia]. cbn [seq map]. split; [lia|].
      eexists. split; [|apply (IH (Datatypes.S k)); lia].
      destruct (lookup_lt_is_Some_2 ns k Hlt) as [nd Hnd].
      unfold next_of, links, node_at. rewrite E. unfold at_index, zlen. rewrite length_map, length_imap.
      rewrite (proj2 (andb_true_iff _ _)) by lia. rewrite Z.add_0_l, Nat2Z.id, list_lookup_fmap, list_lookup_imap, Hnd.
      cbn [fmap option_fmap option_map fst snd n_next]. by rewrite Nat2Z.inj_succ, Z.add_1_r. }
  specialize (G (length ns) 0%nat eq_refl). by destruct ns.
Qed.

Lemma clear_ok m (l f : list Z) (es : list (K * V)) :
  wf m l f es -> exists m', clear m = Some m' /\ wf m' [] (seqZ 0 (nodes_size m')) [] /\
    buckets_size m' = buckets_size m /\ nodes_size m' = nodes_size m /\ expand_rate_ m' = expand_rate_ m.
Proof.
  intros W. unfold clear. rewrite (entries_ok _ _ _ _ W). cbn [mbind option_bind]. eexists. split; [done|].
  remember (mk_map _ _ _ _ _ _ _) as m' eqn:E.
  assert (nodes_size m' = nodes_size m /\ buckets_size m' = buckets_size m) as [En Eb].
  { rewrite E. unfold nodes_size, buckets_size, zlen. cbn. by rewrite length_map, length_imap, length_replicate. }
  split_and!; [|done|done|by rewrite E]. apply (empty_wf m').
  - by rewrite E.
  - by rewrite E.
  - by rewrite E.
  - rewrite En. apply W.
  - rewrite Eb. apply W.
  - rewrite E. cbn. intros b first. apply at_index_replicate.
  - rewrite En. replace (free_ m') with (if (0 <? length (nodes_ m))%nat then 0 else INVALID) by by rewrite E.
    apply clear_nodes_chain. by rewrite E.
Qed.

Lemma reset_ok m (l f : list Z) (es : list (K * V)) :
  wf m l f es -> exists m', reset m = Some m' /\ wf m' [] [] [] /\ expand_rate_ m' = expand_rate_ m.
Proof.
  intros W. unfold reset. rewrite (entries_ok _ _ _ _ W). cbn [mbind option_bind]. eexists. split; [done|].
  split; [|done].
  by apply bare_wf.
Qed.

Lemma empty_map_wf : wf empty_map [] [] [].
Proof. by apply bare_wf. Qed.

Lemma new_map_ok (n : Z) :
  n <= max_nodes -> exists m f, new_map hash_code n = Some m /\ wf m [] f [] /\ expand_rate_ m = default_rate.
Proof.
  intros Hn. unfold new_map.
  destruct (expand_buckets_ok _ _ _ _ n empty_map_wf Hn) as (m1 & l1 & es1 & -> & W1 & P1 & _ & N1 & S1 & R1).
  apply Permutation_nil_r in P1. subst es1. cbn [mbind option_bind].
  destruct (expand_nodes_ok m1 l1 [] [] (buckets_size m1) W1) as (m2 & f2 & -> & W2 & _ & _ & _ & R2 & _); [apply W1|].
  pose proof (wf_entries _ _ _ _ W2) as HF. apply Forall2_nil_inv_r in HF. subst l1.
  exists m2, f2. split_and!; [done|done|]. by rewrite R2, R1.
Qed.

End HashMapTheorems.
