(* ===== verification/HashMapSpec.v ===== *)
(** * The hash map as a finite map

    The abstract specification of the hash map is a finite map [gmap K V]. [represents m M]
    relates the two; the operations of [hash_map_impl.hpp] refine those of the finite map,
    for sequences of operations within a number of entries whose array sizes the code can
    compute ([capacity]). Iteration, the rehash and copies end and keep the entries. *)
From stdpp Require Import base list option numbers gmap fin_maps.
From Stdlib Require Import ZArith Lia SpecFloat.
From S2P Require Import Prelude Memory Floats BufferDefs HashMap HashMapList HashMapTheorems.

Section HashMapSpec.
Context {K V : Type} `{Countable K}.
Variable hash_code : K -> Z.
Implicit Types m : hash_map (K := K) (V := V).
Implicit Types M : gmap K V.

Abbreviation entry_list := (list (K * V)).

(** ** The representation *)

Definition represents m M : Prop :=
  exists l f es, wf hash_code m l f es /\ list_to_map es = M.

(** The arrays for up to [n] entries fit into the index type at this expansion rate. *)
Definition capacity (n : Z) (rate : spec_float) : Prop :=
  n <= max_nodes /\
  forall i, 0 <= i < n -> exists scaled, scaled_size (i + 1) rate = Some scaled /\ 0 <= scaled < max_nodes.

Definition capacityb (n : Z) (rate : spec_float) : bool :=
  (n <=? max_nodes) &&
  forallb (fun i => match scaled_size (i + 1) rate with
                    | Some scaled => (0 <=? scaled) && (scaled <? max_nodes)
                    | None => false
                    end) (seqZ 0 n).

Lemma capacityb_ok (n : Z) (rate : spec_float) : capacityb n rate = true -> capacity n rate.
Proof.
  unfold capacityb. intros [Hn Hi]%andb_true_iff. split; [lia|]. intros i Hr.
  rewrite forallb_forall in Hi. specialize (Hi i). rewrite <- list_elem_of_In, elem_of_seqZ in Hi.
  specialize (Hi ltac:(lia)). destruct (scaled_size (i + 1) rate) as [s|]; [|done]. exists s. split; [done|lia].
Qed.

(** ** Operations and their outcomes *)

Inductive map_op :=
  | OpAdd (k : K) (v : V)
  | OpAssign (k : K) (v : V)
  | OpErase (k : K)
  | OpFind (k : K)
  | OpSize
  | OpClear
  | OpReset.

Inductive map_out :=
  | OutDone
  | OutValue (v : option V)
  | OutErased (b : bool)
  | OutSize (n : Z).

(** The value that a search finds. *)
Definition find_value m (k : K) : option (option V) :=
  it ← find hash_code m k;
  if iterator_legal_check m it then v ← value_at m it; Some (Some v) else Some None.

Definition run_op (dflt : V) m (op : map_op) : option (hash_map (K := K) (V := V) * map_out) :=
  match op with
  | OpAdd k v => '(m', _) ← add hash_code m k v; Some (m', OutDone)
  | OpAssign k v => m' ← assign hash_code dflt m k v; Some (m', OutDone)
  | OpErase k => '(b, m') ← erase_key hash_code m k; Some (m', OutErased b)
  | OpFind k => v ← find_value m k; Some (m, OutValue v)
  | OpSize => Some (m, OutSize (size_ m))
  | OpClear => m' ← clear m; Some (m', OutDone)
  | OpReset => m' ← reset m; Some (m', OutDone)
  end.

(** The same on the finite map; adding a key that is there fails. *)
Definition spec_op M (op : map_op) : option (gmap K V * map_out) :=
  match op with
  | OpAdd k v => if bool_decide (M !! k = None) then Some (<[k := v]> M, OutDone) else None
  | OpAssign k v => Some (<[k := v]> M, OutDone)
  | OpErase k => Some (delete k M, OutErased (bool_decide (is_Some (M !! k))))
  | OpFind k => Some (M, OutValue (M !! k))
  | OpSize => Some (M, OutSize (Z.of_nat (size M)))
  | OpClear | OpReset => Some (∅, OutDone)
  end.

(** The operation leaves at most [n] entries. *)
Definition fits (n : Z) M (op : map_op) : bool :=
  match op with
  | OpAdd k v => Z.of_nat (size M) <? n
  | OpAssign k v => bool_decide (is_Some (M !! k)) || (Z.of_nat (size M) <? n)
  | _ => true
  end.

Fixpoint run_ops {S} (step : S -> map_op -> option (S * map_out)) (s : S) (ops : list map_op) :
  option (S * list map_out) :=
  match ops with
  | [] => Some (s, [])
  | op :: ops => '(s, o) ← step s op; '(s, os) ← run_ops step s ops; Some (s, o :: os)
  end.

(** Every operation up to the first that fails leaves at most [n] entries. *)
Fixpoint within (n : Z) M (ops : list map_op) : bool :=
  match ops with
  | [] => true
  | op :: ops => fits n M op && match spec_op M op with Some (M, _) => within n M ops | None => true end
  end.

(** ** Entries and bindings *)

Lemma wf_lookup m (l f : list Z) (es : entry_list) (k : K) (v : V) :
  wf hash_code m l f es -> (list_to_map es : gmap K V) !! k = Some v <-> (k, v) ∈ es.
Proof. intros W. symmetry. apply elem_of_list_to_map, W. Qed.

Lemma wf_lookup_None (es : entry_list) (k : K) : (list_to_map es : gmap K V) !! k = None <-> k ∉ es.*1.
Proof. symmetry. apply not_elem_of_list_to_map. Qed.

Lemma wf_map_size m (l f : list Z) (es : entry_list) :
  wf hash_code m l f es -> size_ m = Z.of_nat (size (list_to_map es : gmap K V)).
Proof.
  intros W. rewrite (core_size _ _ _ W), map_size_list_to_map by apply W. unfold zlen.
  f_equal. apply (Forall2_length _ _ _ (wf_entries _ _ _ _ _ W)).
Qed.

Lemma map_at_entry (ls rs : entry_list) (k : K) (v : V) :
  NoDup (ls ++ (k, v) :: rs).*1 ->
  (list_to_map (ls ++ (k, v) :: rs) : gmap K V) = <[k := v]> (list_to_map (ls ++ rs)) /\
  (list_to_map (ls ++ rs) : gmap K V) !! k = None.
Proof.
  intros D. assert (ls ++ (k, v) :: rs ≡ₚ (k, v) :: ls ++ rs) as P by (symmetry; apply Permutation_middle).
  split.
  - rewrite (list_to_map_proper _ _ D P). done.
  - apply wf_lookup_None. rewrite P in D. by apply NoDup_cons in D as [].
Qed.

Lemma find_split m (l f : list Z) (es : entry_list) (k : K) :
  wf hash_code m l f es ->
  ((k ∉ es.*1) /\ exists b, find hash_code m k = Some (INVALID, b)) \/
  (exists A x B ls v rs, l = A ++ x :: B /\ es = ls ++ (k, v) :: rs /\ length A = length ls /\
     find hash_code m k = Some (x, bucket_of m x) /\ iterator_legal_check m (x, bucket_of m x) = true /\
     entry_of m x = Some (k, v)).
Proof.
  intros W. unfold find. destruct (find_ok hash_code m l f es k W) as [[Hk F]|(j & x & v & He & Hl & Hb & F)].
  - left. split; [done|eauto].
  - right. exists (take j l), x, (drop (S j) l), (take j es), v, (drop (S j) es).
    destruct (Forall2_lookup_lr _ _ _ _ _ _ (wf_entries _ _ _ _ _ W) Hl He) as [E1 E2].
    split_and!; [by rewrite take_drop_middle|by rewrite take_drop_middle| | | |done].
    + apply lookup_lt_Some in He, Hl. rewrite !length_take. lia.
    + rewrite F, E2. by destruct (Z.ltb_spec 0 (buckets_size m)); [|lia].
    + destruct (node_entry _ _ _ E1) as (nd & N & _). unfold iterator_legal_check. rewrite N.
      rewrite (node_bucket _ _ _ N), bool_decide_eq_true_2 by done.
      apply at_index_range in N. unfold nodes_size.
      destruct (Z.eqb_spec x INVALID) as [->|]; [|by destruct (Z.ltb_spec x (zlen (nodes_ m))); [|lia]].
      exfalso. apply (core_valid_list _ _ _ W). by eapply list_elem_of_lookup_2.
Qed.

Lemma illegal_invalid m (b : Z) : iterator_legal_check m (INVALID, b) = false.
Proof. unfold iterator_legal_check. by rewrite Z.eqb_refl. Qed.

Lemma room_of_capacity m (l f : list Z) (es : entry_list) (n : Z) :
  wf hash_code m l f es -> capacity n (expand_rate_ m) -> size_ m < n -> room m.
Proof.
  intros W [Hn C] Hs. pose proof (core_size _ _ _ W) as E. pose proof (zlen_nonneg l).
  split; [lia|]. destruct (C (size_ m)) as (s & Hs1 & Hs2); [lia|]. eauto.
Qed.

(** ** The operations one by one *)

Section Steps.
Context (dflt : V) (n : Z) (m : hash_map (K := K) (V := V)) (M : gmap K V).
Hypothesis R : represents m M.
Hypothesis C : capacity n (expand_rate_ m).

Lemma add_represents (k : K) (v : V) :
  M !! k = None -> Z.of_nat (size M) < n ->
  exists m' it, add hash_code m k v = Some (m', it) /\ represents m' (<[k := v]> M) /\
    expand_rate_ m' = expand_rate_ m.
Proof.
  destruct R as (l & f & es & W & <-). intros Hk Hs. apply wf_lookup_None in Hk.
  rewrite <- (wf_map_size _ _ _ _ W) in Hs.
  destruct (add_ok hash_code m l f es k v W (room_of_capacity _ _ _ _ _ W C Hs))
    as [[Hk' _]|(_ & m' & it & A & B & f' & ls & rs & E & W' & _ & P & _ & Er)]; [done|].
  exists m', it. split_and!; [done| |done]. exists (A ++ it.1 :: B), f', (ls ++ (k, v) :: rs). split; [done|].
  rewrite (proj1 (map_at_entry _ _ _ _ (wf_keys _ _ _ _ _ W'))). f_equal.
  symmetry. by apply list_to_map_proper; [apply W|].
Qed.

Lemma add_present (k : K) (v : V) : is_Some (M !! k) -> room m -> add hash_code m k v = None.
Proof.
  destruct R as (l & f & es & W & <-). intros [v' Hk] Hr. apply (wf_lookup _ _ _ _ _ _ W) in Hk.
  destruct (add_ok hash_code m l f es k v W Hr) as [[_ E]|[Hk' _]]; [done|].
  exfalso. apply Hk'. apply list_elem_of_fmap. by exists (k, v').
Qed.

Lemma find_represents (k : K) : find_value m k = Some (M !! k).
Proof.
  destruct R as (l & f & es & W & <-). unfold find_value.
  destruct (find_split m l f es k W) as [[Hk [b E]]|(A & x & B & ls & v & rs & -> & -> & Hl & E & L & Ex)]; rewrite E.
  - cbn [mbind option_bind]. rewrite illegal_invalid. f_equal. symmetry. by apply wf_lookup_None.
  - cbn [mbind option_bind]. rewrite L. unfold value_at. cbn [fst].
    apply node_entry in Ex as (nd & N & Ee). rewrite N. cbn [mbind option_bind]. rewrite Ee. cbn [mbind option_bind].
    f_equal. symmetry. apply (wf_lookup _ _ _ _ _ _ W). set_solver.
Qed.

Lemma erase_represents (k : K) :
  exists m', erase_key hash_code m k = Some (bool_decide (is_Some (M !! k)), m') /\
    represents m' (delete k M) /\ expand_rate_ m' = expand_rate_ m.
Proof.
  destruct R as (l & f & es & W & <-). unfold erase_key.
  destruct (find_split m l f es k W) as [[Hk [b E]]|(A & x & B & ls & v & rs & -> & -> & Hl & E & L & Ex)]; rewrite E.
  - cbn [mbind option_bind]. rewrite illegal_invalid. apply wf_lookup_None in Hk. exists m.
    rewrite Hk, bool_decide_eq_false_2 by (by intros []). split_and!; [done| |done].
    rewrite delete_id by done. by exists l, f, es.
  - cbn [mbind option_bind]. rewrite L.
    destruct (erase_ok hash_code m A B f ls rs x k v W Hl) as (m' & E' & W' & _ & Er).
    destruct (map_at_entry _ _ _ _ (wf_keys _ _ _ _ _ W)) as [-> Hn].
    exists m'. rewrite lookup_insert_eq, bool_decide_eq_true_2 by eauto. split_and!; [done| |done].
    exists (A ++ B), (x :: f), (ls ++ rs). split; [done|]. by rewrite delete_insert_eq, delete_id.
Qed.

(** Overwriting the value of the entry that [index_key] gives. *)
Lemma assign_entry m1 (A B f : list Z) (ls rs : entry_list) (x b : Z) (k : K) (v v' : V) :
  index_key hash_code dflt m k = Some (m1, (x, b)) ->
  wf hash_code m1 (A ++ x :: B) f (ls ++ (k, v) :: rs) -> length A = length ls ->
  exists m', assign hash_code dflt m k v' = Some m' /\
    represents m' (<[k := v']> (list_to_map (ls ++ rs))) /\ expand_rate_ m' = expand_rate_ m1.
Proof.
  intros E W Hl. unfold assign. rewrite E. cbn [mbind option_bind fst].
  pose proof (wf_entries _ _ _ _ _ W) as HF. apply Forall2_app_inv in HF as [_ HF]; [|done].
  apply Forall2_cons in HF as [[Ex _] _]. apply node_entry in Ex as (nd & N & Ee). rewrite N. cbn [mbind option_bind].
  rewrite Ee. cbn [mbind option_bind].
  destruct (overwrite_ok hash_code m1 A B f ls rs x k v v' W Hl) as (m' & -> & W' & _ & Er).
  exists m'. split_and!; [done| |done]. eexists _, _, _. split; [done|].
  apply (proj1 (map_at_entry _ _ _ _ (wf_keys _ _ _ _ _ W'))).
Qed.

Lemma assign_represents (k : K) (v : V) :
  is_Some (M !! k) \/ Z.of_nat (size M) < n ->
  exists m', assign hash_code dflt m k v = Some m' /\ represents m' (<[k := v]> M) /\
    expand_rate_ m' = expand_rate_ m.
Proof.
  destruct R as (l & f & es & W & <-). intros Hc.
  destruct (find_split m l f es k W) as [[Hk [b E]]|(A & x & B & ls & v0 & rs & -> & -> & Hl & E & L & Ex)].
  - assert (size_ m < n) as Hs.
    { rewrite (wf_map_size _ _ _ _ W). destruct Hc as [Hc|]; [|done]. apply wf_lookup_None in Hk. rewrite Hk in Hc.
      by destruct Hc. }
    destruct (add_ok hash_code m l f es k dflt W (room_of_capacity _ _ _ _ _ W C Hs))
      as [[Hk' _]|(_ & m1 & [x bx] & A & B & f' & ls & rs & E1 & W1 & Hl & P & _ & Er)]; [done|].
    assert (index_key hash_code dflt m k = Some (m1, (x, bx))) as EI.
    { unfold index_key. rewrite E. cbn [mbind option_bind]. by rewrite illegal_invalid. }
    destruct (assign_entry _ _ _ _ _ _ _ _ _ _ v EI W1 Hl) as (m' & Ea & Rm & Er').
    exists m'. split_and!; [done| |congruence].
    assert ((list_to_map es : gmap K V) = list_to_map (ls ++ rs)) as -> by (apply list_to_map_proper; [apply W|done]).
    done.
  - assert (index_key hash_code dflt m k = Some (m, (x, bucket_of m x))) as EI.
    { unfold index_key. rewrite E. cbn [mbind option_bind]. by rewrite L. }
    destruct (assign_entry _ _ _ _ _ _ _ _ _ _ v EI W Hl) as (m' & Ea & Rm & Er).
    exists m'. split_and!; [done| |done]. destruct (map_at_entry _ _ _ _ (wf_keys _ _ _ _ _ W)) as [-> _].
    by rewrite insert_insert_eq.
Qed.

Lemma clear_represents : exists m', clear m = Some m' /\ represents m' ∅ /\ expand_rate_ m' = expand_rate_ m.
Proof.
  destruct R as (l & f & es & W & _). destruct (clear_ok hash_code m l f es W) as (m' & E & W' & _ & _ & Er).
  exists m'. split_and!; [done| |done]. by eexists _, _, _.
Qed.

Lemma reset_represents : exists m', reset m = Some m' /\ represents m' ∅ /\ expand_rate_ m' = expand_rate_ m.
Proof.
  destruct R as (l & f & es & W & _). destruct (reset_ok hash_code m l f es W) as (m' & E & W' & Er).
  exists m'. split_and!; [done| |done]. by eexists _, _, _.
Qed.

Lemma step_represents (op : map_op) :
  fits n M op = true ->
  match spec_op M op with
  | Some (M', o) => exists m', run_op dflt m op = Some (m', o) /\ represents m' M' /\ expand_rate_ m' = expand_rate_ m
  | None => run_op dflt m op = None
  end.
Proof.
  destruct op as [k v|k v|k|k| | |]; cbn [spec_op run_op fits]; intros F.
  - apply Z.ltb_lt in F. destruct (bool_decide_reflect (M !! k = None)) as [Hk|Hk].
    + destruct (add_represents k v Hk F) as (m' & it & E & R'). rewrite E. eauto.
    + rewrite add_present; [done|by apply not_eq_None_Some|]. destruct R as (l & f & es & W & E). rewrite <- E in F.
      rewrite <- (wf_map_size _ _ _ _ W) in F. by eapply room_of_capacity.
  - destruct (assign_represents k v) as (m' & E & R'); [|rewrite E; eauto].
    apply orb_true_iff in F as [F|F]; [left; by apply bool_decide_eq_true in F|right; lia].
  - destruct (erase_represents k) as (m' & E & R'). rewrite E. eauto.
  - rewrite find_represents. eauto.
  - exists m. split_and!; [|done|done].
    destruct R as (l & f & es & W & <-). by rewrite (wf_map_size _ _ _ _ W).
  - destruct clear_represents as (m' & E & R'). rewrite E. eauto.
  - destruct reset_represents as (m' & E & R'). rewrite E. eauto.
Qed.

End Steps.

(** ** Sequences of operations *)

Lemma run_represents (dflt : V) (n : Z) m M (ops : list map_op) :
  represents m M -> capacity n (expand_rate_ m) -> within n M ops = true ->
  match run_ops spec_op M ops with
  | Some (M', outs) => exists m', run_ops (run_op dflt) m ops = Some (m', outs) /\ represents m' M'
  | None => run_ops (run_op dflt) m ops = None
  end.
Proof.
  revert m M. induction ops as [|op ops IH]; intros m M R C F; cbn [run_ops within] in *; [eauto|].
  apply andb_true_iff in F as [F1 F2]. pose proof (step_represents dflt n m M R C op F1) as Hs.
  destruct (spec_op M op) as [[M1 o]|]; cbn [mbind option_bind]; [|by rewrite Hs].
  destruct Hs as (m1 & -> & R1 & Er). cbn [mbind option_bind]. rewrite <- Er in C. specialize (IH m1 M1 R1 C F2).
  destruct (run_ops _ M1 ops) as [[M2 os]|]; cbn [mbind option_bind]; [|by rewrite IH].
  destruct IH as (m2 & -> & R2). eauto.
Qed.

Lemma new_map_represents (n : Z) :
  n <= max_nodes ->
  exists m, new_map (V := V) hash_code n = Some m /\ represents m ∅ /\ expand_rate_ m = default_rate.
Proof.
  intros Hn. destruct (new_map_ok (V := V) hash_code n Hn) as (m & f & E & W & Er). exists m. split_and!; [done| |done].
  by exists [], f, [].
Qed.

(** C9. The hash map refines the finite map: constructed with any number of buckets, it runs
    every sequence of operations that stays within [n] entries as the specification does, up
    to the end or up to the first call of [add] with a key that is there, where its assertion
    fails; before that no assertion fails and no index leaves its array, the outcomes are
    those of the specification, and the map represents the finite map it ends in. *)
Theorem hash_map_refines (dflt : V) (n init : Z) (ops : list map_op) :
  init <= max_nodes -> capacity n default_rate -> within n ∅ ops = true ->
  exists m0, new_map hash_code init = Some m0 /\
    match run_ops spec_op ∅ ops with
    | Some (M, outs) => exists m, run_ops (run_op dflt) m0 ops = Some (m, outs) /\ represents m M
    | None => run_ops (run_op dflt) m0 ops = None
    end.
Proof.
  intros Hi C F. destruct (new_map_represents init Hi) as (m0 & E0 & R0 & Er). exists m0. split; [done|].
  apply (run_represents dflt n); [done|by rewrite Er|done].
Qed.

(** Iteration from [begin()] ends and gives every binding exactly once. *)
Theorem hash_map_iterates m M :
  represents m M -> exists es, entries m = Some es /\ es ≡ₚ map_to_list M.
Proof.
  intros (l & f & es & W & <-). exists es. split; [by eapply entries_ok|].
  symmetry. apply map_to_list_to_map, W.
Qed.

(** Growing the bucket array ends, passes its assertions and keeps the entries: the walk
    over the node list meets every node once although the nodes move in it. *)
Theorem hash_map_rehash m M (size : Z) :
  represents m M -> size <= max_nodes ->
  exists m', expand_buckets hash_code size m = Some m' /\ represents m' M /\
    size <= buckets_size m' /\ size_ m' = size_ m /\ nodes_size m' = nodes_size m.
Proof.
  intros (l & f & es & W & <-) Hs.
  destruct (expand_buckets_ok hash_code m l f es size W Hs) as (m' & l' & es' & E & W' & P & Hb & Hn & Hsz & _).
  exists m'. split_and!; [done| |done|done|done]. exists l', f, es'. split; [done|].
  by apply list_to_map_proper; [apply W'|].
Qed.

(** An erased entry leaves the order of the others. *)
Lemma erase_keeps_order m M (es : entry_list) (k : K) :
  represents m M -> entries m = Some es -> is_Some (M !! k) ->
  exists m' ls v rs, erase_key hash_code m k = Some (true, m') /\ es = ls ++ (k, v) :: rs /\
    entries m' = Some (ls ++ rs).
Proof.
  intros (l & f & es' & W & <-) E [v' Hk]. rewrite (entries_ok _ _ _ _ _ W) in E. injection E as ->.
  destruct (find_split m l f es k W) as [[Hk' _]|(A & x & B & ls & v & rs & -> & -> & Hl & E & L & _)].
  { apply wf_lookup_None in Hk'. congruence. }
  destruct (erase_ok hash_code m A B f ls rs x k v W Hl) as (m' & E' & W' & _).
  exists m', ls, v, rs. unfold erase_key. rewrite E. cbn [mbind option_bind]. rewrite L. split_and!; [done|done|].
  by eapply entries_ok.
Qed.

(** ** Copies *)

Lemma add_all_represents (n : Z) m M (es : entry_list) :
  represents m M -> capacity n (expand_rate_ m) -> NoDup es.*1 -> (forall k, k ∈ es.*1 -> M !! k = None) ->
  Z.of_nat (size M) + zlen es <= n ->
  exists m', add_all hash_code m es = Some m' /\ represents m' (list_to_map es ∪ M).
Proof.
  revert m M. induction es as [|[k v] es IH]; intros m M R C D Hk Hs.
  - exists m. split; [done|]. cbn. by rewrite (left_id_L ∅ (∪)).
  - cbn [fmap list_fmap fst] in D. apply NoDup_cons in D as [Hkn D]. rewrite zlen_cons in Hs. pose proof (zlen_nonneg es).
    assert (M !! k = None) as HkM by (apply Hk; cbn; set_solver).
    destruct (add_represents n m M R C k v HkM) as (m1 & it & E & R1 & Er); [lia|].
    cbn [add_all]. rewrite E. cbn [mbind option_bind].
    destruct (IH m1 (<[k := v]> M) R1) as (m' & E' & R').
    + by rewrite Er.
    + done.
    + intros k' Hk'. rewrite lookup_insert_ne by (intros ->; done). apply Hk. cbn. set_solver.
    + rewrite map_size_insert_None by done. lia.
    + exists m'. split; [done|]. cbn [list_to_map foldr uncurry fst snd]. 
      by rewrite <- insert_union_l, insert_union_r by by apply wf_lookup_None.
Qed.

Lemma copy_into (m0 : hash_map (K := K) (V := V)) (f : list Z) m M (n : Z) :
  wf hash_code m0 [] f [] -> capacity n (expand_rate_ m0) -> represents m M -> Z.of_nat (size M) <= n ->
  exists m', (m1 ← expand_buckets hash_code (buckets_size m) m0; m2 ← expand_nodes (nodes_size m) m1;
              es ← entries m; add_all hash_code m2 es) = Some m' /\ represents m' M.
Proof.
  intros W0 C (l & f' & es & W & <-) Hs.
  destruct (expand_buckets_ok hash_code m0 [] f [] (buckets_size m) W0) as (m1 & l1 & es1 & -> & W1 & P1 & _ & _ & _ & R1);
    [apply W|]. apply Permutation_nil_r in P1. subst es1. cbn [mbind option_bind].
  destruct (expand_nodes_ok hash_code m1 l1 f [] (nodes_size m) W1) as (m2 & f2 & -> & W2 & _ & _ & _ & R2 & _); [apply W|].
  cbn [mbind option_bind]. rewrite (entries_ok _ _ _ _ _ W). cbn [mbind option_bind].
  destruct (add_all_represents n m2 ∅ es) as (m' & E & R').
  - by exists l1, f2, [].
  - by rewrite R2, R1.
  - apply W.
  - intros. apply lookup_empty.
  - rewrite map_size_list_to_map in Hs by apply W. rewrite map_size_empty. unfold zlen. lia.
  - exists m'. split; [done|]. by rewrite (right_id_L ∅ (∪)) in R'.
Qed.

(** The copy constructor and the copy assignment. *)
Lemma copy_represents m M :
  represents m M -> capacity (Z.of_nat (size M)) default_rate ->
  exists m', copy_map hash_code m = Some m' /\ represents m' M.
Proof. intros R C. by apply (copy_into empty_map [] m M (Z.of_nat (size M)) (empty_map_wf _)). Qed.

Lemma assign_copy_represents m0 M0 m M :
  represents m0 M0 -> represents m M -> capacity (Z.of_nat (size M)) (expand_rate_ m0) ->
  exists m', assign_copy hash_code m0 m = Some m' /\ represents m' M.
Proof.
  intros (l & f & es & W & _) R C. unfold assign_copy.
  destruct (clear_ok hash_code m0 l f es W) as (m1 & -> & W1 & _ & _ & Er). cbn [mbind option_bind].
  eapply (copy_into m1); [done| |done|done]. by rewrite Er.
Qed.

End HashMapSpec.

(** The default rate of 1.5 serves at least this many entries. *)
Lemma default_capacity : capacity 4096 default_rate.
Proof. apply capacityb_ok. by vm_compute. Qed.

(** ** A concrete map: integers whose hash values collide *)

Definition sample_hash (k : Z) : Z := k * 4.
Definition sample_ops : list (map_op (K := Z) (V := Z)) :=
  [OpAdd 1 10; OpAdd 2 20; OpAdd 3 30; OpFind 2; OpErase 1; OpErase 1; OpAssign 2 21; OpAssign 5 50; OpAdd 4 40; OpFind 2; OpSize].

Lemma sample_map_represents : represents sample_hash (empty_map (K := Z) (V := Z)) ∅.
Proof. exists [], [], []. split; [apply empty_map_wf|done]. Qed.

Definition sample_map : gmap Z Z := list_to_map [(2, 21); (3, 30); (5, 50); (4, 40)].

Definition sample_outs : list (map_out (V := Z)) :=
  [OutDone; OutDone; OutDone; OutValue (Some 20); OutErased true; OutErased false; OutDone; OutDone; OutDone;
   OutValue (Some 21); OutSize 4].

Lemma hash_map_refines_witness :
  exists m0, new_map sample_hash 3 = Some m0 /\
    exists m, run_ops (run_op sample_hash 0) m0 sample_ops = Some (m, sample_outs) /\ represents sample_hash m sample_map.
Proof.
  destruct (hash_map_refines sample_hash 0 4096 3 sample_ops) as (m0 & E0 & Hm).
  - vm_compute. discriminate.
  - apply default_capacity.
  - vm_compute. reflexivity.
  - exists m0. split; [exact E0|].
    assert (run_ops spec_op ∅ sample_ops = Some (sample_map, sample_outs)) as E by (vm_compute; reflexivity).
    rewrite E in Hm. exact Hm.
Defined.

Definition sample_full : hash_map (K := Z) (V := Z) :=
  match run_ops (run_op sample_hash 0) empty_map sample_ops with Some (m, _) => m | None => empty_map end.

Lemma sample_full_represents : represents sample_hash sample_full sample_map.
Proof.
  pose proof (run_represents sample_hash 0 4096 empty_map ∅ sample_ops sample_map_represents default_capacity ltac:(by vm_compute)) as H.
  assert (run_ops spec_op ∅ sample_ops = Some (sample_map, sample_outs)) as E by (by vm_compute). rewrite E in H.
  destruct H as (m & Em & R). unfold sample_full. by rewrite Em.
Qed.

Lemma hash_map_iterates_witness : exists es, entries sample_full = Some es /\ es ≡ₚ map_to_list sample_map.
Proof. apply (hash_map_iterates sample_hash sample_full sample_map sample_full_represents). Defined.

Lemma hash_map_rehash_witness :
  exists m', expand_buckets sample_hash 100 sample_full = Some m' /\ represents sample_hash m' sample_map /\
    100 <= buckets_size m' /\ size_ m' = size_ sample_full /\ nodes_size m' = nodes_size sample_full.
Proof. apply (hash_map_rehash sample_hash sample_full sample_map 100 sample_full_represents). vm_compute. discriminate. Defined.
