(* ===== verification/HashCache.v ===== *)
(** * The bounded hash cache ([include/qlog/utility/bounded_hash_cache.hpp])

    An open addressing table from 64-bit keys to 32-bit values with linear probing. A slot
    is free when its value is [invalid_value]; the key of a free slot is not initialised,
    and reading it is [None], as is an index out of the arrays. [mem] says whether the
    allocations of an operation succeed. Erasing shifts later entries back. *)
From stdpp Require Import base list option numbers.
From Stdlib Require Import ZArith Lia.
From S2P Require Import Prelude Memory.

Module HashCache.

Definition invalid_value : Z := 2 ^ 32 - 1.
Definition min_capacity : Z := 8.
(** A missed insert is admitted once every [admission_divisor] attempts when full. *)
Definition admission_divisor : Z := 64.

Record insert_token := mk_token { slot_index : Z; token_revision : Z }.

(** [insert_token()] *)
Definition no_token : insert_token := mk_token (2 ^ 32 - 1) 0.

Record bounded_hash_cache := mk_cache {
  keys_ : list (option Z);
  values_ : list Z;
  size_ : Z;
  capacity_ : Z;
  victim_ : Z;
  admission_ : Z;
  max_size_ : Z;
  table_revision_ : Z }.

Definition normalize_max_size (limit max_size : Z) : Z :=
  if max_size <? min_capacity then min_capacity else if limit <? max_size then limit else max_size.

(** The constructor; [limit] is the template argument [MAX_SIZE]. *)
Definition new_cache (limit max_size : Z) : bounded_hash_cache :=
  mk_cache [] [] 0 0 0 0 (normalize_max_size limit max_size) 0.

(** The finalizer of murmur3. *)
Definition get_table_hash (key : Z) : Z :=
  let key := Z.lxor key (Z.shiftr key 33) in
  let key := u64 (key * 0xff51afd7ed558ccd) in
  let key := Z.lxor key (Z.shiftr key 33) in
  let key := u64 (key * 0xc4ceb9fe1a85ec53) in
  let key := Z.lxor key (Z.shiftr key 33) in
  u32 (Z.shiftr key 32).

(** [x & (capacity - 1)] *)
Definition slot (capacity x : Z) : Z := Z.land (u32 x) (u32 (capacity - 1)).

Definition value_at (values : list Z) (i : Z) : option Z := values !! Z.to_nat i.
Definition key_at (keys : list (option Z)) (i : Z) : option Z := mjoin (keys !! Z.to_nat i).

(** The loop of [find_slot_or_empty]: the slot, and whether it has the key. *)
Fixpoint find_loop (fuel : nat) (keys : list (option Z)) (values : list Z) (capacity key slot_index : Z) :
  option (Z * bool) :=
  match fuel with
  | O => None
  | S fuel =>
      v ← value_at values slot_index;
      if v =? invalid_value then Some (slot_index, false)
      else
        k ← key_at keys slot_index;
        if k =? key then Some (slot_index, true)
        else find_loop fuel keys values capacity key (slot capacity (slot_index + 1))
  end.

Definition find_slot_or_empty (c : bounded_hash_cache) (key : Z) : option (Z * bool) :=
  if (length (values_ c) =? 0)%nat then Some (invalid_value, false)
  else find_loop (length (values_ c)) (keys_ c) (values_ c) (capacity_ c) key (slot (capacity_ c) (get_table_hash key)).

(** [find]: the value, or the token for an insertion. *)
Definition find (c : bounded_hash_cache) (key : Z) : option (Z + insert_token) :=
  '(slot_index, found) ← find_slot_or_empty c key;
  if (found : bool) then inl <$> value_at (values_ c) slot_index
  else Some (inr (mk_token slot_index (table_revision_ c))).

(** ** Resizing *)

Fixpoint free_loop (fuel : nat) (values : list Z) (capacity slot_index : Z) : option Z :=
  match fuel with
  | O => None
  | S fuel =>
      v ← value_at values slot_index;
      if v =? invalid_value then Some slot_index else free_loop fuel values capacity (slot capacity (slot_index + 1))
  end.

(** [for (uint32_t i = 0; i < capacity_; ++i)] over the old slots that are left. *)
Fixpoint resize_loop (old : list (option Z * Z)) (capacity : Z) (new_keys : list (option Z)) (new_values : list Z) :
  option (list (option Z) * list Z) :=
  match old with
  | [] => Some (new_keys, new_values)
  | (k, v) :: old =>
      if v =? invalid_value then resize_loop old capacity new_keys new_values
      else
        key ← k;
        slot_index ← free_loop (length new_values) new_values capacity (slot capacity (get_table_hash key));
        resize_loop old capacity (<[Z.to_nat slot_index := Some key]> new_keys)
          (<[Z.to_nat slot_index := v]> new_values)
  end.

Definition resize (mem : bool) (new_capacity : Z) (c : bounded_hash_cache) : option (bool * bounded_hash_cache) :=
  if negb mem then Some (false, c)
  else
    let n := Z.to_nat new_capacity in
    '(ks, vs) ← resize_loop (zip (keys_ c) (values_ c)) new_capacity (replicate n None) (replicate n invalid_value);
    Some (true, mk_cache ks vs (size_ c) new_capacity 0 (admission_ c) (max_size_ c) (u32 (table_revision_ c + 1))).

(** ** Erasing *)

(** The loop of [erase], with the hole and the slot that is looked at. *)
Fixpoint erase_loop (fuel : nat) (keys : list (option Z)) (values : list Z) (capacity empty current : Z) :
  option (list (option Z) * list Z * Z) :=
  match fuel with
  | O => None
  | S fuel =>
      v ← value_at values current;
      if v =? invalid_value then Some (keys, values, empty)
      else
        k ← key_at keys current;
        let home := slot capacity (get_table_hash k) in
        if slot capacity (empty - home) <? slot capacity (current - home)
        then erase_loop fuel (<[Z.to_nat empty := Some k]> keys) (<[Z.to_nat empty := v]> values) capacity
               current (slot capacity (current + 1))
        else erase_loop fuel keys values capacity empty (slot capacity (current + 1))
  end.

Definition erase (slot_index : Z) (c : bounded_hash_cache) : option bounded_hash_cache :=
  '(ks, vs, empty) ← erase_loop (length (values_ c)) (keys_ c) (values_ c) (capacity_ c) slot_index
                       (slot (capacity_ c) (slot_index + 1));
  Some (mk_cache ks (<[Z.to_nat empty := invalid_value]> vs) (u32 (size_ c - 1)) (capacity_ c) (victim_ c)
          (admission_ c) (max_size_ c) (u32 (table_revision_ c + 1))).

(** ** Inserting *)

(** [while (values_[victim_] == invalid_value)] *)
Fixpoint victim_loop (fuel : nat) (values : list Z) (capacity victim : Z) : option Z :=
  match fuel with
  | O => None
  | S fuel =>
      v ← value_at values victim;
      if v =? invalid_value then victim_loop fuel values capacity (slot capacity (victim + 1)) else Some victim
  end.

Definition set_victim (victim admission : Z) (c : bounded_hash_cache) : bounded_hash_cache :=
  mk_cache (keys_ c) (values_ c) (size_ c) (capacity_ c) victim admission (max_size_ c) (table_revision_ c).

(** What comes before the slot is chosen: growing, refusing or evicting. [false] when the
    insertion returns without the entry. *)
Definition make_room (mem : bool) (c : bounded_hash_cache) : option (bool * bounded_hash_cache) :=
  if (length (values_ c) =? 0)%nat then resize mem min_capacity c
  else if (size_ c <? max_size_ c) && (capacity_ c / 2 <=? size_ c) then resize mem (u32 (capacity_ c * 2)) c
  else if max_size_ c <=? size_ c then
    let admission := u32 (admission_ c + 1) in
    if negb (Z.land admission (admission_divisor - 1) =? 0) then Some (false, set_victim (victim_ c) admission c)
    else
      old_victim ← victim_loop (length (values_ c)) (values_ c) (capacity_ c) (victim_ c);
      c ← erase old_victim (set_victim (slot (capacity_ c) (old_victim + 1)) admission c);
      Some (true, c)
  else Some (true, c).

Definition store_entry (slot_index key value : Z) (c : bounded_hash_cache) : bounded_hash_cache :=
  mk_cache (<[Z.to_nat slot_index := Some key]> (keys_ c)) (<[Z.to_nat slot_index := value]> (values_ c))
    (u32 (size_ c + 1)) (capacity_ c) (victim_ c) (admission_ c) (max_size_ c) (u32 (table_revision_ c + 1)).

Definition overwrite (slot_index value : Z) (c : bounded_hash_cache) : bounded_hash_cache :=
  mk_cache (keys_ c) (<[Z.to_nat slot_index := value]> (values_ c)) (size_ c) (capacity_ c) (victim_ c)
    (admission_ c) (max_size_ c) (table_revision_ c).

Definition token_usable (token : insert_token) (c : bounded_hash_cache) : bool :=
  if (token_revision token =? table_revision_ c) && (slot_index token <? capacity_ c)
  then bool_decide (value_at (values_ c) (slot_index token) = Some invalid_value) else false.

Definition insert_new (mem : bool) (key value : Z) (token : insert_token) (c : bounded_hash_cache) :
  option bounded_hash_cache :=
  '(go, c) ← make_room mem c;
  if negb go then Some c
  else if token_usable token c then Some (store_entry (slot_index token) key value c)
  else
    '(slot_index, found) ← find_slot_or_empty c key;
    Some (if (found : bool) then overwrite slot_index value c else store_entry slot_index key value c).

Definition insert (mem : bool) (key value : Z) (c : bounded_hash_cache) : option bounded_hash_cache :=
  '(slot_index, found) ← find_slot_or_empty c key;
  if (found : bool) then Some (overwrite slot_index value c) else insert_new mem key value no_token c.

Definition set_max_size (limit max_size : Z) (c : bounded_hash_cache) : bool * bounded_hash_cache :=
  let normalized := normalize_max_size limit max_size in
  if normalized =? max_size_ c then (true, c)
  else if negb (size_ c =? 0) && (normalized <? max_size_ c) then (false, c)
  else (true, mk_cache (keys_ c) (values_ c) (size_ c) (capacity_ c) (victim_ c) (admission_ c) normalized
                (table_revision_ c)).

Definition clear (c : bounded_hash_cache) : bounded_hash_cache :=
  mk_cache [] [] 0 0 0 0 (max_size_ c) (u32 (table_revision_ c + 1)).

End HashCache.
