(* ===== verification/HashCacheTheorems.v ===== *)
(** * The bounded hash cache: probing, erasing and what a search finds

    [table] is the invariant of linear probing: an entry is reached from the slot of its hash
    over occupied slots. [cached c M]: the cache is well formed and its entries are those of the
    finite map [M]. A search finds exactly the value of [M]; an insertion of a pair leads to a
    map whose bindings are among those of [M] and the new one. [memory_step]: the specification,
    a map that gives entries up when memory is refused or its maximum is reached. *)
From stdpp Require Import base list option numbers gmap.
From Stdlib Require Import ZArith Lia.
From S2P Require Import Prelude Memory HashCache.
Import HashCache.

(** ** Distances on the ring of slots *)

Section Ring.
Variable n : Z.

Definition after (i : Z) : Z := if i + 1 =? n then 0 else i + 1.
(** The number of steps from [h] to [i]. *)
Definition dist (h i : Z) : Z := if h <=? i then i - h else i - h + n.
Definition in_ring (i : Z) : Prop := 0 <= i < n.

Ltac ring_lia :=
  unfold dist, after, in_ring in *;
  repeat match goal with
  | |- context [?a <=? ?b] => destruct (Z.leb_spec a b)
  | H : context [?a <=? ?b] |- _ => destruct (Z.leb_spec a b)
  | |- context [?a =? ?b] => destruct (Z.eqb_spec a b)
  | H : context [?a =? ?b] |- _ => destruct (Z.eqb_spec a b)
  end; try lia.

Lemma after_ring (i : Z) : in_ring i -> in_ring (after i).
Proof. ring_lia. Qed.

Lemma dist_ring (h i : Z) : in_ring h -> in_ring i -> in_ring (dist h i).
Proof. ring_lia. Qed.

Lemma dist_self (h : Z) : dist h h = 0.
Proof. ring_lia. Qed.

Lemma dist_inj (h i j : Z) : in_ring h -> in_ring i -> in_ring j -> dist h i = dist h j -> i = j.
Proof. ring_lia. Qed.

Lemma dist_after (h i : Z) : in_ring h -> in_ring i -> dist h i + 1 < n -> dist h (after i) = dist h i + 1.
Proof. ring_lia. Qed.

Lemma dist_from_after (i j : Z) : in_ring i -> in_ring j -> i <> j -> dist (after i) j = dist i j - 1.
Proof. ring_lia. Qed.

Lemma dist_one (i : Z) : 1 < n -> in_ring i -> dist i (after i) = 1.
Proof. ring_lia. Qed.

Lemma dist_pos (i j : Z) : in_ring i -> in_ring j -> i <> j -> 1 <= dist i j.
Proof. ring_lia. Qed.

(** On the way from [h] over [e] to [j] lies every [c] between [e] and [j]. *)
Lemma dist_between (h e c j : Z) :
  in_ring h -> in_ring e -> in_ring c -> in_ring j -> dist h e < dist h j -> dist e c < dist e j -> dist h c < dist h j.
Proof. ring_lia. Qed.

End Ring.

Lemma slot_mod (k x : Z) : 0 <= k <= 31 -> slot (2 ^ k) x = x mod 2 ^ k.
Proof. apply land_cursor. Qed.

Lemma slot_after (k i : Z) : 0 <= k <= 31 -> in_ring (2 ^ k) i -> slot (2 ^ k) (i + 1) = after (2 ^ k) i.
Proof.
  intros Hk Hi. rewrite slot_mod by done. unfold after, in_ring in *. destruct (Z.eqb_spec (i + 1) (2 ^ k)) as [->|].
  - apply Z.mod_same. lia.
  - apply Z.mod_small. lia.
Qed.

Lemma slot_dist (k h i : Z) : 0 <= k <= 31 -> in_ring (2 ^ k) h -> in_ring (2 ^ k) i -> slot (2 ^ k) (i - h) = dist (2 ^ k) h i.
Proof.
  intros Hk Hh Hi. rewrite slot_mod by done. unfold dist, in_ring in *. destruct (Z.leb_spec h i).
  - apply Z.mod_small. lia.
  - symmetry. apply (Z.mod_unique_pos _ _ (-1)); lia.
Qed.

Lemma slot_ring (k x : Z) : 0 <= k <= 31 -> in_ring (2 ^ k) (slot (2 ^ k) x).
Proof. intros Hk. rewrite slot_mod by done. apply Z.mod_pos_bound. lia. Qed.

(** ** The table *)

Definition entry (ks : list (option Z)) (vs : list Z) (i : Z) : option (Z * Z) :=
  v ← value_at vs i; if v =? invalid_value then None else k ← key_at ks i; Some (k, v).

Definition home (n key : Z) : Z := slot n (get_table_hash key).

Definition probed (n : Z) (T : Z -> option (Z * Z)) : Prop :=
  forall i k v, in_ring n i -> T i = Some (k, v) ->
  forall s, in_ring n s -> dist n (home n k) s < dist n (home n k) i -> T s <> None.

Definition unique (n : Z) (T : Z -> option (Z * Z)) : Prop :=
  forall i j k v w, in_ring n i -> in_ring n j -> T i = Some (k, v) -> T j = Some (k, w) -> i = j.

Definition has (n : Z) (T : Z -> option (Z * Z)) (k v : Z) : Prop := exists i, in_ring n i /\ T i = Some (k, v).

(** A slot that is not free has a key. *)
Record shaped (n : Z) (ks : list (option Z)) (vs : list Z) : Prop := {
  sh_keys : zlen ks = n;
  sh_values : zlen vs = n;
  sh_defined : forall i v, in_ring n i -> value_at vs i = Some v -> v <> invalid_value -> is_Some (key_at ks i) }.

Lemma value_at_some (vs : list Z) (i : Z) : in_ring (zlen vs) i -> is_Some (value_at vs i).
Proof. unfold in_ring, value_at, zlen. intros. apply lookup_lt_is_Some. lia. Qed.

Lemma value_at_insert (vs : list Z) (e i v : Z) :
  in_ring (zlen vs) e -> in_ring (zlen vs) i ->
  value_at (<[Z.to_nat e := v]> vs) i = if decide (i = e) then Some v else value_at vs i.
Proof.
  unfold in_ring, value_at, zlen. intros He Hi. destruct (decide (i = e)) as [->|].
  - rewrite list_lookup_insert_eq by lia. done.
  - apply list_lookup_insert_ne. lia.
Qed.

Lemma key_at_insert (ks : list (option Z)) (e i : Z) (k : option Z) :
  in_ring (zlen ks) e -> in_ring (zlen ks) i ->
  key_at (<[Z.to_nat e := k]> ks) i = if decide (i = e) then k else key_at ks i.
Proof.
  unfold in_ring, key_at, zlen. intros He Hi. destruct (decide (i = e)) as [->|].
  - rewrite list_lookup_insert_eq by lia. done.
  - by rewrite list_lookup_insert_ne by lia.
Qed.

Lemma zlen_insert {A} (l : list A) (i : nat) (x : A) : zlen (<[i := x]> l) = zlen l.
Proof. unfold zlen. by rewrite length_insert. Qed.

Lemma entry_cases (n : Z) (ks : list (option Z)) (vs : list Z) (i : Z) :
  shaped n ks vs -> in_ring n i ->
  (value_at vs i = Some invalid_value /\ entry ks vs i = None) \/
  (exists k v, value_at vs i = Some v /\ v <> invalid_value /\ key_at ks i = Some k /\ entry ks vs i = Some (k, v)).
Proof.
  intros S Hi. destruct (value_at_some vs i) as [v Hv]; [by rewrite (sh_values _ _ _ S)|].
  unfold entry. rewrite Hv. cbn [mbind option_bind]. destruct (Z.eqb_spec v invalid_value) as [->|Hne]; [by left|].
  right. destruct (sh_defined _ _ _ S i v Hi Hv Hne) as [k Hk]. exists k, v. by rewrite Hk.
Qed.

Lemma entry_insert (n : Z) (ks : list (option Z)) (vs : list Z) (e k v i : Z) :
  shaped n ks vs -> in_ring n e -> in_ring n i -> v <> invalid_value ->
  entry (<[Z.to_nat e := Some k]> ks) (<[Z.to_nat e := v]> vs) i = if decide (i = e) then Some (k, v) else entry ks vs i.
Proof.
  intros [Hk Hv _] He Hi Hne. unfold entry. rewrite value_at_insert by by rewrite Hv.
  rewrite key_at_insert by by rewrite Hk. destruct (decide (i = e)); [|done]. cbn [mbind option_bind].
  by destruct (Z.eqb_spec v invalid_value).
Qed.

Lemma shaped_insert (n : Z) (ks : list (option Z)) (vs : list Z) (e k v : Z) :
  shaped n ks vs -> in_ring n e -> shaped n (<[Z.to_nat e := Some k]> ks) (<[Z.to_nat e := v]> vs).
Proof.
  intros [Hk Hv Hd] He. split; [by rewrite zlen_insert|by rewrite zlen_insert|].
  intros i w Hi. rewrite value_at_insert by by rewrite Hv. rewrite key_at_insert by by rewrite Hk.
  destruct (decide (i = e)); [eauto|]. by apply Hd.
Qed.

(** ** Searching *)

(** The slots from the home of a key to [i] are occupied, none of them by the key. *)
Definition passed (n : Z) (T : Z -> option (Z * Z)) (key i : Z) : Prop :=
  forall s, in_ring n s -> dist n (home n key) s < dist n (home n key) i -> exists k v, T s = Some (k, v) /\ k <> key.

Lemma passed_home (n : Z) (T : Z -> option (Z * Z)) (key : Z) :
  in_ring n (home n key) -> passed n T key (home n key).
Proof. intros Hh s Hs. rewrite dist_self. pose proof (dist_ring n _ _ Hh Hs). unfold in_ring in *. lia. Qed.

Lemma passed_after (n : Z) (T : Z -> option (Z * Z)) (key i f k v : Z) :
  in_ring n (home n key) -> in_ring n i -> in_ring n f -> T f = None -> T i = Some (k, v) -> k <> key ->
  passed n T key i -> passed n T key (after n i) /\ dist n (home n key) (after n i) = dist n (home n key) i + 1 /\
  dist n (home n key) i < dist n (home n key) f.
Proof.
  intros Hh Hi Hf Ef Ei Hk P.
  assert (dist n (home n key) i < dist n (home n key) f) as Hlt.
  { destruct (Z.lt_trichotomy (dist n (home n key) i) (dist n (home n key) f)) as [|[E|Hlt]]; [done| |].
    - apply dist_inj in E; [congruence|done..].
    - destruct (P f Hf Hlt) as (? & ? & ? & _). congruence. }
  pose proof (dist_ring n _ _ Hh Hf) as Hr. unfold in_ring in Hr.
  assert (dist n (home n key) (after n i) = dist n (home n key) i + 1) as E by (apply dist_after; [done|done|lia]).
  split; [|done]. intros s Hs Hd. rewrite E in Hd.
  destruct (Z.eq_dec (dist n (home n key) s) (dist n (home n key) i)) as [Es|].
  - apply dist_inj in Es as ->; [eauto|done..].
  - apply P; [done|lia].
Qed.

Section Search.
Context (p : Z) (ks : list (option Z)) (vs : list Z).
Hypothesis Hp : 0 <= p <= 31.
Hypothesis Sh : shaped (2 ^ p) ks vs.
Abbreviation cap := (2 ^ p).
Abbreviation T := (entry ks vs).

Lemma home_ring (key : Z) : in_ring cap (home cap key).
Proof. by apply slot_ring. Qed.

Lemma cache_find_loop_ok (fuel : nat) (key i f : Z) :
  in_ring cap i -> in_ring cap f -> T f = None -> passed cap T key i ->
  dist cap (home cap key) f - dist cap (home cap key) i < Z.of_nat fuel ->
  exists j found, find_loop fuel ks vs cap key i = Some (j, found) /\ in_ring cap j /\ passed cap T key j /\
    (if (found : bool) then exists v, value_at vs j = Some v /\ T j = Some (key, v) else value_at vs j = Some invalid_value /\ T j = None).
Proof.
  intros Hi Hf Ef. revert i Hi. induction fuel as [|fuel IH]; intros i Hi P Hd.
  - exfalso. assert (~ dist cap (home cap key) f < dist cap (home cap key) i) as Hn.
    { intros Hlt. destruct (P f Hf Hlt) as (? & ? & ? & _). congruence. }
    lia.
  - cbn [find_loop]. destruct (entry_cases cap ks vs i Sh Hi) as [[Hv Ei]|(k & v & Hv & Hne & Hk & Ei)]; rewrite Hv; cbn [mbind option_bind].
    + rewrite Z.eqb_refl. by exists i, false.
    + destruct (Z.eqb_spec v invalid_value) as [|_]; [done|]. rewrite Hk. cbn [mbind option_bind].
      destruct (Z.eqb_spec k key) as [->|Hkk]; [exists i, true; eauto 6|].
      rewrite slot_after by done.
      destruct (passed_after cap T key i f k v (home_ring key) Hi Hf Ef Ei Hkk P) as (P' & E' & Hlt).
      apply IH; [by apply after_ring|done|lia].
Qed.

Lemma free_loop_ok (fuel : nat) (key i f : Z) :
  in_ring cap i -> in_ring cap f -> T f = None -> passed cap T key i -> ~ (exists v, has cap T key v) ->
  dist cap (home cap key) f - dist cap (home cap key) i < Z.of_nat fuel ->
  exists j, free_loop fuel vs cap i = Some j /\ in_ring cap j /\ passed cap T key j /\ T j = None /\ value_at vs j = Some invalid_value.
Proof.
  intros Hi Hf Ef P Hnew. revert i Hi P. induction fuel as [|fuel IH]; intros i Hi P Hd.
  - exfalso. assert (~ dist cap (home cap key) f < dist cap (home cap key) i) as Hn.
    { intros Hlt. destruct (P f Hf Hlt) as (? & ? & ? & _). congruence. }
    lia.
  - cbn [free_loop]. destruct (entry_cases cap ks vs i Sh Hi) as [[Hv Ei]|(k & v & Hv & Hne & Hk & Ei)]; rewrite Hv; cbn [mbind option_bind].
    + rewrite Z.eqb_refl. by exists i.
    + destruct (Z.eqb_spec v invalid_value) as [|_]; [done|].
      assert (k <> key) as Hkk by (intros ->; apply Hnew; exists v, i; done).
      rewrite slot_after by done.
      destruct (passed_after cap T key i f k v (home_ring key) Hi Hf Ef Ei Hkk P) as (P' & E' & Hlt).
      apply IH; [by apply after_ring|done|lia].
Qed.

(** A free slot that is reached says that the key is not in the table. *)
Lemma passed_absent (key i : Z) :
  probed cap T -> in_ring cap i -> T i = None -> passed cap T key i -> forall v, ~ has cap T key v.
Proof.
  intros Hpr Hi Ei P v (j & Hj & Ej).
  destruct (Z.lt_trichotomy (dist cap (home cap key) j) (dist cap (home cap key) i)) as [Hlt|[E|Hlt]].
  - destruct (P j Hj Hlt) as (? & ? & E & Hne). congruence.
  - apply dist_inj in E; [congruence|apply home_ring|done|done].
  - by apply (Hpr j key v Hj Ej i Hi Hlt).
Qed.

End Search.

(** ** The number of entries *)

Definition occupied (vs : list Z) : Z := zlen (filter (fun v => v <> invalid_value) vs).

Lemma occupied_cons (v : Z) (vs : list Z) :
  occupied (v :: vs) = (if decide (v <> invalid_value) then 1 else 0) + occupied vs.
Proof. unfold occupied. rewrite filter_cons. destruct (decide _); [by rewrite zlen_cons|done]. Qed.

Lemma occupied_insert (vs : list Z) (i : nat) (v w : Z) :
  vs !! i = Some w ->
  occupied (<[i := v]> vs) = occupied vs + (if decide (v <> invalid_value) then 1 else 0) - (if decide (w <> invalid_value) then 1 else 0).
Proof.
  revert i. induction vs as [|u vs IH]; intros i Hi; [done|]. destruct i as [|i].
  - injection Hi as ->. rewrite occupied_cons. change (<[0%nat := v]> (w :: vs)) with (v :: vs). rewrite occupied_cons. lia.
  - change (<[Datatypes.S i := v]> (u :: vs)) with (u :: <[i := v]> vs). cbn in Hi. rewrite !occupied_cons, (IH i Hi). lia.
Qed.

Lemma occupied_replicate (k : nat) : occupied (replicate k invalid_value) = 0.
Proof. induction k as [|k IH]; [done|]. cbn [replicate]. rewrite occupied_cons, IH. by destruct (decide _). Qed.

Lemma occupied_bounds (vs : list Z) : 0 <= occupied vs <= zlen vs.
Proof.
  induction vs as [|v vs IH]; [done|]. rewrite occupied_cons, zlen_cons. destruct (decide _); lia.
Qed.

Lemma free_exists (n : Z) (ks : list (option Z)) (vs : list Z) :
  shaped n ks vs -> occupied vs < n -> exists f, in_ring n f /\ entry ks vs f = None.
Proof.
  intros S Ho. rewrite <- (sh_values _ _ _ S) in Ho.
  assert (exists i : nat, vs !! i = Some invalid_value) as [i Hi].
  { clear S. induction vs as [|v vs IH]; [done|]. rewrite occupied_cons, zlen_cons in Ho.
    destruct (decide (v <> invalid_value)) as [|Hv]; [|exists 0%nat; cbn; f_equal; destruct (decide (v = invalid_value)); naive_solver].
    destruct IH as [i Hi]; [lia|]. by exists (Datatypes.S i). }
  exists (Z.of_nat i). split.
  - rewrite <- (sh_values _ _ _ S). apply lookup_lt_Some in Hi. unfold in_ring, zlen. lia.
  - unfold entry, value_at. rewrite Nat2Z.id, Hi. cbn [mbind option_bind]. by rewrite Z.eqb_refl.
Qed.

Lemma occupied_exists (n : Z) (ks : list (option Z)) (vs : list Z) :
  shaped n ks vs -> 0 < occupied vs -> exists i, in_ring n i /\ entry ks vs i <> None.
Proof.
  intros S Ho. assert (exists (i : nat) v, vs !! i = Some v /\ v <> invalid_value) as (i & v & Hi & Hv).
  { clear S. induction vs as [|v vs IH]; [done|]. rewrite occupied_cons in Ho.
    destruct (decide (v <> invalid_value)) as [|Hv]; [by exists 0%nat, v|].
    destruct IH as (i & w & Hi & Hw); [lia|]. by exists (Datatypes.S i), w. }
  assert (in_ring n (Z.of_nat i)) as Hr.
  { rewrite <- (sh_values _ _ _ S). apply lookup_lt_Some in Hi. unfold in_ring, zlen. lia. }
  exists (Z.of_nat i). split; [done|].
  destruct (entry_cases n ks vs _ S Hr) as [[E _]|(k & w & _ & _ & _ & E)]; [|by rewrite E].
  unfold value_at in E. rewrite Nat2Z.id, Hi in E. by injection E.
Qed.

(** ** Storing a new entry *)

(** A table with its invariant. *)
Record table (p : Z) (ks : list (option Z)) (vs : list Z) : Prop := {
  tb_shaped : shaped (2 ^ p) ks vs;
  tb_probed : probed (2 ^ p) (entry ks vs);
  tb_unique : unique (2 ^ p) (entry ks vs) }.

Section Table.
Context (p : Z).
Hypothesis Hp : 3 <= p <= 31.
Abbreviation cap := (2 ^ p).

Lemma store_table (ks : list (option Z)) (vs : list Z) (i k v : Z) :
  table p ks vs -> in_ring cap i -> entry ks vs i = None -> passed cap (entry ks vs) k i -> v <> invalid_value ->
  table p (<[Z.to_nat i := Some k]> ks) (<[Z.to_nat i := v]> vs) /\
  occupied (<[Z.to_nat i := v]> vs) = occupied vs + 1 /\
  (forall k' v', has cap (entry (<[Z.to_nat i := Some k]> ks) (<[Z.to_nat i := v]> vs)) k' v' <->
     (k' = k /\ v' = v) \/ has cap (entry ks vs) k' v').
Proof.
  intros [Sh Pr Un] Hi Ei P Hv.
  assert (forall j, in_ring cap j -> entry (<[Z.to_nat i := Some k]> ks) (<[Z.to_nat i := v]> vs) j
      = if decide (j = i) then Some (k, v) else entry ks vs j) as E by (intros j Hj; by apply (entry_insert cap)).
  pose proof (passed_absent p ks vs ltac:(lia) k i Pr Hi Ei P) as Habs.
  split; [split|split].
  - by apply shaped_insert.
  - intros j k' v' Hj. rewrite E by done. destruct (decide (j = i)) as [->|].
    + intros [= <- <-] s Hs Hd. rewrite E by done. destruct (decide (s = i)); [done|].
      destruct (P s Hs Hd) as (? & ? & -> & _). done.
    + intros Hj' s Hs Hd. rewrite E by done. destruct (decide (s = i)); [done|]. by eapply (Pr j k' v').
  - intros j1 j2 k' v1 v2 H1 H2. rewrite !E by done.
    destruct (decide (j1 = i)) as [->|], (decide (j2 = i)) as [->|]; try done.
    + intros [= <- <-] E2. exfalso. apply (Habs v2). by exists j2.
    + intros E1 [= <- <-]. exfalso. apply (Habs v1). by exists j1.
    + by eapply Un.
  - destruct (entry_cases cap ks vs i Sh Hi) as [[Hvi _]|(? & ? & _ & _ & _ & ?)]; [|congruence].
    rewrite (occupied_insert _ _ _ invalid_value Hvi). rewrite decide_True by done. destruct (decide _); [done|lia].
  - intros k' v'. split.
    + intros (j & Hj & Ej). rewrite E in Ej by done. destruct (decide (j = i)); [injection Ej as <- <-; by left|].
      right. by exists j.
    + intros [[-> ->]|(j & Hj & Ej)].
      * exists i. split; [done|]. by rewrite E, decide_True.
      * exists j. split; [done|]. rewrite E, decide_False by (done || congruence). done.
Qed.

(** An entry gets another value. *)
Lemma overwrite_table (ks : list (option Z)) (vs : list Z) (i k v w : Z) :
  table p ks vs -> in_ring cap i -> entry ks vs i = Some (k, w) -> v <> invalid_value ->
  table p ks (<[Z.to_nat i := v]> vs) /\ occupied (<[Z.to_nat i := v]> vs) = occupied vs /\
  (forall k' v', has cap (entry ks (<[Z.to_nat i := v]> vs)) k' v' <->
     (k' = k /\ v' = v) \/ (k' <> k /\ has cap (entry ks vs) k' v')).
Proof.
  intros [Sh Pr Un] Hi Ei Hv.
  assert (exists w, value_at vs i = Some w /\ w <> invalid_value /\ key_at ks i = Some k) as (w0 & Hw & Hw0 & Hk).
  { destruct (entry_cases cap ks vs i Sh Hi) as [[_ ?]|(? & ? & ? & ? & ? & E)]; [congruence|].
    rewrite Ei in E. injection E as -> ->. eauto. }
  assert (forall j, in_ring cap j -> entry ks (<[Z.to_nat i := v]> vs) j
      = if decide (j = i) then Some (k, v) else entry ks vs j) as E.
  { intros j Hj. unfold entry at 1. rewrite value_at_insert by by rewrite (sh_values _ _ _ Sh).
    destruct (decide (j = i)) as [->|]; [|done]. cbn [mbind option_bind].
    destruct (Z.eqb_spec v invalid_value); [done|]. by rewrite Hk. }
  assert (forall j, in_ring cap j -> fst <$> entry ks (<[Z.to_nat i := v]> vs) j = fst <$> entry ks vs j) as EK.
  { intros j Hj. rewrite E by done. destruct (decide (j = i)) as [->|]; [by rewrite Ei|done]. }
  split; [split|split].
  - destruct Sh as [S1 S2 S3]. split; [done|by rewrite zlen_insert|]. intros j u Hj.
    rewrite value_at_insert by by rewrite S2. destruct (decide (j = i)) as [->|]; [eauto|by apply S3].
  - intros j k' v' Hj Ej s Hs Hd Hn. pose proof (EK j Hj) as K. rewrite Ej in K. cbn in K.
    destruct (entry ks vs j) as [[k2 v2]|] eqn:Ej2; [|done]. injection K as <-.
    apply (Pr j k' v2 Hj Ej2 s Hs Hd). pose proof (EK s Hs) as K. rewrite Hn in K. by destruct (entry ks vs s).
  - intros j1 j2 k' v1 v2 H1 H2 E1 E2. pose proof (EK j1 H1) as K1. pose proof (EK j2 H2) as K2.
    rewrite E1 in K1. rewrite E2 in K2. cbn in *.
    destruct (entry ks vs j1) as [[? u1]|] eqn:F1; [|done]. destruct (entry ks vs j2) as [[? u2]|] eqn:F2; [|done].
    injection K1 as <-. injection K2 as <-. by eapply (Un j1 j2 k' u1 u2).
  - rewrite (occupied_insert _ _ _ w0 Hw). destruct (decide (v <> _)), (decide (w0 <> _)); try done. lia.
  - intros k' v'. split.
    + intros (j & Hj & Ej). rewrite E in Ej by done. destruct (decide (j = i)); [injection Ej as <- <-; by left|].
      right. split; [|by exists j]. intros ->. by specialize (Un j i k v' w Hj Hi Ej Ei).
    + intros [[-> ->]|[Hne (j & Hj & Ej)]].
      * exists i. split; [done|]. by rewrite E, decide_True.
      * exists j. split; [done|]. rewrite E, decide_False by (done || congruence). done.
Qed.

(** ** Erasing

    [hole] is the slot whose entry is given up, [cur] the slot the loop looks at; [f] is a
    free slot, which ends the loop. *)
Record shifting (ks : list (option Z)) (vs : list Z) (hole cur f : Z) : Prop := {
  sf_shaped : shaped cap ks vs;
  sf_hole : in_ring cap hole;
  sf_cur : in_ring cap cur;
  sf_free : in_ring cap f /\ entry ks vs f = None;
  sf_full : entry ks vs hole <> None;
  sf_ahead : 1 <= dist cap hole cur <= dist cap hole f;
  sf_path : forall j k v, in_ring cap j -> j <> hole -> entry ks vs j = Some (k, v) ->
    forall s, in_ring cap s -> dist cap (home cap k) s < dist cap (home cap k) j ->
      entry ks vs s <> None /\ (s = hole -> dist cap hole cur <= dist cap hole j);
  sf_unique : forall i j k v w, in_ring cap i -> in_ring cap j -> i <> hole -> j <> hole ->
    entry ks vs i = Some (k, v) -> entry ks vs j = Some (k, w) -> i = j }.

(** The entries but the one in the hole. *)
Definition rest (ks : list (option Z)) (vs : list Z) (hole k v : Z) : Prop :=
  exists i, in_ring cap i /\ i <> hole /\ entry ks vs i = Some (k, v).

Lemma shift_stays (ks : list (option Z)) (vs : list Z) (hole cur f k v : Z) :
  shifting ks vs hole cur f -> entry ks vs cur = Some (k, v) ->
  dist cap (home cap k) cur <= dist cap (home cap k) hole ->
  shifting ks vs hole (after cap cur) f /\ dist cap (after cap cur) f = dist cap cur f - 1.
Proof.
  intros [Sh Hh Hc [Hf Ef] Fu Ah Pa Un] Ec Hd.
  assert (cur <> f) as Hne by congruence.
  assert (dist cap hole cur < dist cap hole f) as Hlt.
  { destruct (Z.eq_dec (dist cap hole cur) (dist cap hole f)) as [E|]; [|lia]. apply dist_inj in E; congruence. }
  pose proof (dist_ring cap hole f Hh Hf) as Hr. unfold in_ring in Hr.
  assert (dist cap hole (after cap cur) = dist cap hole cur + 1) as Ea by (apply dist_after; [done|done|lia]).
  split; [|by apply dist_from_after]. split; try done; [by apply after_ring|lia|].
  intros j k' v' Hj Hjh Ej s Hs Hds. destruct (Pa j k' v' Hj Hjh Ej s Hs Hds) as [Hn Hi]. split; [done|].
  intros ->. specialize (Hi eq_refl). destruct (Z.eq_dec (dist cap hole cur) (dist cap hole j)) as [E|]; [|lia].
  exfalso. apply dist_inj in E; [|done..]. subst j. rewrite Ec in Ej. injection Ej as -> _. lia.
Qed.

Lemma shift_moves (ks : list (option Z)) (vs : list Z) (hole cur f k v : Z) :
  shifting ks vs hole cur f -> entry ks vs cur = Some (k, v) -> v <> invalid_value ->
  dist cap (home cap k) hole < dist cap (home cap k) cur ->
  let ks' := <[Z.to_nat hole := Some k]> ks in let vs' := <[Z.to_nat hole := v]> vs in
  shifting ks' vs' cur (after cap cur) f /\ dist cap (after cap cur) f = dist cap cur f - 1 /\
  (forall k v, rest ks' vs' cur k v <-> rest ks vs hole k v).
Proof.
  intros [Sh Hh Hc [Hf Ef] Fu Ah Pa Un] Ec Hv Hd ks' vs'.
  assert (hole <> cur) as Hhc by (intros ->; rewrite dist_self in Ah; lia).
  assert (cur <> f) as Hne by congruence. assert (hole <> f) as Hhf by (intros ->; done).
  assert (forall j, in_ring cap j -> entry ks' vs' j = if decide (j = hole) then Some (k, v) else entry ks vs j) as E.
  { intros j Hj. by apply (entry_insert cap). }
  assert (1 < cap) as Hcap by (pose proof (Z.pow_lt_mono_r 2 0 p); lia).
  split; [|split; [by apply dist_from_after|]].
  - split.
    + by apply shaped_insert.
    + done.
    + by apply after_ring.
    + split; [done|]. by rewrite E, decide_False.
    + rewrite E, decide_False by done. congruence.
    + rewrite dist_one by done. pose proof (dist_pos cap cur f Hc Hf Hne). lia.
    + intros j k' v' Hj Hjc. rewrite E by done. rewrite dist_one by done.
      pose proof (dist_pos cap cur j Hc Hj ltac:(congruence)) as Hp1.
      destruct (decide (j = hole)) as [->|Hjh].
      * intros [= <- <-] s Hs Hds. split; [|lia]. rewrite E by done. destruct (decide (s = hole)); [done|].
        apply (Pa cur k v Hc ltac:(congruence) Ec s Hs). lia.
      * intros Ej s Hs Hds. split; [|lia]. rewrite E by done. destruct (decide (s = hole)); [done|].
        by apply (Pa j k' v' Hj Hjh Ej s Hs Hds).
    + intros i j k' v1 v2 Hi Hj Hic Hjc. rewrite !E by done.
      destruct (decide (i = hole)) as [->|], (decide (j = hole)) as [->|]; try done.
      * intros [= <- <-] Ej. exfalso. apply Hjc. by apply (Un j cur k v2 v Hj Hc).
      * intros Ei [= <- <-]. exfalso. apply Hic. by apply (Un i cur k v1 v Hi Hc).
      * by apply Un.
  - intros k' v'. split.
    + intros (j & Hj & Hjc & Ej). rewrite E in Ej by done. destruct (decide (j = hole)).
      * injection Ej as <- <-. exists cur. split_and!; [done|congruence|done].
      * by exists j.
    + intros (j & Hj & Hjh & Ej). destruct (decide (j = cur)) as [->|].
      * rewrite Ec in Ej. injection Ej as <- <-. exists hole. rewrite E, decide_True by done. split_and!; [done|done|done].
      * exists j. rewrite E, decide_False by done. done.
Qed.

Lemma erase_loop_ok (fuel : nat) (ks : list (option Z)) (vs : list Z) (hole cur f : Z) :
  shifting ks vs hole cur f -> dist cap cur f < Z.of_nat fuel ->
  exists ks' vs' hole' cur', erase_loop fuel ks vs cap hole cur = Some (ks', vs', hole') /\
    shifting ks' vs' hole' cur' f /\ entry ks' vs' cur' = None /\ occupied vs' = occupied vs /\
    (forall k v, rest ks' vs' hole' k v <-> rest ks vs hole k v).
Proof.
  revert ks vs hole cur. induction fuel as [|fuel IH]; intros ks vs hole cur S Hd.
  { pose proof (dist_ring cap cur f (sf_cur _ _ _ _ _ S) (proj1 (sf_free _ _ _ _ _ S))). unfold in_ring in *. lia. }
  cbn [erase_loop]. pose proof (sf_cur _ _ _ _ _ S) as Hc. pose proof (sf_hole _ _ _ _ _ S) as Hh.
  destruct (entry_cases cap ks vs cur (sf_shaped _ _ _ _ _ S) Hc) as [[Hv Ei]|(k & v & Hv & Hne & Hk & Ei)];
    rewrite Hv; cbn [mbind option_bind].
  - rewrite Z.eqb_refl. by exists ks, vs, hole, cur.
  - destruct (Z.eqb_spec v invalid_value) as [|_]; [done|]. rewrite Hk. cbn [mbind option_bind].
    fold (home cap k). assert (in_ring cap (home cap k)) as Hhome by (apply slot_ring; lia).
    rewrite !slot_dist, slot_after by (done || lia).
    destruct (Z.ltb_spec (dist cap (home cap k) hole) (dist cap (home cap k) cur)) as [Hlt|Hge].
    + destruct (shift_moves ks vs hole cur f k v S Ei Hne Hlt) as (S' & Hd' & HR).
      destruct (IH _ _ cur (after cap cur) S') as (ks' & vs' & hole' & cur' & E & S2 & Ec & Ho & HR2); [lia|].
      exists ks', vs', hole', cur'. split_and!; [done|done|done| |].
      * rewrite Ho. destruct (entry_cases cap ks vs hole (sf_shaped _ _ _ _ _ S) Hh) as [[_ En]|(k0 & v0 & Hv0 & Hne0 & _)].
        { by destruct (sf_full _ _ _ _ _ S). }
        rewrite (occupied_insert _ _ _ v0 Hv0). destruct (decide (v <> _)), (decide (v0 <> _)); try done. lia.
      * intros k' v'. by rewrite HR2, HR.
    + destruct (shift_stays ks vs hole cur f k v S Ei Hge) as [S' Hd'].
      destruct (IH _ _ hole (after cap cur) S') as (ks' & vs' & hole' & cur' & E & S2 & Ec & Ho & HR2); [lia|].
      by exists ks', vs', hole', cur'.
Qed.

(** The hole is cleared. *)
Lemma cleared_table (ks : list (option Z)) (vs : list Z) (hole cur f : Z) :
  shifting ks vs hole cur f -> entry ks vs cur = None ->
  let vs' := <[Z.to_nat hole := invalid_value]> vs in
  table p ks vs' /\ occupied vs' = occupied vs - 1 /\
  (forall k v, has cap (entry ks vs') k v <-> rest ks vs hole k v) /\ entry ks vs' hole = None.
Proof.
  intros [Sh Hh Hc [Hf Ef] Fu Ah Pa Un] Ec vs'.
  assert (forall j, in_ring cap j -> entry ks vs' j = if decide (j = hole) then None else entry ks vs j) as E.
  { intros j Hj. unfold entry at 1, vs'. rewrite value_at_insert by by rewrite (sh_values _ _ _ Sh).
    destruct (decide (j = hole)); [|done]. cbn [mbind option_bind]. by rewrite Z.eqb_refl. }
  split; [split|split_and!].
  - destruct Sh as [S1 S2 S3]. split; [done|unfold vs'; by rewrite zlen_insert|]. intros j v Hj. unfold vs'.
    rewrite value_at_insert by by rewrite S2. destruct (decide (j = hole)); [by intros [= <-]|by apply S3].
  - intros j k v Hj. rewrite E by done. destruct (decide (j = hole)) as [|Hjh]; [done|]. intros Ej s Hs Hds.
    destruct (Pa j k v Hj Hjh Ej s Hs Hds) as [Hn Hi]. rewrite E by done. destruct (decide (s = hole)) as [->|]; [|done].
    specialize (Hi eq_refl). exfalso.
    assert (dist cap hole cur < dist cap hole j) as Hlt.
    { destruct (Z.eq_dec (dist cap hole cur) (dist cap hole j)) as [Eq|]; [|lia]. apply dist_inj in Eq; congruence. }
    assert (in_ring cap (home cap k)) as Hhome by (apply slot_ring; lia).
    destruct (Pa j k v Hj Hjh Ej cur Hc) as [Hn' _]; [by apply (dist_between cap _ hole)|done].
  - intros i j k v w Hi Hj. rewrite !E by done. destruct (decide (i = hole)), (decide (j = hole)); try done. by apply Un.
  - destruct (entry_cases cap ks vs hole Sh Hh) as [[_ En]|(k0 & v0 & Hv0 & Hne0 & _)]; [done|].
    unfold vs'. rewrite (occupied_insert _ _ _ v0 Hv0). destruct (decide (invalid_value <> _)), (decide (v0 <> _)); try done. lia.
  - intros k v. split.
    + intros (j & Hj & Ej). rewrite E in Ej by done. destruct (decide (j = hole)); [done|]. by exists j.
    + intros (j & Hj & Hjh & Ej). exists j. by rewrite E, decide_False.
  - by rewrite E, decide_True.
Qed.

(** Erasing an occupied slot removes its entry and no other. *)
Lemma erase_table (ks : list (option Z)) (vs : list Z) (i k v : Z) :
  table p ks vs -> in_ring cap i -> entry ks vs i = Some (k, v) -> occupied vs < cap ->
  exists ks' vs' hole, erase_loop (length vs) ks vs cap i (slot cap (i + 1)) = Some (ks', vs', hole) /\
    table p ks' (<[Z.to_nat hole := invalid_value]> vs') /\
    occupied (<[Z.to_nat hole := invalid_value]> vs') = occupied vs - 1 /\
    (forall k' v', has cap (entry ks' (<[Z.to_nat hole := invalid_value]> vs')) k' v' <->
       k' <> k /\ has cap (entry ks vs) k' v').
Proof.
  intros [Sh Pr Un] Hi Ei Ho. destruct (free_exists cap ks vs Sh Ho) as (f & Hf & Ef).
  assert (i <> f) as Hne by congruence.
  assert (1 < cap) as Hcap by (pose proof (Z.pow_lt_mono_r 2 0 p); lia).
  pose proof (dist_pos cap i f Hi Hf Hne) as Hd. pose proof (dist_ring cap i f Hi Hf) as Hr. unfold in_ring in Hr.
  assert (shifting ks vs i (after cap i) f) as S.
  { split; try done; [by apply after_ring|congruence|rewrite dist_one by done; lia| |].
    - intros j k' v' Hj Hji Ej s Hs Hds. split; [by eapply (Pr j k' v')|]. intros ->. rewrite dist_one by done.
      apply dist_pos; [done|done|congruence].
    - intros a b k' v1 v2 Ha Hb _ _ E1 E2. by apply (Un a b k' v1 v2). }
  rewrite slot_after by (done || lia).
  destruct (erase_loop_ok (length vs) ks vs i (after cap i) f S) as (ks' & vs' & hole & cur & E & S' & Ec & Hocc & HR).
  { rewrite dist_from_after by done. pose proof (sh_values _ _ _ Sh) as Hl. unfold zlen in Hl. lia. }
  destruct (cleared_table ks' vs' hole cur f S' Ec) as (Tb & Ho' & HH & _).
  exists ks', vs', hole. split_and!; [done|done|lia|]. intros k' v'. rewrite HH, HR. split.
  - intros (j & Hj & Hji & Ej). split; [|by exists j]. intros ->. apply Hji. by apply (Un j i k v' v).
  - intros [Hk (j & Hj & Ej)]. exists j. split_and!; [done| |done]. intros ->. congruence.
Qed.

End Table.

(** ** Resizing *)

Lemma entry_zip (n : Z) (ks : list (option Z)) (vs : list Z) (i k v : Z) :
  shaped n ks vs -> in_ring n i ->
  entry ks vs i = Some (k, v) <-> zip ks vs !! Z.to_nat i = Some (Some k, v) /\ v <> invalid_value.
Proof.
  intros S Hi. rewrite lookup_zip_with_Some. split.
  - intros E. destruct (entry_cases n ks vs i S Hi) as [[_ E']|(k' & v' & Hv & Hne & Hk & E')]; [congruence|].
    rewrite E in E'. injection E' as <- <-. split; [|done]. unfold key_at in Hk.
    destruct (ks !! Z.to_nat i) as [o|] eqn:Ho; [|done]. cbn in Hk. subst o. by exists (Some k), v.
  - intros [(o & v' & [= <- <-] & Hk & Hv) Hne]. unfold entry, value_at, key_at. rewrite Hk, Hv. cbn [mbind option_bind].
    by destruct (Z.eqb_spec v invalid_value).
Qed.

Record old_slots (p : Z) (old : list (option Z * Z)) (ks : list (option Z)) (vs : list Z) : Prop := {
  os_defined : forall i k v, old !! i = Some (k, v) -> v <> invalid_value -> is_Some k;
  os_unique : forall i j k v w, old !! i = Some (Some k, v) -> old !! j = Some (Some k, w) ->
    v <> invalid_value -> w <> invalid_value -> i = j;
  os_new : forall i k v w, old !! i = Some (Some k, v) -> v <> invalid_value -> ~ has (2 ^ p) (entry ks vs) k w }.

Lemma resize_loop_ok (p : Z) (old : list (option Z * Z)) (ks : list (option Z)) (vs : list Z) :
  3 <= p <= 31 -> table p ks vs -> old_slots p old ks vs -> occupied vs + occupied old.*2 < 2 ^ p ->
  exists ks' vs', resize_loop old (2 ^ p) ks vs = Some (ks', vs') /\ table p ks' vs' /\
    occupied vs' = occupied vs + occupied old.*2 /\
    (forall k v, has (2 ^ p) (entry ks' vs') k v <->
       has (2 ^ p) (entry ks vs) k v \/ exists i, old !! i = Some (Some k, v) /\ v <> invalid_value).
Proof.
  intros Hp. revert ks vs. induction old as [|[o v] old IH]; intros ks vs Tb [Od Ou On] Ho.
  - exists ks, vs. change (occupied (@nil (option Z * Z)).*2) with 0. split_and!; [done|done|lia|]. intros k v. split; [by left|]. intros [|(i & Hi & _)]; [done|]. by destruct i.
  - cbn [resize_loop]. cbn [fmap list_fmap snd] in *. rewrite occupied_cons in *. pose proof (occupied_bounds old.*2) as Hb.
    destruct (Z.eqb_spec v invalid_value) as [->|Hv].
    + rewrite decide_False in * by (intros H; by apply H).
      destruct (IH ks vs Tb) as (ks' & vs' & E & T' & O' & HH).
      * split.
        -- intros i k w Hi. by apply (Od (S i)).
        -- intros i j k w1 w2 Hi Hj H1 H2. pose proof (Ou (S i) (S j) k w1 w2 Hi Hj H1 H2). lia.
        -- intros i k w1 w2 Hi. by apply (On (S i)).
      * lia.
      * exists ks', vs'. split_and!; [done|done|lia|]. intros k w. rewrite HH. split; (intros [|(i & Hi & Hne)]; [by left|right]).
        -- by exists (S i).
        -- destruct i as [|i]; [by injection Hi as _ <-|]. by exists i.
    + rewrite decide_True in * by done. destruct (Od 0%nat o v eq_refl Hv) as [key ->]. cbn [mbind option_bind].
      pose proof (tb_shaped _ _ _ Tb) as Sh. destruct (free_exists _ _ _ Sh) as (f & Hf & Ef); [lia|].
      pose proof (slot_ring p (get_table_hash key) ltac:(lia)) as Hh.
      destruct (free_loop_ok p ks vs ltac:(lia) Sh (length vs) key (slot (2 ^ p) (get_table_hash key)) f Hh Hf Ef)
        as (j & E & Hj & Pj & Ej & _).
      { by apply passed_home. }
      { intros (w & Hw). by apply (On 0%nat key v w eq_refl Hv). }
      { fold (home (2 ^ p) key). rewrite dist_self. pose proof (dist_ring _ _ _ Hh Hf) as Hd. fold (home (2 ^ p) key) in Hd.
        pose proof (sh_values _ _ _ Sh) as Hl. unfold in_ring, zlen in *. lia. }
      rewrite E. cbn [mbind option_bind].
      destruct (store_table p Hp ks vs j key v Tb Hj Ej Pj Hv) as (T1 & O1 & H1).
      destruct (IH _ _ T1) as (ks' & vs' & E2 & T2 & O2 & H2).
      * split.
        -- intros i k w Hi. by apply (Od (S i)).
        -- intros i j' k w1 w2 Hi Hj' Hw1 Hw2. pose proof (Ou (S i) (S j') k w1 w2 Hi Hj' Hw1 Hw2). lia.
        -- intros i k w1 w2 Hi Hw1. rewrite H1. intros [[-> ->]|Hh2]; [|by apply (On (S i) k w1 w2 Hi Hw1)].
           by pose proof (Ou 0%nat (S i) key v w1 eq_refl Hi Hv Hw1).
      * lia.
      * exists ks', vs'. split_and!; [done|done|lia|]. intros k w. rewrite H2, H1. split.
        -- intros [[[-> ->]|Hh2]|(i & Hi & Hne)]; [right; by exists 0%nat|by left|right; by exists (S i)].
        -- intros [Hh2|(i & Hi & Hne)]; [by left; right|]. destruct i as [|i]; [injection Hi as -> ->; by left; left|].
           right. by exists i.
Qed.

(** ** The cache *)

Record usable (p : Z) (c : bounded_hash_cache) : Prop := {
  us_power : 3 <= p <= 30;
  us_capacity : capacity_ c = 2 ^ p;
  us_table : table p (keys_ c) (values_ c);
  us_load : 2 * size_ c <= capacity_ c;
  us_victim : in_ring (capacity_ c) (victim_ c) }.

Record well_formed (c : bounded_hash_cache) : Prop := {
  wc_max : min_capacity <= max_size_ c <= 2 ^ 28;
  wc_size : size_ c = occupied (values_ c);
  wc_limit : size_ c <= max_size_ c;
  wc_revision : in_range 32 (table_revision_ c);
  wc_arrays : (values_ c = [] /\ keys_ c = [] /\ capacity_ c = 0) \/ exists p, usable p c }.

Definition cached (c : bounded_hash_cache) (M : gmap Z Z) : Prop :=
  well_formed c /\ forall k v, M !! k = Some v <-> has (capacity_ c) (entry (keys_ c) (values_ c)) k v.

Definition good_token (c : bounded_hash_cache) (key : Z) (t : insert_token) : Prop :=
  token_revision t = table_revision_ c /\
  (values_ c <> [] -> in_ring (capacity_ c) (slot_index t) /\ entry (keys_ c) (values_ c) (slot_index t) = None /\
     passed (capacity_ c) (entry (keys_ c) (values_ c)) key (slot_index t)).

Lemma empty_cached (c : bounded_hash_cache) (M : gmap Z Z) : values_ c = [] -> capacity_ c = 0 -> cached c M -> M = ∅.
Proof.
  intros E Ec [_ H]. apply map_eq. intros k. rewrite lookup_empty. destruct (M !! k) as [v|] eqn:Hk; [|done].
  apply H in Hk as (i & Hi & _). rewrite Ec in Hi. unfold in_ring in Hi. lia.
Qed.

Lemma usable_nonempty (p : Z) (c : bounded_hash_cache) : usable p c -> values_ c <> [] /\ (length (values_ c) =? 0)%nat = false.
Proof.
  intros U. pose proof (sh_values _ _ _ (tb_shaped _ _ _ (us_table _ _ U))) as Hl.
  pose proof (Z.pow_pos_nonneg 2 p ltac:(lia) ltac:(pose proof (us_power _ _ U); lia)).
  split; [intros E; rewrite E in Hl; change (zlen []) with 0 in Hl; lia|].
  apply Nat.eqb_neq. intros E. unfold zlen in Hl. lia.
Qed.

Lemma find_slot_ok (p : Z) (c : bounded_hash_cache) (key : Z) :
  well_formed c -> usable p c ->
  exists j found, find_slot_or_empty c key = Some (j, found) /\ in_ring (capacity_ c) j /\
    passed (capacity_ c) (entry (keys_ c) (values_ c)) key j /\
    (if (found : bool) then exists v, value_at (values_ c) j = Some v /\ entry (keys_ c) (values_ c) j = Some (key, v)
     else value_at (values_ c) j = Some invalid_value /\ entry (keys_ c) (values_ c) j = None).
Proof.
  intros W U. destruct (usable_nonempty p c U) as [_ En]. unfold find_slot_or_empty. rewrite En.
  destruct U as [Hp Hc Tb Hl _]. rewrite Hc in *. pose proof (tb_shaped _ _ _ Tb) as Sh.
  pose proof (Z.pow_pos_nonneg 2 p ltac:(lia) ltac:(lia)) as Hpow.
  destruct (free_exists _ _ _ Sh) as (f & Hf & Ef); [rewrite <- (wc_size _ W); lia|].
  pose proof (slot_ring p (get_table_hash key) ltac:(lia)) as Hh.
  apply (cache_find_loop_ok p _ _ ltac:(lia) Sh (length (values_ c)) key _ f Hh Hf Ef).
  - by apply passed_home.
  - fold (home (2 ^ p) key). rewrite dist_self. pose proof (dist_ring _ _ _ Hh Hf) as Hd. fold (home (2 ^ p) key) in Hd.
    pose proof (sh_values _ _ _ Sh) as Hlen. unfold in_ring, zlen in *. lia.
Qed.

Lemma find_cached (c : bounded_hash_cache) (M : gmap Z Z) (key : Z) :
  cached c M ->
  exists r, find c key = Some r /\
    match r with inl v => M !! key = Some v | inr t => M !! key = None /\ good_token c key t end.
Proof.
  intros [W H]. unfold find. destruct (wc_arrays _ W) as [(Ev & Ek & Ec)|[p U]].
  - unfold find_slot_or_empty. rewrite Ev. cbn [length Nat.eqb mbind option_bind]. eexists. split; [done|].
    split; [|split; [done|by rewrite Ev]]. by rewrite (empty_cached c M Ev Ec (conj W H)).
  - destruct (find_slot_ok p c key W U) as (j & found & -> & Hj & Pj & Hr). cbn [mbind option_bind]. destruct found.
    + destruct Hr as (v & -> & Ej). eexists. split; [done|]. apply H. by exists j.
    + destruct Hr as [_ Ej]. eexists. split; [done|]. split; [|by split].
      apply eq_None_not_Some. intros [v Hv]. apply H in Hv. destruct U as [Hp Hc Tb _ _]. rewrite Hc in *.
      by apply (passed_absent p (keys_ c) (values_ c) ltac:(lia) key j (tb_probed _ _ _ Tb) Hj Ej Pj v).
Qed.

Lemma resize_cached (c : bounded_hash_cache) (M : gmap Z Z) (p : Z) :
  cached c M -> 3 <= p <= 30 -> 2 * size_ c <= 2 ^ p ->
  exists c', resize true (2 ^ p) c = Some (true, c') /\ cached c' M /\ usable p c' /\ size_ c' = size_ c /\
    max_size_ c' = max_size_ c /\ table_revision_ c' = u32 (table_revision_ c + 1).
Proof.
  intros [W H] Hp Hsz. unfold resize. cbn [negb]. pose proof (Z.pow_pos_nonneg 2 p ltac:(lia) ltac:(lia)) as Hpow.
  assert (table p (replicate (Z.to_nat (2 ^ p)) None) (replicate (Z.to_nat (2 ^ p)) invalid_value)) as T0.
  { assert (forall i, entry (replicate (Z.to_nat (2 ^ p)) None) (replicate (Z.to_nat (2 ^ p)) invalid_value) i = None) as E0.
    { intros i. unfold entry, value_at. destruct (_ !! _) as [v|] eqn:E; [|done]. apply lookup_replicate in E as [-> _].
      cbn [mbind option_bind]. by rewrite Z.eqb_refl. }
    split; [split; [by rewrite zlen_replicate by lia|by rewrite zlen_replicate by lia|]| |].
    - intros i v _ Hv. unfold value_at in Hv. by apply lookup_replicate in Hv as [-> _].
    - intros i k v _ E. by rewrite E0 in E.
    - intros i j k v w _ _ E. by rewrite E0 in E. }
  assert (forall k v, ~ has (2 ^ p) (entry (replicate (Z.to_nat (2 ^ p)) None) (replicate (Z.to_nat (2 ^ p)) invalid_value)) k v) as N0.
  { intros k v (i & _ & E). unfold entry, value_at in E. destruct (_ !! _) as [w|] eqn:Ew; [|done].
    apply lookup_replicate in Ew as [-> _]. cbn [mbind option_bind] in E. by rewrite Z.eqb_refl in E. }
  assert (shaped (capacity_ c) (keys_ c) (values_ c) /\ unique (capacity_ c) (entry (keys_ c) (values_ c))) as [Sh Un].
  { destruct (wc_arrays _ W) as [(Ev & Ek & Ec)|[q U]]; [|rewrite (us_capacity _ _ U); by destruct (us_table _ _ U)].
    rewrite Ev, Ek, Ec. split; [split; [done|done|]|]; unfold unique, in_ring; intros; lia. }
  assert (length (keys_ c) = length (values_ c)) as Hlen.
  { pose proof (sh_keys _ _ _ Sh). pose proof (sh_values _ _ _ Sh). unfold zlen in *. lia. }
  assert (forall i k v, zip (keys_ c) (values_ c) !! i = Some (Some k, v) -> v <> invalid_value ->
    in_ring (capacity_ c) (Z.of_nat i) /\ entry (keys_ c) (values_ c) (Z.of_nat i) = Some (k, v)) as HZ.
  { intros i k v Hi Hv. pose proof (lookup_lt_Some _ _ _ Hi) as Hlt. rewrite length_zip_with in Hlt.
    assert (in_ring (capacity_ c) (Z.of_nat i)) as Hr by (pose proof (sh_keys _ _ _ Sh); unfold in_ring, zlen in *; lia).
    split; [done|]. apply (entry_zip _ _ _ _ _ _ Sh Hr). by rewrite Nat2Z.id. }
  destruct (resize_loop_ok p (zip (keys_ c) (values_ c)) _ _ ltac:(lia) T0) as (ks & vs & E & T1 & O1 & H1).
  - split.
    + intros i k v Hi Hv. apply lookup_zip_with_Some in Hi as (o & w & [= -> ->] & Hk & Hw).
      assert (in_ring (capacity_ c) (Z.of_nat i)) as Hr.
      { pose proof (lookup_lt_Some _ _ _ Hk). pose proof (sh_keys _ _ _ Sh). unfold in_ring, zlen in *. lia. }
      destruct (sh_defined _ _ _ Sh (Z.of_nat i) w Hr) as [k2 Hk2]; [unfold value_at; by rewrite Nat2Z.id|done|].
      unfold key_at in Hk2. rewrite Nat2Z.id, Hk in Hk2. cbn in Hk2. eauto.
    + intros i j k v w Hi Hj Hv Hw. destruct (HZ _ _ _ Hi Hv) as [Ri Ei]. destruct (HZ _ _ _ Hj Hw) as [Rj Ej].
      pose proof (Un _ _ k v w Ri Rj Ei Ej). lia.
    + intros i k v w _ _. apply N0.
  - rewrite snd_zip by lia. rewrite occupied_replicate, <- (wc_size _ W). lia.
  - rewrite E. cbn [mbind option_bind]. rewrite snd_zip in O1 by lia. rewrite occupied_replicate, <- (wc_size _ W) in O1.
    eexists. split; [done|].
    match goal with |- cached ?m _ /\ _ => assert (usable p m) as U end.
    { split; [done|done|exact T1|cbn; lia|]. cbn. unfold in_ring. lia. }
    split_and!; [split|exact U|done|done|done].
    + split; cbn; [apply W|lia|apply W|apply wrap_range; lia|]. right. by exists p.
    + intros k v. cbn. rewrite H1, H. split.
      * intros (i & Hi & Ei). right. apply (entry_zip _ _ _ _ _ _ Sh Hi) in Ei. by exists (Z.to_nat i).
      * intros [Hh|(i & Hi & Hv)]; [by apply N0 in Hh|]. destruct (HZ _ _ _ Hi Hv) as [Ri Ei]. by exists (Z.of_nat i).
Qed.

(** ** The entries as a list *)

(** The entries of the slots. *)
Definition slot_entry (s : option Z * Z) : option (Z * Z) := if s.2 =? invalid_value then None else k ← s.1; Some (k, s.2).
Definition slot_entries (c : bounded_hash_cache) : list (Z * Z) := omap slot_entry (zip (keys_ c) (values_ c)).

Lemma omap_NoDup_keys (l : list (option Z * Z)) :
  (forall i j k v w, slot_entry <$> l !! i = Some (Some (k, v)) -> slot_entry <$> l !! j = Some (Some (k, w)) -> i = j) ->
  NoDup (omap slot_entry l).*1.
Proof.
  induction l as [|x l IH]; intros H; [constructor|]. assert (NoDup (omap slot_entry l).*1) as Hl.
  { apply IH. intros i j k v w Hi Hj. pose proof (H (S i) (S j) k v w Hi Hj). lia. }
  change (omap slot_entry (x :: l)) with (match slot_entry x with Some y => y :: omap slot_entry l | None => omap slot_entry l end).
  destruct (slot_entry x) as [[k v]|] eqn:Ex; [|done]. cbn. constructor; [|done].
  intros Hin. apply list_elem_of_fmap in Hin as ([k' w] & -> & Hin). apply list_elem_of_omap in Hin as (y & Hy & Ey).
  apply list_elem_of_lookup in Hy as [j Hj].
  assert (0%nat = S j) as E; [|done]. apply (H 0%nat (S j) k' v w); [cbn; by rewrite Ex|]. change ((x :: l) !! S j) with (l !! j). rewrite Hj. cbn. by rewrite Ey.
Qed.

Lemma omap_occupied (ks : list (option Z)) (vs : list Z) :
  length ks = length vs -> (forall i v, vs !! i = Some v -> v <> invalid_value -> is_Some (mjoin (ks !! i))) ->
  zlen (omap slot_entry (zip ks vs)) = occupied vs.
Proof.
  revert vs. induction ks as [|o ks IH]; intros [|v vs] Hl Hd; try done. injection Hl as Hl.
  specialize (IH vs Hl (fun i => Hd (S i))). rewrite occupied_cons.
  change (omap slot_entry (zip (o :: ks) (v :: vs))) with (match slot_entry (o, v) with Some y => y :: omap slot_entry (zip ks vs) | None => omap slot_entry (zip ks vs) end).
  unfold slot_entry at 1. cbn [fst snd]. destruct (Z.eqb_spec v invalid_value) as [->|Hv].
  - rewrite decide_False by (intros H; by apply H). by rewrite IH.
  - destruct (Hd 0%nat v eq_refl Hv) as [k Hk]. cbn in Hk. subst o. cbn [mbind option_bind]. rewrite decide_True, zlen_cons, IH by done. lia.
Qed.

(** The number of entries is that of the bindings. *)
Lemma cached_size (c : bounded_hash_cache) (M : gmap Z Z) : cached c M -> size_ c = Z.of_nat (size M).
Proof.
  intros C. pose proof C as [W H]. rewrite (wc_size _ W). destruct (wc_arrays _ W) as [(Ev & Ek & Ec)|[p U]].
  { rewrite (empty_cached c M Ev Ec C), Ev. done. }
  pose proof (tb_shaped _ _ _ (us_table _ _ U)) as Sh. pose proof (tb_unique _ _ _ (us_table _ _ U)) as Un. rewrite <- (us_capacity _ _ U) in Sh, Un.
  assert (length (keys_ c) = length (values_ c)) as Hl by (pose proof (sh_keys _ _ _ Sh); pose proof (sh_values _ _ _ Sh); unfold zlen in *; lia).
  assert (forall i k v, slot_entry <$> zip (keys_ c) (values_ c) !! i = Some (Some (k, v)) ->
    in_ring (capacity_ c) (Z.of_nat i) /\ entry (keys_ c) (values_ c) (Z.of_nat i) = Some (k, v)) as HE.
  { intros i k v Hi. apply fmap_Some in Hi as ([o w] & Hz & Eo). pose proof (lookup_lt_Some _ _ _ Hz) as Hlt. rewrite length_zip_with in Hlt.
    assert (in_ring (capacity_ c) (Z.of_nat i)) as Hr by (pose proof (sh_keys _ _ _ Sh); unfold in_ring, zlen in *; lia).
    split; [done|]. apply (entry_zip _ _ _ _ _ _ Sh Hr). rewrite Nat2Z.id. unfold slot_entry in Eo. cbn in Eo.
    destruct (Z.eqb_spec w invalid_value); [done|]. destruct o as [k'|]; [|done]. injection Eo as -> ->. done. }
  assert (NoDup (slot_entries c).*1) as Hnd.
  { apply omap_NoDup_keys. intros i j k v w Hi Hj. destruct (HE _ _ _ Hi) as [Ri Ei], (HE _ _ _ Hj) as [Rj Ej].
    pose proof (Un _ _ k v w Ri Rj Ei Ej). lia. }
  assert (M = list_to_map (slot_entries c)) as ->.
  { apply map_eq. intros k. apply option_eq. intros v. rewrite H, <- elem_of_list_to_map by done. unfold slot_entries. rewrite list_elem_of_omap. split.
    - intros (i & Hi & Ei). apply (entry_zip _ _ _ _ _ _ Sh Hi) in Ei as [Ei Hv]. exists (Some k, v). split; [by eapply list_elem_of_lookup_2|].
      unfold slot_entry. cbn. by destruct (Z.eqb_spec v invalid_value).
    - intros (x & Hx & Ex). apply list_elem_of_lookup in Hx as [i Hi]. exists (Z.of_nat i). apply HE. by rewrite Hi; cbn; rewrite Ex. }
  rewrite map_size_list_to_map by done. unfold slot_entries. symmetry. apply omap_occupied; [done|].
  intros i v Hi Hv. pose proof (lookup_lt_Some _ _ _ Hi) as Hlt. pose proof (sh_defined _ _ _ Sh (Z.of_nat i) v) as Hd.
  unfold key_at in Hd. rewrite Nat2Z.id in Hd. apply Hd.
  - pose proof (sh_values _ _ _ Sh). unfold in_ring, zlen in *. lia.
  - unfold value_at. by rewrite Nat2Z.id.
  - done.
Qed.

(** ** What a bounded cache promises

    A finite map with a maximum and a count of the attempts to insert into a full cache. *)
Record memory := mk_memory { m_map : gmap Z Z; m_max : Z; m_attempts : Z }.

(** Inserting a key that is not there: below the maximum the pair is stored, unless memory for
    growing is refused; a full cache refuses but every 64th attempt, which gives up one entry. *)
Inductive gives (mem : bool) (key v : Z) : memory -> memory -> Prop :=
  | gives_stored M n a : Z.of_nat (size M) < n -> gives mem key v (mk_memory M n a) (mk_memory (<[key := v]> M) n a)
  | gives_no_memory M n a : mem = false -> Z.of_nat (size M) < n -> gives mem key v (mk_memory M n a) (mk_memory M n a)
  | gives_refused M n a : n <= Z.of_nat (size M) -> u32 (a + 1) mod 64 <> 0 -> gives mem key v (mk_memory M n a) (mk_memory M n (u32 (a + 1)))
  | gives_evicted M n a old : n <= Z.of_nat (size M) -> u32 (a + 1) mod 64 = 0 -> is_Some (M !! old) ->
      gives mem key v (mk_memory M n a) (mk_memory (<[key := v]> (delete old M)) n (u32 (a + 1))).

(** The state of a cache as that of the specification. *)
Definition memory_of (c : bounded_hash_cache) (M : gmap Z Z) : memory := mk_memory M (max_size_ c) (admission_ c).

(** What [make_room] has done with the entries. *)
Definition room_made (mem go : bool) (c c1 : bounded_hash_cache) (M M1 : gmap Z Z) : Prop :=
  (size_ c < max_size_ c /\ admission_ c1 = admission_ c /\ M1 = M /\ (go = false -> mem = false)) \/
  (max_size_ c <= size_ c /\ admission_ c1 = u32 (admission_ c + 1) /\
     if go then u32 (admission_ c + 1) mod 64 = 0 /\ exists old, is_Some (M !! old) /\ M1 = delete old M
     else u32 (admission_ c + 1) mod 64 <> 0 /\ M1 = M).

Lemma room_gives (mem go : bool) (key v : Z) (c c1 c' : bounded_hash_cache) (M M1 : gmap Z Z) :
  cached c M -> room_made mem go c c1 M M1 -> max_size_ c' = max_size_ c -> admission_ c' = admission_ c1 ->
  gives mem key v (memory_of c M) (memory_of c' (if go then <[key := v]> M1 else M1)).
Proof.
  intros C R Em Ea. unfold memory_of. rewrite Em, Ea. pose proof (cached_size c M C) as Hs.
  destruct R as [(Hlt & -> & -> & Hgo)|(Hge & -> & R)].
  - destruct go; [constructor; lia|]. apply gives_no_memory; [by apply Hgo|lia].
  - destruct go; [destruct R as (H0 & old & Hold & ->); apply gives_evicted; (done || lia)|].
    destruct R as [H0 ->]. apply gives_refused; (done || lia).
Qed.

(** ** Inserting *)

Lemma victim_loop_ok (p : Z) (ks : list (option Z)) (vs : list Z) (fuel : nat) (i f : Z) :
  0 <= p <= 31 -> shaped (2 ^ p) ks vs -> in_ring (2 ^ p) i -> in_ring (2 ^ p) f -> entry ks vs f <> None ->
  dist (2 ^ p) i f < Z.of_nat fuel ->
  exists j k v, victim_loop fuel vs (2 ^ p) i = Some j /\ in_ring (2 ^ p) j /\ entry ks vs j = Some (k, v).
Proof.
  intros Hp Sh Hi Hf Ef. revert i Hi. induction fuel as [|fuel IH]; intros i Hi Hd.
  { pose proof (dist_ring _ _ _ Hi Hf). unfold in_ring in *. lia. }
  cbn [victim_loop]. destruct (entry_cases _ ks vs i Sh Hi) as [[Hv Ei]|(k & v & Hv & Hne & Hk & Ei)]; rewrite Hv; cbn [mbind option_bind].
  - rewrite Z.eqb_refl, slot_after by done. apply IH; [by apply after_ring|].
    rewrite dist_from_after; [lia|done..|]. congruence.
  - destruct (Z.eqb_spec v invalid_value) as [|_]; [done|]. by exists i, k, v.
Qed.

Lemma u32_pred (x : Z) : 1 <= x < 2 ^ 32 -> u32 (x - 1) = x - 1.
Proof. intros H. apply wrap_small. unfold in_range. lia. Qed.

(** The state in which an entry can be stored. *)
Definition roomy (c : bounded_hash_cache) : Prop :=
  size_ c < max_size_ c /\ 2 * (size_ c + 1) <= capacity_ c /\ exists p, usable p c.

Lemma erase_cached (c : bounded_hash_cache) (M : gmap Z Z) (p i k v : Z) :
  cached c M -> usable p c -> in_ring (capacity_ c) i -> entry (keys_ c) (values_ c) i = Some (k, v) ->
  exists c', erase i c = Some c' /\ cached c' (delete k M) /\ usable p c' /\ size_ c' = size_ c - 1 /\
    max_size_ c' = max_size_ c /\ capacity_ c' = capacity_ c /\ table_revision_ c' = u32 (table_revision_ c + 1).
Proof.
  intros [W H] U Hi Ei. pose proof U as [Hp Hc Tb Hl Hv]. pose proof (Z.pow_pos_nonneg 2 p ltac:(lia) ltac:(lia)) as Hpow.
  pose proof (Z.pow_le_mono_r 2 p 30 ltac:(lia) ltac:(lia)) as Hmax.
  unfold erase. rewrite Hc in Hi, Hl, Hv, H |- *.
  destruct (erase_table p ltac:(lia) (keys_ c) (values_ c) i k v Tb Hi Ei) as (ks & vs & hole & E & T' & O' & HH).
  { rewrite <- (wc_size _ W). lia. }
  rewrite E. cbn [mbind option_bind]. eexists. split; [done|].
  pose proof (occupied_bounds (<[Z.to_nat hole:=invalid_value]> vs)) as Hb. rewrite <- (wc_size _ W) in O'.
  assert (u32 (size_ c - 1) = size_ c - 1) as Eu by (apply u32_pred; lia).
  match goal with |- cached ?m _ /\ _ => assert (usable p m) as U' end.
  { split; cbn; [done|done|exact T'|rewrite Eu; lia|done]. }
  split_and!; [split|exact U'|exact Eu|done|done|done].
  - split; cbn; [apply W|by rewrite Eu|pose proof (wc_limit _ W); lia|apply wrap_range; lia|]. right. by exists p.
  - intros k' v'. cbn. rewrite HH, lookup_delete_Some, H. split; (intros [? ?]; split; [congruence|done]).
Qed.

Lemma erase_admission (i : Z) (c c' : bounded_hash_cache) : erase i c = Some c' -> admission_ c' = admission_ c.
Proof. unfold erase. destruct (erase_loop _ _ _ _ _ _) as [[[ks vs] e]|]; [|done]. cbn [mbind option_bind]. by intros [= <-]. Qed.

Lemma resize_admission (mem : bool) (n : Z) (c c' : bounded_hash_cache) (b : bool) : resize mem n c = Some (b, c') -> admission_ c' = admission_ c.
Proof. unfold resize. destruct mem; cbn [negb]; [|by intros [= _ <-]]. destruct (resize_loop _ _ _ _) as [[ks vs]|]; [|done]. cbn [mbind option_bind]. by intros [= _ <-]. Qed.

(** Growing keeps the entries, evicting drops one, and an insertion may be refused. *)
Lemma make_room_ok (mem : bool) (c : bounded_hash_cache) (M : gmap Z Z) :
  cached c M ->
  exists go c1 M1, make_room mem c = Some (go, c1) /\ cached c1 M1 /\ M1 ⊆ M /\ max_size_ c1 = max_size_ c /\ size_ c1 <= size_ c /\
    (mem = true -> size_ c < max_size_ c -> go = true /\ M1 = M) /\ room_made mem go c c1 M M1 /\
    (go = true -> roomy c1 /\ (c1 = c /\ values_ c <> [] \/ table_revision_ c1 = u32 (table_revision_ c + 1))).
Proof.
  intros C. pose proof C as [W H]. pose proof (wc_max _ W) as Hm. pose proof (wc_limit _ W) as Hs.
  assert (forall q, 3 <= q <= 30 -> 2 * (size_ c + 1) <= 2 ^ q -> size_ c < max_size_ c ->
    exists go c1 M1, resize mem (2 ^ q) c = Some (go, c1) /\ cached c1 M1 /\ M1 ⊆ M /\ max_size_ c1 = max_size_ c /\ size_ c1 <= size_ c /\
      (mem = true -> size_ c < max_size_ c -> go = true /\ M1 = M) /\ room_made mem go c c1 M M1 /\
      (go = true -> roomy c1 /\ (c1 = c /\ values_ c <> [] \/ table_revision_ c1 = u32 (table_revision_ c + 1)))) as HR.
  { intros q Hq Hsz Hlt. destruct mem.
    - destruct (resize_cached c M q C Hq ltac:(lia)) as (c' & E & C' & U & Es & Em & Er).
      exists true, c', M. split_and!; [done|done|done|done|lia|done|left; by rewrite (resize_admission _ _ _ _ _ E)|]. intros _. split; [|by right].
      split; [lia|]. rewrite Es, (us_capacity _ _ U). split; [done|by exists q].
    - exists false, c, M. split_and!; (done || lia || by left). }
  unfold make_room. destruct (wc_arrays _ W) as [(Ev & Ek & Ec)|[p U]].
  - assert ((length (values_ c) =? 0)%nat = true) as -> by by rewrite Ev.
    pose proof (wc_size _ W) as Hz. rewrite Ev in Hz. change (occupied []) with 0 in Hz.
    unfold min_capacity in *. apply (HR 3); lia.
  - rewrite (proj2 (usable_nonempty p c U)). pose proof (proj1 (usable_nonempty p c U)) as Hne.
    pose proof U as [Hp Hc Tb Hl Hv]. pose proof (tb_shaped _ _ _ Tb) as Sh.
    assert (capacity_ c / 2 = 2 ^ (p - 1) /\ 2 ^ p = 2 * 2 ^ (p - 1)) as [Eh E2].
    { assert (2 ^ p = 2 * 2 ^ (p - 1)) as E by (rewrite <- Z.pow_succ_r by lia; f_equal; lia).
      split; [|done]. rewrite Hc, E, Z.mul_comm. by apply Z.div_mul. }
    destruct (Z.ltb_spec (size_ c) (max_size_ c)) as [Hlt|Hge]; cbn [andb].
    + destruct (Z.leb_spec (capacity_ c / 2) (size_ c)) as [Hfull|Hroom].
      * assert (p < 30) as Hp'. { apply (Z.pow_lt_mono_r_iff 2); [lia|lia|]. lia. }
        assert (2 ^ p * 2 = 2 ^ (p + 1)) as E3 by (rewrite Z.pow_add_r by lia; lia).
        pose proof (Z.pow_le_mono_r 2 (p + 1) 31 ltac:(lia) ltac:(lia)) as Hle.
        pose proof (Z.pow_pos_nonneg 2 (p - 1) ltac:(lia) ltac:(lia)).
        rewrite Hc, E3. rewrite wrap_small by (unfold in_range; lia). apply HR; lia.
      * destruct (Z.leb_spec (max_size_ c) (size_ c)) as [|_]; [lia|]. exists true, c, M.
        split_and!; [done|done|done|done|lia|done|by left|]. intros _. split; [|by left]. split_and!; [done|lia|by exists p].
    + destruct (Z.leb_spec (max_size_ c) (size_ c)) as [_|]; [|lia]. clear HR. unfold min_capacity in Hm.
      assert (Z.land (u32 (admission_ c + 1)) (admission_divisor - 1) = u32 (admission_ c + 1) mod 64) as -> by (apply (land_mask _ 6); lia).
      destruct (Z.eqb_spec (u32 (admission_ c + 1) mod 64) 0) as [H64|H64]; cbn [negb].
      2: { exists false, (set_victim (victim_ c) (u32 (admission_ c + 1)) c), M. split_and!; [done| |done|done|cbn; lia|lia|by right|done].
        split; [|exact H]. destruct W. split; try done. right. exists p. by destruct U. }
      destruct (occupied_exists _ _ _ Sh) as (f & Hf & Ef); [rewrite <- (wc_size _ W); lia|].
      rewrite Hc in Hv |- *.
      destruct (victim_loop_ok p (keys_ c) (values_ c) (length (values_ c)) (victim_ c) f ltac:(lia) Sh Hv Hf Ef)
        as (j & k & v & E & Hj & Ej).
      { pose proof (dist_ring _ _ _ Hv Hf). pose proof (sh_values _ _ _ Sh). unfold in_ring, zlen in *. lia. }
      rewrite E. cbn [mbind option_bind].
      pose proof (slot_ring p (j + 1) ltac:(lia)) as Hr.
      assert (cached (set_victim (slot (2 ^ p) (j + 1)) (u32 (admission_ c + 1)) c) M /\
        usable p (set_victim (slot (2 ^ p) (j + 1)) (u32 (admission_ c + 1)) c)) as [C2 U2].
      { assert (usable p (set_victim (slot (2 ^ p) (j + 1)) (u32 (admission_ c + 1)) c)) as U2.
        { split; cbn; [done|done|done|done|by rewrite Hc]. }
        split; [|done]. split; [|exact H]. destruct W. split; try done. right. by exists p. }
      destruct (erase_cached _ M p j k v C2 U2) as (c' & E' & C' & U' & Es & Em & Ecap & Er); [cbn; by rewrite Hc|done|].
      rewrite E'. cbn [mbind option_bind]. exists true, c', (delete k M).
      cbn in Es, Em, Ecap. split_and!; [done|done|apply delete_subseteq|done|lia|lia| |].
      { right. split; [lia|]. split; [by rewrite (erase_admission _ _ _ E')|]. split; [done|]. exists k. split; [|done]. exists v. apply H. rewrite Hc. by exists j. }
      intros _. split; [|by right].
      split_and!; [lia|rewrite Es, Ecap; lia|by exists p].
Qed.

Lemma store_cached (c : bounded_hash_cache) (M : gmap Z Z) (i k v : Z) :
  cached c M -> roomy c -> in_ring (capacity_ c) i -> entry (keys_ c) (values_ c) i = None ->
  passed (capacity_ c) (entry (keys_ c) (values_ c)) k i -> v <> invalid_value ->
  cached (store_entry i k v c) (<[k := v]> M).
Proof.
  intros [W H] (Hlt & Hl & p & U) Hi Ei P Hv. pose proof U as [Hp Hc Tb _ Hvi].
  pose proof (Z.pow_le_mono_r 2 p 30 ltac:(lia) ltac:(lia)) as Hmax. rewrite Hc in Hi, Hl, P, Hvi, H.
  destruct (store_table p ltac:(lia) _ _ i k v Tb Hi Ei P Hv) as (T' & O' & HH).
  assert (u32 (size_ c + 1) = size_ c + 1) as Eu.
  { apply wrap_small. pose proof (occupied_bounds (values_ c)). rewrite <- (wc_size _ W) in *. unfold in_range. lia. }
  split.
  - split; cbn; [apply W|rewrite Eu, (wc_size _ W); lia|rewrite Eu; lia|apply wrap_range; lia|].
    right. exists p. split; cbn; [done|done|done|rewrite Eu; lia|by rewrite Hc].
  - intros k' v'. cbn. rewrite Hc, HH, lookup_insert_Some, H.
    pose proof (passed_absent p (keys_ c) (values_ c) ltac:(lia) k i (tb_probed _ _ _ Tb) Hi Ei P) as Ha.
    split; [intros [[-> ->]|[_ ?]]; eauto|]. intros [[-> ->]|Hh]; [by left|]. right. split; [|done]. intros <-. by apply (Ha v').
Qed.

Lemma overwrite_cached (c : bounded_hash_cache) (M : gmap Z Z) (p i k v w : Z) :
  cached c M -> usable p c -> in_ring (capacity_ c) i -> entry (keys_ c) (values_ c) i = Some (k, w) ->
  v <> invalid_value -> cached (overwrite i v c) (<[k := v]> M).
Proof.
  intros [W H] U Hi Ei Hv. pose proof U as [Hp Hc Tb Hl Hvi]. rewrite Hc in Hi, H.
  destruct (overwrite_table p _ _ i k v w Tb Hi Ei Hv) as (T' & O' & HH). split.
  - destruct W. split; cbn; try done; [congruence|]. right. exists p. by split.
  - intros k' v'. cbn. rewrite Hc, HH, lookup_insert_Some, H. naive_solver.
Qed.

(** Inserting a key that the table does not have, with the token of the search for it or none. *)
Lemma insert_new_ok (mem : bool) (key v : Z) (t : insert_token) (c : bounded_hash_cache) (M : gmap Z Z) :
  cached c M -> M !! key = None -> v <> invalid_value -> t = no_token \/ good_token c key t ->
  exists c' M', insert_new mem key v t c = Some c' /\ cached c' M' /\ M' ⊆ <[key := v]> M /\ max_size_ c' = max_size_ c /\
    gives mem key v (memory_of c M) (memory_of c' M').
Proof.
  intros C Hk Hv Ht. destruct (make_room_ok mem c M C) as (go & c1 & M1 & E & C1 & Hsub & Em & Hsz & Hfull & Hroom & Hgo).
  unfold insert_new. rewrite E. cbn [mbind option_bind].
  assert (M1 ⊆ <[key := v]> M) as Hs1 by (etrans; [exact Hsub|by apply insert_subseteq]).
  destruct go; cbn [negb].
  2: { exists c1, M1. split_and!; [done|done|done|done|]. by apply (room_gives mem false key v c c1). }
  destruct (Hgo eq_refl) as [R Hrev]. pose proof R as (_ & _ & p & U).
  assert (forall i, in_ring (capacity_ c1) i -> entry (keys_ c1) (values_ c1) i = None ->
    passed (capacity_ c1) (entry (keys_ c1) (values_ c1)) key i ->
    exists c' M', Some (store_entry i key v c1) = Some c' /\ cached c' M' /\ M' ⊆ <[key := v]> M /\
      max_size_ c' = max_size_ c /\ gives mem key v (memory_of c M) (memory_of c' M')) as HS.
  { intros i Hi Ei P. exists (store_entry i key v c1), (<[key := v]> M1).
    split_and!; [done|by apply store_cached|by apply insert_mono|done|]. by apply (room_gives mem true key v c c1). }
  destruct (token_usable t c1) eqn:Eu.
  - unfold token_usable in Eu. destruct (_ && _) eqn:Et in Eu; [|done]. apply andb_true_iff in Et as [Er Es]. clear Eu.
    apply Z.eqb_eq in Er. apply Z.ltb_lt in Es. destruct Ht as [->|[Etr Hg]].
    { cbn in Es. rewrite (us_capacity _ _ U) in Es. pose proof (us_power _ _ U) as Hp.
      pose proof (Z.pow_le_mono_r 2 p 30 ltac:(lia) ltac:(lia)). lia. }
    destruct Hrev as [[-> Hne]|Hrev].
    + destruct (Hg Hne) as (Hi & Ei & P). by apply HS.
    + exfalso. pose proof (wc_revision _ (proj1 C)) as Hr. rewrite Etr, Hrev in Er.
      unfold in_range in Hr. unfold wrap in Er. destruct (Z.eq_dec (table_revision_ c) (2 ^ 32 - 1)) as [E1|].
      * rewrite E1 in Er. by vm_compute in Er.
      * rewrite Z.mod_small in Er; lia.
  - clear Ht. destruct (find_slot_ok p c1 key (proj1 C1) U) as (j & found & -> & Hj & Pj & Hr). cbn [mbind option_bind].
    destruct found; [|destruct Hr as [_ Ej]; by apply HS].
    exfalso. destruct Hr as (w & _ & Ej). assert (M1 !! key = Some w) as Hw by (apply C1; by exists j).
    pose proof (lookup_weaken _ _ _ _ Hw Hsub). congruence.
Qed.

Lemma insert_cached (mem : bool) (key v : Z) (c : bounded_hash_cache) (M : gmap Z Z) :
  cached c M -> v <> invalid_value ->
  exists c' M', insert mem key v c = Some c' /\ cached c' M' /\ max_size_ c' = max_size_ c /\
    match M !! key with
    | Some _ => memory_of c' M' = mk_memory (<[key := v]> M) (max_size_ c) (admission_ c)
    | None => gives mem key v (memory_of c M) (memory_of c' M')
    end.
Proof.
  intros C Hv. unfold insert. destruct (find_cached c M key C) as (r & E & Hr). unfold find in E.
  destruct (find_slot_or_empty c key) as [[j found]|] eqn:Ef; [|done]. cbn [mbind option_bind] in *. destruct found.
  - destruct (wc_arrays _ (proj1 C)) as [(Ev & _)|[p U]]; [unfold find_slot_or_empty in Ef; by rewrite Ev in Ef|].
    destruct (find_slot_ok p c key (proj1 C) U) as (j' & found' & Ef' & Hj & _ & Hr'). rewrite Ef in Ef'. injection Ef' as <- <-.
    destruct Hr' as (w & Ew & Ej). rewrite Ew in E. injection E as <-. rewrite Hr.
    exists (overwrite j v c), (<[key := v]> M). split_and!; [done| |done|done].
    by apply (overwrite_cached c M p j key v w).
  - injection E as <-. destruct Hr as [Hn _]. rewrite Hn.
    destruct (insert_new_ok mem key v no_token c M C Hn Hv (or_introl eq_refl)) as (c' & M' & ? & ? & _ & ? & ?). by exists c', M'.
Qed.

Lemma set_max_size_cached (limit n : Z) (c : bounded_hash_cache) (M : gmap Z Z) :
  min_capacity <= limit <= 2 ^ 28 -> max_size_ c <= limit -> cached c M ->
  cached (set_max_size limit n c).2 M /\ max_size_ (set_max_size limit n c).2 <= limit.
Proof.
  intros Hl Hm [W H]. unfold set_max_size. destruct (Z.eqb_spec (normalize_max_size limit n) (max_size_ c)) as [|Hne]; [done|].
  assert (min_capacity <= normalize_max_size limit n <= limit) as Hn.
  { unfold normalize_max_size. destruct (Z.ltb_spec n min_capacity); [lia|]. destruct (Z.ltb_spec limit n); lia. }
  destruct (negb (size_ c =? 0) && _) eqn:E; [done|]. cbn. split; [|lia]. split; [|exact H].
  assert (size_ c <= normalize_max_size limit n) as Hs.
  { pose proof (wc_limit _ W). apply andb_false_iff in E as [E|E].
    - apply negb_false_iff, Z.eqb_eq in E. unfold min_capacity in *. lia.
    - apply Z.ltb_ge in E. lia. }
  destruct W as [Wm Ws Wl Wr Wa]. split; cbn; [lia|done|done|done|]. destruct Wa as [?|[p U]]; [by left|right; exists p].
  by destruct U.
Qed.

Lemma clear_cached (c : bounded_hash_cache) : well_formed c -> cached (clear c) ∅.
Proof.
  intros W. pose proof (wc_max _ W). split.
  - split; cbn; [done|done|unfold min_capacity in *; lia|apply wrap_range; lia|by left].
  - intros k v. rewrite lookup_empty. split; [done|]. intros (i & Hi & _). cbn in Hi. unfold in_ring in Hi. lia.
Qed.

Lemma new_cached (limit n : Z) : min_capacity <= limit <= 2 ^ 28 ->
  cached (new_cache limit n) ∅ /\ max_size_ (new_cache limit n) <= limit.
Proof.
  intros Hl.
  assert (min_capacity <= normalize_max_size limit n <= limit) as Hn.
  { unfold normalize_max_size. destruct (Z.ltb_spec n min_capacity); [lia|]. destruct (Z.ltb_spec limit n); lia. }
  split; [|cbn; lia]. split.
  - split; cbn; [lia|done|unfold min_capacity in *; lia|unfold in_range; lia|by left].
  - intros k v. rewrite lookup_empty. split; [done|]. intros (i & Hi & _). cbn in Hi. unfold in_ring in Hi. lia.
Qed.

(** ** Sequences of operations *)

(** [Memo] is the search with the insertion of the missed key by its token, as the appender
    does it; [mem] says whether memory for growing is available. *)
Inductive cache_op :=
| Find (key : Z)
| Memo (mem : bool) (key value : Z)
| Insert (mem : bool) (key value : Z)
| SetMax (max_size : Z)
| Clear.

(** The value that a search finds, and the cache. *)
Definition step (limit : Z) (c : bounded_hash_cache) (op : cache_op) : option (option Z * bounded_hash_cache) :=
  match op with
  | Find key => r ← find c key; Some (match r with inl v => Some v | inr _ => None end, c)
  | Memo mem key value =>
      r ← find c key;
      match r with
      | inl v => Some (Some v, c)
      | inr token => c ← insert_new mem key value token c; Some (None, c)
      end
  | Insert mem key value => c ← insert mem key value c; Some (None, c)
  | SetMax n => Some (None, (set_max_size limit n c).2)
  | Clear => Some (None, clear c)
  end.

Fixpoint run (limit : Z) (c : bounded_hash_cache) (ops : list cache_op) : option (list (option Z) * bounded_hash_cache) :=
  match ops with
  | [] => Some ([], c)
  | op :: ops => '(r, c) ← step limit c op; '(rs, c) ← run limit c ops; Some (r :: rs, c)
  end.

Definition storable (op : cache_op) : Prop :=
  match op with Memo _ _ v | Insert _ _ v => v <> invalid_value | _ => True end.

(** An operation that loses nothing by itself. *)
Definition keeping (op : cache_op) : Prop :=
  match op with Find _ => True | Memo mem _ _ | Insert mem _ _ => mem = true | _ => False end.

(** What a search may answer when the last values given for the keys are those of [H]. *)
Definition answer (exact : bool) (H : gmap Z Z) (key : Z) (r : option Z) : Prop :=
  if exact then r = H !! key else forall v, r = Some v -> H !! key = Some v.

Fixpoint answers (exact : bool) (H : gmap Z Z) (ops : list cache_op) (rs : list (option Z)) : Prop :=
  match ops, rs with
  | [], [] => True
  | op :: ops, r :: rs =>
      match op with
      | Find key => answer exact H key r /\ answers exact H ops rs
      | Memo _ key v => answer exact H key r /\ answers exact (match r with Some _ => H | None => <[key := v]> H end) ops rs
      | Insert _ key v => answers exact (<[key := v]> H) ops rs
      | SetMax _ => answers exact H ops rs
      | Clear => answers exact ∅ ops rs
      end
  | _, _ => False
  end.

(** ** The refinement *)

Inductive memory_step (limit : Z) : memory -> cache_op -> option Z -> memory -> Prop :=
  | ms_find s key : memory_step limit s (Find key) (m_map s !! key) s
  | ms_memo_found s mem key v w : m_map s !! key = Some w -> memory_step limit s (Memo mem key v) (Some w) s
  | ms_memo_missed s s' mem key v : m_map s !! key = None -> gives mem key v s s' -> memory_step limit s (Memo mem key v) None s'
  | ms_insert_found s mem key v w : m_map s !! key = Some w ->
      memory_step limit s (Insert mem key v) None (mk_memory (<[key := v]> (m_map s)) (m_max s) (m_attempts s))
  | ms_insert_new s s' mem key v : m_map s !! key = None -> gives mem key v s s' -> memory_step limit s (Insert mem key v) None s'
  | ms_set_max s n : memory_step limit s (SetMax n) None
      (if bool_decide (m_map s <> ∅) && (normalize_max_size limit n <? m_max s) then s
       else mk_memory (m_map s) (normalize_max_size limit n) (m_attempts s))
  | ms_clear s : memory_step limit s Clear None (mk_memory ∅ (m_max s) 0).

Inductive memory_run (limit : Z) : memory -> list cache_op -> list (option Z) -> memory -> Prop :=
  | mr_nil s : memory_run limit s [] [] s
  | mr_cons s op r s1 ops rs s2 : memory_step limit s op r s1 -> memory_run limit s1 ops rs s2 -> memory_run limit s (op :: ops) (r :: rs) s2.

Lemma set_max_memory (limit n : Z) (c : bounded_hash_cache) (M : gmap Z Z) :
  cached c M ->
  memory_of (set_max_size limit n c).2 M =
    (if bool_decide (M <> ∅) && (normalize_max_size limit n <? max_size_ c) then memory_of c M
     else mk_memory M (normalize_max_size limit n) (admission_ c)).
Proof.
  intros C. pose proof (cached_size c M C) as Hs. unfold set_max_size, memory_of.
  destruct (Z.eqb_spec (normalize_max_size limit n) (max_size_ c)) as [->|Hne]; [by rewrite Z.ltb_irrefl, andb_false_r|].
  assert (negb (size_ c =? 0) = bool_decide (M <> ∅)) as ->; [|by destruct (_ && _)].
  rewrite Hs. destruct (decide (M = ∅)) as [->|HM]; [by rewrite bool_decide_eq_false_2 by (intros H; by apply H)|].
  rewrite bool_decide_eq_true_2 by done. apply negb_true_iff, Z.eqb_neq. rewrite <- map_size_non_empty_iff in HM. lia.
Qed.

Lemma step_memory (limit : Z) (op : cache_op) (c : bounded_hash_cache) (M : gmap Z Z) :
  min_capacity <= limit <= 2 ^ 28 -> max_size_ c <= limit -> cached c M -> storable op ->
  exists r c' M', step limit c op = Some (r, c') /\ memory_step limit (memory_of c M) op r (memory_of c' M') /\ cached c' M' /\ max_size_ c' <= limit.
Proof.
  intros Hl Hm C Hst. destruct op as [key|mem key v|mem key v|n|]; cbn [step].
  - destruct (find_cached c M key C) as (r & -> & Hr). cbn [mbind option_bind]. exists (M !! key), c, M. split; [|by split_and!; [constructor| |]].
    destruct r as [w|t]; [by rewrite Hr|by destruct Hr as [-> _]].
  - destruct (find_cached c M key C) as (r & -> & Hr). cbn [mbind option_bind]. destruct r as [w|t].
    + exists (Some w), c, M. split; [done|]. by split_and!; [constructor| |].
    + destruct Hr as [Hn Ht]. destruct (insert_new_ok mem key v t c M C Hn Hst (or_intror Ht)) as (c' & M' & -> & C' & _ & Em & G).
      exists None, c', M'. split; [done|]. split_and!; [by apply ms_memo_missed|done|lia].
  - destruct (insert_cached mem key v c M C Hst) as (c' & M' & -> & C' & Em & G). exists None, c', M'. split; [done|].
    split_and!; [|done|lia]. destruct (M !! key) as [w|] eqn:Hk; [|by apply ms_insert_new]. rewrite G. by apply (ms_insert_found _ (memory_of c M) mem key v w).
  - destruct (set_max_size_cached limit n c M Hl Hm C) as [C' Hm']. eexists None, _, M. split; [done|].
    split_and!; [rewrite set_max_memory by done; apply (ms_set_max limit (memory_of c M))|done|done].
  - exists None, (clear c), ∅. split; [done|]. split_and!; [apply (ms_clear limit (memory_of c M))|apply clear_cached, C|done].
Qed.

Lemma run_memory (limit : Z) (ops : list cache_op) (c : bounded_hash_cache) (M : gmap Z Z) :
  min_capacity <= limit <= 2 ^ 28 -> max_size_ c <= limit -> cached c M -> Forall storable ops ->
  exists rs c' M', run limit c ops = Some (rs, c') /\ memory_run limit (memory_of c M) ops rs (memory_of c' M') /\ cached c' M' /\ max_size_ c' <= limit.
Proof.
  intros Hl. revert c M. induction ops as [|op ops IH]; intros c M Hm C Hst; [exists [], c, M; by split_and!; [|constructor| |]|].
  apply Forall_cons in Hst as [Hop Hst]. destruct (step_memory limit op c M Hl Hm C Hop) as (r & c1 & M1 & E1 & S1 & C1 & Hm1).
  destruct (IH c1 M1 Hm1 C1 Hst) as (rs & c2 & M2 & E2 & S2 & C2 & Hm2). exists (r :: rs), c2, M2. cbn [run]. rewrite E1. cbn [mbind option_bind].
  rewrite E2. split; [done|]. split_and!; [by econstructor|done|done].
Qed.

(** ** What a specification of this kind answers *)

Lemma gives_sub (mem : bool) (key v : Z) (s s' : memory) (H : gmap Z Z) :
  gives mem key v s s' -> m_map s !! key = None -> m_map s ⊆ H -> m_map s' ⊆ <[key := v]> H.
Proof.
  intros G Hk Hs. assert (m_map s ⊆ <[key := v]> H) as Hs'.
  { apply map_subseteq_spec. intros k w Hw. rewrite lookup_insert_ne by congruence. by apply (lookup_weaken (m_map s)). }
  destruct G; cbn in *; try done; apply insert_mono; [done|]. etrans; [apply delete_subseteq|done].
Qed.

Lemma gives_whole (key v : Z) (s s' : memory) : gives true key v s s' -> Z.of_nat (size (m_map s)) < m_max s -> m_map s' = <[key := v]> (m_map s) /\ m_max s' = m_max s.
Proof. intros G Hlt. destruct G; cbn in *; (done || lia). Qed.

(** The keys that may be inserted. *)
Definition inserted (op : cache_op) : option Z := match op with Memo _ key _ | Insert _ key _ => Some key | _ => None end.
Definition inserted_keys (ops : list cache_op) : gset Z := list_to_set (omap inserted ops).

(** The map is part of the history, and all of it if nothing has to be given up. *)
Definition remembers (exact : bool) (s : memory) (H : gmap Z Z) (keys : gset Z) : Prop :=
  m_map s ⊆ H /\ (exact = true -> m_map s = H /\ Z.of_nat (size (dom H ∪ keys)) <= m_max s).

Lemma room_for_key (H : gmap Z Z) (key : Z) (keys : gset Z) :
  H !! key = None -> Z.of_nat (size H) < Z.of_nat (size (dom H ∪ ({[key]} ∪ keys))).
Proof.
  intros Hk. rewrite <- (size_dom (D := gset Z) H). apply inj_lt. apply subset_size. split; [set_solver|]. intros Hsub.
  assert (key ∈ dom H) as Hin by (apply Hsub; set_solver). apply elem_of_dom in Hin as [w Hw]. congruence.
Qed.

Lemma remembers_insert (exact : bool) (mem : bool) (s s' : memory) (H : gmap Z Z) (keys : gset Z) (key v : Z) :
  remembers exact s H ({[key]} ∪ keys) -> m_map s !! key = None -> gives mem key v s s' -> (exact = true -> mem = true) ->
  remembers exact s' (<[key := v]> H) keys.
Proof.
  intros [Hs He] Hk G Hmem. split; [by eapply gives_sub|]. intros E. destruct (He E) as [<- Hsz]. rewrite (Hmem E) in G.
  destruct (gives_whole key v s s' G) as [-> ->]; [pose proof (room_for_key _ _ keys Hk); lia|]. split; [done|].
  rewrite dom_insert_L. replace ({[key]} ∪ dom (m_map s) ∪ keys) with (dom (m_map s) ∪ ({[key]} ∪ keys)) by set_solver. done.
Qed.

Lemma run_answers (exact : bool) (limit : Z) (s s' : memory) (ops : list cache_op) (rs : list (option Z)) (H : gmap Z Z) :
  memory_run limit s ops rs s' -> remembers exact s H (inserted_keys ops) -> (exact = true -> Forall keeping ops) -> answers exact H ops rs.
Proof.
  intros R. revert H. induction R as [s|s op r s1 ops rs s2 Hst R IH]; intros H Hrem Hk; [done|].
  assert (exact = true -> keeping op /\ Forall keeping ops) as Hk2 by (intros E; by apply Forall_cons, Hk). clear Hk.
  assert (forall key o, m_map s !! key = o -> answer exact H key o) as HA.
  { intros key o <-. destruct Hrem as [Hs He]. unfold answer. destruct exact; [by destruct (He eq_refl) as [-> _]|]. intros v Hv. by apply (lookup_weaken (m_map s)). }
  assert (forall keys, keys ⊆ inserted_keys (op :: ops) -> remembers exact s H keys) as Hless.
  { intros keys Hsub. destruct Hrem as [Hs He]. split; [done|]. intros E. destruct (He E) as [-> Hsz]. split; [done|]. etrans; [|exact Hsz].
    apply inj_le, subseteq_size. set_solver. }
  unfold inserted_keys in *. destruct Hst; cbn [answers omap list_omap inserted list_to_set foldr] in *.
  - split; [by apply HA|]. apply IH; [by apply Hless|tauto].
  - split; [by apply HA|]. apply IH; [apply Hless; set_solver|tauto].
  - split; [by apply HA|]. apply IH; [|tauto]. eapply remembers_insert; [exact Hrem|done|done|]. intros E. by destruct (Hk2 E).
  - apply IH; [|tauto]. destruct Hrem as [Hs He]. split; [cbn; by apply insert_mono|]. cbn. intros E. destruct (He E) as [<- Hsz]. split; [done|].
    rewrite dom_insert_L. replace ({[key]} ∪ dom (m_map s) ∪ _) with (dom (m_map s) ∪ ({[key]} ∪ list_to_set (omap inserted ops))) by set_solver. done.
  - apply IH; [|tauto]. eapply remembers_insert; [exact Hrem|done|done|]. intros E. by destruct (Hk2 E).
  - apply IH; [|tauto]. split; [destruct (_ && _); apply Hrem|]. intros E. by destruct (Hk2 E).
  - apply IH; [|tauto]. split; [done|]. intros E. by destruct (Hk2 E).
Qed.

(** C28. The bounded cache refines a finite map that may give entries up for stated reasons
    only. Over any operations on a new cache no loop runs on and no access leaves the arrays;
    the answers of the searches are those of a run of the specification, where a new pair is
    stored unless memory for growing is refused or the map has reached its maximum, and in the
    latter case 63 of 64 attempts are refused and the other one gives up one entry; the cache
    holds exactly the bindings that the specification ends in, and never more than its
    maximum. So a search finds no other value than the last one given for its key, and as long
    as memory is available and the keys inserted are no more than the maximum, the searches
    are exactly those of a finite map. *)
Theorem hash_cache_recalls (limit n : Z) (ops : list cache_op) :
  min_capacity <= limit <= 2 ^ 28 -> Forall storable ops ->
  exists rs c M, run limit (new_cache limit n) ops = Some (rs, c) /\
    memory_run limit (mk_memory ∅ (normalize_max_size limit n) 0) ops rs (mk_memory M (max_size_ c) (admission_ c)) /\
    (forall key, exists r, find c key = Some r /\ M !! key = match r with inl v => Some v | inr _ => None end) /\
    size_ c = Z.of_nat (size M) /\ size_ c <= max_size_ c <= limit /\
    answers false ∅ ops rs /\
    (Forall keeping ops -> Z.of_nat (size (inserted_keys ops)) <= normalize_max_size limit n -> answers true ∅ ops rs).
Proof.
  intros Hl Hst. destruct (new_cached limit n Hl) as [C Hm]. destruct (run_memory limit ops _ ∅ Hl Hm C Hst) as (rs & c & M & E & R & C' & Hm').
  exists rs, c, M. split; [done|]. split; [exact R|]. split; [|split; [by apply cached_size|split; [split; [apply C'|done]|split]]].
  - intros key. destruct (find_cached c M key C') as (r & Er & Hr). exists r. split; [done|]. destruct r; [done|by destruct Hr].
  - eapply run_answers; [exact R|by split|done].
  - intros Hk Hle. eapply run_answers; [exact R| |done]. split; [done|]. intros _. split; [done|]. rewrite dom_empty_L, (left_id_L ∅ (∪)). exact Hle.
Qed.

Lemma hash_cache_recalls_witness :
  exists rs c, run 64 (new_cache 64 8) [Memo true 7 1; Memo true 9 2; Find 7; Memo true 7 5; Insert true 9 3; Find 9; Find 11]
    = Some (rs, c) /\ rs = [None; None; Some 1; Some 1; None; Some 3; None].
Proof.
  destruct (hash_cache_recalls 64 8 [Memo true 7 1; Memo true 9 2; Find 7; Memo true 7 5; Insert true 9 3; Find 9; Find 11])
    as (rs & c & M & E & A & Hs & Hx).
  - unfold min_capacity. lia.
  - repeat (apply Forall_cons; split; [first [exact I | unfold storable, invalid_value; lia]|]). by apply Forall_nil.
  - exists rs, c. split; [exact E|]. clear A Hs Hx. vm_compute in E. injection E as <- _. reflexivity.
Defined.
