(* ===== verification/LogEntry.v ===== *)
(** * Records in memory
    ([include/qlog/record/record_header.hpp], [log_entry_handle.hpp],
    [src/record/log_entry_handle.cpp])

    The header of a record, the accessors of [LogEntryHandle] and its validation, which
    walks the argument cells before the layout trusts them. *)
From stdpp Require Import base list option numbers.
From Stdlib Require Import ZArith Lia Bool.
From S2P Require Import Prelude Memory ArgSerialization.

(** ** The header *)

Record RecordHeader := mk_header {
  timestamp_epoch : Z;
  ext_info_offset : Z;
  category_idx : Z;
  log_thread_id : Z;
  format_hash : Z;
  log_format_str_type : Z;
  level : Z;
  padding : Z;
  log_format_data_len : Z }.

Definition header_size : Z := 40.
Definition ext_header_size : Z := 1.

(** [offsetof(RecordHeader, log_format_str_type)] *)
Definition get_head_size_without_format_str : Z := 32.

(** The header at the start of the data, each field at its offset. *)
Definition read_header (data : list Z) : option RecordHeader :=
  a ← load_le data 0 8; b ← load_le data 8 4; c ← load_le data 12 4;
  d ← load_le data 16 8; e ← load_le data 24 8; f ← load_le data 32 1;
  g ← load_le data 33 1; h ← load_le data 34 2; i ← load_le data 36 4;
  Some (mk_header a b c d e f g h i).

(** ** [LogEntryHandle] *)

(** The offset of the arguments, in [size_t] arithmetic. *)
Definition get_log_args_offset (h : RecordHeader) : Z :=
  u64 (header_size + Z.land (u64 (log_format_data_len h + 3)) (2 ^ 64 - 1 - 3)).

(** [static_cast<uint32_t>(ext_info_offset - get_log_args_offset())] *)
Definition get_log_args_data_size (h : RecordHeader) : Z :=
  u32 (u64 (ext_info_offset h - get_log_args_offset h)).

Definition get_format_string_data (data : list Z) (h : RecordHeader) : option (list Z) :=
  load data header_size (log_format_data_len h).

Definition get_log_args_data (data : list Z) (h : RecordHeader) : option (list Z) :=
  load data (get_log_args_offset h) (get_log_args_data_size h).

(** The extended header and the thread name behind it. *)
Definition get_ext_head (data : list Z) (h : RecordHeader) : option Z :=
  load_le data (ext_info_offset h) 1.

Definition get_thread_name (data : list Z) (h : RecordHeader) : option (list Z) :=
  n ← get_ext_head data h; load data (ext_info_offset h + 1) n.

(** The [switch] over the tag of one argument: [Some None] is [return false], [None] a
    read outside the data. *)
Definition arg_step (data : list Z) (cursor remaining : Z) : option (option Z) :=
  if remaining <? 4 then Some None
  else
    p ← load_le data cursor 1;
    match tag_of_code p with
    | Some (null_type | bool_type | char_type | char16_type | int8_type | uint8_type
            | int16_type | uint16_type) => Some (Some 4)
    | Some (char32_type | int32_type | uint32_type | float_type) => Some (Some 8)
    | Some (pointer_type | int64_type | uint64_type | double_type) => Some (Some 12)
    | Some (string_utf8_type | string_utf16_type) =>
        if remaining <? 8 then Some None
        else
          n ← load_le data (cursor + 4) 4;
          Some (Some (8 + Z.land (n + 3) (2 ^ 64 - 1 - 3)))
    | _ => Some None
    end.

(** [while (cursor < ext)]; [None] is a read outside the data or not enough fuel. *)
Fixpoint validate_args (fuel : nat) (data : list Z) (cursor ext : Z) : option bool :=
  match fuel with
  | O => None
  | S fuel =>
      if cursor <? ext then
        step ← arg_step data cursor (ext - cursor);
        match step with
        | None => Some false
        | Some step =>
            if ext - cursor <? step then Some false
            else validate_args fuel data (cursor + step) ext
        end
      else Some (cursor =? ext)
  end.

Definition is_format_type (b : Z) : bool :=
  match tag_of_code b with
  | Some (string_utf8_type | string_utf16_type | string_utf32_type) => true
  | _ => false
  end.

(** [LogEntryHandle::validate]; [None] is a null [data_ptr_]. *)
Definition validate (data_ptr : option (list Z)) : option bool :=
  match data_ptr with
  | None => Some false
  | Some data =>
      let data_len := zlen data in
      if data_len <? header_size + ext_header_size then Some false
      else
        header ← read_header data;
        if negb (is_format_type (log_format_str_type header)) then Some false
        else
          let args_begin := header_size + Z.land (log_format_data_len header + 3) (2 ^ 64 - 1 - 3) in
          let ext := ext_info_offset header in
          if (data_len <? args_begin) || (ext <? args_begin) || (data_len <? ext + 1)
          then Some false
          else
            name_len ← load_le data ext 1;
            if data_len <? ext + ext_header_size + name_len then Some false
            else validate_args (S (length data)) data args_begin ext
  end.

(** ** What a valid record is *)

(** The size of the value behind a numeric tag; [None] for the other tags. *)
Definition tag_value_size (t : ArgumentTag) : option Z :=
  match t with
  | null_type => Some 0
  | bool_type | char_type | int8_type | uint8_type => Some 1
  | char16_type | int16_type | uint16_type => Some 2
  | char32_type | int32_type | uint32_type | float_type => Some 4
  | pointer_type | int64_type | uint64_type | double_type => Some 8
  | _ => None
  end.

(** A cell of [step] bytes at [cursor]: a tag, then the value on the next two-byte (small
    values) or four-byte boundary, or a length and that many bytes; padded to four. *)
Inductive cell_at (data : list Z) (cursor : Z) : Z -> Prop :=
  | cell_fixed t size :
      load_le data cursor 1 = Some (tag_code t) -> tag_value_size t = Some size ->
      cell_at data cursor (up4 ((if size <=? 2 then 2 else 4) + size))
  | cell_string t n :
      load_le data cursor 1 = Some (tag_code t) ->
      t = string_utf8_type \/ t = string_utf16_type ->
      load_le data (cursor + 4) 4 = Some n ->
      cell_at data cursor (8 + up4 n).

(** Cells that fill the bytes from [cursor] to [ext] exactly. *)
Inductive tiles (data : list Z) (ext : Z) : Z -> Prop :=
  | tiles_end : tiles data ext ext
  | tiles_cell cursor step :
      cell_at data cursor step -> cursor + step <= ext -> tiles data ext (cursor + step) ->
      tiles data ext cursor.

Record record_wf (data : list Z) (h : RecordHeader) : Prop := {
  wf_header : read_header data = Some h;
  wf_format_type : exists t, log_format_str_type h = tag_code t /\
    In t [string_utf8_type; string_utf16_type; string_utf32_type];
  wf_format : header_size + up4 (log_format_data_len h) <= ext_info_offset h;
  wf_ext : exists n, get_ext_head data h = Some n /\ ext_info_offset h + 1 + n <= zlen data;
  wf_args : tiles data (ext_info_offset h) (header_size + up4 (log_format_data_len h)) }.

(** ** Lemmas *)

Lemma load_le_Some (data : list Z) (off n : Z) :
  0 <= off -> 0 <= n -> off + n <= zlen data -> exists v, load_le data off n = Some v.
Proof. intros. unfold load_le. rewrite load_Some by done. simpl. eauto. Qed.

Lemma load_le_inv (data : list Z) (off n v : Z) :
  bytes_ok data -> load_le data off n = Some v ->
  0 <= off /\ off + n <= zlen data /\ 0 <= v < 256 ^ n.
Proof.
  intros Hok H. apply fmap_Some in H as (bs & H & ->).
  pose proof (load_bytes_ok _ _ _ _ H Hok) as Hb.
  apply load_inv in H as (? & ? & ? & _ & <-). apply le_val_range in Hb. done.
Qed.

Lemma tag_of_code_inv (b : Z) (t : ArgumentTag) : 0 <= b -> tag_of_code b = Some t -> b = tag_code t.
Proof.
  intros Hb H. unfold tag_of_code in H. rewrite <- (Z2Nat.id b) by done.
  revert H. generalize (Z.to_nat b) as k. intros k.
  do 21 (destruct k as [|k]; [intros [= <-]; reflexivity|]). done.
Qed.

Lemma mask_up4 (n : Z) : 0 <= n < 2 ^ 63 -> Z.land (n + 3) (2 ^ 64 - 1 - 3) = up4 n.
Proof. intros. apply (land_not_mask (n + 3) 2); unfold in_range; lia. Qed.

Lemma is_format_type_spec (b : Z) :
  0 <= b -> is_format_type b = true <->
  exists t, b = tag_code t /\ In t [string_utf8_type; string_utf16_type; string_utf32_type].
Proof.
  intros Hb. unfold is_format_type. split.
  - destruct (tag_of_code b) as [t|] eqn:E; [|done]. apply tag_of_code_inv in E; [|done].
    intros H. exists t. split; [done|]. destruct t; simpl; try done; tauto.
  - intros (t & -> & H). rewrite tag_of_tag_code.
    destruct H as [<-|[<-|[<-|[]]]]; done.
Qed.

Lemma cell_at_min (data : list Z) (cursor step : Z) :
  bytes_ok data -> cell_at data cursor step -> 4 <= step.
Proof.
  intros Hok [t size _ Hs|t n _ _ Hn].
  - destruct t; try done; injection Hs as <-; vm_compute; congruence.
  - apply load_le_inv in Hn as (_ & _ & Hn); [|done]. pose proof (up4_bounds n). lia.
Qed.

(** The switch computes the size of the cell, or refuses. *)
Lemma arg_step_spec (data : list Z) (cursor ext : Z) :
  bytes_ok data -> 0 <= cursor < ext -> ext <= zlen data ->
  exists r, arg_step data cursor (ext - cursor) = Some r /\
    match r with
    | Some step => cell_at data cursor step
    | None => forall step, cell_at data cursor step -> ext < cursor + step
    end.
Proof.
  intros Hok Hc He. unfold arg_step. destruct (_ <? 4) eqn:E4.
  { apply Z.ltb_lt in E4. exists None. split; [done|]. intros step Hs.
    apply cell_at_min in Hs; [lia|done]. }
  apply Z.ltb_ge in E4. destruct (load_le_Some data cursor 1) as [b Hb]; [lia..|].
  pose proof (load_le_inv _ _ _ _ Hok Hb) as (_ & _ & Hbr). rewrite Hb. simpl mbind.
  assert (forall size, (exists t, tag_of_code b = Some t /\ tag_value_size t = Some size) ->
            cell_at data cursor (up4 ((if size <=? 2 then 2 else 4) + size))) as Hfix.
  { intros size (t & Ht & Hs). apply tag_of_code_inv in Ht as ->; [|lia]. by eapply cell_fixed. }
  assert (tag_of_code b = None \/ (exists t, tag_of_code b = Some t /\ tag_value_size t = None /\
            t <> string_utf8_type /\ t <> string_utf16_type) ->
          forall step, cell_at data cursor step -> ext < cursor + step) as Hno.
  { intros Ht step Hs. exfalso. destruct Hs as [t size H1 H2|t n H1 H2 H3];
      rewrite Hb in H1; injection H1 as ->; rewrite tag_of_tag_code in Ht;
      destruct Ht as [Ht|(t' & [= <-] & Hs & H8 & H16)]; try done; intuition congruence. }
  destruct (tag_of_code b) as [t|] eqn:Et; [|exists None; split; [done|apply Hno; by left]].
  destruct t;
    try (eexists; split; [reflexivity|];
         first [ apply (Hfix 0); by eauto | apply (Hfix 1); by eauto | apply (Hfix 2); by eauto
               | apply (Hfix 4); by eauto | apply (Hfix 8); by eauto ]);
    try (exists None; split; [done|]; apply Hno; right; eexists; by split_and!).
  all: destruct (_ <? 8) eqn:E8;
    [ apply Z.ltb_lt in E8; exists None; split; [done|]; intros step Hs
    | apply Z.ltb_ge in E8; destruct (load_le_Some data (cursor + 4) 4) as [n Hn]; [lia..|];
      pose proof (load_le_inv _ _ _ _ Hok Hn) as (_ & _ & Hnr); rewrite Hn; simpl mbind;
      eexists; split; [reflexivity|]; cbv beta iota; rewrite mask_up4 by lia;
      apply tag_of_code_inv in Et; [|lia]; subst b; eapply cell_string; eauto ].
  all: apply tag_of_code_inv in Et; [|lia]; subst b;
    destruct Hs as [t size H1 H2|t n H1 H2 H3];
    [ rewrite Hb in H1; injection H1 as H1; destruct t; done
    | apply load_le_inv in H3 as (_ & _ & H3); [|done]; pose proof (up4_bounds n); lia ].
Qed.

Lemma cell_at_unique (data : list Z) (cursor s1 s2 : Z) :
  cell_at data cursor s1 -> cell_at data cursor s2 -> s1 = s2.
Proof.
  intros [t1 z1 A1 B1|t1 n1 A1 B1 C1] [t2 z2 A2 B2|t2 n2 A2 B2 C2];
    rewrite A1 in A2; injection A2 as A2;
    apply (f_equal tag_of_code) in A2; rewrite !tag_of_tag_code in A2; injection A2 as <-.
  - rewrite B1 in B2. by injection B2 as <-.
  - destruct B2 as [-> | ->]; done.
  - destruct B1 as [-> | ->]; done.
  - rewrite C1 in C2. by injection C2 as <-.
Qed.

Lemma validate_args_spec (fuel : nat) (data : list Z) (cursor ext : Z) :
  bytes_ok data -> 0 <= cursor <= ext -> ext <= zlen data ->
  ext - cursor < Z.of_nat fuel ->
  exists b, validate_args fuel data cursor ext = Some b /\ (b = true <-> tiles data ext cursor).
Proof.
  intros Hok. revert cursor. induction fuel as [|fuel IH]; intros cursor Hc He Hf; [lia|].
  simpl validate_args. destruct (cursor <? ext) eqn:E.
  - apply Z.ltb_lt in E. destruct (arg_step_spec data cursor ext Hok ltac:(lia) He) as (r & -> & Hr).
    simpl mbind. destruct r as [step|].
    + pose proof (cell_at_min _ _ _ Hok Hr) as Hm. destruct (_ <? step) eqn:Es.
      * apply Z.ltb_lt in Es. exists false. split; [done|]. split; [done|]. intros Ht.
        inversion Ht as [|c s Hs Hle Hrest]; subst; [lia|].
        rewrite (cell_at_unique _ _ _ _ Hs Hr) in Hle. lia.
      * apply Z.ltb_ge in Es. destruct (IH (cursor + step)) as (b & -> & Hb); [lia..|].
        exists b. split; [done|]. rewrite Hb. split.
        -- intros Ht. eapply tiles_cell; [done|lia|done].
        -- intros Ht. inversion Ht as [|c s Hs Hle Hrest]; subst; [lia|].
           by rewrite (cell_at_unique _ _ _ _ Hr Hs).
    + exists false. split; [done|]. split; [done|]. intros Ht.
      inversion Ht as [|c s Hs Hle Hrest]; subst; [lia|]. apply Hr in Hs. lia.
  - apply Z.ltb_ge in E. assert (cursor = ext) as -> by lia.
    exists true. rewrite Z.eqb_refl. split; [done|]. split; [|done]. intros _. constructor.
Qed.

Lemma read_header_Some (data : list Z) :
  bytes_ok data -> header_size <= zlen data ->
  exists h, read_header data = Some h /\ in_range 32 (ext_info_offset h) /\
    is_byte (log_format_str_type h) /\ in_range 32 (log_format_data_len h).
Proof.
  unfold header_size. intros Hok Hl. unfold read_header.
  destruct (load_le_Some data 0 8) as [a Ha]; [lia..|].
  destruct (load_le_Some data 8 4) as [b Hb]; [lia..|].
  destruct (load_le_Some data 12 4) as [c Hc]; [lia..|].
  destruct (load_le_Some data 16 8) as [d Hd]; [lia..|].
  destruct (load_le_Some data 24 8) as [e He]; [lia..|].
  destruct (load_le_Some data 32 1) as [f Hf]; [lia..|].
  destruct (load_le_Some data 33 1) as [g Hg]; [lia..|].
  destruct (load_le_Some data 34 2) as [h Hh]; [lia..|].
  destruct (load_le_Some data 36 4) as [i Hi]; [lia..|].
  rewrite Ha, Hb, Hc, Hd, He, Hf, Hg, Hh, Hi. simpl. eexists. split; [done|]. simpl.
  apply load_le_inv in Hb, Hf, Hi; try done. unfold in_range. intuition lia.
Qed.

Lemma validate_reflects (data : list Z) :
  bytes_ok data ->
  exists b, validate (Some data) = Some b /\ (b = true <-> exists h, record_wf data h).
Proof.
  intros Hok. unfold validate. destruct (_ <? _) eqn:E41.
  { apply Z.ltb_lt in E41. exists false. split; [done|]. split; [done|].
    intros (h & [Hh _ Hf (n & Hn & _) _]). exfalso. apply load_le_inv in Hn as (_ & ? & ?); [|done].
    unfold header_size, ext_header_size in *. assert (in_range 32 (log_format_data_len h)) as Hr.
    { destruct (load data 0 40) as [x|] eqn:Ex.
      - apply load_inv in Ex as (_ & _ & Hx & _).
        destruct (read_header_Some data Hok Hx) as (h' & Hh' & _ & _ & Hr). congruence.
      - exfalso. unfold read_header in Hh. repeat (apply bind_Some in Hh as (? & ? & Hh)).
        repeat match goal with Hl : load_le data 36 4 = Some _ |- _ =>
          apply load_le_inv in Hl as (_ & ? & _); [|done] end.
        apply load_None in Ex. lia. }
    pose proof (up4_bounds (log_format_data_len h)). unfold in_range in Hr. lia. }
  apply Z.ltb_ge in E41. unfold ext_header_size in *.
  destruct (read_header_Some data Hok) as (h & Hh & Hext & Hty & Hlen); [lia|].
  rewrite Hh. simpl mbind. unfold in_range in Hlen, Hext, Hty.
  pose proof (up4_bounds (log_format_data_len h)) as [Hup _].
  assert ((exists h', record_wf data h') <-> record_wf data h) as Huniq.
  { split; [|by exists h]. intros [h' Hw]. pose proof (wf_header _ _ Hw). congruence. }
  setoid_rewrite Huniq. clear Huniq.
  pose proof (is_format_type_spec (log_format_str_type h) ltac:(lia)) as Hfmt.
  destruct (is_format_type _) eqn:Ef; simpl negb; cbn iota.
  2:{ exists false. split; [done|]. split; [done|]. intros Hw. apply wf_format_type in Hw.
      by apply Hfmt in Hw. }
  rewrite mask_up4 by lia. unfold header_size in *.
  destruct (_ || _) eqn:Eb.
  { exists false. split; [done|]. split; [done|]. intros [_ _ Hfo (n & Hn & Hx) _].
    apply load_le_inv in Hn as (_ & ? & ?); [|done]. unfold header_size in *.
    rewrite !orb_true_iff, !Z.ltb_lt in Eb. lia. }
  rewrite !orb_false_iff, !Z.ltb_ge in Eb. destruct Eb as [[Eb1 Eb2] Eb3].
  destruct (load_le_Some data (ext_info_offset h) 1) as [n Hn]; [lia..|].
  rewrite Hn. simpl mbind. pose proof (load_le_inv _ _ _ _ Hok Hn) as (_ & _ & Hnr).
  destruct (_ <? _) eqn:En.
  { apply Z.ltb_lt in En. exists false. split; [done|]. split; [done|].
    intros [_ _ _ (m & Hm & Hx) _]. unfold get_ext_head in Hm. rewrite Hn in Hm.
    injection Hm as <-. lia. }
  apply Z.ltb_ge in En.
  destruct (validate_args_spec (S (length data)) data (40 + up4 (log_format_data_len h))
    (ext_info_offset h)) as (b & Hvb & Hb); [done|lia|lia|unfold zlen in *; lia|].
  exists b. split; [exact Hvb|]. rewrite Hb. split.
  - intros Ht. split; try done; [by apply Hfmt|]. exists n. done.
  - by intros [].
Qed.

(** C7. [validate] always answers, without reading outside the record, and it accepts
    exactly the well-formed records: a known format type, the padded format string before
    the extended header, the header and the thread name inside the data, and argument
    cells that fill the bytes between the two without gap or overlap. *)
Theorem validate_spec (data : list Z) :
  bytes_ok data ->
  exists b, validate (Some data) = Some b /\ (b = true <-> exists h, record_wf data h).
Proof. apply validate_reflects. Qed.

(** A well-formed record: no format string, one boolean argument, the thread name "T". *)
Definition sample_record : list Z :=
  replicate 8 0 ++ [44; 0; 0; 0] ++ replicate 20 0 ++ [17; 2; 0; 0] ++ replicate 4 0 ++
  [3; 0; 1; 0] ++ [1; 84].

Lemma sample_record_bytes : bytes_ok sample_record.
Proof. unfold sample_record. repeat constructor; vm_compute; congruence. Qed.

Lemma validate_spec_witness :
  validate (Some sample_record) = Some true /\
  exists b, validate (Some sample_record) = Some b /\
    (b = true <-> exists h, record_wf sample_record h).
Proof. split; [reflexivity|]. apply (validate_spec sample_record), sample_record_bytes. Defined.

Lemma record_wf_offset (data : list Z) (h : RecordHeader) :
  bytes_ok data -> record_wf data h ->
  get_log_args_offset h = header_size + up4 (log_format_data_len h) /\
  0 <= log_format_data_len h /\ ext_info_offset h < 2 ^ 32 /\ 41 <= zlen data.
Proof.
  intros Hok [Hh _ Hf (n & Hn & Hx) _].
  apply load_le_inv in Hn as (_ & Hle & Hnr); [|done].
  assert (header_size <= zlen data) as Hl.
  { unfold read_header in Hh. repeat (apply bind_Some in Hh as (? & ? & Hh)).
    repeat match goal with Hl : load_le data 36 4 = Some _ |- _ =>
      apply load_le_inv in Hl as (_ & ? & _); [|done] end. done. }
  destruct (read_header_Some data Hok Hl) as (h' & Hh' & Hext & _ & Hlen).
  assert (h' = h) as -> by congruence. unfold in_range, header_size in *.
  pose proof (up4_bounds (log_format_data_len h)).
  unfold get_log_args_offset, header_size.
  rewrite (wrap_small 64 (_ + 3)), mask_up4, wrap_small by (unfold in_range; lia).
  repeat split; lia.
Qed.

(** C34. On a record that [validate] accepts every accessor stays inside the data and the
    parts do not overlap: the format string, then the arguments, whose size is computed
    without wrap-around and which end where the extended header starts, then the thread
    name up to the end of the record at most. *)
Theorem accessors_in_bounds (data : list Z) :
  bytes_ok data -> validate (Some data) = Some true ->
  exists h fmt args name,
    read_header data = Some h /\
    get_format_string_data data h = Some fmt /\ get_log_args_data data h = Some args /\
    get_thread_name data h = Some name /\
    zlen fmt = log_format_data_len h /\
    get_log_args_offset h = header_size + up4 (log_format_data_len h) /\
    zlen args = get_log_args_data_size h /\
    get_log_args_offset h + get_log_args_data_size h = ext_info_offset h /\
    ext_info_offset h + ext_header_size + zlen name <= zlen data.
Proof.
  intros Hok Hv. destruct (validate_reflects data Hok) as (b & Hb & Hw).
  rewrite Hv in Hb. injection Hb as <-. destruct (proj1 Hw eq_refl) as [h Hwf]. clear Hw Hv.
  pose proof (record_wf_offset data h Hok Hwf) as (Hoff & Hlen & Hext & H41).
  destruct Hwf as [Hh _ Hf (n & Hn & Hx) _].
  pose proof (load_le_inv _ _ _ _ Hok Hn) as (_ & Hle & Hnr).
  pose proof (up4_bounds (log_format_data_len h)) as [Hup _].
  unfold header_size, ext_header_size in *.
  assert (get_log_args_data_size h = ext_info_offset h - get_log_args_offset h) as Hsz.
  { unfold get_log_args_data_size. rewrite !wrap_small by (rewrite ?wrap_small; unfold in_range; lia). done. }
  exists h. unfold get_format_string_data, get_log_args_data, get_thread_name, header_size.
  rewrite Hn. simpl mbind.
  rewrite !load_Some by lia. do 3 eexists. do 4 (split; [done|]).
  rewrite !zlen_take by (rewrite ?zlen_drop; lia). lia.
Qed.

Lemma accessors_in_bounds_witness :
  exists h fmt args name,
    read_header sample_record = Some h /\
    get_format_string_data sample_record h = Some fmt /\
    get_log_args_data sample_record h = Some args /\
    get_thread_name sample_record h = Some name /\
    zlen fmt = log_format_data_len h /\
    get_log_args_offset h = header_size + up4 (log_format_data_len h) /\
    zlen args = get_log_args_data_size h /\
    get_log_args_offset h + get_log_args_data_size h = ext_info_offset h /\
    ext_info_offset h + ext_header_size + zlen name <= zlen sample_record.
Proof. apply (accessors_in_bounds sample_record); [apply sample_record_bytes|reflexivity]. Defined.
