(* ===== verification/RecordWriter.v ===== *)
(** * The producer side of a log call
    ([src/runtime/record_writer.cpp], [do_log] of [include/qlog/log.hpp])

    [do_log] measures the format string and the arguments, [log_write_begin] obtains a
    chunk from the log's buffer and writes the header, [fill_arguments] serializes the
    arguments into it and [log_write_finish] appends the thread name and commits. The
    answers of the buffer are inputs of the model; the calls made on the buffer and on the
    worker are recorded as [event]s. *)
From stdpp Require Import base list option numbers.
From Stdlib Require Import ZArith Lia Bool.
From S2P Require Import Prelude Memory Hash ArgSerialization BufferDefs LogEntry.

Definition MAX_THREAD_NAME_LEN : Z := 16.

(** [log_api_thread_info_tls_type]: zero-initialised for every thread. *)
Record thread_info := { thread_id : Z; thread_name : list Z }.

Definition tls_init : thread_info := {| thread_id := 0; thread_name := [] |}.

(** The first log call of a thread asks the platform for its id and its name. *)
Definition fill_thread_info (tls : thread_info) (os_id : Z) (os_name : list Z) : thread_info :=
  if thread_id tls =? 0
  then {| thread_id := os_id;
          thread_name := take (Z.to_nat (u8 (Z.min MAX_THREAD_NAME_LEN (zlen os_name)))) os_name |}
  else tls.

Inductive log_thread_mode := sync | async | independent.

(** What the buffer answered to one [alloc_write_chunk]. *)
Record alloc_answer := {
  answer_code : enum_buffer_result_code;
  answer_low_space : bool;
  answer_chunk : list Z }.

Inductive event :=
  | E_alloc (size : Z)
  | E_awake (own_worker : bool)
  | E_commit (code : enum_buffer_result_code)
  | E_sync_process.

(** [while (result == err_wait_and_retry)]: commit the failed handle, ask again. [None]
    when the buffer's answers run out before one that ends the loop. *)
Fixpoint alloc_retry (total : Z) (answer : alloc_answer) (more : list alloc_answer) :
    option (alloc_answer * list event) :=
  if decide (answer_code answer = err_wait_and_retry) then
    match more with
    | [] => None
    | next :: more =>
        '(a, evs) ← alloc_retry total next more;
        Some (a, E_commit err_wait_and_retry :: E_alloc total :: evs)
    end
  else Some (answer, []).

(** The allocation part of [log_write_begin]: the chunk, or the code of the failure. *)
Definition alloc_chunk (mode : log_thread_mode) (total : Z) (answers : list alloc_answer) :
    option ((enum_buffer_result_code * list Z) * list event) :=
  match mode, answers with
  | sync, a :: _ => Some ((success, answer_chunk a), [])
  | _, first :: more =>
      let need_awake_worker :=
        bool_decide (answer_code first = err_not_enough_space) ||
        bool_decide (answer_code first = err_wait_and_retry) || answer_low_space first in
      '(a, evs) ← alloc_retry total first more;
      let evs := E_alloc total ::
        (if need_awake_worker
         then [E_awake (match mode with independent => true | _ => false end)] else []) ++ evs in
      if decide (answer_code a = success) then Some ((success, answer_chunk a), evs)
      else Some ((answer_code a, []), evs ++ [E_commit (answer_code a)])
  | _, [] => None
  end.

Section Writer.
Context {plat : Platform} {Ops : CrcOps}.

(** The fields in the order in which the code writes them. *)
Definition write_header (chunk : list Z) (epoch_ms ext_offset log_level category format_type
    id format_len : Z) : option (list Z) :=
  m ← store_le chunk 0 8 epoch_ms;
  m ← store_le m 8 4 ext_offset;
  m ← store_le m 33 1 log_level;
  m ← store_le m 12 4 category;
  m ← store_le m 32 1 format_type;
  m ← store_le m 16 8 id;
  m ← store_le m 36 4 format_len;
  store_le m 24 8 0.

(** The sizes that [log_write_begin] computes, in 32 bits. *)
Definition length_without_ext_info (format_len args_len : Z) : Z :=
  u32 (u64 (header_size + align_4 format_len + args_len)).

Definition total_length (format_len args_len name_len : Z) : Z :=
  u32 (length_without_ext_info format_len args_len + u32 (ext_header_size + name_len)).

Definition log_write_begin (tls : thread_info) (mode : log_thread_mode)
    (answers : list alloc_answer) (epoch_ms log_level category format_type format_len : Z)
    (format_data : option (list Z)) (args_len : Z) :
    option ((enum_buffer_result_code * list Z) * list event) :=
  let total := total_length format_len args_len (zlen (thread_name tls)) in
  '((code, chunk), evs) ← alloc_chunk mode total answers;
  if decide (code = success) then
    chunk ← write_header chunk epoch_ms (length_without_ext_info format_len args_len)
              log_level category format_type (thread_id tls) format_len;
    match format_data with
    | None => Some ((success, chunk), evs)
    | Some data =>
        '(hash, dst) ← qlog_memcpy_with_hash (drop (Z.to_nat header_size) chunk) data format_len;
        chunk ← store_le (take (Z.to_nat header_size) chunk ++ dst) 24 8 hash;
        Some ((success, chunk), evs)
    end
  else Some ((code, []), evs).

(** [sync_process] or the commit of the chunk. *)
Definition finish_events (mode : log_thread_mode) (code : enum_buffer_result_code) : list event :=
  match mode with sync => [E_sync_process] | _ => [E_commit code] end.

Definition log_write_finish (tls : thread_info) (mode : log_thread_mode) (chunk : list Z)
    (code : enum_buffer_result_code) : option (list Z * list event) :=
  ext ← load_le chunk 8 4;
  m ← store_le chunk ext 1 (zlen (thread_name tls));
  m ← (if 0 <? zlen (thread_name tls) then store m (ext + ext_header_size) (thread_name tls)
       else Some m);
  Some (m, finish_events mode code).

(** [format_data_ptr]: the characters of an ordinary UTF-8 or UTF-16 string when no stack
    trace is to be printed, a null pointer otherwise. *)
Definition format_data_ptr (stack : option (list Z)) (format : arg) : option (list Z) :=
  match get_serialize_kind format, format, stack with
  | (K_utf8_string | K_utf16_string), A_string s, None =>
      Some (units_bytes (src_width (get_string_source s)) (src_data (get_string_source s)))
  | _, _, _ => None
  end.

(** [do_log] after its level check: [stack] is the stack trace, [None] when none is to be
    printed. The result is the value returned, the committed chunk if any, the events. *)
Definition do_log (tls : thread_info) (mode : log_thread_mode) (answers : list alloc_answer)
    (enabled : bool) (epoch_ms category log_level : Z) (stack : option (list Z))
    (format : arg) (args : list arg) : option (bool * option (list Z) * list event) :=
  if negb enabled then Some (false, None, [])
  else
    let tag := get_log_param_type_enum format in
    let stack_bytes := default [] stack in
    format_size ← string_storage_size format;
    let total_format := format_size + zlen stack_bytes in
    seq ← make_size_seq true args;
    total_args ← get_total seq;
    let format_data := format_data_ptr stack format in
    '((code, chunk), evs) ← log_write_begin tls mode answers epoch_ms log_level category
        (tag_code tag) (u32 total_format) format_data (u32 total_args);
    if decide (code = success) then
      chunk ← match format_data with
              | Some _ => Some chunk
              | None =>
                  m ← type_copy false format chunk (header_size - 4) (format_size + 4);
                  m ← (if 0 <? zlen stack_bytes
                       then store m (header_size + format_size) stack_bytes else Some m);
                  store_le m (header_size - 4) 4 (u32 total_format)
              end;
      chunk ← fill_arguments true chunk (header_size + align_4 total_format) seq args;
      '(chunk, evs') ← log_write_finish tls mode chunk code;
      Some (true, Some chunk, evs ++ evs')
    else Some (false, None, evs).

End Writer.

(** ** The argument area seen by the validation *)

Section Tiling.
Context {plat : Platform}.

Lemma pod_tag_value_size (P : pod_type) :
  pod_tag P <> unsupported_type -> tag_value_size (pod_tag P) = Some (pod_size P).
Proof.
  destruct P; simpl; try done.
  - intros _. destruct wchar_size_cases as [->| ->]; done.
  - destruct (size =? 1) eqn:E1; [apply Z.eqb_eq in E1 as ->; by destruct is_unsigned|].
    destruct (size =? 2) eqn:E2; [apply Z.eqb_eq in E2 as ->; by destruct is_unsigned|].
    destruct (size =? 4) eqn:E4; [apply Z.eqb_eq in E4 as ->; by destruct is_unsigned|].
    destruct (size =? 8) eqn:E8; [apply Z.eqb_eq in E8 as ->; by destruct is_unsigned|done].
Qed.

Lemma string_arg_tag (a : arg) (n : Z) :
  get_log_param_type_enum a <> unsupported_type -> string_storage_size a = Some n ->
  get_log_param_type_enum a = string_utf8_type \/ get_log_param_type_enum a = string_utf16_type.
Proof.
  unfold get_log_param_type_enum, get_serialize_kind. destruct a as [| | |s|C count content|]; try done.
  - intros H _. destruct (_ =? 1); [tauto|]. destruct (_ =? 2); [tauto|]. destruct (_ =? 4); tauto.
  - intros _ _. destruct C; tauto.
Qed.

Lemma up4_add8 (n : Z) : up4 (n + 8) = 8 + up4 n.
Proof. unfold up4. replace (n + 8 + 3) with (n + 3 + 2 * 4) by lia. rewrite Z.div_add; lia. Qed.

(** A cell in the middle of a record is a cell of its padded storage size. *)
Lemma cell_ok_at (a : arg) (sz : Z) (pre cell post : list Z) :
  arg_ok a -> get_storage_data_size true a = Some sz -> cell_ok a cell ->
  cell_at (pre ++ cell ++ post) (zlen pre) (up4 sz).
Proof.
  intros Hok Hsz [Htag Hpay].
  destruct (storage_size_spec a sz Hok Hsz) as (Hu & _ & _ & Hs).
  apply (load_mid pre _ post) in Htag, Hpay. rewrite Z.add_0_r in Htag.
  assert (load_le (pre ++ cell ++ post) (zlen pre) 1 =
          Some (tag_code (get_log_param_type_enum a))) as Ht.
  { unfold load_le. rewrite Htag. simpl. unfold arg_tag. by rewrite le_val_cons, le_val_nil, Z.add_0_r. }
  destruct (is_type_constexpr_size a) eqn:Ec.
  - unfold get_storage_data_size in Hsz. rewrite bool_decide_eq_false_2, Ec in Hsz by done.
    unfold get_storage_data_size_constexpr in Hsz. rewrite bool_decide_eq_false_2 in Hsz by done.
    destruct a as [|address|P repr|s|C count content|]; try done; injection Hsz as <-.
    + by apply (cell_fixed _ _ _ 0 Ht).
    + by apply (cell_fixed _ _ _ 8 Ht).
    + rewrite Z.add_comm. unfold pod_prefix. apply (cell_fixed _ _ _ _ Ht).
      by apply pod_tag_value_size.
  - unfold get_storage_data_size in Hsz. rewrite bool_decide_eq_false_2, Ec in Hsz by done.
    apply bind_Some in Hsz as (n & Hn & Hsz). destruct (_ <? n) eqn:E; [done|].
    apply Z.ltb_ge in E. apply size_add_inv in Hsz as [-> _]. rewrite up4_add8.
    destruct (string_storage_size_spec a n Hok Hu Hn) as (Hp1 & Hp0 & Hn0 & _).
    eapply cell_string; [done|by eapply string_arg_tag|].
    rewrite Hp0, Hp1 in Hpay. unfold load_le. rewrite zlen_app in Hpay.
    pose proof (zlen_nonneg (string_bytes a)) as Hsb.
    assert (zlen (le_bytes 4 n) = 4) as H4 by (apply (zlen_le_bytes 4); lia).
    pose proof (load_inv _ _ _ _ Hpay) as (? & ? & Hle & Heq & _).
    rewrite load_Some by lia.
    assert (take (Z.to_nat 4) (drop (Z.to_nat (zlen pre + 4)) (pre ++ cell ++ post)) =
            le_bytes 4 n) as ->.
    { transitivity (take 4 (le_bytes 4 n ++ string_bytes a)).
      - rewrite Heq, take_take. f_equal. lia.
      - apply take_app_length'. by rewrite length_le_bytes. }
    simpl. f_equal. rewrite le_val_le_bytes. apply Z.mod_small. lia.
Qed.

Lemma area_tiles (args : list arg) (area pre post : list Z) :
  Forall arg_ok args -> area_ok args area ->
  tiles (pre ++ area ++ post) (zlen pre + zlen area) (zlen pre).
Proof.
  intros Hok (cells & -> & Hcells & Hsizes). revert pre.
  induction Hcells as [|a cell args cells Hcell Hcells IH]; intros pre.
  - simpl. rewrite zlen_nil, Z.add_0_r. constructor.
  - apply Forall_cons_iff in Hok as [Ha Has]. inversion Hsizes as [|? ? ? ? (sz & Hsz & Hz) Hsizes']; subst.
    simpl concat. rewrite <- app_assoc, zlen_app.
    pose proof (zlen_nonneg (concat cells)). apply (tiles_cell _ _ _ (up4 sz)).
    + by eapply cell_ok_at.
    + lia.
    + rewrite (app_assoc pre). specialize (IH Has Hsizes' (pre ++ cell)).
      rewrite zlen_app in IH. rewrite <- Hz. by rewrite Z.add_assoc.
Qed.

End Tiling.

(** ** The chunk through the phases of a log call *)

(** The header fields at their offsets. *)
Record fields_at (m : list Z) (epoch ext cat id fty lvl flen : Z) : Prop := {
  at_epoch : load_le m 0 8 = Some epoch;
  at_ext : load_le m 8 4 = Some ext;
  at_cat : load_le m 12 4 = Some cat;
  at_id : load_le m 16 8 = Some id;
  at_fty : load_le m 32 1 = Some fty;
  at_lvl : load_le m 33 1 = Some lvl;
  at_flen : load_le m 36 4 = Some flen }.

Lemma fields_same_outside (m m' : list Z) (a b epoch ext cat id fty lvl flen : Z) :
  fields_at m epoch ext cat id fty lvl flen -> same_outside m m' a b ->
  40 <= a \/ 24 <= a /\ b <= 32 -> fields_at m' epoch ext cat id fty lvl flen.
Proof.
  intros [] Hs Hab. split; (rewrite (load_le_same_outside _ _ _ _ _ _ Hs) by lia; done).
Qed.

Lemma store_le_ok (m : list Z) (off n v : Z) :
  0 <= off -> 0 <= n -> off + n <= zlen m -> bytes_ok m ->
  exists m', store_le m off n v = Some m' /\ same_outside m m' off (off + n) /\ bytes_ok m' /\
    zlen m' = zlen m /\ (0 <= v < 256 ^ n -> load_le m' off n = Some v).
Proof.
  intros H0 Hn H Hok. unfold store_le.
  destruct (store_is_Some m off (le_bytes (Z.to_nat n) v)) as [m' Hm']; [done|by rewrite zlen_le_bytes|].
  exists m'. split; [done|]. pose proof (store_same_outside _ _ _ _ Hm') as Hs.
  rewrite zlen_le_bytes in Hs by done. split_and!; [done| |by eapply store_zlen|].
  - eapply store_bytes_ok; [done..|apply le_bytes_ok].
  - intros Hv. by eapply load_le_store_same.
Qed.

Lemma write_header_ok (m : list Z) (epoch ext lvl cat fty id flen : Z) :
  40 <= zlen m -> bytes_ok m ->
  in_range 64 epoch -> in_range 32 ext -> is_byte lvl -> in_range 32 cat -> is_byte fty ->
  in_range 64 id -> in_range 32 flen ->
  exists m', write_header m epoch ext lvl cat fty id flen = Some m' /\
    fields_at m' epoch ext cat id fty lvl flen /\ bytes_ok m' /\ zlen m' = zlen m.
Proof.
  unfold in_range. intros Hl Hok. intros. unfold write_header.
  destruct (store_le_ok m 0 8 epoch) as (m1 & -> & S1 & O1 & L1 & V1); [lia..|done|]. simpl mbind.
  destruct (store_le_ok m1 8 4 ext) as (m2 & -> & S2 & O2 & L2 & V2); [lia..|done|]. simpl mbind.
  destruct (store_le_ok m2 33 1 lvl) as (m3 & -> & S3 & O3 & L3 & V3); [lia..|done|]. simpl mbind.
  destruct (store_le_ok m3 12 4 cat) as (m4 & -> & S4 & O4 & L4 & V4); [lia..|done|]. simpl mbind.
  destruct (store_le_ok m4 32 1 fty) as (m5 & -> & S5 & O5 & L5 & V5); [lia..|done|]. simpl mbind.
  destruct (store_le_ok m5 16 8 id) as (m6 & -> & S6 & O6 & L6 & V6); [lia..|done|]. simpl mbind.
  destruct (store_le_ok m6 36 4 flen) as (m7 & -> & S7 & O7 & L7 & V7); [lia..|done|]. simpl mbind.
  destruct (store_le_ok m7 24 8 0) as (m8 & -> & S8 & O8 & L8 & V8); [lia..|done|].
  exists m8. split; [done|]. split; [|split; [done|lia]].
  split; repeat (first [ rewrite (load_le_same_outside _ _ _ _ _ _ S8) by lia
    | rewrite (load_le_same_outside _ _ _ _ _ _ S7) by lia
    | rewrite (load_le_same_outside _ _ _ _ _ _ S6) by lia
    | rewrite (load_le_same_outside _ _ _ _ _ _ S5) by lia
    | rewrite (load_le_same_outside _ _ _ _ _ _ S4) by lia
    | rewrite (load_le_same_outside _ _ _ _ _ _ S3) by lia
    | rewrite (load_le_same_outside _ _ _ _ _ _ S2) by lia ]);
    first [by apply V1 | by apply V2 | by apply V3 | by apply V4 | by apply V5 | by apply V6 | by apply V7].
Qed.

Lemma read_header_fields (m : list Z) (epoch ext cat id fty lvl flen : Z) :
  fields_at m epoch ext cat id fty lvl flen ->
  exists h, read_header m = Some h /\ timestamp_epoch h = epoch /\ ext_info_offset h = ext /\
    category_idx h = cat /\ log_thread_id h = id /\ log_format_str_type h = fty /\
    level h = lvl /\ log_format_data_len h = flen.
Proof.
  intros []. assert (exists e, load_le m 24 8 = Some e) as [e He].
  { unfold load_le in *. apply fmap_Some in at_flen0 as (x & Hx & _).
    apply load_inv in Hx as (_ & _ & Hx & _). rewrite load_Some by lia. simpl. eauto. }
  assert (exists p, load_le m 34 2 = Some p) as [p Hp].
  { unfold load_le in *. apply fmap_Some in at_flen0 as (x & Hx & _).
    apply load_inv in Hx as (_ & _ & Hx & _). rewrite load_Some by lia. simpl. eauto. }
  unfold read_header. rewrite at_epoch0, at_ext0, at_cat0, at_id0, He, at_fty0, at_lvl0, Hp, at_flen0.
  simpl. eauto 10.
Qed.

Section Phases.
Context {plat : Platform} {Ops : CrcOps}.
Variables (epoch ext cat id fty lvl flen : Z).

Abbreviation header_ok m := (fields_at m epoch ext cat id fty lvl flen).

(** The format string copied by [qlog_memcpy_with_hash], and the hash stored. *)
Lemma hash_phase (m data content : list Z) :
  header_ok m -> bytes_ok m -> 0 <= flen -> 40 + flen <= zlen m ->
  load data 0 flen = Some content -> bytes_ok content ->
  exists hash m',
    ('(hash, dst) ← qlog_memcpy_with_hash (drop (Z.to_nat header_size) m) data flen;
     store_le (take (Z.to_nat header_size) m ++ dst) 24 8 hash) = Some m' /\
    qlog_memcpy_with_hash (drop (Z.to_nat header_size) m) data flen = 
      Some (hash, content ++ drop (Z.to_nat flen) (drop (Z.to_nat header_size) m)) /\
    header_ok m' /\ bytes_ok m' /\ zlen m' = zlen m /\ load m' 40 flen = Some content.
Proof.
  intros Hh Hok H0 Hl Hd Hc. unfold header_size.
  pose proof (load_inv _ _ _ _ Hd) as (_ & _ & Hdl & Heq & Hz). rewrite drop_0 in Heq.
  destruct (memcpy_with_hash_ok (drop (Z.to_nat 40) m) data flen) as (hash & _ & Hm);
    [lia|rewrite zlen_drop by lia; lia|]. rewrite <- Heq in Hm.
  set (m1 := take (Z.to_nat 40) m ++ content ++ drop (Z.to_nat flen) (drop (Z.to_nat 40) m)).
  assert (store m 40 content = Some m1) as Hs.
  { rewrite store_Some by lia. unfold m1. rewrite drop_drop. do 4 f_equal. unfold zlen in Hz. lia. }
  destruct (store_le_ok m1 24 8 hash) as (m2 & Hm2 & Hso & Hok2 & Hz2 & _);
    [lia|lia|rewrite (store_zlen _ _ _ _ Hs); lia|by eapply store_bytes_ok|].
  exists hash, m2. rewrite Hm. simpl mbind. split; [done|]. split; [done|].
  pose proof (store_same_outside _ _ _ _ Hs) as Hso1. split_and!.
  - eapply fields_same_outside; [|exact Hso|lia]. eapply fields_same_outside; [done|exact Hso1|lia].
  - done.
  - rewrite Hz2. by eapply store_zlen.
  - rewrite (load_same_outside _ _ _ _ _ _ Hso) by lia. rewrite <- Hz. by eapply load_store_same.
Qed.

(** The format string written by [type_copy<false>], the stack trace behind it, and the
    length field, overwritten twice. *)
Lemma copy_phase (m stack : list Z) (format : arg) (n : Z) :
  header_ok m -> bytes_ok m -> arg_ok format -> bytes_ok stack ->
  get_log_param_type_enum format <> unsupported_type ->
  string_storage_size format = Some n -> zlen (string_bytes format) = n ->
  flen = n + zlen stack -> in_range 32 flen -> 40 + flen <= zlen m ->
  exists m',
    (m ← type_copy false format m (header_size - 4) (n + 4);
     m ← (if 0 <? zlen stack then store m (header_size + n) stack else Some m);
     store_le m (header_size - 4) 4 flen) = Some m' /\
    header_ok m' /\ bytes_ok m' /\ zlen m' = zlen m /\
    load m' 40 flen = Some (string_bytes format ++ stack).
Proof.
  intros Hh Hok Hf Hst Hu Hn Hfull Hflen Hr Hl. unfold header_size, in_range in *.
  pose proof (zlen_nonneg stack) as Hs0.
  destruct (string_storage_size_spec format n Hf Hu Hn) as (Hpay & _ & Hn0 & _).
  assert (type_copy false format m (40 - 4) (n + 4) =
          store m 36 (le_bytes 4 n ++ string_bytes format)) as ->.
  { unfold type_copy. rewrite bool_decide_eq_false_2 by done. simpl mbind.
    assert (is_type_constexpr_size format = false) as ->.
    { destruct format; try done. apply string_not_constexpr. }
    simpl andb. cbn iota. destruct format; try done;
      (destruct (_ <? _) eqn:E; [apply Z.ltb_lt in E; lia|]; rewrite Z.add_0_r, Z.sub_0_r;
       by apply string_type_copy_stores; [..|lia|lia|lia]). }
  assert (zlen (le_bytes 4 n) = 4) as H4 by (apply (zlen_le_bytes 4); lia).
  destruct (store_is_Some m 36 (le_bytes 4 n ++ string_bytes format)) as [m1 Hm1];
    [lia|rewrite zlen_app; lia|]. rewrite Hm1. simpl mbind.
  pose proof (store_same_outside _ _ _ _ Hm1) as So1. pose proof (store_zlen _ _ _ _ Hm1) as Z1.
  rewrite zlen_app, H4, Hfull in So1.
  assert (bytes_ok m1) as Ok1.
  { eapply store_bytes_ok; [done|done|]. rewrite <- Hpay. by apply payload_bytes_ok. }
  assert (load m1 40 n = Some (string_bytes format)) as Hc1.
  { apply load_store_same in Hm1. apply load_inv in Hm1 as (_ & _ & Hle & Heq & _).
    rewrite zlen_app, H4, Hfull in *. rewrite load_Some by lia. f_equal.
    replace (Z.to_nat 40) with (Z.to_nat 36 + 4)%nat by lia. rewrite <- drop_drop.
    apply (f_equal (drop 4)) in Heq. rewrite drop_app_length' in Heq by (by rewrite length_le_bytes).
    rewrite Heq. rewrite skipn_firstn_comm. f_equal. lia. }
  assert (exists m2, (if 0 <? zlen stack then store m1 (40 + n) stack else Some m1) = Some m2 /\
            same_outside m1 m2 (40 + n) (40 + n + zlen stack) /\ bytes_ok m2 /\
            load m2 40 flen = Some (string_bytes format ++ stack)) as (m2 & -> & So2 & Ok2 & Hc2).
  { destruct (store_is_Some m1 (40 + n) stack) as [m2 Hm2]; [lia..|].
    assert ((if 0 <? zlen stack then store m1 (40 + n) stack else Some m1) = Some m2) as ->.
    { destruct (0 <? zlen stack) eqn:E; [done|]. apply Z.ltb_ge in E.
      assert (stack = []) as -> by (destruct stack; [done|rewrite zlen_cons in E; pose proof (zlen_nonneg stack); lia]).
      rewrite store_nil in Hm2 by lia. done. }
    exists m2. split; [done|]. split; [by apply store_same_outside|]. split; [by eapply store_bytes_ok|].
    pose proof (store_inv _ _ _ _ Hm2) as (_ & _ & ->).
    apply load_inv in Hc1 as (_ & _ & _ & Hc1 & _).
    eapply (load_app_at _ (take (Z.to_nat 40) m1) _ (drop (Z.to_nat (40 + n) + length stack) m1)).
    - rewrite Hc1. replace (Z.to_nat (40 + n)) with (Z.to_nat 40 + Z.to_nat n)%nat at 1 by lia.
      rewrite <- (take_drop (Z.to_nat 40) m1) at 1. rewrite take_app_add'; [|rewrite length_take; unfold zlen in *; lia].
      by rewrite <- !app_assoc.
    - rewrite zlen_take by lia. done.
    - rewrite zlen_app. lia. }
  simpl mbind.
  assert (zlen m2 = zlen m1) as Z2 by (unfold zlen; by rewrite (proj1 So2)).
  change (40 - 4) with 36.
  destruct (store_le_ok m2 36 4 flen) as (m3 & -> & So3 & Ok3 & Z3 & V3); [lia..|done|].
  exists m3. split; [done|]. split_and!; [|done|lia|].
  - destruct Hh. split;
      try (rewrite (load_le_same_outside _ _ _ _ _ _ So3) by lia;
           rewrite (load_le_same_outside _ _ _ _ _ _ So2) by lia;
           rewrite (load_le_same_outside _ _ _ _ _ _ So1) by lia; done).
    apply V3. lia.
  - by rewrite (load_same_outside _ _ _ _ _ _ So3) by lia.
Qed.

(** The extended header and the thread name. *)
Lemma finish_phase (tls : thread_info) (mode : log_thread_mode) (m : list Z)
    (code : enum_buffer_result_code) :
  header_ok m -> bytes_ok m -> bytes_ok (thread_name tls) -> zlen (thread_name tls) < 256 ->
  40 <= ext -> ext + 1 + zlen (thread_name tls) <= zlen m ->
  exists m', log_write_finish tls mode m code = Some (m', finish_events mode code) /\
    header_ok m' /\ bytes_ok m' /\ zlen m' = zlen m /\
    same_outside m m' ext (ext + 1 + zlen (thread_name tls)) /\
    load_le m' ext 1 = Some (zlen (thread_name tls)) /\
    load m' (ext + 1) (zlen (thread_name tls)) = Some (thread_name tls).
Proof.
  intros Hh Hok Hn Hn256 Hext Hl. pose proof (zlen_nonneg (thread_name tls)) as H0.
  unfold log_write_finish. rewrite (at_ext _ _ _ _ _ _ _ _ Hh). simpl mbind.
  destruct (store_le_ok m ext 1 (zlen (thread_name tls))) as (m1 & -> & So1 & Ok1 & Z1 & V1); [lia..|done|].
  simpl mbind. unfold ext_header_size.
  destruct (store_is_Some m1 (ext + 1) (thread_name tls)) as [m2 Hm2]; [lia..|].
  assert ((if 0 <? zlen (thread_name tls) then store m1 (ext + 1) (thread_name tls) else Some m1) = Some m2) as ->.
  { destruct (0 <? _) eqn:E; [done|]. apply Z.ltb_ge in E.
    destruct (thread_name tls) as [|b l]; [by rewrite store_nil in Hm2 by lia|].
    rewrite zlen_cons in E. pose proof (zlen_nonneg l). lia. }
  simpl mbind. eexists. split; [done|].
  pose proof (store_same_outside _ _ _ _ Hm2) as So2.
  assert (same_outside m m2 ext (ext + 1 + zlen (thread_name tls))) as So.
  { destruct So1 as [L1 So1], So2 as [L2 So2]. split; [lia|]. intros i Hi.
    rewrite So2, So1 by lia. done. }
  split_and!; [|by eapply store_bytes_ok|by rewrite (store_zlen _ _ _ _ Hm2), Z1|done| |by eapply load_store_same].
  - eapply fields_same_outside; [done|exact So|lia].
  - rewrite (load_le_same_outside _ _ _ _ _ _ So2) by lia. apply V1. lia.
Qed.

End Phases.

(** ** A log call writes a valid record *)

Section LogCall.
Context {plat : Platform} {Ops : CrcOps}.

(** What a log call may rely on: argument objects of supported types, custom callbacks that
    write what they announced, and a record that fits 32 bits. *)
Record log_call_ok (tls : thread_info) (epoch category lvl : Z) (stack : option (list Z))
    (format : arg) (args : list arg) (n : Z) (seq : list Z) (total_args : Z) : Prop := {
  call_epoch : in_range 64 epoch;
  call_category : in_range 32 category;
  call_level : is_byte lvl;
  call_id : in_range 64 (thread_id tls);
  call_name : bytes_ok (thread_name tls) /\ zlen (thread_name tls) <= MAX_THREAD_NAME_LEN;
  call_stack : bytes_ok (default [] stack);
  call_format : arg_ok format /\ get_log_param_type_enum format <> unsupported_type;
  call_format_size : string_storage_size format = Some n /\ zlen (string_bytes format) = n;
  call_args : Forall arg_ok args;
  call_seq : make_size_seq true args = Some seq;
  call_total : get_total seq = Some total_args;
  call_fits : header_size + up4 (n + zlen (default [] stack)) + total_args +
              ext_header_size + zlen (thread_name tls) < 2 ^ 32 }.

(** The size of the record of such a call. *)
Definition record_size (tls : thread_info) (stack : option (list Z)) (n total_args : Z) : Z :=
  header_size + up4 (n + zlen (default [] stack)) + total_args + ext_header_size +
  zlen (thread_name tls).

Section Fixed.
Variables (tls : thread_info) (mode : log_thread_mode) (epoch category lvl : Z)
  (stack : option (list Z)) (format : arg) (args : list arg) (n : Z) (seq : list Z)
  (total_args : Z).
Hypothesis Hcall : log_call_ok tls epoch category lvl stack format args n seq total_args.

Let flen := n + zlen (default [] stack).
Let ext := header_size + up4 flen + total_args.

Lemma call_sizes :
  0 <= n /\ 0 <= total_args /\ in_range 32 flen /\ in_range 32 ext /\ flen <= up4 flen /\
  0 <= zlen (thread_name tls) <= 16 /\
  u32 flen = flen /\ u32 total_args = total_args /\ align_4 flen = up4 flen /\
  length_without_ext_info flen total_args = ext /\
  total_length flen total_args (zlen (thread_name tls)) = record_size tls stack n total_args.
Proof.
  destruct Hcall as [_ _ _ _ [_ Hname] _ [Hf Hu] [Hn _] Hargs Hseq Htot Hfits].
  destruct (string_storage_size_spec format n Hf Hu Hn) as (_ & _ & Hn0 & _).
  pose proof (get_total_nonneg seq total_args (make_size_seq_nonneg args seq Hargs Hseq) Htot) as Ht0.
  pose proof (zlen_nonneg (default [] stack)) as Hs0. pose proof (zlen_nonneg (thread_name tls)) as Hnm.
  pose proof (up4_bounds flen) as [Hup _]. unfold record_size, total_length.
  unfold header_size, ext_header_size, MAX_THREAD_NAME_LEN, in_range in *.
  fold flen in Hfits |- *.
  assert (align_4 flen = up4 flen) as Hal by (apply align_4_up4; unfold size_max; lia).
  assert (length_without_ext_info flen total_args = ext) as ->.
  { unfold length_without_ext_info, header_size. rewrite Hal.
    rewrite !wrap_small by (rewrite ?wrap_small; unfold in_range, ext, header_size; lia). done. }
  rewrite (wrap_small 32 (1 + _)), !wrap_small by (unfold in_range, ext, header_size; lia).
  unfold ext, header_size. rewrite Hal. repeat split; try lia.
Qed.

Let fty := tag_code (get_log_param_type_enum format).
Abbreviation header_ok m := (fields_at m epoch ext category (thread_id tls) fty lvl flen).

(** The phases before the arguments. *)
Lemma format_written (chunk : list Z) (answers : list alloc_answer) (evs : list event) :
  alloc_chunk mode (record_size tls stack n total_args) answers = Some ((success, chunk), evs) ->
  zlen chunk = record_size tls stack n total_args -> bytes_ok chunk ->
  exists m, header_ok m /\ bytes_ok m /\ zlen m = zlen chunk /\
    load m 40 flen = Some (string_bytes format ++ default [] stack) /\
    do_log tls mode answers true epoch category lvl stack format args =
      (m' ← fill_arguments true m (header_size + up4 flen) seq args;
       '(m', evs') ← log_write_finish tls mode m' success;
       Some (true, Some m', evs ++ evs')).
Proof.
  intros Halloc Hz Hok.
  destruct call_sizes as (Hn0 & Ht0 & Hflen & Hext & Hup & Hname & Hu1 & Hu2 & Hal & Hlw & Htl).
  destruct Hcall as [Hep Hcat Hlv Hid [Hnm _] Hst [Hf Hu] [Hn Hfull] Hargs Hseq Htot Hfits].
  unfold record_size, header_size, ext_header_size in Hz. fold flen in Hz.
  pose proof Hflen as Hflen'. unfold in_range in Hflen'.
  destruct (write_header_ok chunk epoch ext lvl category fty (thread_id tls) flen)
    as (m1 & Hm1 & Hh1 & Hok1 & Hz1); try done; [lia|apply tag_code_byte|].
  assert (40 + flen <= zlen m1) as Hroom by lia.
  unfold do_log. simpl negb. cbn iota. rewrite Hn. simpl mbind. rewrite Hseq. simpl mbind.
  rewrite Htot. simpl mbind. fold flen. rewrite Hu1, Hu2, Hal.
  unfold log_write_begin. rewrite Htl, Halloc. simpl mbind.
  rewrite Hlw. fold fty. rewrite Hm1. simpl mbind.
  assert ((exists data, format_data_ptr stack format = Some data /\ stack = None /\ load data 0 n = Some (string_bytes format)) \/
          format_data_ptr stack format = None) as [(data & -> & Hstk & Hload)|Hfd].
  { unfold format_data_ptr. destruct format as [| | |s| |]; try (right; by destruct (get_serialize_kind _)).
    destruct stack; [right; by destruct (get_serialize_kind _)|].
    pose proof (string_kind_width s Hu) as Hw.
    pose proof (source_ok_string s Hw) as Hsrc.
    assert (src_width (get_string_source s) = string_width s) as Hsw by (by destruct s as [|? []|]).
    unfold get_serialize_kind in *.
    destruct (string_width s =? 1) eqn:E1; [|destruct (string_width s =? 2) eqn:E2;
      [|right; by destruct (string_width s =? 4)]];
      left; eexists; (split; [done|]); (split; [done|]);
      apply (measure_bytes _ n Hsrc); [lia|exact Hn|lia|exact Hn]. }
  - assert (flen = n) as Hfn by (unfold flen; rewrite Hstk; simpl; rewrite zlen_nil; lia).
    destruct (hash_phase _ _ _ _ _ _ _ m1 data (string_bytes format) Hh1 Hok1)
      as (hash & m2 & Hm2 & Hmem & Hh2 & Hok2 & Hz2 & Hl2); [lia|done|by rewrite Hfn| |].
    { pose proof (payload_bytes_ok format Hf) as Hp.
      destruct (string_storage_size_spec format n Hf Hu Hn) as (Hpay & _). rewrite Hpay in Hp.
      by apply Forall_app in Hp as [_ Hp]. }
    rewrite Hmem in Hm2 |- *. simpl mbind in Hm2 |- *. rewrite Hm2. simpl mbind.
    exists m2.
    split_and!; [done|done|lia| |done]. rewrite Hstk. simpl. by rewrite app_nil_r.
  - rewrite Hfd. simpl mbind.
    destruct (copy_phase _ _ _ _ _ _ _ m1 (default [] stack) format n Hh1 Hok1 Hf Hst Hu Hn Hfull eq_refl Hflen Hroom)
      as (m2 & Hm2 & Hh2 & Hok2 & Hz2 & Hl2).
    rewrite Hm2. simpl mbind. exists m2. split_and!; [done|done|lia|done|done].
Qed.

Lemma do_log_written (chunk : list Z) (answers : list alloc_answer) (evs : list event) :
  alloc_chunk mode (record_size tls stack n total_args) answers = Some ((success, chunk), evs) ->
  zlen chunk = record_size tls stack n total_args -> bytes_ok chunk ->
  exists rec area,
    do_log tls mode answers true epoch category lvl stack format args =
      Some (true, Some rec, evs ++ finish_events mode success) /\
    header_ok rec /\ bytes_ok rec /\ zlen rec = zlen chunk /\
    load rec 40 flen = Some (string_bytes format ++ default [] stack) /\
    load rec (40 + up4 flen) total_args = Some area /\ area_ok args area /\
    tiles rec ext (40 + up4 flen) /\
    load_le rec ext 1 = Some (zlen (thread_name tls)) /\
    load rec (ext + 1) (zlen (thread_name tls)) = Some (thread_name tls).
Proof.
  intros Halloc Hz Hok.
  destruct call_sizes as (Hn0 & Ht0 & Hflen & Hext & Hup & Hname & _ & _ & _ & _ & _).
  destruct (format_written chunk answers evs Halloc Hz Hok) as (m & Hh & Hmok & Hmz & Hfmt & ->).
  destruct Hcall as [_ _ _ _ [Hnm _] _ _ _ Hargs Hseq Htot Hfits].
  unfold record_size, header_size, ext_header_size in *. fold flen in Hz.
  unfold in_range in Hflen.
  destruct (split_block m (40 + up4 flen) total_args) as (pre & area & post & -> & Hpre & Harea); [lia..|].
  destruct (fill_arguments_area args seq total_args pre area post Hargs Hseq Htot Harea)
    as (area' & Hza & Haok & Hab & Hfill).
  rewrite <- Hpre, Hfill. simpl mbind. rewrite Hpre.
  set (m3 := pre ++ area' ++ post) in *.
  assert (same_outside (pre ++ area ++ post) m3 (40 + up4 flen) (40 + up4 flen + total_args)) as So3.
  { rewrite <- Hpre, <- Harea. apply same_outside_middle. unfold zlen in *. lia. }
  assert (bytes_ok m3) as Hok3.
  { unfold m3. rewrite !Forall_app in *. tauto. }
  assert (zlen m3 = zlen chunk) as Hz3 by (rewrite <- Hmz; unfold zlen; by rewrite (proj1 So3)).
  assert (header_ok m3) as Hh3 by (eapply fields_same_outside; [done|exact So3|lia]).
  destruct (finish_phase _ _ _ _ _ _ _ tls mode m3 success Hh3 Hok3 Hnm)
    as (rec & -> & Hhr & Hokr & Hzr & Sor & Hext1 & Hname1);
    [lia|unfold ext, header_size; lia|unfold ext, header_size; lia|].
  simpl mbind. exists rec, area'. split; [done|].
  assert (ext = 40 + up4 flen + total_args) as Hexteq by done.
  assert (load rec (40 + up4 flen) total_args = Some area') as Hload.
  { rewrite (load_same_outside _ _ _ _ _ _ Sor) by lia. unfold m3.
    eapply load_app_at; [done|done|lia]. }
  split_and!; try done.
  - lia.
  - rewrite (load_same_outside _ _ _ _ _ _ Sor) by lia.
    rewrite (load_same_outside _ _ _ _ _ _ So3) by lia. done.
  - apply load_inv in Hload as (_ & _ & Hle & Heq & Hza').
    rewrite <- (take_drop (Z.to_nat (40 + up4 flen)) rec).
    rewrite <- (take_drop (Z.to_nat total_args) (drop (Z.to_nat (40 + up4 flen)) rec)).
    rewrite <- Heq.
    pose proof (area_tiles args area' (take (Z.to_nat (40 + up4 flen)) rec)
      (drop (Z.to_nat total_args) (drop (Z.to_nat (40 + up4 flen)) rec)) Hargs Haok) as Ht.
    rewrite zlen_take, Hza' in Ht by lia. by rewrite Hexteq.
Qed.

End Fixed.

Lemma do_log_record (tls : thread_info) (mode : log_thread_mode)
    (epoch category lvl : Z) (stack : option (list Z)) (format : arg) (args : list arg)
    (n : Z) (seq : list Z) (total_args : Z) (answers : list alloc_answer) (chunk : list Z)
    (evs : list event) :
  log_call_ok tls epoch category lvl stack format args n seq total_args ->
  alloc_chunk mode (record_size tls stack n total_args) answers = Some ((success, chunk), evs) ->
  zlen chunk = record_size tls stack n total_args -> bytes_ok chunk ->
  exists rec h area,
    do_log tls mode answers true epoch category lvl stack format args =
      Some (true, Some rec, evs ++ finish_events mode success) /\
    validate (Some rec) = Some true /\ read_header rec = Some h /\
    timestamp_epoch h = epoch /\ category_idx h = category /\ level h = lvl /\
    log_thread_id h = thread_id tls /\
    log_format_str_type h = tag_code (get_log_param_type_enum format) /\
    get_format_string_data rec h = Some (string_bytes format ++ default [] stack) /\
    get_log_args_data rec h = Some area /\ area_ok args area /\
    get_thread_name rec h = Some (thread_name tls) /\ bytes_ok rec.
Proof.
  intros Hcall Halloc Hz Hok.
  destruct (call_sizes _ _ _ _ _ _ _ _ _ _ Hcall) as (Hn0 & Ht0 & Hflen & Hext & Hup & Hname & _).
  destruct (do_log_written _ mode _ _ _ _ _ _ _ _ _ Hcall chunk answers evs Halloc Hz Hok)
    as (rec & area & Hlog & Hh & Hrok & Hrz & Hfmt & Hargs & Haok & Htiles & Hn & Hnm).
  destruct (read_header_fields _ _ _ _ _ _ _ _ Hh) as (h & Hrh & He & Hx & Hc & Hi & Hf & Hl & Hd).
  destruct Hcall as [_ _ _ _ _ _ [Hfo Hu] [Hns _] _ _ _ _].
  set (flen := n + zlen (default [] stack)) in *.
  set (ext := header_size + up4 flen + total_args) in *.
  assert (record_wf rec h) as Hwf.
  { split; [done| | | |].
    - exists (get_log_param_type_enum format). split; [done|].
      destruct (string_arg_tag format n Hu Hns) as [-> | ->]; simpl; tauto.
    - rewrite Hd, Hx. unfold ext. lia.
    - exists (zlen (thread_name tls)). unfold get_ext_head. rewrite Hx. split; [done|].
      apply load_inv in Hnm as (_ & _ & Hle & _). lia.
    - by rewrite Hd, Hx. }
  exists rec, h, area. split; [done|].
  destruct (record_wf_offset rec h Hrok Hwf) as (Hoff & _ & Hx32 & _).
  destruct (validate_reflects rec Hrok) as (b & Hv & Hb).
  rewrite Hv, (proj2 Hb) by eauto. unfold in_range, ext in *.
  split_and!; try done.
  - unfold get_format_string_data. by rewrite Hd.
  - unfold get_log_args_data, get_log_args_data_size. rewrite Hoff, Hd, Hx.
    rewrite !wrap_small by (rewrite ?wrap_small; unfold in_range, header_size in *; lia).
    unfold header_size in *. by replace (40 + up4 flen + total_args - (40 + up4 flen)) with total_args by lia.
  - unfold get_thread_name, get_ext_head. rewrite Hx, Hn. simpl. done.
Qed.

(** C6. A log call whose chunk is granted commits a record that [validate] accepts and from
    which the accessors read back what was logged: the time, the level, the category and
    the thread id in the header, the format string followed by the stack trace, the
    argument area made of the arguments' cells, and the thread name. This holds for every
    thread mode, whatever bytes the chunk held before, and on every path of the format
    string (copied with its hash, converted from UTF-32, written by a callback). *)
Theorem do_log_valid_record (tls : thread_info) (mode : log_thread_mode)
    (epoch category lvl : Z) (stack : option (list Z)) (format : arg) (args : list arg)
    (n : Z) (seq : list Z) (total_args : Z) (answers : list alloc_answer) (chunk : list Z)
    (evs : list event) :
  log_call_ok tls epoch category lvl stack format args n seq total_args ->
  alloc_chunk mode (record_size tls stack n total_args) answers = Some ((success, chunk), evs) ->
  zlen chunk = record_size tls stack n total_args -> bytes_ok chunk ->
  exists rec h area,
    do_log tls mode answers true epoch category lvl stack format args =
      Some (true, Some rec, evs ++ finish_events mode success) /\
    validate (Some rec) = Some true /\ read_header rec = Some h /\
    timestamp_epoch h = epoch /\ category_idx h = category /\ level h = lvl /\
    log_thread_id h = thread_id tls /\
    log_format_str_type h = tag_code (get_log_param_type_enum format) /\
    get_format_string_data rec h = Some (string_bytes format ++ default [] stack) /\
    get_log_args_data rec h = Some area /\ area_ok args area /\
    get_thread_name rec h = Some (thread_name tls).
Proof.
  intros Hcall Halloc Hz Hok.
  destruct (do_log_record tls mode _ _ _ _ _ _ _ _ _ _ _ _ Hcall Halloc Hz Hok) as (rec & h & area & H).
  exists rec, h, area. tauto.
Qed.


(** ** The protocol with the buffer *)

Definition is_alloc (e : event) : bool := match e with E_alloc _ => true | _ => false end.
Definition is_awake (e : event) : bool := match e with E_awake _ => true | _ => false end.

(** The codes committed, in order. *)
Definition commits (evs : list event) : list enum_buffer_result_code :=
  omap (fun e => match e with E_commit c => Some c | _ => None end) evs.

Definition count_events (f : event -> bool) (evs : list event) : nat := length (List.filter f evs).

Lemma commits_app (e1 e2 : list event) : commits (e1 ++ e2) = commits e1 ++ commits e2.
Proof. apply omap_app. Qed.

Lemma count_events_app (f : event -> bool) (e1 e2 : list event) :
  count_events f (e1 ++ e2) = (count_events f e1 + count_events f e2)%nat.
Proof. unfold count_events. by rewrite List.filter_app, length_app. Qed.

Lemma alloc_retry_spec (total : Z) (first : alloc_answer) (more retries : list alloc_answer)
    (last : alloc_answer) (rest : list alloc_answer) :
  first :: more = retries ++ last :: rest ->
  Forall (fun a => answer_code a = err_wait_and_retry) retries ->
  answer_code last <> err_wait_and_retry ->
  exists evs, alloc_retry total first more = Some (last, evs) /\
    commits evs = map answer_code retries /\ count_events is_alloc evs = length retries /\
    count_events is_awake evs = 0%nat.
Proof.
  intros Heq Hr Hl. revert first more Heq. induction Hr as [|a retries Ha Hr IH]; intros first more Heq.
  - injection Heq as -> ->. exists []. split; [|done].
    destruct rest; simpl; by rewrite decide_False.
  - injection Heq as -> Heq. destruct more as [|next more]; [by destruct retries|].
    destruct (IH next more Heq) as (evs & Hevs & Hc & Hn & Hw).
    exists (E_commit err_wait_and_retry :: E_alloc total :: evs).
    split; [|split; [|split]].
    + cbn [alloc_retry]. rewrite decide_True, Hevs by done. done.
    + simpl. by rewrite Hc, Ha.
    + unfold count_events in *. simpl. by rewrite Hn.
    + unfold count_events in *. simpl. by rewrite Hw.
Qed.

(** C24. In the asynchronous modes a log call that meets [k] "wait and retry" answers asks
    [k + 1] times, commits every handle it was given exactly once and in order (the
    failed ones included), and returns true exactly when the last answer was a success;
    the worker is woken at most once, exactly when the first answer asked for it. *)
Theorem do_log_commits_every_handle (tls : thread_info) (mode : log_thread_mode)
    (epoch category lvl : Z) (stack : option (list Z)) (format : arg) (args : list arg)
    (n : Z) (seq : list Z) (total_args : Z) (first last : alloc_answer)
    (more retries rest : list alloc_answer) :
  log_call_ok tls epoch category lvl stack format args n seq total_args ->
  mode <> sync -> first :: more = retries ++ last :: rest ->
  Forall (fun a => answer_code a = err_wait_and_retry) retries ->
  answer_code last <> err_wait_and_retry ->
  zlen (answer_chunk last) = record_size tls stack n total_args ->
  bytes_ok (answer_chunk last) ->
  exists result rec evs,
    do_log tls mode (first :: more) true epoch category lvl stack format args =
      Some (result, rec, evs) /\
    commits evs = map answer_code (retries ++ [last]) /\
    count_events is_alloc evs = S (length retries) /\
    (result = true <-> answer_code last = success) /\
    count_events is_awake evs =
      (if bool_decide (answer_code first = err_not_enough_space) ||
          bool_decide (answer_code first = err_wait_and_retry) || answer_low_space first
       then 1%nat else 0%nat).
Proof.
  intros Hcall Hmode Heq Hretry Hlast Hz Hok.
  set (total := record_size tls stack n total_args).
  destruct (alloc_retry_spec total first more retries last rest Heq Hretry Hlast)
    as (evs & Hr & Hc & Hn & Hw).
  set (awake := _ || _ || _).
  set (evs0 := E_alloc total :: (if awake then
         [E_awake (match mode with independent => true | _ => false end)] else []) ++ evs).
  assert (commits evs0 = map answer_code retries /\ count_events is_alloc evs0 = S (length retries) /\
          count_events is_awake evs0 = if awake then 1%nat else 0%nat) as (Hc0 & Hn0 & Hw0).
  { unfold evs0. unfold count_events, commits in *.
    destruct awake; simpl; rewrite ?Hc, ?Hn, ?Hw; done. }
  assert (alloc_chunk mode total (first :: more) =
          if decide (answer_code last = success) then Some ((success, answer_chunk last), evs0)
          else Some ((answer_code last, []), evs0 ++ [E_commit (answer_code last)])) as Halloc.
  { unfold alloc_chunk. destruct mode; [done|..]; rewrite Hr; done. }
  rewrite map_app. destruct (decide (answer_code last = success)) as [Hs|Hs].
  - destruct (do_log_written _ mode _ _ _ _ _ _ _ _ _ Hcall (answer_chunk last) (first :: more) evs0 Halloc Hz Hok)
      as (rec & area & Hlog & _).
    exists true, (Some rec), (evs0 ++ finish_events mode success). split; [done|].
    rewrite commits_app, !count_events_app, Hc0, Hn0, Hw0.
    destruct mode; [done|..]; simpl; rewrite Hs; unfold count_events; simpl;
      (split_and!; [done|lia|done|lia]).
  - exists false, None, (evs0 ++ [E_commit (answer_code last)]).
    rewrite commits_app, !count_events_app, Hc0, Hn0, Hw0.
    split; [|unfold count_events; simpl; split_and!; [done|lia|split; done|lia]].
    destruct (call_sizes _ _ _ _ _ _ _ _ _ _ Hcall) as (_ & _ & _ & _ & _ & _ & Hu1 & Hu2 & _ & _ & Htl).
    destruct Hcall as [_ _ _ _ _ _ _ [Hns _] _ Hseq Htot _].
    unfold do_log. simpl negb. cbn iota. rewrite Hns. simpl mbind. rewrite Hseq. simpl mbind.
    rewrite Htot. simpl mbind. unfold log_write_begin. rewrite Hu1, Hu2, Htl.
    fold total. rewrite Halloc. simpl mbind. rewrite decide_False by done. simpl mbind.
    by rewrite decide_False.
Qed.

End LogCall.

(** A call [info("hi {}", true)] by the thread "T". *)
Definition sample_tls : thread_info := {| thread_id := 7; thread_name := [84] |}.
Definition sample_format : arg := A_string (SV_class 1 [104; 105; 32; 123; 125]).
Definition sample_args : list arg := [A_pod P_bool [1]].

Lemma sample_call : log_call_ok sample_tls 1000 0 2 None sample_format sample_args 5 [3] 4.
Proof.
  split; repeat match goal with |- _ /\ _ => split end;
    lazymatch goal with |- Forall arg_ok _ => idtac | _ => solve_literal end.
  apply Forall_cons; [split; solve_literal | constructor].
Qed.

Definition granted : alloc_answer :=
  {| answer_code := success; answer_low_space := false; answer_chunk := replicate 54 170 |}.
Definition busy : alloc_answer :=
  {| answer_code := err_wait_and_retry; answer_low_space := false; answer_chunk := [] |}.

Lemma granted_bytes : bytes_ok (replicate 54 170).
Proof. solve_literal. Qed.

Lemma do_log_valid_record_witness :
  exists rec h area,
    do_log sample_tls async [granted] true 1000 0 2 None sample_format sample_args =
      Some (true, Some rec, [E_alloc 54] ++ finish_events async success) /\
    validate (Some rec) = Some true /\ read_header rec = Some h /\
    timestamp_epoch h = 1000 /\ category_idx h = 0 /\ level h = 2 /\
    log_thread_id h = 7 /\
    log_format_str_type h = tag_code (get_log_param_type_enum sample_format) /\
    get_format_string_data rec h = Some (string_bytes sample_format ++ default [] None) /\
    get_log_args_data rec h = Some area /\ area_ok sample_args area /\
    get_thread_name rec h = Some [84].
Proof.
  apply (do_log_valid_record sample_tls async 1000 0 2 None sample_format sample_args 5 [3] 4
    [granted] (replicate 54 170) [E_alloc 54]); [apply sample_call|reflexivity|reflexivity|].
  apply granted_bytes.
Defined.

Lemma do_log_commits_every_handle_witness :
  exists result rec evs,
    do_log sample_tls async [busy; granted] true 1000 0 2 None sample_format sample_args =
      Some (result, rec, evs) /\
    commits evs = [err_wait_and_retry; success] /\ count_events is_alloc evs = 2%nat /\
    (result = true <-> success = success) /\ count_events is_awake evs = 1%nat.
Proof.
  apply (do_log_commits_every_handle sample_tls async 1000 0 2 None sample_format sample_args
    5 [3] 4 busy granted [granted] [busy] []);
    [apply sample_call|done|reflexivity|by repeat constructor|done|reflexivity|apply granted_bytes].
Defined.
