(* ===== verification/Siso.v ===== *)
(** * The single-producer single-consumer ring buffer
    ([include/qlog/buffer/siso_ring_buffer.hpp], [src/buffer/siso_ring_buffer.cpp],
    [include/qlog/utility/utility.hpp])

    The state is the head of the buffer (two private cursor caches per side and the two
    shared cursors) and its data bytes. Every operation is a function on it; the value
    that an acquire load of a shared cursor returns is an argument, because the other
    thread runs in between. A failed assertion or an access outside the data is [None].
    [Section Operations] holds the operations, [Section System] the interleaving of the
    two threads as a step function, and the rest proves that the buffer is a queue. *)
From stdpp Require Import base list option numbers.
From Stdlib Require Import ZArith Lia Bool.
From S2P Require Import Prelude Memory BufferDefs.

(** ** Sizes *)

Definition BLOCK_SIZE : Z := 8.
Definition sizeof_head : Z := 4 * CACHE_LINE_SIZE.

Definition calculate_min_size_of_memory (expected_buffer_size : Z) : option Z :=
  if 2 ^ 30 <? expected_buffer_size then None
  else
    let total_size := round_pow_of_two expected_buffer_size + sizeof_head + CACHE_LINE_SIZE in
    if 2 ^ 32 - 1 <? total_size then None else Some (u32 total_size).

(** [while (count <= max_blocks / 2) count *= 2;] *)
Fixpoint count_loop (fuel : nat) (max_blocks count : Z) : option Z :=
  match fuel with
  | O => None
  | S fuel =>
      if count <=? max_blocks / 2 then count_loop fuel max_blocks (count * 2) else Some count
  end.

(** The number of blocks that [init_with_memory] and the recovery derive from the size
    of the storage. *)
Definition storage_blocks (buffer_size : Z) : option Z :=
  if buffer_size <? sizeof_head + 2 * BLOCK_SIZE then None
  else
    count ← count_loop 64 ((buffer_size - sizeof_head) / BLOCK_SIZE) 1;
    if (2 ^ 31 - 1) / BLOCK_SIZE <? count then None else Some (u32 count).

(** ** State *)

Record head := mk_head {
  aligned_blocks_count_cache_ : Z;
  rt_reading_cursor_cache_ : Z;
  rt_writing_cursor_cache_ : Z;
  wt_reading_cursor_cache_ : Z;
  wt_writing_cursor_cache_ : Z;
  reading_cursor_ : Z;
  writing_cursor_ : Z }.

Record siso := mk_siso {
  head_ : head;
  aligned_blocks_count_ : Z;
  data_bytes_ : list Z;
  mmap_buffer_state_ : memory_map_buffer_state }.

Definition set_head (s : siso) (h : head) : siso :=
  mk_siso h (aligned_blocks_count_ s) (data_bytes_ s) (mmap_buffer_state_ s).
Definition set_data (s : siso) (d : list Z) : siso :=
  mk_siso (head_ s) (aligned_blocks_count_ s) d (mmap_buffer_state_ s).

Definition set_rt_reading (v : Z) (h : head) : head :=
  mk_head (aligned_blocks_count_cache_ h) v (rt_writing_cursor_cache_ h)
    (wt_reading_cursor_cache_ h) (wt_writing_cursor_cache_ h) (reading_cursor_ h) (writing_cursor_ h).
Definition set_rt_writing (v : Z) (h : head) : head :=
  mk_head (aligned_blocks_count_cache_ h) (rt_reading_cursor_cache_ h) v
    (wt_reading_cursor_cache_ h) (wt_writing_cursor_cache_ h) (reading_cursor_ h) (writing_cursor_ h).
Definition set_wt_reading (v : Z) (h : head) : head :=
  mk_head (aligned_blocks_count_cache_ h) (rt_reading_cursor_cache_ h) (rt_writing_cursor_cache_ h)
    v (wt_writing_cursor_cache_ h) (reading_cursor_ h) (writing_cursor_ h).
Definition set_wt_writing (v : Z) (h : head) : head :=
  mk_head (aligned_blocks_count_cache_ h) (rt_reading_cursor_cache_ h) (rt_writing_cursor_cache_ h)
    (wt_reading_cursor_cache_ h) v (reading_cursor_ h) (writing_cursor_ h).
Definition set_reading (v : Z) (h : head) : head :=
  mk_head (aligned_blocks_count_cache_ h) (rt_reading_cursor_cache_ h) (rt_writing_cursor_cache_ h)
    (wt_reading_cursor_cache_ h) (wt_writing_cursor_cache_ h) v (writing_cursor_ h).
Definition set_writing (v : Z) (h : head) : head :=
  mk_head (aligned_blocks_count_cache_ h) (rt_reading_cursor_cache_ h) (rt_writing_cursor_cache_ h)
    (wt_reading_cursor_cache_ h) (wt_writing_cursor_cache_ h) (reading_cursor_ h) v.

Record batch_handle := mk_batch_handle {
  bh_result : enum_buffer_result_code;
  start_cursor_ : Z;
  current_cursor_ : Z;
  end_cursor_ : Z }.

(** ** Operations *)

Definition init_cursors (h : head) : head :=
  mk_head (aligned_blocks_count_cache_ h) 0 0 0 0 0 0.

(** [init_with_memory]: the bytes of the storage behind the head are kept. *)
Definition init_with_memory_ (storage : list Z) : option siso :=
  count ← storage_blocks (zlen storage);
  Some (mk_siso (init_cursors (mk_head count 0 0 0 0 0 0)) count
          (take (Z.to_nat (count * BLOCK_SIZE)) (drop (Z.to_nat sizeof_head) storage))
          init_with_memory).

Definition init_with_memory_map (storage : list Z) : option siso :=
  s ← init_with_memory_ storage;
  Some (mk_siso (head_ s) (aligned_blocks_count_ s) (data_bytes_ s) init_with_memmap).

Definition renew (s : siso) : siso := set_head s (init_cursors (head_ s)).

Definition get_max_alloc_size (s : siso) : Z := u32 (aligned_blocks_count_ s * BLOCK_SIZE - 8).

Definition cursor_to_index (s : siso) (cursor : Z) : Z :=
  Z.land cursor (u32 (aligned_blocks_count_ s - 1)).

Definition block_num (s : siso) (index : Z) : option Z := load_le (data_bytes_ s) (index * BLOCK_SIZE) 4.
Definition block_data_size (s : siso) (index : Z) : option Z :=
  load_le (data_bytes_ s) (index * BLOCK_SIZE + 4) 4.

(** The payload lies behind the chunk head, or at the start of the data when it does not
    fit between the head and the end. *)
Definition get_block_data_addr (s : siso) (index : Z) : option Z :=
  data_size ← block_data_size s index;
  let tail_bytes := (aligned_blocks_count_ s - index) * BLOCK_SIZE in
  Some (if tail_bytes <? data_size + 8 then 0 else index * BLOCK_SIZE + 8).

(** The number of blocks of a chunk at [index]; [None] when no chunk of this size can
    start there. *)
Definition chunk_blocks (block_count index size : Z) : option Z :=
  let tail := block_count - index in
  let normal := Z.shiftr (size + 8 + 7) 3 in
  if (block_count <? normal) || (normal =? 0) ||
     ((tail <? normal) && (block_count <? normal + tail - 1))
  then None
  else Some (if tail <? normal then tail + Z.shiftr (size + 7) 3 else normal).

(** [free_blocks] for the cached cursors; the assertion that it is within the count. *)
Definition free_blocks (s : siso) : option Z :=
  let f := u32 (wt_reading_cursor_cache_ (head_ s) + aligned_blocks_count_ s -
                wt_writing_cursor_cache_ (head_ s)) in
  if aligned_blocks_count_ s <? f then None else Some f.

(** [load1] and [load2] are what the two acquire loads of [reading_cursor_] return. *)
Definition alloc_write_chunk (s : siso) (size load1 load2 : Z) : option (siso * write_handle) :=
  let block_count := aligned_blocks_count_ s in
  let index := cursor_to_index s (wt_writing_cursor_cache_ (head_ s)) in
  let tail := block_count - index in
  let normal := Z.shiftr (size + 8 + 7) 3 in
  match chunk_blocks block_count index size with
  | None => Some (s, no_write err_alloc_size_invalid)
  | Some blocks =>
      free ← free_blocks s;
      let s := if free <? blocks then set_head s (set_wt_reading load1 (head_ s)) else s in
      free ← free_blocks s;
      if free <? blocks then Some (s, no_write err_not_enough_space)
      else
        d ← store_le (data_bytes_ s) (index * BLOCK_SIZE) 4 blocks;
        d ← store_le d (index * BLOCK_SIZE + 4) 4 size;
        let s := set_data s d in
        let addr := if tail <? normal then 0 else index * BLOCK_SIZE + 8 in
        let used_before := block_count - free in
        let low := (u32 (Z.shiftl used_before 1) <? block_count) &&
                   (block_count <=? u32 (Z.shiftl (used_before + blocks) 1)) in
        if low then
          let s := set_head s (set_wt_reading load2 (head_ s)) in
          let free := u32 (load2 + block_count - wt_writing_cursor_cache_ (head_ s)) in
          Some (s, mk_write_handle addr success
                     (block_count <=? u32 (Z.shiftl (u32 (block_count - free + blocks)) 1)))
        else Some (s, mk_write_handle addr success false)
  end.

Definition commit_write_chunk (s : siso) (handle : write_handle) : option siso :=
  if decide (wh_result handle = success) then
    let index := cursor_to_index s (wt_writing_cursor_cache_ (head_ s)) in
    addr ← get_block_data_addr s index;
    if negb (wh_data_addr handle =? addr) then None
    else
      blocks ← block_num s index;
      if negb ((0 <? blocks) && (blocks <=? aligned_blocks_count_ s)) then None
      else
        let w := u32 (wt_writing_cursor_cache_ (head_ s) + blocks) in
        Some (set_head s (set_writing w (set_wt_writing w (head_ s))))
  else Some s.

(** Blocks between the reader's two caches. *)
Definition unread_blocks (s : siso) : Z :=
  u32 (rt_writing_cursor_cache_ (head_ s) - rt_reading_cursor_cache_ (head_ s)).

(** [load] is what the acquire load of [writing_cursor_] returns. *)
Definition read_chunk (s : siso) (load : Z) : option (siso * read_handle) :=
  let s := if unread_blocks s =? 0 then set_head s (set_rt_writing load (head_ s)) else s in
  if unread_blocks s =? 0 then Some (s, no_read)
  else
    let index := cursor_to_index s (rt_reading_cursor_cache_ (head_ s)) in
    data_size ← block_data_size s index;
    blocks ← block_num s index;
    if negb ((0 <? blocks) && (blocks <=? unread_blocks s) &&
             (unread_blocks s <=? aligned_blocks_count_ s)) then None
    else
      addr ← get_block_data_addr s index;
      Some (s, mk_read_handle addr data_size success).

Definition return_read_chunk (s : siso) (handle : read_handle) : option siso :=
  if decide (rh_result handle = success) then
    let index := cursor_to_index s (rt_reading_cursor_cache_ (head_ s)) in
    addr ← get_block_data_addr s index;
    if negb (rh_data_addr handle =? addr) then None
    else
      blocks ← block_num s index;
      let r := u32 (rt_reading_cursor_cache_ (head_ s) + blocks) in
      Some (set_head s (set_reading r (set_rt_reading r (head_ s))))
  else Some s.

Definition discard_read_chunk (handle : read_handle) : read_handle :=
  mk_read_handle (rh_data_addr handle) (rh_data_size handle) err_empty_log_buffer.

Definition read_an_empty_chunk : read_handle := no_read.

Definition batch_read (s : siso) (load : Z) : siso * batch_handle :=
  let s := if rt_writing_cursor_cache_ (head_ s) =? rt_reading_cursor_cache_ (head_ s)
           then set_head s (set_rt_writing load (head_ s)) else s in
  let start := rt_reading_cursor_cache_ (head_ s) in
  let end_ := rt_writing_cursor_cache_ (head_ s) in
  (s, mk_batch_handle (if start =? end_ then err_empty_log_buffer else success) start start end_).

Definition has_next (b : batch_handle) : bool := negb (current_cursor_ b =? end_cursor_ b).

Definition batch_next (s : siso) (b : batch_handle) : option (siso * batch_handle * read_handle) :=
  if negb (bool_decide (bh_result b = success)) || negb (has_next b) then None
  else
    let index := cursor_to_index s (current_cursor_ b) in
    blocks ← block_num s index;
    data_size ← block_data_size s index;
    if negb ((0 <? blocks) && (blocks <=? u32 (end_cursor_ b - current_cursor_ b))) then None
    else
      addr ← get_block_data_addr s index;
      let c := u32 (current_cursor_ b + blocks) in
      Some (set_head s (set_rt_reading c (head_ s)),
            mk_batch_handle (bh_result b) (start_cursor_ b) c (end_cursor_ b),
            mk_read_handle addr data_size (bh_result b)).

Definition return_batch_read_chunks (s : siso) (b : batch_handle) : option siso :=
  if decide (bh_result b = success) then
    if (current_cursor_ b =? end_cursor_ b) && (start_cursor_ b =? reading_cursor_ (head_ s)) &&
       (end_cursor_ b =? rt_reading_cursor_cache_ (head_ s)) &&
       (end_cursor_ b =? rt_writing_cursor_cache_ (head_ s))
    then Some (set_head s (set_reading (rt_reading_cursor_cache_ (head_ s)) (head_ s)))
    else None
  else Some s.

(** The chunks handed to the callback of [data_traverse], in order; [loads] is what the
    acquire loads return. [None] also when the fuel or the loads run out. *)
Fixpoint data_traverse (fuel : nat) (s : siso) (cursor : Z) (loads : list Z) :
    option (siso * list (Z * Z)) :=
  match fuel with
  | O => None
  | S fuel =>
      let visit (s : siso) (loads : list Z) :=
        let index := cursor_to_index s cursor in
        blocks ← block_num s index;
        data_size ← block_data_size s index;
        if negb ((0 <? blocks) && (blocks <=? u32 (rt_writing_cursor_cache_ (head_ s) - cursor)))
        then None
        else
          addr ← get_block_data_addr s index;
          '(s', visited) ← data_traverse fuel s (u32 (cursor + blocks)) loads;
          Some (s', (addr, data_size) :: visited) in
      if cursor =? rt_writing_cursor_cache_ (head_ s) then
        match loads with
        | [] => None
        | load :: loads =>
            let s := set_head s (set_rt_writing load (head_ s)) in
            if cursor =? load then Some (s, []) else visit s loads
        end
      else visit s loads
  end.

(** ** Recovery from a memory map *)

(** The walk over the saved chunks: [Some (Some cursor)] when every chunk is consistent. *)
Fixpoint recover_loop (fuel : nat) (data : list Z) (blockcount cursor remaining : Z) :
    option (option Z) :=
  match fuel with
  | O => None
  | S fuel =>
      if remaining =? 0 then Some (Some cursor)
      else
        let index := Z.land cursor (u32 (blockcount - 1)) in
        blocks ← load_le data (index * BLOCK_SIZE) 4;
        data_size ← load_le data (index * BLOCK_SIZE + 4) 4;
        if (blocks =? 0) || (remaining <? blocks) then Some None
        else
          match chunk_blocks blockcount index data_size with
          | None => Some None
          | Some expected_blocks =>
              if negb (expected_blocks =? blocks) then Some None
              else recover_loop fuel data blockcount (u32 (cursor + blocks)) (u32 (remaining - blocks))
          end
  end.

(** [Some None] is [return false]. *)
Definition try_recover_from_exist_memory_map (storage : list Z) : option (option siso) :=
  blockcount ← storage_blocks (zlen storage);
  let data := take (Z.to_nat (blockcount * BLOCK_SIZE)) (drop (Z.to_nat sizeof_head) storage) in
  saved_blockcount ← load_le storage 0 4;
  saved_read ← load_le storage 4 4;
  saved_write ← load_le storage (CACHE_LINE_SIZE + 4) 4;
  if negb (saved_blockcount =? blockcount) then Some None
  else
    let remaining := u32 (saved_write - saved_read) in
    if blockcount <? remaining then Some None
    else
      cursor ← recover_loop (S (Z.to_nat blockcount)) data blockcount saved_read remaining;
      match cursor with
      | None => Some None
      | Some cursor =>
          if negb (cursor =? saved_write) then Some None
          else Some (Some (mk_siso
                 (mk_head blockcount saved_read saved_write saved_read saved_write saved_read saved_write)
                 blockcount data recover_from_memory_map))
      end.

(** The constructor. *)
Definition siso_ring_buffer (storage : list Z) (is_memory_recovery : bool) : option siso :=
  if is_memory_recovery then
    r ← try_recover_from_exist_memory_map storage;
    match r with
    | Some s => Some s
    | None => init_with_memory_map storage
    end
  else init_with_memory_ storage.

(** ** The two threads

    An event is one call of one of the threads, or the producer writing payload bytes
    through its handle. [w_hist] and [r_hist] are the values stored so far to the shared
    cursors; an acquire load may return any of them that is not older than what the
    thread has already seen ([w_seen], [r_seen]). [committed] and [consumed] record the
    payloads published and handed out. *)

Inductive reader_state :=
  | R_idle
  | R_chunk (h : read_handle)
  | R_batch (b : batch_handle).

Record sys := mk_sys {
  ring : siso;
  pending : option (write_handle * Z);
  reader : reader_state;
  w_hist : list Z;
  w_seen : nat;
  r_hist : list Z;
  r_seen : nat;
  committed : list (list Z);
  consumed : list (list Z) }.

Inductive event :=
  | Alloc (size : Z) (j1 j2 : nat)
  | Write (off : Z) (bytes : list Z)
  | Commit
  | Read (j : nat)
  | Read_empty
  | Return
  | Discard
  | Batch (j : nat)
  | Next
  | Return_batch.

Definition step (s : sys) (e : event) : option sys :=
  let '(mk_sys ring pending reader w_hist w_seen r_hist r_seen committed consumed) := s in
  match e with
  | Alloc size j1 j2 =>
      l1 ← r_hist !! j1; l2 ← r_hist !! j2;
      '(ring, h) ← alloc_write_chunk ring size l1 l2;
      Some (mk_sys ring (Some (h, size)) reader w_hist w_seen r_hist j2 committed consumed)
  | Write off bytes =>
      '(h, size) ← pending;
      d ← store (data_bytes_ ring) (wh_data_addr h + off) bytes;
      Some (mk_sys (set_data ring d) pending reader w_hist w_seen r_hist r_seen committed consumed)
  | Commit =>
      '(h, size) ← pending;
      ring' ← commit_write_chunk ring h;
      if decide (wh_result h = success) then
        msg ← load (data_bytes_ ring) (wh_data_addr h) size;
        Some (mk_sys ring' None reader (w_hist ++ [writing_cursor_ (head_ ring')]) w_seen
                r_hist r_seen (committed ++ [msg]) consumed)
      else Some (mk_sys ring' None reader w_hist w_seen r_hist r_seen committed consumed)
  | Read j =>
      l ← w_hist !! j;
      '(ring, h) ← read_chunk ring l;
      Some (mk_sys ring pending (R_chunk h) w_hist j r_hist r_seen committed consumed)
  | Read_empty =>
      Some (mk_sys ring pending (R_chunk read_an_empty_chunk) w_hist w_seen r_hist r_seen
              committed consumed)
  | Return =>
      match reader with
      | R_chunk h =>
          ring' ← return_read_chunk ring h;
          if decide (rh_result h = success) then
            msg ← load (data_bytes_ ring) (rh_data_addr h) (rh_data_size h);
            Some (mk_sys ring' pending R_idle w_hist w_seen
                    (r_hist ++ [reading_cursor_ (head_ ring')]) r_seen committed
                    (consumed ++ [msg]))
          else Some (mk_sys ring' pending R_idle w_hist w_seen r_hist r_seen committed consumed)
      | _ => None
      end
  | Discard =>
      match reader with
      | R_chunk h =>
          ring' ← return_read_chunk ring (discard_read_chunk h);
          Some (mk_sys ring' pending R_idle w_hist w_seen r_hist r_seen committed consumed)
      | _ => None
      end
  | Batch j =>
      l ← w_hist !! j;
      let '(ring, b) := batch_read ring l in
      Some (mk_sys ring pending (R_batch b) w_hist j r_hist r_seen committed consumed)
  | Next =>
      match reader with
      | R_batch b =>
          '(ring', b', h) ← batch_next ring b;
          msg ← load (data_bytes_ ring) (rh_data_addr h) (rh_data_size h);
          Some (mk_sys ring' pending (R_batch b') w_hist w_seen r_hist r_seen committed
                  (consumed ++ [msg]))
      | _ => None
      end
  | Return_batch =>
      match reader with
      | R_batch b =>
          ring' ← return_batch_read_chunks ring b;
          Some (mk_sys ring' pending R_idle w_hist w_seen
                  (if decide (bh_result b = success)
                   then r_hist ++ [reading_cursor_ (head_ ring')] else r_hist)
                  r_seen committed consumed)
      | _ => None
      end
  end.

(** The calling protocol: one outstanding write handle, one outstanding read or batch, a
    batch returned only when exhausted, payload written inside the chunk, and loads that
    do not go back in time. *)
Definition enabled (s : sys) (e : event) : Prop :=
  match e with
  | Alloc size j1 j2 =>
      pending s = None /\ in_range 32 size /\
      (r_seen s <= j1)%nat /\ (j1 <= j2)%nat /\ (j2 < length (r_hist s))%nat
  | Write off bytes =>
      exists h size, pending s = Some (h, size) /\ wh_result h = success /\
        0 <= off /\ off + zlen bytes <= size /\ bytes_ok bytes
  | Commit => pending s <> None
  | Read j | Batch j =>
      reader s = R_idle /\ (w_seen s <= j)%nat /\ (j < length (w_hist s))%nat
  | Read_empty => reader s = R_idle
  | Return | Discard => exists h, reader s = R_chunk h
  | Next => exists b, reader s = R_batch b /\ bh_result b = success /\ has_next b = true
  | Return_batch =>
      exists b, reader s = R_batch b /\ (bh_result b = success -> has_next b = false)
  end.

(** A run of the protocol. *)
Inductive runs : sys -> list event -> sys -> Prop :=
  | runs_nil s : runs s [] s
  | runs_cons s e s1 es s2 :
      enabled s e -> step s e = Some s1 -> runs s1 es s2 -> runs s (e :: es) s2.

(** The system around a ring in which nothing is outstanding. *)
Definition initial_sys (r : siso) : sys :=
  mk_sys r None R_idle [writing_cursor_ (head_ r)] 0 [reading_cursor_ (head_ r)] 0 [] [].

(** ** Chunks and the blocks they own *)

Definition payload_addr (N index size : Z) : Z :=
  if N - index <? Z.shiftr (size + 8 + 7) 3 then 0 else index * BLOCK_SIZE + 8.

(** A complete chunk of [n] blocks with payload [msg] at the unbounded cursor [c]. *)
Record chunk_at (N : Z) (data : list Z) (c : Z) (msg : list Z) (n : Z) : Prop := {
  ca_blocks : chunk_blocks N (c mod N) (zlen msg) = Some n;
  ca_size : zlen msg < 2 ^ 32;
  ca_num : load_le data (c mod N * BLOCK_SIZE) 4 = Some n;
  ca_data_size : load_le data (c mod N * BLOCK_SIZE + 4) 4 = Some (zlen msg);
  ca_payload : load data (payload_addr N (c mod N) (zlen msg)) (zlen msg) = Some msg }.

(** Byte [i] lies in one of the [n] blocks from cursor [c] on. *)
Definition owned (N c n i : Z) : Prop := exists k, c <= k < c + n /\ i / 8 = k mod N.

Lemma owned_disjoint (N c n c' n' i : Z) :
  0 < N -> c + n <= c' -> c' + n' <= c + N -> owned N c n i -> owned N c' n' i -> False.
Proof.
  intros HN H1 H2 (k & Hk & E) (k' & Hk' & E'). rewrite E in E'.
  assert ((k' - k) mod N = 0) as Hm.
  { rewrite Zminus_mod, E', Z.sub_diag. apply Z.mod_0_l. lia. }
  rewrite Z.mod_small in Hm by lia. lia.
Qed.

Lemma chunk_blocks_inv (N index size n : Z) :
  0 <= index < N -> 0 <= size -> chunk_blocks N index size = Some n ->
  let normal := (size + 15) / 8 in
  1 <= normal /\ 0 < n <= N /\
  (N - index < normal /\ n = N - index + (size + 7) / 8 \/ normal <= N - index /\ n = normal).
Proof.
  intros Hi Hs H. unfold chunk_blocks in H. rewrite !Z.shiftr_div_pow2 in H by lia.
  change (2 ^ 3) with 8 in H. replace (size + 8 + 7) with (size + 15) in H by lia.
  assert (1 <= (size + 15) / 8) by (apply Z.div_le_lower_bound; lia).
  assert ((size + 15) / 8 = (size + 7) / 8 + 1) as E.
  { replace (size + 15) with (size + 7 + 1 * 8) by lia. by rewrite Z.div_add. }
  assert (0 <= (size + 7) / 8) by (apply Z.div_pos; lia).
  destruct (_ || _) eqn:Eb; [done|]. injection H as <-.
  rewrite !orb_false_iff, andb_false_iff, !Z.ltb_ge, Z.eqb_neq in Eb. simpl.
  destruct (_ <? _) eqn:Et; [apply Z.ltb_lt in Et|apply Z.ltb_ge in Et]; lia.
Qed.

(** The head and the payload of a chunk lie in its own blocks. *)
Lemma chunk_owned (N c size n i : Z) :
  0 < N -> 0 <= size -> chunk_blocks N (c mod N) size = Some n ->
  (c mod N * BLOCK_SIZE <= i < c mod N * BLOCK_SIZE + 8 \/
   payload_addr N (c mod N) size <= i < payload_addr N (c mod N) size + size) ->
  owned N c n i /\ 0 <= i < N * BLOCK_SIZE.
Proof.
  intros HN Hs Hn Hi. pose proof (Z.mod_pos_bound c N HN) as Hidx.
  destruct (chunk_blocks_inv _ _ _ _ Hidx Hs Hn) as (H1 & Hn0 & Hcase).
  unfold payload_addr, BLOCK_SIZE in *. rewrite Z.shiftr_div_pow2 in Hi by lia.
  change (2 ^ 3) with 8 in Hi. replace (size + 8 + 7) with (size + 15) in Hi by lia.
  pose proof (Z.div_mod c N ltac:(lia)) as Hc.
  assert (forall j, 0 <= j -> c mod N + j < N -> (c + j) mod N = c mod N + j) as Hfwd.
  { intros j Hj Hlt. rewrite <- (Z.mod_small (c mod N + j) N) by lia.
    by rewrite Zplus_mod_idemp_l. }
  pose proof (Z.div_mod i 8 ltac:(lia)) as Hi8. pose proof (Z.mod_pos_bound i 8 ltac:(lia)).
  pose proof (Z.div_mod (size + 15) 8 ltac:(lia)) as Hs8.
  pose proof (Z.mod_pos_bound (size + 15) 8 ltac:(lia)).
  pose proof (Z.div_mod (size + 7) 8 ltac:(lia)) as Ht8.
  pose proof (Z.mod_pos_bound (size + 7) 8 ltac:(lia)).
  destruct Hi as [Hi|Hi].
  - split; [|nia]. exists c. split; [lia|]. lia.
  - destruct Hcase as [[Ht ->]|[Ht ->]].
    + destruct (_ <? _) eqn:E in Hi; [|apply Z.ltb_ge in E; lia].
      assert (i / 8 < (size + 7) / 8) by lia. split; [|lia].
      exists (c + (N - c mod N) + i / 8). split; [lia|].
      replace (c + (N - c mod N) + i / 8) with (i / 8 + (c / N + 1) * N) by lia.
      rewrite Z_mod_plus_full, Z.mod_small by lia. done.
    + destruct (_ <? _) eqn:E in Hi; [apply Z.ltb_lt in E; lia|].
      split; [|lia]. exists (c + (i / 8 - c mod N)). split; [lia|]. rewrite Hfwd; lia.
Qed.

(** Two data areas that agree on the blocks of a chunk. *)
Lemma chunk_at_frame (N c n : Z) (data data' msg : list Z) :
  0 < N -> length data' = length data ->
  (forall i, owned N c n (Z.of_nat i) -> data' !! i = data !! i) ->
  chunk_at N data c msg n -> chunk_at N data' c msg n.
Proof.
  intros HN Hl Hsame [Hb Hs Hnum Hds Hp]. pose proof (zlen_nonneg msg) as H0.
  assert (forall a m, (forall i, a <= i < a + m -> owned N c n i) -> load data' a m = load data a m) as Hload.
  { intros a m Ho. apply load_ext; [done|]. intros i Hi. apply Hsame, Ho. lia. }
  split; unfold load_le; try done.
  - rewrite Hload; [done|]. intros i Hi. eapply chunk_owned; try done. left. lia.
  - rewrite Hload; [done|]. intros i Hi. eapply chunk_owned; try done. left. lia.
  - rewrite Hload; [done|]. intros i Hi. eapply chunk_owned; try done. right. lia.
Qed.

(** ** The invariant

    [B j] is the unbounded cursor after [j] committed chunks; [jw <= jp <= jr <= jv] are
    the numbers of chunks known free to the producer, published as free, handed to the
    reader and seen by the reader. *)

Definition pow2_blocks (N : Z) : Prop := exists k, 1 <= k <= 28 /\ N = 2 ^ k.

Record cursors_ok (h : head) (B : nat -> Z) (n jw jp jr jv : nat) : Prop := {
  c_rt_reading : rt_reading_cursor_cache_ h = u32 (B jr);
  c_rt_writing : rt_writing_cursor_cache_ h = u32 (B jv);
  c_wt_reading : wt_reading_cursor_cache_ h = u32 (B jw);
  c_wt_writing : wt_writing_cursor_cache_ h = u32 (B n);
  c_reading : reading_cursor_ h = u32 (B jp);
  c_writing : writing_cursor_ h = u32 (B n) }.

Definition pending_ok (s : sys) (N : Z) (B : nat -> Z) (n jw : nat) : Prop :=
  match pending s with
  | None => True
  | Some (h, size) =>
      in_range 32 size /\
      (wh_result h = success ->
       exists blocks, chunk_blocks N (B n mod N) size = Some blocks /\
         B n + blocks <= B jw + N /\
         load_le (data_bytes_ (ring s)) (B n mod N * BLOCK_SIZE) 4 = Some blocks /\
         load_le (data_bytes_ (ring s)) (B n mod N * BLOCK_SIZE + 4) 4 = Some size /\
         wh_data_addr h = payload_addr N (B n mod N) size)
  end.

Definition reader_ok (s : sys) (N : Z) (B : nat -> Z) (jp jr jv : nat) : Prop :=
  match reader s with
  | R_idle => jr = jp
  | R_chunk h =>
      jr = jp /\
      (rh_result h = success ->
       (jr < jv)%nat /\ exists msg, committed s !! jr = Some msg /\
         rh_data_addr h = payload_addr N (B jr mod N) (zlen msg) /\ rh_data_size h = zlen msg)
  | R_batch b =>
      if decide (bh_result b = success) then
        (jp < jv)%nat /\ start_cursor_ b = u32 (B jp) /\ current_cursor_ b = u32 (B jr) /\
        end_cursor_ b = u32 (B jv)
      else jr = jp
  end.

Record inv_at (s : sys) (N : Z) (B : nat -> Z) (rj : list nat) (jw jp jr jv : nat) : Prop := {
  i_pow : pow2_blocks N;
  i_count : aligned_blocks_count_ (ring s) = N;
  i_data : zlen (data_bytes_ (ring s)) = N * BLOCK_SIZE /\ bytes_ok (data_bytes_ (ring s));
  i_start : 0 <= B O;
  i_mono : forall j, (j < length (committed s))%nat -> B j < B (S j);
  i_order : (jw <= jp <= jr)%nat /\ (jr <= jv <= length (committed s))%nat;
  i_room : B (length (committed s)) <= B jw + N;
  i_cursors : cursors_ok (head_ (ring s)) B (length (committed s)) jw jp jr jv;
  i_chunks : forall j msg, (jp <= j)%nat -> committed s !! j = Some msg ->
    chunk_at N (data_bytes_ (ring s)) (B j) msg (B (S j) - B j);
  i_whist : w_hist s = map (fun j => u32 (B j)) (seq 0 (S (length (committed s)))) /\
            (jv <= w_seen s <= length (committed s))%nat;
  i_rhist : r_hist s = map (fun j => u32 (B j)) rj /\ rj !! (length rj - 1)%nat = Some jp /\
            (forall i i' a b, rj !! i = Some a -> rj !! i' = Some b -> (i <= i')%nat -> (a <= b)%nat) /\
            exists q, rj !! r_seen s = Some q /\ (jw <= q)%nat;
  i_consumed : consumed s = take jr (committed s);
  i_pending : pending_ok s N B (length (committed s)) jw;
  i_reader : reader_ok s N B jp jr jv }.

Definition inv (s : sys) : Prop := exists N B rj jw jp jr jv, inv_at s N B rj jw jp jr jv.

(** *** Cursor arithmetic *)

Lemma pow2_bounds (N : Z) : pow2_blocks N -> 2 <= N <= 2 ^ 28.
Proof.
  intros (k & Hk & ->). split.
  - change 2 with (2 ^ 1) at 1. apply Z.pow_le_mono_r; lia.
  - apply Z.pow_le_mono_r; lia.
Qed.

Lemma land_index (N c : Z) : pow2_blocks N -> Z.land (u32 c) (u32 (N - 1)) = c mod N.
Proof. intros (k & Hk & ->). apply land_cursor. lia. Qed.

Lemma u32_free (r N w : Z) : 0 <= r + N - w < 2 ^ 32 -> u32 (u32 r + N - u32 w) = r + N - w.
Proof.
  intros. rewrite wrap_sub_r. replace (u32 r + N - w) with (u32 r + (N - w)) by lia.
  rewrite wrap_add_l. replace (r + (N - w)) with (r + N - w) by lia. by apply wrap_small.
Qed.

Section Mono.
Variables (B : nat -> Z) (n : nat).
Hypothesis Hmono : forall j, (j < n)%nat -> B j < B (S j).

Lemma B_le (i j : nat) : (i <= j <= n)%nat -> B i <= B j.
Proof.
  intros [Hij Hj]. induction Hij as [|j Hij IH]; [lia|].
  specialize (Hmono j ltac:(lia)). specialize (IH ltac:(lia)). lia.
Qed.

Lemma B_lt (i j : nat) : (i < j <= n)%nat -> B i < B j.
Proof. intros H. pose proof (Hmono i ltac:(lia)). pose proof (B_le (S i) j ltac:(lia)). lia. Qed.

End Mono.

(** What a load of a shared cursor can return. *)
Lemma w_load (s : sys) N B rj jw jp jr jv j :
  inv_at s N B rj jw jp jr jv -> (w_seen s <= j)%nat -> (j < length (w_hist s))%nat ->
  w_hist s !! j = Some (u32 (B j)) /\ (jv <= j <= length (committed s))%nat.
Proof.
  intros Hi H1 H2. destruct (i_whist _ _ _ _ _ _ _ _ Hi) as [Hw Hs].
  rewrite Hw, length_map, length_seq in H2. split; [|lia].
  rewrite Hw, list_lookup_fmap, lookup_seq_lt by lia. done.
Qed.

Lemma r_load (s : sys) N B rj jw jp jr jv j :
  inv_at s N B rj jw jp jr jv -> (r_seen s <= j)%nat -> (j < length (r_hist s))%nat ->
  exists q, r_hist s !! j = Some (u32 (B q)) /\ rj !! j = Some q /\ (jw <= q <= jp)%nat.
Proof.
  intros Hi H1 H2. destruct (i_rhist _ _ _ _ _ _ _ _ Hi) as (Hr & Hlast & Hsorted & q0 & Hq0 & Hle).
  rewrite Hr, length_map in H2. destruct (lookup_lt_is_Some_2 rj j H2) as [q Hq].
  exists q. rewrite Hr, list_lookup_fmap, Hq. split; [done|]. split; [done|].
  pose proof (Hsorted _ _ _ _ Hq0 Hq H1). 
  pose proof (Hsorted _ _ _ _ Hq Hlast ltac:(lia)). lia.
Qed.

(** *** The producer *)

Lemma chunks_frame (s : sys) N B rj jw jp jr jv (blocks : Z) (data' : list Z) :
  inv_at s N B rj jw jp jr jv -> B (length (committed s)) + blocks <= B jw + N ->
  length data' = length (data_bytes_ (ring s)) ->
  (forall i, ~ owned N (B (length (committed s))) blocks (Z.of_nat i) ->
     data' !! i = data_bytes_ (ring s) !! i) ->
  forall j msg, (jp <= j)%nat -> committed s !! j = Some msg ->
    chunk_at N data' (B j) msg (B (S j) - B j).
Proof.
  intros Hi Hroom Hl Hsame j msg Hj Hmsg. pose proof (pow2_bounds N (i_pow _ _ _ _ _ _ _ _ Hi)).
  pose proof (lookup_lt_Some _ _ _ Hmsg) as Hjn.
  pose proof (B_le B _ (i_mono _ _ _ _ _ _ _ _ Hi)) as Hle.
  pose proof (i_order _ _ _ _ _ _ _ _ Hi) as [Ho1 Ho2].
  pose proof (Hle (S j) (length (committed s)) ltac:(lia)). pose proof (Hle jw j ltac:(lia)).
  eapply chunk_at_frame; [lia|exact Hl| |by eapply i_chunks].
  intros i Hown. apply Hsame. intros Hown'.
  eapply (owned_disjoint N (B j) (B (S j) - B j) (B (length (committed s))) blocks); try done; lia.
Qed.

(** Storing inside the blocks that follow the last committed chunk. *)
Lemma store_owned (N c size blocks : Z) (data : list Z) (off : Z) (bs : list Z) :
  0 < N -> 0 <= size -> chunk_blocks N (c mod N) size = Some blocks ->
  zlen data = N * BLOCK_SIZE -> 0 < zlen bs ->
  (c mod N * BLOCK_SIZE <= off /\ off + zlen bs <= c mod N * BLOCK_SIZE + 8 \/
   payload_addr N (c mod N) size <= off /\
   off + zlen bs <= payload_addr N (c mod N) size + size) ->
  exists data', store data off bs = Some data' /\ length data' = length data /\
    forall i, ~ owned N c blocks (Z.of_nat i) -> data' !! i = data !! i.
Proof.
  intros HN Hs Hb Hl Hpos Hin.
  assert (owned N c blocks off /\ 0 <= off < N * BLOCK_SIZE) as [_ Ho1].
  { eapply chunk_owned; try done. lia. }
  assert (owned N c blocks (off + zlen bs - 1) /\ 0 <= off + zlen bs - 1 < N * BLOCK_SIZE) as [_ Ho2].
  { eapply chunk_owned; try done. lia. }
  destruct (store_is_Some data off bs) as [data' Hd]; [lia..|].
  exists data'. split; [done|]. split; [by eapply store_length|]. intros i Hno.
  rewrite (store_lookup _ _ _ _ i Hd). rewrite decide_False; [done|]. intros Hd'.
  apply Hno. eapply chunk_owned; try done. lia.
Qed.

Lemma free_blocks_inv (s : sys) N B rj jw jp jr jv (q : nat) :
  inv_at s N B rj jw jp jr jv -> (jw <= q <= jp)%nat ->
  0 <= B q + N - B (length (committed s)) <= N /\
  free_blocks (set_head (ring s) (set_wt_reading (u32 (B q)) (head_ (ring s)))) =
    Some (B q + N - B (length (committed s))).
Proof.
  intros Hi Hq. pose proof (pow2_bounds N (i_pow _ _ _ _ _ _ _ _ Hi)).
  pose proof (B_le B _ (i_mono _ _ _ _ _ _ _ _ Hi)) as Hle.
  pose proof (i_order _ _ _ _ _ _ _ _ Hi) as [Ho1 Ho2].
  pose proof (Hle jw q ltac:(lia)). pose proof (Hle q (length (committed s)) ltac:(lia)).
  pose proof (i_room _ _ _ _ _ _ _ _ Hi). split; [lia|].
  unfold free_blocks. simpl. rewrite (c_wt_writing _ _ _ _ _ _ _ (i_cursors _ _ _ _ _ _ _ _ Hi)).
  rewrite (i_count _ _ _ _ _ _ _ _ Hi), u32_free by lia.
  destruct (N <? _) eqn:E; [apply Z.ltb_lt in E; lia|done].
Qed.

Lemma set_wt_reading_same (s : sys) N B rj jw jp jr jv :
  inv_at s N B rj jw jp jr jv ->
  set_head (ring s) (set_wt_reading (u32 (B jw)) (head_ (ring s))) = ring s.
Proof.
  intros Hi. rewrite <- (c_wt_reading _ _ _ _ _ _ _ (i_cursors _ _ _ _ _ _ _ _ Hi)).
  by destruct s as [[[] ? ? ?] ? ? ? ? ? ? ? ?].
Qed.

(** What an allocation does: its answer, and the state after it. *)
Lemma alloc_result (s : sys) N B rj jw jp jr jv (size : Z) (q1 q2 : nat) :
  inv_at s N B rj jw jp jr jv -> in_range 32 size -> (jw <= q1)%nat -> (q1 <= q2 <= jp)%nat ->
  exists q r h,
    alloc_write_chunk (ring s) size (u32 (B q1)) (u32 (B q2)) = Some (r, h) /\
    (jw <= q <= q2)%nat /\
    (match chunk_blocks N (B (length (committed s)) mod N) size with
     | None => wh_result h = err_alloc_size_invalid /\ r = ring s /\ q = jw
     | Some blocks =>
         (wh_result h = err_not_enough_space /\ q = q1 /\
          B q1 + N < B (length (committed s)) + blocks /\
          r = set_head (ring s) (set_wt_reading (u32 (B q)) (head_ (ring s)))) \/
         (wh_result h = success /\ B (length (committed s)) + blocks <= B q + N /\
          wh_data_addr h = payload_addr N (B (length (committed s)) mod N) size /\
          exists data', r = set_data (set_head (ring s) (set_wt_reading (u32 (B q)) (head_ (ring s)))) data' /\
            length data' = length (data_bytes_ (ring s)) /\ bytes_ok data' /\
            load_le data' (B (length (committed s)) mod N * BLOCK_SIZE) 4 = Some blocks /\
            load_le data' (B (length (committed s)) mod N * BLOCK_SIZE + 4) 4 = Some size /\
            forall i, ~ owned N (B (length (committed s))) blocks (Z.of_nat i) ->
              data' !! i = data_bytes_ (ring s) !! i)
     end).
Proof.
  intros Hi Hsize Hq1 Hq2. unfold alloc_write_chunk.
  pose proof (i_pow _ _ _ _ _ _ _ _ Hi) as Hp. pose proof (pow2_bounds N Hp) as HN.
  destruct (i_data _ _ _ _ _ _ _ _ Hi) as [Hdl Hdok].
  pose proof (i_order _ _ _ _ _ _ _ _ Hi) as [Ho1 Ho2].
  set (n := length (committed s)) in *.
  assert (cursor_to_index (ring s) (wt_writing_cursor_cache_ (head_ (ring s))) = B n mod N) as Hidx.
  { unfold cursor_to_index. rewrite (i_count _ _ _ _ _ _ _ _ Hi).
    rewrite (c_wt_writing _ _ _ _ _ _ _ (i_cursors _ _ _ _ _ _ _ _ Hi)). by apply land_index. }
  rewrite Hidx, (i_count _ _ _ _ _ _ _ _ Hi).
  pose proof (Z.mod_pos_bound (B n) N ltac:(lia)) as Hib. unfold in_range in Hsize.
  destruct (chunk_blocks N (B n mod N) size) as [blocks|] eqn:Hb.
  2:{ exists jw. do 2 eexists. split; [reflexivity|]. split; [lia|done]. }
  destruct (chunk_blocks_inv N (B n mod N) size blocks Hib ltac:(lia) Hb) as (_ & Hbn & _).
  destruct (free_blocks_inv s N B rj jw jp jr jv jw Hi ltac:(lia)) as [Hf0 Hfree0].
  rewrite (set_wt_reading_same _ _ _ _ _ _ _ _ Hi) in Hfree0. fold n in Hf0, Hfree0.
  rewrite Hfree0. simpl mbind.
  (* the cached cursor after the first test *)
  set (q := if B jw + N - B n <? blocks then q1 else jw).
  assert ((if B jw + N - B n <? blocks then set_head (ring s) (set_wt_reading (u32 (B q1)) (head_ (ring s)))
           else ring s) = set_head (ring s) (set_wt_reading (u32 (B q)) (head_ (ring s)))) as ->.
  { unfold q. destruct (_ <? _); [done|]. symmetry. by eapply set_wt_reading_same. }
  assert (jw <= q <= q1)%nat as Hq by (unfold q; destruct (_ <? _); lia).
  destruct (free_blocks_inv s N B rj jw jp jr jv q Hi ltac:(lia)) as [Hf Hfree]. fold n in Hf, Hfree.
  rewrite Hfree. simpl mbind. destruct (B q + N - B n <? blocks) eqn:Efull.
  { apply Z.ltb_lt in Efull.
    assert (q = q1) as Eq.
    { unfold q in *. destruct (B jw + N - B n <? blocks) eqn:E; [done|]. apply Z.ltb_ge in E. lia. }
    exists q. do 2 eexists. split; [reflexivity|]. split; [lia|]. left. rewrite <- Eq.
    split_and!; [done|done|lia|done]. }
  apply Z.ltb_ge in Efull. simpl data_bytes_. unfold store_le.
  destruct (store_owned N (B n) size blocks (data_bytes_ (ring s)) (B n mod N * BLOCK_SIZE)
    (le_bytes (Z.to_nat 4) blocks)) as (d1 & Hd1 & Hl1 & Hs1);
    [lia|lia|done|done|rewrite zlen_le_bytes; lia|left; rewrite zlen_le_bytes; lia|].
  destruct (store_owned N (B n) size blocks d1 (B n mod N * BLOCK_SIZE + 4)
    (le_bytes (Z.to_nat 4) size)) as (d2 & Hd2 & Hl2 & Hs2);
    [lia|lia|done|unfold zlen in *; lia|rewrite zlen_le_bytes; lia|left; rewrite zlen_le_bytes; lia|].
  rewrite Hd1. simpl mbind. rewrite Hd2. simpl mbind.
  assert (length d2 = length (data_bytes_ (ring s))) as Hl by lia.
  assert (bytes_ok d2) as Hok2.
  { eapply store_bytes_ok; [done| |apply le_bytes_ok]. eapply store_bytes_ok; [done..|apply le_bytes_ok]. }
  assert (load_le d2 (B n mod N * BLOCK_SIZE) 4 = Some blocks) as Hnum.
  { unfold load_le. rewrite (load_store_other _ _ _ _ _ _ Hd2) by lia.
    apply (load_le_store_same (data_bytes_ (ring s)) _ 4 blocks); [lia|lia|exact Hd1]. }
  assert (load_le d2 (B n mod N * BLOCK_SIZE + 4) 4 = Some size) as Hds.
  { apply (load_le_store_same d1 _ 4 size); [lia|lia|exact Hd2]. }
  assert (forall i, ~ owned N (B n) blocks (Z.of_nat i) -> d2 !! i = data_bytes_ (ring s) !! i) as Hsame.
  { intros i Hno. rewrite Hs2, Hs1; done. }
  destruct (_ && _) eqn:Elow; do 3 eexists; (split; [reflexivity|]).
  - instantiate (1 := q2). pose proof (B_le B _ (i_mono _ _ _ _ _ _ _ _ Hi) q q2 ltac:(fold n; lia)).
    split; [lia|]. right. split; [done|]. split; [lia|]. split; [done|]. exists d2. done.
  - split; [|right; split; [done|]; split; [|split; [done|]; exists d2; done]]; lia.
Qed.

(** Advancing the producer's cached reading cursor and writing in its own blocks keeps
    the invariant; [pend] is the new outstanding handle. *)
Lemma inv_producer (s : sys) N B rj jw jp jr jv (q : nat) (data' : list Z)
    (pend : option (write_handle * Z)) (r_seen' : nat) (q' : nat) (blocks : Z) :
  inv_at s N B rj jw jp jr jv -> (jw <= q <= jp)%nat -> rj !! r_seen' = Some q' -> (q <= q')%nat ->
  B (length (committed s)) + blocks <= B q + N ->
  length data' = length (data_bytes_ (ring s)) -> bytes_ok data' ->
  (forall i, ~ owned N (B (length (committed s))) blocks (Z.of_nat i) ->
     data' !! i = data_bytes_ (ring s) !! i) ->
  let s' := mk_sys (set_data (set_head (ring s) (set_wt_reading (u32 (B q)) (head_ (ring s)))) data')
              pend (reader s) (w_hist s) (w_seen s) (r_hist s) r_seen' (committed s) (consumed s) in
  pending_ok s' N B (length (committed s)) q ->
  inv_at s' N B rj q jp jr jv.
Proof.
  intros Hi Hq Hseen Hle' Hroom Hl Hok Hsame s' Hpend.
  pose proof (B_le B _ (i_mono _ _ _ _ _ _ _ _ Hi)) as Hle.
  pose proof (pow2_bounds N (i_pow _ _ _ _ _ _ _ _ Hi)) as HN.
  pose proof Hi as [? ? [Hd1 Hd2] ? ? [Ho1 Ho2] Hr [] Hch ? (Hrh & Hlast & Hsort & _) ? ? ?].
  assert (B jw <= B q) by (apply Hle; lia).
  unfold s'. split; simpl; try done.
  - unfold zlen in *. split; [lia|done].
  - lia.
  - lia.
  - intros j msg Hj Hmsg. pose proof (lookup_lt_Some _ _ _ Hmsg) as Hjn.
    pose proof (Hle (S j) (length (committed s)) ltac:(lia)). pose proof (Hle q j ltac:(lia)).
    eapply chunk_at_frame; [lia|exact Hl| |by apply Hch].
    intros i Hown. apply Hsame. intros Hown'.
    eapply (owned_disjoint N (B j) (B (S j) - B j) (B (length (committed s))) blocks); try done; lia.
  - split; [done|]. split; [done|]. split; [done|]. by exists q'.
Qed.

Lemma ring_eta (r : siso) : set_data r (data_bytes_ r) = r.
Proof. by destruct r. Qed.

Lemma set_data_set_head (r : siso) (h : head) : set_data (set_head r h) (data_bytes_ r) = set_head r h.
Proof. by destruct r. Qed.

Lemma step_alloc (s : sys) (size : Z) (j1 j2 : nat) :
  inv s -> enabled s (Alloc size j1 j2) ->
  exists s', step s (Alloc size j1 j2) = Some s' /\ inv s'.
Proof.
  intros (N & B & rj & jw & jp & jr & jv & Hi) (Hpend & Hsize & Hj1 & Hj12 & Hj2).
  destruct (r_load _ _ _ _ _ _ _ _ j1 Hi Hj1 ltac:(lia)) as (q1 & Hl1 & Hq1 & Hb1).
  destruct (r_load _ _ _ _ _ _ _ _ j2 Hi ltac:(lia) Hj2) as (q2 & Hl2 & Hq2 & Hb2).
  destruct (i_rhist _ _ _ _ _ _ _ _ Hi) as (_ & _ & Hsort & _).
  pose proof (Hsort _ _ _ _ Hq1 Hq2 Hj12) as Hq12.
  destruct (alloc_result s N B rj jw jp jr jv size q1 q2 Hi Hsize ltac:(lia) ltac:(lia))
    as (q & r & h & Halloc & Hq & Hres).
  destruct s as [rg pend rd wh ws rh rs com con]. simpl in *.
  rewrite Hl1. simpl mbind. rewrite Hl2. simpl mbind. rewrite Halloc. simpl mbind.
  eexists. split; [reflexivity|]. exists N, B, rj, q, jp, jr, jv.
  destruct (i_data _ _ _ _ _ _ _ _ Hi) as [_ Hdok]. simpl in Hdok.
  assert (forall p, pending_ok (mk_sys r p rd wh ws rh j2 com con) N B (length com) q ->
            forall data' blocks, r = set_data (set_head rg (set_wt_reading (u32 (B q)) (head_ rg))) data' ->
            B (length com) + blocks <= B q + N -> length data' = length (data_bytes_ rg) ->
            bytes_ok data' -> (forall i, ~ owned N (B (length com)) blocks (Z.of_nat i) ->
              data' !! i = data_bytes_ rg !! i) ->
            inv_at (mk_sys r p rd wh ws rh j2 com con) N B rj q jp jr jv) as Hfin.
  { intros p Hp data' blocks -> H1 H2 H3 H4.
    apply (inv_producer _ _ _ _ _ _ _ _ q data' p j2 q2 blocks Hi); simpl; try done; lia. }
  pose proof (i_room _ _ _ _ _ _ _ _ Hi) as Hroom. simpl in Hroom.
  pose proof (B_le B _ (i_mono _ _ _ _ _ _ _ _ Hi)) as Hle. simpl in Hle.
  destruct (i_order _ _ _ _ _ _ _ _ Hi) as [Ho1 Ho2]. simpl in Ho2.
  assert (B jw <= B q) as Hjq by (apply Hle; lia).
  destruct (chunk_blocks _ _ _) as [blocks|] eqn:Hb.
  - destruct Hres as [(Hr & -> & Hfull & ->)|(Hr & Hfit & Haddr & data' & -> & Hl & Hok & Hnum & Hds & Hsame)].
    + apply (Hfin (Some (h, size))) with (data' := data_bytes_ rg) (blocks := 0); try done; try lia.
      split; [done|]. intros E. by rewrite E in Hr.
    + apply (Hfin (Some (h, size))) with (data' := data') (blocks := blocks); try done.
      split; [done|]. intros _. by exists blocks.
  - destruct Hres as (Hr & -> & ->).
    apply (Hfin (Some (h, size))) with (data' := data_bytes_ rg) (blocks := 0); try done; try lia.
    + split; [done|]. intros E. by rewrite E in Hr.
    + rewrite set_data_set_head. symmetry. apply (set_wt_reading_same _ _ _ _ _ _ _ _ Hi).
Qed.

(** The payload does not reach the head of its chunk. *)
Lemma payload_off_head (N index size blocks : Z) :
  0 <= index < N -> 0 <= size -> chunk_blocks N index size = Some blocks ->
  let a := payload_addr N index size in
  0 <= a /\ a + size <= N * BLOCK_SIZE /\
  (a + size <= index * BLOCK_SIZE \/ index * BLOCK_SIZE + 8 <= a).
Proof.
  intros Hi Hs Hb. destruct (chunk_blocks_inv _ _ _ _ Hi Hs Hb) as (H1 & Hn & Hcase).
  unfold payload_addr, BLOCK_SIZE. rewrite Z.shiftr_div_pow2 by lia. change (2 ^ 3) with 8.
  replace (size + 8 + 7) with (size + 15) by lia.
  pose proof (Z.div_mod (size + 15) 8 ltac:(lia)). pose proof (Z.mod_pos_bound (size + 15) 8 ltac:(lia)).
  pose proof (Z.div_mod (size + 7) 8 ltac:(lia)). pose proof (Z.mod_pos_bound (size + 7) 8 ltac:(lia)).
  cbv zeta. destruct (_ <? _) eqn:E; [apply Z.ltb_lt in E|apply Z.ltb_ge in E]; lia.
Qed.

Lemma step_write (s : sys) (off : Z) (bytes : list Z) :
  inv s -> enabled s (Write off bytes) -> exists s', step s (Write off bytes) = Some s' /\ inv s'.
Proof.
  intros (N & B & rj & jw & jp & jr & jv & Hi) (h & size & Hpend & Hres & Hoff & Hend & Hbok).
  pose proof (pow2_bounds N (i_pow _ _ _ _ _ _ _ _ Hi)) as HN.
  destruct (i_data _ _ _ _ _ _ _ _ Hi) as [Hdl Hdok].
  pose proof (i_pending _ _ _ _ _ _ _ _ Hi) as Hp. unfold pending_ok in Hp. rewrite Hpend in Hp.
  destruct Hp as [Hsz Hp]. destruct (Hp Hres) as (blocks & Hb & Hroom & Hnum & Hds & Haddr).
  unfold in_range in Hsz. pose proof (zlen_nonneg bytes) as Hb0.
  pose proof (Z.mod_pos_bound (B (length (committed s))) N ltac:(lia)) as Hib.
  destruct (payload_off_head N _ size blocks Hib ltac:(lia) Hb) as (Hp0 & Hp1 & Hphead).
  assert (exists data', store (data_bytes_ (ring s)) (wh_data_addr h + off) bytes = Some data' /\
            length data' = length (data_bytes_ (ring s)) /\
            forall i, ~ owned N (B (length (committed s))) blocks (Z.of_nat i) ->
              data' !! i = data_bytes_ (ring s) !! i) as (data' & Hst & Hl & Hsame).
  { rewrite Haddr. destruct (decide (zlen bytes = 0)) as [Hz|Hz].
    - destruct bytes; [|unfold zlen in Hz; simpl in Hz; lia].
      exists (data_bytes_ (ring s)). split; [|done]. apply store_nil. rewrite Hdl, zlen_nil in *. lia.
    - apply (store_owned N _ size); try done; try lia. }
  destruct s as [rg pend rd wh ws rh rs com con]. simpl in *. subst pend. simpl mbind.
  rewrite Hst. simpl mbind. eexists. split; [reflexivity|].
  exists N, B, rj, jw, jp, jr, jv.
  destruct (i_rhist _ _ _ _ _ _ _ _ Hi) as (_ & _ & _ & q0 & Hq0 & Hle0). simpl in Hq0.
  destruct (i_order _ _ _ _ _ _ _ _ Hi) as [Ho1 Ho2].
  pose proof (set_wt_reading_same _ _ _ _ _ _ _ _ Hi) as Heta. simpl in Heta.
  assert (set_data rg data' = set_data (set_head rg (set_wt_reading (u32 (B jw)) (head_ rg))) data')
    as -> by (by rewrite Heta).
  apply (inv_producer _ _ _ _ _ _ _ _ jw data' (Some (h, size)) rs q0 blocks Hi); simpl; try done; try lia.
  { by eapply store_bytes_ok. }
  split; [done|]. intros _. exists blocks. split; [done|]. split; [done|].
  rewrite Haddr in Hst. unfold load_le in *. simpl.
  rewrite !(load_store_other _ _ _ _ _ _ Hst) by lia. done.
Qed.

(** Appending a cursor: the cursors up to [n] are unchanged. *)
Definition extend (B : nat -> Z) (n : nat) (v : Z) (j : nat) : Z :=
  if decide (j <= n)%nat then B j else v.

Lemma extend_le (B : nat -> Z) (n : nat) (v : Z) (j : nat) : (j <= n)%nat -> extend B n v j = B j.
Proof. intros. unfold extend. by rewrite decide_True. Qed.

Lemma extend_new (B : nat -> Z) (n : nat) (v : Z) : extend B n v (S n) = v.
Proof. unfold extend. rewrite decide_False by lia. done. Qed.

Lemma commit_result (s : sys) N B rj jw jp jr jv (h : write_handle) (size : Z) :
  inv_at s N B rj jw jp jr jv -> pending s = Some (h, size) -> wh_result h = success ->
  exists blocks msg,
    load (data_bytes_ (ring s)) (wh_data_addr h) size = Some msg /\
    0 < blocks /\ B (length (committed s)) + blocks <= B jw + N /\
    chunk_at N (data_bytes_ (ring s)) (B (length (committed s))) msg blocks /\
    commit_write_chunk (ring s) h =
      Some (set_head (ring s)
        (set_writing (u32 (B (length (committed s)) + blocks))
          (set_wt_writing (u32 (B (length (committed s)) + blocks)) (head_ (ring s))))).
Proof.
  intros Hi Hpend Hres. pose proof (i_pending _ _ _ _ _ _ _ _ Hi) as Hp.
  unfold pending_ok in Hp. rewrite Hpend in Hp. destruct Hp as [Hsz Hp].
  destruct (Hp Hres) as (blocks & Hb & Hroom & Hnum & Hds & Haddr). unfold in_range in Hsz.
  pose proof (i_pow _ _ _ _ _ _ _ _ Hi) as HNp. pose proof (pow2_bounds N HNp) as HN.
  destruct (i_data _ _ _ _ _ _ _ _ Hi) as [Hdl Hdok].
  set (n := length (committed s)) in *.
  pose proof (Z.mod_pos_bound (B n) N ltac:(lia)) as Hib.
  destruct (payload_off_head N _ size blocks Hib ltac:(lia) Hb) as (Ha0 & Ha1 & _).
  destruct (chunk_blocks_inv N (B n mod N) size blocks Hib ltac:(lia) Hb) as (_ & Hbn & Hcase).
  destruct (load (data_bytes_ (ring s)) (wh_data_addr h) size) as [msg|] eqn:Hmsg.
  2:{ apply load_None in Hmsg. rewrite Haddr, Hdl in Hmsg. lia. }
  pose proof (load_inv _ _ _ _ Hmsg) as (_ & _ & _ & _ & Hz).
  exists blocks, msg. split; [done|]. split; [lia|]. split; [done|]. split.
  - split; rewrite ?Hz; try done; [lia|]. by rewrite <- Haddr.
  - unfold commit_write_chunk. rewrite decide_True by done.
    assert (cursor_to_index (ring s) (wt_writing_cursor_cache_ (head_ (ring s))) = B n mod N) as ->.
    { unfold cursor_to_index. rewrite (i_count _ _ _ _ _ _ _ _ Hi).
      rewrite (c_wt_writing _ _ _ _ _ _ _ (i_cursors _ _ _ _ _ _ _ _ Hi)). by apply land_index. }
    unfold get_block_data_addr, block_data_size, block_num. rewrite Hds, Hnum. simpl mbind.
    rewrite (i_count _ _ _ _ _ _ _ _ Hi).
    assert (wh_data_addr h = (if (N - B n mod N) * BLOCK_SIZE <? size + 8 then 0
                              else B n mod N * BLOCK_SIZE + 8)) as <-.
    { rewrite Haddr. unfold payload_addr, BLOCK_SIZE. rewrite Z.shiftr_div_pow2 by lia.
      change (2 ^ 3) with 8. replace (size + 8 + 7) with (size + 15) by lia.
      pose proof (Z.div_mod (size + 15) 8 ltac:(lia)). pose proof (Z.mod_pos_bound (size + 15) 8 ltac:(lia)).
      destruct (_ <? (size + 15) / 8) eqn:E1, (_ <? size + 8) eqn:E2; try done;
        rewrite ?Z.ltb_lt, ?Z.ltb_ge in *; lia. }
    rewrite Z.eqb_refl. simpl negb. cbn iota.
    destruct (negb _) eqn:E.
    { apply negb_true_iff, andb_false_iff in E. rewrite Z.ltb_ge, Z.leb_gt in E. lia. }
    rewrite (c_wt_writing _ _ _ _ _ _ _ (i_cursors _ _ _ _ _ _ _ _ Hi)), wrap_add_l. done.
Qed.

Lemma step_commit (s : sys) :
  inv s -> enabled s Commit -> exists s', step s Commit = Some s' /\ inv s'.
Proof.
  intros (N & B & rj & jw & jp & jr & jv & Hi) Hen. simpl in Hen.
  destruct (pending s) as [[h size]|] eqn:Hpend; [|done].
  destruct (decide (wh_result h = success)) as [Hres|Hres].
  - destruct (commit_result s N B rj jw jp jr jv h size Hi Hpend Hres)
      as (blocks & msg & Hmsg & Hb0 & Hroom & Hchunk & Hcommit).
    destruct s as [rg pend rd wh ws rh rs com con]. simpl in *. subst pend. simpl mbind.
    rewrite Hcommit. simpl mbind. rewrite decide_True by done. rewrite Hmsg. simpl mbind.
    eexists. split; [reflexivity|]. set (n := length com) in *.
    exists N, (extend B n (B n + blocks)), rj, jw, jp, jr, jv.
    destruct Hi as [? ? ? Hst Hmono [Ho1 Ho2] Hr [] Hch [Hwh Hws] (Hrh & Hlast & Hsort & Hseen) Hcon _ Hrd];
      simpl in *. fold n in Hmono, Ho2, Hr, c_wt_writing0, c_writing0, Hwh, Hws.
    assert (length (com ++ [msg]) = S n) as Hlen by (rewrite length_app; simpl; lia).
    assert (forall j, (j <= n)%nat -> extend B n (B n + blocks) j = B j) as Hext by (intros; by apply extend_le).
    pose proof (extend_new B n (B n + blocks)) as Hnew.
    assert (wh ++ [u32 (B n + blocks)] =
            map (fun j => u32 (extend B n (B n + blocks) j)) (seq 0 (S (S n)))) as Hwh'.
    { change (wh = map (fun j => u32 (B j)) (seq 0 (S n))) in Hwh.
      rewrite (seq_S (S n)), map_app, Hwh. f_equal.
      - apply map_ext_in. intros j Hj%in_seq. by rewrite Hext by lia.
      - simpl. by rewrite Hnew. }
    split; simpl; try done; rewrite ?Hlen; try rewrite !Hext by lia; try done.
    + intros j Hj. destruct (decide (j < n)%nat).
      * rewrite !Hext by lia. by apply Hmono.
      * assert (j = n) as -> by lia. rewrite Hnew, Hext by lia. lia.
    + lia.
    + rewrite Hnew, Hext by lia. lia.
    + split; simpl; first [rewrite Hext by lia | rewrite Hnew]; done.
    + intros j m Hj Hm. destruct (decide (j < n)%nat) as [Hjn|Hjn].
      * rewrite lookup_app_l in Hm by (fold n; lia). rewrite !Hext by lia. by apply Hch.
      * pose proof (lookup_lt_Some _ _ _ Hm) as Hjn'. assert (j = n) as -> by lia.
        rewrite lookup_app_r, Nat.sub_diag in Hm by lia. injection Hm as <-.
        rewrite Hnew, Hext by lia. by rewrite Z.add_simpl_l.
    + split; [exact Hwh'|lia].
    + split; [|done]. rewrite Hrh. apply map_ext_in. intros j Hj.
      apply list_elem_of_In, list_elem_of_lookup in Hj as [i Hi].
      pose proof (lookup_lt_Some _ _ _ Hi).
      pose proof (Hsort _ _ _ _ Hi Hlast ltac:(lia)). by rewrite Hext by lia.
    + rewrite Hcon. symmetry. apply take_app_le. fold n. lia.
    + revert Hrd. unfold reader_ok. simpl. destruct rd as [|h'|b]; try done.
      * intros [Hj Hh]. split; [done|]. intros Hs. destruct (Hh Hs) as (? & m & Hm & ? & ?).
        split; [done|]. exists m. rewrite Hext by lia. rewrite lookup_app_l by (fold n; lia). done.
      * destruct (decide _); [|done]. rewrite !Hext by lia. done.
  - assert (commit_write_chunk (ring s) h = Some (ring s)) as Hc.
    { unfold commit_write_chunk. by rewrite decide_False. }
    destruct s as [rg pend rd wh ws rh rs com con]. simpl in *. subst pend. simpl mbind.
    rewrite Hc. simpl mbind. rewrite decide_False by done. eexists. split; [reflexivity|].
    exists N, B, rj, jw, jp, jr, jv. by destruct Hi.
Qed.

(** *** The consumer *)

Lemma chunk_head (s : sys) N B rj jw jp jr jv (j : nat) (msg : list Z) :
  inv_at s N B rj jw jp jr jv -> (jp <= j)%nat -> committed s !! j = Some msg ->
  let idx := B j mod N in
  cursor_to_index (ring s) (u32 (B j)) = idx /\
  block_num (ring s) idx = Some (B (S j) - B j) /\
  block_data_size (ring s) idx = Some (zlen msg) /\
  get_block_data_addr (ring s) idx = Some (payload_addr N idx (zlen msg)) /\
  load (data_bytes_ (ring s)) (payload_addr N idx (zlen msg)) (zlen msg) = Some msg.
Proof.
  intros Hi Hj Hmsg. pose proof (i_pow _ _ _ _ _ _ _ _ Hi) as HNp. pose proof (pow2_bounds N HNp).
  destruct (i_chunks _ _ _ _ _ _ _ _ Hi j msg Hj Hmsg) as [Hb Hs Hnum Hds Hp].
  cbv zeta. unfold cursor_to_index, get_block_data_addr, block_num, block_data_size.
  rewrite (i_count _ _ _ _ _ _ _ _ Hi), Hds. simpl mbind.
  split_and!; [by apply land_index|done|done| |done].
  f_equal. unfold payload_addr, BLOCK_SIZE. rewrite Z.shiftr_div_pow2 by lia. change (2 ^ 3) with 8.
  replace (zlen msg + 8 + 7) with (zlen msg + 15) by lia.
  pose proof (Z.div_mod (zlen msg + 15) 8 ltac:(lia)). pose proof (Z.mod_pos_bound (zlen msg + 15) 8 ltac:(lia)).
  destruct (_ <? zlen msg + 8) eqn:E1, (_ <? (zlen msg + 15) / 8) eqn:E2; try done;
    rewrite ?Z.ltb_lt, ?Z.ltb_ge in *; lia.
Qed.

(** Distances between cursors of the window never wrap. *)
Lemma window (s : sys) N B rj jw jp jr jv (i j : nat) :
  inv_at s N B rj jw jp jr jv -> (jw <= i <= j)%nat -> (j <= length (committed s))%nat ->
  0 <= B j - B i <= N /\ u32 (u32 (B j) - u32 (B i)) = B j - B i /\
  (B j - B i = 0 <-> i = j) /\ (u32 (B i) = u32 (B j) <-> i = j).
Proof.
  intros Hi Hij Hj. pose proof (pow2_bounds N (i_pow _ _ _ _ _ _ _ _ Hi)) as HN.
  pose proof (i_mono _ _ _ _ _ _ _ _ Hi) as Hm. pose proof (B_le B _ Hm) as Hle.
  pose proof (i_room _ _ _ _ _ _ _ _ Hi).
  pose proof (Hle jw i ltac:(lia)). pose proof (Hle i j ltac:(lia)).
  pose proof (Hle j (length (committed s)) ltac:(lia)).
  assert (B j - B i = 0 <-> i = j) as Heq.
  { split; [|intros ->; lia]. intros E. destruct (decide (i = j)) as [|Hne]; [done|].
    pose proof (B_lt B _ Hm i j ltac:(lia)). lia. }
  split; [lia|]. split; [apply u32_diff; lia|]. split; [done|].
  split; [|by intros ->]. intros E. apply Heq. apply u32_eq_close in E; lia.
Qed.

(** The reader refreshing its cached writing cursor. *)
Lemma inv_reader_refresh (s : sys) N B rj jw jp jr jv (j : nat) (rd : reader_state) (w_seen' : nat) :
  inv_at s N B rj jw jp jr jv -> (jv <= j <= w_seen')%nat -> (w_seen' <= length (committed s))%nat ->
  let s' := mk_sys (set_head (ring s) (set_rt_writing (u32 (B j)) (head_ (ring s)))) (pending s) rd
              (w_hist s) w_seen' (r_hist s) (r_seen s) (committed s) (consumed s) in
  reader_ok s' N B jp jr j -> inv_at s' N B rj jw jp jr j.
Proof.
  intros [] Hj Hw s' Hrd. unfold s'. destruct i_cursors0, i_order0, i_whist0.
  split; simpl; try done; try lia. split; [done|lia].
Qed.

Lemma set_rt_writing_same (s : sys) N B rj jw jp jr jv :
  inv_at s N B rj jw jp jr jv ->
  set_head (ring s) (set_rt_writing (u32 (B jv)) (head_ (ring s))) = ring s.
Proof.
  intros Hi. rewrite <- (c_rt_writing _ _ _ _ _ _ _ (i_cursors _ _ _ _ _ _ _ _ Hi)).
  by destruct s as [[[] ? ? ?] ? ? ? ? ? ? ? ?].
Qed.

Lemma read_result (s : sys) N B rj jw jp jr jv (j : nat) :
  inv_at s N B rj jw jp jr jv -> (jv <= j <= length (committed s))%nat ->
  exists jv' h, (jv <= jv' <= j)%nat /\ (jr = jv -> jv' = j) /\
    read_chunk (ring s) (u32 (B j)) =
      Some (set_head (ring s) (set_rt_writing (u32 (B jv')) (head_ (ring s))), h) /\
    (if decide (jr = jv') then h = no_read
     else exists msg, committed s !! jr = Some msg /\
            h = mk_read_handle (payload_addr N (B jr mod N) (zlen msg)) (zlen msg) success).
Proof.
  intros Hi Hj. destruct (i_order _ _ _ _ _ _ _ _ Hi) as [Ho1 Ho2].
  destruct (window _ _ _ _ _ _ _ _ jr jv Hi ltac:(lia) ltac:(lia)) as (_ & Hw & Hz & _).
  exists (if decide (jr = jv) then j else jv).
  assert ((if unread_blocks (ring s) =? 0
           then set_head (ring s) (set_rt_writing (u32 (B j)) (head_ (ring s))) else ring s) =
          set_head (ring s) (set_rt_writing (u32 (B (if decide (jr = jv) then j else jv))) (head_ (ring s))))
    as Href.
  { unfold unread_blocks. destruct (i_cursors _ _ _ _ _ _ _ _ Hi) as [-> -> _ _ _ _].
    rewrite Hw. case_decide as Hd.
    - rewrite (proj2 (Z.eqb_eq _ _)) by tauto. done.
    - rewrite (proj2 (Z.eqb_neq _ _)) by tauto. symmetry. by eapply set_rt_writing_same. }
  set (jv' := if decide (jr = jv) then j else jv) in *.
  assert (jv <= jv' <= j)%nat as Hjv' by (unfold jv'; case_decide; lia).
  destruct (window _ _ _ _ _ _ _ _ jr jv' Hi ltac:(lia) ltac:(lia)) as (HwN & Hw' & Hz' & _).
  unfold read_chunk. rewrite Href.
  set (r := set_head (ring s) (set_rt_writing (u32 (B jv')) (head_ (ring s)))).
  assert (unread_blocks r = B jv' - B jr) as Hun.
  { unfold unread_blocks, r. simpl. by destruct (i_cursors _ _ _ _ _ _ _ _ Hi) as [-> _ _ _ _ _]. }
  rewrite Hun. destruct (decide (jr = jv')) as [Hd|Hd].
  - exists no_read. split; [done|]. split; [unfold jv'; intros; by rewrite decide_True|].
    rewrite (proj2 (Z.eqb_eq _ _)) by tauto. done.
  - rewrite (proj2 (Z.eqb_neq _ _)) by tauto.
    destruct (lookup_lt_is_Some_2 (committed s) jr ltac:(lia)) as [msg Hmsg].
    destruct (chunk_head _ _ _ _ _ _ _ _ jr msg Hi ltac:(lia) Hmsg) as (Hidx & Hnum & Hds & Haddr & _).
    eexists. split; [done|]. split; [unfold jv'; intros; by rewrite decide_True|].
    assert (cursor_to_index r (rt_reading_cursor_cache_ (head_ r)) = B jr mod N) as ->.
    { unfold r. simpl. destruct (i_cursors _ _ _ _ _ _ _ _ Hi) as [-> _ _ _ _ _]. exact Hidx. }
    assert (block_data_size r (B jr mod N) = Some (zlen msg)) as -> by done.
    assert (block_num r (B jr mod N) = Some (B (S jr) - B jr)) as -> by done.
    assert (get_block_data_addr r (B jr mod N) = Some (payload_addr N (B jr mod N) (zlen msg))) as -> by done.
    simpl mbind. change (aligned_blocks_count_ r) with (aligned_blocks_count_ (ring s)).
    rewrite (i_count _ _ _ _ _ _ _ _ Hi).
    pose proof (i_mono _ _ _ _ _ _ _ _ Hi) as Hm. pose proof (Hm jr ltac:(lia)).
    pose proof (B_le B _ Hm (S jr) jv' ltac:(lia)).
    destruct (negb _) eqn:E.
    { apply negb_true_iff in E. rewrite !andb_false_iff, Z.ltb_ge, !Z.leb_gt in E. lia. }
    split; [reflexivity|]. by exists msg.
Qed.

Lemma step_read (s : sys) (j : nat) :
  inv s -> enabled s (Read j) -> exists s', step s (Read j) = Some s' /\ inv s'.
Proof.
  intros (N & B & rj & jw & jp & jr & jv & Hi) (Hidle & Hj1 & Hj2).
  destruct (w_load _ _ _ _ _ _ _ _ j Hi Hj1 Hj2) as [Hl Hj].
  destruct (read_result _ _ _ _ _ _ _ _ j Hi Hj) as (jv' & h & Hjv' & _ & Hread & Hh).
  pose proof (i_reader _ _ _ _ _ _ _ _ Hi) as Hrd. unfold reader_ok in Hrd. rewrite Hidle in Hrd.
  destruct (i_order _ _ _ _ _ _ _ _ Hi) as [Ho1 Ho2].
  pose proof (inv_reader_refresh s N B rj jw jp jr jv jv' (R_chunk h) j Hi ltac:(lia) ltac:(lia)) as Hfin.
  destruct s as [rg pend rd wh ws rh rs com con]. simpl in *.
  rewrite Hl. simpl mbind. rewrite Hread. simpl mbind. eexists. split; [reflexivity|].
  exists N, B, rj, jw, jp, jr, jv'. apply Hfin.
  unfold reader_ok. simpl. split; [done|]. intros Hs.
  destruct (decide (jr = jv')); [by rewrite Hh in Hs|]. destruct Hh as (msg & Hmsg & ->).
  split; [lia|]. by exists msg.
Qed.

(** Handing the reader's position back to the producer. *)
Lemma inv_publish (s : sys) N B rj jw jp jr jv (jr' : nat) (con' : list (list Z)) :
  inv_at s N B rj jw jp jr jv -> (jr <= jr' <= jv)%nat -> con' = take jr' (committed s) ->
  let s' := mk_sys (set_head (ring s) (set_reading (u32 (B jr')) (set_rt_reading (u32 (B jr')) (head_ (ring s)))))
              (pending s) R_idle (w_hist s) (w_seen s) (r_hist s ++ [u32 (B jr')]) (r_seen s)
              (committed s) con' in
  inv_at s' N B (rj ++ [jr']) jw jr' jr' jv.
Proof.
  intros [] Hj Hcon s'. unfold s'. destruct i_cursors0, i_order0 as [Ho1 Ho2], i_rhist0 as (Hrh & Hlast & Hsort & q & Hq & Hle).
  split; simpl; try done; try lia.
  - intros j msg Hjm Hmsg. apply i_chunks0; [lia|done].
  - split; [by rewrite map_app, Hrh|]. rewrite length_app. simpl.
    split; [rewrite lookup_app_r by lia; by replace (length rj + 1 - 1 - length rj)%nat with O by lia|].
    split.
    + intros i i' a b Ha Hb Hii. pose proof (lookup_lt_Some _ _ _ Hb) as Hlt. rewrite length_app in Hlt. simpl in Hlt.
      pose proof (lookup_lt_Some _ _ _ Hlast).
      destruct (decide (i' < length rj)%nat).
      * rewrite !lookup_app_l in Ha, Hb by lia. eauto.
      * assert (i' = length rj) as -> by lia. rewrite lookup_app_r, Nat.sub_diag in Hb by lia.
        injection Hb as <-. destruct (decide (i < length rj)%nat).
        -- rewrite lookup_app_l in Ha by lia. pose proof (Hsort _ _ _ _ Ha Hlast ltac:(lia)). lia.
        -- assert (i = length rj) as -> by lia. rewrite lookup_app_r, Nat.sub_diag in Ha by lia.
           injection Ha as <-. lia.
    + exists q. split; [|done]. by apply lookup_app_l_Some.
Qed.

Lemma step_return (s : sys) :
  inv s -> enabled s Return -> exists s', step s Return = Some s' /\ inv s'.
Proof.
  intros (N & B & rj & jw & jp & jr & jv & Hi) (h & Hrd).
  pose proof (i_reader _ _ _ _ _ _ _ _ Hi) as Hro. unfold reader_ok in Hro. rewrite Hrd in Hro.
  destruct Hro as [Hjr Hh]. destruct (decide (rh_result h = success)) as [Hres|Hres].
  - destruct (Hh Hres) as (Hlt & msg & Hmsg & Haddr & Hsz).
    destruct (i_order _ _ _ _ _ _ _ _ Hi) as [Ho1 Ho2].
    destruct (chunk_head _ _ _ _ _ _ _ _ jr msg Hi ltac:(lia) Hmsg) as (Hidx & Hnum & Hds & Hga & Hload).
    assert (return_read_chunk (ring s) h =
      Some (set_head (ring s) (set_reading (u32 (B (S jr))) (set_rt_reading (u32 (B (S jr))) (head_ (ring s))))))
      as Hret.
    { unfold return_read_chunk. rewrite decide_True by done.
      rewrite (c_rt_reading _ _ _ _ _ _ _ (i_cursors _ _ _ _ _ _ _ _ Hi)), Hidx, Hga. simpl mbind.
      rewrite Haddr, Z.eqb_refl. simpl negb. cbn iota. rewrite Hnum. simpl mbind.
      rewrite wrap_add_l. by replace (B jr + (B (S jr) - B jr)) with (B (S jr)) by lia. }
    pose proof (inv_publish s N B rj jw jp jr jv (S jr) (consumed s ++ [msg]) Hi ltac:(lia)) as Hfin.
    rewrite <- Haddr, <- Hsz in Hload. pose proof (i_consumed _ _ _ _ _ _ _ _ Hi) as Hcon.
    destruct s as [rg pend rd wh ws rh rs com con]. simpl in *. subst rd.
    rewrite Hret. simpl mbind. rewrite decide_True by done. rewrite Hload. simpl mbind.
    eexists. split; [reflexivity|]. do 7 eexists. apply Hfin.
    rewrite Hcon. symmetry. by apply take_S_r.
  - assert (return_read_chunk (ring s) h = Some (ring s)) as Hret.
    { unfold return_read_chunk. by rewrite decide_False. }
    destruct s as [rg pend rd wh ws rh rs com con]. simpl in *. subst rd.
    rewrite Hret. simpl mbind. rewrite decide_False by done. eexists. split; [reflexivity|].
    exists N, B, rj, jw, jp, jr, jv. by destruct Hi.
Qed.

Lemma step_discard (s : sys) :
  inv s -> enabled s Discard -> exists s', step s Discard = Some s' /\ inv s'.
Proof.
  intros (N & B & rj & jw & jp & jr & jv & Hi) (h & Hrd).
  pose proof (i_reader _ _ _ _ _ _ _ _ Hi) as Hro. unfold reader_ok in Hro. rewrite Hrd in Hro.
  destruct Hro as [Hjr _].
  assert (return_read_chunk (ring s) (discard_read_chunk h) = Some (ring s)) as Hret by done.
  destruct s as [rg pend rd wh ws rh rs com con]. cbn [ring pending reader w_hist w_seen r_hist r_seen committed consumed step] in *. subst rd.
  rewrite Hret. simpl mbind. eexists. split; [reflexivity|]. exists N, B, rj, jw, jp, jr, jv. by destruct Hi.
Qed.

Lemma step_read_empty (s : sys) :
  inv s -> enabled s Read_empty -> exists s', step s Read_empty = Some s' /\ inv s'.
Proof.
  intros (N & B & rj & jw & jp & jr & jv & Hi) Hidle. simpl in Hidle.
  pose proof (i_reader _ _ _ _ _ _ _ _ Hi) as Hro. unfold reader_ok in Hro. rewrite Hidle in Hro.
  destruct s as [rg pend rd wh ws rh rs com con]. simpl in *.
  eexists. split; [reflexivity|]. exists N, B, rj, jw, jp, jr, jv. by destruct Hi.
Qed.

Lemma step_batch (s : sys) (j : nat) :
  inv s -> enabled s (Batch j) -> exists s', step s (Batch j) = Some s' /\ inv s'.
Proof.
  intros (N & B & rj & jw & jp & jr & jv & Hi) (Hidle & Hj1 & Hj2).
  destruct (w_load _ _ _ _ _ _ _ _ j Hi Hj1 Hj2) as [Hl Hj].
  pose proof (i_reader _ _ _ _ _ _ _ _ Hi) as Hro. unfold reader_ok in Hro. rewrite Hidle in Hro.
  destruct (i_order _ _ _ _ _ _ _ _ Hi) as [Ho1 Ho2].
  destruct (window _ _ _ _ _ _ _ _ jr jv Hi ltac:(lia) ltac:(lia)) as (_ & _ & _ & Heq).
  set (jv' := if decide (jr = jv) then j else jv).
  assert (jv <= jv' <= j)%nat as Hjv' by (unfold jv'; case_decide; lia).
  destruct (window _ _ _ _ _ _ _ _ jr jv' Hi ltac:(lia) ltac:(lia)) as (_ & _ & _ & Heq').
  assert (exists b, batch_read (ring s) (u32 (B j)) =
            (set_head (ring s) (set_rt_writing (u32 (B jv')) (head_ (ring s))), b) /\
            (if decide (bh_result b = success) then
               (jp < jv')%nat /\ start_cursor_ b = u32 (B jp) /\ current_cursor_ b = u32 (B jr) /\
               end_cursor_ b = u32 (B jv')
             else jr = jp)) as (b & Hb & Hbok).
  { unfold batch_read. destruct (i_cursors _ _ _ _ _ _ _ _ Hi) as [Hr Hw _ _ _ _]. rewrite Hr, Hw.
    assert ((if u32 (B jv) =? u32 (B jr)
             then set_head (ring s) (set_rt_writing (u32 (B j)) (head_ (ring s))) else ring s) =
            set_head (ring s) (set_rt_writing (u32 (B jv')) (head_ (ring s)))) as ->.
    { unfold jv'. case_decide as Hd.
      - subst jv. by rewrite Z.eqb_refl.
      - rewrite (proj2 (Z.eqb_neq _ _)) by (intros E; symmetry in E; tauto).
        symmetry. by eapply set_rt_writing_same. }
    simpl. rewrite Hr. eexists. split; [reflexivity|]. simpl.
    destruct (u32 (B jr) =? u32 (B jv')) eqn:E.
    - by rewrite decide_False.
    - apply Z.eqb_neq in E. rewrite decide_True by done. subst jp. split_and!; try done.
      destruct (decide (jr = jv')); [tauto|lia]. }
  pose proof (inv_reader_refresh s N B rj jw jp jr jv jv' (R_batch b) j Hi ltac:(lia) ltac:(lia)) as Hfin.
  destruct s as [rg pend rd wh ws rh rs com con].
  cbn [ring pending reader w_hist w_seen r_hist r_seen committed consumed step] in *.
  rewrite Hl. cbn [mbind option_bind]. rewrite Hb. eexists. split; [reflexivity|].
  exists N, B, rj, jw, jp, jr, jv'. by apply Hfin.
Qed.

Lemma step_next (s : sys) :
  inv s -> enabled s Next -> exists s', step s Next = Some s' /\ inv s'.
Proof.
  intros (N & B & rj & jw & jp & jr & jv & Hi) (b & Hrd & Hres & Hnext).
  pose proof (i_reader _ _ _ _ _ _ _ _ Hi) as Hro. unfold reader_ok in Hro.
  rewrite Hrd, decide_True in Hro by done. destruct Hro as (Hlt & Hstart & Hcur & Hend).
  destruct (i_order _ _ _ _ _ _ _ _ Hi) as [Ho1 Ho2].
  destruct (window _ _ _ _ _ _ _ _ jr jv Hi ltac:(lia) ltac:(lia)) as (_ & Hw & _ & Heq).
  assert (jr < jv)%nat as Hjr.
  { unfold has_next in Hnext. apply negb_true_iff, Z.eqb_neq in Hnext. rewrite Hcur, Hend in Hnext.
    destruct (decide (jr = jv)); [tauto|lia]. }
  destruct (lookup_lt_is_Some_2 (committed s) jr ltac:(lia)) as [msg Hmsg].
  destruct (chunk_head _ _ _ _ _ _ _ _ jr msg Hi ltac:(lia) Hmsg) as (Hidx & Hnum & Hds & Hga & Hload).
  pose proof (i_mono _ _ _ _ _ _ _ _ Hi) as Hm. pose proof (Hm jr ltac:(lia)).
  pose proof (B_le B _ Hm (S jr) jv ltac:(lia)).
  assert (batch_next (ring s) b =
    Some (set_head (ring s) (set_rt_reading (u32 (B (S jr))) (head_ (ring s))),
          mk_batch_handle success (start_cursor_ b) (u32 (B (S jr))) (end_cursor_ b),
          mk_read_handle (payload_addr N (B jr mod N) (zlen msg)) (zlen msg) success)) as Hbn.
  { unfold batch_next. rewrite Hnext, Hres, bool_decide_eq_true_2 by done. simpl orb. cbn iota.
    rewrite Hcur, Hidx, Hnum. simpl mbind. rewrite Hds. simpl mbind. rewrite Hend, Hw.
    destruct (negb _) eqn:E.
    { apply negb_true_iff in E. rewrite andb_false_iff, Z.ltb_ge, Z.leb_gt in E. lia. }
    rewrite Hga. simpl mbind. rewrite wrap_add_l.
    by replace (B jr + (B (S jr) - B jr)) with (B (S jr)) by lia. }
  assert (inv_at (mk_sys (set_head (ring s) (set_rt_reading (u32 (B (S jr))) (head_ (ring s)))) (pending s)
            (R_batch (mk_batch_handle success (start_cursor_ b) (u32 (B (S jr))) (end_cursor_ b)))
            (w_hist s) (w_seen s) (r_hist s) (r_seen s) (committed s) (consumed s ++ [msg]))
            N B rj jw jp (S jr) jv) as Hfin.
  { destruct Hi. destruct i_cursors0. split; simpl; try done; try lia.
    rewrite i_consumed0. symmetry. by apply take_S_r. }
  destruct s as [rg pend rd wh ws rh rs com con]. simpl in *. subst rd.
  rewrite Hbn. simpl mbind. simpl rh_data_addr. simpl rh_data_size. rewrite Hload. simpl mbind.
  eexists. split; [reflexivity|]. do 7 eexists. exact Hfin.
Qed.

Lemma step_return_batch (s : sys) :
  inv s -> enabled s Return_batch -> exists s', step s Return_batch = Some s' /\ inv s'.
Proof.
  intros (N & B & rj & jw & jp & jr & jv & Hi) (b & Hrd & Hdone).
  pose proof (i_reader _ _ _ _ _ _ _ _ Hi) as Hro. unfold reader_ok in Hro. rewrite Hrd in Hro.
  destruct (i_order _ _ _ _ _ _ _ _ Hi) as [Ho1 Ho2].
  destruct (decide (bh_result b = success)) as [Hres|Hres].
  - destruct Hro as (Hlt & Hstart & Hcur & Hend). specialize (Hdone Hres).
    unfold has_next in Hdone. apply negb_false_iff, Z.eqb_eq in Hdone.
    destruct (window _ _ _ _ _ _ _ _ jr jv Hi ltac:(lia) ltac:(lia)) as (_ & _ & _ & Heq).
    assert (jr = jv) as Hjr by (apply Heq; congruence).
    pose proof (i_cursors _ _ _ _ _ _ _ _ Hi) as [Cr Cw _ _ Cp _].
    assert (return_batch_read_chunks (ring s) b =
      Some (set_head (ring s) (set_reading (u32 (B jr)) (set_rt_reading (u32 (B jr)) (head_ (ring s))))))
      as Hret.
    { unfold return_batch_read_chunks. rewrite decide_True by done.
      rewrite Cr, Cw, Cp, Hstart, Hend, Hcur, <- Hjr, !Z.eqb_refl. simpl andb. cbn iota.
      do 2 f_equal. rewrite <- Cr. by destruct (head_ (ring s)). }
    pose proof (inv_publish s N B rj jw jp jr jv jr (consumed s) Hi ltac:(lia)
      (i_consumed _ _ _ _ _ _ _ _ Hi)) as Hfin.
    destruct s as [rg pend rd wh ws rh rs com con]. simpl in *. subst rd.
    rewrite Hret. simpl mbind. rewrite decide_True by done. eexists. split; [reflexivity|].
    do 7 eexists. exact Hfin.
  - assert (return_batch_read_chunks (ring s) b = Some (ring s)) as Hret.
    { unfold return_batch_read_chunks. by rewrite decide_False. }
    destruct s as [rg pend rd wh ws rh rs com con]. simpl in *. subst rd.
    rewrite Hret. simpl mbind. rewrite decide_False by done. eexists. split; [reflexivity|].
    exists N, B, rj, jw, jp, jr, jv. by destruct Hi.
Qed.

(** Every enabled call succeeds (no assertion fails, nothing outside the data is touched)
    and keeps the invariant. *)
Lemma step_inv (s : sys) (e : event) :
  inv s -> enabled s e -> exists s', step s e = Some s' /\ inv s'.
Proof.
  destruct e; eauto using step_alloc, step_write, step_commit, step_read, step_read_empty,
    step_return, step_discard, step_batch, step_next, step_return_batch.
Qed.

Lemma runs_inv (s s' : sys) (es : list event) : inv s -> runs s es s' -> inv s'.
Proof.
  intros Hi Hr. induction Hr as [|s e s1 es s2 He Hs Hr IH]; [done|]. apply IH.
  destruct (step_inv s e Hi He) as (s1' & Hs' & Hi'). congruence.
Qed.

(** *** Storage *)

Lemma count_loop_spec (fuel : nat) (m k : Z) :
  0 <= k -> 2 ^ k <= m -> m < 2 ^ (k + Z.of_nat fuel) ->
  exists j, k <= j /\ count_loop fuel m (2 ^ k) = Some (2 ^ j) /\ 2 ^ j <= m < 2 ^ (j + 1).
Proof.
  revert k. induction fuel as [|fuel IH]; intros k Hk H1 H2.
  { rewrite Z.add_0_r in H2. lia. }
  simpl count_loop. destruct (_ <=? _) eqn:E.
  - apply Z.leb_le in E. rewrite Z.mul_comm, <- Z.pow_succ_r by lia.
    destruct (IH (Z.succ k)) as (j & Hj & Hc & Hb); [lia| | |].
    + rewrite Z.pow_succ_r by lia. pose proof (Z.div_mod m 2). pose proof (Z.mod_pos_bound m 2). lia.
    + replace (Z.succ k + Z.of_nat fuel) with (k + Z.of_nat (S fuel)) by lia. done.
    + exists j. split; [lia|done].
  - apply Z.leb_gt in E. exists k. split; [lia|]. split; [done|]. split; [done|].
    rewrite Z.pow_add_r by lia. pose proof (Z.div_mod m 2). pose proof (Z.mod_pos_bound m 2). lia.
Qed.

Lemma storage_blocks_spec (size : Z) (N : Z) :
  size < 2 ^ 64 -> storage_blocks size = Some N ->
  pow2_blocks N /\ sizeof_head + N * BLOCK_SIZE <= size < sizeof_head + 2 * N * BLOCK_SIZE.
Proof.
  unfold storage_blocks, sizeof_head, CACHE_LINE_SIZE, BLOCK_SIZE. intros Hs H.
  destruct (_ <? _) eqn:E in H; [done|]. apply Z.ltb_ge in E.
  set (m := (size - 4 * 128) / 8) in *.
  assert (8 * m <= size - 512 < 8 * m + 8) as Hm.
  { unfold m. pose proof (Z.div_mod (size - 4 * 128) 8). pose proof (Z.mod_pos_bound (size - 4 * 128) 8). lia. }
  destruct (count_loop_spec 64 m 0) as (j & Hj & Hc & Hb); [lia|simpl; lia|simpl; lia|].
  change (2 ^ 0) with 1 in Hc. rewrite Hc in H. simpl mbind in H.
  destruct (_ <? 2 ^ j) eqn:E2; [done|]. apply Z.ltb_ge in E2. injection H as <-.
  assert (2 ^ j < 2 ^ 28) as Hlt by (change ((2 ^ 31 - 1) / 8) with (2 ^ 28 - 1) in E2; lia).
  assert (j < 28) by (apply (Z.pow_lt_mono_r_iff 2); lia).
  rewrite Z.pow_add_r in Hb by lia.
  assert (j <> 0) by (intros ->; simpl in Hb; lia).
  assert (1 <= 2 ^ j) by (apply (Z.pow_le_mono_r 2 0); lia).
  rewrite wrap_small by (unfold in_range; lia). split; [|lia].
  exists j. split; [lia|done].
Qed.

Lemma init_inv (storage : list Z) (r : siso) :
  zlen storage < 2 ^ 64 -> bytes_ok storage -> init_with_memory_ storage = Some r ->
  inv (initial_sys r).
Proof.
  intros Hs Hok H. unfold init_with_memory_ in H. apply bind_Some in H as (N & HN & H).
  injection H as <-. destruct (storage_blocks_spec _ _ Hs HN) as [Hp Hl].
  pose proof (pow2_bounds N Hp) as Hb.
  assert (zlen (take (Z.to_nat (N * BLOCK_SIZE)) (drop (Z.to_nat sizeof_head) storage)) = N * BLOCK_SIZE)
    as Hd.
  { unfold sizeof_head, CACHE_LINE_SIZE, BLOCK_SIZE in *. apply zlen_take.
    rewrite zlen_drop by lia. lia. }
  exists N, (fun _ => 0), [O], O, O, O, O. split; try done; try (simpl; lia).
  - split; [exact Hd|]. by apply Forall_take, Forall_drop.
  - split; [done|]. split; [done|]. split; [|by exists O]. simpl.
    intros i i' a b Ha Hb' _. destruct i as [|i]; [|done]. destruct i' as [|i']; [|done].
    injection Ha as <-. by injection Hb' as <-.
Qed.

(** ** The properties *)

(** C1. Every run of the producer and the consumer over a fresh ring, under any
    interleaving and with shared cursors read as stale as the memory order allows, is a
    queue: every call the protocol permits succeeds without a failed assertion and
    without touching a byte outside the data, and the payloads handed out are the
    payloads committed, in order and unchanged, without loss or duplication. *)
Theorem siso_fifo (storage : list Z) (r : siso) (es : list event) (s : sys) :
  zlen storage < 2 ^ 64 -> bytes_ok storage -> init_with_memory_ storage = Some r ->
  runs (initial_sys r) es s ->
  consumed s `prefix_of` committed s /\
  forall e, enabled s e -> exists s', step s e = Some s'.
Proof.
  intros Hs Hok Hr Hruns. pose proof (runs_inv _ _ _ (init_inv _ _ Hs Hok Hr) Hruns) as Hi.
  split.
  - destruct Hi as (N & B & rj & jw & jp & jr & jv & Hi). rewrite (i_consumed _ _ _ _ _ _ _ _ Hi).
    apply prefix_take.
  - intros e He. destruct (step_inv s e Hi He) as (s' & Hs' & _). by exists s'.
Qed.

(** Number of committed payloads that the reader has not been given. *)
Definition backlog (s : sys) : nat := (length (committed s) - length (consumed s))%nat.

(** C25. A read that observes the current writing cursor misses nothing: it reports an empty
    buffer exactly when every committed payload has been consumed, and otherwise its
    handle designates the bytes of the next payload; a read that observes an older
    cursor reports either the same payload or an empty buffer. *)
Theorem siso_read_next (s : sys) (j : nat) :
  inv s -> reader s = R_idle -> (w_seen s <= j)%nat -> (j < length (w_hist s))%nat ->
  exists r h, read_chunk (ring s) (default 0 (w_hist s !! j)) = Some (r, h) /\
    (rh_result h = success ->
     exists msg, committed s !! length (consumed s) = Some msg /\
       load (data_bytes_ (ring s)) (rh_data_addr h) (rh_data_size h) = Some msg) /\
    (rh_result h <> success -> rh_result h = err_empty_log_buffer) /\
    (j = (length (w_hist s) - 1)%nat -> (rh_result h = success <-> (0 < backlog s)%nat)).
Proof.
  intros (N & B & rj & jw & jp & jr & jv & Hi) Hidle Hj1 Hj2.
  destruct (w_load _ _ _ _ _ _ _ _ j Hi Hj1 Hj2) as [Hl Hj].
  destruct (read_result _ _ _ _ _ _ _ _ j Hi Hj) as (jv' & h & Hjv' & Hfresh & Hread & Hh).
  pose proof (i_reader _ _ _ _ _ _ _ _ Hi) as Hrd. unfold reader_ok in Hrd. rewrite Hidle in Hrd.
  destruct (i_order _ _ _ _ _ _ _ _ Hi) as [Ho1 Ho2].
  assert (length (consumed s) = jr) as Hcl.
  { rewrite (i_consumed _ _ _ _ _ _ _ _ Hi), length_take. lia. }
  destruct (i_whist _ _ _ _ _ _ _ _ Hi) as [Hwh _].
  assert (length (w_hist s) = S (length (committed s))) as Hwl by (rewrite Hwh, length_map, length_seq; done).
  rewrite Hl. simpl default. do 2 eexists. split; [exact Hread|]. unfold backlog. rewrite Hcl, Hwl.
  destruct (decide (jr = jv')) as [Hd|Hd].
  - subst h. split; [done|]. split; [done|]. intros Hjn. split; [done|]. intros Hlt.
    exfalso. destruct (decide (jr = jv)) as [E|E]; [specialize (Hfresh E)|]; lia.
  - destruct Hh as (msg & Hmsg & ->). simpl. split.
    + intros _. exists msg. split; [done|].
      by destruct (chunk_head _ _ _ _ _ _ _ _ jr msg Hi ltac:(lia) Hmsg) as (_ & _ & _ & _ & ?).
    + split; [done|]. intros _. split; [lia|done].
Qed.

(** The number of blocks occupied, in the reading of [r]. *)
Definition used_blocks (s : sys) : Z :=
  u32 (writing_cursor_ (head_ (ring s)) - reading_cursor_ (head_ (ring s))).

(** An allocation that observes the current reading cursor fails only for a reason: it
    reports an invalid size exactly when no chunk of that size can start at the writing
    cursor, not enough space exactly when the free blocks are too few, and otherwise
    succeeds, leaving every committed chunk and both shared cursors unchanged. *)
Theorem siso_alloc_outcome (s : sys) (size : Z) :
  inv s -> in_range 32 size ->
  let N := aligned_blocks_count_ (ring s) in
  let l := reading_cursor_ (head_ (ring s)) in
  let index := cursor_to_index (ring s) (writing_cursor_ (head_ (ring s))) in
  exists r h, alloc_write_chunk (ring s) size l l = Some (r, h) /\
    wh_result h =
      match chunk_blocks N index size with
      | None => err_alloc_size_invalid
      | Some blocks => if used_blocks s + blocks <=? N then success else err_not_enough_space
      end /\
    reading_cursor_ (head_ r) = reading_cursor_ (head_ (ring s)) /\
    writing_cursor_ (head_ r) = writing_cursor_ (head_ (ring s)).
Proof.
  intros (N & B & rj & jw & jp & jr & jv & Hi) Hsize. cbv zeta.
  destruct (i_order _ _ _ _ _ _ _ _ Hi) as [Ho1 Ho2].
  destruct (alloc_result s N B rj jw jp jr jv size jp jp Hi Hsize ltac:(lia) ltac:(lia))
    as (q & r & h & Halloc & Hq & Hres).
  pose proof (i_cursors _ _ _ _ _ _ _ _ Hi) as [_ _ _ Cw Cr Cwr].
  destruct (window _ _ _ _ _ _ _ _ jp (length (committed s)) Hi ltac:(lia) ltac:(lia)) as (HwN & Hw & _ & _).
  unfold used_blocks, cursor_to_index. rewrite Cr, Cwr, (i_count _ _ _ _ _ _ _ _ Hi), Hw.
  rewrite land_index by apply (i_pow _ _ _ _ _ _ _ _ Hi).
  exists r, h. split; [done|].
  pose proof (i_mono _ _ _ _ _ _ _ _ Hi) as Hm.
  destruct (chunk_blocks _ _ _) as [blocks|].
  - destruct Hres as [(Hr & -> & Hfull & ->)|(Hr & Hfit & _ & data' & -> & _)].
    + rewrite Hr. split; [|done]. destruct (_ <=? N) eqn:E; [apply Z.leb_le in E; lia|done].
    + rewrite Hr. split; [|done]. destruct (_ <=? N) eqn:E; [done|]. apply Z.leb_gt in E.
      pose proof (B_le B _ Hm q jp ltac:(lia)). lia.
  - destruct Hres as (Hr & -> & _). by rewrite Hr, Cr, Cwr.
Qed.

(** ** Recovery *)

(** A chain of chunks from cursor [c]: payloads and block counts. *)
Fixpoint chain (N : Z) (data : list Z) (c : Z) (chunks : list (list Z * Z)) : Prop :=
  match chunks with
  | [] => True
  | (msg, n) :: chunks => chunk_at N data c msg n /\ chain N data (c + n) chunks
  end.

Definition chain_blocks (chunks : list (list Z * Z)) : Z := foldr Z.add 0 (map snd chunks).

Lemma chain_cursor_lookup (N : Z) (data : list Z) (c : Z) (chunks : list (list Z * Z)) j msg n :
  chain N data c chunks -> chunks !! j = Some (msg, n) ->
  chunk_at N data (c + chain_blocks (take j chunks)) msg n.
Proof.
  revert c j. induction chunks as [|[m b] chunks IH]; intros c j Hc Hj; [done|].
  destruct Hc as [Hc Hrest]. destruct j as [|j].
  - injection Hj as -> ->. unfold chain_blocks. simpl. by rewrite Z.add_0_r.
  - simpl in Hj. specialize (IH _ _ Hrest Hj). unfold chain_blocks in *. simpl.
    by rewrite Z.add_assoc.
Qed.

Lemma chunk_at_pos (N c n : Z) (data msg : list Z) : 0 < N -> chunk_at N data c msg n -> 0 < n <= N.
Proof.
  intros HN [Hb _ _ _ _]. pose proof (Z.mod_pos_bound c N HN) as Hi. pose proof (zlen_nonneg msg).
  destruct (chunk_blocks_inv N (c mod N) (zlen msg) n Hi ltac:(lia) Hb) as (_ & ? & _). lia.
Qed.

(** A ring around a well-formed chain, nothing outstanding, all chunks unread. *)
Lemma chain_inv (N c : Z) (data : list Z) (chunks : list (list Z * Z)) (st : memory_map_buffer_state) :
  pow2_blocks N -> zlen data = N * BLOCK_SIZE -> bytes_ok data -> 0 <= c ->
  chain N data c chunks -> chain_blocks chunks <= N ->
  let r := u32 c in let w := u32 (c + chain_blocks chunks) in
  exists wh,
    inv (mk_sys (mk_siso (mk_head N r w r w r w) N data st) None R_idle wh (length chunks) [r] 0
           (map fst chunks) []).
Proof.
  intros Hp Hd Hok Hc Hchain Hfit r w. pose proof (pow2_bounds N Hp) as HN.
  set (B := fun j => c + chain_blocks (take j chunks)).
  assert (forall j msg, map fst chunks !! j = Some msg ->
            chunk_at N data (B j) msg (B (S j) - B j)) as Hchunks.
  { intros j msg Hj. rewrite list_lookup_fmap in Hj. apply fmap_Some in Hj as ([m n] & Hj & ->).
    pose proof (chain_cursor_lookup _ _ _ _ _ _ _ Hchain Hj) as Hat. simpl.
    assert (B (S j) - B j = n) as ->; [|exact Hat].
    unfold B, chain_blocks. rewrite (take_S_r _ _ _ Hj), map_app, foldr_app. simpl.
    generalize (map snd (take j chunks)) as l. intros l.
    assert (foldr Z.add (n + 0) l = foldr Z.add 0 l + n) as ->; [|lia].
    induction l as [|x l IH]; simpl; [lia|]. rewrite IH. lia. }
  assert (B O = c) as HB0 by (unfold B, chain_blocks; simpl; lia).
  assert (B (length chunks) = c + chain_blocks chunks) as HBn by (unfold B; by rewrite firstn_all).
  assert (forall j, (j < length chunks)%nat -> B j < B (S j)) as Hmono.
  { intros j Hj. destruct (lookup_lt_is_Some_2 (map fst chunks) j) as [msg Hm]; [by rewrite length_map|].
    pose proof (chunk_at_pos N _ _ _ _ ltac:(lia) (Hchunks j msg Hm)). lia. }
  exists (map (fun j => u32 (B j)) (seq 0 (S (length chunks)))).
  exists N, B, [O], O, O, O, (length chunks).
  split; cbn [ring pending reader w_hist w_seen r_hist r_seen committed consumed head_
    aligned_blocks_count_ data_bytes_]; rewrite ?length_map; try done; try lia.
  - split; cbn; rewrite ?HB0, ?HBn; done.
  - intros j msg _. apply Hchunks.
  - split; [by simpl; rewrite HB0|]. split; [done|]. split; [|by exists O].
    intros i i' a b Ha Hb' _. destruct i as [|i]; [|done]. destruct i' as [|i']; [|done].
    injection Ha as <-. by injection Hb' as <-.
Qed.

(** The walk accepts exactly the chains. *)
Lemma recover_loop_total (fuel : nat) (data : list Z) (N c remaining : Z) :
  pow2_blocks N -> zlen data = N * BLOCK_SIZE -> bytes_ok data -> 0 <= remaining <= N ->
  remaining < Z.of_nat fuel ->
  exists res, recover_loop fuel data N (u32 c) remaining = Some res /\
    forall c', res = Some c' -> c' = u32 (c + remaining) /\
      exists chunks, chain N data c chunks /\ chain_blocks chunks = remaining.
Proof.
  intros Hp Hd Hok. pose proof (pow2_bounds N Hp) as HN. revert c remaining.
  induction fuel as [|fuel IH]; intros c remaining Hr Hf; [lia|].
  cbn [recover_loop]. destruct (remaining =? 0) eqn:E0.
  { apply Z.eqb_eq in E0 as ->. eexists. split; [done|]. intros c' [= <-]. rewrite Z.add_0_r.
    split; [done|]. by exists []. }
  apply Z.eqb_neq in E0. rewrite land_index by done.
  pose proof (Z.mod_pos_bound c N ltac:(lia)) as Hidx. set (idx := c mod N) in *.
  unfold BLOCK_SIZE in *.
  assert (exists b, load_le data (idx * 8) 4 = Some b) as [b Hb].
  { unfold load_le. rewrite load_Some by lia. simpl. eauto. }
  assert (exists z, load_le data (idx * 8 + 4) 4 = Some z) as [z Hz].
  { unfold load_le. rewrite load_Some by lia. simpl. eauto. }
  assert (forall off v, load_le data off 4 = Some v -> 0 <= v < 2 ^ 32) as Hrange.
  { intros off v Hv. apply fmap_Some in Hv as (bs & Hbs & ->).
    pose proof (load_bytes_ok _ _ _ _ Hbs Hok) as Hbok.
    apply load_inv in Hbs as (_ & _ & _ & _ & Hlen). apply le_val_range in Hbok.
    fold (zlen bs) in Hbok. by rewrite Hlen in Hbok. }
  pose proof (Hrange _ _ Hb) as Hbr. pose proof (Hrange _ _ Hz) as Hzr.
  rewrite Hb. cbn [mbind option_bind]. rewrite Hz. cbn [mbind option_bind].
  destruct (_ || _) eqn:Eb; [by exists None|].
  rewrite orb_false_iff, Z.eqb_neq, Z.ltb_ge in Eb.
  destruct (chunk_blocks N idx z) as [ex|] eqn:Hex; [|by exists None].
  destruct (ex =? b) eqn:Eex; simpl negb; cbn iota; [|by exists None].
  apply Z.eqb_eq in Eex as ->. rewrite wrap_add_l, (wrap_small 32 (remaining - b)) by (unfold in_range; lia).
  destruct (IH (c + b) (remaining - b)) as (res & Hres & Hspec); [lia..|].
  exists res. split; [done|]. intros c' Hc'. destruct (Hspec c' Hc') as (-> & chunks & Hch & Hsum).
  split; [f_equal; lia|].
  destruct (payload_off_head N idx z b Hidx ltac:(lia) Hex) as (Hp0 & Hp1 & _). unfold BLOCK_SIZE in Hp1.
  destruct (load data (payload_addr N idx z) z) as [msg|] eqn:Hmsg.
  2:{ apply load_None in Hmsg. lia. }
  pose proof (load_inv _ _ _ _ Hmsg) as (_ & _ & _ & _ & Hlen).
  exists ((msg, b) :: chunks). split.
  - split; [|done]. split; fold idx; rewrite ?Hlen; try done. lia.
  - unfold chain_blocks in *. simpl. lia.
Qed.

Lemma recover_loop_complete (fuel : nat) (data : list Z) (N c : Z) (chunks : list (list Z * Z)) :
  pow2_blocks N -> chain N data c chunks -> 0 <= chain_blocks chunks <= N ->
  chain_blocks chunks < Z.of_nat fuel ->
  recover_loop fuel data N (u32 c) (chain_blocks chunks) = Some (Some (u32 (c + chain_blocks chunks))).
Proof.
  intros Hp. pose proof (pow2_bounds N Hp) as HN. revert c fuel.
  induction chunks as [|[msg n] chunks IH]; intros c fuel Hch Hr Hf.
  - destruct fuel; [simpl in Hf; lia|]. unfold chain_blocks. simpl. by rewrite Z.add_0_r.
  - destruct Hch as [Hat Hch]. pose proof (chunk_at_pos N _ _ _ _ ltac:(lia) Hat) as Hn.
    assert (0 <= chain_blocks chunks) as Hc0.
    { clear - Hch HN. revert n c Hch. induction chunks as [|[m b] chunks IH]; intros n c Hch; [done|].
      destruct Hch as [Hat Hch]. pose proof (chunk_at_pos N _ _ _ _ ltac:(lia) Hat).
      specialize (IH _ _ Hch). unfold chain_blocks in *. simpl. lia. }
    assert (chain_blocks ((msg, n) :: chunks) = n + chain_blocks chunks) as Hsum by done.
    rewrite Hsum in *. destruct fuel as [|fuel]; [lia|]. cbn [recover_loop].
    destruct (_ =? 0) eqn:E0; [apply Z.eqb_eq in E0; lia|]. rewrite land_index by done.
    destruct Hat as [Hb Hs Hnum Hds Hp'].
    rewrite Hnum. cbn [mbind option_bind]. rewrite Hds. cbn [mbind option_bind].
    destruct (_ || _) eqn:Eb; [rewrite orb_true_iff, Z.eqb_eq, Z.ltb_lt in Eb; lia|].
    rewrite Hb, Z.eqb_refl. simpl negb. cbn iota.
    rewrite wrap_add_l, (wrap_small 32 (n + _ - n)) by (unfold in_range; lia).
    replace (n + chain_blocks chunks - n) with (chain_blocks chunks) by lia.
    rewrite IH; [do 2 f_equal; f_equal; lia|done|lia|lia].
Qed.

(** The ring that a recovery builds, with nothing outstanding and [msgs] to be read. *)
Definition recovered_ok (r : siso) (msgs : list (list Z)) : Prop :=
  exists wh, inv (mk_sys r None R_idle wh (length msgs) [reading_cursor_ (head_ r)] 0 msgs []).

(** C20. Recovery never trusts the memory map: for every content of a storage of a legal
    size it answers without reading outside the storage, and a ring that it accepts is
    well formed, with complete chunks from the read to the write cursor. *)
Theorem siso_recover_safe (storage : list Z) (N : Z) :
  zlen storage < 2 ^ 64 -> bytes_ok storage -> storage_blocks (zlen storage) = Some N ->
  exists res, try_recover_from_exist_memory_map storage = Some res /\
    forall r, res = Some r -> exists msgs, recovered_ok r msgs.
Proof.
  intros Hs Hok HN. destruct (storage_blocks_spec _ _ Hs HN) as [Hp Hl].
  pose proof (pow2_bounds N Hp) as Hb.
  unfold try_recover_from_exist_memory_map. rewrite HN. cbn [mbind option_bind].
  unfold sizeof_head, CACHE_LINE_SIZE, BLOCK_SIZE in Hl.
  assert (forall off, 0 <= off -> off + 4 <= 512 -> exists v, load_le storage off 4 = Some v /\ in_range 32 v)
    as Hload.
  { intros off H0 H1. unfold load_le. rewrite load_Some by lia. simpl. eexists. split; [done|].
    assert (load storage off 4 = Some (take (Z.to_nat 4) (drop (Z.to_nat off) storage))) as Hx by (apply load_Some; lia).
    pose proof (load_bytes_ok _ _ _ _ Hx Hok) as Hbo. apply load_inv in Hx as (_ & _ & _ & _ & Hlen).
    apply le_val_range in Hbo. fold (zlen (take (Z.to_nat 4) (drop (Z.to_nat off) storage))) in Hbo.
    by rewrite Hlen in Hbo. }
  destruct (Hload 0) as (a & Ha & _); [lia..|]. destruct (Hload 4) as (r & Hr & Hrr); [lia..|].
  destruct (Hload (CACHE_LINE_SIZE + 4)) as (w & Hw & Hwr); [unfold CACHE_LINE_SIZE; lia..|].
  rewrite Ha. cbn [mbind option_bind]. rewrite Hr. cbn [mbind option_bind]. rewrite Hw.
  cbn [mbind option_bind]. destruct (negb _); [by exists None|].
  set (data := take _ _).
  assert (zlen data = N * BLOCK_SIZE) as Hd.
  { unfold data, BLOCK_SIZE, sizeof_head, CACHE_LINE_SIZE. apply zlen_take. rewrite zlen_drop by lia. lia. }
  assert (bytes_ok data) as Hdok by (by apply Forall_take, Forall_drop).
  pose proof (wrap_range 32 (w - r) ltac:(lia)) as Hrem. unfold in_range in Hrem, Hrr, Hwr.
  destruct (N <? u32 (w - r)) eqn:E; [by exists None|]. apply Z.ltb_ge in E.
  destruct (recover_loop_total (S (Z.to_nat N)) data N r (u32 (w - r)) Hp Hd Hdok) as (res & Hres & Hspec); [lia..|].
  rewrite (wrap_small 32 r) in Hres by (unfold in_range; lia). rewrite Hres. cbn [mbind option_bind].
  destruct res as [c|]; [|by exists None].
  destruct (negb (c =? w)) eqn:Ec; [by exists None|]. apply negb_false_iff, Z.eqb_eq in Ec as ->.
  eexists. split; [done|]. intros rr [= <-]. destruct (Hspec w eq_refl) as (Hw' & chunks & Hch & Hsum).
  exists (map fst chunks). unfold recovered_ok.
  destruct (chain_inv N r data chunks recover_from_memory_map Hp Hd Hdok ltac:(lia) Hch ltac:(lia)) as [wh Hinv].
  rewrite Hsum, <- Hw', (wrap_small 32 r) in Hinv by (unfold in_range; lia).
  exists wh. rewrite length_map. exact Hinv.
Qed.

(** C16. A crash loses nothing that the reader had not been given: from a memory map that
    holds the block count, the reader's and the writer's private cursors and the data of
    any reachable state, the recovery succeeds and gives a ring from which exactly the
    committed payloads not yet handed out are to be read. *)
Theorem siso_recover_complete (s : sys) (storage : list Z) :
  inv s -> zlen storage < 2 ^ 64 ->
  storage_blocks (zlen storage) = Some (aligned_blocks_count_ (ring s)) ->
  load_le storage 0 4 = Some (aligned_blocks_count_ (ring s)) ->
  load_le storage 4 4 = Some (rt_reading_cursor_cache_ (head_ (ring s))) ->
  load_le storage (CACHE_LINE_SIZE + 4) 4 = Some (wt_writing_cursor_cache_ (head_ (ring s))) ->
  take (Z.to_nat (aligned_blocks_count_ (ring s) * BLOCK_SIZE)) (drop (Z.to_nat sizeof_head) storage) =
    data_bytes_ (ring s) ->
  exists r, try_recover_from_exist_memory_map storage = Some (Some r) /\
    recovered_ok r (drop (length (consumed s)) (committed s)).
Proof.
  intros (N & B & rj & jw & jp & jr & jv & Hi) Hs HN H0 H4 H132 Hdata.
  rewrite (i_count _ _ _ _ _ _ _ _ Hi) in *.
  pose proof (i_pow _ _ _ _ _ _ _ _ Hi) as Hp. pose proof (pow2_bounds N Hp) as Hb.
  destruct (i_cursors _ _ _ _ _ _ _ _ Hi) as [Cr _ _ Cw _ _]. rewrite Cr in H4. rewrite Cw in H132.
  destruct (i_order _ _ _ _ _ _ _ _ Hi) as [Ho1 Ho2].
  assert (length (consumed s) = jr) as Hcl.
  { rewrite (i_consumed _ _ _ _ _ _ _ _ Hi), length_take. lia. }
  set (n := length (committed s)) in *.
  destruct (window _ _ _ _ _ _ _ _ jr n Hi ltac:(lia) ltac:(lia)) as (HwN & Hw & _ & _).
  pose proof (i_mono _ _ _ _ _ _ _ _ Hi) as Hm. pose proof (i_start _ _ _ _ _ _ _ _ Hi).
  pose proof (B_le B _ Hm O jr ltac:(lia)) as HB0.
  destruct (i_data _ _ _ _ _ _ _ _ Hi) as [Hd Hdok].
  assert (exists chunks, map fst chunks = drop jr (committed s) /\
            chain N (data_bytes_ (ring s)) (B jr) chunks /\ chain_blocks chunks = B n - B jr)
    as (chunks & Hmsgs & Hch & Hsum).
  { assert (forall k j, (j + k = n)%nat -> (jr <= j)%nat ->
              exists chunks, map fst chunks = drop j (committed s) /\
                chain N (data_bytes_ (ring s)) (B j) chunks /\ chain_blocks chunks = B n - B j) as Hall;
      [|apply (Hall (n - jr)%nat jr); lia].
    induction k as [|k IH]; intros j Hj Hjr.
    - assert (j = n) as -> by lia. exists []. split; [unfold n; by rewrite drop_all|].
      split; [done|]. unfold chain_blocks. simpl. lia.
    - destruct (lookup_lt_is_Some_2 (committed s) j ltac:(lia)) as [msg Hmsg].
      destruct (IH (S j) ltac:(lia) ltac:(lia)) as (chunks & Hc1 & Hc2 & Hc3).
      exists ((msg, B (S j) - B j) :: chunks). split.
      + simpl. by rewrite Hc1, <- (drop_S _ _ _ Hmsg).
      + split; [|unfold chain_blocks in *; simpl; lia].
        split; [apply (i_chunks _ _ _ _ _ _ _ _ Hi); [lia|done]|].
        by replace (B j + (B (S j) - B j)) with (B (S j)) by lia. }
  destruct (chain_inv N (B jr) (data_bytes_ (ring s)) chunks recover_from_memory_map Hp Hd Hdok ltac:(lia) Hch ltac:(lia))
    as [wh Hinv].
  assert (B jr + chain_blocks chunks = B n) as HBn by lia. rewrite HBn in Hinv.
  exists (mk_siso (mk_head N (u32 (B jr)) (u32 (B n)) (u32 (B jr)) (u32 (B n)) (u32 (B jr)) (u32 (B n)))
            N (data_bytes_ (ring s)) recover_from_memory_map).
  split.
  - unfold try_recover_from_exist_memory_map. rewrite HN. cbn [mbind option_bind].
    rewrite H0. cbn [mbind option_bind]. rewrite H4. cbn [mbind option_bind]. rewrite H132.
    cbn [mbind option_bind]. rewrite Z.eqb_refl, Hdata, Hw. simpl negb. cbn iota.
    destruct (N <? _) eqn:E; [apply Z.ltb_lt in E; lia|].
    rewrite <- Hsum. rewrite recover_loop_complete by (done || lia). rewrite HBn.
    cbn [mbind option_bind]. rewrite Z.eqb_refl. done.
  - rewrite Hcl, <- Hmsgs. exists wh. rewrite length_map. exact Hinv.
Qed.

(** ** Traversal *)

Lemma traverse_ok (s : sys) N B rj jw jp jr jv (fuel : nat) (j v : nat) (loads : list Z) :
  inv_at s N B rj jw jp jr jv -> (jr <= j <= v)%nat -> (v <= length (committed s))%nat ->
  (length (committed s) - j < fuel)%nat ->
  let c := u32 (B (length (committed s))) in
  (if decide (v = length (committed s)) then exists l, loads = c :: l else exists l, loads = c :: c :: l) ->
  exists visited,
    data_traverse fuel (set_head (ring s) (set_rt_writing (u32 (B v)) (head_ (ring s)))) (u32 (B j)) loads =
      Some (set_head (ring s) (set_rt_writing c (head_ (ring s))), visited) /\
    Forall2 (fun p msg => load (data_bytes_ (ring s)) (fst p) (snd p) = Some msg)
      visited (drop j (committed s)).
Proof.
  intros Hi. revert j v loads. set (n := length (committed s)).
  destruct (i_order _ _ _ _ _ _ _ _ Hi) as [Ho1 Ho2].
  pose proof (i_mono _ _ _ _ _ _ _ _ Hi) as Hm. fold n in Hm.
  induction fuel as [|fuel IH]; intros j v loads Hj Hv Hf c Hloads; [lia|].
  (* visiting the chunk at [j] when the cache is at [v'] *)
  assert (forall v' loads', (j < v')%nat -> (v' <= n)%nat ->
            (if decide (v' = n) then exists l, loads' = c :: l else exists l, loads' = c :: c :: l) ->
            exists visited,
    (blocks ← block_num (set_head (ring s) (set_rt_writing (u32 (B v')) (head_ (ring s))))
                (cursor_to_index (set_head (ring s) (set_rt_writing (u32 (B v')) (head_ (ring s)))) (u32 (B j)));
     data_size ← block_data_size (set_head (ring s) (set_rt_writing (u32 (B v')) (head_ (ring s))))
                (cursor_to_index (set_head (ring s) (set_rt_writing (u32 (B v')) (head_ (ring s)))) (u32 (B j)));
     if negb ((0 <? blocks) && (blocks <=? u32 (u32 (B v') - u32 (B j)))) then None
     else
       addr ← get_block_data_addr (set_head (ring s) (set_rt_writing (u32 (B v')) (head_ (ring s))))
                (cursor_to_index (set_head (ring s) (set_rt_writing (u32 (B v')) (head_ (ring s)))) (u32 (B j)));
       '(s', visited) ← data_traverse fuel (set_head (ring s) (set_rt_writing (u32 (B v')) (head_ (ring s))))
                          (u32 (u32 (B j) + blocks)) loads';
       Some (s', (addr, data_size) :: visited)) =
      Some (set_head (ring s) (set_rt_writing c (head_ (ring s))), visited) /\
    Forall2 (fun p msg => load (data_bytes_ (ring s)) (fst p) (snd p) = Some msg)
      visited (drop j (committed s))) as Hvisit.
  { intros v' loads' Hjv Hvn Hl.
    destruct (lookup_lt_is_Some_2 (committed s) j ltac:(fold n; lia)) as [msg Hmsg].
    destruct (chunk_head _ _ _ _ _ _ _ _ j msg Hi ltac:(lia) Hmsg) as (Hidx & Hnum & Hds & Haddr & Hload).
    destruct (window _ _ _ _ _ _ _ _ j v' Hi ltac:(lia) ltac:(fold n; lia)) as (_ & Hw & _).
    pose proof (Hm j ltac:(lia)). pose proof (B_le B n Hm (S j) v' ltac:(lia)).
    set (r := set_head _ _).
    change (cursor_to_index r (u32 (B j))) with (cursor_to_index (ring s) (u32 (B j))). rewrite Hidx.
    change (block_num r) with (block_num (ring s)). change (block_data_size r) with (block_data_size (ring s)).
    change (get_block_data_addr r) with (get_block_data_addr (ring s)).
    rewrite Hnum. cbn [mbind option_bind]. rewrite Hds. cbn [mbind option_bind]. rewrite Hw.
    destruct (negb _) eqn:E.
    { apply negb_true_iff in E. rewrite andb_false_iff, Z.ltb_ge, Z.leb_gt in E. lia. }
    rewrite Haddr. cbn [mbind option_bind]. rewrite wrap_add_l.
    replace (B j + (B (S j) - B j)) with (B (S j)) by lia.
    destruct (IH (S j) v' loads' ltac:(lia) ltac:(lia) ltac:(lia) Hl) as (visited & Hdt & Hall).
    unfold r. rewrite Hdt. cbn [mbind option_bind]. eexists. split; [reflexivity|].
    rewrite (drop_S _ _ _ Hmsg). constructor; [exact Hload|exact Hall]. }
  destruct (window _ _ _ _ _ _ _ _ j v Hi ltac:(lia) ltac:(fold n; lia)) as (_ & _ & _ & Heq).
  cbn [data_traverse].
  change (rt_writing_cursor_cache_ (head_ (set_head (ring s) (set_rt_writing (u32 (B v)) (head_ (ring s))))))
    with (u32 (B v)).
  destruct (u32 (B j) =? u32 (B v)) eqn:E.
  - apply Z.eqb_eq in E. apply Heq in E as <-.
    destruct (decide (j = n)) as [->|Hne]; destruct Hloads as [l ->].
    + rewrite Z.eqb_refl. exists []. split; [done|]. unfold n. rewrite drop_all. constructor.
    + destruct (window _ _ _ _ _ _ _ _ j n Hi ltac:(lia) ltac:(fold n; lia)) as (_ & _ & _ & Heqn).
      destruct (u32 (B j) =? c) eqn:E2; [apply Z.eqb_eq, Heqn in E2; lia|].
      destruct (Hvisit n (c :: l) ltac:(lia) ltac:(lia)) as (visited & Hdt & Hall);
        [rewrite decide_True by done; eauto|].
      exists visited. split; [exact Hdt|exact Hall].
  - apply Z.eqb_neq in E. destruct (decide (j = v)) as [->|]; [done|].
    destruct (Hvisit v loads ltac:(lia) ltac:(lia) Hloads) as (visited & Hdt & Hall).
    exists visited. split; [exact Hdt|exact Hall].
Qed.

(** The traversal, once its loads return the current writing cursor, visits exactly the
    payloads not yet handed out, in order, ends after at most one step per payload, and
    moves no cursor but the reader's cache of the writing cursor. *)
Theorem siso_data_traverse (s : sys) (fuel : nat) (rest : list Z) :
  inv s -> (length (committed s) < fuel)%nat ->
  let c := writing_cursor_ (head_ (ring s)) in
  exists visited,
    data_traverse fuel (ring s) (rt_reading_cursor_cache_ (head_ (ring s))) (c :: c :: rest) =
      Some (set_head (ring s) (set_rt_writing c (head_ (ring s))), visited) /\
    Forall2 (fun p msg => load (data_bytes_ (ring s)) (fst p) (snd p) = Some msg)
      visited (drop (length (consumed s)) (committed s)).
Proof.
  intros (N & B & rj & jw & jp & jr & jv & Hi) Hf. cbv zeta.
  destruct (i_order _ _ _ _ _ _ _ _ Hi) as [Ho1 Ho2].
  destruct (i_cursors _ _ _ _ _ _ _ _ Hi) as [Cr _ _ _ _ Cw]. rewrite Cr, Cw.
  assert (length (consumed s) = jr) as ->.
  { rewrite (i_consumed _ _ _ _ _ _ _ _ Hi), length_take. lia. }
  set (c := u32 (B (length (committed s)))).
  destruct (traverse_ok s N B rj jw jp jr jv fuel jr jv (c :: c :: rest) Hi)
    as (visited & Hdt & Hall); [lia..|case_decide; eauto|].
  rewrite (set_rt_writing_same _ _ _ _ _ _ _ _ Hi) in Hdt. by exists visited.
Qed.

(** ** The size of the storage *)

(** C36. [calculate_min_size_of_memory] asks for enough: a storage of the size it returns
    gives a ring whose data area is a power of two of at least the expected size and of
    at least the smallest area, so that a payload of eight bytes less than the expected
    size can be allocated in the empty ring. *)
Theorem storage_size_sufficient (expected : Z) :
  1 <= expected <= 2 ^ 30 ->
  exists size N, calculate_min_size_of_memory expected = Some size /\
    storage_blocks size = Some N /\ pow2_blocks N /\ expected <= N * BLOCK_SIZE /\
    (8 <= expected -> chunk_blocks N 0 (expected - 8) <> None).
Proof.
  intros He. set (k := Z.log2_up expected).
  assert (0 <= k) as Hk0 by apply Z.log2_up_nonneg.
  assert (2 ^ (k - 1) < expected <= 2 ^ k) as Hk.
  { destruct (decide (expected = 1)) as [E|Hne].
    - unfold k. rewrite E. vm_compute. intuition congruence.
    - pose proof (Z.log2_up_spec expected ltac:(lia)) as Hs. fold k in Hs.
      by replace (Z.pred k) with (k - 1) in Hs by lia. }
  assert (k <= 30) as Hk30 by (apply (Z.log2_up_le_mono _ (2 ^ 30)); lia).
  assert (2 ^ k <= 2 ^ 30) as Hp by (apply Z.pow_le_mono_r; lia).
  exists (2 ^ k + 640).
  assert (calculate_min_size_of_memory expected = Some (2 ^ k + 640)) as Hmin.
  { unfold calculate_min_size_of_memory, sizeof_head, CACHE_LINE_SIZE.
    destruct (_ <? expected) eqn:E; [apply Z.ltb_lt in E; lia|].
    rewrite (round_pow_of_two_exact expected k) by lia. cbv zeta.
    replace (2 ^ k + 4 * 128 + 128) with (2 ^ k + 640) by lia.
    rewrite (proj2 (Z.ltb_ge (2 ^ 32 - 1) (2 ^ k + 640))) by lia.
    by rewrite wrap_small by (unfold in_range; lia). }
  assert (exists N, storage_blocks (2 ^ k + 640) = Some N) as [N HN].
  { unfold storage_blocks, sizeof_head, CACHE_LINE_SIZE, BLOCK_SIZE.
    destruct (_ <? _) eqn:E; [apply Z.ltb_lt in E; lia|].
    set (m := (2 ^ k + 640 - 4 * 128) / 8).
    assert (8 * m <= 2 ^ k + 128 < 8 * m + 8) as Hm.
    { unfold m. pose proof (Z.div_mod (2 ^ k + 640 - 4 * 128) 8).
      pose proof (Z.mod_pos_bound (2 ^ k + 640 - 4 * 128) 8). lia. }
    destruct (count_loop_spec 64 m 0) as (j & Hj & Hc & Hb); [lia|simpl; lia|simpl; lia|].
    change (2 ^ 0) with 1 in Hc. rewrite Hc. cbn [mbind option_bind].
    destruct (_ <? 2 ^ j) eqn:E2; [|by eexists]. apply Z.ltb_lt in E2.
    change ((2 ^ 31 - 1) / 8) with (2 ^ 28 - 1) in E2. lia. }
  exists N. destruct (storage_blocks_spec (2 ^ k + 640) N ltac:(lia) HN) as [Hpow Hsz].
  pose proof (pow2_bounds N Hpow) as HN2. unfold sizeof_head, CACHE_LINE_SIZE, BLOCK_SIZE in *.
  split; [done|]. split; [done|]. split; [done|].
  assert (2 ^ k <= N * 8) as Hfit.
  { destruct Hpow as (j & Hj & ->). destruct (decide (k <= j + 3)) as [Hle|Hgt].
    - assert (2 ^ k <= 2 ^ (j + 3)) by (apply Z.pow_le_mono_r; lia). rewrite Z.pow_add_r in *; lia.
    - assert (2 ^ (j + 4) <= 2 ^ k) by (apply Z.pow_le_mono_r; lia). rewrite Z.pow_add_r in *; lia. }
  split; [lia|]. intros H8. unfold chunk_blocks. rewrite Z.sub_0_r, Z.shiftr_div_pow2 by lia.
  change (2 ^ 3) with 8. replace (expected - 8 + 8 + 7) with (expected + 7) by lia.
  pose proof (Z.div_mod (expected + 7) 8 ltac:(lia)). pose proof (Z.mod_pos_bound (expected + 7) 8 ltac:(lia)).
  destruct (_ || _) eqn:E; [|done].
  rewrite !orb_true_iff, andb_true_iff, !Z.ltb_lt, Z.eqb_eq in E. lia.
Qed.

Lemma storage_size_sufficient_witness :
  calculate_min_size_of_memory 100 = Some 768 /\
  exists size N, calculate_min_size_of_memory 100 = Some size /\
    storage_blocks size = Some N /\ pow2_blocks N /\ 100 <= N * BLOCK_SIZE /\
    (8 <= 100 -> chunk_blocks N 0 (100 - 8) <> None).
Proof. split; [reflexivity|]. apply (storage_size_sufficient 100). lia. Defined.

(** ** Concrete runs *)

Definition sample_storage : list Z := replicate 576 0.

Lemma sample_storage_bytes : bytes_ok sample_storage.
Proof. apply bytes_ok_dec. reflexivity. Qed.

Definition sample_ring : siso :=
  mk_siso (mk_head 8 0 0 0 0 0 0) 8 (replicate 64 0) init_with_memory.

(** A chunk of one block count and size, then the payload [1 2 3 4 5]. *)
Definition sample_data : list Z := [2; 0; 0; 0; 5; 0; 0; 0; 1; 2; 3; 4; 5] ++ replicate 51 0.

Definition sample_committed : sys :=
  mk_sys (mk_siso (mk_head 8 0 0 0 2 0 2) 8 sample_data init_with_memory) None R_idle
    [0; 2] 0 [0] 0 [[1; 2; 3; 4; 5]] [].

Definition sample_returned : sys :=
  mk_sys (mk_siso (mk_head 8 2 2 0 2 2 2) 8 sample_data init_with_memory) None R_idle
    [0; 2] 1 [0; 2] 0 [[1; 2; 3; 4; 5]] [[1; 2; 3; 4; 5]].

Definition write_run : list event := [Alloc 5 0 0; Write 0 [1; 2; 3; 4; 5]; Commit].
Definition read_run : list event := [Read 1; Return].

Lemma sample_write_run : runs (initial_sys sample_ring) write_run sample_committed.
Proof.
  eapply runs_cons; [ | vm_compute; reflexivity | ].
  { simpl. unfold in_range. split_and!; try done; lia. }
  eapply runs_cons; [ | vm_compute; reflexivity | ].
  { simpl. do 2 eexists. split; [reflexivity|]. split; [done|]. vm_compute zlen.
    split; [lia|]. split; [lia|]. apply bytes_ok_dec. reflexivity. }
  eapply runs_cons; [ done | vm_compute; reflexivity | ].
  apply runs_nil.
Qed.

Lemma sample_read_run : runs sample_committed read_run sample_returned.
Proof.
  eapply runs_cons; [ | vm_compute; reflexivity | ].
  { simpl. split; [done|]. lia. }
  eapply runs_cons; [ simpl; eauto | vm_compute; reflexivity | ].
  apply runs_nil.
Qed.

Lemma runs_app (s1 s2 s3 : sys) (e1 e2 : list event) :
  runs s1 e1 s2 -> runs s2 e2 s3 -> runs s1 (e1 ++ e2) s3.
Proof. induction 1; simpl; [done|]. intros. eapply runs_cons; eauto. Qed.

Lemma sample_committed_inv : inv sample_committed.
Proof.
  eapply runs_inv; [|apply sample_write_run].
  apply (init_inv sample_storage); [done|apply sample_storage_bytes|vm_compute; reflexivity].
Qed.

Lemma siso_fifo_witness :
  consumed sample_returned `prefix_of` committed sample_returned /\
  (forall e, enabled sample_returned e -> exists s', step sample_returned e = Some s').
Proof.
  apply (siso_fifo sample_storage sample_ring (write_run ++ read_run));
    [done|apply sample_storage_bytes|vm_compute; reflexivity|].
  eapply runs_app; [apply sample_write_run|apply sample_read_run].
Defined.

Lemma siso_read_next_witness :
  exists r h, read_chunk (ring sample_committed) 2 = Some (r, h) /\
    (rh_result h = success ->
     exists msg, committed sample_committed !! length (consumed sample_committed) = Some msg /\
       load (data_bytes_ (ring sample_committed)) (rh_data_addr h) (rh_data_size h) = Some msg) /\
    (rh_result h <> success -> rh_result h = err_empty_log_buffer) /\
    (1%nat = 1%nat -> (rh_result h = success <-> (0 < backlog sample_committed)%nat)).
Proof.
  apply (siso_read_next sample_committed 1); [apply sample_committed_inv|done|simpl; lia|simpl; lia].
Defined.

Lemma siso_alloc_outcome_witness :
  exists r h, alloc_write_chunk (ring sample_committed) 40 0 0 = Some (r, h) /\
    wh_result h = success /\
    reading_cursor_ (head_ r) = 0 /\ writing_cursor_ (head_ r) = 2.
Proof.
  apply (siso_alloc_outcome sample_committed 40); [apply sample_committed_inv|].
  unfold in_range. lia.
Defined.

(** The memory map of [sample_committed]. *)
Definition sample_map : list Z :=
  le_bytes 4 8 ++ le_bytes 4 0 ++ replicate 124 0 ++ le_bytes 4 2 ++ replicate 376 0 ++ sample_data.

Lemma sample_map_bytes : bytes_ok sample_map.
Proof. apply bytes_ok_dec. vm_compute. reflexivity. Qed.

Lemma siso_recover_safe_witness :
  exists res, try_recover_from_exist_memory_map sample_map = Some res /\
    forall r, res = Some r -> exists msgs, recovered_ok r msgs.
Proof.
  apply (siso_recover_safe sample_map 8); [vm_compute; reflexivity|apply sample_map_bytes|].
  vm_compute. reflexivity.
Defined.

Lemma siso_recover_complete_witness :
  exists r, try_recover_from_exist_memory_map sample_map = Some (Some r) /\
    recovered_ok r [[1; 2; 3; 4; 5]].
Proof.
  apply (siso_recover_complete sample_committed sample_map); [apply sample_committed_inv|..];
    vm_compute; reflexivity.
Defined.

Lemma siso_data_traverse_witness :
  exists visited,
    data_traverse 2 (ring sample_committed) 0 [2; 2] =
      Some (set_head (ring sample_committed) (set_rt_writing 2 (head_ (ring sample_committed))), visited) /\
    Forall2 (fun p msg => load (data_bytes_ (ring sample_committed)) (fst p) (snd p) = Some msg)
      visited [[1; 2; 3; 4; 5]].
Proof. apply (siso_data_traverse sample_committed 2 []); [apply sample_committed_inv|simpl; lia]. Defined.
