(* ===== verification/Miso.v ===== *)
(** * The multiple-producer single-consumer ring buffer
    ([include/qlog/buffer/miso_ring_buffer.hpp], [src/buffer/miso_ring_buffer.cpp])

    The ring is its two shared cursors, the head that lies in the memory map and the bytes
    of its blocks. The code of a producer is cut at its accesses to shared memory: between
    two of the functions below any other thread may run. A value that an atomic load
    returns is an argument. A failed assertion or an access outside the blocks is [None].
    [Section Operations] holds the operations and [Section System] their interleaving;
    the proofs are in [MisoProofs.v]. *)
From stdpp Require Import base list option numbers.
From Stdlib Require Import ZArith Lia Bool.
From S2P Require Import Prelude Memory BufferDefs.

(** ** State *)

Definition BLOCK_SIZE : Z := CACHE_LINE_SIZE.
Definition CACHE_LINE_SIZE_LOG2 : Z := 7.

(** The offset of [data] in [chunk_head_def]: three bytes of [block_num_], the status,
    four bytes of [data_size]. *)
Definition data_block_offset : Z := 8.
Definition MAX_BLOCK_NUM_PER_CHUNK : Z := 0xFFFFFF.

Inductive block_status := unused | used | invalid.

Definition status_code (s : block_status) : Z :=
  match s with unused => 0 | used => 1 | invalid => 2 end.

Definition status_of_code (c : Z) : option block_status :=
  if c =? 0 then Some unused else if c =? 1 then Some used
  else if c =? 2 then Some invalid else None.

Record head := mk_head {
  read_cursor_cache_ : Z;
  read_cursor_start_cache_ : Z;
  log_checksum_ : Z;
  mmap_misc_data_ : list Z }.

Record miso := mk_miso {
  write_cursor_ : Z;
  read_cursor_ : Z;
  head_ : head;
  aligned_blocks_count_ : Z;
  aligned_blocks_ : list Z;
  mmap_buffer_state_ : memory_map_buffer_state }.

Definition set_write_cursor (v : Z) (m : miso) : miso :=
  mk_miso v (read_cursor_ m) (head_ m) (aligned_blocks_count_ m) (aligned_blocks_ m)
    (mmap_buffer_state_ m).
Definition set_read_cursor (v : Z) (m : miso) : miso :=
  mk_miso (write_cursor_ m) v (head_ m) (aligned_blocks_count_ m) (aligned_blocks_ m)
    (mmap_buffer_state_ m).
Definition set_blocks (d : list Z) (m : miso) : miso :=
  mk_miso (write_cursor_ m) (read_cursor_ m) (head_ m) (aligned_blocks_count_ m) d
    (mmap_buffer_state_ m).
Definition set_read_cache (v : Z) (m : miso) : miso :=
  mk_miso (write_cursor_ m) (read_cursor_ m)
    (mk_head v (read_cursor_start_cache_ (head_ m)) (log_checksum_ (head_ m))
       (mmap_misc_data_ (head_ m)))
    (aligned_blocks_count_ m) (aligned_blocks_ m) (mmap_buffer_state_ m).
Definition set_start_cache (v : Z) (m : miso) : miso :=
  mk_miso (write_cursor_ m) (read_cursor_ m)
    (mk_head (read_cursor_cache_ (head_ m)) v (log_checksum_ (head_ m)) (mmap_misc_data_ (head_ m)))
    (aligned_blocks_count_ m) (aligned_blocks_ m) (mmap_buffer_state_ m).

Definition cursor_to_index (count cursor : Z) : Z := Z.land cursor (u32 (count - 1)).

(** [get_block_num]: the low three bytes of a four-byte load. *)
Definition get_block_num (blocks : list Z) (index : Z) : option Z :=
  v ← load_le blocks (index * BLOCK_SIZE) 4; Some (Z.land v 0xFFFFFF).

(** [set_block_num]: a four-byte store, which also writes the status. *)
Definition set_block_num (blocks : list Z) (index num : Z) : option (list Z) :=
  store_le blocks (index * BLOCK_SIZE) 4 num.

Definition get_status (blocks : list Z) (index : Z) : option Z :=
  load_le blocks (index * BLOCK_SIZE + 3) 1.

Definition set_status (blocks : list Z) (index : Z) (s : block_status) : option (list Z) :=
  store_le blocks (index * BLOCK_SIZE + 3) 1 (status_code s).

Definition get_data_size (blocks : list Z) (index : Z) : option Z :=
  load_le blocks (index * BLOCK_SIZE + 4) 4.

Definition set_data_size (blocks : list Z) (index size : Z) : option (list Z) :=
  store_le blocks (index * BLOCK_SIZE + 4) 4 size.

Definition data_addr (index : Z) : Z := index * BLOCK_SIZE + data_block_offset.

(** [for (i = 0; i < n; ++i) block(index(cursor + i)).status = unused;] *)
Fixpoint clear_loop (n : nat) (index : Z -> Z) (cursor : Z) (blocks : list Z) : option (list Z) :=
  match n with
  | O => Some blocks
  | S n =>
      blocks ← set_status blocks (index cursor) unused;
      clear_loop n index (u32 (cursor + 1)) blocks
  end.

Section Operations.
(** Whether the assertions of the debug build are compiled in. *)
Context (debug : bool).

Definition debug_assert (c : bool) : option unit := if debug && negb c then None else Some ().

(** ** Producers *)

(** The number of blocks of a chunk; [None] is [err_alloc_size_invalid]. *)
Definition need_blocks (count size : Z) : option Z :=
  let size_required := u32 (size + data_block_offset) in
  let need := u32 (Z.shiftr (size_required + (CACHE_LINE_SIZE - 1)) CACHE_LINE_SIZE_LOG2) in
  if (count <? need) || (need =? 0) || (MAX_BLOCK_NUM_PER_CHUNK <? need) then None else Some need.

(** The local variables of [alloc_write_chunk]; [f_read] is [read_cursor_ref], which refers
    to the thread-local cache when [f_tls]. *)
Record frame := mk_frame {
  f_size : Z;
  f_need : Z;
  f_cursor : Z;
  f_read : Z;
  f_used : Z;
  f_tls : bool }.

Definition set_f_cursor (v : Z) (f : frame) : frame :=
  mk_frame (f_size f) (f_need f) v (f_read f) (f_used f) (f_tls f).
Definition set_f_read (v : Z) (f : frame) : frame :=
  mk_frame (f_size f) (f_need f) (f_cursor f) v (f_used f) (f_tls f).
Definition set_f_used (v : Z) (f : frame) : frame :=
  mk_frame (f_size f) (f_need f) (f_cursor f) (f_read f) v (f_tls f).

(** Up to the loop: [load_w] is the relaxed load of the write cursor, [read] the cached or
    loaded read cursor. *)
Definition alloc_enter (size need load_w read : Z) (tls : bool) : frame :=
  mk_frame size need load_w read (u32 (load_w - read)) tls.

(** The code of a refused allocation. *)
Definition full_code (count need : Z) : enum_buffer_result_code :=
  if count <? u32 (Z.shiftl need 1) then err_alloc_size_invalid else err_not_enough_space.

(** The capacity check before the reservation; [load_r] is the load of the read cursor. *)
Definition alloc_check (count : Z) (f : frame) (load_r : Z) : frame * option enum_buffer_result_code :=
  let new_cursor := u32 (f_cursor f + f_need f) in
  if count <? u32 (new_cursor - f_read f) then
    let f := set_f_read load_r f in
    (f, if count <? u32 (new_cursor - f_read f) then Some (full_code count (f_need f)) else None)
  else (f, None).

(** [fetch_add] on the write cursor; [true] when the loop that follows is entered. *)
Definition alloc_reserve (m : miso) (f : frame) : miso * frame * bool :=
  let current := write_cursor_ m in
  let next := u32 (current + f_need f) in
  (set_write_cursor next m, set_f_cursor current f,
   aligned_blocks_count_ m <=? u32 (next - f_read f)).

Inductive settled := Again | Granted | Refused (code : enum_buffer_result_code).

(** One turn of the loop after the reservation: reload the read cursor, leave when the
    chunk fits, otherwise try to take the reservation back. *)
Definition alloc_settle (m : miso) (f : frame) (load_r : Z) : miso * frame * settled :=
  let next := u32 (f_cursor f + f_need f) in
  let f := set_f_read load_r f in
  if aligned_blocks_count_ m <=? u32 (next - f_read f) then
    if write_cursor_ m =? next
    then (set_write_cursor (f_cursor f) m, f, Refused (full_code (aligned_blocks_count_ m) (f_need f)))
    else (m, f, Again)
  else (m, f, Granted).

Definition alloc_number (m : miso) (f : frame) : option miso :=
  let index := cursor_to_index (aligned_blocks_count_ m) (f_cursor f) in
  d ← set_block_num (aligned_blocks_ m) index (f_need f);
  Some (set_blocks d m).

(** The rest of the loop body: [None] for the handle is [continue]. *)
Definition alloc_place (m : miso) (f : frame) (load_r : Z) : option (miso * frame * option write_handle) :=
  let count := aligned_blocks_count_ m in
  let index := cursor_to_index count (f_cursor f) in
  if count <? index + f_need f then
    d ← set_status (aligned_blocks_ m) index invalid;
    Some (set_blocks d m, f, None)
  else
    d ← set_data_size (aligned_blocks_ m) index (f_size f);
    let f := set_f_used (u32 (f_used f + f_need f)) f in
    let low := count <=? u32 (Z.shiftl (f_used f) 1) in
    let f := if low then
               let f := set_f_read load_r f in
               set_f_used (u32 (u32 (f_cursor f + f_need f) - f_read f)) f
             else f in
    let low := if low then count <=? u32 (Z.shiftl (f_used f) 1) else false in
    Some (set_blocks d m, f, Some (mk_write_handle (data_addr index) success low)).

Definition commit_write_chunk (m : miso) (handle : write_handle) : option miso :=
  if decide (wh_result handle = success) then
    d ← store_le (aligned_blocks_ m) (wh_data_addr handle - data_block_offset + 3) 1 (status_code used);
    Some (set_blocks d m)
  else Some m.

(** ** The consumer *)

(** One turn of the loop of [read_chunk]: [None] for the handle is [continue]. *)
Definition read_turn (m : miso) : option (miso * option read_handle) :=
  let count := aligned_blocks_count_ m in
  let index := cursor_to_index count (read_cursor_cache_ (head_ m)) in
  code ← get_status (aligned_blocks_ m) index;
  block_count ← get_block_num (aligned_blocks_ m) index;
  status ← status_of_code code;
  match status with
  | invalid =>
      _ ← debug_assert (count <? index + block_count);
      _ ← debug_assert (block_count <=? count);
      d ← set_status (aligned_blocks_ m) index unused;
      Some (set_read_cache (u32 (read_cursor_cache_ (head_ m) + block_count)) (set_blocks d m), None)
  | unused => Some (m, Some no_read)
  | used =>
      _ ← debug_assert (index + block_count <=? count);
      size ← get_data_size (aligned_blocks_ m) index;
      Some (m, Some (mk_read_handle (data_addr index) size success))
  end.

Fixpoint read_chunk (fuel : nat) (m : miso) : option (miso * read_handle) :=
  match fuel with
  | O => None
  | S fuel =>
      '(m, h) ← read_turn m;
      match h with
      | Some h => Some (m, h)
      | None => read_chunk fuel m
      end
  end.

Definition read_an_empty_chunk : read_handle := no_read.

Definition discard_read_chunk (handle : read_handle) : read_handle :=
  mk_read_handle (rh_data_addr handle) (rh_data_size handle) err_empty_log_buffer.

(** The cursor moves past a chunk that was read; the flag is [need_flush]. *)
Definition return_advance (m : miso) (handle : read_handle) : option (miso * bool) :=
  let start_cursor := read_cursor_start_cache_ (head_ m) in
  let count := aligned_blocks_count_ m in
  match rh_result handle with
  | err_empty_log_buffer => Some (m, true)
  | success =>
      n ← get_block_num (aligned_blocks_ m) (cursor_to_index count (read_cursor_cache_ (head_ m)));
      let cursor := u32 (read_cursor_cache_ (head_ m) + n) in
      Some (set_read_cache cursor m, Z.shiftr count 2 <=? u32 (cursor - start_cursor))
  | _ => Some (m, false)
  end.

(** The part of [return_read_chunk] before the read cursor is published, and whether it
    will be. *)
Definition return_begin (m : miso) (handle : read_handle) : option (miso * bool) :=
  let start_cursor := read_cursor_start_cache_ (head_ m) in
  '(m, need_flush) ← return_advance m handle;
  if (need_flush : bool) then
    let block_count := u32 (read_cursor_cache_ (head_ m) - start_cursor) in
    if 0 <? block_count then
      d ← clear_loop (Z.to_nat block_count) (cursor_to_index (aligned_blocks_count_ m))
            start_cursor (aligned_blocks_ m);
      Some (set_start_cache (read_cursor_cache_ (head_ m)) (set_blocks d m), true)
    else Some (m, false)
  else Some (m, false).

(** [cursors_.read_cursor_.store_release(head_->read_cursor_cache_)] *)
Definition publish (m : miso) : miso := set_read_cursor (read_cursor_cache_ (head_ m)) m.

Definition return_read_chunk (m : miso) (handle : read_handle) : option miso :=
  '(m, flush) ← return_begin m handle;
  Some (if (flush : bool) then publish m else m).

(** What the traversal passes to the callback for one chunk; [None] at the end. *)
Definition traverse_call (m : miso) (index block_count : Z) (status : block_status) :
    option (option (list (list Z))) :=
  let count := aligned_blocks_count_ m in
  match status with
  | invalid =>
      _ ← debug_assert (count <? index + block_count);
      _ ← debug_assert (block_count <=? count);
      Some (Some [])
  | unused => Some None
  | used =>
      _ ← debug_assert (index + block_count <=? count);
      size ← get_data_size (aligned_blocks_ m) index;
      payload ← load (aligned_blocks_ m) (data_addr index) size;
      Some (Some [payload])
  end.

(** The payloads passed to the callback, first to last. *)
Fixpoint traverse_loop (fuel : nat) (m : miso) (cursor : Z) : option (list (list Z)) :=
  match fuel with
  | O => None
  | S fuel =>
      let count := aligned_blocks_count_ m in
      let index := cursor_to_index count cursor in
      code ← get_status (aligned_blocks_ m) index;
      block_count ← get_block_num (aligned_blocks_ m) index;
      status ← status_of_code code;
      call ← traverse_call m index block_count status;
      let cursor := u32 (cursor + block_count) in
      if bool_decide (call = None) || (count <=? u32 (cursor - read_cursor_ m))
      then Some (default [] call)
      else rest ← traverse_loop fuel m cursor; Some (default [] call ++ rest)
  end.

Definition data_traverse (fuel : nat) (m : miso) : option (list (list Z)) :=
  traverse_loop fuel m (read_cursor_ m).

End Operations.

(** ** Creation and recovery *)

(** The size of the blocks area, from the configured size. *)
Definition buffer_size (default_buffer_size : Z) : Z :=
  Z.max (u32 (16 * CACHE_LINE_SIZE)) (round_pow_of_two default_buffer_size).

(** [init_with_memory] and [init_with_memory_map] differ in the checksum they store, 0 in
    the first and that of the configuration in the second; both report
    [init_with_memory]. *)
Definition init_blocks (m : miso) (checksum : Z) : option miso :=
  d ← clear_loop (Z.to_nat (aligned_blocks_count_ m)) (fun i => i) 0 (aligned_blocks_ m);
  Some (mk_miso 0 0 (mk_head 0 0 checksum (replicate (length (mmap_misc_data_ (head_ m))) 0))
          (aligned_blocks_count_ m) d init_with_memory).

Definition init_with_memory_ (m : miso) : option miso := init_blocks m 0.
Definition init_with_memory_map (m : miso) (checksum : Z) : option miso := init_blocks m checksum.

(** One chunk of the recovery scan: the cursor after it; [Some None] is [return false]. The
    sizes are computed in 64 bits. *)
Definition recover_turn (count : Z) (blocks : list Z) (cursor : Z) : option (option (Z * bool)) :=
  let index := cursor_to_index count cursor in
  block_num ← get_block_num blocks index;
  data_size ← get_data_size blocks index;
  code ← get_status blocks index;
  match status_of_code code with
  | Some used =>
      let most := u64 (block_num * BLOCK_SIZE - data_block_offset) in
      let least := if block_num =? 1 then 0
                   else u64 (block_num * BLOCK_SIZE - BLOCK_SIZE - data_block_offset) in
      if count <? index + block_num then Some None
      else if (most <? data_size) || (data_size <=? least) then Some None
      else Some (Some (u32 (cursor + block_num), false))
  | Some invalid =>
      let cursor := u32 (cursor + block_num) in
      if count <? cursor_to_index count cursor + block_num then Some None
      else Some (Some (cursor, false))
  | Some unused => Some (Some (cursor, true))
  | None => Some None
  end.

Fixpoint recover_loop (fuel : nat) (count : Z) (blocks : list Z) (start cursor : Z) :
    option (option Z) :=
  match fuel with
  | O => None
  | S fuel =>
      turn ← recover_turn count blocks cursor;
      match turn with
      | None => Some None
      | Some (cursor, finished) =>
          let total_size_parsed := u32 (cursor - start) in
          if count <? total_size_parsed then Some None
          else if finished || (total_size_parsed =? count) then Some (Some cursor)
          else recover_loop fuel count blocks start cursor
      end
  end.

(** Each turn that goes on passes a block, unless a skipped chunk claims to have none. *)
Definition recover_fuel (count : Z) : nat := S (Z.to_nat count).

(** [Some None] is [return false]. The head and the blocks are those of the memory map. *)
Definition try_recover_from_exist_memory_map (m : miso) (checksum : Z) : option (option miso) :=
  let count := aligned_blocks_count_ m in
  if negb (log_checksum_ (head_ m) =? checksum) then Some None
  else
    let start := cursor_to_index count (read_cursor_cache_ (head_ m)) in
    cursor ← recover_loop (recover_fuel count) count (aligned_blocks_ m) start start;
    match cursor with
    | None => Some None
    | Some cursor =>
        if count <? u32 (cursor - start) then Some None
        else
          d ← clear_loop (Z.to_nat (u32 (start + count) - cursor)) (cursor_to_index count) cursor
                (aligned_blocks_ m);
          Some (Some (mk_miso cursor start
                  (mk_head start start (log_checksum_ (head_ m)) (mmap_misc_data_ (head_ m)))
                  count d recover_from_memory_map))
    end.

(** The constructor: what [create_memory_map] reports and the memory it provides are
    arguments; the cursors are not initialised before. *)
Inductive create_memory_map_result := failed | use_existed | new_created.

Definition miso_ring_buffer (default_buffer_size : Z) (mmap_result : create_memory_map_result)
    (memory_head : head) (memory_blocks : list Z) (checksum : Z) : option miso :=
  let count := Z.shiftr (buffer_size default_buffer_size) CACHE_LINE_SIZE_LOG2 in
  let m := mk_miso 0 0 memory_head count memory_blocks init_with_memory in
  match mmap_result with
  | failed => init_with_memory_ m
  | use_existed =>
      r ← try_recover_from_exist_memory_map m checksum;
      match r with
      | Some m => Some m
      | None => init_with_memory_map m checksum
      end
  | new_created => init_with_memory_map m checksum
  end.

(** ** The threads

    [log] is the list of the reservations that were not taken back, oldest first. The
    positions of the chunks are unbounded: the first starts at [base], and the cursors are
    positions modulo [2^32]. A cached read cursor comes with the position it was loaded
    from. These positions, the log, the payloads each producer has sent and those the
    consumer has taken are not part of the program; no operation depends on them. *)

Inductive entry_state :=
  | E_waiting                      (* reserved, in the loop that waits for room *)
  | E_granted                      (* there is room *)
  | E_numbered                     (* the number of blocks is written *)
  | E_pending (size : Z)           (* handed to the producer *)
  | E_invalid                      (* not contiguous, skipped *)
  | E_committed (payload : list Z).

#[export] Instance entry_state_eq_dec : EqDecision entry_state.
Proof. solve_decision. Defined.

Record entry := mk_entry { e_need : Z; e_tid : nat; e_state : entry_state }.

Definition set_e_state (s : entry_state) (e : entry) : entry := mk_entry (e_need e) (e_tid e) s.

(** Where a producer is in its code, with the index of its reservation in the log and the
    position [P] of the read cursor it has seen. *)
Inductive pc :=
  | W_idle
  | W_loop (f : frame) (P : Z)
  | W_checked (f : frame) (P : Z)
  | W_settle (f : frame) (j : nat)
  | W_granted (f : frame) (P : Z) (j : nat)
  | W_numbered (f : frame) (P : Z) (j : nat)
  | W_handle (h : write_handle) (size : Z) (j : nat).

Record writer := mk_writer { w_pc : pc; w_cache : option (Z * Z); w_sent : list (list Z) }.

Inductive reader_state := R_idle | R_scan | R_chunk (h : read_handle) | R_publish.

Record sys := mk_sys {
  ring : miso;
  writers : list writer;
  reader : reader_state;
  log : list entry;
  base : Z;
  r_hist : list Z;
  taken : nat;
  consumed : list (list Z) }.

Inductive event :=
  | Start (t : nat) (size : Z) (tls : bool) (load_w : Z) (i : nat)
  | Check (t i : nat)
  | Reserve (t : nat)
  | Settle (t i : nat)
  | Number (t : nat)
  | Place (t i : nat)
  | Write (t : nat) (off : Z) (bytes : list Z)
  | Commit (t : nat)
  | Read
  | Read_empty
  | Return
  | Discard
  | Publish.

(** The position at which entry [j] starts. *)
Definition need_sum (l : list entry) : Z := foldr (fun e s => e_need e + s) 0 l.
Definition position (b : Z) (l : list entry) (j : nat) : Z := b + need_sum (take j l).
Definition pos (s : sys) (j : nat) : Z := position (base s) (log s) j.
Definition last_pos (s : sys) : Z := pos s (length (log s)).

Definition set_writer (t : nat) (w : writer) (s : sys) : sys :=
  mk_sys (ring s) (<[t := w]> (writers s)) (reader s) (log s) (base s) (r_hist s) (taken s) (consumed s).
Definition set_ring (m : miso) (s : sys) : sys :=
  mk_sys m (writers s) (reader s) (log s) (base s) (r_hist s) (taken s) (consumed s).
Definition set_log (l : list entry) (s : sys) : sys :=
  mk_sys (ring s) (writers s) (reader s) l (base s) (r_hist s) (taken s) (consumed s).
Definition set_reader (r : reader_state) (s : sys) : sys :=
  mk_sys (ring s) (writers s) r (log s) (base s) (r_hist s) (taken s) (consumed s).

(** [read_cursor_ref] may be the thread-local cache. *)
Definition keep_cache (f : frame) (P : Z) (old : option (Z * Z)) : option (Z * Z) :=
  if f_tls f then Some (f_read f, P) else old.

Definition mark (j : nat) (st : entry_state) (s : sys) : sys :=
  set_log (alter (set_e_state st) j (log s)) s.

Section System.
Context (debug : bool).

(** The events of producer [t], in the state [w]. *)
Definition writer_step (s : sys) (t : nat) (w : writer) (e : event) : option sys :=
  match e, w_pc w with
  | Start _ size tls load_w i, W_idle =>
      P ← r_hist s !! i;
      match need_blocks (aligned_blocks_count_ (ring s)) size with
      | None => Some s
      | Some need =>
          let '(read, P) := match (if tls then w_cache w else None) with
                            | Some c => c | None => (u32 P, P) end in
          let f := alloc_enter size need load_w read tls in
          Some (set_writer t (mk_writer (W_loop f P) (keep_cache f P (w_cache w)) (w_sent w)) s)
      end
  | Check _ i, W_loop f P0 =>
      P ← r_hist s !! i;
      let '(f', r) := alloc_check (aligned_blocks_count_ (ring s)) f (u32 P) in
      let P := if decide (f_read f' = f_read f) then P0 else P in
      let cache := keep_cache f' P (w_cache w) in
      Some (set_writer t (mk_writer (match r with Some _ => W_idle | None => W_checked f' P end) cache
                             (w_sent w)) s)
  | Reserve _, W_checked f P =>
      let '(m, f, wait) := alloc_reserve (ring s) f in
      let j := length (log s) in
      let st := if wait then E_waiting else E_granted in
      let next := if wait then W_settle f j else W_granted f P j in
      Some (set_writer t (mk_writer next (w_cache w) (w_sent w))
              (set_log (log s ++ [mk_entry (f_need f) t st]) (set_ring m s)))
  | Settle _ i, W_settle f j =>
      P ← r_hist s !! i;
      let '(m, f, r) := alloc_settle (ring s) f (u32 P) in
      let cache := keep_cache f P (w_cache w) in
      match r with
      | Again => Some (set_writer t (mk_writer (W_settle f j) cache (w_sent w)) s)
      | Granted =>
          Some (set_writer t (mk_writer (W_granted f P j) cache (w_sent w)) (mark j E_granted s))
      | Refused _ =>
          Some (set_writer t (mk_writer W_idle cache (w_sent w))
                  (set_log (take j (log s)) (set_ring m s)))
      end
  | Number _, W_granted f P j =>
      m ← alloc_number (ring s) f;
      Some (set_writer t (mk_writer (W_numbered f P j) (w_cache w) (w_sent w))
              (mark j E_numbered (set_ring m s)))
  | Place _ i, W_numbered f P0 j =>
      P ← r_hist s !! i;
      '(m, f', h) ← alloc_place (ring s) f (u32 P);
      let P := if decide (f_read f' = f_read f) then P0 else P in
      let cache := keep_cache f' P (w_cache w) in
      match h with
      | None =>
          Some (set_writer t (mk_writer (W_loop f' P) cache (w_sent w))
                  (mark j E_invalid (set_ring m s)))
      | Some h =>
          Some (set_writer t (mk_writer (W_handle h (f_size f) j) cache (w_sent w))
                  (mark j (E_pending (f_size f)) (set_ring m s)))
      end
  | Write _ off bytes, W_handle h size j =>
      d ← store (aligned_blocks_ (ring s)) (wh_data_addr h + off) bytes;
      Some (set_ring (set_blocks d (ring s)) s)
  | Commit _, W_handle h size j =>
      payload ← load (aligned_blocks_ (ring s)) (wh_data_addr h) size;
      m ← commit_write_chunk (ring s) h;
      Some (set_writer t (mk_writer W_idle (w_cache w) (w_sent w ++ [payload]))
              (mark j (E_committed payload) (set_ring m s)))
  | _, _ => None
  end.

(** The consumer's events; [taken] counts the entries of the log it has passed. *)
Definition reader_return (s : sys) (h : read_handle) : option sys :=
  '(m, flush) ← return_begin (ring s) h;
  let next : reader_state := if (flush : bool) then R_publish else R_idle in
  if decide (rh_result h = success) then
    payload ← load (aligned_blocks_ (ring s)) (rh_data_addr h) (rh_data_size h);
    Some (mk_sys m (writers s) next (log s) (base s) (r_hist s) (S (taken s))
            (consumed s ++ [payload]))
  else Some (mk_sys m (writers s) next (log s) (base s) (r_hist s) (taken s) (consumed s)).

Definition reader_step (s : sys) (e : event) : option sys :=
  match e, reader s with
  | Read, (R_idle | R_scan) =>
      '(m, h) ← read_turn debug (ring s);
      match h with
      | Some h => Some (set_reader (R_chunk h) (set_ring m s))
      | None =>
          Some (mk_sys m (writers s) R_scan (log s) (base s) (r_hist s) (S (taken s)) (consumed s))
      end
  | Read_empty, R_idle => Some (set_reader (R_chunk read_an_empty_chunk) s)
  | Return, R_chunk h => reader_return s h
  | Discard, R_chunk h => reader_return s (discard_read_chunk h)
  | Publish, R_publish =>
      Some (mk_sys (publish (ring s)) (writers s) R_idle (log s) (base s)
              (r_hist s ++ [pos s (taken s)]) (taken s) (consumed s))
  | _, _ => None
  end.

Definition event_thread (e : event) : option nat :=
  match e with
  | Start t _ _ _ _ | Check t _ | Reserve t | Settle t _ | Number t | Place t _
  | Write t _ _ | Commit t => Some t
  | _ => None
  end.

Definition step (s : sys) (e : event) : option sys :=
  match event_thread e with
  | Some t => w ← writers s !! t; writer_step s t w e
  | None => reader_step s e
  end.

End System.

(** The calling protocol. A producer writes inside its chunk; sizes leave room for the
    head of a chunk in 32 bits; fewer than [2^32] blocks are reserved between the read
    cursor a producer uses and the end of its reservation. *)
Definition enabled (s : sys) (e : event) : Prop :=
  match e with
  | Start t size tls load_w i =>
      0 <= size /\ size + data_block_offset < 2 ^ 32 /\ (i < length (r_hist s))%nat /\
      exists w, writers s !! t = Some w /\ w_pc w = W_idle
  | Check t i =>
      (i < length (r_hist s))%nat /\ exists w f P, writers s !! t = Some w /\ w_pc w = W_loop f P
  | Reserve t =>
      exists w f P, writers s !! t = Some w /\ w_pc w = W_checked f P /\
        last_pos s + f_need f - P < 2 ^ 32
  | Settle t i =>
      exists w f j P, writers s !! t = Some w /\ w_pc w = W_settle f j /\
        r_hist s !! i = Some P /\ last_pos s - P < 2 ^ 32
  | Number t => exists w f P j, writers s !! t = Some w /\ w_pc w = W_granted f P j
  | Place t i =>
      (i < length (r_hist s))%nat /\
      exists w f P j, writers s !! t = Some w /\ w_pc w = W_numbered f P j
  | Write t off bytes =>
      exists w h size j, writers s !! t = Some w /\ w_pc w = W_handle h size j /\
        0 <= off /\ off + zlen bytes <= size /\ bytes_ok bytes
  | Commit t => exists w h size j, writers s !! t = Some w /\ w_pc w = W_handle h size j
  | Read => reader s = R_idle \/ reader s = R_scan
  | Read_empty => reader s = R_idle
  | Return | Discard => exists h, reader s = R_chunk h
  | Publish => reader s = R_publish
  end.

(** A run of the protocol. *)
Inductive runs (debug : bool) : sys -> list event -> sys -> Prop :=
  | runs_nil s : runs debug s [] s
  | runs_cons s e s1 es s2 :
      enabled s e -> step debug s e = Some s1 -> runs debug s1 es s2 -> runs debug s (e :: es) s2.

(** [producers] producers around a ring in which nothing is outstanding; [l] is what the
    ring holds, [cursor] where it starts. *)
Definition initial_sys (m : miso) (producers : nat) (cursor : Z) (l : list entry) : sys :=
  mk_sys m (replicate producers (mk_writer W_idle None [])) R_idle l cursor [cursor] 0 [].
