(* ===== verification/MisoProofs.v ===== *)
(** * The multiple-producer ring buffer: invariant, order, progress, recovery

    The invariant of [Miso.v]'s system by induction on runs, and the properties of the
    ring that follow from it. *)
From stdpp Require Import base list option numbers.
From Stdlib Require Import ZArith Lia Bool.
From S2P Require Import Prelude Memory BufferDefs Miso.

(** ** Blocks and the bytes they own *)

Definition ring_blocks (N : Z) : Prop := exists k, 4 <= k <= 24 /\ N = 2 ^ k.

Lemma ring_blocks_bounds (N : Z) : ring_blocks N -> 16 <= N <= 2 ^ 24.
Proof.
  intros (k & Hk & ->). split; [change 16 with (2 ^ 4)|]; apply Z.pow_le_mono_r; lia.
Qed.

Lemma ring_index (N c : Z) : ring_blocks N -> cursor_to_index N (u32 c) = c mod N.
Proof. intros (k & Hk & ->). apply land_cursor. lia. Qed.

(** Byte [i] lies in one of the [n] blocks from position [p] on. *)
Definition own (N p n i : Z) : Prop := exists q, p <= q < p + n /\ i / 128 = q mod N.

Lemma mod_window (N a b : Z) : 0 < N -> a mod N = b mod N -> 0 <= b - a < N -> a = b.
Proof.
  intros HN E Hd. assert ((b - a) mod N = 0) as Hm.
  { rewrite Zminus_mod, E, Z.sub_diag. apply Z.mod_0_l. lia. }
  rewrite Z.mod_small in Hm by lia. lia.
Qed.

Lemma own_disjoint (N p n p' n' i : Z) :
  0 < N -> p + n <= p' -> p' + n' <= p + N -> own N p n i -> own N p' n' i -> False.
Proof.
  intros HN H1 H2 (q & Hq & E) (q' & Hq' & E').
  assert (q = q') by (apply (mod_window N); [done|congruence|lia]). lia.
Qed.

Lemma own_head (N p n i : Z) :
  1 <= n -> p mod N * 128 <= i < p mod N * 128 + 128 -> own N p n i.
Proof. intros Hn Hi. exists p. split; [lia|]. Z.to_euclidean_division_equations; lia. Qed.

Lemma own_body (N p n i : Z) :
  0 < N -> p mod N + n <= N -> p mod N * 128 <= i < (p mod N + n) * 128 -> own N p n i.
Proof.
  intros HN Hfit Hi. exists (p + (i / 128 - p mod N)).
  assert (p mod N <= i / 128 < p mod N + n) by (Z.to_euclidean_division_equations; lia).
  split; [lia|]. pose proof (Z.mod_pos_bound p N HN).
  rewrite <- (Z.mod_small (i / 128) N) at 1 by lia.
  replace (p + (i / 128 - p mod N)) with (i / 128 + (p - p mod N)) by lia.
  rewrite <- Zplus_mod_idemp_r. replace (p - p mod N) with (p / N * N)
    by (rewrite (Z.div_mod p N) at 2 by lia; lia).
  by rewrite Z.mod_mul, Z.add_0_r by lia.
Qed.

(** ** Reading and writing the head of a chunk *)

Lemma load_le_1 (mem : list Z) (off : Z) :
  0 <= off < zlen mem -> load_le mem off 1 = mem !! Z.to_nat off.
Proof.
  intros H. unfold load_le. destruct (load mem off 1) as [bs|] eqn:E.
  - pose proof (load_inv _ _ _ _ E) as (_ & _ & _ & _ & Hl). unfold zlen in Hl.
    destruct bs as [|b [|]]; simpl in Hl; try lia.
    pose proof (load_lookup _ _ _ _ 0 E ltac:(lia)) as Hb. rewrite Nat.add_0_r in Hb.
    rewrite <- Hb. simpl. rewrite le_val_cons, le_val_nil. f_equal. lia.
  - apply load_None in E. exfalso. apply E. lia.
Qed.

Lemma get_block_num_3 (blocks : list Z) (index : Z) :
  bytes_ok blocks -> 0 <= index -> index * 128 + 4 <= zlen blocks ->
  get_block_num blocks index = load_le blocks (index * 128) 3.
Proof.
  intros Hb Hi Hl. unfold get_block_num, BLOCK_SIZE, CACHE_LINE_SIZE, load_le.
  rewrite !load_Some by lia. simpl option_map. simpl mbind. f_equal.
  set (rest := drop _ _). change (Z.to_nat 4) with (3 + 1)%nat. change (Z.to_nat 3) with 3%nat.
  rewrite <- take_take_drop, le_val_app.
  assert (bytes_ok (take 3 rest)) as Hok by (by apply Forall_take, Forall_drop).
  pose proof (le_val_range _ Hok) as Hr. assert (length (take 3 rest) = 3%nat) as Hl3.
  { unfold rest, zlen in *. rewrite length_take, length_drop. lia. }
  rewrite Hl3 in *. change (256 ^ Z.of_nat 3) with (2 ^ 24) in *.
  change 0xFFFFFF with (2 ^ 24 - 1). rewrite land_mask by lia.
  rewrite Z.mul_comm, Z_mod_plus_full. cbn. f_equal. apply Z.mod_small. lia.
Qed.

(** The fields of the block at [index] in range. *)
Definition in_blocks (blocks : list Z) (index : Z) : Prop :=
  0 <= index /\ (index + 1) * 128 <= zlen blocks.

Lemma set_block_num_ok (blocks : list Z) (index n : Z) :
  in_blocks blocks index -> 0 <= n < 2 ^ 24 ->
  exists d, set_block_num blocks index n = Some d /\
    same_outside blocks d (index * 128) (index * 128 + 4) /\
    get_block_num d index = Some n /\ get_status d index = Some 0 /\
    (bytes_ok blocks -> bytes_ok d).
Proof.
  intros [H0 Hl] Hn. unfold set_block_num, get_block_num, get_status, BLOCK_SIZE, CACHE_LINE_SIZE.
  destruct (store_is_Some blocks (index * 128) (le_bytes (Z.to_nat 4) n)) as [d Hd];
    [lia|rewrite zlen_le_bytes; lia|].
  exists d. split; [exact Hd|]. split.
  { pose proof (store_same_outside _ _ _ _ Hd) as Hs. by rewrite zlen_le_bytes in Hs by lia. }
  split.
  { rewrite (load_le_store_same blocks (index * 128) 4 n d) by (lia || exact Hd). simpl. f_equal.
    change 0xFFFFFF with (2 ^ 24 - 1). rewrite land_mask by lia. by apply Z.mod_small. }
  split.
  { rewrite load_le_1 by (rewrite (store_zlen _ _ _ _ Hd); lia).
    rewrite (store_lookup _ _ _ _ _ Hd), decide_True by (rewrite zlen_le_bytes; lia).
    replace (Z.to_nat (index * 128 + 3) - Z.to_nat (index * 128))%nat with 3%nat by lia.
    rewrite lookup_le_bytes by (simpl; lia). f_equal. change (256 ^ Z.of_nat 3) with (2 ^ 24).
    by rewrite Z.div_small by lia. }
  intros Hok. eapply store_bytes_ok; [exact Hd|done|apply le_bytes_ok].
Qed.

Lemma set_status_ok (blocks : list Z) (index : Z) (st : block_status) :
  in_blocks blocks index ->
  exists d, set_status blocks index st = Some d /\
    same_outside blocks d (index * 128 + 3) (index * 128 + 4) /\
    get_status d index = Some (status_code st) /\
    (bytes_ok blocks -> bytes_ok d /\ get_block_num d index = get_block_num blocks index).
Proof.
  intros [H0 Hl]. unfold set_status, get_status, BLOCK_SIZE, CACHE_LINE_SIZE.
  destruct (store_is_Some blocks (index * 128 + 3) (le_bytes (Z.to_nat 1) (status_code st))) as [d Hd];
    [lia|rewrite zlen_le_bytes; lia|].
  pose proof (store_same_outside _ _ _ _ Hd) as Hs. rewrite zlen_le_bytes in Hs by lia.
  replace (index * 128 + 3 + 1) with (index * 128 + 4) in Hs by lia.
  exists d. split; [exact Hd|]. split; [done|]. split.
  { apply (load_le_store_same blocks _ 1 (status_code st)); [lia|destruct st; simpl; lia|exact Hd]. }
  intros Hok. assert (bytes_ok d) as Hokd.
  { eapply store_bytes_ok; [exact Hd|done|apply le_bytes_ok]. }
  split; [done|]. rewrite !get_block_num_3 by (done || lia || rewrite (store_zlen _ _ _ _ Hd); lia).
  apply (load_le_same_outside _ _ _ _ _ _ Hs). lia.
Qed.

Lemma set_data_size_ok (blocks : list Z) (index size : Z) :
  in_blocks blocks index -> 0 <= size < 2 ^ 32 ->
  exists d, set_data_size blocks index size = Some d /\
    same_outside blocks d (index * 128 + 4) (index * 128 + 8) /\
    get_data_size d index = Some size /\ (bytes_ok blocks -> bytes_ok d).
Proof.
  intros [H0 Hl] Hn. unfold set_data_size, get_data_size, BLOCK_SIZE, CACHE_LINE_SIZE.
  destruct (store_is_Some blocks (index * 128 + 4) (le_bytes (Z.to_nat 4) size)) as [d Hd];
    [lia|rewrite zlen_le_bytes; lia|].
  exists d. split; [exact Hd|]. split.
  { pose proof (store_same_outside _ _ _ _ Hd) as Hs. rewrite zlen_le_bytes in Hs by lia.
    by replace (index * 128 + 4 + 4) with (index * 128 + 8) in Hs by lia. }
  split.
  { apply (load_le_store_same blocks _ 4 size); [lia|change (256 ^ 4) with (2 ^ 32); lia|exact Hd]. }
  intros Hok. eapply store_bytes_ok; [exact Hd|done|apply le_bytes_ok].
Qed.

(** The fields of a block whose bytes are the same. *)
Lemma fields_frame (blocks d : list Z) (index a b : Z) :
  same_outside blocks d a b -> index * 128 + 128 <= a \/ b <= index * 128 ->
  get_status d index = get_status blocks index /\
  get_block_num d index = get_block_num blocks index /\
  get_data_size d index = get_data_size blocks index.
Proof.
  intros Hs Hd. unfold get_status, get_block_num, get_data_size, BLOCK_SIZE, CACHE_LINE_SIZE.
  by rewrite !(load_le_same_outside _ _ _ _ _ _ Hs) by lia.
Qed.

(** ** Positions in the log *)

Definition needs_ok (N : Z) (l : list entry) : Prop := Forall (fun e => 1 <= e_need e <= N) l.

Lemma need_sum_app (l1 l2 : list entry) : need_sum (l1 ++ l2) = need_sum l1 + need_sum l2.
Proof. induction l1 as [|e l1 IH]; simpl; lia. Qed.

Lemma position_S (b : Z) (l : list entry) (j : nat) (e : entry) :
  l !! j = Some e -> position b l (S j) = position b l j + e_need e.
Proof.
  intros H. unfold position. rewrite (take_S_r _ _ _ H), need_sum_app.
  change (need_sum [e]) with (e_need e + 0). lia.
Qed.

Lemma position_mono (N b : Z) (l : list entry) (i j : nat) :
  needs_ok N l -> (i <= j <= length l)%nat -> position b l i + (Z.of_nat j - Z.of_nat i) <= position b l j.
Proof.
  intros Hn [Hij Hj]. induction Hij as [|j Hij IH]; [lia|].
  destruct (lookup_lt_is_Some_2 l j ltac:(lia)) as [e He].
  pose proof (Forall_lookup_1 _ _ _ _ Hn He) as Hb. simpl in Hb. rewrite (position_S _ _ _ _ He).
  specialize (IH ltac:(lia)). lia.
Qed.

Lemma position_app (b : Z) (l1 l2 : list entry) (j : nat) :
  (j <= length l1)%nat -> position b (l1 ++ l2) j = position b l1 j.
Proof. intros H. unfold position. by rewrite take_app_le. Qed.

Lemma position_take (b : Z) (l : list entry) (i j : nat) :
  (i <= j)%nat -> position b (take j l) i = position b l i.
Proof. intros H. unfold position. by rewrite take_take, Nat.min_l. Qed.

Lemma need_sum_take_alter (st : entry_state) (i j : nat) (l : list entry) :
  need_sum (take j (alter (set_e_state st) i l)) = need_sum (take j l).
Proof.
  revert i j. induction l as [|e l IH]; intros [|i] [|j]; try done; simpl.
  f_equal. apply IH.
Qed.

Lemma position_alter (b : Z) (st : entry_state) (i j : nat) (l : list entry) :
  position b (alter (set_e_state st) i l) j = position b l j.
Proof. unfold position. by rewrite need_sum_take_alter. Qed.

(** ** Payloads of a log *)

Definition payload_of (e : entry) : option (list Z) :=
  match e_state e with E_committed p => Some p | _ => None end.
Definition payloads (l : list entry) : list (list Z) := omap payload_of l.
Definition sent_of (t : nat) (e : entry) : option (list Z) :=
  if decide (e_tid e = t) then payload_of e else None.
Definition sent_by (t : nat) (l : list entry) : list (list Z) := omap (sent_of t) l.

Definition finished (e : entry) : Prop :=
  match e_state e with E_invalid | E_committed _ => True | _ => False end.

(** The head of the chunk has been written. *)
Definition occupied (e : entry) : Prop :=
  match e_state e with E_waiting | E_granted => False | _ => True end.

#[export] Instance finished_dec (e : entry) : Decision (finished e).
Proof. unfold finished. destruct (e_state e); apply _. Defined.

#[export] Instance occupied_dec (e : entry) : Decision (occupied e).
Proof. unfold occupied. destruct (e_state e); apply _. Defined.

Lemma payloads_app (l1 l2 : list entry) : payloads (l1 ++ l2) = payloads l1 ++ payloads l2.
Proof. apply omap_app. Qed.

Lemma sent_by_app (t : nat) (l1 l2 : list entry) :
  sent_by t (l1 ++ l2) = sent_by t l1 ++ sent_by t l2.
Proof. apply omap_app. Qed.

Lemma sent_by_none (t : nat) (l : list entry) :
  (forall e, e ∈ l -> e_tid e <> t \/ payload_of e = None) -> sent_by t l = [].
Proof.
  induction l as [|e l IH]; intros H; [done|]. unfold sent_by. simpl. unfold sent_of at 1.
  assert ((if decide (e_tid e = t) then payload_of e else None) = None) as ->.
  { destruct (H e) as [Hn|Hn]; [left|by rewrite decide_False|case_decide; done]. }
  apply IH. intros e' He'. apply H. by right.
Qed.

(** Only the last unfinished entry of a producer changes state, so what it has sent grows
    at the end. *)
Lemma sent_by_alter (t j : nat) (n : Z) (st st' : entry_state) (l : list entry) (t' : nat) :
  l !! j = Some (mk_entry n t st) -> payload_of (mk_entry n t st) = None ->
  (forall j' e, (j < j')%nat -> l !! j' = Some e -> e_tid e <> t) ->
  sent_by t' (alter (set_e_state st') j l) =
    sent_by t' l ++ (if decide (t' = t) then option_list (payload_of (mk_entry n t st')) else []).
Proof.
  intros Hj Hnone Hlast.
  assert (exists l1 l2, l = l1 ++ mk_entry n t st :: l2 /\ length l1 = j) as (l1 & l2 & -> & <-).
  { exists (take j l), (drop (S j) l). split; [by rewrite (take_drop_middle _ _ _ Hj)|].
    rewrite length_take. pose proof (lookup_lt_Some _ _ _ Hj). lia. }
  rewrite alter_app_r_alt, Nat.sub_diag by lia. simpl alter.
  assert (sent_by t l2 = []) as Hrest.
  { apply sent_by_none. intros e He. apply list_elem_of_lookup in He as [i Hi].
    left. apply (Hlast (S (length l1) + i)%nat); [lia|].
    rewrite lookup_app_r by lia. by replace (S (length l1) + i - length l1)%nat with (S i) by lia. }
  rewrite !(sent_by_app _ l1), <- app_assoc. f_equal.
  change (?x :: ?y) with ([x] ++ y). rewrite !sent_by_app.
  unfold sent_by at 1 3. simpl. unfold sent_of. simpl e_tid.
  destruct (decide (t' = t)) as [->|Hne].
  - rewrite decide_True by done. rewrite Hrest, Hnone. unfold set_e_state. simpl.
    destruct (decide (t = t)); simpl; by destruct st'.
  - rewrite !decide_False by congruence. by rewrite app_nil_r.
Qed.

(** ** What the memory holds for an entry *)

Definition size_ok (N size n : Z) : Prop :=
  0 <= size /\ size + data_block_offset < 2 ^ 32 /\ need_blocks N size = Some n.

Lemma size_ok_bounds (N size n : Z) : ring_blocks N -> size_ok N size n ->
  1 <= n <= N /\ n < 2 ^ 24 /\ 128 * (n - 1) < size + 8 <= 128 * n.
Proof.
  intros HN (H0 & H1 & H). pose proof (ring_blocks_bounds N HN). unfold data_block_offset in *.
  unfold need_blocks, CACHE_LINE_SIZE_LOG2, CACHE_LINE_SIZE, data_block_offset,
    MAX_BLOCK_NUM_PER_CHUNK in H.
  rewrite (wrap_small 32 (size + 8)), Z.shiftr_div_pow2 in H by (unfold in_range; lia).
  replace (size + 8 + (128 - 1)) with (size + 135) in H by lia. change (2 ^ 7) with 128 in H.
  assert (0 <= (size + 135) / 128 < 2 ^ 32) by (Z.to_euclidean_division_equations; lia).
  rewrite wrap_small in H by done. destruct (_ || _) eqn:E; [done|]. injection H as <-.
  rewrite !orb_false_iff in E. Z.to_euclidean_division_equations; lia.
Qed.

Definition entry_mem (N : Z) (blocks : list Z) (p : Z) (e : entry) : Prop :=
  let index := p mod N in
  match e_state e with
  | E_waiting | E_granted => True
  | E_numbered =>
      get_block_num blocks index = Some (e_need e) /\ get_status blocks index = Some 0
  | E_invalid =>
      get_block_num blocks index = Some (e_need e) /\ get_status blocks index = Some 2 /\
      N < index + e_need e
  | E_pending size =>
      get_block_num blocks index = Some (e_need e) /\ get_status blocks index = Some 0 /\
      get_data_size blocks index = Some size /\ size_ok N size (e_need e) /\ index + e_need e <= N
  | E_committed payload =>
      get_block_num blocks index = Some (e_need e) /\ get_status blocks index = Some 1 /\
      get_data_size blocks index = Some (zlen payload) /\ size_ok N (zlen payload) (e_need e) /\
      index + e_need e <= N /\ load blocks (data_addr index) (zlen payload) = Some payload
  end.

Lemma data_addr_eq (index : Z) : data_addr index = index * 128 + 8.
Proof. done. Qed.

Lemma entry_mem_frame (N : Z) (blocks d : list Z) (p : Z) (e : entry) :
  ring_blocks N -> 1 <= e_need e -> length d = length blocks ->
  (forall i, own N p (e_need e) (Z.of_nat i) -> d !! i = blocks !! i) ->
  entry_mem N blocks p e -> entry_mem N d p e.
Proof.
  intros HN Hn Hl Hown. pose proof (ring_blocks_bounds N HN).
  pose proof (Z.mod_pos_bound p N ltac:(lia)).
  assert (forall a m, p mod N * 128 <= a -> a + m <= p mod N * 128 + 128 ->
            load d a m = load blocks a m) as Hhead.
  { intros a m Ha Hm. apply load_ext; [done|]. intros i Hi. apply Hown, own_head; lia. }
  assert (get_block_num d (p mod N) = get_block_num blocks (p mod N) /\
          get_status d (p mod N) = get_status blocks (p mod N) /\
          get_data_size d (p mod N) = get_data_size blocks (p mod N)) as (E1 & E2 & E3).
  { unfold get_block_num, get_status, get_data_size, load_le, BLOCK_SIZE, CACHE_LINE_SIZE.
    by rewrite !Hhead by lia. }
  unfold entry_mem. rewrite E1, E2, E3. destruct (e_state e) as [| | |size| |payload]; try done.
  intros (H1 & H2 & H3 & H4 & H5 & H6). split_and!; try done.
  rewrite <- H6. destruct (size_ok_bounds _ _ _ HN H4) as (_ & _ & Hs).
  apply load_ext; [done|]. intros i Hi. rewrite data_addr_eq in Hi. apply Hown, own_body; lia.
Qed.

(** ** The invariant

    [kp <= ks <= taken] are the numbers of entries whose blocks have been given back, have
    been cleared, and have been passed by the consumer. *)

Definition frame_ok (N : Z) (f : frame) : Prop := size_ok N (f_size f) (f_need f).

(** A copy of the read cursor that was right at some time before. *)
Definition seen_ok (R v P : Z) : Prop := v = u32 P /\ P <= R.

Definition entry_at (s : sys) (j t : nat) (n : Z) (st : entry_state) : Prop :=
  log s !! j = Some (mk_entry n t st).

Definition pc_ok (N R : Z) (s : sys) (t : nat) (c : pc) : Prop :=
  match c with
  | W_idle => True
  | W_loop f P | W_checked f P => frame_ok N f /\ seen_ok R (f_read f) P
  | W_settle f j =>
      frame_ok N f /\ entry_at s j t (f_need f) E_waiting /\ f_cursor f = u32 (pos s j)
  | W_granted f P j =>
      frame_ok N f /\ seen_ok R (f_read f) P /\
      entry_at s j t (f_need f) E_granted /\ f_cursor f = u32 (pos s j)
  | W_numbered f P j =>
      frame_ok N f /\ seen_ok R (f_read f) P /\
      entry_at s j t (f_need f) E_numbered /\ f_cursor f = u32 (pos s j)
  | W_handle h size j =>
      wh_result h = success /\ wh_data_addr h = data_addr (pos s j mod N) /\
      exists n, entry_at s j t n (E_pending size)
  end.

Definition cache_ok (R : Z) (c : option (Z * Z)) : Prop :=
  match c with Some (v, P) => seen_ok R v P | None => True end.

Definition ticket (c : pc) : option nat :=
  match c with
  | W_settle _ j | W_granted _ _ j | W_numbered _ _ j | W_handle _ _ j => Some j
  | _ => None
  end.

Definition writer_ok (N R : Z) (s : sys) (t : nat) (w : writer) : Prop :=
  pc_ok N R s t (w_pc w) /\ cache_ok R (w_cache w) /\ w_sent w = sent_by t (log s) /\
  forall j j' e, ticket (w_pc w) = Some j -> (j < j')%nat -> log s !! j' = Some e -> e_tid e <> t.

Definition reader_ok (s : sys) (N : Z) (ks kp : nat) : Prop :=
  match reader s with
  | R_idle | R_scan => ks = kp
  | R_chunk h =>
      ks = kp /\
      (rh_result h = err_empty_log_buffer \/
       rh_result h = success /\ exists n t payload,
         entry_at s (taken s) t n (E_committed payload) /\
         rh_data_addr h = data_addr (pos s (taken s) mod N) /\ rh_data_size h = zlen payload)
  | R_publish => ks = taken s
  end.

Record inv_at (s : sys) (N : Z) (ks kp : nat) : Prop := {
  i_pow : ring_blocks N;
  i_count : aligned_blocks_count_ (ring s) = N;
  i_data : zlen (aligned_blocks_ (ring s)) = N * 128 /\ bytes_ok (aligned_blocks_ (ring s));
  i_base : 0 <= base s;
  i_needs : needs_ok N (log s);
  i_order : (kp <= ks <= taken s)%nat /\ (taken s <= length (log s))%nat;
  i_write : write_cursor_ (ring s) = u32 (last_pos s);
  i_read : read_cursor_ (ring s) = u32 (pos s kp);
  i_cache : read_cursor_cache_ (head_ (ring s)) = u32 (pos s (taken s));
  i_start : read_cursor_start_cache_ (head_ (ring s)) = u32 (pos s ks);
  i_room : forall j e, log s !! j = Some e -> e_state e <> E_waiting ->
    pos s (S j) < pos s kp + N;
  i_free : forall p, pos s ks <= p < pos s ks + N ->
    (forall j e, log s !! j = Some e -> occupied e -> ~ (pos s j <= p < pos s (S j))) ->
    get_status (aligned_blocks_ (ring s)) (p mod N) = Some 0;
  i_mem : forall j e, (taken s <= j)%nat -> log s !! j = Some e ->
    entry_mem N (aligned_blocks_ (ring s)) (pos s j) e;
  i_done : forall j e, (j < taken s)%nat -> log s !! j = Some e -> finished e;
  i_consumed : consumed s = payloads (take (taken s) (log s));
  i_hist : Forall (fun P => P <= pos s kp) (r_hist s) /\ exists l, r_hist s = l ++ [pos s kp];
  i_writers : forall t w, writers s !! t = Some w -> writer_ok N (pos s kp) s t w;
  i_tickets : forall j e, log s !! j = Some e -> ~ finished e ->
    exists w, writers s !! e_tid e = Some w /\ ticket (w_pc w) = Some j;
  i_reader : reader_ok s N ks kp }.

Definition inv (s : sys) : Prop := exists N ks kp, inv_at s N ks kp.

(** *** Consequences *)

Section Consequences.
Context (s : sys) (N : Z) (ks kp : nat) (Hi : inv_at s N ks kp).

Lemma N_bounds : 16 <= N <= 2 ^ 24.
Proof using Hi. apply ring_blocks_bounds, (i_pow _ _ _ _ Hi). Qed.

Lemma pos_le (i j : nat) : (i <= j <= length (log s))%nat -> pos s i <= pos s j.
Proof using Hi.
  intros H. pose proof (position_mono N (base s) (log s) i j (i_needs _ _ _ _ Hi) H).
  unfold pos. lia.
Qed.

Lemma pos_next (j : nat) (e : entry) :
  log s !! j = Some e -> pos s (S j) = pos s j + e_need e /\ 1 <= e_need e <= N /\
  (j < length (log s))%nat.
Proof using Hi.
  intros H. split; [by apply position_S|]. split; [|by eapply lookup_lt_Some].
  exact (Forall_lookup_1 _ _ _ _ (i_needs _ _ _ _ Hi) H).
Qed.

Lemma ticket_entry (t : nat) (w : writer) (j : nat) :
  writers s !! t = Some w -> ticket (w_pc w) = Some j ->
  exists n st, entry_at s j t n st /\ ~ finished (mk_entry n t st) /\ (taken s <= j)%nat.
Proof using Hi.
  intros Hw Ht. destruct (i_writers _ _ _ _ Hi t w Hw) as (Hpc & _).
  assert (exists n st, entry_at s j t n st /\ ~ finished (mk_entry n t st)) as (n & st & He & Hf).
  { destruct (w_pc w); simpl in *; simplify_eq; naive_solver. }
  exists n, st. split; [done|]. split; [done|].
  destruct (decide (taken s <= j)%nat) as [|Hlt]; [done|].
  exfalso. apply Hf. apply (i_done _ _ _ _ Hi j); [lia|done].
Qed.

(** A producer has at most one unfinished entry, its ticket. *)
Lemma entry_ticket (t : nat) (w : writer) (j : nat) (n : Z) (st : entry_state) :
  writers s !! t = Some w -> entry_at s j t n st -> ~ finished (mk_entry n t st) ->
  ticket (w_pc w) = Some j.
Proof using Hi.
  intros Hw He Hf. destruct (i_tickets _ _ _ _ Hi j _ He Hf) as (w' & Hw' & Ht).
  simpl in Hw'. congruence.
Qed.

Lemma index_in_blocks (p : Z) : in_blocks (aligned_blocks_ (ring s)) (p mod N).
Proof using Hi.
  pose proof N_bounds. pose proof (Z.mod_pos_bound p N ltac:(lia)).
  destruct (i_data _ _ _ _ Hi) as [Hl _]. unfold in_blocks. lia.
Qed.

Lemma pos_index (j : nat) : cursor_to_index (aligned_blocks_count_ (ring s)) (u32 (pos s j)) = pos s j mod N.
Proof using Hi. rewrite (i_count _ _ _ _ Hi). apply ring_index, (i_pow _ _ _ _ Hi). Qed.

End Consequences.

(** *** Changes of one producer *)

(** The lookups of a list of producers after one changed. *)
Lemma writers_insert (ws : list writer) (t t' : nat) (w w' x : writer) :
  ws !! t = Some w -> <[t := w']> ws !! t' = Some x ->
  t' = t /\ x = w' \/ t' <> t /\ ws !! t' = Some x.
Proof.
  intros Hw H. destruct (decide (t' = t)) as [->|Hne].
  - rewrite list_lookup_insert_eq in H by (by eapply lookup_lt_Some). left. naive_solver.
  - rewrite list_lookup_insert_ne in H by done. by right.
Qed.

Lemma pc_ok_same_log (N R : Z) (s s' : sys) (t : nat) (c : pc) :
  log s' = log s -> base s' = base s -> pc_ok N R s t c -> pc_ok N R s' t c.
Proof. unfold pc_ok, entry_at, pos. intros -> ->. done. Qed.

(** A producer moves without touching the ring or the log. *)
Lemma inv_writer (s : sys) (N : Z) (ks kp t : nat) (w w' : writer) :
  inv_at s N ks kp -> writers s !! t = Some w ->
  ticket (w_pc w') = ticket (w_pc w) -> writer_ok N (pos s kp) s t w' ->
  inv_at (set_writer t w' s) N ks kp.
Proof.
  intros Hi Hw Ht Hok. destruct Hi. split; try done.
  - intros t' x Hx. destruct (writers_insert _ _ _ _ _ _ Hw Hx) as [[-> ->]|[_ Hx']]; [done|].
    by apply i_writers0.
  - intros j e He Hf. destruct (i_tickets0 j e He Hf) as (x & Hx & Hj). simpl.
    destruct (decide (e_tid e = t)) as [E|E].
    + exists w'. rewrite E, list_lookup_insert_eq by (by eapply lookup_lt_Some).
      split; [done|]. rewrite Ht. congruence.
    + exists x. by rewrite list_lookup_insert_ne.
Qed.

(** The other entries of the log after one changed its state. *)
Lemma mark_lookup (l : list entry) (j j' : nat) (n : Z) (t : nat) (st st' : entry_state) (e : entry) :
  l !! j = Some (mk_entry n t st) -> alter (set_e_state st') j l !! j' = Some e ->
  j' = j /\ e = mk_entry n t st' \/ j' <> j /\ l !! j' = Some e.
Proof.
  intros Hj H. destruct (decide (j' = j)) as [->|Hne].
  - rewrite list_lookup_alter_eq, Hj in H. left. split; [done|]. by injection H as <-.
  - rewrite list_lookup_alter_ne in H by done. by right.
Qed.

Lemma mark_lookup_ne (l : list entry) (j j' : nat) (st' : entry_state) :
  j' <> j -> alter (set_e_state st') j l !! j' = l !! j'.
Proof. intros H. by apply list_lookup_alter_ne. Qed.

Lemma take_alter_ge (j k : nat) (st : entry_state) (l : list entry) :
  (k <= j)%nat -> take k (alter (set_e_state st) j l) = take k l.
Proof.
  intros H. apply list_eq. intros i. destruct (decide (i < k)%nat).
  - rewrite !lookup_take_lt by done. apply list_lookup_alter_ne. lia.
  - by rewrite !lookup_take_ge by lia.
Qed.

(** The blocks of two entries that both fit do not meet. *)
Lemma entries_disjoint (s : sys) (N : Z) (ks kp j j' : nat) (e e' : entry) (i : Z) :
  inv_at s N ks kp -> (kp <= j)%nat -> (kp <= j')%nat -> j <> j' ->
  log s !! j = Some e -> log s !! j' = Some e' ->
  pos s (S j) < pos s kp + N -> pos s (S j') < pos s kp + N ->
  own N (pos s j) (e_need e) i -> own N (pos s j') (e_need e') i -> False.
Proof.
  intros Hi Hk Hk' Hne He He' Hr Hr' Ho Ho'. pose proof (N_bounds _ _ _ _ Hi).
  destruct (pos_next _ _ _ _ Hi _ _ He) as (E & ? & Hl).
  destruct (pos_next _ _ _ _ Hi _ _ He') as (E' & ? & Hl').
  pose proof (pos_le _ _ _ _ Hi kp j ltac:(lia)). pose proof (pos_le _ _ _ _ Hi kp j' ltac:(lia)).
  destruct (decide (j < j')%nat).
  - pose proof (pos_le _ _ _ _ Hi (S j) j' ltac:(lia)).
    apply (own_disjoint N (pos s j) (e_need e) (pos s j') (e_need e') i); try done; lia.
  - pose proof (pos_le _ _ _ _ Hi (S j') j ltac:(lia)).
    apply (own_disjoint N (pos s j') (e_need e') (pos s j) (e_need e) i); try done; lia.
Qed.

(** The block of a position outside an entry that fits is not one of the entry's. *)
Lemma free_not_own (s : sys) (N : Z) (ks kp j : nat) (e : entry) (p i : Z) :
  inv_at s N ks kp -> (ks <= j)%nat -> log s !! j = Some e ->
  pos s (S j) < pos s kp + N -> pos s ks <= p < pos s ks + N ->
  ~ (pos s j <= p < pos s (S j)) -> p mod N * 128 <= i < p mod N * 128 + 128 ->
  ~ own N (pos s j) (e_need e) i.
Proof.
  intros Hi Hj He Hr Hp Hout Hin (q & Hq & E). pose proof (N_bounds _ _ _ _ Hi).
  destruct (pos_next _ _ _ _ Hi _ _ He) as (E' & ? & Hl).
  destruct (i_order _ _ _ _ Hi) as [Ho Ho'].
  pose proof (pos_le _ _ _ _ Hi ks j ltac:(lia)). pose proof (pos_le _ _ _ _ Hi kp ks ltac:(lia)).
  assert (p mod N = q mod N) as Em by (rewrite <- E; Z.to_euclidean_division_equations; lia).
  destruct (decide (p <= q)).
  - assert (p = q) by (apply (mod_window N); [lia|done|lia]). lia.
  - assert (q = p) by (apply (mod_window N); [lia|done|lia]). lia.
Qed.

(** A producer works on its own entry: it writes in the blocks of the entry and moves the
    entry to the state [st']. *)
Section Entry.
Context (s : sys) (N : Z) (ks kp t j : nat) (w w' : writer) (n : Z) (st st' : entry_state)
  (d : list Z).
Context (Hi : inv_at s N ks kp) (Hw : writers s !! t = Some w) (Ht : ticket (w_pc w) = Some j)
  (He : entry_at s j t n st) (Hf : ~ finished (mk_entry n t st)).
Context (Hst : st' <> E_waiting) (Hroom : pos s (S j) < pos s kp + N)
  (Hdl : length d = length (aligned_blocks_ (ring s))) (Hdok : bytes_ok d)
  (Hsame : forall i, ~ own N (pos s j) n (Z.of_nat i) -> d !! i = aligned_blocks_ (ring s) !! i)
  (Hocc : occupied (mk_entry n t st') \/
          ~ occupied (mk_entry n t st) /\ d = aligned_blocks_ (ring s))
  (Hmem : entry_mem N d (pos s j) (mk_entry n t st')).

Local Abbreviation s' := (set_writer t w' (mark j st' (set_ring (set_blocks d (ring s)) s))).

Lemma mark_pos (i : nat) : pos s' i = pos s i.
Proof. unfold pos. simpl. apply position_alter. Qed.

Lemma mark_free (p : Z) : pos s ks <= p < pos s ks + N ->
  (forall j' e, log s' !! j' = Some e -> occupied e -> ~ (pos s j' <= p < pos s (S j'))) ->
  get_status d (p mod N) = Some 0.
Proof using All.
  intros Hp Hout.
  destruct (ticket_entry _ _ _ _ Hi _ _ _ Hw Ht) as (n1 & st1 & _ & _ & Hj).
  destruct (i_order _ _ _ _ Hi) as [Ho Ho'].
  assert (forall j' e, j' <> j -> log s !! j' = Some e -> occupied e ->
            ~ (pos s j' <= p < pos s (S j'))) as Hothers.
  { intros j' e Hne He' Hoc. apply (Hout j' e); [|done]. simpl. by rewrite mark_lookup_ne. }
  destruct Hocc as [Hoc|[Hnoc Hd]].
  - assert (~ (pos s j <= p < pos s (S j))) as Hself.
    { apply (Hout j (mk_entry n t st')); [|done]. simpl.
      rewrite list_lookup_alter_eq, He. done. }
    rewrite <- (i_free _ _ _ _ Hi p Hp).
    + unfold get_status, BLOCK_SIZE, CACHE_LINE_SIZE, load_le. f_equal.
      apply load_ext; [done|]. intros i Hin. apply Hsame.
      apply (free_not_own s N ks kp j (mk_entry n t st) p); try done; lia.
    + intros j' e He' Hoc'. destruct (decide (j' = j)) as [->|Hne]; [done|by eapply Hothers].
  - rewrite Hd. apply (i_free _ _ _ _ Hi p Hp). intros j' e He' Hoc'.
    destruct (decide (j' = j)) as [->|Hne]; [|by eapply Hothers].
    unfold entry_at in He. by simplify_eq.
Qed.

Lemma mark_mem (j' : nat) (e : entry) : (taken s <= j')%nat -> log s' !! j' = Some e ->
  entry_mem N d (pos s j') e.
Proof using All.
  intros Hj' He'. simpl in He'.
  destruct (mark_lookup _ _ _ _ _ _ _ _ He He') as [[-> ->]|[Hne He0]]; [done|].
  pose proof (i_mem _ _ _ _ Hi j' e Hj' He0) as Hm.
  destruct (ticket_entry _ _ _ _ Hi _ _ _ Hw Ht) as (n1 & st1 & _ & _ & Hj).
  destruct (i_order _ _ _ _ Hi) as [Ho Ho'].
  destruct (pos_next _ _ _ _ Hi _ _ He0) as (_ & Hn & _).
  destruct (decide (e_state e = E_waiting)) as [Es|Es]; [unfold entry_mem; by rewrite Es|].
  apply (entry_mem_frame N (aligned_blocks_ (ring s))); [apply (i_pow _ _ _ _ Hi)|lia|done| |done].
  intros i Hown. apply Hsame. intros Hown'.
  apply (entries_disjoint s N ks kp j j' (mk_entry n t st) e (Z.of_nat i) Hi); try done; try lia.
  by apply (i_room _ _ _ _ Hi j' e He0).
Qed.

Context (Hpc : pc_ok N (pos s kp) s' t (w_pc w')) (Hcache : cache_ok (pos s kp) (w_cache w'))
  (Hsent : w_sent w' = w_sent w ++ option_list (payload_of (mk_entry n t st')))
  (Hticket : ticket (w_pc w') = Some j \/
             ticket (w_pc w') = None /\ finished (mk_entry n t st')).

Lemma mark_sent (t' : nat) :
  sent_by t' (log s') = sent_by t' (log s) ++
    (if decide (t' = t) then option_list (payload_of (mk_entry n t st')) else []).
Proof using All.
  simpl. apply sent_by_alter with (st := st); [done| |].
  - unfold payload_of, finished in *. simpl in *. by destruct st.
  - intros j' e Hlt He'. destruct (i_writers _ _ _ _ Hi t w Hw) as (_ & _ & _ & Hlast).
    by apply (Hlast j j' e).
Qed.

Lemma mark_writer (t' : nat) (x : writer) : writers s' !! t' = Some x ->
  writer_ok N (pos s kp) s' t' x.
Proof using All.
  intros Hx. destruct (i_writers _ _ _ _ Hi t w Hw) as (_ & _ & Hs & Hlast).
  destruct (writers_insert _ _ _ _ _ _ Hw Hx) as [[-> ->]|[Hne Hx']].
  - split; [done|]. split; [done|]. rewrite mark_sent, decide_True by done.
    split; [by rewrite Hsent, Hs|].
    intros j1 j' e Hj1 Hlt He'. destruct Hticket as [E|[E _]]; [|congruence].
    rewrite E in Hj1. injection Hj1 as <-. simpl in He'.
    rewrite mark_lookup_ne in He' by lia. by apply (Hlast j j' e).
  - destruct (i_writers _ _ _ _ Hi t' x Hx') as (Hp & Hc & Hs' & Hl').
    assert (forall j' n' st2, entry_at s j' t' n' st2 -> entry_at s' j' t' n' st2) as Hkeep.
    { intros j' n' st2 He'. unfold entry_at. simpl. rewrite mark_lookup_ne; [done|].
      intros ->. unfold entry_at in *. congruence. }
    split; [|split; [done|split]].
    + clear - Hp Hkeep. assert (forall i, pos s' i = pos s i) as Hpos by apply mark_pos.
      destruct (w_pc x); simpl in *; rewrite ?Hpos; naive_solver.
    + rewrite mark_sent, decide_False, app_nil_r by done. done.
    + intros j1 j' e Hj1 Hlt He'. simpl in He'.
      destruct (mark_lookup _ _ _ _ _ _ _ _ He He') as [[-> ->]|[_ He0]]; [by apply not_eq_sym|].
      by apply (Hl' j1 j').
Qed.

Lemma inv_entry : inv_at s' N ks kp.
Proof using All.
  destruct (i_order _ _ _ _ Hi) as [Ho Ho'].
  destruct (ticket_entry _ _ _ _ Hi _ _ _ Hw Ht) as (n1 & st1 & _ & _ & Hj).
  assert (forall i, pos s' i = pos s i) as Hpos by apply mark_pos.
  assert (length (log s') = length (log s)) as Hlen by (simpl; apply length_alter).
  split; try apply Hi.
  - simpl. split; [|done]. destruct (i_data _ _ _ _ Hi). unfold zlen in *. lia.
  - simpl. apply Forall_lookup. intros j' e He'.
    destruct (mark_lookup _ _ _ _ _ _ _ _ He He') as [[-> ->]|[_ He0]].
    + exact (Forall_lookup_1 _ _ _ _ (i_needs _ _ _ _ Hi) He).
    + exact (Forall_lookup_1 _ _ _ _ (i_needs _ _ _ _ Hi) He0).
  - rewrite Hlen. done.
  - unfold last_pos. rewrite Hpos, Hlen. apply (i_write _ _ _ _ Hi).
  - rewrite Hpos. apply (i_read _ _ _ _ Hi).
  - rewrite Hpos. apply (i_cache _ _ _ _ Hi).
  - rewrite Hpos. apply (i_start _ _ _ _ Hi).
  - intros j' e He' Hs'. rewrite !Hpos. simpl in He'.
    destruct (mark_lookup _ _ _ _ _ _ _ _ He He') as [[-> ->]|[_ He0]]; [done|].
    by apply (i_room _ _ _ _ Hi j' e).
  - intros p Hp Hout. rewrite Hpos in Hp. simpl. apply mark_free; [done|].
    intros j' e He' Hoc. rewrite <- !Hpos. by apply (Hout j' e).
  - intros j' e Hj' He'. rewrite Hpos. by apply mark_mem.
  - intros j' e Hj' He'. simpl in Hj', He'.
    destruct (mark_lookup _ _ _ _ _ _ _ _ He He') as [[-> ->]|[_ He0]]; [lia|].
    by apply (i_done _ _ _ _ Hi j').
  - simpl. rewrite take_alter_ge by done. apply (i_consumed _ _ _ _ Hi).
  - rewrite Hpos. apply (i_hist _ _ _ _ Hi).
  - intros t' x Hx. rewrite Hpos. by apply mark_writer.
  - intros j' e He' Hnf. simpl in He'.
    destruct (mark_lookup _ _ _ _ _ _ _ _ He He') as [[-> ->]|[Hne He0]].
    + simpl. exists w'. rewrite list_lookup_insert_eq by (by eapply lookup_lt_Some).
      split; [done|]. destruct Hticket as [E|[_ E]]; done.
    + destruct (i_tickets _ _ _ _ Hi j' e He0 Hnf) as (x & Hx & Hj1). exists x. simpl.
      rewrite list_lookup_insert_ne; [done|]. intros Et. rewrite <- Et in Hx. congruence.
  - pose proof (i_reader _ _ _ _ Hi) as Hr. unfold reader_ok in *. simpl.
    destruct (reader s) as [| |h|]; try done.
    destruct Hr as [E [Hr|(Hr & n0 & t0 & pl & Hr1 & Hr2 & Hr3)]]; (split; [done|]); [by left|].
    right. split; [done|]. exists n0, t0, pl. rewrite Hpos. split; [|done].
    unfold entry_at in *. simpl. rewrite mark_lookup_ne; [done|].
    intros E'. rewrite E' in Hr1. rewrite He in Hr1. apply Hf.
    injection Hr1 as -> -> ->. done.
Qed.

End Entry.

(** A producer reserves at the end of the log or takes a reservation back: from index [m]
    on there are only reservations whose chunk has not been touched, all of producer [t]. *)
Section Relog.
Context (s : sys) (N : Z) (ks kp t m : nat) (w w' : writer) (l : list entry) (wc : Z).
Context (Hi : inv_at s N ks kp) (Hw : writers s !! t = Some w).
Context (Hm : (taken s <= m)%nat /\ (m <= length (log s))%nat) (Htake : take m l = take m (log s)).
Context (Hold : forall j e, (m <= j)%nat -> log s !! j = Some e -> ~ occupied e /\ e_tid e = t).
Context (Hnew : forall j e, (m <= j)%nat -> l !! j = Some e ->
  ~ occupied e /\ 1 <= e_need e <= N /\ e_tid e = t /\ ticket (w_pc w') = Some j /\
  (e_state e <> E_waiting -> position (base s) l (S j) < pos s kp + N)).
Context (Hwc : wc = u32 (position (base s) l (length l))).
Context (Hticket : forall j, ticket (w_pc w) = Some j -> (m <= j)%nat)
  (Hticket' : forall j, ticket (w_pc w') = Some j -> (m <= j)%nat /\ (length l <= S j)%nat).

Local Abbreviation s' := (set_writer t w' (set_log l (set_ring (set_write_cursor wc (ring s)) s))).

Context (Hpc : pc_ok N (pos s kp) s' t (w_pc w')) (Hcache : cache_ok (pos s kp) (w_cache w'))
  (Hsent : w_sent w' = w_sent w).

Lemma relog_pos (i : nat) : (i <= m)%nat -> pos s' i = pos s i.
Proof using Htake.
  intros H. unfold pos. simpl. rewrite <- (position_take _ l i m), Htake by done.
  by rewrite position_take.
Qed.

Lemma relog_lookup (j : nat) : (j < m)%nat -> l !! j = log s !! j.
Proof using Htake.
  intros H. rewrite <- (lookup_take_lt l m j), Htake by done. by apply lookup_take_lt.
Qed.

Lemma relog_length : (m <= length l)%nat.
Proof using Hm Htake.
  apply (f_equal length) in Htake. rewrite !length_take in Htake. lia.
Qed.

Lemma unoccupied_sent (t0 : nat) (l0 : list entry) :
  (forall j e, (m <= j)%nat -> l0 !! j = Some e -> ~ occupied e) ->
  sent_by t0 l0 = sent_by t0 (take m l0).
Proof.
  clear. intros H. rewrite <- (take_drop m l0) at 1. rewrite sent_by_app.
  rewrite (sent_by_none _ (drop m l0)), app_nil_r; [done|].
  intros e He. apply list_elem_of_lookup in He as [i Hl]. rewrite lookup_drop in Hl. right.
  specialize (H (m + i)%nat e ltac:(lia) Hl). unfold occupied, payload_of in *.
  by destruct (e_state e).
Qed.

Lemma relog_sent (t0 : nat) : sent_by t0 l = sent_by t0 (log s).
Proof using Htake Hold Hnew.
  rewrite (unoccupied_sent t0 l), (unoccupied_sent t0 (log s)), Htake; [done| |];
    intros j e Hj He; [by apply (Hold j)|by apply (Hnew j)].
Qed.

Lemma relog_occupied (j : nat) (e : entry) : log s !! j = Some e -> occupied e ->
  l !! j = Some e /\ (j < m)%nat.
Proof using Hm Htake Hold.
  intros He Hoc. destruct (decide (m <= j)%nat) as [Hge|Hlt].
  - by destruct (Hold j e Hge He).
  - rewrite relog_lookup by lia. split; [done|lia].
Qed.

Lemma relog_writer (t' : nat) (x : writer) : writers s' !! t' = Some x ->
  writer_ok N (pos s kp) s' t' x.
Proof using All.
  intros Hx. destruct (writers_insert _ _ _ _ _ _ Hw Hx) as [[-> ->]|[Hne Hx']].
  - destruct (i_writers _ _ _ _ Hi t w Hw) as (_ & _ & Hs & _). split_and!; [done..| |].
    + simpl. by rewrite relog_sent, Hsent.
    + intros j1 j e Hj1 Hlt He. simpl in He. apply lookup_lt_Some in He.
      destruct (Hticket' _ Hj1). lia.
  - destruct (i_writers _ _ _ _ Hi t' x Hx') as (Hp & Hc & Hs & Hl). split_and!; [|done| |].
    + assert (forall j n st, entry_at s j t' n st -> entry_at s' j t' n st /\ (j < m)%nat) as Hkeep.
      { intros j n st He. unfold entry_at. simpl. destruct (decide (m <= j)%nat) as [Hge|Hlt].
        - destruct (Hold j _ Hge He) as [_ E]. by simpl in E.
        - rewrite relog_lookup by lia. split; [done|lia]. }
      assert (forall j n st, entry_at s j t' n st -> pos s' j = pos s j) as Hpj.
      { intros j n st He. apply relog_pos. destruct (Hkeep _ _ _ He). lia. }
      clear - Hp Hkeep Hpj. destruct (w_pc x); simpl in *; try done.
      * destruct Hp as (? & He & ?). rewrite (Hpj _ _ _ He). by destruct (Hkeep _ _ _ He).
      * destruct Hp as (? & ? & He & ?). rewrite (Hpj _ _ _ He). by destruct (Hkeep _ _ _ He).
      * destruct Hp as (? & ? & He & ?). rewrite (Hpj _ _ _ He). by destruct (Hkeep _ _ _ He).
      * destruct Hp as (? & ? & n & He). rewrite (Hpj _ _ _ He).
        destruct (Hkeep _ _ _ He). split_and!; try done. by exists n.
    + simpl. by rewrite relog_sent.
    + intros j1 j e Hj1 Hlt He. simpl in He. destruct (decide (m <= j)%nat) as [Hge|Hlt'].
      * destruct (Hnew j e Hge He) as (_ & _ & -> & _). by apply not_eq_sym.
      * rewrite relog_lookup in He by lia. by apply (Hl j1 j).
Qed.

Lemma relog_tickets (j : nat) (e : entry) : l !! j = Some e -> ~ finished e ->
  exists x, writers s' !! e_tid e = Some x /\ ticket (w_pc x) = Some j.
Proof using All.
  intros He Hnf. simpl. destruct (decide (m <= j)%nat) as [Hge|Hlt].
  - destruct (Hnew j e Hge He) as (_ & _ & -> & Hj & _). exists w'.
    by rewrite list_lookup_insert_eq by (by eapply lookup_lt_Some).
  - rewrite relog_lookup in He by lia.
    destruct (i_tickets _ _ _ _ Hi j e He Hnf) as (x & Hx & Hj). exists x.
    rewrite list_lookup_insert_ne; [done|]. intros E. rewrite <- E in Hx.
    assert (x = w) as -> by congruence. specialize (Hticket _ Hj). lia.
Qed.

Lemma relog_reader : reader_ok s' N ks kp.
Proof using All.
  pose proof (i_reader _ _ _ _ Hi) as Hr. unfold reader_ok in *. simpl.
  destruct (reader s) as [| |h|]; try done.
  destruct Hr as [E [Hr|(Hr & n0 & t0 & pl & Hr1 & Hr2 & Hr3)]]; (split; [done|]); [by left|].
  right. split; [done|]. exists n0, t0, pl. rewrite relog_pos by lia. split; [|done].
  unfold entry_at in *. simpl. by destruct (relog_occupied _ _ Hr1).
Qed.

Lemma inv_relog : inv_at s' N ks kp.
Proof using All.
  destruct (i_order _ _ _ _ Hi) as [Ho Ho']. pose proof relog_length as Hlen.
  assert (pos s' kp = pos s kp /\ pos s' ks = pos s ks /\ pos s' (taken s) = pos s (taken s))
    as (Ekp & Eks & Etk) by (rewrite !relog_pos by lia; done).
  assert (forall j e, l !! j = Some e -> (m <= j)%nat \/ (j < m)%nat /\ log s !! j = Some e /\
            pos s' j = pos s j /\ pos s' (S j) = pos s (S j)) as Hcase.
  { intros j e He. destruct (decide (m <= j)%nat); [by left|right].
    rewrite <- relog_lookup, !relog_pos by lia. split; [lia|done]. }
  split; try apply Hi; rewrite ?Ekp, ?Eks.
  - apply Forall_lookup. intros j e He. destruct (Hcase j e He) as [Hge|(_ & He' & _)].
    + by destruct (Hnew j e Hge He) as (_ & ? & _).
    + exact (Forall_lookup_1 _ _ _ _ (i_needs _ _ _ _ Hi) He').
  - simpl. lia.
  - exact Hwc.
  - apply (i_read _ _ _ _ Hi).
  - simpl. rewrite Etk. apply (i_cache _ _ _ _ Hi).
  - apply (i_start _ _ _ _ Hi).
  - intros j e He Hst. destruct (Hcase j e He) as [Hge|(_ & He' & _ & ->)].
    + destruct (Hnew j e Hge He) as (_ & _ & _ & _ & Hroom). by apply Hroom.
    + by apply (i_room _ _ _ _ Hi j e).
  - intros p Hp Hout. apply (i_free _ _ _ _ Hi p Hp). intros j e He Hoc.
    destruct (relog_occupied j e He Hoc) as [He' Hj].
    rewrite <- !relog_pos by lia. by apply (Hout j e).
  - intros j e Hj He. destruct (Hcase j e He) as [Hge|(_ & He' & -> & _)].
    + destruct (Hnew j e Hge He) as [Hoc _]. unfold entry_mem, occupied in *.
      by destruct (e_state e).
    + by apply (i_mem _ _ _ _ Hi).
  - intros j e Hj He. simpl in Hj. destruct (Hcase j e He) as [Hge|(_ & He' & _)]; [lia|].
    by apply (i_done _ _ _ _ Hi j).
  - simpl. rewrite <- (Nat.min_l (taken s) m), <- take_take, Htake, take_take, Nat.min_l by lia.
    apply (i_consumed _ _ _ _ Hi).
  - apply (i_hist _ _ _ _ Hi).
  - exact relog_writer.
  - exact relog_tickets.
  - exact relog_reader.
Qed.

End Relog.

(** *** The producers' steps *)

Lemma cache_ok_keep (R P : Z) (f : frame) (c : option (Z * Z)) :
  seen_ok R (f_read f) P -> cache_ok R c -> cache_ok R (keep_cache f P c).
Proof. intros Hs Hc. unfold keep_cache. by destruct (f_tls f). Qed.

Lemma hist_seen (s : sys) (N : Z) (ks kp i : nat) (P : Z) :
  inv_at s N ks kp -> r_hist s !! i = Some P -> seen_ok (pos s kp) (u32 P) P.
Proof.
  intros Hi H. split; [done|]. destruct (i_hist _ _ _ _ Hi) as [Hall _].
  exact (Forall_lookup_1 _ _ _ _ Hall H).
Qed.

(** The frame after a function that may reload the read cursor. *)
Lemma reloaded_seen (R P0 P : Z) (f f' : frame) :
  seen_ok R (f_read f) P0 -> seen_ok R (u32 P) P -> f_read f' = f_read f \/ f_read f' = u32 P ->
  seen_ok R (f_read f') (if decide (f_read f' = f_read f) then P0 else P).
Proof.
  intros H0 H1 Hf. destruct (decide _) as [->|Hne]; [done|].
  destruct Hf as [| ->]; [done|exact H1].
Qed.

Section Steps.
Context (debug : bool) (s : sys) (N : Z) (ks kp : nat) (Hi : inv_at s N ks kp).

Lemma step_start (t : nat) (size : Z) (tls : bool) (load_w : Z) (i : nat) :
  enabled s (Start t size tls load_w i) ->
  exists s', step debug s (Start t size tls load_w i) = Some s' /\ inv_at s' N ks kp.
Proof using Hi.
  intros (H0 & H1 & Hl & w & Hw & Hpc). destruct (lookup_lt_is_Some_2 _ _ Hl) as [P HP].
  pose proof (hist_seen _ _ _ _ _ _ Hi HP) as Hseen.
  destruct (i_writers _ _ _ _ Hi t w Hw) as (Hok & Hcache & Hsent & Hlast).
  unfold step. simpl event_thread. cbv iota beta. rewrite Hw. cbn [mbind option_bind].
  unfold writer_step. rewrite Hpc, HP. cbn [mbind option_bind]. rewrite (i_count _ _ _ _ Hi).
  destruct (need_blocks N size) as [need|] eqn:En; [|by eexists].
  destruct (match (if tls then w_cache w else None) with Some c => c | None => (u32 P, P) end)
    as [read P'] eqn:Ec.
  assert (seen_ok (pos s kp) read P') as Hread.
  { destruct tls; [|by injection Ec as <- <-]. destruct (w_cache w) as [[v Q]|]; by simplify_eq. }
  eexists. split; [reflexivity|]. apply inv_writer with (w := w); try done.
  - simpl. by rewrite Hpc.
  - split_and!; try done. by apply cache_ok_keep.
Qed.

Lemma alloc_check_read (count : Z) (f : frame) (load_r : Z) :
  let f' := (alloc_check count f load_r).1 in
  (f' = f \/ f' = set_f_read load_r f) /\
  (f_read f' = f_read f \/ f_read f' = load_r).
Proof. unfold alloc_check. cbv zeta. destruct (_ <? _); simpl; auto. Qed.

Lemma step_check (t i : nat) : enabled s (Check t i) ->
  exists s', step debug s (Check t i) = Some s' /\ inv_at s' N ks kp.
Proof using Hi.
  intros (Hl & w & f & P0 & Hw & Hpc). destruct (lookup_lt_is_Some_2 _ _ Hl) as [P HP].
  pose proof (hist_seen _ _ _ _ _ _ Hi HP) as Hseen.
  destruct (i_writers _ _ _ _ Hi t w Hw) as (Hok & Hcache & Hsent & Hlast).
  rewrite Hpc in Hok. destruct Hok as [Hframe Hread].
  unfold step. simpl event_thread. cbv iota beta. rewrite Hw. cbn [mbind option_bind].
  unfold writer_step. rewrite Hpc, HP. cbn [mbind option_bind].
  destruct (alloc_check_read (aligned_blocks_count_ (ring s)) f (u32 P)) as [Hf' Hr'].
  destruct (alloc_check _ f (u32 P)) as [f' r]. cbv zeta in Hf', Hr'. simpl in Hf', Hr'.
  pose proof (reloaded_seen _ _ _ f f' Hread Hseen Hr') as Hread'.
  eexists. split; [reflexivity|]. apply inv_writer with (w := w); try done.
  - simpl. rewrite Hpc. by destruct r.
  - split_and!; try done.
    + simpl. destruct r; [done|]. split; [|done]. by destruct Hf' as [->| ->].
    + by apply cache_ok_keep.
    + simpl. destruct r; done.
Qed.

(** The two results of the reservation. *)
Lemma step_reserve (t : nat) : enabled s (Reserve t) ->
  exists s', step debug s (Reserve t) = Some s' /\ inv_at s' N ks kp.
Proof using Hi.
  intros (w & f & P & Hw & Hpc & Hnear).
  destruct (i_writers _ _ _ _ Hi t w Hw) as (Hok & Hcache & Hsent & Hlast).
  rewrite Hpc in Hok. destruct Hok as [Hframe [Hread HP]].
  destruct (size_ok_bounds _ _ _ (i_pow _ _ _ _ Hi) Hframe) as (Hneed & _ & _).
  destruct (i_order _ _ _ _ Hi) as [Ho Ho'].
  pose proof (pos_le _ _ _ _ Hi kp (length (log s)) ltac:(lia)) as Hle.
  fold (last_pos s) in Hle.
  assert (u32 (u32 (write_cursor_ (ring s) + f_need f) - f_read f) = last_pos s + f_need f - P) as Ediff.
  { rewrite (i_write _ _ _ _ Hi), Hread, wrap_add_l. apply u32_diff. lia. }
  unfold step. simpl event_thread. cbv iota beta. rewrite Hw. cbn [mbind option_bind].
  unfold writer_step. rewrite Hpc. unfold alloc_reserve. rewrite Ediff, (i_count _ _ _ _ Hi).
  eexists. split; [reflexivity|].
  set (st := if N <=? _ then E_waiting else E_granted).
  set (w' := mk_writer _ _ _). set (e := mk_entry _ t st).
  assert (position (base s) (log s ++ [e]) (S (length (log s))) = last_pos s + f_need f) as Hend.
  { rewrite (position_S _ _ _ e), position_app by (lia || by apply list_lookup_middle). done. }
  assert (ticket (w_pc w') = Some (length (log s))) as Htk.
  { unfold w'. simpl. by destruct (_ <=? _). }
  apply inv_relog with (m := length (log s)) (w := w); try done.
  - by rewrite take_app_length, take_ge.
  - intros j e' Hj He'. apply lookup_lt_Some in He'. lia.
  - intros j e' Hj He'. rewrite lookup_app_r in He' by done.
    apply list_lookup_singleton_Some in He' as [Hj0 <-].
    assert (j = length (log s)) as -> by lia. rewrite Hend.
    rewrite Htk. unfold e, st. simpl.
    destruct (Z.leb_spec N (last_pos s + f_need f - P)); split_and!; try done; try lia;
      first [intros []; done|intros _; lia].
  - rewrite length_app, Nat.add_1_r, Hend. by rewrite (i_write _ _ _ _ Hi), wrap_add_l.
  - by rewrite Hpc.
  - rewrite Htk, length_app. simpl. intros j [= <-]. lia.
  - match goal with |- pc_ok _ _ ?x _ _ => set (s' := x) end.
    assert (entry_at s' (length (log s)) t (f_need f) st) as Hself by (by apply list_lookup_middle).
    assert (pos s' (length (log s)) = last_pos s) as Hps by (by apply position_app).
    unfold w', st in *. destruct (N <=? _); cbn [w_pc pc_ok f_read f_need f_cursor set_f_cursor];
      by rewrite Hps, (i_write _ _ _ _ Hi).
Qed.


Lemma set_blocks_same : set_ring (set_blocks (aligned_blocks_ (ring s)) (ring s)) s = s.
Proof. by destruct s as [[] ? ? ? ? ? ? ?]. Qed.

(** The frame and entry of a producer whose reservation stands. *)
Lemma last_ticket (t j : nat) (w : writer) :
  writers s !! t = Some w -> ticket (w_pc w) = Some j -> u32 (last_pos s) = u32 (pos s (S j)) ->
  last_pos s - pos s (S j) < 2 ^ 32 -> length (log s) = S j.
Proof using Hi.
  intros Hw Ht E Hnear. destruct (ticket_entry _ _ _ _ Hi _ _ _ Hw Ht) as (n & st & He & _ & _).
  destruct (pos_next _ _ _ _ Hi _ _ He) as (_ & _ & Hl).
  pose proof (position_mono N (base s) (log s) (S j) (length (log s)) (i_needs _ _ _ _ Hi) ltac:(lia)).
  unfold last_pos, pos in *. symmetry in E. apply u32_eq_close in E; lia.
Qed.

(** What one turn of the settling loop does. *)
Lemma settle_result (t i j : nat) (w : writer) (f : frame) (P : Z) :
  writers s !! t = Some w -> w_pc w = W_settle f j -> r_hist s !! i = Some P ->
  last_pos s - P < 2 ^ 32 ->
  let r := alloc_settle (ring s) f (u32 P) in
  r.1.2 = set_f_read (u32 P) f /\
  (pos s (S j) < P + N -> r.1.1 = ring s /\ r.2 = Granted) /\
  (P + N <= pos s (S j) -> length (log s) = S j ->
    r.1.1 = set_write_cursor (u32 (pos s j)) (ring s) /\ r.2 = Refused (full_code N (f_need f))) /\
  (P + N <= pos s (S j) -> length (log s) <> S j -> r.1.1 = ring s /\ r.2 = Again).
Proof using Hi.
  intros Hw Hpc HP Hnear. destruct (i_writers _ _ _ _ Hi t w Hw) as (Hok & _ & _ & _).
  rewrite Hpc in Hok. destruct Hok as (Hframe & He & Hcur).
  assert (ticket (w_pc w) = Some j) as Ht by (by rewrite Hpc).
  destruct (hist_seen _ _ _ _ _ _ Hi HP) as [_ HPk].
  destruct (pos_next _ _ _ _ Hi _ _ He) as (Epos & Hn & Hl). simpl in Epos, Hn.
  destruct (i_order _ _ _ _ Hi) as [Ho Ho'].
  destruct (ticket_entry _ _ _ _ Hi _ _ _ Hw Ht) as (_ & _ & _ & _ & Hj).
  pose proof (pos_le _ _ _ _ Hi (S j) (length (log s)) ltac:(lia)) as Hle.
  pose proof (pos_le _ _ _ _ Hi kp j ltac:(lia)). fold (last_pos s) in Hle.
  assert (u32 (f_cursor f + f_need f) = u32 (pos s (S j))) as Enext.
  { by rewrite Hcur, wrap_add_l, Epos. }
  unfold alloc_settle. cbv zeta. simpl f_read. rewrite Enext, (i_count _ _ _ _ Hi), u32_diff by lia.
  destruct (Z.leb_spec N (pos s (S j) - P)).
  - rewrite (i_write _ _ _ _ Hi). destruct (Z.eqb_spec (u32 (last_pos s)) (u32 (pos s (S j)))) as [E|E].
    + pose proof (last_ticket t j w Hw Ht E ltac:(lia)). simpl. rewrite Hcur.
      split_and!; try done; intros; lia.
    + split_and!; try done; intros; try lia. exfalso. apply E. unfold last_pos. congruence.
  - split_and!; try done; intros; lia.
Qed.

(** The room that a fresh enough read cursor shows. *)
Lemma step_settle (t i : nat) : enabled s (Settle t i) ->
  exists s', step debug s (Settle t i) = Some s' /\ inv_at s' N ks kp.
Proof using Hi.
  intros (w & f & j & P & Hw & Hpc & HP & Hnear).
  pose proof (settle_result t i j w f P Hw Hpc HP Hnear) as (Hf & Hgrant & Hrefuse & Hagain).
  destruct (i_writers _ _ _ _ Hi t w Hw) as (Hok & Hcache & Hsent & Hlast).
  rewrite Hpc in Hok. destruct Hok as (Hframe & He & Hcur).
  pose proof (hist_seen _ _ _ _ _ _ Hi HP) as Hseen. destruct (Hseen) as [_ HPk].
  assert (ticket (w_pc w) = Some j) as Ht by (by rewrite Hpc).
  destruct (ticket_entry _ _ _ _ Hi _ _ _ Hw Ht) as (_ & _ & _ & _ & Hj).
  destruct (pos_next _ _ _ _ Hi _ _ He) as (Epos & Hn & Hl).
  unfold step. simpl event_thread. cbv iota beta. rewrite Hw. cbn [mbind option_bind].
  unfold writer_step. rewrite Hpc, HP. cbn [mbind option_bind].
  destruct (alloc_settle (ring s) f (u32 P)) as [[m f'] r]. simpl in Hf, Hgrant, Hrefuse, Hagain.
  subst f'.
  assert (cache_ok (pos s kp) (keep_cache (set_f_read (u32 P) f) P (w_cache w))) as Hcache'
    by (by apply cache_ok_keep).
  destruct (Z.lt_ge_cases (pos s (S j)) (P + N)) as [Hlt|Hge].
  { destruct (Hgrant Hlt) as [-> ->]. eexists. split; [reflexivity|].
    rewrite <- set_blocks_same at 1. apply inv_entry with (n := f_need f) (st := E_waiting) (w := w);
      try done; try (by left); try (by right); try (by apply (i_data _ _ _ _ Hi)).
    - by intros [].
    - lia.
    - right. by split; [intros []|].
    - rewrite set_blocks_same. simpl. split; [done|]. split; [done|].
      unfold pos. simpl. rewrite position_alter. split; [|done].
      unfold entry_at. simpl. by rewrite list_lookup_alter_eq, He.
    - by rewrite app_nil_r. }
  destruct (decide (length (log s) = S j)) as [Hlen|Hlen].
  { destruct (Hrefuse Hge Hlen) as [-> ->]. eexists. split; [reflexivity|].
    assert (length (take j (log s)) = j) as Hlt by (rewrite length_take; lia).
    apply inv_relog with (m := j) (w := w); try done.
    - lia.
    - by rewrite take_take, Nat.min_id.
    - intros j' e Hj' He'. pose proof (lookup_lt_Some _ _ _ He').
      assert (j' = j) as -> by lia. unfold entry_at in He. simplify_eq. split; [by intros []|done].
    - intros j' e Hj' He'. apply lookup_lt_Some in He'. lia.
    - rewrite Hlt. unfold pos. by rewrite position_take.
    - rewrite Hpc. by intros j' [= <-]. }
  destruct (Hagain Hge Hlen) as [-> ->]. eexists. split; [reflexivity|].
  apply inv_writer with (w := w); try done.
  split_and!; try done. intros j1 j' e [= <-]. by apply Hlast.
Qed.


(** The index of a granted entry, and the frame of its chunk head. *)
Lemma head_not_own (j : nat) (n a b : Z) (d : list Z) :
  1 <= n -> same_outside (aligned_blocks_ (ring s)) d a b ->
  pos s j mod N * 128 <= a -> b <= pos s j mod N * 128 + 128 ->
  length d = length (aligned_blocks_ (ring s)) /\
  forall i, ~ own N (pos s j) n (Z.of_nat i) -> d !! i = aligned_blocks_ (ring s) !! i.
Proof.
  intros Hn [Hl Hs] Ha Hb. split; [done|]. intros i Hno. apply Hs. intros Hin.
  apply Hno, own_head; lia.
Qed.

Lemma step_number (t : nat) : enabled s (Number t) ->
  exists s', step debug s (Number t) = Some s' /\ inv_at s' N ks kp.
Proof using Hi.
  intros (w & f & P & j & Hw & Hpc).
  destruct (i_writers _ _ _ _ Hi t w Hw) as (Hok & Hcache & Hsent & Hlast).
  rewrite Hpc in Hok. destruct Hok as (Hframe & Hseen & He & Hcur).
  destruct (size_ok_bounds _ _ _ (i_pow _ _ _ _ Hi) Hframe) as (Hneed & Hn24 & _).
  destruct (set_block_num_ok _ _ (f_need f) (index_in_blocks _ _ _ _ Hi (pos s j)) ltac:(lia))
    as (d & Hd & Hs & Hnum & Hst & Hbok).
  destruct (head_not_own j (f_need f) _ _ d ltac:(lia) Hs ltac:(lia) ltac:(lia)) as [Hdl Hsame].
  unfold step. simpl event_thread. cbv iota beta. rewrite Hw. cbn [mbind option_bind].
  unfold writer_step. rewrite Hpc. unfold alloc_number.
  rewrite Hcur, (pos_index _ _ _ _ Hi), Hd. cbn [mbind option_bind].
  eexists. split; [reflexivity|].
  apply inv_entry with (n := f_need f) (st := E_granted) (w := w); try done.
  - by rewrite Hpc.
  - by intros [].
  - apply (i_room _ _ _ _ Hi j _ He). done.
  - apply Hbok, (i_data _ _ _ _ Hi).
  - by left.
  - simpl. split; [done|]. split; [done|]. unfold pos. simpl. rewrite position_alter.
    split; [|done]. unfold entry_at. simpl. by rewrite list_lookup_alter_eq, He.
  - by rewrite app_nil_r.
  - by left.
Qed.

Lemma place_invalid (t i j : nat) (w : writer) (f : frame) (P0 P : Z) :
  writers s !! t = Some w -> w_pc w = W_numbered f P0 j -> N < pos s j mod N + f_need f ->
  exists m, alloc_place (ring s) f (u32 P) = Some (m, f, None) /\
    inv_at (set_writer t (mk_writer (W_loop f P0) (keep_cache f P0 (w_cache w)) (w_sent w))
              (mark j E_invalid (set_ring m s))) N ks kp.
Proof using Hi.
  intros Hw Hpc Hfit. destruct (i_writers _ _ _ _ Hi t w Hw) as (Hok & Hcache & Hsent & Hlast).
  rewrite Hpc in Hok. destruct Hok as (Hframe & Hseen & He & Hcur).
  destruct (size_ok_bounds _ _ _ (i_pow _ _ _ _ Hi) Hframe) as (Hneed & Hn24 & _).
  assert (ticket (w_pc w) = Some j) as Ht by (by rewrite Hpc).
  destruct (ticket_entry _ _ _ _ Hi _ _ _ Hw Ht) as (_ & _ & _ & _ & Hj).
  destruct (i_mem _ _ _ _ Hi j _ Hj He) as [Hnum0 Hst0].
  destruct (set_status_ok _ _ invalid (index_in_blocks _ _ _ _ Hi (pos s j)))
    as (d & Hd & Hs & Hst & Hbok).
  destruct (Hbok (proj2 (i_data _ _ _ _ Hi))) as [Hdok Hnum].
  destruct (head_not_own j (f_need f) _ _ d ltac:(lia) Hs ltac:(lia) ltac:(lia)) as [Hdl Hsame].
  unfold alloc_place. rewrite Hcur, (pos_index _ _ _ _ Hi), (i_count _ _ _ _ Hi).
  rewrite (proj2 (Z.ltb_lt _ _)), Hd by done. cbn [mbind option_bind].
  eexists. split; [reflexivity|].
  apply inv_entry with (n := f_need f) (st := E_numbered) (w := w); try done.
  - by intros [].
  - apply (i_room _ _ _ _ Hi j _ He). done.
  - by left.
  - split_and!; [by rewrite Hnum|done|done].
  - by apply cache_ok_keep.
  - by rewrite app_nil_r.
  - by right.
Qed.

Lemma place_valid (t i j : nat) (w : writer) (f : frame) (P0 P : Z) :
  writers s !! t = Some w -> w_pc w = W_numbered f P0 j -> pos s j mod N + f_need f <= N ->
  exists m f' h, alloc_place (ring s) f (u32 P) = Some (m, f', Some h) /\
    (f_read f' = f_read f \/ f_read f' = u32 P) /\
    forall c, cache_ok (pos s kp) c ->
    inv_at (set_writer t (mk_writer (W_handle h (f_size f) j) c (w_sent w))
              (mark j (E_pending (f_size f)) (set_ring m s))) N ks kp.
Proof using Hi.
  intros Hw Hpc Hfit. destruct (i_writers _ _ _ _ Hi t w Hw) as (Hok & Hcache & Hsent & Hlast).
  rewrite Hpc in Hok. destruct Hok as (Hframe & Hseen & He & Hcur).
  destruct (size_ok_bounds _ _ _ (i_pow _ _ _ _ Hi) Hframe) as (Hneed & Hn24 & _).
  assert (ticket (w_pc w) = Some j) as Ht by (by rewrite Hpc).
  destruct (ticket_entry _ _ _ _ Hi _ _ _ Hw Ht) as (_ & _ & _ & _ & Hj).
  destruct (i_mem _ _ _ _ Hi j _ Hj He) as [Hnum0 Hst0].
  pose proof (index_in_blocks _ _ _ _ Hi (pos s j)) as Hin.
  destruct (Hframe) as (Hsz & Hsz' & _). unfold data_block_offset in Hsz'.
  destruct (set_data_size_ok _ _ (f_size f) Hin ltac:(lia)) as (d & Hd & Hs & Hsize & Hbok).
  destruct (head_not_own j (f_need f) _ _ d ltac:(lia) Hs ltac:(lia) ltac:(lia)) as [Hdl Hsame].
  assert (get_block_num d (pos s j mod N) = get_block_num (aligned_blocks_ (ring s)) (pos s j mod N) /\
          get_status d (pos s j mod N) = get_status (aligned_blocks_ (ring s)) (pos s j mod N))
    as [Hnum Hst].
  { unfold get_block_num, get_status, BLOCK_SIZE, CACHE_LINE_SIZE.
    by rewrite !(load_le_same_outside _ _ _ _ _ _ Hs) by lia. }
  unfold alloc_place. rewrite Hcur, (pos_index _ _ _ _ Hi), (i_count _ _ _ _ Hi).
  rewrite (proj2 (Z.ltb_ge _ _)), Hd by done. cbn [mbind option_bind].
  do 3 eexists. split; [reflexivity|]. split.
  { cbv zeta. destruct (_ <=? _); simpl; auto. }
  intros c Hc. apply inv_entry with (n := f_need f) (st := E_numbered) (w := w); try done.
  - by intros [].
  - apply (i_room _ _ _ _ Hi j _ He). done.
  - apply Hbok, (i_data _ _ _ _ Hi).
  - by left.
  - split_and!; [by rewrite Hnum|by rewrite Hst|done..].
  - simpl. split; [done|]. unfold pos. simpl. rewrite position_alter. split; [done|].
    exists (f_need f). unfold entry_at. simpl. by rewrite list_lookup_alter_eq, He.
  - by rewrite app_nil_r.
  - by left.
Qed.

Lemma step_place (t i : nat) : enabled s (Place t i) ->
  exists s', step debug s (Place t i) = Some s' /\ inv_at s' N ks kp.
Proof using Hi.
  intros (Hl & w & f & P0 & j & Hw & Hpc). destruct (lookup_lt_is_Some_2 _ _ Hl) as [P HP].
  pose proof (hist_seen _ _ _ _ _ _ Hi HP) as Hseen.
  destruct (i_writers _ _ _ _ Hi t w Hw) as (Hok & Hcache & Hsent & Hlast).
  rewrite Hpc in Hok. destruct Hok as (_ & Hread & _).
  unfold step. simpl event_thread. cbv iota beta. rewrite Hw. cbn [mbind option_bind].
  unfold writer_step. rewrite Hpc, HP. cbn [mbind option_bind].
  destruct (Z.lt_ge_cases N (pos s j mod N + f_need f)) as [Hlt|Hge].
  - destruct (place_invalid t i j w f P0 P Hw Hpc Hlt) as (m & -> & Hinv). cbn [mbind option_bind].
    rewrite decide_True by done. eexists. by split; [reflexivity|].
  - destruct (place_valid t i j w f P0 P Hw Hpc Hge) as (m & f' & h & -> & Hf' & Hinv).
    cbn [mbind option_bind]. eexists. split; [reflexivity|]. apply Hinv, cache_ok_keep; [|done].
    by apply reloaded_seen.
Qed.


Lemma mark_same (t j : nat) (w : writer) (n : Z) (st : entry_state) (s0 : sys) :
  writers s0 !! t = Some w -> log s0 !! j = Some (mk_entry n t st) ->
  set_writer t w (mark j st s0) = s0.
Proof.
  intros Hw He. destruct s0 as [r ws rd l b rh tk co]. unfold set_writer, mark, set_log. simpl in *.
  f_equal; [by apply list_insert_id|]. apply list_eq. intros i.
  destruct (decide (i = j)) as [->|Hne].
  - by rewrite list_lookup_alter_eq, He.
  - by rewrite list_lookup_alter_ne.
Qed.

(** What a producer with a handle knows. *)
Lemma handle_entry (t j : nat) (w : writer) (h : write_handle) (size : Z) :
  writers s !! t = Some w -> w_pc w = W_handle h size j ->
  exists n, entry_at s j t n (E_pending size) /\ (taken s <= j)%nat /\
    entry_mem N (aligned_blocks_ (ring s)) (pos s j) (mk_entry n t (E_pending size)) /\
    pos s (S j) < pos s kp + N /\ 1 <= n /\ 0 <= size /\ size + 8 <= 128 * n /\
    pos s j mod N + n <= N /\
    wh_result h = success /\ wh_data_addr h = pos s j mod N * 128 + 8.
Proof using Hi.
  intros Hw Hpc. destruct (i_writers _ _ _ _ Hi t w Hw) as (Hok & _).
  rewrite Hpc in Hok. destruct Hok as (Hres & Haddr & n & He).
  assert (ticket (w_pc w) = Some j) as Ht by (by rewrite Hpc).
  destruct (ticket_entry _ _ _ _ Hi _ _ _ Hw Ht) as (_ & _ & _ & _ & Hj).
  pose proof (i_mem _ _ _ _ Hi j _ Hj He) as Hm. exists n.
  pose proof Hm as (_ & _ & _ & Hsz & Hfit). simpl in Hsz, Hfit.
  destruct (size_ok_bounds _ _ _ (i_pow _ _ _ _ Hi) Hsz) as (? & _ & ?).
  destruct Hsz as (? & _ & _). split_and!; try done; try lia.
  by apply (i_room _ _ _ _ Hi j _ He).
Qed.

Lemma miso_step_write (t : nat) (off : Z) (bytes : list Z) : enabled s (Write t off bytes) ->
  exists s', step debug s (Write t off bytes) = Some s' /\ inv_at s' N ks kp.
Proof using Hi.
  intros (w & h & size & j & Hw & Hpc & Hoff & Hend & Hbytes).
  destruct (handle_entry t j w h size Hw Hpc)
    as (n & He & Hj & Hm & Hroom & Hn & Hsz & Hsn & Hfit & Hres & Haddr).
  destruct (i_data _ _ _ _ Hi) as [Hlen Hbok]. pose proof (zlen_nonneg bytes).
  pose proof (N_bounds _ _ _ _ Hi). pose proof (Z.mod_pos_bound (pos s j) N ltac:(lia)).
  destruct (store_is_Some (aligned_blocks_ (ring s)) (wh_data_addr h + off) bytes) as [d Hd]; [lia..|].
  pose proof (store_same_outside _ _ _ _ Hd) as Hs.
  unfold step. simpl event_thread. cbv iota beta. rewrite Hw. cbn [mbind option_bind].
  unfold writer_step. rewrite Hpc, Hd. cbn [mbind option_bind]. eexists. split; [reflexivity|].
  rewrite <- (mark_same t j w n (E_pending size) (set_ring (set_blocks d (ring s)) s)) by done.
  destruct (i_writers _ _ _ _ Hi t w Hw) as (Hok & Hcache & _).
  apply inv_entry with (n := n) (st := E_pending size) (w := w); try done.
  - by rewrite Hpc.
  - by intros [].
  - by apply (store_length _ _ _ _ Hd).
  - by apply (store_bytes_ok _ _ _ _ Hd).
  - intros i Hno. apply Hs. intros Hin. apply Hno, own_body; lia.
  - by left.
  - destruct Hm as (M1 & M2 & M3 & M4 & M5). unfold entry_mem. simpl in *.
    unfold get_block_num, get_status, get_data_size, BLOCK_SIZE, CACHE_LINE_SIZE in *.
    by rewrite !(load_le_same_outside _ _ _ _ _ _ Hs) by lia.
  - apply (pc_ok_same_log _ _ s) with (c := w_pc w); [|done|done].
    simpl. apply list_eq. intros i. destruct (decide (i = j)) as [->|Hne].
    + by rewrite list_lookup_alter_eq, He.
    + by rewrite list_lookup_alter_ne.
  - by rewrite app_nil_r.
  - left. by rewrite Hpc.
Qed.

Lemma miso_step_commit (t : nat) : enabled s (Commit t) ->
  exists s', step debug s (Commit t) = Some s' /\ inv_at s' N ks kp.
Proof using Hi.
  intros (w & h & size & j & Hw & Hpc).
  destruct (handle_entry t j w h size Hw Hpc)
    as (n & He & Hj & Hm & Hroom & Hn & Hsz & Hsn & Hfit & Hres & Haddr).
  destruct (i_data _ _ _ _ Hi) as [Hlen Hbok].
  pose proof (N_bounds _ _ _ _ Hi). pose proof (Z.mod_pos_bound (pos s j) N ltac:(lia)).
  destruct (load (aligned_blocks_ (ring s)) (wh_data_addr h) size) as [payload|] eqn:Hpl.
  2:{ apply load_None in Hpl. exfalso. apply Hpl. lia. }
  assert (zlen payload = size) as Hpz by (by apply load_inv in Hpl as (_ & _ & _ & _ & ?)).
  destruct (set_status_ok _ _ used (index_in_blocks _ _ _ _ Hi (pos s j)))
    as (d & Hd & Hs & Hst & Hb). destruct (Hb Hbok) as [Hdok Hnum].
  destruct (head_not_own j n _ _ d Hn Hs ltac:(lia) ltac:(lia)) as [Hdl Hsame].
  assert (commit_write_chunk (ring s) h = Some (set_blocks d (ring s))) as Hc.
  { unfold commit_write_chunk. rewrite decide_True by done. rewrite Haddr.
    replace (_ - data_block_offset + 3) with (pos s j mod N * BLOCK_SIZE + 3)
      by (unfold data_block_offset, BLOCK_SIZE, CACHE_LINE_SIZE; lia).
    unfold set_status in Hd. by rewrite Hd. }
  unfold step. simpl event_thread. cbv iota beta. rewrite Hw. cbn [mbind option_bind].
  unfold writer_step. rewrite Hpc, Hpl. cbn [mbind option_bind]. rewrite Hc. cbn [mbind option_bind].
  eexists. split; [reflexivity|].
  destruct (i_writers _ _ _ _ Hi t w Hw) as (Hok & Hcache & _).
  apply inv_entry with (n := n) (st := E_pending size) (w := w); try done.
  - by rewrite Hpc.
  - by intros [].
  - by left.
  - destruct Hm as (M1 & M2 & M3 & M4 & M5). unfold entry_mem. simpl in *.
    rewrite Hnum, Hst, Hpz, data_addr_eq. split_and!; try done.
    + unfold get_data_size, BLOCK_SIZE, CACHE_LINE_SIZE in *.
      by rewrite (load_le_same_outside _ _ _ _ _ _ Hs) by lia.
    + rewrite (load_same_outside _ _ _ _ _ _ Hs) by lia. by rewrite <- Haddr.
  - by right.
Qed.

End Steps.

(** *** The consumer's steps *)

(** Clearing the statuses of consecutive blocks. *)
Lemma clear_loop_ok (N : Z) (n : nat) (c : Z) (blocks : list Z) :
  ring_blocks N -> zlen blocks = N * 128 -> bytes_ok blocks -> Z.of_nat n <= N ->
  exists d, clear_loop n (cursor_to_index N) (u32 c) blocks = Some d /\
    length d = length blocks /\ bytes_ok d /\
    (forall q, c <= q < c + Z.of_nat n -> get_status d (q mod N) = Some 0) /\
    (forall i, ~ own N c (Z.of_nat n) (Z.of_nat i) -> d !! i = blocks !! i).
Proof.
  intros HN. pose proof (ring_blocks_bounds N HN) as Hb.
  revert c blocks. induction n as [|n IH]; intros c blocks Hl Hok Hn.
  { exists blocks. split_and!; try done. intros; lia. }
  pose proof (Z.mod_pos_bound c N ltac:(lia)) as Hm.
  destruct (set_status_ok blocks (c mod N) unused) as (d1 & Hd1 & Hs1 & Hst1 & Hok1).
  { unfold in_blocks. lia. }
  destruct (Hok1 Hok) as [Hokd1 _]. destruct Hs1 as [Hl1 Hsame1].
  destruct (IH (c + 1) d1) as (d & Hd & Hld & Hokd & Hzero & Hsame);
    [unfold zlen in *; lia|done|lia|].
  exists d. cbn [clear_loop]. rewrite ring_index, Hd1 by done. cbn [mbind option_bind].
  rewrite wrap_add_l. split_and!; [done|lia|done| |].
  - intros q Hq. destruct (decide (q = c)) as [->|Hne]; [|apply Hzero; lia].
    transitivity (get_status d1 (c mod N)); [|exact Hst1].
    unfold get_status, load_le, BLOCK_SIZE, CACHE_LINE_SIZE. f_equal.
    apply load_ext; [done|]. intros i Hi. apply Hsame. intros (q' & Hq' & E).
    assert (i = Z.to_nat (c mod N * 128 + 3)) as -> by lia.
    assert (c mod N = q' mod N) as Em by (rewrite <- E; Z.to_euclidean_division_equations; lia).
    apply mod_window in Em; lia.
  - intros i Hno. rewrite Hsame, Hsame1; [done| |].
    + intros Hin. apply Hno. exists c. split; [lia|]. Z.to_euclidean_division_equations; lia.
    + intros (q & Hq & E). apply Hno. exists q. split; [lia|done].
Qed.

Section Reader.
Context (debug : bool) (s : sys) (N : Z) (ks kp : nat) (Hi : inv_at s N ks kp).

(** The entries before the first unfinished one fit. *)
Definition finished_to (j : nat) : Prop :=
  forall i e, (i < j)%nat -> log s !! i = Some e -> finished e.

Lemma finished_window (j : nat) :
  (ks <= j <= length (log s))%nat -> finished_to j -> pos s ks <= pos s j < pos s kp + N.
Proof using Hi.
  intros Hj Hfin. destruct (i_order _ _ _ _ Hi) as [Ho Ho']. pose proof (N_bounds _ _ _ _ Hi).
  pose proof (pos_le _ _ _ _ Hi ks j ltac:(lia)). split; [lia|].
  destruct j as [|j].
  { assert (kp = O) as Ek by lia. rewrite Ek. lia. }
  destruct (lookup_lt_is_Some_2 (log s) j ltac:(lia)) as [e He].
  pose proof (Hfin j e ltac:(lia) He) as Hf. apply (i_room _ _ _ _ Hi j e He).
  intros E. unfold finished in Hf. by rewrite E in Hf.
Qed.

Lemma finished_to_taken : finished_to (taken s).
Proof using Hi. intros i e. apply (i_done _ _ _ _ Hi). Qed.

Lemma taken_window (j : nat) : (ks <= j <= taken s)%nat -> pos s ks <= pos s j < pos s ks + N.
Proof using Hi.
  intros Hj. destruct (i_order _ _ _ _ Hi) as [Ho Ho'].
  pose proof (pos_le _ _ _ _ Hi kp ks ltac:(lia)).
  assert (finished_to j) as Hf by (intros i e Hlt; apply (i_done _ _ _ _ Hi); lia).
  pose proof (finished_window j ltac:(lia) Hf). lia.
Qed.

(** What the memory says at the start of an entry that follows finished ones. *)
Definition code_of (e : option entry) : Z :=
  match e_state <$> e with Some E_invalid => 2 | Some (E_committed _) => 1 | _ => 0 end.

Lemma status_at (j : nat) :
  (taken s <= j <= length (log s))%nat -> finished_to j ->
  get_status (aligned_blocks_ (ring s)) (pos s j mod N) = Some (code_of (log s !! j)).
Proof using Hi.
  intros Hj Hfin. destruct (i_order _ _ _ _ Hi) as [Ho Ho'].
  pose proof (finished_window j ltac:(lia) Hfin) as Hwin.
  pose proof (pos_le _ _ _ _ Hi kp ks ltac:(lia)).
  assert ((exists e, log s !! j = Some e /\ occupied e) \/
          forall e, log s !! j = Some e -> ~ occupied e) as [(e & He & Hoc)|Hfree].
  { destruct (log s !! j) as [e|]; [|by right].
    destruct (decide (occupied e)); [left; by exists e|right]. by intros ? [= <-]. }
  { rewrite He. unfold code_of. simpl.
    pose proof (i_mem _ _ _ _ Hi j e ltac:(lia) He) as Hm. unfold entry_mem, occupied in *.
    destruct (e_state e); naive_solver. }
  assert (code_of (log s !! j) = 0) as ->.
  { destruct (log s !! j) as [e|] eqn:He; [|done]. specialize (Hfree e eq_refl).
    unfold code_of, occupied in *. simpl. by destruct (e_state e). }
  apply (i_free _ _ _ _ Hi); [lia|]. intros i e He Hoc Hin.
  destruct (pos_next _ _ _ _ Hi _ _ He) as (_ & _ & Hl).
  destruct (decide (i < j)%nat).
  - pose proof (pos_le _ _ _ _ Hi (S i) j ltac:(lia)). lia.
  - destruct (decide (i = j)) as [->|]; [by apply (Hfree e)|].
    destruct (lookup_lt_is_Some_2 (log s) j ltac:(lia)) as [e0 He0].
    destruct (pos_next _ _ _ _ Hi _ _ He0) as (E0 & ? & _).
    pose proof (pos_le _ _ _ _ Hi (S j) i ltac:(lia)). lia.
Qed.

Lemma status_at_cursor :
  get_status (aligned_blocks_ (ring s)) (pos s (taken s) mod N) = Some (code_of (log s !! taken s)).
Proof using Hi.
  apply status_at; [|apply finished_to_taken]. destruct (i_order _ _ _ _ Hi). lia.
Qed.

Lemma num_at (p : Z) : exists n, get_block_num (aligned_blocks_ (ring s)) (p mod N) = Some n.
Proof using Hi.
  destruct (index_in_blocks _ _ _ _ Hi p) as [H0 H1].
  unfold get_block_num, load_le, BLOCK_SIZE, CACHE_LINE_SIZE.
  rewrite load_Some by lia. by eexists.
Qed.

(** The consumer passes the finished entry at its cursor. *)
Lemma inv_passed (e : entry) (d : list Z) (r : reader_state) :
  log s !! taken s = Some e -> finished e -> ks = kp -> r = R_idle \/ r = R_scan ->
  length d = length (aligned_blocks_ (ring s)) -> bytes_ok d ->
  (forall i, ~ own N (pos s (taken s)) (e_need e) (Z.of_nat i) ->
     d !! i = aligned_blocks_ (ring s) !! i) ->
  inv_at (mk_sys (set_read_cache (u32 (pos s (S (taken s)))) (set_blocks d (ring s))) (writers s) r
            (log s) (base s) (r_hist s) (S (taken s)) (consumed s ++ option_list (payload_of e)))
    N ks kp.
Proof using Hi.
  intros He Hfin Hk Hr Hdl Hdok Hsame. destruct (i_order _ _ _ _ Hi) as [Ho Ho'].
  destruct (pos_next _ _ _ _ Hi _ _ He) as (Epos & Hn & Hl).
  assert (e_state e <> E_waiting) as Hnw by (intros E; unfold finished in Hfin; by rewrite E in Hfin).
  assert (occupied e) as Hocc by (unfold finished, occupied in *; by destruct (e_state e)).
  pose proof (i_room _ _ _ _ Hi _ _ He Hnw) as Hroom.
  split; try apply Hi.
  - split; [|done]. destruct (i_data _ _ _ _ Hi). simpl. unfold zlen in *. lia.
  - simpl. lia.
  - done.
  - intros p Hp Hout. simpl. rewrite <- (i_free _ _ _ _ Hi p Hp Hout).
    unfold get_status, load_le, BLOCK_SIZE, CACHE_LINE_SIZE. f_equal. apply load_ext; [done|].
    intros i Hin. apply Hsame. apply (free_not_own s N ks kp (taken s) e p); try done; try lia.
    by apply (Hout (taken s) e).
  - intros j e' Hj He'. simpl in Hj, He'.
    pose proof (i_mem _ _ _ _ Hi j e' ltac:(lia) He') as Hm.
    destruct (pos_next _ _ _ _ Hi _ _ He') as (_ & Hn' & _).
    destruct (decide (e_state e' = E_waiting)) as [Es|Es]; [unfold entry_mem; by rewrite Es|].
    apply (entry_mem_frame N (aligned_blocks_ (ring s))); [apply (i_pow _ _ _ _ Hi)|lia|done| |done].
    intros i Hown. apply Hsame. intros Hown'.
    apply (entries_disjoint s N ks kp (taken s) j e e' (Z.of_nat i) Hi); try done; try lia.
    by apply (i_room _ _ _ _ Hi j e').
  - intros j e' Hj He'. simpl in Hj, He'. destruct (decide (j = taken s)) as [->|]; [congruence|].
    apply (i_done _ _ _ _ Hi j); [lia|done].
  - simpl. rewrite (take_S_r _ _ _ He), payloads_app, (i_consumed _ _ _ _ Hi). by destruct e as [? ? []].
  - unfold reader_ok. simpl. by destruct Hr as [-> | ->].
Qed.

(** The consumer clears the blocks it has passed. *)
Lemma inv_clear (d : list Z) :
  ks = kp -> length d = length (aligned_blocks_ (ring s)) -> bytes_ok d ->
  (forall q, pos s ks <= q < pos s (taken s) -> get_status d (q mod N) = Some 0) ->
  (forall i, ~ own N (pos s ks) (pos s (taken s) - pos s ks) (Z.of_nat i) ->
     d !! i = aligned_blocks_ (ring s) !! i) ->
  inv_at (mk_sys (set_start_cache (u32 (pos s (taken s))) (set_blocks d (ring s))) (writers s)
            R_publish (log s) (base s) (r_hist s) (taken s) (consumed s)) N (taken s) kp.
Proof using Hi.
  intros Hk Hdl Hdok Hzero Hsame. destruct (i_order _ _ _ _ Hi) as [Ho Ho'].
  pose proof (N_bounds _ _ _ _ Hi). pose proof (taken_window (taken s) ltac:(lia)) as Hwin.
  split; try apply Hi.
  - split; [|done]. destruct (i_data _ _ _ _ Hi). simpl. unfold zlen in *. lia.
  - simpl. lia.
  - done.
  - intros p Hp Hout. simpl in *. change (pos _ ?j) with (pos s j) in *.
    destruct (Z.lt_ge_cases p (pos s ks + N)) as [Hlt|Hge].
    + rewrite <- (i_free _ _ _ _ Hi p ltac:(lia) Hout).
      unfold get_status, load_le, BLOCK_SIZE, CACHE_LINE_SIZE. f_equal. apply load_ext; [done|].
      intros i Hin. apply Hsame. intros (q & Hq & E).
      assert (q mod N = p mod N) as Em by (rewrite <- E; Z.to_euclidean_division_equations; lia).
      apply mod_window in Em; lia.
    + replace p with (p - N + 1 * N) by lia. rewrite Z_mod_plus_full. apply Hzero. lia.
  - intros j e Hj He. simpl in Hj, He. change (pos _ ?j) with (pos s j).
    pose proof (i_mem _ _ _ _ Hi j e ltac:(lia) He) as Hm.
    destruct (pos_next _ _ _ _ Hi _ _ He) as (Ej & Hn & Hl).
    destruct (decide (e_state e = E_waiting)) as [Es|Es]; [unfold entry_mem; by rewrite Es|].
    pose proof (i_room _ _ _ _ Hi j e He Es). pose proof (pos_le _ _ _ _ Hi (taken s) j ltac:(lia)).
    apply (entry_mem_frame N (aligned_blocks_ (ring s))); [apply (i_pow _ _ _ _ Hi)|lia|done| |done].
    intros i Hown. apply Hsame. intros Hown'.
    apply (own_disjoint N (pos s ks) (pos s (taken s) - pos s ks) (pos s j) (e_need e) (Z.of_nat i));
      try done; subst; lia.
  - done.
Qed.

(** The two ends of [return_read_chunk]: nothing to flush, or the passed blocks cleared and
    the read cursor to be published. *)
Lemma flush_ok (need_flush : bool) :
  ks = kp -> reader s = R_idle ->
  exists m flush,
    (if need_flush then
       let block_count := u32 (read_cursor_cache_ (head_ (ring s)) - u32 (pos s ks)) in
       if 0 <? block_count then
         d ← clear_loop (Z.to_nat block_count) (cursor_to_index (aligned_blocks_count_ (ring s)))
               (u32 (pos s ks)) (aligned_blocks_ (ring s));
         Some (set_start_cache (read_cursor_cache_ (head_ (ring s))) (set_blocks d (ring s)), true)
       else Some (ring s, false)
     else Some (ring s, false)) = Some (m, flush) /\
    exists ks', inv_at (mk_sys m (writers s) (if flush : bool then R_publish else R_idle) (log s)
                          (base s) (r_hist s) (taken s) (consumed s)) N ks' kp.
Proof using Hi.
  intros Hk Hr. destruct (i_order _ _ _ _ Hi) as [Ho Ho']. pose proof (N_bounds _ _ _ _ Hi).
  pose proof (taken_window (taken s) ltac:(lia)) as Hwin.
  assert (exists ks', inv_at (mk_sys (ring s) (writers s) R_idle (log s) (base s) (r_hist s) (taken s)
            (consumed s)) N ks' kp) as Hsame.
  { exists ks. rewrite <- Hr. clear - Hi. by destruct s. }
  destruct need_flush; [|by do 2 eexists]. cbv zeta.
  rewrite (i_cache _ _ _ _ Hi), u32_diff by lia.
  destruct (Z.ltb_spec 0 (pos s (taken s) - pos s ks)); [|by do 2 eexists].
  destruct (i_data _ _ _ _ Hi) as [Hl Hok].
  destruct (clear_loop_ok N (Z.to_nat (pos s (taken s) - pos s ks)) (pos s ks) (aligned_blocks_ (ring s)))
    as (d & Hd & Hdl & Hdok & Hzero & Hout); [apply (i_pow _ _ _ _ Hi)|done|done|lia|].
  rewrite (i_count _ _ _ _ Hi), Hd. cbn [mbind option_bind]. do 2 eexists. split; [reflexivity|].
  exists (taken s). rewrite Z2Nat.id in Hout, Hzero by lia. apply inv_clear; try done.
  intros q Hq. apply Hzero. lia.
Qed.


(** What one turn of [read_chunk] does. *)
Lemma read_turn_result :
  match e_state <$> log s !! taken s with
  | Some E_invalid =>
      exists d, read_turn debug (ring s) =
        Some (set_read_cache (u32 (pos s (S (taken s)))) (set_blocks d (ring s)), None) /\
        length d = length (aligned_blocks_ (ring s)) /\ bytes_ok d /\
        forall e i, log s !! taken s = Some e ->
          ~ own N (pos s (taken s)) (e_need e) (Z.of_nat i) -> d !! i = aligned_blocks_ (ring s) !! i
  | Some (E_committed payload) =>
      read_turn debug (ring s) =
        Some (ring s, Some (mk_read_handle (data_addr (pos s (taken s) mod N)) (zlen payload) success))
  | _ => read_turn debug (ring s) = Some (ring s, Some no_read)
  end.
Proof using Hi.
  unfold read_turn. rewrite (i_cache _ _ _ _ Hi), (pos_index _ _ _ _ Hi), (i_count _ _ _ _ Hi).
  rewrite status_at_cursor. destruct (num_at (pos s (taken s))) as [n0 Hn0]. rewrite Hn0. cbn [mbind option_bind].
  destruct (log s !! taken s) as [e|] eqn:He; [|done].
  pose proof (i_mem _ _ _ _ Hi (taken s) e ltac:(lia) He) as Hm.
  destruct (pos_next _ _ _ _ Hi _ _ He) as (Epos & Hn & _).
  unfold entry_mem in Hm. unfold code_of. cbn [fmap option_fmap option_map].
  destruct (e_state e) as [| | |size| |payload] eqn:Es; try done; cbn [status_of_code Z.eqb].
  - destruct Hm as (Hnum & _ & Hfit). assert (n0 = e_need e) as -> by congruence.
    destruct (set_status_ok _ _ unused (index_in_blocks _ _ _ _ Hi (pos s (taken s))))
      as (d & Hd & Hs & _ & Hok). destruct (Hok (proj2 (i_data _ _ _ _ Hi))) as [Hdok _].
    exists d. unfold debug_assert, status_of_code. simpl.
    rewrite (proj2 (Z.ltb_lt _ _)), (proj2 (Z.leb_le _ _)), andb_false_r by lia.
    cbn [mbind option_bind]. rewrite Hd. cbn [mbind option_bind]. rewrite wrap_add_l, <- Epos.
    split; [done|]. split; [apply Hs|]. split; [done|]. intros e0 i [= <-] Hno.
    apply (proj2 (head_not_own s N (taken s) (e_need e) _ _ d ltac:(lia) Hs ltac:(lia) ltac:(lia))), Hno.
  - destruct Hm as (Hnum & _ & Hsize & _ & Hfit & _). assert (n0 = e_need e) as -> by congruence.
    unfold debug_assert, status_of_code. simpl. rewrite (proj2 (Z.leb_le _ _)), andb_false_r by lia.
    cbn [mbind option_bind]. by rewrite Hsize.
Qed.

Lemma miso_step_read : enabled s Read ->
  exists s', step debug s Read = Some s' /\ inv_at s' N ks kp.
Proof using Hi.
  intros Hen. assert (ks = kp) as Hk.
  { pose proof (i_reader _ _ _ _ Hi) as Hr. unfold reader_ok in Hr. by destruct Hen as [E|E]; rewrite E in Hr. }
  pose proof read_turn_result as Hres. unfold step. simpl event_thread. cbv iota beta. unfold reader_step.
  assert (forall h, rh_result h = err_empty_log_buffer \/
            (exists e payload, log s !! taken s = Some e /\ e_state e = E_committed payload /\
               h = mk_read_handle (data_addr (pos s (taken s) mod N)) (zlen payload) success) ->
            inv_at (set_reader (R_chunk h) (set_ring (ring s) s)) N ks kp) as Hchunk.
  { intros h Hh. split; try apply Hi. unfold reader_ok. simpl. split; [done|].
    destruct Hh as [Hh|([n t st] & payload & He & Es & ->)]; [by left|]. right. split; [done|].
    simpl in Es. subst st. by exists n, t, payload. }
  assert (exists s', (r ← read_turn debug (ring s);
     let '(m, h) := r : miso * option read_handle in
     match h with
     | Some h => Some (set_reader (R_chunk h) (set_ring m s))
     | None => Some (mk_sys m (writers s) R_scan (log s) (base s) (r_hist s) (S (taken s)) (consumed s))
     end) = Some s' /\ inv_at s' N ks kp) as (s' & Hs & Hinv).
  { destruct (log s !! taken s) as [e|] eqn:He.
    2:{ cbn in Hres. rewrite Hres. eexists. split; [reflexivity|]. apply Hchunk. by left. }
    cbn [fmap option_fmap option_map] in Hres.
    destruct (e_state e) as [| | |size| |payload] eqn:Es.
    6:{ rewrite Hres. eexists. split; [reflexivity|]. apply Hchunk. right. by exists e, payload. }
    5:{ destruct Hres as (d & Hr & Hdl & Hdok & Hsame). rewrite Hr. eexists. split; [reflexivity|].
        rewrite <- (app_nil_r (consumed s)). assert ([] = option_list (payload_of e)) as ->
          by (unfold payload_of; by rewrite Es).
        apply inv_passed; try done; [unfold finished; by rewrite Es|by right|].
        intros i Hno. by apply (Hsame e). }
    all: rewrite Hres; eexists; (split; [reflexivity|]); apply Hchunk; by left. }
  exists s'. split; [|done]. by destruct Hen as [-> | ->].
Qed.

End Reader.

(** *** Returning a chunk *)

Lemma set_blocks_eta (m : miso) : set_blocks (aligned_blocks_ m) m = m.
Proof. by destruct m. Qed.

Section Return.
Context (debug : bool) (s : sys) (N : Z) (ks kp : nat) (Hi : inv_at s N ks kp).

(** The consumer gives up what it holds. *)
Lemma inv_idle : ks = kp -> inv_at (set_reader R_idle s) N ks kp.
Proof using Hi. intros Hk. by split; try apply Hi. Qed.

(** A chunk is returned whose handle reports an empty buffer. *)
Lemma return_empty (h : read_handle) : ks = kp -> rh_result h = err_empty_log_buffer ->
  exists s' ks', reader_return s h = Some s' /\ inv_at s' N ks' kp.
Proof using Hi.
  intros Hk Hres. unfold reader_return, return_begin, return_advance. rewrite Hres.
  cbn [mbind option_bind]. rewrite (i_start _ _ _ _ Hi).
  destruct (flush_ok _ _ _ _ (inv_idle Hk) true Hk eq_refl) as (m & flush & E & ks' & Hinv).
  simpl in E. change (pos _ ks) with (pos s ks) in E. rewrite E. cbn [mbind option_bind].
  rewrite decide_False by done. by exists (mk_sys m (writers s) (if flush then R_publish else R_idle)
    (log s) (base s) (r_hist s) (taken s) (consumed s)), ks'.
Qed.

(** The handle of a chunk designates its payload. *)
Lemma read_payload (n : Z) (t : nat) (payload : list Z) :
  entry_at s (taken s) t n (E_committed payload) ->
  load (aligned_blocks_ (ring s)) (data_addr (pos s (taken s) mod N)) (zlen payload) = Some payload /\
  get_block_num (aligned_blocks_ (ring s)) (pos s (taken s) mod N) = Some n.
Proof using Hi.
  intros He. pose proof (i_mem _ _ _ _ Hi (taken s) _ ltac:(lia) He) as Hm.
  by destruct Hm as (? & _ & _ & _ & _ & ?).
Qed.

Lemma return_chunk (h : read_handle) (n : Z) (t : nat) (payload : list Z) :
  ks = kp -> rh_result h = success -> entry_at s (taken s) t n (E_committed payload) ->
  rh_data_addr h = data_addr (pos s (taken s) mod N) -> rh_data_size h = zlen payload ->
  exists s' ks', reader_return s h = Some s' /\ inv_at s' N ks' kp.
Proof using Hi.
  intros Hk Hres He Haddr Hsize. destruct (read_payload _ _ _ He) as [Hload Hnum].
  destruct (pos_next _ _ _ _ Hi _ _ He) as (Epos & _). simpl in Epos.
  pose proof (inv_passed s N ks kp Hi _ (aligned_blocks_ (ring s)) R_idle He) as Hp.
  specialize (Hp I Hk (or_introl eq_refl) eq_refl (proj2 (i_data _ _ _ _ Hi)) (fun _ _ => eq_refl)).
  rewrite set_blocks_eta in Hp. unfold payload_of in Hp. simpl in Hp.
  destruct (i_order _ _ _ _ Hi) as [_ Ho].
  unfold reader_return, return_begin, return_advance. rewrite Hres.
  rewrite (i_start _ _ _ _ Hi), (i_cache _ _ _ _ Hi), (pos_index _ _ _ _ Hi), Hnum.
  cbn [mbind option_bind]. rewrite wrap_add_l, <- Epos.
  destruct (flush_ok _ _ _ _ Hp
    (Z.shiftr (aligned_blocks_count_ (ring s)) 2 <=? u32 (u32 (pos s (S (taken s))) - u32 (pos s ks)))
    Hk eq_refl) as (m & flush & E & ks' & Hinv).
  simpl in E. change (pos _ ks) with (pos s ks) in E. simpl. rewrite E. cbn [mbind option_bind].
  rewrite Haddr, Hsize, Hload. cbn [mbind option_bind].
  by do 2 eexists.
Qed.

Lemma miso_step_return (discard : bool) : (exists h, reader s = R_chunk h) ->
  exists s' ks', step debug s (if discard then Discard else Return) = Some s' /\ inv_at s' N ks' kp.
Proof using Hi.
  intros [h Hr]. pose proof (i_reader _ _ _ _ Hi) as Hok. unfold reader_ok in Hok. rewrite Hr in Hok.
  destruct Hok as [Hk Hok]. destruct discard.
  - destruct (return_empty (discard_read_chunk h) Hk eq_refl) as (s' & ks' & E & Hinv).
    exists s', ks'. split; [|done]. unfold step. simpl event_thread. cbv iota beta.
    unfold reader_step. by rewrite Hr.
  - assert (exists s' ks', reader_return s h = Some s' /\ inv_at s' N ks' kp) as (s' & ks' & E & Hinv).
    { destruct Hok as [He|(He & n & t & payload & H1 & H2 & H3)]; [by apply return_empty|].
      by apply (return_chunk h n t payload). }
    exists s', ks'. split; [|done]. unfold step. simpl event_thread. cbv iota beta.
    unfold reader_step. by rewrite Hr.
Qed.

Lemma miso_step_read_empty : enabled s Read_empty ->
  exists s', step debug s Read_empty = Some s' /\ inv_at s' N ks kp.
Proof using Hi.
  intros Hr. unfold step. simpl event_thread. cbv iota beta. unfold reader_step.
  simpl in Hr. rewrite Hr. eexists. split; [reflexivity|].
  pose proof (i_reader _ _ _ _ Hi) as Hok. unfold reader_ok in Hok. rewrite Hr in Hok.
  split; try apply Hi. unfold reader_ok. simpl. split; [done|]. by left.
Qed.

(** Publishing gives the producers the room that was cleared. *)
Lemma pc_ok_mono (R R' : Z) (s0 : sys) (t : nat) (c : pc) :
  R <= R' -> pc_ok N R s0 t c -> pc_ok N R' s0 t c.
Proof.
  intros HR. unfold pc_ok, seen_ok. destruct c; try done.
  - intros (? & ? & ?). split_and!; try done. lia.
  - intros (? & ? & ?). split_and!; try done. lia.
  - intros (? & (? & ?) & ? & ?). split_and!; try done. lia.
  - intros (? & (? & ?) & ? & ?). split_and!; try done. lia.
Qed.

Lemma step_publish : enabled s Publish ->
  exists s', step debug s Publish = Some s' /\ inv_at s' N (taken s) (taken s).
Proof using Hi.
  intros Hr. unfold step. simpl event_thread. cbv iota beta. unfold reader_step.
  simpl in Hr. rewrite Hr. eexists. split; [reflexivity|].
  pose proof (i_reader _ _ _ _ Hi) as Hok. unfold reader_ok in Hok. rewrite Hr in Hok.
  destruct (i_order _ _ _ _ Hi) as [Ho Ho'].
  pose proof (pos_le _ _ _ _ Hi kp (taken s) ltac:(lia)) as Hle. subst ks.
  split; try apply Hi; simpl; change (pos _ ?j) with (pos s j).
  - lia.
  - intros j e He Hst. pose proof (i_room _ _ _ _ Hi j e He Hst). lia.
  - destruct (i_hist _ _ _ _ Hi) as [Hall (l & Hlast)]. split; [|by eexists].
    apply Forall_app. split; [|constructor; [lia|constructor]].
    apply Forall_forall. intros P HP. rewrite Forall_forall in Hall. specialize (Hall P HP). lia.
  - intros t w Hw. destruct (i_writers _ _ _ _ Hi t w Hw) as (Hp & Hc & Hs & Hl).
    split_and!; try done.
    + apply (pc_ok_mono (pos s kp)); [done|]. by apply (pc_ok_same_log _ _ s).
    + unfold cache_ok, seen_ok in *. destruct (w_cache w) as [[v P]|]; [|done].
      destruct Hc. split; [done|]. lia.
  - done.
Qed.

End Return.

(** ** Every step of the protocol succeeds and keeps the invariant *)

Lemma miso_step_inv (debug : bool) (s : sys) (e : event) :
  inv s -> enabled s e -> exists s', step debug s e = Some s' /\ inv s'.
Proof.
  intros (N & ks & kp & Hi) Hen.
  assert (forall s' : sys, (exists k1 k2, inv_at s' N k1 k2) -> inv s') as Hfin
    by (intros s' (k1 & k2 & H); by exists N, k1, k2).
  destruct e.
  - destruct (step_start debug s N ks kp Hi _ _ _ _ _ Hen) as (s' & ? & ?); eauto 8.
  - destruct (step_check debug s N ks kp Hi _ _ Hen) as (s' & ? & ?); eauto 8.
  - destruct (step_reserve debug s N ks kp Hi _ Hen) as (s' & ? & ?); eauto 8.
  - destruct (step_settle debug s N ks kp Hi _ _ Hen) as (s' & ? & ?); eauto 8.
  - destruct (step_number debug s N ks kp Hi _ Hen) as (s' & ? & ?); eauto 8.
  - destruct (step_place debug s N ks kp Hi _ _ Hen) as (s' & ? & ?); eauto 8.
  - destruct (miso_step_write debug s N ks kp Hi _ _ _ Hen) as (s' & ? & ?); eauto 8.
  - destruct (miso_step_commit debug s N ks kp Hi _ Hen) as (s' & ? & ?); eauto 8.
  - destruct (miso_step_read debug s N ks kp Hi Hen) as (s' & ? & ?); eauto 8.
  - destruct (miso_step_read_empty debug s N ks kp Hi Hen) as (s' & ? & ?); eauto 8.
  - destruct (miso_step_return debug s N ks kp Hi false Hen) as (s' & k & ? & ?); eauto 8.
  - destruct (miso_step_return debug s N ks kp Hi true Hen) as (s' & k & ? & ?); eauto 8.
  - destruct (step_publish debug s N ks kp Hi Hen) as (s' & ? & ?); eauto 8.
Qed.

Lemma miso_runs_inv (debug : bool) (s s' : sys) (es : list event) :
  runs debug s es s' -> inv s -> inv s'.
Proof.
  induction 1 as [|s e s1 es s2 Hen Hstep _ IH]; [done|]. intros Hi. apply IH.
  destruct (miso_step_inv debug s e Hi Hen) as (s' & E & Hi'). congruence.
Qed.
