(* ===== verification/MisoTheorems.v ===== *)
(** * The multiple-producer ring buffer: properties

    Creation, the states that runs and crashes lead to, order and integrity of the
    payloads, exclusive access, progress of the producers, and recovery. *)
From stdpp Require Import base list option numbers.
From Stdlib Require Import ZArith Lia Bool.
From S2P Require Import Prelude Memory BufferDefs Miso MisoProofs.

(** ** Creation *)

Lemma buffer_size_blocks (v : Z) : in_range 32 v ->
  ring_blocks (Z.shiftr (buffer_size v) CACHE_LINE_SIZE_LOG2) /\
  buffer_size v = Z.shiftr (buffer_size v) CACHE_LINE_SIZE_LOG2 * 128.
Proof.
  intros Hv. unfold in_range in Hv.
  assert (exists k, 11 <= k <= 31 /\ buffer_size v = 2 ^ k) as (k & Hk & ->).
  { assert (buffer_size v = 2048 -> exists k, 11 <= k <= 31 /\ buffer_size v = 2 ^ k) as H2048
      by (intros ->; by exists 11).
    destruct (decide (v = 0)) as [->|Hnz]; [by apply H2048|].
    set (k := Z.log2_up v). assert (0 <= k) as Hk0 by apply Z.log2_up_nonneg.
    assert (k <= 32) as Hk32 by (apply (Z.log2_up_le_mono v (2 ^ 32)); lia).
    assert (2 ^ (k - 1) < v <= 2 ^ k) as Hk.
    { destruct (decide (v = 1)) as [E|Hne]; [unfold k; by rewrite E|].
      pose proof (Z.log2_up_spec v ltac:(lia)) as Hs. fold k in Hs.
      by replace (Z.pred k) with (k - 1) in Hs by lia. }
    unfold buffer_size in *. rewrite (round_pow_of_two_wrap v k) in * by lia.
    change (u32 (16 * CACHE_LINE_SIZE)) with 2048 in *.
    destruct (decide (k = 32)) as [E|Hk']; [apply H2048; by rewrite E|].
    rewrite wrap_small in * by (split; [apply Z.pow_nonneg; lia|apply Z.pow_lt_mono_r; lia]).
    destruct (decide (k <= 11)) as [Hle|Hgt].
    - apply H2048, Z.max_l. apply (Z.pow_le_mono_r 2 k 11); lia.
    - exists k. split; [lia|]. apply Z.max_r. apply (Z.pow_le_mono_r 2 11 k); lia. }
  unfold CACHE_LINE_SIZE_LOG2. rewrite Z.shiftr_div_pow2, <- Z.pow_sub_r by lia. split.
  - exists (k - 7). split; [lia|done].
  - change 128 with (2 ^ 7). rewrite <- Z.pow_add_r by lia. f_equal. lia.
Qed.

(** The cursors that a clearing loop visits decide it. *)
Lemma clear_loop_ext (n : nat) (f g : Z -> Z) (c : Z) (blocks : list Z) :
  (forall i, 0 <= i < Z.of_nat n -> f (u32 (c + i)) = g (u32 (c + i))) ->
  clear_loop n f (u32 c) blocks = clear_loop n g (u32 c) blocks.
Proof.
  revert c blocks. induction n as [|n IH]; intros c blocks H; [done|]. cbn [clear_loop].
  pose proof (H 0 ltac:(lia)) as H0. rewrite Z.add_0_r in H0. rewrite H0.
  destruct (set_status _ _ _) as [d|]; [|done]. cbn [mbind option_bind].
  rewrite !wrap_add_l. apply IH. intros i Hi.
  specialize (H (1 + i) ltac:(lia)). by rewrite Z.add_assoc in H.
Qed.

(** A ring in which nothing is outstanding and which holds the finished chunks [l]. *)
Lemma initial_inv (m : miso) (N p0 : Z) (producers : nat) (l : list entry) :
  ring_blocks N -> aligned_blocks_count_ m = N ->
  zlen (aligned_blocks_ m) = N * 128 -> bytes_ok (aligned_blocks_ m) -> 0 <= p0 ->
  needs_ok N l -> Forall finished l -> (forall t, (t < producers)%nat -> sent_by t l = []) ->
  position p0 l (length l) < p0 + N ->
  write_cursor_ m = u32 (position p0 l (length l)) -> read_cursor_ m = u32 p0 ->
  read_cursor_cache_ (head_ m) = u32 p0 -> read_cursor_start_cache_ (head_ m) = u32 p0 ->
  (forall p, position p0 l (length l) <= p < p0 + N ->
     get_status (aligned_blocks_ m) (p mod N) = Some 0) ->
  (forall j e, l !! j = Some e -> entry_mem N (aligned_blocks_ m) (position p0 l j) e) ->
  inv_at (initial_sys m producers p0 l) N 0 0.
Proof.
  intros HN Hc Hl Hok Hp0 Hneeds Hfin Hsent Hroom Hw Hr Hcache Hstart Hfree Hmem.
  assert (forall i, pos (initial_sys m producers p0 l) i = position p0 l i) as Hpos by done.
  assert (position p0 l 0 = p0) as E0 by (unfold position; simpl; lia).
  assert (forall j, (j <= length l)%nat -> position p0 l j <= position p0 l (length l)) as Hle.
  { intros j Hj. pose proof (position_mono N p0 l j (length l) Hneeds ltac:(lia)). lia. }
  split; rewrite ?Hpos, ?E0; try done.
  - simpl. lia.
  - simpl taken. by rewrite E0.
  - intros j e He _. pose proof (lookup_lt_Some _ _ _ He). rewrite Hpos. simpl in *.
    specialize (Hle (S j) ltac:(lia)). lia.
  - intros p Hp Hout. apply Hfree. destruct (Z.lt_ge_cases p (position p0 l (length l))) as [Hlt|]; [|lia].
    exfalso. revert Hlt. assert (forall j, (j <= length l)%nat -> position p0 l j <= p) as Hall.
    { induction j as [|j IH]; intros Hj; [lia|].
      destruct (lookup_lt_is_Some_2 l j ltac:(lia)) as [e He].
      assert (occupied e) as Hoc.
      { pose proof (Forall_lookup_1 _ _ _ _ Hfin He) as Hf. unfold finished, occupied in *.
        by destruct (e_state e). }
      specialize (Hout j e He Hoc). rewrite !Hpos in Hout. specialize (IH ltac:(lia)). lia. }
    specialize (Hall (length l) ltac:(lia)). lia.
  - intros j e _ He. rewrite Hpos. by apply Hmem.
  - intros j e Hj. simpl in Hj. lia.
  - split; [constructor; [lia|constructor]|]. by exists [].
  - intros t w Hw'. apply lookup_replicate in Hw' as [-> Ht]. split_and!; try done.
    symmetry. by apply Hsent.
  - intros j e He Hnf. by pose proof (Forall_lookup_1 _ _ _ _ Hfin He).
Qed.

Lemma init_blocks_ok (m : miso) (checksum : Z) (producers : nat) :
  ring_blocks (aligned_blocks_count_ m) -> zlen (aligned_blocks_ m) = aligned_blocks_count_ m * 128 ->
  bytes_ok (aligned_blocks_ m) ->
  exists m', init_blocks m checksum = Some m' /\ log_checksum_ (head_ m') = checksum /\
    inv_at (initial_sys m' producers 0 []) (aligned_blocks_count_ m) 0 0.
Proof.
  intros HN Hl Hok. set (N := aligned_blocks_count_ m) in *.
  pose proof (ring_blocks_bounds N HN) as Hb. unfold init_blocks. fold N.
  pose proof (clear_loop_ext (Z.to_nat N) (fun i => i) (cursor_to_index N) 0 (aligned_blocks_ m)) as E.
  change (u32 0) with 0 in E. rewrite E; clear E.
  2:{ intros i Hi. rewrite ring_index by done. rewrite Z.mod_small, wrap_small; unfold in_range; lia. }
  destruct (clear_loop_ok N (Z.to_nat N) 0 (aligned_blocks_ m)) as (d & Hd & Hdl & Hdok & Hz & _);
    [done..|lia|].
  change (u32 0) with 0 in Hd. rewrite Hd. cbn [mbind option_bind].
  eexists. split; [reflexivity|]. split; [done|].
  apply initial_inv; try done.
  - simpl. unfold zlen in *. lia.
  - constructor.
  - unfold position. simpl. lia.
  - intros p Hp. apply Hz. unfold position in Hp. simpl in Hp. lia.
Qed.

(** ** The chunks that a scan of the memory finds *)

(** The entries before the first unfinished one. *)
Fixpoint whole (l : list entry) : list entry :=
  match l with
  | [] => []
  | e :: l => if decide (finished e) then e :: whole l else []
  end.

Lemma whole_prefix (l : list entry) : exists rest, l = whole l ++ rest /\
  forall e, rest !! O = Some e -> ~ finished e.
Proof.
  induction l as [|e l (rest & El & Hr)]; [by exists []|]. simpl. destruct (decide (finished e)).
  - exists rest. split; [|done]. simpl. by rewrite <- El.
  - exists (e :: l). split; [done|]. by intros ? [= <-].
Qed.

Lemma whole_finished (l : list entry) : Forall finished (whole l).
Proof. induction l as [|e l IH]; simpl; [constructor|]. case_decide; constructor; done. Qed.

Lemma whole_lookup (l : list entry) (i : nat) (e : entry) : whole l !! i = Some e -> l !! i = Some e.
Proof.
  destruct (whole_prefix l) as (rest & El & _). intros H. rewrite El. by apply lookup_app_l_Some.
Qed.

Lemma whole_end (l : list entry) (e : entry) : l !! length (whole l) = Some e -> ~ finished e.
Proof.
  destruct (whole_prefix l) as (rest & El & Hr). intros H. apply Hr.
  revert El H. generalize (whole l). intros w -> H.
  by rewrite lookup_app_r, Nat.sub_diag in H by lia.
Qed.

(** *** What a recovery accepts

    The check of a committed chunk is that of its size, which an empty payload fails; that of
    a skipped chunk of [n] blocks at the index [i] looks for [n] blocks behind its end. *)
Definition passes (N p : Z) (e : entry) : bool :=
  match e_state e with
  | E_committed payload => negb (bool_decide (payload = []))
  | E_invalid => p mod N + 2 * e_need e <=? 2 * N
  | _ => true
  end.

(** The chunks [l] from the position [p] on. *)
Fixpoint accepted (N p : Z) (l : list entry) : bool :=
  match l with
  | [] => true
  | e :: l => passes N p e && accepted N (p + e_need e) l
  end.

Section Scan.
Context (s : sys) (N : Z) (ks kp : nat) (Hi : inv_at s N ks kp).

Local Abbreviation unread := (drop (taken s) (log s)).
Local Abbreviation found := (whole unread).

Lemma found_entry (i : nat) (e : entry) : found !! i = Some e ->
  log s !! (taken s + i)%nat = Some e.
Proof using. intros H. apply whole_lookup in H. by rewrite lookup_drop in H. Qed.

Lemma found_length : (taken s + length found <= length (log s))%nat.
Proof using Hi.
  destruct (whole_prefix unread) as (rest & El & _). apply (f_equal length) in El.
  rewrite length_app, length_drop in El. destruct (i_order _ _ _ _ Hi). lia.
Qed.

Lemma found_finished (i : nat) : (i <= length found)%nat -> finished_to s (taken s + i).
Proof using Hi.
  intros Hl j e Hj He. destruct (decide (j < taken s)%nat); [by apply (i_done _ _ _ _ Hi j)|].
  apply (Forall_lookup_1 _ _ (j - taken s)%nat e (whole_finished unread)).
  destruct (lookup_lt_is_Some_2 found (j - taken s)) as [e' He']; [lia|].
  rewrite He'. apply found_entry in He'. rewrite <- He, <- He'. f_equal. lia.
Qed.

Lemma found_pos (i : nat) : (i <= length found)%nat ->
  pos s (taken s + i) = pos s (taken s) + need_sum (take i found).
Proof using Hi.
  intros Hl. destruct (whole_prefix unread) as (rest & El & _). unfold pos, position.
  rewrite <- (take_drop (taken s) (log s)) at 1. destruct (i_order _ _ _ _ Hi) as [_ Ho].
  rewrite take_app_add' by (rewrite length_take; lia). rewrite need_sum_app.
  assert (take i unread = take i found) as -> by (rewrite El at 1; by rewrite take_app_le). lia.
Qed.

(** A scan that starts at a cursor whose index is that of the consumer. *)
Context (c0 : Z) (Hc0 : 0 <= c0 < 2 ^ 31 /\ c0 mod N = pos s (taken s) mod N).

Local Abbreviation cur i := (position c0 found i).

Lemma scan_bounds (i : nat) : (i <= length found)%nat ->
  cur i mod N = pos s (taken s + i) mod N /\ c0 <= cur i < c0 + N /\ in_range 32 (cur i).
Proof using Hi Hc0.
  intros Hl. pose proof (found_pos i Hl) as Ep. pose proof (N_bounds _ _ _ _ Hi).
  pose proof found_length. destruct (i_order _ _ _ _ Hi) as [Ho Ho'].
  pose proof (finished_window s N ks kp Hi (taken s + i) ltac:(lia) (found_finished i Hl)).
  pose proof (pos_le _ _ _ _ Hi kp (taken s) ltac:(lia)).
  pose proof (pos_le _ _ _ _ Hi (taken s) (taken s + i) ltac:(lia)).
  assert (cur i = c0 + (pos s (taken s + i) - pos s (taken s))) as E by (unfold position; lia).
  split; [|unfold in_range; lia]. rewrite E. rewrite Zplus_mod, (proj2 Hc0), <- Zplus_mod.
  f_equal. lia.
Qed.

Lemma scan_next (i : nat) (e : entry) : found !! i = Some e -> cur (S i) = cur i + e_need e.
Proof using. intros H. by apply position_S. Qed.

Lemma found_fits : (length found <= Z.to_nat N)%nat.
Proof using Hi Hc0.
  pose proof (position_mono N c0 found 0 (length found)) as Hmono. destruct (scan_bounds (length found)) as (_ & Hb & _); [done|].
  assert (position c0 found 0 = c0) as E0 by (unfold position; simpl; lia).
  specialize (Hmono ltac:(apply Forall_lookup; intros i e He; exact (proj1 (proj2 (pos_next _ _ _ _ Hi _ _ (found_entry _ _ He))))) ltac:(lia)). lia.
Qed.

Lemma scan_index (i : nat) : (i <= length found)%nat ->
  cursor_to_index N (cur i) = pos s (taken s + i) mod N.
Proof using Hi Hc0.
  intros Hl. destruct (scan_bounds i Hl) as (<- & _ & Hr).
  rewrite <- (wrap_small 32 (cur i)) at 1 by done. apply ring_index, (i_pow _ _ _ _ Hi).
Qed.

Lemma scan_status (i : nat) : (i <= length found)%nat ->
  get_status (aligned_blocks_ (ring s)) (pos s (taken s + i) mod N) = Some (code_of (found !! i)).
Proof using Hi.
  intros Hl. pose proof found_length.
  rewrite (status_at s N ks kp Hi) by (lia || by apply found_finished). f_equal.
  destruct (found !! i) as [e|] eqn:He; [by rewrite (found_entry _ _ He)|].
  apply lookup_ge_None_1 in He. assert (i = length found) as -> by lia.
  destruct (log s !! (taken s + length found)%nat) as [e|] eqn:Hl'; [|done].
  assert (~ finished e) as Hnf by (apply (whole_end unread); by rewrite lookup_drop).
  unfold code_of, finished in *. simpl. by destruct (e_state e).
Qed.

Lemma scan_mem (i : nat) (e : entry) : found !! i = Some e ->
  entry_mem N (aligned_blocks_ (ring s)) (pos s (taken s + i)) e /\ 1 <= e_need e <= N /\
  (i < length found)%nat /\ finished e.
Proof using Hi.
  intros He. pose proof (found_entry _ _ He) as He'.
  split; [apply (i_mem _ _ _ _ Hi); [lia|done]|].
  split; [apply (pos_next _ _ _ _ Hi _ _ He')|]. split; [by eapply lookup_lt_Some|].
  exact (Forall_lookup_1 _ _ _ _ (whole_finished unread) He).
Qed.

(** *** Recovery *)

(** The check of a committed chunk. *)
Lemma used_turn (cursor index need size : Z) :
  size_ok N size need -> index + need <= N -> 0 <= size -> 1 <= need ->
  (if N <? index + need then Some None
   else if (u64 (need * BLOCK_SIZE - data_block_offset) <? size) ||
           (size <=? (if need =? 1 then 0 else u64 (need * BLOCK_SIZE - BLOCK_SIZE - data_block_offset)))
   then Some None else Some (Some (u32 (cursor + need), false))) =
  Some (if 0 <? size then Some (u32 (cursor + need), false) else None).
Proof using Hi.
  intros Hsz Hfit H0 H1. destruct (size_ok_bounds _ _ _ (i_pow _ _ _ _ Hi) Hsz) as (_ & Hn24 & Hs).
  rewrite (proj2 (Z.ltb_ge _ _)) by lia. unfold BLOCK_SIZE, CACHE_LINE_SIZE, data_block_offset.
  rewrite (wrap_small 64 (need * 128 - 8)) by (unfold in_range; lia). rewrite (proj2 (Z.ltb_ge _ _)) by lia. cbn [orb].
  destruct (Z.eqb_spec need 1) as [E|E].
  - destruct (Z.ltb_spec 0 size); [by rewrite (proj2 (Z.leb_gt _ _)) by lia|by rewrite (proj2 (Z.leb_le _ _)) by lia].
  - rewrite (wrap_small 64) by (unfold in_range; lia). by rewrite (proj2 (Z.leb_gt _ _)), (proj2 (Z.ltb_lt _ _)) by lia.
Qed.

Lemma recover_turn_found (i : nat) : (i <= length found)%nat ->
  recover_turn N (aligned_blocks_ (ring s)) (cur i) =
    Some (match found !! i with
          | Some e => if passes N (pos s (taken s + i)) e then Some (cur (S i), false) else None
          | None => Some (cur i, true)
          end).
Proof using Hi Hc0.
  intros Hl. pose proof (N_bounds _ _ _ _ Hi). unfold recover_turn.
  rewrite (scan_index i Hl), (scan_status i Hl).
  set (p := pos s (taken s + i)). pose proof (Z.mod_pos_bound p N ltac:(lia)).
  destruct (num_at s N ks kp Hi p) as [n0 Hn0]. rewrite Hn0. cbn [mbind option_bind].
  assert (exists z, get_data_size (aligned_blocks_ (ring s)) (p mod N) = Some z) as [z Hz].
  { destruct (index_in_blocks _ _ _ _ Hi p). unfold get_data_size, load_le, BLOCK_SIZE, CACHE_LINE_SIZE.
    rewrite load_Some by lia. by eexists. }
  rewrite Hz. cbn [mbind option_bind]. destruct (found !! i) as [e|] eqn:He; [|done].
  destruct (scan_mem i e He) as (Hm & Hn & Hil & Hfin). rewrite (scan_next i e He). fold p in Hm.
  pose proof (scan_bounds (S i) ltac:(lia)) as (Emod & Hb & Hr). rewrite (scan_next i e He) in Emod, Hb, Hr.
  unfold entry_mem, finished, passes in *. unfold code_of. cbn [fmap option_fmap option_map].
  destruct (e_state e) as [| | |size| |payload]; try done; cbn [status_of_code Z.eqb Pos.eqb].
  - destruct Hm as (Hnum & _ & Hfit). assert (n0 = e_need e) as -> by congruence.
    rewrite (wrap_small 32 _ Hr).
    assert (cursor_to_index N (cur i + e_need e) = p mod N + e_need e - N) as ->.
    { rewrite <- (wrap_small 32 _ Hr), ring_index by apply (i_pow _ _ _ _ Hi).
      rewrite Zplus_mod, (proj1 (scan_bounds i Hl)). fold p. rewrite Zplus_mod_idemp_r.
      rewrite <- (Z.mod_small (p mod N + e_need e - N) N) by lia.
      rewrite <- (Z_mod_plus_full (p mod N + e_need e - N) 1 N). f_equal. lia. }
    destruct (Z.leb_spec (p mod N + 2 * e_need e) (2 * N)); [by rewrite (proj2 (Z.ltb_ge _ _)) by lia|].
    by rewrite (proj2 (Z.ltb_lt _ _)) by lia.
  - destruct Hm as (Hnum & _ & Hsize & Hsz & Hfit & _).
    assert (n0 = e_need e) as -> by congruence. assert (z = zlen payload) as -> by congruence.
    rewrite (used_turn (cur i) (p mod N) (e_need e) (zlen payload) Hsz Hfit), (wrap_small 32 _ Hr) by (lia || apply zlen_nonneg).
    destruct payload as [|b payload]; [done|]. rewrite (proj2 (Z.ltb_lt _ _)); [done|].
    rewrite zlen_cons. pose proof (zlen_nonneg payload). lia.
Qed.

(** The scan accepts the chunks up to the first unfinished one, or refuses the map. *)
Lemma recover_loop_found (fuel i : nat) :
  (i <= length found)%nat -> (length found - i < fuel)%nat ->
  recover_loop fuel N (aligned_blocks_ (ring s)) c0 (cur i) =
    Some (if accepted N (pos s (taken s + i)) (drop i found) then Some (cur (length found)) else None).
Proof using Hi Hc0.
  revert i. induction fuel as [|fuel IH]; intros i Hl Hf; [lia|]. pose proof (N_bounds _ _ _ _ Hi).
  cbn [recover_loop]. rewrite (recover_turn_found i Hl). cbn [mbind option_bind].
  destruct (found !! i) as [e|] eqn:He.
  - destruct (scan_mem i e He) as (_ & _ & Hil & _). rewrite (drop_S _ _ _ He). cbn [accepted].
    destruct (passes N (pos s (taken s + i)) e); [|done]. cbn [andb].
    destruct (scan_bounds (S i) ltac:(lia)) as (_ & Hb & Hr).
    rewrite wrap_small by (unfold in_range in *; lia).
    rewrite (proj2 (Z.ltb_ge _ _)), (proj2 (Z.eqb_neq _ _)) by lia. cbn [orb]. rewrite IH by lia.
    by rewrite Nat.add_succ_r, (proj1 (pos_next _ _ _ _ Hi _ _ (found_entry _ _ He))).
  - apply lookup_ge_None_1 in He. assert (i = length found) as -> by lia. rewrite drop_all.
    destruct (scan_bounds (length found) ltac:(lia)) as (_ & Hb & Hr).
    rewrite wrap_small by (unfold in_range in *; lia). by rewrite (proj2 (Z.ltb_ge _ _)) by lia.
Qed.

End Scan.

(** *** Traversal *)

(** When everything the consumer has passed is given back, the traversal calls back for the
    payloads it has not passed, up to the first unfinished chunk. *)
Lemma traverse_found (debug : bool) (s : sys) (N : Z) (ks kp : nat) (fuel i : nat) :
  inv_at s N ks kp -> kp = taken s -> (i <= length (whole (drop (taken s) (log s))))%nat ->
  (length (whole (drop (taken s) (log s))) - i < fuel)%nat ->
  traverse_loop debug fuel (ring s) (u32 (pos s (taken s + i))) =
    Some (payloads (drop i (whole (drop (taken s) (log s))))).
Proof.
  intros Hi Hk. set (found := whole (drop (taken s) (log s))).
  revert i. induction fuel as [|fuel IH]; intros i Hl Hf; [lia|].
  pose proof (N_bounds _ _ _ _ Hi). cbn [traverse_loop].
  rewrite (pos_index _ _ _ _ Hi), (scan_status s N ks kp Hi i Hl). fold found.
  set (p := pos s (taken s + i)). destruct (num_at s N ks kp Hi p) as [n0 Hn0].
  rewrite Hn0. cbn [mbind option_bind]. destruct (found !! i) as [e|] eqn:He.
  2:{ apply lookup_ge_None_1 in He. by rewrite drop_ge. }
  destruct (scan_mem s N ks kp Hi i e He) as (Hm & Hn & Hil & Hfin).
  pose proof (found_entry s i e He) as Hlog. fold p in Hm. fold found in Hil.
  destruct (pos_next _ _ _ _ Hi _ _ Hlog) as (Epos & _ & Hlen). fold p in Epos.
  assert (n0 = e_need e) as ->.
  { unfold entry_mem, finished in *. destruct (e_state e); try done; naive_solver congruence. }
  assert (u32 (u32 p + e_need e) = u32 (pos s (taken s + S i))) as Ecur.
  { by rewrite wrap_add_l, <- Epos, Nat.add_succ_r. }
  pose proof (found_length s N ks kp Hi) as Hfl. fold found in Hfl. destruct (i_order _ _ _ _ Hi) as [Ho Ho'].
  pose proof (finished_window s N ks kp Hi (taken s + S i) ltac:(lia)
    (found_finished s N ks kp Hi (S i) ltac:(fold found; lia))) as Hwin.
  pose proof (pos_le _ _ _ _ Hi kp ks ltac:(lia)) as Hkk.
  assert (traverse_call debug (ring s) (p mod N) (e_need e)
            (if decide (e_state e = E_invalid) then invalid else used) =
          Some (Some (option_list (payload_of e)))) as Hcall.
  { unfold traverse_call, debug_assert, payload_of, entry_mem, finished in *.
    rewrite (i_count _ _ _ _ Hi). destruct (e_state e) as [| | |size| |payload]; try done; simpl.
    - destruct Hm as (_ & _ & Hfit).
      by rewrite (proj2 (Z.ltb_lt _ _)), (proj2 (Z.leb_le _ _)), andb_false_r by lia.
    - destruct Hm as (_ & _ & Hsz & _ & Hfit & Hload).
      rewrite (proj2 (Z.leb_le _ _)), andb_false_r by lia. cbn [mbind option_bind].
      rewrite Hsz. cbn [mbind option_bind]. by rewrite Hload. }
  assert (status_of_code (code_of (Some e)) = Some (if decide (e_state e = E_invalid) then invalid else used))
    as ->.
  { unfold code_of, finished in *. simpl. by destruct (e_state e). }
  cbn [mbind option_bind]. rewrite Hcall. cbn [mbind option_bind].
  rewrite bool_decide_eq_false_2 by done. rewrite Ecur, (i_count _ _ _ _ Hi), (i_read _ _ _ _ Hi).
  rewrite u32_diff by lia. rewrite (proj2 (Z.leb_gt _ _)) by lia. cbn [orb].
  rewrite IH by lia. cbn [mbind option_bind]. f_equal. rewrite (drop_S _ _ _ He).
  unfold payloads. simpl. by destruct (payload_of e).
Qed.

(** ** After a crash *)

(** What the memory map keeps of a ring: the cursors are lost. *)
Definition crashed (m : miso) (w r : Z) (st : memory_map_buffer_state) : miso :=
  mk_miso w r (head_ m) (aligned_blocks_count_ m) (aligned_blocks_ m) st.

(** The chunks found belong to no producer of the new run. *)
Definition adopt (producers : nat) (e : entry) : entry := mk_entry (e_need e) producers (e_state e).

Definition survivors (s : sys) : list entry := whole (drop (taken s) (log s)).

Lemma adopt_positions (b : Z) (producers : nat) (l : list entry) (j : nat) :
  position b (map (adopt producers) l) j = position b l j.
Proof.
  unfold position. f_equal. revert j. induction l as [|e l IH]; intros [|j]; try done.
  simpl. f_equal. apply IH.
Qed.

Lemma adopt_payloads (producers : nat) (l : list entry) :
  payloads (map (adopt producers) l) = payloads l.
Proof.
  induction l as [|e l IH]; [done|]. change (?x :: ?y) with ([x] ++ y). rewrite map_app.
  rewrite !payloads_app, IH. by destruct e as [? ? []].
Qed.

Lemma entry_mem_index (N p p' : Z) (blocks : list Z) (e : entry) :
  p mod N = p' mod N -> entry_mem N blocks p e -> entry_mem N blocks p' e.
Proof. unfold entry_mem. by intros ->. Qed.

Lemma recover_ok (s : sys) (N : Z) (ks kp producers : nat) (checksum w r : Z)
    (st : memory_map_buffer_state) :
  inv_at s N ks kp -> accepted N (pos s (taken s)) (survivors s) = true ->
  log_checksum_ (head_ (ring s)) = checksum ->
  exists m', try_recover_from_exist_memory_map (crashed (ring s) w r st) checksum = Some (Some m') /\
    log_checksum_ (head_ m') = checksum /\
    inv_at (initial_sys m' producers (read_cursor_ m') (map (adopt producers) (survivors s))) N 0 0.
Proof.
  intros Hi Hrec Hsum. unfold survivors in *. set (found := whole (drop (taken s) (log s))) in *.
  pose proof (i_pow _ _ _ _ Hi) as HN. pose proof (N_bounds _ _ _ _ Hi).
  set (c0 := pos s (taken s) mod N). pose proof (Z.mod_pos_bound (pos s (taken s)) N ltac:(lia)) as Hc.
  assert (0 <= c0 < 2 ^ 31 /\ c0 mod N = pos s (taken s) mod N) as Hc0.
  { split; [unfold c0; lia|]. unfold c0. apply Z.mod_mod. lia. }
  assert (position c0 found 0 = c0) as E0 by (unfold position; simpl; lia).
  destruct (scan_bounds s N ks kp Hi c0 Hc0 (length found) ltac:(done)) as (Emod & Hb & Hr).
  fold found in Emod, Hb, Hr. set (stop := position c0 found (length found)) in *.
  destruct (i_data _ _ _ _ Hi) as [Hl Hok].
  destruct (clear_loop_ok N (Z.to_nat (c0 + N - stop)) stop (aligned_blocks_ (ring s)))
    as (d & Hd & Hdl & Hdok & Hzero & Hsame); [done..|lia|].
  rewrite Z2Nat.id in Hzero, Hsame by lia.
  pose proof (found_fits s N ks kp Hi c0 Hc0) as Hfuel. fold found in Hfuel.
  eexists. split; [|split].
  - unfold try_recover_from_exist_memory_map, crashed.
    cbn [log_checksum_ head_ aligned_blocks_count_ aligned_blocks_ read_cursor_cache_ mmap_misc_data_].
    rewrite Hsum, Z.eqb_refl. cbn [negb].
    rewrite (i_cache _ _ _ _ Hi), (pos_index _ _ _ _ Hi), (i_count _ _ _ _ Hi). fold c0.
    pose proof (recover_loop_found s N ks kp Hi c0 Hc0 (recover_fuel N) 0
      ltac:(lia) ltac:(fold found; unfold recover_fuel; lia)) as Hloop.
    fold found stop in Hloop. rewrite E0, Nat.add_0_r, drop_0, Hrec in Hloop. rewrite Hloop. cbn [mbind option_bind]. rewrite (wrap_small 32 (stop - c0)) by (unfold in_range; lia).
    rewrite (proj2 (Z.ltb_ge _ _)) by lia. rewrite (wrap_small 32 (c0 + N)) by (unfold in_range; lia).
    rewrite <- (wrap_small 32 stop Hr) at 2. rewrite Hd. cbn [mbind option_bind]. reflexivity.
  - done.
  - simpl read_cursor_. apply initial_inv; simpl; rewrite ?length_map, ?adopt_positions; fold stop; try done.
    + unfold zlen in *. lia.
    + lia.
    + apply Forall_map, Forall_lookup. intros i e He. simpl.
      by destruct (scan_mem s N ks kp Hi i e He) as (_ & ? & _).
    + apply Forall_map, Forall_lookup. intros i e He.
      by destruct (scan_mem s N ks kp Hi i e He) as (_ & _ & _ & ?).
    + intros t Ht. apply sent_by_none. intros e He. left.
      apply list_elem_of_fmap in He as (e0 & -> & _). simpl. lia.
    + lia.
    + by rewrite wrap_small.
    + rewrite wrap_small by (unfold in_range; lia). done.
    + rewrite wrap_small by (unfold in_range; lia). done.
    + rewrite wrap_small by (unfold in_range; lia). done.
    + intros p Hp. apply Hzero. lia.
    + intros j e He. apply list_lookup_fmap_Some in He as (e0 & -> & He0). rewrite adopt_positions.
      destruct (scan_mem s N ks kp Hi j e0 He0) as (Hm & Hn & Hj & _). fold found in Hj.
      destruct (scan_bounds s N ks kp Hi c0 Hc0 j ltac:(fold found; lia)) as (Ej & Hbj & _).
      destruct (scan_bounds s N ks kp Hi c0 Hc0 (S j) ltac:(fold found; lia)) as (_ & Hbj' & _).
      pose proof (scan_next s c0 j e0 He0) as Enext. fold found in Ej, Hbj, Hbj', Enext.
      apply (entry_mem_index N _ (position c0 found j)) in Hm; [|done].
      assert (entry_mem N d (position c0 found j) e0) as Hd'; [|by destruct e0 as [? ? []]].
      apply (entry_mem_frame N (aligned_blocks_ (ring s))); [done|lia|done| |done].
      intros i Hown. apply Hsame. intros Hown'.
      assert (position c0 found (S j) <= stop).
      { pose proof (position_mono N c0 found (S j) (length found)) as Hmono. unfold stop.
        specialize (Hmono ltac:(apply Forall_lookup; intros i' e' He';
          by destruct (scan_mem s N ks kp Hi i' e' He') as (_ & ? & _)) ltac:(lia)). lia. }
      apply (own_disjoint N (position c0 found j) (e_need e0) stop (c0 + N - stop) (Z.of_nat i));
        try done; lia.
Qed.

(** A map with a chunk that does not pass is refused. *)
Lemma recover_refused (s : sys) (N : Z) (ks kp : nat) (w r : Z) (st : memory_map_buffer_state) :
  inv_at s N ks kp -> accepted N (pos s (taken s)) (survivors s) = false ->
  try_recover_from_exist_memory_map (crashed (ring s) w r st) (log_checksum_ (head_ (ring s))) = Some None.
Proof.
  intros Hi Hrec. unfold survivors in *. set (found := whole (drop (taken s) (log s))) in *.
  pose proof (N_bounds _ _ _ _ Hi). set (c0 := pos s (taken s) mod N).
  pose proof (Z.mod_pos_bound (pos s (taken s)) N ltac:(lia)) as Hc.
  assert (0 <= c0 < 2 ^ 31 /\ c0 mod N = pos s (taken s) mod N) as Hc0 by (split; [unfold c0; lia|apply Z.mod_mod; lia]).
  unfold try_recover_from_exist_memory_map, crashed.
  cbn [log_checksum_ head_ aligned_blocks_count_ aligned_blocks_ read_cursor_cache_]. rewrite Z.eqb_refl. cbn [negb].
  rewrite (i_cache _ _ _ _ Hi), (pos_index _ _ _ _ Hi), (i_count _ _ _ _ Hi). fold c0.
  pose proof (found_fits s N ks kp Hi c0 Hc0) as Hfuel. fold found in Hfuel.
  pose proof (recover_loop_found s N ks kp Hi c0 Hc0 (recover_fuel N) 0
    ltac:(lia) ltac:(fold found; unfold recover_fuel; lia)) as Hloop. fold found in Hloop.
  assert (position c0 found 0 = c0) as E0 by (unfold position; simpl; lia).
  rewrite E0, Nat.add_0_r, drop_0, Hrec in Hloop. by rewrite Hloop.
Qed.

(** ** Reachable states *)

Inductive reachable (debug : bool) : sys -> Prop :=
  | reachable_new size result memory_head memory_blocks checksum m producers :
      in_range 32 size -> result <> use_existed ->
      zlen memory_blocks = buffer_size size -> bytes_ok memory_blocks ->
      miso_ring_buffer size result memory_head memory_blocks checksum = Some m ->
      reachable debug (initial_sys m producers 0 [])
  | reachable_step s e s' :
      reachable debug s -> enabled s e -> step debug s e = Some s' -> reachable debug s'
  | reachable_recovered s checksum w r st m producers :
      reachable debug s ->
      try_recover_from_exist_memory_map (crashed (ring s) w r st) checksum = Some (Some m) ->
      reachable debug (initial_sys m producers (read_cursor_ m) (map (adopt producers) (survivors s))).

Lemma recover_checksum (m m' : miso) (checksum : Z) :
  try_recover_from_exist_memory_map m checksum = Some (Some m') -> log_checksum_ (head_ m) = checksum.
Proof.
  unfold try_recover_from_exist_memory_map. intros H.
  destruct (Z.eqb_spec (log_checksum_ (head_ m)) checksum); [done|]. simpl in H. congruence.
Qed.

Lemma miso_ring_buffer_init (size : Z) (result : create_memory_map_result) (mh : head) (mb : list Z)
    (checksum : Z) (m : miso) :
  result <> use_existed -> miso_ring_buffer size result mh mb checksum = Some m ->
  exists checksum', init_blocks (mk_miso 0 0 mh (Z.shiftr (buffer_size size) CACHE_LINE_SIZE_LOG2) mb
    init_with_memory) checksum' = Some m.
Proof.
  unfold miso_ring_buffer. set (count := Z.shiftr (buffer_size size) CACHE_LINE_SIZE_LOG2). clearbody count.
  intros Hr Hm. destruct result; [exists 0; exact Hm|congruence|exists checksum; exact Hm].
Qed.

Lemma reachable_inv (debug : bool) (s : sys) : reachable debug s -> inv s.
Proof.
  induction 1 as [size result mh mb checksum m producers Hs Hr Hl Hok Hm
                 |s e s' _ IH Hen Hstep|s checksum w r st m producers _ IH Hm].
  - destruct (miso_ring_buffer_init _ _ _ _ _ _ Hr Hm) as [checksum' Hinit].
    destruct (buffer_size_blocks size Hs) as [HN Ebs].
    destruct (init_blocks_ok (mk_miso 0 0 mh (Z.shiftr (buffer_size size) CACHE_LINE_SIZE_LOG2) mb
      init_with_memory) checksum' producers HN) as (m' & Hm' & _ & Hinv); [simpl; lia|done|].
    assert (m' = m) as -> by congruence. by do 3 eexists.
  - destruct (miso_step_inv debug s e IH Hen) as (s2 & E & Hi). congruence.
  - destruct IH as (N & ks & kp & Hi). pose proof (recover_checksum _ _ _ Hm) as Hsum.
    destruct (accepted N (pos s (taken s)) (survivors s)) eqn:Hrec.
    2:{ pose proof (recover_refused s N ks kp w r st Hi Hrec) as Hno. simpl in Hsum. congruence. }
    destruct (recover_ok s N ks kp producers checksum w r st Hi Hrec Hsum) as (m' & Hm' & _ & Hinv).
    assert (m' = m) as -> by congruence. by do 3 eexists.
Qed.

(** ** The properties *)

(** C2. In every state that creation, any interleaving of producers and consumer, and crashes
    followed by recovery lead to, every call that the protocol permits succeeds: no access
    leaves the blocks and no assertion of the debug build fails. What the consumer has
    taken are the payloads of the reservations it has passed, in the order of the
    reservations and with the bytes their producers committed; the reservations of each
    producer carry exactly what it has sent, in its order, so what has been taken of a
    producer is a prefix of what it has sent. *)
Theorem miso_fifo (debug : bool) (s : sys) :
  reachable debug s ->
  (forall e, enabled s e -> exists s', step debug s e = Some s') /\
  consumed s = payloads (take (taken s) (log s)) /\
  (forall t w, writers s !! t = Some w ->
     w_sent w = sent_by t (log s) /\ sent_by t (take (taken s) (log s)) `prefix_of` w_sent w).
Proof.
  intros Hr. apply reachable_inv in Hr. split; [|split].
  - intros e He. destruct (miso_step_inv debug s e Hr He) as (s' & Hs & _). by exists s'.
  - destruct Hr as (N & ks & kp & Hi). apply (i_consumed _ _ _ _ Hi).
  - destruct Hr as (N & ks & kp & Hi). intros t w Hw.
    destruct (i_writers _ _ _ _ Hi t w Hw) as (_ & _ & Hs & _). split; [done|]. rewrite Hs.
    exists (sent_by t (drop (taken s) (log s))). by rewrite <- sent_by_app, take_drop.
Qed.

(** Two entries that fit never share a byte of their payload areas. *)
Lemma areas_disjoint (s : sys) (N : Z) (ks kp j1 j2 : nat) (e1 e2 : entry) (z1 z2 : Z) :
  inv_at s N ks kp -> j1 <> j2 -> log s !! j1 = Some e1 -> log s !! j2 = Some e2 ->
  (kp <= j1)%nat -> (kp <= j2)%nat -> pos s (S j1) < pos s kp + N -> pos s (S j2) < pos s kp + N ->
  0 <= z1 -> 0 <= z2 -> z1 + 8 <= 128 * e_need e1 -> z2 + 8 <= 128 * e_need e2 ->
  pos s j1 mod N + e_need e1 <= N -> pos s j2 mod N + e_need e2 <= N ->
  data_addr (pos s j1 mod N) + z1 <= data_addr (pos s j2 mod N) \/
  data_addr (pos s j2 mod N) + z2 <= data_addr (pos s j1 mod N).
Proof.
  intros Hi Hne He1 He2 Hk1 Hk2 Hr1 Hr2 H1 H2 Hz1 Hz2 Hf1 Hf2. pose proof (N_bounds _ _ _ _ Hi).
  rewrite !data_addr_eq. set (a1 := pos s j1 mod N) in *. set (a2 := pos s j2 mod N) in *.
  destruct (decide (a1 * 128 + 8 + z1 <= a2 * 128 + 8 \/ a2 * 128 + 8 + z2 <= a1 * 128 + 8)); [done|].
  exfalso. apply (entries_disjoint s N ks kp j1 j2 e1 e2 (Z.max (a1 * 128 + 8) (a2 * 128 + 8)) Hi);
    try done; apply own_body; unfold a1, a2 in *; lia.
Qed.

(** C17. Exclusive access, in every reachable state: the areas handed to two producers do not
    meet, each lies inside the blocks, and none meets the payload that the consumer holds. *)
Theorem miso_exclusive (debug : bool) (s : sys) (t : nat) (w : writer) (h : write_handle) (size : Z)
    (j : nat) :
  reachable debug s -> writers s !! t = Some w -> w_pc w = W_handle h size j ->
  0 <= wh_data_addr h /\ wh_data_addr h + size <= zlen (aligned_blocks_ (ring s)) /\
  (forall t' w' h' size' j', t' <> t -> writers s !! t' = Some w' -> w_pc w' = W_handle h' size' j' ->
     wh_data_addr h + size <= wh_data_addr h' \/ wh_data_addr h' + size' <= wh_data_addr h) /\
  (forall r, reader s = R_chunk r -> rh_result r = success ->
     wh_data_addr h + size <= rh_data_addr r \/ rh_data_addr r + rh_data_size r <= wh_data_addr h).
Proof.
  intros Hr Hw Hpc. apply reachable_inv in Hr as (N & ks & kp & Hi). pose proof (N_bounds _ _ _ _ Hi).
  destruct (handle_entry s N ks kp Hi t j w h size Hw Hpc)
    as (n & He & Hj & _ & Hroom & Hn & Hsz & Hsn & Hfit & _ & Haddr).
  destruct (i_order _ _ _ _ Hi) as [Ho Ho']. destruct (i_data _ _ _ _ Hi) as [Hl _].
  pose proof (Z.mod_pos_bound (pos s j) N ltac:(lia)).
  split; [lia|]. split; [lia|]. rewrite <- data_addr_eq in Haddr. rewrite Haddr. split.
  - intros t' w' h' size' j' Hne Hw' Hpc'.
    destruct (handle_entry s N ks kp Hi t' j' w' h' size' Hw' Hpc')
      as (n' & He' & Hj' & _ & Hroom' & Hn' & Hsz' & Hsn' & Hfit' & _ & Haddr').
    rewrite <- data_addr_eq in Haddr'. rewrite Haddr'.
    assert (j <> j') as Hjj by (intros ->; unfold entry_at in *; congruence).
    apply (areas_disjoint s N ks kp j j' _ _ size size' Hi Hjj He He'); simpl; lia.
  - intros r Hrd Hres. pose proof (i_reader _ _ _ _ Hi) as Hok. unfold reader_ok in Hok.
    rewrite Hrd in Hok. destruct Hok as [_ [Hok|(_ & n' & t' & payload & He' & -> & ->)]]; [congruence|].
    pose proof (i_mem _ _ _ _ Hi (taken s) _ ltac:(lia) He') as (_ & _ & _ & Hsz' & Hfit' & _).
    simpl in Hsz', Hfit'. pose proof (size_ok_bounds _ _ _ (i_pow _ _ _ _ Hi) Hsz') as (_ & _ & Hb).
    pose proof (i_room _ _ _ _ Hi _ _ He' ltac:(done)). pose proof (zlen_nonneg payload).
    assert (j <> taken s) as Hne by (intros ->; unfold entry_at in *; congruence).
    apply (areas_disjoint s N ks kp j (taken s) _ _ size (zlen payload) Hi Hne He He'); simpl; lia.
Qed.

(** What a read should find in the reservations not yet passed. *)
Fixpoint next_visible (l : list entry) : option (list Z) :=
  match l with
  | [] => None
  | e :: l =>
      match e_state e with
      | E_invalid => next_visible l
      | E_committed payload => Some payload
      | _ => None
      end
  end.

Lemma read_chunk_visible (debug : bool) (n : nat) (s : sys) (N : Z) (ks kp : nat) :
  inv_at s N ks kp -> ks = kp -> (length (log s) <= taken s + n)%nat ->
  exists m h, read_chunk debug (S n) (ring s) = Some (m, h) /\
    match next_visible (drop (taken s) (log s)) with
    | Some payload => rh_result h = success /\
        load (aligned_blocks_ m) (rh_data_addr h) (rh_data_size h) = Some payload
    | None => rh_result h = err_empty_log_buffer
    end.
Proof.
  revert s. induction n as [|n IH]; intros s Hi Hk Hlen; cbn [read_chunk];
    pose proof (read_turn_result debug s N ks kp Hi) as Hturn.
  - rewrite lookup_ge_None_2 in Hturn by lia. rewrite Hturn, drop_ge by lia. by do 2 eexists.
  - destruct (log s !! taken s) as [e|] eqn:He.
    2:{ rewrite Hturn. apply lookup_ge_None_1 in He. rewrite drop_ge by lia. by do 2 eexists. }
    rewrite (drop_S _ _ _ He). cbn [next_visible]. cbn [fmap option_fmap option_map] in Hturn.
    destruct (e_state e) as [| | |size| |payload] eqn:Es; try (rewrite Hturn; by do 2 eexists).
    + destruct Hturn as (d & -> & Hdl & Hdok & Hsame). cbn [mbind option_bind].
      pose proof (inv_passed s N ks kp Hi e d R_scan He) as Hp.
      assert (finished e) as Hfin by (unfold finished; by rewrite Es).
      specialize (Hp Hfin Hk (or_intror eq_refl) Hdl Hdok (fun i => Hsame e i eq_refl)).
      destruct (IH _ Hp Hk) as (m & h & Hrc & Hres); [simpl; lia|]. simpl in Hrc, Hres. eauto.
    + rewrite Hturn. cbn [mbind option_bind]. do 2 eexists. split; [reflexivity|].
      split; [done|]. destruct e as [n0 t0 st]. simpl in Es. subst st.
      by destruct (read_payload s N ks kp Hi n0 t0 payload He).
Qed.

(** [read_chunk] in every reachable state in which nothing is outstanding for the consumer:
    its loop ends, skips the chunks that are not contiguous, and designates the payload of
    the next reservation when that is committed; it reports an empty buffer when there is
    none or its producer has not finished, even if later ones have. *)
Theorem miso_read_next (debug : bool) (s : sys) :
  reachable debug s -> reader s = R_idle ->
  exists m h, read_chunk debug (S (length (log s))) (ring s) = Some (m, h) /\
    match next_visible (drop (taken s) (log s)) with
    | Some payload => rh_result h = success /\
        load (aligned_blocks_ m) (rh_data_addr h) (rh_data_size h) = Some payload
    | None => rh_result h = err_empty_log_buffer
    end.
Proof.
  intros Hr Hid. apply reachable_inv in Hr as (N & ks & kp & Hi).
  pose proof (i_reader _ _ _ _ Hi) as Hok. unfold reader_ok in Hok. rewrite Hid in Hok.
  apply (read_chunk_visible debug _ s N ks kp); [done|done|lia].
Qed.

Lemma adopted_whole (producers : nat) (l : list entry) :
  whole (map (adopt producers) (whole l)) = map (adopt producers) (whole l).
Proof.
  induction l as [|e l IH]; [done|]. simpl. case_decide as Hf; [|done]. simpl.
  rewrite decide_True by (by destruct e). by rewrite IH.
Qed.

Lemma recovered_state (m m' : miso) (checksum : Z) :
  try_recover_from_exist_memory_map m checksum = Some (Some m') -> mmap_buffer_state_ m' = recover_from_memory_map.
Proof.
  unfold try_recover_from_exist_memory_map. destruct (negb _); [done|].
  destruct (recover_loop _ _ _ _ _) as [[c|]|]; [|done..]. cbn [mbind option_bind].
  destruct (_ <? _); [done|]. destruct (clear_loop _ _ _ _); [|done].
  cbn [mbind option_bind]. by intros [= <-].
Qed.

(** C18. Recovery from the memory map of any reachable state, after a crash that loses the
    cursors. The scan ends and decides: the map is accepted exactly when it has the checksum
    asked for and every chunk from the consumer's position up to the first unfinished
    reservation passes its check - a committed chunk that it is not empty, a skipped one that
    the ring has room for its length once more behind its end. The ring that is recovered
    then holds the committed payloads of these chunks, in order, and nothing else; what was
    committed behind the first unfinished reservation is lost. *)
Theorem miso_recover (debug : bool) (s : sys) (checksum w r : Z) (st : memory_map_buffer_state) :
  reachable debug s ->
  exists rest res,
    drop (taken s) (log s) = survivors s ++ rest /\ Forall finished (survivors s) /\ (forall e, rest !! O = Some e -> ~ finished e) /\
    try_recover_from_exist_memory_map (crashed (ring s) w r st) checksum = Some res /\
    (is_Some res <-> log_checksum_ (head_ (ring s)) = checksum /\
       accepted (aligned_blocks_count_ (ring s)) (pos s (taken s)) (survivors s) = true) /\
    forall m, res = Some m -> mmap_buffer_state_ m = recover_from_memory_map /\
      data_traverse debug (S (length (survivors s))) m = Some (payloads (survivors s)).
Proof.
  intros Hr. apply reachable_inv in Hr as (N & ks & kp & Hi). rewrite (i_count _ _ _ _ Hi).
  destruct (whole_prefix (drop (taken s) (log s))) as (rest & El & Hrest). fold (survivors s) in El.
  exists rest.
  pose proof (whole_finished (drop (taken s) (log s))) as Hfin.
  destruct (decide (log_checksum_ (head_ (ring s)) = checksum)) as [Hsum|Hsum].
  2:{ exists None. split_and!; try done; [|by split; [intros []|intros [? _]]].
      unfold try_recover_from_exist_memory_map, crashed. cbn [log_checksum_ head_]. by rewrite (proj2 (Z.eqb_neq _ _)). }
  destruct (accepted N (pos s (taken s)) (survivors s)) eqn:Hrec.
  2:{ exists None. split_and!; try done; [rewrite <- Hsum; by eapply recover_refused|by split; [intros []|intros [_ ?]]]. }
  destruct (recover_ok s N ks kp 0 checksum w r st Hi Hrec Hsum) as (m & Hm & _ & Hinv).
  exists (Some m). split_and!; try done. intros m' [= <-]. split; [by eapply recovered_state|].
  set (s1 := initial_sys m 0 (read_cursor_ m) (map (adopt 0) (survivors s))) in *.
  pose proof (adopted_whole 0 (drop (taken s) (log s))) as Ew. fold (survivors s) in Ew.
  pose proof (traverse_found debug s1 N 0 0 (S (length (survivors s))) 0 Hinv eq_refl) as Ht.
  change (pos s1 (taken s1 + 0)) with (pos s1 0) in Ht. rewrite <- (i_read _ _ _ _ Hinv) in Ht.
  simpl in Ht. rewrite drop_0, Ew, length_map in Ht. specialize (Ht ltac:(lia) ltac:(lia)).
  by rewrite drop_0, adopt_payloads in Ht.
Qed.

(** ** Progress of the producers *)

Fixpoint waiting (l : list entry) : nat :=
  match l with
  | [] => O
  | e :: l => ((if decide (e_state e = E_waiting) then 1 else 0) + waiting l)%nat
  end.

Lemma waiting_app (l1 l2 : list entry) : waiting (l1 ++ l2) = (waiting l1 + waiting l2)%nat.
Proof. induction l1 as [|e l1 IH]; simpl; lia. Qed.

Lemma waiting_pos (l : list entry) (j : nat) (e : entry) :
  l !! j = Some e -> e_state e = E_waiting -> (0 < waiting l)%nat.
Proof.
  intros He Hw. rewrite <- (take_drop_middle _ _ _ He), waiting_app. simpl.
  rewrite decide_True by done. lia.
Qed.

Lemma waiting_ex (l : list entry) : (0 < waiting l)%nat ->
  exists j e, l !! j = Some e /\ e_state e = E_waiting.
Proof.
  induction l as [|e l IH]; simpl; [lia|]. intros H. destruct (decide (e_state e = E_waiting)) as [Hw|Hw].
  - by exists O, e.
  - destruct IH as (j & e' & He & Hw'); [lia|]. by exists (S j), e'.
Qed.

Lemma waiting_mark (l : list entry) (j : nat) (e : entry) :
  l !! j = Some e -> e_state e = E_waiting ->
  waiting l = S (waiting (alter (set_e_state E_granted) j l)).
Proof.
  revert j. induction l as [|e0 l IH]; intros [|j] He Hw; try done.
  - injection He as ->. simpl. rewrite Hw. by rewrite decide_True.
  - cbn [waiting alter list_alter]. rewrite (IH j He Hw). simpl. lia.
Qed.

Lemma waiting_drop_last (l : list entry) (j : nat) (e : entry) :
  l !! j = Some e -> e_state e = E_waiting -> length l = S j -> waiting l = S (waiting (take j l)).
Proof.
  intros He Hw Hl. rewrite <- (take_drop_middle _ _ _ He) at 1. rewrite waiting_app. simpl.
  rewrite decide_True, drop_ge by (done || lia). simpl. lia.
Qed.

(** One turn of one waiting producer's loop that leaves the loop. *)
Lemma settle_leaves (debug : bool) (s : sys) (N : Z) (ks kp : nat) :
  inv_at s N ks kp -> last_pos s - pos s kp < 2 ^ 32 -> (0 < waiting (log s))%nat ->
  exists t i s', enabled s (Settle t i) /\ step debug s (Settle t i) = Some s' /\
    inv_at s' N ks kp /\ waiting (log s) = S (waiting (log s')) /\
    last_pos s' <= last_pos s /\ pos s' kp = pos s kp.
Proof.
  intros Hi Hnear Hex. destruct (i_hist _ _ _ _ Hi) as [_ (l & Hlast)].
  assert (r_hist s !! length l = Some (pos s kp)) as HP by (rewrite Hlast; by apply list_lookup_middle).
  destruct (i_order _ _ _ _ Hi) as [Ho Ho'].
  (* the producer that fits, or else the one that reserved last *)
  assert (exists j e, log s !! j = Some e /\ e_state e = E_waiting /\
            (pos s (S j) < pos s kp + N \/ pos s kp + N <= pos s (S j) /\ length (log s) = S j))
    as (j & [n t st] & He & Hw & Hcase).
  { destruct (waiting_ex _ Hex) as (j0 & e0 & He0 & Hw0).
    destruct (Z.lt_ge_cases (pos s (S j0)) (pos s kp + N)) as [|Hge]; [exists j0, e0; auto|].
    pose proof (lookup_lt_Some _ _ _ He0) as Hj0.
    destruct (lookup_lt_is_Some_2 (log s) (length (log s) - 1) ltac:(lia)) as [e He].
    pose proof (pos_le _ _ _ _ Hi (S j0) (length (log s)) ltac:(lia)).
    assert (S (length (log s) - 1) = length (log s)) as El by lia.
    exists (length (log s) - 1)%nat, e. rewrite El. split; [done|]. split; [|right; split; [lia|done]].
    destruct (decide (e_state e = E_waiting)) as [|Hn]; [done|].
    pose proof (i_room _ _ _ _ Hi _ _ He Hn) as Hroom. rewrite El in Hroom. lia. }
  simpl in Hw. subst st.
  destruct (i_tickets _ _ _ _ Hi j _ He ltac:(by intros [])) as (w & Hw & Ht). simpl in Hw.
  destruct (i_writers _ _ _ _ Hi t w Hw) as (Hok & _).
  assert (exists f, w_pc w = W_settle f j) as [f Hpc].
  { destruct (w_pc w); simpl in *; simplify_eq; try (by eexists); exfalso; unfold entry_at in *; naive_solver. }
  assert (enabled s (Settle t (length l))) as Hen by (by exists w, f, j, (pos s kp)).
  exists t, (length l).
  destruct (step_settle debug s N ks kp Hi t (length l) Hen) as (s' & Hs' & Hi').
  exists s'. split; [done|]. split; [done|]. split; [done|].
  destruct (settle_result s N ks kp Hi t (length l) j w f (pos s kp) Hw Hpc HP Hnear)
    as (_ & Hgrant & Hrefuse & _).
  unfold step in Hs'. simpl event_thread in Hs'. cbv iota beta in Hs'. rewrite Hw in Hs'.
  cbn [mbind option_bind] in Hs'. unfold writer_step in Hs'. rewrite Hpc, HP in Hs'.
  cbn [mbind option_bind] in Hs'.
  destruct (alloc_settle (ring s) f (u32 (pos s kp))) as [[m f'] r]. simpl in Hgrant, Hrefuse.
  destruct Hcase as [Hlt|[Hge Hlen]].
  - destruct (Hgrant Hlt) as [-> ->]. injection Hs' as <-. unfold last_pos, pos. simpl.
    rewrite length_alter, !position_alter. split; [by apply (waiting_mark _ j (mk_entry n t E_waiting))|].
    split; [lia|done].
  - destruct (Hrefuse Hge Hlen) as [-> ->]. injection Hs' as <-. unfold last_pos, pos. simpl.
    assert (length (take j (log s)) = j) as Hlj by (rewrite length_take; lia).
    destruct (ticket_entry _ _ _ _ Hi _ _ _ Hw Ht) as (_ & _ & _ & _ & Hj).
    rewrite Hlj, !position_take by lia. split; [by apply (waiting_drop_last _ j (mk_entry n t E_waiting))|].
    split; [|done]. pose proof (pos_le _ _ _ _ Hi j (length (log s)) ltac:(lia)). unfold pos in *. lia.
Qed.

Definition is_settle (e : event) : Prop := match e with Settle _ _ => True | _ => False end.

Lemma settle_all (debug : bool) (n : nat) (s : sys) (N : Z) (ks kp : nat) :
  inv_at s N ks kp -> last_pos s - pos s kp < 2 ^ 32 -> waiting (log s) = n ->
  exists es s', runs debug s es s' /\ Forall is_settle es /\ length es = n /\
    inv_at s' N ks kp /\ waiting (log s') = O.
Proof.
  revert s. induction n as [|n IH]; intros s Hi Hnear Hn.
  - exists [], s. split; [constructor|]. by split; [constructor|].
  - destruct (settle_leaves debug s N ks kp Hi Hnear ltac:(lia))
      as (t & i & s1 & Hen & Hs & Hi1 & Hw & Hl & Hp).
    destruct (IH s1 Hi1 ltac:(lia) ltac:(lia)) as (es & s' & Hr & Hf & Hlen & Hi' & H0).
    exists (Settle t i :: es), s'. split; [by econstructor|]. split; [by constructor|].
    split; [simpl; lia|done].
Qed.

(** C19. No producer waits for the consumer: from every reachable state in which fewer than [2^32]
    blocks are reserved ahead of the published read cursor, the producers in the waiting
    loop can all leave it by their own turns, one turn each, without a step of the
    consumer or of another producer. *)
Theorem miso_progress (debug : bool) (s : sys) :
  reachable debug s -> (forall l P, r_hist s = l ++ [P] -> last_pos s - P < 2 ^ 32) ->
  exists es s', runs debug s es s' /\ Forall is_settle es /\ length es = waiting (log s) /\
    forall t w f j, writers s' !! t = Some w -> w_pc w <> W_settle f j.
Proof.
  intros Hr Hnear. apply reachable_inv in Hr as (N & ks & kp & Hi).
  destruct (i_hist _ _ _ _ Hi) as [_ (l & Hlast)].
  destruct (settle_all debug _ s N ks kp Hi (Hnear l _ Hlast) eq_refl)
    as (es & s' & Hr & Hf & Hlen & Hi' & H0).
  exists es, s'. split_and!; try done. intros t w f j Hw Hpc.
  destruct (i_writers _ _ _ _ Hi' t w Hw) as (Hok & _). rewrite Hpc in Hok.
  destruct Hok as (_ & He & _). pose proof (waiting_pos _ _ _ He eq_refl). lia.
Qed.

(** ** A concrete run *)

(** The protocol, decided. *)
Definition enabledb (s : sys) (e : event) : bool :=
  let at_pc t (f : pc -> bool) := match writers s !! t with Some w => f (w_pc w) | None => false end in
  match e with
  | Start t size tls load_w i =>
      (0 <=? size) && (size + data_block_offset <? 2 ^ 32) && (i <? length (r_hist s))%nat &&
      at_pc t (fun c => match c with W_idle => true | _ => false end)
  | Check t i =>
      (i <? length (r_hist s))%nat && at_pc t (fun c => match c with W_loop _ _ => true | _ => false end)
  | Reserve t =>
      at_pc t (fun c => match c with W_checked f P => last_pos s + f_need f - P <? 2 ^ 32 | _ => false end)
  | Settle t i =>
      at_pc t (fun c => match c, r_hist s !! i with
                        | W_settle _ _, Some P => last_pos s - P <? 2 ^ 32 | _, _ => false end)
  | Number t => at_pc t (fun c => match c with W_granted _ _ _ => true | _ => false end)
  | Place t i =>
      (i <? length (r_hist s))%nat && at_pc t (fun c => match c with W_numbered _ _ _ => true | _ => false end)
  | Write t off bytes =>
      at_pc t (fun c => match c with
                        | W_handle _ size _ => (0 <=? off) && (off + zlen bytes <=? size) &&
                            forallb (fun b => (0 <=? b) && (b <? 256)) bytes
                        | _ => false end)
  | Commit t => at_pc t (fun c => match c with W_handle _ _ _ => true | _ => false end)
  | Read => match reader s with R_idle | R_scan => true | _ => false end
  | Read_empty => match reader s with R_idle => true | _ => false end
  | Return | Discard => match reader s with R_chunk _ => true | _ => false end
  | Publish => match reader s with R_publish => true | _ => false end
  end.

Lemma enabledb_ok (s : sys) (e : event) : enabledb s e = true -> enabled s e.
Proof.
  destruct e; simpl;
    try (destruct (writers s !! t) as [w|]; [|by rewrite ?andb_false_r]);
    try (destruct (w_pc w) eqn:Hpc); try (destruct (reader s) eqn:Hr);
    try (destruct (r_hist s !! i) as [P|] eqn:HP); rewrite ?andb_true_iff, ?Z.leb_le, ?Z.ltb_lt, ?Nat.ltb_lt, ?andb_false_r;
    try done; intros H; repeat match goal with H : _ /\ _ |- _ => destruct H end;
    rewrite ?Z.leb_le, ?Z.ltb_lt, ?Nat.ltb_lt in *; split_and?; try done; try (by eauto 10).
  all: try (do 5 eexists; split_and!; try done; by apply bytes_ok_dec).
  all: try (do 4 eexists; split_and!; try done; by apply bytes_ok_dec).
Qed.

Fixpoint run_checked (debug : bool) (s : sys) (es : list event) : option sys :=
  match es with
  | [] => Some s
  | e :: es => if enabledb s e then s ← step debug s e; run_checked debug s es else None
  end.

Lemma run_checked_reachable (debug : bool) (s s' : sys) (es : list event) :
  reachable debug s -> run_checked debug s es = Some s' -> reachable debug s'.
Proof.
  revert s. induction es as [|e es IH]; intros s Hs H; simpl in H; [congruence|].
  destruct (enabledb s e) eqn:He; [|done]. destruct (step debug s e) as [s1|] eqn:E; [|done].
  apply (IH s1); [|done]. by apply (reachable_step debug s e); [|apply enabledb_ok|].
Qed.

(** A ring of sixteen blocks and four producers: producer 1 sends two payloads, of which the
    consumer takes the first, producers 0 and 3 hold a chunk each, and producer 2 waits
    for room. *)
Definition sample_ring : miso :=
  default (mk_miso 0 0 (mk_head 0 0 0 []) 0 [] init_with_memory)
    (miso_ring_buffer 2048 new_created (mk_head 7 7 7 [1]) (replicate 2048 9) 77).

Definition call (t : nat) (size : Z) : list event :=
  [Start t size true 0 0; Check t 0; Reserve t].

Definition sample_events : list event :=
  call 1 4 ++ [Number 1; Place 1 0; Write 1 0 [1; 2; 3; 4]; Commit 1; Read; Return] ++
  call 0 10 ++ call 1 2 ++ [Number 1; Place 1 0; Write 1 0 [5; 6]; Number 0; Place 0 0; Commit 1] ++
  call 3 100 ++ [Number 3; Place 3 0] ++ call 2 1528.

Definition sample_sys : sys :=
  default (initial_sys sample_ring 4 0 []) (run_checked true (initial_sys sample_ring 4 0 []) sample_events).

Lemma sample_reachable : reachable true sample_sys.
Proof.
  apply (run_checked_reachable true (initial_sys sample_ring 4 0 []) _ sample_events).
  - apply (reachable_new true 2048 new_created (mk_head 7 7 7 [1]) (replicate 2048 9) 77).
    + by apply in_range_dec.
    + done.
    + by vm_compute.
    + by apply bytes_ok_dec; vm_compute.
    + by vm_compute.
  - by vm_compute.
Qed.

Lemma sample_facts :
  consumed sample_sys = [[1; 2; 3; 4]] /\ reader sample_sys = R_idle /\
  map w_sent (writers sample_sys) = [[]; [[1; 2; 3; 4]; [5; 6]]; []; []] /\
  map (fun e => (e_tid e, e_need e)) (log sample_sys) = [(1%nat, 1); (0%nat, 1); (1%nat, 1); (3%nat, 1); (2%nat, 12)] /\
  waiting (log sample_sys) = 1%nat /\ log_checksum_ (head_ (ring sample_sys)) = 77.
Proof. by vm_compute. Qed.

(** Producer 0 commits its chunk. *)
Definition sample_next : sys := default sample_sys (run_checked true sample_sys [Commit 0]).

Lemma sample_next_reachable : reachable true sample_next.
Proof.
  apply (run_checked_reachable true sample_sys _ [Commit 0]); [exact sample_reachable|].
  by vm_compute.
Qed.

Lemma sample_next_facts :
  reader sample_next = R_idle /\
  payloads (survivors sample_next) = [replicate 10 9; [5; 6]] /\
  aligned_blocks_count_ (ring sample_next) = 16 /\ log_checksum_ (head_ (ring sample_next)) = 77 /\
  next_visible (drop (taken sample_next) (log sample_next)) = Some (replicate 10 9).
Proof. by vm_compute. Qed.

Lemma sample_next_accepted : accepted 16 (pos sample_next (taken sample_next)) (survivors sample_next) = true.
Proof. by vm_compute. Qed.

(** The chunks producers 0 and 3 hold. *)
Lemma sample_handles : exists w h j w' h' j',
  writers sample_sys !! 0%nat = Some w /\ w_pc w = W_handle h 10 j /\
  writers sample_sys !! 3%nat = Some w' /\ w_pc w' = W_handle h' 100 j'.
Proof. do 6 eexists. split_and!; [vm_compute; reflexivity|reflexivity|vm_compute; reflexivity|reflexivity]. Qed.

Lemma miso_fifo_witness :
  reachable true sample_sys /\
  (forall e, enabled sample_sys e -> exists s', step true sample_sys e = Some s') /\
  consumed sample_sys = [[1; 2; 3; 4]].
Proof.
  split; [exact sample_reachable|].
  destruct (miso_fifo true sample_sys sample_reachable) as (H & _). split; [exact H|].
  exact (proj1 sample_facts).
Defined.

Lemma miso_exclusive_witness :
  exists w h j w' h' j', writers sample_sys !! 0%nat = Some w /\ w_pc w = W_handle h 10 j /\
    writers sample_sys !! 3%nat = Some w' /\ w_pc w' = W_handle h' 100 j' /\
    (wh_data_addr h + 10 <= wh_data_addr h' \/ wh_data_addr h' + 100 <= wh_data_addr h).
Proof.
  destruct sample_handles as (w & h & j & w' & h' & j' & H0 & Hp & H3 & Hp').
  destruct (miso_exclusive true sample_sys 0 w h 10 j sample_reachable H0 Hp) as (_ & _ & Hx & _).
  exists w, h, j, w', h', j'.
  exact (conj H0 (conj Hp (conj H3 (conj Hp' (Hx 3%nat w' h' 100 j' ltac:(discriminate) H3 Hp'))))).
Defined.

Lemma miso_read_next_witness :
  reachable true sample_next /\ reader sample_next = R_idle /\
  exists m h, read_chunk true (S (length (log sample_next))) (ring sample_next) = Some (m, h) /\
    rh_result h = success /\
    load (aligned_blocks_ m) (rh_data_addr h) (rh_data_size h) = Some (replicate 10 9).
Proof.
  destruct sample_next_facts as (Hr & _ & _ & _ & Hv).
  split; [exact sample_next_reachable|]. split; [exact Hr|].
  destruct (miso_read_next true sample_next sample_next_reachable Hr) as (m & h & H1 & H2).
  rewrite Hv in H2. exists m, h. exact (conj H1 H2).
Defined.

Lemma miso_recover_witness :
  exists m, try_recover_from_exist_memory_map (crashed (ring sample_next) 1 2 init_with_memory) 77 = Some (Some m) /\
    data_traverse true (S (length (survivors sample_next))) m = Some [replicate 10 9; [5; 6]].
Proof.
  destruct sample_next_facts as (_ & Hs & Hc & Hsum & _).
  destruct (miso_recover true sample_next 77 1 2 init_with_memory sample_next_reachable)
    as (rest & res & _ & _ & _ & Hm & Hiff & Ht).
  destruct (proj2 Hiff) as [m ->]; [split; [exact Hsum|rewrite Hc; exact sample_next_accepted]|].
  exists m. destruct (Ht m eq_refl) as [_ Ht']. rewrite Hs in Ht'. exact (conj Hm Ht').
Defined.

Lemma miso_progress_witness :
  waiting (log sample_sys) = 1%nat /\
  exists es s', runs true sample_sys es s' /\ length es = 1%nat /\
    forall t w f j, writers s' !! t = Some w -> w_pc w <> W_settle f j.
Proof.
  assert (waiting (log sample_sys) = 1%nat) as Hw by exact (proj1 (proj2 (proj2 (proj2 (proj2 sample_facts))))).
  split; [exact Hw|].
  assert (forall l P, r_hist sample_sys = l ++ [P] -> last_pos sample_sys - P < 2 ^ 32) as Hnear.
  { intros l P H. assert (r_hist sample_sys = [] ++ [0]) as E by (vm_compute; reflexivity).
    rewrite E in H. apply app_inj_tail in H as [_ <-]. vm_compute. reflexivity. }
  destruct (miso_progress true sample_sys sample_reachable Hnear) as (es & s' & H1 & _ & H2 & H3).
  exists es, s'. rewrite Hw in H2. exact (conj H1 (conj H2 H3)).
Defined.

(** ** Observations *)

(** The size of the head wraps: the largest sizes get a chunk of one block. *)
Lemma need_blocks_wraps (size : Z) : 2 ^ 32 - 7 <= size < 2 ^ 32 -> need_blocks 16 size = Some 1.
Proof.
  intros H. unfold need_blocks, data_block_offset, CACHE_LINE_SIZE, CACHE_LINE_SIZE_LOG2, MAX_BLOCK_NUM_PER_CHUNK.
  assert (u32 (size + 8) = size + 8 - 2 ^ 32) as ->.
  { unfold wrap. symmetry. apply (Zmod_unique _ _ 1); lia. }
  rewrite Z.shiftr_div_pow2 by lia. change (2 ^ 7) with 128.
  assert ((size + 8 - 2 ^ 32 + (128 - 1)) / 128 = 1) as -> by (Z.to_euclidean_division_equations; lia).
  done.
Qed.

(** A map in which a skipped chunk claims to have no blocks is scanned forever. *)
Lemma recover_stuck (fuel : nat) :
  recover_loop fuel 16 (0 :: 0 :: 0 :: 2 :: replicate 2044 0) 0 0 = None.
Proof.
  induction fuel as [|fuel IH]; [done|]. cbn [recover_loop].
  assert (recover_turn 16 (0 :: 0 :: 0 :: 2 :: replicate 2044 0) 0 = Some (Some (0, false))) as ->
    by (by vm_compute).
  exact IH.
Qed.

(** A skipped chunk of nine of sixteen blocks at the last block: the recovery refuses the map
    and with it the payload committed behind the chunk. *)
Definition round_trip (size : Z) (i : nat) : list event :=
  [Start 0 size true 0 i; Check 0 i; Reserve 0; Number 0; Place 0 i; Commit 0; Read; Return; Publish].

Definition skip_events : list event :=
  round_trip 1000 0 ++ round_trip 880 1 ++
  [Start 0 1100 true 15 2; Check 0 2; Reserve 0; Number 0; Place 0 2; Check 0 2; Reserve 0; Settle 0 2;
   Start 1 5 true 24 2; Check 1 2; Reserve 1; Number 1; Place 1 2; Commit 1].

Definition skip_sys : sys :=
  default sample_sys (run_checked true (initial_sys sample_ring 4 0 []) skip_events).

Lemma recover_refuses_skip :
  run_checked true (initial_sys sample_ring 4 0 []) skip_events = Some skip_sys /\
  payloads (survivors skip_sys) = [replicate 5 9] /\
  try_recover_from_exist_memory_map (crashed (ring skip_sys) 0 0 init_with_memory) 77 = Some None.
Proof. by vm_compute. Qed.

(** A ring over a fresh memory map reports that it has none. *)
Lemma fresh_map_state (m m' : miso) (checksum : Z) :
  init_with_memory_map m checksum = Some m' -> mmap_buffer_state_ m' = init_with_memory.
Proof.
  unfold init_with_memory_map, init_blocks. destruct (clear_loop _ _ _ _); [|done].
  cbn [mbind option_bind]. by intros [= <-].
Qed.
