(* ===== verification/LogBuffer.v ===== *)
(** * The log buffer
    ([src/buffer/log_buffer.cpp], [include/qlog/buffer/log_buffer.hpp],
    [src/buffer/group_list.cpp], [include/qlog/buffer/group_list.hpp])

    Threads write chunks, one reader takes them out. A thread that writes seldom shares one
    ring with the others, the low-frequency buffer; a thread that writes often has a block of
    its own, from groups of blocks that grow as needed; a chunk too large for either goes
    through an oversize buffer with a reference in the shared ring. What keeps a thread's
    chunks in order is a sequence number: every chunk in the shared ring and every block
    carries one, and the reader takes them in their order.

    The rings are modelled by what [Siso] and [Miso] prove of them: a sequence of chunks,
    taken from the front once they are committed. Whether an allocation finds room is an
    answer of the environment, as their sizes and the time are. A block is named by its group
    and its index. Payloads are of any type [A]; the space that is handed out is filled by the
    commit. An assertion that fails, and the use of an object that is gone, are [None]. *)
From stdpp Require Import base list option numbers gmap.
From Stdlib Require Import ZArith Lia Bool.
From S2P Require Import Prelude BufferDefs.

Module LogBuffer.

Definition HP_BUFFER_CALL_FREQUENCY_CHECK_INTERVAL : Z := 1000.
Definition OVERSIZE_BUFFER_RECYCLE_INTERVAL_MS : Z := 1000.
Definition UINT32_MAX : Z := 2 ^ 32 - 1.

Inductive log_memory_policy := discard_when_full | block_when_full | auto_expand_when_full.

Inductive context_verify_result := valid | version_pending | version_invalid | seq_pending | seq_invalid.

Inductive read_state := lp_buffer_reading | hp_block_reading | next_block_finding | next_group_finding | traversal_completed.

(** A block: its group and its index in it. *)
Abbreviation block_id := (nat * nat)%type.

(** [context_head]; a thread's [log_tls_buffer_info] is named by a number. *)
Record context_head := mk_context {
  version_ : Z;
  is_thread_finished_ : bool;
  is_external_ref_ : bool;
  seq_ : Z;
  tls_info_ : nat }.

(** ** The state *)

Section Defs.
Context {A : Type}.

(** A chunk of the shared ring; [lc_id] is its address. *)
Record lp_chunk := mk_lp { lc_id : nat; lc_context : context_head; lc_data : option A; lc_committed : bool }.

(** [block_node_head] with its [block_misc_data]; [bk_items]: committed and not yet handed out. *)
Record block := mk_block { bk_context : context_head; is_removed : bool; need_reallocate_ : bool; bk_items : list A }.

(** [group_node] with its [group_data_head]: its name, the lists of indices of blocks, when it
    was put in the pool. *)
Record group := mk_group { g_id : nat; used_ : list nat; free_ : list nat; stage_ : list nat; in_pool_epoch_ms_ : Z }.

(** [oversize_buffer_obj_def]: the context of the buffer, its committed chunks, whether a
    writer holds its lock. *)
Record oversize := mk_os {
  os_id : nat;
  os_size : Z;
  os_context : context_head;
  os_items : list (context_head * A);
  os_locked : bool;
  last_used_epoch_ms_ : Z;
  os_thread_finished : bool }.

(** [log_tls_buffer_info]; [tls_exited]: the thread is gone. *)
Record tls_buffer_info := mk_tls {
  last_update_epoch_ms_ : Z;
  update_times_ : Z;
  cur_block_ : option block_id;
  oversize_parent_handle_ : option nat;
  oversize_target_buffer_ : option nat;
  current_write_seq_ : Z;
  current_read_seq_ : Z;
  tls_exited : bool }.

(** [current_reading_], [mem_optimize_] and the two variables of the reading thread. The batch
    of a block that is being handed out is [hp_success] and [hp_rest]. *)
Record reading := mk_reading {
  last_group_ : option nat;
  cur_group_ : option nat;
  last_block_ : option block_id;
  rd_block_ : option block_id;
  rd_version_ : Z;
  is_in_recovery_reading_ : bool;
  recovery_records_ : list (gmap nat Z);
  state_ : read_state;
  traverse_end_block_is_working_ : bool;
  traverse_end_block_ : option block_id;
  hp_success : bool;
  hp_rest : list A;
  rt_oversize_parent_handle_ : option nat;
  rt_oversize_target_buffer_ : option nat;
  left_holes_num_ : Z;
  cur_group_using_blocks_num_ : Z;
  is_block_marked_removed : bool;
  verify_result_ : context_verify_result }.

(** [os_next] numbers the oversize buffers, as [current_oversize_buffer_index_] numbers their files. *)
Record state := mk_state {
  lp_ : list lp_chunk;
  lp_next : nat;
  blocks_ : gmap block_id block;
  groups_ : list group;
  pool_ : list group;
  current_group_index_ : nat;
  os_ : list oversize;
  os_next : nat;
  threads_ : gmap nat tls_buffer_info;
  hp_buffer_max_alloc_size_ : Z;
  rd_ : reading }.

Definition set_lp (l : list lp_chunk) (st : state) : state :=
  mk_state l (lp_next st) (blocks_ st) (groups_ st) (pool_ st) (current_group_index_ st) (os_ st) (os_next st) (threads_ st)
    (hp_buffer_max_alloc_size_ st) (rd_ st).
Definition set_blocks (b : gmap block_id block) (st : state) : state :=
  mk_state (lp_ st) (lp_next st) b (groups_ st) (pool_ st) (current_group_index_ st) (os_ st) (os_next st) (threads_ st)
    (hp_buffer_max_alloc_size_ st) (rd_ st).
Definition set_groups (gs pool : list group) (index : nat) (st : state) : state :=
  mk_state (lp_ st) (lp_next st) (blocks_ st) gs pool index (os_ st) (os_next st) (threads_ st)
    (hp_buffer_max_alloc_size_ st) (rd_ st).
Definition set_os (l : list oversize) (index : nat) (st : state) : state :=
  mk_state (lp_ st) (lp_next st) (blocks_ st) (groups_ st) (pool_ st) (current_group_index_ st) l index (threads_ st)
    (hp_buffer_max_alloc_size_ st) (rd_ st).
Definition set_threads (ts : gmap nat tls_buffer_info) (st : state) : state :=
  mk_state (lp_ st) (lp_next st) (blocks_ st) (groups_ st) (pool_ st) (current_group_index_ st) (os_ st) (os_next st) ts
    (hp_buffer_max_alloc_size_ st) (rd_ st).
Definition set_max (m : Z) (st : state) : state :=
  mk_state (lp_ st) (lp_next st) (blocks_ st) (groups_ st) (pool_ st) (current_group_index_ st) (os_ st) (os_next st)
    (threads_ st) m (rd_ st).
Definition set_rd (r : reading) (st : state) : state :=
  mk_state (lp_ st) (lp_next st) (blocks_ st) (groups_ st) (pool_ st) (current_group_index_ st) (os_ st) (os_next st)
    (threads_ st) (hp_buffer_max_alloc_size_ st) r.

(** A new chunk at the end of the shared ring. *)
Definition push_lp (c : context_head) (st : state) : nat * state :=
  (lp_next st,
   mk_state (lp_ st ++ [mk_lp (lp_next st) c None false]) (S (lp_next st)) (blocks_ st) (groups_ st) (pool_ st) (current_group_index_ st) (os_ st)
     (os_next st) (threads_ st) (hp_buffer_max_alloc_size_ st) (rd_ st)).

Definition update_lp (f : lp_chunk -> lp_chunk) (id : nat) (st : state) : state :=
  set_lp ((fun c => if (lc_id c =? id)%nat then f c else c) <$> lp_ st) st.

Definition update_block (f : block -> block) (b : block_id) (st : state) : state := set_blocks (alter f b (blocks_ st)) st.

Definition update_os (f : oversize -> oversize) (id : nat) (st : state) : state :=
  set_os ((fun o => if (os_id o =? id)%nat then f o else o) <$> os_ st) (os_next st) st.

Definition set_tls (t : nat) (i : tls_buffer_info) (st : state) : state := set_threads (<[t := i]> (threads_ st)) st.

Definition update_tls (f : tls_buffer_info -> tls_buffer_info) (t : nat) (st : state) : state := set_threads (alter f t (threads_ st)) st.

Definition set_cur_block (b : option block_id) (i : tls_buffer_info) : tls_buffer_info :=
  mk_tls (last_update_epoch_ms_ i) (update_times_ i) b (oversize_parent_handle_ i) (oversize_target_buffer_ i) (current_write_seq_ i)
    (current_read_seq_ i) (tls_exited i).
Definition set_write_seq (s : Z) (i : tls_buffer_info) : tls_buffer_info :=
  mk_tls (last_update_epoch_ms_ i) (update_times_ i) (cur_block_ i) (oversize_parent_handle_ i) (oversize_target_buffer_ i) s
    (current_read_seq_ i) (tls_exited i).
Definition set_read_seq (s : Z) (i : tls_buffer_info) : tls_buffer_info :=
  mk_tls (last_update_epoch_ms_ i) (update_times_ i) (cur_block_ i) (oversize_parent_handle_ i) (oversize_target_buffer_ i) (current_write_seq_ i)
    s (tls_exited i).
Definition set_times (epoch times : Z) (i : tls_buffer_info) : tls_buffer_info :=
  mk_tls epoch times (cur_block_ i) (oversize_parent_handle_ i) (oversize_target_buffer_ i) (current_write_seq_ i) (current_read_seq_ i) (tls_exited i).
Definition set_oversize (parent target : option nat) (i : tls_buffer_info) : tls_buffer_info :=
  mk_tls (last_update_epoch_ms_ i) (update_times_ i) (cur_block_ i) parent target (current_write_seq_ i) (current_read_seq_ i) (tls_exited i).
Definition set_exited (i : tls_buffer_info) : tls_buffer_info :=
  mk_tls (last_update_epoch_ms_ i) (update_times_ i) (cur_block_ i) (oversize_parent_handle_ i) (oversize_target_buffer_ i) (current_write_seq_ i)
    (current_read_seq_ i) true.

Definition new_tls : tls_buffer_info := mk_tls 0 0 None None None 0 0 false.

Definition set_removed (b : bool) (k : block) : block := mk_block (bk_context k) b (need_reallocate_ k) (bk_items k).
Definition set_reallocate (b : bool) (k : block) : block := mk_block (bk_context k) (is_removed k) b (bk_items k).
Definition set_items (l : list A) (k : block) : block := mk_block (bk_context k) (is_removed k) (need_reallocate_ k) l.
Definition finish_context (c : context_head) : context_head := mk_context (version_ c) true (is_external_ref_ c) (seq_ c) (tls_info_ c).
Definition bump_version (c : context_head) : context_head :=
  mk_context (u16 (version_ c + 1)) (is_thread_finished_ c) (is_external_ref_ c) (seq_ c) (tls_info_ c).
Definition map_context (f : context_head -> context_head) (k : block) : block :=
  mk_block (f (bk_context k)) (is_removed k) (need_reallocate_ k) (bk_items k).

(** [mark_block_removed] *)
Definition mark_block_removed (b : block_id) (st : state) : state := update_block (set_removed true) b st.

(** ** Parameters *)

(** [BLOCKS_PER_GROUP_NODE], the policy, the threshold, the version of this run, and the
    largest chunk of a block. *)
Variables (max_blocks : nat) (policy : log_memory_policy) (threshold : Z) (version : Z) (block_max_alloc : Z).

(** ** The groups *)

Definition new_group (id : nat) : group := mk_group id [] (rev (seq 0 max_blocks)) [] 0.

(** A free block of the first group that has one, moved to its stage. *)
Fixpoint take_free (gs : list group) : option (block_id * list group) :=
  match gs with
  | [] => None
  | g :: gs =>
      match free_ g with
      | i :: free => Some ((g_id g, i), mk_group (g_id g) (used_ g) free (i :: stage_ g) (in_pool_epoch_ms_ g) :: gs)
      | [] => '(b, gs) ← take_free gs; Some (b, g :: gs)
      end
  end.

(** [group_list::alloc_new_block]: with its context; [renew] empties the block. *)
Definition alloc_new_block (c : context_head) (st : state) : option (block_id * state) :=
  let fill b st := set_blocks (<[b := mk_block c false false []]> (blocks_ st)) st in
  match take_free (groups_ st) with
  | Some (b, gs) => Some (b, fill b (set_groups gs (pool_ st) (current_group_index_ st) st))
  | None =>
      let '(g, pool, index) :=
        match pool_ st with
        | g :: pool => (g, pool, current_group_index_ st)
        | [] => (new_group (S (current_group_index_ st)), [], S (current_group_index_ st))
        end in
      match free_ g with
      | i :: free => Some ((g_id g, i), fill (g_id g, i) (set_groups (mk_group (g_id g) (used_ g) free (i :: stage_ g) (in_pool_epoch_ms_ g) :: groups_ st) pool index st))
      | [] => None
      end
  end.

Definition find_group (id : nat) (gs : list group) : option group := List.find (fun g => (g_id g =? id)%nat) gs.

Definition put_group (g : group) (gs : list group) : list group := (fun h => if (g_id h =? g_id g)%nat then g else h) <$> gs.

(** The group behind the one named. *)
Fixpoint group_after (id : nat) (gs : list group) : option nat :=
  match gs with
  | [] => None
  | g :: gs => if (g_id g =? id)%nat then g_id <$> head gs else group_after id gs
  end.

(** [block_list::next] in the list [l] of indices; not in the list is an assertion. *)
Fixpoint next_in (i : nat) (l : list nat) : option (option nat) :=
  match l with
  | [] => None
  | j :: l => if (j =? i)%nat then Some (head l) else next_in i l
  end.

(** [push_after_thread_unsafe] *)
Fixpoint push_after (prev : option nat) (i : nat) (l : list nat) : option (list nat) :=
  match prev, l with
  | None, _ => Some (i :: l)
  | Some p, [] => None
  | Some p, j :: l => if (j =? p)%nat then Some (j :: i :: l) else l ← push_after prev i l; Some (j :: l)
  end.

(** [remove_thread_unsafe]: [i] must be what follows [prev]. *)
Fixpoint remove_after (prev : option nat) (i : nat) (l : list nat) : option (list nat) :=
  match prev, l with
  | _, [] => None
  | None, j :: l => if (j =? i)%nat then Some l else None
  | Some p, j :: l =>
      if (j =? p)%nat then match l with k :: l => if (k =? i)%nat then Some (j :: l) else None | [] => None end
      else l ← remove_after prev i l; Some (j :: l)
  end.

(** ** Writing *)

(** Where the space of a handle is. *)
Inductive address := Nowhere | In_lp (id : nat) | In_block (b : block_id) | In_oversize (id : nat).

Record handle := mk_handle { h_result : enum_buffer_result_code; h_at : address }.

(** What the next allocation from a ring answers. *)
Definition next_answer (answers : list enum_buffer_result_code) : enum_buffer_result_code * list enum_buffer_result_code :=
  match answers with [] => (success, []) | a :: answers => (a, answers) end.

Definition is_success (r : enum_buffer_result_code) : bool := match r with success => true | _ => false end.
Definition is_full (r : enum_buffer_result_code) : bool := match r with err_not_enough_space => true | _ => false end.

(** [get_buffer_info]: what the thread has for this buffer, made when it is not there. *)
Definition get_buffer_info (t : nat) (st : state) : tls_buffer_info * state :=
  match threads_ st !! t with
  | Some i => (i, st)
  | None => (new_tls, set_tls t new_tls st)
  end.

(** [alloc_new_hp_block] *)
Definition alloc_new_hp_block (t : nat) (st : state) : option (block_id * state) :=
  i ← threads_ st !! t;
  '(b, st) ← alloc_new_block (mk_context version false false (current_write_seq_ i) t)
               (set_tls t (set_write_seq (u32 (current_write_seq_ i + 1)) i) st);
  let st := if hp_buffer_max_alloc_size_ st =? UINT32_MAX then set_max block_max_alloc st else st in
  Some (b, st).

(** The search for an oversize buffer of the thread with room for the chunk: its name. *)
Fixpoint find_oversize (t : nat) (os : list oversize) (answers : list enum_buffer_result_code) :
    option nat * list enum_buffer_result_code :=
  match os with
  | [] => (None, answers)
  | o :: os =>
      if os_thread_finished o then find_oversize t os answers
      else if negb (version_ (os_context o) =? version) || negb (tls_info_ (os_context o) =? t)%nat then find_oversize t os answers
      else
        let '(r, answers) := next_answer answers in
        if is_success r then (Some (os_id o), answers) else find_oversize t os answers
  end.

Definition lock_oversize (now : Z) (o : oversize) : oversize :=
  mk_os (os_id o) (os_size o) (os_context o) (os_items o) true now (os_thread_finished o).

(** [wt_alloc_oversize_write_chunk] *)
Definition wt_alloc_oversize_write_chunk (t : nat) (size now : Z) (answers : list enum_buffer_result_code) (st : state) :
    option (handle * state) :=
  let '(i, st) := get_buffer_info t st in
  let st := match cur_block_ i with
            | Some b => update_tls (set_cur_block None) t (mark_block_removed b st)
            | None => st
            end in
  let '(r, answers) := next_answer answers in
  if negb (is_success r) then
    let retry := match policy with discard_when_full => false | _ => is_full r end in
    Some (mk_handle (if (retry : bool) then err_wait_and_retry else r) Nowhere, st)
  else
    i ← threads_ st !! t;
    let s := current_write_seq_ i in
    let '(parent, st) := push_lp (mk_context version false true s t) st in
    let st := update_tls (set_write_seq (u32 (s + 1))) t st in
    let '(found, answers) := find_oversize t (os_ st) answers in
    let '(target, st) :=
      match found with
      | Some id => (Some id, update_os (lock_oversize now) id st)
      | None =>
          let '(r, _) := next_answer answers in
          let id := S (os_next st) in
          if is_success r
          then (Some id,
                set_os (os_ st ++ [mk_os id (if size <? Z.shiftr UINT32_MAX 1 then Z.shiftl size 1 else UINT32_MAX)
                                     (mk_context version false true UINT32_MAX t) [] true now false]) id st)
          else (None, set_os (os_ st) id st)
      end in
    match target with
    | None =>
        let st := update_tls (set_write_seq s) t st in
        let st := update_lp (fun c => mk_lp (lc_id c) (mk_context (u16 (version + 1)) (is_thread_finished_ (lc_context c))
                                        (is_external_ref_ (lc_context c)) (seq_ (lc_context c)) (tls_info_ (lc_context c))) None true) parent st in
        Some (mk_handle err_io_failure_drop Nowhere, st)
    | Some id => Some (mk_handle success (In_oversize id), update_tls (set_oversize (Some parent) (Some id)) t st)
    end.

(** The [while] of [alloc_write_chunk]: the result and what is left of the answers. A turn
    that goes round takes an answer. *)
Fixpoint alloc_loop (fuel : nat) (t : nat) (high : bool) (now : Z) (answers : list enum_buffer_result_code) (st : state) :
    option (handle * list enum_buffer_result_code * state) :=
  match fuel with
  | O => None
  | S fuel =>
      i ← threads_ st !! t;
      if high then
        '(b, st) ←
          (match cur_block_ i with
           | None => alloc_new_hp_block t st
           | Some b =>
               k ← blocks_ st !! b;
               if need_reallocate_ k then alloc_new_hp_block t (mark_block_removed b st) else Some (b, st)
           end);
        let st := update_tls (set_cur_block (Some b)) t st in
        let '(r, answers) := next_answer answers in
        if is_full r then
          match policy with
          | auto_expand_when_full =>
              '(b, st) ← alloc_new_hp_block t (mark_block_removed b st);
              alloc_loop fuel t high now answers (update_tls (set_cur_block (Some b)) t st)
          | block_when_full => Some (mk_handle err_wait_and_retry Nowhere, answers, st)
          | discard_when_full => Some (mk_handle r Nowhere, answers, st)
          end
        else Some (mk_handle r (if is_success r then In_block b else Nowhere), answers, st)
      else
        let '(r, answers) := next_answer answers in
        let leave (h : handle) st :=
          let st := match cur_block_ i with
                    | Some b => update_tls (set_cur_block None) t (mark_block_removed b st)
                    | None => st
                    end in
          Some (h, answers, st) in
        if is_success r then
          let '(id, st) := push_lp (mk_context version false false (current_write_seq_ i) t) st in
          leave (mk_handle success (In_lp id)) (update_tls (set_write_seq (u32 (current_write_seq_ i + 1))) t st)
        else if is_full r then
          match policy with
          | auto_expand_when_full => alloc_loop fuel t true now answers (update_tls (set_times now 0) t st)
          | block_when_full => leave (mk_handle err_wait_and_retry Nowhere) st
          | discard_when_full => leave (mk_handle r Nowhere) st
          end
        else leave (mk_handle r Nowhere) st
  end.

(** The frequency of the thread's calls: whether it is high, and the two counters. *)
Definition frequency (i : tls_buffer_info) (now : Z) : bool * Z * Z :=
  let high := match cur_block_ i with Some _ => true | None => false end in
  let '(high, epoch, times) :=
    if u64 (last_update_epoch_ms_ i + HP_BUFFER_CALL_FREQUENCY_CHECK_INTERVAL) <=? now
    then (if update_times_ i <? threshold then false else high, now, 0)
    else (high, last_update_epoch_ms_ i, update_times_ i) in
  let times := u64 (times + 1) in
  if threshold <=? times then (true, now, 0) else (high, epoch, times).

(** [alloc_write_chunk] *)
Definition alloc_write_chunk (t : nat) (size now : Z) (answers : list enum_buffer_result_code) (st : state) : option (handle * state) :=
  let '(i, st) := get_buffer_info t st in
  let '(high, epoch, times) := frequency i now in
  let st := update_tls (set_times epoch times) t st in
  let is_invalid_hp_size := (high : bool) && (hp_buffer_max_alloc_size_ st <? size) in
  '(h, answers, st) ←
    (if is_invalid_hp_size then Some (mk_handle err_empty_log_buffer Nowhere, answers, st)
     else alloc_loop (S (S (length answers))) t high now answers st);
  let too_big := match h_result h with err_alloc_size_invalid => true | _ => false end in
  if (is_invalid_hp_size || too_big) && (0 <? size) then wt_alloc_oversize_write_chunk t size now answers st else Some (h, st).

Definition commit_lp (a : option A) (c : lp_chunk) : lp_chunk := mk_lp (lc_id c) (lc_context c) a true.

(** [wt_commit_oversize_write_chunk]; the context of the chunk was written with the space. *)
Definition wt_commit_oversize_write_chunk (t : nat) (a : A) (st : state) : option state :=
  i ← threads_ st !! t;
  target ← oversize_target_buffer_ i;
  parent ← oversize_parent_handle_ i;
  c ← List.find (fun c => (lc_id c =? parent)%nat) (lp_ st);
  let put o := mk_os (os_id o) (os_size o) (os_context o) (os_items o ++ [(mk_context version false true (seq_ (lc_context c)) t, a)]) false
                 (last_used_epoch_ms_ o) (os_thread_finished o) in
  let st := update_os put target st in
  let st := update_tls (set_oversize (Some parent) None) t st in
  Some (update_lp (commit_lp None) parent st).

(** [commit_write_chunk] with what the space holds; the place of the handle must agree with the
    state of the thread. *)
Definition commit_write_chunk (t : nat) (h : handle) (a : A) (st : state) : option state :=
  i ← threads_ st !! t;
  match cur_block_ i with
  | Some b =>
      if is_success (h_result h) then
        match h_at h with
        | In_block b' => if decide (b' = b) then Some (update_block (fun k => set_items (bk_items k ++ [a]) k) b st) else None
        | _ => None
        end
      else Some st
  | None =>
      if is_success (h_result h) then
        match h_at h with
        | In_lp id => Some (update_lp (commit_lp (Some a)) id st)
        | In_oversize id => if decide (oversize_target_buffer_ i = Some id) then wt_commit_oversize_write_chunk t a st else None
        | _ => None
        end
      else Some st
  end.

(** The end of a thread, [~log_tls_info]: the mark in the shared ring, when there is room. *)
Definition thread_exit (t : nat) (st : state) : option state :=
  i ← threads_ st !! t;
  let finish o :=
    if (tls_info_ (os_context o) =? t)%nat && (version_ (os_context o) =? version)
    then mk_os (os_id o) (os_size o) (os_context o) (os_items o) (os_locked o) (last_used_epoch_ms_ o) true else o in
  let st := set_os (finish <$> os_ st) (os_next st) st in
  match cur_block_ i with
  | Some b => Some (update_tls (fun i => set_exited (set_cur_block None i)) t (mark_block_removed b (update_block (map_context finish_context) b st)))
  | None =>
      let '(id, st) := push_lp (mk_context version true false (current_write_seq_ i) t) st in
      let st := update_tls (fun i => set_exited (set_write_seq (u32 (current_write_seq_ i + 1)) i)) t st in
      Some (update_lp (commit_lp None) id st)
  end.

End Defs.
End LogBuffer.
