(* ===== verification/BlockList.v ===== *)
(** * Lists of blocks
    ([include/qlog/buffer/block_list.hpp], [src/buffer/block_list.cpp])

    The blocks of a group are an array; the lists of free, staged and used blocks run through
    them by indices. Blocks are taken from and put on the free list and the stage by many
    threads at once, with a mark next to the index of the head that every change counts up;
    the used list belongs to the reader. A list may be found in a memory map of an earlier run.

    The array is a map from indices to nodes; an index without a node is an assertion or an
    access out of bounds, [None]. *)
From stdpp Require Import base list option numbers gmap.
From Stdlib Require Import ZArith Lia Bool.
From S2P Require Import Prelude BufferDefs.

Module BlockList.

Inductive block_list_type := list_none | list_free | list_stage | list_used | list_keep_prev.

#[export] Instance block_list_type_eq_dec : EqDecision block_list_type.
Proof. solve_decision. Defined.

(** [block_node_head::pointer_type] *)
Record pointer_type := mk_ptr { index : Z; aba_mark : Z }.

#[export] Instance pointer_type_eq_dec : EqDecision pointer_type.
Proof. solve_decision. Defined.

(** [block_node_head], without the data of the block *)
Record block_node_head := mk_node { next_ : pointer_type; type_ : block_list_type }.

Abbreviation blocks := (gmap Z block_node_head).

Definition EMPTY : Z := 2 ^ 16 - 1.
Definition is_empty_index (i : Z) : bool := i =? EMPTY.
Definition is_empty (p : pointer_type) : bool := is_empty_index (index p).

(** [first] and [next] *)
Definition first (head : pointer_type) : option Z := if is_empty head then None else Some (index head).
Definition next (i : Z) (bs : blocks) : option (option Z) := n ← bs !! i; Some (first (next_ n)).

Definition set_next (p : pointer_type) (n : block_node_head) : block_node_head := mk_node p (type_ n).
Definition set_next_index (i : Z) (n : block_node_head) : block_node_head := mk_node (mk_ptr i (aba_mark (next_ n))) (type_ n).
Definition set_type (t : block_list_type) (n : block_node_head) : block_node_head := mk_node (next_ n) t.

(** ** Threads at a list

    The atomic accesses of [pop] and [push]: the load of the head, the access to the node, the
    exchange. What a thread holds between them. *)
Inductive local :=
  | Pop_next (head_cpy : pointer_type)
  | Pop_exchange (head_cpy : pointer_type) (desired : Z)
  | Push_next (node : Z) (head_cpy : pointer_type)
  | Push_exchange (node : Z) (head_cpy : pointer_type).

(** [overtaken t]: how often the head has changed since thread [t] loaded it. *)
Record stack := mk_stack {
  head_ : pointer_type;
  nodes : blocks;
  locals : gmap nat local;
  overtaken : gmap nat Z }.

Inductive event :=
  | Load_pop (t : nat)
  | Load_push (t : nat) (node : Z)
  | Go (t : nat)
  | Write (node : Z) (n : block_node_head).

Inductive output := Popped (i : option Z) | Pushed (i : Z).

Variant outcome := Quiet | Output (o : output).

(** [compare_exchange_strong] on the head: a new head, or the head that was found instead. *)
Definition exchange (expected desired : pointer_type) (s : stack) : bool * pointer_type * stack :=
  if decide (head_ s = expected) then (true, expected, mk_stack desired (nodes s) (locals s) ((fun n => n + 1) <$> (overtaken s)))
  else (false, head_ s, s).

Definition set_local (t : nat) (l : local) (s : stack) : stack := mk_stack (head_ s) (nodes s) (<[t := l]> (locals s)) (overtaken s).
Definition loaded (t : nat) (s : stack) : stack := mk_stack (head_ s) (nodes s) (locals s) (<[t := 0]> (overtaken s)).
Definition done_with (t : nat) (s : stack) : stack := mk_stack (head_ s) (nodes s) (delete t (locals s)) (delete t (overtaken s)).
Definition set_nodes (bs : blocks) (s : stack) : stack := mk_stack (head_ s) bs (locals s) (overtaken s).

(** One step of a list whose nodes have the type [type]. *)
Definition step (type : block_list_type) (s : stack) (e : event) : option (outcome * stack) :=
  match e with
  | Load_pop t =>
      if is_empty (head_ s) then Some (Output (Popped None), s) else Some (Quiet, loaded t (set_local t (Pop_next (head_ s)) s))
  | Load_push t i =>
      n ← nodes s !! i;
      Some (Quiet, loaded t (set_local t (Push_next i (head_ s)) (set_nodes (<[i := set_type type n]> (nodes s)) s)))
  | Go t =>
      l ← locals s !! t;
      match l with
      | Pop_next h => n ← nodes s !! index h; Some (Quiet, set_local t (Pop_exchange h (index (next_ n))) s)
      | Pop_exchange h d =>
          let '(ok, h', s) := exchange h (mk_ptr d (u16 (aba_mark h + 1))) s in
          if (ok : bool) then Some (Output (Popped (Some (index h))), done_with t s)
          else if is_empty h' then Some (Output (Popped None), done_with t s)
          else Some (Quiet, loaded t (set_local t (Pop_next h') s))
      | Push_next i h =>
          n ← nodes s !! i; Some (Quiet, set_local t (Push_exchange i h) (set_nodes (<[i := set_next_index (index h) n]> (nodes s)) s))
      | Push_exchange i h =>
          let '(ok, h', s) := exchange h (mk_ptr i (u16 (aba_mark h + 1))) s in
          if (ok : bool) then Some (Output (Pushed i), done_with t s) else Some (Quiet, loaded t (set_local t (Push_next i h') s))
      end
  | Write i n => Some (Quiet, set_nodes (<[i := n]> (nodes s)) s)
  end.

(** ** Content *)

(** The nodes from [i] on, up to the empty index. *)
Fixpoint chain (bs : blocks) (i : Z) (l : list Z) : Prop :=
  match l with
  | [] => i = EMPTY
  | j :: l => i = j /\ j <> EMPTY /\ exists n, bs !! j = Some n /\ chain bs (index (next_ n)) l
  end.

Fixpoint walk (fuel : nat) (i : Z) (bs : blocks) : list Z :=
  if is_empty_index i then [] else
  match fuel with
  | O => []
  | S fuel => match bs !! i with Some n => i :: walk fuel (index (next_ n)) bs | None => [] end
  end.

Definition content (s : stack) : list Z := walk (size (nodes s)) (index (head_ s)) (nodes s).

(** A node that is neither in the list nor on its way into it. *)
Definition held (l : local) (i : Z) : Prop := match l with Push_next j _ | Push_exchange j _ => j = i | _ => False end.
Definition out (s : stack) (i : Z) : Prop := (i ∉ content s) /\ forall t l, locals s !! t = Some l -> ~ held l i.

(** A thread pushes what is its own, and is not overtaken by as many changes as the mark can
    count between its load of the head and its exchange. *)
Definition enabled (s : stack) (e : event) : Prop :=
  match e with
  | Load_pop t => locals s !! t = None
  | Load_push t i => locals s !! t = None /\ i <> EMPTY /\ is_Some (nodes s !! i) /\ out s i
  | Go t => is_Some (locals s !! t) /\ forall k, overtaken s !! t = Some k -> k < 2 ^ 16
  | Write i _ => out s i
  end.

Inductive runs (type : block_list_type) : stack -> list event -> list outcome -> stack -> Prop :=
  | runs_nil s : runs type s [] [] s
  | runs_cons s e o s1 es os s2 : enabled s e -> step type s e = Some (o, s1) -> runs type s1 es os s2 -> runs type s (e :: es) (o :: os) s2.

(** What a stack of indices does for the outcomes of a run. *)
Fixpoint replay (os : list outcome) (l : list Z) : option (list Z) :=
  match os with
  | [] => Some l
  | Quiet :: os => replay os l
  | Output (Pushed i) :: os => replay os (i :: l)
  | Output (Popped None) :: os => match l with [] => replay os l | _ => None end
  | Output (Popped (Some i)) :: os => match l with j :: l => if i =? j then replay os l else None | [] => None end
  end.

(** ** Chains *)

Lemma chain_same bs i l1 l2 : chain bs i l1 -> chain bs i l2 -> l1 = l2.
Proof.
  revert i l2. induction l1 as [|j l1 IH]; intros i [|j2 l2]; simpl; try done.
  - by intros -> (-> & ? & _).
  - by intros (-> & ? & _) ->.
  - intros (-> & _ & n & Hn & H1) (-> & _ & n2 & Hn2 & H2). assert (n2 = n) as -> by congruence. f_equal. by eapply IH.
Qed.

Lemma chain_suffix bs i l1 j l2 : chain bs i (l1 ++ j :: l2) -> chain bs j (j :: l2).
Proof.
  revert i. induction l1 as [|k l1 IH]; intros i; simpl.
  - by intros (-> & ? & ?).
  - intros (-> & _ & n & _ & H). by apply (IH _ H).
Qed.

Lemma chain_NoDup bs i l : chain bs i l -> NoDup l.
Proof.
  revert i. induction l as [|j l IH]; intros i Hc; [constructor|]. pose proof Hc as (-> & _ & n & _ & H). constructor; [|by eapply IH].
  intros Hin. apply list_elem_of_split in Hin as (l1 & l2 & ->). pose proof (chain_suffix bs j (j :: l1) j l2 Hc) as H2.
  pose proof (chain_same _ _ _ _ Hc H2) as E. apply (f_equal length) in E. simpl in E. rewrite length_app in E. simpl in E. lia.
Qed.

Lemma chain_lookup bs i l j : chain bs i l -> j ∈ l -> is_Some (bs !! j) /\ j <> EMPTY.
Proof.
  revert i. induction l as [|k l IH]; intros i; [by intros _ ?%elem_of_nil|]. intros (-> & Hne & n & Hn & H) [->|Hj]%elem_of_cons; [by eauto|by eapply IH].
Qed.

Lemma chain_size bs i l : chain bs i l -> (length l <= size bs)%nat.
Proof.
  intros Hc. rewrite <- (size_list_to_set (C:=gset Z) l) by (by eapply chain_NoDup). rewrite <- size_dom. apply subseteq_size.
  intros j Hj. apply elem_of_list_to_set in Hj. apply elem_of_dom. by eapply chain_lookup.
Qed.

Lemma walk_chain bs i l fuel : chain bs i l -> (length l <= fuel)%nat -> walk fuel i bs = l.
Proof.
  revert i fuel. induction l as [|j l IH]; intros i fuel; simpl.
  - intros -> _. by destruct fuel.
  - intros (-> & Hne & n & Hn & H) Hf. destruct fuel as [|fuel]; [lia|]. simpl. unfold is_empty_index. rewrite (proj2 (Z.eqb_neq _ _) Hne), Hn.
    f_equal. apply IH; [done|lia].
Qed.

Lemma chain_insert bs i l j n : j ∉ l -> chain bs i l -> chain (<[j := n]> bs) i l.
Proof.
  revert i. induction l as [|k l IH]; intros i; simpl; [done|]. intros Hj (-> & Hne & m & Hm & H).
  apply not_elem_of_cons in Hj as [Hjk Hj]. split_and!; [done|done|]. exists m. rewrite lookup_insert_ne by done. split; [done|]. by apply IH.
Qed.

(** ** The invariant *)

Definition loaded_from (bs : blocks) (head h : pointer_type) (k : Z) : Prop :=
  is_empty h = false /\ is_Some (bs !! index h) /\ in_range 16 (aba_mark h) /\ aba_mark head = u16 (aba_mark h + k) /\ (k = 0 -> head = h).

Definition own (bs : blocks) (l : list Z) (i : Z) : Prop := i <> EMPTY /\ (i ∉ l) /\ is_Some (bs !! i).

Definition local_inv (bs : blocks) (head : pointer_type) (l : list Z) (k : Z) (lo : local) : Prop :=
  match lo with
  | Pop_next h => loaded_from bs head h k
  | Pop_exchange h d => loaded_from bs head h k /\ (k = 0 -> exists n, bs !! index h = Some n /\ index (next_ n) = d)
  | Push_next i _ => own bs l i
  | Push_exchange i h => own bs l i /\ exists n, bs !! i = Some n /\ index (next_ n) = index h
  end.

Record inv (s : stack) (l : list Z) : Prop := {
  i_chain : chain (nodes s) (index (head_ s)) l;
  i_mark : in_range 16 (aba_mark (head_ s));
  i_local : forall t lo, locals s !! t = Some lo -> exists k, overtaken s !! t = Some k /\ 0 <= k /\ local_inv (nodes s) (head_ s) l k lo;
  i_distinct : forall t t' lo lo' i, locals s !! t = Some lo -> locals s !! t' = Some lo' -> held lo i -> held lo' i -> t = t' }.

Lemma inv_content s l : inv s l -> content s = l.
Proof. intros Hi. apply walk_chain; [apply Hi|]. eapply chain_size, Hi. Qed.

(** The head of another change. *)
Lemma local_inv_head bs head head' l l' k lo : local_inv bs head l k lo -> aba_mark head' = u16 (aba_mark head + 1) -> 0 <= k ->
  (forall i, held lo i -> i ∉ l') -> local_inv bs head' l' (k + 1) lo.
Proof.
  intros Hl Hm Hk Hh. assert (forall h, loaded_from bs head h k -> loaded_from bs head' h (k + 1)) as Hlf.
  { intros h (? & ? & ? & E & _). split_and!; try done; [|lia]. rewrite Hm, E. rewrite wrap_add_l. f_equal. lia. }
  destruct lo as [h|h d|i h|i h]; simpl in *.
  - by apply Hlf.
  - split; [by apply Hlf, Hl|lia].
  - destruct Hl as (? & ? & ?). split_and!; try done. by apply Hh.
  - destruct Hl as [(? & ? & ?) ?]. split; [split_and!; [done|by apply Hh|done]|done].
Qed.

(** A write to a node outside of the list. *)
Lemma local_inv_write bs head l k lo i n : chain bs (index head) l -> i ∉ l -> ~ held lo i ->
  local_inv bs head l k lo -> local_inv (<[i := n]> bs) head l k lo.
Proof.
  intros Hc Hi Hh Hl. assert (forall j, is_Some (bs !! j) -> is_Some (<[i := n]> bs !! j)) as Hs.
  { intros j Hj. destruct (decide (j = i)) as [->|]; [rewrite lookup_insert_eq; by eexists|by rewrite lookup_insert_ne]. }
  assert (forall h, loaded_from bs head h k -> loaded_from (<[i := n]> bs) head h k) as Hlf.
  { intros h (? & ? & ? & ? & ?). split_and!; auto. }
  destruct lo as [h|h d|j h|j h]; simpl in *.
  - by apply Hlf.
  - destruct Hl as [Hf Hd]. split; [by apply Hlf|]. intros Hk. destruct (Hd Hk) as (m & Hm & E). exists m. rewrite lookup_insert_ne; [done|].
    intros ->. destruct Hf as (He & _ & _ & _ & Hhd). rewrite (Hhd Hk) in Hc. apply Hi. destruct l as [|j l]; [|destruct Hc as (-> & _); by left].
    simpl in Hc. unfold is_empty, is_empty_index in He. apply Z.eqb_neq in He. congruence.
  - destruct Hl as (? & ? & ?). split_and!; auto.
  - destruct Hl as [(? & ? & ?) (m & Hm & E)]. split; [by split_and!; auto|]. exists m. by rewrite lookup_insert_ne.
Qed.

(** Nothing that was loaded is different while the mark says the same. *)
Lemma same_mark bs head h k : loaded_from bs head h k -> head = h -> k < 2 ^ 16 -> 0 <= k -> k = 0.
Proof.
  intros (_ & _ & Hr & Hm & _) -> Hk H0. unfold in_range in Hr. unfold wrap in Hm. rewrite Z.mod_eq in Hm by lia.
  pose proof (Z.mod_pos_bound (aba_mark h + k) (2 ^ 16) ltac:(lia)) as Hb. rewrite Z.mod_eq in Hb by lia.
  set (q := (aba_mark h + k) / 2 ^ 16) in *. nia.
Qed.

(** ** Steps *)

(** What a step may do to the content. *)
Definition step_ok (type : block_list_type) (s : stack) (l : list Z) (e : event) : Prop :=
  exists o s' l', step type s e = Some (o, s') /\ inv s' l' /\ forall os, replay (o :: os) l = replay os l'.

Lemma inv_set s l t lo k : inv s l -> 0 <= k -> local_inv (nodes s) (head_ s) l k lo ->
  (forall i t' lo', held lo i -> locals s !! t' = Some lo' -> t' <> t -> ~ held lo' i) ->
  inv (mk_stack (head_ s) (nodes s) (<[t := lo]> (locals s)) (<[t := k]> (overtaken s))) l.
Proof.
  intros [Hc Hm Hl Hd] Hk Hlo Hx. split; simpl; try done.
  - intros t' lo' H'. apply lookup_insert_Some in H' as [[<- <-]|[Hn H']].
    + exists k. by rewrite lookup_insert_eq.
    + destruct (Hl t' lo' H') as (k' & ? & ?). exists k'. by rewrite lookup_insert_ne.
  - intros t1 t2 lo1 lo2 i H1 H2 Hh1 Hh2. apply lookup_insert_Some in H1 as [[<- <-]|[Hn1 H1]], H2 as [[<- <-]|[Hn2 H2]]; try done.
    + by destruct (Hx i t2 lo2 Hh1 H2).
    + by destruct (Hx i t1 lo1 Hh2 H1).
    + by eapply Hd.
Qed.

Lemma inv_done s l t : inv s l -> inv (done_with t s) l.
Proof.
  intros [Hc Hm Hl Hd]. split; simpl; try done.
  - intros t' lo' [Hn H']%lookup_delete_Some. destruct (Hl t' lo' H') as (k' & ? & ?). exists k'. by rewrite lookup_delete_ne.
  - intros t1 t2 lo1 lo2 i [_ H1]%lookup_delete_Some [_ H2]%lookup_delete_Some. by eapply Hd.
Qed.

Lemma inv_write s l i n : inv s l -> i ∉ l -> (forall t lo, locals s !! t = Some lo -> ~ held lo i) -> inv (set_nodes (<[i := n]> (nodes s)) s) l.
Proof.
  intros [Hc Hm Hl Hd] Hi Hh. split; simpl; try done.
  - by apply chain_insert.
  - intros t lo H'. destruct (Hl t lo H') as (k & ? & ? & ?). exists k. split_and!; try done. eapply local_inv_write; eauto.
Qed.

Lemma inv_change s l l' head' : inv s l -> chain (nodes s) (index head') l' -> aba_mark head' = u16 (aba_mark (head_ s) + 1) ->
  (forall t lo i, locals s !! t = Some lo -> held lo i -> i ∉ l') ->
  inv (mk_stack head' (nodes s) (locals s) ((fun n => n + 1) <$> (overtaken s))) l'.
Proof.
  intros [Hc Hm Hl Hd] Hc' Hm' Hh. split; simpl; try done.
  - rewrite Hm'. unfold in_range, wrap. apply Z.mod_pos_bound. lia.
  - intros t lo H'. destruct (Hl t lo H') as (k & Ho & ? & ?). exists (k + 1). rewrite lookup_fmap, Ho. split; [done|]. split; [lia|].
    eapply local_inv_head; try done. intros i. by apply (Hh t lo).
Qed.

Lemma chain_head bs p l : chain bs (index p) l -> is_empty p = false -> exists l', l = index p :: l' /\ is_Some (bs !! index p).
Proof.
  unfold is_empty, is_empty_index. intros Hc He. apply Z.eqb_neq in He. destruct l as [|j l]; [done|]. destruct Hc as (E & _ & n & Hn & _).
  exists l. rewrite E. split; [done|by exists n].
Qed.

Lemma chain_nil bs p l : chain bs (index p) l -> is_empty p = true -> l = [].
Proof.
  unfold is_empty, is_empty_index. intros Hc He. apply Z.eqb_eq in He. destruct l as [|j l]; [done|]. destruct Hc as (E & Hn & _). congruence.
Qed.

Lemma loaded_now s l : inv s l -> is_empty (head_ s) = false -> loaded_from (nodes s) (head_ s) (head_ s) 0.
Proof.
  intros Hi He. destruct (chain_head _ _ _ (i_chain _ _ Hi) He) as (l' & _ & Hs). split_and!; try done; [apply Hi|].
  rewrite Z.add_0_r, wrap_small; [done|apply Hi].
Qed.

(** The load of the head by [pop]. *)
Lemma load_pop_ok type s l t : inv s l -> step_ok type s l (Load_pop t).
Proof.
  intros Hi. unfold step_ok. simpl. destruct (is_empty (head_ s)) eqn:He.
  - exists (Output (Popped None)), s, l. split; [done|]. split; [done|]. intros os. by rewrite (chain_nil _ _ _ (i_chain _ _ Hi) He).
  - eexists Quiet, _, l. split; [done|]. split; [|done]. apply (inv_set s l t (Pop_next (head_ s)) 0); [done|done|by apply (loaded_now s l)|done].
Qed.

Lemma load_push_ok type s l t i : inv s l -> enabled s (Load_push t i) -> step_ok type s l (Load_push t i).
Proof.
  intros Hi (Ht & Hne & [n Hn] & [Hc Hh]). rewrite (inv_content s l Hi) in Hc. unfold step_ok. simpl. rewrite Hn. cbn [mbind option_bind].
  eexists Quiet, _, l. split; [done|]. split; [|done].
  apply (inv_set (set_nodes (<[i := set_type type n]> (nodes s)) s) l t (Push_next i (head_ s)) 0); [by apply inv_write|done| |].
  - split_and!; try done. simpl. rewrite lookup_insert_eq. by eexists.
  - intros j t' lo' <- Ht' _. by eapply Hh.
Qed.

Lemma write_ok type s l i n : inv s l -> enabled s (Write i n) -> step_ok type s l (Write i n).
Proof.
  intros Hi [Hc Hh]. rewrite (inv_content s l Hi) in Hc. eexists Quiet, _, l. split; [done|]. split; [by apply inv_write|done].
Qed.

(** The turns of the loop of [pop]. *)
Lemma go_pop_next_ok type s l t h : inv s l -> locals s !! t = Some (Pop_next h) -> step_ok type s l (Go t).
Proof.
  intros Hi Ht. destruct (i_local _ _ Hi _ _ Ht) as (k & Hk & H0 & Hf). pose proof Hf as (_ & [n Hn] & _).
  unfold step_ok. simpl. rewrite Ht. cbn [mbind option_bind]. rewrite Hn. cbn [mbind option_bind]. eexists Quiet, _, l. split; [done|]. split; [|done].
  pose proof (inv_set s l t (Pop_exchange h (index (next_ n))) k Hi H0) as Hset. rewrite (insert_id (overtaken s) t k Hk) in Hset. apply Hset; [|done].
  split; [done|]. intros _. by exists n.
Qed.

Lemma go_pop_exchange_ok type s l t h d : inv s l -> locals s !! t = Some (Pop_exchange h d) -> enabled s (Go t) -> step_ok type s l (Go t).
Proof.
  intros Hi Ht [_ Hb]. destruct (i_local _ _ Hi _ _ Ht) as (k & Hk & H0 & Hf & Hd). specialize (Hb k Hk).
  unfold step_ok. simpl. rewrite Ht. cbn [mbind option_bind]. unfold exchange. destruct (decide (head_ s = h)) as [E|Hne].
  - pose proof (same_mark _ _ _ _ Hf E Hb H0) as ->. destruct (Hd eq_refl) as (n & Hn & Hnd).
    pose proof Hf as (He & _). rewrite <- E in He. destruct (chain_head _ _ _ (i_chain _ _ Hi) He) as (l' & -> & _).
    eexists (Output (Popped (Some (index h)))), _, l'. split; [done|]. rewrite <- E. split; [|intros os; simpl; by rewrite Z.eqb_refl].
    pose proof (i_chain _ _ Hi) as (_ & _ & n' & Hn' & Hc). rewrite E in Hn'. assert (n' = n) as -> by congruence.
    apply inv_done, (inv_change s (index (head_ s) :: l')); [done|by rewrite <- Hnd|done|].
    intros t' lo i Ht' Hh Hin. destruct (i_local _ _ Hi _ _ Ht') as (k' & _ & _ & Hlo). destruct lo as [|?|j h'|j h']; simpl in Hh; try done; subst j.
    + destruct Hlo as (_ & Hnot & _). apply Hnot. by right.
    + destruct Hlo as [(_ & Hnot & _) _]. apply Hnot. by right.
  - destruct (is_empty (head_ s)) eqn:He.
    + eexists (Output (Popped None)), _, l. split; [done|]. split; [by apply inv_done|]. intros os. by rewrite (chain_nil _ _ _ (i_chain _ _ Hi) He).
    + eexists Quiet, _, l. split; [done|]. split; [|done]. apply (inv_set s l t (Pop_next (head_ s)) 0); [done|done|by apply (loaded_now s l)|done].
Qed.

(** The turns of the loop of [push]. *)
Lemma others_hold s l t lo i : inv s l -> locals s !! t = Some lo -> held lo i ->
  forall t' lo', locals s !! t' = Some lo' -> t' <> t -> ~ held lo' i.
Proof. intros Hi Ht Hh t' lo' Ht' Hn Hh'. apply Hn. by eapply (i_distinct _ _ Hi). Qed.

Lemma go_push_next_ok type s l t i h : inv s l -> locals s !! t = Some (Push_next i h) -> step_ok type s l (Go t).
Proof.
  intros Hi Ht. destruct (i_local _ _ Hi _ _ Ht) as (k & Hk & H0 & Hne & Hnot & [n Hn]). pose proof (others_hold s l t _ i Hi Ht eq_refl) as Ho.
  unfold step_ok. simpl. rewrite Ht. cbn [mbind option_bind]. rewrite Hn. cbn [mbind option_bind]. eexists Quiet, _, l. split; [done|]. split; [|done].
  assert (inv (set_nodes (<[i := set_next_index (index h) n]> (nodes s)) (done_with t s)) l) as Hi'.
  { apply (inv_write (done_with t s) l); [by apply inv_done|done|]. intros t' lo' H'. simpl in H'. apply lookup_delete_Some in H' as [Hn' H']. by apply (Ho t'). }
  pose proof (inv_set _ l t (Push_exchange i h) k Hi' H0) as Hset. simpl in Hset. rewrite !insert_delete_eq, (insert_id (overtaken s) t k Hk) in Hset.
  apply Hset.
  - split.
    + split_and!; try done. rewrite lookup_insert_eq. by eexists.
    + exists (set_next_index (index h) n). by rewrite lookup_insert_eq.
  - intros j t' lo' <- [_ H']%lookup_delete_Some Hn'. by apply (Ho t').
Qed.

Lemma go_push_exchange_ok type s l t i h : inv s l -> locals s !! t = Some (Push_exchange i h) -> step_ok type s l (Go t).
Proof.
  intros Hi Ht. destruct (i_local _ _ Hi _ _ Ht) as (k & Hk & H0 & (Hne & Hnot & Hs) & n & Hn & Hnx). pose proof (others_hold s l t _ i Hi Ht eq_refl) as Ho.
  unfold step_ok. simpl. rewrite Ht. cbn [mbind option_bind]. unfold exchange. destruct (decide (head_ s = h)) as [E|_].
  - eexists (Output (Pushed i)), _, (i :: l). split; [done|]. split; [|done]. unfold done_with. simpl. rewrite <- fmap_delete.
    apply (inv_change (done_with t s) l (i :: l)); [by apply inv_done| |by rewrite <- E|].
    + simpl. split_and!; [done|done|]. exists n. split; [done|]. rewrite Hnx, <- E. apply Hi.
    + intros t' lo j H' Hh Hin. simpl in H'. apply lookup_delete_Some in H' as [Hn' H']. apply elem_of_cons in Hin as [->|Hin]; [by apply (Ho t' lo)|].
      destruct (i_local _ _ Hi _ _ H') as (k' & _ & _ & Hlo). destruct lo as [|?|j' h'|j' h']; simpl in Hh; try done; subst j'; [apply Hlo|apply Hlo]; done.
  - eexists Quiet, _, l. split; [done|]. split; [|done]. apply (inv_set s l t (Push_next i (head_ s)) 0); [done|done|done|].
    intros j t' lo' <- Ht' Hn'. by apply (Ho t').
Qed.

Lemma stack_step_ok type s l e : inv s l -> enabled s e -> step_ok type s l e.
Proof.
  intros Hi He. destruct e as [t|t i|t|i n]; [by apply load_pop_ok|by apply load_push_ok| |by apply write_ok].
  destruct He as [[lo Ht] Hb] eqn:E. destruct lo.
  - by eapply go_pop_next_ok.
  - by eapply go_pop_exchange_ok.
  - by eapply go_push_next_ok.
  - by eapply go_push_exchange_ok.
Qed.

Lemma runs_ok type s es os s' l : runs type s es os s' -> inv s l -> exists l', inv s' l' /\ replay os l = Some l'.
Proof.
  intros Hr. revert l. induction Hr as [s|s e o s1 es os s2 He Hs Hr IH]; intros l Hi; [by exists l|].
  destruct (stack_step_ok type s l e Hi He) as (o' & s' & l1 & Hs' & Hi1 & Hrep). rewrite Hs in Hs'. injection Hs' as <- <-.
  rewrite Hrep. by apply IH.
Qed.

Lemma initial_stack head bs l : chain bs (index head) l -> in_range 16 (aba_mark head) -> inv (mk_stack head bs ∅ ∅) l.
Proof. intros Hc Hm. by split. Qed.

(** C14. The list of blocks that many threads take from and put on is a stack. In every run of
    threads at one list, with the accesses to the head and to the nodes in any order, every
    step succeeds, and the blocks that [pop] returned and that [push] put on, in the order of
    their exchanges, are those of a stack of indices whose content at the end is what the
    links of the list then say; a [pop] that returns nothing met an empty stack. *)
Theorem block_stack_linearizable (type : block_list_type) (head : pointer_type) (bs : blocks) (l : list Z) (es : list event) (os : list outcome) (s : stack) :
  chain bs (index head) l -> in_range 16 (aba_mark head) -> runs type (mk_stack head bs ∅ ∅) es os s ->
  replay os l = Some (content s) /\ forall e, enabled s e -> is_Some (step type s e).
Proof.
  intros Hc Hm Hr. destruct (runs_ok _ _ _ _ _ l Hr) as (l' & Hi & ->); [by apply initial_stack|]. rewrite (inv_content s l' Hi). split; [done|].
  intros e He. destruct (stack_step_ok type s l' e Hi He) as (o & s' & _ & -> & _). by eexists.
Qed.

#[export] Instance held_dec (l : local) (i : Z) : Decision (held l i).
Proof. destruct l; simpl; apply _. Defined.

(** Two threads at a list of three blocks: the first is about to take block 0, the second
    takes blocks 0 and 1 and puts block 0 back, so the first finds the same block at the head
    under another mark, and starts again. *)
Definition sample_blocks : blocks := {[ 0 := mk_node (mk_ptr 1 0) list_free; 1 := mk_node (mk_ptr 2 0) list_free; 2 := mk_node (mk_ptr EMPTY 0) list_free ]}.
Definition sample_run : list event := [Load_pop 1; Go 1; Load_pop 2; Go 2; Go 2; Load_pop 2; Go 2; Go 2; Load_push 2 0; Go 2; Go 2; Go 1; Go 1; Go 1].

Lemma block_stack_linearizable_witness : exists s,
  runs list_free (mk_stack (mk_ptr 0 0) sample_blocks ∅ ∅) sample_run
    [Quiet; Quiet; Quiet; Quiet; Output (Popped (Some 0)); Quiet; Quiet; Output (Popped (Some 1)); Quiet; Quiet; Output (Pushed 0); Quiet; Quiet; Output (Popped (Some 0))] s /\
  replay [Output (Popped (Some 0)); Output (Popped (Some 1)); Output (Pushed 0); Output (Popped (Some 0))] [0; 1; 2] = Some (content s).
Proof.
  assert (exists s, runs list_free (mk_stack (mk_ptr 0 0) sample_blocks ∅ ∅) sample_run
    [Quiet; Quiet; Quiet; Quiet; Output (Popped (Some 0)); Quiet; Quiet; Output (Popped (Some 1)); Quiet; Quiet; Output (Pushed 0); Quiet; Quiet; Output (Popped (Some 0))] s) as [s Hr].
  { eexists. unfold sample_run. repeat (eapply runs_cons; [|vm_compute; reflexivity|]); [..|apply runs_nil].
    all: simpl enabled; lazymatch goal with
      | |- _ /\ _ /\ _ /\ _ => split; [vm_compute; reflexivity|split; [done|split; [by eexists|split; [|apply (bool_decide_unpack (map_Forall (fun _ lo => ~ held lo 0) _)); vm_compute; exact I]]]]; apply (bool_decide_unpack _); vm_compute; exact I
      | |- _ /\ _ => split; [by eexists|intros k Hk; vm_compute in Hk; injection Hk as <-; lia]
      | |- _ => vm_compute; reflexivity end. }
  exists s. split; [exact Hr|].
  refine (proj1 (block_stack_linearizable list_free (mk_ptr 0 0) sample_blocks [0; 1; 2] sample_run _ s _ _ Hr)); [|split; vm_compute; congruence].
  simpl. split_and!; try done. eexists. split; [reflexivity|]. simpl. split_and!; try done. eexists. split; [reflexivity|]. simpl. split_and!; try done.
  eexists. split; reflexivity.
Defined.

End BlockList.
