(* ===== verification/BlockGroup.v ===== *)
(** * The lists of a group
    ([include/qlog/buffer/block_list.hpp], [src/buffer/block_list.cpp], [src/buffer/group_list.cpp])

    What the reader alone does with the list of the used blocks of a group, and how the three
    lists of a group are found in a memory map of an earlier run: whatever the memory holds,
    the lists that are accepted and the list of the free blocks share out the blocks.

    The operations are those of the build with its checks; a check that fails is [None], or
    the answer false where the code answers so. *)
From stdpp Require Import base list option numbers gmap.
From Stdlib Require Import ZArith Lia Bool.
From S2P Require Import Prelude BufferDefs LogBuffer BlockList.

Module BlockGroup.
Import BlockList.

(** ** The used list *)

Section Defs.

(** [is_include]: the walk from the head, up to [fuel] nodes. *)
Definition is_include (fuel : nat) (head : pointer_type) (i : Z) (bs : blocks) : bool := bool_decide (i ∈ walk fuel (index head) bs).

Definition has_type (t : block_list_type) (i : Z) (bs : blocks) : bool :=
  match bs !! i with Some n => bool_decide (type_ n = t) | None => false end.

(** [push_after_thread_unsafe] *)
Definition push_after_thread_unsafe (type : block_list_type) (prev : option Z) (new : Z) (head : pointer_type) (bs : blocks) : option (pointer_type * blocks) :=
  let fuel := size bs in
  let prev_ok := match prev with Some p => has_type type p bs && is_include fuel head p bs | None => true end in
  if negb prev_ok || has_type type new bs || is_include fuel head new bs then None else
  _ ← bs !! new;
  prev_pointer ← (match prev with Some p => n ← bs !! p; Some (next_ n) | None => Some head end);
  let bs := alter (set_next prev_pointer) new (alter (set_type type) new bs) in
  Some (match prev with
        | Some p => (head, alter (set_next_index new) p bs)
        | None => (mk_ptr new (aba_mark head), bs)
        end).

(** [remove_thread_unsafe] *)
Definition remove_thread_unsafe (type : block_list_type) (prev : option Z) (i : Z) (head : pointer_type) (bs : blocks) : option (bool * pointer_type * blocks) :=
  let fuel := size bs in
  if negb (is_include fuel head i bs) then Some (false, head, bs)
  else if negb (match prev with Some p => is_include fuel head p bs | None => true end) then Some (false, head, bs)
  else if negb (match prev with Some p => has_type type p bs | None => true end) || negb (has_type type i bs) then None
  else
    n ← bs !! i;
    follows ← (match prev with Some p => next p bs | None => Some (first head) end);
    if decide (follows = Some i) then
      Some (match prev with
            | Some p => (true, head, alter (set_next (next_ n)) p bs)
            | None => (true, next_ n, bs)
            end)
    else Some (false, head, bs).

(** ** Lists in a memory map *)

(** [block_list] without the addresses of its range. *)
Record block_list := mk_list { lh_ : pointer_type; offset_ : Z; max_blocks_count_ : Z; buffer_size_per_block_ : Z }.

(** [block_node_head::get_buffer_data_offset] *)
Variable data_offset : Z.

Definition per_block (max total : Z) : Z := let per := total / max in per - per mod CACHE_LINE_SIZE.

(** [reset]; the assertions are on the offset and on the room of a block. *)
Definition reset (max offset total : Z) : option block_list :=
  if (2 ^ 16 - 1 <? offset) || (max =? 0) || (per_block max total <=? data_offset) then None
  else Some (mk_list (mk_ptr EMPTY 0) (u16 offset) max (per_block max total)).

(** The loop of [try_recover_from_memory_map]. *)
Fixpoint recover_loop (fuel : nat) (type : block_list_type) (max : Z) (p : pointer_type) (count : Z) (bs : blocks) : option bool :=
  if negb (is_empty p) && (count <=? max) then
    match fuel with
    | O => None
    | S fuel =>
        let count := u16 (count + 1) in
        if max <=? index p then Some false
        else
          n ← bs !! index p;
          if decide (type_ n = type) then recover_loop fuel type max (next_ n) count bs else Some false
    end
  else Some (count <=? max).

(** [try_recover_from_memory_map] *)
Definition try_recover_from_memory_map (type : block_list_type) (max offset total : Z) (l : block_list) (bs : blocks) : option bool :=
  if negb (max_blocks_count_ l =? max) then Some false
  else if 2 ^ 16 - 1 <? offset then None
  else if negb (offset_ l =? offset) then Some false
  else if max =? 0 then None
  else if negb (buffer_size_per_block_ l =? per_block max total) then Some false
  else if buffer_size_per_block_ l <=? data_offset then None
  else recover_loop (Z.to_nat max + 2) type max (lh_ l) 0 bs.

(** [block_list::block_list] over what the memory holds. *)
Definition make_list (type : block_list_type) (max offset total : Z) (recovery : bool) (l : block_list) (bs : blocks) : option block_list :=
  if recovery then
    ok ← try_recover_from_memory_map type max offset total l bs;
    if (ok : bool) then Some l else reset max offset total
  else reset max offset total.

(** ** The head of a group *)

(** The walk over the stage against the used blocks: the index found in both with the one in
    front of it, and the map of the blocks of the stage. *)
Fixpoint scan_stage (used : list Z) (last : option Z) (stage : list Z) : option (option Z * Z) * list Z :=
  match stage with
  | [] => (None, [])
  | i :: stage =>
      if bool_decide (i ∈ used) then (Some (last, i), [])
      else let '(found, l) := scan_stage used (Some i) stage in (found, i :: l)
  end.

(** The part of the constructor for a memory map: a block in both lists is unlinked from the
    stage, and the blocks of the two lists are kept. *)
Definition found_blocks (recovery : bool) (used stage : block_list) (bs : blocks) : option (block_list * list Z * blocks) :=
  if recovery then
    let used_map := walk (size bs) (index (lh_ used)) bs in
    let '(found, stage_map) := scan_stage used_map None (walk (size bs) (index (lh_ stage)) bs) in
    match found with
    | Some (prev, i) =>
        '(ok, head, bs) ← remove_thread_unsafe list_stage prev i (lh_ stage) bs;
        if (ok : bool) then Some (mk_list head (offset_ stage) (max_blocks_count_ stage) (buffer_size_per_block_ stage), used_map ++ stage_map, bs)
        else None
    | None => Some (stage, used_map ++ stage_map, bs)
    end
  else Some (stage, [], bs).

(** A block that is in neither list, made anew and pushed on the free list. *)
Definition push_free (i : Z) (free : block_list) (bs : blocks) : block_list * blocks :=
  (mk_list (mk_ptr i (u16 (aba_mark (lh_ free) + 1))) (offset_ free) (max_blocks_count_ free) (buffer_size_per_block_ free),
   <[i := mk_node (mk_ptr (index (lh_ free)) 0) list_free]> bs).

Fixpoint fill_free (n : nat) (i : Z) (keep : list Z) (free : block_list) (bs : blocks) : block_list * blocks :=
  match n with
  | O => (free, bs)
  | S n =>
      let '(free, bs) := if bool_decide (i ∈ keep) then (free, bs) else push_free i free bs in
      fill_free n (i + 1) keep free bs
  end.

(** [group_data_head::group_data_head]: the lists and the nodes; the offsets of the three
    lists to the blocks differ by their size. *)
Definition group_data_head (max total : Z) (offsets : Z * Z * Z) (recovery : bool) (used0 free0 stage0 : block_list) (bs : blocks) :
    option (block_list * block_list * block_list * blocks) :=
  let '(used_offset, free_offset, stage_offset) := offsets in
  used ← make_list list_used max used_offset total recovery used0 bs;
  free ← make_list list_free max free_offset total false free0 bs;
  stage ← make_list list_stage max stage_offset total recovery stage0 bs;
  '(stage, keep, bs) ← found_blocks recovery used stage bs;
  let '(free, bs) := fill_free (Z.to_nat max) 0 keep free bs in
  Some (used, free, stage, bs).

End Defs.

(** ** Chains and other memory *)

Lemma chain_agree (bs bs' : blocks) i l : (forall j, j ∈ l -> bs' !! j = bs !! j) -> chain bs i l -> chain bs' i l.
Proof.
  revert i. induction l as [|j l IH]; intros i Ha; simpl; [done|]. intros (-> & Hne & n & Hn & Hc). split_and!; [done|done|].
  exists n. rewrite Ha by (by left). split; [done|]. apply IH; [|done]. intros k Hk. apply Ha. by right.
Qed.

(** Another list behind the node [p]. *)
Lemma chain_splice (bs bs' : blocks) i l1 p l2 l2' n : chain bs i (l1 ++ p :: l2) -> (forall j, j ∈ l1 -> bs' !! j = bs !! j) ->
  bs' !! p = Some n -> chain bs' (index (next_ n)) l2' -> chain bs' i (l1 ++ p :: l2').
Proof.
  intros Hc. revert i Hc. induction l1 as [|j l1 IH]; intros i; simpl.
  - intros (-> & Hne & _) _ Hn H2. split_and!; [done|done|]. by exists n.
  - intros (-> & Hne & m & Hm & Hc) Ha Hn H2. split_and!; [done|done|]. exists m. rewrite Ha by (by left). split; [done|].
    apply IH; [done| |done|done]. intros k Hk. apply Ha. by right.
Qed.

Lemma include_chain (bs : blocks) head i l : chain bs (index head) l -> is_include (size bs) head i bs = bool_decide (i ∈ l).
Proof. intros Hc. unfold is_include. rewrite (walk_chain _ _ _ _ Hc) by (by eapply chain_size). done. Qed.

(** ** The lists of the log buffer *)

Section Lists.

Lemma push_after_inv p new l l' : LogBuffer.push_after (Some p) new l = Some l' -> exists l1 l2, l = l1 ++ p :: l2 /\ l' = l1 ++ p :: new :: l2.
Proof.
  revert l'. induction l as [|j l IH]; intros l'; simpl; [done|]. destruct (Nat.eqb_spec j p) as [->|].
  - intros [= <-]. by exists [], l.
  - destruct (LogBuffer.push_after (Some p) new l) as [l0|]; [|done]. intros [= <-]. destruct (IH l0 eq_refl) as (l1 & l2 & -> & ->).
    by exists (j :: l1), l2.
Qed.

Lemma remove_after_inv p i l l' : LogBuffer.remove_after (Some p) i l = Some l' -> exists l1 l2, l = l1 ++ p :: i :: l2 /\ l' = l1 ++ p :: l2.
Proof.
  revert l'. induction l as [|j l IH]; intros l'; simpl; [done|]. destruct (Nat.eqb_spec j p) as [->|].
  - destruct l as [|k l]; [done|]. destruct (Nat.eqb_spec k i) as [->|]; [|done]. intros [= <-]. by exists [], l.
  - destruct (LogBuffer.remove_after (Some p) i l) as [l0|]; [|done]. intros [= <-]. destruct (IH l0 eq_refl) as (l1 & l2 & -> & ->).
    by exists (j :: l1), l2.
Qed.

Lemma next_in_inv i l r : LogBuffer.next_in i l = Some r -> exists l1 l2, l = l1 ++ i :: l2 /\ r = head l2.
Proof.
  induction l as [|j l IH]; simpl; [done|]. destruct (Nat.eqb_spec j i) as [->|].
  - intros [= <-]. by exists [], l.
  - intros H. destruct (IH H) as (l1 & l2 & -> & ->). by exists (j :: l1), l2.
Qed.

(** The list [l] of the log buffer as the links of a list of blocks of type [t]. *)
Record linked (t : block_list_type) (head : pointer_type) (bs : blocks) (l : list nat) : Prop := {
  k_chain : chain bs (index head) (Z.of_nat <$> l);
  k_type : forall i, i ∈ l -> has_type t (Z.of_nat i) bs = true }.

Lemma elem_of_Z (i : nat) (l : list nat) : Z.of_nat i ∈ Z.of_nat <$> l <-> i ∈ l.
Proof.
  rewrite list_elem_of_fmap. split; [|by exists i]. intros (j & E & Hj). by apply Nat2Z.inj in E as ->.
Qed.

Lemma next_refines t head bs (l : list nat) i r : linked t head bs l -> LogBuffer.next_in i l = Some r -> next (Z.of_nat i) bs = Some (Z.of_nat <$> r).
Proof.
  intros [Hc _] Hn. destruct (next_in_inv _ _ _ Hn) as (l1 & l2 & -> & ->). rewrite fmap_app, fmap_cons in Hc.
  apply chain_suffix in Hc as (_ & _ & n & Hl & Hc). unfold next. rewrite Hl. cbn [mbind option_bind]. f_equal. unfold first, is_empty, is_empty_index.
  destruct l2 as [|j l2]; simpl in Hc |- *; [by rewrite Hc, Z.eqb_refl|]. destruct Hc as (-> & Hne & _). by rewrite (proj2 (Z.eqb_neq _ _) Hne).
Qed.

Lemma linked_NoDup t head bs (l : list nat) : linked t head bs l -> NoDup (Z.of_nat <$> l).
Proof. intros [Hc _]. by eapply chain_NoDup. Qed.

Lemma linked_lookup t head bs (l : list nat) i : linked t head bs l -> i ∈ l -> exists n, bs !! Z.of_nat i = Some n /\ type_ n = t /\ Z.of_nat i <> EMPTY.
Proof.
  intros [Hc Ht] Hi. destruct (chain_lookup _ _ _ (Z.of_nat i) Hc) as [[n Hn] Hne]; [by apply elem_of_Z|]. exists n. specialize (Ht i Hi).
  unfold has_type in Ht. rewrite Hn in Ht. apply bool_decide_eq_true in Ht. done.
Qed.

Lemma has_type_in t i n bs : bs !! i = Some n -> type_ n = t -> has_type t i bs = true.
Proof. intros Hn Ht. unfold has_type. rewrite Hn. by apply bool_decide_eq_true. Qed.

(** The links around the node [p]. *)
Lemma linked_at t head bs (l1 l2 : list nat) p : linked t head bs (l1 ++ p :: l2) ->
  exists n, bs !! Z.of_nat p = Some n /\ type_ n = t /\ Z.of_nat p <> EMPTY /\ chain bs (index (next_ n)) (Z.of_nat <$> l2) /\
    (p ∉ l1) /\ (p ∉ l2) /\ forall j, j ∈ l1 -> j ∉ l2.
Proof.
  intros Hl. destruct (linked_lookup t head bs _ p Hl) as (n & Hn & Ht & Hne); [set_solver|]. exists n. split_and!; try done.
  - destruct Hl as [Hc _]. rewrite fmap_app, fmap_cons in Hc. apply chain_suffix in Hc as (_ & _ & n' & Hn' & Hc). by assert (n' = n) as -> by congruence.
  - pose proof (linked_NoDup _ _ _ _ Hl) as Hnd. rewrite fmap_app, fmap_cons in Hnd. apply NoDup_app in Hnd as (_ & Hd & _). intros Hp.
    apply (Hd (Z.of_nat p)); [by apply elem_of_Z|by left].
  - pose proof (linked_NoDup _ _ _ _ Hl) as Hnd. rewrite fmap_app, fmap_cons in Hnd. apply NoDup_app in Hnd as (_ & _ & Hnd).
    apply NoDup_cons in Hnd as [Hnd _]. by rewrite elem_of_Z in Hnd.
  - pose proof (linked_NoDup _ _ _ _ Hl) as Hnd. rewrite fmap_app, fmap_cons in Hnd. apply NoDup_app in Hnd as (_ & Hd & _).
    intros j Hj Hj2. apply (Hd (Z.of_nat j)); [by apply elem_of_Z|]. right. by apply elem_of_Z.
Qed.

(** The checks of [push_after_thread_unsafe]. *)
Lemma push_checks t head bs (l : list nat) prev new nn : linked t head bs l -> bs !! Z.of_nat new = Some nn -> type_ nn <> t ->
  (forall p, prev = Some p -> p ∈ l) ->
  negb (match Z.of_nat <$> prev with Some p => has_type t p bs && is_include (size bs) head p bs | None => true end) ||
    has_type t (Z.of_nat new) bs || is_include (size bs) head (Z.of_nat new) bs = false /\ new ∉ l.
Proof.
  intros Hl Hn Ht Hp. assert (new ∉ l) as Hnot.
  { intros Hin. destruct (linked_lookup _ _ _ _ _ Hl Hin) as (n & Hn' & ? & _). congruence. }
  split; [|done]. rewrite !orb_false_iff. split_and!.
  - apply negb_false_iff. destruct prev as [p|]; [|done]. simpl. destruct (linked_lookup _ _ _ _ _ Hl (Hp p eq_refl)) as (n & Hn' & Ht' & _).
    rewrite (has_type_in t _ n), (include_chain bs head _ _ (k_chain _ _ _ _ Hl)) by done. simpl. apply bool_decide_eq_true, elem_of_Z. by apply Hp.
  - unfold has_type. rewrite Hn. by apply bool_decide_eq_false.
  - rewrite (include_chain bs head _ _ (k_chain _ _ _ _ Hl)). apply bool_decide_eq_false. by rewrite elem_of_Z.
Qed.

Lemma push_first_refines t head bs (l : list nat) new nn : linked t head bs l -> bs !! Z.of_nat new = Some nn -> type_ nn <> t -> Z.of_nat new <> EMPTY ->
  exists head' bs', push_after_thread_unsafe t None (Z.of_nat new) head bs = Some (head', bs') /\ linked t head' bs' (new :: l) /\
    forall j, j ∉ Z.of_nat <$> new :: l -> bs' !! j = bs !! j.
Proof.
  intros Hl Hn Ht Hne. destruct (push_checks t head bs l None new nn Hl Hn Ht) as [Hck Hnot]; [done|].
  unfold push_after_thread_unsafe. simpl in Hck |- *. rewrite Hck, Hn. cbn [mbind option_bind]. eexists _, _. split; [done|].
  assert (forall j, j <> Z.of_nat new -> alter (set_next head) (Z.of_nat new) (alter (set_type t) (Z.of_nat new) bs) !! j = bs !! j) as Hold.
  { intros j Hj. by rewrite !lookup_alter_ne. }
  assert (alter (set_next head) (Z.of_nat new) (alter (set_type t) (Z.of_nat new) bs) !! Z.of_nat new = Some (mk_node head t)) as Hnew.
  { by rewrite !lookup_alter_eq, Hn. }
  split.
  - split.
    + simpl. split_and!; [done|done|]. eexists. split; [exact Hnew|]. eapply chain_agree; [|apply Hl]. intros j Hj. apply Hold. intros ->.
      by apply Hnot, elem_of_Z.
    + intros i [->|Hi]%elem_of_cons; [by eapply has_type_in|]. destruct (linked_lookup _ _ _ _ _ Hl Hi) as (n & Hn' & Ht' & _).
      eapply has_type_in; [|exact Ht']. rewrite Hold; [done|]. intros E. apply Nat2Z.inj in E as ->. done.
  - intros j Hj. apply Hold. intros ->. apply Hj. by left.
Qed.

Lemma push_behind_refines t head bs (l1 l2 : list nat) p new nn : linked t head bs (l1 ++ p :: l2) -> bs !! Z.of_nat new = Some nn -> type_ nn <> t ->
  Z.of_nat new <> EMPTY ->
  exists head' bs', push_after_thread_unsafe t (Some (Z.of_nat p)) (Z.of_nat new) head bs = Some (head', bs') /\ linked t head' bs' (l1 ++ p :: new :: l2) /\
    forall j, j ∉ Z.of_nat <$> new :: l1 ++ p :: l2 -> bs' !! j = bs !! j.
Proof.
  intros Hl Hn Ht Hne. destruct (push_checks t head bs _ (Some p) new nn Hl Hn Ht) as [Hck Hnot]; [intros p' [= <-]; set_solver|].
  destruct (linked_at _ _ _ _ _ _ Hl) as (n & Hp & Htp & Hpe & Hc & H1 & H2 & H12).
  assert (p <> new) as Hpn by (intros ->; apply Hnot; set_solver). assert (Z.of_nat p <> Z.of_nat new) as HpnZ by lia.
  unfold push_after_thread_unsafe. simpl in Hck |- *. rewrite Hck, Hn. cbn [mbind option_bind]. rewrite Hp. cbn [mbind option_bind].
  set (bs' := alter (set_next_index (Z.of_nat new)) (Z.of_nat p) (alter (set_next (next_ n)) (Z.of_nat new) (alter (set_type t) (Z.of_nat new) bs))).
  exists head, bs'. split; [done|].
  assert (forall j, j <> Z.of_nat new -> j <> Z.of_nat p -> bs' !! j = bs !! j) as Hold by (intros j ? ?; unfold bs'; by rewrite !lookup_alter_ne by done).
  assert (bs' !! Z.of_nat new = Some (mk_node (next_ n) t)) as Hnew by (unfold bs'; by rewrite lookup_alter_ne, !lookup_alter_eq, Hn).
  assert (bs' !! Z.of_nat p = Some (set_next_index (Z.of_nat new) n)) as Hpre by (unfold bs'; by rewrite lookup_alter_eq, !lookup_alter_ne, Hp).
  assert (forall j, j ∈ l1 \/ j ∈ l2 -> bs' !! Z.of_nat j = bs !! Z.of_nat j) as Hrest.
  { intros j Hj. apply Hold; intros E; apply Nat2Z.inj in E as ->; [apply Hnot|]; set_solver. }
  split.
  - split.
    + rewrite fmap_app, !fmap_cons. pose proof (k_chain _ _ _ _ Hl) as Hcl. rewrite fmap_app, fmap_cons in Hcl.
      eapply chain_splice; [exact Hcl| |exact Hpre|].
      * intros j (i & -> & Hi)%list_elem_of_fmap. apply Hrest. by left.
      * simpl. split_and!; [done|done|]. eexists. split; [exact Hnew|]. eapply chain_agree; [|exact Hc].
        intros j (i & -> & Hi)%list_elem_of_fmap. apply Hrest. by right.
    + intros i Hi. destruct (decide (i = new)) as [->|]; [by eapply has_type_in|]. destruct (decide (i = p)) as [->|]; [by eapply has_type_in|].
      assert (i ∈ l1 \/ i ∈ l2) as Hi' by set_solver. destruct (linked_lookup _ _ _ _ i Hl) as (m & Hm & Htm & _); [set_solver|].
      eapply has_type_in; [|exact Htm]. by rewrite Hrest.
  - intros j Hj. apply Hold; intros ->; apply Hj, (proj2 (elem_of_Z _ (new :: l1 ++ p :: l2))); set_solver.
Qed.

(** The checks of [remove_thread_unsafe]. *)
Lemma remove_checks t head bs (l : list nat) prev i : linked t head bs l -> i ∈ l -> (forall p, prev = Some p -> p ∈ l) ->
  negb (is_include (size bs) head (Z.of_nat i) bs) = false /\
  negb (match Z.of_nat <$> prev with Some p => is_include (size bs) head p bs | None => true end) = false /\
  negb (match Z.of_nat <$> prev with Some p => has_type t p bs | None => true end) || negb (has_type t (Z.of_nat i) bs) = false.
Proof.
  intros Hl Hi Hp. assert (forall j, j ∈ l -> is_include (size bs) head (Z.of_nat j) bs = true /\ has_type t (Z.of_nat j) bs = true) as Hin.
  { intros j Hj. split; [|by apply Hl]. rewrite (include_chain bs head _ _ (k_chain _ _ _ _ Hl)). by apply bool_decide_eq_true, elem_of_Z. }
  destruct (Hin i Hi) as [-> ->]. destruct prev as [p|]; [|done]. simpl. by destruct (Hin p (Hp p eq_refl)) as [-> ->].
Qed.

Lemma remove_first_refines t head bs (l : list nat) i : linked t head bs (i :: l) ->
  exists head', remove_thread_unsafe t None (Z.of_nat i) head bs = Some (true, head', bs) /\ linked t head' bs l.
Proof.
  intros Hl. destruct (remove_checks t head bs _ None i Hl) as (C1 & C2 & C3); [by left|done|]. pose proof Hl as [(Ei & Hne & n & Hn & Hc) Ht].
  unfold remove_thread_unsafe. simpl in C2, C3 |- *. rewrite C1, C3, Hn. cbn [mbind option_bind].
  assert (first head = Some (Z.of_nat i)) as -> by (unfold first, is_empty, is_empty_index; by rewrite Ei, (proj2 (Z.eqb_neq _ _) Hne)).
  cbn [mbind option_bind]. rewrite decide_True by done. exists (next_ n). split; [done|]. split; [done|]. intros j Hj. apply Ht. by right.
Qed.

Lemma remove_behind_refines t head bs (l1 l2 : list nat) p i : linked t head bs (l1 ++ p :: i :: l2) ->
  exists head' bs', remove_thread_unsafe t (Some (Z.of_nat p)) (Z.of_nat i) head bs = Some (true, head', bs') /\ linked t head' bs' (l1 ++ p :: l2) /\
    forall j, j <> Z.of_nat p -> bs' !! j = bs !! j.
Proof.
  intros Hl. destruct (remove_checks t head bs _ (Some p) i Hl) as (C1 & C2 & C3); [set_solver|intros p' [= <-]; set_solver|].
  destruct (linked_at _ _ _ _ _ _ Hl) as (n & Hp & Htp & Hpe & (Enx & Hie & ni & Hi & Hc) & H1 & H2 & H12).
  unfold remove_thread_unsafe. simpl in C2, C3 |- *. rewrite C1, C2, C3, Hi. cbn [mbind option_bind]. unfold next. rewrite Hp. cbn [mbind option_bind].
  assert (first (next_ n) = Some (Z.of_nat i)) as -> by (unfold first, is_empty, is_empty_index; by rewrite Enx, (proj2 (Z.eqb_neq _ _) Hie)).
  rewrite decide_True by done. eexists head, _. split; [done|].
  assert (forall j, j <> Z.of_nat p -> alter (set_next (next_ ni)) (Z.of_nat p) bs !! j = bs !! j) as Hold by (intros j Hj; by rewrite lookup_alter_ne).
  assert (alter (set_next (next_ ni)) (Z.of_nat p) bs !! Z.of_nat p = Some (set_next (next_ ni) n)) as Hpre by (by rewrite lookup_alter_eq, Hp).
  split; [|done]. split.
  - rewrite fmap_app, fmap_cons. pose proof (k_chain _ _ _ _ Hl) as Hcl. rewrite fmap_app, fmap_cons in Hcl.
    eapply chain_splice; [exact Hcl| |exact Hpre|].
    + intros j (k & -> & Hk)%list_elem_of_fmap. apply Hold. intros E. apply Nat2Z.inj in E as ->. done.
    + simpl. eapply chain_agree; [|exact Hc]. intros j (k & -> & Hk)%list_elem_of_fmap. apply Hold. intros E. apply Nat2Z.inj in E as ->. apply H2. by right.
  - intros j Hj. destruct (decide (j = p)) as [->|Hjp]; [by eapply has_type_in|].
    destruct (linked_lookup _ _ _ _ j Hl) as (m & Hm & Htm & _); [set_solver|]. eapply has_type_in; [|exact Htm]. rewrite Hold; [done|lia].
Qed.

(** C22. What the log buffer does with its lists of indices is what the links do: the next
    block, a block pushed behind another or at the head, and a block unlinked are those of the
    list that the links spell, and no node outside of the list and the new block changes. *)
Theorem used_list_refines (t : block_list_type) (head : pointer_type) (bs : blocks) (l : list nat) : linked t head bs l ->
  (forall i r, LogBuffer.next_in i l = Some r -> next (Z.of_nat i) bs = Some (Z.of_nat <$> r)) /\
  (forall prev new nn l', bs !! Z.of_nat new = Some nn -> type_ nn <> t -> Z.of_nat new <> EMPTY -> LogBuffer.push_after prev new l = Some l' ->
     exists head' bs', push_after_thread_unsafe t (Z.of_nat <$> prev) (Z.of_nat new) head bs = Some (head', bs') /\ linked t head' bs' l' /\
       forall j, j ∉ Z.of_nat <$> new :: l -> bs' !! j = bs !! j) /\
  (forall prev i l', LogBuffer.remove_after prev i l = Some l' ->
     exists head' bs', remove_thread_unsafe t (Z.of_nat <$> prev) (Z.of_nat i) head bs = Some (true, head', bs') /\ linked t head' bs' l' /\
       forall j, j ∉ Z.of_nat <$> l -> bs' !! j = bs !! j).
Proof.
  intros Hl. split_and!.
  - intros i r. by eapply next_refines.
  - intros [p|] new nn l' Hn Ht Hne E; simpl.
    + destruct (push_after_inv _ _ _ _ E) as (l1 & l2 & -> & ->). by eapply push_behind_refines.
    + assert (l' = new :: l) as -> by (by destruct l; injection E). by eapply push_first_refines.
  - intros [p|] i l' E; simpl.
    + destruct (remove_after_inv _ _ _ _ E) as (l1 & l2 & -> & ->). destruct (remove_behind_refines _ _ _ _ _ _ _ Hl) as (head' & bs' & ? & ? & Hj).
      exists head', bs'. split_and!; [done|done|]. intros j Hnj. apply Hj. intros ->. apply Hnj, elem_of_Z. set_solver.
    + destruct l as [|j l]; [done|]. simpl in E. destruct (Nat.eqb_spec j i) as [->|]; [|done]. injection E as <-.
      destruct (remove_first_refines _ _ _ _ _ Hl) as (head' & ? & ?). by exists head', bs.
Qed.

Lemma used_list_refines_witness : let bs : blocks := {[0 := mk_node (mk_ptr EMPTY 0) list_used; 1 := mk_node (mk_ptr EMPTY 0) list_none]} in
  exists head' bs', push_after_thread_unsafe list_used (Some 0) 1 (mk_ptr 0 0) bs = Some (head', bs') /\ linked list_used head' bs' [0; 1]%nat /\
    forall j, j ∉ Z.of_nat <$> [1; 0]%nat -> bs' !! j = bs !! j.
Proof.
  intros bs.
  refine (proj1 (proj2 (used_list_refines list_used (mk_ptr 0 0) bs [0%nat] _)) (Some 0%nat) 1%nat (mk_node (mk_ptr EMPTY 0) list_none) [0; 1]%nat _ _ _ _).
  - split.
    + simpl. split_and!; [done|done|]. eexists. split; [reflexivity|done].
    + intros i ->%list_elem_of_singleton. reflexivity.
  - reflexivity.
  - done.
  - done.
  - reflexivity.
Defined.

End Lists.

(** ** Recovery *)

Section Recovery.
Variables (data_offset max total : Z).
Hypothesis Hmax : 0 < max < 2 ^ 16 - 1.

(** The memory of a group: a node for every block, with a link of sixteen bits. *)
Definition mem_ok (bs : blocks) : Prop := forall i, 0 <= i < max -> exists n, bs !! i = Some n /\ in_range 16 (index (next_ n)).

Definition fits (type : block_list_type) (bs : blocks) (i : Z) : Prop := 0 <= i < max /\ has_type type i bs = true.

Lemma count_next count : 0 <= count <= max -> u16 (count + 1) = count + 1.
Proof using Hmax. intros H. apply wrap_small. unfold in_range. lia. Qed.

(** A list is accepted exactly when its links lead through blocks of its type to the end. *)
Lemma recover_loop_spec type bs fuel p count : mem_ok bs -> 0 <= count <= max + 1 -> (Z.to_nat (max + 2 - count) <= fuel)%nat -> in_range 16 (index p) ->
  exists b, recover_loop fuel type max p count bs = Some b /\
    (b = true <-> exists l, chain bs (index p) l /\ Forall (fits type bs) l /\ count + Z.of_nat (length l) <= max).
Proof using Hmax.
  intros Hmem. revert p count. induction fuel as [|fuel IH]; intros p count Hc Hf Hp; [lia|]. unfold in_range in Hp. simpl.
  destruct (is_empty p) eqn:He; simpl.
  { unfold is_empty, is_empty_index in He. apply Z.eqb_eq in He. eexists. split; [done|]. rewrite Z.leb_le. split.
    - intros. exists []. simpl. split_and!; [done|constructor|lia].
    - intros (l & _ & _ & Hl). lia. }
  unfold is_empty, is_empty_index in He. apply Z.eqb_neq in He. destruct (Z.leb_spec count max) as [Hcm|Hcm].
  2: { exists false. split; [done|]. split; [done|]. intros (l & _ & _ & Hl). lia. }
  rewrite count_next by lia. destruct (Z.leb_spec max (index p)) as [Hmp|Hmp].
  { exists false. split; [done|]. split; [done|]. intros ([|j l] & Hch & Hfit & _); [done|]. destruct Hch as (E & _). apply Forall_cons in Hfit as [[Hr _] _]. lia. }
  destruct (Hmem (index p)) as (n & Hn & Hnr); [lia|]. rewrite Hn. cbn [mbind option_bind]. destruct (decide (type_ n = type)) as [Ht|Ht].
  - destruct (IH (next_ n) (count + 1)) as (b & -> & Hb); [lia|lia|done|]. exists b. split; [done|]. rewrite Hb. split.
    + intros (l & Hch & Hfit & Hl). exists (index p :: l). split_and!.
      * simpl. split_and!; [done|done|by exists n].
      * constructor; [|done]. split; [lia|by eapply has_type_in].
      * simpl. lia.
    + intros ([|j l] & Hch & Hfit & Hl); [done|]. destruct Hch as (<- & _ & n' & Hn' & Hch). assert (n' = n) as -> by congruence.
      apply Forall_cons in Hfit as [_ Hfit]. exists l. simpl in Hl. split_and!; [done|done|lia].
  - exists false. split; [done|]. split; [done|]. intros ([|j l] & Hch & Hfit & _); [done|]. destruct Hch as (<- & _).
    apply Forall_cons in Hfit as [[_ Hty] _]. unfold has_type in Hty. rewrite Hn in Hty. apply bool_decide_eq_true in Hty. done.
Qed.

(** The list [l] that an earlier run has left: made for the same blocks, with links that lead
    from the head through blocks of its type to an end. *)
Definition intact (type : block_list_type) (offset : Z) (l0 : block_list) (bs : blocks) (l : list Z) : Prop :=
  max_blocks_count_ l0 = max /\ offset_ l0 = offset /\ buffer_size_per_block_ l0 = per_block max total /\
  chain bs (index (lh_ l0)) l /\ Forall (fits type bs) l.

(** What a list holds at the start of a run. *)
Definition kept (type : block_list_type) (offset : Z) (recovery : bool) (l0 : block_list) (bs : blocks) (l : list Z) : Prop :=
  recovery = true /\ intact type offset l0 bs l \/ l = [] /\ ~ (recovery = true /\ exists l', intact type offset l0 bs l').

Lemma fits_length type bs l : NoDup l -> Forall (fits type bs) l -> Z.of_nat (length l) <= max.
Proof using Hmax.
  intros Hnd Hf. assert (l ⊆+ seqZ 0 max) as Hs.
  { apply NoDup_submseteq; [done|]. intros i Hi. rewrite Forall_forall in Hf. destruct (Hf i Hi) as [Hr _]. apply elem_of_seqZ. lia. }
  apply submseteq_length in Hs. rewrite length_seqZ in Hs. lia.
Qed.

Hypothesis Hroom : data_offset < per_block max total.

Lemma reset_some offset : 0 <= offset < 2 ^ 16 -> reset data_offset max offset total = Some (mk_list (mk_ptr EMPTY 0) (u16 offset) max (per_block max total)).
Proof using Hmax Hroom.
  intros Ho. unfold reset. rewrite (proj2 (Z.ltb_ge _ _)), (proj2 (Z.eqb_neq _ _)), (proj2 (Z.leb_gt _ _)) by lia. done.
Qed.

Lemma try_recover_ok type offset l0 bs : 0 <= offset < 2 ^ 16 -> mem_ok bs -> in_range 16 (index (lh_ l0)) ->
  exists b, try_recover_from_memory_map data_offset type max offset total l0 bs = Some b /\ (b = true <-> exists l, intact type offset l0 bs l).
Proof using Hmax Hroom.
  intros Ho Hmem Hh. unfold try_recover_from_memory_map.
  destruct (Z.eqb_spec (max_blocks_count_ l0) max) as [E1|N]; cbn [negb]; [|exists false; split; [done|]; split; [done|by intros (l & ? & _)]].
  rewrite (proj2 (Z.ltb_ge _ _)) by lia.
  destruct (Z.eqb_spec (offset_ l0) offset) as [E2|N]; cbn [negb]; [|exists false; split; [done|]; split; [done|by intros (l & _ & ? & _)]].
  rewrite (proj2 (Z.eqb_neq _ _)) by lia.
  destruct (Z.eqb_spec (buffer_size_per_block_ l0) (per_block max total)) as [E3|N]; cbn [negb]; [|exists false; split; [done|]; split; [done|by intros (l & _ & _ & ? & _)]].
  rewrite (proj2 (Z.leb_gt _ _)) by lia. destruct (recover_loop_spec type bs (Z.to_nat max + 2) (lh_ l0) 0 Hmem) as (b & -> & Hb); [lia|lia|done|].
  exists b. split; [done|]. rewrite Hb. split; intros (l & Hl).
  - destruct Hl as (Hc & Hf & _). by exists l.
  - destruct Hl as (_ & _ & _ & Hc & Hf). exists l. split_and!; [done|done|]. rewrite Z.add_0_l.
    eapply fits_length; [by eapply chain_NoDup|done].
Qed.

Lemma make_list_ok type offset recovery l0 bs : 0 <= offset < 2 ^ 16 -> mem_ok bs -> in_range 16 (index (lh_ l0)) ->
  exists l lu, make_list data_offset type max offset total recovery l0 bs = Some l /\ chain bs (index (lh_ l)) lu /\
    Forall (fits type bs) lu /\ kept type offset recovery l0 bs lu.
Proof using Hmax Hroom.
  intros Ho Hmem Hh. unfold make_list, kept. rewrite (reset_some offset) by done.
  destruct recovery; [|eexists _, []; split_and!; [done|done|done|right; split; [done|by intros [? _]]]].
  destruct (try_recover_ok type offset l0 bs Ho Hmem Hh) as (b & -> & Hb). cbn [mbind option_bind]. destruct b.
  - destruct (proj1 Hb eq_refl) as [l Hl]. pose proof Hl as (_ & _ & _ & Hc & Hf). exists l0, l. split_and!; try done. by left.
  - eexists _, []. split_and!; [done|done|done|]. right. split; [done|]. intros [_ Hex]. by apply Hb in Hex.
Qed.

(** ** The free list *)

Lemma push_free_ok i free bs lf : chain bs (index (lh_ free)) lf -> i ∉ lf -> i <> EMPTY ->
  chain (push_free i free bs).2 (index (lh_ (push_free i free bs).1)) (i :: lf) /\
  forall j, j <> i -> (push_free i free bs).2 !! j = bs !! j.
Proof.
  intros Hc Hi Hne. unfold push_free. simpl. split; [|intros j Hj; by rewrite lookup_insert_ne]. split_and!; [done|done|].
  eexists. rewrite lookup_insert_eq. split; [done|]. simpl. by apply chain_insert.
Qed.

(** The blocks from [i] on that are not kept. *)
Definition others (n : nat) (i : Z) (keep : list Z) : list Z := filter (fun j => j ∉ keep) (seqZ i (Z.of_nat n)).

Lemma others_step n i keep : others (S n) i keep = (if bool_decide (i ∈ keep) then [] else [i]) ++ others n (i + 1) keep.
Proof.
  unfold others. rewrite seqZ_cons by lia. rewrite filter_cons. replace (Z.pred (Z.of_nat (S n))) with (Z.of_nat n) by lia.
  replace (Z.succ i) with (i + 1) by lia. destruct (bool_decide_reflect (i ∈ keep)) as [Hin|Hin].
  - by rewrite decide_False by (intros H; by apply H).
  - by rewrite decide_True.
Qed.

Lemma fill_free_ok n i keep free bs lf : chain bs (index (lh_ free)) lf -> (forall j, j ∈ lf -> j < i) -> i + Z.of_nat n < EMPTY ->
  chain (fill_free n i keep free bs).2 (index (lh_ (fill_free n i keep free bs).1)) (reverse (others n i keep) ++ lf) /\
  forall j, j ∈ keep -> (fill_free n i keep free bs).2 !! j = bs !! j.
Proof.
  revert i free bs lf. induction n as [|n IH]; intros i free bs lf Hc Hlt Hb; [by split|]. rewrite others_step. simpl.
  destruct (bool_decide_reflect (i ∈ keep)) as [Hin|Hin].
  - apply IH; [done| |lia]. intros j Hj. specialize (Hlt j Hj). lia.
  - destruct (push_free i free bs) as [free' bs'] eqn:E. destruct (push_free_ok i free bs lf Hc) as [Hc' Hold]; [intros Hi; specialize (Hlt i Hi); lia|lia|].
    rewrite E in Hc', Hold. simpl in Hc', Hold. destruct (IH (i + 1) free' bs' (i :: lf) Hc') as [H1 H2]; [|lia|].
    { intros j [->|Hj]%elem_of_cons; [lia|]. specialize (Hlt j Hj). lia. }
    split.
    + simpl. by rewrite reverse_cons, <- app_assoc.
    + intros j Hj. rewrite H2 by done. apply Hold. intros ->. done.
Qed.

(** ** The head of a group *)

Lemma scan_apart used last stage : (forall i, i ∈ stage -> i ∉ used) -> scan_stage used last stage = (None, stage).
Proof.
  revert last. induction stage as [|i stage IH]; intros last Ha; simpl; [done|]. rewrite bool_decide_eq_false_2 by (apply Ha; by left).
  rewrite IH; [done|]. intros j Hj. apply Ha. by right.
Qed.

Lemma fits_apart bs i : fits list_used bs i -> fits list_stage bs i -> False.
Proof.
  unfold fits, has_type. intros [_ H1] [_ H2]. destruct (bs !! i); [|done]. apply bool_decide_eq_true in H1, H2. congruence.
Qed.

Lemma found_blocks_apart recovery used stage bs lu ls : chain bs (index (lh_ used)) lu -> chain bs (index (lh_ stage)) ls ->
  Forall (fits list_used bs) lu -> Forall (fits list_stage bs) ls -> (recovery = false -> lu ++ ls = []) ->
  found_blocks recovery used stage bs = Some (stage, lu ++ ls, bs).
Proof.
  intros Hcu Hcs Hfu Hfs Hnot. unfold found_blocks. destruct recovery; [|by rewrite Hnot]. cbv zeta.
  rewrite (walk_chain _ _ _ _ Hcu), (walk_chain _ _ _ _ Hcs) by (by eapply chain_size).
  rewrite scan_apart; [done|]. intros i Hi1 Hi2. rewrite Forall_forall in Hfu, Hfs. by apply (fits_apart bs i); auto.
Qed.

Lemma share_out bs lu ls : NoDup lu -> NoDup ls -> Forall (fits list_used bs) lu -> Forall (fits list_stage bs) ls ->
  lu ++ reverse (others (Z.to_nat max) 0 (lu ++ ls)) ++ ls ≡ₚ seqZ 0 max.
Proof using Hmax.
  intros Hnu Hns Hu Hs. rewrite Forall_forall in Hu, Hs. apply NoDup_Permutation.
  - apply NoDup_app. split; [done|]. split.
    + intros i Hi. rewrite elem_of_app, elem_of_reverse. unfold others. rewrite list_elem_of_filter. intros [[Hn _]|Hi2]; [apply Hn, elem_of_app; by left|].
      by apply (fits_apart bs i); auto.
    + apply NoDup_app. split; [rewrite reverse_Permutation; apply NoDup_filter, NoDup_seqZ|]. split; [|done].
      intros i Hi. rewrite elem_of_reverse in Hi. unfold others in Hi. apply list_elem_of_filter in Hi as [Hn _]. intros Hl. apply Hn, elem_of_app. by right.
  - apply NoDup_seqZ.
  - intros i. rewrite !elem_of_app, elem_of_reverse. unfold others. rewrite list_elem_of_filter, Z2Nat.id by lia. rewrite elem_of_seqZ. split.
    + intros [Hi|[[_ Hi]|Hi]]; [destruct (Hu i Hi); lia|lia|destruct (Hs i Hi); lia].
    + intros Hi. destruct (decide (i ∈ lu)); [by left|]. destruct (decide (i ∈ ls)); [by right; right|]. right. left. split; [|lia]. by intros [?|?]%elem_of_app.
Qed.

(** C21. Whatever a memory map of an earlier run holds, the three lists of a group share out its
    blocks. The constructor succeeds without a failed assertion. Each of the used list and the
    stage is the list that the earlier run has left when it was made for the same blocks and
    its links lead from its head through blocks of its own type to an end, and is empty
    otherwise; no block is in two lists, and the others are free. *)
Theorem recovered_group_partition (offsets : Z * Z * Z) (recovery : bool) (used0 free0 stage0 : block_list) (bs : blocks) :
  0 <= offsets.1.1 < 2 ^ 16 -> 0 <= offsets.1.2 < 2 ^ 16 -> 0 <= offsets.2 < 2 ^ 16 ->
  mem_ok bs -> in_range 16 (index (lh_ used0)) -> in_range 16 (index (lh_ stage0)) ->
  exists used free stage bs', group_data_head data_offset max total offsets recovery used0 free0 stage0 bs = Some (used, free, stage, bs') /\
    exists lu lf ls, kept list_used offsets.1.1 recovery used0 bs lu /\ kept list_stage offsets.2 recovery stage0 bs ls /\
      chain bs' (index (lh_ used)) lu /\ chain bs' (index (lh_ free)) lf /\ chain bs' (index (lh_ stage)) ls /\ lu ++ lf ++ ls ≡ₚ seqZ 0 max.
Proof using Hmax Hroom.
  destruct offsets as [[uo fo] so]. simpl. intros Huo Hfo Hso Hmem Hu0 Hs0. unfold group_data_head.
  destruct (make_list_ok list_used uo recovery used0 bs Huo Hmem Hu0) as (used & lu & -> & Hcu & Hfu & Hku). cbn [mbind option_bind].
  change (make_list data_offset list_free max fo total false free0 bs) with (reset data_offset max fo total). rewrite (reset_some fo Hfo). cbn [mbind option_bind].
  destruct (make_list_ok list_stage so recovery stage0 bs Hso Hmem Hs0) as (stage & ls & -> & Hcs & Hfs & Hks). cbn [mbind option_bind].
  rewrite (found_blocks_apart recovery used stage bs lu ls); [|done..|].
  2: { intros E. destruct Hku as [[? _]|[-> _]]; [congruence|]. by destruct Hks as [[? _]|[-> _]]; [congruence|]. }
  cbn [mbind option_bind]. set (free := mk_list (mk_ptr EMPTY 0) (u16 fo) max (per_block max total)).
  destruct (fill_free_ok (Z.to_nat max) 0 (lu ++ ls) free bs []) as [Hcf Hold]; [done|by intros j ?%elem_of_nil|unfold EMPTY; lia|].
  destruct (fill_free (Z.to_nat max) 0 (lu ++ ls) free bs) as [free' bs'] eqn:E. simpl in Hcf, Hold.
  exists used, free', stage, bs'. split; [done|]. exists lu, (reverse (others (Z.to_nat max) 0 (lu ++ ls)) ++ []), ls. split_and!; [done|done| |exact Hcf| |].
  - eapply chain_agree; [|exact Hcu]. intros j Hj. apply Hold. set_solver.
  - eapply chain_agree; [|exact Hcs]. intros j Hj. apply Hold. set_solver.
  - rewrite app_nil_r. apply (share_out bs); [by eapply chain_NoDup|by eapply chain_NoDup|done|done].
Qed.

End Recovery.

(** A used list of one block is kept; the stage leads into it and is not. *)
Lemma recovered_group_partition_witness : let bs : blocks := {[0 := mk_node (mk_ptr EMPTY 0) list_used; 1 := mk_node (mk_ptr 0 0) list_stage]} in
  let used0 := mk_list (mk_ptr 0 3) 10 2 128 in let stage0 := mk_list (mk_ptr 1 5) 30 2 128 in
  intact 2 256 list_used 10 used0 bs [0] /\
  exists used free stage bs', group_data_head 64 2 256 (10, 20, 30) true used0 used0 stage0 bs = Some (used, free, stage, bs') /\
    exists lu lf ls, kept 2 256 list_used 10 true used0 bs lu /\ kept 2 256 list_stage 30 true stage0 bs ls /\
      chain bs' (index (lh_ used)) lu /\ chain bs' (index (lh_ free)) lf /\ chain bs' (index (lh_ stage)) ls /\ lu ++ lf ++ ls ≡ₚ seqZ 0 2.
Proof.
  intros bs used0 stage0. split.
  { split_and!; try reflexivity; [|constructor; [|constructor]].
    - simpl. split_and!; [done|done|]. eexists. split; [reflexivity|done].
    - split; [lia|reflexivity]. }
  refine (recovered_group_partition 64 2 256 _ _ (10, 20, 30) true used0 used0 stage0 bs _ _ _ _ _ _); try (simpl; unfold in_range; lia).
  - reflexivity.
  - intros i Hi. assert (i = 0 \/ i = 1) as [-> | ->] by lia; eexists; (split; [reflexivity|]); unfold in_range; simpl; unfold EMPTY; lia.
Defined.

End BlockGroup.
