(* ===== verification/LogBufferReader.v ===== *)
(** * The log buffer: reading
    ([src/buffer/log_buffer.cpp], [include/qlog/buffer/log_buffer.hpp])

    The reader alternates between the shared ring and the blocks: it takes what it can from
    the ring, then walks the groups and the blocks of each group, hands out what the blocks it
    may read hold, unlinks the blocks and the groups that are done with, and comes back to the
    ring. It reports an empty buffer when it is back where it started.

    A turn of [read_chunk_full_impl] is one step: another thread may write between two turns.
    A turn that reads the shared ring takes one chunk. *)
From stdpp Require Import base list option numbers gmap.
From Stdlib Require Import ZArith Lia Bool.
From S2P Require Import Prelude BufferDefs LogBuffer.

Module LogBufferReader.
Import LogBuffer.

#[export] Instance context_verify_result_eq_dec : EqDecision context_verify_result.
Proof. solve_decision. Defined.
#[export] Instance read_state_eq_dec : EqDecision read_state.
Proof. solve_decision. Defined.

Section Defs.
Context {A : Type}.
Abbreviation state := (@state A).
Abbreviation reading := (@reading A).
Abbreviation block := (@block A).
Abbreviation oversize := (@oversize A).
Abbreviation lp_chunk := (@lp_chunk A).

(** ** The reader's variables *)

Definition set_position (last_group cur_group : option nat) (last_block cur_block : option block_id) (r : reading) : reading :=
  mk_reading last_group cur_group last_block cur_block (rd_version_ r) (is_in_recovery_reading_ r) (recovery_records_ r) (state_ r)
    (traverse_end_block_is_working_ r) (traverse_end_block_ r) (hp_success r) (hp_rest r) (rt_oversize_parent_handle_ r)
    (rt_oversize_target_buffer_ r) (left_holes_num_ r) (cur_group_using_blocks_num_ r) (is_block_marked_removed r) (verify_result_ r).
Definition set_recovery (version : Z) (recovering : bool) (records : list (gmap nat Z)) (r : reading) : reading :=
  mk_reading (last_group_ r) (cur_group_ r) (last_block_ r) (rd_block_ r) version recovering records (state_ r)
    (traverse_end_block_is_working_ r) (traverse_end_block_ r) (hp_success r) (hp_rest r) (rt_oversize_parent_handle_ r)
    (rt_oversize_target_buffer_ r) (left_holes_num_ r) (cur_group_using_blocks_num_ r) (is_block_marked_removed r) (verify_result_ r).
Definition set_state (s : read_state) (r : reading) : reading :=
  mk_reading (last_group_ r) (cur_group_ r) (last_block_ r) (rd_block_ r) (rd_version_ r) (is_in_recovery_reading_ r) (recovery_records_ r) s
    (traverse_end_block_is_working_ r) (traverse_end_block_ r) (hp_success r) (hp_rest r) (rt_oversize_parent_handle_ r)
    (rt_oversize_target_buffer_ r) (left_holes_num_ r) (cur_group_using_blocks_num_ r) (is_block_marked_removed r) (verify_result_ r).
Definition set_end (working : bool) (b : option block_id) (r : reading) : reading :=
  mk_reading (last_group_ r) (cur_group_ r) (last_block_ r) (rd_block_ r) (rd_version_ r) (is_in_recovery_reading_ r) (recovery_records_ r)
    (state_ r) working b (hp_success r) (hp_rest r) (rt_oversize_parent_handle_ r)
    (rt_oversize_target_buffer_ r) (left_holes_num_ r) (cur_group_using_blocks_num_ r) (is_block_marked_removed r) (verify_result_ r).
Definition set_batch (result : bool) (rest : list A) (r : reading) : reading :=
  mk_reading (last_group_ r) (cur_group_ r) (last_block_ r) (rd_block_ r) (rd_version_ r) (is_in_recovery_reading_ r) (recovery_records_ r)
    (state_ r) (traverse_end_block_is_working_ r) (traverse_end_block_ r) result rest (rt_oversize_parent_handle_ r)
    (rt_oversize_target_buffer_ r) (left_holes_num_ r) (cur_group_using_blocks_num_ r) (is_block_marked_removed r) (verify_result_ r).
Definition set_rt_oversize (parent target : option nat) (r : reading) : reading :=
  mk_reading (last_group_ r) (cur_group_ r) (last_block_ r) (rd_block_ r) (rd_version_ r) (is_in_recovery_reading_ r) (recovery_records_ r)
    (state_ r) (traverse_end_block_is_working_ r) (traverse_end_block_ r) (hp_success r) (hp_rest r) parent
    target (left_holes_num_ r) (cur_group_using_blocks_num_ r) (is_block_marked_removed r) (verify_result_ r).
Definition set_mem (holes blocks : Z) (marked : bool) (v : context_verify_result) (r : reading) : reading :=
  mk_reading (last_group_ r) (cur_group_ r) (last_block_ r) (rd_block_ r) (rd_version_ r) (is_in_recovery_reading_ r) (recovery_records_ r)
    (state_ r) (traverse_end_block_is_working_ r) (traverse_end_block_ r) (hp_success r) (hp_rest r) (rt_oversize_parent_handle_ r)
    (rt_oversize_target_buffer_ r) holes blocks marked v.

Definition map_rd (f : reading -> reading) (st : state) : state := set_rd (f (rd_ st)) st.

(** What a read hands out: the place of the chunk, its context and its content. *)
Inductive output :=
  | Out_lp (id : nat) (c : context_head) (a : A)
  | Out_oversize (os : nat) (c : context_head) (a : A)
  | Out_block (b : block_id) (a : A)
  | Out_empty.

Variables (max_blocks : nat) (version : Z).

(** ** Contexts *)

(** [is_version_valid] *)
Definition is_version_valid (v : Z) (st : state) : bool := u16 (version - v) <=? u16 (version - rd_version_ (rd_ st)).

Definition record_index (v : Z) : nat := Z.to_nat (u16 (version - 1 - v)).

(** [verify_context] *)
Definition verify_context (c : context_head) (st : state) : option context_verify_result :=
  if version_ c =? rd_version_ (rd_ st) then
    if version_ c =? version then
      i ← threads_ st !! tls_info_ c;
      if seq_ c =? current_read_seq_ i then Some valid
      else if current_read_seq_ i <? seq_ c then Some seq_pending else None
    else
      m ← recovery_records_ (rd_ st) !! record_index (version_ c);
      expected ← m !! tls_info_ c;
      Some (if seq_ c =? expected then valid else if seq_ c <? expected then seq_invalid else seq_pending)
  else if negb (is_version_valid (version_ c) st) then Some version_invalid else Some version_pending.

(** [verify_oversize_context] *)
Definition verify_oversize_context (parent c : context_head) (st : state) : option context_verify_result :=
  if version_ parent =? version_ c then
    if seq_ parent =? seq_ c then Some valid
    else if seq_ parent <? seq_ c then Some seq_pending
    else if version_ parent =? version then None else Some seq_invalid
  else if version_ parent <? version_ c then
    if negb (is_version_valid (version_ c) st) then Some version_invalid else Some version_pending
  else Some version_invalid.

(** [refresh_traverse_end_mark] *)
Definition refresh_traverse_end_mark (r : reading) : option reading :=
  let r := if is_block_marked_removed r && bool_decide (is_Some (rd_block_ r)) then set_end false (traverse_end_block_ r) r
           else set_end true (rd_block_ r) r in
  match last_block_ r with
  | Some b => if decide (rd_block_ r = Some b) then None else Some r
  | None => Some r
  end.

Definition refresh (st : state) : option state := r ← refresh_traverse_end_mark (rd_ st); Some (set_rd r st).

(** [deregister_seq] *)
Definition deregister_seq (c : context_head) (st : state) : option state :=
  if version_ c =? rd_version_ (rd_ st) then
    if version_ c =? version then
      i ← threads_ st !! tls_info_ c;
      refresh (set_threads (if is_thread_finished_ c then delete (tls_info_ c) (threads_ st)
                            else <[tls_info_ c := set_read_seq (u32 (current_read_seq_ i + 1)) i]> (threads_ st)) st)
    else
      m ← recovery_records_ (rd_ st) !! record_index (version_ c);
      expected ← m !! tls_info_ c;
      refresh (map_rd (fun r => set_recovery (rd_version_ r) (is_in_recovery_reading_ r)
                                  (<[record_index (version_ c) := <[tls_info_ c := u32 (expected + 1)]> m]> (recovery_records_ r)) r) st)
  else None.

(** [rt_try_traverse_to_next_version] *)
Definition rt_try_traverse_to_next_version (st : state) : option state :=
  let r := rd_ st in
  _ ← recovery_records_ r !! record_index (rd_version_ r);
  let v := u16 (rd_version_ r + 1) in
  Some (set_rd (set_recovery v (negb (v =? version)) (<[record_index (rd_version_ r) := ∅]> (recovery_records_ r)) r) st).

(** ** The groups *)

(** [group_list::recycle_block_thread_unsafe] *)
Definition recycle_block_thread_unsafe (g : group) (prev : option nat) (i : nat) : option group :=
  used ← remove_after prev i (used_ g);
  Some (mk_group (g_id g) used (i :: free_ g) (stage_ g) (in_pool_epoch_ms_ g)).

(** [group_node::is_range_include]: the index of the block when it is one of the group's. *)
Definition in_group (id : nat) (b : option block_id) : option nat :=
  match b with Some (g, i) => if (g =? id)%nat then Some i else None | None => None end.

(** The block behind the reader's, from the stage when the used list has no more. *)
Definition next_block (here : option nat) (g : group) : option (option nat * group) :=
  next ← (match here with Some i => next_in i (used_ g) | None => Some (head (used_ g)) end);
  match next, stage_ g with
  | Some i, _ => Some (Some i, g)
  | None, [] => Some (None, g)
  | None, i :: stage =>
      used ← push_after here i (used_ g);
      Some (Some i, mk_group (g_id g) used (free_ g) stage (in_pool_epoch_ms_ g))
  end.

(** What happens to the block the reader leaves: whether it is unlinked. *)
Definition leave_block (id : nat) (here : option nat) (st : state) : option (bool * state) :=
  match here with
  | None => Some (false, st)
  | Some i =>
      let r := rd_ st in
      if is_block_marked_removed r then
        st ← (match verify_result_ r with
              | valid => k ← blocks_ st !! (id, i); deregister_seq (bk_context k) st
              | _ => Some st
              end);
        g ← find_group id (groups_ st);
        g ← recycle_block_thread_unsafe g (in_group id (last_block_ r)) i;
        Some (true, set_groups (put_group g (groups_ st)) (pool_ st) (current_group_index_ st) st)
      else
        Some (false, map_rd (fun r => set_mem (left_holes_num_ r) (u16 (cur_group_using_blocks_num_ r + 1)) (is_block_marked_removed r) (verify_result_ r) r) st)
  end.

(** The block the reader comes to. *)
Definition enter_block (id i : nat) (st : state) : option state :=
  k ← blocks_ st !! (id, i);
  v ← verify_context (bk_context k) st;
  let r := rd_ st in
  let marked := match v with
                | valid => is_removed k || negb (version_ (bk_context k) =? version)
                | version_invalid | seq_invalid => true
                | _ => false
                end in
  let st := if 0 <? left_holes_num_ r then update_block (set_reallocate true) (id, i) st else st in
  let holes := if 0 <? left_holes_num_ r then left_holes_num_ r - 1 else left_holes_num_ r in
  Some (map_rd (fun r => set_position (last_group_ r) (cur_group_ r) (last_block_ r) (Some (id, i))
                           (set_mem holes (cur_group_using_blocks_num_ r) marked v r)) st).

(** [rt_try_traverse_to_next_block_in_group]; what it verified is in [verify_result_]. *)
Definition rt_try_traverse_to_next_block_in_group (st : state) : option (bool * state) :=
  id ← cur_group_ (rd_ st);
  g ← find_group id (groups_ st);
  let here := in_group id (rd_block_ (rd_ st)) in
  '(next, g) ← next_block here g;
  if decide (is_Some next /\ next = here) then None else
  '(removed, st) ← leave_block id here (set_groups (put_group g (groups_ st)) (pool_ st) (current_group_index_ st) st);
  if Z.of_nat max_blocks <? cur_group_using_blocks_num_ (rd_ st) then None else
  let st := map_rd (fun r =>
              if (negb removed && bool_decide (is_Some here)) || bool_decide (rd_block_ r = None)
              then set_position (last_group_ r) (cur_group_ r) (rd_block_ r) (rd_block_ r) r else r) st in
  match next with
  | Some i => st ← enter_block id i st; Some (true, st)
  | None =>
      Some (false, map_rd (fun r => set_mem (left_holes_num_ r) (cur_group_using_blocks_num_ r) false version_invalid
                                      (if (removed : bool) then set_position (last_group_ r) (cur_group_ r) (last_block_ r) (last_block_ r) r else r)) st)
  end.

(** [delete_and_unlock_thread_unsafe] on the group named. *)
Definition delete_group (id : nat) (now : Z) (st : state) : option state :=
  g ← find_group id (groups_ st);
  Some (set_groups (List.filter (fun h => negb (g_id h =? id)%nat) (groups_ st)) (mk_group (g_id g) (used_ g) (free_ g) (stage_ g) now :: pool_ st)
          (current_group_index_ st) st).

(** The removal of a group in which no block is in use. *)
Definition remove_group (id : nat) (now : Z) (st : state) : option (bool * state) :=
  g ← find_group id (groups_ st);
  let located := match last_group_ (rd_ st) with
                 | Some h => bool_decide (group_after h (groups_ st) = Some id)
                 | None => true
                 end in
  if located then
    match used_ g, stage_ g with
    | [], [] =>
        match in_group id (last_block_ (rd_ st)) with
        | Some _ => None
        | None => st ← delete_group id now st; Some (true, st)
        end
    | _, _ => Some (false, st)
    end
  else None.

(** [rt_try_traverse_to_next_group] *)
Definition rt_try_traverse_to_next_group (now : Z) (st : state) : option (bool * state) :=
  let next := match cur_group_ (rd_ st) with Some id => group_after id (groups_ st) | None => g_id <$> head (groups_ st) end in
  '(removed, st) ←
    (match cur_group_ (rd_ st) with
     | Some id => if cur_group_using_blocks_num_ (rd_ st) =? 0 then remove_group id now st else Some (false, st)
     | None => Some (false, st)
     end);
  let r := rd_ st in
  let holes := if bool_decide (is_Some (cur_group_ r)) && negb removed
               then u32 (left_holes_num_ r + u32 (Z.of_nat max_blocks - cur_group_using_blocks_num_ r)) else left_holes_num_ r in
  let last_group := if (removed : bool) then last_group_ r else cur_group_ r in
  let r := set_mem holes 0 (is_block_marked_removed r) (verify_result_ r) (set_position last_group None (last_block_ r) (rd_block_ r) r) in
  match next with
  | None => Some (false, set_rd (set_mem 0 0 (is_block_marked_removed r) (verify_result_ r) (set_position last_group None None None r)) st)
  | Some id => Some (true, set_rd (set_position last_group (Some id) (last_block_ r) (rd_block_ r) r) st)
  end.

(** [group_list::garbage_collect]: groups that were in the pool for a second, from its tail. *)
Definition GROUP_NODE_GC_LIFE_TIME_MS : Z := 1000.
Fixpoint evict_tail (now : Z) (pool : list group) : list group :=
  match pool with
  | [] => []
  | g :: pool =>
      match evict_tail now pool with
      | [] => if u64 (in_pool_epoch_ms_ g + GROUP_NODE_GC_LIFE_TIME_MS) <=? now then [] else [g]
      | pool => g :: pool
      end
  end.
Definition garbage_collect (now : Z) (st : state) : state := set_groups (groups_ st) (evict_tail now (pool_ st)) (current_group_index_ st) st.

(** ** Oversize buffers *)

(** The chunks of one buffer against the chunk that refers to it: the one found, what is left. *)
Fixpoint scan_items (parent : context_head) (items : list (context_head * A)) (st : state) :
    option (option (context_head * A) * list (context_head * A)) :=
  match items with
  | [] => Some (None, [])
  | (c, a) :: rest =>
      v ← verify_oversize_context parent c st;
      match v with
      | valid => Some (Some (c, a), items)
      | version_invalid | seq_invalid => scan_items parent rest st
      | version_pending | seq_pending => Some (None, items)
      end
  end.

Definition set_os_items (l : list (context_head * A)) (o : oversize) : oversize :=
  mk_os (os_id o) (os_size o) (os_context o) l (os_locked o) (last_used_epoch_ms_ o) (os_thread_finished o).

Fixpoint scan_buffers (parent : context_head) (os : list oversize) (st : state) :
    option (option (nat * context_head * A) * list oversize) :=
  match os with
  | [] => Some (None, [])
  | o :: os =>
      if negb (version_ (os_context o) =? version_ parent) || negb (tls_info_ (os_context o) =? tls_info_ parent)%nat then
        '(found, os) ← scan_buffers parent os st; Some (found, o :: os)
      else
        '(found, items) ← scan_items parent (os_items o) st;
        match found with
        | Some (c, a) => Some (Some (os_id o, c, a), set_os_items items o :: os)
        | None => '(found, os) ← scan_buffers parent os st; Some (found, set_os_items items o :: os)
        end
  end.

(** [rt_read_oversize_chunk]; a chunk of this run that is not found is an assertion. *)
Definition rt_read_oversize_chunk (parent : lp_chunk) (st : state) : option (option output * state) :=
  let st := map_rd (fun r => set_rt_oversize (Some (lc_id parent)) (rt_oversize_target_buffer_ r) r) st in
  '(found, os) ← scan_buffers (lc_context parent) (os_ st) st;
  let st := set_os os (os_next st) st in
  match found with
  | Some (id, c, a) => Some (Some (Out_oversize id c a), map_rd (fun r => set_rt_oversize (rt_oversize_parent_handle_ r) (Some id) r) st)
  | None => if version_ (lc_context parent) =? version then None else Some (None, st)
  end.

(** The chunks of a buffer that is looked at for recycling: whether none is left, what is left. *)
Fixpoint recycle_items (items : list (context_head * A)) (st : state) : option (bool * list (context_head * A)) :=
  match items with
  | [] => Some (true, [])
  | (c, a) :: rest =>
      v ← verify_context c st;
      match v with
      | version_invalid | seq_invalid => recycle_items rest st
      | _ => Some (false, items)
      end
  end.

(** The element at [n] replaced by the last one. *)
Definition erase_replace (n : nat) (os : list oversize) : list oversize :=
  match last os with
  | Some o => if (S n =? length os)%nat then take n os else take (length os - 1) (<[n := o]> os)
  | None => os
  end.

Fixpoint recycle_from (n : nat) (os : list oversize) (st : state) : option (list oversize) :=
  match n with
  | O => Some os
  | S n =>
      o ← os !! n;
      if decide (rt_oversize_target_buffer_ (rd_ st) = Some (os_id o)) then recycle_from n os st
      else if os_locked o then recycle_from n os st
      else
        '(empty, items) ← recycle_items (os_items o) st;
        recycle_from n (if (empty : bool) then erase_replace n os else <[n := set_os_items items o]> os) st
  end.

(** [rt_recycle_oversize_buffers]; the first answer is of the read lock of the array, the
    second of its write lock. *)
Definition rt_recycle_oversize_buffers (now : Z) (read_lock write_lock : bool) (st : state) : option state :=
  if bool_decide (os_ st = []) then Some st else
  let need := read_lock && existsb (fun o => u64 (last_used_epoch_ms_ o + OVERSIZE_BUFFER_RECYCLE_INTERVAL_MS) <=? now) (os_ st) in
  if need && write_lock then os ← recycle_from (length (os_ st)) (os_ st) st; Some (set_os os (os_next st) st) else Some st.

(** ** The shared ring *)

Definition pop_lp (st : state) : state := set_lp (tail (lp_ st)) st.

(** [return_read_chunk] of an oversize buffer: the first chunk is gone. *)
Definition pop_os (id : nat) (st : state) : state := update_os (fun o => set_os_items (tail (os_items o)) o) id st.

(** One chunk of [rt_read_from_lp_buffer]: what is handed out, and whether to go on. *)
Definition rt_read_from_lp_buffer (st : state) : option (option output * bool * state) :=
  match lp_ st with
  | [] => Some (None, false, st)
  | c :: _ =>
      if lc_committed c then
        let x := lc_context c in
        v ← verify_context x st;
        match v with
        | valid =>
            if is_thread_finished_ x then st ← deregister_seq x st; Some (None, true, pop_lp st)
            else if is_external_ref_ x then
              '(o, st) ← rt_read_oversize_chunk c st;
              match o with
              | Some o => Some (Some o, false, st)
              | None => st ← deregister_seq x st; Some (None, true, pop_lp st)
              end
            else a ← lc_data c; Some (Some (Out_lp (lc_id c) x a), false, st)
        | version_invalid | seq_invalid => Some (None, true, pop_lp st)
        | version_pending | seq_pending => Some (None, false, st)
        end
      else Some (None, false, st)
  end.

(** ** Reading *)

Definition turn_lp_buffer_reading (now : Z) (read_lock write_lock : bool) (st : state) : option (option output * state) :=
  '(o, again, st) ← rt_read_from_lp_buffer st;
  match o with
  | Some o => Some (Some o, st)
  | None =>
      if (again : bool) then Some (None, st)
      else st ← rt_recycle_oversize_buffers now read_lock write_lock (map_rd (set_state next_group_finding) st); Some (None, st)
  end.

(** [batch_read] of the block and the first chunk of the batch. *)
Definition turn_hp_block_reading (st : state) : option (option output * state) :=
  b ← rd_block_ (rd_ st);
  k ← blocks_ st !! b;
  match bk_items k with
  | a :: l => Some (Some (Out_block b a), map_rd (set_batch true l) (update_block (set_items []) b st))
  | [] => Some (None, map_rd (fun r => set_state next_block_finding (set_batch false [] r)) st)
  end.

Definition is_valid (v : context_verify_result) : bool := match v with valid => true | _ => false end.

Definition turn_next_block_finding (st : state) : option (option output * state) :=
  '(found, st) ← rt_try_traverse_to_next_block_in_group st;
  if (found : bool) then
    let r := rd_ st in
    st ←
      (if bool_decide (verify_result_ r = seq_pending) && (rd_version_ r =? version) then Some (set_rd (set_end false (traverse_end_block_ r) r) st)
       else if traverse_end_block_is_working_ r && bool_decide (traverse_end_block_ r = rd_block_ r) then
         if rd_version_ r =? version then Some (set_rd (set_state traversal_completed r) st) else rt_try_traverse_to_next_version st
       else if negb (traverse_end_block_is_working_ r) && negb (is_block_marked_removed r) then Some (set_rd (set_end true (rd_block_ r) r) st)
       else Some st);
    Some (None, if is_valid (verify_result_ r) && negb (bool_decide (state_ (rd_ st) = traversal_completed))
                then map_rd (set_state hp_block_reading) st else st)
  else Some (None, map_rd (set_state next_group_finding) st).

Definition turn_next_group_finding (now : Z) (st : state) : option (option output * state) :=
  '(found, st) ← rt_try_traverse_to_next_group now st;
  if (found : bool) then Some (None, map_rd (set_state next_block_finding) st)
  else
    let r := set_state lp_buffer_reading (rd_ st) in
    if traverse_end_block_is_working_ r then
      if decide (traverse_end_block_ r = None) then
        if rd_version_ r =? version then Some (None, set_rd (set_state traversal_completed r) st)
        else st ← rt_try_traverse_to_next_version (set_rd r st); Some (None, st)
      else Some (None, set_rd r st)
    else Some (None, set_rd (set_end true None r) st).

Definition turn_traversal_completed (st : state) : option (option output * state) :=
  Some (Some Out_empty,
        map_rd (set_state (match rd_block_ (rd_ st) with Some _ => hp_block_reading | None => lp_buffer_reading end)) st).

(** One turn of the loop of [read_chunk_full_impl]. *)
Definition turn (now : Z) (read_lock write_lock : bool) (st : state) : option (option output * state) :=
  match state_ (rd_ st) with
  | lp_buffer_reading => turn_lp_buffer_reading now read_lock write_lock st
  | hp_block_reading => turn_hp_block_reading st
  | next_block_finding => turn_next_block_finding st
  | next_group_finding => turn_next_group_finding now st
  | traversal_completed => turn_traversal_completed st
  end.

(** [read_chunk] up to the loop: the next chunk of a batch, when there is one. *)
Definition read_chunk (st : state) : option (option output * state) :=
  match hp_success (rd_ st), hp_rest (rd_ st) with
  | true, a :: l => b ← rd_block_ (rd_ st); Some (Some (Out_block b a), map_rd (set_batch true l) st)
  | _, _ => st ← refresh (map_rd (set_batch false []) st); Some (None, st)
  end.

(** [return_read_chunk]. A batch goes back to its block as a whole, after its last chunk;
    what it held is not in [bk_items] any more. *)
Definition return_read_chunk (o : output) (st : state) : option state :=
  if hp_success (rd_ st) then
    match o with Out_block _ _ => Some st | _ => None end
  else
    match rd_block_ (rd_ st), o with
    | Some _, _ => Some st
    | None, Out_lp _ c _ => st ← deregister_seq c st; Some (pop_lp st)
    | None, Out_oversize _ c _ =>
        st ← deregister_seq c st;
        id ← rt_oversize_target_buffer_ (rd_ st);
        Some (pop_lp (pop_os id st))
    | None, Out_block _ _ => None
    | None, Out_empty => Some st
    end.

(** A read that nobody interrupts, with fuel for its turns. *)
Fixpoint turns (fuel : nat) (now : Z) (read_lock write_lock : bool) (st : state) : option (output * state) :=
  match fuel with
  | O => None
  | S fuel =>
      '(o, st) ← turn now read_lock write_lock st;
      match o with Some o => Some (o, st) | None => turns fuel now read_lock write_lock st end
  end.

End Defs.
End LogBufferReader.
