(* ===== verification/LogBufferSystem.v ===== *)
(** * The log buffer: its threads
    ([src/buffer/log_buffer.cpp])

    The writers and the reader of one log buffer as a system of steps: a call of a writer, the
    end of a thread, a turn of the reader. The calling protocol, the content of the buffer
    that is not read yet, in the order of the sequence numbers, and the invariant of the
    system. *)
From stdpp Require Import functions base list option numbers gmap.
From Stdlib Require Import ZArith Lia Bool.
From S2P Require Import Prelude BufferDefs LogBuffer LogBufferReader.

Module LogBufferSystem.
Import LogBuffer LogBufferReader.

Section Defs.
Context {A : Type}.
Abbreviation state := (@state A).
Abbreviation reading := (@reading A).
Abbreviation block := (@block A).
Abbreviation oversize := (@oversize A).
Abbreviation lp_chunk := (@lp_chunk A).
Abbreviation output := (@output A).

Variables (max_blocks : nat) (policy : log_memory_policy) (threshold : Z) (version : Z) (block_max_alloc : Z).

(** ** The system *)

(** What the reader does: nothing, a read, the use of what it read. *)
Inductive control := Idle | Running | Holding (o : output).

(** [pending]: the handles that the threads fill; [written] and [taken]: the chunks committed
    and the chunks returned, each with its thread. *)
Record system := mk_system {
  buffer : state;
  pending : gmap nat handle;
  reader : control;
  written : list (nat * A);
  taken : list (nat * A) }.

Inductive event :=
  | Alloc (t : nat) (size now : Z) (answers : list enum_buffer_result_code)
  | Commit (t : nat) (a : A)
  | Exit (t : nat)
  | Collect (now : Z)
  | Begin
  | Turn (now : Z) (read_lock write_lock : bool)
  | Return.

(** The chunk that an output is, with its thread. *)
Definition chunk_of (o : output) (st : state) : list (nat * A) :=
  match o with
  | Out_lp _ c a | Out_oversize _ c a => [(tls_info_ c, a)]
  | Out_block b a => match blocks_ st !! b with Some k => [(tls_info_ (bk_context k), a)] | None => [] end
  | Out_empty => []
  end.

Definition reads (r : option output) : control := match r with Some o => Holding o | None => Running end.

Definition step (s : system) (e : event) : option system :=
  let '(mk_system st pend ctl wr tk) := s in
  match e with
  | Alloc t size now answers =>
      '(h, st) ← alloc_write_chunk max_blocks policy threshold version block_max_alloc t size now answers st;
      Some (mk_system st (<[t := h]> pend) ctl wr tk)
  | Commit t a =>
      h ← pend !! t;
      st ← commit_write_chunk version t h a st;
      Some (mk_system st (delete t pend) ctl (if is_success (h_result h) then wr ++ [(t, a)] else wr) tk)
  | Exit t => st ← thread_exit version t st; Some (mk_system st pend ctl wr tk)
  | Collect now => Some (mk_system (garbage_collect now st) pend ctl wr tk)
  | Begin => '(o, st) ← read_chunk st; Some (mk_system st pend (reads o) wr tk)
  | Turn now rl wl => '(o, st) ← turn max_blocks version now rl wl st; Some (mk_system st pend (reads o) wr tk)
  | Return =>
      match ctl with
      | Holding o => st' ← return_read_chunk version o st; Some (mk_system st' pend Idle wr (tk ++ chunk_of o st))
      | _ => None
      end
  end.

(** The protocol: a thread commits what it allocated before its next call and before it ends;
    a sequence number does not wrap; the reader returns what it read before it reads on. *)
Definition enabled (s : system) (e : event) : Prop :=
  match e with
  | Alloc t _ _ answers =>
      pending s !! t = None /\
      let i := default new_tls (threads_ (buffer s) !! t) in
      tls_exited i = false /\ current_write_seq_ i + 2 * Z.of_nat (length answers) + 4 < 2 ^ 32
  | Commit t _ => is_Some (pending s !! t)
  | Exit t =>
      pending s !! t = None /\
      exists i, threads_ (buffer s) !! t = Some i /\ tls_exited i = false /\ current_write_seq_ i + 1 < 2 ^ 32
  | Collect _ => True
  | Begin => reader s = Idle
  | Turn _ _ _ => reader s = Running
  | Return => exists o, reader s = Holding o
  end.

Inductive runs : system -> list event -> system -> Prop :=
  | runs_nil s : runs s [] s
  | runs_cons s e s1 es s2 : enabled s e -> step s e = Some s1 -> runs s1 es s2 -> runs s (e :: es) s2.

(** The buffer of a run that has nothing to recover ([log_buffer::log_buffer]). *)
Definition initial_reading : reading :=
  mk_reading None None None None version false [] lp_buffer_reading false None false [] None None 0 0 false version_invalid.
Definition initial_state : state := mk_state [] 0 ∅ [] [] 0 [] 0 ∅ UINT32_MAX initial_reading.
Definition initial_system : system := mk_system initial_state ∅ Idle [] [].

(** ** What is not read yet *)

(** The chunks of thread [t] in a log. *)
Definition owned_by (t : nat) (l : list (nat * A)) : list A := snd <$> filter (fun p => p.1 = t) l.

Definition at_seq (t : nat) (s : Z) (c : context_head) : bool :=
  (version_ c =? version) && (tls_info_ c =? t)%nat && (seq_ c =? s).

Definition live_blocks (gs : list group) : list block_id := flat_map (fun g => (fun i => (g_id g, i)) <$> (used_ g ++ stage_ g)) gs.

(** What is handed out of the reader's block and what is left of its batch. *)
Definition in_batch (r : reading) (c : control) : list A :=
  match c with Holding (Out_block _ a) => [a] | _ => [] end ++ hp_rest r.

Definition lp_content (os : list oversize) (c : lp_chunk) : list A :=
  let x := lc_context c in
  if lc_committed c && negb (is_thread_finished_ x) then
    if is_external_ref_ x
    then match List.find (fun i => at_seq (tls_info_ x) (seq_ x) i.1) (flat_map os_items os) with Some i => [i.2] | None => [] end
    else match lc_data c with Some a => [a] | None => [] end
  else [].

Definition batch_part (r : reading) (c : control) (b : block_id) : list A :=
  if decide (rd_block_ r = Some b) then in_batch r c else [].

(** The unread chunks under the sequence number [n] of thread [t]. *)
Definition content_at (st : state) (c : control) (t : nat) (n : Z) : list A :=
  match List.find (fun c => at_seq t n (lc_context c)) (lp_ st) with
  | Some c => lp_content (os_ st) c
  | None =>
      match List.find (fun b => match blocks_ st !! b with Some k => at_seq t n (bk_context k) | None => false end) (live_blocks (groups_ st)) with
      | Some b => batch_part (rd_ st) c b ++ match blocks_ st !! b with Some k => bk_items k | None => [] end
      | None => []
      end
  end.

(** The chunks of thread [t] that are committed and not returned, oldest first. *)
Definition unread (s : system) (t : nat) : list A :=
  match threads_ (buffer s) !! t with
  | Some i => concat (content_at (buffer s) (reader s) t <$> seqZ (current_read_seq_ i) (current_write_seq_ i - current_read_seq_ i))
  | None => []
  end.

(** ** The invariant *)

(** Where the chunks of a sequence number are. *)
Inductive place := P_lp (id : nat) (external : bool) | P_block (b : block_id).

Definition lp_place (c : lp_chunk) : place := P_lp (lc_id c) (is_external_ref_ (lc_context c)).

(** The sequence numbers a thread has given out, with their places and the chunks that are
    left under them. *)
Abbreviation ghost := (nat -> list (place * list A)).

(** Views of the threads. *)
Abbreviation views := (gmap nat tls_buffer_info).
Definition reads_of (ths : views) : gmap nat Z := current_read_seq_ <$> ths.
Definition exits_of (ths : views) : gmap nat bool := tls_exited <$> ths.
Definition writes_of (ths : views) : gmap nat Z := current_write_seq_ <$> ths.
Definition blocks_of (ths : views) : gmap nat (option block_id) := cur_block_ <$> ths.
Definition oversize_of (ths : views) : gmap nat (option nat * option nat) := (fun i => (oversize_parent_handle_ i, oversize_target_buffer_ i)) <$> ths.

(** A context names a number that is not read yet; the mark of a thread's end is its last. *)
Record slot (Q : ghost) (R : gmap nat Z) (X : gmap nat bool) (c : context_head) (p : place) (l : list A) : Prop := {
  s_version : version_ c = version;
  s_read : exists r, R !! tls_info_ c = Some r /\ 0 <= r <= seq_ c;
  s_entry : Q (tls_info_ c) !! Z.to_nat (seq_ c) = Some (p, l);
  s_last : is_thread_finished_ c = true -> X !! tls_info_ c = Some true /\ S (Z.to_nat (seq_ c)) = length (Q (tls_info_ c)) }.

Definition lp_has (c : lp_chunk) (l : list A) : Prop :=
  let x := lc_context c in
  if lc_committed c then
    if is_external_ref_ x then is_thread_finished_ x = false /\ exists a, l = [a]
    else if is_thread_finished_ x then l = [] else exists a, lc_data c = Some a /\ l = [a]
  else l = [].

Record lp_inv (Q : ghost) (R : gmap nat Z) (X : gmap nat bool) (lp : list lp_chunk) (next : nat) : Prop := {
  l_ids : NoDup (lc_id <$> lp);
  l_next : forall c, c ∈ lp -> (lc_id c < next)%nat;
  l_version : forall c, c ∈ lp -> version_ (lc_context c) = version \/ version_ (lc_context c) = u16 (version + 1);
  l_slot : forall c, c ∈ lp -> version_ (lc_context c) = version -> exists l, slot Q R X (lc_context c) (lp_place c) l /\ lp_has c l }.

Definition live (gs : list group) (b : block_id) : Prop := exists g, g ∈ gs /\ g_id g = b.1 /\ b.2 ∈ used_ g ++ stage_ g.

Definition block_inv (Q : ghost) (R : gmap nat Z) (X : gmap nat bool) (blocks : gmap block_id block) (gs : list group) (hp : block_id -> list A) : Prop :=
  forall b, live gs b -> exists k, blocks !! b = Some k /\ slot Q R X (bk_context k) (P_block b) (hp b ++ bk_items k) /\
    (is_thread_finished_ (bk_context k) = true -> is_removed k = true).

(** Every number that is given out and not read has its chunks where it says. *)
Definition back_inv (Q : ghost) (R : gmap nat Z) (lp : list lp_chunk) (blocks : gmap block_id block) (gs : list group) : Prop :=
  forall t r j p l, R !! t = Some r -> r <= Z.of_nat j -> Q t !! j = Some (p, l) ->
    match p with
    | P_lp id _ => exists c, c ∈ lp /\ lc_id c = id /\ version_ (lc_context c) = version /\ tls_info_ (lc_context c) = t /\ seq_ (lc_context c) = Z.of_nat j
    | P_block b => live gs b /\ exists k, blocks !! b = Some k /\ version_ (bk_context k) = version /\ tls_info_ (bk_context k) = t /\ seq_ (bk_context k) = Z.of_nat j
    end.

Definition thread_inv (Q : ghost) (R W : gmap nat Z) : Prop :=
  forall t, match R !! t, W !! t with
            | Some r, Some w => 0 <= r <= w /\ w = Z.of_nat (length (Q t)) /\ w < 2 ^ 32
            | None, None => Q t = []
            | _, _ => False
            end.

(** The block of a thread is its last number; [skip] names a thread of which this is not said. *)
Definition cur_inv (skip : option nat) (C : gmap nat (option block_id)) (W : gmap nat Z) (X : gmap nat bool) (blocks : gmap block_id block) (gs : list group) : Prop :=
  forall t b, C !! t = Some (Some b) -> Some t <> skip ->
    X !! t = Some false /\ live gs b /\ exists k, blocks !! b = Some k /\ is_removed k = false /\ tls_info_ (bk_context k) = t /\
      W !! t = Some (seq_ (bk_context k) + 1).

(** An uncommitted chunk of the shared ring that is its thread's last number. *)
Definition lp_pending (lp : list lp_chunk) (W : gmap nat Z) (t id : nat) (ext : bool) : Prop :=
  exists c, c ∈ lp /\ lc_id c = id /\ lc_committed c = false /\ version_ (lc_context c) = version /\ tls_info_ (lc_context c) = t /\
    is_external_ref_ (lc_context c) = ext /\ is_thread_finished_ (lc_context c) = false /\ W !! t = Some (seq_ (lc_context c) + 1).

Definition pend_inv (pend : gmap nat handle) (X : gmap nat bool) (C : gmap nat (option block_id)) (O : gmap nat (option nat * option nat)) (W : gmap nat Z)
    (lp : list lp_chunk) (os : list oversize) : Prop :=
  forall t h, pend !! t = Some h ->
    X !! t = Some false /\
    (is_success (h_result h) = true ->
     match h_at h with
     | Nowhere => False
     | In_block b => C !! t = Some (Some b)
     | In_lp id => C !! t = Some None /\ lp_pending lp W t id false
     | In_oversize id =>
         C !! t = Some None /\
         exists p o, O !! t = Some (Some p, Some id) /\ lp_pending lp W t p true /\
           o ∈ os /\ os_id o = id /\ version_ (os_context o) = version /\ tls_info_ (os_context o) = t /\ os_locked o = true
     end).

(** A chunk of an oversize buffer is one number of the buffer's thread. *)
Record item_ok (Q : ghost) (R : gmap nat Z) (X : gmap nat bool) (o : oversize) (x : context_head * A) : Prop := {
  i_context : version_ (os_context o) = version /\ tls_info_ (os_context o) = tls_info_ x.1 /\ is_thread_finished_ x.1 = false;
  i_slot : exists id, slot Q R X x.1 (P_lp id true) [x.2] }.

Record os_inv (Q : ghost) (R : gmap nat Z) (X : gmap nat bool) (lp : list lp_chunk) (os : list oversize) (next : nat) : Prop := {
  o_ids : NoDup (os_id <$> os);
  o_next : forall o, o ∈ os -> (os_id o <= next)%nat;
  o_items : forall o x, o ∈ os -> x ∈ os_items o -> item_ok Q R X o x;
  o_sorted : forall o i j x y, o ∈ os -> os_items o !! i = Some x -> os_items o !! j = Some y -> (i < j)%nat -> seq_ x.1 < seq_ y.1;
  o_unique : forall o o' x x', o ∈ os -> o' ∈ os -> x ∈ os_items o -> x' ∈ os_items o' ->
    tls_info_ x.1 = tls_info_ x'.1 -> seq_ x.1 = seq_ x'.1 -> os_id o = os_id o';
  o_back : forall c, c ∈ lp -> version_ (lc_context c) = version -> lc_committed c = true -> is_external_ref_ (lc_context c) = true ->
    exists o x, o ∈ os /\ x ∈ os_items o /\ tls_info_ x.1 = tls_info_ (lc_context c) /\ seq_ x.1 = seq_ (lc_context c) }.

Record group_inv (gs pool : list group) (index : nat) : Prop := {
  g_ids : NoDup (g_id <$> gs ++ pool);
  g_index : forall g, g ∈ gs ++ pool -> (g_id g <= index)%nat;
  g_lists : forall g, g ∈ gs ++ pool -> used_ g ++ free_ g ++ stage_ g ≡ₚ seq 0 max_blocks;
  g_pool : forall g, g ∈ pool -> used_ g = [] /\ stage_ g = [] }.

(** ** The reader's position *)

(** The block named is in none of the groups. *)
Definition outside (b : option block_id) (gs : list group) : Prop := forall g i, b = Some (g, i) -> g ∉ g_id <$> gs.

(** The block named is in the used list of its group. *)
Definition in_used (b : option block_id) (gs : list group) : Prop := forall x, b = Some x -> exists g, g ∈ gs /\ g_id g = x.1 /\ x.2 ∈ used_ g.

Definition out_of_groups (r : reading) : Prop := cur_group_ r = None /\ rd_block_ r = None /\ last_block_ r = None.

(** In the group, at the block behind [pre]. *)
Definition at_block (r : reading) (gs : list group) : Prop :=
  exists xs G ys pre i post, gs = xs ++ G :: ys /\ cur_group_ r = Some (g_id G) /\ used_ G = pre ++ i :: post /\
    cur_group_using_blocks_num_ r = Z.of_nat (length pre) /\ rd_block_ r = Some (g_id G, i) /\
    in_group (g_id G) (last_block_ r) = last pre /\ outside (last_block_ r) ys.

(** In the group, at no block of it yet. *)
Definition at_group (r : reading) (gs : list group) : Prop :=
  exists xs G ys, gs = xs ++ G :: ys /\ cur_group_ r = Some (g_id G) /\ cur_group_using_blocks_num_ r = 0 /\
    outside (rd_block_ r) (G :: ys) /\ outside (last_block_ r) (G :: ys).

(** Done with the group. *)
Definition past_group (r : reading) (gs : list group) : Prop :=
  exists xs G ys, gs = xs ++ G :: ys /\ cur_group_ r = Some (g_id G) /\ cur_group_using_blocks_num_ r = Z.of_nat (length (used_ G)) /\
    outside (rd_block_ r) ys /\ outside (last_block_ r) ys.

Definition position (r : reading) (gs : list group) : Prop :=
  match state_ r with
  | lp_buffer_reading => out_of_groups r
  | hp_block_reading => at_block r gs /\ verify_result_ r = valid
  | next_block_finding => at_block r gs \/ at_group r gs /\ verify_result_ r <> valid
  | next_group_finding => (out_of_groups r \/ past_group r gs) /\ verify_result_ r <> valid
  | traversal_completed => out_of_groups r \/ at_block r gs /\ verify_result_ r = valid
  end.

Record reader_inv (r : reading) (gs : list group) (blocks : gmap block_id block) (R : gmap nat Z) : Prop := {
  r_version : rd_version_ r = version;
  r_used : in_used (rd_block_ r) gs /\ in_used (last_block_ r) gs;
  r_last_group : forall g h, cur_group_ r = Some g -> last_group_ r = Some h -> exists xs ys, g_id <$> gs = xs ++ h :: g :: ys;
  r_position : position r gs;
  r_marked : is_block_marked_removed r = true -> verify_result_ r = valid;
  r_verified : verify_result_ r = valid -> exists b k, rd_block_ r = Some b /\ blocks !! b = Some k /\
    R !! tls_info_ (bk_context k) = Some (seq_ (bk_context k)) /\
    (is_block_marked_removed r = true -> is_removed k = true /\ (state_ r = next_block_finding -> bk_items k = []));
  r_batch : if hp_success r then state_ r = hp_block_reading else hp_rest r = [] }.

Definition control_inv (c : control) (r : reading) (lp : list lp_chunk) (os : list oversize) (R : gmap nat Z) : Prop :=
  match c with
  | Idle => state_ r = lp_buffer_reading \/ state_ r = hp_block_reading
  | Running => hp_success r = false
  | Holding Out_empty => hp_success r = false /\ (state_ r = lp_buffer_reading \/ state_ r = hp_block_reading)
  | Holding (Out_block b _) => hp_success r = true /\ rd_block_ r = Some b
  | Holding (Out_lp id c a) =>
      hp_success r = false /\ state_ r = lp_buffer_reading /\ is_thread_finished_ c = false /\ is_external_ref_ c = false /\
      R !! tls_info_ c = Some (seq_ c) /\ version_ c = version /\ head lp = Some (mk_lp id c (Some a) true)
  | Holding (Out_oversize id c a) =>
      hp_success r = false /\ state_ r = lp_buffer_reading /\ is_thread_finished_ c = false /\ version_ c = version /\
      R !! tls_info_ c = Some (seq_ c) /\ rt_oversize_target_buffer_ r = Some id /\
      (exists o, o ∈ os /\ os_id o = id /\ head (os_items o) = Some (c, a)) /\
      exists p, head lp = Some p /\ lc_committed p = true /\ version_ (lc_context p) = version /\ tls_info_ (lc_context p) = tls_info_ c /\
        seq_ (lc_context p) = seq_ c /\ is_external_ref_ (lc_context p) = true
  end.

Record inv (skip : option nat) (Q : ghost) (st : state) (pend : gmap nat handle) (ctl : control) : Prop := {
  v_lp : lp_inv Q (reads_of (threads_ st)) (exits_of (threads_ st)) (lp_ st) (lp_next st);
  v_block : block_inv Q (reads_of (threads_ st)) (exits_of (threads_ st)) (blocks_ st) (groups_ st) (batch_part (rd_ st) ctl);
  v_back : back_inv Q (reads_of (threads_ st)) (lp_ st) (blocks_ st) (groups_ st);
  v_thread : thread_inv Q (reads_of (threads_ st)) (writes_of (threads_ st));
  v_cur : cur_inv skip (blocks_of (threads_ st)) (writes_of (threads_ st)) (exits_of (threads_ st)) (blocks_ st) (groups_ st);
  v_pend : pend_inv pend (exits_of (threads_ st)) (blocks_of (threads_ st)) (oversize_of (threads_ st)) (writes_of (threads_ st)) (lp_ st) (os_ st);
  v_os : os_inv Q (reads_of (threads_ st)) (exits_of (threads_ st)) (lp_ st) (os_ st) (os_next st);
  v_group : group_inv (groups_ st) (pool_ st) (current_group_index_ st);
  v_reader : reader_inv (rd_ st) (groups_ st) (blocks_ st) (reads_of (threads_ st));
  v_control : control_inv ctl (rd_ st) (lp_ st) (os_ st) (reads_of (threads_ st)) }.

(** What the ghost says is unread. *)
Definition rest_of (Q : ghost) (R : gmap nat Z) (t : nat) : list A := concat (drop (Z.to_nat (default 0 (R !! t))) (Q t).*2).

Definition system_inv (s : system) : Prop :=
  exists Q, inv None Q (buffer s) (pending s) (reader s) /\
    forall t, owned_by t (written s) = owned_by t (taken s) ++ rest_of Q (reads_of (threads_ (buffer s))) t.

End Defs.
End LogBufferSystem.
