(* ===== verification/LogBufferGhost.v ===== *)
(** * The log buffer: what a step changes

    The sequence numbers that the threads have given out, as the invariant of
    [LogBufferSystem] keeps them: what a new number, a new content and a number that is read
    change, and the views of the threads after an update. *)
From stdpp Require Import functions base list option numbers gmap.
From Stdlib Require Import ZArith Lia Bool.
From S2P Require Import Prelude BufferDefs LogBuffer LogBufferReader LogBufferSystem.

Module LogBufferGhost.
Import LogBuffer LogBufferReader LogBufferSystem.

(** ** Views *)

Section Views.
Context {K : Type} `{Countable K} {V W : Type} (p : V -> W) (m : gmap K V).

Lemma view_alter_same (f : V -> V) (t : K) : (forall v, p (f v) = p v) -> p <$> alter f t m = p <$> m.
Proof.
  intros Hf. apply map_eq. intros i. rewrite !lookup_fmap. destruct (decide (i = t)) as [->|].
  - rewrite lookup_alter_eq. destruct (m !! t) as [v|]; simpl; [by rewrite Hf|done].
  - by rewrite lookup_alter_ne.
Qed.

Lemma view_alter (f : V -> V) (t : K) (v : V) : m !! t = Some v -> p <$> alter f t m = <[t := p (f v)]> (p <$> m).
Proof.
  intros Hv. apply map_eq. intros i. rewrite lookup_fmap. destruct (decide (i = t)) as [->|].
  - by rewrite lookup_alter_eq, Hv, lookup_insert_eq.
  - by rewrite lookup_alter_ne, lookup_insert_ne, lookup_fmap.
Qed.

Lemma view_lookup (t : K) (w : W) : (p <$> m) !! t = Some w <-> exists v, m !! t = Some v /\ p v = w.
Proof. rewrite lookup_fmap, fmap_Some. naive_solver. Qed.
End Views.

Section Ghost.
Context {A : Type}.
Abbreviation block := (@block A).
Abbreviation oversize := (@oversize A).
Abbreviation lp_chunk := (@lp_chunk A).
Abbreviation ghost := (nat -> list (place * list A)).
Variables (version : Z).
Abbreviation slot := (@slot A version).

(** ** Numbers *)

(** A new number of thread [t], with nothing under it. *)
Definition extend (Q : ghost) (t : nat) (p : place) : ghost := <[t := Q t ++ [(p, [])]]> Q.

(** Other chunks under number [j] of thread [t]. *)
Definition refill (Q : ghost) (t j : nat) (l : list A) : ghost := <[t := alter (fun e => (e.1, l)) j (Q t)]> Q.

Lemma slot_seq (Q : ghost) R X c p l : slot Q R X c p l -> 0 <= seq_ c.
Proof. intros [_ (r & _ & Hr) _ _]. lia. Qed.

Lemma slot_inj (Q : ghost) R X c c' p p' l l' :
  slot Q R X c p l -> slot Q R X c' p' l' -> tls_info_ c = tls_info_ c' -> seq_ c = seq_ c' -> p = p' /\ l = l'.
Proof. intros [_ _ He _] [_ _ He' _] Ht Hs. rewrite Ht, Hs, He' in He. by injection He as -> ->. Qed.

Lemma extend_lookup (Q : ghost) t p t' j e : extend Q t p t' !! j = Some e ->
  Q t' !! j = Some e \/ t' = t /\ j = length (Q t) /\ e = (p, []).
Proof.
  unfold extend. destruct (decide (t' = t)) as [->|].
  - rewrite fn_lookup_insert. rewrite lookup_snoc_Some. intros [[_ ?]|[? ?]]; [by left|by right].
  - rewrite fn_lookup_insert_ne by done. by left.
Qed.

Lemma extend_old (Q : ghost) t p t' j e : Q t' !! j = Some e -> extend Q t p t' !! j = Some e.
Proof.
  unfold extend. intros He. destruct (decide (t' = t)) as [->|].
  - rewrite fn_lookup_insert. by apply lookup_app_l_Some.
  - by rewrite fn_lookup_insert_ne.
Qed.

Lemma extend_new_entry (Q : ghost) t p : extend Q t p t !! length (Q t) = Some (p, []).
Proof. unfold extend. rewrite fn_lookup_insert. by rewrite list_lookup_middle. Qed.

Lemma slot_extend (Q : ghost) R X c p l t p' : X !! t <> Some true -> slot Q R X c p l -> slot (extend Q t p') R X c p l.
Proof.
  intros Hx [Hv Hr He Hl]. split; [done|done|by apply extend_old|]. intros Hf. destruct (Hl Hf) as [Hx' Hlen].
  assert (tls_info_ c <> t) by congruence. split; [done|]. unfold extend. by rewrite fn_lookup_insert_ne.
Qed.

Lemma refill_lookup (Q : ghost) t j l t' j' :
  refill Q t j l t' !! j' = if decide (t' = t /\ j' = j) then (fun e => (e.1, l)) <$> Q t' !! j' else Q t' !! j'.
Proof.
  unfold refill. destruct (decide (t' = t)) as [->|Ht].
  - rewrite fn_lookup_insert. destruct (decide _) as [[_ ->]|Hn].
    + by rewrite list_lookup_alter_eq.
    + by rewrite list_lookup_alter_ne by naive_solver.
  - rewrite fn_lookup_insert_ne by done. by rewrite decide_False by naive_solver.
Qed.

Lemma refill_length (Q : ghost) t j l t' : length (refill Q t j l t') = length (Q t').
Proof.
  unfold refill. destruct (decide (t' = t)) as [->|]; [|by rewrite fn_lookup_insert_ne].
  by rewrite fn_lookup_insert, length_alter.
Qed.

Lemma slot_refill (Q : ghost) R X c p l t j l' :
  slot Q R X c p l -> slot (refill Q t j l') R X c p (if decide (tls_info_ c = t /\ Z.to_nat (seq_ c) = j) then l' else l).
Proof.
  intros [Hv Hr He Hl]. split; [done|done| |].
  - rewrite refill_lookup, He. by destruct (decide _).
  - intros Hf. rewrite refill_length. by apply Hl.
Qed.

Lemma slot_refill_ne (Q : ghost) R X c p l t j l' :
  ~ (tls_info_ c = t /\ seq_ c = Z.of_nat j) -> slot Q R X c p l -> slot (refill Q t j l') R X c p l.
Proof.
  intros Hn Hs. pose proof (slot_seq _ _ _ _ _ _ Hs). apply (slot_refill _ _ _ _ _ _ t j l') in Hs.
  rewrite decide_False in Hs by (intros [? ?]; apply Hn; split; [done|lia]). done.
Qed.

(** More threads ended. *)
Lemma slot_exits (Q : ghost) R X X' c p l : (forall t, X !! t = Some true -> X' !! t = Some true) -> slot Q R X c p l -> slot Q R X' c p l.
Proof. intros Hx [Hv Hr He Hl]. split; [done..|]. intros Hf. destruct (Hl Hf). by split; [apply Hx|]. Qed.

(** The mark of the end on the last number. *)
Lemma slot_finish (Q : ghost) R X c c' p l : version_ c' = version_ c -> seq_ c' = seq_ c -> tls_info_ c' = tls_info_ c ->
  (is_thread_finished_ c' = true -> X !! tls_info_ c = Some true /\ S (Z.to_nat (seq_ c)) = length (Q (tls_info_ c))) ->
  slot Q R X c p l -> slot Q R X c' p l.
Proof. intros Hv Hs Ht Hl [H1 H2 H3 _]. split; rewrite ?Hv, ?Hs, ?Ht; done. Qed.

(** Number [r] of [t] is read. *)
Lemma slot_read (Q : ghost) R X c p l t r : R !! t = Some r -> ~ (tls_info_ c = t /\ seq_ c = r) ->
  slot Q R X c p l -> slot Q (<[t := r + 1]> R) X c p l.
Proof.
  intros Hr Hn [Hv (r' & Hr' & Hle) He Hl]. split; [done| |done|done].
  destruct (decide (tls_info_ c = t)) as [<-|].
  - rewrite lookup_insert_eq. eexists. split; [done|]. rewrite Hr in Hr'. injection Hr' as <-.
    assert (seq_ c <> r) by naive_solver. lia.
  - rewrite lookup_insert_ne by done. by eexists.
Qed.

(** Thread [t] is gone. *)
Lemma slot_gone (Q : ghost) R X c p l t : tls_info_ c <> t -> slot Q R X c p l -> slot (<[t := []]> Q) (delete t R) (delete t X) c p l.
Proof.
  intros Ht [Hv Hr He Hl]. split; rewrite ?fn_lookup_insert_ne, ?lookup_delete_ne by done; done.
Qed.

(** A change of the numbers under which the contexts of [P] stay where they are. *)
Definition pres (P : context_head -> Prop) (Q : ghost) R X (Q' : ghost) R' X' : Prop :=
  forall c p l, P c -> slot Q R X c p l -> slot Q' R' X' c p l.

Definition not_at (t : nat) (n : Z) (c : context_head) : Prop := ~ (tls_info_ c = t /\ seq_ c = n).

Lemma pres_extend (Q : ghost) R X t p : X !! t <> Some true -> pres (fun _ => True) Q R X (extend Q t p) R X.
Proof. intros Hx c q l _. by apply slot_extend. Qed.

Lemma pres_refill (Q : ghost) R X t j l : pres (not_at t (Z.of_nat j)) Q R X (refill Q t j l) R X.
Proof. intros c p l'. apply slot_refill_ne. Qed.

Lemma pres_read (Q : ghost) R X t r : R !! t = Some r -> pres (not_at t r) Q R X Q (<[t := r + 1]> R) X.
Proof. intros Hr c p l. by apply slot_read. Qed.

Lemma pres_gone (Q : ghost) R X t : pres (fun c => tls_info_ c <> t) Q R X (<[t := []]> Q) (delete t R) (delete t X).
Proof. intros c p l. apply slot_gone. Qed.

Lemma pres_exits (Q : ghost) R X X' : (forall t, X !! t = Some true -> X' !! t = Some true) -> pres (fun _ => True) Q R X Q R X'.
Proof. intros Hx c p l _. by apply slot_exits. Qed.

(** ** What holds the chunks *)

Section Pres.
Variables (P : context_head -> Prop) (Q Q' : ghost) (R R' : gmap nat Z) (X X' : gmap nat bool).
Hypothesis Hpres : pres P Q R X Q' R' X'.

Lemma lp_inv_pres lp next : (forall c, c ∈ lp -> version_ (lc_context c) = version -> P (lc_context c)) ->
  lp_inv version Q R X lp next -> lp_inv version Q' R' X' lp next.
Proof.
  intros HP [H1 H2 H3 H4]. split; [done..|]. intros c Hc Hv. destruct (H4 c Hc Hv) as (l & Hs & Hl). exists l.
  split; [|done]. apply Hpres; [by apply HP|done].
Qed.

Lemma block_inv_pres blocks gs hp : (forall b k, live gs b -> blocks !! b = Some k -> P (bk_context k)) ->
  block_inv version Q R X blocks gs hp -> block_inv version Q' R' X' blocks gs hp.
Proof.
  intros HP Hb b Hl. destruct (Hb b Hl) as (k & Hk & Hs & Hf). exists k. split_and!; [done| |done].
  apply Hpres; [by eapply HP|done].
Qed.

Lemma os_inv_pres lp os next : (forall o x, o ∈ os -> x ∈ os_items o -> P x.1) ->
  os_inv version Q R X lp os next -> os_inv version Q' R' X' lp os next.
Proof.
  intros HP [H1 H2 H3 H4 H5 H6]. split; [done|done| |done..]. intros o x Ho Hx. destruct (H3 o x Ho Hx) as [Hc (id & Hs)].
  split; [done|]. exists id. apply Hpres; [by eapply HP|done].
Qed.
End Pres.

(** ** Contents *)

Lemma rest_extend (Q : ghost) R t p t' : rest_of (extend Q t p) R t' = rest_of Q R t'.
Proof.
  unfold rest_of, extend. destruct (decide (t' = t)) as [->|]; [|by rewrite fn_lookup_insert_ne].
  rewrite fn_lookup_insert, fmap_app. simpl. generalize (Z.to_nat (default 0 (R !! t))). intros n.
  rewrite drop_app, concat_app. simpl. destruct (n - length (Q t).*2)%nat as [|[|m]]; simpl; by rewrite ?app_nil_r.
Qed.

Lemma rest_entry (Q : ghost) R t r j p l : R !! t = Some r -> 0 <= r -> r <= Z.of_nat j -> Q t !! j = Some (p, l) ->
  exists l1 l2, rest_of Q R t = concat l1 ++ l ++ concat l2 /\ (r = Z.of_nat j -> l1 = []) /\
    (S j = length (Q t) -> l2 = []) /\ forall l', rest_of (refill Q t j l') R t = concat l1 ++ l' ++ concat l2.
Proof.
  intros HR H0 Hr He. unfold rest_of. rewrite HR. simpl.
  pose proof (lookup_lt_Some _ _ _ He) as Hlt.
  assert (Q t = take j (Q t) ++ (p, l) :: drop (S j) (Q t)) as HQ by (symmetry; by apply take_drop_middle).
  assert (forall l', (drop (Z.to_nat r) (take j (Q t) ++ (p, l') :: drop (S j) (Q t)).*2) =
            drop (Z.to_nat r) (take j (Q t)).*2 ++ l' :: (drop (S j) (Q t)).*2) as Hd.
  { intros l'. rewrite fmap_app. simpl. rewrite drop_app_le; [done|]. rewrite length_fmap, length_take. lia. }
  exists (drop (Z.to_nat r) (take j (Q t)).*2), (drop (S j) (Q t)).*2. split; [|split; [|split]].
  - rewrite HQ at 1. by rewrite Hd, concat_app.
  - intros ->. apply drop_ge. rewrite length_fmap, length_take. lia.
  - intros Hj. by rewrite drop_ge by lia.
  - intros l'. unfold refill. rewrite fn_lookup_insert.
    assert (alter (fun e => (e.1, l')) j (Q t) = take j (Q t) ++ (p, l') :: drop (S j) (Q t)) as ->.
    { rewrite HQ at 1. rewrite alter_app_r_alt by (rewrite length_take; lia). rewrite length_take.
      replace (j - j `min` length (Q t))%nat with O by lia. done. }
    by rewrite Hd, concat_app.
Qed.

Lemma rest_refill_ne (Q : ghost) R t j l t' : t' <> t -> rest_of (refill Q t j l) R t' = rest_of Q R t'.
Proof. intros Ht. unfold rest_of, refill. by rewrite fn_lookup_insert_ne. Qed.

(** More chunks under the last number. *)
Lemma rest_last (Q : ghost) (R : gmap nat Z) t r j p l l' u : R !! t = Some r -> 0 <= r <= Z.of_nat j -> Q t !! j = Some (p, l) ->
  S j = length (Q t) -> rest_of (refill Q t j (l ++ l')) R u = rest_of Q R u ++ (if decide (u = t) then l' else []).
Proof.
  intros HR Hr He Hj. destruct (decide (u = t)) as [->|]; [|by rewrite rest_refill_ne, app_nil_r].
  destruct (rest_entry Q R t r j p l) as (l1 & l2 & -> & _ & Hl2 & ->); [done|lia|lia|done|].
  rewrite (Hl2 Hj). simpl. by rewrite !app_nil_r, !app_assoc.
Qed.

Lemma rest_read (Q : ghost) R t r p l : R !! t = Some r -> 0 <= r -> Q t !! Z.to_nat r = Some (p, l) ->
  rest_of Q R t = l ++ rest_of Q (<[t := r + 1]> R) t.
Proof.
  intros HR H0 He. unfold rest_of. rewrite HR, lookup_insert_eq. simpl.
  replace (Z.to_nat (r + 1)) with (S (Z.to_nat r)) by lia.
  assert ((Q t).*2 !! Z.to_nat r = Some l) as He' by (by rewrite list_lookup_fmap, He).
  by rewrite (drop_S _ _ _ He').
Qed.

Lemma rest_read_ne (Q : ghost) R t r t' : t' <> t -> rest_of Q (<[t := r]> R) t' = rest_of Q R t'.
Proof. intros Ht. unfold rest_of. by rewrite lookup_insert_ne. Qed.

Lemma rest_gone (Q : ghost) R t t' : rest_of (<[t := []]> Q) (delete t R) t' = if decide (t' = t) then [] else rest_of Q R t'.
Proof.
  unfold rest_of. destruct (decide (t' = t)) as [->|].
  - rewrite fn_lookup_insert. simpl. by rewrite drop_nil.
  - by rewrite fn_lookup_insert_ne, lookup_delete_ne.
Qed.

(** The same is there to read. *)
Definition same_rest (Q : ghost) (st : @state A) (Q' : ghost) (st' : @state A) : Prop :=
  forall u, rest_of Q' (reads_of (threads_ st')) u = rest_of Q (reads_of (threads_ st)) u.

Lemma same_rest_trans (Q1 Q2 Q3 : ghost) (st1 st2 st3 : @state A) : same_rest Q1 st1 Q2 st2 -> same_rest Q2 st2 Q3 st3 -> same_rest Q1 st1 Q3 st3.
Proof. intros H1 H2 u. by rewrite H2, H1. Qed.

End Ghost.
End LogBufferGhost.
