(* ===== verification/LogBufferFrame.v ===== *)
(** * The log buffer: what the parts of its invariant survive

    For each part of the invariant of [LogBufferSystem] the changes that keep it: a list of
    named elements of which one is updated, the handles of other threads, the chunks of the
    ring and of the blocks, the reader's position under what writers do to the groups. *)
From stdpp Require Import functions base list option numbers gmap.
From Stdlib Require Import ZArith Lia Bool.
From S2P Require Import Prelude BufferDefs LogBuffer LogBufferReader LogBufferSystem LogBufferGhost.

Module LogBufferFrame.
Import LogBuffer LogBufferReader LogBufferSystem LogBufferGhost.

Section Frame.
Context {A : Type}.
Abbreviation state := (@state A).
Abbreviation block := (@block A).
Abbreviation oversize := (@oversize A).
Abbreviation lp_chunk := (@lp_chunk A).
Abbreviation reading := (@reading A).
Abbreviation control := (@control A).
Abbreviation ghost := (nat -> list (place * list A)).
Variables (max_blocks : nat) (version : Z).

(** ** Lists of named elements *)

(** The elements of a list that are named [id], updated; names differ. *)
Definition set_by {B} (key : B -> nat) (f : B -> B) (id : nat) (l : list B) : list B :=
  (fun x => if (key x =? id)%nat then f x else x) <$> l.

Section Set_by.
Context {B : Type}.
Variables (key : B -> nat) (f : B -> B) (l : list B) (x0 : B).
Hypotheses (Hid : forall x, key (f x) = key x) (Hnd : NoDup (key <$> l)) (H0 : x0 ∈ l).

Lemma key_inj x x' : x ∈ l -> x' ∈ l -> key x = key x' -> x = x'.
Proof using Hnd.
  intros [i Hi]%list_elem_of_lookup [j Hj]%list_elem_of_lookup E.
  assert (i = j) as ->; [|congruence].
  eapply (NoDup_lookup _ i j (key x)); [done|by rewrite list_lookup_fmap, Hi|by rewrite list_lookup_fmap, Hj, E].
Qed.

Lemma set_by_keys id : key <$> set_by key f id l = key <$> l.
Proof using Hid.
  unfold set_by. rewrite <- list_fmap_compose. apply list_fmap_ext. intros _ c _. simpl.
  destruct (_ =? _)%nat; [apply Hid|done].
Qed.

Lemma set_by_elem x : x ∈ set_by key f (key x0) l <-> x = f x0 \/ x ∈ l /\ key x <> key x0.
Proof using Hnd H0.
  unfold set_by. rewrite list_elem_of_fmap. split.
  - intros (x' & -> & Hx'). destruct (Nat.eqb_spec (key x') (key x0)) as [E|]; [|by right].
    left. by rewrite (key_inj x' x0).
  - intros [->|[Hx Hn]].
    + exists x0. by rewrite Nat.eqb_refl.
    + exists x. split; [|done]. by apply Nat.eqb_neq in Hn as ->.
Qed.
End Set_by.

Lemma set_by_head (l : list lp_chunk) f c0 p : NoDup (lc_id <$> l) -> c0 ∈ l ->
  lc_committed c0 = false -> head l = Some p -> lc_committed p = true -> head (set_by lc_id f (lc_id c0) l) = Some p.
Proof.
  destruct l as [|p' l]; [done|]. simpl. intros Hnd H0 Hc [= ->] Hp. f_equal.
  destruct (Nat.eqb_spec (lc_id p) (lc_id c0)) as [Eid|]; [|done].
  assert (p = c0) as ->; [|congruence]. apply (key_inj lc_id (p :: l)); [done|by left|done|done].
Qed.

(** ** Handles *)

Lemma pend_other pend X C O W (lp : list lp_chunk) (os : list oversize) t C' :
  pend !! t = None -> (forall t', t' <> t -> C' !! t' = C !! t') ->
  pend_inv version pend X C O W lp os -> pend_inv version pend X C' O W lp os.
Proof.
  intros Ht HC Hp t' h Hh. assert (t' <> t) by congruence. destruct (Hp t' h Hh) as [Hx Hs].
  split; [done|]. rewrite HC by done. done.
Qed.

(** Another thread's handle is still good when what it points to is there. *)
Lemma pend_frame pend X X' C C' O O' W W' (lp lp' : list lp_chunk) (os os' : list oversize) t :
  pend !! t = None ->
  (forall t', t' <> t -> X' !! t' = X !! t' /\ C' !! t' = C !! t' /\ O' !! t' = O !! t' /\ W' !! t' = W !! t') ->
  (forall c, c ∈ lp -> lc_committed c = false -> tls_info_ (lc_context c) <> t -> c ∈ lp') ->
  (forall o, o ∈ os -> tls_info_ (os_context o) <> t -> exists o', o' ∈ os' /\ os_id o' = os_id o /\ os_context o' = os_context o /\ os_locked o' = os_locked o) ->
  pend_inv version pend X C O W lp os -> pend_inv version pend X' C' O' W' lp' os'.
Proof.
  intros Ht Hv Hlp Hos Hp t' h Hh. assert (t' <> t) as Hne by congruence.
  destruct (Hv t' Hne) as (HX & HC & HO & HW). destruct (Hp t' h Hh) as [Hx Hs]. rewrite HX. split; [done|].
  intros Hsucc. specialize (Hs Hsucc). rewrite HC, HO.
  assert (forall id e, lp_pending version lp W t' id e -> lp_pending version lp' W' t' id e) as Hlpp.
  { intros id e (c & Hc & ? & ? & ? & Htc & ?). exists c. rewrite HW. split_and!; naive_solver. }
  destruct (h_at h) as [|id|b|id]; [done| |done|].
  - split; [apply Hs|]. apply Hlpp, Hs.
  - destruct Hs as (HCn & p & o & HOt & Hpp & Ho & Hid & Hvo & Hto & Hlk). split; [done|].
    assert (tls_info_ (os_context o) <> t) as Hot by congruence.
    destruct (Hos o Ho Hot) as (o' & Ho' & Hid' & Hc' & Hl'). exists p, o'. rewrite Hid', Hc', Hl'. split_and!; try done.
    by apply Hlpp.
Qed.

Lemma control_frame c r (lp lp' : list lp_chunk) os R :
  (forall p, head lp = Some p -> lc_committed p = true -> head lp' = Some p) ->
  control_inv version c r lp os R -> control_inv version c r lp' os R.
Proof.
  intros Hh. destruct c as [| |[id c a|id c a|b a|]]; simpl; try done.
  - intros (? & ? & ? & ? & ? & ? & H). split_and!; try done. by apply Hh.
  - intros (? & ? & ? & ? & ? & ? & ? & p & H & ?). split_and!; try done. exists p. split; [apply Hh; naive_solver|done].
Qed.

Lemma head_app_some {B} (l l' : list B) x : head l = Some x -> head (l ++ l') = Some x.
Proof. by destruct l. Qed.

Lemma pend_delete pend X C O W (lp : list lp_chunk) (os : list oversize) t :
  pend_inv version pend X C O W lp os -> pend_inv version (delete t pend) X C O W lp os.
Proof. intros Hp t' h Hh. apply lookup_delete_Some in Hh as [_ Hh]. by apply Hp. Qed.

(** ** Chunks of the shared ring *)

Lemma back_refill (Q : ghost) (R : gmap nat Z) (lp : list lp_chunk) (blocks : gmap block_id block) (gs : list group) t j l :
  back_inv version Q R lp blocks gs -> back_inv version (refill Q t j l) R lp blocks gs.
Proof.
  intros Hb u r k p l' Hu Hr He. rewrite refill_lookup in He. destruct (decide _) as [[-> ->]|]; [|by eapply Hb].
  destruct (Q t !! j) as [[p' l0]|] eqn:E; [|done]. injection He as -> ->. by eapply Hb.
Qed.

Lemma thread_refill (Q : ghost) (R W : gmap nat Z) t j l : thread_inv Q R W -> thread_inv (refill Q t j l) R W.
Proof.
  intros Hth u. specialize (Hth u). destruct (R !! u), (W !! u); try done.
  - by rewrite refill_length.
  - unfold refill. destruct (decide (u = t)) as [->|]; [|by rewrite fn_lookup_insert_ne]. by rewrite fn_lookup_insert, Hth.
Qed.

(** The numbers of the chunks of the shared ring differ, and from those of the blocks. *)
Lemma lp_not_at (Q : ghost) (R : gmap nat Z) (X : gmap nat bool) (lp : list lp_chunk) next c0 c l0 l :
  lp_inv version Q R X lp next -> c0 ∈ lp -> c ∈ lp -> lc_id c <> lc_id c0 ->
  slot version Q R X (lc_context c0) (lp_place c0) l0 -> slot version Q R X (lc_context c) (lp_place c) l ->
  not_at (tls_info_ (lc_context c0)) (seq_ (lc_context c0)) (lc_context c).
Proof.
  intros Hlp H0 Hc Hn Hs0 Hs [Ht Hq]. destruct (slot_inj _ _ _ _ _ _ _ _ _ _ Hs0 Hs) as [[= E] _]; [done..|]. congruence.
Qed.

Lemma lp_inv_set (Q : ghost) (R : gmap nat Z) (X : gmap nat bool) (lp : list lp_chunk) next c0 l d l0 :
  lp_inv version Q R X lp next -> c0 ∈ lp -> version_ (lc_context c0) = version ->
  slot version Q R X (lc_context c0) (lp_place c0) l0 -> lp_has (commit_lp d c0) l ->
  lp_inv version (refill Q (tls_info_ (lc_context c0)) (Z.to_nat (seq_ (lc_context c0))) l) R X (set_by lc_id (commit_lp d) (lc_id c0) lp) next.
Proof.
  intros Hlp H0 Hv0 Hs0 Hl. pose proof (slot_seq _ _ _ _ _ _ _ Hs0) as Hpos. destruct Hlp as [H1 H2 H3 H4] eqn:E.
  split.
  - by rewrite set_by_keys.
  - intros c. rewrite set_by_elem by done. intros [->|[Hc _]]; [by apply (H2 c0)|by apply H2].
  - intros c. rewrite set_by_elem by done. intros [->|[Hc _]]; [by apply (H3 c0)|by apply H3].
  - intros c. rewrite set_by_elem by done. intros [->|[Hc Hn]].
    + intros _. exists l. split; [|done]. eapply slot_refill in Hs0. by rewrite decide_True in Hs0.
    + intros Hv. destruct (H4 c Hc Hv) as (l' & Hs & Hl'). exists l'. split; [|done].
      apply slot_refill_ne; [|done]. rewrite Z2Nat.id by done. by eapply lp_not_at.
Qed.


(** A chunk behind the others. *)
Lemma lp_inv_snoc (Q : ghost) (R : gmap nat Z) (X : gmap nat bool) (lp : list lp_chunk) next c :
  lp_inv version Q R X lp next -> lc_id c = next ->
  (version_ (lc_context c) = version \/ version_ (lc_context c) = u16 (version + 1)) ->
  (version_ (lc_context c) = version -> exists l, slot version Q R X (lc_context c) (lp_place c) l /\ lp_has c l) ->
  lp_inv version Q R X (lp ++ [c]) (S next).
Proof.
  intros [H1 H2 H3 H4] Hid Hv Hs. split.
  - rewrite fmap_app. apply NoDup_app. split_and!; [done| |apply NoDup_singleton]. simpl. intros x Hx1 Hx2.
    apply list_elem_of_fmap in Hx1 as (c' & -> & Hc'). apply list_elem_of_singleton in Hx2. specialize (H2 c' Hc'). lia.
  - intros c' [Hc'| ->%list_elem_of_singleton]%elem_of_app; [specialize (H2 c' Hc'); lia|lia].
  - intros c' [Hc'| ->%list_elem_of_singleton]%elem_of_app; [by apply H3|done].
  - intros c' [Hc'| ->%list_elem_of_singleton]%elem_of_app; [by apply H4|done].
Qed.

(** ** Blocks *)

(** Updated blocks keep what [back_inv] says of them. *)
Lemma back_blocks (Q : ghost) (R : gmap nat Z) (lp : list lp_chunk) (blocks blocks' : gmap block_id block) (gs : list group) :
  (forall b k, blocks !! b = Some k -> exists k', blocks' !! b = Some k' /\ version_ (bk_context k') = version_ (bk_context k) /\
     tls_info_ (bk_context k') = tls_info_ (bk_context k) /\ seq_ (bk_context k') = seq_ (bk_context k)) ->
  back_inv version Q R lp blocks gs -> back_inv version Q R lp blocks' gs.
Proof.
  intros Hk Hb t r j p l HR Hj HQ. specialize (Hb t r j p l HR Hj HQ). destruct p as [|b]; [done|].
  destruct Hb as (Hl & k & Hk1 & ?). destruct (Hk b k Hk1) as (k' & ? & E1 & E2 & E3).
  split; [done|]. exists k'. by rewrite E1, E2, E3.
Qed.

Lemma block_not_at (Q : ghost) (R : gmap nat Z) (X : gmap nat bool) (blocks : gmap block_id block) gs hp b b' k k' :
  block_inv version Q R X blocks gs hp -> live gs b -> live gs b' -> blocks !! b = Some k -> blocks !! b' = Some k' -> b' <> b ->
  not_at (tls_info_ (bk_context k)) (seq_ (bk_context k)) (bk_context k').
Proof.
  intros Hb Hl Hl' Hk Hk' Hn [Ht Hq]. destruct (Hb b Hl) as (k1 & Hk1 & Hs & _). destruct (Hb b' Hl') as (k2 & Hk2 & Hs' & _).
  assert (k1 = k) as -> by congruence. assert (k2 = k') as -> by congruence.
  destruct (slot_inj _ _ _ _ _ _ _ _ _ _ Hs Hs') as [[= E] _]; [done..|]. congruence.
Qed.

(** Other chunks under the number of a block. *)
Lemma block_inv_set (Q : ghost) (R : gmap nat Z) (X : gmap nat bool) (blocks : gmap block_id block) gs hp hp' b k f :
  block_inv version Q R X blocks gs hp -> live gs b -> blocks !! b = Some k ->
  bk_context (f k) = bk_context k -> is_removed (f k) = is_removed k -> (forall b', b' <> b -> hp' b' = hp b') ->
  block_inv version (refill Q (tls_info_ (bk_context k)) (Z.to_nat (seq_ (bk_context k))) (hp' b ++ bk_items (f k))) R X (alter f b blocks) gs hp'.
Proof.
  intros Hb Hl Hk Hc Hr Hhp b' Hl'. destruct (decide (b' = b)) as [->|Hn].
  - destruct (Hb b Hl) as (k' & Hk' & Hs & Hf). assert (k' = k) as -> by congruence. exists (f k).
    rewrite lookup_alter_eq, Hk, Hc, Hr. split_and!; [done| |done].
    pose proof (slot_refill version Q R X _ _ _ (tls_info_ (bk_context k)) (Z.to_nat (seq_ (bk_context k))) (hp' b ++ bk_items (f k)) Hs) as Hs'.
    by rewrite decide_True in Hs'.
  - destruct (Hb b' Hl') as (k' & Hk' & Hs & Hf). exists k'. rewrite lookup_alter_ne, (Hhp b') by done. split_and!; [done| |done].
    pose proof (Hb b Hl) as (k1 & Hk1 & Hs1 & _). assert (k1 = k) as -> by congruence.
    apply slot_refill_ne; [|done]. rewrite Z2Nat.id by (by eapply slot_seq). by apply (block_not_at Q R X blocks gs hp b b').
Qed.

(** Other chunks under the number of a block: the rings do not have it. *)
Section Block_refill.
Variables (Q : ghost) (R : gmap nat Z) (X : gmap nat bool) (c : context_head) (b : block_id) (l0 l : list A).
Let Q' := refill Q (tls_info_ c) (Z.to_nat (seq_ c)) l.
Hypothesis Hs : slot version Q R X c (P_block b) l0.

Lemma block_pres : pres version (not_at (tls_info_ c) (seq_ c)) Q R X Q' R X.
Proof using Hs.
  pose proof (slot_seq _ _ _ _ _ _ _ Hs) as Hpos.
  pose proof (pres_refill version Q R X (tls_info_ c) (Z.to_nat (seq_ c)) l) as Hpres. by rewrite Z2Nat.id in Hpres.
Qed.

Lemma block_refill_lp (lp : list lp_chunk) next : lp_inv version Q R X lp next -> lp_inv version Q' R X lp next.
Proof using Hs.
  intros Hlp. eapply lp_inv_pres; [exact block_pres| |done]. intros c' Hc Hv [Ht Hq].
  destruct (l_slot _ _ _ _ _ _ Hlp c' Hc Hv) as (l' & Hs' & _). by destruct (slot_inj _ _ _ _ _ _ _ _ _ _ Hs Hs').
Qed.

Lemma block_refill_os (lp : list lp_chunk) (os : list oversize) next : os_inv version Q R X lp os next -> os_inv version Q' R X lp os next.
Proof using Hs.
  intros Hos. eapply os_inv_pres; [exact block_pres| |done]. intros o x Ho Hx [Ht Hq].
  destruct (o_items _ _ _ _ _ _ _ Hos o x Ho Hx) as [_ (id & Hs')]. by destruct (slot_inj _ _ _ _ _ _ _ _ _ _ Hs Hs').
Qed.
End Block_refill.

Lemma live_unique gs b g : NoDup (g_id <$> gs) -> live gs b -> g ∈ gs -> g_id g = b.1 -> b.2 ∈ used_ g ++ stage_ g.
Proof.
  intros Hnd (g' & Hg' & Hid & Hin) Hg Hgid. assert (g' = g) as <-; [|done].
  by apply (key_inj g_id gs); [done..|congruence].
Qed.

(** ** Groups that writers take blocks from *)

Definition same_used (g g' : group) : Prop := g_id g' = g_id g /\ used_ g' = used_ g.

(** New groups in front, the others with the same used lists. *)
Definition group_ext (gs gs' : list group) : Prop :=
  exists new old, gs' = new ++ old /\ Forall2 same_used gs old /\ forall g, g ∈ new -> used_ g = [].

Lemma group_ext_ids gs old : Forall2 same_used gs old -> g_id <$> old = g_id <$> gs.
Proof. induction 1 as [|g g' ? ? [? _]]; [done|]. simpl. by f_equal. Qed.

Lemma group_ext_split gs gs' xs G ys : group_ext gs gs' -> gs = xs ++ G :: ys ->
  exists xs' G' ys', gs' = xs' ++ G' :: ys' /\ same_used G G' /\ g_id <$> ys' = g_id <$> ys.
Proof.
  intros (new & old & -> & Hf & _) ->. apply Forall2_app_inv_l in Hf as (o1 & o2 & _ & Hf & ->).
  apply Forall2_cons_inv_l in Hf as (G' & o3 & HG & Hf & ->). exists (new ++ o1), G', o3.
  split_and!; [by rewrite <- app_assoc|done|by apply group_ext_ids].
Qed.

Lemma outside_ids b gs gs' : g_id <$> gs' = g_id <$> gs -> outside b gs -> outside b gs'.
Proof. intros E Ho g i Hb. rewrite E. by apply (Ho g i). Qed.

Lemma in_used_ext b gs gs' : group_ext gs gs' -> in_used b gs -> in_used b gs'.
Proof.
  intros (new & old & -> & Hf & _) Hu x Hx. destruct (Hu x Hx) as (g & Hg & Hid & Hin).
  apply list_elem_of_lookup in Hg as [i Hi]. destruct (Forall2_lookup_l _ _ _ _ _ Hf Hi) as (g' & Hi' & Hid' & Hus').
  exists g'. rewrite Hid', Hus'. split_and!; [|done|done]. apply elem_of_app. right. by eapply list_elem_of_lookup_2.
Qed.

Lemma position_ext (r : reading) gs gs' : group_ext gs gs' -> position r gs -> position r gs'.
Proof.
  intros He. assert (at_block r gs -> at_block r gs') as H1.
  { intros (xs & G & ys & pre & i & post & E & Hc & Hu & Hn & Hb & Hl & Ho).
    destruct (group_ext_split _ _ _ _ _ He E) as (xs' & G' & ys' & -> & [Hid Hus] & Hys).
    exists xs', G', ys', pre, i, post. rewrite Hid, Hus. split_and!; try done. by eapply outside_ids. }
  assert (at_group r gs -> at_group r gs') as H2.
  { intros (xs & G & ys & E & Hc & Hn & Ho & Ho').
    destruct (group_ext_split _ _ _ _ _ He E) as (xs' & G' & ys' & -> & [Hid Hus] & Hys).
    exists xs', G', ys'. rewrite Hid. assert (g_id <$> G' :: ys' = g_id <$> G :: ys) as E' by (by rewrite !fmap_cons, Hid, Hys).
    split_and!; try done; by eapply outside_ids. }
  assert (past_group r gs -> past_group r gs') as H3.
  { intros (xs & G & ys & E & Hc & Hn & Ho & Ho').
    destruct (group_ext_split _ _ _ _ _ He E) as (xs' & G' & ys' & -> & [Hid Hus] & Hys).
    exists xs', G', ys'. rewrite Hid, Hus. split_and!; try done; by eapply outside_ids. }
  unfold position. destruct (state_ r); naive_solver.
Qed.

Lemma reader_ext (r : reading) (gs gs' : list group) (blocks : gmap block_id block) (R : gmap nat Z) :
  group_ext gs gs' -> reader_inv version r gs blocks R -> reader_inv version r gs' blocks R.
Proof.
  intros He [H1 H2 H3 H4 H5 H6 H7]. split; try done.
  - split; by eapply in_used_ext; [|apply H2].
  - intros g h Hg Hh. destruct (H3 g h Hg Hh) as (xs & ys & E). destruct He as (new & old & -> & Hf & _).
    rewrite fmap_app, (group_ext_ids _ _ Hf), E. exists ((g_id <$> new) ++ xs), ys. by rewrite <- app_assoc.
  - by eapply position_ext.
Qed.

Lemma reader_live (r : reading) (gs : list group) (blocks : gmap block_id block) (R : gmap nat Z) b :
  reader_inv version r gs blocks R -> rd_block_ r = Some b -> live gs b.
Proof.
  intros Hr Hb. destruct (r_used _ _ _ _ _ Hr) as [Hu _]. destruct (Hu b Hb) as (g & ? & ? & ?). exists g.
  rewrite elem_of_app. auto.
Qed.

Lemma batch_part_other (r : reading) ctl (b : block_id) : rd_block_ r <> Some b -> batch_part r ctl b = [].
Proof. intros Hb. unfold batch_part. by rewrite decide_False. Qed.

(** The block the reader is at keeps its context, and its chunks once it is removed. *)
Lemma reader_blocks (r : reading) (gs : list group) (blocks blocks' : gmap block_id block) (R : gmap nat Z) :
  (forall b k, rd_block_ r = Some b -> blocks !! b = Some k -> exists k', blocks' !! b = Some k' /\
     tls_info_ (bk_context k') = tls_info_ (bk_context k) /\ seq_ (bk_context k') = seq_ (bk_context k) /\
     (is_removed k = true -> is_removed k' = true /\ bk_items k' = bk_items k)) ->
  reader_inv version r gs blocks R -> reader_inv version r gs blocks' R.
Proof.
  intros Hb [H1 H2 H3 H4 H5 H6 H7]. split; try done. intros Hv. destruct (H6 Hv) as (b & k & Hrb & Hk & HR & Hm).
  destruct (Hb b k Hrb Hk) as (k' & Hk' & Ht & Hs & Hr). exists b, k'. rewrite Ht, Hs. split_and!; try done.
  intros Hmark. destruct (Hm Hmark) as [Hrm Hi]. destruct (Hr Hrm) as [? ->]. done.
Qed.

(** More threads, with what is known of the others. *)
Lemma reader_reads (r : reading) (gs : list group) (blocks : gmap block_id block) (R R' : gmap nat Z) :
  R ⊆ R' -> reader_inv version r gs blocks R -> reader_inv version r gs blocks R'.
Proof.
  intros HR [H1 H2 H3 H4 H5 H6 H7]. split; try done. intros Hv. destruct (H6 Hv) as (b & k & ? & ? & Hrd & ?). exists b, k.
  split_and!; try done. by eapply lookup_weaken.
Qed.

Lemma control_reads c r (lp : list lp_chunk) (os : list oversize) (R R' : gmap nat Z) :
  R ⊆ R' -> control_inv version c r lp os R -> control_inv version c r lp os R'.
Proof.
  intros HR. destruct c as [| |[id c a|id c a|b a|]]; simpl; try done.
  - intros (? & ? & ? & ? & H & Hc). do 4 (split; [done|]). split; [by eapply lookup_weaken|done].
  - intros (? & ? & ? & ? & H & Hc). do 4 (split; [done|]). split; [by eapply lookup_weaken|done].
Qed.

(** ** A block taken from a group *)

Definition take_block (G : group) (i : nat) (free : list nat) : group :=
  mk_group (g_id G) (used_ G) free (i :: stage_ G) (in_pool_epoch_ms_ G).

Lemma take_block_lists G i free : free_ G = i :: free -> used_ G ++ free_ G ++ stage_ G ≡ₚ seq 0 max_blocks ->
  used_ G ++ free ++ i :: stage_ G ≡ₚ seq 0 max_blocks /\ i ∉ used_ G ++ stage_ G.
Proof.
  intros Hf Hp. rewrite Hf in Hp. split.
  - rewrite <- Hp. rewrite <- (Permutation_middle free). done.
  - assert (NoDup (used_ G ++ (i :: free) ++ stage_ G)) as Hnd by (rewrite Hp; apply NoDup_seq).
    apply NoDup_app in Hnd as (_ & Hu & Hnd). apply NoDup_app in Hnd as (_ & Hs & _).
    rewrite elem_of_app. intros [Hi|Hi].
    + apply (Hu i Hi). by left.
    + apply (Hs i); [by left|done].
Qed.

Lemma live_take xs G ys i free b : live (xs ++ take_block G i free :: ys) b <-> b = (g_id G, i) \/ live (xs ++ G :: ys) b.
Proof.
  unfold live. split.
  - intros (g & Hg & Hid & Hin). rewrite elem_of_app, elem_of_cons in Hg.
    destruct Hg as [Hg|[->|Hg]]; [right; exists g; set_solver| |right; exists g; set_solver].
    simpl in *. rewrite elem_of_app, elem_of_cons in Hin. destruct Hin as [Hin|[Hin|Hin]].
    + right. exists G. set_solver.
    + left. destruct b. simpl in *. congruence.
    + right. exists G. set_solver.
  - intros [->|(g & Hg & Hid & Hin)].
    + exists (take_block G i free). simpl. set_solver.
    + rewrite elem_of_app, elem_of_cons in Hg. destruct Hg as [Hg|[->|Hg]]; [exists g; set_solver| |exists g; set_solver].
      exists (take_block G i free). simpl. set_solver.
Qed.

Lemma take_free_spec gs b gs' : take_free gs = Some (b, gs') ->
  exists xs G ys i free, gs = xs ++ G :: ys /\ free_ G = i :: free /\ b = (g_id G, i) /\ gs' = xs ++ take_block G i free :: ys.
Proof.
  revert b gs'. induction gs as [|g gs IH]; [done|]. intros b gs'. simpl. destruct (free_ g) as [|i free] eqn:Ef.
  - destruct (take_free gs) as [[b0 gs0]|]; [|done]. intros [= -> <-].
    destruct (IH b gs0 eq_refl) as (xs & G & ys & i & free & -> & ? & ? & ->). by exists (g :: xs), G, ys, i, free.
  - intros [= <- <-]. by exists [], g, gs, i, free.
Qed.

Lemma group_inv_take xs G ys pool index i free :
  group_inv max_blocks (xs ++ G :: ys) pool index -> free_ G = i :: free ->
  group_inv max_blocks (xs ++ take_block G i free :: ys) pool index /\ ~ live (xs ++ G :: ys) (g_id G, i).
Proof.
  intros [H1 H2 H3 H4] Hf. assert (G ∈ (xs ++ G :: ys) ++ pool) as HG by set_solver.
  destruct (take_block_lists G i free Hf (H3 G HG)) as [Hp Hn]. split; [split|].
  - assert (g_id <$> (xs ++ take_block G i free :: ys) ++ pool = g_id <$> (xs ++ G :: ys) ++ pool) as ->; [|done].
    by rewrite !fmap_app, !fmap_cons.
  - intros g Hg. assert (g = take_block G i free \/ g ∈ (xs ++ G :: ys) ++ pool) as [->|] by set_solver; [by apply (H2 G)|by apply H2].
  - intros g Hg. assert (g = take_block G i free \/ g ∈ (xs ++ G :: ys) ++ pool) as [->|] by set_solver; [done|by apply H3].
  - done.
  - intros Hl. apply Hn. apply (live_unique _ _ G) in Hl; [done| |set_solver|done].
    rewrite fmap_app in H1. by apply NoDup_app in H1 as (? & _).
Qed.

Lemma same_used_refl gs : Forall2 same_used gs gs.
Proof. apply Forall2_same_length_lookup_2; [done|]. intros i x y Hx Hy. split; congruence. Qed.

Lemma group_ext_refl gs : group_ext gs gs.
Proof. exists [], gs. split_and!; [done|apply same_used_refl|set_solver]. Qed.

Lemma group_ext_take xs G ys i free : group_ext (xs ++ G :: ys) (xs ++ take_block G i free :: ys).
Proof.
  exists [], (xs ++ take_block G i free :: ys). split_and!; [done| |set_solver].
  apply Forall2_app; [|constructor; [done|]]; apply same_used_refl.
Qed.

(** A group that goes in front: from the pool, or new. *)
Lemma group_inv_front gs g pool index index' :
  group_inv max_blocks gs pool index -> g_id g ∉ g_id <$> gs ++ pool -> (index <= index')%nat -> (g_id g <= index')%nat ->
  used_ g = [] -> stage_ g = [] -> free_ g ≡ₚ seq 0 max_blocks -> group_inv max_blocks (g :: gs) pool index'.
Proof.
  intros [H1 H2 H3 H4] Hn Hi Hg Hu Hs Hf. split.
  - simpl. by apply NoDup_cons.
  - intros h [->|Hh]%elem_of_cons; [done|]. specialize (H2 h Hh). lia.
  - intros h [->|Hh]%elem_of_cons; [|by apply H3]. by rewrite Hu, Hs, app_nil_r.
  - done.
Qed.

Hypothesis Hmax : (0 < max_blocks)%nat.

Lemma alloc_new_block_spec (st : state) c : group_inv max_blocks (groups_ st) (pool_ st) (current_group_index_ st) ->
  exists b gs pool index,
    alloc_new_block max_blocks c st = Some (b, set_blocks (<[b := mk_block c false false []]> (blocks_ st)) (set_groups gs pool index st)) /\
    group_inv max_blocks gs pool index /\ group_ext (groups_ st) gs /\ ~ live (groups_ st) b /\
    forall b', live gs b' <-> b' = b \/ live (groups_ st) b'.
Proof using Hmax.
  intros Hg. unfold alloc_new_block. destruct (take_free (groups_ st)) as [[b gs]|] eqn:Et.
  - destruct (take_free_spec _ _ _ Et) as (xs & G & ys & i & free & E & Hf & -> & ->).
    rewrite E in Hg. destruct (group_inv_take _ _ _ _ _ _ _ Hg Hf) as [Hg' Hn].
    do 4 eexists. split; [done|]. rewrite E. split_and!; [done|apply group_ext_take|done|]. intros b'. apply live_take.
  - set (p := match pool_ st with [] => _ | _ => _ end).
    assert (exists g pool index, p = (g, pool, index) /\ group_inv max_blocks (g :: groups_ st) pool index /\
              used_ g = [] /\ stage_ g = [] /\ exists i free, free_ g = i :: free) as (g & pool & index & -> & Hg' & Hu & Hs & i & free & Hf).
    { subst p. destruct (pool_ st) as [|g pool] eqn:Ep.
      - do 3 eexists. split; [done|]. split; [|split_and!; [done..|]].
        + apply (group_inv_front _ _ _ (current_group_index_ st)); try done; try lia.
          * simpl. intros (g & Hid & Hin)%list_elem_of_fmap. apply (g_index _ _ _ _ Hg) in Hin. lia.
          * simpl. by rewrite <- Permutation_rev.
        + simpl. destruct (rev (seq 0 max_blocks)) as [|i free] eqn:Er; [|by exists i, free].
          apply (f_equal length) in Er. rewrite length_rev, length_seq in Er. simpl in Er. lia.
      - destruct Hg as [H1 H2 H3 H4]. destruct (H4 g) as [Hu Hs]; [set_solver|].
        assert (free_ g ≡ₚ seq 0 max_blocks) as Hfp.
        { rewrite <- (H3 g) by set_solver. by rewrite Hu, Hs, app_nil_r. }
        exists g, pool, (current_group_index_ st). split; [done|]. split_and!; [|done|done|].
        + rewrite <- Permutation_middle, fmap_cons in H1. apply NoDup_cons in H1 as [Hn H1].
          apply (group_inv_front _ _ _ (current_group_index_ st)); try done; [|apply H2; set_solver].
          split; [done|intros h Hh; apply H2; set_solver|intros h Hh; apply H3; set_solver|intros h Hh; apply H4; set_solver].
        + destruct (free_ g) as [|i free]; [|by exists i, free]. apply Permutation_length in Hfp. rewrite length_seq in Hfp. simpl in Hfp. lia. }
    cbn iota beta. rewrite Hf. destruct (group_inv_take [] _ _ _ _ _ _ Hg' Hf) as [Hg2 Hn].
    do 4 eexists. split; [done|]. split_and!; [done| | |].
    + exists [take_block g i free], (groups_ st). split_and!; [done|apply same_used_refl|]. set_solver.
    + intros Hl. apply Hn. destruct Hl as (h & ? & ?). exists h. set_solver.
    + intros b'. etrans; [apply (live_take [] g)|]. simpl. split; [|intros [->|(h & ? & ?)]; [by left|right; exists h; set_solver]].
      intros [->|(h & [->|Hh]%elem_of_cons & Hid & Hin)]; [by left| |right; by exists h].
      rewrite Hu, Hs in Hin. set_solver.
Qed.

End Frame.
End LogBufferFrame.
