(* ===== verification/LogBufferWriter.v ===== *)
(** * The log buffer: the writers keep its invariant
    ([src/buffer/log_buffer.cpp])

    What each part of a writer's call does to the invariant of [LogBufferSystem]: a block that
    is left, a new number in the shared ring or in a new block, a chunk that is committed. *)
From stdpp Require Import functions base list option numbers gmap.
From Stdlib Require Import ZArith Lia Bool.
From S2P Require Import Prelude BufferDefs LogBuffer LogBufferReader LogBufferSystem LogBufferGhost LogBufferFrame.

Module LogBufferWriter.
Import LogBuffer LogBufferReader LogBufferSystem LogBufferGhost LogBufferFrame.

Section Writer.
Context {A : Type}.
Abbreviation state := (@state A).
Abbreviation block := (@block A).
Abbreviation oversize := (@oversize A).
Abbreviation lp_chunk := (@lp_chunk A).
Abbreviation control := (@control A).
Abbreviation ghost := (nat -> list (place * list A)).
Abbreviation views := (gmap nat tls_buffer_info).
Variables (max_blocks : nat) (version : Z).
Hypothesis Hversion : 0 <= version < 2 ^ 16.
Abbreviation inv := (@inv A max_blocks version).

Lemma bumped_version : u16 (version + 1) <> version.
Proof using Hversion.
  unfold wrap. intros E. destruct (decide (version + 1 = 2 ^ 16)) as [Hv|].
  - rewrite Hv, Z.mod_same in E by done. lia.
  - rewrite Z.mod_small in E by lia. lia.
Qed.

(** ** Threads *)

Lemma inv_threads skip skip' (Q : ghost) st pend pend' ctl ths' :
  inv skip Q st pend ctl ->
  reads_of ths' = reads_of (threads_ st) -> exits_of ths' = exits_of (threads_ st) -> writes_of ths' = writes_of (threads_ st) ->
  cur_inv skip' (blocks_of ths') (writes_of ths') (exits_of ths') (blocks_ st) (groups_ st) ->
  pend_inv version pend' (exits_of ths') (blocks_of ths') (oversize_of ths') (writes_of ths') (lp_ st) (os_ st) ->
  inv skip' Q (set_threads ths' st) pend' ctl.
Proof. intros [Hlp Hblk Hbk Hth Hcu Hpd Hos Hgr Hrd Hctl] HR HX HW Hc Hp. constructor; simpl; rewrite ?HR, ?HX, ?HW in *; done. Qed.

(** An update of the thread that touches none of what the invariant looks at. *)
Lemma inv_times skip (Q : ghost) st pend ctl t epoch times :
  inv skip Q st pend ctl -> inv skip Q (update_tls (set_times epoch times) t st) pend ctl.
Proof.
  intros Hi. apply (inv_threads skip skip Q st pend pend); [done|..].
  1-3: by apply view_alter_same.
  all: unfold blocks_of, writes_of, exits_of, oversize_of; rewrite ?view_alter_same by done; apply Hi.
Qed.

Lemma inv_max skip (Q : ghost) st pend ctl m : inv skip Q st pend ctl -> inv skip Q (set_max m st) pend ctl.
Proof. intros []. by constructor. Qed.

Lemma inv_weaken skip (Q : ghost) st pend ctl : inv None Q st pend ctl -> inv skip Q st pend ctl.
Proof. intros [Hlp Hblk Hbk Hth Hcu Hpd Hos Hgr Hrd Hctl]. constructor; try done. intros t b Hb _. by apply Hcu. Qed.

(** The views of thread [t] are set, for every other thread they stay. *)
Lemma blocks_of_set ths t b t' : blocks_of (alter (set_cur_block b) t ths) !! t' =
  if decide (t' = t) then (fun _ => b) <$> ths !! t else blocks_of ths !! t'.
Proof.
  unfold blocks_of. rewrite !lookup_fmap. destruct (decide (t' = t)) as [->|].
  - rewrite lookup_alter_eq. by destruct (ths !! t).
  - by rewrite lookup_alter_ne.
Qed.

(** The thread has no block any more. *)
Lemma inv_no_block (Q : ghost) st pend ctl t :
  inv (Some t) Q st pend ctl -> pend !! t = None -> inv None Q (update_tls (set_cur_block None) t st) pend ctl.
Proof.
  intros Hi Ht. apply (inv_threads (Some t) None Q st pend pend); [done|..].
  1-3: by apply view_alter_same.
  - unfold writes_of, exits_of. rewrite !view_alter_same by done. intros t' b. rewrite blocks_of_set.
    destruct (decide (t' = t)) as [->|Hn].
    + destruct (threads_ st !! t); by intros [=].
    + intros Hb _. apply (v_cur _ _ _ _ _ _ _ Hi); [done|congruence].
  - unfold writes_of, exits_of, oversize_of. rewrite !view_alter_same by done.
    apply (pend_other version pend _ (blocks_of (threads_ st)) _ _ _ _ t); [done| |apply Hi].
    intros t' Hn. by rewrite blocks_of_set, decide_False.
Qed.

(** The thread has a new block, its last number. *)
Lemma inv_new_cur (Q : ghost) st pend ctl t b k :
  inv (Some t) Q st pend ctl -> pend !! t = None -> exits_of (threads_ st) !! t = Some false ->
  live (groups_ st) b -> blocks_ st !! b = Some k -> is_removed k = false -> tls_info_ (bk_context k) = t ->
  writes_of (threads_ st) !! t = Some (seq_ (bk_context k) + 1) ->
  inv None Q (update_tls (set_cur_block (Some b)) t st) pend ctl.
Proof.
  intros Hi Ht Hx Hl Hk Hr Hkt Hw. apply (inv_threads (Some t) None Q st pend pend); [done|..].
  1-3: by apply view_alter_same.
  - unfold writes_of, exits_of. rewrite !view_alter_same by done. intros t' b'. rewrite blocks_of_set.
    destruct (decide (t' = t)) as [->|Hn].
    + destruct (threads_ st !! t); [|by intros [=]]. intros [= <-] _. split_and!; [done|done|]. by exists k.
    + intros Hb _. apply (v_cur _ _ _ _ _ _ _ Hi); [done|congruence].
  - unfold writes_of, exits_of, oversize_of. rewrite !view_alter_same by done.
    apply (pend_other version pend _ (blocks_of (threads_ st)) _ _ _ _ t); [done| |apply Hi].
    intros t' Hn. by rewrite blocks_of_set, decide_False.
Qed.

(** ** Flags of a block *)

Lemma inv_flags skip (Q : ghost) st pend ctl (f : block -> block) b :
  inv skip Q st pend ctl ->
  (forall k, bk_context (f k) = bk_context k) -> (forall k, bk_items (f k) = bk_items k) ->
  (forall k, is_removed k = true -> is_removed (f k) = true) ->
  (forall k, blocks_ st !! b = Some k -> is_removed (f k) = is_removed k \/ skip = Some (tls_info_ (bk_context k))) ->
  inv skip Q (update_block f b st) pend ctl.
Proof.
  intros [Hlp Hblk Hbk Hth Hcu Hpd Hos Hgr Hrd Hctl] Hc Hit Hm Hr.
  assert (forall b' k, blocks_ st !! b' = Some k -> exists k', alter f b (blocks_ st) !! b' = Some k' /\ bk_context k' = bk_context k /\
            bk_items k' = bk_items k /\ (is_removed k = true -> is_removed k' = true) /\ (k' = k \/ b' = b /\ k' = f k)) as Hk.
  { intros b' k Hk. destruct (decide (b' = b)) as [->|].
    - exists (f k). rewrite lookup_alter_eq, Hk. split_and!; auto.
    - exists k. rewrite lookup_alter_ne by done. split_and!; auto. }
  constructor; simpl; try done.
  - intros b' Hl. destruct (Hblk b' Hl) as (k & Hk1 & Hs & Hf). destruct (Hk b' k Hk1) as (k' & ? & Hc' & Hi' & Hr' & _).
    exists k'. rewrite Hc', Hi'. split_and!; auto.
  - intros t r j p l HR Hj HQ. specialize (Hbk t r j p l HR Hj HQ). destruct p as [|b']; [done|].
    destruct Hbk as (Hl & k & Hk1 & ?). destruct (Hk b' k Hk1) as (k' & ? & Hc' & _). split; [done|].
    exists k'. by rewrite Hc'.
  - intros t b' Hb Hn. destruct (Hcu t b' Hb Hn) as (Hx & Hl & k & Hk1 & Hrm & Ht & Hw).
    destruct (Hk b' k Hk1) as (k' & ? & Hc' & _ & _ & Hor). split_and!; [done|done|]. exists k'. rewrite Hc'.
    split_and!; [done| |done|done]. destruct Hor as [->|[-> ->]]; [done|].
    destruct (Hr k Hk1) as [->|E]; [done|]. congruence.
  - destruct Hrd as [? ? ? ? ? Hv ?]. split; try done. intros Hval. destruct (Hv Hval) as (b' & k & Hb' & Hk1 & HR & Hmk).
    destruct (Hk b' k Hk1) as (k' & ? & Hc' & Hi' & Hr' & _). exists b', k'. rewrite Hc', Hi'. split_and!; try done.
    intros Hmark. destruct (Hmk Hmark). split; auto.
Qed.

(** [mark_block_removed] on a block of the thread of which nothing is said. *)
Lemma inv_removed (Q : ghost) st pend ctl b k :
  blocks_ st !! b = Some k -> inv (Some (tls_info_ (bk_context k))) Q st pend ctl ->
  inv (Some (tls_info_ (bk_context k))) Q (mark_block_removed b st) pend ctl.
Proof. intros Hk Hi. apply inv_flags; try done. intros k' Hk'. right. congruence. Qed.

(** ** A new number *)

(** What a new number of thread [t] does to the views. *)
Record numbered (Q : ghost) (ths ths' : views) (t : nat) (w : Z) (p : place) : Prop := {
  n_reads : reads_of ths' = reads_of ths;
  n_blocks : blocks_of ths' = blocks_of ths;
  n_write : writes_of ths' !! t = Some (w + 1);
  n_length : w = Z.of_nat (length (Q t));
  n_thread : thread_inv (extend Q t p) (reads_of ths') (writes_of ths');
  n_pres : pres version (fun _ => True) Q (reads_of ths) (exits_of ths) (extend Q t p) (reads_of ths') (exits_of ths');
  n_other : forall u, u <> t -> ths' !! u = ths !! u;
  n_slot : forall c, version_ c = version -> tls_info_ c = t -> seq_ c = w ->
    (is_thread_finished_ c = true -> exits_of ths' !! t = Some true) -> slot version (extend Q t p) (reads_of ths') (exits_of ths') c p [] }.

Lemma new_number (Q : ghost) (ths : views) t i f p :
  thread_inv Q (reads_of ths) (writes_of ths) -> ths !! t = Some i -> tls_exited i = false -> current_write_seq_ i + 1 < 2 ^ 32 ->
  (forall i, current_read_seq_ (f i) = current_read_seq_ i) -> (forall i, cur_block_ (f i) = cur_block_ i) ->
  current_write_seq_ (f i) = current_write_seq_ i + 1 -> numbered Q ths (alter f t ths) t (current_write_seq_ i) p.
Proof.
  intros Hth Hi Hx Hw HR HC HW.
  assert (reads_of (alter f t ths) = reads_of ths) as ER by (by apply view_alter_same).
  assert (writes_of (alter f t ths) = <[t := current_write_seq_ i + 1]> (writes_of ths)) as EW.
  { unfold writes_of. erewrite view_alter by done. by rewrite HW. }
  assert (exits_of (alter f t ths) = <[t := tls_exited (f i)]> (exits_of ths)) as EX by (by apply view_alter).
  assert (exits_of ths !! t = Some false) as Hxt by (by apply view_lookup; exists i).
  assert (reads_of ths !! t = Some (current_read_seq_ i)) as Hrt by (by apply view_lookup; exists i).
  assert (current_read_seq_ i <= current_write_seq_ i /\ 0 <= current_read_seq_ i /\ current_write_seq_ i = Z.of_nat (length (Q t))) as (Hrw & Hr0 & Hlen).
  { pose proof (Hth t) as Htt. unfold writes_of, reads_of in Htt. rewrite !lookup_fmap, Hi in Htt. simpl in Htt. lia. }
  split; rewrite ?ER, ?EW, ?EX, ?lookup_insert_eq; try done.
  - by apply view_alter_same.
  - intros u. destruct (decide (u = t)) as [->|Hn].
    + rewrite Hrt, lookup_insert_eq. unfold extend. rewrite fn_lookup_insert, length_app. simpl. lia.
    + rewrite lookup_insert_ne by done. unfold extend. rewrite fn_lookup_insert_ne by done. apply Hth.
  - intros c' q l _ Hsl. apply slot_exits with (exits_of ths).
    + intros u Hu. rewrite lookup_insert_ne; [done|congruence].
    + apply slot_extend; [by rewrite Hxt|done].
  - intros u Hn. by rewrite lookup_alter_ne.
  - intros c Hv Ht Hs Hf. split; rewrite ?Ht, ?Hs; [done|..].
    + eexists. split; [done|lia].
    + rewrite Hlen, Nat2Z.id. apply extend_new_entry.
    + intros Hfin. rewrite lookup_insert_eq. split; [by apply Hf|]. unfold extend. rewrite fn_lookup_insert, length_app. simpl. lia.
Qed.

(** The other threads under a new number. *)
Lemma cur_numbered (Q : ghost) (ths ths' : views) (t : nat) (w : Z) (p : place) (blocks blocks' : gmap block_id block) (gs gs' : list group) :
  numbered Q ths ths' t w p -> (forall b, live gs b -> live gs' b /\ blocks' !! b = blocks !! b) ->
  cur_inv (Some t) (blocks_of ths) (writes_of ths) (exits_of ths) blocks gs ->
  cur_inv (Some t) (blocks_of ths') (writes_of ths') (exits_of ths') blocks' gs'.
Proof.
  intros Hn Hb Hc u b. rewrite (n_blocks _ _ _ _ _ _ Hn). intros Hub Hu. destruct (Hc u b Hub Hu) as (Hx & Hl & k & Hk & ?).
  destruct (Hb b Hl) as [Hl' Hk']. unfold writes_of, exits_of in *. rewrite !lookup_fmap in *.
  rewrite (n_other _ _ _ _ _ _ Hn u) by congruence. split_and!; [done|done|]. exists k. by rewrite Hk'.
Qed.

Lemma pend_numbered (Q : ghost) (ths ths' : views) (t : nat) (w : Z) (p : place) pend (lp lp' : list lp_chunk) (os : list oversize) :
  numbered Q ths ths' t w p -> pend !! t = None -> (forall c, c ∈ lp -> c ∈ lp') ->
  pend_inv version pend (exits_of ths) (blocks_of ths) (oversize_of ths) (writes_of ths) lp os ->
  pend_inv version pend (exits_of ths') (blocks_of ths') (oversize_of ths') (writes_of ths') lp' os.
Proof.
  intros Hn Ht Hlp. apply pend_frame with (t := t); [done| |by auto|by eauto].
  intros u Hu. unfold exits_of, blocks_of, oversize_of, writes_of. rewrite !lookup_fmap.
  by rewrite (n_other _ _ _ _ _ _ Hn u).
Qed.

(** A number of thread [t] that goes to the shared ring. *)
Lemma inv_push (Q : ghost) st pend ctl t i c f :
  inv (Some t) Q st pend ctl -> pend !! t = None -> threads_ st !! t = Some i -> tls_exited i = false ->
  version_ c = version -> tls_info_ c = t -> seq_ c = current_write_seq_ i -> current_write_seq_ i + 1 < 2 ^ 32 ->
  (forall i, current_read_seq_ (f i) = current_read_seq_ i) -> current_write_seq_ (f i) = current_write_seq_ i + 1 ->
  (is_thread_finished_ c = true -> tls_exited (f i) = true) ->
  (forall i, cur_block_ (f i) = cur_block_ i) ->
  inv (Some t) (extend Q t (P_lp (lp_next st) (is_external_ref_ c))) (update_tls f t (snd (push_lp c st))) pend ctl.
Proof.
  intros [Hlp Hblk Hbk Hth Hcu Hpd Hos Hgr Hrd Hctl] Ht Hi Hx Hv Hc Hs Hw HR HW HX HC.
  pose proof (new_number Q _ t i f (P_lp (lp_next st) (is_external_ref_ c)) Hth Hi Hx Hw HR HC HW) as Hn.
  pose proof (n_pres _ _ _ _ _ _ Hn) as Hpres. pose proof (n_reads _ _ _ _ _ _ Hn) as ER.
  constructor; simpl.
  - apply lp_inv_snoc; [|done|by left|].
    + by apply (lp_inv_pres _ _ _ _ _ _ _ _ Hpres _ _ (fun _ _ _ => I)).
    + intros _. exists []. split; [|done]. apply (n_slot _ _ _ _ _ _ Hn); [done..|]. intros Hf.
      unfold exits_of. by rewrite lookup_fmap, lookup_alter_eq, Hi, <- HX.
  - by apply (block_inv_pres _ _ _ _ _ _ _ _ Hpres _ _ _ (fun _ _ _ _ => I)).
  - rewrite ER. intros u r j p l Hu Hj [HQ|(-> & -> & [= -> ->])]%extend_lookup.
    + specialize (Hbk u r j p l Hu Hj HQ). destruct p as [id|b]; [|done]. destruct Hbk as (c' & ? & ?). exists c'.
      split; [by apply elem_of_app; left|done].
    + eexists. split; [apply elem_of_app; right; by apply list_elem_of_singleton|]. simpl.
      rewrite <- (n_length _ _ _ _ _ _ Hn). by split_and!.
  - apply Hn.
  - eapply cur_numbered; [exact Hn|by auto|done].
  - eapply pend_numbered; [exact Hn|done| |done]. intros c' Hc'. by apply elem_of_app; left.
  - apply (os_inv_pres _ _ _ _ _ _ _ _ Hpres _ _ _ (fun _ _ _ _ => I)) in Hos. destruct Hos as [H1 H2 H3 H4 H5 H6]. split; try done.
    intros c' [Hc'| ->%list_elem_of_singleton]%elem_of_app; [by apply H6|done].
  - done.
  - by rewrite ER.
  - rewrite ER. apply (control_frame version _ _ (lp_ st)); [|done]. intros p Hp _. by apply head_app_some.
Qed.

(** ** A chunk is committed *)

Section Commit.
Variables (Q : ghost) (st : state) (c0 : lp_chunk) (l : list A).
Let R := reads_of (threads_ st).
Let X := exits_of (threads_ st).
Let Q' := refill Q (tls_info_ (lc_context c0)) (Z.to_nat (seq_ (lc_context c0))) l.
Hypotheses (Hnd : NoDup (lc_id <$> lp_ st)) (H0 : c0 ∈ lp_ st) (Hs0 : slot version Q R X (lc_context c0) (lp_place c0) []).

Lemma commit_pres : pres version (not_at (tls_info_ (lc_context c0)) (seq_ (lc_context c0))) Q R X Q' R X.
Proof using Hs0.
  pose proof (slot_seq _ _ _ _ _ _ _ Hs0) as Hpos.
  pose proof (pres_refill version Q R X (tls_info_ (lc_context c0)) (Z.to_nat (seq_ (lc_context c0))) l) as Hpres.
  by rewrite Z2Nat.id in Hpres.
Qed.

Lemma commit_blocks (blocks : gmap block_id block) (gs : list group) (hp : block_id -> list A) : block_inv version Q R X blocks gs hp -> block_inv version Q' R X blocks gs hp.
Proof using Hs0.
  intros Hblk. eapply block_inv_pres; [exact commit_pres| |done]. intros b k Hlv Hk [Ht Hq]. destruct (Hblk b Hlv) as (k' & Hk' & Hs & _).
  assert (k' = k) as -> by congruence. by destruct (slot_inj _ _ _ _ _ _ _ _ _ _ Hs Hs0).
Qed.

Lemma commit_back (d : option A) (blocks : gmap block_id block) (gs : list group) :
  back_inv version Q R (lp_ st) blocks gs -> back_inv version Q' R (set_by lc_id (commit_lp d) (lc_id c0) (lp_ st)) blocks gs.
Proof using Hnd H0.
  intros Hbk. apply back_refill. intros t r j p l' HR Hj HQ. specialize (Hbk t r j p l' HR Hj HQ). destruct p as [id|]; [|done].
  destruct Hbk as (c & Hc & Hbk). destruct (decide (lc_id c = lc_id c0)) as [E|].
  - assert (c = c0) as -> by by eapply (key_inj lc_id). exists (commit_lp d c0). split; [|done]. apply set_by_elem; auto.
  - exists c. split; [|done]. apply set_by_elem; auto.
Qed.

Lemma commit_os_pres (lp : list lp_chunk) (os : list oversize) next : os_inv version Q R X lp os next -> os_inv version Q' R X lp os next.
Proof using Hs0.
  intros Hos. eapply (os_inv_pres version); [exact commit_pres| |done]. intros o x Ho Hx [Ht Hq].
  destruct (o_items _ _ _ _ _ _ _ Hos o x Ho Hx) as [_ (id & Hs)]. by destruct (slot_inj _ _ _ _ _ _ _ _ _ _ Hs Hs0) as [_ [=]].
Qed.

Lemma commit_pend (d : option A) pend X' C O O' W (os os' : list oversize) :
  (forall u, u <> tls_info_ (lc_context c0) -> O' !! u = O !! u) ->
  (forall o, o ∈ os -> tls_info_ (os_context o) <> tls_info_ (lc_context c0) -> exists o', o' ∈ os' /\ os_id o' = os_id o /\
     os_context o' = os_context o /\ os_locked o' = os_locked o) ->
  pend_inv version pend X' C O W (lp_ st) os ->
  pend_inv version (delete (tls_info_ (lc_context c0)) pend) X' C O' W (set_by lc_id (commit_lp d) (lc_id c0) (lp_ st)) os'.
Proof using Hnd H0.
  intros HO Hos Hp. eapply pend_frame with (t := tls_info_ (lc_context c0)); [apply lookup_delete_eq| | |done|by apply pend_delete].
  - intros u Hu. by rewrite HO.
  - intros c Hc _ Hn. apply set_by_elem; try done. right. split; [done|]. intros E. apply Hn. by rewrite (key_inj lc_id (lp_ st) Hnd c c0).
Qed.
End Commit.

Lemma inv_commit_lp skip (Q : ghost) st pend ctl c0 d l :
  inv skip Q st pend ctl -> c0 ∈ lp_ st -> lc_committed c0 = false -> version_ (lc_context c0) = version ->
  is_external_ref_ (lc_context c0) = false -> lp_has (commit_lp d c0) l ->
  inv skip (refill Q (tls_info_ (lc_context c0)) (Z.to_nat (seq_ (lc_context c0))) l) (update_lp (commit_lp d) (lc_id c0) st)
    (delete (tls_info_ (lc_context c0)) pend) ctl.
Proof.
  intros [Hlp Hblk Hbk Hth Hcu Hpd Hos Hgr Hrd Hctl] H0 Hc0 Hv0 Hext Hl.
  destruct (l_slot _ _ _ _ _ _ Hlp c0 H0 Hv0) as (l0 & Hs0 & Hl0). unfold lp_has in Hl0. rewrite Hc0 in Hl0. subst l0.
  pose proof (l_ids _ _ _ _ _ _ Hlp) as Hnd.
  constructor; simpl; try done.
  - by eapply lp_inv_set.
  - by apply commit_blocks.
  - by apply commit_back.
  - by apply thread_refill.
  - eapply commit_pend; [done|done|done|by eauto|done].
  - apply (commit_os_pres Q st c0 l Hs0) in Hos. destruct Hos as [H1 H2 H3 H4 H5 H6]. split; try done.
    intros c [->|[Hc Hn]]%(set_by_elem lc_id (commit_lp d) (lp_ st) c0 Hnd H0); [|by apply H6]. simpl. congruence.
  - apply (control_frame version _ _ (lp_ st)); [|done]. intros p. by apply set_by_head.
Qed.

Lemma inv_commit_block (Q : ghost) st pend ctl t b k a :
  inv None Q st pend ctl -> blocks_of (threads_ st) !! t = Some (Some b) -> blocks_ st !! b = Some k ->
  inv None (refill Q t (Z.to_nat (seq_ (bk_context k))) (batch_part (rd_ st) ctl b ++ bk_items k ++ [a]))
    (update_block (fun k => set_items (bk_items k ++ [a]) k) b st) (delete t pend) ctl.
Proof.
  intros [Hlp Hblk Hbk Hth Hcu Hpd Hos Hgr Hrd Hctl] Hb Hk.
  destruct (Hcu t b Hb) as (Hx & Hl & k' & Hk' & Hr & Ht & Hw); [done|]. assert (k' = k) as -> by congruence. subst t.
  destruct (Hblk b Hl) as (k1 & Hk1 & Hs & Hf). assert (k1 = k) as -> by congruence.
  set (f := fun k : block => set_items (bk_items k ++ [a]) k).
  assert (forall b' k0, blocks_ st !! b' = Some k0 -> exists k1, alter f b (blocks_ st) !! b' = Some k1 /\ bk_context k1 = bk_context k0 /\
            is_removed k1 = is_removed k0 /\ (b' = b /\ k0 = k \/ bk_items k1 = bk_items k0)) as Hf'.
  { intros b' k0 Hk0. destruct (decide (b' = b)) as [->|].
    - exists (f k0). rewrite lookup_alter_eq, Hk0. split_and!; [done..|left; split; congruence].
    - exists k0. rewrite lookup_alter_ne by done. split_and!; auto. }
  constructor; simpl; try done.
  - by eapply block_refill_lp.
  - by apply (block_inv_set version Q _ _ _ _ (batch_part (rd_ st) ctl) _ b k f).
  - apply back_refill. eapply back_blocks; [|done]. intros b' k0 Hk0. destruct (Hf' b' k0 Hk0) as (k1 & ? & E & _). exists k1. by rewrite E.
  - by apply thread_refill.
  - intros u b' Hub Hu. destruct (Hcu u b' Hub Hu) as (Hx' & Hl' & k0 & Hk0 & Hr0 & ?). destruct (Hf' b' k0 Hk0) as (k2 & Hk2 & E & Er & _).
    split_and!; [done|done|]. exists k2. by rewrite E, Er.
  - by apply pend_delete.
  - by eapply block_refill_os.
  - eapply reader_blocks; [|done]. intros b' k0 _ Hk0. destruct (Hf' b' k0 Hk0) as (k2 & Hk2 & E & Er & Hor). exists k2.
    rewrite E, Er. split_and!; [done..|]. intros Hrm. split; [done|]. destruct Hor as [[-> ->]|]; [congruence|done].
Qed.

(** ** Oversize buffers *)

(** Updates of an oversize buffer that touch none of its chunks, and new ones. *)
Lemma os_map (Q : ghost) (R : gmap nat Z) (X : gmap nat bool) (lp : list lp_chunk) (os : list oversize) next f :
  (forall o, os_id (f o) = os_id o /\ os_context (f o) = os_context o /\ os_items (f o) = os_items o) ->
  os_inv version Q R X lp os next -> os_inv version Q R X lp (f <$> os) next.
Proof.
  intros Hf [H1 H2 H3 H4 H5 H6]. split.
  - rewrite <- list_fmap_compose. erewrite list_fmap_ext; [exact H1|]. intros _ o _. apply Hf.
  - intros o (o' & -> & Ho)%list_elem_of_fmap. destruct (Hf o') as (-> & _). by apply H2.
  - intros o x (o' & -> & Ho)%list_elem_of_fmap Hx. destruct (Hf o') as (E1 & E2 & E3). rewrite E3 in Hx.
    destruct (H3 o' x Ho Hx) as [Hc Hs]. split; [by rewrite E2|done].
  - intros o i j x y (o' & -> & Ho)%list_elem_of_fmap. destruct (Hf o') as (_ & _ & ->). by apply H4.
  - intros o o1 x y (o' & -> & Ho)%list_elem_of_fmap (o1' & -> & Ho1)%list_elem_of_fmap.
    destruct (Hf o') as (-> & _ & ->), (Hf o1') as (-> & _ & ->). by apply H5.
  - intros c Hc Hv Hcm He. destruct (H6 c Hc Hv Hcm He) as (o & x & Ho & Hx & ?). exists (f o), x.
    destruct (Hf o) as (_ & _ & ->). split; [by apply list_elem_of_fmap_2|by split].
Qed.

Lemma control_os_map c r (lp : list lp_chunk) (os : list oversize) (R : gmap nat Z) f :
  (forall o, os_id (f o) = os_id o /\ os_items (f o) = os_items o) ->
  control_inv version c r lp os R -> control_inv version c r lp (f <$> os) R.
Proof.
  intros Hf. destruct c as [| |[id c a|id c a|b a|]]; simpl; try done.
  intros (? & ? & ? & ? & ? & ? & (o & Ho & Hid & Hh) & H). split_and!; try done. exists (f o). destruct (Hf o) as (-> & ->).
  split_and!; [by apply list_elem_of_fmap_2|done..].
Qed.

(** The chunk [a] of thread [t] put into its buffer. *)
Definition put (t : nat) (s : Z) (a : A) (o : oversize) : oversize :=
  mk_os (os_id o) (os_size o) (os_context o) (os_items o ++ [(mk_context version false true s t, a)]) false (last_used_epoch_ms_ o) (os_thread_finished o).

Section Put.
Variables (Q : ghost) (st : state) (c0 : lp_chunk) (o0 : oversize) (a : A).
Let R := reads_of (threads_ st).
Let X := exits_of (threads_ st).
Let t := tls_info_ (lc_context c0).
Let s := seq_ (lc_context c0).
Let Q' := refill Q t (Z.to_nat s) [a].
Hypotheses (Hos : os_inv version Q R X (lp_ st) (os_ st) (os_next st)) (Hnd : NoDup (lc_id <$> lp_ st)) (H0 : c0 ∈ lp_ st)
  (Hs0 : slot version Q R X (lc_context c0) (lp_place c0) []) (Ho : o0 ∈ os_ st)
  (Hfin : is_thread_finished_ (lc_context c0) = false) (Hext : is_external_ref_ (lc_context c0) = true) (Hcv : version_ (os_context o0) = version) (Hct : tls_info_ (os_context o0) = t)
  (Hlast : forall j e, Q t !! j = Some e -> Z.of_nat j <= s).

(** The new chunk comes behind the others. *)
Lemma put_behind x : x ∈ os_items o0 -> seq_ x.1 < s.
Proof using Hos Hs0 Ho Hct Hlast.
  intros Hx. destruct (o_items _ _ _ _ _ _ _ Hos o0 x Ho Hx) as [(_ & Hxt & _) (id & Hs)].
  pose proof (slot_seq _ _ _ _ _ _ _ Hs) as Hpos. assert (tls_info_ x.1 = t) as Et by congruence.
  pose proof (s_entry _ _ _ _ _ _ _ Hs) as He. rewrite Et in He. specialize (Hlast _ _ He).
  destruct (decide (seq_ x.1 = s)) as [E|]; [|lia]. by destruct (slot_inj _ _ _ _ _ _ _ _ _ _ Hs Hs0 Et E) as [_ [=]].
Qed.

Lemma os_inv_put : os_inv version Q' R X (set_by lc_id (commit_lp None) (lc_id c0) (lp_ st)) (set_by os_id (put t s a) (os_id o0) (os_ st)) (os_next st).
Proof using Type*.
  pose proof (commit_os_pres Q st c0 [a] Hs0 _ _ _ Hos) as [H1 H2 H3 H4 H5 H6].
  assert (forall o, o ∈ set_by os_id (put t s a) (os_id o0) (os_ st) <-> o = put t s a o0 \/ o ∈ os_ st /\ os_id o <> os_id o0) as Hel
    by (intros o; by apply set_by_elem).
  assert (item_ok version Q' R X (put t s a o0) (mk_context version false true s t, a)) as Hnew.
  { split; [done|]. exists (lc_id c0). simpl. eapply (slot_finish _ _ _ _ (lc_context c0)); try done.
    - simpl. by destruct Hs0.
    - pose proof (slot_refill version Q R X _ _ _ t (Z.to_nat s) [a] Hs0) as Hs. rewrite decide_True in Hs by done.
      unfold lp_place in Hs. by rewrite Hext in Hs. }
  split.
  - by rewrite set_by_keys.
  - intros o [->|[Hin _]]%Hel; [by apply (H2 o0)|by apply H2].
  - intros o x [->|[Hin _]]%Hel Hx; [|by apply H3]. apply elem_of_app in Hx as [Hx|Hx].
    + destruct (H3 o0 x Ho Hx) as [? ?]. by split.
    + apply list_elem_of_singleton in Hx as ->. done.
  - intros o i j x y [->|[Hin _]]%Hel Hi Hj Hij; [|by eapply H4]. simpl in *. apply lookup_snoc_Some in Hj as [[_ Hj]|[-> <-]].
    + apply lookup_app_Some in Hi as [Hi|[Hle _]]; [by eapply H4|]. apply lookup_lt_Some in Hj. lia.
    + rewrite lookup_app_l in Hi by done. simpl. apply put_behind. by eapply list_elem_of_lookup_2.
  - assert (forall o x, o ∈ os_ st -> x ∈ os_items o -> tls_info_ x.1 = t -> seq_ x.1 = s -> False) as Hno.
    { intros o x Hin Hx Et Es. destruct (o_items _ _ _ _ _ _ _ Hos o x Hin Hx) as [_ (id & Hs)].
      by destruct (slot_inj _ _ _ _ _ _ _ _ _ _ Hs Hs0 Et Es) as [_ [=]]. }
    assert (forall o x, o ∈ set_by os_id (put t s a) (os_id o0) (os_ st) -> x ∈ os_items o ->
      (exists o1, o1 ∈ os_ st /\ os_id o1 = os_id o /\ x ∈ os_items o1) \/ os_id o = os_id o0 /\ tls_info_ x.1 = t /\ seq_ x.1 = s) as Hcase.
    { intros o x [->|[Hin _]]%Hel Hx; [|by left; exists o]. apply elem_of_app in Hx as [Hx|Hx]; [by left; exists o0|].
      apply list_elem_of_singleton in Hx as ->. by right. }
    intros o o' x x' Hin Hin' Hx Hx' Et Es. destruct (Hcase o x Hin Hx) as [(o1 & ? & <- & ?)|(E & ? & ?)],
      (Hcase o' x' Hin' Hx') as [(o1' & ? & <- & ?)|(E' & ? & ?)]; [by eapply H5| | |congruence].
    + exfalso. apply (Hno o1 x); congruence || done.
    + exfalso. apply (Hno o1' x'); congruence || done.
  - intros c [->|[Hc Hn]]%(set_by_elem lc_id (commit_lp None) (lp_ st) c0 Hnd H0) Hv Hcm He.
    + exists (put t s a o0), (mk_context version false true s t, a). split_and!; [apply Hel; by left| |done..].
      apply elem_of_app. right. by apply list_elem_of_singleton.
    + destruct (H6 c Hc Hv Hcm He) as (o & x & Hin & Hx & Hc'). destruct (decide (os_id o = os_id o0)) as [E|].
      * assert (o = o0) as -> by by eapply (key_inj os_id). exists (put t s a o0), x. split; [apply Hel; by left|].
        split; [apply elem_of_app; by left|done].
      * exists o, x. split; [apply Hel; by right|done].
Qed.
End Put.

Lemma oversize_of_set ths t p o u : u <> t -> oversize_of (alter (set_oversize p o) t ths) !! u = oversize_of ths !! u.
Proof. intros Hu. unfold oversize_of. by rewrite !lookup_fmap, lookup_alter_ne. Qed.

(** The numbers of a thread are below the one it writes next. *)
Lemma thread_bound (Q : ghost) R W t w j e : thread_inv Q R W -> W !! t = Some w -> Q t !! j = Some e -> Z.of_nat j < w.
Proof.
  intros Hth Hw He. specialize (Hth t). rewrite Hw in Hth. destruct (R !! t); [|done].
  apply lookup_lt_Some in He. lia.
Qed.

(** [wt_commit_oversize_write_chunk] *)
Lemma inv_commit_os (Q : ghost) st pend ctl c0 o0 p a :
  let t := tls_info_ (lc_context c0) in
  let s := seq_ (lc_context c0) in
  inv None Q st pend ctl -> c0 ∈ lp_ st -> lc_committed c0 = false -> version_ (lc_context c0) = version ->
  is_external_ref_ (lc_context c0) = true -> is_thread_finished_ (lc_context c0) = false -> writes_of (threads_ st) !! t = Some (s + 1) ->
  o0 ∈ os_ st -> version_ (os_context o0) = version -> tls_info_ (os_context o0) = t ->
  inv None (refill Q t (Z.to_nat s) [a])
    (update_lp (commit_lp None) (lc_id c0) (update_tls (set_oversize p None) t (update_os (put t s a) (os_id o0) st))) (delete t pend) ctl.
Proof.
  intros t s [Hlp Hblk Hbk Hth Hcu Hpd Hos Hgr Hrd Hctl] H0 Hc0 Hv0 Hext Hfin Hw Ho Hov Hot.
  destruct (l_slot _ _ _ _ _ _ Hlp c0 H0 Hv0) as (l0 & Hs0 & Hl0). unfold lp_has in Hl0. rewrite Hc0 in Hl0. subst l0.
  pose proof (l_ids _ _ _ _ _ _ Hlp) as Hnd. pose proof (o_ids _ _ _ _ _ _ _ Hos) as Hnd'.
  constructor; simpl; unfold reads_of, exits_of, writes_of, blocks_of; rewrite ?view_alter_same by done; try done.
  - eapply lp_inv_set; [done..|]. unfold lp_has. simpl. rewrite Hext. split; [done|by exists a].
  - by apply (commit_blocks Q st c0 [a] Hs0).
  - by apply (commit_back Q st c0 [a] Hnd H0).
  - by apply thread_refill.
  - eapply commit_pend; [done|done| | |done].
    + intros u Hu. by apply oversize_of_set.
    + intros o Hin Hn. exists o. split; [|done]. apply (set_by_elem os_id (put t s a) (os_ st) o0); [done|done|].
      right. split; [done|]. intros E. apply Hn. by rewrite (key_inj os_id (os_ st) Hnd' o o0).
  - apply os_inv_put; try done. intros j e He. pose proof (thread_bound _ _ _ _ _ _ _ Hth Hw He). lia.
  - apply (control_frame version _ _ (lp_ st)); [intros q; by apply set_by_head|].
    destruct ctl as [| |[id c x|id c x|b x|]]; simpl in *; try done.
    destruct Hctl as (? & ? & ? & ? & ? & ? & (o & Hin & Hid & Hh) & ?). split_and!; try done.
    exists (if (os_id o =? os_id o0)%nat then put t s a o else o). split; [apply list_elem_of_fmap; by exists o|].
    destruct (_ =? _)%nat; simpl; [|by split]. split; [done|]. by apply head_app_some.
Qed.

(** An oversize buffer that the writer takes. *)
Lemma inv_os_map skip (Q : ghost) st pend ctl f :
  inv skip Q st pend ctl ->
  (forall o, os_id (f o) = os_id o /\ os_context (f o) = os_context o /\ os_items (f o) = os_items o) ->
  (forall o, os_locked o = true -> os_locked (f o) = true) ->
  inv skip Q (set_os (f <$> os_ st) (os_next st) st) pend ctl.
Proof.
  intros [Hlp Hblk Hbk Hth Hcu Hpd Hos Hgr Hrd Hctl] Hf Hl. constructor; simpl; try done.
  - intros t h Hh. destruct (Hpd t h Hh) as [Hx Hs]. split; [done|]. intros Hsc. specialize (Hs Hsc).
    destruct (h_at h); try done. destruct Hs as (? & p & o & ? & ? & Ho & Hid & ? & ? & Hlk). split; [done|].
    exists p, (f o). destruct (Hf o) as (-> & -> & _). split_and!; auto. by apply list_elem_of_fmap_2.
  - by apply os_map.
  - apply control_os_map; [|done]. intros o. destruct (Hf o) as (? & _ & ?). done.
Qed.

Lemma inv_new_os skip (Q : ghost) st pend ctl size t now :
  inv skip Q st pend ctl -> 
  inv skip Q (set_os (os_ st ++ [mk_os (S (os_next st)) size (mk_context version false true UINT32_MAX t) [] true now false]) (S (os_next st)) st) pend ctl.
Proof.
  intros [Hlp Hblk Hbk Hth Hcu Hpd Hos Hgr Hrd Hctl]. constructor; simpl; try done.
  - intros u h Hh. destruct (Hpd u h Hh) as [Hx Hs]. split; [done|]. intros Hsc. specialize (Hs Hsc).
    destruct (h_at h); try done. destruct Hs as (? & p & o & ? & ? & Ho & ?). split; [done|].
    exists p, o. split; [done|]. split; [done|]. split; [apply elem_of_app; by left|done].
  - destruct Hos as [H1 H2 H3 H4 H5 H6]. split.
    + rewrite fmap_app. apply NoDup_app. split_and!; [done| |apply NoDup_singleton]. intros x (o & -> & Ho)%list_elem_of_fmap Hx.
      apply list_elem_of_singleton in Hx. specialize (H2 o Ho). simpl in Hx. lia.
    + intros o [Ho| ->%list_elem_of_singleton]%elem_of_app; [specialize (H2 o Ho); lia|done].
    + intros o x [Ho| ->%list_elem_of_singleton]%elem_of_app Hx; [by apply H3|by apply not_elem_of_nil in Hx].
    + intros o i j x y [Ho| ->%list_elem_of_singleton]%elem_of_app; [by apply H4|done].
    + intros o o' x x' [Ho| ->%list_elem_of_singleton]%elem_of_app [Ho'| ->%list_elem_of_singleton]%elem_of_app Hx Hx'; [by apply H5| | |done].
      all: exfalso; by eapply not_elem_of_nil.
    + intros c Hc Hv Hcm He. destruct (H6 c Hc Hv Hcm He) as (o & x & ? & ?). exists o, x. split; [apply elem_of_app; by left|done].
  - destruct ctl as [| |[id c x|id c x|b x|]]; simpl in *; try done.
    destruct Hctl as (? & ? & ? & ? & ? & ? & (o & Hin & ?) & ?). split_and!; try done. exists o. split; [apply elem_of_app; by left|done].
Qed.

(** The thread's buffer and the chunk that refers to it. *)
Lemma inv_set_oversize skip (Q : ghost) st pend ctl t p o :
  inv skip Q st pend ctl -> pend !! t = None -> inv skip Q (update_tls (set_oversize p o) t st) pend ctl.
Proof.
  intros Hi Ht. apply (inv_threads skip skip Q st pend pend); [done|..].
  1-3: by apply view_alter_same.
  all: unfold blocks_of, writes_of, exits_of; rewrite !view_alter_same by done.
  { apply Hi. }
  eapply pend_frame with (t := t); [done| |done|by eauto|apply Hi]. intros u Hu. by rewrite oversize_of_set.
Qed.

(** A chunk of the shared ring that the reader will drop. *)
Lemma inv_push_invalid skip (Q : ghost) st pend ctl d c :
  inv skip Q st pend ctl -> version_ c = u16 (version + 1) ->
  inv skip Q (mk_state (lp_ st ++ [mk_lp (lp_next st) c d true]) (S (lp_next st)) (blocks_ st) (groups_ st) (pool_ st) (current_group_index_ st)
    (os_ st) (os_next st) (threads_ st) (hp_buffer_max_alloc_size_ st) (rd_ st)) pend ctl.
Proof using Hversion.
  intros [Hlp Hblk Hbk Hth Hcu Hpd Hos Hgr Hrd Hctl] Hc. pose proof bumped_version as Hb. constructor; simpl; try done.
  - apply lp_inv_snoc; [done|done|by right|]. simpl. congruence.
  - intros t r j p l HR Hj HQ. specialize (Hbk t r j p l HR Hj HQ). destruct p; [|done]. destruct Hbk as (c' & ? & ?).
    exists c'. split; [apply elem_of_app; by left|done].
  - intros t h Hh. destruct (Hpd t h Hh) as [Hx Hs]. split; [done|]. intros Hsc. specialize (Hs Hsc).
    assert (forall id e, lp_pending version (lp_ st) (writes_of (threads_ st)) t id e ->
              lp_pending version (lp_ st ++ [mk_lp (lp_next st) c d true]) (writes_of (threads_ st)) t id e) as Hp.
    { intros id e (c' & ? & ?). exists c'. split; [apply elem_of_app; by left|done]. }
    destruct (h_at h); try done; [naive_solver|]. destruct Hs as (? & p & o & ? & ? & ?). split; [done|]. exists p, o. split_and!; try apply Hp; naive_solver.
  - destruct Hos as [H1 H2 H3 H4 H5 H6]. split; try done. intros c' [Hc'| ->%list_elem_of_singleton]%elem_of_app; [by apply H6|]. simpl. congruence.
  - apply (control_frame version _ _ (lp_ st)); [|done]. intros q Hq _. by apply head_app_some.
Qed.

(** ** The first call of a thread, and its end *)

Lemma inv_new_thread skip (Q : ghost) st pend ctl t :
  inv skip Q st pend ctl -> threads_ st !! t = None -> inv skip Q (set_tls t new_tls st) pend ctl.
Proof.
  intros [Hlp Hblk Hbk Hth Hcu Hpd Hos Hgr Hrd Hctl] Ht.
  assert (reads_of (threads_ st) !! t = None) as HR by (unfold reads_of, writes_of, exits_of; by rewrite lookup_fmap, Ht).
  assert (writes_of (threads_ st) !! t = None) as HW by (unfold reads_of, writes_of, exits_of; by rewrite lookup_fmap, Ht).
  assert (exits_of (threads_ st) !! t = None) as HX by (unfold reads_of, writes_of, exits_of; by rewrite lookup_fmap, Ht).
  assert (Q t = []) as HQ by (pose proof (Hth t) as H; by rewrite HR, HW in H).
  assert (pres version (fun _ => True) Q (reads_of (threads_ st)) (exits_of (threads_ st)) Q
            (<[t := 0]> (reads_of (threads_ st))) (<[t := false]> (exits_of (threads_ st)))) as Hpres.
  { intros c p l _ [H1 (r & Hr & Hle) H3 H4]. assert (tls_info_ c <> t) by congruence.
    split; [done| |done|]; rewrite lookup_insert_ne by done; [by exists r|done]. }
  assert (reads_of (threads_ st) ⊆ <[t := 0]> (reads_of (threads_ st))) as Hsub by (by apply insert_subseteq).
  constructor; simpl; unfold reads_of, exits_of, writes_of, blocks_of, oversize_of; rewrite ?fmap_insert; simpl.
  - by apply (lp_inv_pres _ _ _ _ _ _ _ _ Hpres _ _ (fun _ _ _ => I)).
  - by apply (block_inv_pres _ _ _ _ _ _ _ _ Hpres _ _ _ (fun _ _ _ _ => I)).
  - intros u r j p l HRu Hj He. destruct (decide (u = t)) as [->|]; [by rewrite HQ in He|].
    rewrite lookup_insert_ne in HRu by done. by eapply Hbk.
  - intros u. destruct (decide (u = t)) as [->|].
    + rewrite !lookup_insert_eq, HQ. by split_and!.
    + rewrite !lookup_insert_ne by done. apply Hth.
  - intros u b. destruct (decide (u = t)) as [->|]; [by rewrite lookup_insert_eq|].
    rewrite !lookup_insert_ne by done. apply Hcu.
  - assert (pend !! t = None) as Hp.
    { destruct (pend !! t) as [h|] eqn:E; [|done]. destruct (Hpd t h E) as [Hx _]. congruence. }
    eapply pend_frame with (t := t); [done| |done|by eauto|done]. intros u Hu. by rewrite !lookup_insert_ne.
  - by apply (os_inv_pres _ _ _ _ _ _ _ _ Hpres _ _ _ (fun _ _ _ _ => I)).
  - done.
  - by eapply reader_reads.
  - by eapply control_reads.
Qed.

Lemma inv_unskip (Q : ghost) st pend ctl t : inv (Some t) Q st pend ctl -> blocks_of (threads_ st) !! t = Some None -> inv None Q st pend ctl.
Proof.
  intros [Hlp Hblk Hbk Hth Hcu Hpd Hos Hgr Hrd Hctl] Ht. constructor; try done. intros u b Hb _.
  destruct (decide (u = t)) as [->|]; [congruence|]. apply Hcu; [done|congruence].
Qed.

(** The end of a thread that has a block. *)
Lemma inv_exit_block (Q : ghost) st pend ctl t b :
  inv None Q st pend ctl -> pend !! t = None -> blocks_of (threads_ st) !! t = Some (Some b) ->
  inv None Q (update_tls (fun i => set_exited (set_cur_block None i)) t (mark_block_removed b (update_block (map_context finish_context) b st))) pend ctl.
Proof.
  intros [Hlp Hblk Hbk Hth Hcu Hpd Hos Hgr Hrd Hctl] Ht Hb.
  destruct (Hcu t b Hb) as (Hx & Hl & k & Hk & Hr & Hkt & Hw); [done|].
  apply view_lookup in Hb as (i & Hi & Hib).
  assert (exits_of (alter (fun i => set_exited (set_cur_block None i)) t (threads_ st)) = <[t := true]> (exits_of (threads_ st))) as EX
    by (unfold exits_of; by erewrite view_alter).
  assert (pres version (fun _ => True) Q (reads_of (threads_ st)) (exits_of (threads_ st)) Q (reads_of (threads_ st)) (<[t := true]> (exits_of (threads_ st)))) as Hpres.
  { apply pres_exits. intros u Hu. rewrite lookup_insert_ne; [done|congruence]. }
  assert (forall b' k0, blocks_ st !! b' = Some k0 -> b' <> b ->
            alter (set_removed true) b (alter (map_context finish_context) b (blocks_ st)) !! b' = Some k0) as Hne.
  { intros b' k0 Hk0 Hn. by rewrite !lookup_alter_ne. }
  assert (alter (set_removed true) b (alter (map_context finish_context) b (blocks_ st)) !! b = Some (set_removed true (map_context finish_context k))) as Heq.
  { by rewrite !lookup_alter_eq, Hk. }
  constructor; simpl; rewrite ?EX; unfold reads_of, writes_of; rewrite ?view_alter_same by done; try done.
  - by apply (lp_inv_pres _ _ _ _ _ _ _ _ Hpres _ _ (fun _ _ _ => I)).
  - intros b' Hl'. destruct (block_inv_pres _ _ _ _ _ _ _ _ Hpres _ _ _ (fun _ _ _ _ => I) Hblk b' Hl') as (k0 & Hk0 & Hs & Hf).
    destruct (decide (b' = b)) as [->|]; [|exists k0; by rewrite (Hne b' k0)].
    assert (k0 = k) as -> by congruence. rewrite Heq. eexists. split_and!; [done| |done].
    apply (slot_finish _ _ _ _ (bk_context k)); try done. intros _. rewrite Hkt, lookup_insert_eq. split; [done|].
    specialize (Hth t). rewrite Hw in Hth. pose proof (slot_seq _ _ _ _ _ _ _ Hs). destruct (reads_of (threads_ st) !! t); [lia|done].
  - eapply back_blocks; [|done]. intros b' k0 Hk0. destruct (decide (b' = b)) as [->|]; [|exists k0; by rewrite (Hne b' k0)].
    assert (k0 = k) as -> by congruence. rewrite Heq. by eexists.
  - intros u b'. unfold blocks_of. rewrite lookup_fmap. destruct (decide (u = t)) as [->|Hu]; [by rewrite lookup_alter_eq, Hi|].
    rewrite lookup_alter_ne, lookup_insert_ne by done. intros Hub _.
    destruct (Hcu u b') as (Hx' & Hl' & k0 & Hk0 & ? & Hk0t & ?); [by unfold blocks_of; rewrite lookup_fmap|done|].
    split_and!; [done|done|]. exists k0. rewrite (Hne b' k0); [done|done|]. intros ->. congruence.
  - eapply pend_frame with (t := t); [done| |done|by eauto|done]. intros u Hu. unfold writes_of, blocks_of, oversize_of.
    by rewrite lookup_insert_ne, !lookup_fmap, lookup_alter_ne.
  - by apply (os_inv_pres _ _ _ _ _ _ _ _ Hpres _ _ _ (fun _ _ _ _ => I)).
  - eapply reader_blocks; [|done]. intros b' k0 _ Hk0. destruct (decide (b' = b)) as [->|]; [|exists k0; by rewrite (Hne b' k0)].
    assert (k0 = k) as -> by congruence. rewrite Heq. eexists. split_and!; try done.
Qed.

(** ** A new block *)

Hypothesis Hmax : (0 < max_blocks)%nat.
Variable block_max_alloc : Z.

(** A block that no group had in use is the place of thread [t]'s new number. *)
Lemma inv_block_number (Q : ghost) st pend ctl t i b gs pool index ths' :
  inv (Some t) Q st pend ctl -> pend !! t = None -> ths' = <[t := set_write_seq (current_write_seq_ i + 1) i]> (threads_ st) ->
  numbered Q (threads_ st) ths' t (current_write_seq_ i) (P_block b) ->
  group_inv max_blocks gs pool index -> group_ext (groups_ st) gs -> ~ live (groups_ st) b -> (forall b', live gs b' <-> b' = b \/ live (groups_ st) b') ->
  inv (Some t) (extend Q t (P_block b))
    (set_blocks (<[b := mk_block (mk_context version false false (current_write_seq_ i) t) false false []]> (blocks_ st)) (set_groups gs pool index (set_threads ths' st))) pend ctl.
Proof.
  intros [Hlp Hblk Hbk Hth Hcu Hpd Hos Hgr Hrd Hctl] Ht Hths Hn Hgr' Hext Hnl Hlive. set (c := mk_context version false false (current_write_seq_ i) t).
  pose proof (n_pres _ _ _ _ _ _ Hn) as Hpres. pose proof (n_reads _ _ _ _ _ _ Hn) as ER.
  assert (rd_block_ (rd_ st) <> Some b) as Hrb by (intros E; by apply Hnl; eapply reader_live).
  assert (forall b', live (groups_ st) b' -> <[b := mk_block c false false []]> (blocks_ st) !! b' = blocks_ st !! b') as Hold.
  { intros b' Hl. rewrite lookup_insert_ne; [done|]. by intros <-. }
  constructor; simpl.
  - by apply (lp_inv_pres _ _ _ _ _ _ _ _ Hpres _ _ (fun _ _ _ => I)).
  - intros b' [->|Hl]%Hlive.
    + exists (mk_block c false false []). rewrite lookup_insert_eq, batch_part_other by done. split_and!; [done| |done].
      by apply (n_slot _ _ _ _ _ _ Hn).
    + rewrite Hold by done. by apply (block_inv_pres _ _ _ _ _ _ _ _ Hpres _ _ _ (fun _ _ _ _ => I) Hblk).
  - rewrite ER. intros u r j p l Hu Hj [HQ|(-> & -> & [= -> ->])]%extend_lookup.
    + specialize (Hbk u r j p l Hu Hj HQ). destruct p as [id|b']; [done|]. destruct Hbk as (Hl & Hk).
      rewrite Hold by done. split; [|done]. apply Hlive. by right.
    + split; [apply Hlive; by left|]. rewrite lookup_insert_eq. eexists. split; [done|]. simpl.
      by rewrite <- (n_length _ _ _ _ _ _ Hn).
  - apply Hn.
  - eapply cur_numbered; [exact Hn| |done]. intros b' Hl. split; [apply Hlive; by right|by apply Hold].
  - by eapply pend_numbered.
  - by apply (os_inv_pres _ _ _ _ _ _ _ _ Hpres _ _ _ (fun _ _ _ _ => I)).
  - done.
  - rewrite ER. eapply reader_ext; [done|]. eapply reader_blocks; [|done]. intros b' k Hb' Hk. exists k.
    by rewrite lookup_insert_ne by congruence.
  - by rewrite ER.
Qed.

(** A number of thread [t] that is a new block: [alloc_new_hp_block]. *)
Lemma inv_new_block (Q : ghost) st pend ctl t i :
  inv (Some t) Q st pend ctl -> pend !! t = None -> threads_ st !! t = Some i -> tls_exited i = false ->
  current_write_seq_ i + 1 < 2 ^ 32 ->
  exists b st', alloc_new_hp_block max_blocks version block_max_alloc t st = Some (b, st') /\
    inv (Some t) (extend Q t (P_block b)) st' pend ctl /\ live (groups_ st') b /\
    blocks_ st' !! b = Some (mk_block (mk_context version false false (current_write_seq_ i) t) false false []) /\
    threads_ st' = <[t := set_write_seq (current_write_seq_ i + 1) i]> (threads_ st).
Proof using Hmax.
  intros Hinv0 Ht Hi Hx Hw. pose proof (v_thread _ _ _ _ _ _ _ Hinv0) as Hth. pose proof (v_group _ _ _ _ _ _ _ Hinv0) as Hgr. unfold alloc_new_hp_block. rewrite Hi. simpl.
  assert (0 <= current_write_seq_ i) as H0.
  { pose proof (Hth t) as Htt. unfold reads_of, writes_of in Htt. rewrite !lookup_fmap, Hi in Htt. simpl in Htt. lia. }
  rewrite (wrap_small 32 (current_write_seq_ i + 1)) by (unfold in_range; lia).
  set (ths' := <[t := set_write_seq (current_write_seq_ i + 1) i]> (threads_ st)).
  set (c := mk_context version false false (current_write_seq_ i) t).
  destruct (alloc_new_block_spec max_blocks Hmax (set_tls t (set_write_seq (current_write_seq_ i + 1) i) st) c Hgr)
    as (b & gs & pool & index & -> & Hgr' & Hext & Hnl & Hlive). simpl in *.
  set (st' := set_blocks (<[b := mk_block c false false []]> (blocks_ st)) (set_groups gs pool index (set_threads ths' st))).
  exists b, (if hp_buffer_max_alloc_size_ st =? UINT32_MAX then set_max block_max_alloc st' else st').
  assert (inv (Some t) (extend Q t (P_block b)) st' pend ctl) as Hinv.
  { apply inv_block_number; try done. assert (ths' = alter (set_write_seq (current_write_seq_ i + 1)) t (threads_ st)) as ->.
    - apply map_eq. intros u. subst ths'. destruct (decide (u = t)) as [->|].
      + by rewrite lookup_insert_eq, lookup_alter_eq, Hi.
      + by rewrite lookup_insert_ne, lookup_alter_ne.
    - by apply new_number. }
  split; [done|]. split_and!.
  - destruct (_ =? _); [by apply inv_max|done].
  - destruct (_ =? _); apply Hlive; by left.
  - destruct (_ =? _); simpl; by rewrite lookup_insert_eq.
  - by destruct (_ =? _).
Qed.

End Writer.
End LogBufferWriter.
