(* ===== verification/LogBufferCalls.v ===== *)
(** * The log buffer: the calls of the writers
    ([src/buffer/log_buffer.cpp])

    Every call of a writer that the protocol permits succeeds and keeps the invariant of
    [LogBufferSystem]: the allocation of a chunk in each of its places, its commit, the end of a
    thread. An allocation changes nothing of what there is to read, a commit adds its chunk
    behind the thread's others. *)
From stdpp Require Import functions base list option numbers gmap.
From Stdlib Require Import ZArith Lia Bool.
From S2P Require Import Prelude BufferDefs LogBuffer LogBufferReader LogBufferSystem LogBufferGhost LogBufferFrame LogBufferWriter.

Module LogBufferCalls.
Import LogBuffer LogBufferReader LogBufferSystem LogBufferGhost LogBufferFrame LogBufferWriter.

Section Calls.
Context {A : Type}.
Abbreviation state := (@state A).
Abbreviation control := (@control A).
Abbreviation ghost := (nat -> list (place * list A)).
Variables (max_blocks : nat) (policy : log_memory_policy) (threshold : Z) (version : Z) (block_max_alloc : Z).
Hypotheses (Hversion : 0 <= version < 2 ^ 16) (Hmax : (0 < max_blocks)%nat).
Abbreviation inv := (@inv A max_blocks version).

Section Thread.
Variables (pend : gmap nat handle) (ctl : control) (t : nat).
Hypothesis Hpend : pend !! t = None.

(** The thread is running and its next number is at most [n]. *)
Definition at_most (st : state) (n : Z) : Prop :=
  exists i, threads_ st !! t = Some i /\ tls_exited i = false /\ current_write_seq_ i <= n.

(** A new block for the thread, whatever it had before. *)
Lemma new_block_ok (Q : ghost) st n :
  inv (Some t) Q st pend ctl -> at_most st n -> n + 1 < 2 ^ 32 ->
  exists b st' Q', alloc_new_hp_block max_blocks version block_max_alloc t st = Some (b, st') /\
    let st' := update_tls (set_cur_block (Some b)) t st' in
    inv None Q' st' pend ctl /\ same_rest Q st Q' st' /\ at_most st' (n + 1) /\ blocks_of (threads_ st') !! t = Some (Some b).
Proof using Hmax Hpend.
  intros Hi (i & Ht & Hx & Hn) H32.
  destruct (inv_new_block max_blocks version Hmax block_max_alloc Q st pend ctl t i Hi Hpend Ht Hx)
    as (b & st' & Ha & Hi' & Hl & Hb & Hths); [lia|].
  exists b, st', (extend Q t (P_block b)). split; [done|]. simpl.
  assert (threads_ st' !! t = Some (set_write_seq (current_write_seq_ i + 1) i)) as Ht' by (by rewrite Hths, lookup_insert_eq).
  split_and!.
  - eapply inv_new_cur; [done|done| |exact Hl|exact Hb|done|done|]; apply view_lookup; by eexists.
  - intros u. simpl. unfold reads_of. rewrite view_alter_same, Hths, fmap_insert by done. simpl.
    rewrite insert_id by (by rewrite lookup_fmap, Ht). apply rest_extend.
  - eexists. simpl. rewrite lookup_alter_eq, Ht'. split; [done|]. simpl. split; [done|lia].
  - rewrite blocks_of_set, decide_True, Ht' by done. done.
Qed.

(** The thread leaves the block it has. *)
Lemma drop_block_ok (Q : ghost) st b :
  inv None Q st pend ctl -> blocks_of (threads_ st) !! t = Some (Some b) -> inv (Some t) Q (mark_block_removed b st) pend ctl.
Proof.
  intros Hi Hb. destruct (v_cur _ _ _ _ _ _ _ Hi t b Hb) as (_ & _ & k & Hk & _ & <- & _); [done|].
  apply inv_removed; [done|]. by apply inv_weaken.
Qed.

(** The block to write to: [alloc_write_chunk] up to the allocation from it. *)
Lemma ensure_block_ok (Q : ghost) st i :
  inv None Q st pend ctl -> threads_ st !! t = Some i -> tls_exited i = false -> current_write_seq_ i + 1 < 2 ^ 32 ->
  exists b st' Q',
    match cur_block_ i with
    | None => alloc_new_hp_block max_blocks version block_max_alloc t st
    | Some b =>
        k ← blocks_ st !! b;
        if need_reallocate_ k then alloc_new_hp_block max_blocks version block_max_alloc t (mark_block_removed b st) else Some (b, st)
    end = Some (b, st') /\
    let st' := update_tls (set_cur_block (Some b)) t st' in
    inv None Q' st' pend ctl /\ same_rest Q st Q' st' /\ at_most st' (current_write_seq_ i + 1) /\ blocks_of (threads_ st') !! t = Some (Some b).
Proof using Hmax Hpend.
  intros Hi Ht Hx Hw. assert (at_most st (current_write_seq_ i)) as Hat by (by exists i).
  destruct (cur_block_ i) as [b|] eqn:Eb.
  - assert (blocks_of (threads_ st) !! t = Some (Some b)) as Hb by (apply view_lookup; by exists i).
    destruct (v_cur _ _ _ _ _ _ _ Hi t b Hb) as (Hx' & Hl & k & Hk & Hr & Hkt & Hws); [done|].
    rewrite Hk. simpl. destruct (need_reallocate_ k).
    + pose proof (drop_block_ok Q st b Hi Hb) as Hi'. by apply (new_block_ok Q (mark_block_removed b st)).
    + exists b, st, Q. split; [done|]. split_and!.
      * eapply inv_new_cur; try done. by apply inv_weaken.
      * intros u. simpl. unfold reads_of. by rewrite view_alter_same.
      * eexists. simpl. rewrite lookup_alter_eq, Ht. split; [done|]. simpl. split; [done|lia].
      * by rewrite blocks_of_set, decide_True, Ht.
  - apply new_block_ok; [by apply inv_weaken|done|done].
Qed.

(** What the handle of the thread says of the state. *)
Definition handle_ok (st : state) (h : handle) : Prop :=
  pend_inv version {[t := h]} (exits_of (threads_ st)) (blocks_of (threads_ st)) (oversize_of (threads_ st)) (writes_of (threads_ st)) (lp_ st) (os_ st).

Lemma inv_pending (Q : ghost) st h : inv None Q st pend ctl -> handle_ok st h -> inv None Q st (<[t := h]> pend) ctl.
Proof.
  intros [Hlp Hblk Hbk Hth Hcu Hpd Hos Hgr Hrd Hctl] Hh. constructor; try done.
  intros u h' Hu. apply lookup_insert_Some in Hu as [[<- <-]|[_ Hu]]; [|by apply Hpd]. apply Hh. apply lookup_singleton_eq.
Qed.

(** A handle without a place. *)
Lemma handle_failed st r a : at_most st a -> is_success r = false -> handle_ok st (mk_handle r Nowhere).
Proof.
  intros (i & Ht & Hx & _) Hr u h Hu. apply lookup_singleton_Some in Hu as [<- <-]. split; [|cbn [h_result]; by rewrite Hr].
  apply view_lookup. by exists i.
Qed.

Lemma handle_block st b a r : at_most st a -> blocks_of (threads_ st) !! t = Some (Some b) ->
  handle_ok st (mk_handle r (if is_success r then In_block b else Nowhere)).
Proof.
  intros (i & Ht & Hx & _) Hb u h Hu. apply lookup_singleton_Some in Hu as [<- <-].
  split; [apply view_lookup; by exists i|]. cbn [h_result h_at]. by intros ->.
Qed.

(** The end of the low-frequency branch. *)
Lemma leave_ok (Q : ghost) st i b :
  inv (Some t) Q st pend ctl -> threads_ st !! t = Some i -> cur_block_ i = b ->
  (forall b', b = Some b' -> exists k, blocks_ st !! b' = Some k /\ tls_info_ (bk_context k) = t) ->
  let st' := match b with Some b => update_tls (set_cur_block None) t (mark_block_removed b st) | None => st end in
  inv None Q st' pend ctl /\ same_rest Q st Q st' /\ blocks_of (threads_ st') !! t = Some None /\
  threads_ st' !! t = Some (set_cur_block None i) /\ lp_ st' = lp_ st /\ os_ st' = os_ st.
Proof.
  intros Hi Ht <- Hb. destruct (cur_block_ i) as [b|] eqn:E; simpl.
  - destruct (Hb b eq_refl) as (k & Hk & Hkt). split_and!; [| | | |done|done].
    + apply inv_no_block; [|done]. subst t. by apply inv_removed.
    + intros u. simpl. unfold reads_of. by rewrite view_alter_same.
    + by rewrite blocks_of_set, decide_True, Ht.
    + by rewrite lookup_alter_eq, Ht.
  - assert (blocks_of (threads_ st) !! t = Some None) as Hn by (apply view_lookup; by exists i).
    split_and!; [by apply (inv_unskip _ _ _ _ _ _ t)|done|done| |done|done]. rewrite Ht. f_equal. destruct i. simpl in *. by subst.
Qed.

Abbreviation alloc_loop := (alloc_loop max_blocks policy version block_max_alloc).

Lemma at_most_le st a b : at_most st a -> a <= b -> at_most st b.
Proof. intros (i & ? & ? & ?) Hab. exists i. split_and!; [done|done|lia]. Qed.

(** A chunk in the shared ring. *)
Lemma lp_turn_ok (Q : ghost) st i :
  inv None Q st pend ctl -> threads_ st !! t = Some i -> tls_exited i = false -> current_write_seq_ i + 1 < 2 ^ 32 ->
  let st1 := update_tls (set_write_seq (u32 (current_write_seq_ i + 1))) t (snd (push_lp (mk_context version false false (current_write_seq_ i) t) st)) in
  let st' := match cur_block_ i with Some b => update_tls (set_cur_block None) t (mark_block_removed b st1) | None => st1 end in
  exists Q', inv None Q' st' pend ctl /\ same_rest Q st Q' st' /\ at_most st' (current_write_seq_ i + 1) /\
    handle_ok st' (mk_handle success (In_lp (lp_next st))).
Proof using Hmax Hpend.
  intros Hi Ht Hx Hw st1 st'.
  assert (0 <= current_write_seq_ i) as H0.
  { pose proof (v_thread _ _ _ _ _ _ _ Hi t) as Htt. unfold reads_of, writes_of in Htt. rewrite !lookup_fmap, Ht in Htt. simpl in Htt. lia. }
  assert (inv (Some t) (extend Q t (P_lp (lp_next st) false)) st1 pend ctl) as Hi1.
  { eapply (inv_push _ _ _ _ _ _ _ _ (mk_context version false false (current_write_seq_ i) t)); try done; [by apply inv_weaken|]. simpl. apply wrap_small. unfold in_range. lia. }
  assert (threads_ st1 !! t = Some (set_write_seq (current_write_seq_ i + 1) i)) as Ht1.
  { simpl. rewrite lookup_alter_eq, Ht. simpl. by rewrite wrap_small by (unfold in_range; lia). }
  destruct (leave_ok _ st1 _ (cur_block_ i) Hi1 Ht1 eq_refl) as (Hi' & Hr & Hb & Ht' & Hlp & Hos).
  { intros b Hb. destruct (v_cur _ _ _ _ _ _ _ Hi t b) as (_ & _ & k & Hk & _ & Hkt & _); [apply view_lookup; by exists i|done|]. by exists k. }
  exists (extend Q t (P_lp (lp_next st) false)). fold st' in Hi', Hr, Hb, Ht', Hlp, Hos. split_and!; [done| | |].
  - eapply same_rest_trans; [|exact Hr]. intros u. simpl. unfold reads_of. rewrite view_alter_same by done. apply rest_extend.
  - eexists. split; [done|]. simpl. split; [done|lia].
  - intros u h Hu. apply lookup_singleton_Some in Hu as [<- <-]. split; [apply view_lookup; by eexists|]. intros _. simpl. split; [done|].
    eexists. rewrite Hlp. simpl. split; [apply elem_of_app; right; by apply list_elem_of_singleton|]. split_and!; try done.
    apply view_lookup. by eexists.
Qed.

(** No chunk in the shared ring. *)
Lemma lp_fail_ok (Q : ghost) st i r n :
  inv None Q st pend ctl -> threads_ st !! t = Some i -> tls_exited i = false -> current_write_seq_ i <= n -> is_success r = false ->
  let st' := match cur_block_ i with Some b => update_tls (set_cur_block None) t (mark_block_removed b st) | None => st end in
  inv None Q st' pend ctl /\ same_rest Q st Q st' /\ at_most st' n /\ handle_ok st' (mk_handle r Nowhere).
Proof using Hpend.
  intros Hi Ht Hx Hn Hr st'. apply (inv_weaken _ _ (Some t)) in Hi as Hi1.
  destruct (leave_ok _ st _ (cur_block_ i) Hi1 Ht eq_refl) as (Hi' & Hs & Hb & Ht' & Hlp & Hos).
  { intros b Hb. destruct (v_cur _ _ _ _ _ _ _ Hi t b) as (_ & _ & k & Hk & _ & Hkt & _); [apply view_lookup; by exists i|done|]. by exists k. }
  fold st' in Hi', Hs, Hb, Ht', Hlp, Hos.
  assert (at_most st' n) as Hat by (by eexists). split_and!; [done..|]. by eapply handle_failed.
Qed.

Definition loop_ok (Q : ghost) (st : state) (n : Z) (r : option (handle * list enum_buffer_result_code * state)) : Prop :=
  exists h answers st' Q', r = Some (h, answers, st') /\ inv None Q' st' pend ctl /\ same_rest Q st Q' st' /\ at_most st' n /\ handle_ok st' h.

Lemma loop_trans (Q Q' : ghost) st st' n n' r : same_rest Q st Q' st' -> n' <= n -> loop_ok Q' st' n' r -> loop_ok Q st n r.
Proof.
  intros Hs Hn (h & answers & st2 & Q2 & -> & ? & ? & ? & ?). exists h, answers, st2, Q2.
  split_and!; [done|done|by eapply same_rest_trans|by eapply at_most_le|done].
Qed.

Lemma loop_done (Q : ghost) st n m h answers :
  inv None Q st pend ctl -> at_most st m -> m <= n -> handle_ok st h -> loop_ok Q st n (Some (h, answers, st)).
Proof. intros Hi Ha Hm Hh. exists h, answers, st, Q. split_and!; [done|done|done|by eapply at_most_le|done]. Qed.

(** The allocation from the block of the thread, and what follows when the block is full. *)
Lemma hp_turn_ok (Q : ghost) st b r answers n m again :
  inv None Q st pend ctl -> blocks_of (threads_ st) !! t = Some (Some b) -> at_most st n -> n + 1 < 2 ^ 32 -> n <= m ->
  (forall Q' st', inv None Q' st' pend ctl -> at_most st' (n + 1) -> loop_ok Q' st' m (again st')) ->
  loop_ok Q st m
    (if is_full r then
       match policy with
       | auto_expand_when_full =>
           '(b, st) ← alloc_new_hp_block max_blocks version block_max_alloc t (mark_block_removed b st);
           again (update_tls (set_cur_block (Some b)) t st)
       | block_when_full => Some (mk_handle err_wait_and_retry Nowhere, answers, st)
       | discard_when_full => Some (mk_handle r Nowhere, answers, st)
       end
     else Some (mk_handle r (if is_success r then In_block b else Nowhere), answers, st)).
Proof using Hmax Hpend.
  intros Hi Hb Hat Hn Hm Hag.
  destruct (is_full r) eqn:Hfull; [|by eapply loop_done; [..|eapply handle_block]].
  assert (is_success r = false) as Hs by (by destruct r).
  destruct policy; [by eapply loop_done; [..|eapply handle_failed]|by eapply loop_done; [..|eapply handle_failed]|].
  destruct (new_block_ok Q (mark_block_removed b st) n) as (b' & st' & Q' & E & Hi' & Hr & Hat' & _); [by apply drop_block_ok|done|done|].
  rewrite E. cbn [mbind option_bind]. by eapply loop_trans; [exact Hr| |apply (Hag Q')].
Qed.

Lemma alloc_loop_ok fuel answers high now (Q : ghost) st i :
  inv None Q st pend ctl -> threads_ st !! t = Some i -> tls_exited i = false ->
  current_write_seq_ i + 2 * Z.of_nat (length answers) + 2 < 2 ^ 32 -> (length answers < fuel)%nat ->
  loop_ok Q st (current_write_seq_ i + 2 * Z.of_nat (length answers) + 1) (alloc_loop fuel t high now answers st).
Proof using Hmax Hpend.
  revert answers high Q st i. induction fuel as [|fuel IH]; [lia|]. intros answers high Q st i Hi Ht Hx Hw Hf.
  cbn [LogBuffer.alloc_loop]. rewrite Ht. cbn [mbind option_bind]. destruct high.
  - destruct (ensure_block_ok Q st i Hi Ht Hx) as (b & st1 & Q1 & E & Hi1 & Hr1 & Hat1 & Hb1); [lia|]. rewrite E.
    cbn [mbind option_bind]. eapply loop_trans; [exact Hr1|reflexivity|].
    destruct answers as [|r l]; cbn [next_answer is_full is_success length] in *.
    + eapply loop_done; [done|exact Hat1|lia|]. by eapply (handle_block _ _ _ success).
    + eapply (hp_turn_ok _ _ _ _ _ _ _ (alloc_loop fuel t true now l)); [done|done|exact Hat1|lia|lia|].
      intros Q' st' Hi' (i' & Ht' & Hx' & Hle'). eapply loop_trans; [done| |apply (IH l true Q' st' i'); try done; lia]. lia.
  - destruct (lp_turn_ok Q st i Hi Ht Hx) as (Q1 & Hi1 & Hr1 & Hat1 & Hh1); [lia|].
    assert (forall r, is_success r = false -> loop_ok Q st (current_write_seq_ i + 2 * Z.of_nat (length answers) + 1)
      (Some (mk_handle r Nowhere, tail answers,
         match cur_block_ i with Some b => update_tls (set_cur_block None) t (mark_block_removed b st) | None => st end))) as Hfail.
    { intros r Hr. destruct (lp_fail_ok Q st i r (current_write_seq_ i) Hi Ht Hx) as (Hi2 & Hr2 & Hat2 & Hh2); [lia|done|].
      eapply loop_trans; [exact Hr2|reflexivity|]. eapply loop_done; [done|exact Hat2|lia|done]. }
    destruct answers as [|r l]; cbn [next_answer is_full is_success length tail] in *.
    + eapply loop_trans; [exact Hr1|reflexivity|]. eapply loop_done; [done|exact Hat1|lia|done].
    + destruct (is_success r) eqn:Es.
      { eapply loop_trans; [exact Hr1|reflexivity|]. eapply loop_done; [done|exact Hat1|lia|done]. }
      destruct (is_full r); [|by apply Hfail]. destruct policy; [by apply Hfail|by apply Hfail|].
      eapply (loop_trans _ Q _ (update_tls (set_times now 0) t st)); [|reflexivity|].
      * intros u. simpl. unfold reads_of. by rewrite view_alter_same.
      * eapply loop_trans; [done| |apply (IH l true Q _ (set_times now 0 i))]; simpl; try lia; [|by rewrite lookup_alter_eq, Ht|done].
        by apply inv_times.
Qed.

(** ** Oversize chunks *)

Abbreviation wt_alloc_oversize_write_chunk := (wt_alloc_oversize_write_chunk policy version).

Definition call_ok (Q : ghost) (st : state) (r : option (handle * state)) : Prop :=
  exists h st' Q', r = Some (h, st') /\ inv None Q' st' pend ctl /\ same_rest Q st Q' st' /\ handle_ok st' h.

Lemma call_trans (Q Q' : ghost) st st' r : same_rest Q st Q' st' -> call_ok Q' st' r -> call_ok Q st r.
Proof.
  intros Hs (h & st2 & Q2 & -> & ? & ? & ?). exists h, st2, Q2. split_and!; [done|done|by eapply same_rest_trans|done].
Qed.

Lemma find_oversize_spec os answers id answers' : find_oversize (A:=A) version t os answers = (Some id, answers') ->
  exists o, o ∈ os /\ os_id o = id /\ version_ (os_context o) = version /\ tls_info_ (os_context o) = t.
Proof.
  revert answers. induction os as [|o os IH]; [done|]. intros answers. simpl.
  destruct (os_thread_finished o).
  { intros H. destruct (IH _ H) as (o' & ? & ?). exists o'. split; [by right|done]. }
  destruct (version_ (os_context o) =? version) eqn:Ev, (tls_info_ (os_context o) =? t)%nat eqn:Et; simpl.
  2-4: intros H; destruct (IH _ H) as (o' & ? & ?); exists o'; split; [by right|done].
  destruct (next_answer answers) as [r l]. destruct (is_success r).
  - intros [= <- <-]. exists o. split; [by left|]. split; [done|]. apply Z.eqb_eq in Ev. apply Nat.eqb_eq in Et. done.
  - intros H. destruct (IH _ H) as (o' & ? & ?). exists o'. split; [by right|done].
Qed.

Lemma inv_os_next (Q : ghost) st n : inv None Q st pend ctl -> (os_next st <= n)%nat -> inv None Q (set_os (os_ st) n st) pend ctl.
Proof.
  intros [Hlp Hblk Hbk Hth Hcu Hpd Hos Hgr Hrd Hctl] Hn. constructor; try done. destruct Hos as [H1 H2 H3 H4 H5 H6]. split; try done.
  intros o Ho. specialize (H2 o Ho). simpl. lia.
Qed.

(** The state after the chunk that refers to the oversize buffer is allocated. *)
Definition with_parent (st : state) (i : tls_buffer_info) : state :=
  update_tls (set_write_seq (u32 (current_write_seq_ i + 1))) t (snd (push_lp (mk_context version false true (current_write_seq_ i) t) st)).

Lemma parent_ok (Q : ghost) st i :
  inv None Q st pend ctl -> threads_ st !! t = Some i -> tls_exited i = false -> cur_block_ i = None -> current_write_seq_ i + 1 < 2 ^ 32 ->
  inv None (extend Q t (P_lp (lp_next st) true)) (with_parent st i) pend ctl /\ same_rest Q st (extend Q t (P_lp (lp_next st) true)) (with_parent st i) /\
  threads_ (with_parent st i) !! t = Some (set_write_seq (current_write_seq_ i + 1) i) /\
  lp_pending version (lp_ (with_parent st i)) (writes_of (threads_ (with_parent st i))) t (lp_next st) true.
Proof using Hmax Hpend.
  intros Hi Ht Hx Hb Hw.
  assert (0 <= current_write_seq_ i) as H0.
  { pose proof (v_thread _ _ _ _ _ _ _ Hi t) as Htt. unfold reads_of, writes_of in Htt. rewrite !lookup_fmap, Ht in Htt. simpl in Htt. lia. }
  assert (threads_ (with_parent st i) !! t = Some (set_write_seq (current_write_seq_ i + 1) i)) as Ht1.
  { simpl. rewrite lookup_alter_eq, Ht. simpl. by rewrite wrap_small by (unfold in_range; lia). }
  split_and!; [| |done|].
  - apply (inv_unskip _ _ _ _ _ _ t); [|apply view_lookup; by eexists].
    eapply (inv_push _ _ _ _ _ _ _ _ (mk_context version false true (current_write_seq_ i) t)); try done; [by apply inv_weaken|]. simpl. apply wrap_small. unfold in_range. lia.
  - intros u. simpl. unfold reads_of. rewrite view_alter_same by done. apply rest_extend.
  - eexists. split; [apply elem_of_app; right; by apply list_elem_of_singleton|]. split_and!; try done.
    apply view_lookup. by eexists.
Qed.

(** No buffer for the chunk: the number is taken back, the chunk left to be dropped. *)
Lemma parent_failed_ok (Q : ghost) st i n :
  inv None Q st pend ctl -> threads_ st !! t = Some i -> tls_exited i = false -> (os_next st <= n)%nat ->
  call_ok Q st
    (Some (mk_handle err_io_failure_drop Nowhere,
      update_lp (fun c => mk_lp (lc_id c) (mk_context (u16 (version + 1)) (is_thread_finished_ (lc_context c))
         (is_external_ref_ (lc_context c)) (seq_ (lc_context c)) (tls_info_ (lc_context c))) None true) (lp_next st)
        (update_tls (set_write_seq (current_write_seq_ i)) t (set_os (os_ (with_parent st i)) n (with_parent st i))))).
Proof using Hmax Hversion.
  intros Hi Ht Hx Hn. eexists _, _, Q. split; [done|].
  match goal with |- inv _ _ ?s _ _ /\ _ => assert (s = mk_state (lp_ st ++ [mk_lp (lp_next st) (mk_context (u16 (version + 1)) false true (current_write_seq_ i) t) None true])
    (S (lp_next st)) (blocks_ st) (groups_ st) (pool_ st) (current_group_index_ st) (os_ st) n (threads_ st) (hp_buffer_max_alloc_size_ st) (rd_ st)) as -> end.
  { unfold update_lp, set_lp, update_tls, with_parent, push_lp, set_os. simpl. f_equal.
    - rewrite fmap_app. simpl. rewrite Nat.eqb_refl. f_equal. rewrite <- (list_fmap_id (lp_ st)) at 2.
      apply list_fmap_ext. intros j c Hc. apply list_elem_of_lookup_2 in Hc. pose proof (l_next _ _ _ _ _ _ (v_lp _ _ _ _ _ _ _ Hi) c Hc).
      assert ((lc_id c =? lp_next st)%nat = false) as -> by (apply Nat.eqb_neq; lia). done.
    - apply map_eq. intros u. destruct (decide (u = t)) as [->|]; [|by rewrite !lookup_alter_ne].
      rewrite !lookup_alter_eq, Ht. simpl. by destruct i. }
  split_and!.
  - apply (inv_push_invalid max_blocks version Hversion None Q (set_os (os_ st) n st)); [by apply inv_os_next|done].
  - done.
  - eapply (handle_failed _ _ (current_write_seq_ i)); [|done]. by exists i.
Qed.

(** The buffer is found or made. *)
Lemma target_ok (Q : ghost) st id :
  inv None Q st pend ctl -> blocks_of (threads_ st) !! t = Some None -> exits_of (threads_ st) !! t = Some false ->
  (forall p, lp_pending version (lp_ st) (writes_of (threads_ st)) t p true ->
  (exists o, o ∈ os_ st /\ os_id o = id /\ version_ (os_context o) = version /\ tls_info_ (os_context o) = t /\ os_locked o = true) ->
  call_ok Q st (Some (mk_handle success (In_oversize id), update_tls (set_oversize (Some p) (Some id)) t st))).
Proof using Hpend.
  intros Hi Hb Hx p Hp (o & Ho & Hid & Hv & Ht & Hl). eexists _, _, Q. split; [done|]. split_and!.
  - by apply inv_set_oversize.
  - intros u. simpl. unfold reads_of. by rewrite view_alter_same.
  - apply view_lookup in Hb as (i & Hti & Hb).
    intros u h Hu. apply lookup_singleton_Some in Hu as [<- <-]. simpl. unfold exits_of, blocks_of, writes_of. rewrite !view_alter_same by done.
    split; [done|]. intros _. split; [apply view_lookup; by exists i|]. exists p, o. split_and!; try done.
    unfold oversize_of. by rewrite lookup_fmap, lookup_alter_eq, Hti.
Qed.

(** The search for the buffer, once the chunk that refers to it is there. *)
Lemma search_ok (Q : ghost) st i size now answers :
  inv None Q st pend ctl -> threads_ st !! t = Some i -> tls_exited i = false -> cur_block_ i = None -> current_write_seq_ i + 1 < 2 ^ 32 ->
  call_ok Q st
    (let '(found, answers) := find_oversize version t (os_ (with_parent st i)) answers in
     let '(target, st') :=
       match found with
       | Some id => (Some id, update_os (lock_oversize now) id (with_parent st i))
       | None =>
           let '(r, _) := next_answer answers in
           let id := S (os_next (with_parent st i)) in
           if is_success r
           then (Some id,
                 set_os (os_ (with_parent st i) ++ [mk_os id (if size <? Z.shiftr UINT32_MAX 1 then Z.shiftl size 1 else UINT32_MAX)
                                      (mk_context version false true UINT32_MAX t) [] true now false]) id (with_parent st i))
           else (None, set_os (os_ (with_parent st i)) id (with_parent st i))
       end in
     match target with
     | None =>
         let st' := update_tls (set_write_seq (current_write_seq_ i)) t st' in
         let st' := update_lp (fun c => mk_lp (lc_id c) (mk_context (u16 (version + 1)) (is_thread_finished_ (lc_context c))
                                         (is_external_ref_ (lc_context c)) (seq_ (lc_context c)) (tls_info_ (lc_context c))) None true) (lp_next st) st' in
         Some (mk_handle err_io_failure_drop Nowhere, st')
     | Some id => Some (mk_handle success (In_oversize id), update_tls (set_oversize (Some (lp_next st)) (Some id)) t st')
     end).
Proof using Hmax Hpend Hversion.
  intros Hi Ht Hx Hb Hw. destruct (parent_ok Q st i Hi Ht Hx Hb Hw) as (Hi1 & Hr1 & Ht1 & Hp1).
  assert (blocks_of (threads_ (with_parent st i)) !! t = Some None) as Hb1 by (apply view_lookup; by eexists).
  assert (exits_of (threads_ (with_parent st i)) !! t = Some false) as Hx1 by (apply view_lookup; by eexists).
  destruct (find_oversize _ _ _ _) as [[id|] answers'] eqn:Ef.
  - destruct (find_oversize_spec _ _ _ _ Ef) as (o & Ho & Hid & Hv & Hot).
    eapply call_trans; [exact Hr1|]. apply (target_ok _ (update_os (lock_oversize now) id (with_parent st i))); [|done|done|done|].
    + apply (inv_os_map max_blocks version None _ (with_parent st i) pend ctl
               (fun o => if (os_id o =? id)%nat then lock_oversize now o else o)); [done|..]; intros o'; by destruct (_ =? _)%nat.
    + exists (lock_oversize now o). split_and!; try done. apply list_elem_of_fmap. exists o. by rewrite Hid, Nat.eqb_refl.
  - destruct (next_answer answers') as [r l]. destruct (is_success r).
    + eapply call_trans; [exact Hr1|]. cbv beta iota zeta.
      match goal with |- call_ok _ _ (Some (_, update_tls _ _ ?s)) => apply (target_ok _ s); [|done|done|done|] end.
      * by apply inv_new_os.
      * eexists. split; [apply elem_of_app; right; by apply list_elem_of_singleton|]. done.
    + apply parent_failed_ok; try done. simpl. lia.
Qed.

Lemma wt_alloc_oversize_ok (Q : ghost) st i size now answers :
  inv None Q st pend ctl -> threads_ st !! t = Some i -> tls_exited i = false -> current_write_seq_ i + 1 < 2 ^ 32 ->
  call_ok Q st (wt_alloc_oversize_write_chunk t size now answers st).
Proof using Hmax Hpend Hversion.
  intros Hi Ht Hx Hw. unfold LogBuffer.wt_alloc_oversize_write_chunk, get_buffer_info. rewrite Ht.
  destruct (next_answer answers) as [r l].
  apply (inv_weaken _ _ (Some t)) in Hi as Hiw.
  destruct (leave_ok _ st _ (cur_block_ i) Hiw Ht eq_refl) as (Hi' & Hs & Hb & Ht' & Hlp & Hos).
  { intros b Hb. destruct (v_cur _ _ _ _ _ _ _ Hi t b) as (_ & _ & k & Hk & _ & Hkt & _); [apply view_lookup; by exists i|done|]. by exists k. }
  set (st1 := match cur_block_ i with Some b => _ | None => st end) in *.
  eapply call_trans; [exact Hs|].
  destruct (is_success r) eqn:Er; cbn [negb].
  - rewrite Ht'. cbn [mbind option_bind]. by apply (search_ok Q st1 (set_cur_block None i)).
  - eexists _, _, Q. split; [done|]. split_and!; [done|done|]. eapply (handle_failed _ _ (current_write_seq_ i)); [by eexists|].
    by destruct policy, r.
Qed.

(** ** [alloc_write_chunk] *)

Abbreviation alloc_write_chunk := (alloc_write_chunk max_blocks policy threshold version block_max_alloc).

Lemma alloc_write_chunk_ok (Q : ghost) st size now answers :
  inv None Q st pend ctl ->
  let i := default new_tls (threads_ st !! t) in
  tls_exited i = false -> current_write_seq_ i + 2 * Z.of_nat (length answers) + 4 < 2 ^ 32 ->
  call_ok Q st (alloc_write_chunk t size now answers st).
Proof using Hmax Hpend Hversion.
  intros Hi. unfold LogBuffer.alloc_write_chunk, get_buffer_info. cbv zeta.
  assert (exists i st1, (match threads_ st !! t with Some i => (i, st) | None => (new_tls, set_tls t new_tls st) end) = (i, st1) /\
            i = default new_tls (threads_ st !! t) /\ inv None Q st1 pend ctl /\ same_rest Q st Q st1 /\ threads_ st1 !! t = Some i)
    as (i & st1 & -> & <- & Hi1 & Hs1 & Ht1).
  { destruct (threads_ st !! t) as [i|] eqn:Ht; [by exists i, st|]. exists new_tls, (set_tls t new_tls st).
    split_and!; [done|done|by apply inv_new_thread| |simpl; by rewrite lookup_insert_eq].
    intros u. simpl. unfold reads_of, rest_of. rewrite fmap_insert. destruct (decide (u = t)) as [->|]; [|by rewrite lookup_insert_ne].
    by rewrite lookup_insert_eq, lookup_fmap, Ht. }
  intros Hx Hw. destruct (frequency threshold i now) as [[high epoch] times].
  eapply call_trans; [exact Hs1|]. eapply (call_trans _ Q _ (update_tls (set_times epoch times) t st1)).
  { intros u. simpl. unfold reads_of. by rewrite view_alter_same. }
  apply (inv_times _ _ _ _ _ _ _ t epoch times) in Hi1.
  assert (threads_ (update_tls (set_times epoch times) t st1) !! t = Some (set_times epoch times i)) as Ht2
    by (simpl; by rewrite lookup_alter_eq, Ht1).
  set (st2 := update_tls (set_times epoch times) t st1) in *.
  destruct (high && _) eqn:Einv; cbn [mbind option_bind].
  - destruct (_ && (0 <? size)); [eapply wt_alloc_oversize_ok; [done|exact Ht2|done|simpl; lia]|].
    eexists _, _, Q. split; [done|]. split_and!; [done|done|]. by eapply (handle_failed _ _ (current_write_seq_ i)); [eexists|].
  - destruct (alloc_loop_ok (S (S (length answers))) answers high now Q st2 (set_times epoch times i) Hi1 Ht2)
      as (h & l & st3 & Q3 & -> & Hi3 & Hs3 & (i3 & Ht3 & Hx3 & Hw3) & Hh3); [done|simpl; lia|lia|]. cbn [mbind option_bind].
    eapply call_trans; [exact Hs3|]. destruct (_ && (0 <? size)).
    + eapply wt_alloc_oversize_ok; [done|exact Ht3|done|]. simpl in Hw3. lia.
    + by eexists _, _, Q3.
Qed.

End Thread.
(** ** [commit_write_chunk] *)

Section Commit.
Variables (pend : gmap nat handle) (ctl : control) (t : nat) (h : handle).
Hypothesis Hpend : pend !! t = Some h.

Lemma inv_delete (Q : ghost) st : inv None Q st pend ctl -> inv None Q st (delete t pend) ctl.
Proof. intros [Hlp Hblk Hbk Hth Hcu Hpd Hos Hgr Hrd Hctl]. constructor; try done. by apply pend_delete. Qed.

Definition commit_ok (Q : ghost) (st : state) (l : list A) (r : option state) : Prop :=
  exists st' Q', r = Some st' /\ inv None Q' st' (delete t pend) ctl /\
    forall u, rest_of Q' (reads_of (threads_ st')) u = rest_of Q (reads_of (threads_ st)) u ++ (if decide (u = t) then l else []).

(** The last number of the thread. *)
Lemma last_number (Q : ghost) st c p l :
  inv None Q st pend ctl -> slot version Q (reads_of (threads_ st)) (exits_of (threads_ st)) c p l -> tls_info_ c = t ->
  writes_of (threads_ st) !! t = Some (seq_ c + 1) ->
  S (Z.to_nat (seq_ c)) = length (Q t) /\ Q t !! Z.to_nat (seq_ c) = Some (p, l) /\
  exists r, reads_of (threads_ st) !! t = Some r /\ 0 <= r <= Z.of_nat (Z.to_nat (seq_ c)).
Proof.
  intros Hi [_ (r & Hr & Hle) He _] Ht Hw. rewrite Ht in *. pose proof (v_thread _ _ _ _ _ _ _ Hi t) as Hth. rewrite Hr, Hw in Hth.
  split_and!; [lia|done|]. exists r. split; [done|lia].
Qed.

(** An uncommitted chunk of the thread in the shared ring. *)
Lemma pending_slot (Q : ghost) st id e : inv None Q st pend ctl -> lp_pending version (lp_ st) (writes_of (threads_ st)) t id e ->
  exists c, c ∈ lp_ st /\ lc_id c = id /\ lc_committed c = false /\ version_ (lc_context c) = version /\ tls_info_ (lc_context c) = t /\
    is_external_ref_ (lc_context c) = e /\ is_thread_finished_ (lc_context c) = false /\
    writes_of (threads_ st) !! t = Some (seq_ (lc_context c) + 1) /\
    forall l u, rest_of (refill Q t (Z.to_nat (seq_ (lc_context c))) l) (reads_of (threads_ st)) u =
      rest_of Q (reads_of (threads_ st)) u ++ (if decide (u = t) then l else []).
Proof.
  intros Hi (c & Hc & Hid & Hcm & Hv & Ht & He & Hf & Hw). exists c. split_and!; try done. intros l u.
  destruct (l_slot _ _ _ _ _ _ (v_lp _ _ _ _ _ _ _ Hi) c Hc Hv) as (l0 & Hs & Hl0). unfold lp_has in Hl0. rewrite Hcm in Hl0. subst l0.
  destruct (last_number Q st _ _ _ Hi Hs Ht Hw) as (H1 & H2 & r & H3 & H4). by eapply (rest_last Q _ _ _ _ _ []).
Qed.

Lemma commit_write_chunk_ok (Q : ghost) st a :
  inv None Q st pend ctl -> commit_ok Q st (if is_success (h_result h) then [a] else []) (commit_write_chunk version t h a st).
Proof using Hmax Hpend Hversion.
  intros Hi. destruct (v_pend _ _ _ _ _ _ _ Hi t h Hpend) as [Hx Hs]. apply view_lookup in Hx as (i & Ht & Hx).
  unfold commit_write_chunk. rewrite Ht. cbn [mbind option_bind]. destruct (is_success (h_result h)).
  2: { exists st, Q. split; [by destruct (cur_block_ i)|]. split; [by apply inv_delete|]. intros u. destruct (decide _); by rewrite app_nil_r. }
  specialize (Hs eq_refl). destruct (h_at h) as [|id|b|id]; [done|..].
  - destruct Hs as [Hb Hp].
    assert (cur_block_ i = None) as -> by (apply view_lookup in Hb as (i' & ? & ?); congruence).
    destruct (pending_slot Q st id false Hi Hp) as (c & Hc & <- & Hcm & Hv & Hct & He & Hf & Hw & Hrest).
    exists (update_lp (commit_lp (Some a)) (lc_id c) st), (refill Q t (Z.to_nat (seq_ (lc_context c))) [a]). split; [done|]. split; [|done].
    rewrite <- Hct. apply inv_commit_lp; try done. unfold lp_has. simpl. rewrite He, Hf. by exists a.
  - assert (cur_block_ i = Some b) as -> by (apply view_lookup in Hs as (i' & ? & ?); congruence).
    rewrite decide_True by done. destruct (v_cur _ _ _ _ _ _ _ Hi t b Hs) as (_ & Hl & k & Hk & _ & Hkt & Hw); [done|].
    destruct (v_block _ _ _ _ _ _ _ Hi b Hl) as (k' & Hk' & Hsl & _). assert (k' = k) as -> by congruence.
    destruct (last_number Q st _ _ _ Hi Hsl Hkt Hw) as (H1 & H2 & r & H3 & H4).
    eexists _, _. split; [done|]. split; [by apply inv_commit_block|]. intros u. simpl. rewrite app_assoc. by eapply rest_last.
  - destruct Hs as (Hb & p & o & Ho & Hp & Hin & <- & Hov & Hot & _).
    assert (cur_block_ i = None) as -> by (apply view_lookup in Hb as (i' & ? & ?); congruence).
    apply view_lookup in Ho as (i' & Ht' & [= Hpar Htgt]). assert (i' = i) as -> by congruence.
    rewrite decide_True by done. unfold wt_commit_oversize_write_chunk. rewrite Ht. cbn [mbind option_bind].
    rewrite Htgt, Hpar. cbn [mbind option_bind].
    destruct (pending_slot Q st p true Hi Hp) as (c & Hc & <- & Hcm & Hv & Hct & He & Hf & Hw & Hrest).
    destruct (List.find _ (lp_ st)) as [c'|] eqn:Ef.
    2: { apply list_elem_of_In in Hc. apply (List.find_none _ _ Ef c) in Hc. by rewrite Nat.eqb_refl in Hc. }
    apply List.find_some in Ef as [Hc' Eid]. apply Nat.eqb_eq in Eid. apply list_elem_of_In in Hc'.
    assert (c' = c) as -> by (eapply (key_inj lc_id); [apply Hi|done..]). cbn [mbind option_bind].
    eexists _, (refill Q t (Z.to_nat (seq_ (lc_context c))) [a]). split; [done|].
    pose proof (inv_commit_os max_blocks version Hversion Q st pend ctl c o (Some (lc_id c)) a Hi Hc Hcm Hv He Hf) as Hco.
    rewrite Hct in Hco. split; [by apply Hco|]. intros u. rewrite <- Hrest. simpl. unfold reads_of. by rewrite view_alter_same.
Qed.

End Commit.
(** ** The end of a thread *)

Lemma thread_exit_ok (Q : ghost) st pend ctl t i :
  inv None Q st pend ctl -> pend !! t = None -> threads_ st !! t = Some i -> tls_exited i = false -> current_write_seq_ i + 1 < 2 ^ 32 ->
  exists st' Q', thread_exit version t st = Some st' /\ inv None Q' st' pend ctl /\ same_rest Q st Q' st'.
Proof using Hmax Hversion.
  intros Hi Hp Ht Hx Hw. unfold thread_exit. rewrite Ht. cbn [mbind option_bind].
  set (finish := fun o : oversize => if (_ && _) then _ else o).
  assert (inv None Q (set_os (finish <$> os_ st) (os_next st) st) pend ctl) as Hi1.
  { apply inv_os_map; [done|..]; intros o; subst finish; simpl; by destruct (_ && _). }
  set (st1 := set_os (finish <$> os_ st) (os_next st) st) in *.
  assert (0 <= current_write_seq_ i) as H0.
  { pose proof (v_thread _ _ _ _ _ _ _ Hi t) as Htt. unfold reads_of, writes_of in Htt. rewrite !lookup_fmap, Ht in Htt. simpl in Htt. lia. }
  destruct (cur_block_ i) as [b|] eqn:Eb.
  - eexists _, Q. split; [done|]. split; [apply inv_exit_block; [done|done|apply view_lookup; by exists i]|].
    intros u. simpl. unfold reads_of. by rewrite view_alter_same.
  - set (f := fun i => set_exited (set_write_seq (u32 (current_write_seq_ i + 1)) i)).
    set (c := mk_context version true false (current_write_seq_ i) t).
    set (st2 := update_tls f t (snd (push_lp c st1))). set (Q2 := extend Q t (P_lp (lp_next st) false)).
    assert (threads_ st2 !! t = Some (f i)) as Ht2 by (simpl; by rewrite lookup_alter_eq, Ht).
    assert (inv None Q2 st2 pend ctl) as Hi2.
    { apply (inv_unskip _ _ _ _ _ _ t); [|apply view_lookup; by eexists].
      apply (inv_weaken _ _ (Some t)) in Hi1. eapply (inv_push _ _ _ st1 _ _ _ _ c); try done.
      simpl. apply wrap_small. unfold in_range. lia. }
    set (c0 := @mk_lp A (lp_next st) c None false).
    assert (c0 ∈ lp_ st2) as Hc0 by (simpl; apply elem_of_app; right; by apply list_elem_of_singleton).
    exists (update_lp (commit_lp None) (lp_next st) st2), (refill Q2 t (Z.to_nat (current_write_seq_ i)) []). split; [done|].
    split.
    + rewrite <- (delete_id pend t Hp). by apply (inv_commit_lp max_blocks version None Q2 st2 pend ctl c0 None []).
    + destruct (l_slot _ _ _ _ _ _ (v_lp _ _ _ _ _ _ _ Hi2) c0 Hc0 eq_refl) as (l & Hs & Hl). unfold lp_has in Hl. simpl in Hl. subst l.
      assert (writes_of (threads_ st2) !! t = Some (seq_ (lc_context c0) + 1)) as Hw2.
      { apply view_lookup. eexists. split; [exact Ht2|]. simpl. apply wrap_small. unfold in_range. lia. }
      destruct (last_number pend ctl t Q2 st2 _ _ _ Hi2 Hs eq_refl Hw2) as (H1 & H2 & r & H3 & H4). intros u.
      change (reads_of (threads_ (update_lp (commit_lp None) (lp_next st) st2))) with (reads_of (threads_ st2)).
      etrans; [exact (rest_last Q2 _ _ _ _ _ [] [] u H3 H4 H2 H1)|].
      assert ((if decide (u = t) then [] else []) = @nil A) as -> by (by destruct (decide _)). rewrite app_nil_r.
      unfold Q2. rewrite rest_extend. simpl. unfold reads_of. by rewrite view_alter_same.
Qed.

End Calls.
End LogBufferCalls.
