(* ===== verification/LogBufferReads.v ===== *)
(** * The log buffer: the reader keeps its invariant
    ([src/buffer/log_buffer.cpp], [include/qlog/buffer/log_buffer.hpp])

    What a number that is read changes, the reader's turn on the shared ring, and the oversize
    buffers. Nothing that a turn asserts fails. *)
From stdpp Require Import functions base list option numbers gmap.
From Stdlib Require Import ZArith Lia Bool.
From S2P Require Import Prelude BufferDefs LogBuffer LogBufferReader LogBufferSystem LogBufferGhost LogBufferFrame LogBufferWriter.

Module LogBufferReads.
Import LogBuffer LogBufferReader LogBufferSystem LogBufferGhost LogBufferFrame LogBufferWriter.

Section Reads.
Context {A : Type}.
Abbreviation state := (@state A).
Abbreviation block := (@block A).
Abbreviation reading := (@reading A).
Abbreviation oversize := (@oversize A).
Abbreviation lp_chunk := (@lp_chunk A).
Abbreviation control := (@control A).
Abbreviation ghost := (nat -> list (place * list A)).
Abbreviation views := (gmap nat tls_buffer_info).
Variables (max_blocks : nat) (version : Z).
Hypothesis Hversion : 0 <= version < 2 ^ 16.
Abbreviation inv := (@inv A max_blocks version).

(** ** The reader's variables *)

Lemma inv_rd skip (Q : ghost) st pend ctl ctl' r :
  inv skip Q st pend ctl -> reader_inv version r (groups_ st) (blocks_ st) (reads_of (threads_ st)) ->
  control_inv version ctl' r (lp_ st) (os_ st) (reads_of (threads_ st)) ->
  (forall b, batch_part r ctl' b = batch_part (rd_ st) ctl b) -> inv skip Q (set_rd r st) pend ctl'.
Proof.
  intros [Hlp Hblk Hbk Hth Hcu Hpd Hos Hgr Hrd Hctl] Hr Hc Hb. constructor; simpl; try done.
  intros b Hl. destruct (Hblk b Hl) as (k & ?). exists k. by rewrite Hb.
Qed.

Lemma inv_control skip (Q : ghost) st pend ctl ctl' :
  inv skip Q st pend ctl -> control_inv version ctl' (rd_ st) (lp_ st) (os_ st) (reads_of (threads_ st)) ->
  (forall b, batch_part (rd_ st) ctl' b = batch_part (rd_ st) ctl b) -> inv skip Q st pend ctl'.
Proof.
  intros [Hlp Hblk Hbk Hth Hcu Hpd Hos Hgr Hrd Hctl] Hc Hb. constructor; simpl; try done.
  intros b Hl. destruct (Hblk b Hl) as (k & ?). exists k. by rewrite Hb.
Qed.

Lemma at_block_apart (r : reading) gs : (forall g, g ∈ gs -> NoDup (used_ g)) -> at_block r gs -> last_block_ r <> rd_block_ r.
Proof.
  intros Hnd (xs & G & ys & pre & i & post & E & _ & Hu & _ & Hb & Hl & _) Heq. rewrite Heq, Hb in Hl. simpl in Hl.
  rewrite Nat.eqb_refl in Hl. assert (G ∈ gs) as HG by set_solver. specialize (Hnd G HG). rewrite Hu in Hnd.
  apply NoDup_app in Hnd as (_ & Hd & _). apply (Hd i); [|by left].
  symmetry in Hl. apply last_Some in Hl as (p' & ->). apply elem_of_app. right. by left.
Qed.

Lemma used_NoDup gs pool index g : group_inv max_blocks gs pool index -> g ∈ gs -> NoDup (used_ g).
Proof.
  intros Hg Hin. assert (NoDup (used_ g ++ free_ g ++ stage_ g)) as Hnd.
  { rewrite (g_lists _ _ _ _ Hg) by (apply elem_of_app; by left). apply NoDup_seq. }
  by apply NoDup_app in Hnd as (? & _).
Qed.

Lemma reader_end (r : reading) (gs : list group) (blocks : gmap block_id block) (R : gmap nat Z) (w : bool) (b : option block_id) :
  reader_inv version r gs blocks R -> reader_inv version (set_end w b r) gs blocks R.
Proof. intros [H1 H2 H3 H4 H5 H6 H7]. by split. Qed.

Lemma control_end c (r : reading) (lp : list lp_chunk) (os : list oversize) (R : gmap nat Z) w b :
  control_inv version c r lp os R -> control_inv version c (set_end w b r) lp os R.
Proof. by destruct c as [| |[id c a|id c a|b' a|]]. Qed.

Lemma inv_end skip (Q : ghost) st pend ctl w b : inv skip Q st pend ctl -> inv skip Q (set_rd (set_end w b (rd_ st)) st) pend ctl.
Proof.
  intros Hi. eapply inv_rd; [done|by apply reader_end, Hi|by apply control_end, Hi|done].
Qed.

(** [refresh_traverse_end_mark] where the reader is not at the block behind it. *)
Lemma refresh_some (st : state) : (last_block_ (rd_ st) <> rd_block_ (rd_ st) \/ last_block_ (rd_ st) = None) ->
  exists w b, refresh st = Some (set_rd (set_end w b (rd_ st)) st).
Proof.
  intros Hne. unfold refresh, refresh_traverse_end_mark.
  assert (forall w b, exists w' b', (r ← match last_block_ (set_end w b (rd_ st)) with
      | Some b0 => if decide (rd_block_ (set_end w b (rd_ st)) = Some b0) then None else Some (set_end w b (rd_ st))
      | None => Some (set_end w b (rd_ st)) end; Some (set_rd r st)) = Some (set_rd (set_end w' b' (rd_ st)) st)) as Hs.
  { intros w b. exists w, b. simpl. destruct (last_block_ (rd_ st)) as [b0|] eqn:E; [|done].
    rewrite decide_False; [done|]. destruct Hne; congruence. }
  destruct (_ && _); apply Hs.
Qed.

(** ** A number that is read *)

(** Thread [t] without its number [r], under which the chunks [l] were. *)
Record dereg (Q : ghost) (ths : views) (Q' : ghost) (ths' : views) (t : nat) (r : Z) (l : list A) : Prop := {
  d_read : reads_of ths !! t = Some r;
  d_pres : pres version (not_at t r) Q (reads_of ths) (exits_of ths) Q' (reads_of ths') (exits_of ths');
  d_thread : thread_inv Q' (reads_of ths') (writes_of ths');
  d_back : forall u r' j e, reads_of ths' !! u = Some r' -> r' <= Z.of_nat j -> Q' u !! j = Some e ->
    exists r0, reads_of ths !! u = Some r0 /\ r0 <= Z.of_nat j /\ Q u !! j = Some e /\ ~ (u = t /\ Z.of_nat j = r);
  d_views : forall u i', ths' !! u = Some i' -> exists i, ths !! u = Some i /\ cur_block_ i' = cur_block_ i /\ tls_exited i' = tls_exited i /\
    current_write_seq_ i' = current_write_seq_ i /\ oversize_parent_handle_ i' = oversize_parent_handle_ i /\
    oversize_target_buffer_ i' = oversize_target_buffer_ i;
  d_alive : forall u i, ths !! u = Some i -> tls_exited i = false -> is_Some (ths' !! u);
  d_rest : forall u, rest_of Q (reads_of ths) u = (if decide (u = t) then l else []) ++ rest_of Q' (reads_of ths') u }.

(** The threads after [deregister_seq]. *)
Definition deregistered (c : context_head) (i : tls_buffer_info) (ths : views) : views :=
  if is_thread_finished_ c then delete (tls_info_ c) ths else <[tls_info_ c := set_read_seq (u32 (current_read_seq_ i + 1)) i]> ths.

(** The last number of a thread that has ended: the thread is gone. *)
Lemma dereg_last (Q : ghost) (ths : views) c p l i t :
  thread_inv Q (reads_of ths) (writes_of ths) -> ths !! t = Some i -> reads_of ths !! t = Some (seq_ c) ->
  slot version Q (reads_of ths) (exits_of ths) c p l -> tls_info_ c = t -> is_thread_finished_ c = true ->
  dereg Q ths (<[t := []]> Q) (delete t ths) t (seq_ c) l.
Proof.
  intros Hth Ht HR Hsl Etc Hf. pose proof (Hth t) as Htt. rewrite HR in Htt. unfold writes_of in Htt. rewrite lookup_fmap, Ht in Htt. simpl in Htt.
  pose proof (s_entry _ _ _ _ _ _ _ Hsl) as He. pose proof (lookup_lt_Some _ _ _ He) as Hlt. rewrite Etc in He, Hlt.
  destruct (s_last _ _ _ _ _ _ _ Hsl Hf) as [Hx Hlen]. rewrite Etc in Hx, Hlen.
  assert (reads_of (delete t ths) = delete t (reads_of ths)) as ER by apply fmap_delete.
  assert (exits_of (delete t ths) = delete t (exits_of ths)) as EX by apply fmap_delete.
  assert (writes_of (delete t ths) = delete t (writes_of ths)) as EW by apply fmap_delete.
  split; rewrite ?ER, ?EX, ?EW.
  - done.
  - intros c' p' l' Hn Hs'. apply slot_gone; [|done]. intros Ht'. apply Hn. split; [done|].
    pose proof (s_entry _ _ _ _ _ _ _ Hs') as He'. rewrite Ht' in He'. apply lookup_lt_Some in He'.
    destruct (s_read _ _ _ _ _ _ _ Hs') as (r' & Hr' & Hle). rewrite Ht', HR in Hr'. injection Hr' as <-. lia.
  - intros u. destruct (decide (u = t)) as [->|]; [by rewrite !lookup_delete_eq, fn_lookup_insert|].
    rewrite !lookup_delete_ne, fn_lookup_insert_ne by done. apply Hth.
  - intros u r' j e Hu Hj. destruct (decide (u = t)) as [->|]; [by rewrite lookup_delete_eq in Hu|].
    rewrite lookup_delete_ne in Hu by done. rewrite fn_lookup_insert_ne by done. exists r'. split_and!; try done. by intros [? _].
  - intros u i' Hu. apply lookup_delete_Some in Hu as [_ Hu]. by exists i'.
  - intros u i0 Hu Hx0. rewrite lookup_delete_ne; [by exists i0|]. intros <-. apply view_lookup in Hx as (i1 & ? & ?). congruence.
  - intros u. rewrite rest_gone. destruct (decide (u = t)) as [->|]; [|done].
    rewrite (rest_read Q _ t _ p l HR) by (done || lia). f_equal.
    unfold rest_of. rewrite lookup_insert_eq. simpl. rewrite drop_ge; [done|]. rewrite length_fmap. lia.
Qed.

(** The next number of a thread. *)
Lemma dereg_next (Q : ghost) (ths : views) c p l i t :
  thread_inv Q (reads_of ths) (writes_of ths) -> ths !! t = Some i -> reads_of ths !! t = Some (seq_ c) ->
  slot version Q (reads_of ths) (exits_of ths) c p l -> tls_info_ c = t -> seq_ c = current_read_seq_ i ->
  dereg Q ths Q (<[t := set_read_seq (u32 (current_read_seq_ i + 1)) i]> ths) t (seq_ c) l.
Proof.
  intros Hth Ht HR Hsl Etc Hs. pose proof (Hth t) as Htt. rewrite HR in Htt. unfold writes_of in Htt. rewrite lookup_fmap, Ht in Htt. simpl in Htt.
  pose proof (s_entry _ _ _ _ _ _ _ Hsl) as He. pose proof (lookup_lt_Some _ _ _ He) as Hlt. rewrite Etc in He, Hlt.
  assert (0 <= current_read_seq_ i + 1 < 2 ^ 32) as Hu32 by lia. rewrite wrap_small by done.
  assert (reads_of (<[t := set_read_seq (current_read_seq_ i + 1) i]> ths) = <[t := seq_ c + 1]> (reads_of ths)) as ER.
  { unfold reads_of. rewrite fmap_insert. simpl. by rewrite Hs. }
  assert (exits_of (<[t := set_read_seq (current_read_seq_ i + 1) i]> ths) = exits_of ths) as EX.
  { unfold exits_of. rewrite fmap_insert. simpl. apply insert_id. by rewrite lookup_fmap, Ht. }
  assert (writes_of (<[t := set_read_seq (current_read_seq_ i + 1) i]> ths) = writes_of ths) as EW.
  { unfold writes_of. rewrite fmap_insert. simpl. apply insert_id. by rewrite lookup_fmap, Ht. }
  split; rewrite ?ER, ?EX, ?EW.
  - done.
  - by apply pres_read.
  - intros u. destruct (decide (u = t)) as [->|]; [|rewrite lookup_insert_ne by done; apply Hth].
    rewrite lookup_insert_eq. unfold writes_of. rewrite lookup_fmap, Ht. simpl. lia.
  - intros u r' j e Hu Hj He'. destruct (decide (u = t)) as [->|].
    + rewrite lookup_insert_eq in Hu. injection Hu as <-. exists (seq_ c). split_and!; [done|lia|done|lia].
    + rewrite lookup_insert_ne in Hu by done. exists r'. split_and!; try done. by intros [? _].
  - intros u i' Hu. apply lookup_insert_Some in Hu as [[<- <-]|[_ Hu]]; [by exists i|by exists i'].
  - intros u i0 Hu _. destruct (decide (u = t)) as [->|]; [rewrite lookup_insert_eq|rewrite lookup_insert_ne by done]; by eexists.
  - intros u. destruct (decide (u = t)) as [->|]; [by eapply rest_read; [|lia|]|]. by rewrite rest_read_ne.
Qed.

Lemma dereg_slot (Q : ghost) (ths : views) c p l i :
  thread_inv Q (reads_of ths) (writes_of ths) -> ths !! tls_info_ c = Some i -> seq_ c = current_read_seq_ i ->
  slot version Q (reads_of ths) (exits_of ths) c p l ->
  dereg Q ths (if is_thread_finished_ c then <[tls_info_ c := []]> Q else Q) (deregistered c i ths) (tls_info_ c) (seq_ c) l.
Proof.
  intros Hth Ht Hs Hsl. assert (reads_of ths !! tls_info_ c = Some (seq_ c)) as HR by (apply view_lookup; by exists i).
  unfold deregistered. destruct (is_thread_finished_ c) eqn:Hf; [by eapply dereg_last|by eapply dereg_next].
Qed.

(** The views of the other numbers. *)
Section Dereg.
Variables (Q : ghost) (ths : views) (Q' : ghost) (ths' : views) (t : nat) (r : Z) (l : list A).
Hypothesis Hd : dereg Q ths Q' ths' t r l.

Lemma dereg_view u i' : ths' !! u = Some i' -> exists i, ths !! u = Some i /\
  blocks_of ths !! u = Some (cur_block_ i') /\ exits_of ths !! u = Some (tls_exited i') /\ writes_of ths !! u = Some (current_write_seq_ i').
Proof using Hd.
  intros Hu. destruct (d_views _ _ _ _ _ _ _ Hd u i' Hu) as (i & Hi & -> & -> & -> & _). exists i.
  split_and!; [done|..]; apply view_lookup; by exists i.
Qed.

Lemma dereg_alive u : exits_of ths !! u = Some false -> exits_of ths' !! u = Some false /\ blocks_of ths' !! u = blocks_of ths !! u /\
  oversize_of ths' !! u = oversize_of ths !! u /\ writes_of ths' !! u = writes_of ths !! u.
Proof using Hd.
  intros Hx. apply view_lookup in Hx as (i & Hi & Hx). destruct (d_alive _ _ _ _ _ _ _ Hd u i Hi Hx) as (i' & Hi').
  destruct (d_views _ _ _ _ _ _ _ Hd u i' Hi') as (i1 & Hi1 & E1 & E2 & E3 & E4 & E5). assert (i1 = i) as -> by congruence.
  unfold exits_of, blocks_of, oversize_of, writes_of. rewrite !lookup_fmap, Hi, Hi'. simpl. by rewrite E1, E2, E3, E4, E5, Hx.
Qed.

Lemma cur_dereg (blocks : gmap block_id block) (gs : list group) :
  cur_inv None (blocks_of ths) (writes_of ths) (exits_of ths) blocks gs -> cur_inv None (blocks_of ths') (writes_of ths') (exits_of ths') blocks gs.
Proof using Hd.
  intros Hc u b Hb Hu. apply view_lookup in Hb as (i' & Hi' & Hb). destruct (dereg_view u i' Hi') as (i & _ & Hb0 & Hx0 & Hw0).
  rewrite Hb in Hb0. destruct (Hc u b Hb0 Hu) as (Hx & Hl & k & Hk). destruct (dereg_alive u Hx) as (-> & _ & _ & ->). by split_and!; [..|exists k].
Qed.

Lemma pend_dereg pend (lp lp' : list lp_chunk) (os os' : list oversize) :
  (forall c, c ∈ lp -> lc_committed c = false -> c ∈ lp') ->
  (forall o, o ∈ os -> exists o', o' ∈ os' /\ os_id o' = os_id o /\ os_context o' = os_context o /\ os_locked o' = os_locked o) ->
  pend_inv version pend (exits_of ths) (blocks_of ths) (oversize_of ths) (writes_of ths) lp os ->
  pend_inv version pend (exits_of ths') (blocks_of ths') (oversize_of ths') (writes_of ths') lp' os'.
Proof using Hd.
  intros Hlp Hos Hp u h Hu. destruct (Hp u h Hu) as [Hx Hs]. destruct (dereg_alive u Hx) as (-> & -> & -> & HW). split; [done|].
  intros Hsc. specialize (Hs Hsc).
  assert (forall id e, lp_pending version lp (writes_of ths) u id e -> lp_pending version lp' (writes_of ths') u id e) as Hpp.
  { intros id e (c & Hc & ? & ? & ?). exists c. rewrite HW. split_and!; auto; naive_solver. }
  destruct (h_at h) as [|id|b|id]; try done; [split; [apply Hs|apply Hpp, Hs]|].
  destruct Hs as (? & p & o & ? & ? & Ho & ?). split; [done|]. destruct (Hos o Ho) as (o' & ? & E1 & E2 & E3).
  exists p, o'. rewrite E1, E2, E3. split; [done|]. split; [by apply Hpp|done].
Qed.
End Dereg.

Lemma out_verify (r : reading) (gs : list group) (blocks : gmap block_id block) (R : gmap nat Z) :
  reader_inv version r gs blocks R -> rd_block_ r = None -> verify_result_ r <> valid.
Proof. intros Hr Hb Hv. destruct (r_verified _ _ _ _ _ Hr Hv) as (b & _ & E & _). congruence. Qed.

Lemma reader_out (r : reading) (gs : list group) (blocks : gmap block_id block) (R R' : gmap nat Z) :
  reader_inv version r gs blocks R -> rd_block_ r = None -> reader_inv version r gs blocks R'.
Proof.
  intros Hr Hb. pose proof (out_verify _ _ _ _ Hr Hb) as Hv. destruct Hr as [H1 H2 H3 H4 H5 H6 H7]. by split.
Qed.

Lemma head_tail {B} (l : list B) x y : head l = Some x -> y ∈ l -> y = x \/ y ∈ tail l.
Proof. destruct l as [|z l]; [done|]. simpl. intros [= ->] Hy. by apply elem_of_cons in Hy. Qed.

(** The first chunk of the shared ring is read. *)
Lemma inv_pop (Q : ghost) st pend ctl Q' ths' l os' ctl' c0 :
  inv None Q st pend ctl -> head (lp_ st) = Some c0 -> lc_committed c0 = true -> version_ (lc_context c0) = version ->
  dereg Q (threads_ st) Q' ths' (tls_info_ (lc_context c0)) (seq_ (lc_context c0)) l ->
  os_inv version Q' (reads_of ths') (exits_of ths') (tail (lp_ st)) os' (os_next st) ->
  (forall o, o ∈ os_ st -> exists o', o' ∈ os' /\ os_id o' = os_id o /\ os_context o' = os_context o /\ os_locked o' = os_locked o) ->
  rd_block_ (rd_ st) = None -> control_inv version ctl' (rd_ st) (tail (lp_ st)) os' (reads_of ths') ->
  inv None Q' (set_lp (tail (lp_ st)) (set_os os' (os_next st) (set_threads ths' st))) pend ctl'.
Proof.
  intros [Hlp Hblk Hbk Hth Hcu Hpd Hos Hgr Hrd Hctl] Hh Hc0 Hv0 Hd Hos' Hoo Hb Hctl'.
  pose proof (l_ids _ _ _ _ _ _ Hlp) as Hnd. pose proof (d_pres _ _ _ _ _ _ _ Hd) as Hpres.
  assert (c0 ∈ lp_ st) as H0 by (destruct (lp_ st); [done|injection Hh as ->; by left]).
  assert (forall c, c ∈ tail (lp_ st) -> c ∈ lp_ st /\ lc_id c <> lc_id c0) as Htail.
  { destruct (lp_ st) as [|c lp]; [done|]. injection Hh as ->. simpl. intros c Hc. split; [by right|]. intros E.
    apply NoDup_cons in Hnd as [Hn _]. apply Hn. rewrite <- E. by apply list_elem_of_fmap_2. }
  destruct (l_slot _ _ _ _ _ _ Hlp c0 H0 Hv0) as (l0 & Hs0 & _).
  constructor; simpl; try done.
  - destruct Hlp as [H1 H2 H3 H4] eqn:E. split.
    + clear - H1. destruct (lp_ st); [done|]. rewrite fmap_cons in H1. by apply NoDup_cons in H1 as [_ ?].
    + intros c Hc. by apply H2, Htail.
    + intros c Hc. by apply H3, Htail.
    + intros c Hc Hv. destruct (Htail c Hc) as [Hc' Hn]. destruct (H4 c Hc' Hv) as (l1 & Hs1 & Hl1). exists l1. split; [|done].
      apply Hpres; [|done]. by eapply lp_not_at.
  - intros b Hl. destruct (Hblk b Hl) as (k & Hk & Hs & Hf). exists k. rewrite batch_part_other in Hs |- * by congruence.
    split_and!; [done| |done]. apply Hpres; [|done]. intros [Ht Hq]. by destruct (slot_inj _ _ _ _ _ _ _ _ _ _ Hs Hs0).
  - intros u r j p l1 HR Hj HQ. destruct (d_back _ _ _ _ _ _ _ Hd u r j _ HR Hj HQ) as (r0 & HR0 & Hj0 & HQ0 & Hn).
    specialize (Hbk u r0 j p l1 HR0 Hj0 HQ0). destruct p as [id e|]; [|done]. destruct Hbk as (c & Hc & Hid & Hv & Ht & Hs).
    exists c. split; [|done]. destruct (head_tail _ _ _ Hh Hc) as [->|]; [|done]. exfalso. apply Hn. by split.
  - apply Hd.
  - by eapply cur_dereg.
  - eapply pend_dereg; [exact Hd| |done|done]. intros c Hc Hcm. destruct (head_tail _ _ _ Hh Hc) as [->|]; [congruence|done].
  - by eapply reader_out.
Qed.

(** ** Verdicts *)

Lemma verify_slot (Q : ghost) (st : state) c p l :
  rd_version_ (rd_ st) = version -> slot version Q (reads_of (threads_ st)) (exits_of (threads_ st)) c p l ->
  exists i, threads_ st !! tls_info_ c = Some i /\
    (seq_ c = current_read_seq_ i /\ verify_context version c st = Some valid \/
     current_read_seq_ i < seq_ c /\ verify_context version c st = Some seq_pending).
Proof.
  intros Hv [Hc (r & Hr & Hle) _ _]. apply view_lookup in Hr as (i & Hi & <-). exists i. split; [done|].
  unfold verify_context. rewrite Hv, Hc, Z.eqb_refl, Hi. simpl. destruct (Z.eqb_spec (seq_ c) (current_read_seq_ i)); [by left|].
  right. assert (current_read_seq_ i < seq_ c) by lia. split; [done|]. by rewrite (proj2 (Z.ltb_lt _ _)).
Qed.

Lemma verify_bumped (st : state) c : rd_version_ (rd_ st) = version -> version_ c = u16 (version + 1) -> verify_context version c st = Some version_invalid.
Proof using Hversion.
  intros Hv Hc. unfold verify_context, is_version_valid. rewrite Hv, Hc.
  rewrite (proj2 (Z.eqb_neq _ _) (bumped_version version Hversion)).
  assert (u16 (version - u16 (version + 1)) = 2 ^ 16 - 1) as ->.
  { rewrite wrap_sub_r. replace (version - (version + 1)) with (-1) by lia. done. }
  rewrite Z.sub_diag. done.
Qed.

(** ** Oversize buffers *)

Lemma set_os_same (st : state) : set_os (os_ st) (os_next st) st = st.
Proof. by destruct st. Qed.

Lemma set_os_items_same (o : oversize) : set_os_items (os_items o) o = o.
Proof. by destruct o. Qed.

Definition first_at (items : list (context_head * A)) (s : Z) : option (context_head * A) :=
  match items with x :: _ => if seq_ x.1 =? s then Some x else None | [] => None end.

Lemma scan_items_spec parent items (st : state) :
  (forall x, x ∈ items -> version_ x.1 = version_ parent /\ seq_ parent <= seq_ x.1) ->
  scan_items version parent items st = Some (first_at items (seq_ parent), items).
Proof.
  intros Hx. destruct items as [|[c a] items]; [done|]. simpl. destruct (Hx (c, a)) as [Hv Hs]; [by left|]. simpl in *.
  unfold verify_oversize_context. rewrite Hv, Z.eqb_refl. rewrite (Z.eqb_sym (seq_ c)).
  destruct (Z.eqb_spec (seq_ parent) (seq_ c)); [done|]. by rewrite (proj2 (Z.ltb_lt _ _)) by lia.
Qed.

Lemma scan_buffers_spec parent os (st : state) :
  (forall o x, o ∈ os -> tls_info_ (os_context o) = tls_info_ parent -> x ∈ os_items o -> version_ x.1 = version_ parent /\ seq_ parent <= seq_ x.1) ->
  exists found, scan_buffers version parent os st = Some (found, os) /\
    match found with
    | Some (id, c, a) => exists o, o ∈ os /\ os_id o = id /\ head (os_items o) = Some (c, a) /\
        tls_info_ (os_context o) = tls_info_ parent /\ seq_ c = seq_ parent
    | None => forall o x, o ∈ os -> version_ (os_context o) = version_ parent -> tls_info_ (os_context o) = tls_info_ parent ->
        head (os_items o) = Some x -> seq_ x.1 <> seq_ parent
    end.
Proof.
  induction os as [|o os IH]; intros Hx; [exists None; split; [done|]; intros o x Ho; by apply not_elem_of_nil in Ho|].
  destruct IH as (found & E & Hf); [intros o' x Ho'; apply Hx; by right|]. simpl.
  assert (match found with
    | Some (id, c, a) => exists o', o' ∈ o :: os /\ os_id o' = id /\ head (os_items o') = Some (c, a) /\
        tls_info_ (os_context o') = tls_info_ parent /\ seq_ c = seq_ parent
    | None => True end) as Hf'.
  { destruct found as [[[id c] a]|]; [|done]. destruct Hf as (o' & Ho' & ?). exists o'. split; [by right|done]. }
  destruct (Z.eqb_spec (version_ (os_context o)) (version_ parent)) as [Ev|], (Nat.eqb_spec (tls_info_ (os_context o)) (tls_info_ parent)) as [Et|]; simpl.
  2-4: rewrite E; exists found; split; [done|]; destruct found as [[[id c] a]|]; [done|];
    intros o' x [->|Ho']%elem_of_cons ? ?; [done|by apply (Hf o')].
  rewrite scan_items_spec by (intros x; apply Hx; [by left|done]). simpl.
  destruct (first_at (os_items o) (seq_ parent)) as [[c a]|] eqn:Ef.
  - exists (Some (os_id o, c, a)). rewrite set_os_items_same. split; [done|]. exists o. unfold first_at in Ef.
    destruct (os_items o) as [|x l]; [done|]. destruct (Z.eqb_spec (seq_ x.1) (seq_ parent)) as [Es|]; [|done]. injection Ef as ->.
    split_and!; [by left|done..].
  - rewrite E. exists found. rewrite set_os_items_same. split; [done|]. destruct found as [[[id c] a]|]; [done|].
    intros o' x [->|Ho']%elem_of_cons Hv Ht Hh; [|by apply (Hf o')]. unfold first_at in Ef. destruct (os_items o) as [|y l]; [done|].
    injection Hh as ->. by destruct (Z.eqb_spec (seq_ x.1) (seq_ parent)).
Qed.

(** The chunk that a reference stands for is the first of its buffer. *)
Lemma oversize_found (Q : ghost) (R : gmap nat Z) X (lp : list lp_chunk) os next c0 (st : state) :
  os_inv version Q R X lp os next -> c0 ∈ lp -> version_ (lc_context c0) = version -> lc_committed c0 = true ->
  is_external_ref_ (lc_context c0) = true -> R !! tls_info_ (lc_context c0) = Some (seq_ (lc_context c0)) ->
  exists o c a, scan_buffers version (lc_context c0) os st = Some (Some (os_id o, c, a), os) /\ o ∈ os /\ head (os_items o) = Some (c, a) /\
    tls_info_ c = tls_info_ (lc_context c0) /\ seq_ c = seq_ (lc_context c0) /\ version_ c = version /\ is_thread_finished_ c = false.
Proof.
  intros Hos H0 Hv Hc He HR. set (t := tls_info_ (lc_context c0)) in *. set (s := seq_ (lc_context c0)) in *.
  assert (forall o x, o ∈ os -> tls_info_ (os_context o) = t -> x ∈ os_items o -> tls_info_ x.1 = t /\ version_ x.1 = version /\ s <= seq_ x.1) as Hitem.
  { intros o x Ho Ht Hx. destruct (o_items _ _ _ _ _ _ _ Hos o x Ho Hx) as [(_ & Hxt & _) (id & [Hxv (r & Hr & Hle) _ _])].
    rewrite <- Hxt, Ht, HR in Hr. injection Hr as <-. split_and!; [congruence|done|lia]. }
  destruct (scan_buffers_spec (lc_context c0) os st) as (found & E & Hf).
  { intros o x Ho Ht Hx. destruct (Hitem o x Ho Ht Hx) as (_ & -> & ?). by rewrite Hv. }
  destruct found as [[[id c] a]|].
  - destruct Hf as (o & Ho & <- & Hh & Ht & Hs). exists o, c, a. split_and!; try done.
    all: assert ((c, a) ∈ os_items o) as Hin by (destruct (os_items o); [done|injection Hh as ->; by left]).
    all: destruct (Hitem o (c, a) Ho Ht Hin) as (? & ? & _); try done.
    by destruct (o_items _ _ _ _ _ _ _ Hos o (c, a) Ho Hin) as [(_ & _ & ?) _].
  - exfalso. destruct (o_back _ _ _ _ _ _ _ Hos c0 H0 Hv Hc He) as (o & x & Ho & Hx & Ht & Hs).
    destruct (o_items _ _ _ _ _ _ _ Hos o x Ho Hx) as [(Hov & Hot & _) _].
    apply list_elem_of_lookup in Hx as [j Hj]. destruct j as [|j].
    + apply (Hf o x Ho); [congruence|by rewrite Hot|by destruct (os_items o)|done].
    + destruct (os_items o) as [|y l] eqn:El; [done|].
      assert (seq_ y.1 < seq_ x.1) as Hlt by (apply (o_sorted _ _ _ _ _ _ _ Hos o 0 (S j) y x Ho); [by rewrite El|by rewrite El|lia]).
      destruct (Hitem o y Ho) as (_ & _ & ?); [by rewrite Hot|rewrite El; by left|]. lia.
Qed.

(** ** Recycling *)

Lemma erase_replace_perm n (os : list oversize) o : os !! n = Some o -> os ≡ₚ erase_replace n os ++ [o].
Proof.
  intros Hn. unfold erase_replace. destruct (last os) as [o'|] eqn:El; [|by apply last_None in El as ->].
  apply last_Some in El as (os0 & ->). destruct (Nat.eqb_spec (S n) (length (os0 ++ [o']))) as [E|E]; rewrite length_app in E; simpl in E.
  - assert (n = length os0) as -> by lia. rewrite list_lookup_middle in Hn by done. injection Hn as ->. by rewrite take_app_length.
  - pose proof (lookup_lt_Some _ _ _ Hn) as Hlt. rewrite length_app in Hlt |- *. simpl in *.
    rewrite lookup_app_l in Hn by lia. rewrite insert_app_l by lia. replace (length os0 + 1 - 1)%nat with (length (<[n := o']> os0)) by (rewrite length_insert; lia).
    rewrite take_app_length. rewrite <- (take_drop_middle os0 n o Hn) at 1. rewrite (insert_take_drop os0) by lia.
    solve_Permutation.
Qed.

(** Empty buffers that nobody uses are gone, the others stay as they are. *)
Definition recycled (os os' : list oversize) : Prop :=
  exists gone, os ≡ₚ os' ++ gone /\ forall o, o ∈ gone -> os_items o = [] /\ os_locked o = false.

Lemma recycled_refl os : recycled os os.
Proof. exists []. rewrite app_nil_r. split; [done|]. intros o Ho. by apply not_elem_of_nil in Ho. Qed.

Lemma recycle_items_spec (Q : ghost) (R : gmap nat Z) X (lp : list lp_chunk) os next o (st : state) :
  R = reads_of (threads_ st) -> X = exits_of (threads_ st) -> rd_version_ (rd_ st) = version ->
  os_inv version Q R X lp os next -> o ∈ os ->
  recycle_items version (os_items o) st = Some (bool_decide (os_items o = []), os_items o).
Proof.
  intros -> -> Hv Hos Ho. destruct (os_items o) as [|[c a] l] eqn:E; [done|]. simpl.
  destruct (o_items _ _ _ _ _ _ _ Hos o (c, a) Ho) as [_ (id & Hs)]; [rewrite E; by left|].
  destruct (verify_slot _ _ _ _ _ Hv Hs) as (i & _ & [[_ Ev]|[_ Ev]]); simpl in Ev; by rewrite Ev.
Qed.

Lemma recycle_from_spec (Q : ghost) (lp : list lp_chunk) os0 next n os (st : state) :
  rd_version_ (rd_ st) = version -> os_inv version Q (reads_of (threads_ st)) (exits_of (threads_ st)) lp os0 next ->
  recycled os0 os -> (n <= length os)%nat -> exists os', recycle_from version n os st = Some os' /\ recycled os0 os'.
Proof.
  intros Hv Hos. revert os. induction n as [|n IH]; intros os Hr Hn; [by exists os|]. simpl.
  destruct (lookup_lt_is_Some_2 os n) as [o Ho]; [lia|]. rewrite Ho. simpl.
  destruct (decide _); [apply IH; [done|lia]|]. destruct (os_locked o) eqn:El; [apply IH; [done|lia]|].
  destruct Hr as (gone & Hp & Hg).
  assert (o ∈ os0) as Hin by (rewrite Hp; apply elem_of_app; left; by eapply list_elem_of_lookup_2).
  rewrite (recycle_items_spec Q _ _ lp os0 next o st) by done. simpl. destruct (bool_decide_reflect (os_items o = [])) as [Ei|].
  - pose proof (erase_replace_perm n os o Ho) as Hep. apply IH.
    + exists (o :: gone). split; [etrans; [exact Hp|]; etrans; [apply Permutation_app_tail, Hep|]; by rewrite <- app_assoc|]. intros o' [->|Ho']%elem_of_cons; [done|by apply Hg].
    + apply Permutation_length in Hep. rewrite length_app in Hep. simpl in Hep. lia.
  - rewrite set_os_items_same, list_insert_id by done. apply IH; [by exists gone|lia].
Qed.

Lemma os_inv_recycled (Q : ghost) (R : gmap nat Z) X (lp : list lp_chunk) os os' next :
  recycled os os' -> os_inv version Q R X lp os next -> os_inv version Q R X lp os' next.
Proof.
  intros (gone & Hp & Hg) [H1 H2 H3 H4 H5 H6].
  assert (forall o, o ∈ os' -> o ∈ os) as Hsub by (intros o Ho; rewrite Hp; apply elem_of_app; by left).
  split.
  - rewrite Hp, fmap_app in H1. by apply NoDup_app in H1 as (? & _).
  - auto.
  - auto.
  - intros o i j x y Ho. by apply H4, Hsub.
  - intros o o1 x y Ho Ho1. apply H5; by apply Hsub.
  - intros c Hc Hv Hcm He. destruct (H6 c Hc Hv Hcm He) as (o & x & Ho & Hx & ?). exists o, x. split; [|done].
    rewrite Hp, elem_of_app in Ho. destruct Ho as [|Ho]; [done|]. destruct (Hg o Ho) as [E _]. rewrite E in Hx. by apply not_elem_of_nil in Hx.
Qed.

Lemma recycle_ok (Q : ghost) st pend now rl wl :
  inv None Q st pend Running ->
  exists st', rt_recycle_oversize_buffers version now rl wl st = Some st' /\ inv None Q st' pend Running /\ threads_ st' = threads_ st.
Proof.
  intros Hi. unfold rt_recycle_oversize_buffers. destruct (bool_decide _); [by exists st|]. destruct (_ && _); [|by exists st].
  destruct (recycle_from_spec Q (lp_ st) (os_ st) (os_next st) (length (os_ st)) (os_ st) st) as (os' & -> & Hr);
    [by apply (r_version _ _ _ _ _ (v_reader _ _ _ _ _ _ _ Hi))|apply Hi|apply recycled_refl|done|].
  simpl. eexists. split; [done|]. split; [|done]. destruct Hi as [Hlp Hblk Hbk Hth Hcu Hpd Hos Hgr Hrd Hctl]. constructor; simpl; try done.
  - intros t h Hh. destruct (Hpd t h Hh) as [Hx Hs]. split; [done|]. intros Hsc. specialize (Hs Hsc). destruct (h_at h); try done.
    destruct Hs as (? & p & o & ? & ? & Ho & Hid & Hov & Hot & Hlk). split; [done|]. exists p, o. split_and!; try done.
    destruct Hr as (gone & Hp & Hg). rewrite Hp, elem_of_app in Ho. destruct Ho as [|Ho]; [done|]. destruct (Hg o Ho) as [_ E]. congruence.
  - by eapply os_inv_recycled.
Qed.

(** ** A turn on the shared ring *)

Lemma deregister_eq (st : state) c i : rd_version_ (rd_ st) = version -> version_ c = version -> threads_ st !! tls_info_ c = Some i ->
  deregister_seq version c st = refresh (set_threads (deregistered c i (threads_ st)) st).
Proof. intros Hv Hc Hi. unfold deregister_seq. rewrite Hv, Hc, !Z.eqb_refl, Hi. done. Qed.

Lemma os_inv_pop (Q : ghost) (R : gmap nat Z) X (lp : list lp_chunk) os next (c0 : lp_chunk) p l (Q' : ghost) (R' : gmap nat Z) X' :
  os_inv version Q R X lp os next -> slot version Q R X (lc_context c0) (P_lp p false) l ->
  pres version (not_at (tls_info_ (lc_context c0)) (seq_ (lc_context c0))) Q R X Q' R' X' -> os_inv version Q' R' X' (tail lp) os next.
Proof.
  intros Hos Hs Hpres. assert (os_inv version Q' R' X' lp os next) as [H1 H2 H3 H4 H5 H6].
  { eapply os_inv_pres; [exact Hpres| |done]. intros o x Ho Hx [Ht Hq]. destruct (o_items _ _ _ _ _ _ _ Hos o x Ho Hx) as [_ (id & Hs')].
    by destruct (slot_inj _ _ _ _ _ _ _ _ _ _ Hs Hs') as [[=] _]. }
  split; try done. intros c Hc. apply H6. destruct lp; [done|by right].
Qed.

(** The state of the reader in the shared ring. *)
Lemma in_ring (Q : ghost) st pend ctl : inv None Q st pend ctl -> state_ (rd_ st) = lp_buffer_reading ->
  cur_group_ (rd_ st) = None /\ rd_block_ (rd_ st) = None /\ last_block_ (rd_ st) = None /\ rd_version_ (rd_ st) = version /\ hp_success (rd_ st) = false.
Proof.
  intros Hi Hst. destruct (v_reader _ _ _ _ _ _ _ Hi) as [H1 _ _ H4 _ _ H7]. unfold position in H4. rewrite Hst in H4.
  destruct H4 as (? & ? & ?). split_and!; try done. destruct (hp_success (rd_ st)); [congruence|done].
Qed.

Lemma head_in {B} (l : list B) x : head l = Some x -> x ∈ l.
Proof. destruct l; [done|]. intros [= ->]. by left. Qed.

(** The first chunk and its number are gone. *)
Lemma pop_ok (Q : ghost) st pend ctl ctl' c0 c i l os' :
  inv None Q st pend ctl -> state_ (rd_ st) = lp_buffer_reading -> head (lp_ st) = Some c0 -> lc_committed c0 = true ->
  version_ (lc_context c0) = version -> version_ c = version -> tls_info_ c = tls_info_ (lc_context c0) -> seq_ c = seq_ (lc_context c0) ->
  is_thread_finished_ c = is_thread_finished_ (lc_context c0) ->
  threads_ st !! tls_info_ c = Some i -> seq_ c = current_read_seq_ i ->
  slot version Q (reads_of (threads_ st)) (exits_of (threads_ st)) (lc_context c0) (lp_place c0) l ->
  (forall Q' ths', dereg Q (threads_ st) Q' ths' (tls_info_ c) (seq_ c) l -> os_inv version Q' (reads_of ths') (exits_of ths') (tail (lp_ st)) os' (os_next st)) ->
  (forall o, o ∈ os_ st -> exists o', o' ∈ os' /\ os_id o' = os_id o /\ os_context o' = os_context o /\ os_locked o' = os_locked o) ->
  (ctl' = Running \/ ctl' = Idle) ->
  exists st1 Q', deregister_seq version c st = Some st1 /\ inv None Q' (set_lp (tail (lp_ st1)) (set_os os' (os_next st1) st1)) pend ctl' /\ rd_ st1 = set_end (traverse_end_block_is_working_ (rd_ st1)) (traverse_end_block_ (rd_ st1)) (rd_ st) /\
    lp_ st1 = lp_ st /\ os_ st1 = os_ st /\
    forall u, rest_of Q (reads_of (threads_ st)) u = (if decide (u = tls_info_ c) then l else []) ++ rest_of Q' (reads_of (threads_ st1)) u.
Proof.
  intros Hi Hst Hh Hcm Hv Hvc Ht Hs Hf Hti Hsi Hsl Hos Hoo Hctl. destruct (in_ring _ _ _ _ Hi Hst) as (Hg & Hb & Hl & Hrv & Hhp).
  assert (slot version Q (reads_of (threads_ st)) (exits_of (threads_ st)) c (lp_place c0) l) as Hslc.
  { apply (slot_finish _ _ _ _ (lc_context c0)); try congruence. intros Hfc. apply (s_last _ _ _ _ _ _ _ Hsl). congruence. }
  pose proof (dereg_slot Q (threads_ st) c _ l i (v_thread _ _ _ _ _ _ _ Hi) Hti Hsi Hslc) as Hd.
  rewrite (deregister_eq st c i) by done.
  destruct (refresh_some (set_threads (deregistered c i (threads_ st)) st)) as (w & b & ->); [by right|].
  eexists _, _. split; [done|]. split; [|split_and!; [done..|apply Hd]].
  apply (inv_end None _ (set_lp (tail (lp_ st)) (set_os os' (os_next st) (set_threads (deregistered c i (threads_ st)) st))) pend ctl' w b).
  eapply (inv_pop _ _ _ _ _ _ l); [exact Hi|exact Hh|done|done| |by apply Hos|done|done|].
  - by rewrite <- Ht, <- Hs.
  - destruct Hctl as [-> | ->]; simpl; auto.
Qed.

(** The oversize buffers when the chunk that is read has none. *)
Lemma plain_os (Q : ghost) st pend ctl (c0 : lp_chunk) l :
  inv None Q st pend ctl -> is_external_ref_ (lc_context c0) = false ->
  slot version Q (reads_of (threads_ st)) (exits_of (threads_ st)) (lc_context c0) (lp_place c0) l ->
  forall Q' ths', dereg Q (threads_ st) Q' ths' (tls_info_ (lc_context c0)) (seq_ (lc_context c0)) l ->
  os_inv version Q' (reads_of ths') (exits_of ths') (tail (lp_ st)) (os_ st) (os_next st).
Proof.
  intros Hi He Hs Q' ths' Hd. unfold lp_place in Hs. rewrite He in Hs. eapply os_inv_pop; [apply Hi|exact Hs|apply Hd].
Qed.

(** A chunk that was given up. *)
Lemma inv_drop (Q : ghost) st pend c0 :
  inv None Q st pend Running -> head (lp_ st) = Some c0 -> version_ (lc_context c0) = u16 (version + 1) ->
  inv None Q (pop_lp st) pend Running.
Proof using Hversion.
  intros [Hlp Hblk Hbk Hth Hcu Hpd Hos Hgr Hrd Hctl] Hh Hv. pose proof (bumped_version version Hversion) as Hne.
  assert (forall c, c ∈ lp_ st -> version_ (lc_context c) = version -> c ∈ tail (lp_ st)) as Htail.
  { intros c Hc Hvc. destruct (head_tail _ _ _ Hh Hc) as [->|]; [congruence|done]. }
  assert (forall c, c ∈ tail (lp_ st) -> c ∈ lp_ st) as Hsub by (intros c; destruct (lp_ st); [done|by right]).
  constructor; simpl; try done.
  - destruct Hlp as [H1 H2 H3 H4]. split; auto. clear - H1. destruct (lp_ st); [done|]. rewrite fmap_cons in H1. by apply NoDup_cons in H1 as [_ ?].
  - intros t r j p l HR Hj HQ. specialize (Hbk t r j p l HR Hj HQ). destruct p; [|done]. destruct Hbk as (c & Hc & Hid & Hvc & ?).
    exists c. split; [by apply Htail|done].
  - intros t h Hh'. destruct (Hpd t h Hh') as [Hx Hs]. split; [done|]. intros Hsc. specialize (Hs Hsc).
    assert (forall id e, lp_pending version (lp_ st) (writes_of (threads_ st)) t id e -> lp_pending version (tail (lp_ st)) (writes_of (threads_ st)) t id e) as Hp.
    { intros id e (c & Hc & Hid & Hcm & Hvc & ?). exists c. split; [by apply Htail|done]. }
    destruct (h_at h); try done; [split; [apply Hs|apply Hp, Hs]|]. destruct Hs as (? & p & o & ? & ? & ?). split; [done|]. exists p, o. auto.
  - destruct Hos as [H1 H2 H3 H4 H5 H6]. split; auto.
Qed.

Lemma read_lp_ok (Q : ghost) st pend :
  inv None Q st pend Running -> state_ (rd_ st) = lp_buffer_reading ->
  exists o again st' Q', rt_read_from_lp_buffer version st = Some (o, again, st') /\ inv None Q' st' pend (reads o) /\ same_rest Q st Q' st' /\
    state_ (rd_ st') = lp_buffer_reading.
Proof using Hversion.
  intros Hi Hst. destruct (in_ring _ _ _ _ Hi Hst) as (Hg & Hb & Hl & Hrv & Hhp). unfold rt_read_from_lp_buffer.
  destruct (lp_ st) as [|c0 lp] eqn:El; [by exists None, false, st, Q|]. destruct (lc_committed c0) eqn:Hcm; [|by exists None, false, st, Q].
  assert (head (lp_ st) = Some c0) as Hh by (by rewrite El).
  assert (c0 ∈ lp_ st) as H0 by (by apply head_in).
  destruct (l_version _ _ _ _ _ _ (v_lp _ _ _ _ _ _ _ Hi) c0 H0) as [Hv|Hv].
  2: { rewrite (verify_bumped st) by done. cbn [mbind option_bind]. exists None, true, (pop_lp st), Q.
       split_and!; [done|by eapply inv_drop|done|done]. }
  destruct (l_slot _ _ _ _ _ _ (v_lp _ _ _ _ _ _ _ Hi) c0 H0 Hv) as (l & Hs & Hhas). unfold lp_has in Hhas. rewrite Hcm in Hhas.
  destruct (verify_slot Q st _ _ _ Hrv Hs) as (i & Hti & [[Hsq ->]|[Hsq ->]]); cbn [mbind option_bind]; [|by exists None, false, st, Q].
  assert (reads_of (threads_ st) !! tls_info_ (lc_context c0) = Some (seq_ (lc_context c0))) as HR by (apply view_lookup; by exists i).
  destruct (is_external_ref_ (lc_context c0)) eqn:He.
  - destruct Hhas as (Hf & a & ->). rewrite Hf. unfold rt_read_oversize_chunk.
    destruct (oversize_found Q _ _ _ _ _ c0 (map_rd (fun r => set_rt_oversize (Some (lc_id c0)) (rt_oversize_target_buffer_ r) r) st)
                (v_os _ _ _ _ _ _ _ Hi) H0 Hv Hcm He HR) as (o & c & a' & E & Ho & Hh' & Ht' & Hs' & Hv' & Hf').
    simpl os_ at 1. rewrite E. cbn [mbind option_bind]. eexists _, _, _, Q. split; [done|]. split_and!; [|done|done].
    eapply (inv_rd _ _ st); [done|by split; try apply Hi| |done]. simpl. rewrite Ht', Hs'. split_and!; try done; [by exists o|]. by exists c0.
  - destruct (is_thread_finished_ (lc_context c0)) eqn:Hf.
    + subst l. destruct (pop_ok Q st pend Running Running c0 (lc_context c0) i [] (os_ st)) as (st1 & Q' & -> & Hi' & Hrd & Hlp & Hos & Hrest); try done.
      { by apply (plain_os Q st pend Running). }
      { intros o Ho. by exists o. }
      { by left. }
      cbn [mbind option_bind]. exists None, true, (pop_lp st1), Q'. split; [done|]. rewrite <- Hos, set_os_same in Hi'. split; [done|]. split.
      * intros u. rewrite Hrest. simpl. by destruct (decide _).
      * simpl. by rewrite Hrd.
    + destruct Hhas as (a & Ha & ->). rewrite Ha. cbn [mbind option_bind]. eexists _, _, st, Q. split; [done|].
      split; [|done].
      eapply inv_control; [done| |done]. simpl. rewrite El. split_and!; try done. destruct c0. simpl in *. by subst.
Qed.

(** What a turn keeps: nothing fails, and nothing of what there is to read changes. *)
Definition turn_ok (Q : ghost) (st : state) (pend : gmap nat handle) (r : option (option output * state)) : Prop :=
  exists o st' Q', r = Some (o, st') /\ inv None Q' st' pend (reads o) /\ same_rest Q st Q' st'.

Lemma turn_lp_ok (Q : ghost) st pend now rl wl :
  inv None Q st pend Running -> state_ (rd_ st) = lp_buffer_reading -> turn_ok Q st pend (turn_lp_buffer_reading version now rl wl st).
Proof using Hversion.
  intros Hi Hst. destruct (read_lp_ok Q st pend Hi Hst) as (o & again & st1 & Q1 & E & Hi1 & Hr1 & Hst1).
  unfold turn_lp_buffer_reading. rewrite E. cbn [mbind option_bind]. destruct o as [o|]; [by eexists _, _, Q1|].
  destruct again; [by eexists _, _, Q1|]. destruct (in_ring _ _ _ _ Hi1 Hst1) as (Hg & Hb & Hl & Hrv & Hhp).
  destruct (recycle_ok Q1 (map_rd (set_state next_group_finding) st1) pend now rl wl) as (st2 & -> & Hi2 & Hths).
  { eapply inv_rd; [done| |done|done]. pose proof (v_reader _ _ _ _ _ _ _ Hi1) as Hrd.
    pose proof (out_verify _ _ _ _ Hrd Hb) as Hvr. destruct Hrd as [H1 H2 H3 H4 H5 H6 H7]. split; simpl; try done.
    - split; [by left|done].
    - rewrite Hhp in *. done. }
  cbn [mbind option_bind]. eexists _, _, Q1. split; [done|]. split; [done|]. intros u. by rewrite Hths.
Qed.

(** ** Blocks *)

(** The chunks of a block move between it and the reader's batch. *)
Lemma inv_batch (Q : ghost) st pend ctl ctl' b k f r :
  inv None Q st pend ctl -> live (groups_ st) b -> blocks_ st !! b = Some k ->
  bk_context (f k) = bk_context k -> is_removed (f k) = is_removed k ->
  (forall b', batch_part r ctl' b' ++ (if decide (b' = b) then bk_items (f k) else []) = batch_part (rd_ st) ctl b' ++ (if decide (b' = b) then bk_items k else [])) ->
  reader_inv version r (groups_ st) (alter f b (blocks_ st)) (reads_of (threads_ st)) ->
  control_inv version ctl' r (lp_ st) (os_ st) (reads_of (threads_ st)) ->
  inv None Q (set_rd r (update_block f b st)) pend ctl'.
Proof.
  intros [Hlp Hblk Hbk Hth Hcu Hpd Hos Hgr Hrd Hctl] Hl Hk Hc Hr Hpart Hrd' Hctl'.
  assert (forall b' k0, blocks_ st !! b' = Some k0 -> b' <> b -> alter f b (blocks_ st) !! b' = Some k0) as Hne
    by (intros b' k0 Hk0 Hn; by rewrite lookup_alter_ne).
  assert (alter f b (blocks_ st) !! b = Some (f k)) as Heq by (by rewrite lookup_alter_eq, Hk).
  constructor; simpl; try done.
  - intros b' Hl'. destruct (Hblk b' Hl') as (k0 & Hk0 & Hs & Hf). specialize (Hpart b'). destruct (decide (b' = b)) as [->|Hn].
    + assert (k0 = k) as -> by congruence. exists (f k). rewrite Heq, Hc, Hr, Hpart. done.
    + exists k0. rewrite !app_nil_r in Hpart. rewrite (Hne b' k0), Hpart by done. done.
  - eapply back_blocks; [|done]. intros b' k0 Hk0. destruct (decide (b' = b)) as [->|Hn]; [|exists k0; by rewrite (Hne b' k0)].
    assert (k0 = k) as -> by congruence. exists (f k). by rewrite Heq, Hc.
  - intros t b' Hb' Hn. destruct (Hcu t b' Hb' Hn) as (Hx & Hl' & k0 & Hk0 & ?). split_and!; [done|done|].
    destruct (decide (b' = b)) as [->|]; [|exists k0; by rewrite (Hne b' k0)].
    assert (k0 = k) as -> by congruence. exists (f k). by rewrite Heq, Hc, Hr.
Qed.

(** The reader at a block it may read. *)
Lemma at_valid (Q : ghost) st pend ctl : inv None Q st pend ctl -> at_block (rd_ st) (groups_ st) -> verify_result_ (rd_ st) = valid ->
  exists b k, rd_block_ (rd_ st) = Some b /\ live (groups_ st) b /\ blocks_ st !! b = Some k /\
    reads_of (threads_ st) !! tls_info_ (bk_context k) = Some (seq_ (bk_context k)) /\
    slot version Q (reads_of (threads_ st)) (exits_of (threads_ st)) (bk_context k) (P_block b) (in_batch (rd_ st) ctl ++ bk_items k).
Proof.
  intros Hi _ Hv. destruct (r_verified _ _ _ _ _ (v_reader _ _ _ _ _ _ _ Hi) Hv) as (b & k & Hb & Hk & HR & _).
  pose proof (reader_live _ _ _ _ _ _ (v_reader _ _ _ _ _ _ _ Hi) Hb) as Hl. exists b, k.
  destruct (v_block _ _ _ _ _ _ _ Hi b Hl) as (k' & Hk' & Hs & _). assert (k' = k) as -> by congruence.
  split_and!; try done. unfold batch_part in Hs. by rewrite decide_True in Hs.
Qed.

Lemma turn_hp_ok (Q : ghost) st pend :
  inv None Q st pend Running -> state_ (rd_ st) = hp_block_reading -> turn_ok Q st pend (turn_hp_block_reading st).
Proof.
  intros Hi Hst. pose proof (v_reader _ _ _ _ _ _ _ Hi) as Hrd. pose proof (r_position _ _ _ _ _ Hrd) as Hp. unfold position in Hp. rewrite Hst in Hp.
  destruct Hp as [Hat Hv]. pose proof (v_control _ _ _ _ _ _ _ Hi) as Hhp. simpl in Hhp.
  pose proof (r_batch _ _ _ _ _ Hrd) as Hrest. rewrite Hhp in Hrest.
  destruct (at_valid _ _ _ _ Hi Hat Hv) as (b & k & Hb & Hl & Hk & HR & Hs). unfold turn_hp_block_reading. rewrite Hb. cbn [mbind option_bind].
  rewrite Hk. cbn [mbind option_bind]. destruct (bk_items k) as [|a l] eqn:Ei.
  - eexists _, _, Q. split; [done|]. split; [|done]. eapply inv_rd; [done| |done|].
    + destruct Hrd as [H1 H2 H3 H4 H5 H6 H7]. split; simpl; try done; [by left|]. intros Hval. destruct (H6 Hval) as (b' & k' & ? & ? & ? & Hm).
      exists b', k'. split_and!; try done. intros Hmk. destruct (Hm Hmk). split; [done|]. intros _. congruence.
    + intros b'. unfold batch_part, in_batch. simpl. by rewrite Hrest.
  - eexists _, _, Q. split; [done|]. split; [|done].
    apply (inv_batch Q st pend Running _ b k (set_items []) (set_batch true l (rd_ st))); try done.
    + intros b'. unfold batch_part, in_batch. simpl. rewrite Hb, Hrest, Ei. destruct (decide (Some b = Some b')) as [[= <-]|Hn].
      * rewrite !decide_True by done. simpl. by rewrite app_nil_r.
      * by rewrite !decide_False by congruence.
    + destruct Hrd as [H1 H2 H3 H4 H5 H6 H7]. split; simpl; try done. intros _. exists b, (set_items [] k).
      rewrite lookup_alter_eq, Hk. split_and!; try done. intros Hmk. destruct (H6 Hv) as (b' & k' & ? & ? & _ & Hm).
      destruct (Hm Hmk) as [Hrm _]. split; [|congruence]. simpl. congruence.
Qed.

Lemma turn_completed_ok (Q : ghost) st pend :
  inv None Q st pend Running -> state_ (rd_ st) = traversal_completed -> turn_ok Q st pend (turn_traversal_completed st).
Proof.
  intros Hi Hst. pose proof (v_reader _ _ _ _ _ _ _ Hi) as Hrd. pose proof (r_position _ _ _ _ _ Hrd) as Hp. unfold position in Hp. rewrite Hst in Hp.
  pose proof (v_control _ _ _ _ _ _ _ Hi) as Hhp. simpl in Hhp.
  eexists _, _, Q. split; [done|]. split; [|done]. eapply inv_rd; [done| |simpl; destruct (rd_block_ (rd_ st)); auto|done].
  destruct Hrd as [H1 H2 H3 H4 H5 H6 H7]. rewrite Hhp in H7.
  assert (position (set_state (match rd_block_ (rd_ st) with Some _ => hp_block_reading | None => lp_buffer_reading end) (rd_ st)) (groups_ st)) as Hp'.
  { destruct Hp as [(Hg & Hb & Hl)|[Hat Hv]]; [by rewrite Hb|].
    pose proof Hat as (xs & G & ys & pre & i & post & _ & _ & _ & _ & Hb & _). by rewrite Hb. }
  split; simpl; try done.
  - intros Hval. destruct (H6 Hval) as (b & k & Hb & Hk & HR & Hm). exists b, k. split_and!; try done.
    intros Hmk. destruct (Hm Hmk) as [? _]. split; [done|]. by rewrite Hb.
  - by rewrite Hhp.
Qed.

(** ** The calls of the reader *)

Lemma read_chunk_ok (Q : ghost) st pend : inv None Q st pend Idle -> turn_ok Q st pend (read_chunk st).
Proof.
  intros Hi. pose proof (v_reader _ _ _ _ _ _ _ Hi) as Hrd. pose proof (v_control _ _ _ _ _ _ _ Hi) as Hst. simpl in Hst.
  pose proof (r_position _ _ _ _ _ Hrd) as Hp. pose proof (r_batch _ _ _ _ _ Hrd) as Hbt. unfold read_chunk.
  assert (hp_rest (rd_ st) = [] -> turn_ok Q st pend (st ← refresh (map_rd (set_batch false []) st); Some (None, st))) as Hfull.
  { intros Hrest. assert (inv None Q (map_rd (set_batch false []) st) pend Running) as Hi1.
    { eapply inv_rd; [done|destruct Hrd; by split|done|]. intros b. unfold batch_part, in_batch. simpl. by rewrite Hrest. }
    destruct (refresh_some (map_rd (set_batch false []) st)) as (w & b & ->).
    { simpl. unfold position in Hp. destruct Hst as [Es|Es]; rewrite Es in Hp; [right; apply Hp|left].
      eapply at_block_apart; [|apply Hp]. intros g. eapply used_NoDup. apply Hi. }
    cbn [mbind option_bind]. eexists _, _, Q. split; [done|]. split; [|done]. by apply (inv_end None Q (map_rd (set_batch false []) st)). }
  destruct (hp_success (rd_ st)) eqn:Hhp; [|by apply Hfull].
  destruct (hp_rest (rd_ st)) as [|a l] eqn:Hrest; [by apply Hfull|].
  unfold position in Hp. rewrite Hbt in Hp. destruct Hp as [(xs & G & ys & pre & i & post & _ & _ & _ & _ & Hb & _) _].
  rewrite Hb. cbn [mbind option_bind]. eexists _, _, Q. split; [done|]. split; [|done].
  eapply inv_rd; [done|destruct Hrd; split; try done|done|].
  intros b. unfold batch_part, in_batch. simpl. by rewrite Hrest.
Qed.

(** The first chunk of an oversize buffer and the reference to it are gone. *)
Lemma os_inv_take (Q : ghost) (R : gmap nat Z) X (lp : list lp_chunk) os next c0 o0 x0 (Q' : ghost) (R' : gmap nat Z) X' :
  os_inv version Q R X lp os next -> NoDup (lc_id <$> lp) -> head lp = Some c0 -> o0 ∈ os -> head (os_items o0) = Some x0 ->
  tls_info_ x0.1 = tls_info_ (lc_context c0) -> seq_ x0.1 = seq_ (lc_context c0) ->
  (forall c, c ∈ tail lp -> version_ (lc_context c) = version -> not_at (tls_info_ (lc_context c0)) (seq_ (lc_context c0)) (lc_context c)) ->
  pres version (not_at (tls_info_ (lc_context c0)) (seq_ (lc_context c0))) Q R X Q' R' X' ->
  os_inv version Q' R' X' (tail lp) (set_by os_id (fun o => set_os_items (tail (os_items o)) o) (os_id o0) os) next.
Proof.
  intros Hos Hnd Hh Ho0 Hx0 Ht0 Hs0 Hlp Hpres. pose proof Hos as [H1 H2 H3 H4 H5 H6].
  set (f := fun o : oversize => set_os_items (tail (os_items o)) o).
  assert (forall o, o ∈ set_by os_id f (os_id o0) os <-> o = f o0 \/ o ∈ os /\ os_id o <> os_id o0) as Hel by (intros o; by apply set_by_elem).
  assert (exists l, os_items o0 = x0 :: l) as (l & El) by (destruct (os_items o0) as [|y l]; [done|injection Hx0 as ->; by exists l]).
  assert (forall o x, o ∈ set_by os_id f (os_id o0) os -> x ∈ os_items o ->
            not_at (tls_info_ (lc_context c0)) (seq_ (lc_context c0)) x.1 /\
            exists o1, o1 ∈ os /\ os_id o1 = os_id o /\ os_context o1 = os_context o /\ x ∈ os_items o1) as Hsub.
  { intros o x [->|[Ho Hn]]%Hel Hx.
    - simpl in Hx. rewrite El in Hx. simpl in Hx. split; [|exists o0; rewrite El; split_and!; [done..|by right]].
      intros [_ Hq]. apply list_elem_of_lookup in Hx as [j Hj].
      pose proof (H4 o0 0%nat (S j) x0 x Ho0) as Hlt. rewrite El in Hlt. specialize (Hlt eq_refl Hj ltac:(lia)). lia.
    - split; [|by exists o]. intros [Ht Hq]. apply Hn. apply (H5 o o0 x x0); try done; [by apply head_in|congruence|congruence]. }
  split.
  - by rewrite set_by_keys.
  - intros o [->|[Ho _]]%Hel; [by apply (H2 o0)|by apply H2].
  - intros o x Ho Hx. destruct (Hsub o x Ho Hx) as (Hna & o1 & Ho1 & _ & Hc & Hx1). destruct (H3 o1 x Ho1 Hx1) as [Hcx (id & Hs)].
    split; [by rewrite <- Hc|]. exists id. by apply Hpres.
  - intros o i j x y [->|[Ho _]]%Hel Hi Hj Hij; [|by eapply H4]. simpl in Hi, Hj. rewrite El in Hi, Hj. simpl in Hi, Hj.
    apply (H4 o0 (S i) (S j)); [done|by rewrite El|by rewrite El|lia].
  - intros o o' x x' Ho Ho' Hx Hx' Ht Hq. destruct (Hsub o x Ho Hx) as (_ & o1 & ? & <- & _ & ?), (Hsub o' x' Ho' Hx') as (_ & o1' & ? & <- & _ & ?).
    by eapply H5.
  - intros c Hc Hv Hcm He. assert (c ∈ lp) as Hc' by (destruct lp; [done|by right]).
    destruct (H6 c Hc' Hv Hcm He) as (o & x & Ho & Hx & Ht & Hq). destruct (decide (os_id o = os_id o0)) as [E|].
    + assert (o = o0) as -> by by eapply (key_inj os_id). exists (f o0), x. split; [apply Hel; by left|]. split; [|done].
      simpl. rewrite El in Hx |- *. apply elem_of_cons in Hx as [->|Hx]; [|done]. exfalso. apply (Hlp c Hc Hv). split; congruence.
    + exists o, x. split; [apply Hel; by right|done].
Qed.

(** The handed out chunk of a block is returned. *)
Lemma inv_return_block (Q : ghost) st pend b a k :
  inv None Q st pend (Holding (Out_block b a)) -> live (groups_ st) b -> blocks_ st !! b = Some k ->
  inv None (refill Q (tls_info_ (bk_context k)) (Z.to_nat (seq_ (bk_context k))) (hp_rest (rd_ st) ++ bk_items k)) st pend Idle.
Proof.
  intros [Hlp Hblk Hbk Hth Hcu Hpd Hos Hgr Hrd Hctl] Hl Hk. destruct Hctl as [Hhp Hb].
  destruct (Hblk b Hl) as (k' & Hk' & Hs & _). assert (k' = k) as -> by congruence.
  pose proof (r_batch _ _ _ _ _ Hrd) as Hst. rewrite Hhp in Hst. constructor; try done.
  - by eapply block_refill_lp.
  - pose proof (block_inv_set version Q _ _ (blocks_ st) _ _ (batch_part (rd_ st) Idle) b k (fun k => k) Hblk Hl Hk eq_refl eq_refl) as Hset.
    assert (batch_part (rd_ st) Idle b = hp_rest (rd_ st)) as E by (unfold batch_part; by rewrite decide_True). rewrite E in Hset.
    rewrite alter_id in Hset by done. apply Hset. intros b' Hn. by rewrite !batch_part_other by congruence.
  - by apply back_refill.
  - by apply thread_refill.
  - by eapply block_refill_os.
  - by right.
Qed.

Lemma owned_single (t u : nat) (a : A) : owned_by u [(t, a)] = if decide (u = t) then [a] else [].
Proof.
  unfold owned_by. rewrite filter_cons. simpl. destruct (decide (u = t)) as [->|]; [by rewrite decide_True|by rewrite decide_False].
Qed.

(** A chunk of the shared ring is returned. *)
Lemma return_lp_ok (Q : ghost) st pend id c a : inv None Q st pend (Holding (Out_lp id c a)) ->
  exists st' Q', return_read_chunk version (Out_lp id c a) st = Some st' /\ inv None Q' st' pend Idle /\
    forall u, rest_of Q (reads_of (threads_ st)) u = owned_by u (chunk_of (Out_lp id c a) st) ++ rest_of Q' (reads_of (threads_ st')) u.
Proof.
  intros Hi. pose proof (v_control _ _ _ _ _ _ _ Hi) as Hc. pose proof (v_reader _ _ _ _ _ _ _ Hi) as Hrd. unfold return_read_chunk. simpl in Hc.
  destruct Hc as (Hhp & Hst & Hf & He & HR & Hv & Hh). rewrite Hhp. destruct (in_ring _ _ _ _ Hi Hst) as (_ & Hb & _). rewrite Hb.
  apply view_lookup in HR as (i & Hti & Hri).
  destruct (l_slot _ _ _ _ _ _ (v_lp _ _ _ _ _ _ _ Hi) _ (head_in _ _ Hh) Hv) as (l & Hs & Hhas). unfold lp_has in Hhas. simpl in Hhas.
  rewrite He, Hf in Hhas. destruct Hhas as (a' & [= <-] & ->).
  destruct (pop_ok Q st pend _ Idle _ c i [a] (os_ st) Hi Hst Hh) as (st1 & Q' & -> & Hi' & Hrd1 & Hlp1 & Hos1 & Hrest); try done.
  { by apply (plain_os Q st pend (Holding (Out_lp id c a)) (mk_lp id c (Some a) true)). }
  { intros o Ho. by exists o. }
  { by right. }
  cbn [mbind option_bind]. exists (pop_lp st1), Q'. split; [done|]. rewrite <- Hos1, set_os_same in Hi'. split; [done|].
  intros u. rewrite Hrest. simpl. by rewrite owned_single.
Qed.

(** A chunk of an oversize buffer is returned. *)
Lemma return_oversize_ok (Q : ghost) st pend id c a : inv None Q st pend (Holding (Out_oversize id c a)) ->
  exists st' Q', return_read_chunk version (Out_oversize id c a) st = Some st' /\ inv None Q' st' pend Idle /\
    forall u, rest_of Q (reads_of (threads_ st)) u = owned_by u (chunk_of (Out_oversize id c a) st) ++ rest_of Q' (reads_of (threads_ st')) u.
Proof.
  intros Hi. pose proof (v_control _ _ _ _ _ _ _ Hi) as Hc. pose proof (v_reader _ _ _ _ _ _ _ Hi) as Hrd. unfold return_read_chunk. simpl in Hc.
  destruct Hc as (Hhp & Hst & Hf & Hv & HR & Htg & (o & Ho & Hid & Hho) & p & Hh & Hcm & Hvp & Htp & Hsp & Hep).
  rewrite Hhp. destruct (in_ring _ _ _ _ Hi Hst) as (_ & Hb & _). rewrite Hb. apply view_lookup in HR as (i & Hti & Hri).
  destruct (l_slot _ _ _ _ _ _ (v_lp _ _ _ _ _ _ _ Hi) _ (head_in _ _ Hh) Hvp) as (l & Hs & Hhas). unfold lp_has in Hhas. rewrite Hcm, Hep in Hhas.
  destruct Hhas as (Hfp & a' & ->).
  destruct (o_items _ _ _ _ _ _ _ (v_os _ _ _ _ _ _ _ Hi) o (c, a) Ho (head_in _ _ Hho)) as [_ (id' & Hsx)].
  destruct (slot_inj _ _ _ _ _ _ _ _ _ _ Hs Hsx Htp Hsp) as [_ [= ->]]. subst id.
  destruct (pop_ok Q st pend _ Idle p c i [a] (set_by os_id (fun o => set_os_items (tail (os_items o)) o) (os_id o) (os_ st)) Hi Hst Hh)
    as (st1 & Q' & -> & Hi' & Hrd1 & Hlp1 & Hos1 & Hrest); try done; [congruence| | |by right|].
  { intros Q' ths' Hd. pose proof (l_ids _ _ _ _ _ _ (v_lp _ _ _ _ _ _ _ Hi)) as Hnd.
    eapply (os_inv_take Q _ _ _ _ _ p o (c, a)); try done; [apply Hi| |by rewrite Htp, Hsp; apply Hd].
    intros c' Hc' Hvc. destruct (lp_ st) as [|p' lp] eqn:El; [done|]. injection Hh as ->. simpl in Hc'.
    destruct (l_slot _ _ _ _ _ _ (v_lp _ _ _ _ _ _ _ Hi) c') as (l' & Hs' & _); [rewrite El; by right|done|].
    eapply (lp_not_at version _ _ _ (lp_ st)); [apply Hi|rewrite El; by left|rewrite El; by right| |done|done].
    intros E. rewrite fmap_cons in Hnd. apply NoDup_cons in Hnd as [Hn _]. apply Hn. rewrite <- E. by apply list_elem_of_fmap_2. }
  { intros o' Ho'. exists (if (os_id o' =? os_id o)%nat then set_os_items (tail (os_items o')) o' else o').
    split; [apply list_elem_of_fmap; by exists o'|]. by destruct (_ =? _)%nat. }
  cbn [mbind option_bind]. rewrite Hrd1. cbn [rt_oversize_target_buffer_ set_end]. rewrite Htg. cbn [mbind option_bind].
  exists (pop_lp (pop_os (os_id o) st1)), Q'. split; [done|]. split; [by rewrite <- Hos1 in Hi'|].
  intros u. rewrite Hrest. simpl. by rewrite owned_single.
Qed.

(** A chunk of a block is returned. *)
Lemma return_block_ok (Q : ghost) st pend b a : inv None Q st pend (Holding (Out_block b a)) ->
  exists st' Q', return_read_chunk version (Out_block b a) st = Some st' /\ inv None Q' st' pend Idle /\
    forall u, rest_of Q (reads_of (threads_ st)) u = owned_by u (chunk_of (Out_block b a) st) ++ rest_of Q' (reads_of (threads_ st')) u.
Proof.
  intros Hi. pose proof (v_control _ _ _ _ _ _ _ Hi) as Hc. pose proof (v_reader _ _ _ _ _ _ _ Hi) as Hrd. unfold return_read_chunk. simpl in Hc.
  destruct Hc as [Hhp Hb]. rewrite Hhp. pose proof (reader_live _ _ _ _ _ _ Hrd Hb) as Hl.
  destruct (v_block _ _ _ _ _ _ _ Hi b Hl) as (k & Hk & Hs & _). unfold batch_part in Hs. rewrite decide_True in Hs by done.
  exists st. eexists. split; [done|]. split; [by apply (inv_return_block Q st pend b a k)|]. intros u.
  pose proof (r_position _ _ _ _ _ Hrd) as Hp. pose proof (r_batch _ _ _ _ _ Hrd) as Hst. rewrite Hhp in Hst. unfold position in Hp. rewrite Hst in Hp.
  destruct (r_verified _ _ _ _ _ Hrd (proj2 Hp)) as (b' & k' & Hb' & Hk' & HR & _). assert (b' = b) as -> by congruence. assert (k' = k) as -> by congruence.
  simpl. rewrite Hk, owned_single. pose proof (s_entry _ _ _ _ _ _ _ Hs) as He. pose proof (slot_seq _ _ _ _ _ _ _ Hs) as Hpos.
  destruct (decide (u = tls_info_ (bk_context k))) as [->|]; [|by rewrite rest_refill_ne].
  destruct (rest_entry Q _ _ _ (Z.to_nat (seq_ (bk_context k))) _ _ HR Hpos ltac:(lia) He) as (l1 & l2 & -> & H1 & _ & ->). rewrite H1 by lia. done.
Qed.

Lemma return_read_chunk_ok (Q : ghost) st pend o :
  inv None Q st pend (Holding o) ->
  exists st' Q', return_read_chunk version o st = Some st' /\ inv None Q' st' pend Idle /\
    forall u, rest_of Q (reads_of (threads_ st)) u = owned_by u (chunk_of o st) ++ rest_of Q' (reads_of (threads_ st')) u.
Proof.
  intros Hi. destruct o as [id c a|id c a|b a|]; [by apply return_lp_ok|by apply return_oversize_ok|by apply return_block_ok|].
  pose proof (v_control _ _ _ _ _ _ _ Hi) as [Hhp Hst]. unfold return_read_chunk.
  rewrite Hhp. exists st, Q. split; [by destruct (rd_block_ (rd_ st))|]. split; [|done].
  eapply inv_control; [done|done|done].
Qed.

End Reads.
End LogBufferReads.
