(* ===== verification/LogBufferTraverse.v ===== *)
(** * The log buffer: the reader among the blocks
    ([src/buffer/log_buffer.cpp], [src/buffer/group_list.cpp], [include/qlog/buffer/block_list.hpp])

    The steps of the reader from block to block and from group to group keep the invariant of
    [LogBufferSystem]: what it unlinks is empty and nobody writes to it any more, and it is
    always at a block of the used list of its group, or between two groups. *)
From stdpp Require Import functions base list option numbers gmap.
From Stdlib Require Import ZArith Lia Bool.
From S2P Require Import Prelude BufferDefs LogBuffer LogBufferReader LogBufferSystem LogBufferGhost LogBufferFrame LogBufferReads.

Module LogBufferTraverse.
Import LogBuffer LogBufferReader LogBufferSystem LogBufferGhost LogBufferFrame LogBufferReads.

Lemma elem_middle {B} (x : B) xs ys : x ∈ xs ++ x :: ys.
Proof. apply elem_of_app. right. by left. Qed.

Section Traverse.
Context {A : Type}.
Abbreviation state := (@state A).
Abbreviation block := (@block A).
Abbreviation reading := (@reading A).
Abbreviation oversize := (@oversize A).
Abbreviation lp_chunk := (@lp_chunk A).
Abbreviation control := (@control A).
Abbreviation ghost := (nat -> list (place * list A)).
Abbreviation views := (gmap nat tls_buffer_info).
Variables (max_blocks : nat) (version : Z).
Abbreviation inv := (@inv A max_blocks version).

(** ** The invariant without the reader *)

Record core (Q : ghost) (st : state) (pend : gmap nat handle) : Prop := {
  c_lp : lp_inv version Q (reads_of (threads_ st)) (exits_of (threads_ st)) (lp_ st) (lp_next st);
  c_block : block_inv version Q (reads_of (threads_ st)) (exits_of (threads_ st)) (blocks_ st) (groups_ st) (fun _ => []);
  c_back : back_inv version Q (reads_of (threads_ st)) (lp_ st) (blocks_ st) (groups_ st);
  c_thread : thread_inv Q (reads_of (threads_ st)) (writes_of (threads_ st));
  c_cur : cur_inv None (blocks_of (threads_ st)) (writes_of (threads_ st)) (exits_of (threads_ st)) (blocks_ st) (groups_ st);
  c_pend : pend_inv version pend (exits_of (threads_ st)) (blocks_of (threads_ st)) (oversize_of (threads_ st)) (writes_of (threads_ st)) (lp_ st) (os_ st);
  c_os : os_inv version Q (reads_of (threads_ st)) (exits_of (threads_ st)) (lp_ st) (os_ st) (os_next st);
  c_group : group_inv max_blocks (groups_ st) (pool_ st) (current_group_index_ st) }.

Lemma inv_core (Q : ghost) st pend : inv None Q st pend Running -> hp_rest (rd_ st) = [] -> core Q st pend.
Proof.
  intros [Hlp Hblk Hbk Hth Hcu Hpd Hos Hgr Hrd Hctl] Hr. constructor; try done. intros b Hl. destruct (Hblk b Hl) as (k & Hk & Hs & Hf).
  exists k. unfold batch_part, in_batch in Hs. rewrite Hr in Hs. split_and!; [done| |done]. by destruct (decide _).
Qed.

Lemma core_inv (Q : ghost) st pend : core Q st pend -> reader_inv version (rd_ st) (groups_ st) (blocks_ st) (reads_of (threads_ st)) ->
  hp_success (rd_ st) = false -> inv None Q st pend Running.
Proof.
  intros [Hlp Hblk Hbk Hth Hcu Hpd Hos Hgr] Hrd Hhp. constructor; try done. intros b Hl. destruct (Hblk b Hl) as (k & Hk & Hs & Hf).
  pose proof (r_batch _ _ _ _ _ Hrd) as Hr. rewrite Hhp in Hr. exists k. unfold batch_part, in_batch. rewrite Hr. split_and!; [done| |done].
  by destruct (decide _).
Qed.

Lemma core_rd (Q : ghost) st pend r : core Q st pend -> core Q (set_rd r st) pend.
Proof. by intros []. Qed.

Lemma core_groups (Q : ghost) st pend gs pool index : core Q st pend -> group_inv max_blocks gs pool index ->
  (forall b, live gs b <-> live (groups_ st) b) -> core Q (set_groups gs pool index st) pend.
Proof.
  intros [Hlp Hblk Hbk Hth Hcu Hpd Hos Hgr] Hg Hl. constructor; simpl; try done.
  - intros b Hb. by apply Hblk, Hl.
  - intros t r j p l HR Hj HQ. specialize (Hbk t r j p l HR Hj HQ). destruct p; [done|]. by rewrite Hl.
  - intros t b Hb Hn. destruct (Hcu t b Hb Hn) as (? & ? & ?). split_and!; [done|by apply Hl|done].
Qed.

(** A block that is done with leaves its group, its number is read. *)
Lemma core_remove (Q : ghost) st pend b k gs pool index Q' ths' l :
  core Q st pend -> live (groups_ st) b -> blocks_ st !! b = Some k -> is_removed k = true ->
  dereg version Q (threads_ st) Q' ths' (tls_info_ (bk_context k)) (seq_ (bk_context k)) l ->
  group_inv max_blocks gs pool index -> (forall b', live gs b' <-> live (groups_ st) b' /\ b' <> b) ->
  core Q' (set_groups gs pool index (set_threads ths' st)) pend.
Proof.
  intros [Hlp Hblk Hbk Hth Hcu Hpd Hos Hgr] Hl Hk Hrm Hd Hg Hlv. pose proof (d_pres _ _ _ _ _ _ _ _ Hd) as Hpres.
  destruct (Hblk b Hl) as (k' & Hk' & Hs & _). assert (k' = k) as -> by congruence.
  constructor; simpl; try done.
  - eapply lp_inv_pres; [exact Hpres| |done]. intros c Hc Hv [Ht Hq]. destruct (l_slot _ _ _ _ _ _ Hlp c Hc Hv) as (l' & Hs' & _).
    by destruct (slot_inj _ _ _ _ _ _ _ _ _ _ Hs Hs').
  - intros b' [Hl' Hn]%Hlv. destruct (Hblk b' Hl') as (k0 & Hk0 & Hs0 & Hf). exists k0. split_and!; [done| |done].
    apply Hpres; [|done]. by eapply (block_not_at version Q _ _ (blocks_ st) (groups_ st) _ b b').
  - intros u r j p l1 HR Hj HQ. destruct (d_back _ _ _ _ _ _ _ _ Hd u r j _ HR Hj HQ) as (r0 & HR0 & Hj0 & HQ0 & Hn).
    specialize (Hbk u r0 j p l1 HR0 Hj0 HQ0). destruct p as [|b']; [done|]. destruct Hbk as (Hl' & k0 & Hk0 & ? & Ht & Hq).
    split; [|by exists k0]. apply Hlv. split; [done|]. intros ->. assert (k0 = k) as -> by congruence. apply Hn. by split.
  - apply Hd.
  - intros t b' Hb' Hn. destruct (cur_dereg version _ _ _ _ _ _ _ Hd _ _ Hcu t b' Hb' Hn) as (Hx & Hl' & k0 & Hk0 & Hr0 & ?).
    split_and!; [done| |by exists k0]. apply Hlv. split; [done|]. intros ->. congruence.
  - by eapply (pend_dereg version); [exact Hd| |by eauto|].
  - eapply os_inv_pres; [exact Hpres| |done]. intros o x Ho Hx [Ht Hq].
    destruct (o_items _ _ _ _ _ _ _ Hos o x Ho Hx) as [_ (id & Hs')]. by destruct (slot_inj _ _ _ _ _ _ _ _ _ _ Hs Hs').
Qed.

(** ** Groups *)

Lemma find_group_split xs G ys : NoDup (g_id <$> xs ++ G :: ys) -> find_group (g_id G) (xs ++ G :: ys) = Some G.
Proof.
  intros Hnd. unfold find_group. induction xs as [|g xs IH]; simpl; [by rewrite Nat.eqb_refl|].
  rewrite <- app_comm_cons, fmap_cons in Hnd. apply NoDup_cons in Hnd as [Hn Hnd].
  destruct (Nat.eqb_spec (g_id g) (g_id G)) as [E|]; [|by apply IH]. exfalso. apply Hn. rewrite E. apply list_elem_of_fmap_2, elem_middle.
Qed.

Lemma put_group_split xs G G' ys : NoDup (g_id <$> xs ++ G :: ys) -> g_id G' = g_id G -> put_group G' (xs ++ G :: ys) = xs ++ G' :: ys.
Proof.
  intros Hnd Hid. unfold put_group. rewrite fmap_app, fmap_cons, Hid, Nat.eqb_refl. rewrite fmap_app, fmap_cons in Hnd.
  apply NoDup_app in Hnd as (_ & Hx & Hnd). apply NoDup_cons in Hnd as [Hy _].
  assert (forall l : list group, g_id G ∉ g_id <$> l -> (fun h => if (g_id h =? g_id G)%nat then G' else h) <$> l = l) as Hl.
  { induction l as [|h l IH]; [done|]. rewrite !fmap_cons. intros Hn. apply not_elem_of_cons in Hn as [Hne Hn].
    rewrite (IH Hn). assert ((g_id h =? g_id G)%nat = false) as -> by (apply Nat.eqb_neq; congruence). done. }
  rewrite (Hl ys Hy), Hl; [done|]. intros Hin. apply (Hx _ Hin). by left.
Qed.

Lemma group_after_split xs G ys : NoDup (g_id <$> xs ++ G :: ys) -> group_after (g_id G) (xs ++ G :: ys) = g_id <$> head ys.
Proof.
  intros Hnd. induction xs as [|g xs IH]; simpl; [by rewrite Nat.eqb_refl|].
  rewrite <- app_comm_cons, fmap_cons in Hnd. apply NoDup_cons in Hnd as [Hn Hnd].
  destruct (Nat.eqb_spec (g_id g) (g_id G)) as [E|]; [|by apply IH]. exfalso. apply Hn. rewrite E. apply list_elem_of_fmap_2, elem_middle.
Qed.

(** ** The list of a group *)

Lemma next_in_split i pre post : NoDup (pre ++ i :: post) -> next_in i (pre ++ i :: post) = Some (head post).
Proof.
  intros Hnd. induction pre as [|j pre IH]; simpl; [by rewrite Nat.eqb_refl|].
  rewrite <- app_comm_cons in Hnd. apply NoDup_cons in Hnd as [Hn Hnd].
  destruct (Nat.eqb_spec j i) as [->|]; [|by apply IH]. exfalso. apply Hn, elem_middle.
Qed.

Lemma push_after_end i j pre : i ∉ pre -> push_after (Some i) j (pre ++ [i]) = Some (pre ++ [i; j]).
Proof.
  intros Hn. induction pre as [|x pre IH]; simpl; [by rewrite Nat.eqb_refl|]. apply not_elem_of_cons in Hn as [Hne Hn].
  assert ((x =? i)%nat = false) as -> by (apply Nat.eqb_neq; congruence). by rewrite (IH Hn).
Qed.

Lemma remove_after_split i pre post : NoDup (pre ++ i :: post) -> remove_after (last pre) i (pre ++ i :: post) = Some (pre ++ post).
Proof.
  induction pre as [|x pre IH]; simpl; [by rewrite Nat.eqb_refl|]. intros Hnd. apply NoDup_cons in Hnd as [Hn Hnd].
  destruct pre as [|y pre].
  - simpl. by rewrite !Nat.eqb_refl.
  - destruct (last (y :: pre)) as [p|] eqn:El; [|by apply last_None in El]. specialize (IH Hnd).
    assert (x <> p) as Hne. { intros ->. apply Hn. apply last_Some_elem_of in El. apply elem_of_app. by left. }
    assert (last (x :: y :: pre) = Some p) as -> by (simpl in *; exact El).
    simpl in IH |- *. assert ((x =? p)%nat = false) as -> by (by apply Nat.eqb_neq). simpl. by rewrite IH.
Qed.

(** ** The group of the reader *)

Lemma groups_NoDup gs pool index : group_inv max_blocks gs pool index -> NoDup (g_id <$> gs).
Proof. intros [H _ _ _]. rewrite fmap_app in H. by apply NoDup_app in H as (? & _). Qed.

Lemma group_NoDup xs G ys pool index : group_inv max_blocks (xs ++ G :: ys) pool index -> NoDup (used_ G ++ stage_ G).
Proof.
  intros Hg. assert (NoDup (used_ G ++ free_ G ++ stage_ G)) as Hnd.
  { rewrite (g_lists _ _ _ _ Hg) by set_solver. apply NoDup_seq. }
  rewrite (Permutation_app_comm (free_ G)), app_assoc in Hnd. by apply NoDup_app in Hnd as (? & _).
Qed.

Lemma used_length xs G ys pool index : group_inv max_blocks (xs ++ G :: ys) pool index -> (length (used_ G) <= max_blocks)%nat.
Proof.
  intros Hg. assert (used_ G ++ free_ G ++ stage_ G ≡ₚ seq 0 max_blocks) as Hp by (apply (g_lists _ _ _ _ Hg); set_solver).
  apply Permutation_length in Hp. rewrite length_app, length_seq in Hp. lia.
Qed.

(** Another list of blocks for the group. *)
Lemma group_inv_put xs G G' ys pool index : group_inv max_blocks (xs ++ G :: ys) pool index -> g_id G' = g_id G ->
  used_ G' ++ free_ G' ++ stage_ G' ≡ₚ used_ G ++ free_ G ++ stage_ G -> group_inv max_blocks (xs ++ G' :: ys) pool index.
Proof.
  intros [H1 H2 H3 H4] Hid Hp. split.
  - rewrite !fmap_app, fmap_cons in H1 |- *. by rewrite Hid.
  - intros g Hg. rewrite <- app_assoc, <- app_comm_cons, elem_of_app, elem_of_cons in Hg.
    destruct Hg as [Hg|[->|Hg]]; [apply H2; set_solver|rewrite Hid; apply H2; set_solver|apply H2; set_solver].
  - intros g Hg. rewrite <- app_assoc, <- app_comm_cons, elem_of_app, elem_of_cons in Hg.
    destruct Hg as [Hg|[->|Hg]]; [apply H3; set_solver|rewrite Hp; apply H3; set_solver|apply H3; set_solver].
  - done.
Qed.

Lemma live_middle xs G ys b : live (xs ++ G :: ys) b <-> (g_id G = b.1 /\ b.2 ∈ used_ G ++ stage_ G) \/ live (xs ++ ys) b.
Proof.
  unfold live. split.
  - intros (g & Hg & ? & ?). rewrite elem_of_app, elem_of_cons in Hg. destruct Hg as [?|[->|?]]; [|by left|].
    all: right; exists g; split; [set_solver|done].
  - intros [[? ?]|(g & Hg & ? & ?)]; [exists G|exists g]; (split; [set_solver|done]).
Qed.

Lemma live_others xs G ys b : NoDup (g_id <$> xs ++ G :: ys) -> live (xs ++ ys) b -> b.1 <> g_id G.
Proof.
  intros Hnd (g & Hg & Hid & _) E. rewrite fmap_app, fmap_cons in Hnd. apply NoDup_app in Hnd as (_ & Hx & Hnd).
  apply NoDup_cons in Hnd as [Hy _]. rewrite <- E, <- Hid in *. apply elem_of_app in Hg as [Hg|Hg].
  - apply (Hx (g_id g)); [by apply list_elem_of_fmap_2|by left].
  - apply Hy. by apply list_elem_of_fmap_2.
Qed.

Lemma outside_here xs G ys i : NoDup (g_id <$> xs ++ G :: ys) -> outside (Some (g_id G, i)) ys.
Proof.
  intros Hnd g j [= <- <-]. rewrite fmap_app, fmap_cons in Hnd. apply NoDup_app in Hnd as (_ & _ & Hnd). by apply NoDup_cons in Hnd as [? _].
Qed.

Lemma outside_group b G ys : outside b (G :: ys) <-> in_group (g_id G) b = None /\ outside b ys.
Proof.
  unfold outside, in_group. split.
  - intros Ho. split; [|intros g i Hb Hin; by apply (Ho g i Hb), elem_of_cons; right].
    destruct b as [[g i]|]; [|done]. destruct (Nat.eqb_spec g (g_id G)) as [->|]; [|done]. destruct (Ho _ i eq_refl). by left.
  - intros [Hi Ho] g i -> Hin. apply elem_of_cons in Hin as [->|Hin]; [by rewrite Nat.eqb_refl in Hi|by apply (Ho g i)].
Qed.

(** A block in the used lists stays there when only the group named changes. *)
Lemma in_used_put b xs G G' ys : g_id G' = g_id G -> (forall i, in_group (g_id G) b = Some i -> i ∈ used_ G') ->
  in_used b (xs ++ G :: ys) -> in_used b (xs ++ G' :: ys).
Proof.
  intros Hid Hi Hu [g j] ->. destruct (Hu _ eq_refl) as (h & Hh & Hg & Hj). simpl in *.
  destruct (Nat.eqb_spec g (g_id G)) as [->|Hn].
  - exists G'. split; [set_solver|]. split; [done|by apply Hi].
  - exists h. split; [|done]. rewrite elem_of_app, elem_of_cons in Hh. destruct Hh as [?|[->|?]]; [set_solver|congruence|set_solver].
Qed.

(** The block behind [front]. *)
Lemma next_block_spec front post G : used_ G = front ++ post -> NoDup (used_ G) ->
  exists post' G1, next_block (last front) G = Some (head post', G1) /\ used_ G1 = front ++ post' /\ g_id G1 = g_id G /\
    used_ G1 ++ stage_ G1 = used_ G ++ stage_ G /\ free_ G1 = free_ G.
Proof.
  intros Hu Hnd. assert ((match last front with Some i => next_in i (used_ G) | None => Some (head (used_ G)) end) = Some (head post)) as En.
  { destruct (last front) as [i|] eqn:El.
    - apply last_Some in El as (pre & ->). rewrite <- app_assoc in Hu. simpl in Hu. rewrite Hu in Hnd |- *. by apply next_in_split.
    - apply last_None in El as ->. by rewrite Hu. }
  unfold next_block. rewrite En. cbn [mbind option_bind]. destruct post as [|j post]; simpl head.
  - destruct (stage_ G) as [|j stage] eqn:Es; [exists [], G; by rewrite Es|].
    assert (push_after (last front) j (used_ G) = Some (front ++ [j])) as Ep.
    { rewrite Hu, app_nil_r in *. destruct (last front) as [i|] eqn:El; [|by apply last_None in El as ->].
      apply last_Some in El as (pre & ->). rewrite push_after_end; [by rewrite <- app_assoc|].
      apply NoDup_app in Hnd as (_ & Hd & _). intros Hin. apply (Hd i Hin). by left. }
    rewrite Ep. cbn [mbind option_bind]. exists [j]. eexists. split; [done|]. simpl. split_and!; try done.
    rewrite Hu, app_nil_r. by rewrite <- app_assoc.
  - by exists (j :: post), G.
Qed.

(** ** From block to block *)

(** In the group [G], between what is in use and what is ahead. *)
Record arriving (r : reading) (gs xs : list group) (G : group) (ys : list group) (front post : list nat) : Prop := {
  a_groups : gs = xs ++ G :: ys;
  a_cur : cur_group_ r = Some (g_id G);
  a_used : used_ G = front ++ post;
  a_count : cur_group_using_blocks_num_ r = Z.of_nat (length front);
  a_last : in_group (g_id G) (last_block_ r) = last front;
  a_outside : outside (last_block_ r) ys;
  a_in : in_used (last_block_ r) gs }.

(** At the block [i] of the group [G]. *)
Record leaving (r : reading) (gs xs : list group) (G : group) (ys : list group) (pre : list nat) (i : nat) (post : list nat) : Prop := {
  e_groups : gs = xs ++ G :: ys;
  e_cur : cur_group_ r = Some (g_id G);
  e_used : used_ G = pre ++ i :: post;
  e_count : cur_group_using_blocks_num_ r = Z.of_nat (length pre);
  e_block : rd_block_ r = Some (g_id G, i);
  e_last : in_group (g_id G) (last_block_ r) = last pre;
  e_outside : outside (last_block_ r) ys;
  e_in : in_used (last_block_ r) gs }.

Lemma leaving_apart r gs xs G ys pre i post : leaving r gs xs G ys pre i post -> NoDup (used_ G) -> last_block_ r <> rd_block_ r.
Proof.
  intros [_ _ Hu _ Hb Hl _ _] Hnd Heq. rewrite Heq, Hb in Hl. simpl in Hl. rewrite Nat.eqb_refl in Hl. symmetry in Hl.
  apply last_Some in Hl as (p & ->). rewrite Hu in Hnd. apply NoDup_app in Hnd as (_ & Hd & _). apply (Hd i); set_solver.
Qed.

Hypothesis Hmax16 : Z.of_nat max_blocks < 2 ^ 16.

(** What leaving a block does to the reader's variables. *)
Definition moved (n : Z) (w : bool) (b : option block_id) (r : reading) : reading :=
  set_mem (left_holes_num_ r) n (is_block_marked_removed r) (verify_result_ r) (set_end w b r).

Lemma leave_unmarked (Q : ghost) st pend xs G ys pre i post :
  core Q st pend -> leaving (rd_ st) (groups_ st) xs G ys pre i post -> is_block_marked_removed (rd_ st) = false ->
  exists n w b, leave_block version (g_id G) (Some i) st = Some (false, set_rd (moved n w b (rd_ st)) st) /\
    arriving (set_position (last_group_ (rd_ st)) (cur_group_ (rd_ st)) (rd_block_ (rd_ st)) (rd_block_ (rd_ st)) (moved n w b (rd_ st)))
      (groups_ st) xs G ys (pre ++ [i]) post.
Proof using Hmax16.
  intros Hc [Hg Hcur Hu Hn Hb Hl Ho Hin] Hm. pose proof (c_group _ _ _ Hc) as Hgi. rewrite Hg in Hgi. pose proof (used_length _ _ _ _ _ Hgi) as Hlen.
  pose proof (groups_NoDup _ _ _ Hgi) as Hnd. rewrite Hu, length_app in Hlen. simpl in Hlen.
  exists (Z.of_nat (S (length pre))), (traverse_end_block_is_working_ (rd_ st)), (traverse_end_block_ (rd_ st)). split.
  - unfold leave_block. rewrite Hm. do 3 f_equal. unfold map_rd. f_equal. rewrite Hn.
    assert (u16 (Z.of_nat (length pre) + 1) = Z.of_nat (S (length pre))) as -> by (rewrite wrap_small; [lia|unfold in_range; lia]).
    unfold moved. by destruct (rd_ st).
  - split; simpl; try done.
    + by rewrite Hu, <- app_assoc.
    + f_equal. rewrite length_app. simpl. lia.
    + rewrite Hb. simpl. by rewrite Nat.eqb_refl, last_snoc.
    + rewrite Hb. by apply (outside_here xs).
    + intros x Hx. assert (x = (g_id G, i)) as -> by congruence. exists G. rewrite Hg, Hu. set_solver.
Qed.

Lemma recycle_spec xs G ys pre i post (b : option block_id) :
  NoDup (used_ G) -> used_ G = pre ++ i :: post -> in_group (g_id G) b = last pre ->
  recycle_block_thread_unsafe G (in_group (g_id G) b) i = Some (mk_group (g_id G) (pre ++ post) (i :: free_ G) (stage_ G) (in_pool_epoch_ms_ G)) /\
  (forall pool index, group_inv max_blocks (xs ++ G :: ys) pool index ->
     group_inv max_blocks (xs ++ mk_group (g_id G) (pre ++ post) (i :: free_ G) (stage_ G) (in_pool_epoch_ms_ G) :: ys) pool index /\
     (forall b', live (xs ++ mk_group (g_id G) (pre ++ post) (i :: free_ G) (stage_ G) (in_pool_epoch_ms_ G) :: ys) b' <->
        live (xs ++ G :: ys) b' /\ b' <> (g_id G, i))).
Proof.
  intros Hnd Hu Hl. split.
  - unfold recycle_block_thread_unsafe. rewrite Hl, Hu in *. by rewrite remove_after_split.
  - intros pool index Hg. pose proof (groups_NoDup _ _ _ Hg) as Hids. pose proof (group_NoDup _ _ _ _ _ Hg) as Hall. split.
    + eapply group_inv_put; [exact Hg|done|]. simpl. rewrite Hu. solve_Permutation.
    + intros b'. rewrite !live_middle. simpl. rewrite Hu in *. split.
      * intros [[Hid Hb']|Hlv]; [|split; [by right|intros ->; by apply (live_others _ _ _ _ Hids Hlv)]].
        split; [left; split; [done|]; rewrite !elem_of_app, elem_of_cons in *; tauto|]. intros ->. simpl in Hb'.
        rewrite <- !app_assoc, <- app_comm_cons in Hall. apply NoDup_app in Hall as (_ & Hd & Hall). apply NoDup_cons in Hall as [Hn _].
        rewrite <- app_assoc in Hb'. apply elem_of_app in Hb' as [Hb'|Hb']; [|done]. apply (Hd i Hb'). by left.
      * intros [[[Hid Hb']|Hlv] Hne]; [|by right]. left. split; [done|].
        assert (b'.2 <> i) by (intros <-; apply Hne; destruct b'; simpl in *; congruence).
        rewrite !elem_of_app, elem_of_cons in *. tauto.
Qed.

Lemma leave_marked (Q : ghost) st pend xs G ys pre i post k :
  core Q st pend -> leaving (rd_ st) (groups_ st) xs G ys pre i post -> is_block_marked_removed (rd_ st) = true ->
  rd_version_ (rd_ st) = version -> verify_result_ (rd_ st) = valid -> blocks_ st !! (g_id G, i) = Some k -> is_removed k = true -> bk_items k = [] ->
  reads_of (threads_ st) !! tls_info_ (bk_context k) = Some (seq_ (bk_context k)) ->
  exists w b Q' st' G', leave_block version (g_id G) (Some i) st = Some (true, st') /\ core Q' st' pend /\ same_rest Q st Q' st' /\ g_id G' = g_id G /\
    rd_ st' = moved (cur_group_using_blocks_num_ (rd_ st)) w b (rd_ st) /\ arriving (rd_ st') (groups_ st') xs G' ys pre post /\
    g_id <$> groups_ st' = g_id <$> groups_ st.
Proof.
  intros Hc Hlv Hm Hv Hval Hk Hrm Hit HR. pose proof Hlv as [Hg Hcur Hu Hn Hb Hl Ho Hin].
  pose proof (c_group _ _ _ Hc) as Hgi. rewrite Hg in Hgi. pose proof (group_NoDup _ _ _ _ _ Hgi) as Hnd. apply NoDup_app in Hnd as (Hnd & _).
  assert (live (groups_ st) (g_id G, i)) as Hlive. { exists G. rewrite Hg. simpl. rewrite Hu. set_solver. }
  destruct (c_block _ _ _ Hc _ Hlive) as (k' & Hk' & Hs & _). assert (k' = k) as -> by congruence. rewrite Hit in Hs.
  apply view_lookup in HR as (t & Ht & Hr).
  pose proof (dereg_slot version Q (threads_ st) (bk_context k) _ [] t (c_thread _ _ _ Hc) Ht (eq_sym Hr) Hs) as Hd.
  destruct (refresh_some (set_threads (deregistered (bk_context k) t (threads_ st)) st)) as (w & b & Hrf).
  { left. by eapply leaving_apart. }
  destruct (recycle_spec xs G ys pre i post (last_block_ (rd_ st)) Hnd Hu Hl) as [Hrec Hgrp]. destruct (Hgrp _ _ Hgi) as [Hgi' Hlive'].
  rewrite <- Hg in Hlive'.
  unfold leave_block. rewrite Hm, Hval, Hk. cbn [mbind option_bind]. rewrite (deregister_eq version st _ t) by (done || apply Hs). rewrite Hrf.
  cbn [mbind option_bind groups_ set_rd set_threads]. rewrite Hg, find_group_split by (by eapply groups_NoDup). cbn [mbind option_bind].
  rewrite Hrec. cbn [mbind option_bind]. rewrite put_group_split by (done || by eapply groups_NoDup).
  exists w, b. eexists _, _, (mk_group (g_id G) (pre ++ post) (i :: free_ G) (stage_ G) (in_pool_epoch_ms_ G)). split; [done|]. split_and!; [| |done| | |].
  - exact (core_rd _ _ _ (set_end w b (rd_ st)) (core_remove _ _ _ _ _ _ _ _ _ _ _ Hc Hlive Hk Hrm Hd Hgi' Hlive')).
  - intros u. simpl. rewrite (d_rest _ _ _ _ _ _ _ _ Hd). by destruct (decide _).
  - simpl. unfold moved. by destruct (rd_ st).
  - split; simpl; try done. rewrite Hg in Hin. apply (in_used_put _ xs G); [done| |exact Hin]. simpl. intros j Hj. rewrite Hl in Hj.
    apply last_Some in Hj as (p & ->). set_solver.
  - simpl. by rewrite !fmap_app, !fmap_cons.
Qed.

(** A flag of a block that says nothing of its content. *)
Lemma core_flags (Q : ghost) st pend (f : block -> block) b : core Q st pend ->
  (forall k, bk_context (f k) = bk_context k /\ bk_items (f k) = bk_items k /\ is_removed (f k) = is_removed k) ->
  core Q (update_block f b st) pend.
Proof.
  intros [Hlp Hblk Hbk Hth Hcu Hpd Hos Hgr] Hf.
  assert (forall b' k, blocks_ st !! b' = Some k -> exists k', alter f b (blocks_ st) !! b' = Some k' /\ bk_context k' = bk_context k /\
            bk_items k' = bk_items k /\ is_removed k' = is_removed k) as Hk.
  { intros b' k Hk. destruct (decide (b' = b)) as [->|].
    - exists (f k). rewrite lookup_alter_eq, Hk. split; [done|apply Hf].
    - exists k. by rewrite lookup_alter_ne. }
  constructor; simpl; try done.
  - intros b' Hl. destruct (Hblk b' Hl) as (k & Hk1 & Hs & Hfin). destruct (Hk b' k Hk1) as (k' & ? & Hc & Hi & Hr).
    exists k'. by rewrite Hc, Hi, Hr.
  - eapply back_blocks; [|done]. intros b' k Hk1. destruct (Hk b' k Hk1) as (k' & ? & Hc & _). exists k'. by rewrite Hc.
  - intros t b' Hb Hn. destruct (Hcu t b' Hb Hn) as (? & ? & k & Hk1 & Hr & ?). destruct (Hk b' k Hk1) as (k' & ? & Hc & _ & Hr').
    split_and!; [done..|]. exists k'. by rewrite Hc, Hr'.
Qed.

(** The reader comes to the block [i]: its number is the next one to read, or a later one. *)
Lemma enter_ok (Q : ghost) st pend xs G ys front i post :
  core Q st pend -> arriving (rd_ st) (groups_ st) xs G ys front (i :: post) -> rd_version_ (rd_ st) = version ->
  exists v marked holes st' k, enter_block version (g_id G) i st = Some st' /\ core Q st' pend /\ threads_ st' = threads_ st /\ groups_ st' = groups_ st /\
    rd_ st' = set_position (last_group_ (rd_ st)) (cur_group_ (rd_ st)) (last_block_ (rd_ st)) (Some (g_id G, i))
                (set_mem holes (cur_group_using_blocks_num_ (rd_ st)) marked v (rd_ st)) /\
    blocks_ st' !! (g_id G, i) = Some k /\ marked = is_valid v && is_removed k /\
    (v = valid /\ reads_of (threads_ st) !! tls_info_ (bk_context k) = Some (seq_ (bk_context k)) \/ v = seq_pending).
Proof.
  intros Hc [Hg Hcur Hu _ _ _ _] Hv.
  assert (live (groups_ st) (g_id G, i)) as Hlive. { exists G. rewrite Hg. simpl. rewrite Hu. set_solver. }
  destruct (c_block _ _ _ Hc _ Hlive) as (k & Hk & Hs & _). destruct (verify_slot version Q st _ _ _ Hv Hs) as (t & Ht & Hver).
  assert (version_ (bk_context k) = version) as Hkv by apply Hs.
  set (st0 := if 0 <? left_holes_num_ (rd_ st) then update_block (set_reallocate true) (g_id G, i) st else st).
  assert (core Q st0 pend /\ threads_ st0 = threads_ st /\ groups_ st0 = groups_ st /\ rd_ st0 = rd_ st /\
    exists k', blocks_ st0 !! (g_id G, i) = Some k' /\ bk_context k' = bk_context k /\ is_removed k' = is_removed k) as (Hc0 & Hth0 & Hg0 & Hr0 & k' & Hk' & Hkc & Hkr).
  { unfold st0. destruct (0 <? _); [|by split_and!; [..|exists k]]. split_and!; [by apply core_flags|done..|].
    exists (set_reallocate true k). simpl. by rewrite lookup_alter_eq, Hk. }
  assert (exists v, verify_context version (bk_context k) st = Some v /\
    (v = valid /\ reads_of (threads_ st) !! tls_info_ (bk_context k) = Some (seq_ (bk_context k)) \/ v = seq_pending)) as (v & Ev & Hvv).
  { destruct Hver as [[Hsq ->]|[_ ->]]; [exists valid|exists seq_pending; split; [done|by right]].
    split; [done|]. left. split; [done|]. apply view_lookup. by exists t. }
  unfold enter_block. rewrite Hk. cbn [mbind option_bind]. rewrite Ev. cbn [mbind option_bind]. fold st0.
  eexists v, (is_valid v && is_removed k), _, _, k'. split; [unfold map_rd; rewrite Hr0, Hkv, Z.eqb_refl; done|].
  rewrite Hkc, Hkr. split_and!; [by apply core_rd|done..| |done|done|done].
  simpl. do 2 f_equal. rewrite orb_false_r. by destruct Hvv as [[-> _]| ->].
Qed.

(** ** [rt_try_traverse_to_next_block_in_group] *)

(** What the reader keeps on its way to a block. *)
Record on_way (r : reading) (gs : list group) : Prop := {
  y_version : rd_version_ r = version;
  y_last_group : forall g h, cur_group_ r = Some g -> last_group_ r = Some h -> exists xs ys, g_id <$> gs = xs ++ h :: g :: ys;
  y_state : state_ r = next_block_finding;
  y_batch : hp_success r = false /\ hp_rest r = [] }.

(** A block is found: its number is the next one, or a later one; or the group has no more. *)
Definition found_ok (found : bool) (st : state) : Prop :=
  on_way (rd_ st) (groups_ st) /\
  if found then
    verify_result_ (rd_ st) = valid /\
      (forall s, s = hp_block_reading \/ s = traversal_completed ->
         reader_inv version (set_state s (rd_ st)) (groups_ st) (blocks_ st) (reads_of (threads_ st))) \/
    verify_result_ (rd_ st) = seq_pending /\ reader_inv version (rd_ st) (groups_ st) (blocks_ st) (reads_of (threads_ st))
  else verify_result_ (rd_ st) <> valid /\ reader_inv version (set_state next_group_finding (rd_ st)) (groups_ st) (blocks_ st) (reads_of (threads_ st)).

Definition next_ok (Q : ghost) (st : state) (pend : gmap nat handle) (r : option (bool * state)) : Prop :=
  exists found st' Q', r = Some (found, st') /\ core Q' st' pend /\ same_rest Q st Q' st' /\ found_ok found st'.

Lemma entered_at (r : reading) gs xs G ys front i post : arriving r gs xs G ys front (i :: post) -> rd_block_ r = Some (g_id G, i) ->
  at_block r gs /\ in_used (rd_block_ r) gs.
Proof.
  intros [Hg Hcur Hu Hn Hl Ho Hin] Hb. split; [by exists xs, G, ys, front, i, post|]. rewrite Hb. intros x [= <-]. exists G.
  rewrite Hg, Hu. set_solver.
Qed.

Lemma found_enter (Q : ghost) st pend xs G ys front i post :
  core Q st pend -> arriving (rd_ st) (groups_ st) xs G ys front (i :: post) -> on_way (rd_ st) (groups_ st) ->
  next_ok Q st pend (st ← enter_block version (g_id G) i st; Some (true, st)).
Proof.
  intros Hc Ha [Hv Hlg Hs [Hhp Hrest]].
  destruct (enter_ok Q st pend xs G ys front i post Hc Ha Hv) as (v & marked & holes & st' & k & -> & Hc' & Hth & Hgs & Hrd & Hk & Hm & Hvv).
  cbn [mbind option_bind]. exists true, st', Q. split; [done|]. split; [done|]. split; [intros u; by rewrite Hth|].
  assert (arriving (rd_ st') (groups_ st') xs G ys front (i :: post)) as Ha' by (rewrite Hgs, Hrd; by destruct Ha).
  assert (on_way (rd_ st') (groups_ st')) as Hw' by (rewrite Hgs, Hrd; by split).
  assert (rd_block_ (rd_ st') = Some (g_id G, i)) as Hb' by (by rewrite Hrd).
  assert (verify_result_ (rd_ st') = v) as Hv' by (by rewrite Hrd).
  assert (is_block_marked_removed (rd_ st') = marked) as Hm' by (by rewrite Hrd).
  destruct (entered_at _ _ _ _ _ _ _ _ Ha' Hb') as [Hat Hin]. pose proof Ha' as [_ _ _ _ _ _ Hlin]. destruct Hw' as [Hv1 Hlg1 Hs1 [Hhp1 Hrest1]].
  split; [done|]. rewrite Hv'. destruct Hvv as [[-> HR]| ->].
  - left. split; [done|]. intros s Hss. split; simpl; try done.
    + unfold position. simpl. destruct Hss as [-> | ->]; [done|by right].
    + intros _. exists (g_id G, i), k. split_and!; try done; [by rewrite Hth|]. rewrite Hm', Hm. intros Hr. split; [done|].
      intros ->. by destruct Hss.
    + by rewrite Hhp1.
  - right. split; [done|]. split; simpl; try done.
    + unfold position. rewrite Hs1. by left.
    + by rewrite Hm', Hm.
    + by rewrite Hv'.
    + by rewrite Hhp1.
Qed.

(** The group has no more blocks. *)
Lemma found_none (Q : ghost) st pend xs G ys front (removed : bool) :
  core Q st pend -> arriving (rd_ st) (groups_ st) xs G ys front [] -> on_way (rd_ st) (groups_ st) ->
  (removed = false -> outside (rd_block_ (rd_ st)) ys /\ in_used (rd_block_ (rd_ st)) (groups_ st)) ->
  next_ok Q st pend (Some (false, map_rd (fun r => set_mem (left_holes_num_ r) (cur_group_using_blocks_num_ r) false version_invalid
    (if removed then set_position (last_group_ r) (cur_group_ r) (last_block_ r) (last_block_ r) r else r)) st)).
Proof.
  intros Hc [Hg Hcur Hu Hn Hl Ho Hin] [Hv Hlg Hs [Hhp Hrest]] Hrm. eexists false, _, Q. split; [done|]. split; [by apply core_rd|]. split; [done|].
  set (b := if removed then last_block_ (rd_ st) else rd_block_ (rd_ st)).
  assert (outside b ys /\ in_used b (groups_ st)) as [Hob Hib] by (unfold b; destruct removed; auto).
  assert (forall r, r = (if removed then set_position (last_group_ (rd_ st)) (cur_group_ (rd_ st)) (last_block_ (rd_ st)) (last_block_ (rd_ st)) (rd_ st) else rd_ st) ->
    cur_group_ r = cur_group_ (rd_ st) /\ last_group_ r = last_group_ (rd_ st) /\ rd_block_ r = b /\ last_block_ r = last_block_ (rd_ st) /\
    rd_version_ r = rd_version_ (rd_ st) /\ state_ r = state_ (rd_ st) /\
    hp_success r = false /\ hp_rest r = []) as Hr by (intros r ->; unfold b; by destruct removed).
  destruct (Hr _ eq_refl) as (E1 & E2 & E3 & E4 & E6 & E7 & E8 & E9). split; simpl.
  - split; simpl; rewrite ?E1, ?E2, ?E6, ?E7, ?E8, ?E9; done.
  - split; [done|]. split; simpl; rewrite ?E1, ?E2, ?E3, ?E4, ?E6, ?E8, ?E9; try done.
    unfold position. simpl. split; [|done]. right. exists xs, G, ys. simpl. rewrite E1, E3, E4, Hu, app_nil_r. done.
Qed.

(** The rest of the function, once the block behind is left. *)
Definition new_last (here : option nat) (removed : bool) (r : reading) : reading :=
  if (negb removed && bool_decide (is_Some here)) || bool_decide (rd_block_ r = None)
  then set_position (last_group_ r) (cur_group_ r) (rd_block_ r) (rd_block_ r) r else r.

Definition arrive (id : nat) (here next : option nat) (removed : bool) (st : state) : option (bool * state) :=
  if Z.of_nat max_blocks <? cur_group_using_blocks_num_ (rd_ st) then None else
  let st := map_rd (new_last here removed) st in
  match next with
  | Some i => st ← enter_block version id i st; Some (true, st)
  | None =>
      Some (false, map_rd (fun r => set_mem (left_holes_num_ r) (cur_group_using_blocks_num_ r) false version_invalid
                                      (if removed then set_position (last_group_ r) (cur_group_ r) (last_block_ r) (last_block_ r) r else r)) st)
  end.

Lemma arrive_ok (Q : ghost) st pend xs G ys front post here removed :
  core Q st pend -> arriving (new_last here removed (rd_ st)) (groups_ st) xs G ys front post -> on_way (rd_ st) (groups_ st) ->
  (removed = false -> outside (rd_block_ (rd_ st)) ys /\ in_used (rd_block_ (rd_ st)) (groups_ st)) ->
  next_ok Q st pend (arrive (g_id G) here (head post) removed st).
Proof.
  intros Hc Ha Hw Hrm. unfold arrive.
  assert (on_way (new_last here removed (rd_ st)) (groups_ st) /\ cur_group_using_blocks_num_ (new_last here removed (rd_ st)) = cur_group_using_blocks_num_ (rd_ st) /\
    rd_block_ (new_last here removed (rd_ st)) = rd_block_ (rd_ st)) as (Hw' & En & Eb) by (unfold new_last; destruct (_ || _); split_and!; done || by destruct Hw).
  pose proof (c_group _ _ _ Hc) as Hgi. pose proof Ha as [Hg _ Hu Hn _ _ _]. rewrite Hg in Hgi. pose proof (used_length _ _ _ _ _ Hgi) as Hlen.
  rewrite Hu, length_app in Hlen. rewrite En in Hn. rewrite (proj2 (Z.ltb_ge _ _)) by (rewrite Hn; lia).
  assert (next_ok Q (map_rd (new_last here removed) st) pend
    match head post with
    | Some i => st ← enter_block version (g_id G) i (map_rd (new_last here removed) st); Some (true, st)
    | None => Some (false, map_rd (fun r => set_mem (left_holes_num_ r) (cur_group_using_blocks_num_ r) false version_invalid
        (if removed then set_position (last_group_ r) (cur_group_ r) (last_block_ r) (last_block_ r) r else r)) (map_rd (new_last here removed) st))
    end) as Hok; [|exact Hok].
  destruct post as [|i post]; simpl head.
  - eapply found_none; [by apply core_rd|exact Ha|done|]. simpl. by rewrite Eb.
  - eapply found_enter; [by apply core_rd|exact Ha|done].
Qed.

(** What stands on the used lists is not moved by what comes from the stage. *)
Lemma core_stage (Q : ghost) st pend xs G G1 ys : core Q st pend -> groups_ st = xs ++ G :: ys -> g_id G1 = g_id G ->
  used_ G1 ++ stage_ G1 = used_ G ++ stage_ G -> free_ G1 = free_ G ->
  core Q (set_groups (xs ++ G1 :: ys) (pool_ st) (current_group_index_ st) st) pend.
Proof.
  intros Hc Hg Hid Hus Hf. pose proof (c_group _ _ _ Hc) as Hgi. rewrite Hg in Hgi. apply core_groups; [done| |].
  - eapply group_inv_put; [exact Hgi|done|]. rewrite (Permutation_app_comm (free_ G1)), (Permutation_app_comm (free_ G)), !app_assoc. by rewrite Hus, Hf.
  - intros b. rewrite Hg, !live_middle. by rewrite Hid, Hus.
Qed.

Lemma in_used_stage b xs G G1 ys front post post' : g_id G1 = g_id G -> used_ G = front ++ post -> used_ G1 = front ++ post' ->
  (forall i, in_group (g_id G) b = Some i -> i ∈ front) -> in_used b (xs ++ G :: ys) -> in_used b (xs ++ G1 :: ys).
Proof. intros Hid Hu Hu1 Hb. apply in_used_put; [done|]. intros i Hi. rewrite Hu1. apply elem_of_app. left. by apply Hb. Qed.

Lemma next_ok_from (Q Q1 : ghost) st st1 pend r : same_rest Q st Q1 st1 -> next_ok Q1 st1 pend r -> next_ok Q st pend r.
Proof. intros Hs (f & st' & Q' & ? & ? & ? & ?). exists f, st', Q'. split_and!; try done. by eapply same_rest_trans. Qed.

(** What the reader has to be for [rt_try_traverse_to_next_block_in_group]. *)
Lemma reader_on_way (r : reading) (gs : list group) (blocks : gmap block_id block) (R : gmap nat Z) :
  reader_inv version r gs blocks R -> state_ r = next_block_finding -> hp_success r = false -> on_way r gs.
Proof. intros [H1 H2 H3 H4 H5 H6 H7] Hs Hhp. rewrite Hhp in H7. by split. Qed.

(** The same groups but for the lists of one. *)
Lemma on_way_ids r gs gs' : g_id <$> gs' = g_id <$> gs -> on_way r gs -> on_way r gs'.
Proof. intros E [H1 H2 H3 H4]. split; try done. by rewrite E. Qed.

Lemma ids_put xs G G1 ys : g_id G1 = g_id G -> g_id <$> xs ++ G1 :: ys = g_id <$> xs ++ G :: ys.
Proof. intros E. by rewrite !fmap_app, !fmap_cons, E. Qed.

(** From the group itself to its first block. *)
Lemma next_first_ok (Q : ghost) st pend : core Q st pend ->
  reader_inv version (rd_ st) (groups_ st) (blocks_ st) (reads_of (threads_ st)) -> state_ (rd_ st) = next_block_finding -> hp_success (rd_ st) = false ->
  at_group (rd_ st) (groups_ st) -> next_ok Q st pend (rt_try_traverse_to_next_block_in_group max_blocks version st).
Proof.
  intros Hc Hr Hs Hhp (xs & G & ys & Hg & Hcur & Hn & Hob & Hol). pose proof (c_group _ _ _ Hc) as Hgi. rewrite Hg in Hgi.
  pose proof (group_NoDup _ _ _ _ _ Hgi) as Hnd. apply NoDup_app in Hnd as (Hnd & _). pose proof (groups_NoDup _ _ _ Hgi) as Hids.
  destruct (next_block_spec [] (used_ G) G eq_refl Hnd) as (post & G1 & En & Hu1 & Hid1 & Hus1 & Hf1).
  apply outside_group in Hob as [Hib Hob], Hol as [Hil Hol]. destruct (r_used _ _ _ _ _ Hr) as [Hinb Hinl].
  unfold rt_try_traverse_to_next_block_in_group. rewrite Hcur. cbn [mbind option_bind]. rewrite Hg, find_group_split by done. cbn [mbind option_bind].
  rewrite Hib. simpl last in En. rewrite En. cbn [mbind option_bind]. rewrite decide_False by (by intros [[i ->] ?]).
  rewrite put_group_split by done. cbn [leave_block mbind option_bind].
  set (st1 := set_groups (xs ++ G1 :: ys) (pool_ st) (current_group_index_ st) st).
  assert (core Q st1 pend) as Hc1 by (by eapply core_stage). rewrite <- Hid1.
  assert (forall b, in_group (g_id G) b = None -> in_used b (groups_ st) -> in_used b (xs ++ G1 :: ys)) as Hput.
  { intros b Hb. rewrite Hg. apply in_used_put; [done|]. congruence. }
  eapply (arrive_ok Q st1 pend xs G1 ys [] post None false Hc1).
  - unfold new_last. simpl. destruct (bool_decide _); (split; simpl; try done); by rewrite Hid1 || (by apply Hput).
  - eapply on_way_ids; [by apply (ids_put xs G)|]. rewrite <- Hg. by eapply reader_on_way.
  - intros _. split; [done|]. by apply Hput.
Qed.

(** A block is left, and unlinked when nothing is to be read of it any more. *)
Lemma next_left_ok (Q : ghost) st pend xs G ys pre i post : core Q st pend -> leaving (rd_ st) (groups_ st) xs G ys pre i post ->
  on_way (rd_ st) (groups_ st) ->
  (is_block_marked_removed (rd_ st) = true -> verify_result_ (rd_ st) = valid /\ exists k, blocks_ st !! (g_id G, i) = Some k /\ is_removed k = true /\
     bk_items k = [] /\ reads_of (threads_ st) !! tls_info_ (bk_context k) = Some (seq_ (bk_context k))) ->
  next_ok Q st pend ('(removed, st) ← leave_block version (g_id G) (Some i) st; arrive (g_id G) (Some i) (head post) removed st).
Proof using Hmax16.
  intros Hc Hlv Hw Hmk. pose proof (c_group _ _ _ Hc) as Hgi. pose proof Hlv as [Hg Hcur Hu Hn Hb Hl Ho Hin].
  assert (NoDup (g_id <$> xs ++ G :: ys)) as Hids by (rewrite <- Hg; by eapply groups_NoDup).
  destruct (is_block_marked_removed (rd_ st)) eqn:Hm.
  - destruct (Hmk eq_refl) as (Hval & k & Hk & Hrm & Hit & HR).
    destruct (leave_marked Q st pend xs G ys pre i post k Hc Hlv Hm (y_version _ _ Hw) Hval Hk Hrm Hit HR)
      as (w & b & Q' & st' & G' & -> & Hc' & Hsr & Hid & Hrd & Ha & Hids').
    cbn [mbind option_bind]. eapply next_ok_from; [exact Hsr|]. rewrite <- Hid.
    apply (arrive_ok Q' st' pend xs G' ys pre post (Some i) true); [done| | |done].
    + unfold new_last. simpl. rewrite Hrd. simpl. rewrite Hb. simpl. by rewrite <- Hrd.
    + eapply on_way_ids; [exact Hids'|]. rewrite Hrd. by destruct Hw.
  - destruct (leave_unmarked Q st pend xs G ys pre i post Hc Hlv Hm) as (n & w & b & -> & Ha). cbn [mbind option_bind].
    eapply (arrive_ok Q (set_rd (moved n w b (rd_ st)) st) pend xs G ys (pre ++ [i]) post (Some i) false); [by apply core_rd|exact Ha|by destruct Hw|].
    intros _. simpl. rewrite Hb. split; [by apply (outside_here xs)|]. intros x [= <-]. exists G. rewrite Hg, Hu. set_solver.
Qed.

(** From a block to the next one. *)
Lemma next_from_ok (Q : ghost) st pend : core Q st pend ->
  reader_inv version (rd_ st) (groups_ st) (blocks_ st) (reads_of (threads_ st)) -> state_ (rd_ st) = next_block_finding -> hp_success (rd_ st) = false ->
  at_block (rd_ st) (groups_ st) -> next_ok Q st pend (rt_try_traverse_to_next_block_in_group max_blocks version st).
Proof using Hmax16.
  intros Hc Hr Hs Hhp (xs & G & ys & pre & i & post0 & Hg & Hcur & Hu & Hn & Hb & Hl & Ho). pose proof (c_group _ _ _ Hc) as Hgi. rewrite Hg in Hgi.
  pose proof (group_NoDup _ _ _ _ _ Hgi) as Hnd. pose proof (groups_NoDup _ _ _ Hgi) as Hids. destruct (r_used _ _ _ _ _ Hr) as [Hinb Hinl].
  assert (used_ G = (pre ++ [i]) ++ post0) as Hu' by (by rewrite Hu, <- app_assoc). pose proof Hnd as (Hndu & _)%NoDup_app.
  destruct (next_block_spec (pre ++ [i]) post0 G Hu' Hndu) as (post & G1 & En & Hu1 & Hid1 & Hus1 & Hf1). rewrite last_snoc in En.
  rewrite <- Hus1 in Hnd. apply NoDup_app in Hnd as (Hnd1 & _). rewrite Hu1, <- app_assoc in Hnd1. simpl in Hnd1.
  assert (~ (is_Some (head post) /\ head post = Some i)) as Hne.
  { intros [_ Hh]. apply NoDup_app in Hnd1 as (_ & _ & Hnd1). apply NoDup_cons in Hnd1 as [Hn1 _]. by apply Hn1, head_in. }
  unfold rt_try_traverse_to_next_block_in_group. rewrite Hcur. cbn [mbind option_bind]. rewrite Hg, find_group_split by done. cbn [mbind option_bind].
  rewrite Hb. cbn [in_group]. rewrite Nat.eqb_refl, En. cbn [mbind option_bind]. rewrite decide_False by done. rewrite put_group_split by done.
  set (st1 := set_groups (xs ++ G1 :: ys) (pool_ st) (current_group_index_ st) st).
  assert (core Q st1 pend) as Hc1 by (by eapply core_stage). rewrite <- Hid1.
  assert (leaving (rd_ st1) (groups_ st1) xs G1 ys pre i post) as Hlv.
  { split; simpl; rewrite ?Hid1; try done; [by rewrite Hu1, <- app_assoc|]. eapply (in_used_stage _ xs G G1 ys (pre ++ [i]) post0 post); try done; [|by rewrite <- Hg].
    intros j Hj. rewrite Hl in Hj. apply last_Some in Hj as (p & ->). set_solver. }
  assert (on_way (rd_ st1) (groups_ st1)) as Hw1 by (eapply on_way_ids; [by apply (ids_put xs G)|]; rewrite <- Hg; by eapply reader_on_way).
  eapply (next_ok_from Q Q st st1); [done|]. apply (next_left_ok Q st1 pend xs G1 ys pre i post); try done. intros Hm. simpl in Hm.
  pose proof (r_marked _ _ _ _ _ Hr Hm) as Hval. split; [done|]. destruct (r_verified _ _ _ _ _ Hr Hval) as (b & k & Hb' & Hk & HR & Hit).
  destruct (Hit Hm) as [Hrm Hi]. exists k. rewrite Hid1. assert (b = (g_id G, i)) as -> by congruence. split_and!; try done. by apply Hi.
Qed.

(** ** The turns *)

Lemma reader_turn (Q : ghost) st st' pend r : core Q st' pend -> reader_inv version r (groups_ st') (blocks_ st') (reads_of (threads_ st')) ->
  hp_success r = false -> same_rest Q st Q st' -> turn_ok max_blocks version Q st pend (Some (None, set_rd r st')).
Proof. intros Hc Hr Hhp Hs. exists None, (set_rd r st'), Q. split; [done|]. split; [|done]. by apply core_inv; [apply core_rd|..]. Qed.

Lemma turn_ok_from (Q Q1 : ghost) st st1 pend r : same_rest Q st Q1 st1 -> turn_ok max_blocks version Q1 st1 pend r -> turn_ok max_blocks version Q st pend r.
Proof. intros Hs (o & st' & Q' & ? & ? & ?). exists o, st', Q'. split_and!; try done. by eapply same_rest_trans. Qed.

Lemma running_core (Q : ghost) st pend : inv None Q st pend Running -> core Q st pend /\ hp_success (rd_ st) = false /\ hp_rest (rd_ st) = [].
Proof.
  intros Hi. pose proof (v_control _ _ _ _ _ _ _ Hi) as Hhp. simpl in Hhp. pose proof (r_batch _ _ _ _ _ (v_reader _ _ _ _ _ _ _ Hi)) as Hr.
  rewrite Hhp in Hr. split_and!; [by apply inv_core|done|done].
Qed.

Lemma turn_next_block_ok (Q : ghost) st pend : inv None Q st pend Running -> state_ (rd_ st) = next_block_finding ->
  turn_ok max_blocks version Q st pend (turn_next_block_finding max_blocks version st).
Proof using Hmax16.
  intros Hi Hs. destruct (running_core _ _ _ Hi) as (Hc & Hhp & _). pose proof (v_reader _ _ _ _ _ _ _ Hi) as Hr.
  pose proof (r_position _ _ _ _ _ Hr) as Hp. unfold position in Hp. rewrite Hs in Hp.
  assert (next_ok Q st pend (rt_try_traverse_to_next_block_in_group max_blocks version st)) as (found & st' & Q' & E & Hc' & Hsr & [Hv Hlg Hs' [Hhp' _]] & Hf).
  { destruct Hp as [Hat|[Hat _]]; [by apply next_from_ok|by apply next_first_ok]. }
  unfold turn_next_block_finding. rewrite E. cbn [mbind option_bind]. eapply turn_ok_from; [exact Hsr|]. clear E Hsr.
  destruct found; [|apply reader_turn; done || apply Hf]. rewrite Hv, Z.eqb_refl. destruct Hf as [[Hval Hr']|[Hval Hr']]; rewrite Hval; simpl.
  - assert (forall w b, turn_ok max_blocks version Q' st' pend (Some (None, set_rd (set_state hp_block_reading (set_end w b (rd_ st'))) st'))) as Hgo.
    { intros w b. apply reader_turn; try done. exact (reader_end version _ _ _ _ w b (Hr' hp_block_reading (or_introl eq_refl))). }
    destruct (traverse_end_block_is_working_ (rd_ st') && bool_decide (traverse_end_block_ (rd_ st') = rd_block_ (rd_ st'))).
    + cbn [mbind option_bind]. simpl. apply reader_turn; try done. apply Hr'. by right.
    + assert (set_end (traverse_end_block_is_working_ (rd_ st')) (traverse_end_block_ (rd_ st')) (rd_ st') = rd_ st') as Eid by (by destruct (rd_ st')).
      destruct (_ && _); cbn [mbind option_bind]; simpl; rewrite Hs'; [apply Hgo|].
      pose proof (Hgo (traverse_end_block_is_working_ (rd_ st')) (traverse_end_block_ (rd_ st'))) as Hg. by rewrite Eid in Hg.
  - apply reader_turn; try done. by apply reader_end.
Qed.

End Traverse.
End LogBufferTraverse.
