(* ===== verification/LogBufferGroups.v ===== *)
(** * The log buffer: the reader among the groups
    ([src/buffer/log_buffer.cpp], [src/buffer/group_list.cpp])

    The steps of the reader from group to group and the collection of the groups in the pool
    keep the invariant of [LogBufferSystem]: a group that is deleted has no block in use and
    none that waits. *)
From stdpp Require Import functions base list option numbers gmap.
From Stdlib Require Import ZArith Lia Bool.
From S2P Require Import Prelude BufferDefs LogBuffer LogBufferReader LogBufferSystem LogBufferGhost LogBufferFrame LogBufferReads LogBufferTraverse.

Module LogBufferGroups.
Import LogBuffer LogBufferReader LogBufferSystem LogBufferGhost LogBufferFrame LogBufferReads LogBufferTraverse.

Section Groups.
Context {A : Type}.
Abbreviation state := (@state A).
Abbreviation block := (@block A).
Abbreviation reading := (@reading A).
Abbreviation control := (@control A).
Abbreviation ghost := (nat -> list (place * list A)).
Variables (max_blocks : nat) (version : Z).
Abbreviation inv := (@inv A max_blocks version).
Abbreviation core := (@core A max_blocks version).

(** ** Lists of groups *)

Lemma group_after_ids gs xs h g ys : NoDup (g_id <$> gs) -> g_id <$> gs = xs ++ h :: g :: ys -> group_after h gs = Some g.
Proof.
  intros Hnd E. apply fmap_app_inv in E as (l1 & l2 & -> & E & ->). symmetry in E. destruct l2 as [|H [|G l2]]; try done.
  rewrite !fmap_cons in E. injection E as <- <- <-. by rewrite group_after_split.
Qed.

Lemma filter_group xs G ys : NoDup (g_id <$> xs ++ G :: ys) -> List.filter (fun h => negb (g_id h =? g_id G)%nat) (xs ++ G :: ys) = xs ++ ys.
Proof.
  intros Hnd. rewrite fmap_app, fmap_cons in Hnd. apply NoDup_app in Hnd as (_ & Hx & Hnd). apply NoDup_cons in Hnd as [Hy _].
  assert (forall l : list group, g_id G ∉ g_id <$> l -> List.filter (fun h => negb (g_id h =? g_id G)%nat) l = l) as Hl.
  { induction l as [|h l IH]; [done|]. rewrite fmap_cons. intros Hn. apply not_elem_of_cons in Hn as [Hne Hn]. simpl.
    assert ((g_id h =? g_id G)%nat = false) as -> by (apply Nat.eqb_neq; congruence). simpl. by rewrite IH. }
  rewrite List.filter_app. simpl. rewrite Nat.eqb_refl. simpl. rewrite !Hl; [done|done|]. intros Hin. apply (Hx _ Hin). by left.
Qed.

Lemma pivot_unique {B} (x : B) (l1 l2 l3 l4 : list B) : NoDup (l1 ++ x :: l2) -> l1 ++ x :: l2 = l3 ++ x :: l4 -> l1 = l3 /\ l2 = l4.
Proof.
  revert l3. induction l1 as [|y l1 IH]; intros [|z l3] Hnd E; simpl in *.
  - by injection E.
  - injection E as -> ->. apply NoDup_cons in Hnd as [Hn _]. destruct Hn. apply elem_middle.
  - injection E as -> <-. apply NoDup_cons in Hnd as [Hn _]. destruct Hn. apply elem_middle.
  - injection E as -> E. apply NoDup_cons in Hnd as [_ Hnd]. by destruct (IH l3 Hnd E) as [-> ->].
Qed.

(** What was in front of the group that is gone is in front of the next one. *)
Lemma ids_behind xs G G' ys h l1 l2 : NoDup (g_id <$> xs ++ G :: G' :: ys) -> g_id <$> xs ++ G :: G' :: ys = l1 ++ h :: g_id G :: l2 ->
  exists xs' ys', g_id <$> xs ++ G' :: ys = xs' ++ h :: g_id G' :: ys'.
Proof.
  intros Hnd E. rewrite fmap_app, !fmap_cons in Hnd, E. replace (l1 ++ h :: g_id G :: l2) with ((l1 ++ [h]) ++ g_id G :: l2) in E by by rewrite <- app_assoc.
  destruct (pivot_unique _ _ _ _ _ Hnd E) as [E1 E2]. exists l1, (g_id <$> ys). rewrite fmap_app, fmap_cons, E1. by rewrite <- app_assoc.
Qed.

(** A group without blocks goes to the pool. *)
Lemma group_inv_delete xs G ys pool index now : group_inv max_blocks (xs ++ G :: ys) pool index -> used_ G = [] -> stage_ G = [] ->
  group_inv max_blocks (xs ++ ys) (mk_group (g_id G) (used_ G) (free_ G) (stage_ G) now :: pool) index.
Proof.
  intros [H1 H2 H3 H4] Hu Hs.
  assert (forall g, g ∈ (xs ++ ys) ++ mk_group (g_id G) (used_ G) (free_ G) (stage_ G) now :: pool ->
    exists g', g' ∈ (xs ++ G :: ys) ++ pool /\ g_id g = g_id g' /\ used_ g = used_ g' /\ free_ g = free_ g' /\ stage_ g = stage_ g') as Hin.
  { intros g Hg. rewrite !elem_of_app, elem_of_cons in Hg. destruct Hg as [[?|?]|[->|?]]; [exists g|exists g|exists G|exists g]; (split; [set_solver|done]). }
  split.
  - assert (g_id <$> (xs ++ ys) ++ mk_group (g_id G) (used_ G) (free_ G) (stage_ G) now :: pool ≡ₚ g_id <$> (xs ++ G :: ys) ++ pool) as ->; [|done].
    rewrite !fmap_app, !fmap_cons. simpl. solve_Permutation.
  - intros g Hg. destruct (Hin g Hg) as (g' & Hg' & -> & _). by apply H2.
  - intros g Hg. destruct (Hin g Hg) as (g' & Hg' & _ & -> & -> & ->). by apply H3.
  - intros g Hg. apply elem_of_cons in Hg as [->|Hg]; [done|by apply H4].
Qed.

Lemma live_delete xs G ys b : used_ G = [] -> stage_ G = [] -> live (xs ++ ys) b <-> live (xs ++ G :: ys) b.
Proof. intros Hu Hs. rewrite live_middle, Hu, Hs. split; [by right|]. intros [[_ Hb]|?]; [by apply not_elem_of_nil in Hb|done]. Qed.

Lemma in_used_delete b xs G ys : used_ G = [] -> in_used b (xs ++ G :: ys) -> in_used b (xs ++ ys).
Proof.
  intros Hu Hin x Hx. destruct (Hin x Hx) as (g & Hg & Hid & Hj). exists g. split; [|done]. rewrite elem_of_app, elem_of_cons in Hg.
  destruct Hg as [?|[->|?]]; [set_solver| |set_solver]. rewrite Hu in Hj. by apply not_elem_of_nil in Hj.
Qed.

(** ** [rt_try_traverse_to_next_group] *)

(** In front of the group, or behind the last one; [r] is the reader without its position. *)
Record going (r : reading) (gs : list group) : Prop := {
  z_version : rd_version_ r = version;
  z_marked : is_block_marked_removed r = false;
  z_verified : verify_result_ r <> valid;
  z_batch : hp_success r = false /\ hp_rest r = [];
  z_used : in_used (rd_block_ r) gs /\ in_used (last_block_ r) gs }.

Lemma going_out (r : reading) (gs : list group) (blocks : gmap block_id block) (R : gmap nat Z) s : going r gs -> out_of_groups r ->
  s = lp_buffer_reading \/ s = traversal_completed -> reader_inv version (set_state s r) gs blocks R.
Proof.
  intros [Hv Hm Hvr [Hhp Hr] Hu] (Hc & Hb & Hl) Hs. split; simpl; try done.
  - congruence.
  - unfold position. simpl. destruct Hs as [-> | ->]; [done|by left].
  - by rewrite Hm.
  - by rewrite Hhp.
Qed.

Lemma going_in (r : reading) (gs xs : list group) (G : group) (ys : list group) (blocks : gmap block_id block) (R : gmap nat Z) :
  going r gs -> gs = xs ++ G :: ys -> cur_group_ r = Some (g_id G) -> cur_group_using_blocks_num_ r = 0 ->
  outside (rd_block_ r) (G :: ys) -> outside (last_block_ r) (G :: ys) ->
  (forall h, last_group_ r = Some h -> exists xs' ys', g_id <$> gs = xs' ++ h :: g_id G :: ys') ->
  reader_inv version (set_state next_block_finding r) gs blocks R.
Proof.
  intros [Hv Hm Hvr [Hhp Hr] Hu] Hg Hc Hn Hb Hl Hh. split; simpl; try done.
  - intros g h Hg' Hh'. assert (g = g_id G) as -> by congruence. by apply Hh.
  - unfold position. simpl. right. split; [|done]. by exists xs, G, ys.
  - by rewrite Hm.
  - by rewrite Hhp.
Qed.

(** The reader comes to a group, or to the end of the groups. *)
Definition group_ok (Q : ghost) (st : state) (pend : gmap nat handle) (r : option (bool * state)) : Prop :=
  exists found st', r = Some (found, st') /\ core Q st' pend /\ same_rest Q st Q st' /\ rd_version_ (rd_ st') = version /\ hp_success (rd_ st') = false /\
    if found then reader_inv version (set_state next_block_finding (rd_ st')) (groups_ st') (blocks_ st') (reads_of (threads_ st'))
    else forall s, s = lp_buffer_reading \/ s = traversal_completed -> reader_inv version (set_state s (rd_ st')) (groups_ st') (blocks_ st') (reads_of (threads_ st')).

(** The rest of the function, once the group behind is removed or not. *)
Definition go_on (next : option nat) (removed : bool) (st : state) : option (bool * state) :=
  let r := rd_ st in
  let holes := if bool_decide (is_Some (cur_group_ r)) && negb removed
               then u32 (left_holes_num_ r + u32 (Z.of_nat max_blocks - cur_group_using_blocks_num_ r)) else left_holes_num_ r in
  let last_group := if removed then last_group_ r else cur_group_ r in
  let r := set_mem holes 0 (is_block_marked_removed r) (verify_result_ r) (set_position last_group None (last_block_ r) (rd_block_ r) r) in
  match next with
  | None => Some (false, set_rd (set_mem 0 0 (is_block_marked_removed r) (verify_result_ r) (set_position last_group None None None r)) st)
  | Some id => Some (true, set_rd (set_position last_group (Some id) (last_block_ r) (rd_block_ r) r) st)
  end.

Lemma go_on_ok (Q : ghost) st pend (xs ys : list group) (removed : bool) : core Q st pend -> going (rd_ st) (groups_ st) -> groups_ st = xs ++ ys ->
  outside (rd_block_ (rd_ st)) ys -> outside (last_block_ (rd_ st)) ys ->
  (forall h G ys', (if removed then last_group_ (rd_ st) else cur_group_ (rd_ st)) = Some h -> ys = G :: ys' ->
     exists xs' ys', g_id <$> groups_ st = xs' ++ h :: g_id G :: ys') ->
  group_ok Q st pend (go_on (g_id <$> head ys) removed st).
Proof.
  intros Hc Hz Hg Hb Hl Hh. pose proof Hz as [Hv Hm Hvr Hhp [Hub Hul]]. destruct ys as [|G ys].
  - eexists false, _. split; [done|]. split_and!; [by apply core_rd|done|done|apply Hhp|]. intros s Hs. apply going_out; [by split|done|done].
  - eexists true, _. split; [done|]. split_and!; [by apply core_rd|done|done|apply Hhp|]. eapply going_in; [by split|exact Hg|done..|].
    intros h Hh'. by apply (Hh h G ys).
Qed.

Lemma past_going (r : reading) (gs : list group) (blocks : gmap block_id block) (R : gmap nat Z) :
  reader_inv version r gs blocks R -> state_ r = next_group_finding -> hp_success r = false -> going r gs.
Proof.
  intros [H1 H2 H3 H4 H5 H6 H7] Hs Hhp. rewrite Hhp in H7. unfold position in H4. rewrite Hs in H4. destruct H4 as [_ Hvr].
  split; try done. by destruct (is_block_marked_removed r); [destruct Hvr; apply H5|].
Qed.

(** A group with no block in use is removed, unless a block waits in it. *)
Lemma remove_group_ok (Q : ghost) st pend xs G ys now : core Q st pend ->
  reader_inv version (rd_ st) (groups_ st) (blocks_ st) (reads_of (threads_ st)) -> groups_ st = xs ++ G :: ys -> cur_group_ (rd_ st) = Some (g_id G) -> used_ G = [] ->
  remove_group (g_id G) now st = Some (false, st) \/
  stage_ G = [] /\ remove_group (g_id G) now st =
    Some (true, set_groups (xs ++ ys) (mk_group (g_id G) (used_ G) (free_ G) (stage_ G) now :: pool_ st) (current_group_index_ st) st).
Proof.
  intros Hc Hr Hg Hcur Hu. pose proof (groups_NoDup _ _ _ _ (c_group _ _ _ _ _ Hc)) as Hids.
  assert ((match last_group_ (rd_ st) with Some h => bool_decide (group_after h (groups_ st) = Some (g_id G)) | None => true end) = true) as Hloc.
  { destruct (last_group_ (rd_ st)) as [h|] eqn:Eh; [|done]. destruct (r_last_group _ _ _ _ _ Hr _ _ Hcur Eh) as (xs' & ys' & E).
    apply bool_decide_eq_true. by eapply group_after_ids. }
  assert (in_group (g_id G) (last_block_ (rd_ st)) = None) as Hin.
  { destruct (in_group _ _) as [i|] eqn:E; [|done]. exfalso. destruct (last_block_ (rd_ st)) as [[g j]|] eqn:El; [|done]. simpl in E.
    destruct (Nat.eqb_spec g (g_id G)) as [->|]; [|done]. destruct (r_used _ _ _ _ _ Hr) as [_ Hul]. destruct (Hul _ El) as (g' & Hg' & Hid & Hj).
    assert (g' = G) as ->. { eapply (key_inj g_id (groups_ st)); [exact Hids|done|rewrite Hg; apply elem_middle|done]. }
    rewrite Hu in Hj. by apply not_elem_of_nil in Hj. }
  rewrite Hg in Hids. unfold remove_group. rewrite Hloc, Hg, find_group_split by done. cbn [mbind option_bind]. rewrite Hu, Hin.
  destruct (stage_ G) as [|j l] eqn:Es; [right|by left]. split; [done|].
  unfold delete_group. rewrite Hg, find_group_split by done. cbn [mbind option_bind]. rewrite filter_group, Hu, Es by done. done.
Qed.

Lemma next_group_ok (Q : ghost) st pend now : core Q st pend ->
  reader_inv version (rd_ st) (groups_ st) (blocks_ st) (reads_of (threads_ st)) -> state_ (rd_ st) = next_group_finding -> hp_success (rd_ st) = false ->
  group_ok Q st pend (rt_try_traverse_to_next_group max_blocks now st).
Proof.
  intros Hc Hr Hs Hhp. pose proof (past_going _ _ _ _ Hr Hs Hhp) as Hz. pose proof (r_position _ _ _ _ _ Hr) as Hp. unfold position in Hp. rewrite Hs in Hp.
  pose proof (c_group _ _ _ _ _ Hc) as Hgi. pose proof (groups_NoDup _ _ _ _ Hgi) as Hids.
  unfold rt_try_traverse_to_next_group. destruct Hp as [[(Hcur & Hb & Hl)|(xs & G & ys & Hg & Hcur & Hn & Hob & Hol)] _]; rewrite Hcur.
  - cbn [mbind option_bind]. apply (go_on_ok Q st pend [] (groups_ st) false); rewrite ?Hb, ?Hl, ?Hcur; try done; by intros ? ? [=].
  - assert (group_after (g_id G) (groups_ st) = g_id <$> head ys) as -> by (rewrite Hg in Hids |- *; by apply group_after_split).
    assert (group_ok Q st pend (go_on (g_id <$> head ys) false st)) as Hstay.
    { apply (go_on_ok Q st pend (xs ++ [G]) ys false); try done; [by rewrite <- app_assoc|]. intros h G' ys' Hh ->.
      exists (g_id <$> xs), (g_id <$> ys'). rewrite Hg, fmap_app, !fmap_cons. by assert (h = g_id G) as -> by congruence. }
    destruct (Z.eqb_spec (cur_group_using_blocks_num_ (rd_ st)) 0) as [E0|]; [|exact Hstay].
    assert (used_ G = []) as Hu by (destruct (used_ G); [done|simpl in Hn; lia]).
    destruct (remove_group_ok Q st pend xs G ys now Hc Hr Hg Hcur Hu) as [-> |[Hst ->]]; [exact Hstay|]. cbn [mbind option_bind].
    set (st1 := set_groups _ _ _ _).
    assert (group_ok Q st1 pend (go_on (g_id <$> head ys) true st1)) as Hok; [|exact Hok].
    rewrite Hg in Hgi. apply (go_on_ok Q st1 pend xs ys true); try done.
    + apply core_groups; [done|by apply group_inv_delete|]. intros b. rewrite Hg. by apply live_delete.
    + destruct Hz as [? ? ? ? [Hub Hul]]. split; try done. rewrite Hg in Hub, Hul. split; by eapply in_used_delete.
    + simpl. intros h G' ys' Hh ->. destruct (r_last_group _ _ _ _ _ Hr _ _ Hcur Hh) as (l1 & l2 & E). rewrite Hg in E, Hids.
      exact (ids_behind xs G G' ys' h l1 l2 Hids E).
Qed.

(** ** The turn *)

Lemma turn_next_group_ok (Q : ghost) st pend now : inv None Q st pend Running -> state_ (rd_ st) = next_group_finding ->
  turn_ok max_blocks version Q st pend (turn_next_group_finding max_blocks version now st).
Proof.
  intros Hi Hs. destruct (running_core _ _ _ _ _ Hi) as (Hc & Hhp & _). pose proof (v_reader _ _ _ _ _ _ _ Hi) as Hr.
  destruct (next_group_ok Q st pend now Hc Hr Hs Hhp) as (found & st' & E & Hc' & Hsr & Hv & Hhp' & Hf).
  unfold turn_next_group_finding. rewrite E. cbn [mbind option_bind]. eapply turn_ok_from; [exact Hsr|]. clear E Hsr.
  destruct found; [by apply reader_turn|].
  cbv zeta. destruct (traverse_end_block_is_working_ (set_state lp_buffer_reading (rd_ st'))).
  - destruct (decide _).
    + simpl rd_version_. rewrite Hv, Z.eqb_refl. apply reader_turn; try done. apply Hf. by right.
    + apply reader_turn; try done. apply Hf. by left.
  - apply reader_turn; try done. apply reader_end, Hf. by left.
Qed.

(** ** The collection of the pool *)

Lemma evict_tail_prefix now pool : exists gone, pool = evict_tail now pool ++ gone.
Proof.
  induction pool as [|g pool [gone IH]]; [by exists []|]. simpl. destruct (evict_tail now pool) as [|g' l] eqn:E.
  - destruct (_ <=? _); [by exists (g :: pool)|]. exists pool. done.
  - exists gone. rewrite IH at 1. done.
Qed.

Lemma garbage_collect_ok (Q : ghost) st pend ctl now : inv None Q st pend ctl -> inv None Q (garbage_collect now st) pend ctl.
Proof.
  intros [Hlp Hblk Hbk Hth Hcu Hpd Hos Hgr Hrd Hctl]. constructor; simpl; try done.
  destruct (evict_tail_prefix now (pool_ st)) as (gone & E). destruct Hgr as [H1 H2 H3 H4].
  assert (forall g, g ∈ evict_tail now (pool_ st) -> g ∈ pool_ st) as Hin by (intros g Hg; rewrite E; apply elem_of_app; by left).
  assert (forall g, g ∈ groups_ st ++ evict_tail now (pool_ st) -> g ∈ groups_ st ++ pool_ st) as Hin'.
  { intros g Hg. apply elem_of_app in Hg as [?|?]; apply elem_of_app; [by left|right; by apply Hin]. }
  split; auto. rewrite E, app_assoc, fmap_app in H1. by apply NoDup_app in H1 as (? & _).
Qed.

End Groups.
End LogBufferGroups.
