(* ===== verification/LogBufferTheorems.v ===== *)
(** * The log buffer: theorems
    ([src/buffer/log_buffer.cpp], [src/buffer/group_list.cpp], [include/qlog/buffer/log_buffer.hpp])

    Every run of the system of [LogBufferSystem] keeps its invariant and no call of it fails;
    what a thread has committed is what the reader has returned of it, in the same order,
    followed by what is in the buffer. *)
From stdpp Require Import functions base list option numbers gmap.
From Stdlib Require Import ZArith Lia Bool.
From S2P Require Import Prelude BufferDefs LogBuffer LogBufferReader LogBufferSystem LogBufferGhost LogBufferFrame LogBufferWriter LogBufferCalls LogBufferReads LogBufferTraverse LogBufferGroups.

Import LogBuffer LogBufferReader LogBufferSystem LogBufferGhost LogBufferFrame LogBufferWriter LogBufferCalls LogBufferReads LogBufferTraverse LogBufferGroups.

Section Theorems.
Context {A : Type}.
Abbreviation state := (@state A).
Abbreviation system := (@system A).
Abbreviation event := (@event A).
Abbreviation control := (@control A).
Abbreviation oversize := (@oversize A).
Abbreviation lp_chunk := (@lp_chunk A).
Abbreviation ghost := (nat -> list (place * list A)).
Variables (max_blocks : nat) (policy : log_memory_policy) (threshold : Z) (version : Z) (block_max_alloc : Z).
Hypotheses (Hversion : 0 <= version < 2 ^ 16) (Hmax : (0 < max_blocks)%nat) (Hmax16 : Z.of_nat max_blocks < 2 ^ 16).
Abbreviation inv := (@inv A max_blocks version).
Abbreviation system_inv := (@system_inv A max_blocks version).
Abbreviation step := (@step A max_blocks policy threshold version block_max_alloc).

(** ** The invariant *)

Lemma turn_running_ok (Q : ghost) st pend now rl wl : inv None Q st pend Running -> turn_ok max_blocks version Q st pend (turn max_blocks version now rl wl st).
Proof using Hversion Hmax16.
  intros Hi. unfold turn. destruct (state_ (rd_ st)) eqn:Es; eauto using turn_lp_ok, turn_hp_ok, turn_next_block_ok, turn_next_group_ok, turn_completed_ok.
Qed.

Lemma initial_system_inv : system_inv (initial_system version).
Proof.
  exists (fun _ => []). split; [|done]. constructor; simpl; try done.
  - split; simpl; [constructor|intros ? []%elem_of_nil..].
  - intros b (g & []%elem_of_nil & _).
  - split; simpl; [constructor|intros ? []%elem_of_nil|intros ? ? []%elem_of_nil|intros ? ? ? ? ? []%elem_of_nil|intros ? ? ? ? []%elem_of_nil|intros ? []%elem_of_nil].
  - split; simpl; [constructor|intros ? []%elem_of_nil..].
  - by left.
Qed.

Lemma owned_app (t : nat) (l l' : list (nat * A)) : owned_by t (l ++ l') = owned_by t l ++ owned_by t l'.
Proof. unfold owned_by. by rewrite filter_app, fmap_app. Qed.

(** An event that is allowed succeeds. *)
Lemma step_ok (s : system) e : system_inv s -> enabled s e -> exists s', step s e = Some s' /\ system_inv s'.
Proof using Hversion Hmax Hmax16.
  intros (Q & Hi & Hw) He. destruct s as [st pend ctl wr tk]. simpl in Hi, Hw. destruct e as [t size now answers|t a|t|now| |now rl wl|]; simpl in He |- *.
  - destruct He as (Hp & Hx & H32).
    destruct (alloc_write_chunk_ok max_blocks policy threshold version block_max_alloc Hversion Hmax pend ctl t Hp Q st size now answers Hi Hx H32)
      as (h & st' & Q' & -> & Hi' & Hs & Hh). cbn [mbind option_bind]. eexists. split; [done|]. exists Q'. split; [by apply inv_pending|].
    intros u. simpl. by rewrite Hs.
  - destruct He as [h Hp]. rewrite Hp. cbn [mbind option_bind].
    destruct (commit_write_chunk_ok max_blocks version Hversion Hmax pend ctl t h Hp Q st a Hi) as (st' & Q' & -> & Hi' & Hr). cbn [mbind option_bind].
    eexists. split; [done|]. exists Q'. split; [done|]. intros u. simpl. rewrite Hr, app_assoc, <- Hw.
    destruct (is_success _); [rewrite owned_app, owned_single; done|]. destruct (decide _); by rewrite app_nil_r.
  - destruct He as (Hp & i & Ht & Hx & H32).
    destruct (thread_exit_ok max_blocks version Hversion Hmax Q st pend ctl t i Hi Hp Ht Hx H32) as (st' & Q' & -> & Hi' & Hs). cbn [mbind option_bind].
    eexists. split; [done|]. exists Q'. split; [done|]. intros u. simpl. by rewrite Hs.
  - eexists. split; [done|]. exists Q. split; [by apply garbage_collect_ok|done].
  - subst ctl. destruct (read_chunk_ok max_blocks version Hversion Q st pend Hi) as (o & st' & Q' & -> & Hi' & Hs). cbn [mbind option_bind].
    eexists. split; [done|]. exists Q'. split; [done|]. intros u. simpl. by rewrite Hs.
  - subst ctl. destruct (turn_running_ok Q st pend now rl wl Hi) as (o & st' & Q' & -> & Hi' & Hs). cbn [mbind option_bind].
    eexists. split; [done|]. exists Q'. split; [done|]. intros u. simpl. by rewrite Hs.
  - destruct He as [o ->]. destruct (return_read_chunk_ok max_blocks version Q st pend o Hi) as (st' & Q' & -> & Hi' & Hr). cbn [mbind option_bind].
    eexists. split; [done|]. exists Q'. split; [done|]. intros u. simpl. by rewrite Hw, Hr, owned_app, app_assoc.
Qed.

Lemma run_inv (s s' : system) es : runs max_blocks policy threshold version block_max_alloc s es s' -> system_inv s -> system_inv s'.
Proof using Hversion Hmax Hmax16.
  induction 1 as [|s e s1 es s2 He Hs _ IH]; [done|]. intros Hi. apply IH. destruct (step_ok s e Hi He) as (s' & Hs' & Hi').
  assert (s' = s1) as <-; [congruence|done].
Qed.

(** ** What is unread *)

Lemma find_some {B} (f : B -> bool) (l : list B) x : x ∈ l -> f x = true -> exists y, List.find f l = Some y /\ y ∈ l /\ f y = true.
Proof.
  intros Hx Hf. destruct (List.find f l) as [y|] eqn:E.
  - apply List.find_some in E as [Hy ?]. exists y. by rewrite list_elem_of_In.
  - rewrite (List.find_none _ _ E x) in Hf; [done|]. by apply list_elem_of_In.
Qed.

Lemma at_seq_spec t s c : at_seq version t s c = true <-> version_ c = version /\ tls_info_ c = t /\ seq_ c = s.
Proof. unfold at_seq. rewrite !andb_true_iff, !Z.eqb_eq, Nat.eqb_eq. tauto. Qed.

Lemma live_blocks_spec gs b : b ∈ live_blocks gs <-> live gs b.
Proof.
  unfold live_blocks, live. rewrite list_elem_of_In, List.in_flat_map. setoid_rewrite <- list_elem_of_In. split.
  - intros (g & Hg & (i & -> & Hi)%list_elem_of_fmap). by exists g.
  - intros (g & Hg & Hid & Hi). exists g. split; [done|]. apply list_elem_of_fmap. exists b.2. rewrite Hid. by destruct b.
Qed.

(** The chunks that a chunk of the shared ring stands for. *)
Lemma lp_content_ok (Q : ghost) st pend ctl c l : inv None Q st pend ctl -> c ∈ lp_ st -> version_ (lc_context c) = version ->
  slot version Q (reads_of (threads_ st)) (exits_of (threads_ st)) (lc_context c) (lp_place c) l -> lp_has c l -> lp_content version (os_ st) c = l.
Proof.
  intros Hi Hc Hv Hs Hh. unfold lp_has in Hh. unfold lp_content. destruct (lc_committed c) eqn:Hcm; [|by rewrite Hh].
  destruct (is_external_ref_ (lc_context c)) eqn:He.
  - destruct Hh as (Hf & a & ->). rewrite Hf. simpl.
    destruct (o_back _ _ _ _ _ _ _ (v_os _ _ _ _ _ _ _ Hi) c Hc Hv Hcm He) as (o & x & Ho & Hx & Ht & Hq).
    assert (forall o x, o ∈ os_ st -> x ∈ os_items o -> slot version Q (reads_of (threads_ st)) (exits_of (threads_ st)) x.1
      (default (P_lp 0 true) (fst <$> Q (tls_info_ x.1) !! Z.to_nat (seq_ x.1))) [x.2]) as Hitem.
    { intros o' x' Ho' Hx'. destruct (o_items _ _ _ _ _ _ _ (v_os _ _ _ _ _ _ _ Hi) o' x' Ho' Hx') as [_ (id & Hs')].
      pose proof (s_entry _ _ _ _ _ _ _ Hs') as E. by rewrite E. }
    destruct (find_some (fun i : context_head * A => at_seq version (tls_info_ (lc_context c)) (seq_ (lc_context c)) i.1) (flat_map os_items (os_ st)) x)
      as (y & -> & Hy & (_ & Hty & Hqy)%at_seq_spec).
    + apply list_elem_of_In, List.in_flat_map. exists o. by rewrite <- !list_elem_of_In.
    + apply at_seq_spec. split; [|done]. apply (Hitem o x Ho Hx).
    + apply list_elem_of_In, List.in_flat_map in Hy as (o' & Ho' & Hy). rewrite <- !list_elem_of_In in *.
      by destruct (slot_inj _ _ _ _ _ _ _ _ _ _ Hs (Hitem o' y Ho' Hy)).
  - destruct (is_thread_finished_ (lc_context c)); simpl; [done|]. by destruct Hh as (a & -> & ->).
Qed.

(** The content of the buffer under a number is what the ghost says. *)
Lemma content_ok (Q : ghost) st pend ctl t r j p l : inv None Q st pend ctl -> reads_of (threads_ st) !! t = Some r -> r <= Z.of_nat j ->
  Q t !! j = Some (p, l) -> content_at version st ctl t (Z.of_nat j) = l.
Proof.
  intros Hi HR Hj HQ. pose proof (v_back _ _ _ _ _ _ _ Hi t r j p l HR Hj HQ) as Hb. unfold content_at.
  assert (forall c, c ∈ lp_ st -> at_seq version t (Z.of_nat j) (lc_context c) = true ->
    lp_place c = p /\ lp_content version (os_ st) c = l) as Hlp.
  { intros c Hc (Hv & Ht & Hq)%at_seq_spec. destruct (l_slot _ _ _ _ _ _ (v_lp _ _ _ _ _ _ _ Hi) c Hc Hv) as (l' & Hs & Hh).
    pose proof (s_entry _ _ _ _ _ _ _ Hs) as E. rewrite Ht, Hq, Nat2Z.id, HQ in E. injection E as -> ->. split; [done|]. by eapply lp_content_ok. }
  destruct p as [id e|b].
  - destruct Hb as (c & Hc & Hid & Hv & Ht & Hq).
    destruct (find_some (fun c : lp_chunk => at_seq version t (Z.of_nat j) (lc_context c)) (lp_ st) c Hc) as (c' & -> & Hc' & Hat); [by apply at_seq_spec|].
    by apply Hlp.
  - destruct (List.find _ (lp_ st)) as [c|] eqn:E.
    { apply List.find_some in E as [Hc Hat]. apply list_elem_of_In in Hc. by destruct (Hlp c Hc Hat) as [[=] _]. }
    destruct Hb as (Hl & k & Hk & Hv & Ht & Hq).
    destruct (find_some (fun b => match blocks_ st !! b with Some k => at_seq version t (Z.of_nat j) (bk_context k) | None => false end) (live_blocks (groups_ st)) b)
      as (b' & -> & Hb' & Hat); [by apply live_blocks_spec|rewrite Hk; by apply at_seq_spec|].
    destruct (blocks_ st !! b') as [k'|] eqn:Hk'; [|done]. apply at_seq_spec in Hat as (_ & Ht' & Hq'). apply live_blocks_spec in Hb'.
    destruct (v_block _ _ _ _ _ _ _ Hi b' Hb') as (k0 & Hk0 & Hs & _). assert (k0 = k') as -> by congruence.
    pose proof (s_entry _ _ _ _ _ _ _ Hs) as E'. rewrite Ht', Hq', Nat2Z.id, HQ in E'. by injection E' as <- <-.
Qed.

Lemma unread_rest (Q : ghost) (s : system) t : inv None Q (buffer s) (pending s) (reader s) ->
  unread version s t = rest_of Q (reads_of (threads_ (buffer s))) t.
Proof.
  intros Hi. unfold unread, rest_of. unfold reads_of at 1. rewrite lookup_fmap.
  pose proof (v_thread _ _ _ _ _ _ _ Hi t) as Hth. unfold reads_of, writes_of in Hth. rewrite !lookup_fmap in Hth.
  destruct (threads_ (buffer s) !! t) as [i|] eqn:Ht; simpl in *; [|by rewrite Hth]. destruct Hth as (Hr & Hw & _). f_equal.
  apply list_eq. intros k. rewrite list_lookup_fmap, lookup_drop, list_lookup_fmap.
  assert (reads_of (threads_ (buffer s)) !! t = Some (current_read_seq_ i)) as HR by (apply view_lookup; by exists i).
  destruct (Q t !! (Z.to_nat (current_read_seq_ i) + k)%nat) as [[p l]|] eqn:E; simpl.
  - pose proof (lookup_lt_Some _ _ _ E) as Hlt. rewrite lookup_seqZ_lt by lia. simpl. f_equal.
    replace (current_read_seq_ i + Z.of_nat k) with (Z.of_nat (Z.to_nat (current_read_seq_ i) + k)) by lia.
    eapply content_ok; [exact Hi|exact HR|lia|exact E].
  - apply lookup_ge_None in E. rewrite lookup_seqZ_ge by lia. done.
Qed.

(** ** Runs *)

Lemma reach_inv (es : list event) (s : system) : runs max_blocks policy threshold version block_max_alloc (initial_system version) es s -> system_inv s.
Proof using Hversion Hmax Hmax16. intros Hr. by eapply run_inv, initial_system_inv. Qed.

Lemma reach_fifo (es : list event) (s : system) : runs max_blocks policy threshold version block_max_alloc (initial_system version) es s ->
  (forall e, enabled s e -> is_Some (LogBufferSystem.step max_blocks policy threshold version block_max_alloc s e)) /\ forall t, owned_by t (written s) = owned_by t (taken s) ++ unread version s t.
Proof using Hversion Hmax Hmax16.
  intros Hr. pose proof (reach_inv es s Hr) as Hs. split.
  - intros e He. destruct (step_ok s e Hs He) as (s' & -> & _). by eexists.
  - intros t. destruct Hs as (Q & Hi & Hw). by rewrite Hw, (unread_rest Q).
Qed.

(** The blocks of a buffer: the lists of a group share its blocks out, a group in the pool has
    none in use, the block of a thread is in use and of that thread only. *)
Record well_formed (st : state) : Prop := {
  wf_groups : NoDup (g_id <$> groups_ st ++ pool_ st);
  wf_lists : forall g, g ∈ groups_ st ++ pool_ st -> used_ g ++ free_ g ++ stage_ g ≡ₚ seq 0 max_blocks;
  wf_pool : forall g, g ∈ pool_ st -> used_ g = [] /\ stage_ g = [];
  wf_block : forall t i b, threads_ st !! t = Some i -> cur_block_ i = Some b ->
    tls_exited i = false /\ b ∈ live_blocks (groups_ st) /\
    exists k, blocks_ st !! b = Some k /\ is_removed k = false /\ tls_info_ (bk_context k) = t /\ version_ (bk_context k) = version;
  wf_reader : forall b, rd_block_ (rd_ st) = Some b -> b ∈ live_blocks (groups_ st);
  wf_seq : forall t i, threads_ st !! t = Some i -> 0 <= current_read_seq_ i <= current_write_seq_ i /\ current_write_seq_ i < 2 ^ 32 }.

Lemma reach_well_formed (es : list event) (s : system) : runs max_blocks policy threshold version block_max_alloc (initial_system version) es s -> well_formed (buffer s).
Proof using Hversion Hmax Hmax16.
  intros Hr. destruct (reach_inv es s Hr) as (Q & Hi & _). destruct (v_group _ _ _ _ _ _ _ Hi) as [H1 H2 H3 H4]. split; try done.
  - intros t i b Ht Hb. destruct (v_cur _ _ _ _ _ _ _ Hi t b) as (Hx & Hl & k & Hk & Hrm & Hkt & _); [apply view_lookup; by exists i|done|].
    split; [apply view_lookup in Hx as (i' & ? & ?); congruence|]. split; [by apply live_blocks_spec|]. exists k. split_and!; try done.
    destruct (v_block _ _ _ _ _ _ _ Hi b Hl) as (k' & Hk' & Hs & _). assert (k' = k) as -> by congruence. apply Hs.
  - intros b Hb. apply live_blocks_spec. eapply reader_live; [apply Hi|done].
  - intros t i Ht. pose proof (v_thread _ _ _ _ _ _ _ Hi t) as Hth. unfold reads_of, writes_of in Hth. rewrite !lookup_fmap, Ht in Hth.
    simpl in Hth. lia.
Qed.

(** C3. The log buffer is a queue per thread. In every run of its writers, of its reader and of
    the ends of its threads, in any order of their steps, every call that the protocol allows
    succeeds and no assertion of the code fails, and what a thread has committed is what the
    reader has returned of that thread, in the same order, followed by what the buffer still
    holds of it, in the shared ring, in its blocks, in the batch that is being handed out or in
    the oversize buffers. *)
Theorem log_buffer_fifo (es : list event) (s : system) : runs max_blocks policy threshold version block_max_alloc (initial_system version) es s ->
  (forall e, enabled s e -> is_Some (LogBufferSystem.step max_blocks policy threshold version block_max_alloc s e)) /\ forall t, owned_by t (written s) = owned_by t (taken s) ++ unread version s t.
Proof using Hversion Hmax Hmax16. apply reach_fifo. Qed.

(** C13. In every run the blocks stay well formed: the lists of every group share out the blocks
    of the group, a group in the pool has none in use, the block of a thread is in use, not
    given up, and of no other thread, the reader stands at a block in use, and the sequence
    numbers of a thread are in order and within their width. *)
Theorem log_buffer_well_formed (es : list event) (s : system) : runs max_blocks policy threshold version block_max_alloc (initial_system version) es s -> well_formed (buffer s).
Proof using Hversion Hmax Hmax16. apply reach_well_formed. Qed.

End Theorems.

(** A run in which a thread writes to the shared ring and to a block, and the reader takes a
    chunk of each. *)
Definition sample_events : list (@event Z) :=
  [Alloc 1 10 0 []; Commit 1 11; Alloc 1 10 0 []; Commit 1 12; Alloc 1 10 0 []; Commit 1 13; Begin; Turn 0 true true; Return;
   Begin; Turn 0 true true; Turn 0 true true; Turn 0 true true; Turn 0 true true; Return].

Lemma log_buffer_fifo_witness : exists s,
  runs 2 auto_expand_when_full 2 7 100 (initial_system 7) sample_events s /\ (forall t, owned_by t (written s) = owned_by t (taken s) ++ unread 7 s t).
Proof.
  assert (exists s, runs 2 auto_expand_when_full 2 7 100 (initial_system 7) sample_events s) as [s Hr].
  { eexists. unfold sample_events. repeat (eapply runs_cons; [vm_compute; done || (split; done) || by eexists|vm_compute; reflexivity|]). apply runs_nil. }
  exists s. split; [exact Hr|]. refine (proj2 (log_buffer_fifo 2 auto_expand_when_full 2 7 100 _ _ _ sample_events s Hr)); lia.
Defined.

Lemma log_buffer_well_formed_witness : exists s,
  runs 2 auto_expand_when_full 2 7 100 (initial_system 7) sample_events s /\ well_formed 2 7 (buffer s).
Proof.
  assert (exists s, runs 2 auto_expand_when_full 2 7 100 (initial_system 7) sample_events s) as [s Hr].
  { eexists. unfold sample_events. repeat (eapply runs_cons; [vm_compute; done || (split; done) || by eexists|vm_compute; reflexivity|]). apply runs_nil. }
  exists s. split; [exact Hr|]. refine (log_buffer_well_formed 2 auto_expand_when_full 2 7 100 _ _ _ sample_events s Hr); lia.
Defined.

