(* ===== verification/Utf.v ===== *)
(** * Text encodings
    ([src/utility/utf_conversion.cpp], [src/utility/utf_mixed.cpp])

    The conversions between UTF-16 and UTF-8, and the mixed encoding of the compressed
    files: an ASCII prefix, a marker byte 0xFF, and the rest in UTF-16. A [char16_t] is a
    16-bit word; a conversion returns what it writes at [dst], whose length is the value
    the function returns. A read behind the source and a write behind the destination are
    [None]. *)
From stdpp Require Import base list option numbers.
From Stdlib Require Import ZArith Lia Bool.
From S2P Require Import Prelude Memory Hash.

(** ** UTF-16 to UTF-8 *)

(** The inner loop that copies units below 0x80. *)
Fixpoint ascii_run (src : list Z) : list Z * list Z :=
  match src with
  | c :: src' => if c <? 0x80 then let '(run, rest) := ascii_run src' in (c :: run, rest) else ([], src)
  | [] => ([], [])
  end.

Definition two_bytes (c : Z) : list Z :=
  [Z.lor 0xC0 (Z.shiftr c 6); Z.lor 0x80 (Z.land c 0x3F)].

Definition three_bytes (c : Z) : list Z :=
  [Z.lor 0xE0 (Z.shiftr c 12); Z.lor 0x80 (Z.land (Z.shiftr c 6) 0x3F); Z.lor 0x80 (Z.land c 0x3F)].

Definition four_bytes (c : Z) : list Z :=
  [Z.lor 0xF0 (Z.shiftr c 18); Z.lor 0x80 (Z.land (Z.shiftr c 12) 0x3F);
   Z.lor 0x80 (Z.land (Z.shiftr c 6) 0x3F); Z.lor 0x80 (Z.land c 0x3F)].

Definition is_high (c : Z) : bool := (0xD800 <=? c) && (c <=? 0xDBFF).
Definition is_low (c : Z) : bool := (0xDC00 <=? c) && (c <=? 0xDFFF).

(** The loop; it ends because each turn takes a unit from the source. *)
Fixpoint utf16_loop (fuel : nat) (src : list Z) : list Z :=
  match fuel, src with
  | S fuel, c :: src =>
      if c <? 0x80 then
        let '(run, rest) := ascii_run src in c :: run ++ utf16_loop fuel rest
      else if c <? 0x800 then two_bytes c ++ utf16_loop fuel src
      else if (0xD800 <=? c) && (c <=? 0xDFFF) then
        if 0xDC00 <=? c then utf16_loop fuel src
        else
          match src with
          | c2 :: src' =>
              if is_low c2 then
                four_bytes (Z.lor (Z.shiftl (Z.land c 0x3FF) 10) (Z.land c2 0x3FF) + 0x10000)
                ++ utf16_loop fuel src'
              else utf16_loop fuel src
          | [] => []
          end
      else three_bytes c ++ utf16_loop fuel src
  | _, _ => []
  end.

Definition utf16_to_utf8_sw (src : list Z) : list Z := utf16_loop (length src) src.

(** ** UTF-8 to UTF-16 *)

Fixpoint utf8_loop (fuel : nat) (s : list Z) : option (list Z) :=
  match fuel, s with
  | S fuel, c :: s =>
      if c <? 0x80 then
        let '(run, rest) := ascii_run s in
        d ← utf8_loop fuel rest; Some (c :: run ++ d)
      else if Z.land c 0xE0 =? 0xC0 then
        match s with
        | b0 :: s =>
            d ← utf8_loop fuel s;
            Some (u16 (Z.lor (u16 (Z.shiftl (Z.land c 0x1F) 6)) (Z.land b0 0x3F)) :: d)
        | _ => None
        end
      else if Z.land c 0xF0 =? 0xE0 then
        match s with
        | b0 :: b1 :: s =>
            d ← utf8_loop fuel s;
            Some (u16 (Z.lor (u16 (Z.shiftl (Z.land c 0x0F) 12))
                        (Z.lor (Z.shiftl (Z.land b0 0x3F) 6) (Z.land b1 0x3F))) :: d)
        | _ => None
        end
      else
        match s with
        | b0 :: b1 :: b2 :: s =>
            let cp := Z.lor (Z.lor (Z.lor (Z.shiftl (Z.land c 0x07) 18) (Z.shiftl (Z.land b0 0x3F) 12))
                              (Z.shiftl (Z.land b1 0x3F) 6)) (Z.land b2 0x3F) in
            let cp := u32 (cp - 0x10000) in
            d ← utf8_loop fuel s;
            Some (u16 (Z.shiftr cp 10 + 0xD800) :: u16 (Z.land cp 0x3FF + 0xDC00) :: d)
        | _ => None
        end
  | _, _ => Some []
  end.

Definition utf8_to_utf16_sw (src : list Z) : option (list Z) := utf8_loop (length src) src.

(** ** The mixed encoding *)

(** [memcpy] of UTF-16 units, and back. *)
Definition unit_bytes (units : list Z) : list Z := units ≫= le_bytes 2.

Fixpoint bytes_units (n : nat) (bytes : list Z) : list Z :=
  match n with
  | O => []
  | S n => le_val (take 2 bytes) :: bytes_units n (drop 2 bytes)
  end.

(** The asserts are those of the debug build; the loop writes before they are checked. *)
Definition utf16_to_utf_mixed (src : list Z) (dst_character_num : Z) : option (list Z) :=
  let '(run, rest) := ascii_run src in
  let written := zlen run in
  if dst_character_num <=? written then None
  else
    match rest with
    | [] => Some run
    | _ =>
        if u32 (dst_character_num - (written + 1)) <? zlen rest * 2 then None
        else Some (run ++ 0xFF :: unit_bytes rest)
    end.

(** [memchr(src, 0xFF, n)]: what is before and after the mark. *)
Fixpoint find_mark (src : list Z) : list Z * option (list Z) :=
  match src with
  | [] => ([], None)
  | c :: src =>
      if c =? 0xFF then ([], Some src)
      else let '(before, after) := find_mark src in (c :: before, after)
  end.

Definition utf_mixed_to_utf8 (src : list Z) (dst_character_num : Z) : option (list Z) :=
  match find_mark src with
  | (_, None) => if dst_character_num <? zlen src then None else Some src
  | (before, Some suffix) =>
      if dst_character_num <? zlen before then None
      else
        let out := utf16_to_utf8_sw (bytes_units (Z.to_nat (Z.shiftr (zlen suffix) 1)) suffix) in
        if dst_character_num <? zlen before + zlen out then None else Some (before ++ out)
  end.

Definition hash_utf_mixed_as_utf16 {Ops : CrcOps} (mixed : list Z) : option Z :=
  let '(before, suffix) := find_mark mixed in
  let buf := unit_bytes before ++ default [] suffix in
  get_hash_64 buf (zlen before * 2 + zlen (default [] suffix)).

(** ** The encodings *)

(** A Unicode scalar value. *)
Definition scalar (c : Z) : Prop := 0 <= c < 0xD800 \/ 0xE000 <= c < 0x110000.

Definition utf8_encode (c : Z) : list Z :=
  if c <? 0x80 then [c]
  else if c <? 0x800 then [0xC0 + c / 64; 0x80 + c mod 64]
  else if c <? 0x10000 then [0xE0 + c / 4096; 0x80 + c / 64 mod 64; 0x80 + c mod 64]
  else [0xF0 + c / 262144; 0x80 + c / 4096 mod 64; 0x80 + c / 64 mod 64; 0x80 + c mod 64].

Definition utf16_encode (c : Z) : list Z :=
  if c <? 0x10000 then [c] else [0xD800 + (c - 0x10000) / 1024; 0xDC00 + (c - 0x10000) mod 1024].

(** The scalar values of a sequence of UTF-16 units; a surrogate that is not part of a
    pair stands for nothing. *)
Fixpoint utf16_decode (src : list Z) : list Z :=
  match src with
  | [] => []
  | c :: src' =>
      if is_low c then utf16_decode src'
      else if is_high c then
        match src' with
        | c2 :: src'' =>
            if is_low c2 then 0x10000 + (c - 0xD800) * 1024 + (c2 - 0xDC00) :: utf16_decode src''
            else utf16_decode src'
        | [] => []
        end
      else c :: utf16_decode src'
  end.

(** ** Arithmetic of the encodings *)

Lemma lor_prefix (p k x : Z) : 0 <= k -> in_range k x -> Z.lor (p * 2 ^ k) x = p * 2 ^ k + x.
Proof. intros Hk Hx. rewrite <- (lor_shiftl_add p x k), Z.shiftl_mul_pow2 by done. done. Qed.

Lemma land_prefix (p k x : Z) : 0 <= k -> in_range k x -> Z.land (p * 2 ^ k + x) (2 ^ k - 1) = x.
Proof.
  intros Hk Hx. rewrite land_mask by done. rewrite Z.add_comm, Z_mod_plus_full.
  by apply Z.mod_small.
Qed.

Lemma lead_bytes (x : Z) :
  (0 <= x < 32 -> Z.lor 0xC0 x = 0xC0 + x) /\ (0 <= x < 16 -> Z.lor 0xE0 x = 0xE0 + x) /\
  (0 <= x < 8 -> Z.lor 0xF0 x = 0xF0 + x).
Proof.
  split_and!; intros H; [by apply (lor_prefix 6 5 x)|by apply (lor_prefix 14 4 x)|by apply (lor_prefix 30 3 x)].
Qed.

Lemma lead_low (x : Z) :
  (0 <= x < 32 -> Z.land (0xC0 + x) 0x1F = x) /\ (0 <= x < 16 -> Z.land (0xE0 + x) 0x0F = x) /\
  (0 <= x < 8 -> Z.land (0xF0 + x) 0x07 = x).
Proof.
  split_and!; intros H; [by apply (land_prefix 6 5 x)|by apply (land_prefix 14 4 x)|by apply (land_prefix 30 3 x)].
Qed.

Lemma tail_byte (x : Z) : 0 <= x < 64 -> Z.lor 0x80 x = 0x80 + x.
Proof. intros H. by apply (lor_prefix 2 6 x). Qed.

Lemma tail_low (x : Z) : 0 <= x < 64 -> Z.land (0x80 + x) 0x3F = x.
Proof. intros H. by apply (land_prefix 2 6 x). Qed.

Lemma low6 (x : Z) : Z.land x 0x3F = x mod 64.
Proof. by apply (land_mask x 6). Qed.

Ltac byte_bounds := Z.to_euclidean_division_equations; lia.

Lemma two_bytes_spec (c : Z) : 0x80 <= c < 0x800 -> two_bytes c = utf8_encode c.
Proof.
  intros H. unfold two_bytes, utf8_encode. rewrite low6, tail_byte, Z.shiftr_div_pow2 by byte_bounds.
  rewrite (proj2 (Z.ltb_ge _ _)), (proj2 (Z.ltb_lt _ _)) by lia.
  by rewrite (proj1 (lead_bytes _)) by byte_bounds.
Qed.

Lemma three_bytes_spec (c : Z) : 0x800 <= c < 0x10000 -> three_bytes c = utf8_encode c.
Proof.
  intros H. unfold three_bytes, utf8_encode. rewrite !low6, !tail_byte, !Z.shiftr_div_pow2 by byte_bounds.
  rewrite !(proj2 (Z.ltb_ge _ _)), (proj2 (Z.ltb_lt _ _)) by lia.
  by rewrite (proj1 (proj2 (lead_bytes _))) by byte_bounds.
Qed.

Lemma four_bytes_spec (c : Z) : 0x10000 <= c < 0x110000 -> four_bytes c = utf8_encode c.
Proof.
  intros H. unfold four_bytes, utf8_encode. rewrite !low6, !tail_byte, !Z.shiftr_div_pow2 by byte_bounds.
  rewrite !(proj2 (Z.ltb_ge _ _)) by lia.
  by rewrite (proj2 (proj2 (lead_bytes _))) by byte_bounds.
Qed.

Lemma pair_value (c c2 : Z) :
  is_high c = true -> is_low c2 = true ->
  Z.lor (Z.shiftl (Z.land c 0x3FF) 10) (Z.land c2 0x3FF) + 0x10000 =
  0x10000 + (c - 0xD800) * 1024 + (c2 - 0xDC00).
Proof.
  unfold is_high, is_low. intros H1 H2.
  assert (Z.land c 0x3FF = c - 0xD800) as ->.
  { replace c with (54 * 2 ^ 10 + (c - 0xD800)) at 1 by lia.
    apply (land_prefix 54 10). - lia. - unfold in_range. lia. }
  assert (Z.land c2 0x3FF = c2 - 0xDC00) as ->.
  { replace c2 with (55 * 2 ^ 10 + (c2 - 0xDC00)) at 1 by lia.
    apply (land_prefix 55 10). - lia. - unfold in_range. lia. }
  rewrite lor_shiftl_add by (unfold in_range; lia). lia.
Qed.

(** ** Runs of ASCII *)

Lemma ascii_run_spec (src run rest : list Z) :
  ascii_run src = (run, rest) -> src = run ++ rest /\ Forall (fun c => c < 0x80) run.
Proof.
  revert run rest. induction src as [|c src IH]; simpl; intros run rest H.
  - injection H as <- <-. split; [done|constructor].
  - destruct (Z.ltb_spec c 0x80).
    + destruct (ascii_run src) as [run' rest'] eqn:E. injection H as <- <-.
      destruct (IH run' rest' eq_refl) as [-> Hf]. split; [done|by constructor].
    + injection H as <- <-. split; [done|constructor].
Qed.

Lemma ascii_run_encoded (cps : list Z) :
  Forall scalar cps ->
  exists cps1 cps2, cps = cps1 ++ cps2 /\ Forall (fun c => 0 <= c < 0x80) cps1 /\
    ascii_run (cps ≫= utf8_encode) = (cps1, cps2 ≫= utf8_encode).
Proof.
  induction 1 as [|c cps Hc _ (cps1 & cps2 & -> & Hf & E)]; [by exists [], []|].
  rewrite bind_cons. unfold utf8_encode at 1. destruct (Z.ltb_spec c 0x80) as [Hlt|Hge].
  - exists (c :: cps1), cps2. split; [done|]. split.
    { constructor; [|done]. unfold scalar in Hc. lia. }
    simpl. rewrite (proj2 (Z.ltb_lt _ _)) by done. rewrite bind_app in E |- *. by rewrite E.
  - exists [], (c :: cps1 ++ cps2). split; [done|]. split; [done|]. unfold scalar in Hc.
    rewrite bind_cons. unfold utf8_encode at 2. rewrite (proj2 (Z.ltb_ge c 0x80)) by done.
    destruct (c <? 0x800); [|destruct (c <? 0x10000)]; simpl app; cbn [ascii_run];
      rewrite (proj2 (Z.ltb_ge _ _)); [done|byte_bounds|done|byte_bounds|done|byte_bounds].
Qed.

Lemma decode_ascii (run rest : list Z) :
  Forall (fun c => c < 0x80) run -> utf16_decode (run ++ rest) = run ++ utf16_decode rest.
Proof.
  induction 1 as [|c run Hc _ IH]; [done|]. simpl. unfold is_low, is_high.
  rewrite !(proj2 (Z.leb_gt _ c)) by lia. simpl. by rewrite IH.
Qed.

Lemma encode_ascii (run : list Z) : Forall (fun c => c < 0x80) run -> run ≫= utf8_encode = run.
Proof.
  induction 1 as [|c run Hc _ IH]; [done|]. rewrite bind_cons, IH. unfold utf8_encode.
  by rewrite (proj2 (Z.ltb_lt _ _)).
Qed.

(** ** The conversions are the encodings *)

Lemma utf16_loop_spec (fuel : nat) (src : list Z) :
  (length src <= fuel)%nat -> Forall (in_range 16) src ->
  utf16_loop fuel src = utf16_decode src ≫= utf8_encode.
Proof.
  revert src. induction fuel as [|fuel IH]; intros [|c src] Hlen Hok; simpl in Hlen; try lia; [done..|].
  apply Forall_cons_iff in Hok as [Hc Hok]. unfold in_range in Hc. cbn [utf16_loop].
  destruct (Z.ltb_spec c 0x80) as [H80|H80].
  { destruct (ascii_run src) as [run rest] eqn:E. apply ascii_run_spec in E as [-> Hrun].
    rewrite length_app in Hlen. apply Forall_app in Hok as [_ Hok]. rewrite IH by (done || lia).
    change (c :: run ++ rest) with ((c :: run) ++ rest).
    assert (Forall (fun c => c < 0x80) (c :: run)) as Hr by (by constructor).
    rewrite decode_ascii, bind_app, (encode_ascii (c :: run)) by done. done. }
  cbn [utf16_decode]. unfold is_low at 2, is_high.
  destruct (Z.ltb_spec c 0x800) as [H800|H800].
  { rewrite !(proj2 (Z.leb_gt _ c)) by lia. cbn [andb]. rewrite bind_cons, two_bytes_spec, IH by (done || lia).
    done. }
  destruct (Z.leb_spec 0xD800 c); cbn [andb].
  2:{ rewrite (proj2 (Z.leb_gt _ c)) by lia. cbn [andb].
      rewrite bind_cons, three_bytes_spec, IH by (done || lia). done. }
  destruct (Z.leb_spec c 0xDFFF); cbn [andb].
  2:{ rewrite (proj2 (Z.leb_le _ c)), (proj2 (Z.leb_gt c 0xDBFF)) by lia. cbn [andb].
      rewrite bind_cons, three_bytes_spec, IH by (done || lia). done. }
  destruct (Z.leb_spec 0xDC00 c); cbn [andb]; [by apply IH; [lia|]|].
  rewrite (proj2 (Z.leb_le c 0xDBFF)) by lia.
  destruct src as [|c2 src]; [done|]. simpl in Hlen.
  destruct (is_low c2) eqn:E2; [|by apply IH; [simpl; lia|]].
  apply Forall_cons_iff in Hok as [Hc2 Hok]. rewrite bind_cons, pair_value by (unfold is_high; lia || done).
  unfold is_low in E2. rewrite four_bytes_spec, IH by (done || lia). done.
Qed.

Lemma utf16_to_utf8_encodes (src : list Z) :
  Forall (in_range 16) src ->
  utf16_to_utf8_sw src = utf16_decode src ≫= utf8_encode /\
  (length (utf16_to_utf8_sw src) <= 3 * length src)%nat.
Proof.
  intros Hok. assert (utf16_to_utf8_sw src = utf16_decode src ≫= utf8_encode) as E
    by (by apply utf16_loop_spec). split; [done|]. rewrite E. clear E.
  assert (forall n src, (length src <= n)%nat -> Forall (in_range 16) src ->
    (length (utf16_decode src ≫= utf8_encode) <= 3 * length src)%nat) as H; [|by apply (H (length src))].
  clear src Hok. induction n as [|n IH]; intros [|c src] Hlen Hok; simpl in Hlen; try lia; try (simpl; lia).
  apply Forall_cons_iff in Hok as [Hc Hok]. unfold in_range in Hc. cbn [utf16_decode length].
  pose proof (IH src ltac:(lia) Hok) as IHs.
  destruct (is_low c); [lia|]. destruct (is_high c) eqn:Eh.
  - destruct src as [|c2 src]; [simpl; lia|]. destruct (is_low c2) eqn:El; [|simpl in *; lia].
    apply Forall_cons_iff in Hok as [_ Hok]. simpl in Hlen. pose proof (IH src ltac:(lia) Hok).
    rewrite bind_cons, length_app. unfold utf8_encode at 1.
    unfold is_high, is_low in *. rewrite !(proj2 (Z.ltb_ge _ _)) by lia. cbn [length]. lia.
  - rewrite bind_cons, length_app. unfold utf8_encode at 1.
    rewrite (proj2 (Z.ltb_lt c 0x10000)) by lia.
    destruct (c <? 0x80); [|destruct (c <? 0x800)]; cbn [length]; lia.
Qed.

(** C32. [utf16_to_utf8_sw] is the UTF-8 encoding of the scalar values that its UTF-16 source
    stands for: pairs are joined, and a surrogate without its partner is dropped without
    disturbing what follows. It writes at most three bytes per unit, which is what its
    callers reserve. *)
Theorem utf16_to_utf8_spec (src : list Z) :
  Forall (in_range 16) src ->
  utf16_to_utf8_sw src = utf16_decode src ≫= utf8_encode /\
  (length (utf16_to_utf8_sw src) <= 3 * length src)%nat.
Proof. apply utf16_to_utf8_encodes. Qed.

(** ** Round trips *)

(** Which branch a leading byte selects, by computation. *)
Definition lead_class (b : Z) : bool :=
  if b <? 0xC0 then true
  else if b <? 0xE0 then Z.land b 0xE0 =? 0xC0
  else if b <? 0xF0 then negb (Z.land b 0xE0 =? 0xC0) && (Z.land b 0xF0 =? 0xE0)
  else negb (Z.land b 0xE0 =? 0xC0) && negb (Z.land b 0xF0 =? 0xE0).

Lemma lead_class_ok (b : Z) : is_byte b -> lead_class b = true.
Proof. revert b. apply forallb_bytes. by vm_compute. Qed.

Lemma lead_branch (b : Z) :
  0xC0 <= b < 0x100 ->
  (Z.land b 0xE0 =? 0xC0) = (b <? 0xE0) /\ (0xE0 <= b -> (Z.land b 0xF0 =? 0xE0) = (b <? 0xF0)).
Proof.
  intros H. pose proof (lead_class_ok b ltac:(unfold in_range; lia)) as L. unfold lead_class in L.
  rewrite (proj2 (Z.ltb_ge b 0xC0)) in L by lia.
  destruct (Z.ltb_spec b 0xE0); [split; [done|lia]|].
  destruct (b <? 0xF0); apply andb_true_iff in L as [L1 L2]; rewrite ?negb_true_iff in *; done.
Qed.

(** One encoded scalar value, and whatever follows it. *)
Lemma utf8_loop_encoded (fuel : nat) (c : Z) (s : list Z) :
  scalar c -> 0x80 <= c ->
  utf8_loop (S fuel) (utf8_encode c ++ s) = (d ← utf8_loop fuel s; Some (utf16_encode c ++ d)).
Proof.
  intros Hc H80. unfold scalar in Hc. unfold utf8_encode, utf16_encode.
  rewrite (proj2 (Z.ltb_ge c 0x80)) by done.
  destruct (Z.ltb_spec c 0x800); [|destruct (Z.ltb_spec c 0x10000)]; cbn [app utf8_loop].
  - assert (0 <= c / 64 < 32) as Hh by byte_bounds. pose proof (Z.mod_pos_bound c 64).
    rewrite (proj2 (Z.ltb_ge (0xC0 + _) _)) by lia.
    destruct (lead_branch (0xC0 + c / 64)) as [-> _]; [lia|].
    rewrite (proj2 (Z.ltb_lt (0xC0 + _) _)), (proj2 (Z.ltb_lt c 0x10000)) by lia.
    rewrite tail_low, (proj1 (lead_low _)) by lia.
    rewrite (wrap_small 16 (Z.shiftl _ _)) by (rewrite Z.shiftl_mul_pow2 by lia; unfold in_range; lia).
    rewrite lor_shiftl_add, wrap_small by (unfold in_range; lia).
    replace (c / 64 * 2 ^ 6 + c mod 64) with c by byte_bounds. done.
  - assert (0 <= c / 4096 < 16) as Hh by byte_bounds. pose proof (Z.mod_pos_bound (c / 64) 64).
    pose proof (Z.mod_pos_bound c 64). destruct (lead_branch (0xE0 + c / 4096)) as [-> Hb]; [lia|].
    rewrite (proj2 (Z.ltb_ge (0xE0 + _) 0x80)), (proj2 (Z.ltb_ge (0xE0 + _) 0xE0)), Hb by lia.
    rewrite (proj2 (Z.ltb_lt (0xE0 + _) _)) by lia.
    rewrite !tail_low, (proj1 (proj2 (lead_low _))) by lia.
    rewrite (wrap_small 16 (Z.shiftl _ _)) by (rewrite Z.shiftl_mul_pow2 by lia; unfold in_range; lia).
    rewrite (lor_shiftl_add (c / 64 mod 64)) by (unfold in_range; lia).
    rewrite lor_shiftl_add, wrap_small by (unfold in_range; lia).
    replace (c / 4096 * 2 ^ 12 + (c / 64 mod 64 * 2 ^ 6 + c mod 64)) with c by byte_bounds. done.
  - assert (0 <= c / 262144 < 8) as Hh by byte_bounds. pose proof (Z.mod_pos_bound (c / 64) 64).
    pose proof (Z.mod_pos_bound (c / 4096) 64). pose proof (Z.mod_pos_bound c 64).
    destruct (lead_branch (0xF0 + c / 262144)) as [-> Hb]; [lia|].
    rewrite (proj2 (Z.ltb_ge (0xF0 + _) 0x80)), (proj2 (Z.ltb_ge (0xF0 + _) 0xE0)), Hb by lia.
    rewrite (proj2 (Z.ltb_ge (0xF0 + _) _)) by lia.
    rewrite !tail_low, (proj2 (proj2 (lead_low _))) by lia.
    rewrite <- !Z.lor_assoc, (lor_shiftl_add (c / 64 mod 64)) by (unfold in_range; lia).
    rewrite (lor_shiftl_add (c / 4096 mod 64)), lor_shiftl_add by (unfold in_range; lia).
    replace (c / 262144 * 2 ^ 18 + (c / 4096 mod 64 * 2 ^ 12 + (c / 64 mod 64 * 2 ^ 6 + c mod 64)))
      with c by byte_bounds.
    rewrite (wrap_small 32 (c - _)) by (unfold in_range; lia).
    change 0x3FF with (2 ^ 10 - 1). rewrite Z.shiftr_div_pow2, land_mask by lia.
    rewrite !wrap_small by (unfold in_range; byte_bounds).
    by rewrite (Z.add_comm (_ / _)), (Z.add_comm (_ mod _)).
Qed.

Lemma encode16_ascii (run : list Z) : Forall (fun c => 0 <= c < 0x80) run -> run ≫= utf16_encode = run.
Proof.
  induction 1 as [|c run Hc _ IH]; [done|]. rewrite bind_cons, IH. unfold utf16_encode.
  by rewrite (proj2 (Z.ltb_lt _ _)) by lia.
Qed.

Lemma utf8_loop_spec (fuel : nat) (cps : list Z) :
  (length (cps ≫= utf8_encode) <= fuel)%nat -> Forall scalar cps ->
  utf8_loop fuel (cps ≫= utf8_encode) = Some (cps ≫= utf16_encode).
Proof.
  revert cps. induction fuel as [|fuel IH]; intros [|c cps] Hlen Hok; try done.
  { exfalso. rewrite bind_cons, length_app in Hlen. unfold utf8_encode in Hlen at 1.
    repeat destruct (_ <? _); simpl in Hlen; lia. }
  apply Forall_cons_iff in Hok as [Hc Hok]. rewrite !bind_cons in *.
  destruct (Z.ltb_spec c 0x80) as [Hlt|Hge].
  - destruct (ascii_run_encoded cps Hok) as (cps1 & cps2 & -> & Hf & E).
    assert (utf8_encode c = [c]) as Ec by (unfold utf8_encode; by rewrite (proj2 (Z.ltb_lt _ _))).
    rewrite Ec in *. cbn [app] in *. cbn [utf8_loop].
    rewrite (proj2 (Z.ltb_lt _ _)), E by done.
    apply Forall_app in Hok as [_ Hok]. rewrite bind_app in Hlen. cbn [length] in Hlen.
    rewrite length_app in Hlen. rewrite IH by (done || lia). cbn [mbind option_bind].
    assert (utf16_encode c = [c]) as -> by (unfold utf16_encode; by rewrite (proj2 (Z.ltb_lt _ _)) by lia).
    by rewrite bind_app, (encode16_ascii cps1).
  - rewrite utf8_loop_encoded by done. rewrite length_app in Hlen.
    assert (1 <= length (utf8_encode c))%nat by (unfold utf8_encode; repeat destruct (_ <? _); simpl; lia).
    rewrite IH by (done || lia). done.
Qed.

Lemma decode_encode16 (cps : list Z) : Forall scalar cps -> utf16_decode (cps ≫= utf16_encode) = cps.
Proof.
  induction 1 as [|c cps Hc _ IH]; [done|]. rewrite bind_cons. unfold scalar in Hc.
  unfold utf16_encode at 1. destruct (Z.ltb_spec c 0x10000); cbn [app utf16_decode].
  - unfold is_low, is_high.
    assert ((0xDC00 <=? c) && (c <=? 0xDFFF) = false) as -> by lia.
    assert ((0xD800 <=? c) && (c <=? 0xDBFF) = false) as -> by lia. by rewrite IH.
  - assert (0 <= (c - 0x10000) / 1024 < 1024) by byte_bounds.
    pose proof (Z.mod_pos_bound (c - 0x10000) 1024). unfold is_low, is_high.
    rewrite (proj2 (Z.leb_gt 0xDC00 (0xD800 + _))) by lia. cbn [andb].
    rewrite !(proj2 (Z.leb_le _ _)) by lia. cbn [andb]. rewrite IH. f_equal. byte_bounds.
Qed.

Lemma encode16_range (cps : list Z) : Forall scalar cps -> Forall (in_range 16) (cps ≫= utf16_encode).
Proof.
  induction 1 as [|c cps Hc _ IH]; [constructor|]. rewrite bind_cons. apply Forall_app. split; [|done].
  unfold scalar, utf16_encode, in_range in *. destruct (Z.ltb_spec c 0x10000); repeat constructor; byte_bounds.
Qed.

(** C33. Text survives the conversion to UTF-8 and back: for every sequence of Unicode scalar
    values, converting its UTF-16 form gives its UTF-8 form, and converting that gives
    the UTF-16 form again, without a read behind the source. *)
Theorem utf16_utf8_roundtrip (cps : list Z) :
  Forall scalar cps ->
  utf16_to_utf8_sw (cps ≫= utf16_encode) = cps ≫= utf8_encode /\
  utf8_to_utf16_sw (utf16_to_utf8_sw (cps ≫= utf16_encode)) = Some (cps ≫= utf16_encode).
Proof.
  intros Hok. assert (utf16_to_utf8_sw (cps ≫= utf16_encode) = cps ≫= utf8_encode) as E.
  { unfold utf16_to_utf8_sw. rewrite utf16_loop_spec, decode_encode16; [done|done|done|].
    by apply encode16_range. }
  rewrite E. split; [done|]. by apply utf8_loop_spec.
Qed.

Lemma unit_bytes_ok (units : list Z) : bytes_ok (unit_bytes units).
Proof.
  unfold unit_bytes. induction units as [|c units IH]; [constructor|]. rewrite bind_cons.
  apply Forall_app. split; [apply le_bytes_ok|done].
Qed.

Lemma zlen_unit_bytes (units : list Z) : zlen (unit_bytes units) = 2 * zlen units.
Proof.
  induction units as [|c units IH]; [done|]. unfold unit_bytes in *.
  rewrite bind_cons, zlen_app, zlen_cons, IH. unfold zlen at 1. rewrite length_le_bytes. lia.
Qed.

Lemma bytes_units_bytes (units : list Z) :
  Forall (in_range 16) units -> bytes_units (length units) (unit_bytes units) = units.
Proof.
  induction 1 as [|c units Hc _ IH]; [done|]. unfold unit_bytes in *. rewrite bind_cons. cbn [length bytes_units].
  rewrite take_app_length', drop_app_length' by (by rewrite length_le_bytes).
  rewrite IH, le_val_le_bytes. unfold in_range in Hc. by rewrite Z.mod_small by lia.
Qed.

Lemma find_mark_ascii (run : list Z) : Forall (fun c => c < 0x80) run -> find_mark run = (run, None).
Proof.
  induction 1 as [|c run Hc _ IH]; [done|]. simpl. rewrite (proj2 (Z.eqb_neq _ _)) by lia. by rewrite IH.
Qed.

Lemma find_mark_app (run suffix : list Z) :
  Forall (fun c => c < 0x80) run -> find_mark (run ++ 0xFF :: suffix) = (run, Some suffix).
Proof.
  induction 1 as [|c run Hc _ IH]; [done|]. simpl. rewrite (proj2 (Z.eqb_neq _ _)) by lia. by rewrite IH.
Qed.

Lemma unit_bytes_ascii_app (run rest : list Z) : unit_bytes (run ++ rest) = unit_bytes run ++ unit_bytes rest.
Proof. apply bind_app. Qed.

(** The mixed encoding loses nothing: when the destinations have the room that the
    callers reserve, encoding UTF-16 text and decoding it gives the UTF-8 conversion of
    the text, and the hash taken of the encoded text is the hash of the text's UTF-16
    bytes. *)
Theorem utf_mixed_roundtrip {Ops : CrcOps} (src : list Z) (dst_num out_num : Z) :
  Forall (in_range 16) src -> 2 * zlen src + 1 <= dst_num < 2 ^ 32 -> 3 * zlen src <= out_num ->
  exists mixed, utf16_to_utf_mixed src dst_num = Some mixed /\ zlen mixed <= dst_num /\
    utf_mixed_to_utf8 mixed out_num = Some (utf16_to_utf8_sw src) /\
    hash_utf_mixed_as_utf16 mixed = get_hash_64 (unit_bytes src) (2 * zlen src).
Proof.
  intros Hok Hn Ho. destruct (utf16_to_utf8_encodes src Hok) as [Es Hl]. unfold utf16_to_utf_mixed.
  destruct (ascii_run src) as [run rest] eqn:E. apply ascii_run_spec in E as [-> Hrun].
  pose proof Hok as Hok'. apply Forall_app in Hok' as [_ Hrest].
  rewrite zlen_app in *. pose proof (zlen_nonneg run). pose proof (zlen_nonneg rest).
  rewrite (proj2 (Z.leb_gt dst_num _)) by lia.
  rewrite decode_ascii, bind_app, encode_ascii in Es by done.
  destruct rest as [|c rest].
  - exists run. split; [done|]. split; [lia|]. rewrite Es, !app_nil_r in *.
    unfold utf_mixed_to_utf8, hash_utf_mixed_as_utf16. rewrite find_mark_ascii by done.
    rewrite (proj2 (Z.ltb_ge _ _)) by lia. split; [done|]. simpl. rewrite !app_nil_r. f_equal.
    change (zlen (@nil Z)) with 0. lia.
  - set (units := c :: rest) in *. clearbody units.
    rewrite (wrap_small 32 (_ - _)) by (unfold in_range; lia). rewrite (proj2 (Z.ltb_ge _ _)) by lia.
    exists (run ++ 255 :: unit_bytes units). split; [done|].
    rewrite zlen_app, zlen_cons, zlen_unit_bytes. split; [lia|].
    unfold utf_mixed_to_utf8, hash_utf_mixed_as_utf16. rewrite find_mark_app by done.
    rewrite (proj2 (Z.ltb_ge _ (zlen run))) by lia.
    rewrite zlen_unit_bytes, Z.shiftr_div_pow2 by lia. rewrite (Z.mul_comm 2), Z.div_mul by lia.
    assert (Z.to_nat (zlen units) = length units) as -> by (unfold zlen; lia).
    rewrite bytes_units_bytes by done. destruct (utf16_to_utf8_encodes units Hrest) as [Eu _].
    rewrite Eu, <- Es. split.
    + rewrite Es in Hl. rewrite !length_app in Hl. rewrite (proj2 (Z.ltb_ge _ _)); [done|].
      unfold zlen in *. lia.
    + simpl default. rewrite unit_bytes_ascii_app, zlen_unit_bytes. f_equal. lia.
Qed.

(** ** Witnesses: "aé€😀" and a lone surrogate *)

Definition sample_text : list Z := [97; 0xE9; 0x20AC; 0x1F600; 98].
Definition sample_units : list Z := [97; 0xE9; 0xD800; 0x20AC; 0xD83D; 0xDE00].

Lemma sample_scalars : Forall scalar sample_text.
Proof. unfold sample_text, scalar. repeat constructor; lia. Qed.

Lemma sample_units_ok : Forall (in_range 16) sample_units.
Proof. unfold sample_units, in_range. repeat constructor; lia. Qed.

Lemma utf16_utf8_roundtrip_witness :
  sample_text ≫= utf16_encode = [97; 0xE9; 0x20AC; 0xD83D; 0xDE00; 98] /\
  utf8_to_utf16_sw (utf16_to_utf8_sw (sample_text ≫= utf16_encode)) = Some (sample_text ≫= utf16_encode).
Proof. split; [reflexivity|]. apply (utf16_utf8_roundtrip sample_text sample_scalars). Defined.

Lemma utf16_to_utf8_spec_witness :
  utf16_to_utf8_sw sample_units = [97; 0xC3; 0xA9; 0xE2; 0x82; 0xAC; 0xF0; 0x9F; 0x98; 0x80] /\
  utf16_to_utf8_sw sample_units = utf16_decode sample_units ≫= utf8_encode.
Proof. split; [reflexivity|]. apply (utf16_to_utf8_spec sample_units sample_units_ok). Defined.

Lemma utf_mixed_roundtrip_witness :
  exists mixed, utf16_to_utf_mixed sample_units 20 = Some mixed /\ zlen mixed <= 20 /\
    utf_mixed_to_utf8 mixed 30 = Some (utf16_to_utf8_sw sample_units) /\
    @hash_utf_mixed_as_utf16 SoftwareOps mixed = @get_hash_64 SoftwareOps (unit_bytes sample_units) 12.
Proof.
  apply (@utf_mixed_roundtrip SoftwareOps sample_units 20 30);
    [exact sample_units_ok|split; reflexivity || discriminate|discriminate].
Defined.

(** ** Observations *)

(** Ill-formed UTF-8 is not recognised: a truncated character is read past the end of the
    source, and a continuation byte in front is taken for the start of four bytes. *)
Lemma utf8_truncated : utf8_to_utf16_sw [0xE2; 0x82] = None /\ utf8_to_utf16_sw [97; 0x80] = None.
Proof. done. Qed.

Lemma utf8_stray : utf8_to_utf16_sw [0x82; 97; 98; 99] = Some [0xDA46; 0xDCA3].
Proof. done. Qed.

(** ASCII text that fits its destination exactly fails the assertion. *)
Lemma mixed_exact_fit : utf16_to_utf_mixed [97; 98] 2 = None /\ utf16_to_utf_mixed [97; 98] 3 = Some [97; 98].
Proof. done. Qed.
