(* ===== verification/Layout.v ===== *)
(** * The layout of a record as text
    ([src/layout/layout.cpp], [include/qlog/layout/layout.hpp])

    [Layout] writes the line for one record into a growing buffer: the time, the thread,
    the level and the category, then the format string with its replacement fields filled
    from the argument cells. The state is the buffer, the cursor into it, the format of the
    field in progress and the cached thread names. Characters are bytes; a write or read
    outside the buffer, a read outside the record, a failed assertion and an undefined
    conversion are [None]. The time text comes from a [TimeText], which [TimeZone.v]
    implements. *)
From stdpp Require Import base list option numbers gmap.
From Stdlib Require Import ZArith Lia Bool SpecFloat.
From S2P Require Import Prelude Memory Floats ArgSerialization BufferDefs LogEntry Utf.

(** ** State *)

Record FormatInfo := mk_info {
  fi_used : bool;
  fi_upper : bool;
  fi_fill : Z;
  fi_align : Z;
  fi_sign : Z;
  fi_prefix : Z;
  fi_offset : Z;
  fi_width : Z;
  fi_precision : Z;
  fi_type : Z }.

Definition uint32_max : Z := 2 ^ 32 - 1.

(** The member initialisers, and [FormatInfo::reset]. *)
Definition info_init : FormatInfo := mk_info false true 32 62 45 32 0 0 uint32_max 32.
Definition info_reset : FormatInfo := mk_info false true 32 60 45 32 0 0 uint32_max 32.

(** What [fill_and_alignment] leaves after padding. *)
Definition info_cleared : FormatInfo := mk_info false false 0 0 0 0 0 0 0 0.

Record layout := mk_layout {
  format_content_ : list Z;
  format_content_cursor_ : Z;
  format_info_ : FormatInfo;
  thread_names_cache_ : gmap Z (list Z) }.

Definition set_content (c : list Z) (l : layout) : layout :=
  mk_layout c (format_content_cursor_ l) (format_info_ l) (thread_names_cache_ l).
Definition set_cursor (c : Z) (l : layout) : layout :=
  mk_layout (format_content_ l) c (format_info_ l) (thread_names_cache_ l).
Definition set_info (i : FormatInfo) (l : layout) : layout :=
  mk_layout (format_content_ l) (format_content_cursor_ l) i (thread_names_cache_ l).
Definition set_names (m : gmap Z (list Z)) (l : layout) : layout :=
  mk_layout (format_content_ l) (format_content_cursor_ l) (format_info_ l) m.

(** The constructor. *)
Definition new_layout : layout := mk_layout [] 0 info_init ∅.

(** ** The buffer *)

(** [std::vector<char>::resize] *)
Definition resize (n : Z) (v : list Z) : list Z :=
  take (Z.to_nat n) v ++ replicate (Z.to_nat n - length v) 0.

Definition expand_format_content_buff_size (new_size : Z) (l : layout) : layout :=
  let i := format_info_ l in
  let new_size := if fi_offset i =? 0 then new_size
                  else u32 (new_size + (fi_width i + fi_precision i + 2)) in
  if new_size <=? zlen (format_content_ l) then l
  else set_content (resize (round_pow_of_two new_size) (format_content_ l)) l.

(** [expand_format_content_buff_size(format_content_cursor_ + n)] *)
Definition expand_by (n : Z) (l : layout) : layout :=
  expand_format_content_buff_size (u32 (format_content_cursor_ l + n)) l.

(** [std::memcpy] to the cursor, and the cursor after it. *)
Definition write_text (text : list Z) (l : layout) : option layout :=
  c ← store (format_content_ l) (format_content_cursor_ l) text;
  Some (set_cursor (u32 (format_content_cursor_ l + zlen text)) (set_content c l)).

(** [format_content_[format_content_cursor_++] = c] *)
Definition put (c : Z) (l : layout) : option layout := write_text [c] l.

Definition put_if (b : bool) (c : Z) (l : layout) : option layout := if b then put c l else Some l.

(** [while (begin_cursor < end_cursor)] with the exchange of the two characters *)
Fixpoint reverse_loop (fuel : nat) (content : list Z) (begin_cursor end_cursor : Z) : option (list Z) :=
  match fuel with
  | O => None
  | S fuel =>
      if begin_cursor <? end_cursor then
        saved ← load content begin_cursor 1;
        other ← load content end_cursor 1;
        content ← store content begin_cursor other;
        content ← store content end_cursor saved;
        reverse_loop fuel content (begin_cursor + 1) (end_cursor - 1)
      else Some content
  end.

Definition reverse (begin_cursor end_cursor : Z) (l : layout) : option layout :=
  c ← reverse_loop (S (length (format_content_ l))) (format_content_ l) begin_cursor end_cursor;
  Some (set_content c l).

Definition tidy_memory (capacity : Z) (l : layout) : layout :=
  let l := if 1024 <? capacity then set_content [] l else l in set_cursor 0 l.

(** ** Strings and characters *)

Definition insert_str_utf8 (str : list Z) (l : layout) : option layout :=
  if zlen str =? 0 then Some l
  else
    l ← write_text str (expand_by (zlen str) l);
    if format_content_cursor_ l <=? zlen (format_content_ l) then Some l else None.

(** [str] are the bytes of the UTF-16 text. *)
Definition insert_str_utf16 (str : list Z) (l : layout) : option layout :=
  let len := zlen str in
  let max_bytes_len := u32 (u32 (len * 3) / 2 + 1) in
  let units := bytes_units (Z.to_nat (Z.shiftr len 1)) str in
  l ← write_text (utf16_to_utf8_sw units) (expand_by max_bytes_len l);
  if format_content_cursor_ l <=? zlen (format_content_ l) then Some l else None.

Definition text_true : list Z := [84; 82; 85; 69].
Definition text_false : list Z := [70; 65; 76; 83; 69].
Definition text_null : list Z := [110; 117; 108; 108].

Definition insert_bool (value : bool) (l : layout) : option layout :=
  insert_str_utf8 (if value then text_true else text_false) l.

Definition insert_char (value : Z) (l : layout) : option layout := put value (expand_by 1 l).

Definition insert_char16 (value : Z) (l : layout) : option layout :=
  insert_str_utf16 (le_bytes 2 value) l.

(** The UTF-16 units of a character; a value above 0x10FFFF is truncated. *)
Definition char32_units (value : Z) : list Z :=
  if value <=? 0xFFFF then [value]
  else
    let value := value - 0x10000 in
    [u16 (Z.shiftr value 10 + 0xD800); u16 (Z.land value 0x3FF + 0xDC00)].

Definition insert_char32 (value : Z) (l : layout) : option layout :=
  insert_str_utf16 (unit_bytes (char32_units value)) l.

(** ** The format of a field *)

(** [index] is that of the character read last; [digits] is the array of that name. *)
Record c20_state := mk_c20 {
  c20_info : FormatInfo;
  reading_precision : bool;
  align_seen : bool;
  fill_seen : bool;
  digit0 : Z;
  digit1 : Z }.

(** [std::atoi(digits)] *)
Definition atoi (d0 d1 : Z) : Z := if d1 =? 0 then d0 - 48 else (d0 - 48) * 10 + (d1 - 48).

Definition set_align (v : Z) (i : FormatInfo) : FormatInfo :=
  mk_info (fi_used i) (fi_upper i) (fi_fill i) v (fi_sign i) (fi_prefix i) (fi_offset i) (fi_width i)
    (fi_precision i) (fi_type i).
Definition set_fill (v : Z) (i : FormatInfo) : FormatInfo :=
  mk_info (fi_used i) (fi_upper i) v (fi_align i) (fi_sign i) (fi_prefix i) (fi_offset i) (fi_width i)
    (fi_precision i) (fi_type i).
Definition set_sign (v : Z) (i : FormatInfo) : FormatInfo :=
  mk_info (fi_used i) (fi_upper i) (fi_fill i) (fi_align i) v (fi_prefix i) (fi_offset i) (fi_width i)
    (fi_precision i) (fi_type i).
Definition set_prefix (v : Z) (i : FormatInfo) : FormatInfo :=
  mk_info (fi_used i) (fi_upper i) (fi_fill i) (fi_align i) (fi_sign i) v (fi_offset i) (fi_width i)
    (fi_precision i) (fi_type i).
Definition set_offset (v : Z) (i : FormatInfo) : FormatInfo :=
  mk_info (fi_used i) (fi_upper i) (fi_fill i) (fi_align i) (fi_sign i) (fi_prefix i) v (fi_width i)
    (fi_precision i) (fi_type i).
Definition set_width (v : Z) (i : FormatInfo) : FormatInfo :=
  mk_info (fi_used i) (fi_upper i) (fi_fill i) (fi_align i) (fi_sign i) (fi_prefix i) (fi_offset i) v
    (fi_precision i) (fi_type i).
Definition set_precision (v : Z) (i : FormatInfo) : FormatInfo :=
  mk_info (fi_used i) (fi_upper i) (fi_fill i) (fi_align i) (fi_sign i) (fi_prefix i) (fi_offset i)
    (fi_width i) v (fi_type i).
Definition set_type (ty : Z) (up : bool) (i : FormatInfo) : FormatInfo :=
  mk_info (fi_used i) up (fi_fill i) (fi_align i) (fi_sign i) (fi_prefix i) (fi_offset i) (fi_width i)
    (fi_precision i) ty.

(** [^] and [<] *)
Definition pads_right (i : FormatInfo) : bool := (fi_align i =? 94) || (fi_align i =? 60).

(** The [switch] over one character of the specification. *)
Definition c20_char (c : Z) (s : c20_state) : c20_state :=
  let '(mk_c20 info rp al fs d0 d1) := s in
  if c =? 35 (* # *) then mk_c20 (set_prefix c info) rp al fs d0 d1
  else if (c =? 62) || (c =? 60) || (c =? 94) (* > < ^ *) then
    if negb al then mk_c20 (set_align c info) rp true fs d0 d1
    else mk_c20 (set_fill (if pads_right info then 32 else c) info) rp al fs d0 d1
  else if (c =? 43) || (c =? 45) (* + - *) then mk_c20 (set_sign c info) rp al fs d0 d1
  else if bool_decide (c ∈ [98; 66; 101; 69; 102; 70; 120; 88; 111; 100]) (* b B e E f F x X o d *) then
    let info :=
      if fi_type info =? 32 then
        if c =? 69 then set_type 101 true info          (* E *)
        else if c =? 88 then set_type 120 true info     (* X *)
        else if c =? 66 then set_type 98 true info      (* B *)
        else set_type c false info
      else info in
    let info := if ((c =? 120) || (c =? 88)) && negb (fi_align info =? 62) then set_fill 32 info else info in
    mk_c20 info rp al fs d0 d1
  else if c =? 46 (* . *) then mk_c20 (set_width (atoi d0 d1) info) true al fs 48 0
  else if negb fs && ((c <? 49) || (57 <? c)) then
    mk_c20 (set_fill (if pads_right info then 32 else c) info) rp al fs d0 d1
  else if (48 <=? c) && (c <=? 57) then
    if d0 =? 48 then mk_c20 info rp al true c d1
    else if d1 =? 0 then mk_c20 info rp al true d0 c
    else mk_c20 info rp al true d0 d1
  else s.

(** The loop; [len] is at most the length of [style]. It stops at index 11 at the latest. *)
Fixpoint c20_loop (fuel : nat) (style : list Z) (len index : Z) (s : c20_state) : option c20_state :=
  match fuel with
  | O => None
  | S fuel =>
      let index := index + 1 in
      let failed := mk_c20 (set_width 0 (set_offset 0 (c20_info s))) (reading_precision s) (align_seen s)
                      (fill_seen s) (digit0 s) (digit1 s) in
      if (len <=? index) || (10 <? index) then Some failed
      else
        c ← style !! Z.to_nat index;
        let c := u8 c in
        if c =? 123 then Some failed
        else if c =? 125 then
          Some (mk_c20 (set_offset index (c20_info s)) (reading_precision s) (align_seen s) (fill_seen s)
                  (digit0 s) (digit1 s))
        else c20_loop fuel style len index (c20_char c s)
  end.

(** [Layout::c20_format], for [char] and [char16_t]. *)
Definition c20_format (style : list Z) (len : Z) : option FormatInfo :=
  if negb (0 <? len) then None
  else
    let info := mk_info true true 32 62 45 32 0 0 uint32_max 32 in
    first ← style !! O;
    if negb (first =? 58) then Some info
    else
      s ← c20_loop 12 style len 0 (mk_c20 info false false false 48 0);
      let n := atoi (digit0 s) (digit1 s) in
      let info := if reading_precision s then set_precision n (c20_info s) else set_width n (c20_info s) in
      Some (if fi_type info =? 32 then set_type 100 (fi_upper info) info else info).

(** ** Alignment *)

(** The moves of the right alignment, from the last character to the first; [ignore] says how
    many characters at the front were left in place. *)
Fixpoint shift_loop (n : nat) (i : Z) (info : FormatInfo) (begin dis : Z) (content : list Z)
    (ignore ignore_index : Z) : option (list Z * Z) :=
  match n with
  | O => Some (content, ignore)
  | S n =>
      let opt_index := u32 (begin + fi_width info - i) in
      let move_index := u32 (begin + dis - i) in
      moved ← load content move_index 1;
      let c := le_val moved in
      if ((c =? 43) || (c =? 45)) && negb (fi_fill info =? 32) then
        content ← store content opt_index [fi_fill info];
        shift_loop n (i + 1) info begin dis content 1 ignore_index
      else if (fi_fill info =? 48) && (fi_prefix info =? 35) &&
              ((fi_type info =? 98) || (fi_type info =? 120)) &&
              ((c =? 98) || (c =? 66) || (c =? 120) || (c =? 88)) then
        content ← store content opt_index [fi_fill info];
        shift_loop n (i + 1) info begin dis content 2 (u32 (move_index - 1))
      else if (ignore =? 2) && (ignore_index =? move_index) then
        content ← store content opt_index [fi_fill info];
        shift_loop n (i + 1) info begin dis content ignore ignore_index
      else
        content ← store content opt_index [c];
        shift_loop n (i + 1) info begin dis content ignore ignore_index
  end.

(** The moves of the centering. *)
Fixpoint center_loop (n : nat) (i : Z) (info : FormatInfo) (begin dis end_ : Z) (content : list Z) :
    option (list Z) :=
  match n with
  | O => Some content
  | S n =>
      let opt_index := u32 (begin + fi_width info - i - end_) in
      let move_index := u32 (begin + dis - i) in
      moved ← load content move_index 1;
      content ← store content opt_index moved;
      center_loop n (i + 1) info begin dis end_ content
  end.

(** [for (i = from; i < n; ++i) format_content_[pos + i] = fill] *)
Fixpoint fill_loop (n : nat) (pos i : Z) (fill : Z) (content : list Z) : option (list Z) :=
  match n with
  | O => Some content
  | S n => content ← store content (u32 (pos + i)) [fill]; fill_loop n pos (i + 1) fill content
  end.

Definition fill_and_alignment (write_begin_pos : Z) (l : layout) : option layout :=
  let info := format_info_ l in
  let dis := u32 (format_content_cursor_ l - write_begin_pos) in
  if dis <? fi_width info then
    let fill_count := fi_width info - dis in
    c ← (if fi_align info =? 62 then
           '(c, ignore) ← shift_loop (Z.to_nat dis) 1 info write_begin_pos dis (format_content_ l) 0 0;
           fill_loop (Z.to_nat (fill_count - ignore)) write_begin_pos ignore (fi_fill info) c
         else if fi_align info =? 60 then
           fill_loop (Z.to_nat fill_count) (format_content_cursor_ l) 0 (fi_fill info) (format_content_ l)
         else if fi_align info =? 94 then
           let end_ := fill_count / 2 in
           let front := fill_count - end_ in
           c ← center_loop (Z.to_nat dis) 1 info write_begin_pos dis end_ (format_content_ l);
           c ← fill_loop (Z.to_nat front) write_begin_pos 0 (fi_fill info) c;
           fill_loop (Z.to_nat end_) (u32 (front + write_begin_pos + dis)) 0 (fi_fill info) c
         else Some (format_content_ l));
    Some (set_info info_cleared (set_cursor (u32 (format_content_cursor_ l + fill_count)) (set_content c l)))
  else Some l.

(** ** Integers *)

Definition digit_pairs : list Z :=
  [
   48; 48; 48; 49; 48; 50; 48; 51; 48; 52; 48; 53; 48; 54; 48; 55; 48; 56; 48; 57;
   49; 48; 49; 49; 49; 50; 49; 51; 49; 52; 49; 53; 49; 54; 49; 55; 49; 56; 49; 57;
   50; 48; 50; 49; 50; 50; 50; 51; 50; 52; 50; 53; 50; 54; 50; 55; 50; 56; 50; 57;
   51; 48; 51; 49; 51; 50; 51; 51; 51; 52; 51; 53; 51; 54; 51; 55; 51; 56; 51; 57;
   52; 48; 52; 49; 52; 50; 52; 51; 52; 52; 52; 53; 52; 54; 52; 55; 52; 56; 52; 57;
   53; 48; 53; 49; 53; 50; 53; 51; 53; 52; 53; 53; 53; 54; 53; 55; 53; 56; 53; 57;
   54; 48; 54; 49; 54; 50; 54; 51; 54; 52; 54; 53; 54; 54; 54; 55; 54; 56; 54; 57;
   55; 48; 55; 49; 55; 50; 55; 51; 55; 52; 55; 53; 55; 54; 55; 55; 55; 56; 55; 57;
   56; 48; 56; 49; 56; 50; 56; 51; 56; 52; 56; 53; 56; 54; 56; 55; 56; 56; 56; 57;
   57; 48; 57; 49; 57; 50; 57; 51; 57; 52; 57; 53; 57; 54; 57; 55; 57; 56; 57; 57].

(** [count] after the loop over the powers of ten. *)
Fixpoint count_digits (fuel : nat) (count limit value : Z) : Z :=
  match fuel with
  | O => count
  | S fuel =>
      if (count <? 20) && (limit <=? value) then count_digits fuel (count + 1) (u64 (limit * 10)) value
      else count
  end.

(** The digits, two at a time, ending at [p]. *)
Fixpoint write_pairs (fuel : nat) (value p : Z) (content : list Z) : option (list Z) :=
  match fuel with
  | O => None
  | S fuel =>
      if 100 <=? value then
        pair ← load digit_pairs (value mod 100 * 2) 2;
        content ← store content (p - 2) pair;
        write_pairs fuel (value / 100) (p - 2) content
      else if 10 <=? value then
        pair ← load digit_pairs (value * 2) 2;
        store content (p - 2) pair
      else store content (p - 1) [48 + value]
  end.

(** [write_decimal_digits(value, format_content_.data() + cursor)], and the cursor after it. *)
Definition write_decimal_digits (value : Z) (l : layout) : option layout :=
  let count := count_digits 20 1 10 value in
  c ← write_pairs 10 value (format_content_cursor_ l + count) (format_content_ l);
  Some (set_cursor (u32 (format_content_cursor_ l + count)) (set_content c l)).

(** The base that the type of the field asks for. *)
Definition type_base (info : FormatInfo) (base : Z) : Z :=
  if fi_type info =? 98 then 2 else if fi_type info =? 120 then 16
  else if fi_type info =? 111 then 8 else base.

(** The room that is made for the digits. *)
Definition expand_for_base (base : Z) (l : layout) : layout :=
  expand_by (if 16 <=? base then 16 else if 10 <=? base then 20 else 64) l.

(** [0b], [0x] *)
Definition put_prefix (l : layout) : option layout :=
  let info := format_info_ l in
  if fi_prefix info =? 35 then
    if fi_type info =? 98 then l ← put 48 l; put (if fi_upper info then 66 else 98) l
    else if fi_type info =? 120 then l ← put 48 l; put (if fi_upper info then 88 else 120) l
    else Some l
  else Some l.

Definition digit_char (upper : bool) (digit : Z) : Z :=
  if digit <? 10 then 48 + digit else (if upper then 65 else 97) + digit - 10.

(** The [do ... while] loops, least significant digit first, and [e_count]. *)
Fixpoint unsigned_digits (fuel : nat) (value base e_count : Z) (l : layout) : option (layout * Z) :=
  match fuel with
  | O => None
  | S fuel =>
      l ← put (digit_char (fi_upper (format_info_ l)) (value mod base)) l;
      let value := value / base in
      let e_count := if base <? value then e_count + 1 else e_count in
      if value =? 0 then Some (l, e_count) else unsigned_digits fuel value base e_count l
  end.

Fixpoint signed_digits (fuel : nat) (value base e_count : Z) (l : layout) : option (layout * Z) :=
  match fuel with
  | O => None
  | S fuel =>
      l ← put (digit_char (fi_upper (format_info_ l)) (Z.abs (Z.rem value base))) l;
      let value := Z.quot value base in
      let e_count := if base <? value then e_count + 1 else e_count in
      if value =? 0 then Some (l, e_count) else signed_digits fuel value base e_count l
  end.

(** ** The exponent *)

Fixpoint decimal_length (fuel : nat) (n : Z) : Z :=
  match fuel with
  | O => 0
  | S fuel => if n / 10 =? 0 then 1 else 1 + decimal_length fuel (n / 10)
  end.

Fixpoint exponent_digits (fuel : nat) (n : Z) (l : layout) : option layout :=
  match fuel with
  | O => None
  | S fuel =>
      l ← put (48 + n mod 10) l;
      if n / 10 =? 0 then Some l else exponent_digits fuel (n / 10) l
  end.

Definition fill_e_style (e_count begin_cursor : Z) (l : layout) : option layout :=
  let info := format_info_ l in
  let bitcount := decimal_length 10 e_count in
  let l := expand_by (u32 (bitcount + 3)) l in
  let jump := i32 (format_content_cursor_ l) - (i32 (u32 (begin_cursor + fi_width info - bitcount)) - 2) in
  let l := if 0 <? jump then
             let l := set_cursor (u32 (format_content_cursor_ l - jump)) l in
             if format_content_cursor_ l =? begin_cursor
             then set_cursor (u32 (format_content_cursor_ l + 1)) l else l
           else l in
  l ← put (if fi_upper info then 69 else 101) l;
  l ← put 43 l;
  let begin_cursor := format_content_cursor_ l in
  l ← exponent_digits 10 e_count l;
  l ← put_if (e_count <=? 9) 48 l;
  reverse begin_cursor (u32 (format_content_cursor_ l - 1)) l.

(** The end of the two integer routines: the digits are reversed, with a point behind the
    first in the exponent style. *)
Definition finish_digits (begin_cursor e_count : Z) (l : layout) : option layout :=
  if fi_type (format_info_ l) =? 101 then
    last ← load (format_content_ l) (u32 (format_content_cursor_ l - 1)) 1;
    c ← store (format_content_ l) (format_content_cursor_ l) last;
    c ← store c (u32 (format_content_cursor_ l - 1)) [46];
    let l := set_cursor (u32 (format_content_cursor_ l + 1)) (set_content c l) in
    l ← reverse begin_cursor (u32 (format_content_cursor_ l - 1)) l;
    fill_e_style e_count begin_cursor l
  else reverse begin_cursor (u32 (format_content_cursor_ l - 1)) l.

Definition insert_integral_unsigned (value base : Z) (l : layout) : option (layout * Z) :=
  let start := format_content_cursor_ l in
  let info := format_info_ l in
  if 32 <? base then None
  else
    let base := type_base info base in
    let l := expand_for_base base l in
    l ← put_if ((0 <? value) && (fi_sign info =? 43)) 43 l;
    l ← put_prefix l;
    let begin_cursor := format_content_cursor_ l in
    l ← (if (base =? 10) && negb (fi_type info =? 101) then write_decimal_digits value l
         else '(l, e_count) ← unsigned_digits 65 value base 0 l; finish_digits begin_cursor e_count l);
    Some (l, u32 (format_content_cursor_ l - start)).

Definition insert_integral_signed (value base : Z) (l : layout) : option (layout * Z) :=
  let start := format_content_cursor_ l in
  let info := format_info_ l in
  if 32 <? base then None
  else
    let base := type_base info base in
    let l := expand_for_base base l in
    l ← (if value <? 0 then put 45 l else put_if (fi_sign info =? 43) 43 l);
    l ← put_prefix l;
    let begin_cursor := format_content_cursor_ l in
    l ← (if (base =? 10) && negb (fi_type info =? 101) then
           write_decimal_digits (if value <? 0 then u64 (0 - u64 value) else value) l
         else '(l, e_count) ← signed_digits 65 value base 0 l; finish_digits begin_cursor e_count l);
    Some (l, u32 (format_content_cursor_ l - start)).

Definition insert_pointer (ptr : Z) (l : layout) : option layout :=
  if negb (ptr =? 0) then
    l ← write_text [48; 120] (expand_by 2 l);
    '(l, _) ← insert_integral_unsigned ptr 16 l;
    Some l
  else write_text text_null (expand_by 4 l).

(** ** Floating point

    [float] and [double] are the IEEE formats with [prec] bits of mantissa and largest
    exponent [emax]; the arithmetic is that of the Standard Library's specification. *)

(** The value of the object representation. *)
Definition float_of_bits (prec emax bits : Z) : spec_float :=
  let mbits := prec - 1 in
  let m := bits mod 2 ^ mbits in
  let ex := bits / 2 ^ mbits mod (2 * emax) in
  let s := 0 <? bits / (2 ^ mbits * (2 * emax)) in
  if ex =? 0 then
    match m with Zpos m => S754_finite s m (3 - emax - prec) | _ => S754_zero s end
  else if ex =? 2 * emax - 1 then if m =? 0 then S754_infinity s else S754_nan
  else
    match m + 2 ^ mbits with
    | Zpos m => S754_finite s m (ex - 1 + (3 - emax - prec))
    | _ => S754_nan
    end.

Definition is_exponent (info : FormatInfo) : bool := fi_type info =? 90.  (* 'Z' *)

(** [while (precision > 0)]: the digits behind the point. *)
Fixpoint fraction_loop (n : nat) (prec emax : Z) (value : spec_float) (l : layout) : option layout :=
  match n with
  | O => Some l
  | S n =>
      let value := SFmul prec emax value (binary_normalize prec emax 10 0 false) in
      digit ← to_integer (- 2 ^ 31) (2 ^ 31) value;
      let value := SFsub prec emax value (binary_normalize prec emax digit 0 false) in
      l ← put (u8 (48 + digit)) l;
      fraction_loop n prec emax value l
  end.

(** The point moves to the left, behind the first digit. *)
Fixpoint move_point (n : nat) (point_index : Z) (content : list Z) : option (list Z * Z) :=
  match n with
  | O => Some (content, point_index)
  | S n =>
      temp ← load content point_index 1;
      before ← load content (u32 (point_index - 1)) 1;
      content ← store content point_index before;
      content ← store content (u32 (point_index - 1)) temp;
      move_point n (u32 (point_index - 1)) content
  end.

(** What the two overloads share: from the point on. *)
Definition insert_fraction (prec emax : Z) (precision begin_cursor int_width : Z) (value : spec_float)
    (l : layout) : option layout :=
  let l := expand_by (u32 (u32 precision + 5)) l in
  let has_point := (0 <? precision) || (is_exponent (format_info_ l) && (1 <? int_width)) in
  let point_index := if has_point then format_content_cursor_ l else 0 in
  l ← put_if has_point 46 l;
  l ← fraction_loop (Z.to_nat precision) prec emax value l;
  if is_exponent (format_info_ l) then
    let l := set_info (set_type 101 (fi_upper (format_info_ l)) (format_info_ l)) l in
    let moves := u32 (int_width - 1) in
    '(c, point_index) ← (if negb (point_index =? 0)
                         then move_point (Z.to_nat moves) point_index (format_content_ l)
                         else Some (format_content_ l, point_index));
    let l := set_content c l in
    let p := fi_precision (format_info_ l) in
    let l := if (0 <? p) && (p <? u32 (format_content_cursor_ l - begin_cursor))
             then set_cursor (u32 (point_index + p + 1)) l else l in
    fill_e_style moves begin_cursor l
  else Some l.

(** The integer part, and the value without it. *)
Definition insert_int_part (prec emax : Z) (value : spec_float) (l : layout) :
    option (layout * Z * spec_float) :=
  let rest i := SFsub prec emax value (binary_normalize prec emax i 0 false) in
  if SFleb (S754_zero false) value then
    i_part ← to_integer 0 (2 ^ 64) value;
    '(l, int_width) ← insert_integral_unsigned i_part 10 l;
    Some (l, int_width, rest i_part)
  else
    i_part ← to_integer (- 2 ^ 63) (2 ^ 63) value;
    '(l, int_width) ← insert_integral_signed i_part 10 l;
    Some (l, int_width, rest i_part).

Definition mark_exponent (l : layout) : layout :=
  let info := format_info_ l in
  if fi_type info =? 101 then set_info (set_type 90 (fi_upper info) info) l else l.

(** The digits behind the point: the precision asked for or the default, cut down to the
    width of the field. *)
Definition float_precision (info : FormatInfo) (int_width : Z) : Z :=
  let precision := if negb (fi_precision info =? uint32_max) then i32 (fi_precision info) else 7 in
  if (0 <? fi_width info) && (fi_width info <? u32 (u32 precision + 1 + int_width))
  then i32 (u32 (fi_width info - int_width - 1)) else precision.

Definition double_precision (info : FormatInfo) (int_width : Z) : Z :=
  let precision := if negb (fi_precision info =? uint32_max) then i32 (fi_precision info) else 15 in
  if (0 <? fi_width info) && (fi_width info <? u32 (u32 precision + 1 + int_width))
  then Z.max 0 (i32 (fi_width info) - i32 int_width - 1) else precision.

Definition insert_decimal_float (bits : Z) (l : layout) : option layout :=
  let l := mark_exponent l in
  let info := format_info_ l in
  let begin_cursor := format_content_cursor_ l in
  '(l, int_width, value) ← insert_int_part 24 128 (float_of_bits 24 128 bits) l;
  insert_fraction 24 128 (float_precision info int_width) begin_cursor int_width (SFabs value) l.

Definition insert_decimal_double (bits : Z) (l : layout) : option layout :=
  let l := mark_exponent l in
  let info := format_info_ l in
  let begin_cursor := format_content_cursor_ l in
  '(l, int_width, value) ← insert_int_part 53 1024 (float_of_bits 53 1024 bits) l;
  insert_fraction 53 1024 (double_precision info int_width) begin_cursor int_width (SFabs value) l.

(** ** Replacement fields *)

(** The [switch] over the tag of the argument at [cursor]; the cursor behind it. *)
Definition insert_argument (args : list Z) (cursor : Z) (l : layout) : option (layout * Z) :=
  code ← load_le args cursor 1;
  match tag_of_code code with
  | Some null_type => l ← insert_str_utf8 text_null l; Some (l, u32 (cursor + 4))
  | Some pointer_type => v ← load_le args (cursor + 4) 8; l ← insert_pointer v l; Some (l, u32 (cursor + 12))
  | Some bool_type =>
      v ← load_le args (cursor + 2) 1;
      if 1 <? v then None else l ← insert_bool (v =? 1) l; Some (l, u32 (cursor + 4))
  | Some char_type => v ← load_le args (cursor + 2) 1; l ← insert_char v l; Some (l, u32 (cursor + 4))
  | Some char16_type => v ← load_le args (cursor + 2) 2; l ← insert_char16 v l; Some (l, u32 (cursor + 4))
  | Some char32_type => v ← load_le args (cursor + 4) 4; l ← insert_char32 v l; Some (l, u32 (cursor + 8))
  | Some int8_type =>
      v ← load_le args (cursor + 2) 1; '(l, _) ← insert_integral_signed (to_signed 8 v) 10 l;
      Some (l, u32 (cursor + 4))
  | Some uint8_type =>
      v ← load_le args (cursor + 2) 1; '(l, _) ← insert_integral_unsigned v 10 l; Some (l, u32 (cursor + 4))
  | Some int16_type =>
      v ← load_le args (cursor + 2) 2; '(l, _) ← insert_integral_signed (to_signed 16 v) 10 l;
      Some (l, u32 (cursor + 4))
  | Some uint16_type =>
      v ← load_le args (cursor + 2) 2; '(l, _) ← insert_integral_unsigned v 10 l; Some (l, u32 (cursor + 4))
  | Some int32_type =>
      v ← load_le args (cursor + 4) 4; '(l, _) ← insert_integral_signed (to_signed 32 v) 10 l;
      Some (l, u32 (cursor + 8))
  | Some uint32_type =>
      v ← load_le args (cursor + 4) 4; '(l, _) ← insert_integral_unsigned v 10 l; Some (l, u32 (cursor + 8))
  | Some int64_type =>
      v ← load_le args (cursor + 4) 8; '(l, _) ← insert_integral_signed (to_signed 64 v) 10 l;
      Some (l, u32 (cursor + 12))
  | Some uint64_type =>
      v ← load_le args (cursor + 4) 8; '(l, _) ← insert_integral_unsigned v 10 l; Some (l, u32 (cursor + 12))
  | Some float_type => v ← load_le args (cursor + 4) 4; l ← insert_decimal_float v l; Some (l, u32 (cursor + 8))
  | Some double_type => v ← load_le args (cursor + 4) 8; l ← insert_decimal_double v l; Some (l, u32 (cursor + 12))
  | Some string_utf8_type =>
      n ← load_le args (cursor + 4) 4; str ← load args (cursor + 8) n; l ← insert_str_utf8 str l;
      Some (l, u32 (cursor + (8 + Z.land (u32 (n + 3)) (uint32_max - 3))))
  | Some string_utf16_type =>
      n ← load_le args (cursor + 4) 4; str ← load args (cursor + 8) n; l ← insert_str_utf16 str l;
      Some (l, u32 (cursor + (8 + Z.land (u32 (n + 3)) (uint32_max - 3))))
  | _ => Some (l, cursor)
  end.

(** A field from the specification on: the argument, the padding, and the room for the rest
    of the format string, of which [rest] tells the size from the characters left. *)
Definition insert_field (rest : Z) (args : list Z) (acur : Z) (l : layout) : option (layout * Z) :=
  let write_begin_pos := format_content_cursor_ l in
  '(l, acur) ← insert_argument args acur l;
  if zlen args <? acur then None
  else
    l ← fill_and_alignment write_begin_pos l;
    Some (expand_by rest l, acur).

(** The scan for the end of a specification: its length, and whether it is closed. *)
Fixpoint scan_spec (n : nat) (s : list Z) : Z * bool :=
  match n, s with
  | S n, c :: s =>
      if c =? 125 then (0, true)
      else if c =? 123 then (0, false)
      else let '(len, closed) := scan_spec n s in (1 + len, closed)
  | _, _ => (0, false)
  end.

(** The characters in front of the next brace, and whether there is one. *)
Fixpoint find_brace (s : list Z) : list Z * bool :=
  match s with
  | [] => ([], false)
  | c :: s =>
      if (c =? 123) || (c =? 125) then ([], true)
      else let '(run, found) := find_brace s in (c :: run, found)
  end.

(** How far the cursor moves over a closed specification. *)
Definition spec_skip (info : FormatInfo) (spec_len : Z) : Z :=
  if negb (fi_offset info =? 0) then fi_offset info + 1 else spec_len + 1.

(** A brace at [i - 1]: the two cursors after it. *)
Definition brace_utf8 (fmt args : list Z) (c i acur : Z) (l : layout) : option (layout * Z * Z) :=
  let len := zlen fmt in
  if (c =? 125) && (i <? len) && bool_decide (fmt !! Z.to_nat i = Some 125) then
    l ← put 125 (expand_by 1 l); Some (l, i + 1, acur)
  else if c =? 125 then
    l ← put 125 (expand_by 1 l); Some (l, i, acur)
  else
    let l := if fi_used (format_info_ l) then set_info info_reset l else l in
    if acur <? zlen args then
      let style := drop (Z.to_nat i) fmt in
      let '(spec_len, closed) := scan_spec 20 style in
      if (closed : bool) then
        info ← c20_format style (spec_len + 1);
        let l := set_info info l in
        let i := i + spec_skip info spec_len in
        '(l, acur) ← insert_field (u32 (len - i)) args acur l;
        Some (l, i, acur)
      else l ← put 123 (expand_by 1 l); Some (l, i, acur)
    else l ← put 123 (expand_by 1 l); Some (l, i, acur).

(** [while (i < format_data_len)]; each turn passes a character. *)
Fixpoint format_loop_utf8 (fuel : nat) (fmt args : list Z) (i acur : Z) (l : layout) : option layout :=
  match fuel with
  | O => None
  | S fuel =>
      if i <? zlen fmt then
        let '(run, found_brace) := find_brace (drop (Z.to_nat i) fmt) in
        l ← write_text run l;
        let i := i + zlen run in
        if (found_brace : bool) then
          c ← fmt !! Z.to_nat i;
          '(l, i, acur) ← brace_utf8 fmt args c (i + 1) acur l;
          format_loop_utf8 fuel fmt args i acur l
        else format_loop_utf8 fuel fmt args i acur l
      else Some l
  end.

Definition python_style_format_content_utf8 (fmt args : list Z) (l : layout) : option layout :=
  if zlen args =? 0 then insert_str_utf8 fmt l
  else format_loop_utf8 (S (length fmt)) fmt args 0 0 (expand_by (zlen fmt) l).

(** ** UTF-16 format strings *)

(** Units in front of the next brace or the next unit that is not ASCII; the two flags are
    [found_brace] and [non_ascii]. *)
Fixpoint find_brace_u16 (s : list Z) : list Z * bool * bool :=
  match s with
  | [] => ([], false, false)
  | c :: s =>
      if 0x80 <=? c then ([], false, true)
      else if (c =? 123) || (c =? 125) then ([], true, false)
      else let '(run, found, non_ascii) := find_brace_u16 s in (c :: run, found, non_ascii)
  end.

(** The unit [c], which is not ASCII, and the index after it. *)
Definition convert_unit (fmt : list Z) (c i : Z) (l : layout) : option (layout * Z) :=
  if c <? 0x80 then l ← put c l; Some (l, i)
  else if c <? 0x800 then l ← write_text (two_bytes c) (expand_by 2 l); Some (l, i)
  else if is_high c then
    if i <? zlen fmt then
      c2 ← fmt !! Z.to_nat i;
      if is_low c2 then
        let codepoint := 0x10000 + (c - 0xD800) * 0x400 + (c2 - 0xDC00) in
        l ← write_text (four_bytes codepoint) (expand_by 4 l); Some (l, i + 1)
      else Some (l, i)
    else Some (l, i)
  else if is_low c then Some (l, i)
  else l ← write_text (three_bytes c) (expand_by 3 l); Some (l, i).

(** The scan passes over a doubled opening brace. *)
Fixpoint scan_spec_u16 (n : nat) (s : list Z) : Z * bool :=
  match n, s with
  | S n, c :: s =>
      if c =? 125 then (0, true)
      else if c =? 123 then
        match s with
        | c' :: s' =>
            if c' =? 123 then let '(len, closed) := scan_spec_u16 (pred n) s' in (2 + len, closed)
            else (0, false)
        | [] => (0, false)
        end
      else let '(len, closed) := scan_spec_u16 n s in (1 + len, closed)
  | _, _ => (0, false)
  end.

Definition brace_utf16 (fmt args : list Z) (c i acur : Z) (l : layout) : option (layout * Z * Z) :=
  let len := zlen fmt in
  if (c =? 125) && (i <? len) && bool_decide (fmt !! Z.to_nat i = Some 125) then
    l ← put 125 (expand_by 1 l); Some (l, i + 1, acur)
  else if c =? 125 then
    l ← put 125 (expand_by 1 l); Some (l, i, acur)
  else
    let l := if fi_used (format_info_ l) then set_info info_reset l else l in
    if acur <? zlen args then
      let style := drop (Z.to_nat i) fmt in
      let '(spec_len, closed) := scan_spec_u16 20 style in
      if (closed : bool) then
        info ← c20_format style (spec_len + 1);
        let l := set_info info l in
        let i := i + spec_skip info spec_len in
        '(l, acur) ← insert_field (u32 (u32 (len - i) * 3) / 2) args acur l;
        Some (l, i, acur)
      else l ← put 123 (expand_by 1 l); Some (l, i, acur)
    else l ← put 123 (expand_by 1 l); Some (l, i, acur).

Fixpoint format_loop_utf16 (fuel : nat) (fmt args : list Z) (i acur : Z) (l : layout) : option layout :=
  match fuel with
  | O => None
  | S fuel =>
      if i <? zlen fmt then
        let '(run, found_brace, non_ascii) := find_brace_u16 (drop (Z.to_nat i) fmt) in
        l ← write_text run l;
        let i := i + zlen run in
        if (non_ascii : bool) then
          c ← fmt !! Z.to_nat i;
          '(l, i) ← convert_unit fmt c (i + 1) l;
          format_loop_utf16 fuel fmt args i acur l
        else if (found_brace : bool) then
          c ← fmt !! Z.to_nat i;
          '(l, i, acur) ← brace_utf16 fmt args c (i + 1) acur l;
          format_loop_utf16 fuel fmt args i acur l
        else format_loop_utf16 fuel fmt args i acur l
      else Some l
  end.

(** [format] are the bytes of the format string. *)
Definition python_style_format_content_utf16 (format args : list Z) (l : layout) : option layout :=
  let fmt := bytes_units (Z.to_nat (Z.shiftr (zlen format) 1)) format in
  format_loop_utf16 (S (length fmt)) fmt args 0 0 (expand_by (u32 (Z.shiftr (zlen format * 3) 1)) l).

(** ** The line of a record *)

(** The time zone as the layout uses it: the text of a time in milliseconds, cached in the
    object; in a state that the operations lead to it is never longer than the room that
    the layout makes for it. *)
Class TimeText := {
  time_zone : Type;
  refresh_time_string_cache : time_zone -> Z -> time_zone;
  time_string_cache : time_zone -> list Z;
  time_zone_ok : time_zone -> Prop;
  time_refresh_ok tz epoch_ms : time_zone_ok tz -> time_zone_ok (refresh_time_string_cache tz epoch_ms);
  time_string_len tz : time_zone_ok tz -> zlen (time_string_cache tz) <= 128 }.

Inductive enum_layout_result := finished | to_be_continue | parse_error.

Definition digits3 (v : Z) : list Z := [48 + v / 100; 48 + v / 10 mod 10; 48 + v mod 10].

(** [kDigits3] *)
Definition kDigits3 : list Z := seqZ 0 1000 ≫= digits3.

(** The digits of a number that has at most [fuel] of them, as [printf] writes them. *)
Fixpoint number_text (fuel : nat) (upper : bool) (base n : Z) : list Z :=
  match fuel with
  | O => []
  | S fuel => (if n <? base then [] else number_text fuel upper base (n / base))
              ++ [digit_char upper (n mod base)]
  end.

Definition text_tid : list Z := [91; 116; 105; 100; 45].  (* [tid- *)

(** The cached text for a thread, composed in [char tmp[256]]; a zero byte in the name ends
    the [std::string]. *)
Definition thread_text (tid : Z) (name : list Z) : option (list Z) :=
  let tmp := text_tid ++ number_text 20 false 10 tid ++ [32] ++ name ++ [93; 9] in
  if zlen tmp <? 256 then Some (until_zero tmp) else None.

Section TimeText.
Context {tt : TimeText}.

Definition python_style_format_content (h : RecordHeader) (fmt args : list Z) (l : layout) : option layout :=
  l ← (if log_format_str_type h =? tag_code string_utf8_type
       then python_style_format_content_utf8 fmt args l
       else python_style_format_content_utf16 fmt args l);
  let l := expand_by 1 l in
  c ← store (format_content_ l) (format_content_cursor_ l) [0];
  let l := set_content c l in
  if format_content_cursor_ l <? zlen (format_content_ l) then Some l else None.

Definition insert_time (tz : time_zone) (epoch_ms : Z) (l : layout) : option (time_zone * layout) :=
  let l := expand_by (128 + 3) l in
  let tz := refresh_time_string_cache tz epoch_ms in
  l ← write_text (time_string_cache tz) l;
  ms ← load kDigits3 (epoch_ms mod 1000 * 3) 3;
  l ← write_text ms l;
  Some (tz, l).

Definition insert_thread_info (data : list Z) (h : RecordHeader) (l : layout) : option layout :=
  let tid := log_thread_id h in
  l ← (match thread_names_cache_ l !! tid with
       | Some _ => Some l
       | None =>
           name ← get_thread_name data h;
           text ← thread_text tid name;
           Some (set_names (<[tid := text]> (thread_names_cache_ l)) l)
       end);
  text ← thread_names_cache_ l !! tid;
  if negb (zlen text =? 0) then write_text text (expand_by (zlen text) l) else Some l.

Definition kLevelText : list (list Z) :=
  [[91; 86; 93]; [91; 68; 93]; [91; 73; 93]; [91; 87; 93]; [91; 69; 93]; [91; 70; 93]].

Definition layout_prefix (data : list Z) (h : RecordHeader) (tz : time_zone) (categories : list (list Z))
    (l : layout) : option (enum_layout_result * time_zone * layout) :=
  '(tz, l) ← insert_time tz (timestamp_epoch h) l;
  l ← insert_thread_info data h l;
  match kLevelText !! Z.to_nat (level h) with
  | None => Some (parse_error, tz, l)
  | Some level_str =>
      l ← insert_str_utf8 level_str l;
      l ← insert_char 9 l;
      match categories !! Z.to_nat (category_idx h) with
      | None => Some (parse_error, tz, l)
      | Some name =>
          if negb (zlen name =? 0) then
            l ← insert_char 91 l;
            l ← insert_str_utf8 name l;
            l ← insert_str_utf8 [93; 9] l;
            Some (finished, tz, l)
          else Some (finished, tz, l)
      end
  end.

Definition do_layout (data : list Z) (tz : time_zone) (categories : list (list Z)) (l : layout) :
    option (enum_layout_result * time_zone * layout) :=
  h ← read_header data;
  let l := expand_format_content_buff_size 1024 (set_cursor 0 l) in
  '(result, tz, l) ← layout_prefix data h tz categories l;
  match result with
  | finished =>
      fmt ← get_format_string_data data h;
      args ← get_log_args_data data h;
      l ← python_style_format_content h fmt args l;
      Some (finished, tz, l)
  | _ => Some (result, tz, l)
  end.

(** [get_formated_str] and [get_formated_str_len] *)
Definition formated_str (l : layout) : option (list Z) := load (format_content_ l) 0 (format_content_cursor_ l).

End TimeText.
