(* ===== verification/LayoutProofs.v ===== *)
(** * What the layout writes

    The buffer operations of [Layout.v] as operations on the text shown so far, and the
    text of a field: the routines that move characters about in the buffer write the same
    text as the reference definitions below, which are functions of the argument alone. *)
From stdpp Require Import base list option numbers gmap.
From Stdlib Require Import ZArith Lia Bool SpecFloat.
From S2P Require Import Prelude Memory Floats ArgSerialization BufferDefs LogEntry Utf Layout.

(** ** The text in the buffer *)

Definition size (l : layout) : Z := zlen (format_content_ l).

(** The buffer starts with [t], and the cursor is behind it. *)
Definition shows (l : layout) (t : list Z) : Prop :=
  exists junk, format_content_ l = t ++ junk /\ format_content_cursor_ l = zlen t.

(** [l'] shows [t]; the rest of the state is that of [l], and the buffer has not shrunk. *)
Record step_to (l l' : layout) (t : list Z) : Prop := {
  to_shows : shows l' t;
  to_info : format_info_ l' = format_info_ l;
  to_names : thread_names_cache_ l' = thread_names_cache_ l;
  to_size : size l <= size l' }.

(** The largest buffer considered. *)
Definition max_size : Z := 2 ^ 31.

(** What [expand_format_content_buff_size] adds. *)
Definition slack (i : FormatInfo) : Z :=
  if fi_offset i =? 0 then 0 else u32 (fi_width i + fi_precision i + 2).

Lemma slack_nonneg (i : FormatInfo) : 0 <= slack i.
Proof. unfold slack. destruct (_ =? 0); [lia|]. apply (wrap_range 32). lia. Qed.

Lemma shows_room (l : layout) (t : list Z) : shows l t -> zlen t <= size l.
Proof. intros (junk & E & _). unfold size. rewrite E, zlen_app. pose proof (zlen_nonneg junk). lia. Qed.

Lemma step_refl (l : layout) (t : list Z) : shows l t -> step_to l l t.
Proof. intros H. by split. Qed.

Lemma step_trans (l1 l2 l3 : layout) (t2 t3 : list Z) :
  step_to l1 l2 t2 -> step_to l2 l3 t3 -> step_to l1 l3 t3.
Proof. intros [_ I1 N1 S1] [H I2 N2 S2]. split; [done|congruence|congruence|lia]. Qed.

Lemma write_text_ok (l : layout) (t text : list Z) :
  shows l t -> size l <= max_size -> zlen t + zlen text <= size l ->
  exists l', write_text text l = Some l' /\ step_to l l' (t ++ text) /\ size l' = size l.
Proof.
  unfold size, max_size. intros (junk & E & Ec) Hm Hr. pose proof (zlen_nonneg t). pose proof (zlen_nonneg text).
  unfold write_text. rewrite E in *. rewrite Ec, zlen_app in *.
  destruct (split_block junk 0 (zlen text)) as (pre & old & post & -> & Hp & Ho); [lia..|].
  destruct pre; [|by rewrite zlen_cons in Hp; pose proof (zlen_nonneg pre); lia].
  cbn [app] in *. rewrite (store_app t old text post) by (unfold zlen in *; lia). cbn [mbind option_bind].
  eexists. split; [done|]. rewrite wrap_small by (unfold in_range; lia).
  split; [split|]; simpl; rewrite ?E, ?zlen_app in *; try done; rewrite ?zlen_app; try lia.
  - exists post. simpl. by rewrite <- app_assoc, zlen_app.
  - unfold size. simpl. rewrite E, !zlen_app. lia.
Qed.

Lemma zlen_resize (n : Z) (v : list Z) : zlen v <= n -> zlen (resize n v) = n.
Proof.
  intros H. unfold resize, zlen in *. rewrite length_app, length_take, length_replicate. lia.
Qed.

Lemma resize_prefix (n : Z) (t junk : list Z) :
  zlen (t ++ junk) <= n -> exists junk', resize n (t ++ junk) = t ++ junk'.
Proof.
  intros H. unfold resize. rewrite take_ge by (unfold zlen in *; lia). rewrite <- app_assoc. eauto.
Qed.

Lemma expand_any_ok (n m : Z) (l : layout) (t : list Z) :
  shows l t -> size l <= max_size -> u32 (zlen t + n) = m -> m + slack (format_info_ l) <= max_size ->
  step_to l (expand_by n l) t /\ size (expand_by n l) <= max_size /\
  m + slack (format_info_ l) <= size (expand_by n l).
Proof.
  intros Hs Hm Hn Hb. pose proof (slack_nonneg (format_info_ l)). pose proof (zlen_nonneg t).
  assert (0 <= m) as Hm0 by (subst m; apply (wrap_range 32); lia).
  destruct Hs as (junk & E & Ec). unfold expand_by, expand_format_content_buff_size.
  set (v := if fi_offset _ =? 0 then _ else _).
  assert (v = m + slack (format_info_ l)) as Hv.
  { unfold v, slack in *. unfold max_size in *. rewrite Ec, Hn.
    destruct (_ =? 0); [lia|]. rewrite <- wrap_add_r. apply wrap_small. unfold in_range. lia. }
  clearbody v. rewrite <- Hv in Hb |- *. unfold size in *.
  destruct (Z.leb_spec v (zlen (format_content_ l))) as [Hle|Hgt].
  { split; [|done]. apply step_refl. by exists junk. }
  pose proof (zlen_nonneg (format_content_ l)).
  destruct (round_pow_of_two_up v) as [R1 R2]; [unfold max_size in *; lia|].
  rewrite E in *. destruct (resize_prefix (round_pow_of_two v) t junk) as [junk' Er]; [lia|].
  assert (zlen (resize (round_pow_of_two v) (t ++ junk)) = round_pow_of_two v) as Hz
    by (apply zlen_resize; lia).
  split; [split|]; simpl; try done.
  - exists junk'. by rewrite Er.
  - unfold size. simpl. rewrite E, Hz. lia.
  - rewrite Hz. unfold max_size. lia.
Qed.

Lemma expand_by_ok (n : Z) (l : layout) (t : list Z) :
  shows l t -> size l <= max_size -> 0 <= n -> zlen t + n + slack (format_info_ l) <= max_size ->
  step_to l (expand_by n l) t /\ size (expand_by n l) <= max_size /\
  zlen t + n + slack (format_info_ l) <= size (expand_by n l).
Proof.
  intros Hs Hm Hn Hb. apply expand_any_ok; [done..| |done].
  pose proof (slack_nonneg (format_info_ l)). pose proof (zlen_nonneg t).
  unfold max_size in *. apply wrap_small. unfold in_range. lia.
Qed.

(** Making room and writing into it. *)
Lemma expand_write_ok (n : Z) (l : layout) (t text : list Z) :
  shows l t -> size l <= max_size -> 0 <= n -> zlen t + n + slack (format_info_ l) <= max_size ->
  zlen text <= n + slack (format_info_ l) ->
  exists l', write_text text (expand_by n l) = Some l' /\ step_to l l' (t ++ text) /\
    size l' <= max_size /\ zlen t + n + slack (format_info_ l) <= size l'.
Proof.
  intros Hs Hm Hn Hb Ht. destruct (expand_by_ok n l t Hs Hm Hn Hb) as (H1 & H2 & H3).
  destruct (write_text_ok _ t text (to_shows _ _ _ H1) H2 ltac:(lia)) as (l' & E & H4 & H5).
  exists l'. split; [done|]. split; [by eapply step_trans|]. lia.
Qed.

Lemma put_ok (c : Z) (l : layout) (t : list Z) :
  shows l t -> size l <= max_size -> zlen t < size l ->
  exists l', put c l = Some l' /\ step_to l l' (t ++ [c]) /\ size l' = size l.
Proof. intros. apply write_text_ok; [done..|]. unfold zlen in *. simpl. lia. Qed.

Lemma zlen_singleton (c : Z) : zlen [c] = 1.
Proof. done. Qed.

(** Equations between concatenations. *)
Ltac list_assoc := simpl; rewrite <- ?app_assoc; simpl; rewrite <- ?app_assoc; simpl; try done.

#[local] Hint Rewrite @zlen_app @zlen_cons @zlen_nil zlen_singleton : zlen.

(** ** Reversal *)

Lemma reverse_loop_ok (fuel : nat) (t a d : list Z) :
  (length a < fuel)%nat ->
  reverse_loop fuel (t ++ a ++ d) (zlen t) (zlen t + zlen a - 1) = Some (t ++ rev a ++ d).
Proof.
  revert t a d. induction fuel as [|fuel IH]; intros t a d Hl; [lia|]. cbn [reverse_loop].
  destruct a as [|x a]; [rewrite (proj2 (Z.ltb_ge _ _)); [done|unfold zlen; simpl; lia]|].
  destruct a as [|y a _] using rev_ind; [rewrite (proj2 (Z.ltb_ge _ _)); [done|unfold zlen; simpl; lia]|].
  autorewrite with zlen. pose proof (zlen_nonneg a).
  rewrite (proj2 (Z.ltb_lt _ _)) by lia.
  rewrite (load_app_at _ t [x] (a ++ [y] ++ d) (zlen t) 1) by list_assoc.
  cbn [mbind option_bind].
  rewrite (load_app_at _ (t ++ x :: a) [y] d (zlen t + (1 + (zlen a + 1)) - 1) 1)
    by (list_assoc; autorewrite with zlen; lia).
  cbn [mbind option_bind].
  rewrite (store_app_at _ t [x] [y] (a ++ [y] ++ d) (zlen t)) by list_assoc.
  cbn [mbind option_bind].
  rewrite (store_app_at _ (t ++ y :: a) [y] [x] d (zlen t + (1 + (zlen a + 1)) - 1))
    by (list_assoc; autorewrite with zlen; lia).
  cbn [mbind option_bind].
  simpl in Hl. rewrite length_app in Hl. simpl in Hl.
  specialize (IH (t ++ [y]) a (x :: d) ltac:(lia)). autorewrite with zlen in IH.
  replace (zlen t + 1 + zlen a - 1) with (zlen t + (1 + (zlen a + 1)) - 1 - 1) in IH by lia.
  replace ((t ++ [y]) ++ a ++ x :: d) with ((t ++ y :: a) ++ [x] ++ d) in IH
    by list_assoc.
  rewrite IH. f_equal. simpl. rewrite rev_app_distr. simpl. by rewrite <- !app_assoc.
Qed.

Lemma reverse_ok (l : layout) (t a : list Z) :
  shows l (t ++ a) -> a <> [] -> size l <= max_size ->
  exists l', reverse (zlen t) (u32 (format_content_cursor_ l - 1)) l = Some l' /\
    step_to l l' (t ++ rev a) /\ size l' = size l.
Proof.
  intros (junk & E & Ec) Ha Hm. unfold size, max_size, reverse in *. rewrite E, Ec in *.
  autorewrite with zlen in *. pose proof (zlen_nonneg t). pose proof (zlen_nonneg junk).
  assert (0 < zlen a) by (destruct a; [done|]; rewrite zlen_cons; pose proof (zlen_nonneg a); lia).
  rewrite wrap_small by (unfold in_range; lia). rewrite <- app_assoc.
  rewrite reverse_loop_ok by (rewrite !length_app; lia). cbn [mbind option_bind].
  eexists. split; [done|]. split; [split|]; simpl; try done.
  - exists junk. simpl. rewrite Ec, <- app_assoc. autorewrite with zlen. split; [done|].
    unfold zlen. by rewrite length_rev.
  - unfold size. simpl. rewrite E. autorewrite with zlen. unfold zlen. rewrite length_rev. lia.
  - autorewrite with zlen. unfold zlen. rewrite length_rev. lia.
Qed.

(** ** Numbers as text *)

Lemma number_text_nonempty (fuel : nat) (upper : bool) (base n : Z) :
  number_text (S fuel) upper base n <> [].
Proof. simpl. by destruct (if n <? base then _ else _). Qed.

(** [k] is the number of digits of [n]. *)
Definition digits_of (base n k : Z) : Prop := 1 <= k /\ n < base ^ k /\ (k = 1 \/ base ^ (k - 1) <= n).

Lemma digits_of_unique (base n k1 k2 : Z) :
  2 <= base -> digits_of base n k1 -> digits_of base n k2 -> k1 = k2.
Proof.
  intros Hb (P1 & H1 & L1) (P2 & H2 & L2).
  destruct (Z.lt_trichotomy k1 k2) as [Hlt|[|Hlt]]; [|done|].
  - pose proof (Z.pow_le_mono_r base k1 (k2 - 1)). lia.
  - pose proof (Z.pow_le_mono_r base k2 (k1 - 1)). lia.
Qed.

Lemma number_text_digits (fuel : nat) (upper : bool) (base n : Z) :
  2 <= base -> 0 <= n < base ^ Z.of_nat fuel -> fuel <> O ->
  digits_of base n (zlen (number_text fuel upper base n)).
Proof.
  intros Hb. revert n. induction fuel as [|fuel IH]; intros n Hn Hf; [done|]. simpl number_text.
  destruct (Z.ltb_spec n base) as [Hlt|Hge].
  - unfold digits_of. simpl. change (zlen [digit_char upper (n mod base)]) with 1. rewrite Z.pow_1_r. lia.
  - rewrite zlen_app, zlen_singleton. rewrite Nat2Z.inj_succ, Z.pow_succ_r in Hn by lia.
    assert (fuel <> O) as Hf' by (intros ->; rewrite Z.pow_0_r in Hn; lia).
    assert (0 <= n / base < base ^ Z.of_nat fuel) as Hq.
    { split; [apply Z.div_pos; lia|]. apply Z.div_lt_upper_bound; lia. }
    destruct (IH (n / base) Hq Hf') as (H1 & H2 & H3). set (k := zlen _) in *.
    pose proof (Z.div_mod n base ltac:(lia)). pose proof (Z.mod_pos_bound n base ltac:(lia)).
    split; [lia|]. rewrite Z.pow_add_r, Z.pow_1_r by lia. split; [nia|]. right.
    replace (k + 1 - 1) with (1 + (k - 1)) by lia. rewrite Z.pow_add_r, Z.pow_1_r by lia.
    destruct H3 as [->|H3]; [simpl; lia|]. nia.
Qed.

Lemma number_text_room (fuel : nat) (upper : bool) (base n : Z) :
  2 <= base -> zlen (number_text fuel upper base n) <= Z.of_nat fuel.
Proof.
  intros Hb. revert n. induction fuel as [|fuel IH]; intros n; [done|]. simpl number_text.
  rewrite zlen_app, zlen_singleton. specialize (IH (n / base)).
  destruct (n <? base); [unfold zlen; simpl; lia|lia].
Qed.

(** The value that a text of digits stands for. *)
Definition digit_value (c : Z) : Z := if c <=? 57 then c - 48 else if c <=? 90 then c - 55 else c - 87.
Definition text_value (base : Z) (text : list Z) : Z := foldl (fun v c => v * base + digit_value c) 0 text.

Lemma digit_char_value (upper : bool) (d : Z) : 0 <= d < 36 -> digit_value (digit_char upper d) = d.
Proof.
  intros H. unfold digit_char, digit_value. destruct (Z.ltb_spec d 10).
  - rewrite (proj2 (Z.leb_le _ _)) by lia. lia.
  - destruct upper.
    + rewrite (proj2 (Z.leb_gt _ 57)), (proj2 (Z.leb_le _ 90)) by lia. lia.
    + rewrite (proj2 (Z.leb_gt _ 57)), (proj2 (Z.leb_gt _ 90)) by lia. lia.
Qed.

Lemma number_text_value (fuel : nat) (upper : bool) (base n : Z) :
  2 <= base <= 36 -> 0 <= n < base ^ Z.of_nat fuel -> text_value base (number_text fuel upper base n) = n.
Proof.
  intros Hb. revert n. induction fuel as [|fuel IH]; intros n Hn; [simpl in *; unfold text_value; simpl; lia|].
  simpl number_text. unfold text_value. rewrite foldl_snoc.
  pose proof (Z.mod_pos_bound n base ltac:(lia)). rewrite digit_char_value by lia.
  pose proof (Z.div_mod n base ltac:(lia)).
  destruct (Z.ltb_spec n base) as [Hlt|Hge]; [simpl; rewrite Z.mod_small by lia; lia|].
  fold (text_value base (number_text fuel upper base (n / base))). rewrite IH; [lia|].
  rewrite Nat2Z.inj_succ, Z.pow_succ_r in Hn by lia.
  split; [apply Z.div_pos; lia|]. apply Z.div_lt_upper_bound; lia.
Qed.

(** ** The decimal digits, two at a time *)

Lemma digit_pair_ok (v : Z) : 0 <= v < 100 -> load digit_pairs (v * 2) 2 = Some [48 + v / 10; 48 + v mod 10].
Proof.
  intros H. assert (forall n, (n < 100)%nat ->
    load digit_pairs (Z.of_nat n * 2) 2 = Some [48 + Z.of_nat n / 10; 48 + Z.of_nat n mod 10]) as Hn.
  { intros n Hn. do 100 (destruct n as [|n]; [reflexivity|]). lia. }
  specialize (Hn (Z.to_nat v) ltac:(lia)). by rewrite Z2Nat.id in Hn by lia.
Qed.

Lemma digit_char_10 (upper : bool) (v : Z) : digit_char upper (v mod 10) = 48 + v mod 10.
Proof.
  unfold digit_char. pose proof (Z.mod_pos_bound v 10 ltac:(lia)). by rewrite (proj2 (Z.ltb_lt _ _)) by lia.
Qed.

Lemma write_pairs_ok (fuel : nat) (value : Z) (t x d : list Z) :
  0 <= value < 100 ^ Z.of_nat fuel -> fuel <> O ->
  length x = length (number_text (2 * fuel) false 10 value) ->
  write_pairs fuel value (zlen t + zlen x) (t ++ x ++ d) =
    Some (t ++ number_text (2 * fuel) false 10 value ++ d).
Proof.
  revert value x d. induction fuel as [|fuel IH]; intros value x d Hv Hf Hx; [done|].
  replace (2 * S fuel)%nat with (S (S (2 * fuel))) in * by lia. cbn [write_pairs].
  pose proof (Z.div_mod value 10 ltac:(lia)). pose proof (Z.mod_pos_bound value 10 ltac:(lia)).
  destruct (Z.leb_spec 100 value) as [H100|H100].
  - assert (number_text (S (S (2 * fuel))) false 10 value =
            number_text (2 * fuel) false 10 (value / 100) ++ [48 + value mod 100 / 10; 48 + value mod 100 mod 10]) as E.
    { cbn [number_text]. rewrite (proj2 (Z.ltb_ge value 10)) by lia.
      rewrite (proj2 (Z.ltb_ge (value / 10) 10)) by (Z.to_euclidean_division_equations; lia).
      rewrite Z.div_div by lia. rewrite !digit_char_10, <- app_assoc.
      assert (value / 10 mod 10 = value mod 100 / 10) as -> by (Z.to_euclidean_division_equations; lia).
      assert (value mod 10 = value mod 100 mod 10) as -> by (Z.to_euclidean_division_equations; lia). done. }
    rewrite E in Hx |- *. rewrite length_app in Hx. cbn [length] in Hx.
    destruct x as [|b x _] using rev_ind; [cbn [length] in Hx; lia|].
    destruct x as [|a x _] using rev_ind; [cbn [length app] in Hx; lia|].
    rewrite !length_app in Hx. cbn [length] in Hx.
    assert (zlen t + zlen ((x ++ [a]) ++ [b]) - 2 = zlen t + zlen x) as -> by (autorewrite with zlen; lia).
    rewrite digit_pair_ok by (apply Z.mod_pos_bound; lia). cbn [mbind option_bind].
    rewrite (store_app_at _ (t ++ x) [a; b] [48 + value mod 100 / 10; 48 + value mod 100 mod 10] d);
      [|list_assoc|autorewrite with zlen; lia|done].
    cbn [mbind option_bind].
    rewrite Nat2Z.inj_succ, Z.pow_succ_r in Hv by lia.
    assert (fuel <> O) as Hf' by (intros ->; simpl in Hv; lia).
    specialize (IH (value / 100) x ([48 + value mod 100 / 10; 48 + value mod 100 mod 10] ++ d)).
    rewrite <- (app_assoc t x), IH; [by rewrite <- !app_assoc| |done|lia].
    split; [apply Z.div_pos; lia|]. apply Z.div_lt_upper_bound; lia.
  - destruct (Z.leb_spec 10 value) as [H10|H10].
    + assert (number_text (S (S (2 * fuel))) false 10 value = [48 + value / 10; 48 + value mod 10]) as E.
      { cbn [number_text]. rewrite (proj2 (Z.ltb_ge value 10)) by lia.
        rewrite (proj2 (Z.ltb_lt (value / 10) 10)) by (Z.to_euclidean_division_equations; lia).
        rewrite !digit_char_10. simpl. f_equal. f_equal. Z.to_euclidean_division_equations; lia. }
      rewrite E in Hx |- *. rewrite digit_pair_ok by lia. cbn [mbind option_bind].
      apply (store_app_at _ t x _ d); [done| |unfold zlen in *; simpl in *; lia].
      unfold zlen. rewrite Hx. simpl. lia.
    + assert (number_text (S (S (2 * fuel))) false 10 value = [48 + value]) as E.
      { cbn [number_text]. rewrite (proj2 (Z.ltb_lt value 10)) by lia. rewrite digit_char_10.
        by rewrite Z.mod_small by lia. }
      rewrite E in Hx |- *.
      apply (store_app_at _ t x _ d); [done| |unfold zlen in *; simpl in *; lia].
      unfold zlen. rewrite Hx. simpl. lia.
Qed.

Lemma count_digits_spec (fuel : nat) (count limit value : Z) :
  0 <= value < 2 ^ 64 -> 1 <= count <= 20 -> Z.of_nat fuel + count = 21 ->
  (count < 20 -> limit = 10 ^ count) -> (count = 1 \/ 10 ^ (count - 1) <= value) ->
  digits_of 10 value (count_digits fuel count limit value).
Proof.
  intros Hv. revert count limit. induction fuel as [|fuel IH]; intros count limit Hc Hf Hl Hlo; [lia|].
  assert (2 ^ 64 < 10 ^ 20) as Hbig by done. cbn [count_digits].
  destruct (Z.ltb_spec count 20) as [H20|H20]; cbn [andb].
  - rewrite (Hl H20). destruct (Z.leb_spec (10 ^ count) value) as [Hle|Hgt].
    + apply IH; [lia|lia| |right; by replace (count + 1 - 1) with count by lia].
      intros H. rewrite Z.pow_add_r, Z.pow_1_r by lia.
      assert (10 ^ count <= 10 ^ 18) by (apply Z.pow_le_mono_r; lia).
      apply wrap_small. unfold in_range. lia.
    + split; [lia|]. split; [lia|]. done.
  - assert (count = 20) as -> by lia. split; [lia|]. split; [lia|]. done.
Qed.

Lemma write_decimal_digits_ok (value : Z) (l : layout) (t : list Z) :
  shows l t -> size l <= max_size -> 0 <= value < 2 ^ 64 ->
  zlen t + zlen (number_text 20 false 10 value) <= size l ->
  exists l', write_decimal_digits value l = Some l' /\
    step_to l l' (t ++ number_text 20 false 10 value) /\ size l' = size l.
Proof.
  intros (junk & E & Ec) Hm Hv Hr. unfold write_decimal_digits, size, max_size in *.
  assert (2 ^ 64 < 10 ^ 20 /\ 100 ^ 10 = 10 ^ 20) as [Hbig Hsq] by done.
  assert (count_digits 20 1 10 value = zlen (number_text 20 false 10 value)) as ->.
  { apply (digits_of_unique 10 value); [lia| |].
    - apply count_digits_spec; [done|lia|lia|done|by left].
    - apply number_text_digits; [lia| |done]. change (Z.of_nat 20) with 20. lia. }
  set (text := number_text 20 false 10 value) in *.
  rewrite Ec, E in *. autorewrite with zlen in *. pose proof (zlen_nonneg t). pose proof (zlen_nonneg text).
  destruct (split_block junk 0 (zlen text)) as (pre & x & post & -> & Hp & Ho); [lia..|].
  destruct pre; [|by rewrite zlen_cons in Hp; pose proof (zlen_nonneg pre); lia].
  cbn [app]. rewrite <- Ho. rewrite (write_pairs_ok 10 value t x post);
    [|change (Z.of_nat 10) with 10; lia|done|fold text; unfold zlen in Ho; change (2 * 10)%nat with 20%nat; fold text; lia].
  change (2 * 10)%nat with 20%nat. fold text. clearbody text. clear Hbig Hsq Hv. cbn [mbind option_bind].
  eexists. split; [done|]. rewrite wrap_small by (unfold in_range; lia).
  split; [split|]; simpl; try done.
  - exists post. simpl. rewrite <- app_assoc. autorewrite with zlen. split; [done|lia].
  - unfold size. simpl. rewrite E. autorewrite with zlen. lia.
  - autorewrite with zlen. lia.
Qed.

(** ** The digits in another base *)

Lemma unsigned_digits_ok (fuel : nat) (value base e : Z) (l : layout) (t : list Z) :
  2 <= base -> 0 <= value < base ^ Z.of_nat fuel -> fuel <> O -> shows l t -> size l <= max_size ->
  zlen t + zlen (number_text fuel (fi_upper (format_info_ l)) base value) <= size l ->
  exists l' e', unsigned_digits fuel value base e l = Some (l', e') /\
    step_to l l' (t ++ rev (number_text fuel (fi_upper (format_info_ l)) base value)) /\ size l' = size l.
Proof.
  intros Hb. revert value e l t. induction fuel as [|fuel IH]; intros value e l t Hv Hf Hs Hm Hr; [done|].
  cbn [unsigned_digits number_text] in *. rewrite rev_app_distr. simpl rev.
  rewrite zlen_app, zlen_singleton in Hr.
  destruct (put_ok (digit_char (fi_upper (format_info_ l)) (value mod base)) l t Hs Hm) as (l1 & -> & H1 & S1).
  { pose proof (zlen_nonneg (if value <? base then [] else number_text fuel (fi_upper (format_info_ l)) base (value / base))). lia. }
  cbn [mbind option_bind]. pose proof (Z.div_mod value base ltac:(lia)).
  pose proof (Z.mod_pos_bound value base ltac:(lia)).
  destruct (Z.ltb_spec value base) as [Hlt|Hge].
  - rewrite (Z.div_small value base), Z.eqb_refl by lia. do 2 eexists. split; [done|].
    simpl. split; [done|lia].
  - destruct (Z.eqb_spec (value / base) 0) as [E0|_]; [nia|].
    rewrite Nat2Z.inj_succ, Z.pow_succ_r in Hv by lia.
    assert (fuel <> O) as Hf' by (intros ->; rewrite Z.pow_0_r in Hv; lia).
    assert (0 <= value / base < base ^ Z.of_nat fuel) as Hq
      by (split; [apply Z.div_pos; lia|apply Z.div_lt_upper_bound; lia]).
    edestruct (IH (value / base)) as (l' & e' & E & H2 & S2);
      [exact Hq|done|exact (to_shows _ _ _ H1)|lia|
       rewrite (to_info _ _ _ H1); autorewrite with zlen; lia|].
    rewrite E. do 2 eexists. split; [done|]. rewrite (to_info _ _ _ H1) in H2.
    split; [|lia]. simpl. rewrite <- app_assoc in H2. by eapply step_trans.
Qed.

Lemma signed_digits_ok (fuel : nat) (value base e : Z) (l : layout) :
  2 <= base -> Z.abs value < base ^ Z.of_nat fuel -> fuel <> O ->
  exists e', signed_digits fuel value base e l =
    ('(l', _) ← unsigned_digits fuel (Z.abs value) base 0 l; Some (l', e')).
Proof.
  intros Hb. revert value e l. enough (forall value e e0 l, Z.abs value < base ^ Z.of_nat fuel -> fuel <> O ->
    exists e', signed_digits fuel value base e l =
      ('(l', _) ← unsigned_digits fuel (Z.abs value) base e0 l; Some (l', e'))) as H by (intros; by apply H).
  induction fuel as [|fuel IH]; intros value e e0 l Hv Hf; [done|].
  cbn [signed_digits unsigned_digits].
  assert (Z.abs (Z.rem value base) = Z.abs value mod base) as ->.
  { rewrite <- Z.rem_mod_nonneg by lia. rewrite <- (Z.rem_abs value base) by lia.
    by rewrite (Z.abs_eq base) by lia. }
  destruct (put _ l) as [l1|]; [|by exists 0]. cbn [mbind option_bind].
  assert (Z.abs (Z.quot value base) = Z.abs value / base) as Eq.
  { rewrite <- Z.quot_div_nonneg by lia. rewrite <- (Z.quot_abs value base) by lia.
    by rewrite (Z.abs_eq base) by lia. }
  rewrite <- Eq. destruct (Z.eqb_spec (Z.quot value base) 0) as [E0|E0].
  - rewrite E0. simpl. by eexists.
  - rewrite (proj2 (Z.eqb_neq (Z.abs _) 0)) by lia. rewrite Nat2Z.inj_succ, Z.pow_succ_r in Hv by lia.
    apply IH.
    + rewrite Eq. apply Z.div_lt_upper_bound; lia.
    + intros ->. change (base ^ Z.of_nat 0) with 1 in Hv.
      assert (Z.abs value / base = 0) by (apply Z.div_small; lia). lia.
Qed.

(** ** Integers *)

Definition prefix_text (info : FormatInfo) : list Z :=
  if fi_prefix info =? 35 then
    if fi_type info =? 98 then [48; if fi_upper info then 66 else 98]
    else if fi_type info =? 120 then [48; if fi_upper info then 88 else 120] else []
  else [].

Definition base_text (info : FormatInfo) (base n : Z) : list Z :=
  let base := type_base info base in
  if base =? 10 then number_text 20 false 10 n else number_text 65 (fi_upper info) base n.

Definition unsigned_text (info : FormatInfo) (base n : Z) : list Z :=
  (if (0 <? n) && (fi_sign info =? 43) then [43] else []) ++ prefix_text info ++ base_text info base n.

Definition signed_text (info : FormatInfo) (base n : Z) : list Z :=
  (if n <? 0 then [45] else if fi_sign info =? 43 then [43] else []) ++ prefix_text info ++
  base_text info base (Z.abs n).

Definition base_room (info : FormatInfo) (base : Z) : Z :=
  let base := type_base info base in if 16 <=? base then 16 else if 10 <=? base then 20 else 64.

Lemma step_from (l l1 l2 : layout) (t1 t2 : list Z) :
  step_to l l1 t1 -> step_to l1 l2 t2 -> size l2 = size l1 -> step_to l l2 t2 /\ size l2 = size l1.
Proof. intros H1 H2 Hs. split; [by eapply step_trans|done]. Qed.

Lemma put_if_ok (b : bool) (c : Z) (l : layout) (t : list Z) :
  shows l t -> size l <= max_size -> zlen (t ++ if b then [c] else []) <= size l ->
  exists l', put_if b c l = Some l' /\ step_to l l' (t ++ if b then [c] else []) /\ size l' = size l.
Proof.
  intros Hs Hm Hr. destruct b; simpl.
  - apply put_ok; [done..|]. autorewrite with zlen in Hr. lia.
  - exists l. rewrite app_nil_r. split; [done|]. split; [by apply step_refl|done].
Qed.

Lemma put_two_ok (a b : Z) (l : layout) (t : list Z) :
  shows l t -> size l <= max_size -> zlen t + 2 <= size l ->
  exists l', (l ← put a l; put b l) = Some l' /\ step_to l l' (t ++ [a; b]) /\ size l' = size l.
Proof.
  intros Hs Hm Hr. destruct (put_ok a l t Hs Hm) as (l1 & -> & H1 & S1); [lia|]. cbn [mbind option_bind].
  destruct (put_ok b l1 (t ++ [a]) (to_shows _ _ _ H1)) as (l2 & -> & H2 & S2);
    [lia|autorewrite with zlen; lia|].
  exists l2. split; [done|]. rewrite <- app_assoc in H2. split; [by eapply step_trans|lia].
Qed.

Lemma put_prefix_ok (l : layout) (t : list Z) :
  shows l t -> size l <= max_size -> zlen t + zlen (prefix_text (format_info_ l)) <= size l ->
  exists l', put_prefix l = Some l' /\ step_to l l' (t ++ prefix_text (format_info_ l)) /\ size l' = size l.
Proof.
  intros Hs Hm Hr. unfold put_prefix, prefix_text in *.
  assert (exists l', Some l = Some l' /\ step_to l l' (t ++ []) /\ size l' = size l) as Hnone.
  { exists l. rewrite app_nil_r. split; [done|]. split; [by apply step_refl|done]. }
  destruct (_ =? 35); [|done]. destruct (_ =? 98); [by apply put_two_ok|].
  destruct (_ =? 120); [by apply put_two_ok|done].
Qed.

(** The sign and the prefix. *)
Lemma put_head_ok (b : bool) (c : Z) (l : layout) (t : list Z) :
  shows l t -> size l <= max_size ->
  zlen (t ++ (if b then [c] else []) ++ prefix_text (format_info_ l)) <= size l ->
  exists l', (l ← put_if b c l; put_prefix l) = Some l' /\
    step_to l l' (t ++ (if b then [c] else []) ++ prefix_text (format_info_ l)) /\ size l' = size l.
Proof.
  intros Hs Hm Hr. rewrite !zlen_app in Hr. pose proof (zlen_nonneg (prefix_text (format_info_ l))).
  destruct (put_if_ok b c l t Hs Hm) as (l1 & -> & H1 & S1); [rewrite zlen_app; lia|]. cbn [mbind option_bind].
  destruct (put_prefix_ok l1 _ (to_shows _ _ _ H1)) as (l2 & -> & H2 & S2);
    [lia|rewrite (to_info _ _ _ H1), zlen_app; lia|].
  exists l2. split; [done|]. rewrite (to_info _ _ _ H1), <- app_assoc in H2. split; [by eapply step_trans|lia].
Qed.

Lemma type_base_cases (info : FormatInfo) (base : Z) :
  In base [10; 16] -> In (type_base info base) [2; 8; 10; 16].
Proof.
  intros H. unfold type_base. destruct (_ =? 98); [simpl; tauto|]. destruct (_ =? 120); [simpl; tauto|].
  destruct (_ =? 111); simpl in *; tauto.
Qed.

(** The digits, in either way, behind the text so far. *)
Lemma digits_ok (base n : Z) (l : layout) (t : list Z) :
  In base [10; 16] -> fi_type (format_info_ l) <> 101 -> 0 <= n < 2 ^ 64 ->
  shows l t -> size l <= max_size -> zlen t + zlen (base_text (format_info_ l) base n) <= size l ->
  exists l', (forall e_count,
     (if (type_base (format_info_ l) base =? 10) && negb (fi_type (format_info_ l) =? 101)
      then write_decimal_digits n l
      else '(l', _) ← unsigned_digits 65 n (type_base (format_info_ l) base) 0 l;
           finish_digits (zlen t) e_count l') = Some l') /\
    step_to l l' (t ++ base_text (format_info_ l) base n) /\ size l' = size l.
Proof.
  intros Hb He Hn Hs Hm Hr. rewrite (proj2 (Z.eqb_neq _ _) He). cbn [negb]. rewrite andb_true_r.
  unfold base_text in *. pose proof (type_base_cases (format_info_ l) base Hb) as Hc.
  set (b := type_base _ _) in *. destruct (Z.eqb_spec b 10) as [_|H10].
  { destruct (write_decimal_digits_ok n l t Hs Hm Hn Hr) as (l' & E & H). by exists l'. }
  assert (2 <= b) as Hb2 by (simpl in Hc; lia).
  assert (n < b ^ Z.of_nat 65) as Hlt.
  { pose proof (Z.pow_le_mono_l 2 b (Z.of_nat 65) ltac:(lia)). change (2 ^ Z.of_nat 65) with (2 * 2 ^ 64) in *. lia. }
  destruct (unsigned_digits_ok 65 n b 0 l t Hb2 (conj (proj1 Hn) Hlt) ltac:(done) Hs Hm Hr) as (l1 & e & -> & H1 & S1).
  cbn [mbind option_bind]. unfold finish_digits. rewrite (to_info _ _ _ H1), (proj2 (Z.eqb_neq _ _) He).
  destruct (reverse_ok l1 t (rev (number_text 65 (fi_upper (format_info_ l)) b n)) (to_shows _ _ _ H1))
    as (l2 & E2 & H2 & S2); [|lia|].
  { intros E. apply (f_equal (@rev Z)) in E. rewrite rev_involutive in E. by apply number_text_nonempty in E. }
  exists l2. split; [intros _; exact E2|]. rewrite rev_involutive in H2. split; [by eapply step_trans|lia].
Qed.

(** What both integer routines write from the sign on, into the room made for them. *)
Lemma number_ok (b : bool) (c base n : Z) (l : layout) (t : list Z) :
  let info := format_info_ l in
  let text := (if b then [c] else []) ++ prefix_text info ++ base_text info base n in
  In base [10; 16] -> fi_type info <> 101 -> 0 <= n < 2 ^ 64 ->
  shows l t -> size l <= max_size -> zlen t + base_room info base + slack info <= max_size ->
  zlen text <= base_room info base + slack info ->
  exists l', (forall e_count,
     (l ← put_if b c (expand_for_base (type_base info base) l);
      l ← put_prefix l;
      if (type_base info base =? 10) && negb (fi_type info =? 101)
      then write_decimal_digits n l
      else '(l', _) ← unsigned_digits 65 n (type_base info base) 0 l;
           finish_digits (format_content_cursor_ l) e_count l') = Some l') /\
    step_to l l' (t ++ text) /\ size l' <= max_size /\
    zlen t + base_room info base + slack info <= size l'.
Proof.
  intros info text Hb He Hn Hs Hm Hx Ht. unfold text in *. rewrite !zlen_app in Ht.
  pose proof (zlen_nonneg (base_text info base n)).
  assert (0 <= base_room info base) as H0.
  { unfold base_room. destruct (16 <=? _); [lia|]. by destruct (10 <=? _). }
  destruct (expand_by_ok (base_room info base) l t Hs Hm H0 Hx) as (H1 & S1 & R1).
  change (expand_for_base (type_base info base) l) with (expand_by (base_room info base) l).
  fold info in R1. set (l1 := expand_by _ l) in *.
  assert (format_info_ l1 = info) as Hi1 by apply (to_info _ _ _ H1).
  destruct (put_head_ok b c l1 t (to_shows _ _ _ H1) S1) as (l2 & E2 & H2 & S2);
    [rewrite Hi1, !zlen_app; lia|].
  rewrite Hi1 in H2. assert (format_info_ l2 = info) as Hi2 by (by rewrite (to_info _ _ _ H2)).
  destruct (to_shows _ _ _ H2) as (junk & Ej & Ec).
  destruct (digits_ok base n l2 _ Hb ltac:(by rewrite Hi2) Hn (to_shows _ _ _ H2)) as (l3 & E3 & H3 & S3);
    [lia|rewrite Hi2, !zlen_app; lia|].
  rewrite Hi2 in E3, H3. exists l3. split.
  - intros e. destruct (put_if b c l1) as [l1'|]; [|done]. cbn [mbind option_bind] in E2 |- *. rewrite E2. cbn [mbind option_bind].
    rewrite Ec. apply E3.
  - rewrite <- !app_assoc in H3. split; [|lia]. eapply step_trans; [|exact H3]. by eapply step_trans.
Qed.

Lemma cursor_diff (l l' : layout) (t text : list Z) :
  shows l t -> shows l' (t ++ text) -> size l' <= max_size ->
  u32 (format_content_cursor_ l' - format_content_cursor_ l) = zlen text.
Proof.
  intros (j & E & Ec) Hs Hm. pose proof (shows_room _ _ Hs) as Hr. destruct Hs as (j' & E' & Ec').
  rewrite Ec, Ec'. rewrite zlen_app in *. unfold max_size in *.
  pose proof (zlen_nonneg t). pose proof (zlen_nonneg text). rewrite wrap_small by (unfold in_range; lia). lia.
Qed.

Lemma insert_integral_unsigned_ok (base n : Z) (l : layout) (t : list Z) :
  let info := format_info_ l in
  let text := unsigned_text info base n in
  In base [10; 16] -> fi_type info <> 101 -> 0 <= n < 2 ^ 64 ->
  shows l t -> size l <= max_size -> zlen t + base_room info base + slack info <= max_size ->
  zlen text <= base_room info base + slack info ->
  exists l', insert_integral_unsigned n base l = Some (l', zlen text) /\
    step_to l l' (t ++ text) /\ size l' <= max_size /\
    zlen t + base_room info base + slack info <= size l'.
Proof.
  intros info text Hb He Hn Hs Hm Hx Ht.
  destruct (number_ok _ 43 base n l t Hb He Hn Hs Hm Hx Ht) as (l' & E & H & S & R). fold info in E.
  exists l'. split; [|done]. unfold insert_integral_unsigned. fold info.
  rewrite (proj2 (Z.ltb_ge 32 base)) by (simpl in Hb; lia).
  destruct (put_if _ _ _) as [l1|]; [|by specialize (E 0)]. cbn [mbind option_bind] in E |- *.
  destruct (put_prefix l1) as [l2|]; [|by specialize (E 0)]. cbn [mbind option_bind] in E |- *.
  rewrite <- (cursor_diff l l' t text Hs (to_shows _ _ _ H) S).
  destruct (_ && _); [by rewrite (E 0)|].
  destruct (unsigned_digits _ _ _ _ _) as [[l3 e]|]; [|by specialize (E 0)]. cbn [mbind option_bind] in E |- *.
  by rewrite (E e).
Qed.

Lemma insert_integral_signed_ok (base n : Z) (l : layout) (t : list Z) :
  let info := format_info_ l in
  let text := signed_text info base n in
  In base [10; 16] -> fi_type info <> 101 -> - 2 ^ 63 <= n < 2 ^ 63 ->
  shows l t -> size l <= max_size -> zlen t + base_room info base + slack info <= max_size ->
  zlen text <= base_room info base + slack info ->
  exists l', insert_integral_signed n base l = Some (l', zlen text) /\
    step_to l l' (t ++ text) /\ size l' <= max_size /\
    zlen t + base_room info base + slack info <= size l'.
Proof.
  intros info text Hb He Hn Hs Hm Hx Ht.
  set (sb := if n <? 0 then true else fi_sign info =? 43). set (sc := if n <? 0 then 45 else 43).
  assert (text = (if sb then [sc] else []) ++ prefix_text info ++ base_text info base (Z.abs n)) as Et.
  { unfold text, signed_text, sb, sc. by destruct (n <? 0). }
  rewrite Et in Ht.
  destruct (number_ok sb sc base (Z.abs n) l t Hb He ltac:(lia) Hs Hm Hx Ht) as (l' & E & H & S & R). fold info in E, H.
  rewrite <- Et in H. exists l'. split; [|done]. unfold insert_integral_signed. fold info.
  rewrite (proj2 (Z.ltb_ge 32 base)) by (simpl in Hb; lia).
  assert ((if n <? 0 then put 45 (expand_for_base (type_base info base) l)
           else put_if (fi_sign info =? 43) 43 (expand_for_base (type_base info base) l)) =
          put_if sb sc (expand_for_base (type_base info base) l)) as ->
    by (unfold sb, sc; by destruct (n <? 0)).
  destruct (put_if _ _ _) as [l1|]; [|by specialize (E 0)]. cbn [mbind option_bind] in E |- *.
  destruct (put_prefix l1) as [l2|]; [|by specialize (E 0)]. cbn [mbind option_bind] in E |- *.
  assert ((if n <? 0 then u64 (0 - u64 n) else n) = Z.abs n) as ->.
  { destruct (Z.ltb_spec n 0); [|lia]. rewrite wrap_sub_r. rewrite wrap_small by (unfold in_range; lia). lia. }
  pose proof (type_base_cases info base Hb) as Hc. set (b := type_base info base) in *.
  assert (Z.abs n < b ^ Z.of_nat 65) as Hlt.
  { pose proof (Z.pow_le_mono_l 2 b (Z.of_nat 65) ltac:(simpl in Hc; lia)).
    change (2 ^ Z.of_nat 65) with (4 * 2 ^ 63) in *. lia. }
  destruct (signed_digits_ok 65 n b 0 l2 ltac:(simpl in Hc; lia) Hlt ltac:(done)) as (e' & ->).
  rewrite <- (cursor_diff l l' t text Hs (to_shows _ _ _ H) S).
  destruct (_ && _); [by rewrite (E 0)|].
  destruct (unsigned_digits _ _ _ _ _) as [[l3 e]|]; [|by specialize (E 0)]. cbn [mbind option_bind] in E |- *.
  by rewrite (E e').
Qed.

(** ** Alignment *)

Definition special (c : Z) : bool := (c =? 43) || (c =? 45).
Definition hits (info : FormatInfo) (c : Z) : bool := special c && negb (fi_fill info =? 32).
Definition repl (info : FormatInfo) (c : Z) : Z := if hits info c then fi_fill info else c.

(** The right alignment looks for a prefix between the digits. *)
Definition prefix_mode (info : FormatInfo) : bool :=
  (fi_fill info =? 48) && (fi_prefix info =? 35) && ((fi_type info =? 98) || (fi_type info =? 120)).

Lemma le_val_single (c : Z) : le_val [c] = c.
Proof. rewrite le_val_cons, le_val_nil. lia. Qed.

(** One cell moves over the gap. *)
Lemma move_cell (t a g d : list Z) (c x v : Z) :
  load (t ++ (a ++ [c]) ++ (g ++ [x]) ++ d) (zlen t + zlen a) 1 = Some [c] /\
  store (t ++ (a ++ [c]) ++ (g ++ [x]) ++ d) (zlen t + zlen a + (zlen g + 1)) [v] =
    Some (t ++ a ++ (c :: g) ++ v :: d).
Proof.
  split.
  - apply (load_app_at _ (t ++ a) [c] ((g ++ [x]) ++ d)); [by list_assoc|by rewrite zlen_app|done].
  - rewrite (store_app_at _ (t ++ a ++ c :: g) [x] [v] d); [|by list_assoc|autorewrite with zlen; lia|done].
    f_equal. by list_assoc.
Qed.

Lemma take_shift (k : nat) (a g : list Z) (c x : Z) :
  k = S (length g) -> take k (a ++ c :: g) = take k ((a ++ [c]) ++ g ++ [x]).
Proof.
  intros ->. rewrite <- app_assoc. simpl app.
  replace (a ++ c :: g ++ [x]) with ((a ++ c :: g) ++ [x]) by list_assoc.
  rewrite (take_app_le _ [x]); [done|]. rewrite length_app. simpl. lia.
Qed.

Lemma shift_loop_ok (info : FormatInfo) (t a gap d : list Z) (i dis ignore ignore_index : Z) :
  prefix_mode info = false -> gap <> [] -> zlen (t ++ a ++ gap ++ d) <= max_size -> 1 <= i ->
  dis = zlen a + i - 1 -> fi_width info = dis + zlen gap -> ignore <> 2 ->
  shift_loop (length a) i info (zlen t) dis (t ++ a ++ gap ++ d) ignore ignore_index =
    Some (t ++ take (length gap) (a ++ gap) ++ map (repl info) a ++ d,
          if existsb (hits info) a then 1 else ignore).
Proof.
  intros Hpm. revert gap d i ignore ignore_index.
  induction a as [|c a IH] using rev_ind; intros gap d i ignore ii Hg Hm Hi Hd Hw Hig.
  { simpl. by rewrite take_ge by lia. }
  destruct gap as [|x g _] using rev_ind; [done|].
  rewrite length_app, Nat.add_comm. cbn [length Nat.add shift_loop].
  pose proof (zlen_nonneg t). pose proof (zlen_nonneg a). pose proof (zlen_nonneg g). pose proof (zlen_nonneg d).
  assert (zlen (t ++ (a ++ [c]) ++ (g ++ [x]) ++ d) = zlen t + zlen a + 1 + zlen g + 1 + zlen d) as Hz
    by (autorewrite with zlen; lia).
  autorewrite with zlen in Hd, Hw. unfold max_size in *.
  assert (u32 (zlen t + dis - i) = zlen t + zlen a) as -> by (rewrite wrap_small by (unfold in_range; lia); lia).
  assert (u32 (zlen t + fi_width info - i) = zlen t + zlen a + (zlen g + 1)) as ->
    by (rewrite wrap_small by (unfold in_range; lia); lia).
  destruct (move_cell t a g d c x (repl info c)) as [-> Hst]. cbn [mbind option_bind].
  rewrite le_val_single.
  assert (forall ig jj, ig <> 2 ->
    shift_loop (length a) (i + 1) info (zlen t) dis (t ++ a ++ (c :: g) ++ repl info c :: d) ig jj =
    Some (t ++ take (length (g ++ [x])) ((a ++ [c]) ++ g ++ [x]) ++ map (repl info) (a ++ [c]) ++ d,
          if existsb (hits info) a then 1 else ig)) as IH'.
  { intros ig jj Hj. rewrite IH; [|done| |lia|lia|autorewrite with zlen; lia|done].
    - rewrite map_app, length_app. cbn [length]. rewrite (take_shift _ a g c x) by (simpl; lia).
      by rewrite Nat.add_1_r, <- (app_assoc (map _ a)).
    - autorewrite with zlen. lia. }
  rewrite existsb_app. cbn [existsb]. rewrite orb_false_r.
  change ((c =? 43) || (c =? 45)) with (special c). fold (hits info c). unfold repl in Hst at 1.
  destruct (hits info c) eqn:Eh.
  - rewrite Hst. cbn [mbind option_bind].
    rewrite IH' by done. by destruct (existsb (hits info) a).
  - unfold prefix_mode in Hpm. rewrite Hpm. cbn [andb]. rewrite (proj2 (Z.eqb_neq ignore 2)) by done.
    cbn [andb]. rewrite Hst. cbn [mbind option_bind]. rewrite IH' by done. by rewrite orb_false_r.
Qed.

Lemma center_loop_ok (info : FormatInfo) (t a gap d : list Z) (i dis end_ : Z) :
  gap <> [] -> zlen (t ++ a ++ gap ++ d) <= max_size -> 1 <= i -> 0 <= end_ ->
  dis = zlen a + i - 1 -> fi_width info = dis + zlen gap + end_ ->
  center_loop (length a) i info (zlen t) dis end_ (t ++ a ++ gap ++ d) =
    Some (t ++ take (length gap) (a ++ gap) ++ a ++ d).
Proof.
  revert gap d i. induction a as [|c a IH] using rev_ind; intros gap d i Hg Hm Hi He Hd Hw.
  { simpl. by rewrite take_ge by lia. }
  destruct gap as [|x g _] using rev_ind; [done|].
  rewrite length_app, Nat.add_comm. cbn [length Nat.add center_loop].
  pose proof (zlen_nonneg t). pose proof (zlen_nonneg a). pose proof (zlen_nonneg g). pose proof (zlen_nonneg d).
  autorewrite with zlen in Hd, Hw, Hm. unfold max_size in *.
  assert (u32 (zlen t + dis - i) = zlen t + zlen a) as -> by (rewrite wrap_small by (unfold in_range; lia); lia).
  assert (u32 (zlen t + fi_width info - i - end_) = zlen t + zlen a + (zlen g + 1)) as ->
    by (rewrite wrap_small by (unfold in_range; lia); lia).
  destruct (move_cell t a g d c x c) as [-> Hst]. cbn [mbind option_bind]. rewrite Hst.
  cbn [mbind option_bind].
  rewrite IH; [|done|autorewrite with zlen; unfold max_size; lia|lia|lia|lia|autorewrite with zlen; lia].
  rewrite length_app. cbn [length]. rewrite (take_shift _ a g c x) by (simpl; lia).
  by rewrite Nat.add_1_r, <- (app_assoc a [c] d).
Qed.

Lemma fill_loop_ok (t x d : list Z) (pos i fill : Z) :
  0 <= i -> 0 <= pos -> pos + i = zlen t -> zlen (t ++ x ++ d) <= max_size ->
  fill_loop (length x) pos i fill (t ++ x ++ d) = Some (t ++ replicate (length x) fill ++ d).
Proof.
  unfold max_size. revert t i. induction x as [|c x IH]; intros t i Hi Hp Ht Hm; [done|].
  cbn [length fill_loop]. autorewrite with zlen in Hm. pose proof (zlen_nonneg x). pose proof (zlen_nonneg d).
  pose proof (zlen_nonneg t).
  rewrite wrap_small by (unfold in_range; lia).
  rewrite (store_app_at _ t [c] [fill] (x ++ d)) by (done || lia). cbn [mbind option_bind].
  replace (t ++ [fill] ++ x ++ d) with ((t ++ [fill]) ++ x ++ d) by list_assoc.
  rewrite IH; [by list_assoc|lia|lia|autorewrite with zlen; lia|autorewrite with zlen; lia].
Qed.

(** The text of a field with its padding, and when the right alignment is that. *)
Definition pad_right_align (info : FormatInfo) (k : nat) (text : list Z) : list Z :=
  match text with
  | c :: rest =>
      if hits info c then c :: replicate k (fi_fill info) ++ rest else replicate k (fi_fill info) ++ text
  | [] => replicate k (fi_fill info)
  end.

Definition pad_text (info : FormatInfo) (text : list Z) : list Z :=
  if zlen text <? fi_width info then
    let k := Z.to_nat (fi_width info - zlen text) in
    if fi_align info =? 62 then pad_right_align info k text
    else if fi_align info =? 60 then text ++ replicate k (fi_fill info)
    else if fi_align info =? 94 then
      let end_ := (k / 2)%nat in
      replicate (k - end_) (fi_fill info) ++ text ++ replicate end_ (fi_fill info)
    else text
  else text.

Definition pad_ok (info : FormatInfo) (text : list Z) : bool :=
  negb (zlen text <? fi_width info) || (fi_align info =? 60) || (fi_align info =? 94) ||
  ((fi_align info =? 62) && negb (prefix_mode info) && negb (existsb (hits info) (tail text))).

Lemma zlen_pad_right_align (info : FormatInfo) (k : nat) (text : list Z) :
  zlen (pad_right_align info k text) = zlen text + Z.of_nat k.
Proof.
  unfold pad_right_align. destruct text as [|c rest]; [|destruct (hits info c)]; unfold zlen;
    rewrite ?length_app; cbn [length]; rewrite ?length_app, length_replicate; simpl; lia.
Qed.

Lemma zlen_pad_text (info : FormatInfo) (text : list Z) :
  zlen (pad_text info text) <= Z.max (zlen text) (fi_width info).
Proof.
  unfold pad_text. destruct (Z.ltb_spec (zlen text) (fi_width info)); [|lia].
  set (k := Z.to_nat _). destruct (_ =? 62); [rewrite zlen_pad_right_align; lia|].
  destruct (_ =? 60); [unfold zlen in *; rewrite length_app, length_replicate; lia|].
  destruct (_ =? 94); [|lia].
  assert (k / 2 <= k)%nat by (apply Nat.Div0.div_le_upper_bound; lia).
  unfold zlen in *. rewrite !length_app, !length_replicate. lia.
Qed.

(** The right alignment, as one list: the moves, then the fill characters from the first
    that may be overwritten. *)
Lemma right_align_ok (info : FormatInfo) (t text gap d : list Z) :
  prefix_mode info = false -> existsb (hits info) (tail text) = false -> gap <> [] ->
  zlen (t ++ text ++ gap ++ d) <= max_size -> fi_width info = zlen text + zlen gap ->
  ('(c, ignore) ← shift_loop (Z.to_nat (zlen text)) 1 info (zlen t) (zlen text) (t ++ text ++ gap ++ d) 0 0;
   fill_loop (Z.to_nat (zlen gap - ignore)) (zlen t) ignore (fi_fill info) c) =
  Some (t ++ pad_right_align info (length gap) text ++ d).
Proof.
  intros Hpm Htl Hg Hm Hw. assert (Z.to_nat (zlen text) = length text) as -> by (unfold zlen; lia).
  pose proof (zlen_nonneg t). pose proof (zlen_nonneg text). pose proof (zlen_nonneg gap).
  pose proof (zlen_nonneg d).
  rewrite shift_loop_ok by (done || lia). cbn [mbind option_bind].
  assert (forall rest, existsb (hits info) rest = false -> map (repl info) rest = rest) as Hmap.
  { intros rest. induction rest as [|c rest IH]; [done|]. simpl. intros [Hc Hr]%orb_false_iff.
    unfold repl at 1. by rewrite Hc, IH. }
  assert (forall x d', length x = length gap -> zlen (t ++ x ++ d') <= max_size ->
    fill_loop (Z.to_nat (zlen gap - 0)) (zlen t) 0 (fi_fill info) (t ++ x ++ d') =
    Some (t ++ replicate (length gap) (fi_fill info) ++ d')) as Hfill.
  { intros x d' Hx Hm'. replace (Z.to_nat (zlen gap - 0)) with (length x) by (unfold zlen; lia).
    rewrite <- Hx. apply fill_loop_ok; lia || done. }
  assert (length (take (length gap) (text ++ gap)) = length gap) as Hx.
  { rewrite length_take, length_app. lia. }
  assert (zlen (take (length gap) (text ++ gap)) = zlen gap) as Hzx by (unfold zlen; lia).
  unfold pad_right_align. destruct text as [|c rest].
  { simpl existsb. cbv iota. simpl map. rewrite Hfill; [by list_assoc|done|].
    autorewrite with zlen in *. simpl in Hzx |- *. lia. }
  simpl tail in Htl. cbn [existsb map]. rewrite Htl, orb_false_r, Hmap by done. unfold repl.
  destruct (hits info c) eqn:Eh.
  - destruct gap as [|x gap]; [done|].
    assert (exists x', take (length (x :: gap)) ((c :: rest) ++ x :: gap) = c :: x' /\ length x' = length gap)
      as (x' & -> & Hx').
    { exists (take (length gap) (rest ++ x :: gap)). split; [done|].
      rewrite length_take, length_app. simpl. lia. }
    replace (t ++ (c :: x') ++ (fi_fill info :: rest) ++ d) with ((t ++ [c]) ++ x' ++ (fi_fill info :: rest) ++ d)
      by list_assoc.
    replace (Z.to_nat _) with (length x') by (rewrite zlen_cons; unfold zlen; lia).
    rewrite fill_loop_ok; [|lia|lia|autorewrite with zlen; lia|].
    + rewrite Hx'. f_equal. rewrite <- app_assoc. simpl. rewrite <- app_assoc. f_equal. f_equal.
      replace (fi_fill info :: replicate (length gap) (fi_fill info) ++ rest ++ d)
        with (replicate (S (length gap)) (fi_fill info) ++ rest ++ d) by done.
      rewrite (replicate_S_end (length gap)), <- app_assoc. done.
    + assert (zlen x' = zlen gap) by (unfold zlen; lia). autorewrite with zlen in *. lia.
  - rewrite Hfill; [by list_assoc|done|].
    autorewrite with zlen in *. lia.
Qed.

(** Padding keeps the buffer and either keeps the format or clears it. *)
Record padded_to (l l' : layout) (t : list Z) : Prop := {
  pad_shows : shows l' t;
  pad_info : format_info_ l' = format_info_ l \/ format_info_ l' = info_cleared;
  pad_names : thread_names_cache_ l' = thread_names_cache_ l;
  pad_size : size l' = size l }.

Lemma padded_content (l : layout) (t p d : list Z) (k : Z) :
  size l <= max_size -> zlen (t ++ p ++ d) = size l -> u32 (format_content_cursor_ l + k) = zlen (t ++ p) ->
  padded_to l (set_info info_cleared (set_cursor (u32 (format_content_cursor_ l + k)) (set_content (t ++ p ++ d) l)))
    (t ++ p).
Proof.
  intros Hm Hz Hc. split; simpl; [|by right|done|done]. exists d. simpl. by rewrite Hc, <- app_assoc.
Qed.

Lemma left_align_ok (t text gap d : list Z) (fill : Z) :
  zlen (t ++ text ++ gap ++ d) <= max_size ->
  fill_loop (length gap) (zlen (t ++ text)) 0 fill (t ++ text ++ gap ++ d) =
    Some (t ++ (text ++ replicate (length gap) fill) ++ d).
Proof.
  intros Hm. rewrite app_assoc. pose proof (zlen_nonneg (t ++ text)).
  rewrite fill_loop_ok; [by list_assoc|lia|lia|lia|by rewrite <- app_assoc].
Qed.

Lemma center_align_ok (info : FormatInfo) (t text gap d : list Z) :
  let k := zlen gap in
  gap <> [] -> zlen (t ++ text ++ gap ++ d) <= max_size -> fi_width info = zlen text + k ->
  (c ← center_loop (Z.to_nat (zlen text)) 1 info (zlen t) (zlen text) (k / 2) (t ++ text ++ gap ++ d);
   c ← fill_loop (Z.to_nat (k - k / 2)) (zlen t) 0 (fi_fill info) c;
   fill_loop (Z.to_nat (k / 2)) (u32 (k - k / 2 + zlen t + zlen text)) 0 (fi_fill info) c) =
  Some (t ++ (replicate (length gap - length gap / 2) (fi_fill info) ++ text ++
              replicate (length gap / 2) (fi_fill info)) ++ d).
Proof.
  intros k Hg Hm Hw. assert (k = zlen gap) as Ek by done. clearbody k.
  pose proof (zlen_nonneg t). pose proof (zlen_nonneg text). pose proof (zlen_nonneg d).
  assert (0 < k) as Hk by (rewrite Ek; unfold zlen; destruct gap; [done|simpl; lia]).
  set (e := k / 2) in *. assert (0 <= e /\ 2 * e <= k) as [He0 He2]
    by (unfold e; Z.to_euclidean_division_equations; lia).
  assert ((length gap / 2)%nat = Z.to_nat e) as ->.
  { unfold e. rewrite Ek. unfold zlen. change 2 with (Z.of_nat 2). by rewrite <- Nat2Z.inj_div, Nat2Z.id. }
  destruct (split_block gap (k - e) e) as (g1 & g2 & post & -> & Hg1 & Hg2); [lia..|].
  assert (post = []) as ->.
  { rewrite !zlen_app in Ek. destruct post; [done|]. rewrite zlen_cons in Ek. pose proof (zlen_nonneg post). lia. }
  rewrite app_nil_r in *. rewrite zlen_app in Ek. clearbody e. autorewrite with zlen in Hm. rewrite <- (app_assoc g1 g2 d).
  assert (Z.to_nat (zlen text) = length text) as -> by (unfold zlen; lia).
  unfold max_size in *.
  rewrite center_loop_ok; [|intros ->; unfold zlen in Hg1; simpl in Hg1; lia
    |unfold max_size; autorewrite with zlen; lia|lia|lia|lia|lia].
  cbn [mbind option_bind]. set (x := take (length g1) (text ++ g1)).
  assert (length x = length g1) as Hx by (unfold x; rewrite length_take, length_app; lia).
  assert (zlen x = zlen g1) as Hzx by (unfold zlen; lia).
  assert (Z.to_nat (k - e) = length x) as -> by (unfold zlen in *; lia).
  rewrite fill_loop_ok; [|lia|lia|lia|unfold max_size; autorewrite with zlen; lia]. cbn [mbind option_bind].
  assert (length (g1 ++ g2) - Z.to_nat e = length x)%nat as ->
    by (rewrite length_app; unfold zlen in *; lia).
  set (f := replicate (length x) (fi_fill info)).
  assert (zlen f = zlen x) as Hf by (unfold f, zlen; by rewrite length_replicate). clearbody f x.
  assert (Z.to_nat e = length g2) as -> by (unfold zlen in *; lia).
  rewrite wrap_small by (unfold in_range; lia).
  replace (t ++ f ++ text ++ g2 ++ d) with ((t ++ f ++ text) ++ g2 ++ d) by list_assoc.
  rewrite fill_loop_ok; [by list_assoc|lia|lia|autorewrite with zlen; lia
    |unfold max_size; autorewrite with zlen; lia].
Qed.

Lemma fill_and_alignment_ok (l : layout) (t text : list Z) :
  shows l (t ++ text) -> size l <= max_size -> pad_ok (format_info_ l) text = true ->
  zlen t + Z.max (zlen text) (fi_width (format_info_ l)) <= size l ->
  exists l', fill_and_alignment (zlen t) l = Some l' /\ padded_to l l' (t ++ pad_text (format_info_ l) text).
Proof.
  intros Hs Hm Hok Hr. set (info := format_info_ l) in *. pose proof Hs as (junk & E & Ec).
  unfold fill_and_alignment, pad_text. fold info. unfold pad_ok in Hok. rewrite Ec.
  pose proof (zlen_nonneg t). pose proof (zlen_nonneg text). unfold size, max_size in *.
  assert (u32 (zlen (t ++ text) - zlen t) = zlen text) as ->.
  { rewrite zlen_app in *. apply shows_room in Hs. unfold size in Hs. rewrite zlen_app in Hs.
    rewrite wrap_small by (unfold in_range; lia). lia. }
  destruct (Z.ltb_spec (zlen text) (fi_width info)) as [Hlt|Hge].
  2:{ exists l. split; [done|]. split; [done|by left|done|done]. }
  cbn [negb orb] in Hok. set (k := fi_width info - zlen text) in *. rewrite E in *. autorewrite with zlen in Hm, Hr.
  destruct (split_block junk 0 k) as (pre & gap & d & -> & Hp & Hgap); [lia..|].
  destruct pre; [|by rewrite zlen_cons in Hp; pose proof (zlen_nonneg pre); lia]. cbn [app] in *.
  assert (Z.to_nat k = length gap) as -> by (unfold zlen in Hgap; lia).
  assert (gap <> []) as Hgne by (intros ->; unfold zlen in Hgap; simpl in Hgap; lia).
  pose proof (zlen_nonneg d). autorewrite with zlen in Hm, Hr.
  assert (forall (o : option (list Z)) p, o = Some (t ++ p ++ d) -> zlen p = zlen text + k -> exists l',
     (c ← o; Some (set_info info_cleared (set_cursor (u32 (zlen (t ++ text) + k)) (set_content c l)))) = Some l' /\
     padded_to l l' (t ++ p)) as Hfin.
  { intros o p -> Hpl. cbn [mbind option_bind]. eexists. split; [done|]. rewrite <- Ec. apply padded_content.
    - unfold size, max_size. rewrite E. autorewrite with zlen. lia.
    - unfold size. rewrite E. autorewrite with zlen. lia.
    - rewrite Ec, !zlen_app. rewrite wrap_small by (unfold in_range; lia). lia. }
  assert (zlen (t ++ text ++ gap ++ d) <= max_size) as Hsz by (unfold max_size; autorewrite with zlen; lia).
  rewrite <- (app_assoc t). rewrite <- Hgap in *.
  destruct (Z.eqb_spec (fi_align info) 62) as [E62|E62]; [|destruct (Z.eqb_spec (fi_align info) 60) as [E60|E60];
    [|destruct (Z.eqb_spec (fi_align info) 94) as [E94|E94]]].
  - rewrite E62 in Hok. simpl in Hok. apply andb_true_iff in Hok as [Hm1%negb_true_iff Hm2%negb_true_iff].
    apply Hfin; [apply right_align_ok; done || lia|]. rewrite zlen_pad_right_align. unfold zlen. lia.
  - apply Hfin; [by apply left_align_ok|]. rewrite zlen_app. unfold zlen. rewrite length_replicate. lia.
  - apply Hfin; [apply center_align_ok; done || lia|].
    assert (length gap / 2 <= length gap)%nat by (apply Nat.Div0.div_le_upper_bound; lia).
    unfold zlen in *. rewrite !length_app, !length_replicate. lia.
  - by rewrite !orb_false_r in Hok.
Qed.
