(* ===== verification/LayoutTheorems.v ===== *)
(** * The line of a record

    The text of an argument, of a replacement field and of a format string as functions
    of the format and the arguments, the theorems that the layout writes exactly this text
    where it writes inside its buffer, and the line of a logged record. *)
From stdpp Require Import base list option numbers gmap.
From Stdlib Require Import ZArith Lia Bool SpecFloat.
From S2P Require Import Prelude Memory Floats ArgSerialization BufferDefs LogEntry RecordWriter Utf Layout LayoutProofs.

(** ** The text of an argument *)

(** A number in floating point: the integer part, and the digits behind the point. *)
Definition int_part_text (prec emax : Z) (info : FormatInfo) (value : spec_float) : option (list Z * spec_float) :=
  let rest i := SFsub prec emax value (binary_normalize prec emax i 0 false) in
  if SFleb (S754_zero false) value
  then i ← to_integer 0 (2 ^ 64) value; Some (unsigned_text info 10 i, rest i)
  else i ← to_integer (- 2 ^ 63) (2 ^ 63) value; Some (signed_text info 10 i, rest i).

Fixpoint fraction_text (n : nat) (prec emax : Z) (value : spec_float) : option (list Z) :=
  match n with
  | O => Some []
  | S n =>
      let value := SFmul prec emax value (binary_normalize prec emax 10 0 false) in
      digit ← to_integer (- 2 ^ 31) (2 ^ 31) value;
      text ← fraction_text n prec emax (SFsub prec emax value (binary_normalize prec emax digit 0 false));
      Some (u8 (48 + digit) :: text)
  end.

Definition point_text (prec emax p : Z) (value : spec_float) : option (list Z) :=
  digits ← fraction_text (Z.to_nat p) prec emax (SFabs value);
  Some ((if 0 <? p then [46] else []) ++ digits).

(** The formats of the two overloads: mantissa, largest exponent, digits behind the point. *)
Record float_format := { ff_prec : Z; ff_emax : Z; ff_precision : FormatInfo -> Z -> Z }.
Definition ff_float : float_format := {| ff_prec := 24; ff_emax := 128; ff_precision := float_precision |}.
Definition ff_double : float_format := {| ff_prec := 53; ff_emax := 1024; ff_precision := double_precision |}.

(** The integer part, the number of digits behind the point, and the text from the point on. *)
Definition decimal_parts (f : float_format) (info : FormatInfo) (bits : Z) : option (list Z * Z * list Z) :=
  '(int, value) ← int_part_text (ff_prec f) (ff_emax f) info (float_of_bits (ff_prec f) (ff_emax f) bits);
  let p := ff_precision f info (zlen int) in
  frac ← point_text (ff_prec f) (ff_emax f) p value;
  Some (int, p, frac).

(** The text of an argument, and the room the layout has for it when it is written (without
    the [slack] of the field). *)
Definition argument_text (info : FormatInfo) (t : ArgumentTag) (v : list Z) : option (list Z * Z) :=
  let n := le_val v in
  let units := bytes_units (Z.to_nat (Z.shiftr (zlen v) 1)) v in
  let int_room := base_room info 10 in
  let decimal f :=
    '(int, p, frac) ← decimal_parts f info n;
    if zlen int <=? int_room + slack info
    then Some (int ++ frac, Z.max int_room (zlen int + p + 5)) else None in
  match t with
  | null_type => Some (text_null, 4)
  | pointer_type =>
      Some (if n =? 0 then (text_null, 4) else ([48; 120] ++ unsigned_text info 16 n, 2 + base_room info 16))
  | bool_type => if 1 <? n then None else Some (if n =? 1 then (text_true, 4) else (text_false, 5))
  | char_type => Some ([n], 1)
  | char16_type => Some (utf16_to_utf8_sw [n], 4)
  | char32_type => Some (utf16_to_utf8_sw (char32_units n), if n <=? 0xFFFF then 4 else 7)
  | int8_type => Some (signed_text info 10 (to_signed 8 n), int_room)
  | int16_type => Some (signed_text info 10 (to_signed 16 n), int_room)
  | int32_type => Some (signed_text info 10 (to_signed 32 n), int_room)
  | int64_type => Some (signed_text info 10 (to_signed 64 n), int_room)
  | uint8_type | uint16_type | uint32_type | uint64_type => Some (unsigned_text info 10 n, int_room)
  | float_type => decimal ff_float
  | double_type => decimal ff_double
  | string_utf8_type => Some (v, zlen v)
  | string_utf16_type => Some (utf16_to_utf8_sw units, zlen v * 3 / 2 + 1)
  | _ => None
  end.

(** The text of a field, where it is what the code writes: not in the exponent style, inside
    the room that is made (an empty string makes none), and not in one of the cases that the
    right alignment mistakes for a sign or a prefix. *)
Definition field_text (info : FormatInfo) (t : ArgumentTag) (v : list Z) : option (list Z) :=
  '(text, room) ← argument_text info t v;
  let reserved := if decide (t = string_utf8_type /\ v = []) then 0 else room + slack info in
  if negb (fi_type info =? 101) && negb (fi_type info =? 90) &&
     (Z.max (zlen text) (fi_width info) <=? reserved) && pad_ok info text
  then Some (pad_text info text) else None.

(** ** The format specification *)

Record info_ok (info : FormatInfo) : Prop := {
  ok_width : 0 <= fi_width info <= 99;
  ok_precision : 0 <= fi_precision info <= 99 \/ fi_precision info = uint32_max;
  ok_offset : 0 <= fi_offset info <= 10 }.

Lemma slack_bound (info : FormatInfo) : info_ok info -> slack info <= 200.
Proof.
  intros [Hw Hp Ho]. unfold slack. destruct (_ =? 0); [lia|]. destruct Hp as [Hp| ->].
  - rewrite wrap_small by (unfold in_range; lia). lia.
  - unfold uint32_max. replace (fi_width info + (2 ^ 32 - 1) + 2) with (fi_width info + 1 + 1 * 2 ^ 32) by lia.
    unfold wrap. rewrite Z_mod_plus_full, Z.mod_small by lia. lia.
Qed.

(** With a specification the room exceeds the width. *)
Lemma slack_width (info : FormatInfo) : info_ok info -> fi_offset info <> 0 -> fi_width info + 1 <= slack info.
Proof.
  intros [Hw Hp _] Ho. unfold slack. rewrite (proj2 (Z.eqb_neq _ _) Ho). destruct Hp as [Hp| ->].
  - rewrite wrap_small by (unfold in_range; lia). lia.
  - unfold uint32_max. replace (fi_width info + (2 ^ 32 - 1) + 2) with (fi_width info + 1 + 1 * 2 ^ 32) by lia.
    unfold wrap. rewrite Z_mod_plus_full, Z.mod_small by lia. lia.
Qed.

Record c20_ok (s : c20_state) : Prop := {
  c20_info_ok : info_ok (c20_info s);
  c20_digit0 : 48 <= digit0 s <= 57;
  c20_digit1 : digit1 s = 0 \/ 48 <= digit1 s <= 57;
  c20_used : fi_used (c20_info s) = true }.

Lemma atoi_bounds (d0 d1 : Z) : 48 <= d0 <= 57 -> d1 = 0 \/ 48 <= d1 <= 57 -> 0 <= atoi d0 d1 <= 99.
Proof. intros H0 H1. unfold atoi. destruct (Z.eqb_spec d1 0); lia. Qed.

Lemma c20_char_ok (c : Z) (s : c20_state) : c20_ok s -> c20_ok (c20_char c s).
Proof.
  destruct s as [i rp al fs d0 d1]. intros [Hi H0 H1 Hu]. simpl in *. unfold c20_char.
  assert (forall v i, info_ok i -> info_ok (set_align v i) /\ info_ok (set_fill v i) /\ info_ok (set_sign v i) /\
    info_ok (set_prefix v i)) as Hset by (intros v i' []; split_and!; by split).
  assert (forall v b i, info_ok i -> info_ok (set_type v b i)) as Hty by (intros v b i' []; by split).
  pose proof (atoi_bounds d0 d1 H0 H1).
  repeat match goal with |- context [if ?b then _ else _] => destruct b eqn:? end;
    split; simpl; try done; try lia; try (apply Hset); try (apply Hty); try done;
    try (apply Hset, Hty; done);
    try (destruct Hi; split; simpl; done || lia);
    rewrite ?andb_true_iff, ?Z.leb_le in *; lia.
Qed.

Lemma c20_loop_ok (fuel : nat) (style : list Z) (len index : Z) (s s' : c20_state) :
  0 <= index -> c20_ok s -> c20_loop fuel style len index s = Some s' -> c20_ok s'.
Proof.
  revert index s. induction fuel as [|fuel IH]; intros index s Hx Hs H; [done|]. cbn [c20_loop] in H.
  assert (forall o, 0 <= o <= 10 -> forall w, 0 <= w <= 99 ->
    c20_ok (mk_c20 (set_width w (set_offset o (c20_info s))) (reading_precision s) (align_seen s)
      (fill_seen s) (digit0 s) (digit1 s)) /\
    c20_ok (mk_c20 (set_offset o (c20_info s)) (reading_precision s) (align_seen s)
      (fill_seen s) (digit0 s) (digit1 s))) as Hset.
  { intros o Ho w Hw. destruct Hs as [[] ? ? ?]. split; (split; [by split|done..]). }
  destruct (Z.leb_spec len (index + 1)); [injection H as <-; by apply (Hset 0 ltac:(lia) 0)|].
  destruct (Z.ltb_spec 10 (index + 1)); [injection H as <-; by apply (Hset 0 ltac:(lia) 0)|].
  cbn [orb] in H. destruct (style !! _) as [c|]; [|done]. cbn [mbind option_bind] in H.
  destruct (_ =? 123); [injection H as <-; by apply (Hset 0 ltac:(lia) 0)|].
  destruct (_ =? 125); [injection H as <-; apply (Hset (index + 1) ltac:(lia) 0); lia|].
  eapply IH; [|by apply c20_char_ok|exact H]. lia.
Qed.

Definition c20_start : c20_state :=
  mk_c20 (mk_info true true 32 62 45 32 0 0 uint32_max 32) false false false 48 0.

Lemma c20_start_ok : c20_ok c20_start.
Proof. split; simpl; auto; [|lia]. split; simpl; auto; lia. Qed.

Lemma c20_format_ok (style : list Z) (len : Z) (info : FormatInfo) :
  c20_format style len = Some info -> info_ok info /\ fi_used info = true.
Proof.
  unfold c20_format. destruct (0 <? len); [|done]. cbn [negb].
  destruct (style !! O) as [c|]; [|done]. cbn [mbind option_bind].
  set (start := mk_info true true 32 62 45 32 0 0 uint32_max 32).
  assert (info_ok start) as Hstart by (split; simpl; auto; lia).
  destruct (negb _); [by intros [= <-]|].
  destruct (c20_loop _ _ _ _ _) as [s|] eqn:E; [|done]. cbn [mbind option_bind].
  apply c20_loop_ok in E; [|lia|exact c20_start_ok]. destruct E as [Hi H0 H1 Hu].
  pose proof (atoi_bounds _ _ H0 H1). intros [= <-].
  set (i := if reading_precision s then _ else _).
  assert (info_ok i /\ fi_used i = true) as [Hok Hus].
  { unfold i. destruct Hi. destruct (reading_precision s); split; simpl; try done; split; simpl; auto. }
  clearbody i. destruct (_ =? 32); [|done]. destruct Hok. split; [by split|done].
Qed.

(** ** Writing an argument *)

(** [o] is the state after writing [text] behind [t], with room for [room] characters. *)
Definition writes (l : layout) (o : option layout) (t text : list Z) (room : Z) : Prop :=
  exists l', o = Some l' /\ step_to l l' (t ++ text) /\ size l' <= max_size /\
    zlen t + room + slack (format_info_ l) <= size l'.

Lemma zlen_as (text : list Z) (n : Z) : zlen text = n -> 0 <= n.
Proof. intros <-. apply zlen_nonneg. Qed.

Lemma expand_write (n : Z) (l : layout) (t text : list Z) :
  shows l t -> size l <= max_size -> 0 <= n -> zlen t + n + slack (format_info_ l) <= max_size ->
  zlen text <= n + slack (format_info_ l) -> writes l (write_text text (expand_by n l)) t text n.
Proof. apply expand_write_ok. Qed.

Lemma insert_str_utf8_ok (l : layout) (t text : list Z) :
  shows l t -> size l <= max_size -> text <> [] -> zlen t + zlen text + slack (format_info_ l) <= max_size ->
  writes l (insert_str_utf8 text l) t text (zlen text).
Proof.
  intros Hs Hm Hne Hb. unfold insert_str_utf8. pose proof (slack_nonneg (format_info_ l)).
  rewrite (proj2 (Z.eqb_neq (zlen text) 0)) by (unfold zlen; destruct text; simpl; lia || done).
  destruct (expand_write (zlen text) l t text Hs Hm (zlen_nonneg _) Hb ltac:(lia)) as (l' & -> & H' & S & R).
  cbn [mbind option_bind]. pose proof (shows_room _ _ (to_shows _ _ _ H')) as Hr.
  destruct (to_shows _ _ _ H') as (junk & E & Ec). rewrite Ec. unfold size in Hr.
  rewrite (proj2 (Z.leb_le _ _)) by done. by exists l'.
Qed.

Lemma length_bytes_units (n : nat) (s : list Z) : length (bytes_units n s) = n.
Proof. revert s. induction n as [|n IH]; intros s; [done|]. simpl. by rewrite IH. Qed.

Lemma bytes_units_range (n : nat) (s : list Z) : bytes_ok s -> Forall (in_range 16) (bytes_units n s).
Proof.
  revert s. induction n as [|n IH]; intros s Hs; constructor; [|by apply IH, Forall_drop].
  pose proof (le_val_range (take 2 s) (Forall_take _ _ _ Hs)) as Hr.
  unfold in_range. rewrite length_take in Hr.
  assert (256 ^ Z.of_nat (2 `min` length s) <= 256 ^ 2) by (apply Z.pow_le_mono_r; lia). lia.
Qed.

Lemma utf16_text_room (str : list Z) :
  bytes_ok str ->
  zlen (utf16_to_utf8_sw (bytes_units (Z.to_nat (Z.shiftr (zlen str) 1)) str)) <= zlen str * 3 / 2.
Proof.
  intros Hok. destruct (utf16_to_utf8_encodes _ (bytes_units_range (Z.to_nat (Z.shiftr (zlen str) 1)) str Hok))
    as [_ Hlen].
  rewrite length_bytes_units, Z.shiftr_div_pow2 in Hlen by lia. pose proof (zlen_nonneg str).
  rewrite Z.shiftr_div_pow2 by lia. set (text := utf16_to_utf8_sw _) in *.
  assert (0 <= zlen str / 2 ^ 1) by (apply Z.div_pos; lia).
  assert (zlen text <= 3 * (zlen str / 2 ^ 1)) by (unfold zlen in *; lia).
  change (2 ^ 1) with 2 in *. Z.to_euclidean_division_equations; lia.
Qed.

Lemma insert_str_utf16_ok (l : layout) (t str : list Z) :
  let text := utf16_to_utf8_sw (bytes_units (Z.to_nat (Z.shiftr (zlen str) 1)) str) in
  bytes_ok str -> shows l t -> size l <= max_size ->
  zlen t + zlen str * 3 / 2 + 1 + slack (format_info_ l) <= max_size -> zlen str * 3 < 2 ^ 32 ->
  writes l (insert_str_utf16 str l) t text (zlen str * 3 / 2 + 1).
Proof.
  intros text Hok Hs Hm Hb H3. unfold insert_str_utf16. pose proof (slack_nonneg (format_info_ l)).
  pose proof (zlen_nonneg str). pose proof (zlen_nonneg t). unfold max_size in *.
  assert (0 <= zlen str * 3 / 2) as Hd by (apply Z.div_pos; lia).
  rewrite (wrap_small 32 (zlen str * 3)) by (unfold in_range; lia).
  rewrite wrap_small by (unfold in_range; lia). fold text.
  assert (zlen text <= zlen str * 3 / 2) as Ht by (by apply utf16_text_room).
  destruct (expand_write (zlen str * 3 / 2 + 1) l t text Hs Hm ltac:(lia) ltac:(unfold max_size; lia) ltac:(lia))
    as (l' & -> & H' & S & R).
  cbn [mbind option_bind]. pose proof (shows_room _ _ (to_shows _ _ _ H')) as Hr.
  destruct (to_shows _ _ _ H') as (junk & E & Ec). rewrite Ec. unfold size in Hr.
  rewrite (proj2 (Z.leb_le _ _)) by done. by exists l'.
Qed.

(** The units of a value are read back from its bytes. *)
Lemma unit_bytes_text (units : list Z) :
  Forall (in_range 16) units ->
  bytes_units (Z.to_nat (Z.shiftr (zlen (unit_bytes units)) 1)) (unit_bytes units) = units.
Proof.
  intros H. rewrite zlen_unit_bytes, Z.shiftr_div_pow2, Z.mul_comm, Z.div_mul by lia.
  unfold zlen. rewrite Nat2Z.id. by apply bytes_units_bytes.
Qed.

Lemma char32_units_ok (n : Z) : 0 <= n -> Forall (in_range 16) (char32_units n).
Proof.
  intros H. unfold char32_units. destruct (Z.leb_spec n 0xFFFF); repeat constructor;
    try (apply (wrap_range 16); lia); lia.
Qed.

Lemma insert_units_ok (l : layout) (t units : list Z) (room : Z) :
  Forall (in_range 16) units -> shows l t -> size l <= max_size -> room = zlen units * 3 + 1 ->
  zlen units <= 2 -> zlen t + room + slack (format_info_ l) <= max_size ->
  writes l (insert_str_utf16 (unit_bytes units) l) t (utf16_to_utf8_sw units) room.
Proof.
  intros Hu Hs Hm -> H2 Hb. pose proof (insert_str_utf16_ok l t (unit_bytes units) (unit_bytes_ok units) Hs Hm) as H.
  cbv zeta in H. rewrite unit_bytes_text, zlen_unit_bytes in H by done.
  replace (2 * zlen units * 3 / 2) with (zlen units * 3) in H by (Z.to_euclidean_division_equations; lia).
  apply H; lia.
Qed.

Lemma insert_pointer_ok (l : layout) (t : list Z) (n : Z) :
  let info := format_info_ l in
  let text := if n =? 0 then text_null else [48; 120] ++ unsigned_text info 16 n in
  let room := if n =? 0 then 4 else 2 + base_room info 16 in
  fi_type info <> 101 -> 0 <= n < 2 ^ 64 -> shows l t -> size l <= max_size ->
  zlen t + room + slack info <= max_size -> zlen text <= room + slack info ->
  writes l (insert_pointer n l) t text room.
Proof.
  intros info text room Ht Hn Hs Hm Hb Hr. unfold insert_pointer, text, room in *. clear text room.
  pose proof (slack_nonneg info). destruct (Z.eqb_spec n 0) as [->|Hnz]; cbn [negb].
  { apply expand_write; done || lia. }
  assert (0 <= base_room info 16) as H0 by (unfold base_room; destruct (16 <=? _); [lia|]; by destruct (10 <=? _)).
  destruct (expand_write 2 l t [48; 120] Hs Hm ltac:(lia) ltac:(fold info; lia)) as (l1 & -> & H1 & S1 & R1).
  { change (zlen [48; 120]) with 2. fold info. lia. }
  cbn [mbind option_bind]. rewrite zlen_app in Hr. change (zlen [48; 120]) with 2 in Hr.
  assert (format_info_ l1 = info) as Hi by apply (to_info _ _ _ H1).
  destruct (insert_integral_unsigned_ok 16 n l1 (t ++ [48; 120])) as (l2 & -> & H2 & S2 & R2);
    rewrite ?Hi; try done; try (simpl; tauto); try exact (to_shows _ _ _ H1).
  - rewrite zlen_app. change (zlen [48; 120]) with 2. lia.
  - lia.
  - cbn [mbind option_bind]. exists l2. rewrite Hi, <- app_assoc in H2. rewrite Hi, zlen_app in R2.
    change (zlen [48; 120]) with 2 in R2. split; [done|]. split; [by eapply step_trans|]. fold info. lia.
Qed.

(** ** Floating point *)

Lemma fraction_loop_ok (n : nat) (prec emax : Z) (value : spec_float) (l : layout) (t text : list Z) :
  fraction_text n prec emax value = Some text -> shows l t -> size l <= max_size ->
  zlen t + zlen text <= size l ->
  exists l', fraction_loop n prec emax value l = Some l' /\ step_to l l' (t ++ text) /\ size l' = size l.
Proof.
  revert value l t text. induction n as [|n IH]; intros value l t text H Hs Hm Hr; cbn [fraction_text fraction_loop] in *.
  - injection H as <-. exists l. rewrite app_nil_r. split; [done|]. split; [by apply step_refl|done].
  - destruct (to_integer _ _ _) as [d|]; [|done]. cbn [mbind option_bind] in *.
    destruct (fraction_text n _ _ _) as [text'|] eqn:E; [|done]. cbn [mbind option_bind] in H. injection H as <-.
    rewrite zlen_cons in Hr. pose proof (zlen_nonneg text').
    destruct (put_ok (u8 (48 + d)) l t Hs Hm) as (l1 & -> & H1 & S1); [lia|]. cbn [mbind option_bind].
    destruct (IH _ l1 (t ++ [u8 (48 + d)]) text' E (to_shows _ _ _ H1)) as (l2 & -> & H2 & S2);
      [lia|rewrite zlen_app; change (zlen [u8 (48 + d)]) with 1; lia|].
    exists l2. rewrite <- app_assoc in H2. split; [done|]. split; [by eapply step_trans|lia].
Qed.

Lemma zlen_fraction_text (n : nat) (prec emax : Z) (value : spec_float) (text : list Z) :
  fraction_text n prec emax value = Some text -> zlen text = Z.of_nat n.
Proof.
  revert value text. induction n as [|n IH]; intros value text H; cbn [fraction_text] in H.
  - by injection H as <-.
  - destruct (to_integer _ _ _) as [d|]; [|done]. cbn [mbind option_bind] in H.
    destruct (fraction_text n _ _ _) as [text'|] eqn:E; [|done]. cbn [mbind option_bind] in H. injection H as <-.
    rewrite zlen_cons, (IH _ _ E). lia.
Qed.

Lemma zlen_point_text (prec emax p : Z) (value : spec_float) (text : list Z) :
  point_text prec emax p value = Some text -> zlen text = if 0 <? p then p + 1 else 0.
Proof.
  unfold point_text. destruct (fraction_text _ _ _ _) as [digits|] eqn:E; [|done]. cbn [mbind option_bind].
  intros [= <-]. apply zlen_fraction_text in E. rewrite zlen_app. destruct (Z.ltb_spec 0 p); unfold zlen in *; simpl; lia.
Qed.

(** From the point on; [p] may be negative, and then nothing is written. *)
Lemma insert_fraction_ok (f : float_format) (p begin_cursor int_width : Z) (value : spec_float) (l : layout)
    (t text : list Z) :
  let info := format_info_ l in
  point_text (ff_prec f) (ff_emax f) p value = Some text -> is_exponent info = false ->
  shows l t -> size l <= max_size -> - zlen t - 5 <= p < 2 ^ 20 -> zlen t + p + 5 + slack info <= max_size ->
  exists l', insert_fraction (ff_prec f) (ff_emax f) p begin_cursor int_width (SFabs value) l = Some l' /\
    step_to l l' (t ++ text) /\ size l' <= max_size /\ zlen t + p + 5 + slack info <= size l'.
Proof.
  intros info Htext Hexp Hs Hm Hp Hb. pose proof (zlen_point_text _ _ _ _ _ Htext) as Hz.
  unfold insert_fraction. pose proof (slack_nonneg info). pose proof (zlen_nonneg t). unfold max_size in *.
  assert (u32 (zlen t + u32 (u32 p + 5)) = zlen t + p + 5) as Hu.
  { rewrite wrap_add_r. rewrite Z.add_assoc. rewrite <- wrap_add_l, (wrap_add_r 32 (zlen t) p), wrap_add_l.
    apply wrap_small. unfold in_range. lia. }
  destruct (expand_any_ok _ _ l t Hs Hm Hu Hb) as (H1 & S1 & R1). set (l1 := expand_by _ l) in *.
  fold info in R1. assert (format_info_ l1 = info) as Hi1 by apply (to_info _ _ _ H1).
  cbv zeta. rewrite Hi1, Hexp. cbn [andb]. rewrite orb_false_r.
  unfold point_text in Htext. destruct (fraction_text _ _ _ _) as [digits|] eqn:E; [|done].
  cbn [mbind option_bind] in Htext. injection Htext as <-. clear Hz.
  assert (zlen digits = Z.max 0 p) as Hz by (rewrite (zlen_fraction_text _ _ _ _ _ E); lia).
  destruct (put_if_ok (0 <? p) 46 l1 t (to_shows _ _ _ H1) S1) as (l2 & -> & H2 & S2).
  { pose proof (shows_room _ _ (to_shows _ _ _ H1)). rewrite zlen_app.
    destruct (Z.ltb_spec 0 p); unfold zlen in *; simpl in *; lia. }
  cbn [mbind option_bind].
  destruct (fraction_loop_ok _ _ _ _ l2 _ digits E (to_shows _ _ _ H2)) as (l3 & -> & H3 & S3).
  { unfold max_size in *. lia. }
  { pose proof (shows_room _ _ (to_shows _ _ _ H1)). rewrite zlen_app.
    destruct (Z.ltb_spec 0 p); unfold zlen in *; simpl in *; lia. }
  cbn [mbind option_bind]. rewrite (to_info _ _ _ H3), (to_info _ _ _ H2), Hi1, Hexp.
  exists l3. split; [done|]. rewrite <- app_assoc in H3. split; [|unfold max_size in *; lia].
  eapply step_trans; [|exact H3]. by eapply step_trans.
Qed.

Lemma to_integer_bounds (lo hi : Z) (x : spec_float) (n : Z) : to_integer lo hi x = Some n -> lo <= n < hi.
Proof.
  unfold to_integer. destruct (trunc x) as [m|]; [|done]. cbn [mbind option_bind].
  destruct (Z.leb_spec lo m); [|done]. destruct (Z.ltb_spec m hi); [|done]. by intros [= <-].
Qed.

Lemma insert_int_part_ok (f : float_format) (value rest : spec_float) (l : layout) (t int : list Z) :
  let info := format_info_ l in
  int_part_text (ff_prec f) (ff_emax f) info value = Some (int, rest) -> fi_type info <> 101 ->
  shows l t -> size l <= max_size -> zlen t + base_room info 10 + slack info <= max_size ->
  zlen int <= base_room info 10 + slack info ->
  exists l', insert_int_part (ff_prec f) (ff_emax f) value l = Some (l', zlen int, rest) /\
    step_to l l' (t ++ int) /\ size l' <= max_size /\ zlen t + base_room info 10 + slack info <= size l'.
Proof.
  intros info H He Hs Hm Hb Hr. unfold int_part_text, insert_int_part in *. destruct (SFleb _ _).
  - destruct (to_integer _ _ _) as [i|] eqn:E; [|done]. cbn [mbind option_bind] in *. injection H as <- <-.
    apply to_integer_bounds in E.
    destruct (insert_integral_unsigned_ok 10 i l t ltac:(simpl; tauto) He E Hs Hm Hb Hr) as (l' & -> & H').
    by exists l'.
  - destruct (to_integer _ _ _) as [i|] eqn:E; [|done]. cbn [mbind option_bind] in *. injection H as <- <-.
    apply to_integer_bounds in E.
    destruct (insert_integral_signed_ok 10 i l t ltac:(simpl; tauto) He E Hs Hm Hb Hr) as (l' & -> & H').
    by exists l'.
Qed.

(** The common body of the two overloads. *)
Lemma insert_decimal_ok (f : float_format) (bits begin_cursor p : Z) (l : layout) (t int frac : list Z) :
  let info := format_info_ l in
  let room := Z.max (base_room info 10) (zlen int + p + 5) in
  decimal_parts f info bits = Some (int, p, frac) -> fi_type info <> 101 -> fi_type info <> 90 ->
  zlen int <= base_room info 10 + slack info -> - zlen int - 5 <= p < 2 ^ 20 ->
  shows l t -> size l <= max_size -> zlen t + room + slack info <= max_size ->
  writes l ('(l, int_width, value) ← insert_int_part (ff_prec f) (ff_emax f)
              (float_of_bits (ff_prec f) (ff_emax f) bits) l;
            insert_fraction (ff_prec f) (ff_emax f) (ff_precision f info int_width) begin_cursor
              int_width (SFabs value) l) t (int ++ frac) room.
Proof.
  intros info room H He Hz Hint Hp Hs Hm Hb. unfold decimal_parts in H.
  destruct (int_part_text _ _ _ _) as [[int' rest]|] eqn:Ei; [|done]. cbn [mbind option_bind] in H.
  destruct (point_text _ _ _ _) as [frac'|] eqn:Ef; [|done]. cbn [mbind option_bind] in H. injection H as -> Hpp ->.
  rewrite Hpp in Ef. unfold room in *.
  destruct (insert_int_part_ok f _ rest l t int Ei He Hs Hm) as (l1 & -> & H1 & S1 & R1);
    [fold info; lia|done|].
  cbn [mbind option_bind]. rewrite Hpp. assert (format_info_ l1 = info) as Hi by apply (to_info _ _ _ H1).
  destruct (insert_fraction_ok f p begin_cursor (zlen int) rest l1 (t ++ int) frac Ef) as (l2 & -> & H2 & S2 & R2).
  - rewrite Hi. unfold is_exponent. by apply Z.eqb_neq.
  - exact (to_shows _ _ _ H1).
  - done.
  - rewrite zlen_app. pose proof (zlen_nonneg t). lia.
  - rewrite Hi, zlen_app. lia.
  - exists l2. rewrite <- app_assoc in H2. rewrite Hi, zlen_app in R2. split; [done|].
    split; [by eapply step_trans|]. split; [done|]. pose proof (to_size _ _ _ H2). fold info in R1 |- *. lia.
Qed.

Lemma mark_exponent_plain (l : layout) : fi_type (format_info_ l) <> 101 -> mark_exponent l = l.
Proof. intros H. unfold mark_exponent. by rewrite (proj2 (Z.eqb_neq _ _) H). Qed.

Lemma precision_bounds (info : FormatInfo) (int_width : Z) :
  info_ok info -> 0 <= int_width < 2 ^ 20 ->
  - int_width - 5 <= float_precision info int_width < 2 ^ 20 /\
  - int_width - 5 <= double_precision info int_width < 2 ^ 20.
Proof.
  intros [Hw Hp _] Hi. assert (forall n, 0 <= n < 2 ^ 31 -> i32 n = n) as Hi32
    by (intros n Hn; apply to_signed_id; lia).
  assert (forall d, 0 <= d < 99 ->
    0 <= (if negb (fi_precision info =? uint32_max) then i32 (fi_precision info) else d) <= 99) as Hprec.
  { intros d Hd. destruct (Z.eqb_spec (fi_precision info) uint32_max); simpl; [lia|].
    rewrite Hi32; lia. }
  assert (i32 (u32 (fi_width info - int_width - 1)) = fi_width info - int_width - 1) as Hsub.
  { unfold to_signed, wrap. rewrite Zmod_mod. apply (to_signed_id 32); lia. }
  unfold float_precision, double_precision. rewrite Hsub, (Hi32 (fi_width info)), (Hi32 int_width) by lia.
  pose proof (Hprec 7 ltac:(lia)). pose proof (Hprec 15 ltac:(lia)).
  split; destruct (_ && _); lia.
Qed.

(** ** Reading an argument cell *)

(** At [cursor] there is an argument with the tag [t] and the value [v], in [step] bytes. *)
Inductive argument_at (args : list Z) (cursor : Z) : ArgumentTag -> list Z -> Z -> Prop :=
  | at_fixed t n v :
      load_le args cursor 1 = Some (tag_code t) -> tag_value_size t = Some n ->
      load args (cursor + if n <=? 2 then 2 else 4) n = Some v ->
      argument_at args cursor t v (up4 ((if n <=? 2 then 2 else 4) + n))
  | at_string t v :
      load_le args cursor 1 = Some (tag_code t) -> t = string_utf8_type \/ t = string_utf16_type ->
      load_le args (cursor + 4) 4 = Some (zlen v) -> load args (cursor + 8) (zlen v) = Some v ->
      argument_at args cursor t v (8 + up4 (zlen v)).

Lemma load_le_of_load (args : list Z) (off n : Z) (v : list Z) :
  load args off n = Some v -> load_le args off n = Some (le_val v).
Proof. intros H. unfold load_le. by rewrite H. Qed.

Lemma mask_up4_32 (n : Z) : 0 <= n < 2 ^ 31 -> Z.land (u32 (n + 3)) (uint32_max - 3) = up4 n.
Proof.
  intros H. rewrite wrap_small by (unfold in_range; lia).
  apply (land_not_mask_w 32 (n + 3) 2); [lia|]. unfold in_range. lia.
Qed.

(** What an argument appends, and the cursor behind it. *)
Definition inserts (l : layout) (o : option (layout * Z)) (next : Z) (t text : list Z) (room : Z) : Prop :=
  exists l', o = Some (l', next) /\ step_to l l' (t ++ text) /\ size l' <= max_size /\
    zlen t + room + slack (format_info_ l) <= size l'.

Lemma inserts_writes (l : layout) (o : option layout) (c next : Z) (t text : list Z) (room : Z) :
  writes l o t text room -> c = next -> inserts l (l' ← o; Some (l', c)) next t text room.
Proof. intros (l' & -> & H) ->. by exists l'. Qed.

Lemma inserts_signed (w n c next : Z) (l : layout) (t : list Z) :
  let info := format_info_ l in
  0 < w <= 64 -> c = next -> fi_type info <> 101 -> shows l t -> size l <= max_size ->
  zlen t + base_room info 10 + slack info <= max_size ->
  zlen (signed_text info 10 (to_signed w n)) <= base_room info 10 + slack info ->
  inserts l ('(l', _) ← insert_integral_signed (to_signed w n) 10 l; Some (l', c)) next t
    (signed_text info 10 (to_signed w n)) (base_room info 10).
Proof.
  intros info Hw -> He Hs Hm Hb Hr. pose proof (to_signed_range w n ltac:(lia)).
  pose proof (Z.pow_le_mono_r 2 (w - 1) 63 ltac:(lia) ltac:(lia)).
  destruct (insert_integral_signed_ok 10 (to_signed w n) l t ltac:(simpl; tauto) He ltac:(lia) Hs Hm Hb Hr)
    as (l' & -> & H'). by exists l'.
Qed.

Lemma inserts_unsigned (n c next : Z) (l : layout) (t : list Z) :
  let info := format_info_ l in
  0 <= n < 2 ^ 64 -> c = next -> fi_type info <> 101 -> shows l t -> size l <= max_size ->
  zlen t + base_room info 10 + slack info <= max_size ->
  zlen (unsigned_text info 10 n) <= base_room info 10 + slack info ->
  inserts l ('(l', _) ← insert_integral_unsigned n 10 l; Some (l', c)) next t
    (unsigned_text info 10 n) (base_room info 10).
Proof.
  intros info Hn -> He Hs Hm Hb Hr.
  destruct (insert_integral_unsigned_ok 10 n l t ltac:(simpl; tauto) He Hn Hs Hm Hb Hr) as (l' & -> & H').
  by exists l'.
Qed.

Lemma decimal_writes (f : float_format) (o : option layout) (n : Z) (l : layout) (t text : list Z) (room : Z) :
  let info := format_info_ l in
  o = ('(l', int_width, value) ← insert_int_part (ff_prec f) (ff_emax f)
         (float_of_bits (ff_prec f) (ff_emax f) n) l;
       insert_fraction (ff_prec f) (ff_emax f) (ff_precision f info int_width) (format_content_cursor_ l)
         int_width (SFabs value) l') ->
  (forall int : list Z, 0 <= zlen int < 2 ^ 20 -> - zlen int - 5 <= ff_precision f info (zlen int) < 2 ^ 20) ->
  ('(int, p, frac) ← decimal_parts f info n;
    if zlen int <=? base_room info 10 + slack info
    then Some (int ++ frac, Z.max (base_room info 10) (zlen int + p + 5)) else None) = Some (text, room) ->
  info_ok info -> fi_type info <> 101 -> fi_type info <> 90 -> shows l t -> size l <= max_size ->
  zlen t + room + slack info <= max_size -> writes l o t text room.
Proof.
  intros info -> Hp H Hok He Hz Hs Hm Hb.
  destruct (decimal_parts f info n) as [[[int p] frac]|] eqn:E; [|done]. cbn [mbind option_bind] in H.
  destruct (Z.leb_spec (zlen int) (base_room info 10 + slack info)) as [Hle|]; [|done]. injection H as <- <-.
  pose proof (slack_bound info Hok). pose proof (zlen_nonneg int).
  assert (base_room info 10 <= 64) as H64.
  { unfold base_room. destruct (16 <=? _); [lia|]. by destruct (10 <=? _). }
  assert (p = ff_precision f info (zlen int)) as Ep.
  { unfold decimal_parts in E. destruct (int_part_text _ _ _ _) as [[i r]|]; [|done]. cbn [mbind option_bind] in E.
    destruct (point_text _ _ _ _) as [fr|]; [|done]. cbn [mbind option_bind] in E. by injection E as <- <- <-. }
  apply (insert_decimal_ok f n _ p l t int frac E He Hz Hle); [|done..].
  rewrite Ep. apply Hp. lia.
Qed.

(** The argument at the cursor, for every tag that has a text. *)
Lemma insert_argument_ok (args : list Z) (cursor step room : Z) (tag : ArgumentTag) (v text : list Z)
    (l : layout) (t : list Z) :
  let info := format_info_ l in
  argument_at args cursor tag v step -> bytes_ok args -> 0 <= cursor -> zlen args < 2 ^ 30 ->
  argument_text info tag v = Some (text, room) -> zlen text <= room + slack info ->
  info_ok info -> fi_type info <> 101 -> fi_type info <> 90 -> tag <> string_utf8_type \/ v <> [] ->
  shows l t -> size l <= max_size -> zlen t + room + slack info <= max_size ->
  inserts l (insert_argument args cursor l) (cursor + step) t text room.
Proof.
  intros info Hat Hok Hc Hargs Htext Hfit Hinfo He Hz Hne Hs Hm Hb.
  unfold insert_argument, argument_text in *. pose proof (precision_bounds info) as Hprec.
  destruct Hat as [tag n v Htag Hn Hv|tag v Htag Hstr Hlen Hv].
  - pose proof (load_bytes_ok _ _ _ _ Hv Hok) as Hvok. pose proof (le_val_range v Hvok) as Hr.
    apply load_inv in Hv as Hv'. destruct Hv' as (_ & _ & Hroom & _ & Hvn).
    rewrite Htag. cbn [mbind option_bind]. rewrite tag_of_tag_code.
    destruct tag; try done; injection Hn as <-;
      cbn [Z.leb Z.compare Pos.compare Pos.compare_cont] in *;
      try (rewrite (load_le_of_load _ _ _ _ Hv)); cbn [mbind option_bind];
      unfold zlen in Hvn; try (rewrite Hvn in Hr);
      assert (u32 (cursor + 4) = cursor + 4 /\ u32 (cursor + 8) = cursor + 8 /\ u32 (cursor + 12) = cursor + 12)
        as (Hc4 & Hc8 & Hc12) by (rewrite !wrap_small by (unfold in_range; lia); done);
      change (up4 (2 + 0)) with 4; change (up4 (2 + 1)) with 4; change (up4 (2 + 2)) with 4;
      change (up4 (4 + 4)) with 8; change (up4 (4 + 8)) with 12.
    all: try (injection Htext as <- <-).
    all: try (apply inserts_signed; done || lia). all: try (apply inserts_unsigned; done || lia).
    all: try (apply inserts_writes; [|done]).
    + by apply insert_str_utf8_ok.
    + destruct (le_val v =? 0) eqn:E0; injection Htext as <- <-;
        pose proof (insert_pointer_ok l t (le_val v)) as Hp; rewrite E0 in Hp; apply Hp; done || lia.
    + destruct (Z.ltb_spec 1 (le_val v)); [done|]. unfold insert_bool.
      destruct (le_val v =? 1); injection Htext as <- <-; apply inserts_writes; try done;
        apply insert_str_utf8_ok; done.
    + apply expand_write; done || lia.
    + apply (insert_units_ok l t [le_val v] 4); try done. constructor; [|done]. unfold in_range. lia.
    + pose proof (char32_units_ok (le_val v) ltac:(lia)) as Hu. apply insert_units_ok; try done;
        unfold char32_units in *; destruct (_ <=? _); done.
    + unfold insert_decimal_float. rewrite mark_exponent_plain by done.
      apply (decimal_writes ff_float _ (le_val v)); try done. intros int Hi. by apply Hprec.
    + unfold insert_decimal_double. rewrite mark_exponent_plain by done.
      apply (decimal_writes ff_double _ (le_val v)); try done. intros int Hi. by apply Hprec.
  - pose proof (load_bytes_ok _ _ _ _ Hv Hok) as Hvok.
    apply load_inv in Hv as Hv'. destruct Hv' as (_ & Hvn & Hroom & _).
    rewrite Htag. cbn [mbind option_bind]. rewrite tag_of_tag_code.
    assert (u32 (cursor + (8 + Z.land (u32 (zlen v + 3)) (uint32_max - 3))) = cursor + (8 + up4 (zlen v))) as Hcur.
    { rewrite mask_up4_32 by lia. pose proof (up4_bounds (zlen v)). apply wrap_small. unfold in_range. lia. }
    destruct Hstr as [-> | ->]; rewrite Hlen; cbn [mbind option_bind]; rewrite Hv; cbn [mbind option_bind];
      injection Htext as <- <-; apply inserts_writes; try done.
    + apply insert_str_utf8_ok; try done. by destruct Hne.
    + apply insert_str_utf16_ok; try done; fold info; lia.
Qed.

(** ** A replacement field *)

Lemma argument_room (info : FormatInfo) (tag : ArgumentTag) (v text : list Z) (room : Z) :
  info_ok info -> argument_text info tag v = Some (text, room) -> room <= 2 * zlen v + 2 ^ 21.
Proof.
  intros Hok. pose proof (slack_bound info Hok). pose proof (zlen_nonneg v).
  assert (forall b, base_room info b <= 64) as Hroom.
  { intros b. unfold base_room. destruct (16 <=? _); [lia|]. by destruct (10 <=? _). }
  pose proof (Hroom 10). pose proof (Hroom 16). unfold argument_text.
  assert (forall f, (forall int : list Z, 0 <= zlen int < 2 ^ 20 -> ff_precision f info (zlen int) < 2 ^ 20) ->
    ('(int, p, frac) ← decimal_parts f info (le_val v);
     if zlen int <=? base_room info 10 + slack info
     then Some (int ++ frac, Z.max (base_room info 10) (zlen int + p + 5)) else None) = Some (text, room) ->
    room <= 2 * zlen v + 2 ^ 21) as Hdec.
  { intros f Hf H'. unfold decimal_parts in H'.
    destruct (int_part_text _ _ _ _) as [[int r]|]; [|done]. cbn [mbind option_bind] in H'.
    destruct (point_text _ _ _ _) as [fr|]; [|done]. cbn [mbind option_bind] in H'.
    destruct (Z.leb_spec (zlen int) (base_room info 10 + slack info)); [|done]. injection H' as _ <-.
    pose proof (zlen_nonneg int). pose proof (Hf int ltac:(lia)). lia. }
  destruct tag; intros H'; try done; try (injection H' as _ <-; lia).
  - destruct (_ =? 0); injection H' as _ <-; lia.
  - destruct (1 <? _); [done|]. destruct (_ =? 1); injection H' as _ <-; lia.
  - injection H' as _ <-. destruct (_ <=? 65535); lia.
  - apply (Hdec ff_float); [|done]. intros int Hi. by apply precision_bounds.
  - apply (Hdec ff_double); [|done]. intros int Hi. by apply precision_bounds.
  - injection H' as _ <-. Z.to_euclidean_division_equations; lia.
Qed.

(** What a turn of the format loop leaves: [t] is shown, with room for [left] characters. *)
Record turn_ok (l l' : layout) (t : list Z) (left : Z) : Prop := {
  turn_shows : shows l' t;
  turn_names : thread_names_cache_ l' = thread_names_cache_ l;
  turn_size : size l' <= max_size;
  turn_room : zlen t + left <= size l';
  turn_slack : slack (format_info_ l') <= 200 }.

Lemma step_turn (l l' : layout) (t : list Z) :
  step_to l l' t -> size l' <= max_size -> slack (format_info_ l) <= 200 -> turn_ok l l' t 0.
Proof.
  intros [Hs Hi Hn _] Hm Hsl. split; try done; [|by rewrite Hi]. pose proof (shows_room _ _ Hs). lia.
Qed.

Lemma argument_step (args : list Z) (cursor step : Z) (tag : ArgumentTag) (v : list Z) :
  argument_at args cursor tag v step -> 4 <= step /\ zlen v <= zlen args /\ cursor < zlen args.
Proof.
  intros [tag' n v' Ht Hn Hv|tag' v' Ht Hs Hl Hv].
  - pose proof (up4_bounds ((if n <=? 2 then 2 else 4) + n)) as [Hu Hm].
    apply load_inv in Hv as (H0 & H1 & H2 & _ & H3).
    unfold load_le in Ht. apply fmap_Some in Ht as (b & Hb & _). apply load_inv in Hb as (H4 & _ & H5 & _).
    split; [|lia]. destruct tag'; try done; injection Hn as <-; by vm_compute.
  - pose proof (up4_bounds (zlen v')). apply load_inv in Hv as (H0 & H1 & H2 & _).
    unfold load_le in Ht. apply fmap_Some in Ht as (b & Hb & _). apply load_inv in Hb as (H4 & _ & H5 & _). lia.
Qed.

Lemma insert_field_ok (rest : Z) (args : list Z) (cursor step : Z) (tag : ArgumentTag) (v text : list Z)
    (l : layout) (t : list Z) :
  let info := format_info_ l in
  argument_at args cursor tag v step -> bytes_ok args -> 0 <= cursor -> cursor + step <= zlen args ->
  zlen args < 2 ^ 30 -> field_text info tag v = Some text -> info_ok info -> shows l t -> size l <= max_size ->
  0 <= rest -> zlen t + zlen text + 2 * zlen args + rest + 2 ^ 22 <= max_size ->
  exists l', insert_field rest args cursor l = Some (l', cursor + step) /\ turn_ok l l' (t ++ text) rest.
Proof.
  intros info Hat Hok Hc Hcs Hargs Htext Hinfo Hs Hm Hr0 Hb. unfold field_text in Htext.
  destruct (argument_text info tag v) as [[raw room]|] eqn:Earg; [|done]. cbn [mbind option_bind] in Htext.
  destruct (_ && _) eqn:Econd; [|done]. injection Htext as <-.
  rewrite !andb_true_iff, !negb_true_iff, !Z.eqb_neq, Z.leb_le in Econd. destruct Econd as [[[He Hz] Hres] Hpad].
  pose proof (argument_room _ _ _ _ _ Hinfo Earg) as Hroom. pose proof (argument_step _ _ _ _ _ Hat) as (Hst & Hva & _).
  pose proof (slack_bound info Hinfo) as Hsb. pose proof (slack_nonneg info) as Hsn.
  pose proof (zlen_nonneg (pad_text info raw)) as Hpn.
  assert (exists l1, insert_argument args cursor l = Some (l1, cursor + step) /\ step_to l l1 (t ++ raw) /\
    size l1 <= max_size /\ zlen t + Z.max (zlen raw) (fi_width info) <= size l1) as (l1 & E1 & H1 & S1 & R1).
  { case_decide as Hempty.
    - destruct Hempty as [-> ->]. injection Earg as <- _. unfold insert_argument.
      inversion Hat as [? n ? Ht Hn|? ? Ht _ Hlen Hld]; subst; [done|].
      rewrite Ht. cbn [mbind option_bind]. change (tag_of_code (tag_code string_utf8_type)) with (Some string_utf8_type).
      cbv iota. rewrite Hlen. cbn [mbind option_bind]. rewrite Hld. cbn [mbind option_bind].
      change (insert_str_utf8 [] l) with (Some l). cbn [mbind option_bind].
      rewrite mask_up4_32 by (unfold zlen; simpl; lia). pose proof (zlen_nonneg args).
      exists l. rewrite app_nil_r. rewrite wrap_small by (unfold in_range; change (up4 (zlen (@nil Z))) with 0 in *; lia).
      split; [done|]. split; [by apply step_refl|]. split; [done|]. pose proof (shows_room _ _ Hs). lia.
    - destruct (insert_argument_ok args cursor step room tag v raw l t Hat Hok Hc Hargs Earg ltac:(fold info; lia)
        Hinfo He Hz) as (l1 & E & H1 & S1 & R1); [|done|done|fold info; lia|].
      + destruct (decide (tag = string_utf8_type)) as [->|]; [right; tauto|by left].
      + exists l1. split; [done|]. split; [done|]. split; [done|]. fold info in R1. lia. }
  unfold insert_field. rewrite E1. pose proof Hs as (junk & _ & ->).
  cbn [mbind option_bind]. rewrite (proj2 (Z.ltb_ge _ _)) by lia.
  assert (format_info_ l1 = info) as Hi1 by apply (to_info _ _ _ H1).
  destruct (fill_and_alignment_ok l1 t raw (to_shows _ _ _ H1) S1) as (l2 & -> & H2); [by rewrite Hi1|by rewrite Hi1|].
  cbn [mbind option_bind]. rewrite Hi1 in H2. destruct H2 as [H2 I2 N2 S2].
  assert (slack (format_info_ l2) <= 200) as Hsl.
  { destruct I2 as [-> | ->]; [by rewrite Hi1|]. by vm_compute. }
  destruct (expand_by_ok rest l2 _ H2 ltac:(lia) Hr0) as (H3 & S3 & R3).
  { rewrite zlen_app. unfold max_size in *. lia. }
  eexists. split; [done|]. split.
  - exact (to_shows _ _ _ H3).
  - rewrite (to_names _ _ _ H3), N2. apply (to_names _ _ _ H1).
  - done.
  - pose proof (slack_nonneg (format_info_ l2)). lia.
  - by rewrite (to_info _ _ _ H3).
Qed.

(** ** The format string *)

(** The text of a format string from a position on, [skip] characters of which belong to a
    field: doubled and single closing braces give one, an opening brace takes the next
    argument when its specification is closed within twenty characters, and is literal
    otherwise. *)
Fixpoint render (skip : nat) (fmt : list Z) (vals : list (ArgumentTag * list Z)) : option (list Z) :=
  match fmt with
  | [] => Some []
  | c :: r =>
      match skip with
      | S skip => render skip r vals
      | O =>
          if c =? 125 then
            text ← render (if bool_decide (r !! O = Some 125) then 1 else 0) r vals; Some (125 :: text)
          else if c =? 123 then
            match vals with
            | [] => text ← render 0 r []; Some (123 :: text)
            | (tag, v) :: vals' =>
                let '(len, closed) := scan_spec 20 r in
                if (closed : bool) then
                  info ← c20_format r (len + 1);
                  field ← field_text info tag v;
                  text ← render (Z.to_nat (len + 1)) r vals';
                  Some (field ++ text)
                else text ← render 0 r vals; Some (123 :: text)
            end
          else text ← render 0 r vals; Some (c :: text)
      end
  end.

(** Without arguments the format string is copied as it is. *)
Definition format_text (fmt : list Z) (vals : list (ArgumentTag * list Z)) : option (list Z) :=
  match vals with [] => Some fmt | _ => render 0 fmt vals end.

(** The cells of the arguments fill the argument area from [cursor] on. *)
Inductive values_at (args : list Z) : Z -> list (ArgumentTag * list Z) -> Prop :=
  | values_end : values_at args (zlen args) []
  | values_cons cursor tag v step vals :
      argument_at args cursor tag v step -> values_at args (cursor + step) vals ->
      values_at args cursor ((tag, v) :: vals).

Lemma values_le (args : list Z) (cursor : Z) (vals : list (ArgumentTag * list Z)) :
  values_at args cursor vals -> cursor <= zlen args.
Proof.
  induction 1 as [|cursor tag v step vals Ha _ IH]; [done|]. apply argument_step in Ha. lia.
Qed.

Lemma scan_spec_inv (n : nat) (s : list Z) (len : Z) :
  scan_spec n s = (len, true) ->
  0 <= len /\ s !! Z.to_nat len = Some 125 /\ (forall i, 0 <= i < len -> s !! Z.to_nat i <> Some 125).
Proof.
  revert s len. induction n as [|n IH]; intros [|c s] len H; try done. cbn [scan_spec] in H.
  destruct (Z.eqb_spec c 125) as [->|Hne]; [injection H as <-; repeat split; try done; lia|].
  destruct (c =? 123); [done|]. destruct (scan_spec n s) as [len' closed] eqn:E. injection H as <- ->.
  destruct (IH s len' E) as (H0 & H1 & H2). split; [lia|].
  replace (Z.to_nat (1 + len')) with (S (Z.to_nat len')) by lia. split; [done|].
  intros i Hi. destruct (decide (i = 0)) as [->|Hi0]; [simpl; congruence|].
  replace (Z.to_nat i) with (S (Z.to_nat (i - 1))) by lia. apply H2. lia.
Qed.

Lemma c20_char_offset (c : Z) (s : c20_state) : fi_offset (c20_info (c20_char c s)) = fi_offset (c20_info s).
Proof.
  destruct s as [i rp al fs d0 d1]. unfold c20_char.
  repeat match goal with |- context [if ?b then _ else _] => destruct b end; done.
Qed.

Lemma c20_loop_offset (fuel : nat) (style : list Z) (len index : Z) (s s' : c20_state) :
  Forall is_byte style -> fi_offset (c20_info s) = 0 -> 0 <= index ->
  c20_loop fuel style len index s = Some s' ->
  fi_offset (c20_info s') = 0 \/
  fi_offset (c20_info s') < len /\ style !! Z.to_nat (fi_offset (c20_info s')) = Some 125.
Proof.
  intros Hok. revert index s. induction fuel as [|fuel IH]; intros index s H0 Hi H; [done|]. cbn [c20_loop] in H.
  destruct (Z.leb_spec len (index + 1)); [injection H as <-; by left|]. cbn [orb] in H.
  destruct (10 <? index + 1); [injection H as <-; by left|].
  destruct (style !! Z.to_nat (index + 1)) as [c|] eqn:Ec; [|done]. cbn [mbind option_bind] in H.
  assert (u8 c = c) as Hc by (apply wrap_small; by eapply (Forall_lookup_1 _ _ _ _ Hok)).
  rewrite Hc in H. destruct (c =? 123); [injection H as <-; by left|].
  destruct (Z.eqb_spec c 125) as [->|]; [injection H as <-; right; simpl; done|].
  eapply IH; [by rewrite c20_char_offset| |exact H]. lia.
Qed.

(** Both ways to move over the specification agree. *)
Lemma spec_skip_len (fmt : list Z) (len : Z) (info : FormatInfo) :
  Forall is_byte fmt -> scan_spec 20 fmt = (len, true) -> c20_format fmt (len + 1) = Some info ->
  spec_skip info len = len + 1.
Proof.
  intros Hok Hscan H. apply scan_spec_inv in Hscan as (H0 & H1 & H2). unfold spec_skip.
  assert (fi_offset info = 0 \/ fi_offset info = len) as Hoff.
  2:{ destruct (Z.eqb_spec (fi_offset info) 0); simpl; lia. }
  unfold c20_format in H. destruct (0 <? len + 1); [|done]. cbn [negb] in H.
  destruct (fmt !! O) as [c|]; [|done]. cbn [mbind option_bind] in H.
  destruct (negb _); [injection H as <-; by left|].
  destruct (c20_loop _ _ _ _ _) as [s|] eqn:E; [|done]. cbn [mbind option_bind] in H. injection H as <-.
  apply c20_loop_offset in E as Hs; [|done|done|lia].
  assert (0 <= fi_offset (c20_info s)) as Hpos.
  { apply c20_loop_ok in E; [|lia|exact c20_start_ok]. apply (ok_offset _ (c20_info_ok _ E)). }
  assert (fi_offset (c20_info s) = 0 \/ fi_offset (c20_info s) = len) as Hsl.
  { destruct Hs as [|[Hlt Hbrace]]; [by left|right].
    destruct (Z.lt_trichotomy (fi_offset (c20_info s)) len) as [Hl|[|]]; [|done|lia].
    by apply H2 in Hbrace. }
  destruct (reading_precision s); simpl; destruct (_ =? 32); done.
Qed.

Lemma find_brace_inv (s run : list Z) (found : bool) :
  find_brace s = (run, found) ->
  exists rest, s = run ++ rest /\ (forall vals, render 0 s vals = (text ← render 0 rest vals; Some (run ++ text))) /\
    if found then exists c r, rest = c :: r /\ (c = 123 \/ c = 125) else rest = [].
Proof.
  revert run. induction s as [|c s IH]; intros run H; cbn [find_brace] in H.
  - injection H as <- <-. by exists [].
  - destruct ((c =? 123) || (c =? 125)) eqn:Ec.
    + injection H as <- <-. exists (c :: s). split; [done|]. split.
      * intros vals. by destruct (render 0 (c :: s) vals).
      * exists c, s. split; [done|]. lia.
    + destruct (find_brace s) as [run' found'] eqn:E. injection H as <- <-.
      destruct (IH run' eq_refl) as (rest & -> & Hr & Hf). exists rest. split; [done|]. split; [|done].
      intros vals. cbn [render app]. apply orb_false_iff in Ec as [-> ->]. rewrite Hr.
      by destruct (render 0 rest vals).
Qed.

Lemma render_skip (n : nat) (s : list Z) (vals : list (ArgumentTag * list Z)) :
  render n s vals = render 0 (drop n s) vals.
Proof. revert s. induction n as [|n IH]; intros [|c s]; try done. apply IH. Qed.

(** A brace that stays in the text. *)
Lemma put_brace_ok (b : Z) (r t : list Z) (l : layout) :
  shows l t -> size l <= max_size -> zlen t + zlen (b :: r) <= size l -> slack (format_info_ l) <= 200 ->
  zlen t + 2 ^ 22 <= max_size ->
  exists l', put b (expand_by 1 l) = Some l' /\ turn_ok l l' (t ++ [b]) (zlen r).
Proof.
  intros Hs Hm Hr Hsl Hb. pose proof (slack_nonneg (format_info_ l)). pose proof (zlen_nonneg r).
  destruct (expand_write_ok 1 l t [b]) as (l' & E & H' & S' & R'); [done..|lia|rewrite zlen_singleton; lia|].
  exists l'. split; [done|]. split.
  - exact (to_shows _ _ _ H').
  - exact (to_names _ _ _ H').
  - done.
  - pose proof (to_size _ _ _ H'). rewrite zlen_cons in Hr. rewrite zlen_app, zlen_singleton. lia.
  - by rewrite (to_info _ _ _ H').
Qed.

Lemma set_info_shows (i : FormatInfo) (l : layout) (t : list Z) : shows l t -> shows (set_info i l) t.
Proof. intros (junk & E & Ec). by exists junk. Qed.

(** A turn at a brace: [text1] of the text is shown, and [render] says the rest of it from
    the new position of the format string and the new argument. *)
Definition brace_turn (fmt args : list Z) (n : nat) (l : layout) (t text : list Z)
    (o : option (layout * Z * Z)) : Prop :=
  exists l' pre s acur vals text1 text2,
    o = Some (l', zlen pre, acur) /\ fmt = pre ++ s /\ (length s <= n)%nat /\ 0 <= acur /\
    values_at args acur vals /\ render 0 s vals = Some text2 /\ text = text1 ++ text2 /\
    turn_ok l l' (t ++ text1) (zlen s).

Lemma turn_weaken (l l' : layout) (t : list Z) (a b : Z) : turn_ok l l' t a -> b <= a -> turn_ok l l' t b.
Proof. intros [] H. split; try done. lia. Qed.

Section Brace.
Context (pre r args t : list Z) (acur : Z) (vals : list (ArgumentTag * list Z)) (l : layout).
Context (Hargs : bytes_ok args) (Hsize : zlen args < 2 ^ 30) (Hacur : 0 <= acur) (Hvals : values_at args acur vals).
Context (Hs : shows l t) (Hm : size l <= max_size) (Hslack : slack (format_info_ l) <= 200).

Lemma brace_index (c : Z) : Z.to_nat (zlen pre + 1) = length (pre ++ [c]).
Proof. rewrite length_app. unfold zlen. simpl. lia. Qed.

Lemma brace_next (c : Z) : (pre ++ c :: r) !! Z.to_nat (zlen pre + 1) = r !! O.
Proof.
  rewrite (brace_index c). replace (pre ++ c :: r) with ((pre ++ [c]) ++ r) by list_assoc.
  by rewrite lookup_app_r, Nat.sub_diag by lia.
Qed.

Lemma brace_drop (c : Z) : drop (Z.to_nat (zlen pre + 1)) (pre ++ c :: r) = r.
Proof.
  rewrite (brace_index c). replace (pre ++ c :: r) with ((pre ++ [c]) ++ r) by list_assoc.
  by rewrite drop_app_length.
Qed.

Lemma literal_brace_ok (b : Z) (text2 : list Z) (l0 : layout) :
  shows l0 t -> thread_names_cache_ l0 = thread_names_cache_ l -> size l0 = size l ->
  slack (format_info_ l0) <= 200 -> zlen t + zlen (b :: r) <= size l -> zlen t + 2 ^ 22 <= max_size ->
  render 0 r vals = Some text2 ->
  brace_turn (pre ++ b :: r) args (length r) l t (b :: text2)
    (l ← put b (expand_by 1 l0); Some (l, zlen pre + 1, acur)).
Proof.
  intros Hs0 Hn0 Hz0 Hsl0 Hroom Hb Hr.
  destruct (put_brace_ok b r t l0) as (l' & -> & [? Hn ? ? ?]); [done|lia|lia|done|done|].
  exists l', (pre ++ [b]), r, acur, vals, [b], text2. cbn [mbind option_bind].
  rewrite zlen_app, zlen_singleton. split_and!; try done; [by list_assoc|]. split; try done. congruence.
Qed.

Lemma closing_brace_ok (text : list Z) :
  render 0 (125 :: r) vals = Some text -> zlen t + zlen (125 :: r) <= size l -> zlen t + 2 ^ 22 <= max_size ->
  brace_turn (pre ++ 125 :: r) args (length r) l t text
    (brace_utf8 (pre ++ 125 :: r) args 125 (zlen pre + 1) acur l).
Proof.
  intros Htext Hroom Hb. cbn [render] in Htext. change (125 =? 125) with true in Htext. cbv iota in Htext.
  unfold brace_utf8. rewrite brace_next. change (125 =? 125) with true. cbn [andb].
  rewrite zlen_app, zlen_cons. destruct (decide (r !! O = Some 125)) as [Hr|Hr].
  - rewrite bool_decide_true in Htext |- * by done. destruct r as [|x r']; [done|]. injection Hr as ->.
    rewrite ?zlen_cons in *. pose proof (zlen_nonneg r'). rewrite (proj2 (Z.ltb_lt _ _)) by lia. cbn [andb].
    cbv iota in Htext. change (render 1 (125 :: r') vals) with (render 0 r' vals) in Htext.
    destruct (render 0 r' vals) as [text2|] eqn:Er; [|done]. injection Htext as <-.
    destruct (put_brace_ok 125 (125 :: r') t l) as (l' & -> & Hturn); try done.
    { rewrite !zlen_cons. lia. }
    exists l', (pre ++ [125; 125]), r', acur, vals, [125], text2.
    rewrite zlen_app. change (zlen [125; 125]) with 2. cbn [mbind option_bind].
    split_and!; try done; [do 3 f_equal; lia|by list_assoc|simpl; lia|].
    apply (turn_weaken _ _ _ _ _ Hturn). rewrite zlen_cons. lia.
  - rewrite bool_decide_false in Htext |- * by done. rewrite andb_false_r.
    destruct (render 0 r vals) as [text2|] eqn:Er; [|done]. injection Htext as <-. by apply literal_brace_ok.
Qed.

Lemma field_brace_ok (rest : list (ArgumentTag * list Z)) (step len : Z) (tag : ArgumentTag) (v field text2 : list Z)
    (info : FormatInfo) (l0 : layout) :
  vals = (tag, v) :: rest -> Forall is_byte r -> scan_spec 20 r = (len, true) ->
  c20_format r (len + 1) = Some info -> field_text info tag v = Some field ->
  render 0 (drop (Z.to_nat (len + 1)) r) rest = Some text2 ->
  shows l0 t -> thread_names_cache_ l0 = thread_names_cache_ l -> size l0 = size l ->
  zlen t + zlen (field ++ text2) + zlen r + 2 * zlen args + 2 ^ 22 <= max_size ->
  let i := zlen pre + 1 + spec_skip info len in
  brace_turn (pre ++ 123 :: r) args (length r) l t (field ++ text2)
    ('(l, acur) ← insert_field (u32 (zlen pre + 1 + zlen r - i)) args acur (set_info info l0); Some (l, i, acur)).
Proof.
  intros -> Hrb Hscan Hinfo Hfield Hr Hs0 Hn0 Hz0 Hb. rewrite (spec_skip_len r len info) by done. cbv zeta.
  inversion Hvals as [|cursor tag' v' step' vals' Hat Hrest]; subst.
  pose proof (values_le _ _ _ Hrest). apply c20_format_ok in Hinfo as [Hinfo _].
  apply scan_spec_inv in Hscan as (Hl0 & Hl1 & _). apply lookup_lt_Some in Hl1.
  set (s' := drop _ r) in *.
  assert (zlen s' = zlen r - (len + 1)) as Hs' by (unfold s', zlen in *; rewrite length_drop; lia).
  pose proof (zlen_nonneg s'). pose proof (zlen_nonneg text2). pose proof (zlen_nonneg field).
  pose proof (zlen_nonneg t). pose proof (zlen_nonneg args). rewrite zlen_app in *.
  rewrite wrap_small by (unfold in_range, max_size in *; lia).
  destruct (insert_field_ok (zlen s') args acur step' tag v field (set_info info l0) t) as (l' & E & Hturn);
    try done; try lia; [unfold size in *; simpl; lia|].
  replace (zlen pre + 1 + zlen r - (zlen pre + 1 + (len + 1))) with (zlen s') by lia.
  rewrite E. cbn [mbind option_bind].
  exists l', (pre ++ 123 :: take (Z.to_nat (len + 1)) r), s', (acur + step'), rest, field, text2.
  apply argument_step in Hat. split_and!; try done; try lia.
  - rewrite zlen_app, zlen_cons. unfold zlen. rewrite length_take.
    replace (Z.of_nat (Z.to_nat (len + 1) `min` length r)) with (len + 1) by lia. do 3 f_equal. lia.
  - unfold s'. rewrite <- app_assoc. simpl. by rewrite take_drop.
  - unfold s'. rewrite length_drop. lia.
  - destruct Hturn as [? Hnm ? ? ?]. split; try done. by rewrite Hnm.
Qed.

Lemma opening_brace_ok (text : list Z) :
  Forall is_byte r -> render 0 (123 :: r) vals = Some text -> zlen t + zlen (123 :: r) <= size l ->
  zlen t + zlen text + zlen r + 2 * zlen args + 2 ^ 22 <= max_size ->
  brace_turn (pre ++ 123 :: r) args (length r) l t text
    (brace_utf8 (pre ++ 123 :: r) args 123 (zlen pre + 1) acur l).
Proof.
  intros Hrb Htext Hroom Hb. pose proof (zlen_nonneg args). pose proof (zlen_nonneg r). pose proof (zlen_nonneg text).
  unfold brace_utf8. change (123 =? 125) with false. cbn [andb]. set (l0 := if fi_used _ then _ else l).
  assert (shows l0 t /\ thread_names_cache_ l0 = thread_names_cache_ l /\ size l0 = size l /\
    slack (format_info_ l0) <= 200) as (Hs0 & Hn0 & Hz0 & Hsl0).
  { unfold l0. destruct (fi_used _); [|done]. split; [by apply set_info_shows|]. split; [done|]. by split. }
  assert (forall text2, render 0 r vals = Some text2 -> text = 123 :: text2 ->
    brace_turn (pre ++ 123 :: r) args (length r) l t text
      (l ← put 123 (expand_by 1 l0); Some (l, zlen pre + 1, acur))) as Hput.
  { intros text2 Hr ->. apply literal_brace_ok; try done. lia. }
  cbn [render] in Htext. change (123 =? 125) with false in Htext. change (123 =? 123) with true in Htext.
  cbv iota in Htext. rewrite brace_drop, zlen_app, zlen_cons. pose proof Hvals as Hv.
  remember vals as vs eqn:Ev in Hv, Htext. destruct vs as [|[tag v] rest].
  - inversion Hv as [E|]. rewrite <- E, (proj2 (Z.ltb_ge _ _)) in * by lia. rewrite Ev in Htext.
    destruct (render 0 r vals) as [text2|]; [|done]. injection Htext as <-. by apply Hput with text2.
  - inversion Hv as [|cursor tag' v' step vals' Hat Hrest]. apply argument_step in Hat as Hstep.
    rewrite (proj2 (Z.ltb_lt _ _)) by lia. destruct (scan_spec 20 r) as [len closed] eqn:Escan. destruct closed.
    2:{ rewrite Ev in Htext. destruct (render 0 r vals) as [text2|]; [|done]. injection Htext as <-.
        by apply Hput with text2. }
    destruct (c20_format r (len + 1)) as [info|] eqn:Einfo; [|done]. cbn [mbind option_bind] in Htext |- *.
    destruct (field_text info tag v) as [field|] eqn:Ef; [|done]. cbn [mbind option_bind] in Htext.
    rewrite render_skip in Htext.
    destruct (render 0 (drop _ r) rest) as [text2|] eqn:Er; [|done]. injection Htext as <-.
    replace (zlen pre + (1 + zlen r)) with (zlen pre + 1 + zlen r) by lia.
    by eapply field_brace_ok.
Qed.

End Brace.

(** ** The loop *)

Lemma format_loop_utf8_ok (fuel : nat) (fmt pre s args : list Z) (acur : Z) (vals : list (ArgumentTag * list Z))
    (l : layout) (t text : list Z) :
  (length s < fuel)%nat -> fmt = pre ++ s -> Forall is_byte fmt -> bytes_ok args -> zlen args < 2 ^ 30 ->
  0 <= acur -> values_at args acur vals -> render 0 s vals = Some text -> shows l t -> size l <= max_size ->
  zlen t + zlen s <= size l -> slack (format_info_ l) <= 200 ->
  zlen t + zlen text + zlen s + 2 * zlen args + 2 ^ 22 <= max_size ->
  exists l', format_loop_utf8 fuel fmt args (zlen pre) acur l = Some l' /\ turn_ok l l' (t ++ text) 0.
Proof.
  revert pre s acur vals l t text.
  induction fuel as [|fuel IH]; intros pre s acur vals l t text Hf E Hfb Hok Hargs H0 Hv Ht Hs Hm Hr Hsl Hb; [lia|].
  cbn [format_loop_utf8]. pose proof (zlen_nonneg s) as Hs0. pose proof (zlen_nonneg pre).
  assert (zlen fmt = zlen pre + zlen s) as Hlen by (by rewrite E, zlen_app).
  destruct (Z.ltb_spec (zlen pre) (zlen fmt)) as [Hlt|Hge].
  2:{ assert (s = []) as -> by (destruct s; [done|rewrite zlen_cons in *; pose proof (zlen_nonneg s); lia]).
      injection Ht as <-. exists l. split; [done|]. rewrite app_nil_r. by split. }
  assert (drop (Z.to_nat (zlen pre)) fmt = s) as ->.
  { rewrite E. unfold zlen. by rewrite Nat2Z.id, drop_app_length. }
  destruct (find_brace s) as [run found] eqn:Ef. apply find_brace_inv in Ef as (rest & -> & Hren & Hfound).
  rewrite Hren in Ht. destruct (render 0 rest vals) as [text'|] eqn:Er; [|done]. injection Ht as <-.
  rewrite !zlen_app in *. pose proof (zlen_nonneg run). pose proof (zlen_nonneg rest). pose proof (zlen_nonneg text').
  pose proof (zlen_nonneg args).
  destruct (write_text_ok l t run) as (l1 & -> & Hw & S1); [done|done|lia|]. cbn [mbind option_bind].
  replace (zlen pre + zlen run) with (zlen (pre ++ run)) by apply zlen_app.
  assert (slack (format_info_ l1) <= 200) as Hsl1 by (by rewrite (to_info _ _ _ Hw)).
  assert (forall pre' s' acur' vals' l2 text1 text2,
    fmt = pre' ++ s' -> (length s' <= length rest)%nat -> (length s' < fuel)%nat -> 0 <= acur' ->
    values_at args acur' vals' -> render 0 s' vals' = Some text2 -> text' = text1 ++ text2 ->
    turn_ok l1 l2 ((t ++ run) ++ text1) (zlen s') ->
    exists l', format_loop_utf8 fuel fmt args (zlen pre') acur' l2 = Some l' /\
      turn_ok l l' (t ++ run ++ text') 0) as Hnext.
  { intros pre' s' acur' vals' l2 text1 text2 E' Hls Hfu Ha' Hv' Hr' -> [Hsh Hnm Hsz Hleft Hslk].
    rewrite !zlen_app in *. assert (zlen s' <= zlen rest) by (unfold zlen; lia).
    destruct (IH pre' s' acur' vals' l2 ((t ++ run) ++ text1) text2) as (l' & -> & [A B ? C ?]);
      try done; rewrite ?zlen_app; try lia.
    exists l'. split; [done|]. rewrite <- !app_assoc in A, C. split; try done. by rewrite B, Hnm, (to_names _ _ _ Hw). }
  pose proof (to_shows _ _ _ Hw) as Hsw. destruct found.
  - destruct Hfound as (c & r & -> & Hc).
    assert (fmt = (pre ++ run) ++ c :: r) as E2 by (rewrite E; by list_assoc).
    assert (fmt !! Z.to_nat (zlen (pre ++ run)) = Some c) as ->.
    { rewrite E2. unfold zlen. by rewrite Nat2Z.id, lookup_app_r, Nat.sub_diag by lia. }
    cbn [mbind option_bind].
    assert (brace_turn ((pre ++ run) ++ c :: r) args (length r) l1 (t ++ run) text'
      (brace_utf8 ((pre ++ run) ++ c :: r) args c (zlen (pre ++ run) + 1) acur l1)) as Hbr.
    { assert (Forall is_byte r) by (rewrite E2 in Hfb; apply Forall_app in Hfb as [_ Hfb]; by inversion Hfb).
      rewrite zlen_cons in *. pose proof (zlen_nonneg r).
      destruct Hc as [-> | ->]; [eapply opening_brace_ok|eapply closing_brace_ok]; try done;
        rewrite ?zlen_app, ?zlen_cons; lia. }
    rewrite <- E2 in Hbr. destruct Hbr as (l2 & pre' & s' & acur' & vals' & text1 & text2 & -> & E3 & Hl & ? & ? & ? & ? & ?).
    cbn [mbind option_bind]. rewrite length_app in Hf. simpl in Hf.
    eapply Hnext; try done; simpl; lia.
  - subst rest. injection Er as <-. rewrite app_nil_r in E.
    assert (length run <> O) by (unfold zlen in *; simpl in *; lia). rewrite length_app in Hf. simpl in Hf.
    eapply (Hnext (pre ++ run) [] acur vals l1 [] []); try done; [by rewrite app_nil_r|simpl; lia|].
    rewrite app_nil_r. change (zlen []) with 0. split; try done; [lia|]. pose proof (shows_room _ _ Hsw). lia.
Qed.

(** *** The properties of the format string *)

Lemma format_content_utf8_ok (fmt args : list Z) (vals : list (ArgumentTag * list Z)) (l : layout) (t text : list Z) :
  Forall is_byte fmt -> bytes_ok args -> zlen args < 2 ^ 30 -> values_at args 0 vals ->
  format_text fmt vals = Some text -> shows l t -> size l <= max_size -> slack (format_info_ l) <= 200 ->
  zlen t + zlen text + zlen fmt + 2 * zlen args + 2 ^ 22 <= max_size ->
  exists l', python_style_format_content_utf8 fmt args l = Some l' /\ turn_ok l l' (t ++ text) 0.
Proof.
  intros Hfb Hok Hargs Hv Ht Hs Hm Hsl Hb. unfold python_style_format_content_utf8.
  pose proof (zlen_nonneg fmt). pose proof (zlen_nonneg args). pose proof (zlen_nonneg text).
  pose proof (slack_nonneg (format_info_ l)). destruct vals as [|[tag v] vals].
  - injection Ht as <-. assert (zlen args = 0) as -> by (inversion Hv; congruence). change (0 =? 0) with true. cbv iota.
    destruct (decide (fmt = [])) as [->|Hne].
    + exists l. rewrite app_nil_r. split; [done|]. by apply step_turn; [apply step_refl|..].
    + destruct (insert_str_utf8_ok l t fmt Hs Hm Hne) as (l' & E' & H' & S' & R'); [lia|].
      exists l'. split; [done|]. by apply step_turn.
  - inversion Hv as [|cursor tag' v' step vals' Hat _]; subst. apply argument_step in Hat.
    rewrite (proj2 (Z.eqb_neq _ _)) by lia.
    destruct (expand_by_ok (zlen fmt) l t) as (He & S1 & R1); [done|done|lia|lia|].
    destruct (format_loop_utf8_ok (S (length fmt)) fmt [] fmt args 0 ((tag, v) :: vals) (expand_by (zlen fmt) l) t text)
      as (l' & E & [A B ? ? ?]); try done; try lia; [apply (to_shows _ _ _ He)|by rewrite (to_info _ _ _ He)|].
    exists l'. split; [done|]. split; try done. by rewrite B, (to_names _ _ _ He).
Qed.
