(* ===== verification/StringUtils.v ===== *)
(** * String helpers
    ([src/utility/string_utils.cpp])

    [trim], [split_nonempty] and [equals_ignore_case], with the character classes of the
    "C" locale. Characters are bytes. *)
From stdpp Require Import base list option numbers sets.
From Stdlib Require Import ZArith Lia.
From S2P Require Import Prelude.

(** ** Characters *)

Definition isspace (c : Z) : bool := (c =? 32) || ((9 <=? c) && (c <=? 13)).
Definition isdigit (c : Z) : bool := (48 <=? c) && (c <=? 57).
Definition toupper (c : Z) : Z := if (97 <=? c) && (c <=? 122) then c - 32 else c.

(** ** [trim] *)

(** [while (first < last && isspace(value[first])) ++first] *)
Fixpoint skip_spaces (s : list Z) : list Z :=
  match s with [] => [] | c :: r => if isspace c then skip_spaces r else s end.

(** The second loop is the first from the other end. *)
Definition trim (value : list Z) : list Z := rev (skip_spaces (rev (skip_spaces value))).

Lemma skip_spaces_spec (s : list Z) :
  exists pre, s = pre ++ skip_spaces s /\ Forall (fun c => isspace c = true) pre /\
    forall c, head (skip_spaces s) = Some c -> isspace c = false.
Proof.
  induction s as [|c s (pre & E & Hp & Hh)]; [by exists []|]. simpl. destruct (isspace c) eqn:Ec.
  - exists (c :: pre). split; [by rewrite E at 1|]. split; [by constructor|done].
  - exists []. split; [done|]. split; [done|]. by intros c' [= <-].
Qed.

Lemma skip_spaces_app (pre s : list Z) :
  Forall (fun c => isspace c = true) pre -> skip_spaces (pre ++ s) = skip_spaces s.
Proof. induction 1 as [|c pre Hc Hp IH]; [done|]. simpl. by rewrite Hc. Qed.

Lemma skip_spaces_id (s : list Z) :
  (forall c, head s = Some c -> isspace c = false) -> skip_spaces s = s.
Proof. destruct s as [|c s]; [done|]. intros H. simpl. by rewrite (H c). Qed.

Lemma trim_parts (value : list Z) :
  exists pre post, value = pre ++ trim value ++ post /\
    Forall (fun c => isspace c = true) pre /\ Forall (fun c => isspace c = true) post /\
    (forall c, head (trim value) = Some c -> isspace c = false) /\
    (forall c, head (rev (trim value)) = Some c -> isspace c = false).
Proof.
  destruct (skip_spaces_spec value) as (pre & E & Hp & Hh). unfold trim.
  set (s := skip_spaces value) in *. destruct (skip_spaces_spec (rev s)) as (post & E2 & Hp2 & Hl).
  set (s2 := skip_spaces (rev s)) in *. exists pre, (rev post).
  assert (s = rev s2 ++ rev post) as Hs by (by rewrite <- rev_app_distr, <- E2, rev_involutive).
  split; [by rewrite E at 1; rewrite Hs|]. split; [done|]. split; [by apply Forall_rev|]. split.
  - intros c Hc. apply Hh. rewrite Hs. destruct (rev s2); [done|]. done.
  - intros c Hc. apply Hl. by rewrite rev_involutive in Hc.
Qed.

(** ** [split_nonempty] *)

(** [value.find(delimiter, first)] from [first] on. *)
Fixpoint find_char (delimiter : Z) (s : list Z) : option nat :=
  match s with
  | [] => None
  | c :: r => if c =? delimiter then Some O else S <$> find_char delimiter r
  end.

(** [s] is the value from [first] on. *)
Fixpoint split_loop (fuel : nat) (delimiter : Z) (s : list Z) : list (list Z) :=
  match fuel with
  | O => []
  | S fuel =>
      match find_char delimiter s with
      | None => if (0 <? length s)%nat then [s] else []
      | Some found =>
          (if (0 <? found)%nat then [take found s] else []) ++
          split_loop fuel delimiter (drop (S found) s)
      end
  end.

Definition split_nonempty (value : list Z) (delimiter : Z) : list (list Z) :=
  split_loop (S (length value)) delimiter value.

(** The pieces put together again, one delimiter between two of them. *)
Fixpoint join (delimiter : Z) (pieces : list (list Z)) : list Z :=
  match pieces with
  | [] => []
  | [p] => p
  | p :: pieces => p ++ delimiter :: join delimiter pieces
  end.

Definition piece_ok (delimiter : Z) (p : list Z) : Prop := p <> [] /\ delimiter ∉ p.

Lemma find_char_inv (d : Z) (s : list Z) :
  match find_char d s with
  | None => (d ∉ s)
  | Some k => exists post, s = take k s ++ d :: post /\ drop (S k) s = post /\ (d ∉ take k s) /\ (k < length s)%nat
  end.
Proof.
  induction s as [|c s IH]; cbn [find_char]; [set_solver|]. destruct (Z.eqb_spec c d) as [->|Hne].
  - exists s. split; [done|]. split; [done|]. split; [set_solver|simpl; lia].
  - destruct (find_char d s) as [k|]; simpl; [|set_solver].
    destruct IH as (post & E & Hd & Hn & Hl). exists post. split; [simpl; congruence|]. split; [done|].
    split; [set_solver|lia].
Qed.

Lemma find_char_app (d : Z) (p s : list Z) : d ∉ p -> find_char d (p ++ d :: s) = Some (length p).
Proof.
  induction p as [|c p IH]; intros Hp; simpl; [by rewrite Z.eqb_refl|].
  apply not_elem_of_cons in Hp as [Hc Hp]. rewrite (proj2 (Z.eqb_neq c d)) by congruence. by rewrite IH.
Qed.

Lemma find_char_none (d : Z) (p : list Z) : d ∉ p -> find_char d p = None.
Proof. intros H. pose proof (find_char_inv d p) as Hi. destruct (find_char d p); [|done]. destruct Hi as (post & E & _).
  exfalso. apply H. rewrite E. set_solver. Qed.

Lemma split_loop_pieces (fuel : nat) (d : Z) (s : list Z) :
  (length s < fuel)%nat ->
  Forall (piece_ok d) (split_loop fuel d s) /\
  concat (split_loop fuel d s) = filter (fun c => c <> d) s.
Proof.
  revert s. induction fuel as [|fuel IH]; intros s Hf; [lia|]. cbn [split_loop].
  pose proof (find_char_inv d s) as Hi. destruct (find_char d s) as [k|].
  - destruct Hi as (post & E & -> & Hn & Hl).
    assert (length (take k s) = k) as Hk by (rewrite length_take; lia).
    assert (length s = (k + S (length post))%nat) as Hls by (rewrite E, length_app, Hk; done).
    destruct (IH post ltac:(lia)) as [H1 H2].
    assert (filter (fun c => c <> d) s = take k s ++ filter (fun c => c <> d) post) as ->.
    { rewrite E at 1. rewrite filter_app, filter_cons_False by (intros H; by apply H). f_equal.
      clear -Hn. induction (take k s) as [|c p IHp]; [done|]. rewrite filter_cons_True by set_solver.
      f_equal. apply IHp. set_solver. }
    rewrite <- H2. destruct k as [|k]; [done|]. simpl app. split; [|done].
    constructor; [|done]. split; [|done]. intros Hnil. rewrite Hnil in Hk. done.
  - assert (filter (fun c => c <> d) s = s) as ->.
    { clear -Hi. induction s as [|c s IHs]; [done|]. rewrite filter_cons_True by set_solver.
      f_equal. apply IHs. set_solver. }
    destruct s as [|c s]; [done|]. simpl. rewrite app_nil_r. split; [|done]. constructor; [|done]. by split.
Qed.

Lemma split_loop_join (fuel : nat) (d : Z) (pieces : list (list Z)) :
  (length (join d pieces) < fuel)%nat -> Forall (piece_ok d) pieces ->
  split_loop fuel d (join d pieces) = pieces.
Proof.
  revert fuel. induction pieces as [|p pieces IH]; intros fuel Hf Hok.
  { destruct fuel; [lia|done]. }
  apply Forall_cons_iff in Hok as [[Hne Hd] Hok]. destruct fuel as [|fuel]; [lia|].
  assert ((0 <? length p)%nat = true) as Hp by (destruct p; done). cbn [join] in *. destruct pieces as [|q pieces].
  - cbn [split_loop]. by rewrite find_char_none, Hp.
  - cbn [split_loop]. rewrite find_char_app, Hp by done. rewrite take_app_length.
    replace (drop (S (length p)) (p ++ d :: join d (q :: pieces))) with (join d (q :: pieces)).
    2:{ replace (S (length p)) with (length p + 1)%nat by lia. rewrite <- drop_drop, drop_app_length. done. }
    rewrite length_app in Hf. cbn [length] in Hf. rewrite IH by (done || lia). done.
Qed.

(** ** [equals_ignore_case] *)

Fixpoint equals_loop (a b : list Z) : bool :=
  match a, b with
  | x :: a, y :: b => if negb (x =? y) && negb (toupper x =? toupper y) then false else equals_loop a b
  | _, _ => true
  end.

Definition equals_ignore_case (value expected : list Z) : bool :=
  if negb (length value =? length expected)%nat then false else equals_loop value expected.

Lemma equals_ignore_case_iff (value expected : list Z) :
  equals_ignore_case value expected = true <-> map toupper value = map toupper expected.
Proof.
  unfold equals_ignore_case. destruct (Nat.eqb_spec (length value) (length expected)) as [E|E]; cbn [negb].
  - revert expected E. induction value as [|x a IH]; intros [|y b] E; try done. injection E as E.
    cbn [equals_loop map]. destruct (Z.eqb_spec x y) as [->|Hxy]; cbn [negb andb].
    + rewrite IH by done. split; [by intros ->|by intros [= ->]].
    + destruct (Z.eqb_spec (toupper x) (toupper y)) as [Ht|Ht]; cbn [negb].
      * rewrite IH, Ht by done. split; [by intros ->|by intros [= ->]].
      * split; [done|]. by intros [= ? _].
  - split; [done|]. intros H. apply (f_equal length) in H. by rewrite !length_map in H.
Qed.
