(* ===== verification/TimeZone.v ===== *)
(** * The time zone
    ([src/layout/time_zone.cpp], [include/qlog/layout/time_zone.hpp])

    Parsing of a zone name, the calendar time of a record, and the cached time text that
    the layout writes. The local time of the system is a [TimePlatform]; [gmtime], [strtol]
    and [snprintf] are those of the C library, in the "C" locale. *)
From stdpp Require Import base list option numbers.
From Stdlib Require Import ZArith Lia Bool.
From S2P Require Import Prelude Memory ArgSerialization StringUtils Layout LayoutProofs.

(** ** Calendar time *)

(** [std::tm] *)
Record tm := mk_tm { tm_year : Z; tm_mon : Z; tm_mday : Z; tm_hour : Z; tm_min : Z; tm_sec : Z }.

Definition tm_zero : tm := mk_tm 0 0 0 0 0 0.

(** The system: the present time, the local calendar time of a time, the name of the local
    zone at a calendar time ([strftime] with ["%Z"], empty when there is none) and [mktime]
    ([None] on overflow). *)
Class TimePlatform := {
  time_now : Z;
  localtime : Z -> option tm;
  strftime_zone : tm -> list Z;
  mktime : tm -> option Z }.

(** The date of a day, counted from 1970-01-01, in years from March to February: year, month
    from 1, day from 1. *)
Definition civil_of_days (days : Z) : Z * Z * Z :=
  let n := days + 719468 in
  let era := n / 146097 in
  let n := n mod 146097 in
  let century := Z.min 3 (n / 36524) in
  let n := n - century * 36524 in
  let quad := n / 1461 in
  let n := n mod 1461 in
  let year := Z.min 3 (n / 365) in
  let doy := n - year * 365 in
  let mp := (5 * doy + 2) / 153 in
  let day := doy - (153 * mp + 2) / 5 + 1 in
  let month := if mp <? 10 then mp + 3 else mp - 9 in
  (era * 400 + century * 100 + quad * 4 + year + (if month <=? 2 then 1 else 0), month, day).

(** [gmtime_r]: fails when the year does not fit [int]. *)
Definition gmtime (t : Z) : option tm :=
  let '(y, m, d) := civil_of_days (t / 86400) in
  let s := t mod 86400 in
  if (- 2 ^ 31 <=? y - 1900) && (y - 1900 <? 2 ^ 31)
  then Some (mk_tm (y - 1900) (m - 1) d (s / 3600) (s / 60 mod 60) (s mod 60)) else None.

(** ** The calendar *)

Definition leap (y : Z) : bool := (y mod 4 =? 0) && (negb (y mod 100 =? 0) || (y mod 400 =? 0)).

Definition month_days (y m : Z) : Z :=
  if m =? 2 then (if leap y then 29 else 28)
  else if (m =? 4) || (m =? 6) || (m =? 9) || (m =? 11) then 30 else 31.

Definition next_date (date : Z * Z * Z) : Z * Z * Z :=
  let '(y, m, d) := date in
  if d <? month_days y m then (y, m, d + 1) else if m <? 12 then (y, m + 1, 1) else (y + 1, 1, 1).

(** Month and day of a day in a year that starts in March, and the date in the year [Y]. *)
Definition month_of_doy (doy : Z) : Z := let mp := (5 * doy + 2) / 153 in if mp <? 10 then mp + 3 else mp - 9.
Definition mday_of_doy (doy : Z) : Z := doy - (153 * ((5 * doy + 2) / 153) + 2) / 5 + 1.
Definition date_of (Y doy : Z) : Z * Z * Z :=
  (Y + (if month_of_doy doy <=? 2 then 1 else 0), month_of_doy doy, mday_of_doy doy).

Lemma civil_parts (days era c q a doy : Z) :
  days + 719468 = era * 146097 + c * 36524 + q * 1461 + a * 365 + doy ->
  0 <= c <= 3 -> 0 <= q <= 24 -> 0 <= a <= 3 -> 0 <= doy <= 365 ->
  (doy = 365 -> a = 3 /\ (q = 24 -> c = 3)) ->
  civil_of_days days = date_of (era * 400 + c * 100 + q * 4 + a) doy.
Proof.
  intros E Hc Hq Ha Hd Hl. unfold civil_of_days. rewrite E.
  assert (0 <= c * 36524 + q * 1461 + a * 365 + doy < 146097) as Hera by lia.
  set (n := c * 36524 + q * 1461 + a * 365 + doy) in *.
  replace (era * 146097 + c * 36524 + q * 1461 + a * 365 + doy) with (n + era * 146097) by (unfold n; lia).
  rewrite Z.div_add, Z_mod_plus_full, (Z.div_small n), (Z.mod_small n) by lia.
  assert (Z.min 3 (n / 36524) = c) as -> by (unfold n; Z.to_euclidean_division_equations; lia).
  replace (n - c * 36524) with (a * 365 + doy + q * 1461) by (unfold n; lia).
  rewrite Z.div_add, Z_mod_plus_full, (Z.div_small (a * 365 + doy)), (Z.mod_small (a * 365 + doy)) by lia.
  assert (Z.min 3 ((a * 365 + doy) / 365) = a) as -> by (Z.to_euclidean_division_equations; lia).
  replace (a * 365 + doy - a * 365) with doy by lia. unfold date_of, month_of_doy, mday_of_doy.
  by replace ((0 + era) * 400 + c * 100 + (0 + q) * 4 + a) with (era * 400 + c * 100 + q * 4 + a) by lia.
Qed.

Lemma civil_split (days : Z) :
  exists era c q a doy, days + 719468 = era * 146097 + c * 36524 + q * 1461 + a * 365 + doy /\
  0 <= c <= 3 /\ 0 <= q <= 24 /\ 0 <= a <= 3 /\ 0 <= doy <= 365 /\
  (doy = 365 -> a = 3 /\ (q = 24 -> c = 3)).
Proof.
  set (n := days + 719468). pose proof (Z.div_mod n 146097 ltac:(lia)). pose proof (Z.mod_pos_bound n 146097 ltac:(lia)).
  set (r := n mod 146097) in *. set (c := Z.min 3 (r / 36524)).
  assert (0 <= c <= 3 /\ 0 <= r - c * 36524 <= 36524 /\ (r - c * 36524 = 36524 -> c = 3)) as (Hc & Hr & Hr3)
    by (unfold c; Z.to_euclidean_division_equations; lia).
  set (s := r - c * 36524) in *. pose proof (Z.div_mod s 1461 ltac:(lia)). pose proof (Z.mod_pos_bound s 1461 ltac:(lia)).
  set (u := s mod 1461) in *. set (a := Z.min 3 (u / 365)).
  assert (0 <= a <= 3 /\ 0 <= u - a * 365 <= 365 /\ (u - a * 365 = 365 -> a = 3)) as (Ha & Hu & Hu3)
    by (unfold a; Z.to_euclidean_division_equations; lia).
  exists (n / 146097), c, (s / 1461), a, (u - a * 365).
  assert (0 <= s / 1461 <= 24) by (Z.to_euclidean_division_equations; lia).
  split; [lia|]. split; [done|]. split; [done|]. split; [done|]. split; [done|].
  intros Hd. split; [by apply Hu3|]. intros Hq. apply Hr3. lia.
Qed.

Definition doy_step (doy : Z) : bool :=
  let m := month_of_doy doy in let d := mday_of_doy doy in
  bool_decide ((month_of_doy (doy + 1), mday_of_doy (doy + 1)) =
    if d <? month_days 1 m then (m, d + 1) else if m <? 12 then (m + 1, 1) else (1, 1)) &&
  (negb (m =? 2) || (d <? 28)) && (m <=? 12) && (1 <=? m).

Lemma doy_table : forallb doy_step (seqZ 0 364) = true.
Proof. by vm_compute. Qed.

Lemma leap_march (era c q a : Z) :
  0 <= c <= 3 -> 0 <= q <= 24 -> 0 <= a <= 3 ->
  leap (era * 400 + c * 100 + q * 4 + a + 1) = (a =? 3) && (negb (q =? 24) || (c =? 3)).
Proof.
  intros Hc Hq Ha. unfold leap. set (y := era * 400 + c * 100 + q * 4 + a + 1).
  assert ((y mod 4 =? 0) = (a =? 3)) as ->.
  { replace y with (a + 1 + (era * 100 + c * 25 + q) * 4) by (unfold y; lia). rewrite Z_mod_plus_full.
    destruct (Z.eqb_spec a 3) as [->|]; [done|]. apply Z.eqb_neq. rewrite Z.mod_small; lia. }
  destruct (Z.eqb_spec a 3) as [->|]; [|done]. cbn [andb].
  assert ((y mod 100 =? 0) = (q =? 24)) as ->.
  { replace y with (q * 4 + 4 + (era * 4 + c) * 100) by (unfold y; lia). rewrite Z_mod_plus_full.
    destruct (Z.eqb_spec q 24) as [->|]; [done|]. apply Z.eqb_neq. rewrite Z.mod_small; lia. }
  destruct (Z.eqb_spec q 24) as [->|]; [|done]. cbn [negb orb].
  replace y with (c * 100 + 100 + era * 400) by (unfold y; lia). rewrite Z_mod_plus_full.
  destruct (Z.eqb_spec c 3) as [->|]; [done|]. apply Z.eqb_neq. rewrite Z.mod_small; lia.
Qed.

(** The first of March. *)
Lemma civil_march (days era c q a : Z) :
  days + 719468 = era * 146097 + c * 36524 + q * 1461 + a * 365 ->
  0 <= c <= 3 -> 0 <= q <= 24 -> 0 <= a <= 3 ->
  civil_of_days days = (era * 400 + c * 100 + q * 4 + a, 3, 1).
Proof.
  intros E Hc Hq Ha. rewrite (civil_parts days era c q a 0) by lia. unfold date_of.
  change (month_of_doy 0) with 3. change (mday_of_doy 0) with 1. change (3 <=? 2) with false. cbv iota.
  by rewrite Z.add_0_r.
Qed.

Lemma civil_next (days : Z) : civil_of_days (days + 1) = next_date (civil_of_days days).
Proof.
  destruct (civil_split days) as (era & c & q & a & doy & E & Hc & Hq & Ha & Hd & Hl).
  rewrite (civil_parts days era c q a doy E) by done. set (Y := era * 400 + c * 100 + q * 4 + a).
  pose proof (leap_march era c q a Hc Hq Ha) as Hleap. fold Y in Hleap.
  destruct (decide (doy < 364)) as [Hlt|Hge].
  { rewrite (civil_parts (days + 1) era c q a (doy + 1)) by lia. fold Y.
    pose proof doy_table as Ht. rewrite forallb_forall in Ht. specialize (Ht doy).
    specialize (Ht ltac:(apply list_elem_of_In, elem_of_seqZ; lia)). unfold doy_step in Ht.
    rewrite !andb_true_iff, bool_decide_eq_true, !Z.leb_le in Ht. destruct Ht as [[[Ht H2] H12] H1].
    unfold date_of, next_date. set (m := month_of_doy doy) in *. set (d := mday_of_doy doy) in *.
    assert ((d <? month_days (Y + (if m <=? 2 then 1 else 0)) m) = (d <? month_days 1 m)) as ->.
    { unfold month_days. destruct (Z.eqb_spec m 2) as [->|]; [|done]. change (negb true || (d <? 28)) with (d <? 28) in H2.
      apply Z.ltb_lt in H2. by destruct (leap _), (leap _); rewrite ?(proj2 (Z.ltb_lt _ _)) by lia. }
    destruct (Z.ltb_spec d (month_days 1 m)) as [|Hge]; [by injection Ht as -> ->|].
    destruct (Z.ltb_spec m 12); injection Ht as -> ->.
    - destruct (Z.leb_spec m 2), (Z.leb_spec (m + 1) 2); try done; try lia.
      assert (m = 2) as Hm by lia. rewrite Hm in *. change (month_days 1 2) with 28 in Hge.
      change ((d <? 28) = true) in H2. lia.
    - assert (m = 12) as -> by lia. simpl. f_equal. f_equal. lia. }
  assert (doy = 364 \/ doy = 365) as [->| ->] by lia; change (date_of Y 364) with (Y + 1, 2, 28) in *;
    change (date_of Y 365) with (Y + 1, 2, 29) in *; unfold next_date, month_days; change (2 =? 2) with true; cbv iota;
    rewrite Hleap.
  - destruct (Z.eqb_spec a 3) as [->|Ha3]; cbn [andb].
    2:{ rewrite (civil_march _ era c q (a + 1)) by lia. simpl. do 2 f_equal. unfold Y. lia. }
    destruct (Z.eqb_spec q 24) as [->|Hq24]; cbn [negb orb].
    2:{ by rewrite (civil_parts _ era c q 3 365) by lia. }
    destruct (Z.eqb_spec c 3) as [->|Hc3]; [by rewrite (civil_parts _ era 3 24 3 365) by lia|].
    rewrite (civil_march _ era (c + 1) 0 0) by lia. simpl. do 2 f_equal. unfold Y. lia.
  - destruct (Hl eq_refl) as [-> Hq24]. destruct (Z.eqb_spec q 24) as [->|Hqn].
    + rewrite (Hq24 eq_refl) in *. rewrite (civil_march _ (era + 1) 0 0 0) by lia. simpl. do 2 f_equal. unfold Y. lia.
    + rewrite (civil_march _ era c (q + 1) 0) by lia. simpl. do 2 f_equal. unfold Y. lia.
Qed.

(** ** Numbers *)

(** [%d] and [%02d] *)
Definition dec (v : Z) : list Z := (if v <? 0 then [45] else []) ++ number_text 20 false 10 (Z.abs v).
Definition dec2 (v : Z) : list Z := if (0 <=? v) && (v <? 10) then [48; 48 + v] else dec v.

(** [%+d] *)
Definition dec_sign (v : Z) : list Z := (if v <? 0 then [] else [43]) ++ dec v.

Fixpoint digits_prefix (s : list Z) : list Z :=
  match s with [] => [] | c :: r => if isdigit c then c :: digits_prefix r else [] end.

(** [strtol(start, &end, 10)]: [None] when there is no number ([end == start]); otherwise the
    value, or [None] for a value out of the range of [long], and the text from [end] on. *)
Definition strtol (start : list Z) : option (option Z * list Z) :=
  let s := skip_spaces start in
  let '(negative, s) := match s with
                        | c :: r => if c =? 45 then (true, r) else if c =? 43 then (false, r) else (false, s)
                        | [] => (false, s)
                        end in
  let digits := digits_prefix s in
  if bool_decide (digits = []) then None
  else
    let v := text_value 10 digits in
    let v := if (negative : bool) then - v else v in
    Some (if (- 2 ^ 63 <=? v) && (v <? 2 ^ 63) then Some v else None, drop (length digits) s).

(** ** State *)

Record TimeZone := mk_tz {
  use_local_time_ : bool;
  gmt_offset_hours_ : Z;
  gmt_offset_minutes_ : Z;
  time_zone_diff_to_gmt_ms_ : Z;
  time_zone_str_ : list Z;
  time_cache_ : list Z;
  last_time_epoch_cache_ : Z }.

Definition MAX_TIME_SIZE_LEN : nat := 128.

(** [reset] *)
Definition reset : TimeZone := mk_tz true 0 0 0 [] [] 0.

Definition text_local : list Z := [76; 79; 67; 65; 76].                                (* LOCAL *)
Definition text_localtime : list Z := [76; 79; 67; 65; 76; 84; 73; 77; 69].            (* LOCALTIME *)
Definition text_local_time : list Z := [76; 79; 67; 65; 76; 95; 84; 73; 77; 69].       (* LOCAL_TIME *)
Definition text_localtime_lower : list Z := [108; 111; 99; 97; 108; 116; 105; 109; 101]. (* localtime *)
Definition text_gmt : list Z := [71; 77; 84].                                          (* GMT *)
Definition text_utc : list Z := [85; 84; 67].                                          (* UTC *)

(** ** Parsing *)

(** What the [do] block leaves in [use_local_time_] and the two offsets. *)
Definition parse_offset (upper_time_zone : list Z) : bool * Z * Z :=
  let u := upper_time_zone in
  if bool_decide (u = []) then (true, 0, 0)
  else if bool_decide (u = text_local) || bool_decide (u = text_localtime) || bool_decide (u = text_local_time)
  then (true, 0, 0)
  else if bool_decide (u = text_gmt) || bool_decide (u = [90]) || bool_decide (u = text_utc)
  then (false, 0, 0)
  else
    let start := until_zero (if bool_decide (take 3 u = text_utc) then drop 3 u else u) in
    match strtol start with
    | Some (Some hour, end_) =>
        if (hour <? -12) || (14 <? hour) then (true, 0, 0)
        else
          let finish minute end_ :=
            if bool_decide (end_ = [])
            then (false, hour, if hour <? 0 then - minute else minute)
            else (true, 0, minute) in
          match end_ with
          | c :: start =>
              if c =? 58 then
                match strtol start with
                | Some (Some minute, end_) =>
                    if (minute <? 0) || (60 <=? minute) then (true, 0, 0) else finish minute end_
                | _ => (true, 0, 0)
                end
              else finish 0 end_
          | [] => finish 0 end_
          end
    | _ => (true, 0, 0)
    end.

(** The name of a zone with an offset; at most 63 characters are written to [buffer]. *)
Definition offset_zone_str (hours minutes : Z) : list Z :=
  if (hours =? 0) && (minutes =? 0) then text_utc ++ [48]
  else if minutes =? 0 then take 63 (text_utc ++ dec_sign hours)
  else take 63 (text_utc ++ dec_sign hours ++ [58] ++ dec2 (Z.abs minutes)).

Section Platform.
Context {plat : TimePlatform}.

Definition get_local_timezone_name : list Z :=
  match localtime time_now with
  | None => text_localtime_lower
  | Some lt => let name := take 127 (strftime_zone lt) in
               if bool_decide (until_zero name = []) then text_localtime_lower else until_zero name
  end.

(** The difference of the two [mktime] results, when it fits 32 bits; 0 otherwise. *)
Definition local_diff_ms : Z :=
  default 0 (
    lt ← localtime time_now; gt ← gmtime time_now;
    local_epoch_sec ← mktime lt; utc_epoch_sec ← mktime gt;
    let offset_ms := (local_epoch_sec - utc_epoch_sec) * 1000 in
    if (- 2 ^ 31 <=? offset_ms) && (offset_ms <=? 2 ^ 31 - 1) then Some offset_ms else None).

Definition parse_by_string (time_zone_str : list Z) : TimeZone :=
  let '(use_local, hours, minutes) := parse_offset (map toupper (trim time_zone_str)) in
  if (use_local : bool)
  then mk_tz true hours minutes local_diff_ms get_local_timezone_name [] 0
  else mk_tz false hours minutes ((hours * 3600 + minutes * 60) * 1000) (offset_zone_str hours minutes) [] 0.

(** The five fields; the cache stays. *)
Definition restore_by_config (use_local : bool) (hours minutes diff_ms : Z) (time_zone_str : list Z)
    (tz : TimeZone) : TimeZone :=
  mk_tz use_local hours minutes diff_ms time_zone_str (time_cache_ tz) (last_time_epoch_cache_ tz).

(** ** The time of a record *)

Definition get_tm_by_epoch (tz : TimeZone) (epoch_ms : Z) : option tm :=
  let epoch_second := epoch_ms / 1000 in
  if use_local_time_ tz then localtime epoch_second
  else gmtime (epoch_second + (gmt_offset_hours_ tz * 3600 + gmt_offset_minutes_ tz * 60)).

Definition tm_text (t : tm) : list Z :=
  dec (tm_year t + 1900) ++ [45] ++ dec2 (tm_mon t + 1) ++ [45] ++ dec2 (tm_mday t) ++ [32] ++
  dec2 (tm_hour t) ++ [58] ++ dec2 (tm_min t) ++ [58] ++ dec2 (tm_sec t).

(** The line of [snprintf], and what fits the buffer. *)
Definition time_line (tz : TimeZone) (epoch_ms : Z) : list Z :=
  until_zero (time_zone_str_ tz) ++ [32] ++ tm_text (default tm_zero (get_tm_by_epoch tz epoch_ms)) ++ [46].

Definition inner_refresh_time_string_cache (tz : TimeZone) (epoch_ms : Z) : TimeZone :=
  mk_tz (use_local_time_ tz) (gmt_offset_hours_ tz) (gmt_offset_minutes_ tz) (time_zone_diff_to_gmt_ms_ tz)
    (time_zone_str_ tz) (take MAX_TIME_SIZE_LEN (time_line tz epoch_ms)) epoch_ms.

Definition refresh_time_string_cache (tz : TimeZone) (epoch_ms : Z) : TimeZone :=
  if epoch_ms =? last_time_epoch_cache_ tz then tz else inner_refresh_time_string_cache tz epoch_ms.

(** [%04lld] *)
Definition dec4 (v : Z) : list Z :=
  let digits := number_text 20 false 10 (Z.abs v) in
  let sign := if v <? 0 then [45] else [] in
  sign ++ replicate (4 - length sign - length digits) 48 ++ digits.

Definition get_time_str_by_epoch (tz : TimeZone) (epoch_ms : Z) : list Z :=
  let t := default tm_zero (get_tm_by_epoch tz epoch_ms) in
  take 127 (dec4 (tm_year t + 1900) ++ [45] ++ dec2 (tm_mon t + 1) ++ [45] ++ dec2 (tm_mday t) ++ [32] ++
            dec2 (tm_hour t) ++ [58] ++ dec2 (tm_min t) ++ [58] ++ dec2 (tm_sec t)).

(** ** The cache *)

(** The cache holds the text of the time it names, or nothing yet. *)
Definition cache_ok (tz : TimeZone) : Prop :=
  time_cache_ tz = take MAX_TIME_SIZE_LEN (time_line tz (last_time_epoch_cache_ tz)) \/
  time_cache_ tz = [] /\ last_time_epoch_cache_ tz = 0.

Lemma refresh_keeps_zone (tz : TimeZone) (e e' : Z) :
  time_line (refresh_time_string_cache tz e) e' = time_line tz e'.
Proof. unfold refresh_time_string_cache. by destruct (e =? _). Qed.

Lemma refresh_cache_ok (tz : TimeZone) (e : Z) : cache_ok tz -> cache_ok (refresh_time_string_cache tz e).
Proof. intros H. unfold refresh_time_string_cache. destruct (e =? _); [done|]. by left. Qed.

Lemma cache_len (tz : TimeZone) : cache_ok tz -> zlen (time_cache_ tz) <= 128.
Proof. intros [-> | [-> _]]; unfold zlen; [rewrite length_take; unfold MAX_TIME_SIZE_LEN; lia|simpl; lia]. Qed.

Lemma parse_cache_ok (s : list Z) : cache_ok (parse_by_string s).
Proof. right. unfold parse_by_string. destruct (parse_offset _) as [[[] h] m]; done. Qed.

(** The layout's view of the zone. *)
#[export] Instance TimeZoneText : TimeText := {|
  time_zone := TimeZone;
  Layout.refresh_time_string_cache := refresh_time_string_cache;
  time_string_cache := time_cache_;
  time_zone_ok := cache_ok;
  time_refresh_ok := refresh_cache_ok;
  time_string_len := cache_len |}.

(** Any history of refreshed times. *)
Definition refresh_all (tz : TimeZone) (epochs : list Z) : TimeZone := foldl refresh_time_string_cache tz epochs.

Definition cache_current (tz : TimeZone) : Prop :=
  time_cache_ tz = take MAX_TIME_SIZE_LEN (time_line tz (last_time_epoch_cache_ tz)).

Lemma refresh_current (tz : TimeZone) (e : Z) :
  cache_current tz \/ e <> last_time_epoch_cache_ tz ->
  cache_current (refresh_time_string_cache tz e) /\
  time_cache_ (refresh_time_string_cache tz e) = take MAX_TIME_SIZE_LEN (time_line tz e).
Proof.
  intros H. unfold refresh_time_string_cache, cache_current in *.
  destruct (Z.eqb_spec e (last_time_epoch_cache_ tz)) as [->|]; [|done]. by destruct H.
Qed.

Lemma refresh_all_current (epochs : list Z) (tz : TimeZone) :
  cache_current tz ->
  cache_current (refresh_all tz epochs) /\ forall e, time_line (refresh_all tz epochs) e = time_line tz e.
Proof.
  revert tz. induction epochs as [|e0 epochs IH]; intros tz H; [done|].
  destruct (IH (refresh_time_string_cache tz e0)) as [H1 H2]; [by apply refresh_current; left|].
  split; [done|]. intros e. simpl. unfold refresh_all in H2. by rewrite H2, refresh_keeps_zone.
Qed.

(** Before the first time that is not 0 nothing happens. *)
Lemma refresh_all_first (epochs : list Z) (tz : TimeZone) :
  last_time_epoch_cache_ tz = 0 ->
  Forall (fun e => e = 0) epochs /\ refresh_all tz epochs = tz \/
  cache_current (refresh_all tz epochs) /\ (forall e, time_line (refresh_all tz epochs) e = time_line tz e).
Proof.
  intros Hl. induction epochs as [|e0 epochs IH]; [by left|]. destruct (decide (e0 = 0)) as [->|He0].
  - assert (refresh_all tz (0 :: epochs) = refresh_all tz epochs) as ->.
    { unfold refresh_all. simpl. unfold refresh_time_string_cache at 2. by rewrite Hl. }
    destruct IH as [[? ?]|?]; [left|right; done]. auto.
  - right. destruct (refresh_current tz e0) as [H1 _]; [right; congruence|].
    destruct (refresh_all_current epochs _ H1) as [H2 H3]. split; [done|]. intros e. simpl.
    unfold refresh_all in H3. by rewrite H3, refresh_keeps_zone.
Qed.

End Platform.

(** ** Names of zones *)

(** Reading the name of a zone with an offset gives the offset back. *)
Definition name_round_trip (hours minutes : Z) : bool :=
  let m := if hours <? 0 then - minutes else minutes in
  bool_decide (parse_offset (map toupper (trim (offset_zone_str hours m))) = (false, hours, m)).

Lemma all_names_round_trip :
  forallb (fun h => forallb (name_round_trip h) (seqZ 0 60)) (seqZ (-12) 27) = true.
Proof. by vm_compute. Qed.

Lemma parse_offset_bounds (u : list Z) (hours minutes : Z) :
  parse_offset u = (false, hours, minutes) ->
  -12 <= hours <= 14 /\ exists m, 0 <= m < 60 /\ minutes = if hours <? 0 then - m else m.
Proof.
  unfold parse_offset. destruct (bool_decide (u = [])); [done|].
  destruct (_ || _); [done|]. destruct (_ || _).
  { intros [= <- <-]. split; [lia|]. exists 0. split; [lia|done]. }
  destruct (strtol _) as [[[hour|] end_]|]; try done.
  destruct (_ || _) eqn:E; [done|]. apply orb_false_iff in E as [E1 E2].
  apply Z.ltb_ge in E1, E2.
  assert (forall m rest, 0 <= m < 60 ->
    (if bool_decide (rest = @nil Z) then (false, hour, if hour <? 0 then - m else m) else (true, 0, m)) =
      (false, hours, minutes) ->
    -12 <= hours <= 14 /\ exists m, 0 <= m < 60 /\ minutes = if hours <? 0 then - m else m) as Hfin.
  { intros m rest Hm. destruct (bool_decide _); [|done]. intros [= <- <-]. split; [lia|]. by exists m. }
  destruct end_ as [|c start]; [apply (Hfin 0 []); lia|].
  destruct (c =? 58); [|apply (Hfin 0 (c :: start)); lia].
  destruct (strtol start) as [[[minute|] rest]|]; try done.
  destruct (_ || _) eqn:E; [done|]. apply orb_false_iff in E as [E3 E4]. apply Z.ltb_ge in E3.
  apply Z.leb_gt in E4. by apply Hfin.
Qed.

(** ** Theorems *)

(** C10. After any history of refreshed times since the zone was parsed, the cached text for a
    time is the zone's text for exactly this time, cut to its 128 characters; except that the
    time 0 refreshed before any other leaves the cache empty. *)
Theorem time_cache_current {plat : TimePlatform} (s : list Z) (epochs : list Z) (e : Z) :
  let tz := parse_by_string s in
  let text := time_cache_ (refresh_time_string_cache (refresh_all tz epochs) e) in
  text = take MAX_TIME_SIZE_LEN (time_line tz e) \/ text = [] /\ e = 0 /\ Forall (fun e' => e' = 0) epochs.
Proof.
  intros tz text. assert (time_cache_ tz = [] /\ last_time_epoch_cache_ tz = 0) as [Hc Hl].
  { unfold tz, parse_by_string. destruct (parse_offset _) as [[[] h] m]; done. }
  destruct (refresh_all_first epochs tz Hl) as [[Hz E]|[Hcur Hline]].
  - unfold text. rewrite E. destruct (decide (e = 0)) as [->|He].
    + right. split; [|done]. unfold refresh_time_string_cache. by rewrite Hl.
    + left. by apply refresh_current; right; rewrite Hl.
  - left. rewrite <- Hline. by apply refresh_current; left.
Qed.

(** A zone given by an offset is described by its name: parsing the name of a parsed zone
    gives the same zone. *)
Theorem zone_name_roundtrip {plat : TimePlatform} (s : list Z) :
  use_local_time_ (parse_by_string s) = false ->
  parse_by_string (time_zone_str_ (parse_by_string s)) = parse_by_string s.
Proof.
  unfold parse_by_string at 1 3 4. destruct (parse_offset (map toupper (trim s))) as [[[] hours] minutes] eqn:E; [done|].
  intros _. cbn [time_zone_str_]. apply parse_offset_bounds in E as (Hh & m & Hm & ->).
  pose proof all_names_round_trip as Hall. rewrite forallb_forall in Hall. specialize (Hall hours).
  rewrite forallb_forall in Hall. specialize (Hall ltac:(apply list_elem_of_In, elem_of_seqZ; lia) m).
  specialize (Hall ltac:(apply list_elem_of_In, elem_of_seqZ; lia)). unfold name_round_trip in Hall.
  apply bool_decide_eq_true in Hall. unfold parse_by_string. by rewrite Hall.
Qed.

(** The calendar times of a zone with an offset are those of the Gregorian calendar: a day
    later is the next date at the same time of day. *)
Theorem zone_next_day {plat : TimePlatform} (tz : TimeZone) (epoch_ms : Z) (t t' : tm) :
  use_local_time_ tz = false -> get_tm_by_epoch tz epoch_ms = Some t ->
  get_tm_by_epoch tz (epoch_ms + 86400000) = Some t' ->
  (tm_year t' + 1900, tm_mon t' + 1, tm_mday t') = next_date (tm_year t + 1900, tm_mon t + 1, tm_mday t) /\
  (tm_hour t', tm_min t', tm_sec t') = (tm_hour t, tm_min t, tm_sec t).
Proof.
  unfold get_tm_by_epoch. intros -> H H'. replace (epoch_ms + 86400000) with (epoch_ms + 86400 * 1000) in H' by lia.
  rewrite Z.div_add in H' by lia. set (off := gmt_offset_hours_ tz * 3600 + _) in *.
  replace (epoch_ms / 1000 + 86400 + off) with (epoch_ms / 1000 + off + 1 * 86400) in H' by lia.
  unfold gmtime in *. rewrite Z.div_add, Z_mod_plus_full in H' by lia. rewrite civil_next in H'.
  destruct (civil_of_days _) as [[y m] d]. destruct (_ && _); [|done]. injection H as <-.
  destruct (next_date (y, m, d)) as [[y' m'] d'] eqn:E. destruct (_ && _); [|done]. injection H' as <-. cbn [tm_year tm_mon tm_mday tm_hour tm_min tm_sec].
  replace (y - 1900 + 1900) with y by lia. replace (m - 1 + 1) with m by lia. rewrite E. split; [|done].
  do 2 f_equal; lia.
Qed.

(** ** A system in the zone UTC+1 *)

Definition sample_platform : TimePlatform := {|
  time_now := 1700000000;
  localtime t := gmtime (t + 3600);
  strftime_zone _ := [67; 69; 84];
  mktime _ := None |}.

Lemma zone_name_roundtrip_witness :
  parse_by_string (plat := sample_platform)
      (time_zone_str_ (parse_by_string (plat := sample_platform) [117; 116; 99; 43; 57; 58; 51; 48])) =
    parse_by_string (plat := sample_platform) [117; 116; 99; 43; 57; 58; 51; 48].
Proof. apply (zone_name_roundtrip (plat := sample_platform) [117; 116; 99; 43; 57; 58; 51; 48]). reflexivity. Defined.

Lemma zone_next_day_witness :
  next_date (2000, 2, 28) = (2000, 2, 29) /\ (9, 30, 0) = (9, 30, 0).
Proof.
  exact (zone_next_day (plat := sample_platform) (parse_by_string (plat := sample_platform) [117; 116; 99; 43; 57; 58; 51; 48])
    951696000000 (mk_tm 100 1 28 9 30 0) (mk_tm 100 1 29 9 30 0) eq_refl eq_refl eq_refl).
Defined.

(** ** Observations *)

(** The sign of "UTC-0:30" is lost: the zone is half an hour ahead of UTC. *)
Lemma negative_half_hour :
  parse_offset (map toupper [117; 116; 99; 45; 48; 58; 51; 48]) = (false, 0, 30).
Proof. reflexivity. Qed.

(** A name that is rejected behind its minutes leaves them in the offset of the local zone. *)
Lemma rejected_minutes_stay :
  parse_offset (map toupper [117; 116; 99; 43; 56; 58; 51; 48; 120]) = (true, 0, 30).
Proof. reflexivity. Qed.

(** A record of the time 0 that is the first one gets no time text. *)
Lemma epoch_zero_text {plat : TimePlatform} (s : list Z) :
  time_cache_ (refresh_time_string_cache (parse_by_string s) 0) = [].
Proof. unfold parse_by_string. destruct (parse_offset _) as [[[] h] m]; done. Qed.
