(* ===== verification/LayoutLine.v ===== *)
(** * The line of a logged record

    What the layout shows for a record that a log call has written: the bridge from the
    argument cells of the writer to the arguments the layout reads, the text in front of
    the message, and the state that the layout keeps between two records. *)
From stdpp Require Import base list option numbers gmap.
From Stdlib Require Import ZArith Lia Bool.
From S2P Require Import Prelude Memory Hash ArgSerialization BufferDefs LogEntry RecordWriter TimeZone Layout LayoutProofs LayoutTheorems.

(** ** The arguments in the record *)

Section Values.
Context {plat : Platform}.

(** The argument as the layout reads it: its tag and the bytes of its value. *)
Definition arg_value (a : arg) : ArgumentTag * list Z :=
  (get_log_param_type_enum a,
   match a with
   | A_pointer address => le_bytes 8 address
   | A_pod _ repr => repr
   | _ => string_bytes a
   end).

(** A callback wrote as many bytes as it announced. *)
Definition exact_content (a : arg) : Prop :=
  is_type_constexpr_size a = false -> string_storage_size a = Some (zlen (string_bytes a)).

Lemma load_front (m : list Z) (off : Z) (a b : list Z) :
  load m off (zlen (a ++ b)) = Some (a ++ b) ->
  load m off (zlen a) = Some a /\ load m (off + zlen a) (zlen b) = Some b.
Proof.
  intros H. apply load_inv in H as (H0 & _ & Hl & E & _). rewrite zlen_app in *.
  pose proof (zlen_nonneg a). pose proof (zlen_nonneg b).
  rewrite <- (take_drop (Z.to_nat off) m).
  assert (exists post, drop (Z.to_nat off) m = a ++ b ++ post) as [post ->].
  { exists (drop (Z.to_nat (zlen a + zlen b)) (drop (Z.to_nat off) m)).
    rewrite app_assoc, E. by rewrite take_drop. }
  assert (off = zlen (take (Z.to_nat off) m)) as Hoff by (rewrite zlen_take; lia).
  split; [by apply load_app_at with (take (Z.to_nat off) m) (b ++ post)|].
  apply load_app_at with (take (Z.to_nat off) m ++ a) post; [by rewrite <- !app_assoc|rewrite zlen_app; lia|done].
Qed.

Lemma cell_argument (a : arg) (sz : Z) (pre cell post : list Z) :
  arg_ok a -> get_storage_data_size true a = Some sz -> exact_content a -> cell_ok a cell ->
  argument_at (pre ++ cell ++ post) (zlen pre) (arg_value a).1 (arg_value a).2 (up4 sz).
Proof.
  intros Hok Hsz Hex [Htag Hpay].
  destruct (storage_size_spec a sz Hok Hsz) as (Hu & _ & _ & Hs).
  apply (load_mid pre _ post) in Htag, Hpay. rewrite Z.add_0_r in Htag.
  assert (load_le (pre ++ cell ++ post) (zlen pre) 1 = Some (tag_code (get_log_param_type_enum a))) as Ht.
  { unfold load_le. rewrite Htag. simpl. unfold arg_tag. by rewrite le_val_cons, le_val_nil, Z.add_0_r. }
  unfold get_storage_data_size in Hsz. rewrite bool_decide_eq_false_2 in Hsz by done.
  destruct (is_type_constexpr_size a) eqn:Ec.
  - unfold get_storage_data_size_constexpr in Hsz. rewrite bool_decide_eq_false_2 in Hsz by done.
    destruct a as [|address|P repr|s|C count content|]; try done; injection Hsz as <-.
    + apply (at_fixed _ _ null_type 0 [] Ht); [done|]. change (if 0 <=? 2 then 2 else 4) with 2.
      apply load_inv in Hpay as (_ & _ & Hl & _). cbn [payload fst snd] in Hl. change (zlen []) with 0 in Hl.
      pose proof (zlen_nonneg pre). rewrite load_Some by lia. done.
    + apply (at_fixed _ _ pointer_type 8 (le_bytes 8 address) Ht); [done|exact Hpay].
    + rewrite Z.add_comm. unfold pod_prefix. destruct Hok as [Hz _]. cbn [payload fst snd] in Hpay.
      apply (at_fixed _ _ (pod_tag P) (pod_size P) repr Ht); [by apply pod_tag_value_size|].
      unfold pod_prefix in Hpay. by rewrite Hz in Hpay.
  - rewrite (Hex Ec) in Hsz. cbn [mbind option_bind] in Hsz. destruct (Z.ltb_spec (2 ^ 32 - 1) (zlen (string_bytes a))); [done|].
    apply size_add_inv in Hsz as [-> _]. rewrite up4_add8.
    destruct (string_storage_size_spec a _ Hok Hu (Hex Ec)) as (Hp1 & Hp0 & Hn0 & _).
    rewrite Hp1, Hp0 in Hpay. apply load_front in Hpay as [Hlen Hval].
    assert (zlen (le_bytes 4 (zlen (string_bytes a))) = 4) as H4 by (apply (zlen_le_bytes 4); lia).
    rewrite H4 in Hlen, Hval.
    assert ((arg_value a).2 = string_bytes a) as -> by (by destruct a).
    apply at_string; [done|by eapply string_arg_tag, (Hex Ec)| |by replace (zlen pre + 8) with (zlen pre + 4 + 4) by lia].
    rewrite (load_le_of_load _ _ _ _ Hlen), le_val_le_bytes. f_equal. apply Z.mod_small. lia.
Qed.

Lemma area_values (args : list arg) (area : list Z) :
  Forall arg_ok args -> Forall exact_content args -> area_ok args area ->
  values_at area 0 (map arg_value args).
Proof.
  intros Hok Hex (cells & -> & Hcells & Hsizes).
  assert (forall pre, values_at (pre ++ concat cells) (zlen pre) (map arg_value args)) as H.
  2:{ apply (H []). }
  induction Hcells as [|a cell args cells Hcell Hcells IH]; intros pre.
  - simpl. rewrite app_nil_r. constructor.
  - apply Forall_cons_iff in Hok as [Ha Has]. apply Forall_cons_iff in Hex as [He Hes].
    inversion Hsizes as [|? ? ? ? (sz & Hsz & Hz) Hsizes']; subst.
    cbn [map concat]. rewrite (surjective_pairing (arg_value a)).
    apply values_cons with (up4 sz); [by apply cell_argument|].
    rewrite (app_assoc pre). specialize (IH Has Hes Hsizes' (pre ++ cell)).
    rewrite zlen_app in IH. by rewrite <- Hz.
Qed.

Lemma area_size (args : list arg) (area seq : list Z) (total : Z) :
  Forall arg_ok args -> make_size_seq true args = Some seq -> get_total seq = Some total -> area_ok args area ->
  zlen area = total.
Proof.
  intros Hok Hseq Htot (cells & -> & _ & Hsizes). apply mapM_Some in Hseq. revert total cells Htot Hsizes.
  induction Hseq as [|a sz args seq Hsz Hseq IH]; intros total cells Htot Hsizes.
  - injection Htot as <-. by inversion Hsizes.
  - inversion Hsizes as [|? cell ? cells' (sz' & Hsz' & Hz) Hsizes']; subst.
    apply Forall_cons_iff in Hok as [Ha Has]. rewrite Hsz in Hsz'. injection Hsz' as <-.
    pose proof (storage_size_spec a sz Ha Hsz) as (_ & _ & _ & Hs). simpl in Htot.
    apply bind_Some in Htot as (al & Hal & Htot). apply bind_Some in Htot as (t & Ht & Htot).
    apply align4_inv in Hal as [-> _]; [|lia]. apply size_add_inv in Htot as [-> _].
    cbn [concat]. rewrite zlen_app, Hz, (IH Has t) by done. done.
Qed.

End Values.

(** ** The text in front of the message *)

Section Line.
Context {tt : TimeText}.

(** A writing step: [text] behind [t], in a buffer that stays within its bound. *)
Definition puts (l : layout) (o : option layout) (t text : list Z) : Prop :=
  exists l', o = Some l' /\ step_to l l' (t ++ text) /\ size l' <= max_size.

Lemma puts_bind (l : layout) (o : option layout) (k : layout -> option layout) (t a b : list Z) :
  puts l o t a -> (forall l1, step_to l l1 (t ++ a) -> size l1 <= max_size -> puts l1 (k l1) (t ++ a) b) ->
  puts l (o ≫= k) t (a ++ b).
Proof.
  intros (l1 & -> & H1 & S1) H. destruct (H l1 H1 S1) as (l2 & E & H2 & S2).
  exists l2. split; [done|]. rewrite <- app_assoc in H2. split; [by eapply step_trans|done].
Qed.

Lemma insert_text_puts (l : layout) (t text : list Z) :
  shows l t -> size l <= max_size -> slack (format_info_ l) <= 200 -> zlen t + zlen text + 200 <= max_size ->
  puts l (insert_str_utf8 text l) t text.
Proof.
  intros Hs Hm Hsl Hb. destruct (decide (text = [])) as [->|Hne].
  - exists l. rewrite app_nil_r. split; [done|]. split; [by apply step_refl|done].
  - destruct (insert_str_utf8_ok l t text Hs Hm Hne) as (l' & E & H & S & _); [lia|]. by exists l'.
Qed.

Lemma insert_char_puts (c : Z) (l : layout) (t : list Z) :
  shows l t -> size l <= max_size -> slack (format_info_ l) <= 200 -> zlen t + 201 <= max_size ->
  puts l (insert_char c l) t [c].
Proof.
  intros Hs Hm Hsl Hb. pose proof (slack_nonneg (format_info_ l)).
  destruct (expand_write 1 l t [c] Hs Hm) as (l' & E & H' & S & _); [lia|lia|rewrite zlen_singleton; lia|].
  by exists l'.
Qed.

Lemma kDigits3_ok (ms : Z) : 0 <= ms < 1000 -> load kDigits3 (ms * 3) 3 = Some (digits3 ms).
Proof.
  intros H. assert (forallb (fun m => bool_decide (load kDigits3 (m * 3) 3 = Some (digits3 m))) (seqZ 0 1000) = true) as Hall
    by (by vm_compute).
  rewrite forallb_forall in Hall. specialize (Hall ms).
  rewrite bool_decide_eq_true in Hall. apply Hall. apply list_elem_of_In, elem_of_seqZ. lia.
Qed.

Definition time_text (tz : time_zone) (epoch_ms : Z) : list Z :=
  time_string_cache (refresh_time_string_cache tz epoch_ms) ++ digits3 (epoch_ms mod 1000).

Lemma insert_time_ok (tz : time_zone) (epoch_ms : Z) (l : layout) (t : list Z) :
  time_zone_ok tz -> shows l t -> size l <= max_size -> slack (format_info_ l) <= 200 -> zlen t + 400 <= max_size ->
  exists l', insert_time tz epoch_ms l = Some (refresh_time_string_cache tz epoch_ms, l') /\
    step_to l l' (t ++ time_text tz epoch_ms) /\ size l' <= max_size.
Proof.
  intros Htz Hs Hm Hsl Hb. unfold insert_time, time_text. pose proof (slack_nonneg (format_info_ l)).
  set (tz' := refresh_time_string_cache tz epoch_ms).
  assert (zlen (time_string_cache tz') <= 128) as Hc by (by apply time_string_len, time_refresh_ok). change (128 + 3) with 131.
  destruct (expand_by_ok 131 l t Hs Hm) as (H1 & S1 & R1); [lia|lia|].
  destruct (write_text_ok (expand_by 131 l) t (time_string_cache tz')) as (l2 & -> & H2 & S2);
    [apply (to_shows _ _ _ H1)|lia|lia|]. cbn [mbind option_bind].
  rewrite kDigits3_ok by (apply Z.mod_pos_bound; lia). cbn [mbind option_bind].
  destruct (write_text_ok l2 (t ++ time_string_cache tz') (digits3 (epoch_ms mod 1000))) as (l3 & -> & H3 & S3);
    [apply (to_shows _ _ _ H2)|lia|rewrite zlen_app; change (zlen (digits3 _)) with 3; lia|].
  exists l3. split; [done|]. rewrite <- app_assoc in H3. split; [|lia].
  eapply step_trans; [exact H1|]. by eapply step_trans.
Qed.

(** The thread, from the cache or as the record names it. *)
Definition thread_part (names : gmap Z (list Z)) (tid : Z) (name : list Z) : option (list Z) :=
  match names !! tid with Some text => Some text | None => thread_text tid name end.

Definition remember (names : gmap Z (list Z)) (tid : Z) (text : list Z) : gmap Z (list Z) :=
  match names !! tid with Some _ => names | None => <[tid := text]> names end.

Lemma insert_thread_info_ok (data : list Z) (h : RecordHeader) (name text : list Z) (l : layout) (t : list Z) :
  get_thread_name data h = Some name -> thread_part (thread_names_cache_ l) (log_thread_id h) name = Some text ->
  shows l t -> size l <= max_size -> slack (format_info_ l) <= 200 -> zlen t + zlen text + 200 <= max_size ->
  exists l', insert_thread_info data h l = Some l' /\ shows l' (t ++ text) /\ size l' <= max_size /\
    format_info_ l' = format_info_ l /\
    thread_names_cache_ l' = remember (thread_names_cache_ l) (log_thread_id h) text.
Proof.
  intros Hn Ht Hs Hm Hsl Hb. unfold insert_thread_info, thread_part, remember in *.
  set (names := thread_names_cache_ l) in *. set (tid := log_thread_id h) in *.
  set (l1 := set_names (match names !! tid with Some _ => names | None => <[tid := text]> names end) l).
  assert ((match names !! tid with Some _ => Some l | None =>
             name ← get_thread_name data h; text ← thread_text tid name; Some (set_names (<[tid := text]> names) l)
           end) = Some l1) as ->.
  { unfold l1. destruct (names !! tid); [by destruct l|]. rewrite Hn. cbn [mbind option_bind]. by rewrite Ht. }
  cbn [mbind option_bind].
  assert (thread_names_cache_ l1 !! tid = Some text) as ->.
  { unfold l1. simpl. destruct (names !! tid) eqn:E; [by rewrite E|apply lookup_insert_eq]. }
  cbn [mbind option_bind]. assert (shows l1 t) as Hs1 by done. pose proof (slack_nonneg (format_info_ l)).
  destruct (Z.eqb_spec (zlen text) 0) as [Hz|Hz]; cbn [negb].
  - exists l1. split; [done|]. assert (text = []) as Htx by (destruct text; [done|rewrite zlen_cons in Hz; pose proof (zlen_nonneg text); lia]).
    rewrite Htx, app_nil_r. split; [done|]. split; [done|]. split; [done|]. by rewrite <- Htx.
  - destruct (expand_write (zlen text) l1 t text Hs1 Hm (zlen_nonneg _)) as (l' & E & H' & S & _); [simpl; lia|simpl; lia|].
    exists l'. split; [done|]. destruct H' as [A B C _]. split; [done|]. split; [done|]. split; [by rewrite B|by rewrite C].
Qed.

(** The level and the category in front of the message. *)
Definition category_text (name : list Z) : list Z :=
  if zlen name =? 0 then [] else 91 :: name ++ [93; 9].

Definition head_text (tz : time_zone) (epoch_ms : Z) (thread level_str category : list Z) : list Z :=
  time_text tz epoch_ms ++ thread ++ level_str ++ [9] ++ category_text category.

Lemma category_puts (name : list Z) (l : layout) (t : list Z) :
  shows l t -> size l <= max_size -> slack (format_info_ l) <= 200 -> zlen t + zlen name + 210 <= max_size ->
  puts l (if negb (zlen name =? 0) then
            l ← insert_char 91 l; l ← insert_str_utf8 name l; insert_str_utf8 [93; 9] l
          else Some l) t (category_text name).
Proof.
  intros Hs Hm Hsl Hb. unfold category_text. pose proof (zlen_nonneg name). destruct (zlen name =? 0); cbn [negb].
  { exists l. rewrite app_nil_r. split; [done|]. split; [by apply step_refl|done]. }
  apply (puts_bind _ _ _ _ [91]); [apply insert_char_puts; done || lia|]. intros l1 H1 S1.
  assert (slack (format_info_ l1) <= 200) as Hsl1 by (by rewrite (to_info _ _ _ H1)).
  apply puts_bind; [apply insert_text_puts; try done; [apply (to_shows _ _ _ H1)|rewrite zlen_app, zlen_singleton; lia]|].
  intros l2 H2 S2. apply insert_text_puts; [apply (to_shows _ _ _ H2)|done|by rewrite (to_info _ _ _ H2)|].
  rewrite !zlen_app, zlen_singleton. change (zlen [93; 9]) with 2. lia.
Qed.

(** The layout between two records. *)
Record layout_ok (l : layout) : Prop := {
  lay_size : size l <= max_size;
  lay_slack : slack (format_info_ l) <= 200 }.

(** What the prefix leaves: [finished] with the whole prefix shown, or [parse_error] when the
    level or the category is unknown. *)
Definition prefix_result (h : RecordHeader) (tz : time_zone) (categories : list (list Z)) (thread : list Z)
    (result : enum_layout_result) (l' : layout) (t : list Z) : Prop :=
  match kLevelText !! Z.to_nat (level h), categories !! Z.to_nat (category_idx h) with
  | Some level_str, Some category =>
      result = finished /\ shows l' (t ++ head_text tz (timestamp_epoch h) thread level_str category)
  | _, _ => result = parse_error
  end.

Definition category_of (h : RecordHeader) (categories : list (list Z)) : list Z :=
  default [] (categories !! Z.to_nat (category_idx h)).

Lemma level_text_short (i : nat) (level_str : list Z) : kLevelText !! i = Some level_str -> zlen level_str = 3.
Proof. intros H. do 6 (destruct i as [|i]; [by injection H as <-|]). done. Qed.

Lemma layout_prefix_ok (data : list Z) (h : RecordHeader) (tz : time_zone) (categories : list (list Z))
    (name thread : list Z) (l : layout) (t : list Z) :
  time_zone_ok tz -> get_thread_name data h = Some name -> thread_part (thread_names_cache_ l) (log_thread_id h) name = Some thread ->
  shows l t -> layout_ok l -> zlen t + zlen thread + zlen (category_of h categories) + 1000 <= max_size ->
  exists result l',
    layout_prefix data h tz categories l =
      Some (result, refresh_time_string_cache tz (timestamp_epoch h), l') /\
    layout_ok l' /\ thread_names_cache_ l' = remember (thread_names_cache_ l) (log_thread_id h) thread /\
    prefix_result h tz categories thread result l' t.
Proof.
  intros Htz Hn Ht Hs [Hm Hsl] Hb. unfold layout_prefix, prefix_result, category_of in *. set (epoch := timestamp_epoch h).
  assert (zlen (time_text tz epoch) <= 131) as Htt.
  { unfold time_text. rewrite zlen_app. change (zlen (digits3 _)) with 3.
    pose proof (time_string_len _ (time_refresh_ok tz epoch Htz)). lia. }
  pose proof (zlen_nonneg thread). pose proof (zlen_nonneg (time_text tz epoch)).
  pose proof (zlen_nonneg (default [] (categories !! Z.to_nat (category_idx h)))).
  destruct (insert_time_ok tz epoch l t Htz Hs Hm Hsl ltac:(lia)) as (l1 & -> & Ha & S1). cbn [mbind option_bind].
  assert (slack (format_info_ l1) <= 200) as Hsl1 by (by rewrite (to_info _ _ _ Ha)).
  destruct (insert_thread_info_ok data h name thread l1 (t ++ time_text tz epoch)) as (l2 & -> & Hb2 & S2 & I2 & N2);
    [done|by rewrite (to_names _ _ _ Ha)|apply (to_shows _ _ _ Ha)|done|done|rewrite zlen_app; lia|].
  cbn [mbind option_bind]. rewrite (to_names _ _ _ Ha) in N2. rewrite <- I2 in Hsl1.
  destruct (kLevelText !! Z.to_nat (level h)) as [level_str|] eqn:El; [|by exists parse_error, l2].
  apply level_text_short in El. set (tz' := refresh_time_string_cache tz epoch).
  destruct (insert_text_puts l2 ((t ++ time_text tz epoch) ++ thread) level_str) as (l3 & -> & Hc & S3);
    [done..|rewrite !zlen_app; lia|]. cbn [mbind option_bind].
  rewrite <- (to_info _ _ _ Hc) in Hsl1.
  destruct (insert_char_puts 9 l3 (((t ++ time_text tz epoch) ++ thread) ++ level_str)) as (l4 & -> & Hh4 & S4);
    [apply (to_shows _ _ _ Hc)|done|done|rewrite !zlen_app; lia|]. cbn [mbind option_bind].
  rewrite <- (to_info _ _ _ Hh4) in Hsl1. rewrite <- (to_names _ _ _ Hc), <- (to_names _ _ _ Hh4) in N2.
  destruct (categories !! Z.to_nat (category_idx h)) as [category|] eqn:Ecat; [|by exists parse_error, l4].
  simpl in Hb.
  destruct (category_puts category l4 ((((t ++ time_text tz epoch) ++ thread) ++ level_str) ++ [9]))
    as (l5 & E5 & Hd & S5); [apply (to_shows _ _ _ Hh4)|done|done|rewrite !zlen_app, zlen_singleton; lia|].
  exists finished, l5. split; [|split; [split; [done|by rewrite (to_info _ _ _ Hd)]|split]].
  - destruct (negb _); [|by injection E5 as ->].
    destruct (insert_char 91 l4) as [l6|]; [|done]. cbn [mbind option_bind] in E5 |- *.
    destruct (insert_str_utf8 category l6) as [l7|]; [|done]. cbn [mbind option_bind] in E5 |- *. by rewrite E5.
  - by rewrite (to_names _ _ _ Hd).
  - split; [done|]. pose proof (to_shows _ _ _ Hd) as Hf. unfold head_text. by rewrite <- !app_assoc in Hf.
Qed.

(** ** The whole line *)

Lemma layout_start (l : layout) :
  layout_ok l ->
  let l0 := expand_format_content_buff_size 1024 (set_cursor 0 l) in
  shows l0 [] /\ layout_ok l0 /\ thread_names_cache_ l0 = thread_names_cache_ l.
Proof.
  intros [Hm Hsl] l0. assert (shows (set_cursor 0 l) []) as Hs by (by exists (format_content_ l)).
  assert (l0 = expand_by 1024 (set_cursor 0 l)) as -> by done.
  destruct (expand_by_ok 1024 (set_cursor 0 l) [] Hs) as (He & S & _); [done|lia| |].
  { simpl. change (zlen []) with 0. unfold max_size. lia. }
  split; [apply (to_shows _ _ _ He)|]. split; [split; [done|by rewrite (to_info _ _ _ He)]|].
  apply (to_names _ _ _ He).
Qed.

(** The terminating zero behind the message. *)
Lemma terminate_ok (l : layout) (t : list Z) :
  shows l t -> layout_ok l -> zlen t + 201 <= max_size ->
  exists l',
    (let l := expand_by 1 l in
     c ← store (format_content_ l) (format_content_cursor_ l) [0];
     let l := set_content c l in
     if format_content_cursor_ l <? zlen (format_content_ l) then Some l else None) = Some l' /\
    shows l' t /\ layout_ok l' /\ thread_names_cache_ l' = thread_names_cache_ l.
Proof.
  intros Hs [Hm Hsl] Hb. pose proof (slack_nonneg (format_info_ l)).
  destruct (expand_by_ok 1 l t Hs Hm) as (He & S & R); [lia|lia|]. cbv zeta.
  set (l1 := expand_by 1 l) in *. destruct (to_shows _ _ _ He) as (junk & E & Ec). unfold size in *.
  rewrite E, zlen_app in S, R. destruct junk as [|x junk].
  { change (zlen []) with 0 in *. lia. }
  rewrite Ec, E, (store_app_at _ t [x] [0] junk) by (done || by list_assoc). cbn [mbind option_bind].
  simpl format_content_cursor_. rewrite Ec. cbn [set_content format_content_].
  rewrite zlen_app. change ([0] ++ junk) with (0 :: junk). rewrite zlen_cons. pose proof (zlen_nonneg junk).
  rewrite (proj2 (Z.ltb_lt _ _)) by lia. eexists. split; [done|]. split; [|split].
  - exists (0 :: junk). by split.
  - split; [|by rewrite <- (to_info _ _ _ He) in Hsl].
    unfold size. simpl. rewrite zlen_app, zlen_cons. rewrite zlen_cons in S. lia.
  - apply (to_names _ _ _ He).
Qed.

Section Record.
Context (data : list Z) (h : RecordHeader) (tz : time_zone) (categories : list (list Z)).
Context (name thread : list Z) (l : layout).
Context (Hheader : read_header data = Some h) (Hname : get_thread_name data h = Some name).
Context (Hthread : thread_part (thread_names_cache_ l) (log_thread_id h) name = Some thread).
Context (Hl : layout_ok l) (Htz : time_zone_ok tz).

Lemma do_layout_error :
  kLevelText !! Z.to_nat (level h) = None \/ categories !! Z.to_nat (category_idx h) = None ->
  zlen thread + zlen (category_of h categories) + 1000 <= max_size ->
  exists l', do_layout data tz categories l =
      Some (parse_error, refresh_time_string_cache tz (timestamp_epoch h), l') /\
    layout_ok l' /\ thread_names_cache_ l' = remember (thread_names_cache_ l) (log_thread_id h) thread.
Proof.
  intros Hu Hb. unfold do_layout. rewrite Hheader. cbn [mbind option_bind].
  destruct (layout_start l Hl) as (Hs0 & Hl0 & Hn0). set (l0 := expand_format_content_buff_size _ _) in *.
  destruct (layout_prefix_ok data h tz categories name thread l0 []) as (result & l' & -> & Hl' & Hn' & Hr);
    [done|done|by rewrite Hn0|done|done|change (zlen []) with 0; lia|]. cbn [mbind option_bind].
  assert (result = parse_error) as ->.
  { unfold prefix_result in Hr. destruct (kLevelText !! _); [|done]. destruct (categories !! _); [|done].
    by destruct Hu. }
  exists l'. by rewrite Hn', Hn0.
Qed.

Lemma do_layout_ok (fmt args : list Z) (vals : list (ArgumentTag * list Z)) (level_str category text : list Z) :
  kLevelText !! Z.to_nat (level h) = Some level_str -> categories !! Z.to_nat (category_idx h) = Some category ->
  log_format_str_type h = tag_code string_utf8_type ->
  get_format_string_data data h = Some fmt -> get_log_args_data data h = Some args ->
  Forall is_byte fmt -> bytes_ok args -> zlen args < 2 ^ 30 -> values_at args 0 vals ->
  format_text fmt vals = Some text ->
  zlen thread + zlen category + zlen text + zlen fmt + 2 * zlen args + 2 ^ 23 <= max_size ->
  let line := head_text tz (timestamp_epoch h) thread level_str category ++ text in
  exists l', do_layout data tz categories l =
      Some (finished, refresh_time_string_cache tz (timestamp_epoch h), l') /\
    formated_str l' = Some line /\ layout_ok l' /\
    thread_names_cache_ l' = remember (thread_names_cache_ l) (log_thread_id h) thread.
Proof.
  intros Hlv Hcat Hty Hfmt Hargs Hfb Hab Has Hv Ht Hb line. unfold do_layout. rewrite Hheader. cbn [mbind option_bind].
  pose proof (zlen_nonneg fmt). pose proof (zlen_nonneg args). pose proof (zlen_nonneg text).
  pose proof (zlen_nonneg thread). pose proof (zlen_nonneg category).
  destruct (layout_start l Hl) as (Hs0 & Hl0 & Hn0). set (l0 := expand_format_content_buff_size _ _) in *.
  destruct (layout_prefix_ok data h tz categories name thread l0 []) as (result & l1 & -> & Hl1 & Hn1 & Hr);
    [done|done|by rewrite Hn0|done|done|unfold category_of; rewrite Hcat; simpl; change (zlen []) with 0; lia|].
  unfold prefix_result in Hr. rewrite Hlv, Hcat in Hr. destruct Hr as [-> Hs1]. cbn [mbind option_bind].
  rewrite Hfmt, Hargs. cbn [mbind option_bind]. unfold python_style_format_content.
  rewrite Hty, Z.eqb_refl. simpl app in Hs1. set (head := head_text _ _ _ _ _) in *.
  assert (zlen head <= zlen thread + zlen category + 200) as Hhead.
  { unfold head, head_text, time_text, category_text. rewrite !zlen_app. apply level_text_short in Hlv.
    pose proof (time_string_len _ (time_refresh_ok tz (timestamp_epoch h) Htz)). change (zlen (digits3 _)) with 3. rewrite zlen_singleton.
    destruct (_ =? 0); [change (zlen []) with 0; lia|]. rewrite zlen_cons, zlen_app. change (zlen [93; 9]) with 2. lia. }
  destruct Hl1 as [Hm1 Hsl1].
  destruct (format_content_utf8_ok fmt args vals l1 head text) as (l2 & -> & Hturn); try done; [lia|].
  cbn [mbind option_bind]. destruct Hturn as [Hs2 Hn2 Hm2 _ Hsl2].
  assert (zlen (head ++ text) + 201 <= max_size) as Hz by (rewrite zlen_app; lia).
  destruct (terminate_ok l2 _ Hs2) as (l3 & E & Hs3 & Hl3 & Hn3); [by split|done|].
  cbv zeta in E |- *. rewrite E. cbn [mbind option_bind]. exists l3. split; [done|]. split; [|split; [done|by rewrite Hn3, Hn2, Hn1, Hn0]].
  unfold formated_str. destruct Hs3 as (junk & -> & ->). by apply (load_app_at _ [] (head ++ text) junk).
Qed.

End Record.

(** ** The state between two records *)

Definition names_ok (names : gmap Z (list Z)) : Prop := map_Forall (fun _ text => zlen text < 256) names.

Record layout_inv (l : layout) : Prop := {
  inv_layout : layout_ok l;
  inv_names : names_ok (thread_names_cache_ l) }.

Lemma zlen_until_zero (s : list Z) : zlen (until_zero s) <= zlen s.
Proof.
  induction s as [|c s IH]; [done|]. simpl. destruct (c =? 0); rewrite !zlen_cons;
    [change (zlen []) with 0; pose proof (zlen_nonneg s); lia|lia].
Qed.

Lemma thread_part_ok (names : gmap Z (list Z)) (tid : Z) (name : list Z) :
  names_ok names -> zlen name <= 200 ->
  exists text, thread_part names tid name = Some text /\ zlen text < 256 /\ names_ok (remember names tid text).
Proof.
  intros Hn Hz. unfold thread_part, remember. destruct (names !! tid) as [text|] eqn:E.
  { exists text. split; [done|]. split; [by apply (Hn tid)|done]. }
  unfold thread_text. pose proof (number_text_room 20 false 10 tid ltac:(lia)).
  set (tmp := text_tid ++ _). assert (zlen tmp < 256) as Ht.
  { unfold tmp. rewrite !zlen_app, zlen_singleton. change (zlen text_tid) with 5. change (zlen [93; 9]) with 2. lia. }
  rewrite (proj2 (Z.ltb_lt _ _)) by done. pose proof (zlen_until_zero tmp).
  exists (until_zero tmp). split; [done|]. split; [lia|].
  apply map_Forall_insert; [done|]. split; [lia|done].
Qed.

Lemma new_layout_inv : layout_inv new_layout.
Proof. split; [split; [done|by vm_compute]|]. apply map_Forall_empty. Qed.

End Line.

(** ** Theorems *)

(** C4. What a log call writes is what the layout shows: the record of a successful call with
    a UTF-8 format string is laid out, from any state that the layout reaches, as the time,
    thread, level and category followed by the text of the format string with the arguments
    of the call; the layout is ready for the next record. *)
Theorem log_line {plat : Platform} {Ops : CrcOps} {tt : TimeText} (tls : thread_info) (mode : log_thread_mode)
    (epoch category lvl : Z) (stack : option (list Z)) (format : arg) (args : list arg)
    (n : Z) (seq : list Z) (total_args : Z) (answers : list alloc_answer) (chunk : list Z)
    (evs : list event) (tz : time_zone) (categories : list (list Z)) (l : layout)
    (level_str category_name text : list Z) :
  log_call_ok tls epoch category lvl stack format args n seq total_args ->
  alloc_chunk mode (record_size tls stack n total_args) answers = Some ((success, chunk), evs) ->
  zlen chunk = record_size tls stack n total_args -> bytes_ok chunk ->
  get_log_param_type_enum format = string_utf8_type -> Forall exact_content args ->
  kLevelText !! Z.to_nat lvl = Some level_str -> categories !! Z.to_nat category = Some category_name ->
  format_text (string_bytes format ++ default [] stack) (map arg_value args) = Some text ->
  zlen category_name + zlen text + 2 * record_size tls stack n total_args + 2 ^ 24 <= 2 ^ 31 ->
  time_zone_ok tz -> layout_inv l ->
  exists rec thread tz' l',
    do_log tls mode answers true epoch category lvl stack format args =
      Some (true, Some rec, evs ++ finish_events mode success) /\
    thread_part (thread_names_cache_ l) (thread_id tls) (thread_name tls) = Some thread /\
    do_layout rec tz categories l = Some (finished, tz', l') /\
    formated_str l' = Some (head_text tz epoch thread level_str category_name ++ text) /\
    time_zone_ok tz' /\ layout_inv l'.
Proof.
  intros Hcall Halloc Hz Hok Hty Hex Hlv Hcat Htext Hb Htz [Hl Hnames].
  destruct (do_log_record tls mode _ _ _ _ _ _ _ _ _ _ _ _ Hcall Halloc Hz Hok)
    as (rec & h & area & Hlog & _ & Hh & He & Hc & Hlvl & Hid & Hf & Hfmt & Hargs & Harea & Hname & Hrok).
  destruct (call_sizes _ _ _ _ _ _ _ _ _ _ Hcall) as (Hn0 & Ht0 & _ & _ & Hup & Hnl & _).
  destruct Hcall as [_ _ _ _ _ _ _ [_ Hfn] Ha Hseq Htot _].
  destruct (thread_part_ok (thread_names_cache_ l) (thread_id tls) (thread_name tls) Hnames ltac:(lia))
    as (thread & Hthread & Hthl & Hrem).
  assert (zlen area = total_args) as Hza by (by eapply area_size).
  assert (zlen (string_bytes format ++ default [] stack) = n + zlen (default [] stack)) as Hzf
    by (rewrite zlen_app; lia).
  unfold record_size, header_size, ext_header_size in Hb. pose proof (zlen_nonneg text). pose proof (zlen_nonneg category_name).
  pose proof (zlen_nonneg (default [] stack)).
  rewrite <- Hid in Hthread.
  destruct (do_layout_ok rec h tz categories (thread_name tls) thread l Hh Hname Hthread Hl Htz
    (string_bytes format ++ default [] stack) area (map arg_value args) level_str category_name text)
    as (l' & Hlay & Hstr & Hl' & Hn'); try done.
  - by rewrite Hlvl.
  - by rewrite Hc.
  - by rewrite Hf, Hty.
  - by eapply load_bytes_ok.
  - by eapply load_bytes_ok.
  - lia.
  - by apply area_values.
  - rewrite Hzf, Hza. unfold max_size. lia.
  - rewrite He in *. rewrite <- Hid in Hrem. eexists rec, thread, _, l'. split_and!; try done.
    + by rewrite <- Hid.
    + by apply time_refresh_ok.
    + split; [done|]. by rewrite Hn'.
Qed.

(** C27. A record with an unknown level or category is rejected as a parse error; the layout is
    ready for the next record. *)
Theorem layout_rejects {tt : TimeText} (data : list Z) (h : RecordHeader) (name : list Z) (tz : time_zone)
    (categories : list (list Z)) (l : layout) :
  read_header data = Some h -> get_thread_name data h = Some name -> zlen name <= 200 ->
  6 <= level h \/ zlen categories <= category_idx h -> Forall (fun c => zlen c < 2 ^ 30) categories ->
  time_zone_ok tz -> layout_inv l ->
  exists tz' l', do_layout data tz categories l = Some (parse_error, tz', l') /\ time_zone_ok tz' /\ layout_inv l'.
Proof.
  intros Hh Hn Hz Hu Hcs Htz [Hl Hnames].
  destruct (thread_part_ok (thread_names_cache_ l) (log_thread_id h) name Hnames Hz) as (thread & Hthread & Hthl & Hrem).
  assert (zlen (category_of h categories) < 2 ^ 30) as Hc.
  { unfold category_of. destruct (categories !! _) eqn:E; [by eapply (Forall_lookup_1 _ _ _ _ Hcs)|done]. }
  destruct (do_layout_error data h tz categories name thread l Hh Hn Hthread Hl Htz) as (l' & E & Hl' & Hn').
  - destruct Hu as [Hu|Hu]; [left|right]; apply lookup_ge_None.
    + simpl. lia.
    + unfold zlen in Hu. lia.
  - unfold max_size. lia.
  - eexists _, l'. split; [exact E|]. split; [by apply time_refresh_ok|]. split; [done|]. by rewrite Hn'.
Qed.

(** C5. The format loop implements [format_text]: behind whatever is shown already it writes
    exactly the text of the format string with its arguments, inside the buffer, from any
    state of the field format, and leaves the rest of the layout as it was. *)
Theorem format_utf8_refines (fmt args : list Z) (vals : list (ArgumentTag * list Z)) (l : layout) (t text : list Z) :
  Forall is_byte fmt -> bytes_ok args -> values_at args 0 vals -> format_text fmt vals = Some text ->
  shows l t -> layout_ok l -> zlen t + zlen text + zlen fmt + 2 * zlen args + 2 ^ 22 <= 2 ^ 31 ->
  exists l', python_style_format_content_utf8 fmt args l = Some l' /\ shows l' (t ++ text) /\ layout_ok l' /\
    thread_names_cache_ l' = thread_names_cache_ l.
Proof.
  intros Hfb Hok Hv Ht Hs [Hm Hsl] Hb. pose proof (zlen_nonneg t). pose proof (zlen_nonneg text).
  pose proof (zlen_nonneg fmt).
  destruct (format_content_utf8_ok fmt args vals l t text) as (l' & E & []); try done; [lia|].
  by exists l'.
Qed.

(** ** Integers *)

Definition int_value (text : list Z) : Z :=
  match text with
  | c :: digits => if c =? 45 then - text_value 10 digits else text_value 10 text
  | [] => 0
  end.

(** The cell of a 64-bit integer, and the format ["{}"]. *)
Definition int64_cell (n : Z) : list Z := [tag_code int64_type; 0; 0; 0] ++ le_bytes 8 n.
Definition braces : list Z := [123; 125].
Definition plain_info : FormatInfo := mk_info true true 32 62 45 32 0 0 uint32_max 32.

Lemma int64_cell_value (n : Z) :
  values_at (int64_cell n) 0 [(int64_type, le_bytes 8 n)].
Proof.
  assert (zlen (int64_cell n) = 12) as Hz by done.
  apply values_cons with 12; [|rewrite <- Hz; constructor].
  apply (at_fixed _ 0 int64_type 8 (le_bytes 8 n)); [done|done|].
  by apply (load_app_at _ [tag_code int64_type; 0; 0; 0] (le_bytes 8 n) []); rewrite ?app_nil_r.
Qed.

Lemma digit_char_range (d : Z) : 0 <= d < 10 -> 48 <= digit_char false d <= 57.
Proof. intros H. unfold digit_char. rewrite (proj2 (Z.ltb_lt _ _)) by lia. lia. Qed.

Lemma number_text_first (fuel : nat) (n : Z) :
  0 <= n -> exists c digits, number_text (S fuel) false 10 n = c :: digits /\ 48 <= c <= 57.
Proof.
  revert n. induction fuel as [|fuel IH]; intros n Hn.
  - eexists _, []. split; [by cbn; destruct (n <? 10)|]. apply digit_char_range, Z.mod_pos_bound. lia.
  - change (number_text (S (S fuel)) false 10 n) with
      ((if n <? 10 then [] else number_text (S fuel) false 10 (n / 10)) ++ [digit_char false (n mod 10)]).
    destruct (n <? 10).
    + eexists _, []. split; [done|]. apply digit_char_range, Z.mod_pos_bound. lia.
    + destruct (IH (n / 10)) as (c & digits & E & H); [apply Z.div_pos; lia|]. rewrite E.
      by exists c, (digits ++ [digit_char false (n mod 10)]).
Qed.

Lemma plain_int_text (n : Z) :
  - 2 ^ 63 <= n < 2 ^ 63 ->
  exists text, field_text plain_info int64_type (le_bytes 8 n) = Some text /\ int_value text = n /\ zlen text <= 20.
Proof.
  intros Hn. set (text := (if n <? 0 then [45] else []) ++ number_text 20 false 10 (Z.abs n)).
  assert (2 ^ 63 < 10 ^ 19) as Hbig by done.
  assert (zlen (number_text 20 false 10 (Z.abs n)) <= 19) as Hlen.
  { destruct (number_text_digits 20 false 10 (Z.abs n)) as (H1 & _ & H3); [lia|split; [lia|]|done|].
    - change (Z.of_nat 20) with 20. assert (10 ^ 19 < 10 ^ 20) by done. lia.
    - destruct H3 as [H3|H3]; [lia|]. set (k := zlen _) in *.
      destruct (Z.le_gt_cases k 19); [done|]. assert (10 ^ 19 <= 10 ^ (k - 1)) by (apply Z.pow_le_mono_r; lia). lia. }
  assert (zlen text <= 20) as Hz.
  { unfold text. rewrite zlen_app. destruct (n <? 0); [rewrite zlen_singleton|change (zlen []) with 0]; lia. }
  exists text. split; [|split; [|done]].
  - unfold field_text, argument_text. rewrite le_val_le_bytes. change (2 ^ (8 * Z.of_nat 8)) with (2 ^ 64).
    assert (to_signed 64 (n mod 256 ^ Z.of_nat 8) = n) as ->.
    { change (256 ^ Z.of_nat 8) with (2 ^ 64). unfold to_signed. rewrite Z.mod_mod by lia.
      destruct (Z.lt_ge_cases n 0).
      - replace (n mod 2 ^ 64) with (n + 2 ^ 64).
        2:{ symmetry. rewrite <- (Z_mod_plus_full n 1). apply Z.mod_small. lia. }
        rewrite (proj2 (Z.ltb_ge _ _)) by lia. lia.
      - rewrite Z.mod_small by lia. by rewrite (proj2 (Z.ltb_lt _ _)) by lia. }
    cbn [mbind option_bind]. assert (signed_text plain_info 10 n = text) as -> by done.
    rewrite decide_False by (by intros [? _]).
    change (base_room plain_info 10 + slack plain_info) with 20. change (fi_width plain_info) with 0.
    pose proof (zlen_nonneg text). rewrite (proj2 (Z.leb_le _ 20)) by lia.
    unfold pad_ok, pad_text. change (fi_width plain_info) with 0. by rewrite (proj2 (Z.ltb_ge _ _)) by lia.
  - assert (text_value 10 (number_text 20 false 10 (Z.abs n)) = Z.abs n) as Hv.
    { apply number_text_value; [lia|]. change (Z.of_nat 20) with 20. assert (10 ^ 19 < 10 ^ 20) by done. lia. }
    destruct (number_text_first 19 (Z.abs n)) as (c & digits & E & Hc); [lia|].
    unfold text. rewrite E in *. unfold int_value. destruct (Z.ltb_spec n 0); cbn [app].
    + rewrite Z.eqb_refl, Hv. lia.
    + rewrite (proj2 (Z.eqb_neq c 45)), Hv by lia. lia.
Qed.

(** C26. A 64-bit integer that the format ["{}"] writes behind a text is read back from it. *)
Theorem format_int_roundtrip (n : Z) (l : layout) (t : list Z) :
  - 2 ^ 63 <= n < 2 ^ 63 -> shows l t -> layout_ok l -> zlen t <= 2 ^ 30 ->
  exists l' text, python_style_format_content_utf8 braces (int64_cell n) l = Some l' /\
    shows l' (t ++ text) /\ int_value text = n.
Proof.
  intros Hn Hs [Hm Hsl] Hb. destruct (plain_int_text n Hn) as (text & Hf & Hv & Hz).
  destruct (format_content_utf8_ok braces (int64_cell n) [(int64_type, le_bytes 8 n)] l t text) as (l' & E & []);
    try done.
  - unfold braces. solve_literal.
  - apply Forall_app. split; [solve_literal|apply le_bytes_ok].
  - apply int64_cell_value.
  - unfold format_text, braces. cbn [render]. change (c20_format [125] (0 + 1)) with (Some plain_info).
    change (123 =? 125) with false. change (123 =? 123) with true. cbv iota.
    change (scan_spec 20 [125]) with (0, true). cbv iota beta. change (c20_format [125] (0 + 1)) with (Some plain_info).
    cbn [mbind option_bind]. rewrite Hf. cbn [mbind option_bind].
    change (render (Z.to_nat (0 + 1)) [125] []) with (Some (@nil Z)). simpl. f_equal. apply app_nil_r.
  - change (zlen braces) with 2. change (zlen (int64_cell n)) with 12. unfold max_size. lia.
  - by exists l', text.
Qed.

(** ** A call and its line *)

Definition sample_zone : TimeZone := parse_by_string (plat := sample_platform) text_utc.
Abbreviation sample_time_text := (TimeZoneText (plat := sample_platform)).

Lemma sample_zone_ok : @time_zone_ok sample_time_text sample_zone.
Proof. apply (parse_cache_ok (plat := sample_platform)). Qed.

Lemma log_line_witness :
  exists rec thread (tz' : @time_zone sample_time_text) l',
    do_log sample_tls async [granted] true 1000 0 2 None sample_format sample_args =
      Some (true, Some rec, [E_alloc 54] ++ finish_events async success) /\
    thread_part (thread_names_cache_ new_layout) (thread_id sample_tls) (thread_name sample_tls) = Some thread /\
    do_layout (tt := sample_time_text) rec sample_zone [[97]] new_layout = Some (finished, tz', l') /\
    formated_str l' =
      Some (head_text (tt := sample_time_text) sample_zone 1000 thread [91; 73; 93] [97] ++
            [104; 105; 32; 84; 82; 85; 69]) /\
    time_zone_ok tz' /\ layout_inv l'.
Proof.
  apply (log_line (tt := sample_time_text) sample_tls async 1000 0 2 None sample_format sample_args 5 [3] 4
    [granted] (replicate 54 170) [E_alloc 54] sample_zone [[97]] new_layout [91; 73; 93] [97]
    [104; 105; 32; 84; 82; 85; 69]);
    [apply sample_call|reflexivity|reflexivity|apply granted_bytes|reflexivity| |reflexivity|reflexivity
    |reflexivity|by vm_compute|apply sample_zone_ok|apply new_layout_inv].
  constructor; [intros [=]|constructor].
Defined.

Lemma layout_rejects_witness :
  exists (tz' : @time_zone sample_time_text) l',
    do_layout (tt := sample_time_text) sample_record sample_zone [] new_layout = Some (parse_error, tz', l') /\
    time_zone_ok tz' /\ layout_inv l'.
Proof.
  eapply (layout_rejects (tt := sample_time_text) sample_record _ [84] sample_zone [] new_layout);
    [reflexivity|reflexivity|by vm_compute|right; by vm_compute|constructor|apply sample_zone_ok|apply new_layout_inv].
Defined.

Definition sample_layout : layout := mk_layout (replicate 16 0) 0 info_init ∅.

Lemma sample_layout_ok : layout_ok sample_layout.
Proof. split; by vm_compute. Qed.

Lemma sample_layout_shows : shows sample_layout [].
Proof. by exists (replicate 16 0). Qed.

Lemma int64_cell_ok (n : Z) : bytes_ok (int64_cell n).
Proof. apply Forall_app. split; [solve_literal|apply le_bytes_ok]. Qed.

Lemma format_utf8_refines_witness :
  exists l', python_style_format_content_utf8 [58; 123; 58; 43; 53; 125] (int64_cell 42) sample_layout = Some l' /\
    shows l' ([] ++ [58; 32; 32; 43; 52; 50]) /\ layout_ok l' /\
    thread_names_cache_ l' = thread_names_cache_ sample_layout.
Proof.
  apply (format_utf8_refines [58; 123; 58; 43; 53; 125] (int64_cell 42) [(int64_type, le_bytes 8 42)] sample_layout
    [] [58; 32; 32; 43; 52; 50]);
    [solve_literal|apply int64_cell_ok|apply int64_cell_value|by vm_compute|apply sample_layout_shows
    |apply sample_layout_ok|by vm_compute].
Defined.

Lemma format_int_roundtrip_witness :
  exists l' text, python_style_format_content_utf8 braces (int64_cell (-7)) sample_layout = Some l' /\
    shows l' ([] ++ text) /\ int_value text = -7.
Proof.
  apply (format_int_roundtrip (-7) sample_layout []);
    [lia|apply sample_layout_shows|apply sample_layout_ok|by vm_compute].
Defined.
