(* ===== verification/LayoutLimits.v ===== *)
(** * Where the layout departs from the format

    Inputs on which the layout writes outside its buffer ([None]) or shows another text than
    the format asks for. Each case is one the hypotheses of [LayoutLine] exclude: the
    [field_text] of the argument is [None], or the format string is in UTF-16. *)
From stdpp Require Import base list option numbers gmap.
From Stdlib Require Import ZArith.
From S2P Require Import Prelude Memory ArgSerialization Utf Layout.

(** A layout with a buffer of [n] bytes and the cursor at [c]. *)
Definition layout_at (n : nat) (c : Z) : layout := mk_layout (replicate n 0) c info_init ∅.

(** What is shown from the position [c] on. *)
Definition shown_from (c : nat) (o : option layout) : option (list Z) :=
  l ← o; t ← load (format_content_ l) 0 (format_content_cursor_ l); Some (drop c t).

Definition fixed_cell (t : ArgumentTag) (n : nat) (v : Z) : list Z := [tag_code t; 0; 0; 0] ++ le_bytes n v.
Definition string_cell (s : list Z) : list Z :=
  [tag_code string_utf8_type; 0; 0; 0] ++ le_bytes 4 (zlen s) ++ s ++ replicate (Z.to_nat (- zlen s mod 4)) 0.

(** ["{:+#b}"] of the largest integer: 67 characters into a room of 64. *)
Lemma binary_overflow :
  python_style_format_content_utf8 [123; 58; 43; 35; 98; 125] (fixed_cell uint64_type 8 (2 ^ 64 - 1))
    (layout_at 1024 959) = None.
Proof. by vm_compute. Qed.

(** ["{:8}"] of an empty string: no room is made for the padding. *)
Lemma empty_string_overflow :
  python_style_format_content_utf8 [123; 58; 56; 125] (string_cell []) (layout_at 1024 1018) = None.
Proof. by vm_compute. Qed.

(** ["{:#010x}"] of 0xabc shows 0x0000000c: the digit b is taken for the prefix. *)
Lemma prefix_digit :
  shown_from 20 (python_style_format_content_utf8 [123; 58; 35; 48; 49; 48; 120; 125]
    (fixed_cell uint64_type 8 0xabc) (layout_at 64 20)) = Some [48; 120; 48; 48; 48; 48; 48; 48; 48; 99].
Proof. by vm_compute. Qed.

(** ["{:*>10}"] of "a-b" shows "a******a*b": a minus inside the text is taken for a sign. *)
Lemma sign_inside_text :
  shown_from 20 (python_style_format_content_utf8 [123; 58; 42; 62; 49; 48; 125]
    (string_cell [97; 45; 98]) (layout_at 64 20)) = Some [97; 42; 42; 42; 42; 42; 42; 97; 42; 98].
Proof. by vm_compute. Qed.

(** ["{:.1f}"] of -0.5 shows "0.5": the sign is that of the integer part. *)
Lemma negative_fraction :
  shown_from 20 (python_style_format_content_utf8 [123; 58; 46; 49; 102; 125]
    (fixed_cell double_type 8 0xBFE0000000000000) (layout_at 64 20)) = Some [48; 46; 53].
Proof. by vm_compute. Qed.

(** Not a number: the conversion to an integer is undefined. *)
Lemma nan_undefined :
  python_style_format_content_utf8 [123; 125] (fixed_cell double_type 8 0x7FF8000000000000) (layout_at 64 20) = None.
Proof. by vm_compute. Qed.

(** ["{:e}"] of 123.456 without a width: the cursor goes back before the digits are written,
    and ends one character behind the begin of the field. *)
Lemma exponent_moves_back :
  (format_content_cursor_ <$> python_style_format_content_utf8 [123; 58; 101; 125]
     (fixed_cell double_type 8 0x405EDD2F1A9FBE77) (layout_at 64 20)) = Some 21.
Proof. by vm_compute. Qed.

(** A UTF-16 format string: eight characters of three bytes and eight of one behind an
    argument get 24 bytes, the latter are written outside. *)
Lemma utf16_overflow :
  python_style_format_content_utf16 (unit_bytes ([123; 125] ++ replicate 8 0x4E2D ++ replicate 8 97))
    (string_cell (replicate 104 97)) (layout_at 0 0) = None.
Proof. by vm_compute. Qed.

(** A thread name of 248 characters does not fit [tmp]. *)
Lemma long_thread_name : thread_text 7 (replicate 248 97) = None.
Proof. by vm_compute. Qed.

(** Without arguments a doubled brace stays doubled in UTF-8 and becomes one in UTF-16. *)
Lemma doubled_brace :
  shown_from 0 (python_style_format_content_utf8 [125; 125] [] (layout_at 8 0)) = Some [125; 125] /\
  shown_from 0 (python_style_format_content_utf16 (unit_bytes [125; 125]) [] (layout_at 8 0)) = Some [125].
Proof. by vm_compute. Qed.
