(* ===== verification/Random.v ===== *)
(** * Pseudo-random numbers

    [src/src/utility/random.cpp]: the thread-local xorshift generators of 32 and 64 bits.
    The state is the pair of seeds of the thread; [now] is what [time(nullptr)] returns. *)
From stdpp Require Import base list option numbers.
From Stdlib Require Import ZArith Lia Bool.
From S2P Require Import Prelude.

Record random_state := mk_random_state { rand_seed : Z; rand_seed_64 : Z }.

Definition srand (seed : Z) (s : random_state) : random_state :=
  mk_random_state seed (rand_seed_64 s).

Definition srand64 (seed : Z) (s : random_state) : random_state :=
  mk_random_state (rand_seed s) seed.

Definition rand (now : Z) (s : random_state) : Z * random_state :=
  let x := if rand_seed s =? 0 then u32 now else rand_seed s in
  let x := Z.lxor x (u32 (Z.shiftl x 13)) in
  let x := Z.lxor x (Z.shiftr x 17) in
  let x := Z.lxor x (u32 (Z.shiftl x 5)) in
  (x, mk_random_state x (rand_seed_64 s)).

Definition rand64 (now : Z) (s : random_state) : Z * random_state :=
  let '(x, s) :=
    if rand_seed_64 s =? 0 then rand now s else (rand_seed_64 s, s) in
  let x := Z.lxor x (u64 (Z.shiftl x 13)) in
  let x := Z.lxor x (Z.shiftr x 7) in
  let x := Z.lxor x (u64 (Z.shiftl x 17)) in
  (x, mk_random_state (rand_seed s) x).

(** ** Each shift-and-xor step can be undone *)

Lemma shl_step_range (w x k : Z) : 0 <= w -> in_range w x ->
  in_range w (Z.lxor x (wrap w (Z.shiftl x k))).
Proof. intros Hw Hx. apply lxor_range; [done|done|by apply wrap_range]. Qed.

Lemma shr_range (w x k : Z) : 0 <= w -> 0 <= k -> in_range w x -> in_range w (Z.shiftr x k).
Proof.
  intros Hw Hk Hx. apply in_range_testbit; [done|apply Z.shiftr_nonneg; apply Hx|].
  intros i Hi. rewrite Z.shiftr_spec by lia. apply (testbit_high w); (done || lia).
Qed.

Lemma shr_step_range (w x k : Z) : 0 <= w -> 0 <= k -> in_range w x ->
  in_range w (Z.lxor x (Z.shiftr x k)).
Proof. intros Hw Hk Hx. apply lxor_range; [done|done|by apply shr_range]. Qed.

Lemma in_range_ext (w x y : Z) : 0 <= w -> in_range w x -> in_range w y ->
  (forall i, 0 <= i < w -> Z.testbit x i = Z.testbit y i) -> x = y.
Proof.
  intros Hw Hx Hy H. apply testbit_ext. intros i Hi. destruct (Z_lt_le_dec i w).
  - apply H. lia.
  - by rewrite !(testbit_high w) by (done || lia).
Qed.

Lemma shl_step_inj (w x y k : Z) :
  0 <= w -> 0 < k -> in_range w x -> in_range w y ->
  Z.lxor x (wrap w (Z.shiftl x k)) = Z.lxor y (wrap w (Z.shiftl y k)) -> x = y.
Proof.
  intros Hw Hk Hx Hy E. apply (in_range_ext w); [done..|]. intros i [Hi Hiw].
  revert Hiw. pattern i. apply Z_lt_induction; [|done]. clear i Hi. intros i IH Hiw.
  destruct (Z_lt_le_dec i 0); [by rewrite !Z.testbit_neg_r by lia|].
  apply (f_equal (fun z => Z.testbit z i)) in E. unfold wrap in E.
  rewrite !Z.lxor_spec, !testbit_mod_low, !Z.shiftl_spec in E by lia.
  destruct (Z_lt_le_dec (i - k) 0).
  - rewrite !(Z.testbit_neg_r _ (i - k)) in E by lia. by rewrite !xorb_false_r in E.
  - rewrite (IH (i - k)) in E by lia. by destruct (Z.testbit x i), (Z.testbit y i), (Z.testbit y (i - k)).
Qed.

Lemma shr_step_inj (w x y k : Z) :
  0 <= w -> 0 < k -> in_range w x -> in_range w y ->
  Z.lxor x (Z.shiftr x k) = Z.lxor y (Z.shiftr y k) -> x = y.
Proof.
  intros Hw Hk Hx Hy E.
  assert (forall d, 0 <= d -> Z.testbit x (w - d) = Z.testbit y (w - d)) as H.
  { intros d Hd. pattern d. apply Z_lt_induction; [|exact Hd]. clear d Hd. intros d IH.
    destruct (Z_lt_le_dec d 0); [by rewrite !(testbit_high w _ (w - d)) by (done || lia)|].
    destruct (Z_lt_le_dec (w - d) 0); [by rewrite !Z.testbit_neg_r by lia|].
    apply (f_equal (fun z => Z.testbit z (w - d))) in E.
    rewrite !Z.lxor_spec, !Z.shiftr_spec in E by lia.
    destruct (Z_lt_le_dec d k).
    - rewrite !(testbit_high w _ (w - d + k)) in E by (done || lia). by rewrite !xorb_false_r in E.
    - replace (w - d + k) with (w - (d - k)) in E by lia. rewrite (IH (d - k)) in E by lia.
      by destruct (Z.testbit x (w - d)), (Z.testbit y (w - d)), (Z.testbit y (w - (d - k))). }
  apply (in_range_ext w); [done..|]. intros i Hi. specialize (H (w - i) ltac:(lia)).
  by replace (w - (w - i)) with i in H by lia.
Qed.

(** The step of [rand] on a seed, and of [rand64]. *)
Definition xorshift (w a b c x : Z) : Z :=
  let x := Z.lxor x (wrap w (Z.shiftl x a)) in
  let x := Z.lxor x (Z.shiftr x b) in
  Z.lxor x (wrap w (Z.shiftl x c)).

Lemma xorshift_range (w a b c x : Z) : 0 <= w -> 0 <= b -> in_range w x ->
  in_range w (xorshift w a b c x).
Proof. intros. unfold xorshift. by apply shl_step_range, shr_step_range, shl_step_range. Qed.

Lemma xorshift_inj (w a b c x y : Z) :
  0 <= w -> 0 < a -> 0 < b -> 0 < c -> in_range w x -> in_range w y ->
  xorshift w a b c x = xorshift w a b c y -> x = y.
Proof.
  intros Hw Ha Hb Hc Hx Hy E. unfold xorshift in E.
  set (x1 := Z.lxor x _) in E. set (y1 := Z.lxor y _) in E.
  assert (in_range w x1) by (by apply shl_step_range).
  assert (in_range w y1) by (by apply shl_step_range).
  assert (in_range w (Z.lxor x1 (Z.shiftr x1 b))) by (apply shr_step_range; (done || lia)).
  assert (in_range w (Z.lxor y1 (Z.shiftr y1 b))) by (apply shr_step_range; (done || lia)).
  eapply shl_step_inj in E; [|done..]. eapply shr_step_inj in E; [|done..].
  by eapply shl_step_inj in E.
Qed.

Lemma xorshift_0 (w a b c : Z) : xorshift w a b c 0 = 0.
Proof.
  assert (wrap w 0 = 0) as Hw by apply Zmod_0_l. unfold xorshift.
  rewrite Z.shiftl_0_l, Hw, Z.lxor_0_l, Z.shiftr_0_l, Z.lxor_0_l, Z.shiftl_0_l, Hw. done.
Qed.

Lemma xorshift_nonzero (w a b c x : Z) :
  0 <= w -> 0 < a -> 0 < b -> 0 < c -> in_range w x -> x <> 0 -> xorshift w a b c x <> 0.
Proof.
  intros Hw Ha Hb Hc Hx Hnz E. apply Hnz. apply (xorshift_inj w a b c); try done.
  - unfold in_range. split; [done|]. apply Z.pow_pos_nonneg; lia.
  - by rewrite xorshift_0.
Qed.

(** Once seeded with a non-zero 32-bit value, [rand] never returns to the clock: each
    call returns a non-zero 32-bit number, which becomes the seed, and two different
    seeds never lead to the same number, so the generator permutes the non-zero seeds
    and its sequence is periodic from the first number on. [rand64] does the same on 64
    bits. *)
Theorem rand_permutes (now : Z) (s t : random_state) :
  in_range 32 (rand_seed s) -> rand_seed s <> 0 -> in_range 32 (rand_seed t) -> rand_seed t <> 0 ->
  in_range 64 (rand_seed_64 s) -> rand_seed_64 s <> 0 ->
  in_range 64 (rand_seed_64 t) -> rand_seed_64 t <> 0 ->
  (in_range 32 (rand now s).1 /\ (rand now s).1 <> 0 /\
   (rand now s).2 = mk_random_state (rand now s).1 (rand_seed_64 s) /\
   ((rand now s).1 = (rand now t).1 -> rand_seed s = rand_seed t)) /\
  (in_range 64 (rand64 now s).1 /\ (rand64 now s).1 <> 0 /\
   (rand64 now s).2 = mk_random_state (rand_seed s) (rand64 now s).1 /\
   ((rand64 now s).1 = (rand64 now t).1 -> rand_seed_64 s = rand_seed_64 t)).
Proof.
  intros Hs Hs0 Ht Ht0 Hs' Hs0' Ht' Ht0'. unfold rand64, rand.
  rewrite !(proj2 (Z.eqb_neq _ _)) by done. cbn [fst snd]. split; split_and!; try done.
  - by apply (xorshift_range 32 13 17 5).
  - by apply (xorshift_nonzero 32 13 17 5).
  - by apply (xorshift_inj 32 13 17 5).
  - by apply (xorshift_range 64 13 7 17).
  - by apply (xorshift_nonzero 64 13 7 17).
  - by apply (xorshift_inj 64 13 7 17).
Qed.

Lemma rand_permutes_witness :
  let s := mk_random_state 1 7 in let t := mk_random_state 2463534242 (2 ^ 63) in
  (in_range 32 (rand 0 s).1 /\ (rand 0 s).1 <> 0 /\
   (rand 0 s).2 = mk_random_state (rand 0 s).1 (rand_seed_64 s) /\
   ((rand 0 s).1 = (rand 0 t).1 -> rand_seed s = rand_seed t)) /\
  (in_range 64 (rand64 0 s).1 /\ (rand64 0 s).1 <> 0 /\
   (rand64 0 s).2 = mk_random_state (rand_seed s) (rand64 0 s).1 /\
   ((rand64 0 s).1 = (rand64 0 t).1 -> rand_seed_64 s = rand_seed_64 t)).
Proof. apply rand_permutes; (discriminate || (apply in_range_dec; reflexivity)). Defined.
