(* ===== verification/Vernam.v ===== *)
(** * The Vernam stream cipher

    [src/src/encryption/vernam.cpp]: the scalar, SSE, AVX2 and NEON routines that xor a
    buffer in place with a repeating key, and the dispatcher between them. A pointer
    into the buffer is its offset from [buf], whose address is [base]; a read outside
    the buffer or the key, a misaligned access of an aligned load or store, a failed
    assertion and a loop that does not end are [None]. *)
From stdpp Require Import base list option numbers.
From Stdlib Require Import ZArith Lia Bool.
From S2P Require Import Prelude Memory.

(** ** The loops *)

(** [for (j = 0; j < n; ++j) { p[j] ^= key[pos]; pos = (pos + 1) & key_mask; }] *)
Fixpoint xor_masked (n : nat) (mem : list Z) (p : Z) (key : list Z) (key_mask pos : Z)
  : option (list Z * Z) :=
  match n with
  | O => Some (mem, pos)
  | S n =>
      b ← load_le mem p 1;
      k ← load_le key pos 1;
      mem ← store_le mem p 1 (Z.lxor b k);
      xor_masked n mem (p + 1) key key_mask (Z.land (u64 (pos + 1)) key_mask)
  end.

(** [for (j = 0; j < n; ++j) { p[j] ^= key[pos]; pos++; }] *)
Fixpoint xor_plain (n : nat) (mem : list Z) (p : Z) (key : list Z) (pos : Z)
  : option (list Z * Z) :=
  match n with
  | O => Some (mem, pos)
  | S n =>
      b ← load_le mem p 1;
      k ← load_le key pos 1;
      mem ← store_le mem p 1 (Z.lxor b k);
      xor_plain n mem (p + 1) key (u64 (pos + 1))
  end.

(** [p64[i] ^= k64[i]]: both words have to be aligned. *)
Definition xor_u64 (base key_base : Z) (mem : list Z) (p : Z) (key : list Z) (k : Z)
  : option (list Z) :=
  if ((base + p) mod 8 =? 0) && ((key_base + k) mod 8 =? 0) then
    b ← load_le mem p 8; v ← load_le key k 8; store_le mem p 8 (Z.lxor b v)
  else None.

(** A vector register of [w] bytes: load from the buffer, which is aligned where
    [aligned] says so, unaligned load from the key, xor, store. *)
Definition xor_vector (w : Z) (aligned : bool) (base : Z) (mem : list Z) (p : Z) (key : list Z)
    (k : Z) : option (list Z) :=
  if negb aligned || ((base + p) mod w =? 0) then
    v_buf ← load mem p w; v_key ← load key k w; store mem p (zip_with Z.lxor v_buf v_key)
  else None.

(** The inner loop over the blocks of one contiguous piece of the key. *)
Fixpoint xor_blocks (block : list Z -> Z -> list Z -> Z -> option (list Z)) (w : Z) (n : nat)
    (mem : list Z) (p : Z) (key : list Z) (k : Z) : option (list Z) :=
  match n with
  | O => Some mem
  | S n => mem ← block mem p key k; xor_blocks block w n mem (p + w) key (k + w)
  end.

(** [while (remaining >= w)], for blocks of [w = 2^shift] bytes. *)
Fixpoint key_loop (fuel : nat) (block : list Z -> Z -> list Z -> Z -> option (list Z)) (shift : Z)
    (mem : list Z) (p remaining : Z) (key : list Z) (key_size pos : Z)
  : option (list Z * Z * Z * Z) :=
  let w := 2 ^ shift in
  let align_mask := w - 1 in
  if w <=? remaining then
    match fuel with
    | O => None
    | S fuel =>
        let contiguous_key_len := u64 (key_size - pos) in
        let chunk_len :=
          if contiguous_key_len <? remaining then contiguous_key_len else remaining in
        let loop_len := Z.land chunk_len (2 ^ 64 - 1 - align_mask) in
        mem ← xor_blocks block w (Z.to_nat (Z.shiftr loop_len shift)) mem p key pos;
        let pos := u64 (pos + loop_len) in
        let pos := if pos =? key_size then 0 else pos in
        key_loop fuel block shift mem (p + loop_len) (remaining - loop_len) key key_size pos
    end
  else Some (mem, p, remaining, pos).

(** The iterations [key_loop] can take when each makes progress. *)
Definition key_loop_fuel (remaining : Z) : nat := S (Z.to_nat remaining).

Definition head_length (base w remaining : Z) : Z :=
  let align_mask := w - 1 in
  let align_diff := Z.land (w - Z.land base align_mask) align_mask in
  if align_diff <? remaining then align_diff else remaining.

(** ** The four routines *)

Definition power_of_two_assert (key_size : Z) : bool :=
  Z.land key_size (u64 (key_size - 1)) =? 0.

Definition multiple_assert (key_size align_mask : Z) : bool := Z.land key_size align_mask =? 0.

Definition relative_alignment_assert (base offset align_mask : Z) : bool :=
  Z.land base align_mask =? Z.land offset align_mask.

(** [assert(c)], which is compiled out when [ndebug]. *)
Definition check (ndebug c : bool) : option unit := if ndebug || c then Some () else None.

Section Routines.
Context (ndebug : bool).

Definition vernam_encrypt_scalar (base key_base : Z) (buf : list Z) (len : Z) (key : list Z)
    (key_size_pow2 key_stream_offset : Z) : option (list Z) :=
  if len =? 0 then Some buf
  else
    let key_mask := u64 (key_size_pow2 - 1) in
    let align_mask := 7 in
    _ ← check ndebug (power_of_two_assert key_size_pow2);
    _ ← check ndebug (multiple_assert key_size_pow2 align_mask);
    _ ← check ndebug (relative_alignment_assert base key_stream_offset align_mask);
    let pos := Z.land key_stream_offset key_mask in
    let head_len := head_length base 8 len in
    '(mem, pos) ← xor_masked (Z.to_nat head_len) buf 0 key key_mask pos;
    let remaining := len - head_len in
    if remaining =? 0 then Some mem
    else
      '(mem, p, remaining, pos) ←
        key_loop (key_loop_fuel remaining) (xor_u64 base key_base) 3 mem head_len remaining key
          key_size_pow2 pos;
      '(mem, _) ← xor_masked (Z.to_nat remaining) mem p key key_mask (Z.land pos key_mask);
      Some mem.

Definition vernam_encrypt_sse (base : Z) (buf : list Z) (len : Z) (key : list Z)
    (key_size_pow2 key_stream_offset : Z) : option (list Z) :=
  let key_mask := u64 (key_size_pow2 - 1) in
  let align_mask := 15 in
  _ ← check ndebug (power_of_two_assert key_size_pow2);
  _ ← check ndebug (multiple_assert key_size_pow2 align_mask);
  let pos := Z.land key_stream_offset key_mask in
  let head_len := head_length base 16 len in
  '(mem, pos) ← xor_masked (Z.to_nat head_len) buf 0 key key_mask pos;
  let remaining := len - head_len in
  if remaining <? 16 then
    '(mem, _) ← xor_masked (Z.to_nat remaining) mem head_len key key_mask (Z.land pos key_mask);
    Some mem
  else
    '(mem, p, remaining, pos) ←
      key_loop (key_loop_fuel remaining) (xor_vector 16 true base) 4 mem head_len remaining key
        key_size_pow2 pos;
    '(mem, _) ← xor_masked (Z.to_nat remaining) mem p key key_mask (Z.land pos key_mask);
    Some mem.

Definition vernam_encrypt_avx2 (base : Z) (buf : list Z) (len : Z) (key : list Z)
    (key_size_pow2 key_stream_offset : Z) : option (list Z) :=
  let key_mask := u64 (key_size_pow2 - 1) in
  let align_mask := 31 in
  _ ← check ndebug (power_of_two_assert key_size_pow2);
  _ ← check ndebug (multiple_assert key_size_pow2 align_mask);
  _ ← check ndebug (relative_alignment_assert base key_stream_offset align_mask);
  let pos := Z.land key_stream_offset key_mask in
  let head_len := head_length base 32 len in
  '(mem, pos) ← xor_plain (Z.to_nat head_len) buf 0 key pos;
  let remaining := len - head_len in
  if remaining <? 32 then
    '(mem, _) ← xor_masked (Z.to_nat remaining) mem head_len key key_mask (Z.land pos key_mask);
    Some mem
  else
    '(mem, p, remaining, pos) ←
      key_loop (key_loop_fuel remaining) (xor_vector 32 true base) 5 mem head_len remaining key
        key_size_pow2 pos;
    '(mem, _) ← xor_masked (Z.to_nat remaining) mem p key key_mask (Z.land pos key_mask);
    Some mem.

Definition vernam_encrypt_neon (base : Z) (buf : list Z) (len : Z) (key : list Z)
    (key_size_pow2 key_stream_offset : Z) : option (list Z) :=
  let key_mask := u64 (key_size_pow2 - 1) in
  let align_mask := 15 in
  _ ← check ndebug (power_of_two_assert key_size_pow2);
  _ ← check ndebug (multiple_assert key_size_pow2 align_mask);
  _ ← check ndebug (relative_alignment_assert base key_stream_offset align_mask);
  let pos := Z.land key_stream_offset key_mask in
  let head_len := head_length base 16 len in
  '(mem, pos) ← xor_plain (Z.to_nat head_len) buf 0 key pos;
  let remaining := len - head_len in
  '(mem, p, remaining, pos) ←
    key_loop (key_loop_fuel remaining) (xor_vector 16 false base) 4 mem head_len remaining key
      key_size_pow2 pos;
  '(mem, _) ← xor_masked (Z.to_nat remaining) mem p key key_mask (Z.land pos key_mask);
  Some mem.

End Routines.

(** ** The dispatcher *)

(** The target the preprocessor selects. *)
Inductive target := x86 | arm_neon | arm_without_neon | other_target.

(** [vernam::mode], which only the unit-test build has. *)
Inductive mode := auto_detect | scalar | sse | avx2.

Record build := mk_build {
  ndebug_ : bool;
  target_ : target;
  unit_test_mode : option mode;
  avx2_support_ : bool;
}.

Definition vernam_encrypt_32bytes_aligned (b : build) (base key_base : Z) (buf : list Z) (len : Z)
    (key : list Z) (key_size_pow2 key_stream_offset : Z) : option (list Z) :=
  let run_scalar :=
    vernam_encrypt_scalar (ndebug_ b) base key_base buf len key key_size_pow2 key_stream_offset in
  let run_sse := vernam_encrypt_sse (ndebug_ b) base buf len key key_size_pow2 key_stream_offset in
  match target_ b, unit_test_mode b with
  | x86, Some scalar => run_scalar
  | x86, Some sse => run_sse
  | x86, _ =>
      if avx2_support_ b
      then vernam_encrypt_avx2 (ndebug_ b) base buf len key key_size_pow2 key_stream_offset
      else run_sse
  | (arm_neon | arm_without_neon), Some scalar => run_scalar
  | arm_neon, _ =>
      vernam_encrypt_neon (ndebug_ b) base buf len key key_size_pow2 key_stream_offset
  | arm_without_neon, _ => run_scalar
  | other_target, _ => run_scalar
  end.

(** ** The cipher *)

(** The buffer after the cipher has gone over its first [n] bytes. *)
Definition xored (key : list Z) (offset : Z) (n : nat) (buf : list Z) : list Z :=
  imap (fun i b => if bool_decide (i < n)%nat
                   then Z.lxor b (key !!! Z.to_nat ((offset + Z.of_nat i) mod zlen key)) else b) buf.

Lemma lookup_xored (key : list Z) (offset : Z) (n : nat) (buf : list Z) (i : nat) :
  xored key offset n buf !! i =
    (fun b => if bool_decide (i < n)%nat
              then Z.lxor b (key !!! Z.to_nat ((offset + Z.of_nat i) mod zlen key)) else b)
      <$> buf !! i.
Proof. apply list_lookup_imap. Qed.

Lemma length_xored (key : list Z) (offset : Z) (n : nat) (buf : list Z) :
  length (xored key offset n buf) = length buf.
Proof. apply length_imap. Qed.

Lemma zlen_xored (key : list Z) (offset : Z) (n : nat) (buf : list Z) :
  zlen (xored key offset n buf) = zlen buf.
Proof. unfold zlen. by rewrite length_xored. Qed.

Lemma xored_0 (key : list Z) (offset : Z) (buf : list Z) : xored key offset 0 buf = buf.
Proof.
  apply list_eq. intros i. rewrite lookup_xored, bool_decide_false by lia.
  apply option_fmap_id.
Qed.

Lemma lookup_total_byte (key : list Z) (i : nat) : bytes_ok key -> is_byte (key !!! i).
Proof.
  intros Hk. rewrite list_lookup_total_alt. destruct (key !! i) as [z|] eqn:E; simpl.
  - by eapply Forall_lookup_1 in E.
  - by apply in_range_dec.
Qed.

Lemma xored_bytes (key : list Z) (offset : Z) (n : nat) (buf : list Z) :
  bytes_ok key -> bytes_ok buf -> bytes_ok (xored key offset n buf).
Proof.
  intros Hk Hb. apply Forall_lookup_2. intros i x. rewrite lookup_xored.
  destruct (buf !! i) as [z|] eqn:E; simpl; [|done]. intros [= <-].
  assert (is_byte z) by (by eapply Forall_lookup_1 in E).
  case_bool_decide; [|done]. apply lxor_range; [lia|done|]. by apply lookup_total_byte.
Qed.

(** Xoring twice gives the buffer back. *)
Lemma xored_involutive (key : list Z) (offset : Z) (n : nat) (buf : list Z) :
  xored key offset n (xored key offset n buf) = buf.
Proof.
  apply list_eq. intros i. rewrite !lookup_xored. destruct (buf !! i) as [z|]; [|done].
  simpl. f_equal. case_bool_decide; [|done].
  by rewrite Z.lxor_assoc, Z.lxor_nilpotent, Z.lxor_0_r.
Qed.

(** The offset continues the key stream. *)
Lemma xored_app (key : list Z) (offset : Z) (b1 b2 : list Z) :
  xored key offset (length b1 + length b2) (b1 ++ b2) =
  xored key offset (length b1) b1 ++ xored key (offset + zlen b1) (length b2) b2.
Proof.
  apply list_eq. intros i. rewrite lookup_xored.
  destruct (decide (i < length b1)%nat) as [Hi|Hi].
  - rewrite !lookup_app_l by (rewrite ?length_xored; lia). rewrite lookup_xored.
    by rewrite !bool_decide_true by lia.
  - rewrite !lookup_app_r by (rewrite ?length_xored; lia). rewrite length_xored, lookup_xored.
    destruct (b2 !! (i - length b1)%nat) eqn:E; [|done]. simpl. f_equal.
    apply lookup_lt_Some in E. rewrite !bool_decide_true by lia. unfold zlen.
    do 4 f_equal. lia.
Qed.

(** *** Words *)

Lemma lxor_mod_256 (a b : Z) : Z.lxor a b mod 256 = Z.lxor (a mod 256) (b mod 256).
Proof. by apply (wrap_lxor 8). Qed.

Lemma lxor_div_256 (a b : Z) : Z.lxor a b / 256 = Z.lxor (a / 256) (b / 256).
Proof. change 256 with (2 ^ 8). rewrite <- !Z.shiftr_div_pow2 by lia. apply Z.shiftr_lxor. Qed.

Lemma le_bytes_lxor (n : nat) (a b : Z) :
  le_bytes n (Z.lxor a b) = zip_with Z.lxor (le_bytes n a) (le_bytes n b).
Proof.
  revert a b. induction n as [|n IH]; intros a b; [done|]. unfold le_bytes; fold le_bytes.
  cbn [zip_with]. by rewrite lxor_mod_256, lxor_div_256, IH.
Qed.

(** Reading two words, xoring them and storing the result works bytewise. *)
Lemma xor_word (mem key : list Z) (p k w : Z) :
  bytes_ok mem -> bytes_ok key -> 0 <= w ->
  (b ← load_le mem p w; v ← load_le key k w; store_le mem p w (Z.lxor b v)) =
  (b ← load mem p w; v ← load key k w; store mem p (zip_with Z.lxor b v)).
Proof.
  intros Hm Hk Hw. unfold load_le, store_le.
  destruct (load mem p w) as [b|] eqn:Eb; [|done]. cbn.
  destruct (load key k w) as [v|] eqn:Ev; [|done]. cbn.
  apply load_inv in Eb as (_ & _ & _ & -> & Lb). apply load_inv in Ev as (_ & _ & _ & -> & Lv).
  rewrite le_bytes_lxor. unfold zlen in *. do 2 f_equal.
  - rewrite <- Lb at 1. rewrite Nat2Z.id. apply le_bytes_le_val.
    by apply Forall_take, Forall_drop.
  - rewrite <- Lv at 1. rewrite Nat2Z.id. apply le_bytes_le_val.
    by apply Forall_take, Forall_drop.
Qed.

(** *** One block *)

Section Loops.
Context (key buf : list Z) (offset : Z).
Context (key_bits : Z) (Hbits : 0 <= key_bits < 64) (Hkey : zlen key = 2 ^ key_bits).
Context (key_ok : bytes_ok key) (buf_ok : bytes_ok buf).

Abbreviation after n := (xored key offset n buf).

Lemma key_size_pos : 0 < zlen key.
Proof. rewrite Hkey. apply Z.pow_pos_nonneg; lia. Qed.

Lemma key_size_range : in_range 64 (zlen key).
Proof. rewrite Hkey. split; [apply Z.pow_nonneg; lia|]. apply Z.pow_lt_mono_r; lia. Qed.

Lemma xor_block_step (n : nat) (k w : Z) :
  0 <= w -> Z.of_nat n + w <= zlen buf -> k = (offset + Z.of_nat n) mod zlen key ->
  k + w <= zlen key ->
  (b ← load (after n) (Z.of_nat n) w; v ← load key k w;
   store (after n) (Z.of_nat n) (zip_with Z.lxor b v)) = Some (after (n + Z.to_nat w)%nat).
Proof.
  intros Hw Hn Hk Hkw. pose proof key_size_pos as Hpos.
  assert (0 <= k) by (subst k; apply Z.mod_pos_bound; lia).
  rewrite (load_Some (after n)) by (rewrite ?zlen_xored; lia). cbn [mbind option_bind].
  rewrite (load_Some key) by lia. cbn [mbind option_bind].
  set (bs := zip_with _ _ _).
  assert (length bs = Z.to_nat w) as Lbs.
  { unfold bs, zlen in *. rewrite length_zip_with, !length_take, !length_drop, length_xored. lia. }
  rewrite store_Some by (unfold zlen in *; rewrite ?length_xored; lia).
  assert (store (after n) (Z.of_nat n) bs =
    Some (take (Z.to_nat (Z.of_nat n)) (after n) ++ bs ++
      drop (Z.to_nat (Z.of_nat n) + length bs) (after n))) as Hst.
  { apply store_Some; unfold zlen in *; rewrite ?length_xored; lia. }
  f_equal. apply list_eq. intros i. rewrite (store_lookup _ _ _ _ i Hst).
  rewrite !lookup_xored. assert (zlen bs = w) as -> by (unfold zlen; lia). case_decide as Hd.
  - unfold bs. rewrite lookup_zip_with, !lookup_take_lt, !lookup_drop by lia.
    rewrite lookup_xored. replace (Z.to_nat (Z.of_nat n) + (i - Z.to_nat (Z.of_nat n)))%nat with i by lia.
    destruct (buf !! i) as [z|] eqn:Ez; [|done]. cbn [fmap option_fmap option_map mbind option_bind].
    rewrite bool_decide_false, bool_decide_true by lia.
    assert ((offset + Z.of_nat i) mod zlen key = k + Z.of_nat (i - n)) as ->.
    { replace (offset + Z.of_nat i) with (offset + Z.of_nat n + Z.of_nat (i - n)) by lia.
      rewrite <- Zplus_mod_idemp_l, <- Hk. apply Z.mod_small. lia. }
    replace (Z.to_nat k + (i - Z.to_nat (Z.of_nat n)))%nat with (Z.to_nat (k + Z.of_nat (i - n))) by lia.
    rewrite (list_lookup_lookup_total_lt key) by (unfold zlen in *; lia). done.
  - destruct (buf !! i) as [z|]; [|done]. simpl. f_equal.
    destruct (decide (i < n)%nat).
    + by rewrite !bool_decide_true by lia.
    + by rewrite !bool_decide_false by lia.
Qed.

Lemma xor_word_step (n : nat) (k w : Z) :
  0 <= w -> Z.of_nat n + w <= zlen buf -> k = (offset + Z.of_nat n) mod zlen key ->
  k + w <= zlen key ->
  (b ← load_le (after n) (Z.of_nat n) w; v ← load_le key k w;
   store_le (after n) (Z.of_nat n) w (Z.lxor b v)) = Some (after (n + Z.to_nat w)%nat).
Proof.
  intros. rewrite xor_word by (done || by apply xored_bytes). by apply xor_block_step.
Qed.

(** *** The byte loops *)

Lemma next_pos_masked (n : nat) :
  Z.land (u64 ((offset + Z.of_nat n) mod zlen key + 1)) (zlen key - 1) =
  (offset + Z.of_nat (S n)) mod zlen key.
Proof.
  pose proof key_size_pos. pose proof key_size_range as [_ Hr].
  pose proof (Z.mod_pos_bound (offset + Z.of_nat n) (zlen key) ltac:(done)).
  rewrite Hkey. rewrite land_mask by lia.
  replace (offset + Z.of_nat (S n)) with (offset + Z.of_nat n + 1) by lia.
  rewrite <- Hkey in *.
  rewrite wrap_small by (unfold in_range; rewrite Hkey in *;
    pose proof (Z.pow_lt_mono_r 2 key_bits 64); lia).
  apply Zplus_mod_idemp_l.
Qed.

Lemma xor_masked_run (m n : nat) :
  Z.of_nat n + Z.of_nat m <= zlen buf ->
  xor_masked m (after n) (Z.of_nat n) key (zlen key - 1) ((offset + Z.of_nat n) mod zlen key) =
  Some (after (n + m)%nat, (offset + Z.of_nat (n + m)) mod zlen key).
Proof.
  revert n. induction m as [|m IH]; intros n Hn.
  - by rewrite Nat.add_0_r.
  - pose proof key_size_pos.
    pose proof (Z.mod_pos_bound (offset + Z.of_nat n) (zlen key) ltac:(done)).
    cbn [xor_masked].
    pose proof (xor_word_step n _ 1 ltac:(lia) ltac:(lia) eq_refl ltac:(lia)) as Hs.
    destruct (load_le (after n) _ 1) as [b|]; [|done]. cbn [mbind option_bind] in Hs |- *.
    destruct (load_le key _ 1) as [v|]; [|done]. cbn [mbind option_bind] in Hs |- *.
    rewrite Hs. cbn [mbind option_bind]. rewrite next_pos_masked.
    replace (n + Z.to_nat 1)%nat with (S n) by lia.
    replace (Z.of_nat n + 1) with (Z.of_nat (S n)) by lia. rewrite IH by lia.
    by replace (S n + m)%nat with (n + S m)%nat by lia.
Qed.

(** The loop without the mask, as long as it stays within one period of the key. *)
Lemma xor_plain_run (m n : nat) (k : Z) :
  Z.of_nat n + Z.of_nat m <= zlen buf -> 0 <= k -> k + Z.of_nat m <= zlen key ->
  k mod zlen key = (offset + Z.of_nat n) mod zlen key ->
  xor_plain m (after n) (Z.of_nat n) key k = Some (after (n + m)%nat, k + Z.of_nat m).
Proof.
  revert n k. induction m as [|m IH]; intros n k Hn Hk0 Hkm Hk.
  - by rewrite Nat.add_0_r, Z.add_0_r.
  - pose proof key_size_range as [_ Hr]. cbn [xor_plain].
    pose proof (xor_word_step n k 1 ltac:(lia) ltac:(lia)
      ltac:(rewrite <- Hk; symmetry; apply Z.mod_small; lia) ltac:(lia)) as Hs.
    destruct (load_le (after n) _ 1) as [b|]; [|done]. cbn [mbind option_bind] in Hs |- *.
    destruct (load_le key _ 1) as [v|]; [|done]. cbn [mbind option_bind] in Hs |- *.
    rewrite Hs. cbn [mbind option_bind]. rewrite wrap_small by (unfold in_range; lia).
    replace (n + Z.to_nat 1)%nat with (S n) by lia.
    replace (Z.of_nat n + 1) with (Z.of_nat (S n)) by lia. rewrite IH; [|lia..|].
    + replace (S n + m)%nat with (n + S m)%nat by lia. do 2 f_equal. lia.
    + replace (offset + Z.of_nat (S n)) with (offset + Z.of_nat n + 1) by lia.
      rewrite <- (Zplus_mod_idemp_l (offset + _)), <- Hk. symmetry. apply Zplus_mod_idemp_l.
Qed.

(** *** The block loop *)

Section Blocks.
Context (base : Z) (shift : Z) (block : list Z -> Z -> list Z -> Z -> option (list Z)).
Context (Hshift : 3 <= shift <= key_bits).

Abbreviation w := (2 ^ shift).

(** What a block routine does at aligned positions. *)
Definition block_correct : Prop := forall (n : nat) (k : Z),
  (base + Z.of_nat n) mod w = 0 -> k mod w = 0 ->
  Z.of_nat n + w <= zlen buf -> k = (offset + Z.of_nat n) mod zlen key -> k + w <= zlen key ->
  block (after n) (Z.of_nat n) key k = Some (after (n + Z.to_nat w)%nat).

Context (Hblock : block_correct).

Lemma width_pos : 8 <= w.
Proof. change 8 with (2 ^ 3). apply Z.pow_le_mono_r; lia. Qed.

Lemma key_multiple : zlen key mod w = 0.
Proof.
  rewrite Hkey. replace key_bits with (key_bits - shift + shift) by lia.
  rewrite Z.pow_add_r by lia. apply Z.mod_mul. pose proof width_pos. lia.
Qed.

Lemma add_multiple (a b : Z) : a mod w = 0 -> b mod w = 0 -> (a + b) mod w = 0.
Proof. intros Ha Hb. by rewrite Z.add_mod, Ha, Hb by (pose proof width_pos; lia). Qed.

Lemma xor_blocks_run (m n : nat) (k : Z) :
  (base + Z.of_nat n) mod w = 0 -> k mod w = 0 ->
  Z.of_nat n + Z.of_nat m * w <= zlen buf ->
  k mod zlen key = (offset + Z.of_nat n) mod zlen key ->
  0 <= k -> k + Z.of_nat m * w <= zlen key ->
  xor_blocks block w m (after n) (Z.of_nat n) key k = Some (after (n + m * Z.to_nat w)%nat).
Proof.
  pose proof width_pos as Hw. revert n k.
  induction m as [|m IH]; intros n k Ha Hk Hn Hpos H0 Hkm.
  { by rewrite Nat.mul_0_l, Nat.add_0_r. }
  cbn [xor_blocks]. rewrite Hblock; [|done|done|nia| |nia].
  2: { rewrite <- Hpos. symmetry. apply Z.mod_small. nia. }
  cbn [mbind option_bind].
  replace (Z.of_nat n + w) with (Z.of_nat (n + Z.to_nat w)) by lia.
  rewrite IH; [f_equal; f_equal; lia| |by apply add_multiple, Z.mod_same; lia|nia| |lia|nia].
  - replace (base + _) with ((base + Z.of_nat n) + w) by lia.
    apply add_multiple; [done|]. apply Z.mod_same. lia.
  - replace (offset + _) with ((offset + Z.of_nat n) + w) by lia.
    rewrite <- (Zplus_mod_idemp_l (offset + _)), <- Hpos. by rewrite Zplus_mod_idemp_l.
Qed.

(** The state of the loop: [n] bytes done, of [total]. *)
Definition loop_position (total : Z) (n : nat) (k : Z) : Prop :=
  (base + Z.of_nat n) mod w = 0 /\ k mod w = 0 /\
  Z.of_nat n <= total /\ 0 <= k <= zlen key /\
  k mod zlen key = (offset + Z.of_nat n) mod zlen key.

(** One turn goes to the end of the key or of the buffer. *)
Definition turn_blocks (remaining k : Z) : Z := Z.min (zlen key - k) remaining / w.

Lemma loop_turn (total : Z) (n : nat) (k : Z) :
  total <= zlen buf -> loop_position total n k ->
  w <= total - Z.of_nat n ->
  let m := turn_blocks (total - Z.of_nat n) k in
  0 <= m /\ (k < zlen key -> 0 < m) /\ m * w <= total - Z.of_nat n /\ k + m * w <= zlen key /\
  loop_position total (n + Z.to_nat (m * w)) (if k + m * w =? zlen key then 0 else k + m * w).
Proof.
  intros Ht (Ha & Hk & Hn & Hk0 & Hpos) Hrem m. pose proof width_pos. pose proof key_size_pos.
  pose proof key_multiple as Hm.
  assert (zlen key - k = (zlen key / w - k / w) * w) as Hc.
  { pose proof (Z.div_mod (zlen key) w). pose proof (Z.div_mod k w). nia. }
  pose proof (Z.div_mod (Z.min (zlen key - k) (total - Z.of_nat n)) w ltac:(lia)).
  pose proof (Z.mod_pos_bound (Z.min (zlen key - k) (total - Z.of_nat n)) w ltac:(lia)).
  assert (0 <= m) by (apply Z.div_pos; lia).
  assert (k < zlen key -> 0 < m) by (intros; apply Z.div_str_pos; split; [lia|];
    apply Z.min_glb; [|done]; set (c := zlen key / w - k / w) in *;
    assert (0 < c) by (apply (Z.mul_pos_cancel_r c w); lia); nia).
  assert (m * w <= Z.min (zlen key - k) (total - Z.of_nat n)) by (unfold m, turn_blocks; nia).
  split_and!; [done|done|lia|lia|].
  unfold loop_position. rewrite Nat2Z.inj_add, Z2Nat.id by lia.
  split_and!.
  - rewrite Z.add_assoc. apply add_multiple; [done|]. apply Z.mod_mul. lia.
  - destruct (_ =? _); [by apply Z.mod_0_l; lia|].
    apply add_multiple; [done|]. apply Z.mod_mul. lia.
  - lia.
  - destruct (_ =? _); lia.
  - destruct (_ =? _); lia.
  - rewrite Z.add_assoc, <- Zplus_mod_idemp_l, <- Hpos, Zplus_mod_idemp_l.
    destruct (_ =? _) eqn:E; [|done]. apply Z.eqb_eq in E. rewrite E.
    by rewrite Z.mod_same, Z.mod_0_l by lia.
Qed.

Lemma key_loop_run (total : Z) : total <= zlen buf -> total < 2 ^ 64 -> forall fuel n k,
  loop_position total n k ->
  total - Z.of_nat n + (if k =? zlen key then 8 else 0) <= 8 * Z.of_nat fuel ->
  exists n' k', key_loop fuel block shift (after n) (Z.of_nat n) (total - Z.of_nat n) key (zlen key) k =
    Some (after n', Z.of_nat n', total - Z.of_nat n', k') /\
    loop_position total n' k' /\ total - Z.of_nat n' < w.
Proof.
  intros Ht H64 fuel. pose proof width_pos. pose proof key_size_range as [_ Hr].
  pose proof key_size_pos as Hkp.
  induction fuel as [|fuel IH]; intros n k Hp Hfuel; unfold key_loop; fold key_loop;
    (destruct (w <=? total - Z.of_nat n) eqn:Ew;
     [apply Z.leb_le in Ew|apply Z.leb_gt in Ew; by exists n, k]).
  { destruct Hp. destruct (_ =? _); lia. }
  pose proof (loop_turn total n k Ht Hp Ew) as (Hm0 & Hmp & Hmr & Hmk & Hp').
  destruct Hp as (Ha & Hk & Hn & Hk0 & Hpos).
  set (m := turn_blocks (total - Z.of_nat n) k) in *. cbv zeta.
  rewrite (wrap_small 64 (zlen key - k)) by (unfold in_range; lia).
  assert (Z.land (if zlen key - k <? total - Z.of_nat n then zlen key - k else total - Z.of_nat n)
            (2 ^ 64 - 1 - (w - 1)) = m * w) as ->.
  { rewrite land_not_mask.
    - unfold m, turn_blocks. f_equal. f_equal.
      destruct (_ <? _) eqn:E; [apply Z.ltb_lt in E|apply Z.ltb_ge in E]; lia.
    - lia.
    - unfold in_range. destruct (_ <? _); lia. }
  rewrite Z.shiftr_div_pow2, Z.div_mul by lia.
  rewrite xor_blocks_run; [|done|done|nia|done|lia|rewrite Z2Nat.id by lia; lia].
  cbn [mbind option_bind].
  rewrite (wrap_small 64 (k + m * w)) by (unfold in_range; nia).
  replace (n + Z.to_nat m * Z.to_nat w)%nat with (n + Z.to_nat (m * w))%nat by lia.
  replace (Z.of_nat n + m * w) with (Z.of_nat (n + Z.to_nat (m * w))) by lia.
  replace (total - Z.of_nat n - m * w) with (total - Z.of_nat (n + Z.to_nat (m * w))) by lia.
  apply IH; [done|].
  destruct (k =? zlen key) eqn:Ek; [apply Z.eqb_eq in Ek|apply Z.eqb_neq in Ek].
  - destruct (k + m * w =? zlen key) eqn:E; [|apply Z.eqb_neq in E; nia].
    rewrite (proj2 (Z.eqb_neq 0 (zlen key))) by lia. lia.
  - specialize (Hmp ltac:(lia)).
    destruct (k + m * w =? zlen key) eqn:E; [apply Z.eqb_eq in E|apply Z.eqb_neq in E].
    + rewrite (proj2 (Z.eqb_neq 0 (zlen key))) by lia. nia.
    + rewrite (proj2 (Z.eqb_neq (k + m * w) (zlen key))) by lia. nia.
Qed.

(** The tail: the bytes left after the block loop. *)
Lemma tail_run (total : Z) (n : nat) (k : Z) :
  0 <= total <= zlen buf -> Z.of_nat n <= total ->
  k mod zlen key = (offset + Z.of_nat n) mod zlen key ->
  ('(mem, _) ← xor_masked (Z.to_nat (total - Z.of_nat n)) (after n) (Z.of_nat n) key
     (zlen key - 1) (Z.land k (zlen key - 1)); Some mem) = Some (after (Z.to_nat total)).
Proof.
  intros Ht Hn Hpos. rewrite Hkey at 2. rewrite land_mask, <- Hkey, Hpos by lia.
  rewrite xor_masked_run by lia. cbn [mbind option_bind].
  do 2 f_equal. lia.
Qed.

(** The block loop and the tail together. *)
Lemma blocks_and_tail (total : Z) (n : nat) (k : Z) :
  0 <= total <= zlen buf -> total < 2 ^ 64 -> loop_position total n k ->
  ('(mem, p, remaining, pos) ←
     key_loop (key_loop_fuel (total - Z.of_nat n)) block shift (after n) (Z.of_nat n)
       (total - Z.of_nat n) key (zlen key) k;
   '(mem, _) ← xor_masked (Z.to_nat remaining) mem p key (zlen key - 1)
                 (Z.land pos (zlen key - 1)); Some mem) = Some (after (Z.to_nat total)).
Proof.
  intros Ht H64 Hp.
  destruct (key_loop_run total ltac:(lia) H64 (key_loop_fuel (total - Z.of_nat n)) n k Hp)
    as (n' & k' & -> & (_ & _ & Hn' & _ & Hk') & _).
  { unfold key_loop_fuel. destruct Hp as (_ & _ & ? & _). destruct (_ =? _); lia. }
  cbn [mbind option_bind]. by apply tail_run.
Qed.

(** The position after the head. *)
Lemma head_position (total : Z) :
  0 <= base -> 0 <= offset -> base mod w = offset mod w -> 0 <= total ->
  let h := head_length base w total in
  0 <= h <= total /\ (h < total -> (base + h) mod w = 0) /\
  offset mod zlen key + h <= zlen key /\
  (h < total -> loop_position total (Z.to_nat h) (offset mod zlen key + h)).
Proof.
  intros Hb Ho Hrel Ht h. pose proof width_pos. pose proof key_size_pos. pose proof key_multiple.
  set (d := (w - base mod w) mod w).
  assert (h = Z.min d total) as Hh.
  { unfold h, head_length. rewrite !land_mask by lia. fold d.
    destruct (_ <? _) eqn:E; [apply Z.ltb_lt in E|apply Z.ltb_ge in E]; lia. }
  pose proof (Z.mod_pos_bound (w - base mod w) w ltac:(lia)) as Hd. fold d in Hd.
  assert (offset mod zlen key mod w = base mod w) as Hom.
  { rewrite Hrel. pose proof (Z.div_mod offset (zlen key) ltac:(lia)) as E.
    rewrite E at 2. pose proof (Z.div_mod (zlen key) w ltac:(lia)).
    rewrite Z.add_comm. replace (zlen key * (offset / zlen key))
      with (zlen key / w * (offset / zlen key) * w) by nia.
    by rewrite Z_mod_plus_full. }
  assert (forall a, a mod w = base mod w -> (a + d) mod w = 0) as Hup.
  { intros a E. unfold d. rewrite Zplus_mod_idemp_r, <- E.
    rewrite Z.add_sub_assoc, Zminus_mod_idemp_r. replace (a + w - a) with w by lia.
    apply Z.mod_same. lia. }
  pose proof (Hup base eq_refl) as Hbd. pose proof (Hup _ Hom) as Hod.
  pose proof (Z.mod_pos_bound offset (zlen key) ltac:(lia)).
  assert (offset mod zlen key + d <= zlen key) as Hle.
  { pose proof (Z.div_mod (offset mod zlen key + d) w ltac:(lia)).
    pose proof (Z.div_mod (zlen key) w ltac:(lia)).
    assert ((offset mod zlen key + d) / w <= zlen key / w); [|nia].
    apply Z.lt_succ_r. apply Z.div_lt_upper_bound; [lia|]. nia. }
  split_and!; [lia|lia| |lia|].
  - intros. by replace h with d by lia.
  - intros. assert (h = d) as -> by lia. unfold loop_position. rewrite Z2Nat.id by lia.
    split_and!; try done; try lia. by rewrite Zplus_mod_idemp_l.
Qed.

(** Wrapping the position does not leave the loop. *)
Lemma loop_position_wrap (total : Z) (n : nat) (k : Z) :
  loop_position total n k -> loop_position total n ((offset + Z.of_nat n) mod zlen key).
Proof.
  intros (Ha & Hk & Hn & Hk0 & Hpos). pose proof key_size_pos. rewrite <- Hpos.
  pose proof width_pos. unfold loop_position. rewrite Z.mod_mod by lia.
  destruct (Z.eq_dec k (zlen key)) as [->|].
  - rewrite Z.mod_same in * by lia. rewrite Z.mod_0_l by lia. split_and!; done || lia.
  - rewrite (Z.mod_small k) by lia. split_and!; try done; try lia.
    by rewrite <- Hpos, Z.mod_small by lia.
Qed.

End Blocks.

(** *** The routines *)

Context (base key_base len : Z) (ndebug : bool).
Context (Hbig : 5 <= key_bits) (Hlen : 0 <= len <= zlen buf) (Hlen64 : len < 2 ^ 64).
Context (Hbase : 0 <= base) (Hoff : 0 <= offset) (Hrel : base mod 32 = offset mod 32).

Lemma key_mask_eq : u64 (zlen key - 1) = zlen key - 1.
Proof. pose proof key_size_pos. pose proof key_size_range as []. apply wrap_small. unfold in_range. lia. Qed.

Lemma power_of_two_ok : power_of_two_assert (zlen key) = true.
Proof.
  unfold power_of_two_assert. rewrite key_mask_eq. rewrite Hkey at 2.
  rewrite land_mask, <- Hkey, Z.mod_same by (pose proof key_size_pos; lia). done.
Qed.

Lemma multiple_ok (s : Z) : 3 <= s <= 5 -> multiple_assert (zlen key) (2 ^ s - 1) = true.
Proof.
  intros Hs. unfold multiple_assert. rewrite land_mask by lia.
  rewrite (key_multiple s) by lia. done.
Qed.

Lemma relative_mod (s : Z) : 3 <= s <= 5 -> base mod 2 ^ s = offset mod 2 ^ s.
Proof.
  intros Hs.
  assert (forall z, z mod 2 ^ s = z mod 32 mod 2 ^ s) as E; [|by rewrite E, Hrel, <- E].
  intros z. symmetry. apply Z.mod_mod_divide. exists (2 ^ (5 - s)).
  rewrite <- Z.pow_add_r by lia. by replace (5 - s + s) with 5 by lia.
Qed.

Lemma checks_ok (s : Z) (A : Type) (k : option A) : 3 <= s <= 5 ->
  (_ ← check ndebug (power_of_two_assert (zlen key));
   _ ← check ndebug (multiple_assert (zlen key) (2 ^ s - 1)); k) = k.
Proof.
  intros Hs. unfold check. rewrite power_of_two_ok, multiple_ok by done.
  by rewrite orb_true_r.
Qed.

Lemma relative_check_ok (s : Z) (A : Type) (k : option A) : 3 <= s <= 5 ->
  (_ ← check ndebug (relative_alignment_assert base offset (2 ^ s - 1)); k) = k.
Proof.
  intros Hs. unfold check, relative_alignment_assert.
  rewrite !land_mask, (relative_mod s), Z.eqb_refl, orb_true_r by lia. done.
Qed.

Lemma xor_u64_correct : key_base mod 8 = 0 -> block_correct base 3 (xor_u64 base key_base).
Proof.
  intros Hkb n k Ha Hk Hn Hpos Hkw. change (2 ^ 3) with 8 in *. unfold xor_u64.
  rewrite Ha, Z.add_mod, Hkb, Hk by lia. cbn [Z.eqb Z.add Z.modulo Z.div_eucl andb].
  by apply xor_word_step.
Qed.

Lemma xor_vector_correct (s : Z) (aligned : bool) :
  0 <= s -> block_correct base s (xor_vector (2 ^ s) aligned base).
Proof.
  intros Hs n k Ha Hk Hn Hpos Hkw. unfold xor_vector. rewrite Ha, orb_true_r.
  apply xor_block_step; [by apply Z.pow_nonneg|done..].
Qed.

Lemma start_masked (h : Z) : 0 <= h <= zlen buf ->
  xor_masked (Z.to_nat h) buf 0 key (zlen key - 1) (Z.land offset (zlen key - 1)) =
  Some (after (Z.to_nat h), (offset + h) mod zlen key).
Proof.
  intros Hh. rewrite Hkey at 2. rewrite land_mask, <- Hkey by lia.
  pose proof (xor_masked_run (Z.to_nat h) 0 ltac:(lia)) as E. rewrite xored_0, Z.add_0_r in E.
  change (Z.of_nat 0) with 0 in E. rewrite E. simpl. by rewrite Z2Nat.id by lia.
Qed.

Lemma start_plain (h : Z) : 0 <= h <= zlen buf -> offset mod zlen key + h <= zlen key ->
  xor_plain (Z.to_nat h) buf 0 key (Z.land offset (zlen key - 1)) =
  Some (after (Z.to_nat h), offset mod zlen key + h).
Proof.
  intros Hh Hle. rewrite Hkey at 1. rewrite land_mask, <- Hkey by lia.
  pose proof key_size_pos. pose proof (Z.mod_pos_bound offset (zlen key) ltac:(lia)).
  assert (offset mod zlen key mod zlen key = (offset + Z.of_nat 0) mod zlen key) as E0
    by (by rewrite Z.add_0_r, Z.mod_mod by lia).
  pose proof (xor_plain_run (Z.to_nat h) 0 (offset mod zlen key) ltac:(lia) ltac:(lia) ltac:(lia) E0)
    as E. rewrite xored_0 in E. change (Z.of_nat 0) with 0 in E. rewrite E. simpl. by rewrite Z2Nat.id by lia.
Qed.

(** The tail after the head alone. *)
Lemma head_tail_run (h k : Z) : 0 <= h <= len -> k mod zlen key = (offset + h) mod zlen key ->
  ('(mem, _) ← xor_masked (Z.to_nat (len - h)) (after (Z.to_nat h)) h key
     (zlen key - 1) (Z.land k (zlen key - 1)); Some mem) = Some (after (Z.to_nat len)).
Proof.
  intros Hh Hk. pose proof (tail_run len (Z.to_nat h) k) as E.
  rewrite Z2Nat.id in E by lia. apply E; [done|lia|done].
Qed.

(** The block loop and the tail after the head. *)
Lemma head_blocks_run (s h k : Z) (block : list Z -> Z -> list Z -> Z -> option (list Z)) :
  3 <= s <= key_bits -> 0 <= h ->
  block_correct base s block -> loop_position base s len (Z.to_nat h) k ->
  ('(mem, p, remaining, pos) ←
     key_loop (key_loop_fuel (len - h)) block s (after (Z.to_nat h)) h (len - h) key (zlen key) k;
   '(mem, _) ← xor_masked (Z.to_nat remaining) mem p key (zlen key - 1)
                 (Z.land pos (zlen key - 1)); Some mem) = Some (after (Z.to_nat len)).
Proof.
  intros Hs Hh Hb Hp.
  pose proof (blocks_and_tail base s block Hs Hb len (Z.to_nat h) k Hlen Hlen64 Hp) as E.
  by rewrite Z2Nat.id in E by lia.
Qed.

Lemma plain_mod (h : Z) : (offset mod zlen key + h) mod zlen key = (offset + h) mod zlen key.
Proof. apply Zplus_mod_idemp_l. Qed.

Lemma wrapped_mod (z : Z) : z mod zlen key mod zlen key = z mod zlen key.
Proof. apply Zmod_mod. Qed.

Lemma scalar_run : key_base mod 8 = 0 ->
  vernam_encrypt_scalar ndebug base key_base buf len key (zlen key) offset =
  Some (after (Z.to_nat len)).
Proof.
  intros Hkb. unfold vernam_encrypt_scalar. destruct (len =? 0) eqn:E0.
  { apply Z.eqb_eq in E0 as ->. by rewrite xored_0. }
  rewrite (checks_ok 3), (relative_check_ok 3), key_mask_eq by lia.
  destruct (head_position base 3 ltac:(lia) len Hbase Hoff (relative_mod 3 ltac:(lia)) ltac:(lia))
    as (Hh & Ha & Hle & Hp). change (2 ^ 3) with 8 in *.
  set (h := head_length base 8 len) in *. cbv zeta. rewrite start_masked by lia.
  cbn [mbind option_bind]. destruct (len - h =? 0) eqn:Er.
  { apply Z.eqb_eq in Er. do 2 f_equal. lia. }
  apply Z.eqb_neq in Er. apply (head_blocks_run 3); [lia|lia|by apply xor_u64_correct|].
  pose proof (loop_position_wrap base 3 ltac:(lia) _ _ _ (Hp ltac:(lia))) as Hw.
  by rewrite Z2Nat.id in Hw by lia.
Qed.

Lemma sse_run :
  vernam_encrypt_sse ndebug base buf len key (zlen key) offset = Some (after (Z.to_nat len)).
Proof.
  unfold vernam_encrypt_sse. rewrite (checks_ok 4), key_mask_eq by lia.
  destruct (head_position base 4 ltac:(lia) len Hbase Hoff (relative_mod 4 ltac:(lia)) ltac:(lia))
    as (Hh & Ha & Hle & Hp). change (2 ^ 4) with 16 in *.
  set (h := head_length base 16 len) in *. cbv zeta. rewrite start_masked by lia.
  cbn [mbind option_bind]. destruct (len - h <? 16) eqn:Er.
  { apply head_tail_run; [lia|]. apply wrapped_mod. }
  apply Z.ltb_ge in Er. apply (head_blocks_run 4); [lia|lia|by apply (xor_vector_correct 4)|].
  pose proof (loop_position_wrap base 4 ltac:(lia) _ _ _ (Hp ltac:(lia))) as Hw.
  by rewrite Z2Nat.id in Hw by lia.
Qed.

Lemma avx2_run :
  vernam_encrypt_avx2 ndebug base buf len key (zlen key) offset = Some (after (Z.to_nat len)).
Proof.
  unfold vernam_encrypt_avx2. rewrite (checks_ok 5), (relative_check_ok 5), key_mask_eq by lia.
  destruct (head_position base 5 ltac:(lia) len Hbase Hoff (relative_mod 5 ltac:(lia)) ltac:(lia))
    as (Hh & Ha & Hle & Hp). change (2 ^ 5) with 32 in *.
  set (h := head_length base 32 len) in *. cbv zeta. rewrite start_plain by lia.
  cbn [mbind option_bind]. destruct (len - h <? 32) eqn:Er.
  { apply head_tail_run; [lia|]. apply plain_mod. }
  apply Z.ltb_ge in Er. apply (head_blocks_run 5); [lia|lia|by apply (xor_vector_correct 5)|].
  apply Hp. lia.
Qed.

Lemma neon_run :
  vernam_encrypt_neon ndebug base buf len key (zlen key) offset = Some (after (Z.to_nat len)).
Proof.
  unfold vernam_encrypt_neon. rewrite (checks_ok 4), (relative_check_ok 4), key_mask_eq by lia.
  destruct (head_position base 4 ltac:(lia) len Hbase Hoff (relative_mod 4 ltac:(lia)) ltac:(lia))
    as (Hh & Ha & Hle & Hp). change (2 ^ 4) with 16 in *.
  set (h := head_length base 16 len) in *. cbv zeta. rewrite start_plain by lia.
  cbn [mbind option_bind]. destruct (Z.eq_dec h len) as [E|E].
  - unfold key_loop_fuel. rewrite E, Z.sub_diag. cbn [key_loop Z.to_nat].
    change (2 ^ 4 <=? 0) with false. cbn [mbind option_bind Z.to_nat xor_masked].
    done.
  - apply (head_blocks_run 4); [lia|lia|by apply (xor_vector_correct 4)|]. apply Hp. lia.
Qed.

End Loops.

(** The documented contract of the entry point: a power-of-two key of at least 32 bytes,
    8-byte aligned, and a buffer aligned to 32 bytes relative to the stream offset. *)
Record call_ok (base key_base len : Z) (buf key : list Z) (offset : Z) : Prop := {
  key_power : exists k, 5 <= k < 64 /\ zlen key = 2 ^ k;
  key_aligned : key_base mod 8 = 0;
  key_is_bytes : bytes_ok key;
  buf_is_bytes : bytes_ok buf;
  len_fits : 0 <= len <= zlen buf /\ len < 2 ^ 64;
  nonnegative : 0 <= base /\ 0 <= offset;
  relative_alignment : base mod 32 = offset mod 32;
}.

Lemma entry_run (b : build) (base key_base len : Z) (buf key : list Z) (offset : Z) :
  call_ok base key_base len buf key offset ->
  vernam_encrypt_32bytes_aligned b base key_base buf len key (zlen key) offset =
  Some (xored key offset (Z.to_nat len) buf).
Proof.
  intros [(k & Hk & E) Hkb Hkey Hbuf [Hl Hl64] [Hb Ho] Hrel].
  pose proof (scalar_run key buf offset k ltac:(lia) E Hkey Hbuf base key_base len (ndebug_ b)
    ltac:(lia) Hl Hl64 Hb Ho Hrel Hkb) as Hscalar.
  pose proof (sse_run key buf offset k ltac:(lia) E Hkey Hbuf base len (ndebug_ b)
    ltac:(lia) Hl Hl64 Hb Ho Hrel) as Hsse.
  pose proof (avx2_run key buf offset k ltac:(lia) E Hkey Hbuf base len (ndebug_ b)
    ltac:(lia) Hl Hl64 Hb Ho Hrel) as Havx2.
  pose proof (neon_run key buf offset k ltac:(lia) E Hkey Hbuf base len (ndebug_ b)
    ltac:(lia) Hl Hl64 Hb Ho Hrel) as Hneon.
  unfold vernam_encrypt_32bytes_aligned.
  destruct (target_ b), (unit_test_mode b) as [[]|], (avx2_support_ b); done.
Qed.

(** A key and a call for the witnesses: 64 bytes of key, a 75-byte buffer at an address
    that is 7 modulo 32, written at stream offset 39, so that the routines go through
    their head, their blocks, the wrap of the key and their tail. *)
Definition sample_key : list Z := map (fun i => (Z.of_nat i * 37 + 11) mod 256) (seq 0 64).
Definition sample_buf (n : nat) : list Z := map (fun i => (Z.of_nat i * 5) mod 256) (seq 0 n).

Lemma sample_call_ok (n : nat) (base offset : Z) :
  0 <= base -> 0 <= offset -> base mod 32 = offset mod 32 -> Z.of_nat n < 2 ^ 64 ->
  call_ok base 0 (Z.of_nat n) (sample_buf n) sample_key offset.
Proof.
  intros Hb Ho Hr Hn.
  assert (zlen (sample_buf n) = Z.of_nat n) as Hz
    by (unfold zlen, sample_buf; by rewrite length_map, length_seq).
  split; [by exists 6|done|by apply bytes_ok_dec| |lia|done|done].
  unfold sample_buf. generalize (seq 0 n) as l. intros l.
  induction l as [|i l IH]; constructor; [|done].
  pose proof (Z.mod_pos_bound (Z.of_nat i * 5) 256). unfold in_range. lia.
Qed.

(** C38. Whatever the target, the build mode and the CPU, a call that respects the
    documented contract ends, fails no assertion, makes no misaligned access, reads and
    writes inside the buffer and the key only, xors byte [i] of the buffer with byte
    [(offset + i) mod key size] of the key for the first [len] bytes, and leaves the rest
    of the buffer alone: the four routines are the same cipher. *)
Theorem vernam_stream_xor (b : build) (base key_base len : Z) (buf key : list Z) (offset : Z) :
  call_ok base key_base len buf key offset ->
  exists out,
    vernam_encrypt_32bytes_aligned b base key_base buf len key (zlen key) offset = Some out /\
    length out = length buf /\
    forall i x, buf !! i = Some x ->
      out !! i = Some (if bool_decide (Z.of_nat i < len)
                       then Z.lxor x (key !!! Z.to_nat ((offset + Z.of_nat i) mod zlen key))
                       else x).
Proof.
  intros Hc. eexists. split; [by apply entry_run|]. split; [apply length_xored|].
  intros i x Hx. rewrite lookup_xored, Hx. simpl. f_equal.
  destruct (decide (Z.of_nat i < len)).
  - by rewrite !bool_decide_true by lia.
  - by rewrite !bool_decide_false by lia.
Qed.

Lemma vernam_stream_xor_witness :
  exists out,
    vernam_encrypt_32bytes_aligned (mk_build false x86 None true) 7 0 (sample_buf 75) 75
      sample_key (zlen sample_key) 39 = Some out /\
    length out = length (sample_buf 75) /\
    forall i x, sample_buf 75 !! i = Some x ->
      out !! i = Some (if bool_decide (Z.of_nat i < 75)
        then Z.lxor x (sample_key !!! Z.to_nat ((39 + Z.of_nat i) mod zlen sample_key)) else x).
Proof. apply (vernam_stream_xor _ 7 0 75), (sample_call_ok 75); done. Defined.

(** Data encrypted in two consecutive pieces, by builds that may differ, at the
    stream offsets where they are written, is decrypted in one go by any build at the
    offset of the first piece: the cipher text depends on the position in the stream
    only. *)
Theorem vernam_pieces_roundtrip (b1 b2 b3 : build) (base1 base2 base3 key_base offset : Z)
    (p1 p2 key : list Z) :
  call_ok base1 key_base (zlen p1) p1 key offset ->
  call_ok base2 key_base (zlen p2) p2 key (offset + zlen p1) ->
  0 <= base3 -> base3 mod 32 = offset mod 32 -> zlen p1 + zlen p2 < 2 ^ 64 ->
  exists c1 c2,
    vernam_encrypt_32bytes_aligned b1 base1 key_base p1 (zlen p1) key (zlen key) offset = Some c1 /\
    vernam_encrypt_32bytes_aligned b2 base2 key_base p2 (zlen p2) key (zlen key)
      (offset + zlen p1) = Some c2 /\
    vernam_encrypt_32bytes_aligned b3 base3 key_base (c1 ++ c2) (zlen (c1 ++ c2)) key (zlen key)
      offset = Some (p1 ++ p2).
Proof.
  intros H1 H2 Hb3 Hrel Hfit. exists (xored key offset (length p1) p1).
  exists (xored key (offset + zlen p1) (length p2) p2). split_and!.
  - rewrite entry_run by done. f_equal. f_equal. apply Nat2Z.id.
  - rewrite entry_run by done. f_equal. f_equal. apply Nat2Z.id.
  - rewrite <- xored_app. rewrite entry_run.
    + rewrite zlen_xored. unfold zlen. rewrite Nat2Z.id, length_app. by rewrite xored_involutive.
    + destruct H1, H2. split; try done; [| |lia].
      * by apply xored_bytes, Forall_app.
      * rewrite zlen_xored, zlen_app. pose proof (zlen_nonneg p1). pose proof (zlen_nonneg p2). lia.
Qed.

Lemma vernam_pieces_roundtrip_witness :
  exists c1 c2,
    vernam_encrypt_32bytes_aligned (mk_build false x86 None true) 0 0 (sample_buf 41) 41
      sample_key (zlen sample_key) 64 = Some c1 /\
    vernam_encrypt_32bytes_aligned (mk_build true arm_neon None false) 9 0 (sample_buf 75) 75
      sample_key (zlen sample_key) 105 = Some c2 /\
    vernam_encrypt_32bytes_aligned (mk_build false x86 (Some scalar) false) 96 0 (c1 ++ c2)
      (zlen (c1 ++ c2)) sample_key (zlen sample_key) 64 = Some (sample_buf 41 ++ sample_buf 75).
Proof.
  apply (vernam_pieces_roundtrip _ _ _ 0 9 96 0 64 (sample_buf 41) (sample_buf 75));
    [by apply (sample_call_ok 41)|by apply (sample_call_ok 75)|done..].
Defined.

(** Without the relative alignment, which only [vernam_encrypt_sse] does not assert, the
    block loop stops making progress in front of the end of the key and never ends. *)
Lemma sse_misaligned_stuck (fuel : nat) (base : Z) (mem : list Z) (p remaining : Z) (key : list Z)
    (key_size pos : Z) :
  0 <= pos -> pos < key_size < 2 ^ 64 -> key_size - pos < 16 <= remaining ->
  key_loop fuel (xor_vector 16 true base) 4 mem p remaining key key_size pos = None.
Proof.
  intros Hp Hk Hr. induction fuel as [|fuel IH]; unfold key_loop; fold key_loop;
    change (2 ^ 4) with 16; rewrite (proj2 (Z.leb_le 16 remaining)) by lia; [done|].
  cbv zeta. rewrite (wrap_small 64 (key_size - pos)) by (unfold in_range; lia).
  rewrite (proj2 (Z.ltb_lt (key_size - pos) remaining)) by lia.
  rewrite (land_not_mask _ 4) by (unfold in_range; lia). rewrite Z.div_small by lia.
  cbn [Z.mul]. rewrite Z.shiftr_0_l. cbn [Z.to_nat xor_blocks mbind option_bind].
  rewrite !Z.add_0_r, Z.sub_0_r, (wrap_small 64 pos) by (unfold in_range; lia).
  rewrite (proj2 (Z.eqb_neq pos key_size)) by lia. exact IH.
Qed.
