(* ===== verification/Aes.v ===== *)
(** * AES in CBC mode

    [src/src/encryption/aes.cpp]: the block cipher of [aes_core] on 16-byte states, its
    key schedule, and [aes::encrypt] and [aes::decrypt], which chain the blocks in place
    in the output buffer. A state is the list of its 16 bytes; every index into one is a
    constant below 16. The expanded key is the vector [round_key_], read and written with
    bounds checks. *)
From Stdlib Require Import String.
From stdpp Require Import base list option numbers.
From Stdlib Require Import ZArith Lia Bool Btauto.
From S2P Require Import Prelude Memory Random.

Inductive enum_cipher_mode := AES_ECB | AES_CBC | AES_CFB | AES_OFB | AES_CTR.
Inductive enum_key_bits := AES_128 | AES_192 | AES_256.

#[export] Instance enum_cipher_mode_eq_dec : EqDecision enum_cipher_mode.
Proof. solve_decision. Defined.

Definition key_bits_value (b : enum_key_bits) : Z :=
  match b with AES_128 => 128 | AES_192 => 192 | AES_256 => 256 end.

(** ** Arithmetic in GF(2^8) *)

Definition xtime (x : Z) : Z :=
  u8 (Z.lxor (Z.shiftl x 1) (if Z.land x 128 =? 0 then 0 else 27)).

Fixpoint gf_mul_loop (n : nat) (p a b : Z) : Z :=
  match n with
  | O => p
  | S n =>
      let p := if Z.land b 1 =? 0 then p else Z.lxor p a in
      let hi := Z.land a 128 in
      let a := u8 (Z.shiftl a 1) in
      let a := if hi =? 0 then a else Z.lxor a 27 in
      gf_mul_loop n p a (Z.shiftr b 1)
  end.

Definition gf_mul (a b : Z) : Z := gf_mul_loop 8 0 a b.

(** [while (i > 1) { c = xtime(c); --i; }] *)
Fixpoint rcon_loop (fuel : nat) (c i : Z) : Z :=
  match fuel with
  | O => c
  | S fuel => if 1 <? i then rcon_loop fuel (xtime c) (i - 1) else c
  end.

Definition rcon (i : Z) : Z := if i =? 0 then 0 else rcon_loop 256 1 i.

Definition sbox_ : list Z :=
  [
   99; 124; 119; 123; 242; 107; 111; 197; 48; 1; 103; 43; 254; 215; 171; 118;
   202; 130; 201; 125; 250; 89; 71; 240; 173; 212; 162; 175; 156; 164; 114; 192;
   183; 253; 147; 38; 54; 63; 247; 204; 52; 165; 229; 241; 113; 216; 49; 21;
   4; 199; 35; 195; 24; 150; 5; 154; 7; 18; 128; 226; 235; 39; 178; 117;
   9; 131; 44; 26; 27; 110; 90; 160; 82; 59; 214; 179; 41; 227; 47; 132;
   83; 209; 0; 237; 32; 252; 177; 91; 106; 203; 190; 57; 74; 76; 88; 207;
   208; 239; 170; 251; 67; 77; 51; 133; 69; 249; 2; 127; 80; 60; 159; 168;
   81; 163; 64; 143; 146; 157; 56; 245; 188; 182; 218; 33; 16; 255; 243; 210;
   205; 12; 19; 236; 95; 151; 68; 23; 196; 167; 126; 61; 100; 93; 25; 115;
   96; 129; 79; 220; 34; 42; 144; 136; 70; 238; 184; 20; 222; 94; 11; 219;
   224; 50; 58; 10; 73; 6; 36; 92; 194; 211; 172; 98; 145; 149; 228; 121;
   231; 200; 55; 109; 141; 213; 78; 169; 108; 86; 244; 234; 101; 122; 174; 8;
   186; 120; 37; 46; 28; 166; 180; 198; 232; 221; 116; 31; 75; 189; 139; 138;
   112; 62; 181; 102; 72; 3; 246; 14; 97; 53; 87; 185; 134; 193; 29; 158;
   225; 248; 152; 17; 105; 217; 142; 148; 155; 30; 135; 233; 206; 85; 40; 223;
   140; 161; 137; 13; 191; 230; 66; 104; 65; 153; 45; 15; 176; 84; 187; 22].

Definition rsbox_ : list Z :=
  [
   82; 9; 106; 213; 48; 54; 165; 56; 191; 64; 163; 158; 129; 243; 215; 251;
   124; 227; 57; 130; 155; 47; 255; 135; 52; 142; 67; 68; 196; 222; 233; 203;
   84; 123; 148; 50; 166; 194; 35; 61; 238; 76; 149; 11; 66; 250; 195; 78;
   8; 46; 161; 102; 40; 217; 36; 178; 118; 91; 162; 73; 109; 139; 209; 37;
   114; 248; 246; 100; 134; 104; 152; 22; 212; 164; 92; 204; 93; 101; 182; 146;
   108; 112; 72; 80; 253; 237; 185; 218; 94; 21; 70; 87; 167; 141; 157; 132;
   144; 216; 171; 0; 140; 188; 211; 10; 247; 228; 88; 5; 184; 179; 69; 6;
   208; 44; 30; 143; 202; 63; 15; 2; 193; 175; 189; 3; 1; 19; 138; 107;
   58; 145; 17; 65; 79; 103; 220; 234; 151; 242; 207; 206; 240; 180; 230; 115;
   150; 172; 116; 34; 231; 173; 53; 133; 226; 249; 55; 232; 28; 117; 223; 110;
   71; 241; 26; 113; 29; 41; 197; 137; 111; 183; 98; 14; 170; 24; 190; 27;
   252; 86; 62; 75; 198; 210; 121; 32; 154; 219; 192; 254; 120; 205; 90; 244;
   31; 221; 168; 51; 136; 7; 199; 49; 177; 18; 16; 89; 39; 128; 236; 95;
   96; 81; 127; 169; 25; 181; 74; 13; 45; 229; 122; 159; 147; 201; 156; 239;
   160; 224; 59; 77; 174; 42; 245; 176; 200; 235; 187; 60; 131; 83; 153; 97;
   23; 43; 4; 126; 186; 119; 214; 38; 225; 105; 20; 99; 85; 33; 12; 125].

Definition sbox (b : Z) : Z := sbox_ !!! Z.to_nat b.
Definition rsbox (b : Z) : Z := rsbox_ !!! Z.to_nat b.

(** ** The rounds *)

Definition xor_block (a b : list Z) : list Z := zip_with Z.lxor a b.

Definition add_round_key (s round_key : list Z) : list Z := zip_with Z.lxor s round_key.

Definition sub_bytes (s : list Z) : list Z := map sbox s.
Definition inv_sub_bytes (s : list Z) : list Z := map rsbox s.

(** [s[d] = s[i];] *)
Definition move (d i : nat) (s : list Z) : list Z := <[d := s !!! i]> s.

Definition shift_rows (s : list Z) : list Z :=
  (* row 1 *)
  let t := s !!! 1%nat in
  let s := move 9 13 (move 5 9 (move 1 5 s)) in
  let s := <[13%nat := t]> s in
  (* row 2 *)
  let t := s !!! 2%nat in
  let s := <[10%nat := t]> (move 2 10 s) in
  let t := s !!! 6%nat in
  let s := <[14%nat := t]> (move 6 14 s) in
  (* row 3 *)
  let t := s !!! 15%nat in
  <[3%nat := t]> (move 7 3 (move 11 7 (move 15 11 s))).

Definition inv_shift_rows (s : list Z) : list Z :=
  (* row 1 *)
  let t := s !!! 13%nat in
  let s := move 5 1 (move 9 5 (move 13 9 s)) in
  let s := <[1%nat := t]> s in
  (* row 2 *)
  let t := s !!! 2%nat in
  let s := <[10%nat := t]> (move 2 10 s) in
  let t := s !!! 6%nat in
  let s := <[14%nat := t]> (move 6 14 s) in
  (* row 3 *)
  let t := s !!! 3%nat in
  <[15%nat := t]> (move 11 15 (move 7 11 (move 3 7 s))).

Definition mix_column (s : list Z) (c : nat) : list Z :=
  let i := (4 * c)%nat in
  let a0 := s !!! (i + 0)%nat in
  let a1 := s !!! (i + 1)%nat in
  let a2 := s !!! (i + 2)%nat in
  let a3 := s !!! (i + 3)%nat in
  let t := Z.lxor (Z.lxor (Z.lxor a0 a1) a2) a3 in
  let u := a0 in
  let s := <[(i + 0)%nat := Z.lxor (s !!! (i + 0)%nat) (Z.lxor t (xtime (Z.lxor a0 a1)))]> s in
  let s := <[(i + 1)%nat := Z.lxor (s !!! (i + 1)%nat) (Z.lxor t (xtime (Z.lxor a1 a2)))]> s in
  let s := <[(i + 2)%nat := Z.lxor (s !!! (i + 2)%nat) (Z.lxor t (xtime (Z.lxor a2 a3)))]> s in
  <[(i + 3)%nat := Z.lxor (s !!! (i + 3)%nat) (Z.lxor t (xtime (Z.lxor a3 u)))]> s.

Definition mix_columns (s : list Z) : list Z := fold_left mix_column [0; 1; 2; 3]%nat s.

Definition inv_mix_column (s : list Z) (c : nat) : list Z :=
  let i := (4 * c)%nat in
  let a0 := s !!! (i + 0)%nat in
  let a1 := s !!! (i + 1)%nat in
  let a2 := s !!! (i + 2)%nat in
  let a3 := s !!! (i + 3)%nat in
  let row m0 m1 m2 m3 :=
    Z.lxor (Z.lxor (Z.lxor (gf_mul a0 m0) (gf_mul a1 m1)) (gf_mul a2 m2)) (gf_mul a3 m3) in
  let s := <[(i + 0)%nat := row 14 11 13 9]> s in
  let s := <[(i + 1)%nat := row 9 14 11 13]> s in
  let s := <[(i + 2)%nat := row 13 9 14 11]> s in
  <[(i + 3)%nat := row 11 13 9 14]> s.

Definition inv_mix_columns (s : list Z) : list Z := fold_left inv_mix_column [0; 1; 2; 3]%nat s.

(** ** The core *)

Record aes_core := mk_aes_core {
  nb_ : Z;
  key_size_ : Z;
  nk_ : Z;
  nr_ : Z;
  round_key_words_ : Z;
  round_key_ : list Z;
}.

Definition new_aes_core (key_bits : enum_key_bits) : aes_core :=
  let nb := 4 in
  let key_size := key_bits_value key_bits / 8 in
  let nk := key_size / 4 in
  let nr := nk + 6 in
  let round_key_words := nb * (nr + 1) in
  let round_key_bytes := round_key_words * 4 in
  mk_aes_core nb key_size nk nr round_key_words (replicate (Z.to_nat round_key_bytes) 0).

(** [for (i = 0; i < nk_; ++i)]: the words of the key. *)
Fixpoint copy_key_words (n : nat) (i : Z) (key rk : list Z) : option (list Z) :=
  match n with
  | O => Some rk
  | S n =>
      word ← load key (4 * i) 4;
      rk ← store rk (4 * i) word;
      copy_key_words n (i + 1) key rk
  end.

Definition rot_word (temp : list Z) : list Z :=
  let t := temp !!! 0%nat in
  <[3%nat := t]> (move 2 3 (move 1 2 (move 0 1 temp))).

Definition sub_word (temp : list Z) : list Z := map sbox temp.

(** What is xored to the word [nk] positions back to give word [i]. *)
Definition schedule_word (nk i : Z) (temp : list Z) : list Z :=
  if i mod nk =? 0 then
    let temp := sub_word (rot_word temp) in
    <[0%nat := Z.lxor (temp !!! 0%nat) (rcon (u8 (i / nk)))]> temp
  else if (6 <? nk) && (i mod nk =? 4) then sub_word temp
  else temp.

Fixpoint expand_words (n : nat) (nk i : Z) (rk : list Z) : option (list Z) :=
  match n with
  | O => Some rk
  | S n =>
      temp ← load rk (4 * (i - 1)) 4;
      old ← load rk (4 * (i - nk)) 4;
      rk ← store rk (4 * i) (zip_with Z.lxor old (schedule_word nk i temp));
      expand_words n nk (i + 1) rk
  end.

Definition key_expansion (core : aes_core) (key : list Z) : option aes_core :=
  rk ← copy_key_words (Z.to_nat (nk_ core)) 0 key (round_key_ core);
  rk ← expand_words (Z.to_nat (round_key_words_ core - nk_ core)) (nk_ core) (nk_ core) rk;
  Some (mk_aes_core (nb_ core) (key_size_ core) (nk_ core) (nr_ core) (round_key_words_ core) rk).

(** The 16 bytes at [round_key_.data() + 16 * round]. *)
Definition round_key_at (core : aes_core) (round : Z) : option (list Z) :=
  load (round_key_ core) (16 * round) 16.

(** The body of the loop over the rounds. *)
Definition encrypt_round (s k : list Z) : list Z :=
  add_round_key (mix_columns (shift_rows (sub_bytes s))) k.

(** [for (round = 1; round < nr_; ++round)], [n] rounds from [round]. *)
Fixpoint encrypt_rounds (n : nat) (round : Z) (core : aes_core) (state : list Z)
  : option (list Z) :=
  match n with
  | O => Some state
  | S n =>
      k ← round_key_at core round;
      encrypt_rounds n (round + 1) core (encrypt_round state k)
  end.

Definition encrypt_block (core : aes_core) (block : list Z) : option (list Z) :=
  k ← round_key_at core 0;
  state ← encrypt_rounds (Z.to_nat (nr_ core - 1)) 1 core (add_round_key block k);
  k ← round_key_at core (nr_ core);
  Some (add_round_key (shift_rows (sub_bytes state)) k).

(** [for (round = nr_; round-- > 1;)]: rounds [n], [n - 1], ..., 1. *)
Fixpoint decrypt_rounds (n : nat) (core : aes_core) (state : list Z) : option (list Z) :=
  match n with
  | O => Some state
  | S n' =>
      k ← round_key_at core (Z.of_nat n);
      decrypt_rounds n' core
        (inv_mix_columns (add_round_key (inv_sub_bytes (inv_shift_rows state)) k))
  end.

Definition decrypt_block (core : aes_core) (block : list Z) : option (list Z) :=
  k ← round_key_at core (nr_ core);
  state ← decrypt_rounds (Z.to_nat (nr_ core - 1)) core (add_round_key block k);
  k ← round_key_at core 0;
  Some (add_round_key (inv_sub_bytes (inv_shift_rows state)) k).

(** ** The class [aes] *)

Record aes := mk_aes { aes_key_bits : enum_key_bits; aes_key_size : Z; aes_iv_size : Z }.

(** The constructor asserts the mode. *)
Definition new_aes (mode : enum_cipher_mode) (key_bits : enum_key_bits) : option aes :=
  if decide (mode = AES_CBC)
  then Some (mk_aes key_bits (key_bits_value key_bits / 8) 16) else None.

(** [for (i = 0; i < data.size(); ++i) data[i] = rand() & 0xff;] *)
Fixpoint fill_random_loop (n : nat) (now : Z) (s : random_state) : list Z * random_state :=
  match n with
  | O => ([], s)
  | S n =>
      let '(x, s) := rand now s in
      let '(data, s) := fill_random_loop n now s in
      (u8 (Z.land x 255) :: data, s)
  end.

(** [epoch_ms] is the value of [high_performance_epoch_ms()]. *)
Definition fill_random (size epoch_ms now : Z) (s : random_state) : list Z * random_state :=
  let seed := u32 (epoch_ms mod (2 ^ 32 - 1)) in
  fill_random_loop (Z.to_nat size) now (srand seed s).

Definition generate_key (a : aes) (epoch_ms now : Z) (s : random_state) : list Z * random_state :=
  fill_random (aes_key_size a) epoch_ms now s.

Definition generate_iv (a : aes) (epoch_ms now : Z) (s : random_state) : list Z * random_state :=
  fill_random (aes_iv_size a) epoch_ms now s.

Definition is_block_aligned (n : Z) : bool := n mod 16 =? 0.

(** [true] or [false] with the message logged to the console. *)
Inductive outcome := Done | Failed (message : string).

(** [for (i = 0; i < n; i += 16)] of [encrypt]: [blocks] blocks left. *)
Fixpoint encrypt_loop (blocks : nat) (core : aes_core) (buf : list Z) (i : Z) (chain : list Z)
  : option (list Z) :=
  match blocks with
  | O => Some buf
  | S blocks =>
      block ← load buf i 16;
      block ← encrypt_block core (xor_block block chain);
      buf ← store buf i block;
      encrypt_loop blocks core buf (i + 16) block
  end.

Fixpoint decrypt_loop (blocks : nat) (core : aes_core) (buf : list Z) (i : Z) (prev : list Z)
  : option (list Z) :=
  match blocks with
  | O => Some buf
  | S blocks =>
      cur ← load buf i 16;
      block ← decrypt_block core cur;
      buf ← store buf i (xor_block block prev);
      decrypt_loop blocks core buf (i + 16) cur
  end.

(** [out] is the output buffer with its old content; both operations work in it. *)
Definition encrypt (a : aes) (key iv plaintext out : list Z) : option (outcome * list Z) :=
  if negb (zlen key =? aes_key_size a) then Some (Failed "aes::encrypt: key size mismatch", out)
  else if negb (zlen iv =? aes_iv_size a) then Some (Failed "aes::encrypt: iv size mismatch", out)
  else if zlen out <? zlen plaintext then
    Some (Failed "aes::decrypt: output buffer too small", out)
  else
    let n := zlen plaintext in
    if negb (is_block_aligned n) then Some (Failed "aes::encrypt: plaintext size mismatch", out)
    else if n =? 0 then Some (Done, out)
    else
      buf ← store out 0 plaintext;
      core ← key_expansion (new_aes_core (aes_key_bits a)) key;
      chain ← load iv 0 (aes_iv_size a);
      buf ← encrypt_loop (Z.to_nat (n / 16)) core buf 0 chain;
      Some (Done, buf).

Definition decrypt (a : aes) (key iv ciphertext out : list Z) : option (outcome * list Z) :=
  if negb (zlen key =? aes_key_size a) then Some (Failed "aes::decrypt: key size mismatch", out)
  else if negb (zlen iv =? aes_iv_size a) then Some (Failed "aes::decrypt: iv size mismatch", out)
  else if zlen out <? zlen ciphertext then
    Some (Failed "aes::decrypt: output buffer too small", out)
  else
    let n := zlen ciphertext in
    if negb (is_block_aligned n) then Some (Failed "aes::decrypt: ciphertext size mismatch", out)
    else if n =? 0 then Some (Done, out)
    else
      buf ← store out 0 ciphertext;
      core ← key_expansion (new_aes_core (aes_key_bits a)) key;
      prev ← load iv 0 16;
      buf ← decrypt_loop (Z.to_nat (n / 16)) core buf 0 prev;
      Some (Done, buf).

(** FIPS-197, appendix C: the example vectors. *)
Definition fips_block : list Z := map (fun i => 17 * Z.of_nat i) (seq 0 16).
Definition fips_key (n : nat) : list Z := map Z.of_nat (seq 0 n).

Example fips_128 :
  (core ← key_expansion (new_aes_core AES_128) (fips_key 16); encrypt_block core fips_block) =
  Some [0x69; 0xc4; 0xe0; 0xd8; 0x6a; 0x7b; 0x04; 0x30; 0xd8; 0xcd; 0xb7; 0x80; 0x70; 0xb4; 0xc5; 0x5a].
Proof. vm_compute. reflexivity. Qed.

Example fips_192 :
  (core ← key_expansion (new_aes_core AES_192) (fips_key 24); encrypt_block core fips_block) =
  Some [0xdd; 0xa9; 0x7c; 0xa4; 0x86; 0x4c; 0xdf; 0xe0; 0x6e; 0xaf; 0x70; 0xa0; 0xec; 0x0d; 0x71; 0x91].
Proof. vm_compute. reflexivity. Qed.

Example fips_256 :
  (core ← key_expansion (new_aes_core AES_256) (fips_key 32); encrypt_block core fips_block) =
  Some [0x8e; 0xa2; 0xb7; 0xca; 0x51; 0x67; 0x45; 0xbf; 0xea; 0xfc; 0x49; 0x90; 0x4b; 0x49; 0x60; 0x89].
Proof. vm_compute. reflexivity. Qed.

(** ** GF(2)-linearity *)

Lemma high_bit (x : Z) : (Z.land x 128 =? 0) = negb (Z.testbit x 7).
Proof. by apply (land_pow2_eqb x 7). Qed.

Lemma xtime_alt (x : Z) :
  xtime x = Z.lxor (u8 (Z.shiftl x 1)) (if Z.testbit x 7 then 27 else 0).
Proof.
  unfold xtime. rewrite wrap_lxor, high_bit by lia. by destruct (Z.testbit x 7).
Qed.

Lemma xtime_range (x : Z) : is_byte (xtime x).
Proof. by apply wrap_range. Qed.

Lemma xtime_lxor (x y : Z) : xtime (Z.lxor x y) = Z.lxor (xtime x) (xtime y).
Proof.
  rewrite !xtime_alt, Z.shiftl_lxor, wrap_lxor, Z.lxor_spec, lxor_medial by lia.
  f_equal. by destruct (Z.testbit x 7), (Z.testbit y 7).
Qed.

Lemma gf_mul_loop_S (n : nat) (p a b : Z) :
  gf_mul_loop (S n) p a b =
  gf_mul_loop n (if Z.land b 1 =? 0 then p else Z.lxor p a) (xtime a) (Z.shiftr b 1).
Proof.
  cbn [gf_mul_loop]. f_equal. rewrite xtime_alt, high_bit.
  destruct (Z.testbit a 7); simpl; [done|]. by rewrite Z.lxor_0_r.
Qed.

Lemma gf_mul_loop_lxor (n : nat) (p q a c b : Z) :
  gf_mul_loop n (Z.lxor p q) (Z.lxor a c) b = Z.lxor (gf_mul_loop n p a b) (gf_mul_loop n q c b).
Proof.
  revert p q a c b. induction n as [|n IH]; intros; [done|].
  rewrite !gf_mul_loop_S, xtime_lxor, <- IH. f_equal. destruct (_ =? _); [done|].
  apply lxor_medial.
Qed.

Lemma gf_mul_lxor (a c b : Z) : gf_mul (Z.lxor a c) b = Z.lxor (gf_mul a b) (gf_mul c b).
Proof. unfold gf_mul. by rewrite <- gf_mul_loop_lxor. Qed.

Lemma gf_mul_loop_range (n : nat) (p a b : Z) :
  is_byte p -> is_byte a -> is_byte (gf_mul_loop n p a b).
Proof.
  revert p a b. induction n as [|n IH]; intros p a b Hp Ha; [done|].
  rewrite gf_mul_loop_S. apply IH; [|apply xtime_range].
  destruct (_ =? _); [done|]. by apply lxor_range.
Qed.

Lemma gf_mul_range (a b : Z) : is_byte a -> is_byte (gf_mul a b).
Proof. intros. apply gf_mul_loop_range; [by apply in_range_dec|done]. Qed.

(** Columns of four bytes, and the linear functions of a column. *)
Record column := Col { c0 : Z; c1 : Z; c2 : Z; c3 : Z }.

Definition cxor (u v : column) : column :=
  Col (Z.lxor (c0 u) (c0 v)) (Z.lxor (c1 u) (c1 v)) (Z.lxor (c2 u) (c2 v)) (Z.lxor (c3 u) (c3 v)).

Definition linear (f : column -> Z) : Prop := forall u v, f (cxor u v) = Z.lxor (f u) (f v).

Lemma linear_lxor (f g : column -> Z) :
  linear f -> linear g -> linear (fun v => Z.lxor (f v) (g v)).
Proof. intros Hf Hg u v. rewrite Hf, Hg. apply lxor_medial. Qed.

Lemma linear_xtime (f : column -> Z) : linear f -> linear (fun v => xtime (f v)).
Proof. intros Hf u v. rewrite Hf. apply xtime_lxor. Qed.

Lemma linear_gf_mul (f : column -> Z) (m : Z) : linear f -> linear (fun v => gf_mul (f v) m).
Proof. intros Hf u v. rewrite Hf. apply gf_mul_lxor. Qed.

Lemma linear_c0 : linear (fun v => c0 v).
Proof. done. Qed.
Lemma linear_c1 : linear (fun v => c1 v).
Proof. done. Qed.
Lemma linear_c2 : linear (fun v => c2 v).
Proof. done. Qed.
Lemma linear_c3 : linear (fun v => c3 v).
Proof. done. Qed.

Ltac solve_linear :=
  repeat match goal with
  | |- linear (fun v => Z.lxor _ _) => apply linear_lxor
  | |- linear (fun v => xtime _) => apply linear_xtime
  | |- linear (fun v => gf_mul _ _) => apply linear_gf_mul
  | |- _ => first [ exact linear_c0 | exact linear_c1 | exact linear_c2 | exact linear_c3 ]
  end.

(** A linear function is determined by its values on the columns with one byte. *)
Lemma linear_decompose (f : column -> Z) (v : column) : linear f ->
  f v = Z.lxor (Z.lxor (f (Col (c0 v) 0 0 0)) (f (Col 0 (c1 v) 0 0)))
               (Z.lxor (f (Col 0 0 (c2 v) 0)) (f (Col 0 0 0 (c3 v)))).
Proof.
  intros Hf. rewrite <- !Hf. f_equal. destruct v. unfold cxor. cbn.
  by rewrite !Z.lxor_0_l, !Z.lxor_0_r.
Qed.

(** The two column transformations. *)
Definition mix (v : column) : column :=
  let t := Z.lxor (Z.lxor (Z.lxor (c0 v) (c1 v)) (c2 v)) (c3 v) in
  Col (Z.lxor (c0 v) (Z.lxor t (xtime (Z.lxor (c0 v) (c1 v)))))
      (Z.lxor (c1 v) (Z.lxor t (xtime (Z.lxor (c1 v) (c2 v)))))
      (Z.lxor (c2 v) (Z.lxor t (xtime (Z.lxor (c2 v) (c3 v)))))
      (Z.lxor (c3 v) (Z.lxor t (xtime (Z.lxor (c3 v) (c0 v))))).

Definition unmix_row (m0 m1 m2 m3 : Z) (v : column) : Z :=
  Z.lxor (Z.lxor (Z.lxor (gf_mul (c0 v) m0) (gf_mul (c1 v) m1)) (gf_mul (c2 v) m2)) (gf_mul (c3 v) m3).

Definition unmix (v : column) : column :=
  Col (unmix_row 14 11 13 9 v) (unmix_row 9 14 11 13 v) (unmix_row 13 9 14 11 v)
      (unmix_row 11 13 9 14 v).

Definition column_ok (v : column) : Prop :=
  is_byte (c0 v) /\ is_byte (c1 v) /\ is_byte (c2 v) /\ is_byte (c3 v).

Lemma mix_ok (v : column) : column_ok v -> column_ok (mix v).
Proof.
  intros (H0 & H1 & H2 & H3). unfold column_ok, mix. cbn.
  split_and!; repeat (apply lxor_range; [done| |]); done || apply xtime_range.
Qed.

Lemma unmix_row_range (m0 m1 m2 m3 : Z) (v : column) :
  column_ok v -> is_byte (unmix_row m0 m1 m2 m3 v).
Proof.
  intros (H0 & H1 & H2 & H3). unfold unmix_row.
  repeat (apply lxor_range; [done| |]); by apply gf_mul_range.
Qed.

Lemma unmix_ok (v : column) : column_ok v -> column_ok (unmix v).
Proof. intros H. unfold column_ok, unmix. cbn. split_and!; by apply unmix_row_range. Qed.

(** A row of the composition, on columns of one byte. *)
Definition unit_row_check (f : column -> Z) (d0 d1 d2 d3 : bool) : bool :=
  forallb (fun b => (f (Col b 0 0 0) =? if d0 then b else 0) &&
                    (f (Col 0 b 0 0) =? if d1 then b else 0) &&
                    (f (Col 0 0 b 0) =? if d2 then b else 0) &&
                    (f (Col 0 0 0 b) =? if d3 then b else 0)) all_bytes.

Lemma unit_row (f : column -> Z) (d0 d1 d2 d3 : bool) (v : column) :
  linear f -> unit_row_check f d0 d1 d2 d3 = true -> column_ok v ->
  f v = Z.lxor (Z.lxor (if d0 then c0 v else 0) (if d1 then c1 v else 0))
               (Z.lxor (if d2 then c2 v else 0) (if d3 then c3 v else 0)).
Proof.
  intros Hf Hc (H0 & H1 & H2 & H3). rewrite linear_decompose by done.
  pose proof (forallb_bytes _ Hc) as E. cbv beta in E.
  pose proof (E _ H0) as E0. pose proof (E _ H1) as E1.
  pose proof (E _ H2) as E2. pose proof (E _ H3) as E3.
  rewrite !andb_true_iff, !Z.eqb_eq in *. f_equal; f_equal; tauto.
Qed.

Lemma row_linear (m0 m1 m2 m3 : Z) : linear (fun v => unmix_row m0 m1 m2 m3 (mix v)).
Proof. unfold unmix_row, mix. cbn [c0 c1 c2 c3]. solve_linear. Qed.

Lemma unit_rows :
  unit_row_check (fun v => unmix_row 14 11 13 9 (mix v)) true false false false = true /\
  unit_row_check (fun v => unmix_row 9 14 11 13 (mix v)) false true false false = true /\
  unit_row_check (fun v => unmix_row 13 9 14 11 (mix v)) false false true false = true /\
  unit_row_check (fun v => unmix_row 11 13 9 14 (mix v)) false false false true = true.
Proof. split_and!; vm_compute; reflexivity. Qed.

Lemma unmix_mix (v : column) : column_ok v -> unmix (mix v) = v.
Proof.
  intros Hv. destruct unit_rows as (H0 & H1 & H2 & H3). unfold unmix.
  rewrite (unit_row _ _ _ _ _ v (row_linear 14 11 13 9) H0 Hv).
  rewrite (unit_row _ _ _ _ _ v (row_linear 9 14 11 13) H1 Hv).
  rewrite (unit_row _ _ _ _ _ v (row_linear 13 9 14 11) H2 Hv).
  rewrite (unit_row _ _ _ _ _ v (row_linear 11 13 9 14) H3 Hv).
  destruct v. cbn [c0 c1 c2 c3]. by rewrite !Z.lxor_0_r.
Qed.

(** ** Rounds and their inverses *)

Definition state_ok (s : list Z) : Prop := length s = 16%nat /\ bytes_ok s.

Ltac destruct_state s :=
  do 16 (destruct s as [|? s]; [discriminate|]); destruct s as [|? s]; [|discriminate].

Lemma sbox_tables :
  forallb (fun b => (rsbox (sbox b) =? b) && (sbox (rsbox b) =? b) &&
    (0 <=? sbox b) && (sbox b <? 256) && (0 <=? rsbox b) && (rsbox b <? 256)) all_bytes = true.
Proof. vm_compute. reflexivity. Qed.

Lemma sbox_facts (b : Z) : is_byte b -> rsbox (sbox b) = b /\ is_byte (sbox b) /\ is_byte (rsbox b).
Proof.
  intros Hb. pose proof (forallb_bytes _ sbox_tables b Hb) as H. cbv beta in H.
  unfold in_range. change (2 ^ 8) with 256. lia.
Qed.

Lemma zip_lxor_ok (a b : list Z) :
  bytes_ok a -> bytes_ok b -> bytes_ok (zip_with Z.lxor a b).
Proof.
  intros Ha. revert b. induction Ha as [|x a Hx Ha IH]; intros b Hb; [constructor|].
  destruct Hb as [|y b Hy Hb]; [constructor|]. cbn. constructor; [|by apply IH].
  by apply lxor_range.
Qed.

Lemma zip_lxor_involutive (a b : list Z) :
  (length a <= length b)%nat -> zip_with Z.lxor (zip_with Z.lxor a b) b = a.
Proof.
  revert b. induction a as [|x a IH]; intros [|y b] H; cbn in *; try done; [lia|].
  rewrite IH by lia. by rewrite Z.lxor_assoc, Z.lxor_nilpotent, Z.lxor_0_r.
Qed.

Lemma zip_lxor_state (a b : list Z) : state_ok a -> state_ok b -> state_ok (zip_with Z.lxor a b).
Proof.
  intros [La Ha] [Lb Hb]. split; [|by apply zip_lxor_ok]. rewrite length_zip_with. lia.
Qed.

Lemma sub_bytes_ok (s : list Z) : state_ok s -> state_ok (sub_bytes s).
Proof.
  intros [L H]. split; [by unfold sub_bytes; rewrite length_map|].
  unfold sub_bytes. clear L. induction H; constructor; [|done]. by apply sbox_facts.
Qed.

Lemma inv_sub_bytes_sub_bytes (s : list Z) : bytes_ok s -> inv_sub_bytes (sub_bytes s) = s.
Proof.
  induction 1 as [|b s Hb Hs IH]; [done|]. cbn [sub_bytes inv_sub_bytes map] in *.
  f_equal; [by apply sbox_facts|exact IH].
Qed.

Lemma shift_rows_ok (s : list Z) : state_ok s -> state_ok (shift_rows s).
Proof.
  intros [L H]. split; [unfold shift_rows, move; by rewrite !length_insert|].
  destruct_state s. rewrite !Forall_cons_iff in H. cbn. rewrite !Forall_cons_iff. tauto.
Qed.

Lemma inv_shift_rows_shift_rows (s : list Z) : length s = 16%nat -> inv_shift_rows (shift_rows s) = s.
Proof. intros L. by destruct_state s. Qed.

Definition of_column (v : column) : list Z := [c0 v; c1 v; c2 v; c3 v].

Lemma state_columns (s : list Z) : state_ok s -> exists u0 u1 u2 u3,
  column_ok u0 /\ column_ok u1 /\ column_ok u2 /\ column_ok u3 /\
  s = of_column u0 ++ of_column u1 ++ of_column u2 ++ of_column u3.
Proof.
  intros [L H]. destruct_state s. rewrite !Forall_cons_iff in H.
  exists (Col z z0 z1 z2), (Col z3 z4 z5 z6), (Col z7 z8 z9 z10), (Col z11 z12 z13 z14).
  unfold column_ok. cbn. tauto.
Qed.

Lemma columns_ok (u0 u1 u2 u3 : column) :
  column_ok u0 -> column_ok u1 -> column_ok u2 -> column_ok u3 ->
  state_ok (of_column u0 ++ of_column u1 ++ of_column u2 ++ of_column u3).
Proof.
  intros (? & ? & ? & ?) (? & ? & ? & ?) (? & ? & ? & ?) (? & ? & ? & ?).
  split; [done|]. repeat (constructor; [done|]). constructor.
Qed.

Lemma mix_columns_columns (u0 u1 u2 u3 : column) :
  mix_columns (of_column u0 ++ of_column u1 ++ of_column u2 ++ of_column u3) =
  of_column (mix u0) ++ of_column (mix u1) ++ of_column (mix u2) ++ of_column (mix u3).
Proof. reflexivity. Qed.

Lemma inv_mix_columns_columns (u0 u1 u2 u3 : column) :
  inv_mix_columns (of_column u0 ++ of_column u1 ++ of_column u2 ++ of_column u3) =
  of_column (unmix u0) ++ of_column (unmix u1) ++ of_column (unmix u2) ++ of_column (unmix u3).
Proof. reflexivity. Qed.

Lemma mix_columns_ok (s : list Z) : state_ok s -> state_ok (mix_columns s).
Proof.
  intros H. destruct (state_columns s H) as (u0 & u1 & u2 & u3 & ? & ? & ? & ? & ->).
  rewrite mix_columns_columns. apply columns_ok; by apply mix_ok.
Qed.

Lemma inv_mix_columns_mix_columns (s : list Z) : state_ok s -> inv_mix_columns (mix_columns s) = s.
Proof.
  intros H. destruct (state_columns s H) as (u0 & u1 & u2 & u3 & ? & ? & ? & ? & ->).
  rewrite mix_columns_columns, inv_mix_columns_columns, !unmix_mix by done. done.
Qed.

(** ** The key schedule *)

Lemma load_total (mem : list Z) (off n : Z) : bytes_ok mem ->
  0 <= off -> 0 <= n -> off + n <= zlen mem ->
  exists bs, load mem off n = Some bs /\ length bs = Z.to_nat n /\ bytes_ok bs.
Proof.
  intros Hm H0 Hn Hl. rewrite load_Some by done. eexists. split; [done|].
  split; [unfold zlen in Hl; rewrite length_take, length_drop; lia|].
  by apply Forall_take, Forall_drop.
Qed.

Lemma store_total (mem : list Z) (off : Z) (bs : list Z) : bytes_ok mem -> bytes_ok bs ->
  0 <= off -> off + zlen bs <= zlen mem ->
  exists mem', store mem off bs = Some mem' /\ length mem' = length mem /\ bytes_ok mem'.
Proof.
  intros Hm Hb H0 Hl. destruct (store mem off bs) as [mem'|] eqn:E.
  - exists mem'. split; [done|]. split; [exact (store_length _ _ _ _ E)|]. exact (store_bytes_ok _ _ _ _ E Hm Hb).
  - rewrite store_Some in E by done. done.
Qed.

Lemma copy_key_words_total (n : nat) (i : Z) (key rk : list Z) :
  bytes_ok key -> bytes_ok rk -> 0 <= i ->
  4 * (i + Z.of_nat n) <= zlen key -> 4 * (i + Z.of_nat n) <= zlen rk ->
  exists rk', copy_key_words n i key rk = Some rk' /\ length rk' = length rk /\ bytes_ok rk'.
Proof.
  intros Hk. revert i rk. induction n as [|n IH]; intros i rk Hrk Hi H1 H2; [by exists rk|].
  cbn [copy_key_words].
  destruct (load_total key (4 * i) 4) as (w & -> & Lw & Hw); [done|lia..|]. cbn [mbind option_bind].
  destruct (store_total rk (4 * i) w) as (rk1 & -> & L1 & Hrk1); [done|done|lia|unfold zlen in *; lia|].
  cbn [mbind option_bind].
  destruct (IH (i + 1) rk1) as (rk' & -> & L' & ?); [done|lia|lia|unfold zlen in *; lia|].
  exists rk'. split_and!; [done|congruence|done].
Qed.

Lemma rcon_loop_range (fuel : nat) (c i : Z) : is_byte c -> is_byte (rcon_loop fuel c i).
Proof.
  revert c i. induction fuel as [|fuel IH]; intros c i Hc; [done|]. cbn [rcon_loop].
  destruct (1 <? i); [|done]. apply IH, xtime_range.
Qed.

Lemma rcon_range (i : Z) : is_byte (rcon i).
Proof.
  unfold rcon. destruct (i =? 0); [by apply in_range_dec|].
  by apply rcon_loop_range, in_range_dec.
Qed.

Lemma schedule_word_ok (nk i : Z) (temp : list Z) : length temp = 4%nat -> bytes_ok temp ->
  length (schedule_word nk i temp) = 4%nat /\ bytes_ok (schedule_word nk i temp).
Proof.
  intros L H. do 4 (destruct temp as [|? temp]; [discriminate|]).
  destruct temp; [|discriminate]. rewrite !Forall_cons_iff in H.
  destruct H as (H0 & H1 & H2 & H3 & _). unfold schedule_word.
  destruct (_ =? _); [|destruct (_ && _)]; (split; [done|]).
  - change (bytes_ok [Z.lxor (sbox z0) (rcon (u8 (i / nk))); sbox z1; sbox z2; sbox z]).
    rewrite !Forall_cons_iff. split_and!; try (by apply sbox_facts); [|constructor].
    apply lxor_range; [done|by apply sbox_facts|apply rcon_range].
  - change (bytes_ok [sbox z; sbox z0; sbox z1; sbox z2]).
    rewrite !Forall_cons_iff. split_and!; try (by apply sbox_facts). constructor.
  - rewrite !Forall_cons_iff. split_and!; try done.
Qed.

Lemma expand_words_total (n : nat) (nk i : Z) (rk : list Z) :
  bytes_ok rk -> 0 < nk <= i -> 4 * (i + Z.of_nat n) <= zlen rk ->
  exists rk', expand_words n nk i rk = Some rk' /\ length rk' = length rk /\ bytes_ok rk'.
Proof.
  revert i rk. induction n as [|n IH]; intros i rk Hrk Hi H1; [by exists rk|].
  cbn [expand_words].
  destruct (load_total rk (4 * (i - 1)) 4) as (temp & -> & Lt & Ht); [done|lia..|].
  cbn [mbind option_bind].
  destruct (load_total rk (4 * (i - nk)) 4) as (old & -> & Lo & Ho); [done|lia..|].
  cbn [mbind option_bind]. destruct (schedule_word_ok nk i temp Lt Ht) as [Ls Hs].
  destruct (store_total rk (4 * i) (zip_with Z.lxor old (schedule_word nk i temp)))
    as (rk1 & -> & L1 & Hrk1);
    [done|by apply zip_lxor_ok|lia|unfold zlen in *; rewrite length_zip_with; lia|].
  cbn [mbind option_bind].
  destruct (IH (i + 1) rk1) as (rk' & -> & L' & ?); [done|lia|unfold zlen in *; lia|].
  exists rk'. split_and!; [done|congruence|done].
Qed.

(** An expanded key: enough bytes for all the rounds. *)
Definition core_ok (core : aes_core) : Prop :=
  1 <= nr_ core /\ 16 * (nr_ core + 1) <= zlen (round_key_ core) /\ bytes_ok (round_key_ core).

Lemma key_expansion_total (b : enum_key_bits) (key : list Z) :
  zlen key = key_bits_value b / 8 -> bytes_ok key ->
  exists core, key_expansion (new_aes_core b) key = Some core /\ core_ok core /\
    zlen (round_key_ core) = 16 * (nr_ core + 1) /\ nr_ core = key_bits_value b / 32 + 6.
Proof.
  intros Hl Hk. unfold key_expansion.
  assert (bytes_ok (round_key_ (new_aes_core b))) as H0
    by (apply Forall_replicate; by apply in_range_dec).
  destruct (copy_key_words_total (Z.to_nat (nk_ (new_aes_core b))) 0 key (round_key_ (new_aes_core b)))
    as (rk1 & -> & L1 & H1); [done|done|done|rewrite Hl; by destruct b|by destruct b|].
  cbn [mbind option_bind].
  destruct (expand_words_total
    (Z.to_nat (round_key_words_ (new_aes_core b) - nk_ (new_aes_core b))) (nk_ (new_aes_core b))
    (nk_ (new_aes_core b)) rk1) as (rk2 & -> & L2 & H2);
    [done|by destruct b|unfold zlen; rewrite L1; by destruct b|].
  cbn [mbind option_bind]. eexists. split; [done|]. unfold core_ok, zlen. cbn [nr_ round_key_].
  rewrite L2, L1. split_and!; try done; by destruct b.
Qed.

(** ** Blocks *)

Section Block.
Context (core : aes_core) (Hcore : core_ok core).

Lemma round_key_total (r : Z) : 0 <= r <= nr_ core ->
  exists k, round_key_at core r = Some k /\ state_ok k.
Proof.
  intros Hr. destruct Hcore as (? & ? & ?). unfold round_key_at.
  destruct (load_total (round_key_ core) (16 * r) 16) as (k & -> & L & Hk); [done|lia..|].
  by exists k.
Qed.

Lemma encrypt_rounds_total (n : nat) (r : Z) (s : list Z) :
  0 <= r -> r + Z.of_nat n <= nr_ core -> state_ok s ->
  exists s', encrypt_rounds n r core s = Some s' /\ state_ok s'.
Proof.
  revert r s. induction n as [|n IH]; intros r s Hr Hn Hs; [by exists s|]. cbn [encrypt_rounds].
  destruct (round_key_total r) as (k & -> & Hk); [lia|]. cbn [mbind option_bind].
  apply IH; [lia|lia|]. apply zip_lxor_state; [|done].
  by apply mix_columns_ok, shift_rows_ok, sub_bytes_ok.
Qed.

Lemma encrypt_rounds_S (n : nat) (r : Z) (s : list Z) :
  encrypt_rounds (S n) r core s =
  (k ← round_key_at core r; encrypt_rounds n (r + 1) core (encrypt_round s k)).
Proof. reflexivity. Qed.

(** The last round of [n + 1] rounds. *)
Lemma encrypt_rounds_snoc (n : nat) (r : Z) (s : list Z) :
  encrypt_rounds (S n) r core s =
  (s' ← encrypt_rounds n r core s; k ← round_key_at core (r + Z.of_nat n); Some (encrypt_round s' k)).
Proof.
  revert r s. induction n as [|n IH]; intros r s.
  - rewrite encrypt_rounds_S, Z.add_0_r. cbn [encrypt_rounds mbind option_bind]. reflexivity.
  - rewrite encrypt_rounds_S. rewrite (encrypt_rounds_S n r s).
    destruct (round_key_at core r) as [k|]; [|reflexivity]. cbn [mbind option_bind]. rewrite IH.
    replace (r + 1 + Z.of_nat n) with (r + Z.of_nat (S n)) by lia. reflexivity.
Qed.

Lemma decrypt_rounds_inverse (n : nat) (s s' : list Z) :
  Z.of_nat n <= nr_ core -> state_ok s -> encrypt_rounds n 1 core s = Some s' ->
  decrypt_rounds n core (shift_rows (sub_bytes s')) = Some (shift_rows (sub_bytes s)).
Proof.
  intros Hn Hs. revert s'. induction n as [|n IH]; intros s' He; [by injection He as <-|].
  destruct (encrypt_rounds_total n 1 s) as (t & Et & Ht);
    [lia|rewrite Nat2Z.inj_succ in Hn; lia|done|].
  rewrite encrypt_rounds_snoc, Et in He. cbn [mbind option_bind] in He.
  replace (1 + Z.of_nat n) with (Z.of_nat (S n)) in He by lia. cbn [decrypt_rounds].
  destruct (round_key_total (Z.of_nat (S n))) as (k & Ek & Hk); [lia|].
  rewrite Ek in He |- *. cbn [mbind option_bind] in He |- *. injection He as <-.
  unfold encrypt_round. assert (state_ok (mix_columns (shift_rows (sub_bytes t)))) as Hm
    by (by apply mix_columns_ok, shift_rows_ok, sub_bytes_ok).
  assert (state_ok (add_round_key (mix_columns (shift_rows (sub_bytes t))) k)) as Ha
    by (by apply zip_lxor_state).
  rewrite inv_shift_rows_shift_rows by (by apply sub_bytes_ok).
  rewrite inv_sub_bytes_sub_bytes by apply Ha. unfold add_round_key.
  rewrite zip_lxor_involutive by (destruct Hm, Hk; lia).
  rewrite inv_mix_columns_mix_columns by (by apply shift_rows_ok, sub_bytes_ok).
  apply IH; [lia|done].
Qed.

Lemma encrypt_block_total (block : list Z) : state_ok block ->
  exists c, encrypt_block core block = Some c /\ state_ok c.
Proof.
  intros Hb. pose proof Hcore as (Hnr & _ & _). unfold encrypt_block.
  destruct (round_key_total 0) as (k0 & -> & Hk0); [lia|]. cbn [mbind option_bind].
  destruct (encrypt_rounds_total (Z.to_nat (nr_ core - 1)) 1 (add_round_key block k0))
    as (s & -> & Hs); [lia|lia|by apply zip_lxor_state|]. cbn [mbind option_bind].
  destruct (round_key_total (nr_ core)) as (k & -> & Hk); [lia|]. cbn [mbind option_bind].
  eexists. split; [done|]. apply zip_lxor_state; [|done]. by apply shift_rows_ok, sub_bytes_ok.
Qed.

Lemma decrypt_encrypt_block (block c : list Z) : state_ok block ->
  encrypt_block core block = Some c -> decrypt_block core c = Some block.
Proof.
  intros Hb. pose proof Hcore as (Hnr & _ & _). unfold encrypt_block, decrypt_block.
  destruct (round_key_total 0) as (k0 & -> & Hk0); [lia|].
  destruct (round_key_total (nr_ core)) as (k & -> & Hk); [lia|].
  assert (state_ok (add_round_key block k0)) as Ha by (by apply zip_lxor_state).
  cbn [mbind option_bind].
  destruct (encrypt_rounds_total (Z.to_nat (nr_ core - 1)) 1 (add_round_key block k0))
    as (s & Es & Hs); [lia|lia|done|]. rewrite Es. cbn [mbind option_bind]. intros [= <-].
  assert (state_ok (shift_rows (sub_bytes s))) as Hss by (by apply shift_rows_ok, sub_bytes_ok).
  assert (add_round_key (add_round_key (shift_rows (sub_bytes s)) k) k = shift_rows (sub_bytes s))
    as -> by (apply zip_lxor_involutive; destruct Hss, Hk; lia).
  rewrite (decrypt_rounds_inverse (Z.to_nat (nr_ core - 1)) _ _ ltac:(lia) Ha Es). cbn [mbind option_bind]. f_equal.
  rewrite inv_shift_rows_shift_rows by (by apply sub_bytes_ok).
  rewrite inv_sub_bytes_sub_bytes by apply Ha. apply zip_lxor_involutive.
  destruct Hb, Hk0. lia.
Qed.

End Block.

(** ** Cipher block chaining *)

(** The textbook CBC mode over a block cipher [E]. *)
Fixpoint cbc (n : nat) (E : list Z -> list Z) (chain plaintext : list Z) : list Z :=
  match n with
  | O => []
  | S n =>
      let c := E (xor_block (take 16 plaintext) chain) in
      c ++ cbc n E c (drop 16 plaintext)
  end.

(** The block cipher of an expanded key. *)
Definition cipher (core : aes_core) (block : list Z) : list Z :=
  default [] (encrypt_block core block).

Section Chain.
Context (core : aes_core) (Hcore : core_ok core).

Lemma cipher_ok (b : list Z) : state_ok b ->
  encrypt_block core b = Some (cipher core b) /\ state_ok (cipher core b).
Proof.
  intros Hb. destruct (encrypt_block_total core Hcore b Hb) as (c & E & Hc).
  unfold cipher. by rewrite E.
Qed.

Lemma split_16 (n : nat) (p : list Z) : length p = (16 * S n)%nat -> bytes_ok p ->
  p = take 16 p ++ drop 16 p /\ state_ok (take 16 p) /\
  length (drop 16 p) = (16 * n)%nat /\ bytes_ok (drop 16 p).
Proof.
  intros L H. split_and!; [by rewrite take_drop|split|rewrite length_drop; lia|by apply Forall_drop].
  - rewrite length_take. lia.
  - by apply Forall_take.
Qed.

Lemma cbc_ok (n : nat) (chain p : list Z) :
  length p = (16 * n)%nat -> bytes_ok p -> state_ok chain ->
  length (cbc n (cipher core) chain p) = (16 * n)%nat /\ bytes_ok (cbc n (cipher core) chain p).
Proof.
  revert chain p. induction n as [|n IH]; intros chain p L Hp Hc; [by split|].
  destruct (split_16 n p L Hp) as (_ & Hb & Ld & Hd). cbn [cbc].
  destruct (cipher_ok (xor_block (take 16 p) chain)) as (_ & Hc'); [by apply zip_lxor_state|].
  destruct (IH _ _ Ld Hd Hc') as [L' H']. split.
  - rewrite length_app, L'. destruct Hc' as [-> _]. lia.
  - apply Forall_app_2; [apply Hc'|done].
Qed.

Lemma load_block (fin b rest : list Z) : length b = 16%nat ->
  load (fin ++ b ++ rest) (zlen fin) 16 = Some b.
Proof. intros L. apply (load_app_at _ fin b rest); [done|done|unfold zlen; lia]. Qed.

Lemma store_block (fin b c rest : list Z) : length b = 16%nat -> length c = 16%nat ->
  store (fin ++ b ++ rest) (zlen fin) c = Some (fin ++ c ++ rest).
Proof. intros Lb Lc. apply store_app. congruence. Qed.

Lemma next_block (fin b : list Z) : length b = 16%nat -> zlen fin + 16 = zlen (fin ++ b).
Proof. intros L. rewrite zlen_app. unfold zlen. lia. Qed.

Lemma encrypt_loop_run (n : nat) (chain p fin rest : list Z) :
  length p = (16 * n)%nat -> bytes_ok p -> state_ok chain ->
  encrypt_loop n core (fin ++ p ++ rest) (zlen fin) chain =
  Some (fin ++ cbc n (cipher core) chain p ++ rest).
Proof.
  revert chain p fin. induction n as [|n IH]; intros chain p fin L Hp Hc.
  { by destruct p. }
  destruct (split_16 n p L Hp) as (Ep & Hb & Ld & Hd). cbn [encrypt_loop cbc].
  rewrite Ep at 1. rewrite <- app_assoc, load_block by apply Hb. cbn [mbind option_bind].
  destruct (cipher_ok (xor_block (take 16 p) chain)) as (-> & Hc'); [by apply zip_lxor_state|].
  cbn [mbind option_bind]. rewrite Ep at 1.
  rewrite <- app_assoc, store_block by (apply Hb || apply Hc'). cbn [mbind option_bind].
  rewrite (next_block fin _ (proj1 Hc')), app_assoc, IH by done.
  by rewrite <- !app_assoc.
Qed.

Lemma decrypt_loop_run (n : nat) (chain p fin rest : list Z) :
  length p = (16 * n)%nat -> bytes_ok p -> state_ok chain ->
  decrypt_loop n core (fin ++ cbc n (cipher core) chain p ++ rest) (zlen fin) chain =
  Some (fin ++ p ++ rest).
Proof.
  revert chain p fin. induction n as [|n IH]; intros chain p fin L Hp Hc.
  { by destruct p. }
  destruct (split_16 n p L Hp) as (Ep & Hb & Ld & Hd). cbn [decrypt_loop cbc].
  assert (state_ok (xor_block (take 16 p) chain)) as Hx by (by apply zip_lxor_state).
  destruct (cipher_ok _ Hx) as (Ec & Hc'). set (c := cipher core _) in *.
  rewrite <- app_assoc, load_block by apply Hc'. cbn [mbind option_bind].
  rewrite (decrypt_encrypt_block core Hcore _ _ Hx Ec). cbn [mbind option_bind].
  assert (xor_block (xor_block (take 16 p) chain) chain = take 16 p) as ->
    by (apply zip_lxor_involutive; destruct Hb, Hc; lia).
  rewrite store_block by (apply Hb || apply Hc'). cbn [mbind option_bind].
  rewrite (next_block fin _ (proj1 Hb)), app_assoc, IH by done.
  rewrite <- !app_assoc. do 2 f_equal. rewrite app_assoc. by rewrite take_drop.
Qed.

End Chain.

(** ** The class *)

(** What [encrypt] and [decrypt] require of their arguments. *)
Definition accepted (a : aes) (key iv data out : list Z) : Prop :=
  zlen key = aes_key_size a /\ zlen iv = aes_iv_size a /\ zlen data <= zlen out /\
  zlen data mod 16 = 0.

Lemma encrypt_refused (a : aes) (key iv data out : list Z) :
  ~ accepted a key iv data out -> exists m, encrypt a key iv data out = Some (Failed m, out).
Proof.
  intros H. unfold accepted, encrypt, is_block_aligned in *.
  destruct (Z.eqb_spec (zlen key) (aes_key_size a)); cbn [negb]; [|by eexists].
  destruct (Z.eqb_spec (zlen iv) (aes_iv_size a)); cbn [negb]; [|by eexists].
  destruct (Z.ltb_spec (zlen out) (zlen data)); [by eexists|].
  destruct (Z.eqb_spec (zlen data mod 16) 0); cbn [negb]; [|by eexists].
  exfalso. by apply H.
Qed.

Lemma decrypt_refused (a : aes) (key iv data out : list Z) :
  ~ accepted a key iv data out -> exists m, decrypt a key iv data out = Some (Failed m, out).
Proof.
  intros H. unfold accepted, decrypt, is_block_aligned in *.
  destruct (Z.eqb_spec (zlen key) (aes_key_size a)); cbn [negb]; [|by eexists].
  destruct (Z.eqb_spec (zlen iv) (aes_iv_size a)); cbn [negb]; [|by eexists].
  destruct (Z.ltb_spec (zlen out) (zlen data)); [by eexists|].
  destruct (Z.eqb_spec (zlen data mod 16) 0); cbn [negb]; [|by eexists].
  exfalso. by apply H.
Qed.

Lemma new_aes_inv (mode : enum_cipher_mode) (b : enum_key_bits) (a : aes) :
  new_aes mode b = Some a -> a = mk_aes b (key_bits_value b / 8) 16.
Proof. unfold new_aes. case_decide; [|done]. by intros [= <-]. Qed.

Lemma copy_data (data out : list Z) : zlen data <= zlen out ->
  store out 0 data = Some ([] ++ data ++ drop (length data) out).
Proof. intros H. by rewrite store_Some. Qed.

Lemma load_iv (iv : list Z) : zlen iv = 16 -> load iv 0 16 = Some iv.
Proof.
  intros H. rewrite load_Some by lia. f_equal. unfold zlen in H.
  change (drop (Z.to_nat 0) iv) with iv. apply take_ge. lia.
Qed.

Lemma data_blocks (data : list Z) : zlen data mod 16 = 0 ->
  length data = (16 * Z.to_nat (zlen data / 16))%nat.
Proof. intros H. unfold zlen in *. pose proof (Z.div_mod (Z.of_nat (length data)) 16). lia. Qed.

Lemma encrypt_run (b : enum_key_bits) (core : aes_core) (key iv data out : list Z) :
  let a := mk_aes b (key_bits_value b / 8) 16 in
  core_ok core -> key_expansion (new_aes_core b) key = Some core ->
  bytes_ok iv -> bytes_ok data -> accepted a key iv data out ->
  encrypt a key iv data out =
  Some (Done, cbc (Z.to_nat (zlen data / 16)) (cipher core) iv data ++ drop (length data) out).
Proof.
  intros a Hc Hexp Hiv Hdata (Hk & Hi & Hl & Ha). subst a. cbn [aes_key_size aes_iv_size] in *.
  unfold encrypt, is_block_aligned. cbn [aes_key_size aes_iv_size aes_key_bits].
  rewrite Hk, Hi, Ha, !Z.eqb_refl. cbn [negb].
  rewrite (proj2 (Z.ltb_ge (zlen out) (zlen data))) by done. cbv zeta.
  destruct (Z.eqb_spec (zlen data) 0) as [E|E].
  - destruct data; [done|]. unfold zlen in E. cbn in E. lia.
  - rewrite copy_data by done. cbn [mbind option_bind]. rewrite Hexp, load_iv by done.
    cbn [mbind option_bind].
    assert (state_ok iv) as Hs by (split; [unfold zlen in Hi; lia|done]).
    pose proof (encrypt_loop_run core Hc _ iv data [] (drop (length data) out)
      (data_blocks data Ha) Hdata Hs) as Er. rewrite zlen_nil in Er. by rewrite Er.
Qed.

Lemma decrypt_run (b : enum_key_bits) (core : aes_core) (key iv data out : list Z) :
  let a := mk_aes b (key_bits_value b / 8) 16 in
  core_ok core -> key_expansion (new_aes_core b) key = Some core ->
  bytes_ok iv -> bytes_ok data -> accepted a key iv data out ->
  decrypt a key iv (cbc (Z.to_nat (zlen data / 16)) (cipher core) iv data) out =
  Some (Done, data ++ drop (length data) out).
Proof.
  intros a Hc Hexp Hiv Hdata (Hk & Hi & Hl & Ha). subst a. cbn [aes_key_size aes_iv_size] in *.
  assert (state_ok iv) as Hs by (split; [unfold zlen in Hi; lia|done]).
  pose proof (data_blocks data Ha) as Hn.
  destruct (cbc_ok core Hc _ iv data Hn Hdata Hs) as [Lc Hcb].
  set (c := cbc _ _ _ _) in *. rewrite <- Hn in Lc.
  assert (zlen c = zlen data) as Ec by (unfold zlen; lia).
  unfold decrypt, is_block_aligned. cbn [aes_key_size aes_iv_size aes_key_bits].
  rewrite Ec, Hk, Hi, Ha, !Z.eqb_refl. cbn [negb].
  rewrite (proj2 (Z.ltb_ge (zlen out) (zlen data))) by done. cbv zeta.
  destruct (Z.eqb_spec (zlen data) 0) as [E|E].
  - destruct data; [done|]. unfold zlen in E. cbn in E. lia.
  - rewrite copy_data by lia. cbn [mbind option_bind]. rewrite Hexp, load_iv by done.
    cbn [mbind option_bind]. rewrite Lc.
    pose proof (decrypt_loop_run core Hc _ iv data [] (drop (length data) out) Hn Hdata Hs) as Er.
    rewrite zlen_nil in Er. fold c in Er. by rewrite Er.
Qed.

(** With an object of the class, for every key, initialisation vector and data made of
    bytes, [encrypt] answers without leaving any buffer: when the sizes are the required
    ones it writes the textbook CBC encryption under the expanded key over the first
    bytes of the output and leaves the rest; otherwise it fails with a message and leaves
    the output alone. [decrypt] fails under the same conditions. *)
Theorem encrypt_is_cbc (b : enum_key_bits) (a : aes) (key iv data out : list Z) :
  new_aes AES_CBC b = Some a -> bytes_ok key -> bytes_ok iv -> bytes_ok data ->
  (accepted a key iv data out ->
     exists core, key_expansion (new_aes_core b) key = Some core /\
       zlen (round_key_ core) = 16 * (nr_ core + 1) /\ nr_ core = key_bits_value b / 32 + 6 /\
       encrypt a key iv data out =
       Some (Done, cbc (Z.to_nat (zlen data / 16)) (cipher core) iv data ++ drop (length data) out)) /\
  (~ accepted a key iv data out ->
     (exists m, encrypt a key iv data out = Some (Failed m, out)) /\
     (exists m, decrypt a key iv data out = Some (Failed m, out))).
Proof.
  intros Ha%new_aes_inv Hk Hi Hd. subst a. split.
  - intros Hacc. destruct (key_expansion_total b key) as (core & E & Hc & Hnr & Hrk);
      [apply Hacc|done|].
    exists core. split_and!; [done..|]. by apply encrypt_run.
  - intros Hn. split; [by apply encrypt_refused|by apply decrypt_refused].
Qed.

Lemma encrypt_is_cbc_witness :
  (accepted (mk_aes AES_192 24 16) (fips_key 24) fips_block (fips_key 32) (replicate 40 0) ->
     exists core, key_expansion (new_aes_core AES_192) (fips_key 24) = Some core /\
       zlen (round_key_ core) = 16 * (nr_ core + 1) /\
       nr_ core = key_bits_value AES_192 / 32 + 6 /\
       encrypt (mk_aes AES_192 24 16) (fips_key 24) fips_block (fips_key 32) (replicate 40 0) =
       Some (Done, cbc (Z.to_nat (zlen (fips_key 32) / 16)) (cipher core) fips_block (fips_key 32)
                   ++ drop 32 (replicate 40 0))) /\
  (~ accepted (mk_aes AES_192 24 16) (fips_key 24) fips_block (fips_key 32) (replicate 40 0) ->
     (exists m, encrypt (mk_aes AES_192 24 16) (fips_key 24) fips_block (fips_key 32)
                  (replicate 40 0) = Some (Failed m, replicate 40 0)) /\
     (exists m, decrypt (mk_aes AES_192 24 16) (fips_key 24) fips_block (fips_key 32)
                  (replicate 40 0) = Some (Failed m, replicate 40 0))).
Proof.
  apply (encrypt_is_cbc AES_192); [reflexivity|apply bytes_ok_dec; reflexivity..].
Defined.

(** C37. Decryption undoes encryption, for the three key sizes, every key, initialisation
    vector and block-aligned data, whatever the output buffers held and however large they
    are: [encrypt] produces as many bytes as it was given, and [decrypt] under the same key
    and vector writes the data back. *)
Theorem aes_cbc_roundtrip (b : enum_key_bits) (a : aes) (key iv data out out2 : list Z) :
  new_aes AES_CBC b = Some a -> bytes_ok key -> bytes_ok iv -> bytes_ok data ->
  accepted a key iv data out -> zlen data <= zlen out2 ->
  exists c, length c = length data /\
    encrypt a key iv data out = Some (Done, c ++ drop (length data) out) /\
    decrypt a key iv c out2 = Some (Done, data ++ drop (length data) out2).
Proof.
  intros Ha%new_aes_inv Hk Hi Hd Hacc Hl. subst a.
  destruct (key_expansion_total b key) as (core & E & Hc & _); [apply Hacc|done|].
  exists (cbc (Z.to_nat (zlen data / 16)) (cipher core) iv data).
  pose proof Hacc as (Hkey & Hiv & _ & Hal). split_and!.
  - rewrite (data_blocks data Hal). apply cbc_ok; [done|by apply data_blocks|done|].
    split; [unfold zlen in Hiv; cbn in Hiv; lia|done].
  - by apply encrypt_run.
  - by apply decrypt_run.
Qed.

Lemma aes_cbc_roundtrip_witness :
  exists c, length c = length (fips_key 48) /\
    encrypt (mk_aes AES_256 32 16) (fips_key 32) fips_block (fips_key 48) (replicate 50 0) =
      Some (Done, c ++ drop 48 (replicate 50 0)) /\
    decrypt (mk_aes AES_256 32 16) (fips_key 32) fips_block c (replicate 48 0) =
      Some (Done, fips_key 48 ++ drop 48 (replicate 48 0)).
Proof.
  apply (aes_cbc_roundtrip AES_256);
    [reflexivity|apply bytes_ok_dec; reflexivity..|split_and!; (reflexivity || discriminate)|].
  discriminate.
Defined.

(** [x] rotated left by [k] bits in a byte. *)
Definition rotl8 (x k : Z) : Z := u8 (Z.lor (Z.shiftl x k) (Z.shiftr x (8 - k))).

(** The multiplicative inverse in GF(2^8), by search; 0 for 0. *)
Definition gf_inverse (x : Z) : Z :=
  default 0 (List.find (fun y => gf_mul x y =? 1) all_bytes).

Definition affine (x : Z) : Z :=
  Z.lxor (Z.lxor (Z.lxor (Z.lxor (Z.lxor x (rotl8 x 1)) (rotl8 x 2)) (rotl8 x 3)) (rotl8 x 4)) 99.

(** One column of [mix_columns] as FIPS-197 gives it: the product with the circulant
    matrix of 2, 3, 1, 1. *)
Definition fips_mix (v : column) : column :=
  let row m0 m1 m2 m3 := unmix_row m0 m1 m2 m3 v in
  Col (row 2 3 1 1) (row 1 2 3 1) (row 1 1 2 3) (row 3 1 1 2).

Lemma sbox_affine :
  forallb (fun b => (sbox b =? affine (gf_inverse b)) &&
    ((b =? 0) || (gf_mul b (gf_inverse b) =? 1))) all_bytes = true.
Proof. vm_compute. reflexivity. Qed.

Lemma gf_mul_small :
  forallb (fun b => (gf_mul b 1 =? b) && (gf_mul b 2 =? xtime b) &&
    (gf_mul b 3 =? Z.lxor (xtime b) b)) all_bytes = true.
Proof. vm_compute. reflexivity. Qed.

Lemma mix_fips (v : column) : column_ok v -> mix v = fips_mix v.
Proof.
  intros (H0 & H1 & H2 & H3). pose proof (forallb_bytes _ gf_mul_small) as E. cbv beta in E.
  pose proof (E _ H0) as E0. pose proof (E _ H1) as E1.
  pose proof (E _ H2) as E2. pose proof (E _ H3) as E3.
  rewrite !andb_true_iff, !Z.eqb_eq in *.
  destruct E0 as [[A0 B0] C0], E1 as [[A1 B1] C1], E2 as [[A2 B2] C2], E3 as [[A3 B3] C3].
  unfold mix, fips_mix, unmix_row. rewrite A0, B0, C0, A1, B1, C1, A2, B2, C2, A3, B3, C3.
  rewrite !xtime_lxor. destruct v as [x0 x1 x2 x3]. cbn [c0 c1 c2 c3].
  f_equal; apply testbit_ext; intros i Hi; rewrite !Z.lxor_spec;
    generalize (Z.testbit x0 i), (Z.testbit x1 i), (Z.testbit x2 i), (Z.testbit x3 i),
      (Z.testbit (xtime x0) i), (Z.testbit (xtime x1) i), (Z.testbit (xtime x2) i),
      (Z.testbit (xtime x3) i); intros; btauto.
Qed.

(** The pieces of the cipher are those of FIPS-197: the S-box is the affine
    transformation of the inverse in GF(2^8), the inverse S-box undoes it,
    [mix_columns] multiplies each column by the fixed matrix, and each of the inverse
    steps undoes its step on every state of 16 bytes. *)
Theorem aes_fips_components (s : list Z) (b : Z) :
  length s = 16%nat -> bytes_ok s -> is_byte b ->
  sbox b = affine (gf_inverse b) /\ (b <> 0 -> gf_mul b (gf_inverse b) = 1) /\
  rsbox (sbox b) = b /\
  (exists u0 u1 u2 u3, s = of_column u0 ++ of_column u1 ++ of_column u2 ++ of_column u3 /\
     mix_columns s = of_column (fips_mix u0) ++ of_column (fips_mix u1) ++
                     of_column (fips_mix u2) ++ of_column (fips_mix u3)) /\
  inv_sub_bytes (sub_bytes s) = s /\ inv_shift_rows (shift_rows s) = s /\
  inv_mix_columns (mix_columns s) = s.
Proof.
  intros L Hs Hb. assert (state_ok s) as Hst by done.
  pose proof (forallb_bytes _ sbox_affine b Hb) as E. cbv beta in E. split_and!.
  - lia.
  - lia.
  - by apply sbox_facts.
  - destruct (state_columns s Hst) as (u0 & u1 & u2 & u3 & ? & ? & ? & ? & ->).
    exists u0, u1, u2, u3. split; [done|]. by rewrite mix_columns_columns, !mix_fips.
  - by apply inv_sub_bytes_sub_bytes.
  - by apply inv_shift_rows_shift_rows.
  - by apply inv_mix_columns_mix_columns.
Qed.

Lemma aes_fips_components_witness :
  sbox 83 = affine (gf_inverse 83) /\ (83 <> 0 -> gf_mul 83 (gf_inverse 83) = 1) /\
  rsbox (sbox 83) = 83 /\
  (exists u0 u1 u2 u3,
     fips_block = of_column u0 ++ of_column u1 ++ of_column u2 ++ of_column u3 /\
     mix_columns fips_block = of_column (fips_mix u0) ++ of_column (fips_mix u1) ++
                     of_column (fips_mix u2) ++ of_column (fips_mix u3)) /\
  inv_sub_bytes (sub_bytes fips_block) = fips_block /\
  inv_shift_rows (shift_rows fips_block) = fips_block /\
  inv_mix_columns (mix_columns fips_block) = fips_block.
Proof.
  apply aes_fips_components; [reflexivity|apply bytes_ok_dec; reflexivity|].
  apply in_range_dec. reflexivity.
Defined.

(** The key that [generate_key] returns depends on nothing but the clock of
    [fill_random], reduced modulo [2^32 - 1]. *)
Lemma fill_random_loop_state (n : nat) (now : Z) (s t : random_state) :
  rand_seed s = rand_seed t -> (fill_random_loop n now s).1 = (fill_random_loop n now t).1.
Proof.
  revert s t. induction n as [|n IH]; intros s t E; [done|]. cbn [fill_random_loop].
  unfold rand at 1 2. rewrite E.
  set (x := Z.lxor _ (u32 (Z.shiftl _ 5))).
  specialize (IH (mk_random_state x (rand_seed_64 s)) (mk_random_state x (rand_seed_64 t)) eq_refl).
  destruct (fill_random_loop n now (mk_random_state x (rand_seed_64 s))),
    (fill_random_loop n now (mk_random_state x (rand_seed_64 t))). cbn in *. by f_equal.
Qed.

Lemma generate_key_clock (a : aes) (ms1 ms2 now : Z) (s1 s2 : random_state) :
  ms1 mod (2 ^ 32 - 1) = ms2 mod (2 ^ 32 - 1) ->
  (generate_key a ms1 now s1).1 = (generate_key a ms2 now s2).1.
Proof.
  intros E. unfold generate_key, fill_random. rewrite E. apply fill_random_loop_state. done.
Qed.
