(* ===== verification/BigNum.v ===== *)
(** * Multi-precision arithmetic

    The number helpers of [src/src/encryption/rsa.cpp]: numbers of [l] limbs of 32 bits,
    least significant first, their comparison, addition, subtraction, conversion from and
    to big-endian bytes, and modular multiplication and exponentiation by doubling. An
    array of limbs is the list of its limbs. The routines take destinations that may be
    one of their operands; each reads the operands before it writes the destination, or
    index by index, so they are functions of the operands' values. *)
From stdpp Require Import base list option numbers.
From Stdlib Require Import ZArith Lia Bool.
From S2P Require Import Prelude Memory.

(** ** The helpers *)

Definition limbs_for_bytes (bytes : Z) : Z := (bytes + 3) / 4.

Definition bn_zero (l : nat) : list Z := replicate l 0.

(** The comparison looks at index [l - 1 - i] for [i] from 0. *)
Fixpoint bn_ucmp (a b : list Z) (l : nat) : Z :=
  match l with
  | O => 0
  | S j =>
      if a !!! j <? b !!! j then -1
      else if b !!! j <? a !!! j then 1
      else bn_ucmp a b j
  end.

(** The carry [c] is a 64-bit variable. *)
Fixpoint bn_add_loop (c : Z) (a b : list Z) : list Z * Z :=
  match a, b with
  | x :: a, y :: b =>
      let c := u64 (c + x) in
      let c := u64 (c + y) in
      let '(r, carry) := bn_add_loop (Z.shiftr c 32) a b in
      (u32 c :: r, carry)
  | _, _ => ([], u32 c)
  end.

Definition bn_add (a b : list Z) : list Z * Z := bn_add_loop 0 a b.

Fixpoint bn_sub_loop (c : Z) (a b : list Z) : list Z * Z :=
  match a, b with
  | ai :: a, bi :: b =>
      let t := u64 (ai - bi - c) in
      let '(r, borrow) := bn_sub_loop (Z.land (Z.shiftr t 63) 1) a b in
      (u32 t :: r, borrow)
  | _, _ => ([], u32 c)
  end.

Definition bn_sub (a b : list Z) : list Z * Z := bn_sub_loop 0 a b.

(** The bytes from the last to the first, [o] counting from 0. *)
Fixpoint bn_from_loop (l : nat) (o : Z) (reversed : list Z) (x : list Z) : list Z :=
  match reversed with
  | [] => x
  | b :: reversed =>
      let wi := Z.shiftr o 2 in
      let bo := Z.land o 3 in
      let x :=
        if wi <? Z.of_nat l
        then <[Z.to_nat wi := Z.lor (x !!! Z.to_nat wi) (u32 (Z.shiftl b (8 * bo)))]> x else x in
      bn_from_loop l (o + 1) reversed x
  end.

Definition bn_from_be_bytes (l : nat) (be : list Z) : list Z :=
  bn_from_loop l 0 (rev be) (bn_zero l).

(** The byte of weight [256^i]. *)
Definition bn_byte (x : list Z) (l : nat) (i : Z) : Z :=
  let wi := Z.shiftr i 2 in
  let bo := Z.land i 3 in
  if wi <? Z.of_nat l then u8 (Z.land (Z.shiftr (x !!! Z.to_nat wi) (8 * bo)) 255) else 0.

Fixpoint bn_to_loop (n : nat) (i : nat) (x : list Z) (l : nat) (out : list Z) : list Z :=
  match n with
  | O => out
  | S n =>
      bn_to_loop n (S i) x l
        (<[(length out - 1 - i)%nat := bn_byte x l (Z.of_nat i)]> out)
  end.

Definition bn_to_be_bytes (x : list Z) (l out_len : nat) : list Z :=
  bn_to_loop out_len 0 x l (replicate out_len 0).

(** [while ((x & (1u << 31)) == 0) { x <<= 1; pos--; }], for a non-zero word. *)
Fixpoint top_bit_loop (fuel : nat) (x pos : Z) : option Z :=
  match fuel with
  | O => None
  | S fuel =>
      if Z.land x (Z.shiftl 1 31) =? 0
      then top_bit_loop fuel (u32 (Z.shiftl x 1)) (u32 (pos - 1)) else Some pos
  end.

Fixpoint bn_bitlen (a : list Z) (l : nat) : option Z :=
  match l with
  | O => Some 0
  | S j =>
      let w := a !!! j in
      if w =? 0 then bn_bitlen a j
      else pos ← top_bit_loop 32 w 31; Some (Z.of_nat j * 32 + pos + 1)
  end.

Definition bn_getbit (a : list Z) (l : nat) (bit_index : Z) : Z :=
  let wi := Z.shiftr bit_index 5 in
  let bo := Z.land bit_index 31 in
  if Z.of_nat l <=? wi then 0 else Z.land (Z.shiftr (a !!! Z.to_nat wi) bo) 1.

Definition mod_add (a b m : list Z) (l : nat) : list Z :=
  let '(tmp, carry) := bn_add a b in
  let ge := negb (carry =? 0) || (0 <=? bn_ucmp tmp m l) in
  if ge then (bn_sub tmp m).1 else tmp.

Definition mod_double (a m : list Z) (l : nat) : list Z :=
  let '(tmp, carry) := bn_add a a in
  let ge := negb (carry =? 0) || (0 <=? bn_ucmp tmp m l) in
  if ge then (bn_sub tmp m).1 else tmp.

(** [for (i = 0; i < bits; ++i)], [n] bits left. *)
Fixpoint mod_mul_loop (n : nat) (i : Z) (acc cur b m : list Z) (l : nat) : list Z :=
  match n with
  | O => acc
  | S n =>
      let acc := if bn_getbit b l i =? 0 then acc else mod_add acc cur m l in
      let cur := mod_double cur m l in
      mod_mul_loop n (i + 1) acc cur b m l
  end.

Definition mod_mul_bin (a b m : list Z) (l : nat) : option (list Z) :=
  bits ← bn_bitlen b l;
  Some (mod_mul_loop (Z.to_nat bits) 0 (bn_zero l) a b m l).

Fixpoint mod_pow_loop (n : nat) (i : Z) (r t0 e m : list Z) (l : nat) : option (list Z) :=
  match n with
  | O => Some r
  | S n =>
      r ← (if bn_getbit e l i =? 0 then Some r else mod_mul_bin r t0 m l);
      t0 ← mod_mul_bin t0 t0 m l;
      mod_pow_loop n (i + 1) r t0 e m l
  end.

(** [r[0] = 1u] writes past the array when [l] is 0. *)
Definition mod_pow (a e m : list Z) (l : nat) : option (list Z) :=
  match l with
  | O => None
  | S _ =>
      let r := <[0%nat := 1]> (bn_zero l) in
      bits ← bn_bitlen e l;
      mod_pow_loop (Z.to_nat bits) 0 r a e m l
  end.

Definition be_to_fixed_limbs (l : nat) (be : list Z) : list Z := bn_from_be_bytes l be.

Definition fixed_limbs_to_be_bytes (x : list Z) (l : nat) (k_bytes : Z) : list Z :=
  bn_to_be_bytes x l (Z.to_nat k_bytes).

(** The number of leading zero bytes: [while (i < k && tmp[i] == 0) i++]. *)
Fixpoint leading_zeros (bytes : list Z) : nat :=
  match bytes with
  | b :: bytes => if b =? 0 then S (leading_zeros bytes) else O
  | [] => O
  end.

(** When every byte is zero, one byte is copied from behind the buffer. *)
Definition fixed_limbs_to_min_be (x : list Z) (l : nat) : option (list Z) :=
  let k := Z.of_nat l * 4 in
  let tmp := bn_to_be_bytes x l (Z.to_nat k) in
  let i := Z.of_nat (leading_zeros tmp) in
  let n := if i =? k then 1 else k - i in
  load tmp i n.

Example mod_pow_small :
  mod_pow [7; 0] [13; 0] [101; 0] 2 = Some [7 ^ 13 mod 101; 0].
Proof. vm_compute. reflexivity. Qed.

(** ** Values *)

(** The number an array of limbs stands for. *)
Fixpoint bn_val (x : list Z) : Z :=
  match x with
  | [] => 0
  | w :: x => w + 2 ^ 32 * bn_val x
  end.

Abbreviation limbs_ok := (Forall (in_range 32)).

(** The number a big-endian byte string stands for. *)
Definition be_val (be : list Z) : Z := le_val (rev be).

Lemma pow_limbs_S (l : nat) : 2 ^ (32 * Z.of_nat (S l)) = 2 ^ 32 * 2 ^ (32 * Z.of_nat l).
Proof. rewrite <- Z.pow_add_r by lia. f_equal. lia. Qed.

Lemma pow_limbs_pos (l : nat) : 0 < 2 ^ (32 * Z.of_nat l).
Proof. apply Z.pow_pos_nonneg; lia. Qed.

Lemma bn_val_range (x : list Z) : limbs_ok x -> in_range (32 * Z.of_nat (length x)) (bn_val x).
Proof.
  unfold in_range. induction 1 as [|w x Hw Hx IH]; [by split|].
  cbn [length bn_val]. rewrite pow_limbs_S. unfold in_range in Hw. lia.
Qed.

Lemma bn_val_app (x y : list Z) :
  bn_val (x ++ y) = bn_val x + 2 ^ (32 * Z.of_nat (length x)) * bn_val y.
Proof.
  induction x as [|w x IH]; cbn [app bn_val length]; [rewrite Z.mul_0_r, Z.pow_0_r; lia|].
  rewrite IH, pow_limbs_S. lia.
Qed.

Lemma limbs_lookup (x : list Z) (i : nat) : limbs_ok x -> in_range 32 (x !!! i).
Proof.
  intros H. rewrite list_lookup_total_alt. destruct (x !! i) eqn:E; simpl.
  - by eapply Forall_lookup_1 in E.
  - by apply in_range_dec.
Qed.

(** The first [S j] limbs, the last of them apart. *)
Lemma bn_val_take_S (x : list Z) (j : nat) : (j < length x)%nat ->
  bn_val (take (S j) x) = bn_val (take j x) + 2 ^ (32 * Z.of_nat j) * (x !!! j).
Proof.
  intros Hj. destruct (lookup_lt_is_Some_2 x j Hj) as [w Hw].
  rewrite (take_S_r _ _ _ Hw), bn_val_app, length_take_le by lia. cbn [bn_val].
  rewrite (list_lookup_total_correct _ _ _ Hw). lia.
Qed.

Lemma bn_val_take_range (x : list Z) (j : nat) : limbs_ok x -> (j <= length x)%nat ->
  0 <= bn_val (take j x) < 2 ^ (32 * Z.of_nat j).
Proof.
  intros Hx Hj. pose proof (bn_val_range (take j x) (Forall_take _ _ _ Hx)) as H.
  rewrite length_take_le in H by lia. done.
Qed.

Lemma bn_val_zero (l : nat) : bn_val (bn_zero l) = 0.
Proof.
  unfold bn_zero. induction l as [|l IH]; [done|]. cbn [replicate bn_val]. rewrite IH. lia.
Qed.

Lemma bn_zero_ok (l : nat) : limbs_ok (bn_zero l).
Proof. apply Forall_replicate. by apply in_range_dec. Qed.

(** *** Comparison *)

Lemma bn_ucmp_spec (a b : list Z) (l : nat) :
  limbs_ok a -> limbs_ok b -> (l <= length a)%nat -> (l <= length b)%nat ->
  bn_ucmp a b l = match bn_val (take l a) ?= bn_val (take l b) with
                  | Lt => -1 | Eq => 0 | Gt => 1 end.
Proof.
  intros Ha Hb. induction l as [|j IH]; intros La Lb; [done|].
  cbn [bn_ucmp]. rewrite !bn_val_take_S by lia.
  pose proof (bn_val_take_range a j Ha ltac:(lia)). pose proof (bn_val_take_range b j Hb ltac:(lia)).
  rewrite IH by lia. pose proof (pow_limbs_pos j).
  destruct (Z.ltb_spec (a !!! j) (b !!! j)).
  - symmetry. rewrite (proj2 (Z.compare_lt_iff _ _)); [done|nia].
  - destruct (Z.ltb_spec (b !!! j) (a !!! j)).
    + symmetry. rewrite (proj2 (Z.compare_gt_iff _ _)); [done|nia].
    + assert (a !!! j = b !!! j) as -> by lia.
      set (u := bn_val (take j a)). set (v := bn_val (take j b)).
      destruct (Z.compare_spec u v), (Z.compare_spec (u + 2 ^ (32 * Z.of_nat j) * (b !!! j))
        (v + 2 ^ (32 * Z.of_nat j) * (b !!! j))); done || lia.
Qed.

Lemma bn_ucmp_ge (a b : list Z) (l : nat) :
  limbs_ok a -> limbs_ok b -> length a = l -> length b = l ->
  (0 <=? bn_ucmp a b l) = (bn_val b <=? bn_val a).
Proof.
  intros Ha Hb La Lb. rewrite bn_ucmp_spec by (done || lia). subst l.
  rewrite take_ge, take_ge by lia.
  destruct (Z.compare_spec (bn_val a) (bn_val b)), (Z.leb_spec (bn_val b) (bn_val a)); done || lia.
Qed.

(** *** Addition and subtraction *)

Lemma bn_add_loop_spec (a b : list Z) (c : Z) :
  limbs_ok a -> limbs_ok b -> length a = length b -> 0 <= c <= 1 ->
  let '(r, carry) := bn_add_loop c a b in
  limbs_ok r /\ length r = length a /\ 0 <= carry <= 1 /\
  bn_val r + 2 ^ (32 * Z.of_nat (length a)) * carry = bn_val a + bn_val b + c.
Proof.
  intros Ha. revert b c. induction Ha as [|x a Hx Ha IH]; intros [|y b] c Hb L Hc; try discriminate.
  - cbn. rewrite wrap_small by (unfold in_range; lia). split_and!; (done || lia).
  - inversion Hb as [|? ? Hy Hb']; subst. injection L as L. cbn [bn_add_loop].
    unfold in_range in Hx, Hy.
    rewrite (wrap_small 64 (c + x)), (wrap_small 64 (c + x + y)) by (unfold in_range; lia).
    rewrite Z.shiftr_div_pow2 by lia.
    pose proof (Z.div_mod (c + x + y) (2 ^ 32) ltac:(lia)).
    pose proof (Z.mod_pos_bound (c + x + y) (2 ^ 32) ltac:(lia)).
    specialize (IH b ((c + x + y) / 2 ^ 32) Hb' L ltac:(lia)).
    destruct (bn_add_loop _ a b) as [r carry]. destruct IH as (Hr & Lr & Hcar & E).
    cbn [bn_val length]. rewrite pow_limbs_S. unfold wrap.
    split_and!; [constructor; [done|done]|by f_equal|lia..|nia].
Qed.

Lemma bn_add_spec (a b : list Z) : limbs_ok a -> limbs_ok b -> length a = length b ->
  let '(r, carry) := bn_add a b in
  limbs_ok r /\ length r = length a /\ 0 <= carry <= 1 /\
  bn_val r + 2 ^ (32 * Z.of_nat (length a)) * carry = bn_val a + bn_val b.
Proof.
  intros Ha Hb L. pose proof (bn_add_loop_spec a b 0 Ha Hb L ltac:(lia)) as H. unfold bn_add.
  destruct (bn_add_loop 0 a b). by rewrite Z.add_0_r in H.
Qed.

Lemma borrow_word (x y c : Z) : in_range 32 x -> in_range 32 y -> 0 <= c <= 1 ->
  let t := u64 (x - y - c) in
  let borrow := Z.land (Z.shiftr t 63) 1 in
  0 <= borrow <= 1 /\ u32 t = x - y - c + 2 ^ 32 * borrow.
Proof.
  cbv zeta. unfold in_range, wrap. intros Hx Hy Hc.
  rewrite land_1, Z.shiftr_div_pow2 by lia.
  destruct (Z_lt_le_dec (x - y - c) 0).
  - assert ((x - y - c) mod 2 ^ 64 = x - y - c + 2 ^ 64) as ->.
    { symmetry. apply (Zmod_unique _ _ (-1)); lia. }
    assert ((x - y - c + 2 ^ 64) / 2 ^ 63 = 1) as ->.
    { symmetry. apply (Z.div_unique _ _ _ (x - y - c + 2 ^ 63)); lia. }
    split; [done|]. change (1 mod 2) with 1. symmetry.
    apply (Zmod_unique _ _ (2 ^ 32 - 1)); lia.
  - rewrite (Z.mod_small (x - y - c) (2 ^ 64)) by lia.
    rewrite (Z.div_small (x - y - c)) by lia. split; [done|].
    change (0 mod 2) with 0. rewrite Z.mod_small by lia. lia.
Qed.

Lemma bn_sub_loop_spec (a b : list Z) (c : Z) :
  limbs_ok a -> limbs_ok b -> length a = length b -> 0 <= c <= 1 ->
  let '(r, borrow) := bn_sub_loop c a b in
  limbs_ok r /\ length r = length a /\ 0 <= borrow <= 1 /\
  bn_val r = bn_val a - bn_val b - c + 2 ^ (32 * Z.of_nat (length a)) * borrow.
Proof.
  intros Ha. revert b c. induction Ha as [|x a Hx Ha IH]; intros [|y b] c Hb L Hc; try discriminate.
  - cbn. rewrite wrap_small by (unfold in_range; lia). split_and!; (done || lia).
  - inversion Hb as [|? ? Hy Hb']; subst. injection L as L. cbn [bn_sub_loop].
    destruct (borrow_word x y c Hx Hy Hc) as [Hbw Eu].
    specialize (IH b _ Hb' L Hbw).
    destruct (bn_sub_loop _ a b) as [r borrow]. destruct IH as (Hr & Lr & Hbor & E).
    cbn [bn_val length]. rewrite pow_limbs_S, Eu.
    split_and!; [constructor; [|done]|by f_equal|lia..|nia].
    rewrite <- Eu. by apply wrap_range.
Qed.

Lemma bn_sub_spec (a b : list Z) : limbs_ok a -> limbs_ok b -> length a = length b ->
  let '(r, borrow) := bn_sub a b in
  limbs_ok r /\ length r = length a /\ 0 <= borrow <= 1 /\
  bn_val r = bn_val a - bn_val b + 2 ^ (32 * Z.of_nat (length a)) * borrow.
Proof.
  intros Ha Hb L. pose proof (bn_sub_loop_spec a b 0 Ha Hb L ltac:(lia)) as H. unfold bn_sub.
  destruct (bn_sub_loop 0 a b). by rewrite Z.sub_0_r in H.
Qed.

(** *** Limbs, bits and bytes of a number *)

Lemma limb_div (x : list Z) (i : nat) : limbs_ok x -> (i < length x)%nat ->
  x !!! i = bn_val x / 2 ^ (32 * Z.of_nat i) mod 2 ^ 32.
Proof.
  intros Hx. revert i. induction Hx as [|w x Hw Hx IH]; intros i Hi; [simpl in Hi; lia|].
  unfold in_range in Hw. destruct i as [|i]; cbn [bn_val].
  - rewrite Z.mul_0_r, Z.pow_0_r, Z.div_1_r.
    change ((w :: x) !!! 0%nat) with w. apply (Zmod_unique _ _ (bn_val x)); lia.
  - change ((w :: x) !!! S i) with (x !!! i). simpl in Hi. rewrite IH, pow_limbs_S by lia. f_equal.
    rewrite <- Z.div_div by (pose proof (pow_limbs_pos i); lia). f_equal.
    apply (Z.div_unique _ _ _ w); lia.
Qed.

Lemma limb_above (x : list Z) (i : Z) : limbs_ok x -> Z.of_nat (length x) <= i ->
  bn_val x / 2 ^ (32 * i) = 0.
Proof.
  intros Hx Hi. apply Z.div_small. pose proof (bn_val_range x Hx) as H. unfold in_range in H.
  pose proof (Z.pow_le_mono_r 2 (32 * Z.of_nat (length x)) (32 * i) ltac:(lia)). lia.
Qed.

(** A shift by [32 * (i / 32) + i mod 32] goes through the limb [i / 32]. *)
Lemma limb_shift (v q s k : Z) : 0 <= q -> 0 <= s -> 0 <= k -> s + k <= 32 ->
  v / 2 ^ (32 * q) mod 2 ^ 32 / 2 ^ s mod 2 ^ k = v / 2 ^ (32 * q + s) mod 2 ^ k.
Proof.
  intros Hq Hs Hk Hsk. rewrite Z.pow_add_r by lia.
  rewrite <- Z.div_div by (apply Z.pow_nonzero || apply Z.pow_pos_nonneg; lia).
  set (y := v / 2 ^ (32 * q)). rewrite <- !Z.shiftr_div_pow2 by lia.
  apply testbit_ext. intros i Hi. destruct (Z_lt_le_dec i k).
  - rewrite !testbit_mod_low, !Z.shiftr_spec, testbit_mod_low by lia. done.
  - by rewrite !Z.mod_pow2_bits_high by lia.
Qed.

Lemma bn_getbit_spec (b : list Z) (i : Z) : limbs_ok b -> 0 <= i ->
  bn_getbit b (length b) i = bn_val b / 2 ^ i mod 2.
Proof.
  intros Hb Hi. unfold bn_getbit. change 31 with (2 ^ 5 - 1). rewrite (land_mask i 5), !Z.shiftr_div_pow2 by lia.
  change (2 ^ 5) with 32 in *.
  pose proof (Z.div_mod i 32 ltac:(lia)). pose proof (Z.mod_pos_bound i 32 ltac:(lia)).
  pose proof (Z.div_pos i 32 ltac:(lia) ltac:(lia)).
  replace (bn_val b / 2 ^ i mod 2) with (bn_val b / 2 ^ (32 * (i / 32) + i mod 32) mod 2 ^ 1)
    by (do 3 f_equal; lia).
  destruct (Z.leb_spec (Z.of_nat (length b)) (i / 32)).
  - rewrite Z.pow_add_r, <- Z.div_div
      by (apply Z.pow_nonzero || apply Z.pow_pos_nonneg || idtac; lia).
    rewrite limb_above by done. by rewrite Z.div_0_l by (apply Z.pow_nonzero; lia).
  - rewrite land_1, Z.shiftr_div_pow2, limb_div by (done || lia).
    rewrite Z2Nat.id by lia. apply (limb_shift _ _ _ 1); lia.
Qed.

Lemma top_bit_loop_spec (fuel : nat) (w k : Z) : 0 < w -> 0 <= k -> k + Z.log2 w <= 31 ->
  31 - k - Z.log2 w < Z.of_nat fuel ->
  top_bit_loop fuel (w * 2 ^ k) (31 - k) = Some (Z.log2 w).
Proof.
  revert k. induction fuel as [|fuel IH]; intros k Hw Hk Hlog Hf; [lia|].
  cbn [top_bit_loop]. change (Z.shiftl 1 31) with (2 ^ 31). rewrite land_pow2_eqb by lia.
  replace (Z.testbit (w * 2 ^ k) 31) with (Z.testbit w (31 - k)).
  2: { rewrite Z.mul_pow2_bits by lia. done. }
  destruct (Z.eq_dec (31 - k) (Z.log2 w)) as [E|E].
  - rewrite E, Z.bit_log2 by done. done.
  - rewrite Z.bits_above_log2 by lia. cbn [negb].
    assert (w * 2 ^ (k + 1) < 2 ^ 32) as Hlt.
    { pose proof (Z.log2_spec w Hw).
      apply Z.lt_le_trans with (2 ^ Z.succ (Z.log2 w) * 2 ^ (k + 1)).
      - apply Z.mul_lt_mono_pos_r; [apply Z.pow_pos_nonneg; lia|lia].
      - rewrite <- Z.pow_add_r by (pose proof (Z.log2_nonneg w); lia).
        apply Z.pow_le_mono_r; lia. }
    rewrite Z.shiftl_mul_pow2, <- Z.mul_assoc, <- Z.pow_add_r by lia.
    pose proof (Z.log2_nonneg w).
    rewrite wrap_small by (unfold in_range; pose proof (Z.pow_pos_nonneg 2 (k + 1)); nia).
    rewrite wrap_small by (unfold in_range; lia).
    replace (31 - k - 1) with (31 - (k + 1)) by lia. apply IH; lia.
Qed.

Lemma bn_bitlen_spec (a : list Z) (l : nat) : limbs_ok a -> (l <= length a)%nat ->
  exists bits, bn_bitlen a l = Some bits /\ 0 <= bits <= 32 * Z.of_nat l /\
    bn_val (take l a) < 2 ^ bits.
Proof.
  intros Ha. induction l as [|j IH]; intros Hl; [by exists 0|].
  cbn [bn_bitlen]. rewrite bn_val_take_S by lia.
  pose proof (limbs_lookup a j Ha) as Hw. set (w := a !!! j) in *. unfold in_range in Hw.
  destruct (Z.eqb_spec w 0) as [->|Hnz].
  - destruct (IH ltac:(lia)) as (bits & -> & ? & ?). exists bits. split_and!; (done || lia).
  - pose proof (Z.log2_nonneg w). pose proof (Z.log2_spec w ltac:(lia)) as Hlog.
    assert (Z.log2 w <= 31) by (apply Z.lt_succ_r, Z.log2_lt_pow2; lia).
    pose proof (top_bit_loop_spec 32 w 0 ltac:(lia) ltac:(lia) ltac:(lia) ltac:(lia)) as E.
    rewrite Z.mul_1_r, Z.sub_0_r in E. rewrite E. cbn [mbind option_bind].
    eexists. split; [done|]. split; [lia|].
    pose proof (bn_val_take_range a j Ha ltac:(lia)).
    replace (Z.of_nat j * 32 + Z.log2 w + 1) with (32 * Z.of_nat j + Z.succ (Z.log2 w)) by lia.
    rewrite Z.pow_add_r by lia. nia.
Qed.

(** The low [n + 1] bits of [v] from bit [i], the first apart. *)
Lemma low_bits_S (v i : Z) (n : nat) : 0 <= i ->
  v / 2 ^ i mod 2 ^ Z.of_nat (S n) =
  v / 2 ^ i mod 2 + 2 * (v / 2 ^ (i + 1) mod 2 ^ Z.of_nat n).
Proof.
  intros Hi. rewrite Nat2Z.inj_succ, Z.pow_succ_r by lia.
  rewrite Z.rem_mul_r by (lia || apply Z.pow_pos_nonneg; lia). f_equal. f_equal.
  rewrite Z.div_div by (lia || apply Z.pow_pos_nonneg; lia).
  by rewrite Z.pow_add_r by lia.
Qed.

(** *** Modular arithmetic *)

Section Modular.
Context (m : list Z) (l : nat) (Hm : limbs_ok m) (Hl : length m = l).

Abbreviation M := (bn_val m).

(** A reduced number of [l] limbs. *)
Definition reduced (x : list Z) (v : Z) : Prop :=
  limbs_ok x /\ length x = l /\ bn_val x = v /\ 0 <= v < M.

(** The conditional subtraction after an addition. *)
Lemma reduce_once (tmp : list Z) (carry v : Z) :
  limbs_ok tmp -> length tmp = l -> 0 <= carry <= 1 ->
  bn_val tmp + 2 ^ (32 * Z.of_nat l) * carry = v -> 0 <= v < 2 * M ->
  reduced (if negb (carry =? 0) || (0 <=? bn_ucmp tmp m l) then (bn_sub tmp m).1 else tmp)
          (v mod M).
Proof.
  intros Ht Lt Hc Hv Hr. rewrite bn_ucmp_ge by done.
  pose proof (bn_val_range tmp Ht) as Rt. pose proof (bn_val_range m Hm) as Rm.
  unfold in_range in Rt, Rm. rewrite Lt in Rt. rewrite Hl in Rm.
  destruct (negb _ || _) eqn:E.
  - pose proof (bn_sub_spec tmp m Ht Hm ltac:(congruence)) as H.
    destruct (bn_sub tmp m) as [r borrow]. destruct H as (Hr' & Lr & Hb & Er). cbn [fst].
    rewrite Lt in Er, Lr. pose proof (bn_val_range r Hr') as Rr. unfold in_range in Rr.
    rewrite Lr in Rr.
    assert (M <= v) by (destruct (Z.eqb_spec carry 0); [|nia]; simpl in E; lia).
    assert (v mod M = v - M) as -> by (symmetry; apply (Zmod_unique _ _ 1); lia).
    split_and!; [done|done| |lia..].
    assert (borrow = carry); [|nia].
    destruct (Z.eq_dec borrow carry); [done|]. nia.
  - apply orb_false_iff in E as [E1 E2]. apply negb_false_iff, Z.eqb_eq in E1.
    apply Z.leb_gt in E2. rewrite E1, Z.mul_0_r, Z.add_0_r in Hv.
    rewrite Z.mod_small by lia. split_and!; done || lia.
Qed.

Lemma mod_add_spec (a b : list Z) (u v : Z) :
  reduced a u -> reduced b v -> reduced (mod_add a b m l) ((u + v) mod M).
Proof.
  intros (Ha & La & <- & Hu) (Hb & Lb & <- & Hv). unfold mod_add.
  pose proof (bn_add_spec a b Ha Hb ltac:(congruence)) as H.
  destruct (bn_add a b) as [tmp carry]. destruct H as (Ht & Lt & Hc & E). rewrite La in *.
  apply reduce_once; done || lia.
Qed.

Lemma mod_double_spec (a : list Z) (u : Z) :
  reduced a u -> reduced (mod_double a m l) (2 * u mod M).
Proof.
  intros Hr. pose proof (mod_add_spec a a u u Hr Hr) as H.
  unfold mod_add in H. by replace (u + u) with (2 * u) in H by lia.
Qed.

Lemma mod_mul_loop_spec (n : nat) (i : Z) (acc cur b : list Z) (u v : Z) :
  0 <= i -> limbs_ok b -> length b = l -> reduced acc u -> reduced cur v ->
  reduced (mod_mul_loop n i acc cur b m l)
    ((u + v * (bn_val b / 2 ^ i mod 2 ^ Z.of_nat n)) mod M).
Proof.
  intros Hi Hb Lb. revert i acc cur u v Hi. induction n as [|n IH]; intros i acc cur u v Hi Hu Hv.
  - cbn [mod_mul_loop]. rewrite Z.pow_0_r, Z.mod_1_r, Z.mul_0_r, Z.add_0_r.
    destruct Hu as (? & ? & <- & ?). rewrite Z.mod_small by done. done.
  - cbn [mod_mul_loop]. rewrite low_bits_S by done.
    rewrite <- Lb, bn_getbit_spec, Lb by done. set (bit := bn_val b / 2 ^ i mod 2).
    assert (reduced (if bit =? 0 then acc else mod_add acc cur m l) ((u + v * bit) mod M)) as Ha.
    { destruct (Z.eqb_spec bit 0) as [->|Hb1].
      - rewrite Z.mul_0_r, Z.add_0_r. destruct Hu as (? & ? & <- & ?).
        rewrite Z.mod_small by done. done.
      - assert (bit = 1) as -> by (pose proof (Z.mod_pos_bound (bn_val b / 2 ^ i) 2); lia).
        rewrite Z.mul_1_r. by apply mod_add_spec. }
    specialize (IH (i + 1) _ _ _ _ ltac:(lia) Ha (mod_double_spec cur v Hv)).
    set (rest := bn_val b / 2 ^ (i + 1) mod 2 ^ Z.of_nat n) in *.
    replace ((u + v * (bit + 2 * rest)) mod M)
      with (((u + v * bit) mod M + (2 * v) mod M * rest) mod M); [done|].
    assert (M <> 0) by (destruct Hu as (_ & _ & _ & ?); lia).
    rewrite Zplus_mod_idemp_l, <- Zplus_mod_idemp_r, Zmult_mod_idemp_l, Zplus_mod_idemp_r.
    f_equal. lia.
Qed.

Lemma reduced_zero : 0 < M -> reduced (bn_zero l) 0.
Proof.
  intros HM. split_and!; [apply bn_zero_ok|apply length_replicate|apply bn_val_zero|lia..].
Qed.

Lemma mod_mul_bin_spec (a b : list Z) (u : Z) :
  limbs_ok b -> length b = l -> reduced a u ->
  exists r, mod_mul_bin a b m l = Some r /\ reduced r (u * bn_val b mod M).
Proof.
  intros Hb Lb Ha. unfold mod_mul_bin.
  destruct (bn_bitlen_spec b l Hb ltac:(lia)) as (bits & -> & Hbits & Hlt).
  cbn [mbind option_bind]. eexists. split; [done|].
  assert (0 < M) as HM by (destruct Ha as (_ & _ & _ & ?); lia).
  pose proof (mod_mul_loop_spec (Z.to_nat bits) 0 (bn_zero l) a b 0 u ltac:(lia) Hb Lb
    (reduced_zero HM) Ha) as H.
  rewrite Z.pow_0_r, Z.div_1_r, Z.add_0_l, Z2Nat.id in H by lia.
  rewrite take_ge in Hlt by lia. pose proof (bn_val_range b Hb) as [? _].
  by rewrite (Z.mod_small (bn_val b)) in H by lia.
Qed.

Lemma mod_pow_loop_spec (n : nat) (i : Z) (r t0 e : list Z) (u v : Z) :
  0 <= i -> limbs_ok e -> length e = l -> reduced r u -> reduced t0 v ->
  exists r', mod_pow_loop n i r t0 e m l = Some r' /\
    reduced r' (u * v ^ (bn_val e / 2 ^ i mod 2 ^ Z.of_nat n) mod M).
Proof.
  intros Hi He Le. revert i r t0 u v Hi. induction n as [|n IH]; intros i r t0 u v Hi Hu Hv.
  - exists r. split; [done|]. rewrite Z.pow_0_r, Z.mod_1_r, Z.pow_0_r, Z.mul_1_r.
    destruct Hu as (? & ? & <- & ?). rewrite Z.mod_small by done. done.
  - cbn [mod_pow_loop]. rewrite low_bits_S by done.
    rewrite <- Le, bn_getbit_spec, Le by done.
    pose proof (Z.mod_pos_bound (bn_val e / 2 ^ i) 2 ltac:(lia)) as Hbit.
    set (bit := bn_val e / 2 ^ i mod 2) in *.
    assert (exists r1, (if bit =? 0 then Some r else mod_mul_bin r t0 m l) = Some r1 /\
      reduced r1 (u * v ^ bit mod M)) as (r1 & -> & Hr1).
    { destruct (Z.eqb_spec bit 0) as [->|Hb1].
      - exists r. split; [done|]. rewrite Z.pow_0_r, Z.mul_1_r. destruct Hu as (? & ? & <- & ?).
        rewrite Z.mod_small by done. done.
      - assert (bit = 1) as -> by lia. rewrite Z.pow_1_r. pose proof Hv as (Ht & Lt & <- & _).
        by apply mod_mul_bin_spec. }
    cbn [mbind option_bind].
    assert (exists t1, mod_mul_bin t0 t0 m l = Some t1 /\ reduced t1 (v * v mod M))
      as (t1 & -> & Ht1).
    { pose proof Hv as (Ht & Lt & E & _). destruct (mod_mul_bin_spec t0 t0 v Ht Lt Hv) as (t1 & ? & H).
      rewrite E in H. by exists t1. }
    cbn [mbind option_bind].
    destruct (IH (i + 1) r1 t1 _ _ ltac:(lia) Hr1 Ht1) as (r' & -> & Hr').
    exists r'. split; [done|].
    set (rest := bn_val e / 2 ^ (i + 1) mod 2 ^ Z.of_nat n) in *.
    assert (0 <= rest) as Hrest by (apply Z.mod_pos_bound, Z.pow_pos_nonneg; lia).
    replace (u * v ^ (bit + 2 * rest) mod M)
      with (u * v ^ bit mod M * (v * v mod M) ^ rest mod M); [done|].
    rewrite Zmult_mod_idemp_l, <- Zmult_mod_idemp_r, Z.mod_pow_l, Zmult_mod_idemp_r.
    rewrite Z.pow_add_r, Z.pow_mul_r, Z.pow_2_r by lia. f_equal. lia.
Qed.

Lemma mod_pow_run (a e : list Z) (u : Z) :
  1 < M -> limbs_ok e -> length e = l -> reduced a u ->
  exists r, mod_pow a e m l = Some r /\ reduced r (u ^ bn_val e mod M).
Proof.
  intros HM He Le Ha.
  assert (exists l', l = S l') as [l' El].
  { destruct l as [|l']; [|by exists l']. destruct m; [cbn in HM; lia|discriminate]. }
  assert (mod_pow a e m l = (bits ← bn_bitlen e l;
    mod_pow_loop (Z.to_nat bits) 0 (<[0%nat := 1]> (bn_zero l)) a e m l)) as -> by (by rewrite El).
  destruct (bn_bitlen_spec e l He ltac:(lia)) as (bits & -> & Hbits & Hlt).
  cbn [mbind option_bind].
  assert (reduced (<[0%nat := 1]> (bn_zero l)) 1) as H1.
  { split; [|split; [by rewrite length_insert; apply length_replicate|split; [|lia]]]; rewrite El; cbn.
    - constructor; [by apply in_range_dec|]. apply bn_zero_ok.
    - pose proof (bn_val_zero l') as E. unfold bn_zero in E. cbn [bn_val]. rewrite E. lia. }
  destruct (mod_pow_loop_spec (Z.to_nat bits) 0 _ a e 1 u ltac:(lia) He Le H1 Ha) as (r & -> & H).
  exists r. split; [done|].
  rewrite Z.mul_1_l, Z.pow_0_r, Z.div_1_r, Z2Nat.id in H by lia.
  rewrite take_ge in Hlt by lia. pose proof (bn_val_range e He) as [? _].
  by rewrite (Z.mod_small (bn_val e)) in H by lia.
Qed.

End Modular.

(** *** Big-endian bytes *)

Lemma bn_val_insert (x : list Z) (i : nat) (w : Z) : (i < length x)%nat ->
  bn_val (<[i := w]> x) = bn_val x + 2 ^ (32 * Z.of_nat i) * (w - x !!! i).
Proof.
  revert i. induction x as [|v x IH]; intros [|i] Hi; cbn [length] in Hi; try lia.
  - change (<[0%nat := w]> (v :: x)) with (w :: x). change ((v :: x) !!! 0%nat) with v.
    cbn [bn_val]. rewrite Z.mul_0_r, Z.pow_0_r. lia.
  - change (<[S i := w]> (v :: x)) with (v :: <[i := w]> x).
    change ((v :: x) !!! S i) with (x !!! i). cbn [bn_val]. rewrite IH, pow_limbs_S by lia. lia.
Qed.

Lemma pow_256 (n : Z) : 0 <= n -> 256 ^ n = 2 ^ (8 * n).
Proof. intros Hn. change 256 with (2 ^ 8). by rewrite <- Z.pow_mul_r by lia. Qed.

(** Where byte [o] goes: the limb [o / 4] at bit [8 * (o mod 4)]. *)
Lemma byte_place (o : Z) : 0 <= o ->
  Z.shiftr o 2 = o / 4 /\ Z.land o 3 = o mod 4 /\
  256 ^ o = 2 ^ (32 * (o / 4)) * 2 ^ (8 * (o mod 4)) /\ 0 <= o mod 4 < 4 /\ 0 <= o / 4.
Proof.
  intros Ho. pose proof (Z.div_mod o 4 ltac:(lia)). pose proof (Z.mod_pos_bound o 4 ltac:(lia)).
  pose proof (Z.div_pos o 4 Ho ltac:(lia)). split_and!; try lia.
  - by rewrite Z.shiftr_div_pow2.
  - by apply (land_mask o 2).
  - rewrite pow_256, <- Z.pow_add_r by lia. f_equal. lia.
Qed.

(** Storing one byte in a limb whose higher bytes are still zero. *)
Lemma store_byte (x : list Z) (o b : Z) :
  limbs_ok x -> is_byte b -> 0 <= o -> o / 4 < Z.of_nat (length x) -> bn_val x < 256 ^ o ->
  let wi := Z.to_nat (o / 4) in
  let x' := <[wi := Z.lor (x !!! wi) (u32 (Z.shiftl b (8 * (o mod 4))))]> x in
  limbs_ok x' /\ bn_val x' = bn_val x + 256 ^ o * b.
Proof.
  intros Hx Hb Ho Hwi Hlt wi x'. destruct (byte_place o Ho) as (_ & _ & E & Hbo & Hq).
  assert (wi < length x)%nat as Hwl by lia.
  pose proof (limb_div x wi Hx Hwl) as Ew. unfold wi in Ew at 2. rewrite Z2Nat.id in Ew by lia.
  assert (0 < 2 ^ (32 * (o / 4))) by (apply Z.pow_pos_nonneg; lia).
  assert (0 < 2 ^ (8 * (o mod 4))) by (apply Z.pow_pos_nonneg; lia).
  assert (in_range (8 * (o mod 4)) (x !!! wi)) as Hsmall.
  { pose proof (bn_val_range x Hx) as [Hv _].
    assert (bn_val x / 2 ^ (32 * (o / 4)) < 2 ^ (8 * (o mod 4)))
      by (apply Z.div_lt_upper_bound; lia).
    pose proof (Z.div_pos (bn_val x) (2 ^ (32 * (o / 4))) Hv ltac:(lia)).
    assert (2 ^ (8 * (o mod 4)) <= 2 ^ 32) by (apply Z.pow_le_mono_r; lia).
    rewrite Ew, (Z.mod_small (bn_val x / _)) by lia. done. }
  unfold in_range in Hb. change (2 ^ 8) with 256 in Hb.
  assert (2 ^ (8 * (o mod 4)) * 256 <= 2 ^ 32).
  { change 256 with (2 ^ 8). rewrite <- Z.pow_add_r by lia. apply Z.pow_le_mono_r; lia. }
  assert (Z.lor (x !!! wi) (u32 (Z.shiftl b (8 * (o mod 4)))) =
          b * 2 ^ (8 * (o mod 4)) + x !!! wi) as El.
  { rewrite wrap_small by (rewrite Z.shiftl_mul_pow2 by lia; unfold in_range; nia).
    rewrite Z.lor_comm. by apply lor_shiftl_add; [lia|]. }
  unfold x'. rewrite El. unfold in_range in Hsmall. split.
  - apply Forall_insert; [done|]. unfold in_range. nia.
  - rewrite bn_val_insert by lia. unfold wi at 1. rewrite Z2Nat.id by lia. rewrite E. lia.
Qed.

Lemma bn_from_loop_spec (l : nat) (reversed x : list Z) (o : Z) :
  bytes_ok reversed -> limbs_ok x -> length x = l -> 0 <= o -> bn_val x < 256 ^ o ->
  limbs_ok (bn_from_loop l o reversed x) /\ length (bn_from_loop l o reversed x) = l /\
  bn_val (bn_from_loop l o reversed x) =
    (bn_val x + 256 ^ o * le_val reversed) mod 2 ^ (32 * Z.of_nat l).
Proof.
  intros Hr. revert x o. induction Hr as [|b reversed Hb Hr IH]; intros x o Hx Lx Ho Hlt.
  { rewrite le_val_nil, Z.mul_0_r, Z.add_0_r. split_and!; [done|done|]. cbn [bn_from_loop].
    pose proof (bn_val_range x Hx) as H. rewrite Lx in H. by rewrite Z.mod_small. }
  rewrite le_val_cons. cbn [bn_from_loop]. destruct (byte_place o Ho) as (-> & -> & E & Hbo & Hq).
  pose proof (Z.pow_pos_nonneg 256 o ltac:(lia) Ho). unfold in_range in Hb. change (2 ^ 8) with 256 in Hb.
  assert (256 ^ (o + 1) = 256 * 256 ^ o) as ES by (rewrite Z.pow_add_r by lia; lia).
  destruct (Z.ltb_spec (o / 4) (Z.of_nat l)).
  - destruct (store_byte x o b Hx Hb Ho ltac:(lia) Hlt) as [Hx' Ev]. cbv zeta in *.
    destruct (IH _ (o + 1) Hx' ltac:(by rewrite length_insert) ltac:(lia)) as (? & ? & ->);
      [rewrite Ev; nia|].
    split_and!; [done..|]. rewrite Ev, ES. f_equal. lia.
  - destruct (IH x (o + 1) Hx Lx ltac:(lia) ltac:(nia)) as (? & ? & ->).
    split_and!; [done..|]. rewrite ES.
    assert (exists k, 256 ^ o = k * 2 ^ (32 * Z.of_nat l)) as [k ->].
    { exists (2 ^ (8 * o - 32 * Z.of_nat l)). pose proof (Z.div_mod o 4).
      assert (32 * Z.of_nat l <= 8 * o) by lia.
      rewrite (pow_256 o Ho), <- Z.pow_add_r by lia. f_equal. lia. }
    replace (bn_val x + k * 2 ^ (32 * Z.of_nat l) * (b + 256 * le_val reversed))
      with (bn_val x + 256 * (k * 2 ^ (32 * Z.of_nat l)) * le_val reversed +
            (k * b) * 2 ^ (32 * Z.of_nat l)) by lia.
    symmetry. apply Z_mod_plus_full.
Qed.

Lemma bn_from_be_bytes_spec (l : nat) (be : list Z) : bytes_ok be ->
  limbs_ok (bn_from_be_bytes l be) /\ length (bn_from_be_bytes l be) = l /\
  bn_val (bn_from_be_bytes l be) = be_val be mod 2 ^ (32 * Z.of_nat l).
Proof.
  intros Hbe. unfold bn_from_be_bytes.
  destruct (bn_from_loop_spec l (rev be) (bn_zero l) 0) as (? & ? & E);
    [by apply Forall_rev|apply bn_zero_ok|apply length_replicate|done|by rewrite bn_val_zero|].
  split_and!; [done..|]. rewrite E, bn_val_zero. by rewrite Z.pow_0_r, Z.mul_1_l, Z.add_0_l.
Qed.

Lemma bn_byte_spec (x : list Z) (i : Z) : limbs_ok x -> 0 <= i ->
  bn_byte x (length x) i = bn_val x / 256 ^ i mod 256.
Proof.
  intros Hx Hi. unfold bn_byte. destruct (byte_place i Hi) as (-> & -> & _ & Hbo & Hq).
  pose proof (Z.div_mod i 4 ltac:(lia)).
  replace (bn_val x / 256 ^ i mod 256)
    with (bn_val x / 2 ^ (32 * (i / 4) + 8 * (i mod 4)) mod 2 ^ 8)
    by (rewrite pow_256 by lia; do 3 f_equal; lia).
  destruct (Z.ltb_spec (i / 4) (Z.of_nat (length x))).
  - change 255 with (2 ^ 8 - 1). rewrite land_mask, Z.shiftr_div_pow2, limb_div by (done || lia).
    rewrite Z2Nat.id by lia. unfold wrap. rewrite Zmod_mod. apply limb_shift; lia.
  - rewrite Z.pow_add_r, <- Z.div_div by (lia || (apply Z.pow_pos_nonneg; lia)).
    by rewrite limb_above, Z.div_0_l by (done || (apply Z.pow_nonzero; lia)).
Qed.

Lemma le_bytes_snoc (n : nat) (v : Z) :
  le_bytes (S n) v = le_bytes n v ++ [v / 256 ^ Z.of_nat n mod 256].
Proof. replace (S n) with (n + 1)%nat by lia. by rewrite le_bytes_app. Qed.

Lemma bn_to_loop_spec (x : list Z) (n i : nat) : limbs_ok x ->
  bn_to_loop n i x (length x) (replicate n 0 ++ rev (le_bytes i (bn_val x))) =
  rev (le_bytes (n + i) (bn_val x)).
Proof.
  intros Hx. revert i. induction n as [|n IH]; intros i; [done|].
  cbn [bn_to_loop]. rewrite length_app, length_replicate, length_rev, length_le_bytes.
  replace (S n + i - 1 - i)%nat with (n + 0)%nat by lia.
  replace (replicate (S n) 0 ++ rev (le_bytes i (bn_val x)))
    with (replicate n 0 ++ 0 :: rev (le_bytes i (bn_val x)))
    by (rewrite replicate_S_end, <- app_assoc; done).
  rewrite <- (length_replicate n 0) at 2. rewrite insert_app_r. cbn.
  rewrite bn_byte_spec by (done || lia).
  assert (bn_val x / 256 ^ Z.of_nat i mod 256 :: rev (le_bytes i (bn_val x)) =
          rev (le_bytes (S i) (bn_val x))) as ->.
  { rewrite le_bytes_snoc, rev_app_distr. done. }
  rewrite IH. do 2 f_equal. lia.
Qed.

Lemma bn_to_be_bytes_spec (x : list Z) (n : nat) : limbs_ok x ->
  bn_to_be_bytes x (length x) n = rev (le_bytes n (bn_val x)).
Proof.
  intros Hx. unfold bn_to_be_bytes. pose proof (bn_to_loop_spec x n 0 Hx) as H.
  change (rev (le_bytes 0 (bn_val x))) with (@nil Z) in H. rewrite app_nil_r in H.
  rewrite H. do 2 f_equal. lia.
Qed.

Lemma be_val_to_bytes (n : nat) (v : Z) : be_val (rev (le_bytes n v)) = v mod 256 ^ Z.of_nat n.
Proof. unfold be_val. by rewrite rev_involutive, le_val_le_bytes. Qed.

Lemma be_val_range (be : list Z) : bytes_ok be -> 0 <= be_val be < 256 ^ Z.of_nat (length be).
Proof.
  intros H. unfold be_val. rewrite <- (length_rev be). by apply le_val_range, Forall_rev.
Qed.

Lemma be_bytes_val (be : list Z) : bytes_ok be -> rev (le_bytes (length be) (be_val be)) = be.
Proof.
  intros H. unfold be_val. rewrite <- (length_rev be), le_bytes_le_val by (by apply Forall_rev).
  apply rev_involutive.
Qed.

Lemma limbs_hold (k : Z) : 0 <= k -> 256 ^ k <= 2 ^ (32 * limbs_for_bytes k).
Proof.
  intros Hk. rewrite pow_256 by lia. apply Z.pow_le_mono_r; [lia|]. unfold limbs_for_bytes.
  pose proof (Z.div_mod (k + 3) 4 ltac:(lia)). pose proof (Z.mod_pos_bound (k + 3) 4 ltac:(lia)).
  lia.
Qed.

(** C40. The exponentiation of the multi-precision routines is the mathematical one: for a
    modulus above 1, a base below it and any exponent, given as limbs read from
    big-endian bytes, [mod_pow] ends, stays inside its arrays, and the bytes of its
    result are those of [a ^ e mod m]. *)
Theorem mod_pow_correct (l : nat) (a_be e_be m_be : list Z) (k : Z) :
  bytes_ok a_be -> bytes_ok e_be -> bytes_ok m_be ->
  zlen m_be <= k -> zlen e_be <= k -> k <= 4 * Z.of_nat l ->
  1 < be_val m_be -> be_val a_be < be_val m_be ->
  exists r,
    mod_pow (be_to_fixed_limbs l a_be) (be_to_fixed_limbs l e_be) (be_to_fixed_limbs l m_be) l =
      Some r /\
    zlen (fixed_limbs_to_be_bytes r l k) = k /\
    be_val (fixed_limbs_to_be_bytes r l k) = be_val a_be ^ be_val e_be mod be_val m_be.
Proof.
  intros Ha He Hm Lm Le Hk HM Hlt. unfold be_to_fixed_limbs, fixed_limbs_to_be_bytes.
  assert (0 <= k) by (pose proof (zlen_nonneg m_be); lia).
  assert (256 ^ k <= 2 ^ (32 * Z.of_nat l)) as Hcap
    by (rewrite pow_256 by lia; apply Z.pow_le_mono_r; lia).
  pose proof (be_val_range m_be Hm) as Rm. pose proof (be_val_range e_be He) as Re.
  pose proof (be_val_range a_be Ha) as Ra. unfold zlen in *.
  pose proof (Z.pow_le_mono_r 256 (Z.of_nat (length m_be)) k ltac:(lia) ltac:(lia)).
  pose proof (Z.pow_le_mono_r 256 (Z.of_nat (length e_be)) k ltac:(lia) ltac:(lia)).
  destruct (bn_from_be_bytes_spec l a_be Ha) as (Oa & La & Va).
  destruct (bn_from_be_bytes_spec l e_be He) as (Oe & Lle & Ve).
  destruct (bn_from_be_bytes_spec l m_be Hm) as (Om & Lm' & Vm).
  rewrite Z.mod_small in Va, Ve, Vm by lia.
  destruct (mod_pow_run (bn_from_be_bytes l m_be) l Om Lm' (bn_from_be_bytes l a_be)
    (bn_from_be_bytes l e_be) (be_val a_be)) as (r & Er & Hr & Lr & Vr & Rr);
    [lia|done|done|split_and!; (done || lia)|].
  exists r. split; [done|]. rewrite <- Lr, bn_to_be_bytes_spec, be_val_to_bytes, Vr, Ve, Vm by done.
  split.
  - rewrite length_rev, length_le_bytes. lia.
  - rewrite Z2Nat.id by lia. rewrite Vm in Rr. apply Z.mod_small. rewrite Ve in Rr. lia.
Qed.

Lemma mod_pow_correct_witness :
  exists r,
    mod_pow (be_to_fixed_limbs 2 [1; 200]) (be_to_fixed_limbs 2 [3; 7])
      (be_to_fixed_limbs 2 [1; 0; 0; 0; 15]) 2 = Some r /\
    zlen (fixed_limbs_to_be_bytes r 2 5) = 5 /\
    be_val (fixed_limbs_to_be_bytes r 2 5) =
      be_val [1; 200] ^ be_val [3; 7] mod be_val [1; 0; 0; 0; 15].
Proof.
  apply (mod_pow_correct 2 [1; 200] [3; 7] [1; 0; 0; 0; 15] 5);
    [apply bytes_ok_dec; reflexivity..|discriminate|discriminate|discriminate|reflexivity|reflexivity].
Defined.
