(* ===== verification/RsaTheory.v ===== *)
(** * The number theory of RSA

    Raising to the public exponent and then to the private one is the identity modulo the
    product of two primes. Proved on natural numbers with MathComp and carried over to the
    integers of the Standard Library, in which the program's arithmetic is modelled. *)
From Stdlib Require Import ZArith Znumtheory Lia.
From mathcomp Require Import boot.

#[export] Set Default Goal Selector "!".

#[local] Set Bullet Behavior "Strict Subproofs".
Local Open Scope nat_scope.

(** ** Natural numbers *)

Lemma pow_mod_prime (p k a : nat) : prime p -> a ^ (k * p.-1).+1 = a %[mod p].
Proof.
  move=> Hp. elim: k => [|k IH]; first by rw mul0n expn1.
  rw mulSn addnC -addnS expnD -modnMml. rw prednK ?prime_gt0 //.
  rw modnMml -modnMmr fermat_little // modnMmr -expnSr. exact: IH.
Qed.

Lemma rsa_nat (p q e d m : nat) :
  prime p -> prime q -> p != q -> e * d = 1 %[mod p.-1 * q.-1] ->
  m ^ (e * d) = m %[mod p * q].
Proof.
  move=> Hp Hq Hpq Hed.
  have Hcop : coprime p q by rw prime_coprime // dvdn_prime2.
  have [k ->] : exists k, e * d = (k * (p.-1 * q.-1)).+1.
  { have Hbig : 1 < p.-1 * q.-1.
    { case: p q Hp Hq Hpq {Hed Hcop} => [|[|[|p]]] [|[|[|q]]] //= _ _ _. }
    exists ((e * d) %/ (p.-1 * q.-1)).
    by rw {1}(divn_eq (e * d) (p.-1 * q.-1)) Hed modn_small // addn1. }
  apply/eqP. rw chinese_remainder //. apply/andP; split; apply/eqP.
  - rw [p.-1 * _]mulnC mulnA. exact: pow_mod_prime.
  - rw mulnA. exact: pow_mod_prime.
Qed.

(** ** Integers *)

Local Open Scope Z_scope.

Lemma Z_of_expn (a b : nat) : Z.of_nat (a ^ b)%N = Z.of_nat a ^ Z.of_nat b.
Proof.
  elim: b => [|b IH]; first by rw expn0.
  rw expnS Nat2Z.inj_succ (Z.pow_succ_r _ _ (Nat2Z.is_nonneg b)).
  by rw -IH -Nat2Z.inj_mul.
Qed.

Lemma Z_pred_n (n : nat) : (0 < n)%N -> Z.of_nat n - 1 = Z.of_nat n.-1.
Proof. case: n => // n _. rw Nat2Z.inj_succ. lia. Qed.

Lemma Z_of_modn (a b : nat) : (0 < b)%N -> Z.of_nat (a %% b)%N = Z.of_nat a mod Z.of_nat b.
Proof.
  move=> Hb. apply: (Zmod_unique _ _ (Z.of_nat (a %/ b)%N)).
  - split; first exact: Nat2Z.is_nonneg. apply: (proj1 (Nat2Z.inj_lt _ _)). apply/ltP.
    exact: ltn_pmod.
  - rw {1}(divn_eq a b) Nat2Z.inj_add Nat2Z.inj_mul. by rw Z.mul_comm.
Qed.

Lemma prime_of_Z (p : nat) : Znumtheory.prime (Z.of_nat p) -> prime p.
Proof.
  move=> Hp. apply/primeP. have H2 : (1 < p)%N.
  { apply/ltP. apply: (proj2 (Nat2Z.inj_lt _ _)). by case: Hp. }
  split; first exact: H2. move=> d Hd.
  have Hdiv : (Z.of_nat d | Z.of_nat p).
  { case/dvdnP: Hd => k ->. exists (Z.of_nat k). by rw Nat2Z.inj_mul. }
  have Hpos : Z.of_nat p <> 0 by case: (p) H2.
  case: (prime_divisors _ Hp _ Hdiv) => [|[|[|]]] E.
  - by case: (d) E.
  - by rw (Nat2Z.inj d 1 E).
  - by rw (Nat2Z.inj d p E) eqxx orbT.
  - case: (p) (d) Hpos E => [|p'] [|d'] //.
Qed.

(** The private exponent undoes the public one modulo the product of two distinct primes
    when [e * d = 1] modulo [(p - 1) * (q - 1)]. *)
Lemma rsa_identity (p q e d m : Z) :
  Znumtheory.prime p -> Znumtheory.prime q -> p <> q ->
  0 <= e -> 0 <= d -> (e * d) mod ((p - 1) * (q - 1)) = 1 -> 0 <= m < p * q ->
  (m ^ e mod (p * q)) ^ d mod (p * q) = m.
Proof.
  move=> Hp Hq Hpq He Hd Hed Hm.
  have [Hp0 Hq0] : 0 <= p /\ 0 <= q by case: Hp; case: Hq; lia.
  move: Hp Hq Hpq He Hd Hed Hm.
  rw -(Z2Nat.id p Hp0) -(Z2Nat.id q Hq0). move: (Z.to_nat p) (Z.to_nat q) => p' q' Hp Hq Hpq He Hd.
  rw -(Z2Nat.id e He) -(Z2Nat.id d Hd). move: (Z.to_nat e) (Z.to_nat d) => e' d' Hed Hm.
  have Pp := prime_of_Z _ Hp. have Pq := prime_of_Z _ Hq.
  have Hm0 : 0 <= m by lia. move: Hm. rw -(Z2Nat.id m Hm0). move: (Z.to_nat m) => m' Hm.
  have Hpos : (0 < p' * q')%N by rw muln_gt0 !prime_gt0.
  rw Z.mod_pow_l -(Z.pow_mul_r _ _ _ (Nat2Z.is_nonneg e') (Nat2Z.is_nonneg d')).
  rw -!Nat2Z.inj_mul -Z_of_expn -Z_of_modn //. f_equal.
  have -> : (m' ^ (e' * d') %% (p' * q') = m' %% (p' * q'))%N.
  { apply: rsa_nat => //.
    - apply/eqP => E. by rw E in Hpq.
    - have Hpos1 : (0 < p'.-1 * q'.-1)%N.
      { rw muln_gt0. case: (p') (q') Pp Pq => [|[|a]] [|[|b]] //. }
      have E1 : Z.of_nat (e' * d' %% (p'.-1 * q'.-1))%N = 1.
      { rw (Z_of_modn _ _ Hpos1) !Nat2Z.inj_mul -!Z_pred_n //; exact: prime_gt0. }
      have E2 : (e' * d' %% (p'.-1 * q'.-1) = 1)%N by apply: Nat2Z.inj.
      rw E2 modn_small //. rw -E2. exact: ltn_pmod. }
  apply: modn_small. apply/ltP. apply: (proj2 (Nat2Z.inj_lt _ _)). rw Nat2Z.inj_mul. lia.
Qed.
