(* ===== verification/FileCache.v ===== *)
(** * The caches of the file appenders
    ([src/runtime/appender/appender_file_base.cpp], [include/qlog/utility/type_tools.hpp])

    The write cache in front of a log file: space is handed out, filled and returned at the
    cursor, and what is marked finished is written out by the next flush. The read cache: a
    window of the file. An assertion that fails is [None]. The results of the calls that
    write the file come from the environment, [io_]; errors other than a full disk, which
    make the appender open another file, are not among them. A write cache that is mapped
    from a file (recovery) is not modelled.

    [flush_write_cache] is virtual: [Flush] is what a call of it does, [base_flush] the
    function of the base class. *)
From stdpp Require Import base list option numbers.
From Stdlib Require Import ZArith Lia Bool.
From S2P Require Import Prelude Memory.

Module FileCache.

Definition CACHE_READ_DEFAULT_SIZE : Z := 32 * 1024.
Definition CACHE_WRITE_DEFAULT_SIZE : Z := 64 * 1024.
Definition CACHE_WRITE_MIN_SIZE : Z := 64 * 1024.
Definition CACHE_WRITE_MAX_SIZE : Z := 4 * 1024 * 1024.
(** [sizeof(mmap_head)] *)
Definition mmap_head_size : Z := 32.

(** ** The write cache *)

(** What [write_file] does with the bytes it is given: all are written, or [n] of them at most
    and the disk is full, or it was interrupted without an error. *)
Inductive write_result := W_all | W_short (n : Z) (disk_full : bool).

(** [buffer_] is the memory from [cache_write_] on, [disk_] the contents of the file. *)
Record write_cache := mk_wc {
  buffer_ : list Z;
  cursor_ : Z;
  finished_ : Z;
  head_size_ : Z;
  padding_ : Z;
  target_ : Z;
  allocated_ : bool;
  disk_full_drop_ : bool;
  disk_ : list Z;
  io_ : list write_result }.

Definition set_allocated (b : bool) (w : write_cache) : write_cache :=
  mk_wc (buffer_ w) (cursor_ w) (finished_ w) (head_size_ w) (padding_ w) (target_ w) b (disk_full_drop_ w) (disk_ w) (io_ w).
Definition set_buffer (b : list Z) (w : write_cache) : write_cache :=
  mk_wc b (cursor_ w) (finished_ w) (head_size_ w) (padding_ w) (target_ w) (allocated_ w) (disk_full_drop_ w) (disk_ w) (io_ w).
Definition set_finished (n : Z) (w : write_cache) : write_cache :=
  mk_wc (buffer_ w) (cursor_ w) n (head_size_ w) (padding_ w) (target_ w) (allocated_ w) (disk_full_drop_ w) (disk_ w) (io_ w).

Definition entity_size (w : write_cache) : Z := head_size_ w + padding_ w + zlen (buffer_ w).
Definition get_total_used_write_cache_size (w : write_cache) : Z := head_size_ w + padding_ w + cursor_ w.

(** [memmove] inside one buffer. *)
Definition memmove (mem : list Z) (dst src n : Z) : option (list Z) := bs ← load mem src n; store mem dst bs.

Fixpoint roundup_loop (fuel : nat) (x result : Z) : Z :=
  match fuel with
  | O => result
  | S fuel => if 0 <? x then roundup_loop fuel (Z.shiftr x 1) (u64 (Z.shiftl result 1)) else result
  end.

(** For [uint64_t]: at most 64 turns. *)
Definition roundup_pow_of_two (x : Z) : Z :=
  if Z.land x (x - 1) =? 0 then x else roundup_loop 65 x 1.

(** [write_cache_size] of the configuration. *)
Definition write_cache_target (configured : option Z) : Z :=
  match configured with
  | Some n =>
      if 0 <? n then roundup_pow_of_two (Z.min CACHE_WRITE_MAX_SIZE (Z.max CACHE_WRITE_MIN_SIZE n))
      else CACHE_WRITE_DEFAULT_SIZE
  | None => CACHE_WRITE_DEFAULT_SIZE
  end.

(** The virtual [flush_write_cache] of an appender; its first argument is what the bytes of
    new memory are. *)
Class Flush := flush : Z -> write_cache -> option write_cache.

Section WriteCache.
(** What the bytes of new memory are. *)
Variable fresh : Z.

(** The buffer that is made for a new appender. *)
Definition new_write_cache (configured : option Z) (disk : list Z) : write_cache :=
  let target := write_cache_target configured in
  mk_wc (replicate (Z.to_nat (target - mmap_head_size)) fresh) 0 0 mmap_head_size 0 target false false disk [].

Definition resize_cache_write_entity (new_size : Z) (w : write_cache) : option write_cache :=
  if new_size <? get_total_used_write_cache_size w then None
  else
    let n := Z.to_nat (new_size - head_size_ w - padding_ w) in
    Some (set_buffer (take n (buffer_ w) ++ replicate (n - length (buffer_ w)) fresh) w).

(** The number of bytes written and whether the disk was full. *)
Definition write_file (need : Z) (io : list write_result) : Z * bool * list write_result :=
  match io with
  | [] => (need, false, [])
  | W_all :: io => (need, false, io)
  | W_short n full :: io => (Z.max 0 (Z.min n need), full, io)
  end.

Definition flush_write_cache (w : write_cache) : option write_cache :=
  let need := finished_ w in
  let '(real, full, io) := write_file need (io_ w) in
  out ← load (buffer_ w) 0 real;
  b ← (if real <? need then memmove (buffer_ w) 0 real (need - real) else Some (buffer_ w));
  b ← (if finished_ w <? cursor_ w then memmove b 0 need (cursor_ w - need) else Some b);
  let drop_ := if (full : bool) then true else if real =? need then false else disk_full_drop_ w in
  let w := mk_wc b (cursor_ w - real) (finished_ w - real) (head_size_ w) (padding_ w) (target_ w) (allocated_ w)
             drop_ (disk_ w ++ out) io in
  if (target_ w <? entity_size w) && (get_total_used_write_cache_size w <=? Z.shiftr CACHE_READ_DEFAULT_SIZE 1)
  then resize_cache_write_entity (target_ w) w else Some w.

(** The space handed out, with what it holds. *)
Definition alloc_write_cache `{Flush} (size : Z) (w : write_cache) : option (list Z * write_cache) :=
  if allocated_ w then None
  else
    let w := set_allocated true w in
    w ← (if zlen (buffer_ w) <? cursor_ w + size then
           w ← flush fresh w;
           if zlen (buffer_ w) <? cursor_ w + size
           then resize_cache_write_entity (roundup_pow_of_two (cursor_ w + size + head_size_ w + padding_ w)) w
           else Some w
         else Some w);
    data ← load (buffer_ w) (cursor_ w) size;
    Some (data, w).

(** [data] is what the space that was handed out holds now. *)
Definition return_write_cache (data : list Z) (used_len : Z) (w : write_cache) : option write_cache :=
  if negb (allocated_ w) || (zlen data <? used_len) then None
  else
    b ← store (buffer_ w) (cursor_ w) data;
    Some (mk_wc b (cursor_ w + used_len) (finished_ w) (head_size_ w) (padding_ w) (target_ w) false
            (disk_full_drop_ w) (disk_ w) (io_ w)).

Definition mark_write_finished (w : write_cache) : option write_cache :=
  if allocated_ w then None else Some (set_finished (cursor_ w) w).

(** The bytes of the cache keep their order; what comes into view behind or before them is
    not their business. *)
Definition set_cache_write_padding (new_padding : Z) (w : write_cache) : option write_cache :=
  if padding_ w =? new_padding then Some w
  else
    let shift := new_padding - padding_ w in
    let size := get_total_used_write_cache_size w + shift in
    w ← (if (padding_ w <? new_padding) && (entity_size w <? size) then resize_cache_write_entity size w else Some w);
    let view := if 0 <? shift then drop (Z.to_nat shift) (buffer_ w) else replicate (Z.to_nat (- shift)) fresh ++ buffer_ w in
    bytes ← load (buffer_ w) 0 (cursor_ w);
    b ← store view 0 bytes;
    Some (mk_wc b (cursor_ w) (finished_ w) (head_size_ w) new_padding (target_ w) (allocated_ w) (disk_full_drop_ w)
            (disk_ w) (io_ w)).

(** ** Writing past the cache *)

Definition set_disk (disk : list Z) (io : list write_result) (w : write_cache) : write_cache :=
  mk_wc (buffer_ w) (cursor_ w) (finished_ w) (head_size_ w) (padding_ w) (target_ w) (allocated_ w) (disk_full_drop_ w) disk io.

Definition overwrite (file : list Z) (offset : Z) (bs : list Z) : list Z :=
  take (Z.to_nat offset) file ++ bs ++ drop (Z.to_nat offset + length bs) file.

(** [direct_write] at [Some offset] from the beginning, or at the end of the file; the number
    of bytes written. *)
Definition direct_write (data : list Z) (at_offset : option Z) (w : write_cache) : Z * write_cache :=
  let '(real, _, io) := write_file (zlen data) (io_ w) in
  let bs := take (Z.to_nat real) data in
  (real, set_disk (match at_offset with Some offset => overwrite (disk_ w) offset bs | None => disk_ w ++ bs end) io w).

Definition truncate_file (size : Z) (w : write_cache) : write_cache := set_disk (take (Z.to_nat size) (disk_ w)) (io_ w) w.

End WriteCache.

(** [appender_file_base::flush_write_cache] for the virtual function. *)
Definition base_flush : Flush := flush_write_cache.

(** ** The read cache *)

(** [os_pos_] is the position of the open file, which the reads advance. *)
Record read_cache := mk_rc {
  cache_read_ : list Z;
  cache_read_cursor_ : Z;
  read_file_pos_ : Z;
  cache_read_eof_ : bool;
  os_pos_ : Z }.

(** The position goes through [int32_t]; a negative one is refused by the system. *)
Definition seek_read_file_absolute (pos : Z) (r : read_cache) : bool * read_cache :=
  if i32 pos <? 0 then (false, r) else (true, mk_rc [] 0 pos false (i32 pos)).

Definition clear_read_cache (r : read_cache) : read_cache :=
  mk_rc [] 0 (read_file_pos_ r) (cache_read_eof_ r) (os_pos_ r).

(** A cursor outside the cache fails the assertion. *)
Definition seek_read_file_offset (offset : Z) (r : read_cache) : option read_cache :=
  let final_cursor := cache_read_cursor_ r + offset in
  if (0 <=? final_cursor) && (final_cursor <=? zlen (cache_read_ r))
  then Some (mk_rc (cache_read_ r) final_cursor (read_file_pos_ r + offset) (cache_read_eof_ r) (os_pos_ r))
  else None.

(** [read_file]: the bytes from the position on, as many as there are. *)
Definition read_file (file : list Z) (pos n : Z) : list Z := take (Z.to_nat n) (drop (Z.to_nat pos) file).

Definition read_with_cache (file : list Z) (size : Z) (r : read_cache) : list Z * read_cache :=
  let left_size := zlen (cache_read_ r) - cache_read_cursor_ r in
  let '(cache, cursor, os_pos) :=
    if left_size <? size then
      let rest := drop (Z.to_nat (cache_read_cursor_ r)) (cache_read_ r) in
      let fill := Z.max size CACHE_READ_DEFAULT_SIZE - left_size in
      let physical := read_file_pos_ r + left_size in
      let readable := if physical <? zlen file then zlen file - physical else 0 in
      let fill := if readable <? fill then readable else fill in
      let bytes := read_file file (os_pos_ r) fill in
      (rest ++ bytes, 0, os_pos_ r + zlen bytes)
    else (cache_read_ r, cache_read_cursor_ r, os_pos_ r) in
  let len := Z.min size (zlen cache - cursor) in
  (take (Z.to_nat len) (drop (Z.to_nat cursor) cache),
   mk_rc cache (cursor + len) (read_file_pos_ r + len) (cache_read_eof_ r || (len <? size)) os_pos).

(** ** When another file is due *)

Definition is_file_oversize (max_file_size current_file_size : Z) : bool :=
  (0 <? max_file_size) && (max_file_size <=? current_file_size).

(** The end of the local day of the record that opens a file, in milliseconds. *)
Definition file_expire_time (diff_to_gmt_ms epoch : Z) : Z :=
  let ms_per_day := 60 * 60 * 24 * 1000 in
  let local := u64 (epoch + diff_to_gmt_ms) in
  let next := u64 (local - local mod ms_per_day + ms_per_day) in
  u64 (next - diff_to_gmt_ms).

(** The condition of [refresh_file_handle]. *)
Definition need_create_new_file (file_open rolling : bool) (max_file_size current_file_size expire epoch : Z) : bool :=
  negb file_open || is_file_oversize max_file_size current_file_size || (rolling && (expire <? epoch)).

End FileCache.
