(* ===== verification/FileFlush.v ===== *)
(** * Flushing the write cache, and what every flush promises

    [flush_write_cache] of the base class keeps the bytes of the file followed by those of the
    cache. [FlushLaws] is the interface of the virtual function: what the other operations of
    the cache, and the appenders on top of it, rely on, whichever class provides it. *)
From stdpp Require Import base list option numbers.
From Stdlib Require Import ZArith Lia Bool.
From S2P Require Import Prelude Memory FileCache.
Import FileCache.

Definition raw_stream (w : write_cache) : list Z := disk_ w ++ take (Z.to_nat (cursor_ w)) (buffer_ w).

Record cache_ok (w : write_cache) : Prop := {
  ck_finished : 0 <= finished_ w <= cursor_ w;
  ck_cursor : cursor_ w <= zlen (buffer_ w);
  ck_head : 0 <= head_size_ w <= 2 ^ 14;
  ck_padding : 0 <= padding_ w < 256;
  ck_target : CACHE_WRITE_MIN_SIZE <= target_ w;
  ck_bytes : bytes_ok (buffer_ w) }.

(** ** Powers of two *)

Lemma roundup_loop_ok (fuel : nat) (x k : Z) :
  0 <= x < 2 ^ Z.of_nat fuel -> 0 <= k -> k + Z.of_nat fuel < 64 ->
  exists j, roundup_loop fuel x (2 ^ k) = 2 ^ (k + j) /\ x < 2 ^ j /\ 0 <= j <= Z.of_nat fuel.
Proof.
  revert x k. induction fuel as [|fuel IH]; intros x k Hx Hk Hf.
  - exists 0. cbn in Hx |- *. rewrite Z.add_0_r. lia.
  - cbn [roundup_loop]. destruct (Z.ltb_spec 0 x) as [Hpos|]; [|exists 0; rewrite Z.add_0_r; cbn; lia].
    rewrite Nat2Z.inj_succ, Z.pow_succ_r in Hx by lia.
    pose proof (Z.pow_lt_mono_r 2 (k + 1) 64 ltac:(lia) ltac:(lia) ltac:(lia)) as Hlt.
    pose proof (Z.pow_pos_nonneg 2 k ltac:(lia) ltac:(lia)) as Hpk.
    assert (2 ^ (k + 1) = 2 * 2 ^ k) as E by (rewrite Z.pow_add_r by lia; lia).
    rewrite Z.shiftr_div_pow2, Z.shiftl_mul_pow2 by lia. change (2 ^ 1) with 2.
    rewrite wrap_small by (unfold in_range; lia). rewrite Z.mul_comm, <- E.
    pose proof (Z.div_mod x 2 ltac:(lia)) as Hdm. pose proof (Z.mod_pos_bound x 2 ltac:(lia)) as Hm.
    destruct (IH (x / 2) (k + 1)) as (j & Ej & Hj & Hjf); [lia|lia|lia|].
    exists (j + 1). rewrite Ej. split; [f_equal; lia|]. rewrite Z.pow_add_r by lia. change (2 ^ 1) with 2. lia.
Qed.

Lemma roundup_grows (x : Z) : 0 < x < 2 ^ 62 -> x <= roundup_pow_of_two x < 2 ^ 63.
Proof.
  intros Hx. unfold roundup_pow_of_two. destruct (_ =? 0); [lia|].
  (* sixty-two turns are enough; the remaining ones see zero *)
  assert (forall f e y r, 0 <= y < 2 ^ Z.of_nat f -> roundup_loop (f + e) y r = roundup_loop f y r) as Hst.
  { induction f as [|f IH]; intros e y r Hy.
    - cbn in Hy. assert (y = 0) as -> by lia. by destruct e.
    - cbn [plus roundup_loop]. destruct (Z.ltb_spec 0 y); [|done]. apply IH.
      rewrite Z.shiftr_div_pow2 by lia. change (2 ^ 1) with 2.
      rewrite Nat2Z.inj_succ, Z.pow_succ_r in Hy by lia.
      split; [apply Z.div_pos; lia|]. apply Z.div_lt_upper_bound; lia. }
  change 65%nat with (62 + 3)%nat. rewrite Hst by (change (Z.of_nat 62) with 62; lia).
  destruct (roundup_loop_ok 62 x 0) as (j & Ej & Hj & Hjf); [change (Z.of_nat 62) with 62; lia|lia|lia|].
  change (2 ^ 0) with 1 in Ej. rewrite Ej. rewrite Z.add_0_l. change (Z.of_nat 62) with 62 in Hjf.
  pose proof (Z.pow_le_mono_r 2 j 62 ltac:(lia) ltac:(lia)). split; lia.
Qed.

(** ** Flushing *)

Lemma memmove_front (A B C : list Z) :
  memmove (A ++ B ++ C) 0 (zlen A) (zlen B) = Some (B ++ drop (length B) (A ++ B ++ C)).
Proof.
  unfold memmove. rewrite load_app. cbn [mbind option_bind]. rewrite store_Some; [done|done|].
  rewrite !zlen_app. pose proof (zlen_nonneg A). pose proof (zlen_nonneg C). lia.
Qed.

(** The buffer as the bytes to be written, the bytes that are not finished, and the rest. *)
Lemma buffer_split (w : write_cache) :
  cache_ok w -> exists F P R, buffer_ w = F ++ P ++ R /\ zlen F = finished_ w /\ zlen P = cursor_ w - finished_ w.
Proof.
  intros [Hf Hc _ _ _ _].
  exists (take (Z.to_nat (finished_ w)) (buffer_ w)),
         (take (Z.to_nat (cursor_ w - finished_ w)) (drop (Z.to_nat (finished_ w)) (buffer_ w))),
         (drop (Z.to_nat (cursor_ w - finished_ w)) (drop (Z.to_nat (finished_ w)) (buffer_ w))).
  rewrite take_drop, take_drop. split; [done|]. split; [apply zlen_take; lia|]. apply zlen_take. rewrite zlen_drop; lia.
Qed.

Lemma raw_stream_split (w : write_cache) (F P R : list Z) :
  buffer_ w = F ++ P ++ R -> zlen F + zlen P = cursor_ w -> raw_stream w = disk_ w ++ F ++ P.
Proof.
  intros E Hc. unfold raw_stream. rewrite E, app_assoc. f_equal. unfold zlen in Hc. apply take_app_length'. rewrite length_app. lia.
Qed.

Lemma resize_ok (fresh size : Z) (w : write_cache) :
  is_byte fresh -> cache_ok w -> get_total_used_write_cache_size w <= size ->
  exists w', resize_cache_write_entity fresh size w = Some w' /\ cache_ok w' /\ raw_stream w' = raw_stream w /\
    zlen (buffer_ w') = size - head_size_ w - padding_ w /\ w' = set_buffer (buffer_ w') w.
Proof.
  intros Hfr [Hf Hc Hh Hp Ht Hb] Hs. unfold get_total_used_write_cache_size in Hs. unfold resize_cache_write_entity, get_total_used_write_cache_size.
  destruct (Z.ltb_spec size (head_size_ w + padding_ w + cursor_ w)) as [|_]; [lia|].
  eexists. split; [done|]. unfold zlen in Hc.
  assert (zlen (take (Z.to_nat (size - head_size_ w - padding_ w)) (buffer_ w) ++
    replicate (Z.to_nat (size - head_size_ w - padding_ w) - length (buffer_ w)) fresh) = size - head_size_ w - padding_ w) as El.
  { unfold zlen. rewrite length_app, length_take, length_replicate. lia. }
  split_and!; [split; cbn; rewrite ?El; try lia| |exact El|done].
  { apply Forall_app. split; [by apply Forall_take|by apply Forall_replicate]. }
  unfold raw_stream. cbn. f_equal. rewrite take_app_le by (rewrite length_take; lia). rewrite take_take. f_equal. lia.
Qed.

(** Whether the next write lets the bytes behind the finished ones stay in order. *)
Definition orderly (w : write_cache) : Prop :=
  match io_ w with
  | [] | W_all :: _ => True
  | W_short _ _ :: _ => finished_ w = cursor_ w
  end.

Lemma memmove_bytes (mem b : list Z) (dst src n : Z) : memmove mem dst src n = Some b -> bytes_ok mem -> bytes_ok b.
Proof.
  unfold memmove. intros H Hm. apply bind_Some in H as (bs & Hl & Hs). eapply store_bytes_ok; [exact Hs|done|by eapply load_bytes_ok].
Qed.

Lemma flush_moves (w : write_cache) (n : Z) :
  cache_ok w -> 0 <= n <= finished_ w -> n = finished_ w \/ finished_ w = cursor_ w ->
  exists out b1 b2, load (buffer_ w) 0 n = Some out /\
    (if n <? finished_ w then memmove (buffer_ w) 0 n (finished_ w - n) else Some (buffer_ w)) = Some b1 /\
    (if finished_ w <? cursor_ w then memmove b1 0 (finished_ w) (cursor_ w - finished_ w) else Some b1) = Some b2 /\
    zlen b2 = zlen (buffer_ w) /\ bytes_ok b2 /\ zlen out = n /\
    out ++ take (Z.to_nat (cursor_ w - n)) b2 = take (Z.to_nat (cursor_ w)) (buffer_ w).
Proof.
  intros Hok Hn Hor. pose proof (ck_bytes _ Hok) as Hbytes.
  assert (forall b1 b2, (if n <? finished_ w then memmove (buffer_ w) 0 n (finished_ w - n) else Some (buffer_ w)) = Some b1 ->
    (if finished_ w <? cursor_ w then memmove b1 0 (finished_ w) (cursor_ w - finished_ w) else Some b1) = Some b2 -> bytes_ok b2) as HB.
  { intros b1 b2 E1 E2. assert (bytes_ok b1) by (destruct (n <? finished_ w); [by eapply memmove_bytes|by injection E1 as <-]).
    destruct (finished_ w <? cursor_ w); [by eapply memmove_bytes|by injection E2 as <-]. }
  cut (exists out b1 b2, load (buffer_ w) 0 n = Some out /\
    (if n <? finished_ w then memmove (buffer_ w) 0 n (finished_ w - n) else Some (buffer_ w)) = Some b1 /\
    (if finished_ w <? cursor_ w then memmove b1 0 (finished_ w) (cursor_ w - finished_ w) else Some b1) = Some b2 /\
    zlen b2 = zlen (buffer_ w) /\ zlen out = n /\
    out ++ take (Z.to_nat (cursor_ w - n)) b2 = take (Z.to_nat (cursor_ w)) (buffer_ w)).
  { intros (out & b1 & b2 & E0 & E1 & E2 & ? & ? & ?). exists out, b1, b2. split_and!; try done. by eapply HB. }
  clear HB Hbytes. destruct (buffer_split w Hok) as (F & P & R & E & EF & EP). destruct Hok as [Hf Hc _ _ _ _].
  pose proof (zlen_nonneg R) as HR. rewrite E in *. rewrite !zlen_app in Hc.
  assert (forall X Y : list Z, length (Y ++ drop (length Y) X) = (length Y + (length X - length Y))%nat) as HL
    by (intros; rewrite length_app, length_drop; lia).
  assert (take (Z.to_nat (cursor_ w)) (F ++ P ++ R) = F ++ P) as ET.
  { rewrite app_assoc. unfold zlen in *. apply take_app_length'. rewrite length_app. lia. }
  rewrite ET. destruct Hor as [->|Eq].
  - exists F, (F ++ P ++ R). rewrite Z.ltb_irrefl. rewrite (load_app_at _ [] F (P ++ R)) by done.
    destruct (Z.ltb_spec (finished_ w) (cursor_ w)) as [Hlt|Hge].
    + assert (memmove (F ++ P ++ R) 0 (finished_ w) (cursor_ w - finished_ w) = Some (P ++ drop (length P) (F ++ P ++ R))) as ->
        by (rewrite <- EF, <- EP at 1; apply memmove_front).
      eexists. split; [done|]. split; [done|]. split; [done|].
      split; [unfold zlen; rewrite HL, !length_app; unfold zlen in *; lia|]. split; [done|].
      f_equal. apply take_app_length'. unfold zlen in *. lia.
    + exists (F ++ P ++ R). assert (P = []) as -> by (destruct P; [done|rewrite zlen_cons in EP; pose proof (zlen_nonneg P); lia]).
      split_and!; [done|done|done|done|done|]. replace (cursor_ w - finished_ w) with 0 by lia. done.
  - assert (P = []) as -> by (destruct P; [done|rewrite zlen_cons in EP; pose proof (zlen_nonneg P); lia]).
    rewrite <- (take_drop (Z.to_nat n) F). set (F1 := take (Z.to_nat n) F). set (F2 := drop (Z.to_nat n) F).
    assert (zlen F1 = n /\ zlen F2 = finished_ w - n) as [E1 E2] by (unfold F1, F2; rewrite zlen_take, zlen_drop; lia).
    rewrite app_nil_l, app_nil_r, <- app_assoc. rewrite (load_app_at _ [] F1 (F2 ++ R)) by done.
    rewrite Eq in *. rewrite Z.ltb_irrefl. destruct (Z.ltb_spec n (cursor_ w)) as [Hlt|Hge].
    + assert (memmove (F1 ++ F2 ++ R) 0 n (cursor_ w - n) = Some (F2 ++ drop (length F2) (F1 ++ F2 ++ R))) as ->
        by (rewrite <- E1 at 1; rewrite <- E2 at 1; apply memmove_front).
      exists F1. eexists _, _. split; [done|]. split; [done|]. split; [done|].
      split; [unfold zlen; rewrite HL, !length_app; unfold zlen in *; lia|]. split; [done|].
      f_equal. apply take_app_length'. unfold zlen in *. lia.
    + exists F1, (F1 ++ F2 ++ R), (F1 ++ F2 ++ R). split_and!; [done|done|done|done|done|].
      assert (F2 = []) as -> by (destruct F2; [done|rewrite zlen_cons in E2; pose proof (zlen_nonneg F2); lia]).
      replace (cursor_ w - n) with 0 by lia. done.
Qed.

(** What no operation changes. *)
Definition same_frame (w w' : write_cache) : Prop :=
  head_size_ w' = head_size_ w /\ padding_ w' = padding_ w /\ target_ w' = target_ w.

Lemma flush_writes (fresh : Z) (w : write_cache) :
  is_byte fresh -> cache_ok w -> orderly w ->
  exists w' n, flush_write_cache fresh w = Some w' /\ cache_ok w' /\ 0 <= n <= finished_ w /\
    disk_ w' = disk_ w ++ take (Z.to_nat n) (buffer_ w) /\
    take (Z.to_nat (cursor_ w')) (buffer_ w') = drop (Z.to_nat n) (take (Z.to_nat (cursor_ w)) (buffer_ w)) /\
    cursor_ w' = cursor_ w - n /\ finished_ w' = finished_ w - n /\
    same_frame w w' /\ allocated_ w' = allocated_ w /\ io_ w' = tail (io_ w) /\ (io_ w = [] -> n = finished_ w).
Proof.
  intros Hfr Hok Hor. unfold flush_write_cache. destruct (write_file (finished_ w) (io_ w)) as [[n full] io] eqn:Eio.
  assert (0 <= n <= finished_ w /\ (n = finished_ w \/ finished_ w = cursor_ w) /\ io = tail (io_ w)) as (Hn & Ho & Eio').
  { unfold orderly in Hor. pose proof (ck_finished _ Hok). destruct (io_ w) as [|[|k f] r]; cbn in Eio; injection Eio as <- <- <-;
      split_and!; try done; try lia; by (left + right). }
  assert (io_ w = [] -> n = finished_ w) as Hfull by (intros E0; rewrite E0 in Eio; cbn in Eio; by injection Eio).
  destruct (flush_moves w n Hok Hn Ho) as (out & b1 & b2 & -> & E1 & E2 & Hl & Hb2 & Hout & Ht).
  cbn [mbind option_bind]. rewrite E1. cbn [mbind option_bind]. rewrite E2. cbn [mbind option_bind].
  set (w1 := mk_wc b2 _ _ _ _ _ _ _ _ _). destruct Hok as [Hf Hc Hh Hp Htg _].
  assert (cache_ok w1) as Hok1 by (split; cbn; (done || lia)).
  assert (out = take (Z.to_nat n) (buffer_ w) /\ take (Z.to_nat (cursor_ w1)) b2 = drop (Z.to_nat n) (take (Z.to_nat (cursor_ w)) (buffer_ w))) as [-> Hrest].
  { rewrite <- Ht. split; [|rewrite drop_app_length' by (unfold zlen in Hout; lia); done].
    apply (f_equal (take (Z.to_nat n))) in Ht. rewrite take_app_length', take_take in Ht by (unfold zlen in Hout; lia). rewrite Ht. f_equal. lia. }
  clear E1 E2 Ht. destruct (_ && _) eqn:Er.
  - apply andb_true_iff in Er as [_ Hu]. apply Z.leb_le in Hu.
    destruct (resize_ok fresh (target_ w1) w1 Hfr Hok1) as (w2 & E & Hok2 & Hs2 & _ & Ew).
    { etrans; [exact Hu|]. change (Z.shiftr CACHE_READ_DEFAULT_SIZE 1) with 16384. change (target_ w1) with (target_ w).
      unfold CACHE_WRITE_MIN_SIZE in Htg. lia. }
    assert (exists b, w2 = set_buffer b w1) as [b ->] by eauto.
    assert (take (Z.to_nat (cursor_ w1)) b = take (Z.to_nat (cursor_ w1)) b2) as E0 by (unfold raw_stream in Hs2; by apply app_inv_head in Hs2).
    eexists _, n. split_and!; try (done || lia). cbn [cursor_ buffer_ set_buffer]. by rewrite E0.
  - exists w1, n. split_and!; (done || lia).
Qed.

Lemma flush_cache_ok (fresh : Z) (w : write_cache) :
  is_byte fresh -> cache_ok w -> orderly w ->
  exists w', flush_write_cache fresh w = Some w' /\ cache_ok w' /\ raw_stream w' = raw_stream w /\ disk_ w `prefix_of` disk_ w' /\
    same_frame w w' /\ allocated_ w' = allocated_ w /\ io_ w' = tail (io_ w) /\ cursor_ w' <= cursor_ w /\
    (finished_ w = cursor_ w -> finished_ w' = cursor_ w') /\
    (io_ w = [] -> finished_ w' = 0 /\ cursor_ w' = cursor_ w - finished_ w /\
      disk_ w' = disk_ w ++ take (Z.to_nat (finished_ w)) (buffer_ w)).
Proof.
  intros Hfr Hok Hor. destruct (flush_writes fresh w Hfr Hok Hor) as (w' & n & E & Hok' & Hn & Hd & Ht & Hc & Hf & Hfr' & Ha & Hio & Hfull).
  exists w'. split_and!; try done; [|by rewrite Hd; apply prefix_app_r|lia|lia|].
  - unfold raw_stream. pose proof (ck_finished _ Hok). rewrite Hd, Ht, <- app_assoc. f_equal.
    rewrite <- (take_drop (Z.to_nat n) (take (Z.to_nat (cursor_ w)) (buffer_ w))) at 2. f_equal. rewrite take_take. f_equal. lia.
  - intros E0. specialize (Hfull E0) as ->. split_and!; (done || lia).
Qed.

Lemma resize_drop (fresh size : Z) (w w' : write_cache) :
  resize_cache_write_entity fresh size w = Some w' -> disk_full_drop_ w' = disk_full_drop_ w.
Proof. unfold resize_cache_write_entity. destruct (_ <? _); [done|]. by intros [= <-]. Qed.

Lemma flush_drop (fresh : Z) (w w' : write_cache) :
  flush_write_cache fresh w = Some w' -> io_ w = [] -> disk_full_drop_ w' = false.
Proof.
  unfold flush_write_cache. intros H E. rewrite E in H. cbn [write_file] in H. rewrite Z.eqb_refl, Z.ltb_irrefl in H.
  apply bind_Some in H as (out & _ & H). cbn [mbind option_bind] in H. apply bind_Some in H as (b & _ & H).
  destruct (_ && _) in H; [apply resize_drop in H; done|]. by injection H as <-.
Qed.

(** ** The interface *)

Class FlushLaws (F : Flush) (fresh : Z) := {
  fresh_byte : is_byte fresh;
  (** what the bytes of the file stand for *)
  view : list Z -> list Z;
  (** what the appender keeps true of the file and the place of the cache *)
  kept : write_cache -> Prop;
  kept_frame w w' : kept w -> disk_ w' = disk_ w -> head_size_ w' = head_size_ w -> padding_ w' = padding_ w -> kept w';
  flush_law w : kept w -> cache_ok w -> orderly w -> cursor_ w < 2 ^ 62 ->
    exists w', flush fresh w = Some w' /\ kept w' /\ cache_ok w' /\
      view (disk_ w') ++ take (Z.to_nat (cursor_ w')) (buffer_ w') = view (disk_ w) ++ take (Z.to_nat (cursor_ w)) (buffer_ w) /\
      disk_ w `prefix_of` disk_ w' /\ allocated_ w' = allocated_ w /\ io_ w' = tail (io_ w) /\ cursor_ w' <= cursor_ w /\
      (finished_ w = cursor_ w -> finished_ w' = cursor_ w') /\
      (io_ w = [] -> finished_ w' = 0 /\ cursor_ w' = cursor_ w - finished_ w /\ disk_full_drop_ w' = false) }.

(** The function of the base class provides it. *)
#[export] Instance base_flush_laws (fresh : Z) (Hfr : is_byte fresh) : FlushLaws base_flush fresh.
Proof.
  refine {| view := fun d => d; kept := fun _ => True |}; [done|done|]. intros w _ Hok Hor _.
  destruct (flush_cache_ok fresh w Hfr Hok Hor) as (w' & E & Hok' & Hs & Hp & _ & Ha & Hio & Hc & Hfin & Hfull).
  exists w'. split_and!; try done. intros E0. destruct (Hfull E0) as (? & ? & ?). split_and!; [done|done|by eapply flush_drop].
Defined.
