(* ===== verification/FileCacheTheorems.v ===== *)
(** * The file caches: nothing that was returned is lost

    [stream w]: what the bytes of the file stand for and the bytes of the write cache behind
    it, which is what the file will stand for when the cache has been written out. *)
From stdpp Require Import base list option numbers.
From Stdlib Require Import ZArith Lia Bool.
From S2P Require Import Prelude Memory FileCache FileFlush.
Import FileCache.

(** [io] with nothing but complete writes, or everything finished before the next write. *)
Definition safe (w : write_cache) : Prop := Forall (eq W_all) (io_ w) \/ finished_ w = cursor_ w.

Lemma safe_orderly (w : write_cache) : safe w -> orderly w.
Proof.
  unfold orderly. intros [Hall|Eq]; [|by destruct (io_ w) as [|[|n f] r]].
  destruct (io_ w) as [|[|n f] r]; [done|done|]. by apply Forall_inv in Hall.
Qed.

Lemma flush_safe (w w' : write_cache) : io_ w' = tail (io_ w) -> (finished_ w = cursor_ w -> finished_ w' = cursor_ w') -> safe w -> safe w'.
Proof.
  unfold safe. intros -> Hf [Hall|Eq]; [left|right; auto]. destruct (io_ w); [done|]. by apply Forall_inv_tail in Hall.
Qed.

Section Cache.
Context {F : Flush} {fresh : Z} {L : FlushLaws F fresh}.

Definition stream (w : write_cache) : list Z := view (disk_ w) ++ take (Z.to_nat (cursor_ w)) (buffer_ w).

(** ** Handing out and taking back *)

Lemma resize_stream (size : Z) (w : write_cache) :
  cache_ok w -> kept w -> get_total_used_write_cache_size w <= size ->
  exists w', resize_cache_write_entity fresh size w = Some w' /\ cache_ok w' /\ kept w' /\ stream w' = stream w /\
    zlen (buffer_ w') = size - head_size_ w - padding_ w /\ w' = set_buffer (buffer_ w') w.
Proof.
  intros Hok K Hs. destruct (resize_ok fresh size w fresh_byte Hok Hs) as (w' & E & Hok' & Hst & Hl & Ew). exists w'.
  split_and!; try done; [by eapply kept_frame; [exact K|rewrite Ew..]|].
  unfold raw_stream, stream in *. rewrite Ew in Hst |- *. cbn in *. by apply app_inv_head in Hst as ->.
Qed.

Lemma alloc_cache_ok (size : Z) (w : write_cache) :
  cache_ok w -> kept w -> orderly w -> allocated_ w = false -> 0 <= size -> cursor_ w + size < 2 ^ 61 ->
  exists data w', alloc_write_cache fresh size w = Some (data, w') /\ zlen data = size /\ cache_ok w' /\
    kept w' /\ stream w' = stream w /\ disk_ w `prefix_of` disk_ w' /\ bytes_ok data /\ allocated_ w' = true /\
    cursor_ w' <= cursor_ w /\ cursor_ w' + size <= zlen (buffer_ w') /\
    (finished_ w = cursor_ w -> finished_ w' = cursor_ w') /\ (io_ w' = io_ w \/ io_ w' = tail (io_ w)) /\
    (io_ w = [] -> disk_full_drop_ w = false -> disk_full_drop_ w' = false).
Proof.
  intros Hok K Hor Ha Hs Hb. unfold alloc_write_cache. rewrite Ha.
  assert (forall w1, cache_ok w1 -> cursor_ w1 + size <= zlen (buffer_ w1) -> exists data, load (buffer_ w1) (cursor_ w1) size = Some data /\ zlen data = size /\ bytes_ok data) as HL.
  { intros w1 [Hf Hc _ _ _ Hby] Hle. rewrite load_Some by lia. eexists. split; [done|].
    split; [apply zlen_take; rewrite zlen_drop; lia|by apply Forall_take, Forall_drop]. }
  set (w0 := set_allocated true w). assert (cache_ok w0) as Hok0 by by destruct Hok. assert (orderly w0) as Hor0 by done.
  assert (kept w0) as K0 by by eapply kept_frame.
  change (zlen (buffer_ w0)) with (zlen (buffer_ w)). change (cursor_ w0) with (cursor_ w).
  destruct (Z.ltb_spec (zlen (buffer_ w)) (cursor_ w + size)) as [Hlt|Hge].
  2: { cbn [mbind option_bind]. destruct (HL w0 Hok0 Hge) as (data & -> & Hd & Hdb). cbn [mbind option_bind].
       exists data, w0. split_and!; try done; try lia. by left. }
  destruct (flush_law w0 K0 Hok0 Hor0) as (w1 & -> & K1 & Hok1 & Hs1 & Hp1 & Ha1 & Hio1 & Hc1 & Hfin1 & Hd1); [cbn; lia|]. cbn [mbind option_bind].
  assert (io_ w = [] -> disk_full_drop_ w = false -> disk_full_drop_ w1 = false) as Hd2 by (intros E0 _; by destruct (Hd1 E0) as (_ & _ & ?)).
  change (cursor_ w0) with (cursor_ w) in *. change (io_ w0) with (io_ w) in *. change (disk_ w0) with (disk_ w) in *.
  destruct (Z.ltb_spec (zlen (buffer_ w1)) (cursor_ w1 + size)) as [Hlt1|Hge1].
  2: { cbn [mbind option_bind]. destruct (HL w1 Hok1 Hge1) as (data & -> & Hd & Hdb). cbn [mbind option_bind]. exists data, w1. split_and!; try done. by right. }
  set (need := cursor_ w1 + size + head_size_ w1 + padding_ w1).
  pose proof Hok1 as [Hf2 Hc2 Hh2 Hp2 Ht2 _]. pose proof (zlen_nonneg (buffer_ w1)).
  destruct (roundup_grows need) as [Hn1 Hn2]; [unfold need; lia|].
  destruct (resize_stream (roundup_pow_of_two need) w1 Hok1 K1) as (w2 & E & Hok2 & K2 & Hs2 & Hl2 & Ew).
  { unfold get_total_used_write_cache_size, need in *. lia. }
  rewrite E. cbn [mbind option_bind].
  assert (cursor_ w2 = cursor_ w1 /\ disk_ w2 = disk_ w1 /\ finished_ w2 = finished_ w1 /\ io_ w2 = io_ w1 /\ allocated_ w2 = allocated_ w1 /\
    disk_full_drop_ w2 = disk_full_drop_ w1) as (Ec & Ed & Ef & Ei & Eal & Edr) by (rewrite Ew; done).
  assert (cursor_ w2 + size <= zlen (buffer_ w2)) as Hfit by (rewrite Ec, Hl2; unfold need in *; lia).
  destruct (HL w2 Hok2 Hfit) as (data & -> & Hd & Hdb). cbn [mbind option_bind]. exists data, w2.
  split; [done|]. split; [done|]. split; [done|]. split; [done|]. split; [by rewrite Hs2|]. split; [by rewrite Ed|]. split; [done|].
  split; [by rewrite Eal, Ha1|]. split; [lia|]. split; [done|]. split; [by rewrite Ef, Ec|]. split; [right; by rewrite Ei|]. by rewrite Edr.
Qed.

Lemma return_ok (data : list Z) (used : Z) (w : write_cache) :
  bytes_ok data -> cache_ok w -> kept w -> allocated_ w = true -> 0 <= used <= zlen data -> cursor_ w + zlen data <= zlen (buffer_ w) ->
  exists w', return_write_cache data used w = Some w' /\ cache_ok w' /\ kept w' /\
    stream w' = stream w ++ take (Z.to_nat used) data /\ disk_ w' = disk_ w /\ allocated_ w' = false /\ disk_full_drop_ w' = disk_full_drop_ w /\
    cursor_ w' = cursor_ w + used /\ finished_ w' = finished_ w /\ io_ w' = io_ w.
Proof.
  intros Hdb [Hf Hc Hh Hp Ht Hb] K Ha Hu Hfit. unfold return_write_cache. rewrite Ha. cbn [negb orb].
  destruct (Z.ltb_spec (zlen data) used) as [|_]; [lia|].
  rewrite store_Some by lia. cbn [mbind option_bind]. eexists. split; [done|].
  assert (zlen (take (Z.to_nat (cursor_ w)) (buffer_ w) ++ data ++ drop (Z.to_nat (cursor_ w) + length data) (buffer_ w)) = zlen (buffer_ w)) as El.
  { unfold zlen in *. rewrite !length_app, length_take, length_drop. lia. }
  split_and!; try done.
  - split; cbn; rewrite ?El; try lia. apply Forall_app. split; [by apply Forall_take|]. apply Forall_app. split; [done|by apply Forall_drop].
  - by eapply kept_frame.
  - unfold stream. cbn. rewrite <- app_assoc. f_equal.
    replace (Z.to_nat (cursor_ w + used)) with (Z.to_nat (cursor_ w) + Z.to_nat used)%nat by lia.
    assert (length (take (Z.to_nat (cursor_ w)) (buffer_ w)) = Z.to_nat (cursor_ w)) as Elt by (rewrite length_take; unfold zlen in *; lia).
    rewrite <- Elt at 1. rewrite take_app_add. f_equal. unfold zlen in Hu. rewrite take_app_le by lia. done.
Qed.

Lemma mark_ok (w : write_cache) :
  cache_ok w -> kept w -> allocated_ w = false ->
  exists w', mark_write_finished w = Some w' /\ cache_ok w' /\ kept w' /\ stream w' = stream w /\ disk_ w' = disk_ w /\
    allocated_ w' = false /\ disk_full_drop_ w' = disk_full_drop_ w /\ finished_ w' = cursor_ w' /\ cursor_ w' = cursor_ w /\ io_ w' = io_ w.
Proof.
  intros [Hf Hc Hh Hp Ht Hb] K Ha. unfold mark_write_finished. rewrite Ha. eexists. split; [done|].
  split_and!; try done; [split; cbn; (done || lia)|by eapply kept_frame].
Qed.

(** ** A cache whose writes are complete *)

(** What the appenders that mark a record only after several returns rely on. *)
Record quiet (w : write_cache) : Prop := {
  qu_ok : cache_ok w;
  qu_kept : kept w;
  qu_free : allocated_ w = false;
  qu_io : io_ w = [];
  qu_healthy : disk_full_drop_ w = false }.

(** Space that is taken, and returned with [data] in it of which [used] bytes count. *)
Lemma quiet_alloc (size : Z) (w : write_cache) :
  quiet w -> 0 <= size -> cursor_ w + size < 2 ^ 61 ->
  exists old w1, alloc_write_cache fresh size w = Some (old, w1) /\ zlen old = size /\ bytes_ok old /\
    forall data used, bytes_ok data -> zlen data = size -> 0 <= used <= size ->
    exists w2, return_write_cache data used w1 = Some w2 /\ quiet w2 /\ stream w2 = stream w ++ take (Z.to_nat used) data /\
      cursor_ w2 <= cursor_ w + used /\ disk_ w `prefix_of` disk_ w2.
Proof.
  intros [Hok K Ha Hio Hd] Hs Hb.
  destruct (alloc_cache_ok size w Hok K) as (old & w1 & E & Hl & Hok1 & K1 & Hs1 & Hp1 & Hob & Ha1 & Hc1 & Hroom & _ & Hio1 & Hd1); [unfold orderly; by rewrite Hio|done..|].
  exists old, w1. split; [done|]. split; [done|]. split; [done|]. intros data used Hdb Hdl Hu.
  assert (io_ w1 = []) as Hio2 by (rewrite Hio in Hio1; by destruct Hio1).
  destruct (return_ok data used w1 Hdb Hok1 K1 Ha1) as (w2 & E2 & Hok2 & K2 & Hs2 & Hp2 & Ha2 & Hd2 & Hc2 & _ & Hio3); [lia|lia|].
  exists w2. split; [done|]. split; [split; try done; [by rewrite Hio3|by rewrite Hd2; apply Hd1]|split; [by rewrite Hs2, Hs1|split; [lia|by rewrite Hp2]]].
Qed.

Lemma quiet_mark (w : write_cache) :
  quiet w -> exists w', mark_write_finished w = Some w' /\ quiet w' /\ stream w' = stream w /\ cursor_ w' = cursor_ w /\
    finished_ w' = cursor_ w' /\ disk_ w' = disk_ w.
Proof.
  intros [Hok K Ha Hio Hd]. destruct (mark_ok w Hok K Ha) as (w' & E & Hok' & K' & Hs & Hdisk & Ha' & Hd' & Hf & Hc & Hio').
  exists w'. split; [done|]. split; [split; try done; [by rewrite Hio'|by rewrite Hd']|done].
Qed.

Lemma quiet_flush (w : write_cache) :
  quiet w -> cursor_ w < 2 ^ 62 -> exists w', flush fresh w = Some w' /\ quiet w' /\ stream w' = stream w /\ cursor_ w' <= cursor_ w /\
    (finished_ w = cursor_ w -> cursor_ w' = 0 /\ view (disk_ w') = stream w) /\ disk_ w `prefix_of` disk_ w'.
Proof.
  intros [Hok K Ha Hio Hd] Hcur.
  destruct (flush_law w K Hok) as (w' & E & K' & Hok' & Hs & Hpre & Ha' & Hio' & Hc & Hfin & Hfull); [unfold orderly; by rewrite Hio|done|].
  destruct (Hfull Hio) as (Hf0 & Hc0 & Hd0). exists w'. split; [done|].
  split; [split; try done; [by rewrite Ha'|by rewrite Hio', Hio]|]. split; [done|]. split; [done|]. split; [|done]. intros Eq.
  assert (cursor_ w' = 0) as E0 by lia. split; [done|]. unfold stream. rewrite <- Hs, E0. change (take (Z.to_nat 0) (buffer_ w')) with (@nil Z). by rewrite app_nil_r.
Qed.

End Cache.

(** ** Sequences of operations *)

(** [Put]: space of [size] bytes is asked for, [bytes] are written to it and it is returned
    with that length. *)
Inductive cache_op := Put (size : Z) (bytes : list Z) | Mark | Drain.

Definition step {F : Flush} (fresh : Z) (op : cache_op) (w : write_cache) : option write_cache :=
  match op with
  | Put size bytes =>
      '(data, w) ← alloc_write_cache fresh size w;
      data ← store data 0 bytes;
      return_write_cache data (zlen bytes) w
  | Mark => mark_write_finished w
  | Drain => flush fresh w
  end.

Fixpoint run {F : Flush} (fresh : Z) (ops : list cache_op) (w : write_cache) : option write_cache :=
  match ops with [] => Some w | op :: ops => w ← step fresh op w; run fresh ops w end.

Definition put_bytes (op : cache_op) : list Z := match op with Put _ bytes => bytes | _ => [] end.
Definition put_size (op : cache_op) : Z := match op with Put size _ => size | _ => 0 end.
Definition fits (op : cache_op) : Prop := match op with Put size bytes => bytes_ok bytes /\ zlen bytes <= size | _ => True end.

(** Everything that was put is marked finished before the next space or flush is asked for;
    [dirty]: there are bytes that are not. *)
Fixpoint marked (dirty : bool) (ops : list cache_op) : Prop :=
  match ops with
  | [] => True
  | Put _ _ :: ops => dirty = false /\ marked true ops
  | Mark :: ops => marked false ops
  | Drain :: ops => dirty = false /\ marked false ops
  end.

Definition total_size (ops : list cache_op) : Z := fold_right (fun op n => put_size op + n) 0 ops.

(** Complete writes, or operations in order. *)
Definition ready (dirty : bool) (ops : list cache_op) (w : write_cache) : Prop :=
  Forall (eq W_all) (io_ w) \/ (marked dirty ops /\ (dirty = false -> finished_ w = cursor_ w)).

Lemma put_cache_ok {F : Flush} {fresh : Z} {L : FlushLaws F fresh} (size : Z) (bytes : list Z) (w : write_cache) :
  cache_ok w -> kept w -> orderly w -> allocated_ w = false -> bytes_ok bytes /\ zlen bytes <= size -> cursor_ w + size < 2 ^ 61 ->
  exists w', step fresh (Put size bytes) w = Some w' /\ cache_ok w' /\ kept w' /\ stream w' = stream w ++ bytes /\
    disk_ w `prefix_of` disk_ w' /\ allocated_ w' = false /\ cursor_ w' <= cursor_ w + size /\
    (io_ w' = io_ w \/ io_ w' = tail (io_ w)).
Proof.
  intros Hok K Hor Ha [Hbb Hfit] Hb. pose proof (zlen_nonneg bytes) as Hz.
  destruct (alloc_cache_ok size w Hok K Hor Ha ltac:(lia) Hb) as (data & w1 & E & Hd & Hok1 & K1 & Hs1 & Hp1 & Hob & Ha1 & Hc1 & Hroom & _ & Hio1 & _).
  cbn [step]. rewrite E. cbn [mbind option_bind]. rewrite store_Some by lia. cbn [mbind option_bind].
  set (data' := take _ data ++ bytes ++ _).
  assert (zlen data' = size /\ take (Z.to_nat (zlen bytes)) data' = bytes) as [Hl Ht].
  { unfold data'. change (take (Z.to_nat 0) data) with (@nil Z). cbn [app plus Z.to_nat]. rewrite zlen_app. unfold zlen in *.
    rewrite length_drop, take_app_length' by lia. split; [lia|done]. }
  assert (bytes_ok data') as Hdb.
  { unfold data'. apply Forall_app. split; [by apply Forall_take|]. apply Forall_app. split; [done|by apply Forall_drop]. }
  destruct (return_ok data' (zlen bytes) w1 Hdb Hok1 K1 Ha1) as (w2 & E2 & Hok2 & K2 & Hs2 & Hd2 & Ha2 & _ & Hc2 & _ & Hio2); [lia|lia|].
  exists w2. rewrite Ht in Hs2. rewrite Hs1 in Hs2. rewrite Hd2, Hio2. split_and!; (done || lia).
Qed.

Lemma total_size_nonneg (ops : list cache_op) : Forall fits ops -> 0 <= total_size ops.
Proof.
  induction 1 as [|op ops Hf _ IH]; [done|]. unfold total_size in *. cbn [fold_right].
  destruct op as [size bytes| |]; cbn [put_size fits] in *; [pose proof (zlen_nonneg bytes)|..]; lia.
Qed.

Lemma run_stream {F : Flush} {fresh : Z} {L : FlushLaws F fresh} (ops : list cache_op) (dirty : bool) (w : write_cache) :
  cache_ok w -> kept w -> allocated_ w = false -> ready dirty ops w -> Forall fits ops -> cursor_ w + total_size ops < 2 ^ 61 ->
  exists w', run fresh ops w = Some w' /\ cache_ok w' /\ kept w' /\ stream w' = stream w ++ (ops ≫= put_bytes) /\
    disk_ w `prefix_of` disk_ w' /\ allocated_ w' = false /\ (io_ w = [] -> io_ w' = []) /\ cursor_ w' <= cursor_ w + total_size ops.
Proof.
  revert dirty w. induction ops as [|op ops IH]; intros dirty w Hok K Ha Hr Hf Hb.
  { exists w. cbn [run mbind list_bind]. rewrite app_nil_r. split_and!; (done || cbn; lia). }
  apply Forall_cons_1 in Hf as [Hfit Hf]. pose proof (total_size_nonneg ops Hf) as Hn.
  change (total_size (op :: ops)) with (put_size op + total_size ops) in Hb.
  assert (forall dirty1 w1, step fresh op w = Some w1 -> cache_ok w1 -> kept w1 -> allocated_ w1 = false -> ready dirty1 ops w1 ->
    cursor_ w1 <= cursor_ w + put_size op -> stream w1 = stream w ++ put_bytes op -> disk_ w `prefix_of` disk_ w1 ->
    (io_ w = [] -> io_ w1 = []) ->
    exists w', run fresh (op :: ops) w = Some w' /\ cache_ok w' /\ kept w' /\ stream w' = stream w ++ ((op :: ops) ≫= put_bytes) /\
      disk_ w `prefix_of` disk_ w' /\ allocated_ w' = false /\ (io_ w = [] -> io_ w' = []) /\ cursor_ w' <= cursor_ w + total_size (op :: ops)) as HC.
  { intros dirty1 w1 E Hok1 K1 Ha1 Hr1 Hc1 Hs1 Hp1 Hio1.
    destruct (IH dirty1 w1 Hok1 K1 Ha1 Hr1 Hf) as (w2 & E2 & Hok2 & K2 & Hs2 & Hp2 & Ha2 & Hio2 & Hcu2); [lia|].
    change (total_size (op :: ops)) with (put_size op + total_size ops).
    exists w2. cbn [run]. rewrite E. cbn [mbind option_bind]. rewrite Hs2, Hs1, bind_cons, app_assoc.
    split_and!; try done; [by etrans|auto|lia]. }
  destruct op as [size bytes| |].
  - assert (orderly w) as Hor by (destruct Hr as [?|[[-> _] Hd]]; [apply safe_orderly; by left|apply safe_orderly; right; auto]).
    destruct (put_cache_ok size bytes w Hok K Hor Ha Hfit) as (w1 & E & Hok1 & K1 & Hs1 & Hp1 & Ha1 & Hc1 & Hio1); [cbn in Hb; lia|].
    apply (HC true w1); try done.
    + destruct Hr as [Hall|[[_ Hm] _]]; [left|right; by split]. destruct Hio1 as [-> | ->]; [done|].
      destruct (io_ w); [done|by apply Forall_inv_tail in Hall].
    + intros E0. rewrite E0 in Hio1. by destruct Hio1.
  - destruct (mark_ok w Hok K Ha) as (w1 & E & Hok1 & K1 & Hs1 & Hd1 & Ha1 & _ & Hfin & Hc & Hio1).
    apply (HC false w1); try done; [destruct Hr as [?|[Hm _]]; [left; by rewrite Hio1|by right]|cbn; lia| |by rewrite Hd1|by rewrite Hio1].
    cbn [put_bytes]. by rewrite app_nil_r.
  - assert (orderly w) as Hor by (destruct Hr as [?|[[-> _] Hd]]; [apply safe_orderly; by left|apply safe_orderly; right; auto]).
    destruct (flush_law w K Hok Hor) as (w1 & E & K1 & Hok1 & Hs1 & Hp1 & Ha1 & Hio1 & Hc & Hfin & _); [cbn in Hb; lia|].
    apply (HC false w1); try done; [by rewrite Ha1| |cbn; lia|cbn [put_bytes]; by rewrite app_nil_r|by intros E0; rewrite Hio1, E0].
    destruct Hr as [Hall|[[-> Hm] Hd]]; [left|right; split; [done|auto]]. rewrite Hio1.
    destruct (io_ w); [done|by apply Forall_inv_tail in Hall].
Qed.

(** A last mark and a complete flush leave nothing in the cache. *)
Lemma drain_all {F : Flush} {fresh : Z} {L : FlushLaws F fresh} (w : write_cache) :
  cache_ok w -> kept w -> allocated_ w = false -> io_ w = [] -> cursor_ w < 2 ^ 62 ->
  exists w', run fresh [Mark; Drain] w = Some w' /\ view (disk_ w') = stream w /\ disk_ w `prefix_of` disk_ w'.
Proof.
  intros Hok K Ha Hio Hcur. cbn [run step].
  destruct (mark_ok w Hok K Ha) as (w2 & -> & Hok2 & K2 & Hs2 & Hd2 & Ha2 & _ & Hfin & Hc & Hio2). cbn [mbind option_bind].
  assert (io_ w2 = []) as E2 by by rewrite Hio2.
  destruct (flush_law w2 K2 Hok2) as (w3 & -> & _ & _ & Hs3 & Hp3 & _ & _ & _ & _ & Hd3); [unfold orderly; by rewrite E2|lia|].
  cbn [mbind option_bind]. exists w3. split; [done|]. split; [|by rewrite <- Hd2]. destruct (Hd3 E2) as (_ & Hc3 & _).
  replace (cursor_ w3) with 0 in Hs3 by lia. change (take (Z.to_nat 0) (buffer_ w3)) with (@nil Z) in Hs3. rewrite app_nil_r in Hs3.
  rewrite Hs3. by fold (stream w2).
Qed.

Lemma run_app {F : Flush} (fresh : Z) (ops1 ops2 : list cache_op) (w : write_cache) :
  run fresh (ops1 ++ ops2) w = (w ← run fresh ops1 w; run fresh ops2 w).
Proof.
  revert w. induction ops1 as [|op ops1 IH]; intros w; [done|]. cbn [app run]. destruct (step fresh op w); cbn [mbind option_bind]; [apply IH|done].
Qed.

(** C11. The write cache is an append-only log, whichever class provides the flush: whatever is
    put into it is, in this order, what the file stands for and the cache hold together, the
    file only grows, and no assertion fails - when all writes of the file are complete, or,
    with writes that are cut short anywhere and a disk that is full at times, when what was
    put is marked finished before more is asked for. With a last mark and a complete flush the
    file stands for everything. *)
Theorem write_cache_stream {F : Flush} {fresh : Z} {L : FlushLaws F fresh} (ops : list cache_op) (w : write_cache) :
  cache_ok w -> kept w -> allocated_ w = false -> ready false ops w -> Forall fits ops -> cursor_ w + total_size ops < 2 ^ 61 ->
  exists w', run fresh ops w = Some w' /\ stream w' = stream w ++ (ops ≫= put_bytes) /\ disk_ w `prefix_of` disk_ w' /\
    (io_ w = [] -> exists w2, run fresh [Mark; Drain] w' = Some w2 /\ view (disk_ w2) = stream w ++ (ops ≫= put_bytes)).
Proof.
  intros Hok K Ha Hr Hf Hb. destruct (run_stream ops false w Hok K Ha Hr Hf Hb) as (w1 & E & Hok1 & K1 & Hs1 & Hp1 & Ha1 & Hio1 & Hcu1).
  exists w1. split; [done|]. split; [done|]. split; [done|]. intros E0.
  destruct (drain_all w1 Hok1 K1 Ha1 (Hio1 E0)) as (w2 & E2 & Hv & _); [lia|]. exists w2. by rewrite Hv, Hs1.
Qed.

Lemma zero_byte : is_byte 0.
Proof. unfold in_range. lia. Qed.

Lemma write_cache_stream_witness :
  exists w', @run base_flush 0 [Put 10 [1; 2; 3]; Mark; Drain; Put 4 [4]; Mark]
      (mk_wc [9; 9; 9; 9; 9; 9; 9; 9] 0 0 32 0 65536 false false [7] [W_short 1 true]) = Some w' /\
    raw_stream w' = [7; 1; 2; 3; 4] /\ disk_ w' <> raw_stream w'.
Proof.
  destruct (@write_cache_stream base_flush 0 (base_flush_laws 0 zero_byte) [Put 10 [1; 2; 3]; Mark; Drain; Put 4 [4]; Mark]
      (mk_wc [9; 9; 9; 9; 9; 9; 9; 9] 0 0 32 0 65536 false false [7] [W_short 1 true])) as (w' & E & Hs & _ & _).
  - split; unfold zlen, CACHE_WRITE_MIN_SIZE; cbn; try lia. by apply bytes_ok_dec.
  - exact I.
  - reflexivity.
  - right. split; [repeat split|intros _; reflexivity].
  - repeat constructor; vm_compute; discriminate.
  - vm_compute. reflexivity.
  - exists w'. split; [exact E|]. split; [exact Hs|]. vm_compute in E. injection E as <-. discriminate.
Defined.

(** A flush that the disk refuses overwrites the finished bytes with those behind them. *)
Lemma flush_overwrites :
  exists w w', cache_ok w /\ flush_write_cache 0 w = Some w' /\ raw_stream w = [1; 2; 3] /\ raw_stream w' = [3; 2; 3].
Proof.
  exists (mk_wc [1; 2; 3; 0] 3 2 32 0 65536 false false [] [W_short 0 true]). eexists.
  split; [split; unfold zlen, CACHE_WRITE_MIN_SIZE; cbn; try lia; by apply bytes_ok_dec|]. split; [reflexivity|]. split; reflexivity.
Qed.

(** ** Reading *)

Lemma read_file_len (file : list Z) (a n : Z) :
  0 <= a -> 0 <= n -> zlen (read_file file a n) = Z.max 0 (Z.min n (zlen file - a)).
Proof. intros. unfold read_file, zlen. rewrite length_take, length_drop. lia. Qed.

Lemma read_file_app (file : list Z) (a n m : Z) :
  0 <= a -> 0 <= n -> 0 <= m -> read_file file a n ++ read_file file (a + n) m = read_file file a (n + m).
Proof.
  intros. unfold read_file. rewrite (Z2Nat.inj_add a n), (Z2Nat.inj_add n m) by lia.
  rewrite <- drop_drop. apply take_take_drop.
Qed.

Lemma read_file_sub (file : list Z) (a n i m : Z) :
  0 <= a -> 0 <= i -> 0 <= m -> i + m <= n ->
  take (Z.to_nat m) (drop (Z.to_nat i) (read_file file a n)) = read_file file (a + i) m.
Proof.
  intros. unfold read_file. rewrite skipn_firstn_comm, take_take, drop_drop. f_equal; [lia|f_equal; lia].
Qed.

Lemma read_file_clip (file : list Z) (a n m : Z) :
  0 <= a -> 0 <= n -> 0 <= m -> Z.min n (zlen file - a) = Z.min m (zlen file - a) -> read_file file a n = read_file file a m.
Proof.
  intros Ha Hn Hm E. unfold read_file, zlen in *. destruct (decide (n = m)) as [->|]; [done|].
  rewrite !take_ge; [done|rewrite length_drop; lia..].
Qed.

(** The cache is the part of the file that ends at the position of the open file. *)
Record window (file : list Z) (r : read_cache) : Prop := {
  wi_cursor : 0 <= cache_read_cursor_ r <= zlen (cache_read_ r);
  wi_base : 0 <= read_file_pos_ r - cache_read_cursor_ r;
  wi_end : read_file_pos_ r - cache_read_cursor_ r + zlen (cache_read_ r) <= zlen file;
  wi_cache : cache_read_ r = read_file file (read_file_pos_ r - cache_read_cursor_ r) (zlen (cache_read_ r));
  wi_os : os_pos_ r = read_file_pos_ r - cache_read_cursor_ r + zlen (cache_read_ r) }.

Lemma seek_absolute_window (file : list Z) (pos : Z) (r : read_cache) :
  0 <= pos <= zlen file -> pos < 2 ^ 31 ->
  exists r', seek_read_file_absolute pos r = (true, r') /\ window file r' /\ read_file_pos_ r' = pos /\ cache_read_eof_ r' = false.
Proof.
  intros Hp Hs. unfold seek_read_file_absolute. rewrite to_signed_id by lia. rewrite (proj2 (Z.ltb_ge _ _)) by lia.
  eexists. split; [done|]. split; [|done]. split; cbn; rewrite ?Z.sub_0_r, ?Z.add_0_r; try (unfold zlen in *; cbn; lia).
  unfold read_file. by rewrite take_0.
Qed.

Lemma read_with_cache_ok (file : list Z) (size : Z) (r r' : read_cache) (d : list Z) :
  window file r -> 0 <= size -> read_with_cache file size r = (d, r') ->
  d = read_file file (read_file_pos_ r) size /\ window file r' /\ read_file_pos_ r' = read_file_pos_ r + zlen d /\
  cache_read_eof_ r' = cache_read_eof_ r || (zlen d <? size) /\
  forall back, 0 <= back <= zlen d -> exists r2, seek_read_file_offset (- back) r' = Some r2 /\ window file r2 /\
    read_file_pos_ r2 = read_file_pos_ r' - back /\ cache_read_eof_ r2 = cache_read_eof_ r'.
Proof.
  intros [Hc Hb He Hw Ho] Hs. unfold read_with_cache. set (base := read_file_pos_ r - cache_read_cursor_ r) in *.
  set (left := zlen (cache_read_ r) - cache_read_cursor_ r).
  assert (forall cache cursor os, zlen cache - cursor = Z.min (zlen cache - cursor) (zlen file - read_file_pos_ r) ->
    0 <= cursor <= zlen cache -> cursor <= read_file_pos_ r ->
    cache = read_file file (read_file_pos_ r - cursor) (zlen cache) -> os = read_file_pos_ r - cursor + zlen cache ->
    (zlen cache - cursor < size -> zlen cache - cursor = zlen file - read_file_pos_ r) ->
    let len := Z.min size (zlen cache - cursor) in
    let d := take (Z.to_nat len) (drop (Z.to_nat cursor) cache) in
    let r' := mk_rc cache (cursor + len) (read_file_pos_ r + len) (cache_read_eof_ r || (len <? size)) os in
    d = read_file file (read_file_pos_ r) size /\ window file r' /\ read_file_pos_ r' = read_file_pos_ r + zlen d /\
    cache_read_eof_ r' = cache_read_eof_ r || (zlen d <? size) /\
    forall back, 0 <= back <= zlen d -> exists r2, seek_read_file_offset (- back) r' = Some r2 /\ window file r2 /\
      read_file_pos_ r2 = read_file_pos_ r' - back /\ cache_read_eof_ r2 = cache_read_eof_ r') as HG.
  { intros cache cursor os Hl Hcu Hpos Hca Hos Hshort len d0 r0.
    assert (zlen d0 = len) as Hd by (unfold d0; apply zlen_take; rewrite zlen_drop; lia).
    assert (forall k, 0 <= k <= len -> window file (mk_rc cache (cursor + k) (read_file_pos_ r + k) (cache_read_eof_ r0) os)) as HW.
    { intros k Hk. split; cbn; replace (read_file_pos_ r + k - (cursor + k)) with (read_file_pos_ r - cursor) by lia; (done || lia). }
    split; [|split; [apply HW; lia|split; [cbn; lia|split; [cbn; by rewrite Hd|]]]].
    - unfold d0. rewrite Hca at 1. rewrite read_file_sub by lia.
      replace (read_file_pos_ r - cursor + cursor) with (read_file_pos_ r) by lia. apply read_file_clip; lia.
    - intros back Hback. unfold seek_read_file_offset. cbn [cache_read_cursor_ cache_read_ r0].
      rewrite !(proj2 (Z.leb_le _ _)) by lia. cbn [andb]. eexists. split; [done|].
      replace (cursor + len + - back) with (cursor + (len - back)) by lia. cbn.
      replace (read_file_pos_ r + len + - back) with (read_file_pos_ r + (len - back)) by lia.
      split; [apply HW; lia|]. cbn. split; [lia|done]. }
  destruct (Z.ltb_spec left size) as [Hlt|Hge].
  - set (fill := if _ <? _ then _ else _). set (bytes := read_file file (os_pos_ r) fill). intros [= <- <-].
    assert (fill = Z.min (Z.max size CACHE_READ_DEFAULT_SIZE - left) (zlen file - os_pos_ r) /\ 0 <= fill) as [Hf Hf0].
    { unfold fill. replace (read_file_pos_ r + left) with (os_pos_ r) by (unfold base, left in *; lia).
      destruct (Z.ltb_spec (os_pos_ r) (zlen file)); match goal with |- context [?a <? ?b] => destruct (Z.ltb_spec a b) end; lia. }
    assert (zlen bytes = fill) as Hbl by (unfold bytes; rewrite read_file_len by lia; lia).
    assert (drop (Z.to_nat (cache_read_cursor_ r)) (cache_read_ r) = read_file file (read_file_pos_ r) left) as Hrest.
    { rewrite Hw. rewrite <- (firstn_all (drop _ _)). rewrite length_drop.
      replace (length (read_file file base (zlen (cache_read_ r))) - Z.to_nat (cache_read_cursor_ r))%nat with (Z.to_nat left)
        by (rewrite <- Hw; unfold left, zlen in *; lia).
      rewrite read_file_sub by (unfold left in *; lia). f_equal. unfold base. lia. }
    rewrite Hrest. assert (zlen (read_file file (read_file_pos_ r) left) = left) as Hll.
    { rewrite read_file_len by (unfold base, left in *; lia). unfold base, left in *. lia. }
    apply HG; rewrite ?zlen_app, ?Hll, ?Hbl; unfold base, left in *; try lia.
    unfold bytes. rewrite Z.sub_0_r.
    replace (os_pos_ r) with (read_file_pos_ r + (zlen (cache_read_ r) - cache_read_cursor_ r)) by lia.
    apply read_file_app; lia.
  - intros [= <- <-]. apply HG; unfold base, left in *; try lia. done.
Qed.

(** C29. Whatever is in the cache, a read gives the bytes of the file from the current position
    on, as many as were asked for or as there are; the position moves by them, the end-of-file
    flag is raised exactly when they were too few, and one can seek back over them. *)
Theorem read_with_cache_reads (file : list Z) (size : Z) (r r' : read_cache) (d : list Z) :
  window file r -> 0 <= size -> read_with_cache file size r = (d, r') ->
  d = read_file file (read_file_pos_ r) size /\ read_file_pos_ r' = read_file_pos_ r + zlen d /\
  cache_read_eof_ r' = cache_read_eof_ r || (zlen d <? size) /\
  forall back, 0 <= back <= zlen d -> exists r2, seek_read_file_offset (- back) r' = Some r2 /\ window file r2 /\
    forall n, 0 <= n -> (read_with_cache file n r2).1 = read_file file (read_file_pos_ r' - back) n.
Proof.
  intros W Hs E. destruct (read_with_cache_ok file size r r' d W Hs E) as (Hd & W' & Hp & He & Hb). split_and!; try done.
  intros back Hback. destruct (Hb back Hback) as (r2 & E2 & W2 & Hp2 & _). exists r2. split; [done|]. split; [done|].
  intros n Hn. destruct (read_with_cache file n r2) as [d2 r3] eqn:E3.
  destruct (read_with_cache_ok file n r2 r3 d2 W2 Hn E3) as (-> & _). by rewrite Hp2.
Qed.

Lemma read_with_cache_reads_witness :
  exists r', read_with_cache [5; 6; 7; 8] 3 (mk_rc [] 0 2 false 2) = ([7; 8], r') /\
    cache_read_eof_ r' = true /\ read_file_pos_ r' = 4.
Proof.
  eexists. split; [reflexivity|].
  destruct (read_with_cache_reads [5; 6; 7; 8] 3 (mk_rc [] 0 2 false 2) _ _
    ltac:(split; unfold zlen; cbn; (lia || reflexivity)) ltac:(lia) eq_refl) as (_ & Hp & He & _).
  split; [exact He|exact Hp].
Defined.

(** The seek goes through 32 bits: behind two gigabytes it is refused, behind four it lands
    somewhere else. *)
Lemma seek_32_bits (r : read_cache) :
  (seek_read_file_absolute (2 ^ 31) r).1 = false /\ os_pos_ (seek_read_file_absolute (2 ^ 32 + 8) r).2 = 8.
Proof. by split. Qed.

(** ** Rolling *)

(** The file of a record is due for the rest of its local day and no longer. *)
Lemma file_expire_time_day (diff epoch : Z) :
  0 <= epoch < 2 ^ 62 -> - 2 ^ 40 <= diff <= 2 ^ 40 -> 0 <= epoch + diff ->
  let e := file_expire_time diff epoch in
  epoch < e <= epoch + 86400000 /\ (e + diff) mod 86400000 = 0.
Proof.
  intros He Hd Hl. unfold file_expire_time. change (60 * 60 * 24 * 1000) with 86400000.
  rewrite (wrap_small 64 (epoch + diff)) by (unfold in_range; lia).
  pose proof (Z.mod_pos_bound (epoch + diff) 86400000 ltac:(lia)) as Hm.
  pose proof (Z.div_mod (epoch + diff) 86400000 ltac:(lia)) as Hdm.
  rewrite (wrap_small 64 (epoch + diff - _ + _)) by (unfold in_range; lia).
  rewrite wrap_small by (unfold in_range; lia). split; [lia|].
  replace (epoch + diff - (epoch + diff) mod 86400000 + 86400000 - diff + diff)
    with (((epoch + diff) / 86400000 + 1) * 86400000) by lia. by apply Z.mod_mul.
Qed.
