(* ===== verification/Binary.v ===== *)
(** * The binary container of the file appenders
    ([include/qlog/runtime/appender/appender_file_binary.hpp],
    [src/runtime/appender/appender_file_binary.cpp])

    A file is a header followed by segments that are linked by position: the head of a
    segment, the encrypted keys when the appender encrypts, and the payload. Reading goes
    through the segments without crossing them; an encrypted appender flushes its cache
    through the stream cipher. The file is [disk_] of the write cache. Key material that is
    drawn at random is an argument; an assertion that fails and an access out of bounds are
    [None]. Truncating a file is taken to succeed. *)
From stdpp Require Import base list option numbers.
From Stdlib Require Import ZArith Lia Bool.
From S2P Require Import Prelude Memory Hash FileCache.
From S2P Require Aes Rsa Vernam TimeZone ArgSerialization.
Import FileCache.

Module Binary.

(** [appender_format_type], [appender_encryption_type] and [appender_segment_type] *)
Definition format_raw : Z := 1.
Definition format_compressed : Z := 2.
Definition plaintext : Z := 1.
Definition rsa_aes_xor : Z := 2.
Definition segment_normal : Z := 1.
Definition recovery_by_appender : Z := 2.
Definition recovery_by_log_buffer : Z := 3.

Definition UINT64_MAX : Z := 2 ^ 64 - 1.
Definition file_header_size : Z := 8.
Definition segment_head_size : Z := 12.
Definition payload_metadata_size : Z := 52.
Definition get_xor_key_blob_size : Z := 32 * 1024.
Definition get_encryption_keys_size : Z := 8 + 256 + 16 + get_xor_key_blob_size.
Definition DEFAULT_BUFFER_ALIGNMENT : Z := 32.

(** ** Heads *)

Record appender_file_header := mk_header { hd_version : Z; hd_format : Z }.

Definition header_bytes (h : appender_file_header) : list Z := le_bytes 4 (hd_version h) ++ [hd_format h; 0; 0; 0].

Definition load_header (d : list Z) : option appender_file_header :=
  version ← load_le d 0 4; format ← load_le d 4 1; Some (mk_header version format).

Record appender_file_segment_head := mk_head { next_seg_pos : Z; seg_type : Z; enc_type : Z }.

Definition head_bytes (h : appender_file_segment_head) : list Z :=
  le_bytes 8 (next_seg_pos h) ++ [seg_type h; enc_type h; 0; 0].

Definition load_head (d : list Z) : option appender_file_segment_head :=
  next ← load_le d 0 8; type ← load_le d 8 1; enc ← load_le d 9 1; Some (mk_head next type enc).

(** The types that a reader accepts. *)
Definition known_types (h : appender_file_segment_head) : bool :=
  ((enc_type h =? plaintext) || (enc_type h =? rsa_aes_xor)) &&
  ((seg_type h =? segment_normal) || (seg_type h =? recovery_by_appender) || (seg_type h =? recovery_by_log_buffer)).

(** ** Reading *)

(** The read cache and [cur_read_seg_]. *)
Record reader := mk_reader { rc_ : read_cache; start_pos : Z; end_pos : Z; seg_enc : Z }.

Definition set_rc (c : read_cache) (r : reader) : reader := mk_reader c (start_pos r) (end_pos r) (seg_enc r).
Definition set_end (p : Z) (r : reader) : reader := mk_reader (rc_ r) (start_pos r) p (seg_enc r).

Section Reading.
(** The encryption of the appender, and the file. *)
Variables (own_enc : Z) (file : list Z).

Definition read_to_next_segment (r : reader) : option (bool * reader) :=
  let new_seg_start_pos := end_pos r in
  if new_seg_start_pos =? UINT64_MAX then Some (false, r)
  else
    let '(ok, c) := seek_read_file_absolute new_seg_start_pos (rc_ r) in
    if negb ok then Some (false, set_rc c r)
    else
      let '(d, c) := read_with_cache file segment_head_size c in
      let r := set_rc c r in
      if zlen d <? segment_head_size then Some (false, r)
      else
        h ← load_head d;
        if negb (known_types h) then Some (false, r)
        else if negb (own_enc =? enc_type h) then Some (false, r)
        else if next_seg_pos h <? u64 (new_seg_start_pos + segment_head_size) then Some (false, r)
        else Some (true, mk_reader c new_seg_start_pos (next_seg_pos h) (enc_type h)).

(** [while (current_read_pos == cur_read_seg_.end_pos)]: whether a segment was found. *)
Fixpoint next_segment_loop (fuel : nat) (r : reader) : option (bool * reader) :=
  match fuel with
  | O => None
  | S fuel =>
      if read_file_pos_ (rc_ r) =? end_pos r then
        '(ok, r) ← read_to_next_segment r;
        if (ok : bool) then next_segment_loop fuel r else Some (false, r)
      else Some (true, r)
  end.

(** [appender_file_binary::read_with_cache] *)
Definition read_segment (size : Z) (r : reader) : option (list Z * reader) :=
  let pos := read_file_pos_ (rc_ r) in
  if negb ((start_pos r <=? pos) && (pos <=? end_pos r)) then None
  else
    '(ok, r) ← next_segment_loop (S (length file)) r;
    let pos := read_file_pos_ (rc_ r) in
    let size :=
      if negb ok then 0 else if end_pos r <? u64 (pos + size) then end_pos r - pos else size in
    let '(d, c) := read_with_cache file size (rc_ r) in
    Some (d, set_rc c r).

Fixpoint correct_segment_loop (fuel : nat) (backup : Z) (r : reader) : option (bool * reader) :=
  match fuel with
  | O => None
  | S fuel =>
      '(ok, r) ← read_to_next_segment r;
      if negb ok then Some (false, r)
      else if (start_pos r <=? backup) && (backup <=? end_pos r)
      then Some (true, set_rc (seek_read_file_absolute backup (rc_ r)).2 r)
      else correct_segment_loop fuel backup r
  end.

Definition read_to_correct_segment (r : reader) : option (bool * reader) :=
  correct_segment_loop (S (length file)) (read_file_pos_ (rc_ r)) (set_end file_header_size r).

(** [appender_file_binary::seek_read_file_offset] *)
Definition seek_offset (offset : Z) (r : reader) : option reader :=
  c ← seek_read_file_offset offset (rc_ r);
  let r := set_rc c r in
  if (read_file_pos_ c <? start_pos r) || (end_pos r <? read_file_pos_ c)
  then '(_, r) ← read_to_correct_segment r; Some r
  else Some r.

(** ** The topology of a file *)

Record segment_topology_info := mk_topology {
  has_segment : bool;
  all_segments_are_plaintext : bool;
  has_encrypted_segment : bool;
  rsa_key_fingerprint : Z;
  last_segment_start_pos : Z }.

Definition no_topology : segment_topology_info := mk_topology false true false 0 0.

(** [while (true)]: the result and the position of the read cache. *)
Fixpoint scan_loop (fuel : nat) (pos : Z) (t : segment_topology_info) (c : read_cache) :
    option (bool * segment_topology_info * read_cache) :=
  match fuel with
  | O => None
  | S fuel =>
      let size := zlen file in
      if (size <? pos) || (size - pos <? segment_head_size) then Some (false, t, c)
      else
        let '(ok, c) := seek_read_file_absolute pos c in
        if negb ok then Some (false, t, c)
        else
          let '(d, c) := read_with_cache file segment_head_size c in
          if negb (zlen d =? segment_head_size) then Some (false, t, c)
          else
            h ← load_head d;
            if negb (known_types h) then Some (false, t, c)
            else
              let min_next := pos + segment_head_size in
              '(ok, t, c) ←
                (if enc_type h =? rsa_aes_xor then
                   if size - min_next <? get_encryption_keys_size then Some (false, t, c)
                   else
                     let '(d, c) := read_with_cache file 8 c in
                     if negb (zlen d =? 8) then Some (false, t, c)
                     else
                       fingerprint ← load_le d 0 8;
                       if negb (has_encrypted_segment t)
                       then Some (true, mk_topology (has_segment t) (all_segments_are_plaintext t) true fingerprint
                                          (last_segment_start_pos t), c)
                       else Some (rsa_key_fingerprint t =? fingerprint, t, c)
                 else Some (true, t, c));
              if negb ok then Some (false, t, c)
              else
                let min_next := if enc_type h =? rsa_aes_xor then min_next + get_encryption_keys_size else min_next in
                let t := mk_topology true (all_segments_are_plaintext t && (enc_type h =? plaintext)) (has_encrypted_segment t)
                           (rsa_key_fingerprint t) pos in
                if next_seg_pos h =? UINT64_MAX then Some (min_next <=? size, t, c)
                else if (next_seg_pos h <? min_next) || (size <? next_seg_pos h) || (size - next_seg_pos h <? segment_head_size)
                then Some (false, t, c)
                else scan_loop fuel (next_seg_pos h) t c
  end.

(** [version] and [format] are those of the appender. *)
Definition scan_segment_topology (version format : Z) (c : read_cache) : option (bool * segment_topology_info * read_cache) :=
  if zlen file <? file_header_size then Some (false, no_topology, c)
  else
    let '(ok, c) := seek_read_file_absolute 0 c in
    if negb ok then Some (false, no_topology, c)
    else
      let '(d, c) := read_with_cache file file_header_size c in
      if negb (zlen d =? file_header_size) then Some (false, no_topology, c)
      else
        h ← load_header d;
        if negb ((hd_version h =? version) && (hd_format h =? format)) then Some (false, no_topology, c)
        else if zlen file =? file_header_size then Some (true, no_topology, c)
        else scan_loop (S (length file)) file_header_size no_topology c.

(** ** The first payload *)

Import TimeZone.

(** [appender_payload_metadata]: what [snprintf] leaves behind the terminator is [tail_bytes]. *)
Definition metadata_bytes (tz : TimeZone) (category_count : Z) (tail_bytes : list Z) : list Z :=
  [2; 2; 7; if use_local_time_ tz then 1 else 0] ++ le_bytes 4 (u32 (gmt_offset_hours_ tz)) ++
  le_bytes 4 (u32 (gmt_offset_minutes_ tz)) ++ le_bytes 4 (u32 (time_zone_diff_to_gmt_ms_ tz)) ++
  take 32 (take 31 (ArgSerialization.until_zero (time_zone_str_ tz)) ++ [0] ++ tail_bytes) ++ le_bytes 4 category_count.

(** Comparing the bytes of a read with the zone of the appender; the text ends at its zero. *)
Definition metadata_matches (tz : TimeZone) (d : list Z) : option bool :=
  local ← load_le d 3 1; hours ← load_le d 4 4; minutes ← load_le d 8 4; diff ← load_le d 12 4;
  text ← load d 16 (zlen d - 16);
  if negb (existsb (Z.eqb 0) text) then None
  else
    Some (eqb (negb (local =? 0)) (use_local_time_ tz) && (i32 hours =? gmt_offset_hours_ tz) &&
          (i32 minutes =? gmt_offset_minutes_ tz) && (i32 diff =? time_zone_diff_to_gmt_ms_ tz) &&
          bool_decide (ArgSerialization.until_zero text = time_zone_str_ tz)).

Fixpoint match_categories (names : list (list Z)) (r : reader) : option (bool * reader) :=
  match names with
  | [] => Some (true, r)
  | name :: names =>
      '(d, r) ← read_segment 4 r;
      if zlen d <? 4 then Some (false, r)
      else
        name_len ← load_le d 0 4;
        if negb (name_len =? zlen name) then Some (false, r)
        else
          '(d, r) ← read_segment name_len r;
          if zlen d <? name_len then Some (false, r)
          else if negb (bool_decide (d = name)) then Some (false, r)
          else match_categories names r
  end.

(** [appender_file_binary::parse_exist_log_file]; [names]: the categories of the log. *)
Definition parse_exist_head (version format : Z) (tz : TimeZone) (names : list (list Z)) (r : reader) : option (bool * reader) :=
  if negb (own_enc =? plaintext) then Some (false, r)
  else
    '(ok, t, c) ← scan_segment_topology version format (rc_ r);
    let r := set_rc c r in
    if negb (ok && has_segment t && all_segments_are_plaintext t) then Some (false, r)
    else
      let c := (seek_read_file_absolute 0 (rc_ r)).2 in
      let '(d, c) := read_with_cache file file_header_size c in
      let r := set_rc c r in
      if zlen d <? file_header_size then Some (false, r)
      else
        h ← load_header d;
        if negb (hd_version h =? version) || negb (hd_format h =? format) then Some (false, r)
        else
          '(ok, r) ← read_to_next_segment (set_end file_header_size r);
          if negb ok || negb (seg_enc r =? plaintext) then Some (false, r)
          else
            '(d, r) ← read_segment payload_metadata_size r;
            if zlen d <? payload_metadata_size then Some (false, r)
            else
              same ← metadata_matches tz d;
              count ← load_le d 48 4;
              if negb same || negb (count =? zlen names) then Some (false, r)
              else match_categories names r.

End Reading.

(** ** Writing *)

(** The state of the appender besides the configuration: the caches, the segment that is
    read, whether the open file is new, and the key stream of the segment that is written. *)
Record binary := mk_binary {
  wc_ : write_cache;
  rd_ : reader;
  current_file_is_new_created_ : bool;
  xor_key_blob_ : list Z }.

Definition set_wc (w : write_cache) (b : binary) : binary := mk_binary w (rd_ b) (current_file_is_new_created_ b) (xor_key_blob_ b).
Definition set_rd (r : reader) (b : binary) : binary := mk_binary (wc_ b) r (current_file_is_new_created_ b) (xor_key_blob_ b).
Definition set_blob (blob : list Z) (b : binary) : binary := mk_binary (wc_ b) (rd_ b) (current_file_is_new_created_ b) blob.

(** The configuration of an appender: its encryption, public key and fingerprint, and the
    version and format of its files. *)
Record config := mk_config {
  enc_type_ : Z;
  rsa_pub_key_ : Rsa.public_key;
  rsa_key_fingerprint_ : Z;
  get_binary_format_version : Z;
  get_appender_format : Z }.

(** [init_impl]: what [pub_key] of the configuration makes of it. *)
Definition configure `{CrcOps} (pub_key : option (list Z)) (version format : Z) : option (option config) :=
  match pub_key with
  | Some text =>
      r ← Rsa.parse_public_key_ssh text;
      match r with
      | inl _ => Some None
      | inr key => fingerprint ← Rsa.get_public_key_fingerprint (Rsa.pub_n key) (Rsa.pub_e key);
          Some (Some (mk_config rsa_aes_xor key fingerprint version format))
      end
  | None => Some (Some (mk_config plaintext (Rsa.mk_public_key [] []) 0 version format))
  end.

Section Flushing.
(** What new memory holds, the build of the cipher, and the address of the key. *)
Variables (fresh : Z) (vb : Vernam.build) (key_base : Z).

Definition update_write_cache_padding (enc : Z) (blob : list Z) (w : write_cache) : option write_cache :=
  if negb (enc =? rsa_aes_xor) || (zlen blob =? 0) then set_cache_write_padding fresh 0 w
  else
    let enc_start_pos := Z.land (zlen (disk_ w)) (zlen blob - 1) in
    let target_align := Z.land enc_start_pos (DEFAULT_BUFFER_ALIGNMENT - 1) in
    let current_align := Z.land (head_size_ w) (DEFAULT_BUFFER_ALIGNMENT - 1) in
    let target_padding := u8 (Z.land (target_align + DEFAULT_BUFFER_ALIGNMENT - current_align) (DEFAULT_BUFFER_ALIGNMENT - 1)) in
    set_cache_write_padding fresh target_padding w.

(** The cipher over the finished bytes; the memory of the cache begins at a multiple of its
    alignment. *)
Definition encrypt_finished (blob : list Z) (w : write_cache) : option write_cache :=
  b ← Vernam.vernam_encrypt_32bytes_aligned vb (head_size_ w + padding_ w) key_base (buffer_ w) (finished_ w) blob get_xor_key_blob_size
        (zlen (disk_ w));
  Some (set_buffer b w).

(** [appender_file_binary::flush_write_cache] *)
Definition binary_flush (enc : Z) (blob : list Z) (w : write_cache) : option write_cache :=
  if negb (enc =? rsa_aes_xor) || (zlen blob =? 0) || (finished_ w =? 0) then flush_write_cache fresh w
  else
    w ← encrypt_finished blob w;
    w ← flush_write_cache fresh w;
    w ← update_write_cache_padding enc blob w;
    if (enc =? rsa_aes_xor) && (0 <? finished_ w) then encrypt_finished blob w else Some w.

End Flushing.

(** The virtual function of an appender. *)
Definition virtual_flush (vb : Vernam.build) (key_base enc : Z) (blob : list Z) : Flush :=
  fun fresh w => binary_flush fresh vb key_base enc blob w.

Section Writing.
Variables (fresh : Z) (vb : Vernam.build) (key_base : Z).

(** *** Segments *)

(** What is drawn for an encrypted segment: the key, a byte to replace a leading zero, the
    initialisation vector and the key stream. *)
Record random_material := mk_random { rm_key : list Z; rm_first : Z; rm_iv : list Z; rm_blob : list Z }.

(** The encrypted key, the vector, the key stream and the encrypted key stream. *)
Record segment_keys := mk_keys { sk_key : list Z; sk_iv : list Z; sk_blob : list Z; sk_cipher_blob : list Z }.

Definition fix_leading_zero (first : Z) (key : list Z) : list Z :=
  match key with 0 :: key => first :: key | _ => key end.

Definition make_segment_keys (pub : Rsa.public_key) (rm : random_material) : option (option segment_keys) :=
  a ← Aes.new_aes Aes.AES_CBC Aes.AES_256;
  if negb (zlen (rm_key rm) =? Aes.aes_key_size a) then Some None
  else
    let aes_key := fix_leading_zero (rm_first rm) (rm_key rm) in
    if negb (zlen (rm_iv rm) =? Aes.aes_iv_size a) then Some None
    else
      r ← Rsa.encrypt pub aes_key;
      match r with
      | inl _ => Some None
      | inr cipher_key =>
          if negb (zlen cipher_key =? zlen (Rsa.pub_n pub)) then Some None
          else
            '(outcome, cipher_blob) ← Aes.encrypt a aes_key (rm_iv rm) (rm_blob rm) (replicate (length (rm_blob rm)) 0);
            match outcome with
            | Aes.Done => Some (Some (mk_keys cipher_key (rm_iv rm) (rm_blob rm) cipher_blob))
            | Aes.Failed _ => Some None
            end
      end.

(** [direct_write(a) != n || direct_write(b) != ...]: whether all pieces were written. *)
Fixpoint direct_writes (pieces : list (list Z)) (w : write_cache) : bool * write_cache :=
  match pieces with
  | [] => (true, w)
  | piece :: pieces =>
      let '(n, w) := direct_write piece None w in
      if n =? zlen piece then direct_writes pieces w else (false, w)
  end.

Definition append_new_segment (c : config) (type : Z) (rm : random_material) (b : binary) : option (bool * binary) :=
  let rc := clear_read_cache (rc_ (rd_ b)) in
  '(ok, t, rc) ← scan_segment_topology (disk_ (wc_ b)) (get_binary_format_version c) (get_appender_format c) rc;
  let b := set_rd (set_rc rc (rd_ b)) b in
  if negb ok || (negb (has_segment t) && negb (current_file_is_new_created_ b)) then Some (false, b)
  else if (enc_type_ c =? rsa_aes_xor) && has_encrypted_segment t && negb (rsa_key_fingerprint t =? rsa_key_fingerprint_ c)
  then Some (false, b)
  else
    keys ← (if enc_type_ c =? rsa_aes_xor
            then make_segment_keys (rsa_pub_key_ c) rm
            else Some (Some (mk_keys [] [] [] [])));
    match keys with
    | None => Some (false, b)
    | Some k =>
        let new_seg_start_pos := zlen (disk_ (wc_ b)) in
        let '(n, w) := direct_write (head_bytes (mk_head UINT64_MAX type (enc_type_ c))) None (wc_ b) in
        if negb (n =? segment_head_size) then Some (false, set_wc (truncate_file new_seg_start_pos w) b)
        else
          let '(written, w) :=
            if enc_type_ c =? rsa_aes_xor
            then direct_writes [le_bytes 8 (rsa_key_fingerprint_ c); sk_key k; sk_iv k; sk_cipher_blob k] w
            else (true, w) in
          if negb written then Some (false, set_wc (truncate_file new_seg_start_pos w) b)
          else
            let '(linked, w) :=
              if has_segment t
              then let '(n, w) := direct_write (le_bytes 8 new_seg_start_pos) (Some (last_segment_start_pos t)) w in (n =? 8, w)
              else (true, w) in
            if negb linked then Some (false, set_wc (truncate_file new_seg_start_pos w) b)
            else
              w ← update_write_cache_padding fresh (enc_type_ c) (sk_blob k) w;
              Some (true, set_blob (sk_blob k) (set_wc w b))
    end.

(** *** Opening *)

(** Space for [bytes], filled with them. *)
Definition write_bytes `{Flush} (bytes : list Z) (w : write_cache) : option write_cache :=
  '(data, w) ← alloc_write_cache fresh (zlen bytes) w;
  data ← store data 0 bytes;
  return_write_cache data (zlen bytes) w.

Fixpoint write_categories `{Flush} (names : list (list Z)) (w : write_cache) : option write_cache :=
  match names with
  | [] => Some w
  | name :: names => w ← write_bytes (le_bytes 4 (zlen name) ++ name) w; write_categories names w
  end.

(** [on_file_open]; [false]: the handle is given up. *)
Definition on_file_open (c : config) (tz : TimeZone.TimeZone) (names : list (list Z)) (tail_bytes : list Z) (rm : random_material)
    (is_new_created : bool) (b : binary) : option (bool * binary) :=
  let b := mk_binary (wc_ b) (rd_ b) is_new_created (xor_key_blob_ b) in
  if (enc_type_ c =? rsa_aes_xor) && negb is_new_created then Some (false, b)
  else
    let blob := if enc_type_ c =? rsa_aes_xor then [] else xor_key_blob_ b in
    let r := mk_reader (rc_ (rd_ b)) file_header_size (zlen (disk_ (wc_ b))) (seg_enc (rd_ b)) in
    let b := mk_binary (wc_ b) r is_new_created blob in
    if negb is_new_created then Some (true, b)
    else
      let '(n, w) := direct_write (header_bytes (mk_header (get_binary_format_version c) (get_appender_format c))) None (wc_ b) in
      if negb (n =? file_header_size) then Some (false, set_wc w b)
      else
        '(ok, b) ← append_new_segment c segment_normal rm (set_wc w b);
        if negb ok then Some (false, b)
        else
          let flush := virtual_flush vb key_base (enc_type_ c) (xor_key_blob_ b) in
          w ← @write_bytes flush (metadata_bytes tz (zlen names) tail_bytes) (wc_ b);
          w ← @write_categories flush names w;
          w ← mark_write_finished w;
          w ← flush fresh w;
          Some (true, set_wc w b).

End Writing.

End Binary.
