(* ===== verification/BinaryFlush.v ===== *)
(** * The flush of an encrypted appender provides what every flush promises

    The bytes of the file from the position [p0] of the payload on stand for themselves under
    the key stream. The cache keeps its place in memory aligned with the end of the file, so
    every call of the cipher meets the contract of [Vernam]. *)
From stdpp Require Import base list option numbers.
From Stdlib Require Import ZArith Lia Bool.
From S2P Require Import Prelude Memory Vernam FileCache FileFlush Binary.
Import FileCache Binary.

#[local] Set Bullet Behavior "Strict Subproofs".

(** ** Moving the cache *)

Lemma set_padding_ok (fresh q : Z) (w : write_cache) :
  is_byte fresh -> cache_ok w -> 0 <= q < 256 ->
  exists b, set_cache_write_padding fresh q w =
      Some (mk_wc b (cursor_ w) (finished_ w) (head_size_ w) q (target_ w) (allocated_ w) (disk_full_drop_ w) (disk_ w) (io_ w)) /\
    bytes_ok b /\ cursor_ w <= zlen b /\ take (Z.to_nat (cursor_ w)) b = take (Z.to_nat (cursor_ w)) (buffer_ w).
Proof.
  intros Hfr Hok Hq. pose proof Hok as [Hf Hc Hh Hp Ht Hb]. unfold set_cache_write_padding.
  destruct (Z.eqb_spec (padding_ w) q) as [<-|Hne]; [exists (buffer_ w); split; [by destruct w|done]|].
  set (shift := q - padding_ w). set (size := get_total_used_write_cache_size w + shift).
  assert (exists w1, (if (padding_ w <? q) && (entity_size w <? size) then resize_cache_write_entity fresh size w else Some w) = Some w1 /\
    w1 = set_buffer (buffer_ w1) w /\ bytes_ok (buffer_ w1) /\ cursor_ w + Z.max 0 shift <= zlen (buffer_ w1) /\
    take (Z.to_nat (cursor_ w)) (buffer_ w1) = take (Z.to_nat (cursor_ w)) (buffer_ w)) as (w1 & -> & Ew & Hb1 & Hl1 & Ht1).
  { unfold size, get_total_used_write_cache_size, entity_size. destruct (Z.ltb_spec (padding_ w) q) as [Hlt|Hge]; cbn [andb].
    - destruct (Z.ltb_spec (head_size_ w + padding_ w + zlen (buffer_ w)) (head_size_ w + padding_ w + cursor_ w + shift)) as [Hs|Hs].
      + destruct (resize_ok fresh (head_size_ w + padding_ w + cursor_ w + shift) w Hfr Hok) as (w1 & -> & Hok1 & Hst & Hl & Ew);
          [unfold get_total_used_write_cache_size; lia|].
        exists w1. split; [done|]. split; [done|]. split; [apply Hok1|]. split; [lia|]. unfold raw_stream in Hst. rewrite Ew in Hst at 1 2.
        by apply app_inv_head in Hst.
      + exists w. split_and!; try done; [by destruct w|lia].
    - exists w. split_and!; try done; [by destruct w|lia]. }
  cbn [mbind option_bind]. rewrite Ew. cbn [cursor_ finished_ head_size_ target_ allocated_ disk_full_drop_ disk_ io_ buffer_ set_buffer].
  rewrite (load_Some (buffer_ w1)) by lia. cbn [mbind option_bind]. change (drop (Z.to_nat 0) (buffer_ w1)) with (buffer_ w1).
  set (view := if 0 <? shift then _ else _).
  assert (cursor_ w <= zlen view /\ bytes_ok view) as [Hv Hvb].
  { unfold view. destruct (Z.ltb_spec 0 shift).
    - rewrite zlen_drop by lia. split; [lia|by apply Forall_drop].
    - rewrite zlen_app, zlen_replicate by lia. split; [lia|]. apply Forall_app. split; [by apply Forall_replicate|done]. }
  assert (zlen (take (Z.to_nat (cursor_ w)) (buffer_ w1)) = cursor_ w) as Elt by (apply zlen_take; lia).
  rewrite (store_Some view) by lia. cbn [mbind option_bind]. eexists. split; [done|].
  change (take (Z.to_nat 0) view) with (@nil Z). cbn [app plus Z.to_nat]. rewrite Ht1.
  assert (zlen (take (Z.to_nat (cursor_ w)) (buffer_ w)) = cursor_ w) as El by (rewrite zlen_take; lia).
  split; [apply Forall_app; split; [by apply Forall_take|by apply Forall_drop]|]. split.
  - rewrite zlen_app, El. match goal with |- _ <= _ + zlen ?l => pose proof (zlen_nonneg l) end. lia.
  - apply take_app_length'. unfold zlen in El. lia.
Qed.

(** The place of the cache agrees with the end of the file. *)
Definition aligned (w : write_cache) : Prop := (head_size_ w + padding_ w) mod 32 = zlen (disk_ w) mod 32.

Lemma update_padding_ok (fresh : Z) (blob : list Z) (w : write_cache) :
  is_byte fresh -> zlen blob = get_xor_key_blob_size -> cache_ok w -> exists q b, update_write_cache_padding fresh rsa_aes_xor blob w =
      Some (mk_wc b (cursor_ w) (finished_ w) (head_size_ w) q (target_ w) (allocated_ w) (disk_full_drop_ w) (disk_ w) (io_ w)) /\
    0 <= q < 32 /\ (head_size_ w + q) mod 32 = zlen (disk_ w) mod 32 /\
    bytes_ok b /\ cursor_ w <= zlen b /\ take (Z.to_nat (cursor_ w)) b = take (Z.to_nat (cursor_ w)) (buffer_ w).
Proof.
  intros fresh_ok blob_size Hok. unfold update_write_cache_padding. rewrite blob_size. cbn [rsa_aes_xor Z.eqb negb orb Pos.eqb].
  change (get_xor_key_blob_size =? 0) with false. cbn [orb].
  change (get_xor_key_blob_size - 1) with (2 ^ 15 - 1). change (DEFAULT_BUFFER_ALIGNMENT - 1) with (2 ^ 5 - 1).
  change DEFAULT_BUFFER_ALIGNMENT with 32. rewrite !land_mask by lia. change (2 ^ 5) with 32. change (2 ^ 15) with (32 * 1024).
  set (q := u8 _). assert (q = (zlen (disk_ w) mod (32 * 1024) mod 32 + 32 - head_size_ w mod 32) mod 32) as Eq.
  { unfold q. apply wrap_small. pose proof (Z.mod_pos_bound (zlen (disk_ w) mod (32 * 1024) mod 32 + 32 - head_size_ w mod 32) 32). unfold in_range. lia. }
  assert (0 <= q < 32) as Hq by (rewrite Eq; apply Z.mod_pos_bound; lia).
  destruct (set_padding_ok fresh q w fresh_ok Hok ltac:(lia)) as (b & E & Hb & Hl & Ht). exists q, b.
  split_and!; try done; try lia. rewrite Eq, Zplus_mod_idemp_r.
  replace (zlen (disk_ w) mod (32 * 1024) mod 32) with (zlen (disk_ w) mod 32).
  - Z.div_mod_to_equations. lia.
  - rewrite Z.rem_mul_r by lia. rewrite (Z.mul_comm 32), Z.mod_add, Z.mod_mod by lia. done.
Qed.

(** ** The cipher over the finished bytes *)

Section Encrypted.
Variables (fresh : Z) (vb : Vernam.build) (key_base : Z) (blob : list Z) (p0 : Z).
Hypothesis (fresh_ok : is_byte fresh) (blob_bytes : bytes_ok blob) (blob_size : zlen blob = get_xor_key_blob_size).
Hypothesis (key_place : key_base mod 8 = 0) (payload_start : 0 <= p0).

Lemma encrypt_finished_run (w : write_cache) :
  cache_ok w -> aligned w -> cursor_ w < 2 ^ 62 ->
  encrypt_finished vb key_base blob w =
    Some (set_buffer (xored blob (zlen (disk_ w)) (Z.to_nat (finished_ w)) (buffer_ w)) w).
Proof.
  intros [Hf Hc Hh Hp Ht Hb] Hal Hcur. unfold encrypt_finished. rewrite <- blob_size, entry_run; [done|].
  split; try done; [exists 15; by rewrite blob_size|lia|]. pose proof (zlen_nonneg (disk_ w)). lia.
Qed.

Lemma xored_take (offset : Z) (n : nat) (buf : list Z) :
  (n <= length buf)%nat -> xored blob offset n buf = xored blob offset n (take n buf) ++ drop n buf.
Proof.
  intros Hn. apply list_eq. intros i. rewrite lookup_xored. destruct (decide (i < n)%nat) as [Hi|Hi].
  - rewrite lookup_app_l by (rewrite length_xored, length_take; lia). rewrite lookup_xored, lookup_take_lt by done. done.
  - rewrite lookup_app_r by (rewrite length_xored, length_take; lia). rewrite length_xored, length_take, lookup_drop.
    rewrite bool_decide_false by done. rewrite option_fmap_id. f_equal. lia.
Qed.

(** What the file stands for. *)
Definition decrypted (d : list Z) : list Z := xored blob p0 (length (drop (Z.to_nat p0) d)) (drop (Z.to_nat p0) d).

Lemma decrypted_app (d bs : list Z) :
  p0 <= zlen d -> decrypted (d ++ xored blob (zlen d) (length bs) bs) = decrypted d ++ bs.
Proof.
  intros Hd. unfold decrypted. rewrite drop_app_le by (unfold zlen in Hd; lia). rewrite length_app, xored_app. f_equal.
  replace (p0 + zlen (drop (Z.to_nat p0) d)) with (zlen d) by (rewrite zlen_drop by lia; lia). rewrite length_xored. apply xored_involutive.
Qed.

Lemma xored_prefix (offset : Z) (n m : nat) (buf : list Z) :
  (n <= m)%nat -> (n <= length buf)%nat -> take n (xored blob offset m buf) = xored blob offset (length (take n buf)) (take n buf).
Proof.
  intros Hnm Hn. apply list_eq. intros i. rewrite length_take, lookup_xored. destruct (decide (i < n)%nat) as [Hi|Hi].
  - rewrite !lookup_take_lt by done. rewrite lookup_xored, !bool_decide_true by lia. done.
  - rewrite !lookup_take_ge by lia. done.
Qed.

(** Two turns of the cipher over the bytes that stay, the second from where they come to lie. *)
Lemma xored_rest (offset n : Z) (fin c : nat) (buf b : list Z) :
  0 <= n -> (Z.to_nat n <= fin <= c)%nat -> (c <= length buf)%nat ->
  take (c - Z.to_nat n) b = drop (Z.to_nat n) (take c (xored blob offset fin buf)) ->
  take (c - Z.to_nat n) (xored blob (offset + n) (fin - Z.to_nat n) b) = drop (Z.to_nat n) (take c buf).
Proof.
  intros Hn Hf Hc E. apply list_eq. intros i. rewrite lookup_drop. destruct (decide (i < c - Z.to_nat n)%nat) as [Hi|Hi].
  2: { rewrite !lookup_take_ge by lia. done. }
  apply (f_equal (fun l => l !! i)) in E. rewrite lookup_drop, !lookup_take_lt, lookup_xored in E by lia.
  rewrite !lookup_take_lt, lookup_xored, E by lia.
  destruct (buf !! (Z.to_nat n + i)%nat) as [x|]; [|done]. cbn. f_equal.
  destruct (decide (i < fin - Z.to_nat n)%nat).
  - rewrite !bool_decide_true by lia. replace (offset + Z.of_nat (Z.to_nat n + i)) with (offset + n + Z.of_nat i) by lia.
    by rewrite Z.lxor_assoc, Z.lxor_nilpotent, Z.lxor_0_r.
  - by rewrite !bool_decide_false by lia.
Qed.

Lemma binary_flush_law (w : write_cache) :
  p0 <= zlen (disk_ w) -> aligned w -> cache_ok w -> orderly w -> cursor_ w < 2 ^ 62 ->
  exists w' n, binary_flush fresh vb key_base rsa_aes_xor blob w = Some w' /\ cache_ok w' /\ aligned w' /\ 0 <= n <= finished_ w /\
    decrypted (disk_ w') = decrypted (disk_ w) ++ take (Z.to_nat n) (buffer_ w) /\ disk_ w `prefix_of` disk_ w' /\
    take (Z.to_nat (cursor_ w')) (buffer_ w') = drop (Z.to_nat n) (take (Z.to_nat (cursor_ w)) (buffer_ w)) /\
    cursor_ w' = cursor_ w - n /\ finished_ w' = finished_ w - n /\
    allocated_ w' = allocated_ w /\ io_ w' = tail (io_ w) /\ (io_ w = [] -> n = finished_ w /\ disk_full_drop_ w' = false).
Proof.
  intros Hp0 Hal Hok Hor Hcur. unfold binary_flush. rewrite blob_size.
  change (negb (rsa_aes_xor =? rsa_aes_xor) || (get_xor_key_blob_size =? 0)) with false. cbn [orb].
  destruct (Z.eqb_spec (finished_ w) 0) as [E0|E0].
  { destruct (flush_writes fresh w fresh_ok Hok Hor) as (w' & n & E & Hok' & Hn & Hd & Ht & Hc & Hf & (Eh & Ep & _) & Ha & Hio & Hfull).
    assert (n = 0) as -> by lia. change (take (Z.to_nat 0) (buffer_ w)) with (@nil Z) in *. rewrite app_nil_r in Hd.
    exists w', 0. split_and!; try done; try lia; [unfold aligned in *; by rewrite Eh, Ep, Hd|rewrite Hd; by rewrite app_nil_r|by rewrite Hd|].
    intros Eio. split; [lia|by eapply flush_drop]. }
  rewrite (encrypt_finished_run w Hok Hal Hcur). cbn [mbind option_bind].
  set (w1 := set_buffer _ w). pose proof Hok as [Hf Hc Hh Hp Ht Hb].
  assert (cache_ok w1) as Hok1 by (split; cbn; rewrite ?zlen_xored; try done; by apply xored_bytes).
  destruct (flush_writes fresh w1 fresh_ok Hok1 Hor) as (w2 & n & E2 & Hok2 & Hn & Hd2 & Ht2 & Hc2 & Hf2 & (Eh2 & _ & Etg2) & Ha2 & Hio2 & Hfull2).
  cbn [disk_ buffer_ finished_ cursor_ io_ head_size_ target_ allocated_ w1 set_buffer] in *. rewrite E2. cbn [mbind option_bind].
  destruct (update_padding_ok fresh blob w2 fresh_ok blob_size Hok2) as (q & b & -> & Hq & Hqal & Hbb & Hbl & Hbt). cbn [mbind option_bind].
  set (w3 := mk_wc b _ _ _ _ _ _ _ _ _).
  assert (cache_ok w3) as Hok3 by (destruct Hok2; split; cbn; (done || lia)).
  assert (aligned w3) as Hal3 by (unfold aligned; cbn; done).
  assert (zlen (disk_ w2) = zlen (disk_ w) + n) as Ed2.
  { rewrite Hd2, zlen_app. rewrite zlen_take; [done|]. rewrite zlen_xored. lia. }
  set (w4 := set_buffer (xored blob (zlen (disk_ w3)) (Z.to_nat (finished_ w3)) b) w3).
  assert ((if (rsa_aes_xor =? rsa_aes_xor) && (0 <? finished_ w3) then encrypt_finished vb key_base blob w3 else Some w3) = Some w4) as ->.
  { change (rsa_aes_xor =? rsa_aes_xor) with true. cbn [andb]. destruct (Z.ltb_spec 0 (finished_ w3)) as [|Hz].
    - rewrite encrypt_finished_run; [done|done|done|cbn; lia].
    - unfold w4. replace (Z.to_nat (finished_ w3)) with 0%nat by lia. by rewrite xored_0. }
  exists w4, n. split; [done|]. split; [destruct Hok3; split; cbn in *; rewrite ?zlen_xored; try done; by apply xored_bytes|].
  split; [exact Hal3|]. split; [lia|]. change (disk_ w4) with (disk_ w2). rewrite Hd2.
  split; [|split; [by apply prefix_app_r|split; [|split; [exact Hc2|split; [exact Hf2|split; [exact Ha2|split; [exact Hio2|]]]]]]].
  - rewrite xored_prefix by (unfold zlen in *; lia). by apply decrypted_app.
  - cbn [cursor_ buffer_ w4 w3 set_buffer disk_ finished_]. rewrite Ed2. rewrite Hf2, Hc2.
    replace (Z.to_nat (cursor_ w - n)) with (Z.to_nat (cursor_ w) - Z.to_nat n)%nat by lia.
    replace (Z.to_nat (finished_ w - n)) with (Z.to_nat (finished_ w) - Z.to_nat n)%nat by lia.
    apply xored_rest; [lia|lia|unfold zlen in Hc; lia|]. rewrite <- Ht2, <- Hbt, Hc2. f_equal. lia.
  - intros Eio. split; [auto|]. change (disk_full_drop_ w2 = false). by eapply flush_drop.
Qed.

End Encrypted.

(** An encrypted appender whose payload begins at [p0]. *)
#[export] Instance binary_flush_laws (fresh : Z) (vb : Vernam.build) (key_base : Z) (blob : list Z) (p0 : Z)
    (Hfr : is_byte fresh) (Hb : bytes_ok blob) (Hs : zlen blob = get_xor_key_blob_size) (Hk : key_base mod 8 = 0) (Hp : 0 <= p0) :
  FlushLaws (virtual_flush vb key_base rsa_aes_xor blob) fresh.
Proof.
  refine {| view := decrypted blob p0; kept := fun w => p0 <= zlen (disk_ w) /\ aligned w |}; [done| |].
  - intros w w' [Hp0 Hal] Ed Eh Ep. unfold aligned in *. by rewrite Ed, Eh, Ep.
  - intros w [Hp0 Hal] Hok Hor Hcur.
    destruct (binary_flush_law fresh vb key_base blob p0 Hfr Hb Hs Hk Hp w Hp0 Hal Hok Hor Hcur)
      as (w' & n & E & Hok' & Hal' & Hn & Hd & Hpre & Ht & Hc & Hf & Ha & Hio & Hfull).
    exists w'. pose proof (ck_finished _ Hok). split_and!; try done; try lia.
    + apply prefix_length in Hpre. unfold zlen in *. lia.
    + rewrite Hd, Ht, <- app_assoc. f_equal.
      rewrite <- (take_drop (Z.to_nat n) (take (Z.to_nat (cursor_ w)) (buffer_ w))) at 2. f_equal. rewrite take_take. f_equal. lia.
    + intros Eio. destruct (Hfull Eio) as [-> Hdr]. split_and!; (done || lia).
Defined.
