(* ===== verification/BinaryReader.v ===== *)
(** * Reading a segmented file comes to an end

    Whatever the bytes of a file are, the walks over its segments - the scan of the topology,
    the steps to the next segment while reading, the search for the segment of a position -
    return or fail one assertion: every head that is followed lies at least its own size behind
    the last, and a head that is read lies inside the file. *)
From stdpp Require Import base list option numbers.
From Stdlib Require Import ZArith Lia Bool.
From S2P Require Import Prelude Memory FileCache FileFlush FileCacheTheorems Binary.
Import FileCache Binary.

#[local] Set Bullet Behavior "Strict Subproofs".

(** ** Single reads *)

(** Reading right behind an absolute seek: never more than the file has behind the position. *)
Lemma seek_read (file : list Z) (pos n : Z) (c c1 c2 : read_cache) (d : list Z) :
  0 <= pos -> 0 <= n -> seek_read_file_absolute pos c = (true, c1) -> read_with_cache file n c1 = (d, c2) ->
  zlen d <= n /\ (0 < zlen d -> pos + zlen d <= zlen file) /\ read_file_pos_ c2 = pos + zlen d.
Proof.
  intros Hp Hn. unfold seek_read_file_absolute. destruct (i32 pos <? 0) eqn:E; [done|]. apply Z.ltb_ge in E.
  intros [= <-]. unfold read_with_cache. cbn [cache_read_ cache_read_cursor_ read_file_pos_ os_pos_ cache_read_eof_].
  change (zlen [] - 0) with 0. rewrite Z.add_0_r, Z.sub_0_r. change (drop (Z.to_nat 0) (@nil Z)) with (@nil Z). cbn [app].
  destruct (Z.ltb_spec 0 n) as [Hpos|H0].
  - set (fill := if _ <? _ then _ else _). intros [= <- <-]. cbn [read_file_pos_].
    set (bytes := read_file file (i32 pos) fill). rewrite Z.sub_0_r. change (drop (Z.to_nat 0) bytes) with bytes.
    assert (0 <= fill /\ (pos <= zlen file -> fill <= zlen file - pos) /\ (zlen file < pos -> fill = 0)) as (Hf0 & Hf1 & Hf2).
    { unfold fill. destruct (Z.ltb_spec pos (zlen file)); match goal with |- context [?a <? ?b] => destruct (Z.ltb_spec a b) end; lia. }
    assert (zlen bytes <= fill) as Hb by (unfold bytes; rewrite read_file_len by lia; lia).
    pose proof (zlen_nonneg bytes). rewrite zlen_take by lia. split_and!; lia.
  - assert (n = 0) as -> by lia. intros [= <- <-]. cbn. unfold zlen. cbn. lia.
Qed.

Lemma load_le_total (mem : list Z) (off n : Z) : 0 <= off -> 0 <= n -> off + n <= zlen mem -> exists v, load_le mem off n = Some v.
Proof. intros. unfold load_le. rewrite load_Some by lia. by eexists. Qed.

Lemma load_head_total (d : list Z) : segment_head_size <= zlen d -> exists h, load_head d = Some h.
Proof.
  unfold segment_head_size, load_head. intros H.
  destruct (load_le_total d 0 8) as [a ->]; [lia..|]. destruct (load_le_total d 8 1) as [b ->]; [lia..|].
  destruct (load_le_total d 9 1) as [e ->]; [lia..|]. by eexists.
Qed.

Lemma load_header_total (d : list Z) : file_header_size <= zlen d -> exists h, load_header d = Some h.
Proof.
  unfold file_header_size, load_header. intros H.
  destruct (load_le_total d 0 4) as [a ->]; [lia..|]. destruct (load_le_total d 4 1) as [b ->]; [lia..|]. by eexists.
Qed.

Section Walks.
Variables (own_enc : Z) (file : list Z).
Hypothesis small_file : zlen file < 2 ^ 63.

(** ** From segment to segment *)

(** What a step to the next segment leaves: on success the head was inside the file. *)
Lemma next_segment_ok (r : reader) :
  0 <= end_pos r ->
  exists ok r', read_to_next_segment own_enc file r = Some (ok, r') /\
    (ok = true -> start_pos r' = end_pos r /\ end_pos r + segment_head_size <= zlen file /\
      end_pos r + segment_head_size <= end_pos r' /\ read_file_pos_ (rc_ r') = end_pos r + segment_head_size) /\
    (ok = false -> start_pos r' = start_pos r /\ end_pos r' = end_pos r).
Proof.
  intros He. unfold read_to_next_segment. destruct (_ =? UINT64_MAX); [by eexists _, _|].
  destruct (seek_read_file_absolute (end_pos r) (rc_ r)) as [ok c1] eqn:E1. destruct ok; cbn [negb]; [|by eexists _, _].
  destruct (read_with_cache file segment_head_size c1) as [d c2] eqn:E2.
  destruct (seek_read file _ segment_head_size _ _ _ _ He ltac:(done) E1 E2) as (Hn & Hin & Hpos).
  destruct (Z.ltb_spec (zlen d) segment_head_size) as [|Hd]; [by eexists _, _|].
  destruct (load_head_total d Hd) as [h ->]. cbn [mbind option_bind].
  destruct (negb (known_types h)); [by eexists _, _|]. destruct (negb (own_enc =? enc_type h)); [by eexists _, _|].
  assert (zlen d = segment_head_size) as Ed by lia. rewrite Ed in *. unfold segment_head_size in *. specialize (Hin ltac:(lia)).
  rewrite (wrap_small 64) by (unfold in_range; lia).
  destruct (Z.ltb_spec (next_seg_pos h) (end_pos r + 12)); [by eexists _, _|].
  eexists _, _. split; [done|]. cbn. split; [|done]. intros _. split_and!; (done || lia).
Qed.

Lemma next_segment_loop_ok (fuel : nat) (r : reader) :
  0 <= start_pos r <= end_pos r -> start_pos r <= read_file_pos_ (rc_ r) <= end_pos r -> zlen file < end_pos r + Z.of_nat fuel -> (0 < fuel)%nat ->
  exists ok r', next_segment_loop own_enc file fuel r = Some (ok, r') /\
    (ok = true -> 0 <= start_pos r' <= read_file_pos_ (rc_ r') /\ read_file_pos_ (rc_ r') < end_pos r' /\
      read_file_pos_ (rc_ r') <= Z.max (read_file_pos_ (rc_ r)) (zlen file)).
Proof.
  revert r. induction fuel as [|fuel IH]; intros r Hr Hpos Hf Hf0; [lia|]. cbn [next_segment_loop].
  destruct (Z.eqb_spec (read_file_pos_ (rc_ r)) (end_pos r)) as [E|E]; [|eexists _, _; split; [done|]; intros _; lia].
  destruct (next_segment_ok r ltac:(lia)) as (ok & r1 & -> & Hok & _). cbn [mbind option_bind].
  destruct ok; [|by eexists _, _]. destruct (Hok eq_refl) as (Es & Hin & Hnext & Hp). unfold segment_head_size in *.
  destruct (IH r1) as (ok & r2 & -> & H2); [lia..|]. exists ok, r2. split; [done|]. intros E2. destruct (H2 E2) as (? & ? & ?). lia.
Qed.

(** Bytes that are read move the position by as much, and by no more than was asked for. *)
Lemma read_advance (n : Z) (c c' : read_cache) (d : list Z) :
  read_with_cache file n c = (d, c') -> d <> [] -> read_file_pos_ c < read_file_pos_ c' <= read_file_pos_ c + n.
Proof using.
  unfold read_with_cache. destruct (if _ <? n then _ else _) as [[cache cursor] os]. intros [= <- <-]. cbn [read_file_pos_].
  destruct (Z.leb_spec (Z.min n (zlen cache - cursor)) 0) as [Hle|]; [|lia].
  intros Hd. exfalso. apply Hd. by rewrite Z2Nat.nonpos, take_0 by lia.
Qed.

(** The assertion at the beginning of a read. *)
Definition inside (r : reader) : bool := (start_pos r <=? read_file_pos_ (rc_ r)) && (read_file_pos_ (rc_ r) <=? end_pos r).

Lemma read_segment_ok (size : Z) (r : reader) :
  0 <= start_pos r -> 0 <= size < 2 ^ 63 -> read_file_pos_ (rc_ r) < 2 ^ 63 ->
  if inside r then exists d r', read_segment own_enc file size r = Some (d, r') /\ (d <> [] -> inside r' = true)
  else read_segment own_enc file size r = None.
Proof.
  intros H0 Hsize Hp. unfold read_segment, inside at 1. destruct (_ && _) eqn:Ein; cbn [negb]; [|done].
  apply andb_true_iff in Ein as [E1%Z.leb_le E2%Z.leb_le].
  destruct (next_segment_loop_ok (S (length file)) r ltac:(lia) ltac:(lia)) as (ok & r1 & -> & Hok); [unfold zlen; lia|lia|].
  cbn [mbind option_bind]. set (size' := if negb ok then _ else _).
  destruct (read_with_cache file size' (rc_ r1)) as [d c] eqn:Er. eexists _, _. split; [done|]. intros Hd.
  pose proof (read_advance _ _ _ _ Er Hd) as Ha. unfold inside, set_rc. cbn [rc_ start_pos end_pos].
  unfold size' in Ha. destruct ok; cbn [negb] in Ha; [|lia]. destruct (Hok eq_refl) as (Hs & He & Hpos).
  assert (0 <= read_file_pos_ (rc_ r1) < 2 ^ 63) as Hr by lia. rewrite (wrap_small 64) in Ha by (unfold in_range; lia).
  apply andb_true_iff. rewrite !Z.leb_le. destruct (Z.ltb_spec (end_pos r1) (read_file_pos_ (rc_ r1) + size)); lia.
Qed.

Lemma correct_segment_loop_total (fuel : nat) (backup : Z) (r : reader) :
  0 <= end_pos r -> zlen file < end_pos r + Z.of_nat fuel -> (0 < fuel)%nat ->
  exists ok r', correct_segment_loop own_enc file fuel backup r = Some (ok, r').
Proof.
  revert r. induction fuel as [|fuel IH]; intros r He Hf Hf0; [lia|]. cbn [correct_segment_loop].
  destruct (next_segment_ok r He) as (ok & r1 & -> & Hok & _). cbn [mbind option_bind].
  destruct ok; cbn [negb]; [|by eexists _, _]. destruct (Hok eq_refl) as (Es & Hin & Hnext & Hp). unfold segment_head_size in *.
  destruct (_ && _); [by eexists _, _|]. apply IH; lia.
Qed.

(** The assertion of a seek inside the cache. *)
Definition seekable (offset : Z) (r : reader) : bool :=
  (0 <=? cache_read_cursor_ (rc_ r) + offset) && (cache_read_cursor_ (rc_ r) + offset <=? zlen (cache_read_ (rc_ r))).

Lemma seek_offset_ok (offset : Z) (r : reader) :
  if seekable offset r then exists r', seek_offset own_enc file offset r = Some r' else seek_offset own_enc file offset r = None.
Proof.
  unfold seek_offset, seek_read_file_offset, seekable. destruct (_ && _); [|done]. cbn [mbind option_bind].
  destruct (_ || _); [|by eexists]. unfold read_to_correct_segment.
  match goal with |- context [correct_segment_loop _ _ ?f ?b ?x] =>
    destruct (correct_segment_loop_total f b x) as (ok & r1 & ->); [cbn; unfold file_header_size; lia|cbn; unfold zlen, file_header_size; lia|lia|] end.
  cbn [mbind option_bind]. by eexists.
Qed.

(** ** The scan *)

(** The check of the encryption keys behind a head. *)
Lemma scan_loop_total (fuel : nat) (pos : Z) (t : segment_topology_info) (c : read_cache) :
  0 <= pos -> zlen file < pos + Z.of_nat fuel -> (0 < fuel)%nat ->
  exists ok t' c', scan_loop file fuel pos t c = Some (ok, t', c').
Proof.
  revert pos t c. induction fuel as [|fuel IH]; intros pos t c Hp Hf Hf0; [lia|]. cbn [scan_loop].
  destruct (_ || _) eqn:Ein; [by eexists _, _, _|]. apply orb_false_iff in Ein as [Hin1 Hin2]. apply Z.ltb_ge in Hin1, Hin2.
  destruct (seek_read_file_absolute pos c) as [ok c1]. destruct ok; cbn [negb]; [|by eexists _, _, _].
  destruct (read_with_cache file segment_head_size c1) as [d c2].
  destruct (Z.eqb_spec (zlen d) segment_head_size) as [Hd|]; cbn [negb]; [|by eexists _, _, _].
  destruct (load_head_total d ltac:(lia)) as [h ->]. cbn [mbind option_bind].
  destruct (negb (known_types h)); [by eexists _, _, _|].
  match goal with |- context [@mbind _ _ _ _ _ ?k] => assert (exists ok t' c', k = Some (ok, t', c')) as (ok & t1 & c3 & ->) end.
  { destruct (enc_type h =? rsa_aes_xor); [|by eexists _, _, _]. destruct (_ <? get_encryption_keys_size); [by eexists _, _, _|].
    destruct (read_with_cache file 8 c2) as [d2 c4]. destruct (Z.eqb_spec (zlen d2) 8) as [Hd2|]; cbn [negb]; [|by eexists _, _, _].
    destruct (load_le_total d2 0 8) as [v ->]; [lia..|]. cbn [mbind option_bind].
    destruct (negb (has_encrypted_segment t)); by eexists _, _, _. }
  cbn [mbind option_bind]. destruct ok; cbn [negb]; [|by eexists _, _, _].
  destruct (_ =? UINT64_MAX); [by eexists _, _, _|]. destruct (_ || _ || _) eqn:En; [by eexists _, _, _|].
  apply orb_false_iff in En as [En1 En3]. apply orb_false_iff in En1 as [En1 En2]. apply Z.ltb_ge in En1, En2, En3.
  unfold segment_head_size, get_encryption_keys_size, get_xor_key_blob_size in *.
  apply IH; destruct (enc_type h =? rsa_aes_xor); lia.
Qed.

Lemma scan_total (version format : Z) (c : read_cache) :
  exists ok t c', scan_segment_topology file version format c = Some (ok, t, c').
Proof.
  unfold scan_segment_topology. destruct (_ <? _); [by eexists _, _, _|].
  destruct (seek_read_file_absolute 0 c) as [ok c1]. destruct ok; cbn [negb]; [|by eexists _, _, _].
  destruct (read_with_cache file file_header_size c1) as [d c2].
  destruct (Z.eqb_spec (zlen d) file_header_size) as [Hd|]; cbn [negb]; [|by eexists _, _, _].
  destruct (load_header_total d ltac:(lia)) as [h ->]. cbn [mbind option_bind].
  destruct (negb _); [by eexists _, _, _|]. destruct (_ =? _); [by eexists _, _, _|].
  apply scan_loop_total; unfold file_header_size, zlen; lia.
Qed.

End Walks.

(** C31. Whatever bytes a file holds, the walks over its segments come to an end: the fuel, one
    turn per byte of the file, is never used up, and no head is taken from outside the file.
    The scan of the topology returns from any state of the read cache. A read through the
    segments, from any state of the reader, returns or fails the assertion at its beginning
    that the position lies in the current segment, and nothing else; a read that has given
    bytes leaves the position there, so that assertion can only fail for what comes before the
    first read or behind one that gave none. A seek inside the cache, with the search for
    the segment of the new position, returns or fails the assertion that the position is one
    of the cache. *)
Theorem segment_walks_terminate (own_enc : Z) (file : list Z) :
  zlen file < 2 ^ 63 ->
  (forall version format c, exists ok t c', scan_segment_topology file version format c = Some (ok, t, c')) /\
  (forall size r, 0 <= start_pos r -> 0 <= size < 2 ^ 63 -> read_file_pos_ (rc_ r) < 2 ^ 63 ->
    if inside r then exists d r', read_segment own_enc file size r = Some (d, r') /\ (d <> [] -> inside r' = true)
    else read_segment own_enc file size r = None) /\
  (forall offset r, if seekable offset r then exists r', seek_offset own_enc file offset r = Some r' else seek_offset own_enc file offset r = None).
Proof.
  intros Hf. split; [intros; by apply scan_total|]. split; intros; [by apply read_segment_ok|by apply seek_offset_ok].
Qed.

(** A file whose second head leads back to itself. *)
Definition sample_crooked_file : list Z :=
  header_bytes (mk_header 10 2) ++ head_bytes (mk_head 20 1 1) ++ head_bytes (mk_head 20 1 1).

Definition sample_crooked_reader : reader := mk_reader (mk_rc [] 0 20 false 20) 8 20 plaintext.

Lemma segment_walks_terminate_witness :
  (exists ok t c', scan_segment_topology sample_crooked_file 10 2 (mk_rc [] 0 0 false 0) = Some (ok, t, c') /\ ok = false) /\
  exists d r', read_segment plaintext sample_crooked_file 4 sample_crooked_reader = Some (d, r').
Proof.
  destruct (segment_walks_terminate plaintext sample_crooked_file ltac:(vm_compute; reflexivity)) as (Hscan & Hread & _). split.
  - destruct (Hscan 10 2 (mk_rc [] 0 0 false 0)) as (ok & t & c' & E). exists ok, t, c'. split; [exact E|].
    vm_compute in E. injection E as <- _ _. reflexivity.
  - pose proof (Hread 4 sample_crooked_reader) as H. change (inside sample_crooked_reader) with true in H. cbn iota in H.
    destruct H as (d & r' & E & _); [discriminate|split; [discriminate|reflexivity]|reflexivity|]. exists d, r'. exact E.
Defined.

(** Behind a read that gave nothing because the next head is not one, the position is behind
    that head and the next read fails its assertion. *)
Lemma read_behind_bad_head :
  let behind := mk_reader (mk_rc [20; 0; 0; 0; 0; 0; 0; 0; 1; 1; 0; 0] 12 32 false 32) 8 20 plaintext in
  read_segment plaintext sample_crooked_file 4 sample_crooked_reader = Some ([], behind) /\
  read_segment plaintext sample_crooked_file 4 behind = None.
Proof. split; vm_compute; reflexivity. Qed.
