(* ===== verification/BinarySegments.v ===== *)
(** * The segments of a file, and reading and linking them

    [file_of version format segs]: the bytes of a file with the segments [segs], every head
    pointing to the next one. The scan of such a file finds its topology, the reads of a plain
    one give the payloads of its segments ([reads_on], [reads_ok]), and setting the link of
    the last head makes it the file of one segment more ([render_snoc]). *)
From stdpp Require Import base list option numbers.
From Stdlib Require Import ZArith Lia Bool.
From S2P Require Import Prelude Memory FileCache FileFlush FileCacheTheorems Binary BinaryFlush BinaryReader.
Import FileCache Binary.

#[local] Set Bullet Behavior "Strict Subproofs".

Record segment := mk_segment { sg_type : Z; sg_enc : Z; sg_body : list Z }.

Definition seg_size (s : segment) : Z := segment_head_size + zlen (sg_body s).

Fixpoint render (pos : Z) (segs : list segment) : list Z :=
  match segs with
  | [] => []
  | s :: rest =>
      head_bytes (mk_head (match rest with [] => UINT64_MAX | _ => pos + seg_size s end) (sg_type s) (sg_enc s)) ++
      sg_body s ++ render (pos + seg_size s) rest
  end.

Definition file_of (version format : Z) (segs : list segment) : list Z :=
  header_bytes (mk_header version format) ++ render file_header_size segs.

Definition seg_ok (s : segment) : Prop :=
  (sg_type s = segment_normal \/ sg_type s = recovery_by_appender \/ sg_type s = recovery_by_log_buffer) /\
  (sg_enc s = plaintext \/ (sg_enc s = rsa_aes_xor /\ get_encryption_keys_size <= zlen (sg_body s))).

(** What the scan says about segments that begin at [pos]; nothing when two of them are
    encrypted for different keys. *)
Definition seg_fingerprint (s : segment) : Z := le_val (take 8 (sg_body s)).

Definition topology_step (pos : Z) (s : segment) (t : segment_topology_info) : option segment_topology_info :=
  if sg_enc s =? rsa_aes_xor then
    if has_encrypted_segment t && negb (rsa_key_fingerprint t =? seg_fingerprint s) then None
    else Some (mk_topology true false true (seg_fingerprint s) pos)
  else Some (mk_topology true (all_segments_are_plaintext t) (has_encrypted_segment t) (rsa_key_fingerprint t) pos).

Fixpoint topology_from (pos : Z) (t : segment_topology_info) (segs : list segment) : option segment_topology_info :=
  match segs with
  | [] => Some t
  | s :: rest => t ← topology_step pos s t; topology_from (pos + seg_size s) t rest
  end.

Definition topology (segs : list segment) : option segment_topology_info := topology_from file_header_size no_topology segs.

(** Arithmetic on the sizes of heads and segments. *)
Ltac seg_lia := unfold seg_size, segment_head_size, get_encryption_keys_size, get_xor_key_blob_size in *; lia.

(** ** Heads *)

Lemma length_head_bytes (h : appender_file_segment_head) : length (head_bytes h) = 12%nat.
Proof. unfold head_bytes. rewrite length_app, length_le_bytes. done. Qed.

Lemma zlen_head_bytes (h : appender_file_segment_head) : zlen (head_bytes h) = segment_head_size.
Proof. unfold zlen. by rewrite length_head_bytes. Qed.

Lemma zlen_header_bytes (h : appender_file_header) : zlen (header_bytes h) = file_header_size.
Proof. unfold zlen, header_bytes. rewrite length_app, length_le_bytes. done. Qed.

Lemma load_head_bytes (h : appender_file_segment_head) (rest : list Z) :
  in_range 64 (next_seg_pos h) -> load_head (head_bytes h ++ rest) = Some h.
Proof.
  intros Hn. unfold load_head, head_bytes, load_le.
  rewrite (load_app_at _ [] (le_bytes 8 (next_seg_pos h)) ([seg_type h; enc_type h; 0; 0] ++ rest) 0 8) by (rewrite <- ?app_assoc; reflexivity).
  cbn [fmap option_fmap option_map mbind option_bind]. rewrite le_val_le_bytes, Z.mod_small by exact Hn.
  rewrite (load_app_at _ (le_bytes 8 (next_seg_pos h)) [seg_type h] ([enc_type h; 0; 0] ++ rest) 8 1) by (rewrite <- ?app_assoc; reflexivity).
  rewrite (load_app_at _ (le_bytes 8 (next_seg_pos h) ++ [seg_type h]) [enc_type h] ([0; 0] ++ rest) 9 1) by (rewrite <- ?app_assoc; reflexivity).
  cbn [fmap option_fmap option_map mbind option_bind]. rewrite !le_val_cons, !le_val_nil. destruct h. cbn. do 2 f_equal; lia.
Qed.

Lemma load_header_bytes (version format : Z) (rest : list Z) :
  in_range 32 version -> load_header (header_bytes (mk_header version format) ++ rest) = Some (mk_header version format).
Proof.
  intros Hv. unfold load_header, header_bytes, load_le. cbn [hd_version hd_format].
  rewrite (load_app_at _ [] (le_bytes 4 version) ([format; 0; 0; 0] ++ rest) 0 4) by (rewrite <- ?app_assoc; reflexivity).
  cbn [fmap option_fmap option_map mbind option_bind]. rewrite le_val_le_bytes, Z.mod_small by exact Hv.
  rewrite (load_app_at _ (le_bytes 4 version) [format] ([0; 0; 0] ++ rest) 4 1) by (rewrite <- ?app_assoc; reflexivity).
  cbn [fmap option_fmap option_map mbind option_bind]. rewrite !le_val_cons, !le_val_nil. do 2 f_equal; lia.
Qed.

Lemma known_types_ok (s : segment) (next : Z) : seg_ok s -> known_types (mk_head next (sg_type s) (sg_enc s)) = true.
Proof.
  intros [Ht He]. unfold known_types. cbn.
  destruct Ht as [-> |[-> | ->]], He as [-> |[-> _]]; done.
Qed.

(** Reading [n] bytes at a position of the file. *)
Lemma read_at (file pre bytes post : list Z) (c : read_cache) :
  file = pre ++ bytes ++ post -> zlen file < 2 ^ 31 ->
  exists c1 c2, seek_read_file_absolute (zlen pre) c = (true, c1) /\ read_with_cache file (zlen bytes) c1 = (bytes, c2) /\
    window file c2 /\ read_file_pos_ c2 = zlen pre + zlen bytes /\ cache_read_eof_ c2 = false.
Proof.
  intros E Hs. pose proof (zlen_nonneg pre). pose proof (zlen_nonneg bytes). pose proof (zlen_nonneg post).
  assert (zlen file = zlen pre + zlen bytes + zlen post) as El by (rewrite E, !zlen_app; lia).
  destruct (seek_absolute_window file (zlen pre) c) as (c1 & E1 & W1 & Hp1 & He1); [lia|lia|].
  destruct (read_with_cache file (zlen bytes) c1) as [d c2] eqn:E2.
  destruct (read_with_cache_ok file (zlen bytes) c1 c2 d W1 ltac:(lia) E2) as (Hd & W2 & Hp2 & He2 & _).
  assert (d = bytes) as ->.
  { rewrite Hd, Hp1. unfold read_file. rewrite E. unfold zlen. rewrite !Nat2Z.id.
    by rewrite drop_app_length, take_app_length. }
  exists c1, c2. split; [done|]. split; [done|]. split; [done|]. rewrite Hp2, Hp1, He2, He1, Z.ltb_irrefl. done.
Qed.

Lemma read_on (file pre bytes post : list Z) (c : read_cache) :
  file = pre ++ bytes ++ post -> window file c -> read_file_pos_ c = zlen pre ->
  exists c2, read_with_cache file (zlen bytes) c = (bytes, c2) /\ window file c2 /\ read_file_pos_ c2 = zlen pre + zlen bytes /\
    cache_read_eof_ c2 = cache_read_eof_ c.
Proof.
  intros E W Hp. pose proof (zlen_nonneg bytes). destruct (read_with_cache file (zlen bytes) c) as [d c2] eqn:E2.
  destruct (read_with_cache_ok file (zlen bytes) c c2 d W ltac:(lia) E2) as (Hd & W2 & Hp2 & He2 & _).
  assert (d = bytes) as ->.
  { rewrite Hd, Hp. unfold read_file. rewrite E. unfold zlen. rewrite !Nat2Z.id.
    by rewrite drop_app_length, take_app_length. }
  exists c2. split; [done|]. split; [done|]. rewrite Hp2, Hp, He2, Z.ltb_irrefl, orb_false_r. done.
Qed.

(** ** The scan *)

Lemma seg_size_pos (s : segment) : segment_head_size <= seg_size s.
Proof. unfold seg_size. pose proof (zlen_nonneg (sg_body s)). lia. Qed.

Lemma scan_loop_segments (fuel : nat) (segs : list segment) (file pre : list Z) (t t' : segment_topology_info) (c : read_cache) :
  file = pre ++ render (zlen pre) segs -> segs <> [] -> Forall seg_ok segs -> zlen file < 2 ^ 31 -> (length segs <= fuel)%nat ->
  topology_from (zlen pre) t segs = Some t' ->
  exists c', scan_loop file fuel (zlen pre) t c = Some (true, t', c').
Proof.
  revert fuel pre t c. induction segs as [|s rest IH]; intros fuel pre t c E Hne Hok Hs Hf Ht; [done|].
  apply Forall_cons_1 in Hok as [Hso Hok]. destruct fuel as [|fuel]; [cbn in Hf; lia|]. cbn [render] in E.
  set (next := match rest with [] => UINT64_MAX | _ => zlen pre + seg_size s end) in E.
  set (h := mk_head next (sg_type s) (sg_enc s)) in E. pose proof (zlen_nonneg pre) as Hp0. pose proof (zlen_nonneg (sg_body s)) as Hb0.
  assert (zlen file = zlen pre + seg_size s + zlen (render (zlen pre + seg_size s) rest)) as El.
  { rewrite E, !zlen_app, zlen_head_bytes. unfold seg_size. lia. }
  pose proof (zlen_nonneg (render (zlen pre + seg_size s) rest)) as Hr0.
  destruct (read_at file pre (head_bytes h) _ c E Hs) as (c1 & c2 & E1 & E2 & W2 & P2 & _).
  cbn [scan_loop]. rewrite (proj2 (Z.ltb_ge (zlen file) (zlen pre))), (proj2 (Z.ltb_ge (zlen file - zlen pre) segment_head_size))
    by seg_lia. cbn [orb]. rewrite E1. cbn [negb]. rewrite zlen_head_bytes in E2. rewrite E2, zlen_head_bytes, Z.eqb_refl.
  cbn [negb]. rewrite <- (app_nil_r (head_bytes h)), load_head_bytes.
  2: { pose proof (seg_size_pos s). unfold segment_head_size in *. change (in_range 64 next). unfold next, UINT64_MAX, in_range. destruct rest; lia. }
  cbn [mbind option_bind]. unfold h. rewrite (known_types_ok s next Hso). cbn [negb enc_type next_seg_pos seg_type].
  cbn [topology_from] in Ht. apply bind_Some in Ht as (t1 & Et1 & Ht). unfold topology_step in Et1.
  match goal with |- context [@mbind _ _ _ _ _ ?k] => assert (exists t0 c3, k = Some (true, t0, c3) /\
    t1 = mk_topology true (all_segments_are_plaintext t0 && (sg_enc s =? plaintext)) (has_encrypted_segment t0) (rsa_key_fingerprint t0) (zlen pre)) as (t0 & c3 & -> & Et0) end.
  { destruct (Z.eqb_spec (sg_enc s) rsa_aes_xor) as [Ee|Ee].
    - destruct Hso as [_ [Hpl|[_ Hkeys]]]; [rewrite Hpl in Ee; done|].
      rewrite (proj2 (Z.ltb_ge _ _)) by seg_lia.
      assert (file = (pre ++ head_bytes h) ++ take 8 (sg_body s) ++ (drop 8 (sg_body s) ++ render (zlen pre + seg_size s) rest)) as E8.
      { rewrite E, <- app_assoc. do 2 f_equal. rewrite app_assoc. by rewrite take_drop. }
      assert (zlen (take 8 (sg_body s)) = 8) as E88.
      { change 8%nat with (Z.to_nat 8). apply zlen_take. unfold get_encryption_keys_size, get_xor_key_blob_size in Hkeys. lia. }
      destruct (read_on file _ _ _ c2 E8 W2) as (c3 & E3 & _); [rewrite zlen_app, zlen_head_bytes; rewrite P2, zlen_head_bytes; lia|].
      rewrite E88 in E3. rewrite E3, E88. cbn [Z.eqb negb Pos.eqb].
      unfold load_le. rewrite (load_app_at _ [] (take 8 (sg_body s)) []) by (rewrite ?app_nil_r; done).
      cbn [fmap option_fmap option_map mbind option_bind]. fold (seg_fingerprint s) in *.
      change (rsa_aes_xor =? plaintext) with false. rewrite Ee. cbn [Z.eqb rsa_aes_xor plaintext Pos.eqb].
      destruct (has_encrypted_segment t) eqn:Eh; cbn [negb andb] in *.
      + destruct (rsa_key_fingerprint t =? seg_fingerprint s) eqn:Ef; cbn [negb] in *; [|done]. injection Et1 as <-. apply Z.eqb_eq in Ef.
        eexists _, _. split; [done|]. rewrite andb_false_r, Eh, Ef. done.
      + injection Et1 as <-. eexists _, _. split; [done|]. cbn. by rewrite andb_false_r.
    - injection Et1 as <-. eexists _, _. split; [done|]. destruct Hso as [_ [Hpl|[Hpl _]]]; [|done]. rewrite Hpl. cbn. by rewrite andb_true_r. }
  cbn [mbind option_bind negb]. rewrite <- Et0. clear Et0 Et1.
  set (min_next := if sg_enc s =? rsa_aes_xor then _ else _).
  assert (min_next <= zlen pre + seg_size s) as Hmin.
  { unfold min_next, seg_size. destruct Hso as [_ [-> |[-> Hk]]]; cbn; seg_lia. }
  destruct rest as [|s2 rest].
  - unfold next. rewrite Z.eqb_refl. cbn in Ht. injection Ht as <-. rewrite (proj2 (Z.leb_le _ _)) by seg_lia. by eexists.
  - unfold next. rewrite (proj2 (Z.eqb_neq _ _)) by (unfold UINT64_MAX; lia).
    assert (segment_head_size <= zlen (render (zlen pre + seg_size s) (s2 :: rest))) as Hr.
    { cbn [render]. rewrite !zlen_app, zlen_head_bytes. pose proof (zlen_nonneg (sg_body s2)).
      pose proof (zlen_nonneg (render (zlen pre + seg_size s + seg_size s2) rest)). lia. }
    unfold segment_head_size in *. rewrite !(proj2 (Z.ltb_ge _ _)) by lia. cbn [orb].
    assert (zlen (pre ++ head_bytes h ++ sg_body s) = zlen pre + seg_size s) as Epre
      by (rewrite !zlen_app, zlen_head_bytes; unfold seg_size; lia).
    rewrite <- Epre. apply IH; try done; [|cbn in *; lia|by rewrite Epre].
    rewrite Epre, E. by rewrite <- !app_assoc.
Qed.

Lemma topology_last (pos : Z) (segs : list segment) (t t' : segment_topology_info) :
  topology_from pos t segs = Some t' -> segs <> [] -> has_segment t' = true.
Proof.
  revert pos t. induction segs as [|s rest IH]; intros pos t H Hne; [done|]. cbn [topology_from] in H.
  apply bind_Some in H as (t1 & H1 & H). destruct rest as [|s2 rest]; [|by eapply IH].
  cbn in H. injection H as <-. unfold topology_step in H1. destruct (sg_enc s =? rsa_aes_xor); [destruct (_ && _); [done|]|]; by injection H1 as <-.
Qed.

(** The position of the last of [segs]. *)
Fixpoint last_pos (pos : Z) (segs : list segment) : Z :=
  match segs with
  | s :: (_ :: _) as rest => last_pos (pos + seg_size s) rest
  | _ => pos
  end.

Lemma topology_last_pos (pos : Z) (segs : list segment) (t t' : segment_topology_info) :
  topology_from pos t segs = Some t' -> segs <> [] -> last_segment_start_pos t' = last_pos pos segs.
Proof.
  revert pos t. induction segs as [|s rest IH]; intros pos t H Hne; [done|]. cbn [topology_from] in H.
  apply bind_Some in H as (t1 & H1 & H). destruct rest as [|s2 rest]; [|cbn [last_pos]; by eapply IH].
  cbn in H. injection H as <-. unfold topology_step in H1. cbn.
  destruct (sg_enc s =? rsa_aes_xor); [destruct (_ && _); [done|]|]; by injection H1 as <-.
Qed.

Lemma scan_segments (version format : Z) (segs : list segment) (t : segment_topology_info) (c : read_cache) :
  in_range 32 version -> Forall seg_ok segs -> zlen (file_of version format segs) < 2 ^ 31 -> topology segs = Some t ->
  exists c', scan_segment_topology (file_of version format segs) version format c = Some (true, t, c').
Proof.
  intros Hv Hok Hs Ht. set (file := file_of version format segs) in *.
  pose proof (zlen_header_bytes (mk_header version format)) as Hh.
  destruct (read_at file [] (header_bytes (mk_header version format)) (render file_header_size segs) c eq_refl Hs) as (c1 & c2 & E1 & E2 & _).
  assert (zlen file = file_header_size + zlen (render file_header_size segs)) as El by (unfold file, file_of; rewrite zlen_app; lia).
  pose proof (zlen_nonneg (render file_header_size segs)). unfold scan_segment_topology.
  rewrite (proj2 (Z.ltb_ge _ _)) by lia. change (zlen []) with 0 in E1. rewrite E1. cbn [negb]. rewrite Hh in E2. rewrite E2, Hh, Z.eqb_refl. cbn [negb].
  rewrite <- (app_nil_r (header_bytes _)), load_header_bytes by done. cbn [mbind option_bind hd_version hd_format]. rewrite !Z.eqb_refl. cbn [andb negb].
  destruct segs as [|s rest].
  { cbn in El. rewrite El. cbn. injection Ht as <-. by eexists. }
  assert (segment_head_size <= zlen (render file_header_size (s :: rest))).
  { cbn [render]. rewrite !zlen_app, zlen_head_bytes. pose proof (zlen_nonneg (sg_body s)).
    pose proof (zlen_nonneg (render (file_header_size + seg_size s) rest)). lia. }
  unfold segment_head_size in *. rewrite (proj2 (Z.eqb_neq _ _)) by lia. rewrite <- Hh.
  apply (scan_loop_segments _ (s :: rest)); try done.
  (* every segment has a head *)
  assert (forall l pos, (length l <= length (render pos l))%nat) as HL.
  { induction l as [|s1 l IH]; intros pos; [done|]. cbn [render length]. rewrite !length_app, length_head_bytes. specialize (IH (pos + seg_size s1)). lia. }
  unfold file, file_of. rewrite length_app. specialize (HL (s :: rest) file_header_size). lia.
Qed.

(** ** Reading a plain file on *)

Definition plain_seg (s : segment) : Prop := seg_ok s /\ sg_enc s = plaintext.

Definition payloads (segs : list segment) : list Z := concat (sg_body <$> segs).

(** Reads of the given sizes, one behind the other, and what they give together. *)
Fixpoint reads (own_enc : Z) (file : list Z) (sizes : list Z) (r : reader) : option (list Z * reader) :=
  match sizes with
  | [] => Some ([], r)
  | size :: sizes =>
      '(d, r) ← read_segment own_enc file size r;
      '(e, r) ← reads own_enc file sizes r;
      Some (d ++ e, r)
  end.

Section ReadingOn.
Variable file : list Z.
Hypothesis small_file : zlen file < 2 ^ 31.

(** The reader [r] of a plain appender is at the end of [pre], inside a segment of which [q] is
    left, with the segments [segs] behind it. *)
Record reads_on (pre q : list Z) (segs : list segment) (r : reader) : Prop := {
  ro_file : file = pre ++ q ++ render (zlen pre + zlen q) segs;
  ro_plain : Forall plain_seg segs;
  ro_window : window file (rc_ r);
  ro_pos : read_file_pos_ (rc_ r) = zlen pre;
  ro_start : 0 <= start_pos r <= zlen pre;
  ro_end : end_pos r = match segs with [] => UINT64_MAX | _ => zlen pre + zlen q end }.

Lemma length_render (pos : Z) (segs : list segment) : (length segs <= length (render pos segs))%nat.
Proof using.
  clear. revert pos. induction segs as [|s segs IH]; intros pos; [done|]. cbn [render length].
  rewrite !length_app, length_head_bytes. specialize (IH (pos + seg_size s)). lia.
Qed.

(** The step to the segment [s], from anywhere. *)
Lemma next_segment_read (pre : list Z) (s : segment) (rest : list segment) (r : reader) :
  file = pre ++ render (zlen pre) (s :: rest) -> Forall plain_seg (s :: rest) -> end_pos r = zlen pre ->
  exists r' head, read_to_next_segment plaintext file r = Some (true, r') /\ zlen head = segment_head_size /\
    reads_on (pre ++ head) (sg_body s) rest r' /\ start_pos r' = zlen pre /\ seg_enc r' = plaintext.
Proof.
  intros E Hpl He. apply Forall_cons_1 in Hpl as [[Hso Hse] Hpl]. cbn [render] in E.
  set (next := match rest with [] => _ | _ => _ end) in E. set (h := mk_head next (sg_type s) (sg_enc s)) in E.
  assert (zlen file = zlen pre + seg_size s + zlen (render (zlen pre + seg_size s) rest)) as El
    by (rewrite E, !zlen_app, zlen_head_bytes; seg_lia).
  pose proof (zlen_nonneg pre). pose proof (zlen_nonneg (render (zlen pre + seg_size s) rest)).
  pose proof (seg_size_pos s) as Hpos. unfold segment_head_size in Hpos.
  assert (zlen pre + 12 <= next <= UINT64_MAX) as Hnext by (unfold next, UINT64_MAX in *; destruct rest; lia).
  destruct (read_at file pre (head_bytes h) _ (rc_ r) E small_file) as (c1 & c2 & E1 & E2 & W & Hp & _).
  rewrite zlen_head_bytes in *. unfold read_to_next_segment. rewrite He.
  rewrite (proj2 (Z.eqb_neq (zlen pre) UINT64_MAX)) by (unfold UINT64_MAX; lia). rewrite E1. cbn [negb]. rewrite E2, zlen_head_bytes, Z.ltb_irrefl.
  rewrite <- (app_nil_r (head_bytes h)), load_head_bytes by (unfold in_range, UINT64_MAX in *; cbn; lia).
  cbn [mbind option_bind]. unfold h at 1. rewrite (known_types_ok s next Hso). cbn [negb enc_type next_seg_pos h].
  rewrite Hse. change (plaintext =? plaintext) with true. cbn [negb]. unfold segment_head_size at 1.
  rewrite (wrap_small 64) by (unfold in_range; lia). rewrite (proj2 (Z.ltb_ge _ _)) by lia.
  eexists _, (head_bytes h). split; [done|]. split; [apply zlen_head_bytes|]. cbn [start_pos end_pos seg_enc]. split; [|done].
  assert (zlen (pre ++ head_bytes h) + zlen (sg_body s) = zlen pre + seg_size s) as Ez by (rewrite zlen_app, zlen_head_bytes; seg_lia).
  split; cbn [rc_ start_pos end_pos]; rewrite ?Ez; try done.
  - rewrite <- app_assoc. exact E.
  - rewrite Hp, zlen_app, zlen_head_bytes. done.
  - rewrite zlen_app, zlen_head_bytes. unfold segment_head_size. lia.
Qed.

(** Empty segments are passed, so that something is left of the segment of the reader, unless
    everything has been read. *)
Lemma next_segment_loop_reads (fuel : nat) (pre q : list Z) (segs : list segment) (r : reader) :
  reads_on pre q segs r -> (length segs < fuel)%nat ->
  exists r' pre' q' segs', next_segment_loop plaintext file fuel r = Some (true, r') /\ reads_on pre' q' segs' r' /\
    q' ++ payloads segs' = q ++ payloads segs /\ (q' = [] -> segs' = []) /\
    (q <> [] \/ segs = [] -> pre' = pre /\ q' = q /\ segs' = segs /\ start_pos r' = start_pos r).
Proof.
  revert pre q segs r. induction fuel as [|fuel IH]; intros pre q segs r R Hf; [lia|]. cbn [next_segment_loop].
  pose proof (ro_pos _ _ _ _ R) as Hp. pose proof (ro_end _ _ _ _ R) as He. rewrite Hp, He.
  assert (zlen pre <= zlen file) as Hle by (rewrite (ro_file _ _ _ _ R), zlen_app; pose proof (zlen_nonneg (q ++ render (zlen pre + zlen q) segs)); lia).
  pose proof (zlen_nonneg q) as Hq0. destruct segs as [|s segs].
  { rewrite (proj2 (Z.eqb_neq _ _)) by (unfold UINT64_MAX; lia). exists r, pre, q, []. by split_and!. }
  destruct q as [|b q].
  2: { rewrite zlen_cons in *. pose proof (zlen_nonneg q). rewrite (proj2 (Z.eqb_neq _ _)) by lia. exists r, pre, (b :: q), (s :: segs). by split_and!. }
  change (zlen []) with 0 in *. rewrite Z.add_0_r, Z.eqb_refl. pose proof (ro_file _ _ _ _ R) as E. cbn [app] in E. change (zlen []) with 0 in E. rewrite Z.add_0_r in *.
  destruct (next_segment_read pre s segs r E (ro_plain _ _ _ _ R) He) as (r1 & head & -> & _ & R1 & _). cbn [mbind option_bind].
  destruct (IH _ _ _ _ R1 ltac:(cbn in Hf; lia)) as (r2 & pre2 & q2 & segs2 & -> & R2 & Ep & Hne & _).
  exists r2, pre2, q2, segs2. split; [done|]. split; [done|]. split; [by rewrite Ep|]. split; [done|]. intros [[]|]; done.
Qed.

(** A read of [n] bytes gives them, or what is left of the segment it is in. *)
Lemma read_segment_reads (n : Z) (pre q : list Z) (segs : list segment) (r : reader) :
  reads_on pre q segs r -> 0 <= n < 2 ^ 31 ->
  exists r' pre' q' segs', read_segment plaintext file n r = Some (take (Z.to_nat n) q', r') /\
    reads_on (pre' ++ take (Z.to_nat n) q') (drop (Z.to_nat n) q') segs' r' /\
    q' ++ payloads segs' = q ++ payloads segs /\ (q' = [] -> segs' = []) /\
    (q <> [] \/ segs = [] -> pre' = pre /\ q' = q /\ segs' = segs /\ start_pos r' = start_pos r).
Proof.
  intros R Hn. assert (zlen pre <= zlen file) as Hle.
  { rewrite (ro_file _ _ _ _ R), zlen_app. pose proof (zlen_nonneg (q ++ render (zlen pre + zlen q) segs)). lia. }
  pose proof (zlen_nonneg q). unfold read_segment. rewrite (ro_pos _ _ _ _ R). destruct (ro_start _ _ _ _ R) as [Hs0 Hs1].
  rewrite (proj2 (Z.leb_le _ _)), (proj2 (Z.leb_le _ _)) by (rewrite ?(ro_end _ _ _ _ R); unfold UINT64_MAX; destruct segs; lia). cbn [andb negb].
  destruct (next_segment_loop_reads (S (length file)) pre q segs r R) as (r1 & pre' & q' & segs' & -> & R1 & Ep & Hne & Hsame).
  { rewrite (ro_file _ _ _ _ R), !length_app. pose proof (length_render (zlen pre + zlen q) segs). lia. }
  cbn [mbind option_bind negb]. pose proof R1 as [E Hpl W Hp Hst He]. rewrite Hp. pose proof (zlen_nonneg q'). pose proof (zlen_nonneg pre').
  assert (zlen file = zlen pre' + zlen q' + zlen (render (zlen pre' + zlen q') segs')) as El by (rewrite E at 1; rewrite !zlen_app; lia).
  pose proof (zlen_nonneg (render (zlen pre' + zlen q') segs')). rewrite (wrap_small 64) by (unfold in_range; lia).
  set (m := if end_pos r1 <? zlen pre' + n then _ else _).
  assert (0 <= m /\ take (Z.to_nat m) (q' ++ render (zlen pre' + zlen q') segs') = take (Z.to_nat n) q') as [Hm Et].
  { unfold m. rewrite He. destruct segs' as [|s segs'].
    - rewrite (proj2 (Z.ltb_ge _ _)) by (unfold UINT64_MAX; lia). cbn [render]. rewrite app_nil_r. split; [lia|done].
    - destruct (Z.ltb_spec (zlen pre' + zlen q') (zlen pre' + n)); (split; [lia|]).
      + replace (zlen pre' + zlen q' - zlen pre') with (zlen q') by lia. unfold zlen at 1. rewrite Nat2Z.id, take_app_length. by rewrite take_ge by (unfold zlen in *; lia).
      + rewrite take_app_le by (unfold zlen in *; lia). done. }
  destruct (read_with_cache file m (rc_ r1)) as [d c] eqn:Er.
  destruct (read_with_cache_ok file m (rc_ r1) c d W Hm Er) as (Hd & W' & Hp' & _).
  assert (d = take (Z.to_nat n) q') as ->.
  { rewrite Hd, Hp. unfold read_file. rewrite E at 1. unfold zlen at 1. rewrite Nat2Z.id, drop_app_length. exact Et. }
  exists (set_rc c r1), pre', q', segs'. split; [done|]. split; [|done].
  assert (zlen (pre' ++ take (Z.to_nat n) q') + zlen (drop (Z.to_nat n) q') = zlen pre' + zlen q') as Ez.
  { rewrite zlen_app. rewrite <- (take_drop (Z.to_nat n) q') at 3. rewrite zlen_app. lia. }
  split; cbn [rc_ start_pos end_pos set_rc]; rewrite ?Ez; try done.
  - rewrite <- app_assoc, (app_assoc (take _ _)), take_drop. exact E.
  - by rewrite Hp', Hp, zlen_app.
  - rewrite zlen_app. pose proof (zlen_nonneg (take (Z.to_nat n) q')). lia.
Qed.

(** Reads give the beginning of what is left, and everything when there are enough of them. *)
Lemma reads_ok (sizes : list Z) (pre q : list Z) (segs : list segment) (r : reader) :
  reads_on pre q segs r -> Forall (fun n => 0 < n < 2 ^ 31) sizes ->
  exists d r', reads plaintext file sizes r = Some (d, r') /\ d `prefix_of` q ++ payloads segs /\
    (d = q ++ payloads segs \/ (length sizes <= length d)%nat).
Proof.
  intros R H. revert pre q segs r R. induction H as [|n sizes Hn _ IH]; intros pre q segs r R.
  { exists [], r. split; [done|]. split; [apply prefix_nil|right; cbn; lia]. }
  cbn [reads]. destruct (read_segment_reads n pre q segs r R ltac:(lia)) as (r1 & pre1 & q1 & segs1 & -> & R1 & Ep & Hne & _).
  cbn [mbind option_bind]. destruct (IH _ _ _ _ R1) as (d & r2 & -> & Hpre & Hall). cbn [mbind option_bind].
  eexists _, r2. split; [done|]. rewrite <- Ep.
  assert (q1 ++ payloads segs1 = take (Z.to_nat n) q1 ++ drop (Z.to_nat n) q1 ++ payloads segs1) as -> by by rewrite app_assoc, take_drop.
  split; [by apply prefix_app|]. destruct Hall as [-> |Hall]; [by left|]. destruct q1 as [|b q1].
  - left. rewrite (Hne eq_refl) in *. rewrite !drop_nil, !take_nil in *. cbn [app] in *. by apply prefix_nil_inv in Hpre as ->.
  - right. rewrite length_app, length_take. cbn [length]. lia.
Qed.

(** A read of exactly the next [bytes]. *)
Lemma read_piece (bytes pre q : list Z) (segs : list segment) (r : reader) :
  reads_on pre (bytes ++ q) segs r ->
  exists r' pre' q' segs', read_segment plaintext file (zlen bytes) r = Some (bytes, r') /\ reads_on pre' q' segs' r' /\
    q' ++ payloads segs' = q ++ payloads segs /\
    (bytes ++ q <> [] \/ segs = [] -> pre' = pre ++ bytes /\ q' = q /\ segs' = segs /\ start_pos r' = start_pos r).
Proof.
  intros R. assert (zlen bytes < 2 ^ 31) as Hb.
  { pose proof small_file as Hs. rewrite (ro_file _ _ _ _ R), !zlen_app in Hs. pose proof (zlen_nonneg pre). pose proof (zlen_nonneg q).
    match type of Hs with context [zlen (render ?a ?b)] => pose proof (zlen_nonneg (render a b)) end. lia. }
  pose proof (zlen_nonneg bytes).
  destruct (read_segment_reads (zlen bytes) _ _ _ _ R ltac:(lia)) as (r1 & pre1 & q1 & segs1 & E & R1 & Ep & _ & Hsame).
  unfold zlen in E at 2. unfold zlen in R1. rewrite Nat2Z.id in *.
  destruct (decide (bytes = [] /\ q = [] /\ segs <> [])) as [(-> & -> & Hne)|Hn].
  - cbn [length app] in *. rewrite take_0, drop_0, app_nil_r in *. exists r1, pre1, q1, segs1. split_and!; done.
  - destruct (Hsame ltac:(destruct segs; [by right|left; intros [-> ->]%app_nil; apply Hn; done])) as (-> & -> & -> & Hst).
    rewrite take_app_length, drop_app_length in *. exists r1, (pre ++ bytes), q, segs. by split_and!.
Qed.

End ReadingOn.

(** ** Appending *)

Lemma overwrite_at (pre old new post : list Z) (pos : Z) :
  pos = zlen pre -> length old = length new -> overwrite (pre ++ old ++ post) pos new = pre ++ new ++ post.
Proof.
  intros -> Hl. unfold overwrite, zlen. rewrite Nat2Z.id, take_app_length, <- Hl. do 2 f_equal.
  rewrite <- drop_drop, drop_app_length. apply drop_app_length.
Qed.

(** Linking the last segment to what follows it. *)
Lemma render_snoc (segs : list segment) (pre : list Z) (s : segment) :
  segs <> [] ->
  overwrite (pre ++ render (zlen pre) segs ++ head_bytes (mk_head UINT64_MAX (sg_type s) (sg_enc s)) ++ sg_body s)
    (last_pos (zlen pre) segs) (le_bytes 8 (zlen pre + zlen (render (zlen pre) segs))) = pre ++ render (zlen pre) (segs ++ [s]).
Proof.
  revert pre. induction segs as [|s0 rest IH]; intros pre Hne; [done|]. destruct rest as [|s1 rest].
  - cbn [render last_pos app]. rewrite !app_nil_r, zlen_app, zlen_head_bytes. fold (seg_size s0).
    unfold head_bytes at 1 3. cbn [next_seg_pos seg_type enc_type]. rewrite <- !app_assoc.
    by rewrite overwrite_at by (done || by rewrite !length_le_bytes).
  - set (head := head_bytes (mk_head (zlen pre + seg_size s0) (sg_type s0) (sg_enc s0))).
    assert (forall l, render (zlen pre) (s0 :: s1 :: l) = head ++ sg_body s0 ++ render (zlen pre + seg_size s0) (s1 :: l)) as ER by done.
    change ((s0 :: s1 :: rest) ++ [s]) with (s0 :: s1 :: (rest ++ [s])). rewrite !ER. cbn [last_pos]. fold (last_pos (zlen pre + seg_size s0) (s1 :: rest)).
    assert (zlen (pre ++ head ++ sg_body s0) = zlen pre + seg_size s0) as Ep by (rewrite !zlen_app; unfold head; rewrite zlen_head_bytes; seg_lia).
    specialize (IH (pre ++ head ++ sg_body s0) ltac:(done)). rewrite Ep in IH.
    assert (forall l, pre ++ head ++ sg_body s0 ++ l = (pre ++ head ++ sg_body s0) ++ l) as EA by (intros; by rewrite <- !app_assoc).
    rewrite !EA. rewrite <- (app_assoc head), <- (app_assoc (sg_body s0)), EA.
    replace (zlen pre + zlen (head ++ sg_body s0 ++ render (zlen pre + seg_size s0) (s1 :: rest)))
      with (zlen pre + seg_size s0 + zlen (render (zlen pre + seg_size s0) (s1 :: rest))) by (rewrite !zlen_app in *; lia).
    exact IH.
Qed.
