(* ===== verification/BinaryAppend.v ===== *)
(** * Appending a segment refines appending to a list

    [append_new_segment] on the file of a list of segments gives the file of that list with
    one segment more, or, when a write comes up short, the file it was - unless it is the link
    in the last head that is written in part. *)
From stdpp Require Import base list option numbers.
From Stdlib Require Import ZArith Lia Bool.
From S2P Require Import Prelude Memory FileCache FileFlush FileCacheTheorems Binary BinaryFlush BinaryReader BinarySegments.
Import FileCache Binary.

#[local] Set Bullet Behavior "Strict Subproofs".

(** ** Writing at the end *)

(** [w] with the bytes [s] at the end of its file. *)
Definition extended (s : list Z) (io : list write_result) (w : write_cache) : write_cache := set_disk (disk_ w ++ s) io w.

Lemma write_file_ok (need : Z) (io : list write_result) :
  0 <= need -> exists n full, write_file need io = (n, full, tail io) /\ 0 <= n <= need /\ (io = [] -> n = need) /\
    (n <> need -> exists k f, head io = Some (W_short k f) /\ n = Z.max 0 (Z.min k need)).
Proof.
  intros Hn. destruct io as [|[|k f] io]; cbn; eexists _, _; split_and!; try done; lia || eauto.
Qed.

Lemma direct_write_end (data : list Z) (w : write_cache) :
  exists n, direct_write data None w = (n, extended (take (Z.to_nat n) data) (tail (io_ w)) w) /\ 0 <= n <= zlen data /\
    (io_ w = [] -> n = zlen data).
Proof.
  unfold direct_write. destruct (write_file_ok (zlen data) (io_ w) (zlen_nonneg data)) as (n & full & -> & Hn & Hio & _). by exists n.
Qed.

Lemma extended_twice (a b : list Z) (io1 io2 : list write_result) (w : write_cache) :
  extended b io2 (extended a io1 w) = extended (a ++ b) io2 w.
Proof. unfold extended, set_disk. cbn. by rewrite app_assoc. Qed.

Lemma direct_writes_ok (pieces : list (list Z)) (w : write_cache) :
  exists ok s io, direct_writes pieces w = (ok, extended s io w) /\
    (ok = true -> s = concat pieces /\ io = drop (length pieces) (io_ w)) /\ (io_ w = [] -> ok = true).
Proof.
  revert w. induction pieces as [|p pieces IH]; intros w.
  - eexists true, [], (io_ w). split; [|done]. cbn. unfold extended, set_disk. rewrite app_nil_r. by destruct w.
  - cbn [direct_writes]. destruct (direct_write_end p w) as (n & -> & Hn & Hio).
    destruct (Z.eqb_spec n (zlen p)) as [->|Hne].
    + destruct (IH (extended (take (Z.to_nat (zlen p)) p) (tail (io_ w)) w)) as (ok & s & io & -> & Hok & Hio2).
      exists ok, (take (Z.to_nat (zlen p)) p ++ s), io. rewrite extended_twice. split; [done|]. split.
      * intros E. destruct (Hok E) as [-> ->]. unfold zlen. rewrite Nat2Z.id, firstn_all. split; [done|].
        cbn [length io_ extended set_disk]. destruct (io_ w); [apply drop_nil|done].
      * intros E. apply Hio2. cbn. by rewrite E.
    + eexists false, _, _. split; [done|]. split; [done|]. intros E. by specialize (Hio E).
Qed.

Lemma truncate_extended (s : list Z) (io : list write_result) (w : write_cache) :
  truncate_file (zlen (disk_ w)) (extended s io w) = set_disk (disk_ w) io w.
Proof. unfold truncate_file, extended, set_disk. cbn. unfold zlen. by rewrite Nat2Z.id, take_app_length. Qed.

(** ** The refinement *)

(** The material for the keys of a segment, and what is written of it. *)
Definition new_keys (c : config) (rm : random_material) : option (option segment_keys) :=
  if enc_type_ c =? rsa_aes_xor then make_segment_keys (rsa_pub_key_ c) rm else Some (Some (mk_keys [] [] [] [])).

Definition key_pieces (c : config) (k : segment_keys) : list (list Z) :=
  if enc_type_ c =? rsa_aes_xor then [le_bytes 8 (rsa_key_fingerprint_ c); sk_key k; sk_iv k; sk_cipher_blob k] else [].

Definition new_segment (c : config) (type : Z) (k : segment_keys) : segment := mk_segment type (enc_type_ c) (concat (key_pieces c k)).

(** The write of the link, which follows those of the head and the keys, is not cut in two. *)
Definition link_whole (c : config) (k : segment_keys) (io : list write_result) : Prop :=
  match io !! S (length (key_pieces c k)) with Some (W_short n _) => n <= 0 \/ 8 <= n | _ => True end.

(** What stays of the cache when the file changes and the cache moves. *)
Definition same_pending (w w' : write_cache) : Prop :=
  cursor_ w' = cursor_ w /\ finished_ w' = finished_ w /\ allocated_ w' = allocated_ w /\ disk_full_drop_ w' = disk_full_drop_ w /\
  take (Z.to_nat (cursor_ w)) (buffer_ w') = take (Z.to_nat (cursor_ w)) (buffer_ w).

Lemma pending_set_disk (disk : list Z) (io : list write_result) (w w' : write_cache) :
  same_pending w w' -> same_pending w (set_disk disk io w').
Proof. by intros (? & ? & ? & ? & ?). Qed.

Lemma update_padding_both (fresh : Z) (c : config) (blob : list Z) (w : write_cache) :
  is_byte fresh -> cache_ok w -> (enc_type_ c = rsa_aes_xor -> zlen blob = get_xor_key_blob_size) ->
  exists w', update_write_cache_padding fresh (enc_type_ c) blob w = Some w' /\ cache_ok w' /\ same_pending w w' /\ disk_ w' = disk_ w /\
    io_ w' = io_ w /\ (enc_type_ c = rsa_aes_xor -> aligned w').
Proof.
  intros Hfr Hok Hb. pose proof Hok as [Hf Hc Hh Hp Ht _]. destruct (Z.eqb_spec (enc_type_ c) rsa_aes_xor) as [E|E].
  - rewrite E. destruct (update_padding_ok fresh blob w Hfr (Hb E) Hok) as (q & b & -> & Hq & Hal & Hbb & Hbl & Hbt).
    eexists. split; [done|]. split; [split; cbn; (done || lia)|]. by split_and!.
  - unfold update_write_cache_padding. rewrite (proj2 (Z.eqb_neq _ _) E). cbn [negb orb].
    destruct (set_padding_ok fresh 0 w Hfr Hok ltac:(lia)) as (b & -> & Hbb & Hbl & Hbt).
    eexists. split; [done|]. split; [split; cbn; (done || lia)|]. by split_and!.
Qed.

(** The file [d] with the first [n] bytes of its own length over the link of its last segment:
    what a write of the link that comes up short leaves. *)
Definition torn (t : segment_topology_info) (n : nat) (d : list Z) : list Z :=
  overwrite d (last_segment_start_pos t) (take n (le_bytes 8 (zlen d))).

Lemma torn_whole (t : segment_topology_info) (d : list Z) : torn t 0 d = d.
Proof. unfold torn, overwrite. cbn [take app length]. rewrite Nat.add_0_r. apply take_drop. Qed.

Lemma overwrite_before (a x s : list Z) (pos : Z) :
  0 <= pos -> pos + zlen s <= zlen a -> overwrite (a ++ x) pos s = overwrite a pos s ++ x.
Proof.
  intros Hp Hl. unfold overwrite, zlen in *. rewrite take_app_le, drop_app_le by lia. by rewrite <- !app_assoc.
Qed.

(** The last head lies inside the file. *)
Lemma last_pos_inside (segs : list segment) (pos : Z) :
  0 <= pos -> segs <> [] -> 0 <= last_pos pos segs /\ last_pos pos segs + segment_head_size <= pos + zlen (render pos segs).
Proof.
  revert pos. induction segs as [|s0 rest IH]; intros pos Hp Hne; [done|]. pose proof (seg_size_pos s0) as Hs.
  cbn [render]. rewrite !zlen_app, zlen_head_bytes. pose proof (zlen_nonneg (render (pos + seg_size s0) rest)).
  destruct rest as [|s1 rest]; [cbn [last_pos]; pose proof (zlen_nonneg (sg_body s0)); lia|].
  change (last_pos pos (s0 :: s1 :: rest)) with (last_pos (pos + seg_size s0) (s1 :: rest)). unfold segment_head_size in *.
  destruct (IH (pos + seg_size s0)) as [H1 H2]; [lia|done|]. unfold seg_size, segment_head_size in *. lia.
Qed.

Lemma length_torn (t : segment_topology_info) (n : nat) (version format : Z) (segs : list segment) :
  topology segs = Some t -> segs <> [] -> (n < 8)%nat -> length (torn t n (file_of version format segs)) = length (file_of version format segs).
Proof.
  intros Ht Hne Hn. pose proof (topology_last_pos _ _ _ _ Ht Hne) as Epos. unfold torn. rewrite Epos.
  destruct (last_pos_inside segs file_header_size ltac:(done) Hne) as [H1 H2].
  assert (last_pos file_header_size segs + 12 <= zlen (file_of version format segs)) as Hl.
  { unfold file_of. rewrite zlen_app, zlen_header_bytes. unfold segment_head_size in H2. lia. }
  unfold overwrite. rewrite !length_app, length_drop, !length_take, length_le_bytes. unfold zlen in Hl. lia.
Qed.


(** What the linking of the last segment does to a file that has a new one at its end. *)
Lemma link_step (version format : Z) (segs : list segment) (s : segment) (t : segment_topology_info) (w : write_cache) :
  let x := head_bytes (mk_head UINT64_MAX (sg_type s) (sg_enc s)) ++ sg_body s in
  disk_ w = file_of version format segs ++ x ->
  topology segs = Some t ->
  exists linked w1 n,
    (if has_segment t
     then let '(n, w) := direct_write (le_bytes 8 (zlen (file_of version format segs))) (Some (last_segment_start_pos t)) w in (n =? 8, w)
     else (true, w)) = (linked, w1) /\ (io_ w = [] -> linked = true /\ io_ w1 = []) /\ (n < 8)%nat /\
    (match head (io_ w) with Some (W_short n _) => n <= 0 \/ 8 <= n | _ => True end -> n = 0%nat) /\ (segs = [] -> n = 0%nat) /\
    exists io, w1 = set_disk (if (linked : bool) then file_of version format (segs ++ [s]) else torn t n (file_of version format segs) ++ x) io w.
Proof.
  intros x Ed Ht. pose proof (zlen_header_bytes (mk_header version format)) as Hh.
  destruct segs as [|s0 rest].
  { injection Ht as <-. cbn [has_segment no_topology]. eexists true, w, 0%nat. split; [done|]. split; [done|]. split; [lia|]. split; [done|]. split; [done|]. exists (io_ w).
    replace (file_of version format ([] ++ [s])) with (disk_ w); [by destruct w|]. rewrite Ed. unfold x, file_of. cbn. by rewrite !app_nil_r. }
  rewrite (topology_last _ _ _ _ Ht) by done. pose proof (topology_last_pos _ _ _ _ Ht ltac:(done)) as Epos. rewrite Epos. unfold direct_write.
  destruct (write_file_ok (zlen (le_bytes 8 (zlen (file_of version format (s0 :: rest))))) (io_ w) (zlen_nonneg _)) as (n & full & -> & Hn & Hio & Hshort).
  change (zlen (le_bytes 8 _)) with 8 in *. destruct (Z.eqb_spec n 8) as [->|Hne].
  - eexists true, _, 0%nat. split; [done|]. split; [intros E; by rewrite E|]. split; [lia|]. split; [done|]. split; [done|]. eexists. f_equal. rewrite Ed.
    rewrite (firstn_all2 (le_bytes 8 _)) by (rewrite length_le_bytes; done). unfold file_of.
    rewrite <- app_assoc, <- Hh. rewrite zlen_app. apply render_snoc. done.
  - eexists false, _, (Z.to_nat n). split; [done|]. split; [intros E; by apply Hio in E|]. split; [lia|]. split.
    + destruct (Hshort Hne) as (k & f & E & ->). rewrite E. lia.
    + split; [done|]. exists (tail (io_ w)). f_equal. rewrite Ed. destruct (last_pos_inside (s0 :: rest) file_header_size ltac:(done) ltac:(done)) as [H1 H2].
      unfold torn. rewrite Epos. apply overwrite_before; [done|]. unfold file_of at 2. rewrite zlen_app, Hh.
      unfold segment_head_size in H2. rewrite zlen_take by (change (zlen (le_bytes 8 _)) with 8; lia). lia.
Qed.

Lemma head_drop {A} (n : nat) (l : list A) : head (drop n l) = l !! n.
Proof. revert l. induction n as [|n IH]; intros [|x l]; try done. cbn. apply IH. Qed.

Lemma append_new_segment_run (fresh : Z) (c : config) (type : Z) (rm : random_material) (b : binary)
    (segs : list segment) (t : segment_topology_info) (k : segment_keys) :
  is_byte fresh -> cache_ok (wc_ b) -> in_range 32 (get_binary_format_version c) ->
  disk_ (wc_ b) = file_of (get_binary_format_version c) (get_appender_format c) segs -> zlen (disk_ (wc_ b)) < 2 ^ 31 ->
  Forall seg_ok segs -> topology segs = Some t -> segs <> [] \/ current_file_is_new_created_ b = true ->
  (enc_type_ c = rsa_aes_xor -> has_encrypted_segment t = true -> rsa_key_fingerprint t = rsa_key_fingerprint_ c) ->
  new_keys c rm = Some (Some k) -> (enc_type_ c = rsa_aes_xor -> zlen (sk_blob k) = get_xor_key_blob_size) ->
  exists ok b' n, append_new_segment fresh c type rm b = Some (ok, b') /\ (n < 8)%nat /\ (link_whole c k (io_ (wc_ b)) -> n = 0%nat) /\
    disk_ (wc_ b') = (if (ok : bool) then file_of (get_binary_format_version c) (get_appender_format c) (segs ++ [new_segment c type k])
                      else torn t n (disk_ (wc_ b))) /\
    length (torn t n (disk_ (wc_ b))) = length (disk_ (wc_ b)) /\
    same_pending (wc_ b) (wc_ b') /\ (io_ (wc_ b) = [] -> ok = true /\ io_ (wc_ b') = []) /\
    (ok = true -> cache_ok (wc_ b') /\ xor_key_blob_ b' = sk_blob k /\ (enc_type_ c = rsa_aes_xor -> aligned (wc_ b'))).
Proof.
  intros Hfr Hok Hv Ed Hs Hsegs Ht Hnew Hfp Hk Hblob. set (w := wc_ b) in *. unfold append_new_segment. fold w.
  rewrite Ed in Hs |- *.
  destruct (scan_segments (get_binary_format_version c) (get_appender_format c) segs t (clear_read_cache (rc_ (rd_ b))) Hv Hsegs Hs Ht) as (rc & ->).
  cbn [mbind option_bind]. set (b1 := set_rd _ b). change (wc_ b1) with w. change (current_file_is_new_created_ b1) with (current_file_is_new_created_ b).
  assert (negb (has_segment t) && negb (current_file_is_new_created_ b) = false) as ->.
  { destruct Hnew as [Hne| ->]; [rewrite (topology_last _ _ _ _ Ht Hne)|rewrite andb_false_r]; done. }
  cbn [negb orb]. replace (_ && negb (rsa_key_fingerprint t =? rsa_key_fingerprint_ c)) with false.
  2: { symmetry. destruct (Z.eqb_spec (enc_type_ c) rsa_aes_xor) as [E|]; [|done]. destruct (has_encrypted_segment t) eqn:Eh; [|done].
       by rewrite (Hfp E eq_refl), Z.eqb_refl. }
  fold (new_keys c rm). rewrite Hk. cbn [mbind option_bind].
  destruct (direct_write_end (head_bytes (mk_head UINT64_MAX type (enc_type_ c))) w) as (n & -> & Hn & Hnio). rewrite zlen_head_bytes in *.
  destruct (Z.eqb_spec n segment_head_size) as [->|Hne]; cbn [negb].
  2: { eexists false, _, 0%nat. split; [done|]. rewrite truncate_extended, torn_whole. cbn [wc_ set_wc set_rd b1].
       split_and!; try done; [lia|]. intros E. by specialize (Hnio E). }
  change (take (Z.to_nat segment_head_size) (head_bytes ?h)) with (head_bytes h).
  assert (forall x, (if enc_type_ c =? rsa_aes_xor then direct_writes [le_bytes 8 (rsa_key_fingerprint_ c); sk_key k; sk_iv k; sk_cipher_blob k] x else (true, x)) =
    direct_writes (key_pieces c k) x) as EK by (intros x; unfold key_pieces; by destruct (enc_type_ c =? rsa_aes_xor)).
  rewrite EK. clear EK.
  destruct (direct_writes_ok (key_pieces c k) (extended (head_bytes (mk_head UINT64_MAX type (enc_type_ c))) (tail (io_ w)) w))
    as (written & s & io & -> & Hwr & Hwio). rewrite extended_twice.
  destruct written; cbn [negb].
  2: { eexists false, _, 0%nat. split; [done|]. rewrite truncate_extended, torn_whole. cbn [wc_ set_wc set_rd b1].
       split_and!; try done; [lia|]. intros E. by specialize (Hwio ltac:(cbn; by rewrite E)). }
  destruct (Hwr eq_refl) as [-> Eio]. clear Hwr Hwio. cbn [io_ extended set_disk] in Eio.
  set (seg := new_segment c type k). set (w2 := extended _ io w).
  destruct (link_step (get_binary_format_version c) (get_appender_format c) segs seg t w2) as (linked & w3 & n3 & E3 & Hl3 & Hn3 & Hw3 & Hz3 & io3 & Ew3).
  { unfold w2. cbn. by rewrite Ed. }
  { done. }
  assert (link_whole c k (io_ w) -> n3 = 0%nat) as Hlink.
  { intros Hlk. apply Hw3. unfold w2. cbn [io_ extended set_disk]. rewrite Eio, head_drop, lookup_tail. exact Hlk. }
  assert (length (torn t n3 (disk_ w)) = length (disk_ w)) as Hlen.
  { rewrite Ed. destruct segs as [|s0 rest]; [|by apply length_torn]. by rewrite (Hz3 eq_refl), torn_whole. }
  assert (io_ w = [] -> io_ w2 = []) as Hio2 by (intros E; unfold w2; cbn [io_ extended set_disk]; rewrite Eio, E; apply drop_nil).
  rewrite Ed, E3. clear E3. destruct linked; cbn [negb].
  - destruct (update_padding_both fresh c (sk_blob k) w3 Hfr) as (w4 & -> & Hok4 & Hp4 & Hd4 & Hi4 & Hal4); [by rewrite Ew3; destruct Hok|done|].
    cbn [mbind option_bind]. eexists true, _, n3. split; [done|]. cbn [wc_ set_blob set_wc xor_key_blob_]. rewrite Hd4, Hi4.
    split; [done|]. split; [done|]. split; [by rewrite Ew3|]. split; [by rewrite <- Ed|]. split; [by rewrite Ew3 in Hp4|]. split; [|done]. intros E. split; [done|]. by apply Hl3, Hio2.
  - eexists false, _, n3. split; [done|]. cbn [wc_ set_wc set_rd b1]. rewrite Ew3. unfold truncate_file. cbn [disk_ io_ set_disk w2 extended].
    rewrite <- Ed. split; [done|]. split; [done|]. split; [|split; [done|split; [done|split; [|done]]]].
    + unfold zlen. rewrite Nat2Z.id, <- Hlen. apply take_app_length.
    + intros E. by destruct (Hl3 (Hio2 E)).
Qed.

(** C12. [append_new_segment] refines appending to a list. Given the file of some segments whose
    encrypted ones, if any, are for the key of the appender, in any state of the read cache
    and with any bytes pending in the write cache, it returns, whatever the writes take. With
    success, the file is that of the same segments and the new one, with its key material, and
    the cache lies where the cipher needs it. Without, the file has the length it had, and
    is the one it was but for the link in its last head, of which a write that is cut in two
    leaves up to seven bytes; when the link is not written in part, it is the one it was. It
    succeeds when all writes are complete. The pending bytes are kept. *)
Theorem append_new_segment_refines (fresh : Z) (c : config) (type : Z) (rm : random_material) (b : binary)
    (segs : list segment) (t : segment_topology_info) (k : segment_keys) :
  is_byte fresh -> cache_ok (wc_ b) -> in_range 32 (get_binary_format_version c) ->
  disk_ (wc_ b) = file_of (get_binary_format_version c) (get_appender_format c) segs -> zlen (disk_ (wc_ b)) < 2 ^ 31 ->
  Forall seg_ok segs -> topology segs = Some t -> segs <> [] \/ current_file_is_new_created_ b = true ->
  (enc_type_ c = rsa_aes_xor -> has_encrypted_segment t = true -> rsa_key_fingerprint t = rsa_key_fingerprint_ c) ->
  new_keys c rm = Some (Some k) -> (enc_type_ c = rsa_aes_xor -> zlen (sk_blob k) = get_xor_key_blob_size) ->
  exists ok b', append_new_segment fresh c type rm b = Some (ok, b') /\
    (ok = true -> disk_ (wc_ b') = file_of (get_binary_format_version c) (get_appender_format c) (segs ++ [new_segment c type k]) /\
       cache_ok (wc_ b') /\ xor_key_blob_ b' = sk_blob k /\ (enc_type_ c = rsa_aes_xor -> aligned (wc_ b'))) /\
    (ok = false -> exists n, (n < 8)%nat /\ disk_ (wc_ b') = torn t n (disk_ (wc_ b)) /\ length (disk_ (wc_ b')) = length (disk_ (wc_ b)) /\
       (link_whole c k (io_ (wc_ b)) -> disk_ (wc_ b') = disk_ (wc_ b))) /\
    same_pending (wc_ b) (wc_ b') /\ (io_ (wc_ b) = [] -> ok = true).
Proof.
  intros Hfr Hok Hv Ed Hs Hsegs Ht Hnew Hfp Hk Hblob.
  destruct (append_new_segment_run fresh c type rm b segs t k Hfr Hok Hv Ed Hs Hsegs Ht Hnew Hfp Hk Hblob)
    as (ok & b' & n & E & Hn & Hw & Hd & Hl & Hp & Hall & Hb).
  exists ok, b'. split; [done|]. split; [|split; [|split; [done|intros E0; by apply Hall]]].
  - intros ->. split; [done|]. by apply Hb.
  - intros ->. exists n. rewrite Hd. split_and!; try done. intros Hlk. by rewrite (Hw Hlk), torn_whole.
Qed.

(** A plain appender with a file of one segment. *)
Definition sample_config : config := mk_config plaintext (Rsa.mk_public_key [] []) 0 10 format_compressed.

Definition sample_segments : list segment := [mk_segment segment_normal plaintext [1; 2; 3]].

Definition sample_binary (io : list write_result) : binary :=
  mk_binary (mk_wc [9; 9; 9; 9; 9; 9; 9; 9] 2 1 32 0 65536 false false (file_of 10 format_compressed sample_segments) io)
    (mk_reader (mk_rc [] 0 0 false 0) 8 20 plaintext) false [].

Definition no_material : random_material := mk_random [] 0 [] [].

Lemma sample_cache_ok (io : list write_result) : cache_ok (wc_ (sample_binary io)).
Proof. split; unfold zlen, CACHE_WRITE_MIN_SIZE; cbn; try lia. by apply bytes_ok_dec. Qed.

Lemma append_new_segment_refines_witness :
  exists b', append_new_segment 0 sample_config recovery_by_log_buffer no_material (sample_binary []) = Some (true, b') /\
    disk_ (wc_ b') = file_of 10 format_compressed (sample_segments ++ [mk_segment recovery_by_log_buffer plaintext []]).
Proof.
  destruct (append_new_segment_refines 0 sample_config recovery_by_log_buffer no_material (sample_binary []) sample_segments
      (mk_topology true true false 0 8) (mk_keys [] [] [] [])) as (ok & b' & E & Hd & _ & _ & Hok).
  - exact zero_byte.
  - apply sample_cache_ok.
  - unfold in_range. cbn. lia.
  - reflexivity.
  - vm_compute. reflexivity.
  - repeat constructor; left; reflexivity.
  - reflexivity.
  - left. discriminate.
  - discriminate.
  - reflexivity.
  - discriminate.
  - exists b'. rewrite (Hok eq_refl) in *. split; [exact E|exact (proj1 (Hd eq_refl))].
Defined.

(** When the link is written in part, the file is cut back but the last head keeps the bytes. *)
Lemma link_torn :
  exists b', append_new_segment 0 sample_config segment_normal no_material (sample_binary [W_all; W_short 1 true]) = Some (false, b') /\
    disk_ (wc_ b') <> disk_ (wc_ (sample_binary [])) /\ length (disk_ (wc_ b')) = length (disk_ (wc_ (sample_binary []))) /\
    exists t c, scan_segment_topology (disk_ (wc_ b')) 10 format_compressed (mk_rc [] 0 0 false 0) = Some (false, t, c).
Proof.
  eexists. split; [vm_compute; reflexivity|]. split; [discriminate|]. split; [reflexivity|]. eexists _, _. vm_compute. reflexivity.
Qed.
