(* ===== verification/BinaryOpen.v ===== *)
(** * Opening a file, and recognising it later

    [on_file_open] writes the header, the first segment and, through the cache, the head of
    the payload: the time zone and the categories. [parse_exist_head] accepts a plain file
    that begins like this, and what is read from there is what follows. *)
From stdpp Require Import base list option numbers.
From Stdlib Require Import ZArith Lia Bool.
From S2P Require Import Prelude Memory FileCache FileFlush FileCacheTheorems Binary BinaryFlush BinaryReader BinarySegments BinaryAppend.
From S2P Require ArgSerialization TimeZone.
Import FileCache Binary.

#[local] Set Bullet Behavior "Strict Subproofs".

(** ** The flush of a plain appender *)

#[export] Instance plain_flush_laws (fresh : Z) (vb : Vernam.build) (key_base : Z) (blob : list Z) (Hfr : is_byte fresh) :
  FlushLaws (virtual_flush vb key_base plaintext blob) fresh.
Proof. exact (base_flush_laws fresh Hfr). Defined.

(** ** What is written *)

Definition category_bytes (name : list Z) : list Z := le_bytes 4 (zlen name) ++ name.

(** The head of the payload. *)
Definition payload_head (tz : TimeZone.TimeZone) (names : list (list Z)) (tail_bytes : list Z) : list Z :=
  metadata_bytes tz (zlen names) tail_bytes ++ concat (category_bytes <$> names).

Section Cache.
Context {F : Flush} {fresh : Z} {L : FlushLaws F fresh}.

Lemma write_bytes_ok (bytes : list Z) (w : write_cache) :
  quiet w -> bytes_ok bytes -> cursor_ w + zlen bytes < 2 ^ 61 ->
  exists w', write_bytes fresh bytes w = Some w' /\ quiet w' /\ stream w' = stream w ++ bytes /\ cursor_ w' <= cursor_ w + zlen bytes /\
    disk_ w `prefix_of` disk_ w'.
Proof.
  intros Q Hb Hc. pose proof (zlen_nonneg bytes) as Hz. unfold write_bytes.
  destruct (quiet_alloc (zlen bytes) w Q Hz Hc) as (old & w1 & -> & Hl & _ & Hret). cbn [mbind option_bind].
  rewrite store_Some by lia. cbn [mbind option_bind]. change (take (Z.to_nat 0) old) with (@nil Z). cbn [app].
  rewrite (skipn_all2 old) by (unfold zlen in *; lia). rewrite app_nil_r.
  destruct (Hret bytes (zlen bytes) Hb eq_refl ltac:(lia)) as (w2 & -> & Q2 & Hs & Hc2 & Hp). exists w2. split; [done|]. split; [done|].
  unfold zlen in Hs at 1. rewrite Nat2Z.id, firstn_all in Hs. done.
Qed.

Lemma write_categories_ok (names : list (list Z)) (w : write_cache) :
  quiet w -> Forall bytes_ok names -> cursor_ w + zlen (concat (category_bytes <$> names)) < 2 ^ 61 ->
  exists w', write_categories fresh names w = Some w' /\ quiet w' /\ stream w' = stream w ++ concat (category_bytes <$> names) /\
    cursor_ w' <= cursor_ w + zlen (concat (category_bytes <$> names)) /\ disk_ w `prefix_of` disk_ w'.
Proof.
  revert w. induction names as [|name names IH]; intros w Q Hb Hc; cbn [fmap list_fmap concat] in *.
  { exists w. cbn [write_categories]. rewrite app_nil_r. split_and!; (done || unfold zlen; cbn; lia). }
  apply Forall_cons_1 in Hb as [Hn Hb]. rewrite zlen_app in *. pose proof (zlen_nonneg (concat (category_bytes <$> names))).
  cbn [write_categories]. fold (category_bytes name).
  destruct (write_bytes_ok (category_bytes name) w Q) as (w1 & -> & Q1 & Hs1 & Hc1 & Hp1);
    [apply Forall_app; split; [apply le_bytes_ok|done]|lia|].
  cbn [mbind option_bind]. destruct (IH w1 Q1 Hb ltac:(lia)) as (w2 & -> & Q2 & Hs2 & Hc2 & Hp2).
  exists w2. split; [done|]. split; [done|]. rewrite Hs2, Hs1, app_assoc. split; [done|]. split; [lia|by etrans].
Qed.

(** The head of the payload, marked and flushed. *)
Lemma write_payload_head_ok (tz : TimeZone.TimeZone) (names : list (list Z)) (tail_bytes : list Z) (w : write_cache) :
  quiet w -> bytes_ok (payload_head tz names tail_bytes) -> Forall bytes_ok names -> cursor_ w + zlen (payload_head tz names tail_bytes) < 2 ^ 61 ->
  exists w', (w ← write_bytes fresh (metadata_bytes tz (zlen names) tail_bytes) w; w ← write_categories fresh names w;
      w ← mark_write_finished w; flush fresh w) = Some w' /\ quiet w' /\
    cursor_ w' = 0 /\ view (disk_ w') = stream w ++ payload_head tz names tail_bytes /\
    disk_ w `prefix_of` disk_ w'.
Proof.
  intros Q Hb Hn Hc. unfold payload_head in *. rewrite zlen_app in Hc. apply Forall_app in Hb as [Hb _].
  pose proof (zlen_nonneg (concat (category_bytes <$> names))).
  destruct (write_bytes_ok (metadata_bytes tz (zlen names) tail_bytes) w Q Hb) as (w1 & -> & Q1 & Hs1 & Hc1 & Hp1); [lia|]. cbn [mbind option_bind].
  destruct (write_categories_ok names w1 Q1 Hn) as (w2 & -> & Q2 & Hs2 & Hc2 & Hp2); [lia|]. cbn [mbind option_bind].
  destruct (quiet_mark w2 Q2) as (w3 & -> & Q3 & Hs3 & Hc3 & Hf3 & Hd3). cbn [mbind option_bind].
  destruct (quiet_flush w3 Q3) as (w4 & -> & Q4 & Hs4 & Hc4 & Hfin & Hp4); [lia|]. destruct (Hfin Hf3) as (Hc0 & Hv).
  exists w4. rewrite Hv, Hs3, Hs2, Hs1, <- app_assoc. split_and!; try done.
  etrans; [exact Hp1|]. etrans; [exact Hp2|]. by rewrite <- Hd3.
Qed.

End Cache.

(** ** Opening a new file *)

Lemma file_of_snoc_body (version format : Z) (s : segment) (bytes : list Z) :
  file_of version format [s] ++ bytes = file_of version format [mk_segment (sg_type s) (sg_enc s) (sg_body s ++ bytes)].
Proof. unfold file_of. cbn [render sg_type sg_enc sg_body]. by rewrite !app_nil_r, <- !app_assoc. Qed.

Lemma prefix_tail (d d' : list Z) : d `prefix_of` d' -> d' = d ++ drop (length d) d'.
Proof. intros [k ->]. by rewrite drop_app_length. Qed.

(** A state that a new file can be opened in: nothing is pending, and the writes that are done
    are complete. *)
Record fresh_file (w : write_cache) : Prop := {
  ff_ok : cache_ok w;
  ff_free : allocated_ w = false;
  ff_io : io_ w = [];
  ff_healthy : disk_full_drop_ w = false;
  ff_disk : disk_ w = [];
  ff_cursor : cursor_ w = 0 }.

Section Open.
Variables (fresh : Z) (vb : Vernam.build) (key_base : Z) (c : config) (tz : TimeZone.TimeZone) (names : list (list Z)).
Variables (tail_bytes : list Z) (rm : random_material) (k : segment_keys).
Hypothesis fresh_ok : is_byte fresh.
Hypothesis key_place : key_base mod 8 = 0.
Hypothesis version_ok : in_range 32 (get_binary_format_version c).
Hypothesis enc_ok : enc_type_ c = plaintext \/ enc_type_ c = rsa_aes_xor.
Hypothesis keys_ok : new_keys c rm = Some (Some k).
Hypothesis blob_ok : enc_type_ c = rsa_aes_xor -> zlen (sk_blob k) = get_xor_key_blob_size /\ bytes_ok (sk_blob k).
Hypothesis head_ok : bytes_ok (payload_head tz names tail_bytes).
Hypothesis names_ok : Forall bytes_ok names.
Hypothesis head_small : zlen (payload_head tz names tail_bytes) < 2 ^ 60.

Definition first_segment : segment := new_segment c segment_normal k.

(** Where the payload begins. *)
Definition payload_pos : Z := file_header_size + seg_size first_segment.

(** What the payload [p] is when it lies in the file. *)
Definition in_file (p : list Z) : list Z :=
  if enc_type_ c =? rsa_aes_xor then Vernam.xored (sk_blob k) payload_pos (length p) p else p.

Lemma file_first_size : zlen (file_of (get_binary_format_version c) (get_appender_format c) [first_segment]) = payload_pos.
Proof.
  unfold file_of, payload_pos, seg_size. cbn [render]. rewrite !zlen_app, zlen_head_bytes, zlen_header_bytes. change (zlen []) with 0. lia.
Qed.

Lemma flush_payload_ok (w : write_cache) :
  cache_ok w -> allocated_ w = false -> io_ w = [] -> disk_full_drop_ w = false -> cursor_ w = 0 -> (enc_type_ c = rsa_aes_xor -> aligned w) ->
  disk_ w = file_of (get_binary_format_version c) (get_appender_format c) [first_segment] ->
  exists w', (let flush := virtual_flush vb key_base (enc_type_ c) (sk_blob k) in
      w ← @write_bytes fresh flush (metadata_bytes tz (zlen names) tail_bytes) w; w ← @write_categories fresh flush names w;
      w ← mark_write_finished w; flush fresh w) = Some w' /\ cache_ok w' /\ io_ w' = [] /\ allocated_ w' = false /\
    (enc_type_ c = rsa_aes_xor -> aligned w') /\ cursor_ w' = 0 /\
    disk_ w' = file_of (get_binary_format_version c) (get_appender_format c)
                 [mk_segment segment_normal (enc_type_ c) (concat (key_pieces c k) ++ in_file (payload_head tz names tail_bytes))].
Proof.
  intros Hok Ha Hio Hd Hc Hal Hdisk. pose proof (file_first_size) as Hsz. rewrite <- Hdisk in Hsz.
  assert (forall p w', disk_ w `prefix_of` disk_ w' -> drop (length (disk_ w)) (disk_ w') = in_file p ->
    disk_ w' = file_of (get_binary_format_version c) (get_appender_format c) [mk_segment segment_normal (enc_type_ c) (concat (key_pieces c k) ++ in_file p)]) as HF.
  { intros p w' Hp E. rewrite (prefix_tail _ _ Hp), E, Hdisk, file_of_snoc_body. done. }
  destruct enc_ok as [E|E].
  - pose (L := plain_flush_laws fresh vb key_base (sk_blob k) fresh_ok). rewrite E in HF |- *.
    destruct (@write_payload_head_ok _ fresh L tz names tail_bytes w) as (w' & Hw & [Q1 Q2 Q3 Q4 Q5] & Hcur & Hv & Hp);
      [by split|done|done|lia|]. exists w'. split; [exact Hw|]. split_and!; try done. apply HF; [done|].
    unfold in_file. rewrite E. cbn [Z.eqb plaintext rsa_aes_xor Pos.eqb].
    change (disk_ w' = (disk_ w ++ take (Z.to_nat (cursor_ w)) (buffer_ w)) ++ payload_head tz names tail_bytes) in Hv.
    rewrite Hc in Hv. change (take (Z.to_nat 0) (buffer_ w)) with (@nil Z) in Hv. rewrite app_nil_r in Hv. by rewrite Hv, drop_app_length.
  - destruct (blob_ok E) as [Hbs Hbb]. assert (0 <= payload_pos) as Hp0 by (rewrite <- Hsz; apply zlen_nonneg).
    pose (L := binary_flush_laws fresh vb key_base (sk_blob k) payload_pos fresh_ok Hbb Hbs key_place Hp0). rewrite E in HF |- *.
    destruct (@write_payload_head_ok _ fresh L tz names tail_bytes w) as (w' & Hw & [Q1 Q2 Q3 Q4 Q5] & Hcur & Hv & Hp);
      [split; try done; split; [lia|by apply Hal]|done|done|lia|]. exists w'.
    split; [exact Hw|]. split; [done|]. split; [done|]. split; [done|]. split; [intros _; apply Q2|]. split; [done|]. apply HF; [done|].
    assert (Z.to_nat payload_pos = length (disk_ w)) as Hn by (rewrite <- Hsz; unfold zlen; lia).
    unfold in_file. rewrite E. cbn [Z.eqb rsa_aes_xor Pos.eqb].
    change (decrypted (sk_blob k) payload_pos (disk_ w') = (decrypted (sk_blob k) payload_pos (disk_ w) ++ take (Z.to_nat (cursor_ w)) (buffer_ w)) ++
      payload_head tz names tail_bytes) in Hv.
    rewrite Hc in Hv. change (take (Z.to_nat 0) (buffer_ w)) with (@nil Z) in Hv. rewrite app_nil_r in Hv. unfold decrypted in Hv.
    rewrite Hn, drop_all in Hv. change (Vernam.xored (sk_blob k) payload_pos (length []) [] ++ ?p) with p in Hv.
    rewrite <- Hv, Vernam.length_xored. by rewrite Vernam.xored_involutive.
Qed.

Lemma on_file_open_ok (b : binary) :
  fresh_file (wc_ b) ->
  exists b', on_file_open fresh vb key_base c tz names tail_bytes rm true b = Some (true, b') /\ cache_ok (wc_ b') /\
    io_ (wc_ b') = [] /\ allocated_ (wc_ b') = false /\ xor_key_blob_ b' = sk_blob k /\ (enc_type_ c = rsa_aes_xor -> aligned (wc_ b')) /\ cursor_ (wc_ b') = 0 /\
    disk_ (wc_ b') = file_of (get_binary_format_version c) (get_appender_format c)
      [mk_segment segment_normal (enc_type_ c) (concat (key_pieces c k) ++ in_file (payload_head tz names tail_bytes))].
Proof.
  intros [Hok Ha Hio Hd Hdisk Hc]. unfold on_file_open. cbn [negb]. rewrite andb_false_r. cbn [wc_ rd_ set_wc].
  set (version := get_binary_format_version c) in *. set (format := get_appender_format c) in *.
  destruct (direct_write_end (header_bytes (mk_header version format)) (wc_ b)) as (n & -> & _ & Hn). rewrite (Hn Hio), Hio.
  change (zlen (header_bytes _)) with file_header_size. rewrite Z.eqb_refl. cbn [negb].
  change (take (Z.to_nat file_header_size) (header_bytes ?h)) with (header_bytes h).
  match goal with |- context [append_new_segment _ _ _ _ ?x] => set (b1 := x) end.
  destruct (append_new_segment_run fresh c segment_normal rm b1 [] no_topology k fresh_ok)
    as (ok & b2 & n2 & -> & _ & _ & Hd2 & _ & (Hc2 & Hf2 & Ha2 & Hdr2 & _) & Hall & Hok2);
    [unfold b1; cbn; by destruct Hok|done|unfold b1; cbn; by rewrite Hdisk|unfold b1; cbn; by rewrite Hdisk|done|done|by right|done|done|apply blob_ok|].
  destruct (Hall eq_refl) as [-> Hio2]. destruct (Hok2 eq_refl) as (Hcok & Hblob & Hal). cbn [mbind option_bind negb]. rewrite Hblob.
  destruct (flush_payload_ok (wc_ b2)) as (w' & Hw & Hcok' & Hio' & Ha' & Hal' & Hcur' & Hdisk');
    [done|by rewrite Ha2|done|by rewrite Hdr2|by rewrite Hc2|done|done|].
  cbv zeta in Hw. apply bind_Some in Hw as (w3 & E3 & Hw). apply bind_Some in Hw as (w4 & E4 & Hw). apply bind_Some in Hw as (w5 & E5 & Hw).
  rewrite E3. cbn [mbind option_bind]. rewrite E4. cbn [mbind option_bind]. rewrite E5. cbn [mbind option_bind]. rewrite Hw. cbn [mbind option_bind].
  eexists. split; [done|]. cbn [wc_ set_wc xor_key_blob_]. by split_and!.
Qed.

End Open.

(** ** Recognising a file *)

(** A time zone that fits the fields of the file. *)
Record tz_fits (tz : TimeZone.TimeZone) : Prop := {
  tf_hours : - 2 ^ 31 <= TimeZone.gmt_offset_hours_ tz < 2 ^ 31;
  tf_minutes : - 2 ^ 31 <= TimeZone.gmt_offset_minutes_ tz < 2 ^ 31;
  tf_diff : - 2 ^ 31 <= TimeZone.time_zone_diff_to_gmt_ms_ tz < 2 ^ 31;
  tf_text : Forall (fun b => 0 < b < 256) (TimeZone.time_zone_str_ tz);
  tf_length : zlen (TimeZone.time_zone_str_ tz) < 32 }.

Lemma until_zero_text (text rest : list Z) :
  Forall (fun b => 0 < b < 256) text -> ArgSerialization.until_zero (text ++ 0 :: rest) = text /\ ArgSerialization.until_zero text = text.
Proof.
  induction 1 as [|b text Hb _ [IH1 IH2]]; [done|]. cbn. rewrite (proj2 (Z.eqb_neq b 0)) by lia. by rewrite IH1, IH2.
Qed.

Lemma i32_u32 (z : Z) : - 2 ^ 31 <= z < 2 ^ 31 -> i32 (u32 z) = z.
Proof. intros Hz. unfold to_signed, wrap. rewrite Z.mod_mod by lia. exact (to_signed_id 32 z ltac:(lia) Hz). Qed.

Section Recognise.
Variables (tz : TimeZone.TimeZone) (names : list (list Z)) (tail_bytes : list Z).
Hypothesis tz_ok : tz_fits tz.
Hypothesis tail_ok : zlen tail_bytes = 32.
Hypothesis count_ok : zlen names < 2 ^ 32.

(** The fields of the metadata, and the text with what lies behind its end. *)
Lemma metadata_layout :
  exists junk, metadata_bytes tz (zlen names) tail_bytes =
    [2; 2; 7] ++ [if TimeZone.use_local_time_ tz then 1 else 0] ++ le_bytes 4 (u32 (TimeZone.gmt_offset_hours_ tz)) ++
    le_bytes 4 (u32 (TimeZone.gmt_offset_minutes_ tz)) ++ le_bytes 4 (u32 (TimeZone.time_zone_diff_to_gmt_ms_ tz)) ++
    (TimeZone.time_zone_str_ tz ++ 0 :: junk) ++ le_bytes 4 (zlen names) /\
    zlen (TimeZone.time_zone_str_ tz ++ 0 :: junk) = 32.
Proof.
  destruct tz_ok as [_ _ _ Ht Hl]. exists (take (31 - length (TimeZone.time_zone_str_ tz)) tail_bytes). unfold metadata_bytes.
  destruct (until_zero_text _ [] Ht) as [_ ->]. unfold zlen in *. split.
  - assert (take 32 (take 31 (TimeZone.time_zone_str_ tz) ++ [0] ++ tail_bytes) =
      TimeZone.time_zone_str_ tz ++ 0 :: take (31 - length (TimeZone.time_zone_str_ tz)) tail_bytes) as ->; [|by rewrite <- !app_assoc].
    rewrite (take_ge (TimeZone.time_zone_str_ tz)) by lia.
    replace 32%nat with (length (TimeZone.time_zone_str_ tz) + S (31 - length (TimeZone.time_zone_str_ tz)))%nat by lia.
    by rewrite take_app_add.
  - rewrite length_app. cbn [length]. rewrite length_take. lia.
Qed.

Lemma metadata_size : zlen (metadata_bytes tz (zlen names) tail_bytes) = payload_metadata_size.
Proof.
  destruct metadata_layout as (junk & -> & Ht). set (text := TimeZone.time_zone_str_ tz ++ 0 :: junk) in *. rewrite !zlen_app, Ht. reflexivity.
Qed.

Lemma metadata_recognised :
  metadata_matches tz (metadata_bytes tz (zlen names) tail_bytes) = Some true /\
  load_le (metadata_bytes tz (zlen names) tail_bytes) 48 4 = Some (zlen names).
Proof.
  pose proof metadata_size as Hsz. unfold payload_metadata_size in Hsz. destruct metadata_layout as (junk & E & Ht).
  set (d := metadata_bytes tz (zlen names) tail_bytes) in *. set (text := TimeZone.time_zone_str_ tz ++ 0 :: junk) in *.
  set (loc := if TimeZone.use_local_time_ tz then 1 else 0) in *.
  set (fh := le_bytes 4 (u32 (TimeZone.gmt_offset_hours_ tz))) in *. set (fm := le_bytes 4 (u32 (TimeZone.gmt_offset_minutes_ tz))) in *.
  set (fd := le_bytes 4 (u32 (TimeZone.time_zone_diff_to_gmt_ms_ tz))) in *. set (fc := le_bytes 4 (zlen names)) in *.
  assert (forall v, le_val (le_bytes 4 (u32 v)) = u32 v) as HV.
  { intros v. rewrite le_val_le_bytes. apply Z.mod_small. apply (wrap_range 32). lia. }
  assert (load_le d 3 1 = Some loc) as E1.
  { unfold load_le. rewrite (load_app_at d [2; 2; 7] [loc] (fh ++ fm ++ fd ++ text ++ fc) 3 1) by (exact E || reflexivity).
    cbn [fmap option_fmap option_map]. rewrite le_val_cons, le_val_nil. f_equal. lia. }
  assert (load_le d 4 4 = Some (u32 (TimeZone.gmt_offset_hours_ tz))) as E2.
  { unfold load_le. rewrite (load_app_at d ([2; 2; 7] ++ [loc]) fh (fm ++ fd ++ text ++ fc) 4 4) by first [rewrite E, <- ?app_assoc; reflexivity|reflexivity].
    cbn [fmap option_fmap option_map]. f_equal. apply HV. }
  assert (load_le d 8 4 = Some (u32 (TimeZone.gmt_offset_minutes_ tz))) as E3.
  { unfold load_le. rewrite (load_app_at d ([2; 2; 7] ++ [loc] ++ fh) fm (fd ++ text ++ fc) 8 4) by first [rewrite E, <- ?app_assoc; reflexivity|reflexivity].
    cbn [fmap option_fmap option_map]. f_equal. apply HV. }
  assert (load_le d 12 4 = Some (u32 (TimeZone.time_zone_diff_to_gmt_ms_ tz))) as E4.
  { unfold load_le. rewrite (load_app_at d ([2; 2; 7] ++ [loc] ++ fh ++ fm) fd (text ++ fc) 12 4) by first [rewrite E, <- ?app_assoc; reflexivity|reflexivity].
    cbn [fmap option_fmap option_map]. f_equal. apply HV. }
  assert (load d 16 (zlen d - 16) = Some (text ++ fc)) as E5.
  { apply (load_app_at d ([2; 2; 7] ++ [loc] ++ fh ++ fm ++ fd) (text ++ fc) []);
      [rewrite E, <- ?app_assoc, app_nil_r; reflexivity|reflexivity|rewrite Hsz, zlen_app, Ht; reflexivity]. }
  split.
  - unfold metadata_matches. rewrite E1, E2, E3, E4, E5. cbn [mbind option_bind].
    assert (existsb (Z.eqb 0) (text ++ fc) = true) as -> by (apply existsb_exists; exists 0; split; [unfold text; rewrite !in_app_iff; cbn; tauto|done]).
    cbn [negb]. destruct tz_ok as [Hh Hm Hd Hx Hl]. rewrite !i32_u32, !Z.eqb_refl by done.
    unfold text. rewrite <- app_assoc. cbn [app]. destruct (until_zero_text _ (junk ++ fc) Hx) as [-> _].
    rewrite bool_decide_true by done. unfold loc. by destruct (TimeZone.use_local_time_ tz).
  - unfold load_le. rewrite (load_app_at d ([2; 2; 7] ++ [loc] ++ fh ++ fm ++ fd ++ text) fc [] 48 4).
    + cbn [fmap option_fmap option_map]. unfold fc. rewrite le_val_le_bytes, Z.mod_small; [done|]. pose proof (zlen_nonneg names). lia.
    + rewrite E, <- ?app_assoc, app_nil_r. reflexivity.
    + rewrite !zlen_app, Ht. reflexivity.
    + reflexivity.
Qed.

End Recognise.

(** ** Reading the head *)

(** The categories are found; only behind an empty last one with nothing behind it does the
    reader go on to the segments that follow. *)
Lemma match_categories_ok (names : list (list Z)) (file pre q : list Z) (segs : list segment) (r : reader) :
  zlen file < 2 ^ 31 -> reads_on file pre (concat (category_bytes <$> names) ++ q) segs r ->
  exists r' pre' q' segs', match_categories plaintext file names r = Some (true, r') /\ reads_on file pre' q' segs' r' /\
    q' ++ payloads segs' = q ++ payloads segs /\
    (q <> [] \/ segs = [] -> pre' = pre ++ concat (category_bytes <$> names) /\ q' = q /\ segs' = segs /\ start_pos r' = start_pos r).
Proof.
  intros Hs. revert pre r. induction names as [|name names IH]; intros pre r R; cbn [fmap list_fmap concat] in *.
  { exists r, pre, q, segs. rewrite app_nil_r. by split_and!. }
  assert (zlen name < 2 ^ 32) as Hname.
  { rewrite (ro_file _ _ _ _ _ R) in Hs. unfold category_bytes in Hs at 1. rewrite !zlen_app in Hs. pose proof (zlen_nonneg pre).
    pose proof (zlen_nonneg (le_bytes 4 (zlen name))). pose proof (zlen_nonneg (concat (category_bytes <$> names))). pose proof (zlen_nonneg q).
    match type of Hs with context [zlen (render ?a ?b)] => pose proof (zlen_nonneg (render a b)) end. lia. }
  pose proof (zlen_nonneg name). unfold category_bytes in R at 1. rewrite <- !app_assoc in R. cbn [match_categories].
  destruct (read_piece file Hs (le_bytes 4 (zlen name)) _ _ _ _ R) as (r1 & pre1 & q1 & segs1 & E1 & R1 & _ & H1).
  destruct H1 as (-> & -> & -> & Hst1); [by left|].
  change (zlen (le_bytes 4 _)) with 4 in E1. rewrite E1. cbn [mbind option_bind]. change (zlen (le_bytes 4 _) <? 4) with false.
  unfold load_le at 1. rewrite (load_app_at _ [] (le_bytes 4 (zlen name)) []) by (rewrite ?app_nil_r; reflexivity).
  cbn [fmap option_fmap option_map mbind option_bind]. rewrite le_val_le_bytes, Z.mod_small, Z.eqb_refl by lia. cbn [negb].
  destruct (read_piece file Hs name _ _ _ _ R1) as (r2 & pre2 & q2 & segs2 & -> & R2 & Ep2 & H2).
  cbn [mbind option_bind]. rewrite Z.ltb_irrefl, bool_decide_true by done. cbn [negb].
  assert (forall l, pre ++ category_bytes name ++ l = ((pre ++ le_bytes 4 (zlen name)) ++ name) ++ l) as EA by (intros; unfold category_bytes; by rewrite <- !app_assoc).
  rewrite EA. destruct names as [|name2 names].
  - cbn [fmap list_fmap concat app] in *. exists r2, pre2, q2, segs2. split; [done|]. split; [done|]. split; [done|].
    intros Hq. rewrite app_nil_r, <- Hst1. apply H2. destruct Hq as [Hq| ->]; [left|by right]. by intros [_ ->]%app_nil.
  - destruct H2 as (-> & -> & -> & Hst2); [left; by destruct name|]. rewrite <- Hst1, <- Hst2. by apply IH.
Qed.

Lemma topology_plain (pos : Z) (segs : list segment) (t : segment_topology_info) :
  Forall (fun s => sg_enc s = plaintext) segs ->
  exists t', topology_from pos t segs = Some t' /\ all_segments_are_plaintext t' = all_segments_are_plaintext t /\
    has_segment t' = has_segment t || negb (bool_decide (segs = [])).
Proof.
  intros H. revert pos t. induction H as [|s segs Hs _ IH]; intros pos t.
  { exists t. split; [done|]. by rewrite orb_false_r. }
  cbn [topology_from]. unfold topology_step at 1. rewrite Hs. cbn [Z.eqb plaintext rsa_aes_xor Pos.eqb mbind option_bind].
  destruct (IH (pos + seg_size s) (mk_topology true (all_segments_are_plaintext t) (has_encrypted_segment t) (rsa_key_fingerprint t) pos))
    as (t' & -> & Ha & Hh). exists t'. split; [done|]. split; [done|]. rewrite Hh. cbn. by rewrite orb_true_r.
Qed.

(** A name takes at least four bytes of the head. *)
Lemma names_count (names : list (list Z)) : zlen names <= zlen (concat (category_bytes <$> names)).
Proof.
  induction names as [|n l IH]; [done|]. cbn [fmap list_fmap concat]. rewrite zlen_cons, zlen_app. unfold category_bytes at 1.
  rewrite zlen_app. change (zlen (le_bytes 4 _)) with 4. pose proof (zlen_nonneg n). lia.
Qed.

(** A plain file that begins with the head of a payload is recognised. *)
Lemma parse_exist_head_ok (version format : Z) (tz : TimeZone.TimeZone) (names : list (list Z)) (tail_bytes p : list Z)
    (type : Z) (rest : list segment) (r : reader) :
  let s := mk_segment type plaintext (payload_head tz names tail_bytes ++ p) in
  let file := file_of version format (s :: rest) in
  tz_fits tz -> zlen tail_bytes = 32 -> in_range 32 version -> zlen file < 2 ^ 31 -> Forall plain_seg (s :: rest) ->
  exists r' pre q segs, parse_exist_head plaintext file version format tz names r = Some (true, r') /\ reads_on file pre q segs r' /\
    q ++ payloads segs = p ++ payloads rest /\
    (p <> [] \/ rest = [] -> zlen pre = file_header_size + segment_head_size + zlen (payload_head tz names tail_bytes) /\
       q = p /\ segs = rest /\ start_pos r' = file_header_size).
Proof.
  intros s file Htz Htail Hv Hs Hpl.
  assert (Forall seg_ok (s :: rest) /\ Forall (fun s => sg_enc s = plaintext) (s :: rest)) as [Hok Hpl2].
  { split; (eapply Forall_impl; [|exact Hpl]); by intros x []. }
  destruct (topology_plain file_header_size (s :: rest) no_topology Hpl2) as (t & Et & Ha & Hh). cbn [no_topology all_segments_are_plaintext has_segment] in Ha, Hh.
  unfold parse_exist_head. change (negb (plaintext =? plaintext)) with false. cbv iota.
  destruct (scan_segments version format (s :: rest) t (rc_ r) Hv Hok Hs Et) as (c0 & E0). fold file in E0. rewrite E0. cbn [mbind option_bind].
  rewrite Hh, Ha. cbn [andb orb negb bool_decide]. rewrite bool_decide_false by done. cbn [negb andb].
  destruct (read_at file [] (header_bytes (mk_header version format)) _ (rc_ (set_rc c0 r)) eq_refl Hs) as (c1 & c2 & E1 & E2 & _).
  change (zlen []) with 0 in E1. rewrite E1. cbn [snd]. rewrite zlen_header_bytes in E2. rewrite E2, zlen_header_bytes, Z.ltb_irrefl.
  rewrite <- (app_nil_r (header_bytes (mk_header version format))), load_header_bytes by done. cbn [mbind option_bind hd_version hd_format]. rewrite !Z.eqb_refl. cbn [negb orb].
  set (hdr := header_bytes (mk_header version format)) in *. assert (zlen hdr = file_header_size) as Hhdr by apply zlen_header_bytes.
  destruct (next_segment_read file Hs hdr s rest (set_end file_header_size (set_rc c2 (set_rc c0 r)))) as (r1 & head & E3 & Hhz & R1 & Es1 & Ee1);
    [by rewrite Hhdr|done|by rewrite Hhdr|].
  rewrite E3. cbn [mbind option_bind negb orb]. rewrite Ee1. change (plaintext =? plaintext) with true. cbn [negb].
  change (sg_body s) with ((metadata_bytes tz (zlen names) tail_bytes ++ concat (category_bytes <$> names)) ++ p) in R1. rewrite <- app_assoc in R1.
  assert (zlen names < 2 ^ 32) as Hcount.
  { pose proof (names_count names) as Hle. rewrite (ro_file _ _ _ _ _ R1), !zlen_app in Hs. pose proof (zlen_nonneg (metadata_bytes tz (zlen names) tail_bytes)).
    pose proof (zlen_nonneg p). match type of Hs with context [zlen (render ?a ?b)] => pose proof (zlen_nonneg (render a b)) end. unfold file_header_size, segment_head_size in *. lia. }
  pose proof (metadata_size tz names tail_bytes Htz Htail) as Hms. unfold payload_metadata_size in *.
  destruct (read_piece file Hs _ _ _ _ _ R1) as (r2 & pre2 & q2 & segs2 & E4 & R2 & _ & H2). rewrite Hms in E4.
  destruct H2 as (-> & -> & -> & Es2); [left; intros [E _]%app_nil; rewrite E in Hms; discriminate|].
  rewrite E4. cbn [mbind option_bind]. rewrite Hms. change (52 <? 52) with false.
  destruct (metadata_recognised tz names tail_bytes Htz Htail Hcount) as [-> ->]. cbn [mbind option_bind negb orb]. rewrite Z.eqb_refl. cbn [negb].
  destruct (match_categories_ok names file _ _ _ r2 Hs R2) as (r3 & pre3 & q3 & segs3 & -> & R3 & Ep3 & H3).
  exists r3, pre3, q3, segs3. split; [done|]. split; [done|]. split; [done|].
  intros Hp. destruct (H3 Hp) as (-> & -> & -> & Es3). split; [|split; [done|split; [done|congruence]]].
  unfold payload_head. rewrite !zlen_app, Hhdr, Hhz. lia.
Qed.

(** ** The properties *)

(** What a new file is opened with. *)
Record open_args (fresh key_base : Z) (c : config) (names : list (list Z)) (rm : random_material) (k : segment_keys) : Prop := {
  oa_fresh : is_byte fresh;
  oa_key_place : key_base mod 8 = 0;
  oa_version : in_range 32 (get_binary_format_version c);
  oa_enc : enc_type_ c = plaintext \/ enc_type_ c = rsa_aes_xor;
  oa_keys : new_keys c rm = Some (Some k);
  oa_blob : enc_type_ c = rsa_aes_xor -> zlen (sk_blob k) = get_xor_key_blob_size /\ bytes_ok (sk_blob k);
  oa_names : Forall bytes_ok names }.

Lemma run_encrypted (vb : Vernam.build) (key_base fresh : Z) (c : config) (k : segment_keys) (ops : list cache_op) (w : write_cache) (P : list Z) :
  is_byte fresh -> key_base mod 8 = 0 -> enc_type_ c = plaintext \/ enc_type_ c = rsa_aes_xor ->
  (enc_type_ c = rsa_aes_xor -> zlen (sk_blob k) = get_xor_key_blob_size /\ bytes_ok (sk_blob k)) ->
  cache_ok w -> io_ w = [] -> allocated_ w = false -> (enc_type_ c = rsa_aes_xor -> aligned w) -> cursor_ w = 0 ->
  Forall fits ops -> total_size ops < 2 ^ 61 ->
  disk_ w = file_of (get_binary_format_version c) (get_appender_format c) [mk_segment segment_normal (enc_type_ c) (concat (key_pieces c k) ++ in_file c k P)] ->
  exists w', @run (virtual_flush vb key_base (enc_type_ c) (sk_blob k)) fresh (ops ++ [Mark; Drain]) w = Some w' /\
    disk_ w' = file_of (get_binary_format_version c) (get_appender_format c)
      [mk_segment segment_normal (enc_type_ c) (concat (key_pieces c k) ++ in_file c k (P ++ (ops ≫= put_bytes)))].
Proof.
  intros Hfr Hkb Henc Hblob Hok Hio Ha Hal Hcur Hfit Hsz Hdisk. rewrite run_app.
  assert (forall q, file_of (get_binary_format_version c) (get_appender_format c) [mk_segment segment_normal (enc_type_ c) (concat (key_pieces c k) ++ q)] =
    file_of (get_binary_format_version c) (get_appender_format c) [first_segment c k] ++ q) as HF by (intros q; by rewrite file_of_snoc_body).
  rewrite HF in Hdisk |- *. pose proof (file_first_size c k) as Hp. set (base := file_of _ _ [first_segment c k]) in *.
  unfold in_file in *. destruct Henc as [E|E]; rewrite E in *; cbn [Z.eqb plaintext rsa_aes_xor Pos.eqb] in *.
  - pose (L := plain_flush_laws fresh vb key_base (sk_blob k) Hfr).
    destruct (@run_stream _ fresh L ops false w Hok I Ha) as (w1 & -> & Hok1 & K1 & Hs1 & _ & Ha1 & Hio1 & Hc1); [left; by rewrite Hio|done|lia|].
    cbn [mbind option_bind]. destruct (@drain_all _ fresh L w1 Hok1 K1 Ha1 (Hio1 Hio)) as (w2 & -> & Hv & _); [lia|].
    exists w2. split; [done|]. change (disk_ w2 = @stream _ fresh L w1) in Hv. rewrite Hv, Hs1.
    change (@stream _ fresh L w) with (disk_ w ++ take (Z.to_nat (cursor_ w)) (buffer_ w)). rewrite Hcur.
    change (take (Z.to_nat 0) (buffer_ w)) with (@nil Z). by rewrite app_nil_r, Hdisk, app_assoc.
  - destruct (Hblob eq_refl) as [Hbs Hbb]. assert (0 <= payload_pos c k) as Hp0 by (rewrite <- Hp; apply zlen_nonneg).
    pose (L := binary_flush_laws fresh vb key_base (sk_blob k) (payload_pos c k) Hfr Hbb Hbs Hkb Hp0).
    assert (@kept _ fresh L w) as K by (split; [rewrite Hdisk, zlen_app; pose proof (zlen_nonneg (Vernam.xored (sk_blob k) (payload_pos c k) (length P) P)); lia|by apply Hal]).
    destruct (@run_stream _ fresh L ops false w Hok K Ha) as (w1 & -> & Hok1 & K1 & Hs1 & Hp1 & Ha1 & Hio1 & Hc1); [left; by rewrite Hio|done|lia|].
    cbn [mbind option_bind]. destruct (@drain_all _ fresh L w1 Hok1 K1 Ha1 (Hio1 Hio)) as (w2 & -> & Hv & Hp2); [lia|].
    exists w2. split; [done|].
    assert (disk_ w2 = base ++ drop (length base) (disk_ w2)) as Hpre by (apply prefix_tail; etrans; [|exact Hp2]; etrans; [|exact Hp1]; rewrite Hdisk; by apply prefix_app_r).
    rewrite Hpre. f_equal. assert (Z.to_nat (payload_pos c k) = length base) as Hn by (rewrite <- Hp; unfold zlen; lia).
    change (decrypted (sk_blob k) (payload_pos c k) (disk_ w2) = @stream _ fresh L w1) in Hv. rewrite Hs1 in Hv.
    change (@stream _ fresh L w) with (decrypted (sk_blob k) (payload_pos c k) (disk_ w) ++ take (Z.to_nat (cursor_ w)) (buffer_ w)) in Hv.
    rewrite Hcur in Hv. change (take (Z.to_nat 0) (buffer_ w)) with (@nil Z) in Hv. rewrite app_nil_r in Hv. unfold decrypted in Hv.
    rewrite Hn, Hdisk, drop_app_length, Vernam.length_xored, Vernam.xored_involutive in Hv.
    rewrite <- Hv, Vernam.length_xored. by rewrite Vernam.xored_involutive.
Qed.

(** C15. What is put into the cache of a new file is, once it is marked and flushed, the payload of
    the file behind the head with the time zone and the categories - as it is in the file of a
    plain appender, and under the key stream of the segment, from the position of the payload
    on, in that of an encrypted one: opening does not fail, no assertion fails whatever the
    pieces, and every call of the cipher meets its contract. *)
Theorem opened_file_holds (fresh : Z) (vb : Vernam.build) (key_base : Z) (c : config) (tz : TimeZone.TimeZone)
    (names : list (list Z)) (tail_bytes : list Z) (rm : random_material) (k : segment_keys) (ops : list cache_op) (b : binary) :
  open_args fresh key_base c names rm k -> bytes_ok (payload_head tz names tail_bytes) -> zlen (payload_head tz names tail_bytes) < 2 ^ 60 ->
  fresh_file (wc_ b) -> Forall fits ops -> total_size ops < 2 ^ 61 ->
  exists b' w', on_file_open fresh vb key_base c tz names tail_bytes rm true b = Some (true, b') /\
    @run (virtual_flush vb key_base (enc_type_ c) (xor_key_blob_ b')) fresh (ops ++ [Mark; Drain]) (wc_ b') = Some w' /\
    disk_ w' = file_of (get_binary_format_version c) (get_appender_format c)
      [mk_segment segment_normal (enc_type_ c)
         (concat (key_pieces c k) ++ in_file c k (payload_head tz names tail_bytes ++ (ops ≫= put_bytes)))].
Proof.
  intros [Hfr Hkb Hv He Hk Hbl Hn] Hph Hpz Hff Hfit Hsz.
  destruct (on_file_open_ok fresh vb key_base c tz names tail_bytes rm k Hfr Hkb Hv He Hk Hbl Hph Hn Hpz b Hff)
    as (b' & Eo & Hok & Hio & Ha & Hblob & Hal & Hc & Hd).
  destruct (run_encrypted vb key_base fresh c k ops (wc_ b') (payload_head tz names tail_bytes)) as (w' & Er & Ed); try done.
  exists b', w'. split; [done|]. rewrite Hblob. done.
Qed.

(** Coordinated universal time. *)
Definition sample_zone : TimeZone.TimeZone := TimeZone.mk_tz false 0 0 0 [85; 84; 67] [] 0.

Definition sample_new : binary :=
  mk_binary (mk_wc [9; 9; 9; 9; 9; 9; 9; 9] 0 0 32 0 65536 false false [] []) (mk_reader (mk_rc [] 0 0 false 0) 0 0 plaintext) false [].

Lemma sample_args : open_args 0 0 sample_config [[77]; [78; 79]] no_material (mk_keys [] [] [] []).
Proof.
  split; [exact zero_byte|reflexivity|unfold in_range; cbn; lia|by left|reflexivity|discriminate|].
  repeat constructor; unfold in_range; lia.
Qed.

Lemma sample_fresh_file : fresh_file (wc_ sample_new).
Proof. split; try reflexivity. split; unfold zlen, CACHE_WRITE_MIN_SIZE; cbn; try lia. by apply bytes_ok_dec. Qed.

Lemma opened_file_holds_witness :
  exists b' w', on_file_open 0 (Vernam.mk_build false Vernam.x86 None true) 0 sample_config sample_zone [[77]; [78; 79]] (replicate 32 5) no_material true
      sample_new = Some (true, b') /\
    @run (virtual_flush (Vernam.mk_build false Vernam.x86 None true) 0 plaintext (xor_key_blob_ b')) 0 ([Put 9 [1; 2; 3]; Drain; Put 2 [4]] ++ [Mark; Drain])
      (wc_ b') = Some w' /\
    disk_ w' = file_of 10 format_compressed [mk_segment segment_normal plaintext (payload_head sample_zone [[77]; [78; 79]] (replicate 32 5) ++ [1; 2; 3; 4])].
Proof.
  apply (opened_file_holds 0 (Vernam.mk_build false Vernam.x86 None true) 0 sample_config sample_zone [[77]; [78; 79]] (replicate 32 5) no_material
    (mk_keys [] [] [] []) [Put 9 [1; 2; 3]; Drain; Put 2 [4]] sample_new).
  - exact sample_args.
  - apply bytes_ok_dec. reflexivity.
  - reflexivity.
  - exact sample_fresh_file.
  - repeat constructor; vm_compute; discriminate.
  - reflexivity.
Defined.

(** C30. A plain file is recognised by the appender that opens it again with the same version, time
    zone and categories: after [on_file_open], with any payload [p], none included, behind what
    it wrote and any plain segments behind that, [parse_exist_head] succeeds whatever the
    reader did before. From there, reads give [p] and the payloads of the segments behind it
    and nothing else, in order and to the end when there are enough of them. The reader stays
    at the beginning of [p] in the first segment, unless [p] is empty and there are more
    segments: an empty last category then takes it on to them. *)
Theorem file_recognised (fresh : Z) (vb : Vernam.build) (key_base : Z) (c : config) (tz : TimeZone.TimeZone)
    (names : list (list Z)) (tail_bytes : list Z) (rm : random_material) (k : segment_keys) (b : binary) (p : list Z)
    (rest : list segment) (r : reader) :
  open_args fresh key_base c names rm k -> bytes_ok (payload_head tz names tail_bytes) -> fresh_file (wc_ b) ->
  enc_type_ c = plaintext -> tz_fits tz -> zlen tail_bytes = 32 -> Forall plain_seg rest ->
  zlen (file_of (get_binary_format_version c) (get_appender_format c)
          (mk_segment segment_normal plaintext (payload_head tz names tail_bytes ++ p) :: rest)) < 2 ^ 31 ->
  exists b', on_file_open fresh vb key_base c tz names tail_bytes rm true b = Some (true, b') /\
    disk_ (wc_ b') = file_of (get_binary_format_version c) (get_appender_format c) [mk_segment segment_normal plaintext (payload_head tz names tail_bytes)] /\
    let file := file_of (get_binary_format_version c) (get_appender_format c)
                  (mk_segment segment_normal plaintext (payload_head tz names tail_bytes ++ p) :: rest) in
    exists r', parse_exist_head plaintext file (get_binary_format_version c) (get_appender_format c) tz names r = Some (true, r') /\
      (forall sizes, Forall (fun n => 0 < n < 2 ^ 31) sizes ->
         exists d r2, reads plaintext file sizes r' = Some (d, r2) /\ d `prefix_of` p ++ payloads rest /\
           (d = p ++ payloads rest \/ (length sizes <= length d)%nat)) /\
      (p <> [] \/ rest = [] -> read_file_pos_ (rc_ r') = zlen (disk_ (wc_ b')) /\ start_pos r' = file_header_size).
Proof.
  intros [Hfr Hkb Hv He Hk Hbl Hn] Hph Hff Epl Htz Htail Hpl Hs.
  assert (zlen (payload_head tz names tail_bytes) < 2 ^ 60) as Hpz.
  { unfold file_of in Hs. cbn [render sg_body] in Hs. rewrite !zlen_app, zlen_head_bytes, zlen_header_bytes in Hs.
    pose proof (zlen_nonneg p). match type of Hs with context [zlen (render ?a ?l)] => pose proof (zlen_nonneg (render a l)) end.
    unfold file_header_size, segment_head_size in *. lia. }
  destruct (on_file_open_ok fresh vb key_base c tz names tail_bytes rm k Hfr Hkb Hv He Hk Hbl Hph Hn Hpz b Hff)
    as (b' & Eo & _ & _ & _ & _ & _ & _ & Hd).
  exists b'. split; [exact Eo|]. unfold key_pieces, in_file in Hd. rewrite Epl in Hd. cbn [Z.eqb plaintext rsa_aes_xor Pos.eqb concat app] in Hd.
  split; [exact Hd|]. cbv zeta.
  destruct (parse_exist_head_ok (get_binary_format_version c) (get_appender_format c) tz names tail_bytes p segment_normal rest r)
    as (r' & pre & q & segs & Er & R & Ep & Hz); try done.
  { constructor; [|done]. split; [split; by left|done]. }
  exists r'. split; [exact Er|]. split; [intros sizes Hsz; rewrite <- Ep; by eapply reads_ok|].
  intros Hp. destruct (Hz Hp) as (Hpre & _ & _ & Es). split; [|done]. rewrite (ro_pos _ _ _ _ _ R), Hpre, Hd.
  unfold file_of. cbn [render sg_body]. rewrite app_nil_r, !zlen_app, zlen_head_bytes, zlen_header_bytes. lia.
Qed.

(** The file that an appender with the one category without a name makes: opened, and the next
    segment appended before anything is written. *)
Lemma file_recognised_witness :
  exists b', on_file_open 0 (Vernam.mk_build false Vernam.x86 None true) 0 sample_config sample_zone [[]] (replicate 32 5) no_material true
      sample_new = Some (true, b') /\
    disk_ (wc_ b') = file_of 10 format_compressed [mk_segment segment_normal plaintext (payload_head sample_zone [[]] (replicate 32 5))] /\
    let file := file_of 10 format_compressed (mk_segment segment_normal plaintext (payload_head sample_zone [[]] (replicate 32 5)) :: sample_segments) in
    exists r', parse_exist_head plaintext file 10 format_compressed sample_zone [[]] (rd_ sample_new) = Some (true, r') /\
      exists r2, reads plaintext file [2; 2; 2] r' = Some ([1; 2; 3], r2).
Proof.
  destruct (file_recognised 0 (Vernam.mk_build false Vernam.x86 None true) 0 sample_config sample_zone [[]] (replicate 32 5) no_material
    (mk_keys [] [] [] []) sample_new [] sample_segments (rd_ sample_new)) as (b' & Eo & Ed & r' & Er & Hreads & _).
  - split; [exact zero_byte|reflexivity|unfold in_range; cbn; lia|by left|reflexivity|discriminate|]. repeat constructor.
  - apply bytes_ok_dec. reflexivity.
  - exact sample_fresh_file.
  - reflexivity.
  - split; cbn; try lia; repeat constructor; lia.
  - reflexivity.
  - repeat constructor; left; reflexivity.
  - vm_compute. reflexivity.
  - exists b'. split; [exact Eo|]. split; [exact Ed|]. cbv zeta. exists r'. split; [exact Er|].
    destruct (Hreads [2; 2; 2]) as (d & r2 & E & [tail Hpre] & Hall); [repeat constructor; lia|]. exists r2.
    change ([] ++ payloads sample_segments) with [1; 2; 3] in *. destruct Hall as [-> |Hall]; [exact E|].
    do 3 (destruct d as [|? d]; [cbn in Hall; lia|]). injection Hpre as <- <- <- Ht. symmetry in Ht. apply app_nil in Ht as [-> _]. exact E.
Defined.

(** A file whose text of the time zone has no end makes the comparison run out of the metadata. *)
Lemma metadata_unterminated :
  parse_exist_head plaintext
    (file_of 10 format_compressed [mk_segment segment_normal plaintext ([2; 2; 7; 0] ++ replicate 12 0 ++ replicate 36 65)])
    10 format_compressed sample_zone [] (rd_ sample_new) = None.
Proof. vm_compute. reflexivity. Qed.
