(* ===== verification/Compressed.v ===== *)
(** * The compressed file appender
    ([include/qlog/runtime/appender/appender_file_compressed.hpp],
    [src/runtime/appender/appender_file_compressed.cpp])

    A record becomes up to three items behind each other in the file: a template with level,
    category and format text when the caches do not know it, a template with the thread, and
    the entry, which refers to the two by index. The handles that the write cache gives out
    are buffers of exactly the length asked for: an access behind it, a read outside the record
    and an assertion that fails are [None].

    The check of [appender_file_base::log_impl] for another file, and what follows when one
    is opened, are not part of [log_impl] here. *)
From stdpp Require Import base list option numbers.
From Stdlib Require Import ZArith Lia Bool.
From S2P Require Import Prelude LogUtils Memory Hash ArgSerialization HashCache LogEntry Utf FileCache.
From S2P Require Import Binary.
From S2P Require TimeZone.
Import HashCache FileCache.

Module Compressed.

(** [item_type] and [template_sub_type] *)
Definition log_template : Z := 0.
Definition log_entry : Z := 128.
Definition format_template_utf8 : Z := 0.
Definition thread_info_template : Z := 1.
Definition format_template_utf16 : Z := 2.

Definition format_version : Z := 10.
Definition CACHE_EMPTY : Z := 2 ^ 32 - 1.
Definition FORMAT_L1_SIZE : Z := 256.
Definition THREAD_L1_SIZE : Z := 64.
Definition CACHE_MIN_ENTRIES : Z := 8.
Definition FORMAT_L2_MAX_CONFIG_ENTRIES : Z := 16 * 1024 * 1024.
Definition THREAD_L2_MAX_CONFIG_ENTRIES : Z := 1024 * 1024.
Definition DEFAULT_FORMAT_TEMPLATE_CACHE_MAX_ENTRIES : Z := 100000.
Definition DEFAULT_THREAD_INFO_CACHE_MAX_ENTRIES : Z := 2048.

Definition VLQ_MAX_SIZE : Z := Vlq.vlq_max_bytes_count 4.
Definition VLQ_MAX_SIZE_64 : Z := Vlq.vlq_max_bytes_count 8.

Definition get_format_template_hash (level category_idx fmt_str_hash : Z) : Z :=
  Z.lxor fmt_str_hash (Z.lor (u64 (Z.shiftl category_idx 32)) level).

Definition mix_cache_key (key : Z) : Z :=
  let key := Z.lxor key (Z.shiftr key 33) in
  let key := u64 (key * 0xff51afd7ed558ccd) in
  let key := Z.lxor key (Z.shiftr key 33) in
  let key := u64 (key * 0xc4ceb9fe1a85ec53) in
  Z.lxor key (Z.shiftr key 33).

(** A value of the configuration: absent, not an integer, or an integer. *)
Inductive config_value := Cfg_null | Cfg_other | Cfg_int (n : Z).

Definition get_cache_max_entries_config (configured : config_value) (default_value min_value max_value : Z) : Z :=
  match configured with
  | Cfg_null | Cfg_other => default_value
  | Cfg_int n => if n <? min_value then min_value else if max_value <? n then max_value else n
  end.

(** ** State *)

Record direct_cache_slot := mk_slot { slot_key : Z; slot_value : Z }.

Record compressed := mk_compressed {
  format_l1_ : list direct_cache_slot;
  thread_l1_ : list direct_cache_slot;
  format_l2_ : bounded_hash_cache;
  thread_l2_ : bounded_hash_cache;
  format_template_cache_max_entries_ : Z;
  thread_info_cache_max_entries_ : Z;
  last_thread_id_ : Z;
  last_thread_info_idx_ : Z;
  current_format_template_max_index_ : Z;
  current_thread_info_max_index_ : Z;
  last_log_entry_epoch_ : Z;
  cache_ : write_cache }.

Definition set_cache (w : write_cache) (c : compressed) : compressed :=
  mk_compressed (format_l1_ c) (thread_l1_ c) (format_l2_ c) (thread_l2_ c) (format_template_cache_max_entries_ c)
    (thread_info_cache_max_entries_ c) (last_thread_id_ c) (last_thread_info_idx_ c) (current_format_template_max_index_ c)
    (current_thread_info_max_index_ c) (last_log_entry_epoch_ c) w.

Definition set_format_l1 (l : list direct_cache_slot) (c : compressed) : compressed :=
  mk_compressed l (thread_l1_ c) (format_l2_ c) (thread_l2_ c) (format_template_cache_max_entries_ c)
    (thread_info_cache_max_entries_ c) (last_thread_id_ c) (last_thread_info_idx_ c) (current_format_template_max_index_ c)
    (current_thread_info_max_index_ c) (last_log_entry_epoch_ c) (cache_ c).

Definition set_thread_l1 (l : list direct_cache_slot) (c : compressed) : compressed :=
  mk_compressed (format_l1_ c) l (format_l2_ c) (thread_l2_ c) (format_template_cache_max_entries_ c)
    (thread_info_cache_max_entries_ c) (last_thread_id_ c) (last_thread_info_idx_ c) (current_format_template_max_index_ c)
    (current_thread_info_max_index_ c) (last_log_entry_epoch_ c) (cache_ c).

(** A new template: the cache with it, and the next index. *)
Definition set_format_l2 (l2 : bounded_hash_cache) (max_index : Z) (c : compressed) : compressed :=
  mk_compressed (format_l1_ c) (thread_l1_ c) l2 (thread_l2_ c) (format_template_cache_max_entries_ c)
    (thread_info_cache_max_entries_ c) (last_thread_id_ c) (last_thread_info_idx_ c) max_index
    (current_thread_info_max_index_ c) (last_log_entry_epoch_ c) (cache_ c).

Definition set_thread_l2 (l2 : bounded_hash_cache) (max_index : Z) (c : compressed) : compressed :=
  mk_compressed (format_l1_ c) (thread_l1_ c) (format_l2_ c) l2 (format_template_cache_max_entries_ c)
    (thread_info_cache_max_entries_ c) (last_thread_id_ c) (last_thread_info_idx_ c) (current_format_template_max_index_ c)
    max_index (last_log_entry_epoch_ c) (cache_ c).

Definition set_last_thread (id idx : Z) (c : compressed) : compressed :=
  mk_compressed (format_l1_ c) (thread_l1_ c) (format_l2_ c) (thread_l2_ c) (format_template_cache_max_entries_ c)
    (thread_info_cache_max_entries_ c) id idx (current_format_template_max_index_ c) (current_thread_info_max_index_ c)
    (last_log_entry_epoch_ c) (cache_ c).

Definition set_last_epoch (epoch : Z) (c : compressed) : compressed :=
  mk_compressed (format_l1_ c) (thread_l1_ c) (format_l2_ c) (thread_l2_ c) (format_template_cache_max_entries_ c)
    (thread_info_cache_max_entries_ c) (last_thread_id_ c) (last_thread_info_idx_ c) (current_format_template_max_index_ c)
    (current_thread_info_max_index_ c) epoch (cache_ c).

Definition empty_slot (s : direct_cache_slot) : direct_cache_slot := mk_slot (slot_key s) CACHE_EMPTY.

(** [reset()] *)
Definition reset (c : compressed) : compressed :=
  mk_compressed (empty_slot <$> format_l1_ c) (empty_slot <$> thread_l1_ c) (clear (format_l2_ c)) (clear (thread_l2_ c))
    (format_template_cache_max_entries_ c) (thread_info_cache_max_entries_ c) (2 ^ 64 - 1) CACHE_EMPTY 0 0 0 (cache_ c).

(** The part of [init_impl] for the caches. *)
Definition init_caches (format_config thread_config : config_value) (c : compressed) : option compressed :=
  let fmt := get_cache_max_entries_config format_config DEFAULT_FORMAT_TEMPLATE_CACHE_MAX_ENTRIES CACHE_MIN_ENTRIES
               FORMAT_L2_MAX_CONFIG_ENTRIES in
  let thr := get_cache_max_entries_config thread_config DEFAULT_THREAD_INFO_CACHE_MAX_ENTRIES CACHE_MIN_ENTRIES
               THREAD_L2_MAX_CONFIG_ENTRIES in
  let '(ok1, f2) := set_max_size FORMAT_L2_MAX_CONFIG_ENTRIES fmt (clear (format_l2_ c)) in
  let '(ok2, t2) := set_max_size THREAD_L2_MAX_CONFIG_ENTRIES thr (clear (thread_l2_ c)) in
  if (ok1 : bool) && (ok2 : bool)
  then Some (mk_compressed (format_l1_ c) (thread_l1_ c) f2 t2 fmt thr (last_thread_id_ c) (last_thread_info_idx_ c)
               (current_format_template_max_index_ c) (current_thread_info_max_index_ c) (last_log_entry_epoch_ c) (cache_ c))
  else None.

(** What [reset_impl] does to one cache whose maximum is to be [n]. *)
Definition reconfigure (limit n old : Z) (l2 : bounded_hash_cache) : option bounded_hash_cache :=
  if n =? old then Some l2
  else
    let '(ok, l2') := set_max_size limit n l2 in
    if (ok : bool) then Some l2'
    else let '(ok, l2') := set_max_size limit n (clear l2) in if (ok : bool) then Some l2' else None.

(** ** Writing into a handle *)

(** The bytes of a handle and the [uint32_t] cursor. *)
Definition writer : Type := list Z * Z.

Definition put (bs : list Z) (w : writer) : option writer :=
  data ← store w.1 w.2 bs; Some (data, u32 (w.2 + zlen bs)).

(** [vlq_encode] at the cursor; it asserts that the encoding has [limit] bytes at most. *)
Definition put_vlq (limit value : Z) (w : writer) : option writer :=
  if limit <? Vlq.get_vlq_encode_length value then None else put (Vlq.vlq_encode value) w.

Definition get_vlq_min_bytes_length_of_item_header (value : Z) : Z :=
  let bytes_len := Vlq.get_vlq_encode_length value in if 1 <? bytes_len then bytes_len - 1 else bytes_len.

(** The head of an item whose body begins at [prealloc]: the length behind the type, or, when
    it takes one byte more than there is place for, instead of the type, which becomes the
    top bit of its first byte. [Some None] when neither is possible. *)
Definition write_head (item_type data_len_min_size prealloc : Z) (w : writer) : option (option (list Z)) :=
  let real_body_len := w.2 - prealloc in
  let data_len_real_size := Vlq.get_vlq_encode_length real_body_len in
  if negb (data_len_real_size =? data_len_min_size) then
    if negb (data_len_real_size =? 1 + data_len_min_size) then Some None
    else
      data ← store w.1 0 (Vlq.vlq_encode real_body_len);
      b ← load_le data 0 1;
      data ← store data 0 [Z.lor b item_type];
      Some (Some data)
  else
    data ← store w.1 1 (Vlq.vlq_encode real_body_len);
    data ← store data 0 [item_type];
    Some (Some data).

Section Log.
Context {Ops : CrcOps} {F : Flush}.
(** What new memory of the write cache holds. *)
Variable fresh : Z.

(** ** Templates *)

Definition is_utf8 (h : RecordHeader) : bool := log_format_str_type h =? tag_code string_utf8_type.

(** The body of a format template behind the sub type; with the size of the text. *)
Definition put_format_body (h : RecordHeader) (format_data : list Z) (w : writer) : option (Z * writer) :=
  w ← put [if is_utf8 h then format_template_utf8 else format_template_utf16] w;
  w ← put [level h] w;
  w ← put_vlq VLQ_MAX_SIZE (category_idx h) w;
  if is_utf8 h then w ← put format_data w; Some (log_format_data_len h, w)
  else
    let n := log_format_data_len h in
    mixed ← utf16_to_utf_mixed (bytes_units (Z.to_nat (Z.shiftr n 1)) format_data) (u32 (Z.shiftr (u32 (n * 3)) 1 + 1));
    w ← put mixed w; Some (zlen mixed, w).

(** [do { ... } while (!success)] *)
Fixpoint format_template_loop (fuel : nat) (fmt_size_calculated : Z) (success : bool) (h : RecordHeader)
    (format_data : list Z) (c : write_cache) : option write_cache :=
  match fuel with
  | O => None
  | S fuel =>
      let n := log_format_data_len h in
      let fmt_max_size :=
        if negb (fmt_size_calculated =? 0) then fmt_size_calculated
        else if is_utf8 h then n else Z.shiftr (u32 (n * 3)) 1 + 1 in
      let max_size := u32 (1 + 1 + VLQ_MAX_SIZE + fmt_max_size) in
      let data_len_min_size := get_vlq_min_bytes_length_of_item_header max_size in
      let prealloc := 1 + data_len_min_size in
      '(data, c) ← alloc_write_cache fresh (u32 (max_size + prealloc)) c;
      '(calculated, w) ← put_format_body h format_data (data, prealloc);
      head ← write_head log_template data_len_min_size prealloc w;
      match head with
      | None =>
          if (success : bool)
          then c ← return_write_cache w.1 0 c; format_template_loop fuel calculated false h format_data c
          else None
      | Some data => return_write_cache data w.2 c
      end
  end.

Definition l1_hit (l1 : list direct_cache_slot) (index key : Z) : option (option Z) :=
  s ← l1 !! Z.to_nat index;
  Some (if negb (slot_value s =? CACHE_EMPTY) && (slot_key s =? key) then Some (slot_value s) else None).

Definition set_slot (l1 : list direct_cache_slot) (index key value : Z) : list direct_cache_slot :=
  <[Z.to_nat index := mk_slot key value]> l1.

Definition l1_index (size key : Z) : Z := Z.land (u32 (Z.shiftr (mix_cache_key key) 32)) (size - 1).

(** The index of the template; it is written when the caches do not have it. [mem]: the
    second cache gets memory to grow. *)
Definition find_format (mem : bool) (h : RecordHeader) (format_data : list Z) (hash : Z) (c : compressed) : option (Z * compressed) :=
  let i := l1_index FORMAT_L1_SIZE hash in
  hit ← l1_hit (format_l1_ c) i hash;
  match hit with
  | Some idx => Some (idx, c)
  | None =>
      r ← find (format_l2_ c) hash;
      '(idx, c) ← match r with
                  | inl idx => Some (idx, c)
                  | inr token =>
                      w ← format_template_loop 3 0 true h format_data (cache_ c);
                      let idx := current_format_template_max_index_ c in
                      l2 ← insert_new mem hash idx token (format_l2_ c);
                      Some (idx, set_format_l2 l2 (u32 (idx + 1)) (set_cache w c))
                  end;
      Some (idx, set_format_l1 (set_slot (format_l1_ c) i hash idx) c)
  end.

Definition write_thread_template (idx thread_id : Z) (thread_name : list Z) (c : write_cache) : option write_cache :=
  let max_size := 1 + VLQ_MAX_SIZE + VLQ_MAX_SIZE_64 + zlen thread_name in
  if negb (max_size <? 64) then None
  else
    let data_len_min_size := Vlq.get_vlq_encode_length max_size in
    let prealloc := 1 + data_len_min_size in
    '(data, c) ← alloc_write_cache fresh (max_size + prealloc) c;
    if negb (data_len_min_size =? 1) then None
    else
      w ← put [thread_info_template] (data, prealloc);
      w ← put_vlq VLQ_MAX_SIZE idx w;
      w ← put_vlq VLQ_MAX_SIZE_64 thread_id w;
      w ← put thread_name w;
      data ← store w.1 0 [log_template];
      let real_body_len := w.2 - prealloc in
      if 1 <? Vlq.get_vlq_encode_length real_body_len then None
      else data ← store data 1 (Vlq.vlq_encode real_body_len); return_write_cache data w.2 c.

Definition find_thread (mem : bool) (thread_id : Z) (thread_name : option (list Z)) (c : compressed) : option (Z * compressed) :=
  if thread_id =? last_thread_id_ c then Some (last_thread_info_idx_ c, c)
  else
    let i := l1_index THREAD_L1_SIZE thread_id in
    hit ← l1_hit (thread_l1_ c) i thread_id;
    '(idx, c) ← match hit with
                | Some idx => Some (idx, c)
                | None =>
                    r ← find (thread_l2_ c) thread_id;
                    '(idx, c) ← match r with
                                | inl idx => Some (idx, c)
                                | inr token =>
                                    name ← thread_name;
                                    let idx := current_thread_info_max_index_ c in
                                    w ← write_thread_template idx thread_id name (cache_ c);
                                    l2 ← insert_new mem thread_id idx token (thread_l2_ c);
                                    Some (idx, set_thread_l2 l2 (u32 (idx + 1)) (set_cache w c))
                                end;
                    Some (idx, set_thread_l1 (set_slot (thread_l1_ c) i thread_id idx) c)
                end;
    Some (idx, set_last_thread thread_id idx c).

(** ** Entries *)

(** A UTF-16 argument: the units go behind the place for the longest length, and a length
    that is one byte shorter is followed by a zero byte. *)
Definition put_utf16 (str_len : Z) (str : list Z) (w : writer) : option writer :=
  let max_utf8_str_len := u32 (Z.shiftr (u32 (str_len * 3)) 1 + 1) in
  let pre_len_size := Vlq.get_vlq_encode_length max_utf8_str_len in
  mixed ← utf16_to_utf_mixed (bytes_units (Z.to_nat (Z.shiftr str_len 1)) str) max_utf8_str_len;
  data ← store w.1 (w.2 + pre_len_size) mixed;
  let real_len_size := Vlq.get_vlq_encode_length (zlen mixed) in
  if VLQ_MAX_SIZE <? real_len_size then None
  else
    data ← store data w.2 (Vlq.vlq_encode (zlen mixed));
    if real_len_size =? pre_len_size then Some (data, u32 (w.2 + u32 (pre_len_size + zlen mixed)))
    else if real_len_size + 1 =? pre_len_size then
      data ← store data (w.2 + real_len_size) [0];
      Some (data, u32 (w.2 + u32 (pre_len_size + zlen mixed)))
    else None.

Definition skip (n pos : Z) (w : writer) : option (writer * Z) := Some (w, u32 (pos + n)).

(** One turn of the argument loop: the tag is stored, then the value; the new cursor in
    [args]. The tags without a case store the tag and stay where they are. *)
Definition write_arg (args : list Z) (pos : Z) (w : writer) : option (writer * Z) :=
  type_info_i ← load_le args pos 1;
  tagged ← put [type_info_i] w;
  match tag_of_code type_info_i with
  | Some unsupported_type => Some (tagged, zlen args)
  | Some null_type => skip 4 pos tagged
  | Some pointer_type => v ← load args (pos + 4) 8; w ← put v tagged; skip (4 + 8) pos w
  | Some (bool_type | char_type | int8_type | uint8_type) =>
      v ← load args (pos + 2) 1; w ← put v tagged; skip 4 pos w
  | Some (char16_type | uint16_type) =>
      v ← load_le args (pos + 2) 2; w ← put_vlq VLQ_MAX_SIZE v tagged; skip 4 pos w
  | Some int16_type =>
      v ← load_le args (pos + 2) 2;
      w ← put_vlq VLQ_MAX_SIZE (Zigzag.encode 16 (to_signed 16 v)) tagged; skip 4 pos w
  | Some (char32_type | uint32_type) =>
      v ← load_le args (pos + 4) 4; w ← put_vlq VLQ_MAX_SIZE v tagged; skip (4 + 4) pos w
  | Some int32_type =>
      v ← load_le args (pos + 4) 4;
      w ← put_vlq VLQ_MAX_SIZE (Zigzag.encode 32 (i32 v)) tagged; skip (4 + 4) pos w
  | Some float_type => v ← load args (pos + 4) 4; w ← put v tagged; skip (4 + 4) pos w
  | Some uint64_type => v ← load_le args (pos + 4) 8; w ← put_vlq VLQ_MAX_SIZE_64 v tagged; skip (4 + 8) pos w
  | Some int64_type =>
      v ← load_le args (pos + 4) 8;
      w ← put_vlq VLQ_MAX_SIZE_64 (Zigzag.encode 64 (i64 v)) tagged; skip (4 + 8) pos w
  | Some double_type => v ← load args (pos + 4) 8; w ← put v tagged; skip (4 + 8) pos w
  | Some string_utf8_type =>
      str_len ← load_le args (pos + 4) 4;
      w ← put_vlq VLQ_MAX_SIZE str_len tagged;
      str ← load args (pos + 8) str_len;
      w ← put str w;
      skip (u32 (4 + 4 + align_4 str_len)) pos w
  | Some string_utf16_type =>
      tagged ← (data ← store tagged.1 (tagged.2 - 1) [tag_code string_utf_mixed_type]; Some (data, tagged.2));
      str_len ← load_le args (pos + 4) 4;
      str ← load args (pos + 8) str_len;
      w ← put_utf16 str_len str tagged;
      skip (u32 (4 + 4 + align_4 str_len)) pos w
  | _ => Some (tagged, pos)
  end.

(** [while (args_data_cursor < raw_log_args_data_len)] *)
Fixpoint write_args (fuel : nat) (args : list Z) (pos : Z) (w : writer) : option writer :=
  match fuel with
  | O => None
  | S fuel =>
      if pos <? zlen args then '(w, pos) ← write_arg args pos w; write_args fuel args pos w
      else Some w
  end.

Definition write_entry (h : RecordHeader) (args : list Z) (format_idx thread_idx : Z) (c : compressed) : option compressed :=
  let max_size := VLQ_MAX_SIZE + VLQ_MAX_SIZE + VLQ_MAX_SIZE + Z.shiftl (zlen args) 1 in
  let data_len_min_size := get_vlq_min_bytes_length_of_item_header max_size in
  let prealloc := 1 + data_len_min_size in
  '(data, wc) ← alloc_write_cache fresh (max_size + prealloc) (cache_ c);
  let epoch_offset := i64 (timestamp_epoch h - last_log_entry_epoch_ c) in
  let c := set_last_epoch (timestamp_epoch h) c in
  w ← put_vlq VLQ_MAX_SIZE_64 (Zigzag.encode 64 epoch_offset) (data, prealloc);
  w ← put_vlq VLQ_MAX_SIZE format_idx w;
  w ← put_vlq VLQ_MAX_SIZE thread_idx w;
  w ← write_args (S (length args)) args 0 w;
  head ← write_head log_entry data_len_min_size prealloc w;
  data ← head;
  wc ← return_write_cache data w.2 wc;
  wc ← mark_write_finished wc;
  Some (set_cache wc c).

(** [log_impl]; [mem_f] and [mem_t]: the insertions into the second caches get memory. *)
Definition log_impl (mem_f mem_t : bool) (record : list Z) (c : compressed) : option (bool * compressed) :=
  if disk_full_drop_ (cache_ c) then Some (false, c)
  else
    h ← read_header record;
    if get_log_args_offset h <? header_size + log_format_data_len h then Some (false, c)
    else
      format_data ← get_format_string_data record h;
      fmt_hash ← (if format_hash h =? 0 then get_hash_64 format_data (log_format_data_len h) else Some (format_hash h));
      let hash := get_format_template_hash (level h) (category_idx h) fmt_hash in
      '(format_idx, c) ← find_format mem_f h format_data hash c;
      '(thread_idx, c) ← find_thread mem_t (log_thread_id h) (get_thread_name record h) c;
      args ← get_log_args_data record h;
      c ← write_entry h args format_idx thread_idx c;
      Some (true, c).

(** ** Reading an existing file *)

(** [vlq_decode]: a read behind the bytes is [None], [Some None] the invalid length. *)
Definition decode_vlq (size : Z) (src : list Z) : option (option (Z * Z)) :=
  match Vlq.vlq_decode size src with
  | Vlq.decode_out_of_bounds => None
  | Vlq.decode_invalid => Some None
  | Vlq.decode_ok v n => Some (Some (v, n))
  end.

Section Parsing.
(** The encryption of the appender, and the file. *)
Variables (own_enc : Z) (file : list Z).

(** The item at the position of the file: whether it could be read, its type and its body. *)
Definition read_item_data (r : Binary.reader) : option (bool * Z * list Z * Binary.reader) :=
  '(d, r) ← Binary.read_segment own_enc file (VLQ_MAX_SIZE + 1) r;
  if (zlen d =? 0) && cache_read_eof_ (Binary.rc_ r) then Some (false, log_template, d, r)
  else if zlen d <? 2 then Some (false, log_template, d, r)
  else
    first ← load_le d 0 1;
    let offset := if Z.land first 0x7F =? 0 then 1 else 0 in
    let type := Z.land first 0x80 in
    size ← decode_vlq 4 (if offset =? 0 then Z.land first 0x7F :: tail d else tail d);
    match size with
    | None => Some (false, type, d, r)
    | Some (data_size, size_len) =>
        r ← Binary.seek_offset own_enc file (size_len + offset - zlen d) r;
        '(d, r) ← Binary.read_segment own_enc file data_size r;
        if negb (zlen d =? data_size) || (data_size <? 2) then Some (false, log_template, d, r)
        else Some (true, type, d, r)
    end.

Definition parse_log_entry (d : list Z) (c : compressed) : option (bool * compressed) :=
  if zlen d <? 2 then Some (false, c)
  else
    v ← decode_vlq 8 d;
    match v with
    | None => Some (false, c)
    | Some (zigzag, _) =>
        Some (true, set_last_epoch (u64 (i64 (last_log_entry_epoch_ c) + Zigzag.decode 64 zigzag)) c)
    end.

(** [d]: the item behind the sub type. *)
Definition parse_formate_template (mem : bool) (categories_count : Z) (d : list Z) (sub_type : Z) (c : compressed) :
    option (bool * compressed) :=
  if zlen d <? 2 then Some (false, c)
  else
    level_byte ← load_le d 0 1;
    if 5 <? level_byte then Some (false, c)
    else
      v ← decode_vlq 4 (tail d);
      match v with
      | None => Some (false, c)
      | Some (category_idx, size) =>
          if categories_count <=? category_idx then Some (false, c)
          else if zlen d <? 1 + size then Some (false, c)
          else
            let fmt := drop (Z.to_nat (1 + size)) d in
            fmt_str_hash ← (if sub_type =? format_template_utf8 then get_hash_64 fmt (zlen fmt) else hash_utf_mixed_as_utf16 fmt);
            let hash := get_format_template_hash level_byte category_idx fmt_str_hash in
            let idx := current_format_template_max_index_ c in
            l2 ← insert mem hash idx (format_l2_ c);
            Some (true, set_format_l2 l2 (u32 (idx + 1)) c)
      end.

(** [parse_thread_info_template] *)
Definition parse_thread_info_template (d : list Z) : bool := negb (zlen d <? 1).

Definition parse_item (mem : bool) (categories_count type : Z) (d : list Z) (c : compressed) : option (bool * compressed) :=
  if type =? log_template then
    sub_type ← load_le d 0 1;
    if (sub_type =? format_template_utf8) || (sub_type =? format_template_utf16)
    then parse_formate_template mem categories_count (tail d) sub_type c
    else if sub_type =? thread_info_template then Some (parse_thread_info_template (tail d), c)
    else Some (false, c)
  else if type =? log_entry then parse_log_entry d c
  else Some (false, c).

(** [while (true)] of [parse_exist_log_file]. *)
Fixpoint parse_loop (fuel : nat) (mem : bool) (categories_count : Z) (r : Binary.reader) (c : compressed) :
    option (bool * compressed) :=
  match fuel with
  | O => None
  | S fuel =>
      '(ok, type, d, r) ← read_item_data r;
      if cache_read_eof_ (Binary.rc_ r) then Some (true, c)
      else if negb ok then Some (false, c)
      else
        '(ok, c) ← parse_item mem categories_count type d c;
        if (ok : bool) then parse_loop fuel mem categories_count r c else Some (false, c)
  end.

(** [parse_exist_log_file]; [names]: the categories of the log. *)
Definition parse_exist_log_file (mem : bool) (tz : TimeZone.TimeZone) (names : list (list Z)) (r : Binary.reader) (c : compressed) :
    option (bool * compressed) :=
  '(ok, r) ← Binary.parse_exist_head own_enc file format_version Binary.format_compressed tz names r;
  if negb ok then Some (false, c)
  else parse_loop (S (length file)) mem (zlen names) r (reset c).

End Parsing.

End Log.

End Compressed.
