(* ===== verification/CompressedSpec.v ===== *)
(** * The compressed file format: an independent reader

    The format as the comment at the head of [appender_file_compressed.hpp] gives it and as
    the reader of [tests/compressed_file_test.cpp] reads it: [decode] turns the items of a
    file into the records that were logged, with the arguments. [logged_of] is what should
    come out of it for a record in memory. *)
From stdpp Require Import base list option numbers gmap.
From Stdlib Require Import ZArith Lia Bool.
From S2P Require Import Prelude LogUtils Memory ArgSerialization LogEntry Utf.

#[local] Set Bullet Behavior "Strict Subproofs".

(** The value of an argument, a signed type with its sign; texts are UTF-8. *)
Inductive value := V_none | V_number (n : Z) | V_text (text : list Z).

#[export] Instance value_eq_dec : EqDecision value.
Proof. solve_decision. Defined.

Record logged := mk_logged {
  lg_epoch : Z;
  lg_level : Z;
  lg_category : Z;
  lg_format : list Z;
  lg_thread : Z;
  lg_thread_name : list Z;
  lg_args : list (Z * value) }.

(** ** Reading *)

Definition take_bytes (n : Z) (s : list Z) : option (list Z * list Z) :=
  if zlen s <? n then None else Some (take (Z.to_nat n) s, drop (Z.to_nat n) s).

Definition take_vlq (s : list Z) : option (Z * list Z) :=
  match Vlq.vlq_decode 8 s with
  | Vlq.decode_ok v n => Some (v, drop (Z.to_nat n) s)
  | _ => None
  end.

(** The text of a UTF-Mixed string. *)
Definition mixed_text (s : list Z) : list Z :=
  match find_mark s with
  | (before, None) => before
  | (before, Some suffix) => before ++ utf16_to_utf8_sw (bytes_units (Z.to_nat (zlen suffix / 2)) suffix)
  end.

(** The bytes of a string: a zero byte behind the length is not one of them. *)
Definition take_string (s : list Z) : option (list Z * list Z) :=
  '(len, s) ← take_vlq s;
  let s := if negb (len =? 0) && bool_decide (head s = Some 0) then tail s else s in
  take_bytes len s.

Definition decode_arg (s : list Z) : option ((Z * value) * list Z) :=
  match s with
  | [] => None
  | tag :: s =>
      '(v, s) ← match tag_of_code tag with
                | Some null_type => Some (V_none, s)
                | Some (bool_type | char_type | uint8_type) => '(b, s) ← take_bytes 1 s; Some (V_number (le_val b), s)
                | Some int8_type => '(b, s) ← take_bytes 1 s; Some (V_number (to_signed 8 (le_val b)), s)
                | Some (char16_type | uint16_type | char32_type | uint32_type | uint64_type) =>
                    '(n, s) ← take_vlq s; Some (V_number n, s)
                | Some (int16_type | int32_type | int64_type) =>
                    '(n, s) ← take_vlq s; Some (V_number (Zigzag.decode 64 n), s)
                | Some (pointer_type | double_type) => '(b, s) ← take_bytes 8 s; Some (V_number (le_val b), s)
                | Some float_type => '(b, s) ← take_bytes 4 s; Some (V_number (le_val b), s)
                | Some string_utf8_type => '(t, s) ← take_string s; Some (V_text t, s)
                | Some string_utf_mixed_type => '(t, s) ← take_string s; Some (V_text (mixed_text t), s)
                | _ => None
                end;
      Some ((tag, v), s)
  end.

Fixpoint decode_args (fuel : nat) (s : list Z) : option (list (Z * value)) :=
  match fuel with
  | O => None
  | S fuel =>
      match s with
      | [] => Some []
      | _ => '(a, s) ← decode_arg s; args ← decode_args fuel s; Some (a :: args)
      end
  end.

(** An item: whether it is an entry, its body, and what follows. *)
Definition decode_item (s : list Z) : option (bool * list Z * list Z) :=
  match s with
  | [] => None
  | first :: s =>
      '(size, s) ← take_vlq (if Z.land first 127 =? 0 then s else Z.land first 127 :: s);
      '(body, s) ← take_bytes size s;
      Some (negb (Z.land first 128 =? 0), body, s)
  end.

(** What has been read: the format templates by position, the threads by index, the time of
    the last entry, and the records. *)
Record decoded := mk_decoded {
  d_formats : list (Z * Z * list Z);
  d_threads : gmap Z (Z * list Z);
  d_epoch : Z;
  d_records : list logged }.

Definition nothing_decoded : decoded := mk_decoded [] ∅ 0 [].

Definition decode_template (body : list Z) (st : decoded) : option decoded :=
  match body with
  | sub :: s =>
      if (sub =? 0) || (sub =? 2) then
        '(l, s) ← take_bytes 1 s;
        '(category, s) ← take_vlq s;
        Some (mk_decoded (d_formats st ++ [(le_val l, category, if sub =? 2 then mixed_text s else s)]) (d_threads st)
                (d_epoch st) (d_records st))
      else if sub =? 1 then
        '(idx, s) ← take_vlq s;
        '(id, name) ← take_vlq s;
        Some (mk_decoded (d_formats st) (<[idx := (id, name)]> (d_threads st)) (d_epoch st) (d_records st))
      else None
  | [] => None
  end.

Definition decode_entry (body : list Z) (st : decoded) : option decoded :=
  '(offset, s) ← take_vlq body;
  '(format_idx, s) ← take_vlq s;
  '(thread_idx, s) ← take_vlq s;
  args ← decode_args (S (length s)) s;
  '(l, category, text) ← d_formats st !! Z.to_nat format_idx;
  '(id, name) ← d_threads st !! thread_idx;
  let epoch := u64 (d_epoch st + Zigzag.decode 64 offset) in
  Some (mk_decoded (d_formats st) (d_threads st) epoch (d_records st ++ [mk_logged epoch l category text id name args])).

Fixpoint decode (fuel : nat) (s : list Z) (st : decoded) : option decoded :=
  match fuel with
  | O => None
  | S fuel =>
      match s with
      | [] => Some st
      | _ =>
          '(entry, body, s) ← decode_item s;
          st ← (if (entry : bool) then decode_entry body st else decode_template body st);
          decode fuel s st
      end
  end.

(** The records of the items of a file. *)
Definition decode_items (items : list Z) : option decoded := decode (S (length items)) items nothing_decoded.

(** ** What was logged *)

Definition units_text (s : list Z) : list Z := utf16_to_utf8_sw (bytes_units (Z.to_nat (zlen s / 2)) s).

(** The argument at [pos] of the argument cells, and the size of its cell. *)
Definition raw_arg (args : list Z) (pos : Z) : option ((Z * value) * Z) :=
  tag ← load_le args pos 1;
  match tag_of_code tag with
  | Some null_type => Some ((tag, V_none), 4)
  | Some (bool_type | char_type | uint8_type) => v ← load_le args (pos + 2) 1; Some ((tag, V_number v), 4)
  | Some int8_type => v ← load_le args (pos + 2) 1; Some ((tag, V_number (to_signed 8 v)), 4)
  | Some (char16_type | uint16_type) => v ← load_le args (pos + 2) 2; Some ((tag, V_number v), 4)
  | Some int16_type => v ← load_le args (pos + 2) 2; Some ((tag, V_number (to_signed 16 v)), 4)
  | Some (char32_type | uint32_type | float_type) => v ← load_le args (pos + 4) 4; Some ((tag, V_number v), 8)
  | Some int32_type => v ← load_le args (pos + 4) 4; Some ((tag, V_number (i32 v)), 8)
  | Some (pointer_type | uint64_type | double_type) => v ← load_le args (pos + 4) 8; Some ((tag, V_number v), 12)
  | Some int64_type => v ← load_le args (pos + 4) 8; Some ((tag, V_number (i64 v)), 12)
  | Some string_utf8_type =>
      n ← load_le args (pos + 4) 4; t ← load args (pos + 8) n; Some ((tag, V_text t), 8 + up4 n)
  | Some string_utf16_type =>
      n ← load_le args (pos + 4) 4; t ← load args (pos + 8) n;
      Some ((tag_code string_utf_mixed_type, V_text (units_text t)), 8 + up4 n)
  | _ => None
  end.

Fixpoint raw_args (fuel : nat) (args : list Z) (pos : Z) : option (list (Z * value)) :=
  match fuel with
  | O => None
  | S fuel =>
      if pos <? zlen args then '(a, n) ← raw_arg args pos; rest ← raw_args fuel args (pos + n); Some (a :: rest)
      else if pos =? zlen args then Some [] else None
  end.

Definition format_text (h : RecordHeader) (format_data : list Z) : list Z :=
  if log_format_str_type h =? tag_code string_utf8_type then format_data else units_text format_data.

Definition logged_of (record : list Z) : option logged :=
  h ← read_header record;
  format_data ← get_format_string_data record h;
  name ← get_thread_name record h;
  args ← get_log_args_data record h;
  args ← raw_args (S (length args)) args 0;
  Some (mk_logged (timestamp_epoch h) (level h) (category_idx h) (format_text h format_data) (log_thread_id h) name args).
