(* ===== verification/CompressedWriter.v ===== *)
(** * The compressed appender: what is written into a handle is read back

    [holds w got room]: the handle begins with the bytes [got], the cursor is behind them, and
    [room] bytes are left. The operations that write to a handle append bytes to it; the
    lemmas say which, and that the reader of [CompressedSpec] turns them back. *)
From stdpp Require Import base list option numbers.
From Stdlib Require Import ZArith Lia Bool.
From S2P Require Import Prelude LogUtils Memory ArgSerialization LogEntry Utf Compressed CompressedSpec.
Import Compressed.

#[local] Set Bullet Behavior "Strict Subproofs".

(** ** Variable length integers *)

Abbreviation vlq_length := Vlq.get_vlq_encode_length.

Ltac lengths_of v H :=
  let Hn := fresh "Hn" in let Hr := fresh "Hr" in
  destruct (Vlq.encode_length_spec v H) as [Hn Hr]; revert Hn Hr; generalize (vlq_length v); intros ? Hn Hr;
  unfold Vlq.lengths in Hn; cbn [In] in Hn;
  repeat (destruct Hn as [<-|Hn]; [rewrite ?Vlq.min_value_1, ?Vlq.min_value_2, ?Vlq.min_value_3, ?Vlq.min_value_4,
    ?Vlq.min_value_5, ?Vlq.min_value_6, ?Vlq.min_value_7, ?Vlq.min_value_8, ?Vlq.min_value_9, ?Vlq.max_value_1, ?Vlq.max_value_2,
    ?Vlq.max_value_3, ?Vlq.max_value_4, ?Vlq.max_value_5, ?Vlq.max_value_6, ?Vlq.max_value_7, ?Vlq.max_value_8, ?Vlq.max_value_9 in Hr|]);
  [..|destruct Hn].

Lemma vlq_length_range (v : Z) : in_range 64 v -> 1 <= vlq_length v <= 9.
Proof. unfold in_range. intros H. lengths_of v H; lia. Qed.

Lemma vlq_length_32 (v : Z) : in_range 32 v -> vlq_length v <= 5.
Proof. unfold in_range. intros H. assert (0 <= v < 2 ^ 64) as H2 by lia. lengths_of v H2; lia. Qed.

(** Numbers that differ by a factor of 128 at most have lengths that differ by one at most. *)
Lemma vlq_length_close (x y : Z) :
  in_range 64 x -> 0 <= y <= x -> x <= 128 * y + 127 -> vlq_length y <= vlq_length x <= vlq_length y + 1.
Proof.
  unfold in_range. intros H Hy Hxy. assert (0 <= y < 2 ^ 64) as H2 by lia.
  lengths_of x H; lengths_of y H2; lia.
Qed.

Lemma vlq_length_small (v k : Z) : 0 <= v <= Vlq.max_value k -> In k [1; 2; 3] -> vlq_length v <= k.
Proof.
  intros Hv Hk. assert (0 <= v < 2 ^ 64) as H.
  { cbn [In] in Hk. destruct Hk as [<-|[<-|[<-|[]]]]; rewrite ?Vlq.max_value_1, ?Vlq.max_value_2, ?Vlq.max_value_3 in Hv; lia. }
  cbn [In] in Hk. destruct Hk as [<-|[<-|[<-|[]]]]; rewrite ?Vlq.max_value_1, ?Vlq.max_value_2, ?Vlq.max_value_3 in Hv;
    lengths_of v H; lia.
Qed.

Lemma zlen_vlq (v : Z) : in_range 64 v -> zlen (Vlq.vlq_encode v) = vlq_length v.
Proof.
  intros H. destruct (Vlq.encode_length_spec v H) as [Hn _]. unfold zlen, Vlq.vlq_encode.
  rewrite Vlq.length_encode_case by done. pose proof (vlq_length_range v H). lia.
Qed.

Lemma decode_vlq_encode (size v : Z) (rest : list Z) :
  In size [1; 2; 4; 8] -> 0 <= v < 2 ^ (8 * size) -> Vlq.vlq_decode size (Vlq.vlq_encode v ++ rest) = Vlq.decode_ok v (vlq_length v).
Proof.
  intros Hs Hv. assert (0 <= v < 2 ^ 64) as H by (cbn [In] in Hs; destruct Hs as [<-|[<-|[<-|[<-|[]]]]]; lia).
  destruct (Vlq.encode_length_spec v H) as [Hn Hr]. apply Vlq.decode_encode_case; [done..|].
  pose proof (Vlq.encode_length_fits size v Hs Hv). lia.
Qed.

Lemma take_vlq_encode (v : Z) (rest : list Z) : in_range 64 v -> take_vlq (Vlq.vlq_encode v ++ rest) = Some (v, rest).
Proof.
  intros H. unfold take_vlq. rewrite decode_vlq_encode by (done || cbn; tauto). do 2 f_equal.
  pose proof (zlen_vlq v H) as E. unfold zlen in E. apply drop_app_length'. lia.
Qed.

(** The first byte of two to eight: below 128 and not zero. *)
Lemma vlq_first (v : Z) : in_range 64 v -> 2 <= vlq_length v <= 8 ->
  exists b tl, Vlq.vlq_encode v = b :: tl /\ 0 < b < 128.
Proof.
  intros H HL. destruct (Vlq.encode_length_spec v H) as [Hn Hr]. unfold Vlq.vlq_encode.
  destruct (Vlq.encode_case_short (vlq_length v) v Hn ltac:(lia) Hr) as [E Hb]. rewrite E. eexists _, _. split; [done|].
  pose proof (Z.pow_pos_nonneg 2 (8 - vlq_length v) ltac:(lia) ltac:(lia)).
  pose proof (Z.pow_le_mono_r 2 (8 - vlq_length v) 6 ltac:(lia) ltac:(lia)). lia.
Qed.

Lemma take_bytes_app (a b : list Z) (n : Z) : zlen a = n -> take_bytes n (a ++ b) = Some (a, b).
Proof.
  intros <-. unfold take_bytes. rewrite zlen_app. pose proof (zlen_nonneg b). destruct (Z.ltb_spec (zlen a + zlen b) (zlen a)); [lia|].
  unfold zlen. rewrite Nat2Z.id, take_app_length, drop_app_length. done.
Qed.

(** ** Handles *)

Definition holds (w : writer) (got : list Z) (room : Z) : Prop :=
  exists rest, w.1 = got ++ rest /\ zlen rest = room /\ w.2 = zlen got /\ zlen got + room < 2 ^ 32 /\ bytes_ok w.1.

Lemma holds_room (w : writer) (got : list Z) (room : Z) : holds w got room -> 0 <= room /\ zlen got + room < 2 ^ 32.
Proof. intros (rest & _ & <- & _ & ? & _). pose proof (zlen_nonneg rest). done. Qed.

Lemma vlq_bytes_ok (v : Z) : bytes_ok (Vlq.vlq_encode v).
Proof.
  unfold Vlq.vlq_encode, Vlq.encode_case. destruct (_ =? 9).
  - constructor; [|apply le_bytes_ok]. rewrite Vlq.prefix_9. unfold in_range. lia.
  - constructor; [apply wrap_range; lia|]. apply Forall_take, le_bytes_ok.
Qed.

Lemma writer_put_ok (bs got : list Z) (room : Z) (w : writer) :
  holds w got room -> bytes_ok bs -> zlen bs <= room -> exists w', put bs w = Some w' /\ holds w' (got ++ bs) (room - zlen bs).
Proof.
  intros (rest & E & Hr & Ec & Hb & Hby) Hbs Hle. unfold put. rewrite E in Hby. rewrite E, Ec.
  apply Forall_app in Hby as [Hg Hrb].
  pose proof (zlen_nonneg bs). pose proof (zlen_nonneg got).
  rewrite (store_app_at _ got (take (length bs) rest) bs (drop (length bs) rest)); [|by rewrite take_drop|done|].
  2: { unfold zlen in *. rewrite length_take. lia. }
  cbn [mbind option_bind]. eexists. split; [done|]. exists (drop (length bs) rest). cbn. rewrite !zlen_app.
  split_and!; [by rewrite app_assoc|unfold zlen in *; rewrite length_drop; lia| |lia|
    repeat (apply Forall_app; split); (done || by apply Forall_drop)].
  apply wrap_small. unfold in_range. lia.
Qed.

Lemma put_vlq_ok (limit v : Z) (got : list Z) (room : Z) (w : writer) :
  holds w got room -> in_range 64 v -> vlq_length v <= limit -> vlq_length v <= room ->
  exists w', put_vlq limit v w = Some w' /\ holds w' (got ++ Vlq.vlq_encode v) (room - vlq_length v).
Proof.
  intros Hw Hv Hl Hr. unfold put_vlq. rewrite (proj2 (Z.ltb_ge _ _)) by lia. rewrite <- zlen_vlq by done.
  apply writer_put_ok; [done|apply vlq_bytes_ok|]. by rewrite zlen_vlq.
Qed.

(** ** Heads *)

Lemma load_le_byte (mem pre : list Z) (b off : Z) (post : list Z) : mem = pre ++ b :: post -> off = zlen pre -> load_le mem off 1 = Some b.
Proof.
  intros -> ->. unfold load_le. rewrite (load_app_at _ pre [b] post) by done. cbn [fmap option_fmap option_map].
  rewrite le_val_cons, le_val_nil. f_equal. lia.
Qed.

Lemma byte_head (b t : Z) : 0 <= b < 128 -> t = 0 \/ t = 128 ->
  Z.land (Z.lor b t) 127 = b /\ Z.land (Z.lor b t) 128 = t /\ is_byte (Z.lor b t).
Proof.
  intros Hb Ht. pose proof (forallb_bytes (fun b => (128 <=? b) ||
     (Z.land (Z.lor b 0) 127 =? b) && (Z.land (Z.lor b 0) 128 =? 0) && (Z.lor b 0 <? 256) && (0 <=? Z.lor b 0) &&
     (Z.land (Z.lor b 128) 127 =? b) && (Z.land (Z.lor b 128) 128 =? 128) && (Z.lor b 128 <? 256) && (0 <=? Z.lor b 128))
     ltac:(vm_compute; reflexivity) b ltac:(unfold in_range; lia)) as H. cbv beta in H.
  rewrite (proj2 (Z.leb_gt _ _)) in H by lia. cbn [orb] in H. repeat (apply andb_true_iff in H as [H ?]).
  rewrite ?Z.eqb_eq, ?Z.ltb_lt, ?Z.leb_le in *. unfold in_range. destruct Ht as [-> | ->]; lia.
Qed.

(** An item of type [t]: the length of the body behind a byte with the type, or with the type
    in its own first byte. *)
Inductive framed (t : Z) (body : list Z) : list Z -> Prop :=
  | framed_wide : framed t body (t :: Vlq.vlq_encode (zlen body) ++ body)
  | framed_tight b tl :
      Vlq.vlq_encode (zlen body) = b :: tl -> 0 < b < 128 -> framed t body (Z.lor b t :: tl ++ body).

(** What the reader makes of it. *)
Lemma framed_decode (t : Z) (body i : list Z) :
  t = 0 \/ t = 128 -> zlen body < 2 ^ 32 -> framed t body i -> forall s, decode_item (i ++ s) = Some (negb (t =? 0), body, s).
Proof.
  intros Ht Hb Hi s. pose proof (zlen_nonneg body) as Hb0. assert (in_range 64 (zlen body)) as H64 by (unfold in_range; lia).
  unfold decode_item. destruct Hi as [|b tl E Hbr]; cbn [app]; rewrite <- app_assoc.
  - assert (Z.land t 127 = 0 /\ negb (Z.land t 128 =? 0) = negb (t =? 0)) as [-> ->] by (destruct Ht as [-> | ->]; done).
    cbn [Z.eqb]. rewrite take_vlq_encode by done. cbn [mbind option_bind]. by rewrite take_bytes_app.
  - destruct (byte_head b t ltac:(lia) Ht) as (-> & -> & _). destruct (Z.eqb_spec b 0); [lia|].
    change (b :: tl ++ body ++ s) with ((b :: tl) ++ body ++ s). rewrite <- E, take_vlq_encode by done. cbn [mbind option_bind].
    by rewrite take_bytes_app.
Qed.

(** The head that is written is that of an item. *)
Lemma write_head_ok (t min prealloc : Z) (pre body rest : list Z) :
  t = 0 \/ t = 128 -> 1 <= min <= 7 -> prealloc = 1 + min -> zlen pre = prealloc -> zlen body < 2 ^ 32 ->
  vlq_length (zlen body) = min \/ vlq_length (zlen body) = 1 + min ->
  exists head, write_head t min prealloc (pre ++ body ++ rest, prealloc + zlen body) = Some (Some (head ++ body ++ rest)) /\
    zlen head = prealloc /\ bytes_ok head /\ framed t body (head ++ body).
Proof.
  intros Ht Hmin -> Hpre Hb HL. pose proof (zlen_nonneg body) as Hb0.
  assert (in_range 64 (zlen body)) as H64 by (unfold in_range; lia).
  pose proof (zlen_vlq _ H64) as Hz. unfold write_head. cbn [fst snd]. replace (1 + min + zlen body - (1 + min)) with (zlen body) by lia.
  destruct (Z.eqb_spec (vlq_length (zlen body)) min) as [E|E]; cbn [negb].
  - destruct pre as [|p0 pre]; [change (zlen (@nil Z)) with 0 in Hpre; lia|]. rewrite zlen_cons in Hpre.
    rewrite (store_app_at _ [p0] pre (Vlq.vlq_encode (zlen body)) (body ++ rest)); [|done|done|lia]. cbn [mbind option_bind].
    rewrite (store_app_at _ [] [p0] [t] (Vlq.vlq_encode (zlen body) ++ body ++ rest)); [|done|done|done]. cbn [mbind option_bind app].
    exists (t :: Vlq.vlq_encode (zlen body)). split; [done|]. split; [rewrite zlen_cons; lia|].
    split; [constructor; [unfold in_range; lia|apply vlq_bytes_ok]|]. apply framed_wide.
  - destruct HL as [HL|HL]; [lia|]. rewrite HL, Z.eqb_refl. cbn [negb].
    rewrite (store_app_at _ [] pre (Vlq.vlq_encode (zlen body)) (body ++ rest)); [|done|done|lia]. cbn [mbind option_bind app].
    destruct (vlq_first (zlen body) H64) as (b & tl & Eenc & Hbr); [lia|]. rewrite Eenc in *.
    cbn [app]. rewrite (load_le_byte _ [] b 0 (tl ++ body ++ rest)) by done. cbn [mbind option_bind].
    rewrite (store_app_at _ [] [b] [Z.lor b t] (tl ++ body ++ rest)); [|done|done|done]. cbn [mbind option_bind app].
    exists (Z.lor b t :: tl). split; [done|]. split; [rewrite zlen_cons in *; lia|].
    split; [|by apply framed_tight]. pose proof (vlq_bytes_ok (zlen body)) as Hvb. rewrite Eenc in Hvb. apply Forall_cons_1 in Hvb as [_ Hvb].
    constructor; [by apply (byte_head b t ltac:(lia) Ht)|done].
Qed.

(** ** Texts *)

Lemma bytes_units_ok (n : nat) (s : list Z) :
  bytes_ok s -> Forall (in_range 16) (bytes_units n s) /\ length (bytes_units n s) = n.
Proof.
  revert s. induction n as [|n IH]; intros s Hs; [by split|]. cbn [bytes_units].
  destruct (IH (drop 2 s)) as [H1 H2]; [by apply Forall_drop|]. split; [constructor; [|done]|cbn; by rewrite H2].
  assert (bytes_ok (take 2 s)) as Ht by by apply Forall_take. apply le_val_range in Ht. unfold in_range.
  assert (256 ^ Z.of_nat (length (take 2 s)) <= 2 ^ 16); [|lia]. change 256 with (2 ^ 8). rewrite <- Z.pow_mul_r by lia.
  apply Z.pow_le_mono_r; [lia|]. rewrite length_take. lia.
Qed.

Lemma utf_mixed_ok (src : list Z) (dst_num : Z) :
  Forall (in_range 16) src -> 2 * zlen src + 1 <= dst_num < 2 ^ 32 ->
  exists mixed, utf16_to_utf_mixed src dst_num = Some mixed /\ zlen src <= zlen mixed <= 2 * zlen src + 1 /\ bytes_ok mixed /\
    mixed_text mixed = utf16_to_utf8_sw src /\ (head mixed = Some 0 -> head (utf16_to_utf8_sw src) = Some 0).
Proof.
  intros Hok Hn. destruct (utf16_to_utf8_encodes src Hok) as [Es _]. unfold utf16_to_utf_mixed.
  destruct (ascii_run src) as [run rest] eqn:E. apply ascii_run_spec in E as [-> Hrun].
  pose proof Hok as Hok'. apply Forall_app in Hok' as [Hrok Hrest].
  rewrite zlen_app in *. pose proof (zlen_nonneg run). pose proof (zlen_nonneg rest).
  rewrite (proj2 (Z.leb_gt dst_num _)) by lia.
  rewrite decode_ascii, bind_app, encode_ascii in Es by done.
  assert (bytes_ok run) as Hrb.
  { apply Forall_forall. intros c Hc. rewrite Forall_forall in Hrun, Hrok. specialize (Hrun c Hc). specialize (Hrok c Hc).
    cbv beta in Hrun. unfold in_range in *. lia. }
  destruct rest as [|c rest].
  - exists run. change (zlen (@nil Z)) with 0. split; [done|]. split; [lia|]. split; [done|].
    unfold mixed_text. rewrite find_mark_ascii by done. rewrite Es. cbn [utf16_decode mbind list_bind]. by rewrite !app_nil_r.
  - set (units := c :: rest) in *. clearbody units.
    rewrite (wrap_small 32 (_ - _)) by (unfold in_range; lia). rewrite (proj2 (Z.ltb_ge _ _)) by lia.
    exists (run ++ 255 :: unit_bytes units). split; [done|].
    rewrite zlen_app, zlen_cons, zlen_unit_bytes. split; [lia|]. split.
    { apply Forall_app. split; [done|]. constructor; [unfold in_range; lia|apply unit_bytes_ok]. }
    unfold mixed_text. rewrite find_mark_app by done. rewrite zlen_unit_bytes, (Z.mul_comm 2), Z.div_mul by lia.
    unfold zlen at 1. rewrite Nat2Z.id, bytes_units_bytes by done.
    destruct (utf16_to_utf8_encodes units Hrest) as [Eu _]. rewrite Eu, Es. split; [done|].
    destruct run as [|r run]; cbn; [by intros [=]|done].
Qed.

(** ** Arguments *)

Lemma zigzag_wide (w v : Z) : In w [16; 32; 64] -> Zigzag.in_signed w v ->
  in_range w (Zigzag.encode w v) /\ Zigzag.decode 64 (Zigzag.encode w v) = v.
Proof.
  intros Hw Hv. assert (1 < w <= 64) as Hw1 by (cbn in Hw; destruct Hw as [<-|[<-|[<-|[]]]]; lia).
  split; [apply Zigzag.encode_range; [lia|done]|]. unfold Zigzag.in_signed in Hv.
  pose proof (Z.pow_le_mono_r 2 (w - 1) 63 ltac:(lia) ltac:(lia)).
  destruct (Zigzag.encode_cases w v) as [[H0 ->]|[H0 ->]]; [lia|done| |].
  - apply Zigzag.decode_even; lia.
  - replace (-2 * v - 1) with (2 * (- v - 1) + 1) by lia. rewrite Zigzag.decode_odd; lia.
Qed.

(** The argument at [pos] is appended as [E], which is not too long, not too short, and reads
    back. *)
Definition arg_written (args : list Z) (pos n : Z) (a : Z * value) (w : writer) (got : list Z) (room : Z) : Prop :=
  exists w' E, write_arg args pos w = Some (w', pos + n) /\ holds w' (got ++ E) (room - zlen E) /\
    1 <= zlen E <= 2 * n /\ n <= 12 * zlen E /\ bytes_ok E /\ forall rest, decode_arg (E ++ rest) = Some (a, rest).

Lemma put_skip (enc got : list Z) (tag room n pos : Z) (w : writer) :
  holds w (got ++ [tag]) (room - 1) -> bytes_ok enc -> zlen enc <= room - 1 -> 0 <= pos + n < 2 ^ 32 ->
  exists w', (w ← put enc w; skip n pos w) = Some (w', pos + n) /\ holds w' (got ++ tag :: enc) (room - zlen (tag :: enc)).
Proof.
  intros Hw Hb Hl Hp. destruct (writer_put_ok enc _ _ w Hw Hb Hl) as (w' & -> & Hw'). cbn [mbind option_bind]. unfold skip.
  rewrite wrap_small by done. exists w'. split; [done|]. rewrite zlen_cons. rewrite <- app_assoc in Hw'.
  by replace (room - (1 + zlen enc)) with (room - 1 - zlen enc) by lia.
Qed.

Lemma put_vlq_skip (limit v : Z) (got : list Z) (tag room n pos : Z) (w : writer) :
  holds w (got ++ [tag]) (room - 1) -> in_range 64 v -> vlq_length v <= limit -> vlq_length v <= room - 1 -> 0 <= pos + n < 2 ^ 32 ->
  exists w', (w ← put_vlq limit v w; skip n pos w) = Some (w', pos + n) /\
    holds w' (got ++ tag :: Vlq.vlq_encode v) (room - zlen (tag :: Vlq.vlq_encode v)).
Proof.
  intros Hw Hv Hlim Hl Hp. unfold put_vlq. rewrite (proj2 (Z.ltb_ge _ _)) by lia.
  apply put_skip; [done|apply vlq_bytes_ok| |done]. by rewrite zlen_vlq.
Qed.

Lemma take_string_encode (t rest : list Z) (pad : list Z) :
  zlen t < 2 ^ 32 -> pad = [] /\ head t <> Some 0 \/ pad = [0] /\ t <> [] \/ pad = [] /\ t = [] ->
  take_string (Vlq.vlq_encode (zlen t) ++ pad ++ t ++ rest) = Some (t, rest).
Proof.
  intros Hl Hp. pose proof (zlen_nonneg t). unfold take_string. rewrite take_vlq_encode by (unfold in_range; lia).
  cbn [mbind option_bind]. destruct Hp as [[-> Hh]|[[-> Hne]|[-> ->]]].
  - destruct t as [|c t]; [by apply (take_bytes_app [] rest 0)|]. cbn [app head]. rewrite bool_decide_eq_false_2 by done. rewrite andb_false_r.
    change (c :: t ++ rest) with ((c :: t) ++ rest). by rewrite take_bytes_app.
  - destruct (Z.eqb_spec (zlen t) 0) as [E|_].
    { destruct t; [done|]. rewrite zlen_cons in E. pose proof (zlen_nonneg t). lia. }
    cbn [negb andb app head tail]. rewrite bool_decide_eq_true_2 by done. by rewrite take_bytes_app.
  - by apply (take_bytes_app [] rest 0).
Qed.

Lemma split_at_len (s : list Z) (n : Z) : 0 <= n <= zlen s -> exists a b, s = a ++ b /\ zlen a = n /\ zlen b = zlen s - n.
Proof.
  intros H. exists (take (Z.to_nat n) s), (drop (Z.to_nat n) s). rewrite take_drop. split; [done|].
  split; [by apply zlen_take|by apply zlen_drop].
Qed.

Lemma put_utf16_ok (str got : list Z) (room : Z) (w : writer) :
  holds w got room -> bytes_ok str -> zlen str < 2 ^ 30 -> zlen str + 6 <= room ->
  (head (units_text str) <> Some 0) ->
  exists w' E, put_utf16 (zlen str) str w = Some w' /\ holds w' (got ++ E) (room - zlen E) /\
    zlen str <= 2 * zlen E /\ 1 <= zlen E <= zlen str + 6 /\ bytes_ok E /\
    forall rest, (take_string (E ++ rest)) ≫= (fun '(t, s) => Some (mixed_text t, s)) = Some (units_text str, rest).
Proof.
  intros Hw Hok Hn Hroom Hnz. pose proof (holds_room _ _ _ Hw) as [_ Hbound]. destruct Hw as (r & Ed & Hr & Ec & _ & Hby).
  rewrite Ed in Hby. apply Forall_app in Hby as [Hgb Hrb].
  pose proof (zlen_nonneg str) as Hs0. pose proof (zlen_nonneg got) as Hg0.
  unfold put_utf16, units_text in *. set (n := zlen str) in *.
  assert (Z.shiftr n 1 = n / 2) as -> by (rewrite Z.shiftr_div_pow2 by lia; done). set (k := n / 2) in *.
  pose proof (Z.div_mod n 2 ltac:(lia)) as Hdm. pose proof (Z.mod_pos_bound n 2 ltac:(lia)) as Hm2. fold k in Hdm.
  assert (u32 (Z.shiftr (u32 (n * 3)) 1 + 1) = n * 3 / 2 + 1) as ->.
  { rewrite (wrap_small 32 (n * 3)) by (unfold in_range; lia). rewrite Z.shiftr_div_pow2 by lia. change (2 ^ 1) with 2.
    apply wrap_small. unfold in_range. assert (0 <= n * 3 / 2 <= n * 3) by (split; [apply Z.div_pos; lia|apply Z.div_le_upper_bound; lia]). lia. }
  pose proof (Z.div_mod (n * 3) 2 ltac:(lia)) as Hdm3. pose proof (Z.mod_pos_bound (n * 3) 2 ltac:(lia)) as Hm3.
  set (mx := n * 3 / 2 + 1) in *.
  destruct (bytes_units_ok (Z.to_nat k) str Hok) as [Hu Hul].
  assert (zlen (bytes_units (Z.to_nat k) str) = k) as Huz by (unfold zlen; lia).
  destruct (utf_mixed_ok (bytes_units (Z.to_nat k) str) mx Hu) as (mixed & Emix & Hml & Hmok & Htext & Hhead); [lia|].
  rewrite Huz in Hml. rewrite Emix. cbn [mbind option_bind]. set (m := zlen mixed) in *.
  assert (in_range 64 m /\ in_range 64 mx) as [Hm64 Hx64] by (unfold in_range; lia).
  destruct (vlq_length_close mx m Hx64) as [Hc1 Hc2]; [lia|lia|].
  pose proof (vlq_length_range _ Hm64). pose proof (vlq_length_32 mx ltac:(unfold in_range; lia)) as Hx5.
  pose proof (zlen_vlq m Hm64) as Hzv. set (pre := vlq_length mx) in *.
  destruct (split_at_len r pre) as (R1 & r2 & -> & H1 & H2); [lia|]. destruct (split_at_len r2 m) as (R2 & R3 & -> & H3 & H4); [lia|].
  destruct (split_at_len R1 (vlq_length m)) as (V & P & -> & H5 & H6); [lia|].
  apply Forall_app in Hrb as [_ Hrb]. apply Forall_app in Hrb as [_ Hrb].
  rewrite Ed, Ec. rewrite (store_app_at _ (got ++ V ++ P) R2 mixed R3); [|by rewrite <- !app_assoc|rewrite !zlen_app in *; lia|done].
  cbn [mbind option_bind]. fold m. rewrite (proj2 (Z.ltb_ge _ _)) by (unfold VLQ_MAX_SIZE, Vlq.vlq_max_bytes_count; lia).
  rewrite (store_app_at _ got V (Vlq.vlq_encode m) (P ++ mixed ++ R3)); [|by rewrite <- !app_assoc|done|lia].
  cbn [mbind option_bind].
  assert (0 <= zlen got + (pre + m) < 2 ^ 32) as Hcur by (rewrite !zlen_app in *; lia).
  rewrite (wrap_small 32 (pre + m)) by (unfold in_range; lia). rewrite (wrap_small 32 (zlen got + (pre + m))) by (unfold in_range; lia).
  assert (forall pad, zlen pad = zlen P -> bytes_ok pad ->
    (pad = [] /\ head mixed <> Some 0 \/ pad = [0] /\ mixed <> [] \/ pad = [] /\ mixed = []) ->
    exists w' E, Some (got ++ Vlq.vlq_encode m ++ pad ++ mixed ++ R3, zlen got + (pre + m)) = Some w' /\
      holds w' (got ++ E) (room - zlen E) /\ n <= 2 * zlen E /\ 1 <= zlen E <= n + 6 /\ bytes_ok E /\
      forall rest, (take_string (E ++ rest)) ≫= (fun '(t, s) => Some (mixed_text t, s)) =
        Some (utf16_to_utf8_sw (bytes_units (Z.to_nat k) str), rest)) as HF.
  { intros pad Hpl Hpok Hcase. eexists _, (Vlq.vlq_encode m ++ pad ++ mixed). split; [done|].
    assert (zlen (Vlq.vlq_encode m ++ pad ++ mixed) = pre + m) as Hz by (rewrite !zlen_app; unfold m in *; lia).
    rewrite !zlen_app in *. split.
    { exists R3. cbn. rewrite <- !app_assoc. rewrite !zlen_app. unfold m in *. split_and!; [done|lia|lia|lia|].
      repeat (apply Forall_app; split); (done || apply vlq_bytes_ok). }
    split; [unfold m in *; lia|]. split; [unfold m in *; lia|]. split.
    { repeat (apply Forall_app; split); [apply vlq_bytes_ok|done|done]. }
    intros rest. rewrite <- !app_assoc. unfold m. rewrite take_string_encode by (done || (fold m; lia)). cbn [mbind option_bind]. by rewrite Htext. }
  rewrite zlen_app in H1. destruct (Z.eqb_spec (vlq_length m) pre) as [Eq|Hne].
  - assert (P = []) as -> by (destruct P; [done|rewrite zlen_cons in H6; pose proof (zlen_nonneg P); rewrite zlen_app, zlen_cons in *; lia]).
    apply (HF []); [done|done|]. left. split; [done|]. intros E0. by apply Hnz, Hhead.
  - destruct (Z.eqb_spec (vlq_length m + 1) pre) as [Eq|]; [|lia].
    assert (exists x, P = [x]) as [x ->].
    { destruct P as [|x [|y P]]; [change (zlen (@nil Z)) with 0 in *; lia|by exists x|]. rewrite !zlen_cons in *. pose proof (zlen_nonneg P). lia. }
    rewrite (store_app_at _ (got ++ Vlq.vlq_encode m) [x] [0] (mixed ++ R3)); [|by rewrite <- !app_assoc|rewrite zlen_app; lia|done].
    cbn [mbind option_bind]. rewrite <- !app_assoc. apply (HF [0]); [done|by repeat constructor|]. right. left. split; [done|].
    intros E0. assert (m = 0) as E1 by (unfold m; by rewrite E0). assert (vlq_length mx = 1) as E2; [|unfold pre in *; rewrite E1 in *; lia].
    pose proof (vlq_length_small mx 1 ltac:(rewrite Vlq.max_value_1; lia) ltac:(cbn; tauto)). pose proof (vlq_length_range mx Hx64). lia.
Qed.

(** A text does not begin with a zero byte, which the reader would take for the one behind
    a length. *)
Definition plain (a : Z * value) : Prop := match a.2 with V_text t => head t <> Some 0 | _ => True end.

Lemma load_bytes (args : list Z) (off n : Z) (bs : list Z) :
  bytes_ok args -> load args off n = Some bs -> bytes_ok bs /\ zlen bs = n /\ 0 <= le_val bs < 256 ^ n.
Proof.
  intros Hok H. pose proof (load_bytes_ok _ _ _ _ H Hok) as Hb. pose proof H as H'. apply load_inv in H' as (? & ? & ? & _ & E).
  pose proof (le_val_range bs Hb) as Hr. unfold zlen in *. split; [done|]. split; [lia|]. by rewrite E in Hr.
Qed.

Lemma arg_written_intro (args : list Z) (pos n tag tag' : Z) (v : value) (w : writer) (got E : list Z) (room : Z)
    (op : option (writer * Z)) :
  write_arg args pos w = op -> (exists w', op = Some (w', pos + n) /\ holds w' (got ++ tag' :: E) (room - zlen (tag' :: E))) ->
  4 <= n -> zlen E <= 2 * n - 1 -> n <= 12 * (1 + zlen E) -> is_byte tag' -> bytes_ok E -> tag = tag' ->
  (forall rest, decode_arg (tag' :: E ++ rest) = Some ((tag', v), rest)) ->
  arg_written args pos n (tag, v) w got room.
Proof.
  intros Hop (w' & -> & Hw) Hn H1 H2 Ht HE -> Hd. exists w', (tag' :: E). pose proof (zlen_nonneg E).
  split_and!; [done|done|rewrite zlen_cons; lia|rewrite zlen_cons; lia|rewrite zlen_cons; lia|by constructor|done].
Qed.

Section Cell.
Context (args : list Z) (pos : Z) (w w1 : writer) (got : list Z) (room : Z) (t : ArgumentTag).
Hypothesis Hok : bytes_ok args.
Hypothesis Htag : load_le args pos 1 = Some (tag_code t).
Hypothesis Hput : put [tag_code t] w = Some w1.
Hypothesis Hw1 : holds w1 (got ++ [tag_code t]) (room - 1).
Hypothesis Hpos : 0 <= pos.

(** A value that is copied. *)
Lemma cell_copied (off size n : Z) (bs : list Z) (v : value) :
  write_arg args pos w = (b ← load args (pos + off) size; w' ← put b w1; skip n pos w') ->
  load args (pos + off) size = Some bs -> 4 <= n -> 0 <= size -> n <= 12 * (1 + size) -> size <= 2 * n - 1 -> pos + n < 2 ^ 32 ->
  size <= room - 1 -> (forall rest, decode_arg (tag_code t :: bs ++ rest) = Some ((tag_code t, v), rest)) ->
  arg_written args pos n (tag_code t, v) w got room.
Proof.
  intros Hop Hl Hn Hs Hn2 Hs2 Hb Hr Hd. destruct (load_bytes _ _ _ _ Hok Hl) as (Hbs & Hz & _).
  apply (arg_written_intro args pos n _ (tag_code t) v w got bs room _ Hop); [|lia|lia|lia|apply tag_code_byte|done|done|done].
  rewrite Hl. cbn [mbind option_bind]. apply put_skip; [done|done|lia|lia].
Qed.

(** A value that is encoded as a variable length integer. *)
Lemma cell_vlq (off size n limit : Z) (f g : Z -> Z) (x : Z) :
  write_arg args pos w = (v ← load_le args (pos + off) size; w' ← put_vlq limit (f v) w1; skip n pos w') ->
  load_le args (pos + off) size = Some x -> 4 <= n <= 12 -> in_range 64 (f x) -> vlq_length (f x) <= limit -> limit <= 2 * n - 1 ->
  pos + n < 2 ^ 32 -> limit <= room - 1 ->
  (forall rest, decode_arg (tag_code t :: Vlq.vlq_encode (f x) ++ rest) = Some ((tag_code t, V_number (g x)), rest)) ->
  arg_written args pos n (tag_code t, V_number (g x)) w got room.
Proof.
  intros Hop Hl Hn Hf Hlen Hlim Hb Hr Hd. pose proof (vlq_length_range _ Hf) as HL.
  apply (arg_written_intro args pos n _ (tag_code t) _ w got (Vlq.vlq_encode (f x)) room _ Hop);
    [|lia|rewrite zlen_vlq by done; lia|rewrite zlen_vlq by done; lia|apply tag_code_byte|apply vlq_bytes_ok|done|done].
  rewrite Hl. cbn [mbind option_bind]. apply put_vlq_skip; [done|done|done|lia|lia].
Qed.

End Cell.

Lemma raw_arg_size (args : list Z) (pos n : Z) (a : Z * value) : bytes_ok args -> raw_arg args pos = Some (a, n) -> 4 <= n.
Proof.
  intros Hok H. unfold raw_arg in H. apply bind_Some in H as (tag & _ & H). destruct (tag_of_code tag) as [[]|]; try done;
    repeat (apply bind_Some in H as (? & ? & H)); injection H as _ <-; try lia;
    match goal with H : load_le args (pos + 4) 4 = Some ?x |- _ =>
      apply load_le_inv in H as (_ & _ & ?); [|done]; pose proof (up4_bounds x) end; lia.
Qed.

(** The tag of an argument goes first, whatever the type. *)
Lemma write_arg_tag (args : list Z) (pos : Z) (w w1 : writer) (t : ArgumentTag) :
  load_le args pos 1 = Some (tag_code t) -> put [tag_code t] w = Some w1 ->
  write_arg args pos w =
    match Some t with
    | Some unsupported_type => Some (w1, zlen args)
    | Some null_type => skip 4 pos w1
    | Some (pointer_type | double_type) => v ← load args (pos + 4) 8; w ← put v w1; skip 12 pos w
    | Some (bool_type | char_type | int8_type | uint8_type) => v ← load args (pos + 2) 1; w ← put v w1; skip 4 pos w
    | Some (char16_type | uint16_type) => v ← load_le args (pos + 2) 2; w ← put_vlq VLQ_MAX_SIZE v w1; skip 4 pos w
    | Some int16_type => v ← load_le args (pos + 2) 2; w ← put_vlq VLQ_MAX_SIZE (Zigzag.encode 16 (to_signed 16 v)) w1; skip 4 pos w
    | Some (char32_type | uint32_type) => v ← load_le args (pos + 4) 4; w ← put_vlq VLQ_MAX_SIZE v w1; skip 8 pos w
    | Some int32_type => v ← load_le args (pos + 4) 4; w ← put_vlq VLQ_MAX_SIZE (Zigzag.encode 32 (i32 v)) w1; skip 8 pos w
    | Some float_type => v ← load args (pos + 4) 4; w ← put v w1; skip 8 pos w
    | Some uint64_type => v ← load_le args (pos + 4) 8; w ← put_vlq VLQ_MAX_SIZE_64 v w1; skip 12 pos w
    | Some int64_type => v ← load_le args (pos + 4) 8; w ← put_vlq VLQ_MAX_SIZE_64 (Zigzag.encode 64 (i64 v)) w1; skip 12 pos w
    | Some string_utf8_type =>
        n ← load_le args (pos + 4) 4; w ← put_vlq VLQ_MAX_SIZE n w1; str ← load args (pos + 8) n; w ← put str w;
        skip (u32 (4 + 4 + align_4 n)) pos w
    | Some string_utf16_type =>
        w2 ← (data ← store w1.1 (w1.2 - 1) [tag_code string_utf_mixed_type]; Some (data, w1.2));
        n ← load_le args (pos + 4) 4; str ← load args (pos + 8) n; w ← put_utf16 n str w2;
        skip (u32 (4 + 4 + align_4 n)) pos w
    | _ => Some (w1, pos)
    end.
Proof. intros E1 E2. unfold write_arg. rewrite E1. cbn [mbind option_bind]. rewrite E2. cbn [mbind option_bind]. rewrite tag_of_tag_code. by destruct t. Qed.

Lemma decode_tag (t : ArgumentTag) (s : list Z) :
  decode_arg (tag_code t :: s) =
    '(v, s) ← match Some t with
              | Some null_type => Some (V_none, s)
              | Some (bool_type | char_type | uint8_type) => '(b, s) ← take_bytes 1 s; Some (V_number (le_val b), s)
              | Some int8_type => '(b, s) ← take_bytes 1 s; Some (V_number (to_signed 8 (le_val b)), s)
              | Some (char16_type | uint16_type | char32_type | uint32_type | uint64_type) =>
                  '(n, s) ← take_vlq s; Some (V_number n, s)
              | Some (int16_type | int32_type | int64_type) => '(n, s) ← take_vlq s; Some (V_number (Zigzag.decode 64 n), s)
              | Some (pointer_type | double_type) => '(b, s) ← take_bytes 8 s; Some (V_number (le_val b), s)
              | Some float_type => '(b, s) ← take_bytes 4 s; Some (V_number (le_val b), s)
              | Some string_utf8_type => '(t, s) ← take_string s; Some (V_text t, s)
              | Some string_utf_mixed_type => '(t, s) ← take_string s; Some (V_text (mixed_text t), s)
              | _ => None
              end;
    Some ((tag_code t, v), s).
Proof. unfold decode_arg. by rewrite tag_of_tag_code. Qed.

Ltac by_decoding := match goal with E : forall s : list Z, decode_arg (_ :: s) = _ |- _ => rewrite E end.

(** [copied off size t]: the case of a tag whose value is copied. *)
Ltac copied off size t :=
  lazymatch goal with Hraw : _ = Some (_, ?n), Hok : bytes_ok ?args, Hw1 : holds ?w1 (_ ++ [_]) _ |- arg_written ?args ?pos ?n _ _ _ _ =>
    unfold load_le in Hraw; destruct (load args (pos + off) size) as [bs|] eqn:El in Hraw; [|done]; cbn [fmap option_fmap option_map mbind option_bind] in Hraw;
    injection Hraw as <- <-; destruct (load_bytes _ _ _ _ Hok El) as (_ & Hz & _);
    apply (cell_copied args pos _ w1 _ _ t Hok Hw1 ltac:(lia) off size _ bs _); [done|done|lia|lia|lia|lia|lia|lia|];
    intros rest; by_decoding; rewrite take_bytes_app by done; done
  end.

(** The case of a tag whose value is encoded: [f] before, [g] is what it stands for. *)
Ltac encoded off size f g limit t tac :=
  lazymatch goal with Hraw : _ = Some (_, ?n), Hok : bytes_ok ?args, Hw1 : holds ?w1 (_ ++ [_]) _ |- arg_written ?args ?pos ?n _ _ _ _ =>
    destruct (load_le args (pos + off) size) as [x|] eqn:El in Hraw; [|done]; cbn [mbind option_bind] in Hraw;
    injection Hraw as <- <-; pose proof (load_le_inv _ _ _ _ Hok El) as (_ & _ & Hx);
    assert (in_range 64 (f x) /\ vlq_length (f x) <= limit) as [Hf Hfl] by tac x Hx;
    apply (cell_vlq args pos _ w1 _ _ t Hw1 ltac:(lia) off size _ limit f g x); [done|done|lia|done|done|lia|lia|lia|];
    intros rest; by_decoding; rewrite take_vlq_encode by done; cbn [mbind option_bind]; try done
  end.

Ltac small_range x Hx := split; [unfold in_range; lia|apply vlq_length_32; unfold in_range; lia].
Ltac wide_range x Hx := split; [unfold in_range; lia|apply vlq_length_range; unfold in_range; lia].
Ltac signed_range w x Hx :=
  destruct (zigzag_wide w (to_signed w x) ltac:(cbn; tauto) (to_signed_range w x ltac:(lia))) as [Hzr _];
  split; [unfold in_range in *; lia|first [apply vlq_length_32; unfold in_range in *; lia|apply vlq_length_range; done]].

Lemma cell_null (args : list Z) (pos : Z) (w w1 : writer) (got : list Z) (room : Z) :
  write_arg args pos w = skip 4 pos w1 -> holds w1 (got ++ [tag_code null_type]) (room - 1) -> 0 <= pos -> pos + 4 < 2 ^ 31 ->
  arg_written args pos 4 (tag_code null_type, V_none) w got room.
Proof.
  intros Hop Hw1 Hp Hb. apply (arg_written_intro args pos 4 _ (tag_code null_type) _ w got [] room _ Hop); try done.
  exists w1. unfold skip. rewrite wrap_small by (unfold in_range; lia). done.
Qed.

Lemma string_step (pos n : Z) : 0 <= pos -> 0 <= n -> pos + (8 + up4 n) < 2 ^ 31 ->
  u32 (4 + 4 + align_4 n) = 8 + up4 n /\ u32 (pos + (8 + up4 n)) = pos + (8 + up4 n).
Proof.
  intros Hp Hn Hb. pose proof (up4_bounds n). rewrite align_4_up4 by (unfold size_max; lia).
  split; apply wrap_small; unfold in_range; lia.
Qed.

Lemma cell_utf8 (args : list Z) (pos n : Z) (a : Z * value) (w w1 : writer) (got : list Z) (room : Z) :
  bytes_ok args -> zlen args < 2 ^ 30 -> 0 <= pos -> pos + n <= zlen args -> plain a -> 2 * n <= room ->
  (len ← load_le args (pos + 4) 4; t ← load args (pos + 8) len; Some ((tag_code string_utf8_type, V_text t), 8 + up4 len)) = Some (a, n) ->
  write_arg args pos w =
    (len ← load_le args (pos + 4) 4; w ← put_vlq 5 len w1; str ← load args (pos + 8) len; w ← put str w;
     skip (u32 (4 + 4 + align_4 len)) pos w) ->
  holds w1 (got ++ [tag_code string_utf8_type]) (room - 1) -> arg_written args pos n a w got room.
Proof.
  intros Hok Hl Hpos Hn Hplain Hroom Hraw Hop Hw1. destruct (load_le args (pos + 4) 4) as [len|] eqn:El; [|done].
  cbn [mbind option_bind] in *. destruct (load args (pos + 8) len) as [t|] eqn:Et; [|done]. cbn [mbind option_bind] in *.
  injection Hraw as <- <-. destruct (load_bytes _ _ _ _ Hok Et) as (Htok & Hz & _). apply load_le_inv in El as (_ & _ & Hlr); [|done].
  pose proof (up4_bounds len) as [Hup _]. assert (in_range 32 len) as H32 by (unfold in_range; lia).
  pose proof (vlq_length_32 len H32) as H5. assert (in_range 64 len) as H64 by (unfold in_range in *; lia). pose proof (vlq_length_range len H64).
  destruct (string_step pos len) as [E1 E2]; [lia|lia|lia|].
  apply (arg_written_intro args pos (8 + up4 len) _ (tag_code string_utf8_type) _ w got (Vlq.vlq_encode len ++ t) room _ Hop);
    [|lia|rewrite zlen_app, zlen_vlq by done; lia|rewrite zlen_app, zlen_vlq by done; lia|apply tag_code_byte| |done|].
  - destruct (put_vlq_ok 5 len _ _ w1 Hw1 H64) as (w2 & -> & Hw2); [lia|lia|]. cbn [mbind option_bind].
    destruct (writer_put_ok t _ _ w2 Hw2 Htok) as (w3 & -> & Hw3); [lia|]. cbn [mbind option_bind]. unfold skip. rewrite E1, E2.
    exists w3. split; [done|]. rewrite zlen_cons, zlen_app, zlen_vlq by done. rewrite <- !app_assoc in Hw3.
    by replace (room - (1 + (vlq_length len + zlen t))) with (room - 1 - vlq_length len - zlen t) by lia.
  - apply Forall_app. split; [apply vlq_bytes_ok|done].
  - intros rest. rewrite decode_tag, <- app_assoc.
    pose proof (take_string_encode t rest [] ltac:(unfold in_range in *; lia) ltac:(by left)) as E. rewrite Hz in E.
    cbn [app] in E. by rewrite E.
Qed.

Lemma cell_utf16 (args : list Z) (pos n : Z) (a : Z * value) (w w1 : writer) (got : list Z) (room : Z) :
  bytes_ok args -> zlen args < 2 ^ 30 -> 0 <= pos -> pos + n <= zlen args -> plain a -> 2 * n <= room ->
  (len ← load_le args (pos + 4) 4; t ← load args (pos + 8) len;
     Some ((tag_code string_utf_mixed_type, V_text (units_text t)), 8 + up4 len)) = Some (a, n) ->
  write_arg args pos w =
    (w2 ← (data ← store w1.1 (w1.2 - 1) [tag_code string_utf_mixed_type]; Some (data, w1.2));
     len ← load_le args (pos + 4) 4; str ← load args (pos + 8) len; w ← put_utf16 len str w2;
     skip (u32 (4 + 4 + align_4 len)) pos w) ->
  holds w1 (got ++ [tag_code string_utf16_type]) (room - 1) -> arg_written args pos n a w got room.
Proof.
  intros Hok Hl Hpos Hn Hplain Hroom Hraw Hop Hw1. destruct (load_le args (pos + 4) 4) as [len|] eqn:El; [|done].
  cbn [mbind option_bind] in Hraw. destruct (load args (pos + 8) len) as [t|] eqn:Et; [|done]. cbn [mbind option_bind] in Hraw.
  injection Hraw as <- <-. destruct (load_bytes _ _ _ _ Hok Et) as (Htok & Hz & _). apply load_le_inv in El as (_ & _ & Hlr); [|done].
  pose proof (up4_bounds len) as [Hup _]. destruct (string_step pos len) as [E1 E2]; [lia|lia|lia|].
  assert (exists w2, (data ← store w1.1 (w1.2 - 1) [tag_code string_utf_mixed_type]; Some (data, w1.2)) = Some w2 /\
    holds w2 (got ++ [tag_code string_utf_mixed_type]) (room - 1)) as (w2 & Ew2 & Hw2).
  { destruct Hw1 as (r & Ed & Hr & Ec & Hb & Hby). rewrite Ed in Hby. repeat (apply Forall_app in Hby as [Hby ?]). rewrite !zlen_app in *. change (zlen [_]) with 1 in *.
    rewrite Ed, Ec. rewrite (store_app_at _ got [tag_code string_utf16_type] [tag_code string_utf_mixed_type] r); [|by rewrite <- app_assoc|lia|done].
    eexists. split; [done|]. exists r. cbn. rewrite zlen_app, <- app_assoc. change (zlen [20]) with 1. split_and!; [done|lia|lia|lia|].
    repeat (apply Forall_app; split); try done. constructor; [apply (tag_code_byte string_utf_mixed_type)|done]. }
  rewrite Ew2 in Hop. cbn [mbind option_bind] in Hop. rewrite Et in Hop. cbn [mbind option_bind] in Hop. rewrite <- Hz in Hop at 1.
  destruct (put_utf16_ok t _ _ w2 Hw2 Htok) as (w3 & E & Ew3 & Hw3 & HE1 & HE2 & HEok & HEd); [lia|lia|exact Hplain|].
  rewrite Ew3 in Hop. cbn [mbind option_bind] in Hop.
  apply (arg_written_intro args pos (8 + up4 len) _ (tag_code string_utf_mixed_type) _ w got E room _ Hop);
    [|lia|lia|lia|apply tag_code_byte|done|done|].
  - unfold skip. rewrite E1, E2. exists w3. split; [done|]. rewrite zlen_cons. rewrite <- app_assoc in Hw3.
    by replace (room - (1 + zlen E)) with (room - 1 - zlen E) by lia.
  - intros rest. rewrite decode_tag. specialize (HEd rest). cbv beta iota. destruct (take_string (E ++ rest)) as [[t' s']|]; [|done].
    cbn [mbind option_bind] in *. by injection HEd as -> ->.
Qed.

Lemma write_arg_ok (args : list Z) (pos n : Z) (a : Z * value) (w : writer) (got : list Z) (room : Z) :
  bytes_ok args -> zlen args < 2 ^ 30 -> 0 <= pos -> pos + n <= zlen args -> raw_arg args pos = Some (a, n) -> plain a ->
  holds w got room -> 2 * n <= room -> arg_written args pos n a w got room.
Proof.
  intros Hok Hl Hpos Hn Hraw Hplain Hw Hroom. pose proof (raw_arg_size _ _ _ _ Hok Hraw) as Hn4. unfold raw_arg in Hraw.
  destruct (load_le args pos 1) as [tag|] eqn:Etag; [|done]. cbn [mbind option_bind] in Hraw.
  pose proof (load_le_inv _ _ _ _ Hok Etag) as (_ & _ & Htr).
  destruct (tag_of_code tag) as [t|] eqn:Et; [|done]. apply tag_of_code_inv in Et; [|lia]. subst tag.
  destruct (writer_put_ok [tag_code t] got room w Hw) as (w1 & Eput & Hw1); [by constructor; [apply tag_code_byte|]|change (zlen [tag_code t]) with 1; lia|].
  change (zlen [tag_code t]) with 1 in Hw1.
  pose proof (write_arg_tag args pos w w1 t Etag Eput) as Ewr. pose proof (decode_tag t) as Edec.
  unfold VLQ_MAX_SIZE, VLQ_MAX_SIZE_64, Vlq.vlq_max_bytes_count in Ewr.
  destruct t; try done; cbv beta iota in Hraw, Ewr, Edec.
  - injection Hraw as <- <-. apply (cell_null args pos w w1 got room); [done|done|done|lia].
  - copied 4 8 pointer_type.
  - copied 2 1 bool_type.
  - copied 2 1 char_type.
  - encoded 2 2 (fun x : Z => x) (fun x : Z => x) 5 char16_type small_range.
  - encoded 4 4 (fun x : Z => x) (fun x : Z => x) 5 char32_type small_range.
  - copied 2 1 int8_type.
  - copied 2 1 uint8_type.
  - encoded 2 2 (fun x : Z => Zigzag.encode 16 (to_signed 16 x)) (to_signed 16) 5 int16_type ltac:(signed_range 16).
    by rewrite (proj2 (zigzag_wide 16 _ ltac:(cbn; tauto) (to_signed_range 16 x ltac:(lia)))).
  - encoded 2 2 (fun x : Z => x) (fun x : Z => x) 5 uint16_type small_range.
  - encoded 4 4 (fun x : Z => Zigzag.encode 32 (to_signed 32 x)) (to_signed 32) 5 int32_type ltac:(signed_range 32).
    by rewrite (proj2 (zigzag_wide 32 _ ltac:(cbn; tauto) (to_signed_range 32 x ltac:(lia)))).
  - encoded 4 4 (fun x : Z => x) (fun x : Z => x) 5 uint32_type small_range.
  - encoded 4 8 (fun x : Z => Zigzag.encode 64 (to_signed 64 x)) (to_signed 64) 9 int64_type ltac:(signed_range 64).
    by rewrite (proj2 (zigzag_wide 64 _ ltac:(cbn; tauto) (to_signed_range 64 x ltac:(lia)))).
  - encoded 4 8 (fun x : Z => x) (fun x : Z => x) 9 uint64_type wide_range.
  - copied 4 4 float_type.
  - copied 4 8 double_type.
  - apply (cell_utf8 args pos n a w w1 got room); done.
  - apply (cell_utf16 args pos n a w w1 got room); done.
Qed.

Lemma write_args_ok (fuel : nat) (args : list Z) (pos : Z) (l : list (Z * value)) (w : writer) (got : list Z) (room : Z) :
  bytes_ok args -> zlen args < 2 ^ 30 -> 0 <= pos <= zlen args -> raw_args fuel args pos = Some l -> Forall plain l ->
  holds w got room -> 2 * (zlen args - pos) <= room ->
  exists w' E, write_args fuel args pos w = Some w' /\ holds w' (got ++ E) (room - zlen E) /\
    zlen E <= 2 * (zlen args - pos) /\ zlen args - pos <= 12 * zlen E /\ bytes_ok E /\
    forall f, (length E < f)%nat -> decode_args f E = Some l.
Proof.
  intros Hok Hl. revert pos l w got room. induction fuel as [|fuel IH]; intros pos l w got room Hpos Hraw Hpl Hw Hroom; [done|].
  cbn [raw_args write_args] in *. destruct (Z.ltb_spec pos (zlen args)) as [Hlt|Hge].
  - destruct (raw_arg args pos) as [[a n]|] eqn:Ea; [|done]. cbn [mbind option_bind] in Hraw.
    destruct (raw_args fuel args (pos + n)) as [l'|] eqn:El; [|done]. cbn [mbind option_bind] in Hraw. injection Hraw as <-.
    apply Forall_cons_1 in Hpl as [Ha Hpl]. pose proof (raw_arg_size _ _ _ _ Hok Ea) as Hn.
    assert (pos + n <= zlen args) as Hin.
    { destruct fuel as [|fuel]; [done|]. cbn [raw_args] in El. destruct (Z.ltb_spec (pos + n) (zlen args)); [lia|].
      destruct (Z.eqb_spec (pos + n) (zlen args)); [lia|done]. }
    destruct (write_arg_ok args pos n a w got room Hok Hl ltac:(lia) Hin Ea Ha Hw ltac:(lia)) as (w1 & E1 & Ew1 & Hw1 & HE1 & HE2 & HEok & HEd).
    rewrite Ew1. cbn [mbind option_bind].
    destruct (IH (pos + n) l' w1 _ _ ltac:(lia) El Hpl Hw1) as (w2 & E2 & Ew2 & Hw2 & HF1 & HF2 & HFok & HFd); [lia|].
    exists w2, (E1 ++ E2). rewrite !zlen_app, <- app_assoc in *. split; [done|].
    split; [by replace (room - (zlen E1 + zlen E2)) with (room - zlen E1 - zlen E2) by lia|].
    split; [lia|]. split; [lia|]. split; [by apply Forall_app|]. intros f Hf. rewrite length_app in Hf.
    destruct f as [|f]; [lia|]. cbn [decode_args]. destruct E1 as [|e E1]; [change (zlen (@nil Z)) with 0 in HE1; lia|].
    cbn [app]. change (e :: E1 ++ E2) with ((e :: E1) ++ E2). rewrite HEd. cbn [mbind option_bind].
    rewrite HFd; [done|]. cbn [length] in Hf. lia.
  - destruct (Z.eqb_spec pos (zlen args)) as [->|]; [|done]. injection Hraw as <-. exists w, [].
    rewrite app_nil_r. change (zlen (@nil Z)) with 0. rewrite Z.sub_0_r. split_and!; [done|done|lia|lia|done|].
    intros f Hf. destruct f; [cbn in Hf; lia|done].
Qed.
