(* ===== verification/CompressedTheorems.v ===== *)
(** * The compressed appender: every record can be read back

    Each of the three items that [log_impl] may append is decoded by the reader of
    [CompressedSpec]; the caches give indices of templates that have been written; hence a
    file decodes to the records that were logged, in order. *)
From stdpp Require Import base list option numbers gmap.
From Stdlib Require Import ZArith Lia Bool.
From S2P Require Import Prelude LogUtils Memory Hash ArgSerialization HashCache HashCacheTheorems LogEntry Utf FileCache.
From S2P Require Import FileFlush FileCacheTheorems Compressed CompressedSpec CompressedWriter.
Import FileCache Compressed.

#[local] Set Bullet Behavior "Strict Subproofs".

(** ** Items *)

Definition type_of (entry : bool) : Z := if entry then log_entry else log_template.

Record item (i : list Z) (entry : bool) (body : list Z) : Prop := {
  it_framed : framed (type_of entry) body i;
  it_size : 2 <= zlen body < 2 ^ 31 }.

Lemma item_read (i : list Z) (entry : bool) (body s : list Z) : item i entry body -> decode_item (i ++ s) = Some (entry, body, s).
Proof.
  intros [Hf Hs]. rewrite (framed_decode (type_of entry) body i); [by destruct entry|destruct entry; [by right|by left]|lia|done].
Qed.

Lemma item_some (i : list Z) (entry : bool) (body : list Z) : item i entry body -> i <> [].
Proof. by intros [[] _]. Qed.

(** The place that is kept for the length suits every body that is not too short. *)
Lemma head_place (max real : Z) :
  in_range 32 max -> 0 <= real <= max -> max <= 128 * real + 127 ->
  let min := get_vlq_min_bytes_length_of_item_header max in
  1 <= min <= 4 /\ (vlq_length real = min \/ vlq_length real = 1 + min).
Proof.
  intros Hm Hr Hc. unfold get_vlq_min_bytes_length_of_item_header. assert (in_range 64 max) as Hm64 by (unfold in_range in *; lia).
  pose proof (vlq_length_close max real Hm64 Hr Hc). pose proof (vlq_length_32 max Hm). pose proof (vlq_length_range max Hm64).
  pose proof (vlq_length_range real ltac:(unfold in_range in *; lia)). destruct (Z.ltb_spec 1 (vlq_length max)); lia.
Qed.

(** A handle for a body of [max] bytes at most behind a head of [prealloc] bytes, and its
    return when it begins with the item. *)
Lemma open_item {F : Flush} {fresh : Z} {L : FlushLaws F fresh} (max prealloc : Z) (w : write_cache) :
  quiet w -> in_range 31 max -> 0 <= prealloc <= 6 -> cursor_ w < 2 ^ 60 ->
  exists old w1 pre, alloc_write_cache fresh (max + prealloc) w = Some (old, w1) /\ zlen pre = prealloc /\
    holds (old, prealloc) pre max /\
    forall i tl, bytes_ok (i ++ tl) -> zlen (i ++ tl) = max + prealloc ->
      exists w2, return_write_cache (i ++ tl) (zlen i) w1 = Some w2 /\ quiet w2 /\ stream w2 = stream w ++ i /\
        cursor_ w2 <= cursor_ w + 2 ^ 32.
Proof.
  intros Q Hm Hp Hc. unfold in_range in Hm.
  destruct (quiet_alloc (max + prealloc) w Q) as (old & w1 & E & Hl & Hob & Hret); [lia|lia|].
  destruct (split_at_len old prealloc) as (pre & r & -> & H1 & H2); [lia|].
  exists (pre ++ r), w1, pre. split; [done|]. split; [done|]. split; [exists r; cbn; split_and!; try done; lia|].
  intros i tl Hib Hi. pose proof (zlen_nonneg i). pose proof (zlen_nonneg tl). rewrite zlen_app in Hi.
  destruct (Hret (i ++ tl) (zlen i)) as (w2 & E2 & Q2 & Hs2 & Hc2 & _); [done|rewrite zlen_app; lia|lia|].
  exists w2. split; [done|]. split; [done|]. split; [|lia]. rewrite Hs2. f_equal. unfold zlen. rewrite Nat2Z.id. apply take_app_length.
Qed.

(** The head goes before a body that has been written. *)
Lemma close_item (entry : bool) (max min prealloc room : Z) (pre body : list Z) (w : writer) :
  in_range 31 max -> 2 <= zlen body -> min = get_vlq_min_bytes_length_of_item_header max -> prealloc = 1 + min -> zlen pre = prealloc ->
  holds w (pre ++ body) room -> zlen body + room = max -> max <= 128 * zlen body + 127 ->
  exists i tl, write_head (type_of entry) min prealloc w = Some (Some (i ++ tl)) /\ zlen i = w.2 /\ bytes_ok (i ++ tl) /\ zlen (i ++ tl) = max + prealloc /\
    item i entry body.
Proof.
  intros Hm Hb2 Emin Epre Hpre Hw Hmax Hc. pose proof (holds_room _ _ _ Hw) as [Hr0 _]. pose proof (zlen_nonneg body) as Hb.
  destruct Hw as (rest & Ed & Hrest & Ecur & Hbnd & Hby). destruct w as [d cur]. cbn [fst snd] in *. subst d cur.
  destruct (head_place max (zlen body)) as [Hmin HL]; [unfold in_range in *; lia|lia|done|]. rewrite <- Emin in *.
  rewrite <- app_assoc, zlen_app, Hpre.
  destruct (write_head_ok (type_of entry) min prealloc pre body rest ltac:(destruct entry; [by right|by left])) as (head & Ehd & Hhl & Hhb & Hfr);
    [lia|done|done|unfold in_range in Hm; lia|done|].
  exists (head ++ body), rest. rewrite Ehd, <- !app_assoc, !zlen_app, Hhl. split; [done|]. split; [done|]. split.
  { apply Forall_app in Hby as [Hy Hr]. apply Forall_app in Hy as [_ Hy]. repeat (apply Forall_app; split); done. }
  split; [lia|]. split; [done|]. unfold in_range in Hm. lia.
Qed.

Lemma max_31 (x : Z) : 0 <= x < 2 ^ 31 -> in_range 31 x /\ in_range 32 x.
Proof. unfold in_range. lia. Qed.

(** ** Format templates *)

Section Items.
Context {F : Flush} {fresh : Z} {L : FlushLaws F fresh}.

Definition add_format (t : Z * Z * list Z) (st : decoded) : decoded :=
  mk_decoded (d_formats st ++ [t]) (d_threads st) (d_epoch st) (d_records st).

Lemma decode_format (sub l category : Z) (text : list Z) (st : decoded) :
  sub = 0 \/ sub = 2 -> in_range 32 category -> is_byte l ->
  decode_template (sub :: l :: Vlq.vlq_encode category ++ text) st =
    Some (add_format (l, category, if sub =? 2 then mixed_text text else text) st).
Proof.
  intros Hs Hc Hl. unfold decode_template. assert ((sub =? 0) || (sub =? 2) = true) as -> by (destruct Hs as [-> | ->]; done).
  change (l :: Vlq.vlq_encode category ++ text) with ([l] ++ Vlq.vlq_encode category ++ text). rewrite take_bytes_app by done.
  cbn [mbind option_bind]. rewrite take_vlq_encode by (unfold in_range in *; lia). cbn [mbind option_bind].
  rewrite le_val_cons, le_val_nil. unfold add_format. do 4 f_equal. f_equal. f_equal. lia.
Qed.

(** What the body of a format template is made of. *)
Definition format_body (h : RecordHeader) (format_data body : list Z) : Prop :=
  exists text, body = (if is_utf8 h then format_template_utf8 else format_template_utf16) :: level h ::
      Vlq.vlq_encode (category_idx h) ++ text /\
    if is_utf8 h then text = format_data
    else let units := bytes_units (Z.to_nat (log_format_data_len h / 2)) format_data in
      exists n, 2 * zlen units + 1 <= n < 2 ^ 32 /\ utf16_to_utf_mixed units n = Some text.

(** It is not longer than what is asked for, and not much shorter. *)
Lemma put_format_body_ok (h : RecordHeader) (format_data got : list Z) (w : writer) :
  bytes_ok format_data -> zlen format_data = log_format_data_len h -> log_format_data_len h < 2 ^ 29 ->
  in_range 32 (category_idx h) -> is_byte (level h) ->
  let max := 1 + 1 + VLQ_MAX_SIZE + (if is_utf8 h then log_format_data_len h else log_format_data_len h * 3 / 2 + 1) in
  holds w got max ->
  exists n w' body, put_format_body h format_data w = Some (n, w') /\ holds w' (got ++ body) (max - zlen body) /\
    max <= 128 * zlen body + 127 /\ 2 <= zlen body /\ format_body h format_data body /\
    forall st, decode_template body st = Some (add_format (level h, category_idx h, format_text h format_data) st).
Proof.
  intros Hok Hz Hl Hcat Hlev max Hw. pose proof (zlen_nonneg format_data) as Hz0.
  unfold put_format_body, format_text, format_body. fold (is_utf8 h). unfold VLQ_MAX_SIZE, Vlq.vlq_max_bytes_count in *.
  set (sub := if is_utf8 h then format_template_utf8 else format_template_utf16).
  assert (in_range 64 (category_idx h)) as Hc64 by (unfold in_range in *; lia).
  pose proof (vlq_length_32 _ Hcat) as Hc5. pose proof (vlq_length_range _ Hc64) as Hc1. pose proof (zlen_vlq _ Hc64) as Hcz.
  assert (7 <= max) as Hmax.
  { unfold max. destruct (is_utf8 h); [lia|]. pose proof (Z.div_pos (log_format_data_len h * 3) 2 ltac:(lia) ltac:(lia)). lia. }
  destruct (writer_put_ok [sub] _ _ w Hw) as (w1 & -> & Hw1); [unfold sub; destruct (is_utf8 h); by repeat constructor|change (zlen [sub]) with 1; lia|]. cbn [mbind option_bind].
  change (zlen [sub]) with 1 in Hw1.
  destruct (writer_put_ok [level h] _ _ w1 Hw1) as (w2 & -> & Hw2); [by constructor|change (zlen [level h]) with 1; lia|]. cbn [mbind option_bind].
  change (zlen [level h]) with 1 in Hw2.
  destruct (put_vlq_ok (4 + 1) (category_idx h) _ _ w2 Hw2 Hc64) as (w3 & -> & Hw3); [lia|lia|]. cbn [mbind option_bind].
  assert (forall text, bytes_ok text -> zlen text <= max - 2 - vlq_length (category_idx h) -> max <= 128 * (3 + zlen text) + 127 ->
    holds w3 ((got ++ [sub]) ++ [level h] ++ Vlq.vlq_encode (category_idx h)) (max - 1 - 1 - vlq_length (category_idx h)) ->
    exists w' body, put text w3 = Some w' /\ holds w' (got ++ body) (max - zlen body) /\ max <= 128 * zlen body + 127 /\ 2 <= zlen body /\
      body = sub :: level h :: Vlq.vlq_encode (category_idx h) ++ text) as HP.
  { intros text Htb Ht Hlow Hw'. destruct (writer_put_ok text _ _ w3 Hw' Htb) as (w4 & -> & Hw4); [lia|].
    exists w4, (sub :: level h :: Vlq.vlq_encode (category_idx h) ++ text). rewrite <- !app_assoc in Hw4. cbn [app] in Hw4.
    rewrite !zlen_cons, zlen_app, Hcz. split; [done|]. split; [|split; [lia|split; [pose proof (zlen_nonneg text); lia|done]]].
    by replace (max - (1 + (1 + (vlq_length (category_idx h) + zlen text)))) with (max - 1 - 1 - vlq_length (category_idx h) - zlen text) by lia. }
  rewrite <- app_assoc in Hw3. destruct (is_utf8 h) eqn:Eu; unfold sub, max in *.
  - destruct (HP format_data Hok) as (w' & body & -> & Hw' & Hlow & Hb2 & ->); [lia|lia|exact Hw3|]. cbn [mbind option_bind].
    eexists _, w', _. split; [done|]. split; [exact Hw'|]. split; [done|]. split; [done|]. split; [by exists format_data|]. intros st. by rewrite decode_format by (done || by left).
  - set (n := log_format_data_len h) in *. pose proof (Z.div_mod (n * 3) 2 ltac:(lia)) as Hd3. pose proof (Z.mod_pos_bound (n * 3) 2 ltac:(lia)).
    pose proof (Z.div_mod n 2 ltac:(lia)) as Hd1. pose proof (Z.mod_pos_bound n 2 ltac:(lia)).
    assert (Z.shiftr n 1 = n / 2) as -> by (rewrite Z.shiftr_div_pow2 by lia; done).
    assert (u32 (Z.shiftr (u32 (n * 3)) 1 + 1) = n * 3 / 2 + 1) as ->.
    { rewrite (wrap_small 32 (n * 3)) by (unfold in_range; lia). rewrite Z.shiftr_div_pow2 by lia. change (2 ^ 1) with 2.
      apply wrap_small. unfold in_range. lia. }
    destruct (bytes_units_ok (Z.to_nat (n / 2)) format_data Hok) as [Huo Hul].
    assert (zlen (bytes_units (Z.to_nat (n / 2)) format_data) = n / 2) as Huz by (unfold zlen; lia).
    destruct (utf_mixed_ok _ (n * 3 / 2 + 1) Huo) as (mixed & Emix & Hml & Hmb & Htext & _); [lia|]. rewrite Emix. rewrite Huz in Hml. cbn [mbind option_bind].
    destruct (HP mixed Hmb) as (w' & body & -> & Hw' & Hlow & Hb2 & ->); [lia|lia|exact Hw3|]. cbn [mbind option_bind].
    eexists _, w', _. split; [done|]. split; [exact Hw'|]. split; [done|]. split; [done|].
    split; [exists mixed; split; [done|]; exists (n * 3 / 2 + 1); split; [lia|done]|]. intros st. rewrite decode_format by (done || by right).
    cbn [Z.eqb format_template_utf16]. change (format_template_utf16 =? 2) with true. cbv iota. rewrite Htext.
    unfold units_text. by rewrite Hz.
Qed.

(** What an operation appends: one item with a body such as [P] says, that the reader
    understands as [f]. *)
Definition appends (w : write_cache) (entry : bool) (P : list Z -> Prop) (f : decoded -> option decoded) (w' : write_cache) : Prop :=
  exists i body, quiet w' /\ stream w' = stream w ++ i /\ cursor_ w' <= cursor_ w + 2 ^ 32 /\ item i entry body /\ P body /\
    forall st, (if entry then decode_entry body st else decode_template body st) = f st.

Lemma format_template_loop_ok (fuel : nat) (h : RecordHeader) (format_data : list Z) (w : write_cache) :
  quiet w -> cursor_ w < 2 ^ 60 -> bytes_ok format_data -> zlen format_data = log_format_data_len h -> log_format_data_len h < 2 ^ 29 ->
  in_range 32 (category_idx h) -> is_byte (level h) ->
  exists w', format_template_loop fresh (S fuel) 0 true h format_data w = Some w' /\
    appends w false (format_body h format_data) (fun st => Some (add_format (level h, category_idx h, format_text h format_data) st)) w'.
Proof.
  intros Q Hcur Hok Hz Hl Hcat Hlev. cbn [format_template_loop]. change (negb (0 =? 0)) with false. cbv iota.
  set (n := log_format_data_len h) in *. pose proof (zlen_nonneg format_data) as Hz0.
  pose proof (Z.div_mod (n * 3) 2 ltac:(lia)) as Hd3. pose proof (Z.mod_pos_bound (n * 3) 2 ltac:(lia)).
  assert (Z.shiftr (u32 (n * 3)) 1 + 1 = n * 3 / 2 + 1) as ->.
  { rewrite (wrap_small 32 (n * 3)) by (unfold in_range; lia). by rewrite Z.shiftr_div_pow2 by lia. }
  set (max := 1 + 1 + VLQ_MAX_SIZE + (if is_utf8 h then n else n * 3 / 2 + 1)).
  assert (0 <= max < 2 ^ 31) as Hmax by (unfold max, VLQ_MAX_SIZE, Vlq.vlq_max_bytes_count; destruct (is_utf8 h); lia).
  destruct (max_31 max Hmax) as [H31 H32]. rewrite (wrap_small 32 max) by done.
  set (min := get_vlq_min_bytes_length_of_item_header max).
  destruct (head_place max max H32 ltac:(lia) ltac:(lia)) as [Hmin _]. fold min in Hmin.
  rewrite (wrap_small 32) by (unfold in_range; lia).
  destruct (open_item max (1 + min) w Q H31 ltac:(lia) Hcur) as (old & w1 & pre & -> & Hpre & Hh & Hret).
  cbn [mbind option_bind].
  destruct (put_format_body_ok h format_data pre (old, 1 + min) Hok Hz Hl Hcat Hlev Hh) as (k & wr & body & -> & Hwr & Hlow & Hb2 & Hfb & Hdec).
  cbn [mbind option_bind].
  destruct (close_item false max min (1 + min) (max - zlen body) pre body wr H31 Hb2 eq_refl eq_refl Hpre Hwr ltac:(lia) Hlow)
    as (i & tl & Hwrite & Hi & Hib & Hlen & It).
  change (type_of false) with log_template in Hwrite. rewrite Hwrite. cbn [mbind option_bind]. rewrite <- Hi. destruct (Hret i tl Hib Hlen) as (w2 & -> & Q2 & Hs2 & Hc2).
  exists w2. split; [done|]. by exists i, body.
Qed.

(** ** Thread templates *)

Definition add_thread (idx id : Z) (name : list Z) (st : decoded) : decoded :=
  mk_decoded (d_formats st) (<[idx := (id, name)]> (d_threads st)) (d_epoch st) (d_records st).

Definition thread_body (body : list Z) : Prop := exists b rest, body = thread_info_template :: b :: rest.

Lemma write_thread_template_ok (idx id : Z) (name : list Z) (w : write_cache) :
  quiet w -> cursor_ w < 2 ^ 60 -> in_range 32 idx -> in_range 64 id -> bytes_ok name -> zlen name < 49 ->
  exists w', write_thread_template fresh idx id name w = Some w' /\
    appends w false thread_body (fun st => Some (add_thread idx id name st)) w'.
Proof.
  intros Q Hcur Hidx Hid Hnb Hn. pose proof (zlen_nonneg name) as Hn0. unfold write_thread_template.
  unfold VLQ_MAX_SIZE, VLQ_MAX_SIZE_64, Vlq.vlq_max_bytes_count.
  set (max := 1 + (4 + 1) + (8 + 1) + zlen name). assert (15 <= max < 64) as Hmax by (unfold max; lia).
  rewrite (proj2 (Z.ltb_lt _ _)) by lia. cbn [negb].
  assert (forall v, 0 <= v < 128 -> vlq_length v = 1) as H1.
  { intros v Hv. pose proof (vlq_length_small v 1 ltac:(rewrite Vlq.max_value_1; lia) ltac:(cbn; tauto)).
    pose proof (vlq_length_range v ltac:(unfold in_range; lia)). lia. }
  rewrite (H1 max) by lia. cbn [Z.eqb negb]. change (1 =? 1) with true. cbn [negb].
  destruct (open_item max (1 + 1) w Q ltac:(unfold in_range; lia) ltac:(lia) Hcur) as (old & w1 & pre & -> & Hpre & Hh & Hret).
  cbn [mbind option_bind]. assert (in_range 64 idx) as Hi64 by (unfold in_range in *; lia).
  pose proof (vlq_length_32 idx Hidx). pose proof (vlq_length_range idx Hi64). pose proof (vlq_length_range id Hid).
  pose proof (zlen_vlq idx Hi64) as Ez1. pose proof (zlen_vlq id Hid) as Ez2.
  destruct (writer_put_ok [thread_info_template] _ _ _ Hh) as (r1 & -> & Hr1); [by repeat constructor|change (zlen [_]) with 1; lia|].
  change (zlen [_]) with 1 in Hr1. cbn [mbind option_bind].
  destruct (put_vlq_ok (4 + 1) idx _ _ r1 Hr1 Hi64) as (r2 & -> & Hr2); [lia|lia|]. cbn [mbind option_bind].
  destruct (put_vlq_ok (8 + 1) id _ _ r2 Hr2 Hid) as (r3 & -> & Hr3); [lia|lia|]. cbn [mbind option_bind].
  destruct (writer_put_ok name _ _ r3 Hr3 Hnb) as (r4 & -> & Hr4); [unfold max; lia|]. cbn [mbind option_bind].
  rewrite <- !app_assoc in Hr4. set (body := [thread_info_template] ++ Vlq.vlq_encode idx ++ Vlq.vlq_encode id ++ name) in *.
  assert (zlen body = 1 + vlq_length idx + vlq_length id + zlen name) as Hbl.
  { unfold body. rewrite !zlen_app, Ez1, Ez2. change (zlen [_]) with 1. lia. }
  destruct Hr4 as (rest & Ed & Hrest & Ec & _ & Hby). destruct r4 as [d cur]. cbn [fst snd] in *. subst d cur.
  rewrite zlen_app, Hpre, <- app_assoc.
  destruct pre as [|p0 [|p1 [|p2 pre]]]; [done|done| |rewrite !zlen_cons in Hpre; pose proof (zlen_nonneg pre); lia].
  rewrite (store_app_at _ [] [p0] [log_template] ([p1] ++ body ++ rest)) by done. cbn [mbind option_bind].
  replace (1 + 1 + zlen body - (1 + 1)) with (zlen body) by lia. rewrite (H1 (zlen body)) by lia.
  change (1 <? 1) with false. cbv iota.
  assert (zlen (Vlq.vlq_encode (zlen body)) = 1) as Ez by (rewrite zlen_vlq, H1; unfold in_range; lia).
  rewrite (store_app_at _ [log_template] [p1] (Vlq.vlq_encode (zlen body)) (body ++ rest)); [|done|done|by rewrite Ez].
  cbn [mbind option_bind]. set (i := [log_template] ++ Vlq.vlq_encode (zlen body) ++ body).
  assert (zlen i = 1 + 1 + zlen body) as Hi by (unfold i; rewrite !zlen_app, Ez; change (zlen [log_template]) with 1; lia).
  assert ([log_template] ++ Vlq.vlq_encode (zlen body) ++ body ++ rest = i ++ rest) as -> by (unfold i; by rewrite <- !app_assoc).
  assert (bytes_ok (i ++ rest)) as Hib.
  { apply Forall_app in Hby as [Hy Hr]. apply Forall_app in Hy as [_ Hy]. unfold i. rewrite <- !app_assoc.
    apply Forall_app. split; [by repeat constructor|]. apply Forall_app. split; [apply vlq_bytes_ok|by apply Forall_app]. }
  rewrite <- Hi. destruct (Hret i rest Hib) as (w2 & -> & Q2 & Hs2 & Hc2); [rewrite zlen_app; lia|].
  exists w2. split; [done|]. exists i, body. split; [done|]. split; [done|]. split; [done|]. split; [|split].
  - split; [|lia]. apply (framed_wide log_template body).
  - destruct (Vlq.vlq_encode idx) as [|b tl] eqn:Eb; [change (zlen (@nil Z)) with 0 in Ez1; lia|].
    by exists b, (tl ++ Vlq.vlq_encode id ++ name).
  - intros st. unfold body, decode_template. cbn [app]. change ((thread_info_template =? 0) || (thread_info_template =? 2)) with false.
    change (thread_info_template =? 1) with true. cbv iota. rewrite take_vlq_encode by done. cbn [mbind option_bind].
    by rewrite take_vlq_encode.
Qed.

(** ** Entries *)

Definition add_record (epoch : Z) (r : logged) (st : decoded) : decoded :=
  mk_decoded (d_formats st) (d_threads st) epoch (d_records st ++ [r]).

Lemma epoch_back (last epoch : Z) : in_range 64 epoch ->
  in_range 64 (Zigzag.encode 64 (i64 (epoch - last))) /\
  u64 (last + Zigzag.decode 64 (Zigzag.encode 64 (i64 (epoch - last)))) = epoch.
Proof.
  intros He. destruct (zigzag_wide 64 (i64 (epoch - last)) ltac:(cbn; tauto) (to_signed_range 64 _ ltac:(lia))) as [Hr ->].
  split; [done|]. rewrite <- (wrap_small 64 epoch) at 2 by done. unfold to_signed, wrap. cbv zeta.
  destruct (_ <? _).
  - rewrite Zplus_mod_idemp_r. f_equal. lia.
  - rewrite Z.add_sub_assoc, Zminus_mod, Zplus_mod_idemp_r, <- Zminus_mod.
    replace (last + (epoch - last) - 2 ^ 64) with (epoch + (-1) * 2 ^ 64) by lia. apply Z_mod_plus_full.
Qed.

(** Only a null takes no more than its tag. *)
Lemma decode_args_short (fuel : nat) (s : list Z) (l : list (Z * value)) :
  zlen s <= 1 -> decode_args fuel s = Some l -> Forall (fun a => a.2 = V_none) l.
Proof.
  intros Hs H. destruct fuel as [|fuel]; [done|]. cbn [decode_args] in H. destruct s as [|tag [|? ?]].
  - injection H as <-. constructor.
  - apply bind_Some in H as ([a s] & Ha & H). apply bind_Some in H as (l' & Hl & H). injection H as <-.
    assert (a.2 = V_none /\ s = []) as [Ea ->].
    { unfold decode_arg in Ha. destruct (tag_of_code tag) as [[]|]; try done; by injection Ha as <- <-. }
    constructor; [done|]. destruct fuel as [|fuel]; [done|]. injection Hl as <-. constructor.
  - rewrite !zlen_cons in Hs. pose proof (zlen_nonneg l0). lia.
Qed.

(** The body of an entry begins with the distance in time, and is not tiny when there is an
    argument with a value. *)
Definition entry_body (last epoch : Z) (l : list (Z * value)) (body : list Z) : Prop :=
  exists rest, body = Vlq.vlq_encode (Zigzag.encode 64 (i64 (epoch - last))) ++ rest /\
    (Exists (fun a => a.2 <> V_none) l -> 5 <= zlen body).

Lemma write_entry_ok (h : RecordHeader) (args : list Z) (l : list (Z * value)) (format_idx thread_idx : Z) (c : compressed) :
  quiet (cache_ c) -> cursor_ (cache_ c) < 2 ^ 60 -> bytes_ok args -> zlen args < 2 ^ 29 ->
  raw_args (S (length args)) args 0 = Some l -> Forall plain l -> in_range 64 (timestamp_epoch h) ->
  in_range 32 format_idx -> in_range 32 thread_idx -> vlq_length format_idx + vlq_length thread_idx <= 6 ->
  exists w', write_entry fresh h args format_idx thread_idx c = Some (set_cache w' (set_last_epoch (timestamp_epoch h) c)) /\
    finished_ w' = cursor_ w' /\
    appends (cache_ c) true (entry_body (last_log_entry_epoch_ c) (timestamp_epoch h) l) (fun st =>
      '(lv, category, text) ← d_formats st !! Z.to_nat format_idx;
      '(id, name) ← d_threads st !! thread_idx;
      let epoch := u64 (d_epoch st + Zigzag.decode 64 (Zigzag.encode 64 (i64 (timestamp_epoch h - last_log_entry_epoch_ c)))) in
      Some (add_record epoch (mk_logged epoch lv category text id name l) st)) w'.
Proof.
  intros Q Hcur Hok Hl Hraw Hpl Hep Hf Ht Hidx. pose proof (zlen_nonneg args) as Hz0. unfold write_entry.
  unfold VLQ_MAX_SIZE, VLQ_MAX_SIZE_64, Vlq.vlq_max_bytes_count.
  assert (Z.shiftl (zlen args) 1 = 2 * zlen args) as -> by (rewrite Z.shiftl_mul_pow2 by lia; lia).
  set (max := 4 + 1 + (4 + 1) + (4 + 1) + 2 * zlen args). destruct (max_31 max ltac:(unfold max; lia)) as [H31 H32].
  set (min := get_vlq_min_bytes_length_of_item_header max).
  destruct (head_place max max H32 ltac:(unfold max; lia) ltac:(unfold max; lia)) as [Hmin _]. fold min in Hmin.
  destruct (open_item max (1 + min) (cache_ c) Q H31 ltac:(lia) Hcur) as (old & w1 & pre & -> & Hpre & Hh & Hret).
  cbn [mbind option_bind]. destruct (epoch_back (last_log_entry_epoch_ c) _ Hep) as [Hz64 _].
  set (z := Zigzag.encode 64 _) in *. assert (in_range 64 format_idx /\ in_range 64 thread_idx) as [Hf64 Ht64] by (unfold in_range in *; lia).
  pose proof (vlq_length_range z Hz64). pose proof (vlq_length_32 _ Hf). pose proof (vlq_length_32 _ Ht).
  pose proof (vlq_length_range _ Hf64). pose proof (vlq_length_range _ Ht64).
  pose proof (zlen_vlq z Hz64) as E1. pose proof (zlen_vlq _ Hf64) as E2. pose proof (zlen_vlq _ Ht64) as E3.
  destruct (put_vlq_ok (8 + 1) z _ _ _ Hh Hz64) as (r1 & -> & Hr1); [lia|unfold max; lia|]. cbn [mbind option_bind].
  destruct (put_vlq_ok (4 + 1) format_idx _ _ _ Hr1 Hf64) as (r2 & -> & Hr2); [lia|unfold max; lia|]. cbn [mbind option_bind].
  destruct (put_vlq_ok (4 + 1) thread_idx _ _ _ Hr2 Ht64) as (r3 & -> & Hr3); [lia|unfold max; lia|]. cbn [mbind option_bind].
  destruct (write_args_ok (S (length args)) args 0 l r3 _ _ Hok ltac:(lia) ltac:(lia) Hraw Hpl Hr3) as (r4 & E & -> & Hr4 & HE1 & HE2 & _ & HEd);
    [unfold max; lia|]. cbn [mbind option_bind]. rewrite <- !app_assoc in Hr4.
  set (body := Vlq.vlq_encode z ++ Vlq.vlq_encode format_idx ++ Vlq.vlq_encode thread_idx ++ E) in *.
  assert (zlen body = vlq_length z + vlq_length format_idx + vlq_length thread_idx + zlen E) as Hbl
    by (unfold body; rewrite !zlen_app; lia).
  destruct (close_item true max min (1 + min) _ pre body r4 H31 ltac:(lia) eq_refl eq_refl Hpre Hr4)
    as (i & tl & Hwrite & Hi & Hib & Hlen & It); [lia|unfold max; lia|].
  change (type_of true) with log_entry in Hwrite. rewrite Hwrite. cbn [mbind option_bind]. rewrite <- Hi. destruct (Hret i tl Hib Hlen) as (w2 & -> & Q2 & Hs2 & Hc2). cbn [mbind option_bind].
  destruct (quiet_mark w2 Q2) as (w3 & -> & Q3 & Hs3 & Hc3 & Hf3 & _). cbn [mbind option_bind].
  exists w3. split; [done|]. split; [done|]. exists i, body. split; [done|]. split; [by rewrite Hs3|]. split; [lia|]. split; [done|]. split.
  { exists (Vlq.vlq_encode format_idx ++ Vlq.vlq_encode thread_idx ++ E). split; [done|]. intros Hex.
    destruct (Z.le_gt_cases (zlen E) 1) as [Hshort|]; [|lia].
    pose proof (decode_args_short _ _ _ Hshort (HEd (S (length E)) ltac:(lia))) as Hnone.
    apply Exists_exists in Hex as (a & Hin & Ha). rewrite Forall_forall in Hnone. by apply Hnone in Hin. }
  intros st. unfold decode_entry, body. rewrite take_vlq_encode by done. cbn [mbind option_bind].
  rewrite take_vlq_encode by done. cbn [mbind option_bind]. rewrite take_vlq_encode by done. cbn [mbind option_bind].
  rewrite HEd by lia. cbn [mbind option_bind]. destruct (d_formats st !! _) as [[[lv cat] text]|]; [|done]. cbn [mbind option_bind].
  by destruct (d_threads st !! _) as [[id name]|].
Qed.

End Items.
