(* ===== verification/CompressedFile.v ===== *)
(** * The compressed appender: a file decodes to what was logged

    [knows c st]: what the caches of the appender say about templates agrees with what a
    reader has seen in the file so far. Every call of [log_impl] keeps it and appends items
    that give the reader one record more. *)
From stdpp Require Import base list option numbers gmap.
From Stdlib Require Import ZArith Lia Bool.
From S2P Require Import Prelude LogUtils Memory Hash ArgSerialization HashCache HashCacheTheorems LogEntry Utf FileCache.
From S2P Require Import FileFlush FileCacheTheorems Compressed CompressedSpec CompressedWriter CompressedTheorems.
Import HashCache FileCache Compressed.

#[local] Set Bullet Behavior "Strict Subproofs".

(** ** Sequences of items *)

(** The reader that has read [s] in the state [st] is in the state [st']. *)
Definition decodes (s : list Z) (st st' : decoded) : Prop :=
  exists n, (n <= length s)%nat /\ forall fuel rest, decode (n + fuel) (s ++ rest) st = decode fuel rest st'.

Lemma decodes_nil (st : decoded) : decodes [] st st.
Proof. by exists 0%nat. Qed.

Lemma decodes_app (a b : list Z) (st st1 st2 : decoded) : decodes a st st1 -> decodes b st1 st2 -> decodes (a ++ b) st st2.
Proof.
  intros (n & Hn & H1) (m & Hm & H2). exists (n + m)%nat. rewrite length_app. split; [lia|].
  intros fuel rest. rewrite <- app_assoc, <- Nat.add_assoc, H1. apply H2.
Qed.

Lemma decodes_item (i body : list Z) (entry : bool) (st st' : decoded) :
  item i entry body -> (if entry then decode_entry body st else decode_template body st) = Some st' -> decodes i st st'.
Proof.
  intros It E. pose proof (item_some _ _ _ It) as Hne. exists 1%nat. split; [destruct i; [done|cbn; lia]|]. intros fuel rest. cbn [plus decode].
  rewrite (item_read _ _ _ _ It). cbn [mbind option_bind]. destruct (i ++ rest) eqn:E0; [by apply app_eq_nil in E0 as [-> _]|].
  destruct entry; rewrite E; done.
Qed.

Lemma decodes_all (s : list Z) (st : decoded) : decodes s nothing_decoded st -> decode_items s = Some st.
Proof.
  intros (n & Hn & H). unfold decode_items. replace (S (length s)) with (n + S (length s - n))%nat by lia.
  rewrite <- (app_nil_r s) at 2. rewrite H. done.
Qed.

Section File.
Context {Ops : CrcOps} {F : Flush} {fresh : Z} {L : FlushLaws F fresh}.

(** What an operation of the appender appends takes the reader from [st] to [st']. *)
Definition extends (c c' : compressed) (st st' : decoded) : Prop :=
  exists s, stream (cache_ c') = stream (cache_ c) ++ s /\ decodes s st st'.

Lemma extends_refl (c c' : compressed) (st : decoded) : stream (cache_ c') = stream (cache_ c) -> extends c c' st st.
Proof. intros E. exists []. rewrite app_nil_r. split; [done|apply decodes_nil]. Qed.

Lemma extends_trans (c c1 c2 : compressed) (st st1 st2 : decoded) :
  extends c c1 st st1 -> extends c1 c2 st1 st2 -> extends c c2 st st2.
Proof.
  intros (a & E1 & H1) (b & E2 & H2). exists (a ++ b). rewrite E2, E1, app_assoc. split; [done|]. by eapply decodes_app.
Qed.

Lemma extends_appends (c c' : compressed) (entry : bool) (P : list Z -> Prop) (f : decoded -> option decoded) (st st' : decoded) :
  appends (cache_ c) entry P f (cache_ c') -> f st = Some st' -> extends c c' st st'.
Proof.
  intros (i & body & _ & Es & _ & It & _ & Hf) E. exists i. split; [done|]. eapply decodes_item; [done|]. by rewrite Hf.
Qed.


(** The template that a hash stands for, and the name of a thread. *)
Variables (template_of : Z -> Z * Z * list Z) (name_of : Z -> list Z).

(** The number of templates for which three bytes of index are enough. *)
Definition max_templates : Z := 2113664.

Definition format_at (st : decoded) (key i : Z) : Prop := 0 <= i /\ d_formats st !! Z.to_nat i = Some (template_of key).

Definition thread_at (limit : Z) (st : decoded) (id i : Z) : Prop :=
  0 <= i < limit /\ d_threads st !! i = Some (id, name_of id).

Record knows (c : compressed) (st : decoded) : Prop := {
  kn_format_l1 : zlen (format_l1_ c) = FORMAT_L1_SIZE /\
    forall j s, format_l1_ c !! j = Some s -> slot_value s <> CACHE_EMPTY -> format_at st (slot_key s) (slot_value s);
  kn_thread_l1 : zlen (thread_l1_ c) = THREAD_L1_SIZE /\
    forall j s, thread_l1_ c !! j = Some s -> slot_value s <> CACHE_EMPTY ->
      thread_at (current_thread_info_max_index_ c) st (slot_key s) (slot_value s);
  kn_format_l2 : exists M, cached (format_l2_ c) M /\ forall k i, M !! k = Some i -> format_at st k i;
  kn_thread_l2 : exists M, cached (thread_l2_ c) M /\
    forall k i, M !! k = Some i -> thread_at (current_thread_info_max_index_ c) st k i;
  kn_last : last_thread_id_ c <> 2 ^ 64 - 1 ->
    thread_at (current_thread_info_max_index_ c) st (last_thread_id_ c) (last_thread_info_idx_ c);
  kn_formats : current_format_template_max_index_ c = zlen (d_formats st) /\ zlen (d_formats st) < max_templates;
  kn_threads : 0 <= current_thread_info_max_index_ c < max_templates;
  kn_epoch : d_epoch st = last_log_entry_epoch_ c;
  kn_cache : quiet (cache_ c) }.

Lemma format_at_range (st : decoded) (k i : Z) : format_at st k i -> zlen (d_formats st) < max_templates -> 0 <= i < max_templates.
Proof. intros [Hi H] Hb. apply lookup_lt_Some in H. unfold zlen in *. lia. Qed.

Lemma small_index (i : Z) : 0 <= i < max_templates -> in_range 32 i /\ vlq_length i <= 3 /\ i <> CACHE_EMPTY /\ i <> invalid_value.
Proof.
  unfold max_templates, CACHE_EMPTY, invalid_value. intros H. split; [unfold in_range; lia|].
  split; [apply (vlq_length_small i 3); [rewrite Vlq.max_value_3; lia|cbn; tauto]|]. lia.
Qed.

Lemma l1_index_range (k key : Z) : 0 <= k <= 31 -> 0 <= l1_index (2 ^ k) key < 2 ^ k.
Proof.
  intros Hk. unfold l1_index. rewrite <- (wrap_small 32 (2 ^ k - 1)).
  - rewrite land_cursor by done. apply Z.mod_pos_bound. lia.
  - pose proof (Z.pow_le_mono_r 2 k 31 ltac:(lia) ltac:(lia)). pose proof (Z.pow_pos_nonneg 2 k ltac:(lia) ltac:(lia)). unfold in_range. lia.
Qed.

(** Looking into the first cache. *)
Lemma l1_hit_ok (l1 : list direct_cache_slot) (k key : Z) :
  0 <= k <= 31 -> zlen l1 = 2 ^ k ->
  exists hit, l1_hit l1 (l1_index (2 ^ k) key) key = Some hit /\
    forall v, hit = Some v -> v <> CACHE_EMPTY /\ exists j, l1 !! j = Some (mk_slot key v).
Proof.
  intros Hk Hl. pose proof (l1_index_range k key Hk) as Hi. unfold l1_hit.
  destruct (lookup_lt_is_Some_2 l1 (Z.to_nat (l1_index (2 ^ k) key))) as [s Hs]; [unfold zlen in Hl; lia|].
  rewrite Hs. cbn [mbind option_bind]. eexists. split; [done|]. intros v. destruct (_ && _) eqn:E; [|done]. intros [= <-].
  apply andb_true_iff in E as [E1 E2]. apply negb_true_iff, Z.eqb_neq in E1. apply Z.eqb_eq in E2. split; [done|].
  eexists. rewrite Hs. f_equal. destruct s. cbn in *. by subst.
Qed.

(** Keeping a slot of it up to date. *)
Lemma set_slot_ok (P : Z -> Z -> Prop) (l1 : list direct_cache_slot) (i key v : Z) :
  (forall j s, l1 !! j = Some s -> slot_value s <> CACHE_EMPTY -> P (slot_key s) (slot_value s)) -> P key v ->
  zlen (set_slot l1 i key v) = zlen l1 /\
  forall j s, set_slot l1 i key v !! j = Some s -> slot_value s <> CACHE_EMPTY -> P (slot_key s) (slot_value s).
Proof.
  intros H Hv. unfold set_slot. split; [apply zlen_insert|]. intros j s Hs Hne.
  apply list_lookup_insert_Some in Hs as [(_ & <- & _)|[_ Hs]]; [done|by eapply H].
Qed.

Lemma format_at_app (st : decoded) (t : Z * Z * list Z) (k i : Z) : format_at st k i -> format_at (add_format t st) k i.
Proof. intros [Hi H]. split; [done|]. cbn. by apply lookup_app_l_Some. Qed.

Lemma thread_at_insert (limit : Z) (st : decoded) (id : Z) (name : list Z) (k i : Z) :
  thread_at limit st k i -> thread_at (limit + 1) (add_thread limit id name st) k i.
Proof. intros [Hi H]. split; [lia|]. cbn. rewrite lookup_insert_ne by lia. done. Qed.

(** ** The steps of [log_impl] *)

Lemma find_format_ok (mem : bool) (h : RecordHeader) (format_data : list Z) (hash : Z) (c : compressed) (st : decoded) :
  knows c st -> cursor_ (cache_ c) < 2 ^ 60 -> zlen (d_formats st) + 1 < max_templates ->
  bytes_ok format_data -> zlen format_data = log_format_data_len h -> log_format_data_len h < 2 ^ 29 ->
  in_range 32 (category_idx h) -> is_byte (level h) -> template_of hash = (level h, category_idx h, format_text h format_data) ->
  exists idx c' st', find_format fresh mem h format_data hash c = Some (idx, c') /\ knows c' st' /\ extends c c' st st' /\
    format_at st' hash idx /\ zlen (d_formats st') <= zlen (d_formats st) + 1 /\ d_records st' = d_records st /\
    current_thread_info_max_index_ c' = current_thread_info_max_index_ c /\ last_log_entry_epoch_ c' = last_log_entry_epoch_ c /\
    cursor_ (cache_ c') <= cursor_ (cache_ c) + 2 ^ 32.
Proof.
  intros K Hcur Hroom Hok Hz Hl Hcat Hlev Ht. pose proof K as [[Hl1 Hs1] Ktl1 (M & C & HM) Ktl2 Klast [Hmax Hfb] Kth Kep Q].
  unfold find_format. destruct (l1_hit_ok (format_l1_ c) 8 hash ltac:(lia) Hl1) as (hit & Ehit & Hhit).
  change FORMAT_L1_SIZE with (2 ^ 8). rewrite Ehit. cbn [mbind option_bind].
  destruct hit as [v|].
  { destruct (Hhit v eq_refl) as (Hne & j & Hj). exists v, c, st. split; [done|]. split; [done|]. split; [by apply extends_refl|].
    split; [by apply (Hs1 j (mk_slot hash v))|]. split_and!; (done || lia). }
  clear Ehit Hhit. destruct (find_cached (format_l2_ c) M hash C) as (r & -> & Hr). cbn [mbind option_bind].
  destruct r as [idx|token].
  - cbn [mbind option_bind]. pose proof (HM hash idx Hr) as Hat. eexists idx, _, st. split; [done|].
    destruct (set_slot_ok (format_at st) (format_l1_ c) (l1_index (2 ^ 8) hash) hash idx Hs1 Hat) as [Hl1' Hs1'].
    split; [|split; [by apply extends_refl|split; [done|cbn; split_and!; (done || lia)]]].
    split; try done; cbn; [by rewrite Hl1'; split|by exists M].
  - destruct Hr as [Hnone Htok].
    destruct (format_template_loop_ok 2 h format_data (cache_ c) Q Hcur Hok Hz Hl Hcat Hlev) as (w & -> & Hap).
    cbn [mbind option_bind]. rewrite Hmax. set (idx := zlen (d_formats st)) in *.
    destruct (small_index idx) as (_ & _ & _ & Hinv); [pose proof (zlen_nonneg (d_formats st)); unfold idx in *; lia|].
    destruct (insert_new_ok mem hash idx token (format_l2_ c) M C Hnone Hinv (or_intror Htok)) as (l2 & M' & -> & C' & Hsub & _).
    cbn [mbind option_bind].
    assert (u32 (idx + 1) = idx + 1) as -> by (apply wrap_small; pose proof (zlen_nonneg (d_formats st)); unfold in_range, idx, max_templates in *; lia).
    set (t := (level h, category_idx h, format_text h format_data)) in *. set (st' := add_format t st).
    assert (zlen (d_formats st') = idx + 1) as Hlen by (unfold st'; cbn; rewrite zlen_app; done).
    assert (format_at st' hash idx) as Hat.
    { split; [apply zlen_nonneg|]. unfold st'. cbn. unfold idx, zlen. rewrite Nat2Z.id, lookup_app_r, Nat.sub_diag by lia. by rewrite Ht. }
    assert (forall k i, format_at st k i -> format_at st' k i) as Hmono by (intros; by apply format_at_app).
    destruct (set_slot_ok (format_at st') (format_l1_ c) (l1_index (2 ^ 8) hash) hash idx) as [Hl1' Hs1'];
      [intros j s Hj Hne; apply Hmono; by eapply Hs1|done|].
    pose proof Hap as (i & body & Q' & Es & Hc' & _).
    eexists idx, _, st'. split; [done|]. split; [|split; [|split; [done|split; [rewrite Hlen; unfold idx; lia|split_and!; done]]]].
    + split; try done; cbn; [by rewrite Hl1'; split|exists M'; split; [done|]|change (idx + 1 = zlen (d_formats st') /\ zlen (d_formats st') < max_templates); rewrite Hlen; split; [done|lia]].
      intros k i' Hk. pose proof (lookup_weaken _ _ _ _ Hk Hsub) as Hk2. apply lookup_insert_Some in Hk2 as [[<- <-]|[_ Hk2]]; [done|].
      by apply Hmono, HM.
    + eapply extends_appends; [exact Hap|done].
Qed.

Lemma find_thread_ok (mem : bool) (id : Z) (name : list Z) (c : compressed) (st : decoded) :
  knows c st -> cursor_ (cache_ c) < 2 ^ 60 -> current_thread_info_max_index_ c + 1 < max_templates ->
  in_range 64 id -> id <> 2 ^ 64 - 1 -> bytes_ok name -> zlen name < 49 -> name_of id = name ->
  exists idx c' st', find_thread fresh mem id (Some name) c = Some (idx, c') /\ knows c' st' /\ extends c c' st st' /\
    thread_at (current_thread_info_max_index_ c') st' id idx /\ d_formats st' = d_formats st /\ d_records st' = d_records st /\
    current_thread_info_max_index_ c' <= current_thread_info_max_index_ c + 1 /\ last_log_entry_epoch_ c' = last_log_entry_epoch_ c /\
    cursor_ (cache_ c') <= cursor_ (cache_ c) + 2 ^ 32.
Proof.
  intros K Hcur Hroom Hid Hmax Hnb Hn Hname. pose proof K as [Kfl1 [Hl1 Hs1] Kfl2 (M & C & HM) Klast Kf [Hth0 Hth] Kep Q].
  unfold find_thread. destruct (Z.eqb_spec id (last_thread_id_ c)) as [->|Hne].
  { eexists _, c, st. split; [done|]. split; [done|]. split; [by apply extends_refl|]. split; [by apply Klast|]. split_and!; (done || lia). }
  destruct (l1_hit_ok (thread_l1_ c) 6 id ltac:(lia) Hl1) as (hit & Ehit & Hhit).
  change THREAD_L1_SIZE with (2 ^ 6). rewrite Ehit. cbn [mbind option_bind].
  destruct hit as [v|].
  { destruct (Hhit v eq_refl) as (Hne2 & j & Hj). cbn [mbind option_bind]. eexists v, _, st. split; [done|].
    pose proof (Hs1 j (mk_slot id v) Hj Hne2) as Hat. cbn in Hat.
    split; [split; try done; by exists M|]. split; [by apply extends_refl|]. split; [done|]. split_and!; (done || cbn; lia). }
  clear Ehit Hhit. destruct (find_cached (thread_l2_ c) M id C) as (r & -> & Hr). cbn [mbind option_bind]. destruct r as [idx|token].
  - cbn [mbind option_bind]. pose proof (HM id idx Hr) as Hat. eexists idx, _, st. split; [done|].
    destruct (set_slot_ok (thread_at (current_thread_info_max_index_ c) st) (thread_l1_ c) (l1_index (2 ^ 6) id) id idx Hs1 Hat) as [Hl1' Hs1'].
    split; [|split; [by apply extends_refl|split; [done|cbn; split_and!; (done || lia)]]].
    split; try done; cbn; [by rewrite Hl1'; split|by exists M].
  - destruct Hr as [Hnone Htok]. cbn [mbind option_bind]. set (idx := current_thread_info_max_index_ c) in *.
    destruct (small_index idx) as (Hi32 & _ & _ & Hinv); [lia|].
    destruct (write_thread_template_ok idx id name (cache_ c) Q Hcur Hi32 Hid Hnb Hn) as (w & -> & Hap). cbn [mbind option_bind].
    destruct (insert_new_ok mem id idx token (thread_l2_ c) M C Hnone Hinv (or_intror Htok)) as (l2 & M' & -> & C' & Hsub & _).
    cbn [mbind option_bind].
    assert (u32 (idx + 1) = idx + 1) as -> by (apply wrap_small; unfold in_range, max_templates in *; lia).
    set (st' := add_thread idx id name st).
    assert (thread_at (idx + 1) st' id idx) as Hat.
    { split; [lia|]. unfold st'. cbn. rewrite lookup_insert_eq. by rewrite Hname. }
    assert (forall k i, thread_at idx st k i -> thread_at (idx + 1) st' k i) as Hmono by (intros; by apply thread_at_insert).
    destruct (set_slot_ok (thread_at (idx + 1) st') (thread_l1_ c) (l1_index (2 ^ 6) id) id idx) as [Hl1' Hs1'];
      [intros j s Hj Hne2; apply Hmono; by eapply Hs1|done|].
    pose proof Hap as (i & body & Q' & Es & Hc' & _).
    eexists idx, _, st'. split; [done|]. split; [|split; [|split; [done|split_and!; (done || cbn; lia)]]].
    + split; try done; cbn; [by rewrite Hl1'; split|exists M'; split; [done|]|lia].
      intros k i' Hk. pose proof (lookup_weaken _ _ _ _ Hk Hsub) as Hk2. apply lookup_insert_Some in Hk2 as [[<- <-]|[_ Hk2]]; [done|].
      by apply Hmono, HM.
    + eapply extends_appends; [exact Hap|done].
Qed.

(** A record that the appender can be given: what it says is [g]. *)
Record loggable (r : list Z) (g : logged) : Prop := {
  lo_bytes : bytes_ok r;
  lo_size : zlen r < 2 ^ 29;
  lo_logged : logged_of r = Some g;
  lo_plain : Forall plain (lg_args g);
  lo_name : zlen (lg_thread_name g) < 49;
  lo_thread : lg_thread g <> 2 ^ 64 - 1 }.

Definition template_hash (r : list Z) : option Z :=
  h ← read_header r;
  format_data ← get_format_string_data r h;
  fmt_hash ← (if format_hash h =? 0 then get_hash_64 format_data (log_format_data_len h) else Some (format_hash h));
  Some (get_format_template_hash (level h) (category_idx h) fmt_hash).

Definition template_seen (g : logged) : Z * Z * list Z := (lg_level g, lg_category g, lg_format g).

Lemma header_ranges (r : list Z) (h : RecordHeader) :
  bytes_ok r -> read_header r = Some h ->
  in_range 64 (timestamp_epoch h) /\ in_range 32 (category_idx h) /\ in_range 64 (log_thread_id h) /\ is_byte (level h) /\
  in_range 32 (log_format_data_len h).
Proof.
  intros Hok H. unfold read_header in H. repeat (apply bind_Some in H as (? & ? & H)). injection H as <-. cbn.
  repeat match goal with H : load_le r _ _ = Some _ |- _ => apply load_le_inv in H as (_ & _ & H); [|done] end.
  unfold in_range. split_and!; lia.
Qed.

Lemma args_offset (h : RecordHeader) : in_range 32 (log_format_data_len h) -> get_log_args_offset h = header_size + up4 (log_format_data_len h).
Proof.
  unfold in_range. intros H. pose proof (up4_bounds (log_format_data_len h)). unfold get_log_args_offset, header_size.
  rewrite (wrap_small 64 (_ + 3)) by (unfold in_range; lia). rewrite mask_up4 by lia. apply wrap_small. unfold in_range. lia.
Qed.

Lemma log_impl_ok (mem_f mem_t : bool) (r : list Z) (g : logged) (k : Z) (c : compressed) (st : decoded) :
  knows c st -> loggable r g -> template_hash r = Some k -> template_of k = template_seen g -> name_of (lg_thread g) = lg_thread_name g ->
  cursor_ (cache_ c) < 2 ^ 59 -> zlen (d_formats st) + 1 < max_templates -> current_thread_info_max_index_ c + 1 < max_templates ->
  exists c' st', log_impl fresh mem_f mem_t r c = Some (true, c') /\ knows c' st' /\ extends c c' st st' /\
    d_records st' = d_records st ++ [g] /\ zlen (d_formats st') <= zlen (d_formats st) + 1 /\
    current_thread_info_max_index_ c' <= current_thread_info_max_index_ c + 1 /\ cursor_ (cache_ c') <= cursor_ (cache_ c) + 2 ^ 34.
Proof.
  intros K [Hok Hsz Hlog Hplain Hnm Hthr] Hhash Htpl Hname Hcur Hf Ht. unfold log_impl. rewrite (qu_healthy _ (kn_cache _ _ K)).
  unfold logged_of in Hlog. unfold template_hash in Hhash. destruct (read_header r) as [h|] eqn:Eh; [|done]. cbn [mbind option_bind] in *.
  destruct (header_ranges r h Hok Eh) as (Rts & Rcat & Rtid & Rlev & Rlen). rewrite (args_offset h Rlen).
  pose proof (up4_bounds (log_format_data_len h)) as [Hup _]. rewrite (proj2 (Z.ltb_ge _ _)) by lia.
  destruct (get_format_string_data r h) as [fd|] eqn:Efd; [|done]. cbn [mbind option_bind] in *.
  destruct (get_thread_name r h) as [name|] eqn:Enm; [|done]. cbn [mbind option_bind] in *.
  destruct (get_log_args_data r h) as [args|] eqn:Ear; [|done]. cbn [mbind option_bind] in *.
  destruct (raw_args _ args 0) as [l|] eqn:El; [|done]. cbn [mbind option_bind] in *. injection Hlog as <-. cbn in *.
  destruct (if format_hash h =? 0 then _ else _) as [fh|] eqn:Efh in Hhash; [|done]. rewrite Efh. cbn [mbind option_bind] in *.
  injection Hhash as Hhash. rewrite Hhash.
  unfold get_format_string_data in Efd. destruct (load_bytes _ _ _ _ Hok Efd) as (Hfok & Hfz & _). apply load_inv in Efd as (_ & _ & Hfin & _).
  assert (bytes_ok name) as Hnb.
  { unfold get_thread_name in Enm. repeat (apply bind_Some in Enm as (? & ? & Enm)). by eapply load_bytes_ok. }
  unfold get_log_args_data in Ear. destruct (load_bytes _ _ _ _ Hok Ear) as (Haok & Haz & _). apply load_inv in Ear as (Ha0 & _ & Hain & _).
  unfold header_size in *. rewrite (args_offset h Rlen) in *. unfold header_size in *. unfold in_range in Rlen.
  destruct (find_format_ok mem_f h fd k c st K) as (fidx & c1 & st1 & -> & K1 & X1 & Hat1 & Hf1 & Er1 & Et1 & Ee1 & Hc1);
    [lia|done|done|done|lia|done|done|done|]. cbn [mbind option_bind].
  destruct (find_thread_ok mem_t (log_thread_id h) name c1 st1 K1) as (tidx & c2 & st2 & -> & K2 & X2 & Hat2 & Ef2 & Er2 & Ht2 & Ee2 & Hc2);
    [lia|lia|done|done|done|done|done|]. cbn [mbind option_bind].
  pose proof K2 as [Kfl1 Ktl1 Kfl2 Ktl2 Klast Kfm Kth Kep Q2]. destruct Hat2 as [Hti Hat2].
  assert (format_at st2 k fidx) as [Hfi Hfat] by (destruct Hat1; split; [done|by rewrite Ef2]).
  pose proof (format_at_range st2 k fidx (conj Hfi Hfat) (proj2 Kfm)) as Hfr.
  destruct (small_index fidx Hfr) as (Hf32 & Hf3 & _). destruct (small_index tidx ltac:(lia)) as (Ht32 & Ht3 & _).
  destruct (write_entry_ok h args l fidx tidx c2 Q2 ltac:(lia) Haok ltac:(lia) El Hplain Rts Hf32 Ht32 ltac:(lia)) as (w & -> & Hmarked & Hap).
  cbn [mbind option_bind]. destruct (epoch_back (last_log_entry_epoch_ c2) _ Rts) as [_ Eback].
  assert (exists st3, st3 = add_record (timestamp_epoch h) (mk_logged (timestamp_epoch h) (level h) (category_idx h) (format_text h fd)
    (log_thread_id h) name l) st2) as [st3 Est3] by eauto.
  eexists _, st3. split; [done|]. split; [|split; [|split]].
  - rewrite Est3. destruct Hap as (i & body & Q3 & _). split; try done.
  - eapply extends_trans; [exact X1|]. eapply extends_trans; [exact X2|]. eapply extends_appends; [exact Hap|].
    cbv beta. rewrite Hfat, Htpl. cbn [mbind option_bind template_seen lg_level lg_category lg_format]. rewrite Hat2, Hname.
    cbn [mbind option_bind]. rewrite Kep, Eback. by rewrite Est3.
  - rewrite Est3. cbn. by rewrite Er2, Er1.
  - rewrite Est3. cbn. rewrite Ef2. destruct Hap as (i & body & _ & _ & Hc3 & _). split_and!; [done|lia|lia].
Qed.

(** ** Sequences of records *)

Inductive log_op := Log (mem_f mem_t : bool) (r : list Z) | Drain.

Definition log_step (op : log_op) (c : compressed) : option compressed :=
  match op with
  | Log mem_f mem_t r => '(ok, c) ← log_impl fresh mem_f mem_t r c; if (ok : bool) then Some c else None
  | Drain => w ← flush fresh (cache_ c); Some (set_cache w c)
  end.

Fixpoint log_run (ops : list log_op) (c : compressed) : option compressed :=
  match ops with [] => Some c | op :: ops => c ← log_step op c; log_run ops c end.

Definition op_record (op : log_op) : list (list Z) := match op with Log _ _ r => [r] | Drain => [] end.

(** [rgs]: records with what they say. *)
Definition known_records (rgs : list (list Z * logged)) : Prop :=
  Forall (fun rg => loggable rg.1 rg.2 /\ name_of (lg_thread rg.2) = lg_thread_name rg.2 /\
    exists k, template_hash rg.1 = Some k /\ template_of k = template_seen rg.2) rgs.

Lemma log_run_ok (ops : list log_op) (rgs : list (list Z * logged)) (c : compressed) (st : decoded) :
  ops ≫= op_record = rgs.*1 -> known_records rgs -> knows c st ->
  zlen (d_formats st) + zlen rgs + 1 < max_templates -> current_thread_info_max_index_ c + zlen rgs + 1 < max_templates ->
  cursor_ (cache_ c) + 2 ^ 34 * zlen rgs < 2 ^ 59 ->
  exists c' st', log_run ops c = Some c' /\ knows c' st' /\ extends c c' st st' /\ d_records st' = d_records st ++ rgs.*2.
Proof.
  revert rgs c st. induction ops as [|op ops IH]; intros rgs c st Eops Hk K Hf Ht Hc.
  { destruct rgs; [|done]. exists c, st. split; [done|]. split; [done|]. split; [by apply extends_refl|]. cbn. by rewrite app_nil_r. }
  cbn [log_run]. destruct op as [mf mt r|]; cbn [log_step].
  - rewrite bind_cons in Eops. cbn [op_record app] in Eops. destruct rgs as [|[r' g] rgs]; [done|]. cbn in Eops. injection Eops as <- Eops.
    apply Forall_cons_1 in Hk as [(Hlo & Hnm & k & Hh & Htp) Hk]. rewrite zlen_cons in *. pose proof (zlen_nonneg rgs). cbn [fst snd] in *.
    destruct (log_impl_ok mf mt r g k c st K Hlo Hh Htp Hnm) as (c1 & st1 & -> & K1 & X1 & Er1 & Hf1 & Ht1 & Hc1); [lia|lia|lia|].
    cbn [mbind option_bind]. destruct (IH rgs c1 st1 Eops Hk K1) as (c2 & st2 & -> & K2 & X2 & Er2); [lia|lia|lia|].
    exists c2, st2. split; [done|]. split; [done|]. split; [by eapply extends_trans|]. rewrite Er2, Er1, <- app_assoc. done.
  - rewrite bind_cons in Eops. cbn [op_record app] in Eops.
    destruct (quiet_flush (cache_ c) (kn_cache _ _ K)) as (w & -> & Qw & Es & Hcw & _); [pose proof (zlen_nonneg rgs); lia|]. cbn [mbind option_bind].
    assert (knows (set_cache w c) st) as K1 by (destruct K; by split).
    destruct (IH rgs (set_cache w c) st Eops Hk K1) as (c2 & st2 & E2 & K2 & X2 & Er2); [done|done|cbn; lia|].
    exists c2, st2. split; [done|]. split; [done|]. split; [|done]. eapply extends_trans; [|exact X2]. by apply extends_refl.
Qed.

(** An appender whose file has just been opened. *)
Record opened (c : compressed) : Prop := {
  op_format_l1 : zlen (format_l1_ c) = FORMAT_L1_SIZE;
  op_thread_l1 : zlen (thread_l1_ c) = THREAD_L1_SIZE;
  op_format_l2 : well_formed (format_l2_ c);
  op_thread_l2 : well_formed (thread_l2_ c);
  op_cache : quiet (cache_ c) }.

Lemma reset_knows (c : compressed) : opened c -> knows (reset c) nothing_decoded.
Proof.
  intros [H1 H2 H3 H4 H5]. split; try done; cbn.
  - split; [unfold zlen in *; by rewrite length_fmap|]. intros j s Hs Hne. apply list_lookup_fmap_Some in Hs as (s' & -> & _). done.
  - split; [unfold zlen in *; by rewrite length_fmap|]. intros j s Hs Hne. apply list_lookup_fmap_Some in Hs as (s' & -> & _). done.
  - exists ∅. split; [by apply clear_cached|done].
  - exists ∅. split; [by apply clear_cached|done].
Qed.

Lemma loggable_hash (r : list Z) (g : logged) : loggable r g -> exists k, template_hash r = Some k.
Proof.
  intros [Hok Hsz Hlog _ _ _]. unfold logged_of in Hlog. unfold template_hash. destruct (read_header r) as [h|] eqn:Eh; [|done].
  cbn [mbind option_bind] in *. destruct (header_ranges r h Hok Eh) as (_ & _ & _ & _ & Rlen).
  destruct (get_format_string_data r h) as [fd|] eqn:Efd; [|done]. cbn [mbind option_bind].
  apply (load_bytes _ _ _ _ Hok) in Efd as (_ & Hz & _). destruct (format_hash h =? 0); cbn [mbind option_bind]; [|eauto].
  destruct (memcpy_with_hash_ok fd fd (log_format_data_len h)) as (k & -> & _); [unfold in_range in *; lia|lia|]. cbn [mbind option_bind]. eauto.
Qed.

End File.

(** ** The property *)

(** No two formats share a hash, and a thread keeps its name. *)
Definition consistent {Ops : CrcOps} (rgs : list (list Z * logged)) : Prop :=
  forall a b, a ∈ rgs -> b ∈ rgs ->
    (template_hash a.1 = template_hash b.1 -> template_seen a.2 = template_seen b.2) /\
    (lg_thread a.2 = lg_thread b.2 -> lg_thread_name a.2 = lg_thread_name b.2).

Lemma find_agrees {A B} (p : A -> bool) (f : A -> B) (d : B) (l : list A) (x : A) :
  x ∈ l -> p x = true -> (forall y, y ∈ l -> p y = true -> f y = f x) ->
  match List.find p l with Some y => f y | None => d end = f x.
Proof.
  intros Hx Hp Hf. destruct (List.find p l) as [y|] eqn:E.
  - apply find_some in E as [Hin Hpy]. apply Hf; [by apply list_elem_of_In|done].
  - apply list_elem_of_In in Hx. pose proof (find_none _ _ E _ Hx). congruence.
Qed.

Lemma consistent_known {Ops : CrcOps} (rgs : list (list Z * logged)) :
  Forall (fun rg => loggable rg.1 rg.2) rgs -> consistent rgs ->
  exists template_of name_of, known_records template_of name_of rgs.
Proof.
  intros Hlo Hc.
  exists (fun k => match List.find (fun rg => bool_decide (template_hash rg.1 = Some k)) rgs with Some rg => template_seen rg.2 | None => (0, 0, []) end),
    (fun id => match List.find (fun rg => bool_decide (lg_thread rg.2 = id)) rgs with Some rg => lg_thread_name rg.2 | None => [] end).
  apply Forall_forall. intros rg Hrg. rewrite Forall_forall in Hlo. specialize (Hlo rg Hrg). split; [done|]. split.
  - apply (find_agrees _ (fun rg => lg_thread_name rg.2) [] rgs rg Hrg); [by apply bool_decide_eq_true_2|].
    intros y Hy Hp. apply bool_decide_eq_true_1 in Hp. by apply Hc.
  - destruct (loggable_hash rg.1 rg.2 Hlo) as [k Hk]. exists k. split; [done|].
    apply (find_agrees _ (fun rg => template_seen rg.2) (0, 0, []) rgs rg Hrg); [by apply bool_decide_eq_true_2|].
    intros y Hy Hp. apply bool_decide_eq_true_1 in Hp. apply Hc; [done|done|congruence].
Qed.

(** C8. A compressed file can be read back: when records are logged to a file that has just
    been opened, with flushes in between and whether or not the caches get memory, no
    assertion fails and no write leaves a handle; what the file gets decodes, by the reader
    of the format, to exactly the records that were logged, in order: time, level, category,
    format text, thread and arguments. The formats' hashes are assumed not to collide, no
    string to begin with a zero byte and the threads to keep their names; two million records,
    of half a gigabyte at most, fit. *)
Theorem compressed_file_roundtrip {Ops : CrcOps} {F : Flush} {fresh : Z} {L : FlushLaws F fresh} (ops : list log_op) (rgs : list (list Z * logged)) (c : compressed) :
  opened c -> ops ≫= op_record = rgs.*1 -> Forall (fun rg => loggable rg.1 rg.2) rgs -> consistent rgs ->
  zlen rgs <= 2000000 -> cursor_ (cache_ c) < 2 ^ 58 ->
  exists c' items st, log_run (fresh := fresh) ops (reset c) = Some c' /\ stream (cache_ c') = stream (cache_ c) ++ items /\
    decode_items items = Some st /\ d_records st = rgs.*2.
Proof.
  intros Ho Eops Hlo Hc Hn Hcur. destruct (consistent_known rgs Hlo Hc) as (tpl & nam & Hk).
  destruct (log_run_ok tpl nam ops rgs (reset c) nothing_decoded Eops Hk (reset_knows tpl nam c Ho)) as (c' & st & E & _ & (s & Es & Hd) & Er).
  - change (zlen (d_formats nothing_decoded)) with 0. unfold max_templates. lia.
  - change (current_thread_info_max_index_ (reset c)) with 0. unfold max_templates. lia.
  - cbn [reset cache_]. lia.
  - exists c', s, st. split; [done|]. split; [done|]. split; [by apply decodes_all|done].
Qed.

(** A record with a format of the text [hi {}] and one argument, logged at [ms] by the thread 7. *)
Definition sample_record (ms : Z) (arg : Z) : list Z :=
  [ms; 3; 0; 0; 0; 0; 0; 0; 52; 0; 0; 0; 0; 0; 0; 0; 7; 0; 0; 0; 0; 0; 0; 0; 15; 168; 11; 238; 210; 14; 220; 128; 17; 2; 0; 0;
   5; 0; 0; 0; 104; 105; 32; 123; 125; 0; 0; 0; 3; 0; arg; 0; 1; 84].

Definition sample_logged (ms arg : Z) : logged := mk_logged (768 + ms) 2 0 [104; 105; 32; 123; 125] 7 [84] [(3, V_number arg)].

Definition sample_appender : compressed :=
  mk_compressed (replicate 256 (mk_slot 0 CACHE_EMPTY)) (replicate 64 (mk_slot 0 CACHE_EMPTY))
    (new_cache 64 64) (new_cache 64 64) 64 64 0 0 0 0 0 (mk_wc [] 0 0 32 0 65536 false false [81] []).

Lemma sample_opened : @opened base_flush 0 (base_flush_laws 0 zero_byte) sample_appender.
Proof.
  split; [done|done| | |].
  - apply (new_cached 64 64). unfold min_capacity. lia.
  - apply (new_cached 64 64). unfold min_capacity. lia.
  - split; [|done..]. split; unfold zlen, CACHE_WRITE_MIN_SIZE; cbn; try lia. by apply bytes_ok_dec.
Qed.

Lemma sample_loggable (ms arg : Z) : (ms, arg) = (232, 1) \/ (ms, arg) = (235, 0) -> loggable (sample_record ms arg) (sample_logged ms arg).
Proof.
  intros H. destruct H as [[= -> ->]|[= -> ->]]; (split; [|done|vm_compute; reflexivity|by repeat constructor|done|done]);
    repeat (apply Forall_cons; split; [unfold is_byte; lia|]); by apply Forall_nil.
Qed.

Lemma compressed_file_roundtrip_witness :
  exists c' items st, @log_run SoftwareOps base_flush 0 [Log true true (sample_record 232 1); Drain; Log true true (sample_record 235 0)] (reset sample_appender)
      = Some c' /\ raw_stream (cache_ c') = 81 :: items /\ decode_items items = Some st /\
    d_records st = [sample_logged 232 1; sample_logged 235 0] /\
    items = [0; 136; 0; 2; 128; 104; 105; 32; 123; 125; 0; 132; 1; 128; 135; 84; 128; 134; 71; 80; 128; 128; 3; 1; 128; 133; 134; 128;
      128; 3; 0].
Proof.
  destruct (@compressed_file_roundtrip SoftwareOps base_flush 0 (base_flush_laws 0 zero_byte) [Log true true (sample_record 232 1); Drain; Log true true (sample_record 235 0)]
    [(sample_record 232 1, sample_logged 232 1); (sample_record 235 0, sample_logged 235 0)] sample_appender) as (c' & items & st & E & Es & Ed & Er).
  - apply sample_opened.
  - reflexivity.
  - apply Forall_cons. split; [apply sample_loggable; by left|]. apply Forall_cons. split; [apply sample_loggable; by right|by apply Forall_nil].
  - intros a b Ha Hb. repeat rewrite elem_of_cons in *. rewrite elem_of_nil in *.
    destruct Ha as [->|[->|[]]], Hb as [->|[->|[]]]; done.
  - vm_compute. discriminate.
  - reflexivity.
  - exists c', items, st. split; [exact E|]. split; [exact Es|]. split; [exact Ed|]. split; [exact Er|].
    vm_compute in E. injection E as <-. vm_compute in Es. by injection Es as <-.
Defined.
